(* ===== verification/_CoqProject ===== *)
-Q . S2P
Prelude.v
Wire.v
CommonMath.v
Bytes.v
ReplayWindow.v
Batch.v
FlowData.v
RobinHood.v
Buckets.v
Rtt.v
Delivery.v
Curve.v
Congestion.v
Fifo.v
SlotPool.v
Errors.v
Keys.v
Peer.v
PeerTable.v
PeerIndex.v
PeerInvariant.v
PeerSpec.v
PeerRace.v
Transfer.v
TransferAck.v
TransferRecv.v
TransferSpec.v
TransferLimits.v
TransferSend.v
ReadyLanes.v
InFlow.v
InDeliver.v
InOrder.v
InHistory.v
InUnordered.v
Packet.v
PacketHandle.v
PacketRead.v
PacketBuild.v
OutFlow.v
OutRetransmit.v
OutInvariant.v
OutSteps.v
OutSend.v
OutEnd.v
OutHistory.v
OutTheorems.v
Words.v
Chacha.v
Poly1305.v
Blake2b.v
Crypto.v
PacketSeal.v
PacketStamp.v
FlowProtocol.v
FlowDir.v
AckWire.v
FlowBatch.v
FlowTable.v
FlowTableOk.v
FlowLists.v
Pending.v
FlowTableInv.v
FlowTableSteps.v
FlowTableClose.v
FlowTableHistory.v
FlowTableTheorems.v
Challenge.v
Certificate.v
CertStore.v
PeerHandle.v
Events.v
