(* ===== verification/Prelude.v ===== *)
(** * bcp-flux in Rocq

    A model of the core of bcp-flux, a UDP transport with per-peer sessions, flows,
    congestion control and bulk transfers, of the parts of its [common] library it
    stands on, and of the symmetric cryptography that protects its packets.  Paths
    below are under [src/]: [flux/src/flux] and [flux/include/flux] hold the transport,
    [external/common] the library, [external/monocypher] the cryptography.

    ** How the program's parts meet

    A socket owns three tables.  The peer table maps addresses, ids and tags to peer
    slots handed out by a slot pool; the flow table and the transfer table keep what
    is sent and received per peer.  A peer record carries the replay window, the
    round-trip and delivery estimators, the congestion budget and its directories of
    flow associations.  A send is built into a packet, batched or not, admitted by its
    association against the peer's budget and pacing, stamped, sealed and retransmitted
    until it is acknowledged.  What arrives is opened, filtered by the replay window,
    put in order by its receiving association and queued in the lanes from which the
    application polls.  Acknowledgements return budget and feed the estimators, and the
    controller moves the budget on each report.

    ** Files

    - [Prelude] (this file): machine integers as wrapped [Z], arrays with total
      access, field assignment [r <| f := v |>] by a class of record shapes ([Eta],
      [Upd]), counted loops, memory regions, and the tactics and hints over them.
      [Wire]: the constants of [internal/constants.h] and of the controller byte.
    - [CommonMath]: [common/math.h].  [Bytes]: [common/wire/bytes_reader],
      [bytes_writer].  [Errors]: the codes of [common/error.h].
    - [ReplayWindow]: [internal/replay_window].  [Batch]: [wire/batch].
      [FlowData]: the flow modes and the data byte of [flow/flow.h].
    - [RobinHood]: the index helpers of [peer/peer_table.cpp], over any key.
    - [Buckets]: the rotating time buckets the two estimators share; [Rtt]:
      [internal/rtt.h]; [Delivery]: [internal/delivery.h]; [Curve]:
      [internal/congestion_curve.h]; [Congestion]: [peer/congestion.cpp].
    - [Fifo]: [common/collections/fifo_queue.h]; [SlotPool]:
      [common/collections/slot_pool].  [SlotPool] also declares the class
      [Allocator], what a pool promises its clients, and makes the pool an instance;
      the tables are written and proved against the class.
    - [Keys]: [address.h] and [peer/peer_id.h], comparison and hashing; [Peer]: the
      peer record and what registration writes.
    - [PeerTable]: the operations of [peer/peer_table.cpp], a writer's operation being a
      plan of stages, each a store or a call that stores; [PeerIndex]: what an index
      represents as a map or multimap; [PeerInvariant]: the table's invariant and
      every operation's core lemma; [PeerSpec]: histories and the table's contract;
      [PeerRace]: the same stages run against lock-free readers; [PeerHandle]:
      [peer/peer_handle].
    - [Transfer], [TransferAck]: the operations of [transfer/transfer_table.cpp];
      [TransferRecv]: bits, ring and cursor; [TransferSpec]: what a receiver
      promises; [TransferSend]: what a sender keeps account of; [TransferLimits]:
      where the table's bookkeeping gives out.
    - [ReadyLanes]: [socket/ready_lanes]; it also declares the class [ReadyQueue], what
      delivery relies on, and makes the lanes an instance.  [InFlow]: the receiving
      association, its seen window and acknowledgement ranges, of [flow/flow.h] and
      [flow/flow_table.cpp]; [InDeliver]: delivery and the hold-back ring, over
      [ReadyQueue] and [Allocator]; [InOrder]: the ordered receiver's specification and
      the refinement of one step; [InHistory], [InUnordered]: whole histories.
    - [OutFlow], [OutRetransmit]: the sending association of [flow/flow_table.cpp],
      its rings, admission, acknowledgement, resend scan and teardown; [OutInvariant]:
      its invariant; [OutSteps], [OutSend], [OutEnd]: every operation keeps it;
      [OutHistory]: histories; [OutTheorems]: what they promise.
    - [Packet], [PacketHandle], [PacketRead], [PacketBuild]: [socket/packet_slot] (the
      accessors, the handle, the reader and cursor, the writer) and
      [wire/packet_builder], over the class [SocketKernel]; [PacketStamp]: what the send
      pass writes into a packet that was built.
    - [FlowProtocol]: one ordered flow end to end, the two halves and a network.
    - [FlowDir]: [flow/assoc_directory.cpp] and the pools behind one index space;
      [AckWire]: the acknowledgement body of [flow/flow_table.cpp] and
      [socket/socket.cpp]; [FlowBatch]: [flow/flow_batching.cpp]; [FlowTable]: the rest
      of [flow/flow_table.cpp] and the handlers of [socket/socket.cpp] that drive it.
      [FlowTableOk], [FlowLists], [FlowTableInv]: its invariant; [FlowTableSteps],
      [FlowTableClose]: every operation keeps it; [FlowTableHistory],
      [FlowTableTheorems]: histories and what they promise.
    - [Pending]: [socket/pending_packet].  [Events]: [socket/socket_events].
    - [Words], [Chacha], [Poly1305], [Blake2b]: the parts of [monocypher.c] the packets
      use; [Crypto]: the authenticated encryption over them and [common/crypto/crypto.h];
      [PacketSeal]: [crypto/packet_seal]; [Challenge]: [util/siphash.h] and
      [util/challenge]; [Certificate]: [crypto/certificate], [crypto/identity];
      [CertStore]: [crypto/cert_store].

    A state is a record with the source's fields, an operation a function from the
    state and the arguments to the result and the new state; the name is the
    source's.  [Error] values are the source's codes.

    ** What the theorems show

    - Data: the writer and reader of bytes are inverse and refuse exactly what does
      not fit; batches validate exactly when they are well formed and are read
      back in order; the flow byte decodes to what it was made from and nothing else
      decodes; generations compare right within the window they have.
    - Packets: the builder writes the layout asked for or says which part did not fit;
      stamping changes the two fields it is for; the accessors and the reader find what
      was written; handles keep one owner per slot and one lock per word.
    - Filters and queues: the replay window answers as the set of counters it has
      accepted, hence never twice; the ring queue refines a bounded list; the pool
      never hands out a held slot and fails only when it is empty; a lock word admits
      many readers or one writer; a peer's pending packets are a queue.
    - Estimators and control: minima, averages and totals are those of the samples
      in the window; the timers stay within their bounds; the budget stays within its
      range, is trimmed once per loss event, and the starvation mode is entered exactly
      when its conditions hold.
    - Peer table: insertion and removal keep the Robin Hood order and change exactly
      one entry; any history keeps the three indexes, the pool and the peers
      consistent and terminates; each operation's outcome is decided by the abstract
      maps.  A lookup that races writers, its loads falling between any two of their
      stores, is right about the table before or after an operation that runs during
      the call; nothing is assumed of what it reads.
    - Transfers: a transfer is rebuilt from packets in any order with any duplicates;
      no packet writes outside its own place; the count in flight is always the number of
      stamps set, and what acknowledgements free is what they take off it.
    - Flows, receiving: an ordered association puts 1, 2, 3, ... into its peer's lane
      whatever arrives and whatever the rest of the socket does, loses no slot, leaves
      nothing undelivered that could be delivered, and acknowledges only what it
      delivered or holds; an unordered one delivers nothing twice.  The lanes hand a
      peer's packets out in that order and refuse none while every receive slot is
      queued once.
    - Flows, sending: what is charged to a peer is what is pending, in every history;
      admission is decided exactly by the association, the budget and the pacing; a
      packet the receiver may still need keeps its copy; acknowledgements resolve what
      they name; an association that ends gives everything back.  Between the two
      halves, over a network that loses, repeats and reorders, the receiver hands over
      what was stamped, in order.
    - The flow table: in every history its lists end, its directories and lists name the
      same associations, closing a flow or sweeping a peer ends and takes exactly what
      it should; a directory is a map, whichever slot is erased from it; an
      acknowledgement body is read back as it was written; a batch loses no message.
    - Cryptography: the buffered ciphers and hashes compute one-shot specifications
      whatever pieces they are fed (the polynomial of Poly1305 is independent of the
      code; ChaCha20, BLAKE2b and SipHash share their round function with it and are
      pinned by published vectors in their files); encryption is undone by decryption and
      a packet opens exactly as it was sealed.
    - Handshake support: a challenge is accepted for one window at least and two at
      most; the certificate store answers as a map of what was added; certificates are
      read back as written.
    - Events: none is lost, and a dispatch hands over exactly what its lane has.
    - Faults: several theorems exhibit inputs on which the code departs from its own
      comments (a cube root that overflows, a pool size that wraps, a window curve that
      overflows, a queue of one that overwrites, a budget floor above the initial budget,
      rings shorter than their pool, a transfer finished twice, a packet a window
      early).  Each is a proved statement about the code as it is.

    ** Choices

    - Integers are [Z] with the wrap written out ([u32], [u64], [i64]) wherever the
      source's arithmetic can wrap.  Arrays are lists; reads and writes in the models
      are total, and the invariants prove the indices in range.
    - Loops with a bound in the source run on that bound.  A probe of an index has
      fuel equal to the number of buckets, a drain the number of queued entries, the
      cursor's walk the packets left, the walk of a flow's list the number of
      association slots; [None] stands for a loop or a wait that does not
      end, and the theorems prove that it does not arise, or show where it does.
    - A table's writers hold its lock for a whole operation, the drain of a removed slot
      included, so operations run one at a time.  In [PeerRace] the loads of a lock-free
      reader and the stores of the writers interleave freely, in one order for all
      threads (sequential consistency), a record is loaded under its slot's lock in one
      step, and fewer than 2^32 steps fall into one attempt, since a version that wraps
      all the way cannot be told from one that stood still.  A handle's own writes to a
      peer fall between operations.  Elsewhere a file models one thread and the locks of
      single slots are free; a write lock that returns no slot does not arise in the
      source.
    - An acknowledgement's effect and the controller's report it leads to are one step
      of the sending histories.
    - The flow table's theorems take the counts of its split pools to be powers of two;
      [FlowTableTheorems.odd_counts_collide] shows what other counts do.
    - The hash of a stack address that picks a pool's ring is an argument ([hint]), as
      are the time, the platform's random bytes, and the sixteen bytes of stack the
      authenticator leaves unset ([memory]).  Allocation succeeds.
    - Application buffers are byte strings; two running transfers are assumed not to
      share one.

    ** Not modelled

    - Of Monocypher: X25519, the signatures, Argon2 and Elligator.  The program uses the
      first, for its handshake; with it go key agreement, the generation and parsing of
      identities, and the handshake's messages.
    - The socket's receive loop and tick, its handshake, its threads and the calls it
      makes of the system; of [socket/socket.cpp] only the handlers that drive the flow
      table are modelled.  The platform sockets, the log and the parser and printer of
      textual addresses are calls of the platform.
    - The interleavings of single atomic operations inside the pool, the ring queue and
      the event table, the races of a certificate check with an addition, and memory
      orders weaker than one order for all. *)

From Stdlib Require Export ZArith Lia Bool.
From stdpp Require Export base tactics list numbers list_numbers.

Open Scope Z_scope.

Declare Scope flux_scope.
Delimit Scope flux_scope with flux.

(** ** Machine integers *)

Definition u8 (x : Z) : Z := x mod 2 ^ 8.
Definition u16 (x : Z) : Z := x mod 2 ^ 16.
Definition u32 (x : Z) : Z := x mod 2 ^ 32.
Definition u64 (x : Z) : Z := x mod 2 ^ 64.

(** Two's complement reading of a [w]-bit value. *)
Definition signed (w x : Z) : Z :=
  let m := x mod 2 ^ w in if m <? 2 ^ (w - 1) then m else m - 2 ^ w.
Definition i8 (x : Z) : Z := signed 8 x.
Definition i32 (x : Z) : Z := signed 32 x.
Definition i64 (x : Z) : Z := signed 64 x.

Definition UINT16_MAX : Z := 2 ^ 16 - 1.
Definition UINT32_MAX : Z := 2 ^ 32 - 1.
Definition UINT64_MAX : Z := 2 ^ 64 - 1.

Abbreviation is_u8 x := (0 <= x < 2 ^ 8).
Abbreviation is_u16 x := (0 <= x < 2 ^ 16).
Abbreviation is_u32 x := (0 <= x < 2 ^ 32).
Abbreviation is_u64 x := (0 <= x < 2 ^ 64).

Create HintDb flux.
Create Rewrite HintDb fluxrw.

Lemma u8_range x : is_u8 (u8 x).
Proof. apply Z.mod_pos_bound; lia. Qed.
Lemma u16_range x : is_u16 (u16 x).
Proof. apply Z.mod_pos_bound; lia. Qed.
Lemma u32_range x : is_u32 (u32 x).
Proof. apply Z.mod_pos_bound; lia. Qed.
Lemma u64_range x : is_u64 (u64 x).
Proof. apply Z.mod_pos_bound; lia. Qed.
#[export] Hint Resolve u8_range u16_range u32_range u64_range : flux.

Lemma u8_small x : is_u8 x -> u8 x = x.
Proof. apply Z.mod_small. Qed.
Lemma u16_small x : is_u16 x -> u16 x = x.
Proof. apply Z.mod_small. Qed.
Lemma u32_small x : is_u32 x -> u32 x = x.
Proof. apply Z.mod_small. Qed.
Lemma u64_small x : is_u64 x -> u64 x = x.
Proof. apply Z.mod_small. Qed.

Lemma u32_idemp x : u32 (u32 x) = u32 x.
Proof. apply Z.mod_mod; lia. Qed.
Lemma u32_add_l x y : u32 (u32 x + y) = u32 (x + y).
Proof. apply Zplus_mod_idemp_l. Qed.
Lemma u32_add_r x y : u32 (x + u32 y) = u32 (x + y).
Proof. apply Zplus_mod_idemp_r. Qed.
Lemma u32_sub_l x y : u32 (u32 x - y) = u32 (x - y).
Proof. apply Zminus_mod_idemp_l. Qed.
Lemma u32_sub_r x y : u32 (x - u32 y) = u32 (x - y).
Proof. apply Zminus_mod_idemp_r. Qed.
#[export] Hint Rewrite u32_idemp u32_add_l u32_add_r u32_sub_l u32_sub_r : fluxrw.

(** The signed difference of two wrapped 32-bit counters is their true
    difference whenever that difference is representable. *)
Lemma i32_diff a b : - 2 ^ 31 <= a - b < 2 ^ 31 -> i32 (u32 a - u32 b) = a - b.
Proof.
  intros H. unfold i32, signed, u32.
  rewrite <- Zminus_mod.
  destruct (Z.leb_spec 0 (a - b)).
  - rewrite (Z.mod_small (a - b)) by lia.
    destruct (Z.ltb_spec (a - b) (2 ^ (32 - 1))); lia.
  - rewrite <- (Z_mod_plus_full _ 1), Z.mod_small by lia.
    destruct (Z.ltb_spec (a - b + 1 * 2 ^ 32) (2 ^ (32 - 1))); lia.
Qed.

Lemma i32_small x : - 2 ^ 31 <= x < 2 ^ 31 -> i32 x = x.
Proof.
  intros H. unfold i32, signed. destruct (Z.leb_spec 0 x).
  - rewrite (Z.mod_small x) by lia. destruct (Z.ltb_spec x (2 ^ (32 - 1))); lia.
  - rewrite <- (Z_mod_plus_full _ 1), Z.mod_small by lia. destruct (Z.ltb_spec (x + 1 * 2 ^ 32) (2 ^ (32 - 1))); lia.
Qed.

(** ** Tactics *)

(** Splits every boolean comparison on integers that the goal or a hypothesis
    still tests, leaving the arithmetic facts. *)
Ltac zcase :=
  match goal with
  | |- context [?a <? ?b] => destruct (Z.ltb_spec a b)
  | |- context [?a <=? ?b] => destruct (Z.leb_spec a b)
  | |- context [?a =? ?b] => destruct (Z.eqb_spec a b)
  | H : context [?a <? ?b] |- _ => destruct (Z.ltb_spec a b)
  | H : context [?a <=? ?b] |- _ => destruct (Z.leb_spec a b)
  | H : context [?a =? ?b] |- _ => destruct (Z.eqb_spec a b)
  end.
Ltac zcases := repeat (zcase; try lia; simplify_eq/=).

(** Turns what is known of boolean tests into propositions. *)
Ltac bprop :=
  repeat match goal with
  | H : negb _ = true |- _ => apply negb_true_iff in H
  | H : negb _ = false |- _ => apply negb_false_iff in H
  | H : _ && _ = true |- _ => apply andb_true_iff in H as [? ?]
  | H : _ || _ = false |- _ => apply orb_false_iff in H as [? ?]
  | H : (_ =? _) = true |- _ => apply Z.eqb_eq in H
  | H : (_ =? _) = false |- _ => apply Z.eqb_neq in H
  | H : (_ <=? _) = true |- _ => apply Z.leb_le in H
  | H : (_ <=? _) = false |- _ => apply Z.leb_gt in H
  | H : (_ <? _) = true |- _ => apply Z.ltb_lt in H
  | H : (_ <? _) = false |- _ => apply Z.ltb_ge in H
  end.

(** Linear arithmetic with division and remainder by constants. *)
Ltac zdm := Z.to_euclidean_division_equations; lia.
Ltac znia := Z.to_euclidean_division_equations; nia.

(** Discharges a wrap-around whose argument is already in range. *)
Ltac unwrap :=
  repeat match goal with
  | |- context [u8 ?x] => rewrite (u8_small x) by (lia || zdm)
  | |- context [u16 ?x] => rewrite (u16_small x) by (lia || zdm)
  | |- context [u32 ?x] => rewrite (u32_small x) by (lia || zdm)
  | |- context [u64 ?x] => rewrite (u64_small x) by (lia || zdm)
  end.

(** ** Arrays

    A C array is a list; an index is a machine integer.  A read or a write
    outside the array is not defined behaviour in the source, so the components
    prove their indices in range; the total accessors below keep the
    definitions executable. *)

Definition arr_get {A} `{Inhabited A} (a : list A) (i : Z) : A := a !!! Z.to_nat i.
Definition arr_set {A} (a : list A) (i : Z) (v : A) : list A := <[Z.to_nat i := v]> a.

Notation "a .[ i ]" := (arr_get a i) (at level 1, left associativity, format "a .[ i ]") : flux_scope.
Notation "a .[ i <- v ]" := (arr_set a i v) (at level 1, left associativity, format "a .[ i  <-  v ]") : flux_scope.
Open Scope flux_scope.

Definition zlen {A} (a : list A) : Z := Z.of_nat (length a).

Section Arrays.
Context {A : Type} `{!Inhabited A}.
Implicit Types (a : list A) (i j : Z) (v : A).

Lemma zlen_set a i v : zlen (a.[i <- v]) = zlen a.
Proof. unfold zlen, arr_set. by rewrite length_insert. Qed.

Lemma arr_get_set_eq a i v : 0 <= i < zlen a -> (a.[i <- v]).[i] = v.
Proof.
  unfold zlen, arr_get, arr_set. intros H.
  apply list_lookup_total_insert_eq. lia.
Qed.

Lemma arr_get_set_ne a i j v : 0 <= i -> 0 <= j -> i <> j -> (a.[i <- v]).[j] = a.[j].
Proof.
  unfold arr_get, arr_set. intros ???.
  apply list_lookup_total_insert_ne. lia.
Qed.

Lemma arr_get_set a i j v :
  0 <= i < zlen a -> 0 <= j -> (a.[i <- v]).[j] = if i =? j then v else a.[j].
Proof.
  intros ??. destruct (Z.eqb_spec i j) as [<-|].
  - by apply arr_get_set_eq.
  - apply arr_get_set_ne; lia.
Qed.

Lemma arr_set_get_id a i : 0 <= i < zlen a -> a.[i <- a.[i]] = a.
Proof.
  unfold zlen, arr_get, arr_set. intros H.
  destruct (lookup_lt_is_Some_2 a (Z.to_nat i)) as [x Hx]; [lia|].
  rewrite (list_lookup_total_correct _ _ _ Hx). by apply list_insert_id.
Qed.

Lemma Forall_arr_set (P : A -> Prop) a i v : Forall P a -> P v -> Forall P a.[i <- v].
Proof. intros Ha Hv. unfold arr_set. by apply Forall_insert. Qed.

Lemma arr_ext a a' :
  zlen a = zlen a' -> (forall i, 0 <= i < zlen a -> a.[i] = a'.[i]) -> a = a'.
Proof.
  unfold zlen, arr_get. intros Hl H. apply list_eq_same_length with (length a); [lia|lia|].
  intros i x y Hi Hx Hy.
  specialize (H (Z.of_nat i)). rewrite Nat2Z.id in H.
  rewrite (list_lookup_total_correct _ _ _ Hx), (list_lookup_total_correct _ _ _ Hy) in H.
  apply H. lia.
Qed.

Lemma zlen_replicate n v : 0 <= n -> zlen (replicate (Z.to_nat n) v) = n.
Proof. intros. unfold zlen. rewrite length_replicate. lia. Qed.

Lemma arr_get_replicate n v i : 0 <= i < n -> (replicate (Z.to_nat n) v).[i] = v.
Proof. intros. unfold arr_get. apply lookup_total_replicate_2. lia. Qed.
End Arrays.

#[export] Hint Rewrite @zlen_set : fluxrw.

Lemma Forall_snoc_inv {A} (P : A -> Prop) l x : Forall P (l ++ [x]) -> Forall P l /\ P x.
Proof. intros H. apply Forall_app in H as [? H]. split; [done|]. by inversion H. Qed.

(** ** Field assignment

    [r <| f := v |>] is the record [r] after the source's [r.f = v].  A record
    takes part by naming its fields once, in an [Eta] instance. *)

Class Eta (R : Type) := eta : R -> R.
Class Upd {R T : Type} (f : R -> T) := upd : T -> R -> R.
Arguments upd {R T} f {_} v r /.

Ltac derive_upd R f :=
  let e := constr:(_ : Eta R) in
  let e := eval hnf in e in
  lazymatch eval pattern f in e with
  | ?F _ => let u := eval cbv beta in (fun v => F (fun _ => v)) in exact u
  end.
#[export] Hint Extern 1 (@Upd ?R _ ?f) => derive_upd R f : typeclass_instances.

Notation "r <| f := v |>" := (upd f v r)
  (at level 1, left associativity, f at level 0, v at level 99, format "r <| f  :=  v |>") : flux_scope.

(** ** Counted loops

    [for_up i n f s] runs [f i s], [f (i+1)], ... for [n] iterations: the
    [for (i = lo; i < hi; ++i)] of the source with [n = hi - lo]. *)

Fixpoint for_up {S} (i : Z) (n : nat) (f : Z -> S -> S) (s : S) : S :=
  match n with
  | O => s
  | Datatypes.S n' => for_up (i + 1) n' f (f i s)
  end.

(** [for_down n f s] runs [f (n-1)], ..., [f 0]: a descending loop. *)
Fixpoint for_down {S} (n : nat) (f : Z -> S -> S) (s : S) : S :=
  match n with
  | O => s
  | Datatypes.S n' => for_down n' f (f (Z.of_nat n') s)
  end.

Lemma for_up_inv {S} (P : Z -> S -> Prop) i n f s :
  P i s ->
  (forall k s, i <= k < i + Z.of_nat n -> P k s -> P (k + 1) (f k s)) ->
  P (i + Z.of_nat n) (for_up i n f s).
Proof.
  revert i s. induction n as [|n IH]; intros i s H0 Hs; simpl.
  - by rewrite Z.add_0_r.
  - replace (i + Z.of_nat (Datatypes.S n)) with (i + 1 + Z.of_nat n) by lia.
    apply IH.
    + apply Hs; [lia|done].
    + intros k s' Hk. apply Hs. lia.
Qed.

Lemma for_down_inv {S} (P : Z -> S -> Prop) n f s :
  P (Z.of_nat n) s ->
  (forall k s, 0 <= k < Z.of_nat n -> P (k + 1) s -> P k (f k s)) ->
  P 0 (for_down n f s).
Proof.
  revert s. induction n as [|n IH]; intros s H0 Hs; simpl; [done|].
  apply IH.
  - apply Hs; [lia|]. by replace (Z.of_nat n + 1) with (Z.of_nat (Datatypes.S n)) by lia.
  - intros k s' Hk. apply Hs. lia.
Qed.

(** The same loop where a step may have no answer. *)
Fixpoint for_upM {S} (i : Z) (n : nat) (f : Z -> S -> option S) (s : S) : option S :=
  match n with
  | O => Some s
  | Datatypes.S n' => s' ← f i s; for_upM (i + 1) n' f s'
  end.

Lemma for_upM_inv {S} (P : Z -> S -> Prop) i n f s :
  P i s ->
  (forall k s, i <= k < i + Z.of_nat n -> P k s -> exists s', f k s = Some s' /\ P (k + 1) s') ->
  exists s', for_upM i n f s = Some s' /\ P (i + Z.of_nat n) s'.
Proof.
  revert i s. induction n as [|n IH]; intros i s H0 Hs; cbn [for_upM].
  - exists s. by rewrite Z.add_0_r.
  - destruct (Hs i s) as (s1&->&H1); [lia|done|]. cbn [mbind option_bind].
    destruct (IH (i + 1) s1 H1) as (s'&->&H'); [intros k s' Hk; apply Hs; lia|].
    exists s'. split; [done|]. replace (i + Z.of_nat (Datatypes.S n)) with (i + 1 + Z.of_nat n) by lia. done.
Qed.

Lemma for_upM_keep {S} (P : S -> Prop) n f : forall i s s',
  (forall k s1 s2, f k s1 = Some s2 -> P s1 -> P s2) -> for_upM i n f s = Some s' -> P s -> P s'.
Proof.
  induction n as [|n IH]; intros i s s' Hf E Hs; cbn [for_upM] in E; [by simplify_eq|].
  destruct (f i s) as [s1|] eqn:E1; [|done]. cbn [mbind option_bind] in E. apply (IH (i + 1) s1); [done|done|]. by apply (Hf i s).
Qed.

(** Searches [i, i+n) upwards for the first index that satisfies [p]. *)
Fixpoint find_up (i : Z) (n : nat) (p : Z -> bool) : option Z :=
  match n with
  | O => None
  | Datatypes.S n' => if p i then Some i else find_up (i + 1) n' p
  end.

Lemma find_up_Some i n p k :
  find_up i n p = Some k ->
  i <= k < i + Z.of_nat n /\ p k = true /\ (forall j, i <= j < k -> p j = false).
Proof.
  revert i. induction n as [|n IH]; intros i; simpl; [done|].
  destruct (p i) eqn:E.
  - intros [= ->]. repeat split; [lia|lia|done|]. intros; lia.
  - intros (?&?&Hj)%IH. repeat split; [lia|lia|done|].
    intros j Hlt. destruct (decide (j = i)) as [->|]; [done|]. apply Hj. lia.
Qed.

Lemma find_up_None i n p :
  find_up i n p = None -> forall j, i <= j < i + Z.of_nat n -> p j = false.
Proof.
  revert i. induction n as [|n IH]; intros i; simpl; [intros; lia|].
  destruct (p i) eqn:E; [done|]. intros Hn j Hj.
  destruct (decide (j = i)) as [->|]; [done|]. apply (IH (i + 1)); [done|lia].
Qed.

(** ** Bits *)

Lemma testbit_high x w i : 0 <= x < 2 ^ w -> 0 <= w <= i -> Z.testbit x i = false.
Proof.
  intros Hx Hw. rewrite <- (Z.mod_small x (2 ^ w)) by lia.
  apply Z.mod_pow2_bits_high. lia.
Qed.

Lemma land_mask x k : 0 <= k -> Z.land x (2 ^ k - 1) = x mod 2 ^ k.
Proof. intros. rewrite <- Z.land_ones, Z.ones_equiv by lia. f_equal. Qed.

(** Two numbers of one window of [n] with the same place in a ring of [n]. *)
Lemma mod_window_inj n lo s t : 0 < n -> lo <= s < lo + n -> lo <= t < lo + n -> s mod n = t mod n -> s = t.
Proof. intros Hn Hs Ht E. pose proof (Z.div_mod s n ltac:(lia)). pose proof (Z.div_mod t n ltac:(lia)). assert (s / n = t / n) by nia. lia. Qed.

Lemma lor_lt x y w : 0 <= w -> 0 <= x < 2 ^ w -> 0 <= y < 2 ^ w -> 0 <= Z.lor x y < 2 ^ w.
Proof.
  intros Hw Hx Hy. split; [apply Z.lor_nonneg; lia|].
  destruct (Z.eq_dec (Z.lor x y) 0) as [->|]; [lia|].
  apply Z.log2_lt_pow2; [pose proof (proj2 (Z.lor_nonneg x y)); lia|].
  rewrite Z.log2_lor by lia.
  destruct (Z.eq_dec x 0) as [->|], (Z.eq_dec y 0) as [->|]; simpl.
  - done.
  - rewrite Z.max_r by apply Z.log2_nonneg. apply Z.log2_lt_pow2; lia.
  - rewrite Z.max_l by apply Z.log2_nonneg. apply Z.log2_lt_pow2; lia.
  - apply Z.max_lub_lt; apply Z.log2_lt_pow2; lia.
Qed.

(** ** Little-endian bytes *)

(** The low [n] bytes of [x], least significant first. *)
Fixpoint le_bytes (n : nat) (x : Z) : list Z :=
  match n with
  | O => []
  | Datatypes.S n' => u8 x :: le_bytes n' (Z.shiftr x 8)
  end.

Fixpoint le_value (l : list Z) : Z :=
  match l with
  | [] => 0
  | b :: l' => b + 2 ^ 8 * le_value l'
  end.

Lemma le_value_bytes n x : le_value (le_bytes n x) = x mod 2 ^ (8 * Z.of_nat n).
Proof.
  revert x. induction n as [|n IH]; intros x; cbn [le_bytes le_value].
  - by rewrite Z.mod_1_r.
  - rewrite IH, Z.shiftr_div_pow2 by lia. unfold u8.
    replace (8 * Z.of_nat (Datatypes.S n)) with (8 + 8 * Z.of_nat n) by lia.
    rewrite Z.pow_add_r, Z.rem_mul_r by lia. lia.
Qed.

Lemma length_le_bytes n x : length (le_bytes n x) = n.
Proof. revert x. induction n; intros; simpl; [done|]. by rewrite IHn. Qed.

Definition is_byte (b : Z) : Prop := 0 <= b < 256.

Lemma le_bytes_byte n x : Forall is_byte (le_bytes n x).
Proof.
  revert x. induction n; intros; simpl; constructor; [|done].
  apply u8_range.
Qed.

Lemma le_bytes_value l : Forall is_byte l -> le_bytes (length l) (le_value l) = l.
Proof.
  induction 1 as [|b l Hb _ IH]; [done|]. unfold is_byte in Hb.
  cbn [length le_bytes le_value]. f_equal.
  - unfold u8. zdm.
  - etransitivity; [|exact IH]. f_equal. rewrite Z.shiftr_div_pow2 by lia. zdm.
Qed.

(** ** Regions of memory

    [region b off n] is the run of [n] cells from [off]; [blit b off src] is
    [memcpy] (or [memmove] once its source has been read) of [src] onto [b] at
    [off]. *)

Definition region {A} (b : list A) (off n : Z) : list A :=
  take (Z.to_nat n) (drop (Z.to_nat off) b).
Definition blit {A} (b : list A) (off : Z) (src : list A) : list A :=
  take (Z.to_nat off) b ++ src ++ drop (Z.to_nat off + length src) b.

Section Regions.
Context {A : Type}.
Implicit Types (b src : list A) (off n : Z).

Lemma length_region b off n :
  0 <= off -> 0 <= n -> off + n <= zlen b -> length (region b off n) = Z.to_nat n.
Proof. unfold region, zlen. intros. rewrite length_take, length_drop. lia. Qed.

Lemma zlen_region b off n :
  0 <= off -> 0 <= n -> off + n <= zlen b -> zlen (region b off n) = n.
Proof. intros. unfold zlen. rewrite length_region by done. lia. Qed.

Lemma length_of_zlen {B} (l : list A) (l' : list B) : zlen l = zlen l' -> length l = length l'.
Proof. unfold zlen. lia. Qed.

Lemma zlen_app (l1 l2 : list A) : zlen (l1 ++ l2) = zlen l1 + zlen l2.
Proof. unfold zlen. rewrite length_app. lia. Qed.

Lemma zlen_nonneg (l : list A) : 0 <= zlen l.
Proof. unfold zlen. lia. Qed.

Lemma zlen_blit b off src :
  0 <= off -> off + zlen src <= zlen b -> zlen (blit b off src) = zlen b.
Proof.
  unfold blit, zlen. intros. rewrite !length_app, length_take, length_drop. lia.
Qed.

Lemma region_blit_eq b off src :
  0 <= off -> off + zlen src <= zlen b -> region (blit b off src) off (zlen src) = src.
Proof.
  unfold region, blit, zlen. intros. rewrite Nat2Z.id.
  rewrite drop_app_length' by (rewrite length_take; lia).
  by rewrite take_app_length.
Qed.

Lemma region_blit_before b off src i n :
  0 <= i -> 0 <= n -> i + n <= off -> off <= zlen b ->
  region (blit b off src) i n = region b i n.
Proof.
  unfold region, blit, zlen. intros.
  rewrite drop_app_le by (rewrite length_take; lia).
  rewrite take_app_le by (rewrite length_drop, length_take; lia).
  rewrite !take_drop_commute, take_take. do 2 f_equal. lia.
Qed.

Lemma region_blit_after b off src i n :
  0 <= off -> off + zlen src <= i -> off + zlen src <= zlen b -> 0 <= n ->
  region (blit b off src) i n = region b i n.
Proof.
  unfold region, blit, zlen. intros.
  rewrite app_assoc, drop_app_ge by (rewrite length_app, length_take; lia).
  rewrite drop_drop, length_app, length_take. f_equal. f_equal. lia.
Qed.

Lemma region_app b off n m :
  0 <= off -> 0 <= n -> 0 <= m ->
  region b off (n + m) = region b off n ++ region b (off + n) m.
Proof.
  unfold region. intros.
  replace (Z.to_nat (n + m)) with (Z.to_nat n + Z.to_nat m)%nat by lia.
  replace (Z.to_nat (off + n)) with (Z.to_nat off + Z.to_nat n)%nat by lia.
  rewrite <- drop_drop. generalize (drop (Z.to_nat off) b). intros l.
  rewrite <- (take_drop (Z.to_nat n) l) at 1.
  destruct (decide (Z.to_nat n <= length l)%nat).
  - rewrite take_app_add' by (rewrite length_take; lia). done.
  - rewrite drop_ge, app_nil_r by lia. rewrite take_nil, app_nil_r.
    rewrite take_take. f_equal. lia.
Qed.

Lemma region_nil b off : region b off 0 = [].
Proof. by unfold region. Qed.

Lemma region_full b : region b 0 (zlen b) = b.
Proof. unfold region, zlen. rewrite Nat2Z.id. simpl. by rewrite firstn_all. Qed.

Lemma blit_nil b off : blit b off [] = b.
Proof. unfold blit. simpl. by rewrite Nat.add_0_r, take_drop. Qed.

(** Storing the next cell extends the copied run by one. *)
Lemma set_blit b off src v :
  0 <= off -> off + zlen src < zlen b ->
  (blit b off src).[off + zlen src <- v] = blit b off (src ++ [v]).
Proof.
  unfold arr_set, blit, zlen. intros.
  destruct (drop (Z.to_nat off + length src) b) as [|x tl] eqn:E.
  { apply (f_equal length) in E. rewrite length_drop in E. simpl in E. lia. }
  rewrite insert_app_r_alt by (rewrite length_take; lia).
  rewrite length_take, insert_app_r_alt by lia.
  replace (_ - _ - _)%nat with 0%nat by lia. simpl.
  rewrite <- app_assoc. simpl. do 3 f_equal.
  rewrite length_app. simpl.
  replace (Z.to_nat off + (length src + 1))%nat with (Z.to_nat off + length src + 1)%nat by lia.
  rewrite <- drop_drop, E. done.
Qed.
End Regions.

#[export] Hint Rewrite @zlen_app : fluxrw.
#[export] Hint Resolve zlen_nonneg : flux.

Lemma region_lookup {A} `{Inhabited A} (b : list A) off n i :
  0 <= off -> 0 <= i < n -> off + n <= zlen b -> (region b off n).[i] = b.[off + i].
Proof.
  unfold region, arr_get, zlen. intros.
  rewrite !list_lookup_total_alt. f_equal.
  rewrite lookup_take_lt by lia. rewrite lookup_drop. f_equal. lia.
Qed.

Lemma region_cons {A} `{Inhabited A} (b : list A) off n :
  0 <= off -> 0 < n -> off + n <= zlen b ->
  region b off n = b.[off] :: region b (off + 1) (n - 1).
Proof.
  intros. replace n with (1 + (n - 1)) at 1 by lia. rewrite region_app by lia.
  assert (region b off 1 = [b.[off]]) as ->; [|done].
  unfold region, arr_get, zlen in *.
  destruct (lookup_lt_is_Some_2 b (Z.to_nat off)) as [x Hx]; [lia|].
  rewrite (list_lookup_total_correct _ _ _ Hx).
  rewrite (drop_S _ _ _ Hx). done.
Qed.

(** Or-ing bytes at disjoint positions is adding them. *)
Lemma lor_shift_add x b k :
  0 <= k -> 0 <= x < 2 ^ k -> Z.lor x (Z.shiftl b k) = x + 2 ^ k * b.
Proof.
  intros Hk Hx. rewrite Z.mul_comm, <- Z.shiftl_mul_pow2 by lia.
  assert (Z.land x (Z.shiftl b k) = 0) as Hl.
  { apply Z.bits_inj'. intros i Hi. rewrite Z.land_spec, Z.testbit_0_l.
    destruct (Z.ltb_spec i k).
    - rewrite Z.shiftl_spec_low by lia. apply andb_false_r.
    - rewrite (testbit_high x k) by lia. done. }
  rewrite <- Z.lxor_lor by done. by rewrite <- Z.add_nocarry_lxor.
Qed.

Lemma u_shift_small w b k :
  0 <= k -> k + 8 <= w -> is_byte b -> Z.shiftl b k mod 2 ^ w = Z.shiftl b k.
Proof.
  unfold is_byte. intros ?? Hb. apply Z.mod_small.
  rewrite Z.shiftl_mul_pow2 by lia.
  assert (2 ^ w = 2 ^ (w - k - 8) * 2 ^ 8 * 2 ^ k) as ->.
  { rewrite <- !Z.pow_add_r by lia. f_equal. lia. }
  pose proof (Z.pow_pos_nonneg 2 (w - k - 8)). pose proof (Z.pow_pos_nonneg 2 k).
  nia.
Qed.

Lemma blit_blit {A} (b l1 l2 : list A) p :
  0 <= p -> p + zlen l1 + zlen l2 <= zlen b ->
  blit (blit b p l1) (p + zlen l1) l2 = blit b p (l1 ++ l2).
Proof.
  unfold blit, zlen. intros.
  rewrite (app_assoc (take _ b)).
  rewrite take_app_length' by (rewrite length_app, length_take; lia).
  rewrite drop_app_ge by (rewrite length_app, length_take; lia).
  rewrite drop_drop, !length_app, length_take, <- !app_assoc. do 4 f_equal. lia.
Qed.

Lemma blit_bytes (b l : list Z) p :
  Forall is_byte b -> Forall is_byte l -> Forall is_byte (blit b p l).
Proof. intros. unfold blit. auto using Forall_app_2, Forall_take, Forall_drop. Qed.

(** ** Lists and one of their places *)

Section Places.
Context {A B : Type} `{!Inhabited A}.
Implicit Types (l : list A).

Lemma concat_map_insert (f : A -> list B) l i x y :
  l !! i = Some x -> concat (map f (<[i := y]> l)) ≡ₚ f y ++ concat (map f (delete i l)).
Proof.
  intros Hi. rewrite insert_take_drop by (by eapply lookup_lt_Some). rewrite delete_take_drop.
  rewrite !map_app, !concat_app. cbn [map concat]. rewrite !app_assoc.
  apply Permutation_app_tail, Permutation_app_comm.
Qed.

Lemma concat_map_lookup (f : A -> list B) l i x :
  l !! i = Some x -> concat (map f l) ≡ₚ f x ++ concat (map f (delete i l)).
Proof. intros Hi. rewrite <- (concat_map_insert f l i x x Hi). by rewrite list_insert_id. Qed.

Definition zsum (f : A -> Z) l : Z := foldr (fun x n => f x + n) 0 l.

Lemma zsum_app f l1 l2 : zsum f (l1 ++ l2) = zsum f l1 + zsum f l2.
Proof. unfold zsum. induction l1 as [|x l1 IH]; cbn; [done|lia]. Qed.

Lemma zsum_insert f l i x y : l !! i = Some x -> zsum f (<[i := y]> l) = zsum f l - f x + f y.
Proof.
  intros Hi. rewrite <- (take_drop_middle l i x Hi) at 2. rewrite insert_take_drop by (by eapply lookup_lt_Some).
  rewrite !zsum_app. cbn. lia.
Qed.

Lemma zsum_set f l i y : 0 <= i < zlen l -> zsum f (l.[i <- y]) = zsum f l - f l.[i] + f y.
Proof.
  intros Hi. unfold zlen in Hi. destruct (lookup_lt_is_Some_2 l (Z.to_nat i)) as [x Hx]; [lia|].
  unfold arr_set, arr_get. rewrite (list_lookup_total_correct _ _ _ Hx). by apply zsum_insert.
Qed.

Lemma zsum_nonneg f l : (forall x, x ∈ l -> 0 <= f x) -> 0 <= zsum f l.
Proof.
  induction l as [|x l IH]; intros Hf; [done|]. cbn. pose proof (Hf x ltac:(left)).
  assert (0 <= zsum f l) by (apply IH; intros y Hy; apply Hf; by right). unfold zsum in *. lia.
Qed.

Lemma zsum_mono f g l : (forall x, x ∈ l -> f x <= g x) -> zsum f l <= zsum g l.
Proof using.
  unfold zsum. induction l as [|x l IH]; intros H; cbn; [lia|]. pose proof (H x ltac:(left)).
  assert (forall y, y ∈ l -> f y <= g y) as Hl by (intros y Hy; apply H; by right). specialize (IH Hl). lia.
Qed.

Lemma zsum_bound f l c : (forall x, x ∈ l -> f x <= c) -> zsum f l <= c * zlen l.
Proof.
  induction l as [|x l IH]; intros Hf; [unfold zsum, zlen; cbn; lia|]. pose proof (Hf x ltac:(left)).
  assert (zsum f l <= c * zlen l) by (apply IH; intros y Hy; apply Hf; by right). unfold zsum, zlen in *. cbn. lia.
Qed.

(** The elements of a flattened list, one place changed. *)
Lemma concat_map_set (f : A -> list B) l i y :
  0 <= i < zlen l -> f l.[i] ++ concat (map f (l.[i <- y])) ≡ₚ f y ++ concat (map f l).
Proof.
  intros Hi. unfold zlen in Hi. destruct (lookup_lt_is_Some_2 l (Z.to_nat i)) as [x Hx]; [lia|].
  unfold arr_set, arr_get. rewrite (list_lookup_total_correct _ _ _ Hx).
  rewrite (concat_map_insert f l _ x y Hx), (concat_map_lookup f l _ x Hx). rewrite !app_assoc.
  apply Permutation_app_tail, Permutation_app_comm.
Qed.

Lemma arr_get_elem l i : 0 <= i < zlen l -> l.[i] ∈ l.
Proof using. intros H. apply (list_elem_of_lookup_2 _ (Z.to_nat i)). apply list_lookup_lookup_total_lt. unfold zlen in H. lia. Qed.

Lemma list_elem_of_arr l x : x ∈ l -> exists i, 0 <= i < zlen l /\ l.[i] = x.
Proof.
  intros (i&Hi)%list_elem_of_lookup. exists (Z.of_nat i). pose proof (lookup_lt_Some _ _ _ Hi).
  split; [unfold zlen; lia|]. unfold arr_get. rewrite Nat2Z.id. by apply list_lookup_total_correct.
Qed.
End Places.
