(* ===== verification/Wire.v ===== *)
(** * Wire sizes and bits: [flux/internal/constants.h], [Controls] of [flux/socket/socket.h]

    The sizes of the fields every packet is laid out from and the bits of its
    first byte, at the values the source gives them. *)

From S2P Require Import Prelude.

Definition MAX_WIRE_PACKET_SIZE : Z := 1200.
Definition WIRE_CONTROLLER_SIZE : Z := 1.
Definition WIRE_TAG_SIZE : Z := 16.
Definition WIRE_NONCE_SIZE : Z := 8.
Definition WIRE_FLOW_ID_SIZE : Z := 2.
Definition WIRE_FLOW_SEQ_SIZE : Z := 4.
Definition WIRE_FLOW_DATA_SIZE : Z := 1.
Definition WIRE_FLOW_HEADER_SIZE : Z := WIRE_FLOW_ID_SIZE + WIRE_FLOW_SEQ_SIZE + WIRE_FLOW_DATA_SIZE.
Definition WIRE_PEER_TAG_SIZE : Z := 4.
Definition WIRE_BATCH_LEN_SIZE : Z := 2.
Definition WIRE_CTRL_BATCH : Z := 0x20.
Definition WIRE_SECURE_CHANNEL_SIZE : Z := 1.
Definition MIN_WIRE_SIZE : Z := WIRE_CONTROLLER_SIZE.
Definition WIRE_SECURE_HEAD_SIZE : Z := WIRE_CONTROLLER_SIZE + WIRE_NONCE_SIZE.
Definition MIN_SECURE_WIRE_SIZE : Z := WIRE_SECURE_HEAD_SIZE + WIRE_TAG_SIZE.

Definition SECURE_CHANNEL_APP : Z := 0.

Definition WIRE_HS_SALT_SIZE : Z := 16.
Definition WIRE_HS_TAG_SIZE : Z := 32.
Definition WIRE_HS_MAC_SIZE : Z := 16.
Definition INVALID_FLOW_ID : Z := 0xFFFF.
Definition WIRE_ACK_ENTRY_HEAD_SIZE : Z := 10.
Definition TRANSFER_WIRE_HEADER_SIZE : Z := 7.

(** ** The controller byte *)

Definition CTRL_INTERNAL : Z := Z.shiftl 1 0.
Definition CTRL_HAS_FLOW : Z := Z.shiftl 1 1.
Definition CTRL_UNSECURE : Z := Z.shiftl 1 2.
Definition CTRL_TAGGED : Z := Z.shiftl 1 3.
Definition CTRL_MACONLY : Z := Z.shiftl 1 4.
Definition CTRL_BATCH : Z := WIRE_CTRL_BATCH.

(** ** Shared by flows and transfers *)

(** How far behind the newest acknowledged packet a missing one counts as lost. *)
Definition LOSS_PACKET_THRESHOLD : Z := 3.

(** How many packets are owed before the acknowledgement leaves at once. *)
Definition ACK_EVERY_PACKETS : Z := 2.
