(* ===== verification/CommonMath.v ===== *)
(** * Integer helpers of [common/math.h]

    [NextPowerOfTwo] smears the top bit of a 32-bit value downward with five
    shift-or steps and adds one.  [CubeRoot] is a binary search on 64-bit
    unsigned integers.  Both are kept at their machine width: every product and
    every sum wraps exactly where the source's wraps. *)

From S2P Require Import Prelude.

(** ** Definitions *)

Definition smear (k n : Z) : Z := Z.lor n (Z.shiftr n k).

Definition NextPowerOfTwo (n : Z) : Z :=
  if n =? 0 then 1
  else
    let n := u32 (n - 1) in
    let n := smear 1 n in
    let n := smear 2 n in
    let n := smear 4 n in
    let n := smear 8 n in
    let n := smear 16 n in
    u32 (n + 1).

(** One iteration of the search loop on the pair [(low, high)]. *)
Definition CubeRoot_step (n : Z) (s : Z * Z) : Z * Z :=
  let '(low, high) := s in
  let mid := u64 (low + (high - low + 1) / 2) in
  if u64 (u64 (mid * mid) * mid) <=? n then (mid, high) else (low, mid - 1).

Fixpoint CubeRoot_loop (fuel : nat) (n : Z) (s : Z * Z) : Z * Z :=
  match fuel with
  | O => s
  | S fuel' =>
      if fst s <? snd s then CubeRoot_loop fuel' n (CubeRoot_step n s) else s
  end.

(** The interval halves at every step and starts at [2^22] wide, so 23 steps
    reach the loop's exit; [CubeRoot_terminates] proves it. *)
Definition CubeRoot (n : Z) : Z :=
  u32 (fst (CubeRoot_loop 23 n (0, 2 ^ 22))).

(** ** [NextPowerOfTwo] *)

Lemma smear_bits k n i :
  0 <= i -> Z.testbit (smear k n) i = Z.testbit n i || Z.testbit n (i + k).
Proof. intros. unfold smear. by rewrite Z.lor_spec, Z.shiftr_spec. Qed.

Lemma smear_nonneg k n : 0 <= n -> 0 <= smear k n.
Proof. intros. unfold smear. apply Z.lor_nonneg. split; [done|]. by apply Z.shiftr_nonneg. Qed.

(** Bits [i .. i+len) of [n], at least one of them set. *)
Definition some_bit (n i len : Z) : Prop := exists j, i <= j < i + len /\ Z.testbit n j = true.

Lemma smear_some_bit n m len i :
  0 < len ->
  (forall j, 0 <= j -> Z.testbit m j = true <-> some_bit n j len) ->
  0 <= i -> Z.testbit (smear len m) i = true <-> some_bit n i (2 * len).
Proof.
  intros Hl Hm Hi. rewrite smear_bits, orb_true_iff by done.
  rewrite !Hm by lia. unfold some_bit. split.
  - intros [(j&?&?)|(j&?&?)]; exists j; split; solve [lia|done].
  - intros (j&?&?). destruct (decide (j < i + len)); [left|right]; exists j; split; solve [lia|done].
Qed.

(** After the five steps a bit is set exactly when it or a higher one was. *)
Lemma smeared_spec n i :
  is_u32 n -> 0 <= i ->
  Z.testbit (smear 16 (smear 8 (smear 4 (smear 2 (smear 1 n))))) i = true
  <-> n <> 0 /\ i <= Z.log2 n.
Proof.
  intros Hn Hi.
  assert (H1 : forall j, 0 <= j -> Z.testbit n j = true <-> some_bit n j 1).
  { intros j Hj. unfold some_bit. split.
    - intros. exists j. split; [lia|done].
    - intros (k&?&?). by replace j with k by lia. }
  pose proof (fun j => smear_some_bit n _ 1 j ltac:(lia) H1) as H2.
  pose proof (fun j => smear_some_bit n _ 2 j ltac:(lia) H2) as H4.
  pose proof (fun j => smear_some_bit n _ 4 j ltac:(lia) H4) as H8.
  pose proof (fun j => smear_some_bit n _ 8 j ltac:(lia) H8) as H16.
  rewrite (smear_some_bit n _ 16 i ltac:(lia) H16 Hi). unfold some_bit. split.
  - intros (j&?&Hb). split; [intros ->; by rewrite Z.testbit_0_l in Hb|].
    destruct (Z.le_gt_cases i (Z.log2 n)); [done|].
    rewrite Z.bits_above_log2 in Hb by lia. done.
  - intros [Hnz Hle]. exists (Z.log2 n). split; [|apply Z.bit_log2; lia].
    split; [lia|].
    enough (Z.log2 n < 32) by lia. apply Z.log2_lt_pow2; lia.
Qed.

Lemma smeared_ones n :
  0 < n < 2 ^ 32 ->
  smear 16 (smear 8 (smear 4 (smear 2 (smear 1 n)))) = 2 ^ (Z.log2 n + 1) - 1.
Proof.
  intros Hn. pose proof (Z.log2_nonneg n).
  replace (2 ^ (Z.log2 n + 1) - 1) with (Z.ones (Z.log2 n + 1))
    by (rewrite Z.ones_equiv; lia).
  apply Z.bits_inj'. intros i Hi.
  apply eq_true_iff_eq. rewrite smeared_spec by lia.
  rewrite Z.testbit_ones_nonneg, Z.ltb_lt by lia. lia.
Qed.

Lemma NextPowerOfTwo_log2 n :
  2 <= n < 2 ^ 32 -> NextPowerOfTwo n = u32 (2 ^ (Z.log2 (n - 1) + 1)).
Proof.
  intros Hn. unfold NextPowerOfTwo.
  destruct (Z.eqb_spec n 0); [lia|].
  rewrite (u32_small (n - 1)) by lia.
  rewrite smeared_ones by lia. f_equal. lia.
Qed.

(** For every size up to [2^31] the result is a power of two, at
    least the argument, and no smaller power of two would do. *)
Theorem NextPowerOfTwo_spec (n : Z) (Hn : 0 <= n <= 2 ^ 31) :
  exists k, 0 <= k <= 31 /\ NextPowerOfTwo n = 2 ^ k /\ n <= 2 ^ k /\
            (forall j, 0 <= j -> n <= 2 ^ j -> 2 ^ k <= 2 ^ j).
Proof.
  destruct (decide (n < 2)) as [Hs|Hs].
  { exists 0. assert (n = 0 \/ n = 1) as [-> | ->] by lia; (repeat split; [lia..|]);
    intros j Hj _; apply (Z.pow_le_mono_r 2 0 j); lia. }
  pose proof (Z.log2_spec (n - 1) ltac:(lia)) as Hl.
  pose proof (Z.log2_nonneg (n - 1)).
  set (L := Z.log2 (n - 1)) in *.
  rewrite <- Z.add_1_r in Hl.
  assert (L < 31) by (apply Z.log2_lt_pow2; lia).
  exists (L + 1). rewrite NextPowerOfTwo_log2 by lia. fold L.
  repeat split; [lia|lia| |lia|].
  - apply u32_small. split; [lia|]. apply Z.pow_lt_mono_r; lia.
  - intros j Hj Hle. apply Z.pow_le_mono_r; [lia|].
    enough (~ j < L + 1) by lia. intros Hlt.
    assert (2 ^ j <= 2 ^ L) by (apply Z.pow_le_mono_r; lia). lia.
Qed.

Lemma NextPowerOfTwo_witness :
  exists k, 0 <= k <= 31 /\ NextPowerOfTwo 1000 = 2 ^ k /\ 1000 <= 2 ^ k /\
            (forall j, 0 <= j -> 1000 <= 2 ^ j -> 2 ^ k <= 2 ^ j).
Proof. apply NextPowerOfTwo_spec. lia. Defined.

(** Past [2^31] there is no 32-bit power of two left and the sum wraps to 0. *)
Lemma NextPowerOfTwo_overflow n : 2 ^ 31 < n < 2 ^ 32 -> NextPowerOfTwo n = 0.
Proof.
  intros Hn. rewrite NextPowerOfTwo_log2 by lia.
  assert (Z.log2 (n - 1) = 31) as ->; [|reflexivity].
  apply Z.log2_unique; [lia|]. change (2 ^ Z.succ 31) with (2 ^ 32). lia.
Qed.

(** ** [CubeRoot] *)

(** The bracket the search keeps: [low] is small enough, [high] is the largest
    candidate left, and no candidate's cube reaches [2^64]. *)
Definition cbrt_bracket (n : Z) (s : Z * Z) : Prop :=
  0 <= fst s <= snd s /\ fst s * fst s * fst s <= n /\
  n < (snd s + 1) * (snd s + 1) * (snd s + 1).

Lemma CubeRoot_step_bracket n s :
  cbrt_bracket n s -> fst s < snd s < 2 ^ 21 ->
  cbrt_bracket n (CubeRoot_step n s) /\
  snd (CubeRoot_step n s) <= snd s /\
  snd (CubeRoot_step n s) - fst (CubeRoot_step n s) <= (snd s - fst s) / 2.
Proof.
  destruct s as [low high]. unfold cbrt_bracket. simpl. intros (?&?&?) ?.
  assert (Hm : u64 (low + (high - low + 1) / 2) = low + (high - low + 1) / 2)
    by (apply u64_small; zdm).
  rewrite Hm. set (mid := low + (high - low + 1) / 2).
  assert (low < mid <= high) by (subst mid; zdm).
  assert (mid * mid < 2 ^ 42) by nia.
  assert (mid * mid * mid < 2 ^ 63) by nia.
  rewrite (u64_small (mid * mid)), (u64_small (mid * mid * mid)) by nia.
  destruct (Z.leb_spec (mid * mid * mid) n); simpl.
  - repeat split; try lia. subst mid. zdm.
  - replace (mid - 1 + 1) with mid by lia. repeat split; try lia. subst mid. zdm.
Qed.

Lemma CubeRoot_loop_spec fuel n s :
  cbrt_bracket n s -> snd s < 2 ^ 21 -> snd s - fst s < 2 ^ Z.of_nat fuel ->
  cbrt_bracket n (CubeRoot_loop fuel n s) /\
  fst (CubeRoot_loop fuel n s) = snd (CubeRoot_loop fuel n s) /\
  snd (CubeRoot_loop fuel n s) < 2 ^ 21.
Proof.
  revert s. induction fuel as [|fuel IH]; intros s Hb Hh Hf.
  - simpl in *. destruct Hb as (?&?&?). repeat split; lia.
  - cbn [CubeRoot_loop]. destruct (Z.ltb_spec (fst s) (snd s)).
    + destruct (CubeRoot_step_bracket n s) as (?&?&?); [done|lia|].
      apply IH; [done|lia|].
      rewrite Nat2Z.inj_succ, Z.pow_succ_r in Hf by lia. zdm.
    + destruct Hb as (?&?&?). repeat split; lia.
Qed.

(** The first probe, at [2^21], rejects every argument below [2^63] and leaves
    a range in which no cube overflows. *)
Lemma CubeRoot_first_step n :
  0 <= n < 2 ^ 63 -> CubeRoot_step n (0, 2 ^ 22) = (0, 2 ^ 21 - 1).
Proof.
  intros Hn. unfold CubeRoot_step.
  change (u64 (0 + (2 ^ 22 - 0 + 1) / 2)) with (2 ^ 21).
  change (u64 (u64 (2 ^ 21 * 2 ^ 21) * 2 ^ 21)) with (2 ^ 63).
  destruct (Z.leb_spec (2 ^ 63) n); [lia|done].
Qed.

Lemma CubeRoot_unfold n :
  0 <= n < 2 ^ 63 -> CubeRoot n = u32 (fst (CubeRoot_loop 22 n (0, 2 ^ 21 - 1))).
Proof.
  intros Hn. unfold CubeRoot. cbn [CubeRoot_loop fst snd].
  change (0 <? 2 ^ 22) with true. cbv iota.
  by rewrite CubeRoot_first_step.
Qed.

(** On every argument below [2^63] the search returns the integer
    cube root: the largest [r] with [r^3 <= n]. *)
Theorem CubeRoot_spec (n : Z) (Hn : 0 <= n < 2 ^ 63) :
  CubeRoot n * CubeRoot n * CubeRoot n <= n <
  (CubeRoot n + 1) * (CubeRoot n + 1) * (CubeRoot n + 1).
Proof.
  rewrite CubeRoot_unfold by done.
  destruct (CubeRoot_loop_spec 22 n (0, 2 ^ 21 - 1)) as ((?&?&?)&Heq&?);
    [|simpl; lia|simpl; lia|].
  { unfold cbrt_bracket. simpl. lia. }
  set (s := CubeRoot_loop 22 n (0, 2 ^ 21 - 1)) in *.
  rewrite u32_small by lia. rewrite <- Heq in *. lia.
Qed.

Lemma CubeRoot_witness :
  CubeRoot 1000000 * CubeRoot 1000000 * CubeRoot 1000000 <= 1000000 <
  (CubeRoot 1000000 + 1) * (CubeRoot 1000000 + 1) * (CubeRoot 1000000 + 1).
Proof. apply (CubeRoot_spec 1000000). lia. Defined.

(** The loop has left its condition for every 64-bit argument: the fuel is
    enough whether or not a cube wraps. *)
Lemma CubeRoot_loop_terminates fuel n s :
  0 <= fst s <= snd s -> snd s <= 2 ^ 22 -> snd s - fst s < 2 ^ Z.of_nat fuel ->
  fst (CubeRoot_loop fuel n s) = snd (CubeRoot_loop fuel n s).
Proof.
  revert s. induction fuel as [|fuel IH]; intros s Hb Hh Hf.
  - simpl in *. lia.
  - cbn [CubeRoot_loop]. destruct (Z.ltb_spec (fst s) (snd s)); [|lia].
    rewrite Nat2Z.inj_succ, Z.pow_succ_r in Hf by lia.
    destruct s as [low high]. simpl in *.
    assert (Hm : u64 (low + (high - low + 1) / 2) = low + (high - low + 1) / 2)
      by (apply u64_small; zdm).
    unfold CubeRoot_step. rewrite Hm.
    destruct (_ <=? n); apply IH; simpl; zdm.
Qed.

(** The comment on [CubeRoot] promises the largest root of any
    [uint64_t].  From [2^63] on the middle of the interval can have a cube past
    [2^64], the product wraps, and the search walks up instead of down: for this
    argument it answers 4082102, whose cube is more than five times too large,
    where the root is 2332012. *)
Theorem CubeRoot_overflow :
  CubeRoot (11 * 2 ^ 60) = 4082102 /\
  4082102 * 4082102 * 4082102 > 5 * (11 * 2 ^ 60) /\
  2332012 * 2332012 * 2332012 <= 11 * 2 ^ 60 < 2332013 * 2332013 * 2332013.
Proof. split; [vm_compute; reflexivity|lia]. Qed.
