(* ===== verification/Bytes.v ===== *)
(** * Byte cursors: [common/wire/bytes_reader], [common/wire/bytes_writer]

    A cursor is a pointer into a caller's buffer plus the bytes it may still
    touch.  The pointer is the pair of the buffer and an offset; [r] is the
    remaining count.  A call that answers [false] returns [None], and the caller
    keeps the cursor it had: the source changes nothing on that path. *)

From S2P Require Import Prelude.

(** ** Reader *)

Record BytesReader := { rd_buf : list Z; rd_p : Z; rd_r : Z }.

Definition rd_at (s : BytesReader) (i : Z) : Z := (rd_buf s).[rd_p s + i].
Definition rd_adv (s : BytesReader) (n : Z) : BytesReader :=
  {| rd_buf := rd_buf s; rd_p := rd_p s + n; rd_r := rd_r s - n |}.

Definition TakeU8 (s : BytesReader) : option (Z * BytesReader) :=
  if rd_r s <? 1 then None else Some (rd_at s 0, rd_adv s 1).

Definition TakeU16 (s : BytesReader) : option (Z * BytesReader) :=
  if rd_r s <? 2 then None
  else Some (u16 (Z.lor (rd_at s 0) (Z.shiftl (rd_at s 1) 8)), rd_adv s 2).

Definition TakeU32 (s : BytesReader) : option (Z * BytesReader) :=
  if rd_r s <? 4 then None
  else Some (Z.lor (Z.lor (Z.lor (rd_at s 0)
                                 (u32 (Z.shiftl (rd_at s 1) 8)))
                          (u32 (Z.shiftl (rd_at s 2) 16)))
                   (u32 (Z.shiftl (rd_at s 3) 24)), rd_adv s 4).

Definition TakeU64 (s : BytesReader) : option (Z * BytesReader) :=
  if rd_r s <? 8 then None
  else Some (Z.lor (Z.lor (Z.lor (Z.lor (Z.lor (Z.lor (Z.lor (rd_at s 0)
               (u64 (Z.shiftl (rd_at s 1) 8)))
               (u64 (Z.shiftl (rd_at s 2) 16)))
               (u64 (Z.shiftl (rd_at s 3) 24)))
               (u64 (Z.shiftl (rd_at s 4) 32)))
               (u64 (Z.shiftl (rd_at s 5) 40)))
               (u64 (Z.shiftl (rd_at s 6) 48)))
               (u64 (Z.shiftl (rd_at s 7) 56)), rd_adv s 8).

Definition TakeBytes (s : BytesReader) (len : Z) : option (list Z * BytesReader) :=
  if rd_r s <? len then None
  else Some (region (rd_buf s) (rd_p s) len, rd_adv s len).

(** ** Writer *)

Record BytesWriter := { wr_buf : list Z; wr_p : Z; wr_r : Z; wr_written : Z }.

(** [*written += static_cast<uint16_t>(len)], a 16-bit total. *)
Definition AddWritten (s : BytesWriter) (len : Z) : BytesWriter :=
  {| wr_buf := wr_buf s; wr_p := wr_p s; wr_r := wr_r s;
     wr_written := u16 (wr_written s + u16 len) |}.

Definition wr_store (s : BytesWriter) (i v : Z) : BytesWriter :=
  {| wr_buf := (wr_buf s).[wr_p s + i <- v]; wr_p := wr_p s; wr_r := wr_r s;
     wr_written := wr_written s |}.
Definition wr_adv (s : BytesWriter) (n : Z) : BytesWriter :=
  {| wr_buf := wr_buf s; wr_p := wr_p s + n; wr_r := wr_r s - n;
     wr_written := wr_written s |}.

Definition PutU8 (s : BytesWriter) (v : Z) : option BytesWriter :=
  if wr_r s <? 1 then None
  else Some (AddWritten (wr_adv (wr_store s 0 v) 1) 1).

Definition PutU16 (s : BytesWriter) (v : Z) : option BytesWriter :=
  if wr_r s <? 2 then None
  else
    let s := wr_store s 0 (u8 (Z.shiftr v 0)) in
    let s := wr_store s 1 (u8 (Z.shiftr v 8)) in
    Some (AddWritten (wr_adv s 2) 2).

Definition PutU32 (s : BytesWriter) (v : Z) : option BytesWriter :=
  if wr_r s <? 4 then None
  else
    let s := wr_store s 0 (u8 (Z.shiftr v 0)) in
    let s := wr_store s 1 (u8 (Z.shiftr v 8)) in
    let s := wr_store s 2 (u8 (Z.shiftr v 16)) in
    let s := wr_store s 3 (u8 (Z.shiftr v 24)) in
    Some (AddWritten (wr_adv s 4) 4).

Definition PutU64 (s : BytesWriter) (v : Z) : option BytesWriter :=
  if wr_r s <? 8 then None
  else
    let s := wr_store s 0 (u8 (Z.shiftr v 0)) in
    let s := wr_store s 1 (u8 (Z.shiftr v 8)) in
    let s := wr_store s 2 (u8 (Z.shiftr v 16)) in
    let s := wr_store s 3 (u8 (Z.shiftr v 24)) in
    let s := wr_store s 4 (u8 (Z.shiftr v 32)) in
    let s := wr_store s 5 (u8 (Z.shiftr v 40)) in
    let s := wr_store s 6 (u8 (Z.shiftr v 48)) in
    let s := wr_store s 7 (u8 (Z.shiftr v 56)) in
    Some (AddWritten (wr_adv s 8) 8).

Definition PutBytes (s : BytesWriter) (data : list Z) : option BytesWriter :=
  let len := zlen data in
  if wr_r s <? len then None
  else Some (AddWritten (wr_adv
         {| wr_buf := blit (wr_buf s) (wr_p s) data; wr_p := wr_p s; wr_r := wr_r s;
            wr_written := wr_written s |} len) len).

(** ** What the cursors promise each other

    A field is what one call moves.  [put_field] and [take_field] dispatch on
    it, so a message layout is a list of fields. *)

Inductive field := FU8 (v : Z) | FU16 (v : Z) | FU32 (v : Z) | FU64 (v : Z) | FBytes (l : list Z).

Definition field_ok (f : field) : Prop :=
  match f with
  | FU8 v => is_u8 v
  | FU16 v => is_u16 v
  | FU32 v => is_u32 v
  | FU64 v => is_u64 v
  | FBytes l => Forall is_byte l
  end.

(** The bytes a field occupies on the wire. *)
Definition field_wire (f : field) : list Z :=
  match f with
  | FU8 v => [v]
  | FU16 v => le_bytes 2 v
  | FU32 v => le_bytes 4 v
  | FU64 v => le_bytes 8 v
  | FBytes l => l
  end.

Definition put_field (s : BytesWriter) (f : field) : option BytesWriter :=
  match f with
  | FU8 v => PutU8 s v
  | FU16 v => PutU16 s v
  | FU32 v => PutU32 s v
  | FU64 v => PutU64 s v
  | FBytes l => PutBytes s l
  end.

(** Takes a field of the same shape as [f]. *)
Definition take_field (s : BytesReader) (f : field) : option (field * BytesReader) :=
  match f with
  | FU8 _ => '(v, s') ← TakeU8 s; Some (FU8 v, s')
  | FU16 _ => '(v, s') ← TakeU16 s; Some (FU16 v, s')
  | FU32 _ => '(v, s') ← TakeU32 s; Some (FU32 v, s')
  | FU64 _ => '(v, s') ← TakeU64 s; Some (FU64 v, s')
  | FBytes l => '(v, s') ← TakeBytes s (zlen l); Some (FBytes v, s')
  end.

Fixpoint put_all (s : BytesWriter) (fs : list field) : option BytesWriter :=
  match fs with
  | [] => Some s
  | f :: fs' => s' ← put_field s f; put_all s' fs'
  end.

Fixpoint take_all (s : BytesReader) (fs : list field) : option (list field * BytesReader) :=
  match fs with
  | [] => Some ([], s)
  | f :: fs' =>
      '(g, s') ← take_field s f;
      '(gs, s'') ← take_all s' fs';
      Some (g :: gs, s'')
  end.

Definition fields_wire (fs : list field) : list Z := concat (map field_wire fs).

(** ** Well-formed cursors: what is left to touch lies inside the buffer. *)

Definition rd_wf (s : BytesReader) : Prop :=
  0 <= rd_p s /\ 0 <= rd_r s /\ rd_p s + rd_r s <= zlen (rd_buf s).
Definition wr_wf (s : BytesWriter) : Prop :=
  0 <= wr_p s /\ 0 <= wr_r s /\ wr_p s + wr_r s <= zlen (wr_buf s).

(** ** Writer lemmas *)

Lemma le_bytes_u8_shift n v :
  le_bytes n v = map (fun k => u8 (Z.shiftr v (8 * Z.of_nat k))) (seq 0 n).
Proof.
  revert v. induction n as [|n IH]; intros v; [done|].
  cbn [le_bytes seq map]. rewrite Z.shiftr_0_r. f_equal.
  rewrite IH, <- seq_shift, map_map. apply map_ext. intros k.
  rewrite Z.shiftr_shiftr by lia. do 2 f_equal. lia.
Qed.

(** Storing bytes one after another from the cursor is one copy of the run. *)
Lemma store_run (b : list Z) (p : Z) (l : list Z) (v : Z) :
  0 <= p -> p + zlen l < zlen b ->
  (blit b p l).[p + zlen l <- v] = blit b p (l ++ [v]).
Proof. apply set_blit. Qed.

Lemma store_first (b : list Z) (p v : Z) :
  0 <= p -> p < zlen b -> b.[p + 0 <- v] = blit b p [v].
Proof.
  intros. rewrite <- (blit_nil b p) at 1.
  pose proof (set_blit b p [] v) as E. change (zlen []) with 0 in E. apply E; lia.
Qed.

Definition put_result (s : BytesWriter) (l : list Z) : BytesWriter :=
  {| wr_buf := blit (wr_buf s) (wr_p s) l; wr_p := wr_p s + zlen l;
     wr_r := wr_r s - zlen l; wr_written := u16 (wr_written s + u16 (zlen l)) |}.

(** The stores of one field, up to some byte. *)
Definition stored (s : BytesWriter) (l : list Z) : BytesWriter :=
  {| wr_buf := blit (wr_buf s) (wr_p s) l; wr_p := wr_p s; wr_r := wr_r s; wr_written := wr_written s |}.

Lemma stored_first s v : wr_wf s -> 0 < wr_r s -> wr_store s 0 v = stored s [v].
Proof. intros (Hp&Hr&Hb) H. unfold wr_store, stored. f_equal. apply store_first; lia. Qed.

Lemma stored_next s l i v : wr_wf s -> i = zlen l -> zlen l < wr_r s -> wr_store (stored s l) i v = stored s (l ++ [v]).
Proof. intros (Hp&Hr&Hb) -> H. unfold wr_store, stored. cbn [wr_buf wr_p wr_r wr_written]. f_equal. apply store_run; lia. Qed.

Lemma stored_done s l n : n = zlen l -> AddWritten (wr_adv (stored s l) n) n = put_result s l.
Proof. by intros ->. Qed.

Ltac put_run :=
  rewrite stored_first by (done || lia); rewrite ?stored_next by (done || (unfold zlen; cbn; lia));
  cbn [app]; by rewrite stored_done by done.

(** Every [Put] writes its field's bytes at the cursor, advances by their
    number, and refuses when they do not fit. *)
Lemma put_field_spec s f :
  wr_wf s ->
  put_field s f =
    if wr_r s <? zlen (field_wire f) then None else Some (put_result s (field_wire f)).
Proof.
  intros Hwf. destruct f as [v|v|v|v|l]; cbn [put_field field_wire].
  - unfold PutU8. change (zlen [v]) with 1. destruct (Z.ltb_spec (wr_r s) 1); [done|]. put_run.
  - unfold PutU16. rewrite le_bytes_u8_shift. simpl. change (zlen _) with 2. destruct (Z.ltb_spec (wr_r s) 2); [done|]. put_run.
  - unfold PutU32. rewrite le_bytes_u8_shift. simpl. change (zlen _) with 4. destruct (Z.ltb_spec (wr_r s) 4); [done|]. put_run.
  - unfold PutU64. rewrite le_bytes_u8_shift. simpl. change (zlen _) with 8. destruct (Z.ltb_spec (wr_r s) 8); [done|]. put_run.
  - unfold PutBytes. destruct (Z.ltb_spec (wr_r s) (zlen l)); done.
Qed.

Lemma put_result_wf s l : wr_wf s -> zlen l <= wr_r s -> wr_wf (put_result s l).
Proof.
  unfold wr_wf, put_result. simpl. intros (?&?&?) ?. pose proof (zlen_nonneg l).
  rewrite zlen_blit by lia. lia.
Qed.

(** ** Reader lemmas *)

(** The field of the shape of [f] that a run of bytes encodes. *)
Definition field_of (f : field) (l : list Z) : field :=
  match f with
  | FU8 _ => FU8 (le_value l)
  | FU16 _ => FU16 (le_value l)
  | FU32 _ => FU32 (le_value l)
  | FU64 _ => FU64 (le_value l)
  | FBytes _ => FBytes l
  end.

Definition field_size (f : field) : Z := zlen (field_wire f).

Lemma field_of_wire f : field_ok f -> field_of f (field_wire f) = f.
Proof.
  destruct f; cbn [field_ok field_of field_wire]; intros H; [| | | |done]; f_equal.
  - simpl. lia.
  - rewrite le_value_bytes. by apply Z.mod_small.
  - rewrite le_value_bytes. by apply Z.mod_small.
  - rewrite le_value_bytes. by apply Z.mod_small.
Qed.

Ltac lor_step :=
  match goal with
  | |- context [Z.lor ?x (Z.shiftl ?b ?k)] => rewrite (lor_shift_add x b k) by (unfold is_byte in *; lia)
  end.
Ltac nat_lits :=
  change (Z.of_nat 0) with 0; try change (Z.of_nat 1) with 1;
  try change (Z.of_nat 2) with 2; try change (Z.of_nat 3) with 3;
  try change (Z.of_nat 4) with 4; try change (Z.of_nat 5) with 5;
  try change (Z.of_nat 6) with 6; try change (Z.of_nat 7) with 7.

Lemma le_value_region (b : list Z) p n :
  0 <= p -> p + Z.of_nat n <= zlen b ->
  le_value (region b p (Z.of_nat n)) =
  foldr (fun i acc => b.[p + Z.of_nat i] + 2 ^ 8 * acc) 0 (seq 0 n).
Proof.
  revert p. induction n as [|n IH]; intros p Hp Hb; [done|].
  rewrite region_cons by lia. cbn [le_value seq foldr]. rewrite Z.add_0_r. f_equal. f_equal.
  replace (Z.of_nat (S n) - 1) with (Z.of_nat n) by lia. rewrite IH by lia.
  rewrite <- seq_shift, foldr_fmap. clear. generalize (seq 0 n). intros l.
  induction l as [|k l IH]; [done|]. cbn [foldr fmap list_fmap]. rewrite IH.
  by replace (p + 1 + Z.of_nat k) with (p + Z.of_nat (S k)) by lia.
Qed.

(** Every [Take] reads the little-endian value of the run at the cursor,
    advances past it, and refuses when fewer bytes remain. *)
Lemma take_field_spec s f :
  rd_wf s -> Forall is_byte (rd_buf s) ->
  take_field s f =
    if rd_r s <? field_size f then None
    else Some (field_of f (region (rd_buf s) (rd_p s) (field_size f)), rd_adv s (field_size f)).
Proof.
  intros (Hp&Hr&Hb) Hbytes.
  assert (Hat : forall i, 0 <= i < rd_r s -> is_byte (rd_at s i)).
  { intros i Hi. unfold rd_at, arr_get. unfold zlen in Hb.
    destruct (lookup_lt_is_Some_2 (rd_buf s) (Z.to_nat (rd_p s + i))) as [x Hx]; [lia|].
    rewrite (list_lookup_total_correct _ _ _ Hx). by eapply Forall_lookup_1. }
  destruct f as [v|v|v|v|l]; unfold field_size; cbn [take_field field_wire field_of].
  - change (zlen [v]) with 1. unfold TakeU8. destruct (Z.ltb_spec (rd_r s) 1); [done|]. simpl.
    rewrite (le_value_region _ _ 1) by lia. cbn [seq foldr]. unfold rd_at.
    change (Z.of_nat 0) with 0. do 3 f_equal. lia.
  - unfold zlen. rewrite length_le_bytes. change (Z.of_nat 2) with 2. unfold TakeU16.
    destruct (Z.ltb_spec (rd_r s) 2); [done|]. simpl.
    pose proof (Hat 0 ltac:(lia)). pose proof (Hat 1 ltac:(lia)). unfold is_byte in *.
    rewrite (le_value_region _ _ 2) by lia. cbn [seq foldr]. unfold rd_at in *.
    do 3 f_equal. lor_step. rewrite u16_small by lia. nat_lits. lia.
  - unfold zlen. rewrite length_le_bytes. change (Z.of_nat 4) with 4. unfold TakeU32.
    destruct (Z.ltb_spec (rd_r s) 4); [done|]. simpl.
    pose proof (Hat 0 ltac:(lia)). pose proof (Hat 1 ltac:(lia)).
    pose proof (Hat 2 ltac:(lia)). pose proof (Hat 3 ltac:(lia)).
    unfold u32. rewrite !u_shift_small by (lia || done). unfold is_byte in *.
    rewrite (le_value_region _ _ 4) by lia. cbn [seq foldr]. unfold rd_at in *.
    do 3 f_equal. do 3 lor_step. nat_lits. lia.
  - unfold zlen. rewrite length_le_bytes. change (Z.of_nat 8) with 8. unfold TakeU64.
    destruct (Z.ltb_spec (rd_r s) 8); [done|]. simpl.
    pose proof (Hat 0 ltac:(lia)). pose proof (Hat 1 ltac:(lia)).
    pose proof (Hat 2 ltac:(lia)). pose proof (Hat 3 ltac:(lia)).
    pose proof (Hat 4 ltac:(lia)). pose proof (Hat 5 ltac:(lia)).
    pose proof (Hat 6 ltac:(lia)). pose proof (Hat 7 ltac:(lia)).
    unfold u64. rewrite !u_shift_small by (lia || done). unfold is_byte in *.
    rewrite (le_value_region _ _ 8) by lia. cbn [seq foldr]. unfold rd_at in *.
    do 3 f_equal. do 7 lor_step. nat_lits. lia.
  - unfold TakeBytes. destruct (Z.ltb_spec (rd_r s) (zlen l)); done.
Qed.

(** ** Layouts *)

Lemma fields_wire_cons f fs : fields_wire (f :: fs) = field_wire f ++ fields_wire fs.
Proof. done. Qed.

Lemma put_all_spec s fs s' :
  wr_wf s -> put_all s fs = Some s' ->
  wr_wf s' /\ wr_buf s' = blit (wr_buf s) (wr_p s) (fields_wire fs) /\
  wr_p s' = wr_p s + zlen (fields_wire fs) /\
  wr_r s' = wr_r s - zlen (fields_wire fs) /\ zlen (fields_wire fs) <= wr_r s.
Proof.
  revert s. induction fs as [|f fs IH]; intros s Hwf Hput.
  - injection Hput as <-. change (fields_wire []) with (@nil Z).
    rewrite blit_nil. change (zlen []) with 0. destruct Hwf as (?&?&?). repeat split; lia || done.
  - cbn [put_all] in Hput. rewrite put_field_spec in Hput by done.
    destruct (Z.ltb_spec (wr_r s) (zlen (field_wire f))); [done|]. simpl in Hput.
    apply IH in Hput as (?&Hb&Hp&Hr&Hl); [|by apply put_result_wf].
    simpl in *. rewrite fields_wire_cons, zlen_app. destruct Hwf as (?&?&?).
    split; [done|]. rewrite Hb, Hp, Hr. rewrite blit_blit by lia. repeat split; lia.
Qed.

Lemma take_all_spec s fs :
  rd_wf s -> Forall is_byte (rd_buf s) -> zlen (fields_wire fs) <= rd_r s ->
  Forall field_ok fs ->
  region (rd_buf s) (rd_p s) (zlen (fields_wire fs)) = fields_wire fs ->
  take_all s fs = Some (fs, rd_adv s (zlen (fields_wire fs))).
Proof.
  intros Hwf Hb Hle Hok Hreg. revert s Hwf Hb Hle Hreg.
  induction Hok as [|f fs Hf Hok IH]; intros s (Hp&Hr&Hbuf) Hb Hle Hreg.
  - simpl. destruct s. unfold rd_adv. simpl. do 3 f_equal; change (zlen _) with 0; lia.
  - rewrite fields_wire_cons, zlen_app in *.
    pose proof (zlen_nonneg (field_wire f)). pose proof (zlen_nonneg (fields_wire fs)).
    rewrite region_app in Hreg by lia.
    apply app_inj_1 in Hreg as [Hr1 Hr2]; cycle 1.
    { apply length_of_zlen, zlen_region; lia. }
    cbn [take_all]. rewrite take_field_spec; [|done|done]. unfold field_size.
    destruct (Z.ltb_spec (rd_r s) (zlen (field_wire f))); [lia|].
    simpl. rewrite Hr1, field_of_wire by done.
    rewrite IH; [|unfold rd_wf; simpl; lia|done|simpl; lia|done].
    simpl. unfold rd_adv. simpl. do 3 f_equal; lia.
Qed.

Lemma fields_wire_bytes fs : Forall field_ok fs -> Forall is_byte (fields_wire fs).
Proof.
  induction 1 as [|f fs Hf _ IH]; [constructor|]. rewrite fields_wire_cons.
  apply Forall_app_2; [|done].
  destruct f; cbn [field_wire field_ok] in *; auto using le_bytes_byte.
Qed.

(** Whatever sequence of fields a writer was able to put, a reader
    placed where the writer started takes back exactly those fields, in order,
    and stops where the writer stopped. *)
Theorem cursor_roundtrip (s s' : BytesWriter) (fs : list field)
  (Hwf : wr_wf s) (Hbytes : Forall is_byte (wr_buf s)) (Hok : Forall field_ok fs)
  (Hput : put_all s fs = Some s') :
  take_all {| rd_buf := wr_buf s'; rd_p := wr_p s; rd_r := wr_p s' - wr_p s |} fs =
  Some (fs, {| rd_buf := wr_buf s'; rd_p := wr_p s'; rd_r := 0 |}).
Proof.
  apply put_all_spec in Hput as (?&Hb&Hp&Hr&Hl); [|done].
  destruct Hwf as (?&?&?). pose proof (zlen_nonneg (fields_wire fs)).
  rewrite take_all_spec; simpl.
  - unfold rd_adv. simpl. rewrite Hp. do 3 f_equal; lia.
  - unfold rd_wf. simpl. rewrite Hb, Hp, zlen_blit by lia. lia.
  - rewrite Hb. auto using blit_bytes, fields_wire_bytes.
  - lia.
  - done.
  - rewrite Hb. apply region_blit_eq; lia.
Qed.

Definition sample_fields : list field := [FU8 7; FU16 513; FU32 4000000000; FBytes [1; 2; 3]; FU64 (2 ^ 63)].
Definition sample_writer : BytesWriter :=
  {| wr_buf := replicate 24 0; wr_p := 2; wr_r := 22; wr_written := 0 |}.

Lemma cursor_roundtrip_witness :
  exists s', put_all sample_writer sample_fields = Some s' /\
  take_all {| rd_buf := wr_buf s'; rd_p := 2; rd_r := wr_p s' - 2 |} sample_fields =
  Some (sample_fields, {| rd_buf := wr_buf s'; rd_p := wr_p s'; rd_r := 0 |}).
Proof.
  eexists. split; [vm_compute; reflexivity|].
  apply (cursor_roundtrip sample_writer).
  - unfold wr_wf. vm_compute. intuition congruence.
  - apply Forall_replicate. unfold is_byte. lia.
  - unfold sample_fields. repeat constructor; unfold is_byte; try lia.
  - reflexivity.
Defined.

(** A writer refuses exactly when the field does not fit, and then
    nothing has changed; when it fits, the bytes outside the run it wrote are
    untouched and its total is the old one plus the run, modulo [2^16]. *)
Theorem put_field_functional (s : BytesWriter) (f : field) (Hwf : wr_wf s) :
  (put_field s f = None <-> wr_r s < zlen (field_wire f)) /\
  (forall s', put_field s f = Some s' ->
     wr_wf s' /\
     region (wr_buf s') (wr_p s) (zlen (field_wire f)) = field_wire f /\
     region (wr_buf s') 0 (wr_p s) = region (wr_buf s) 0 (wr_p s) /\
     (forall n, 0 <= n -> region (wr_buf s') (wr_p s') n = region (wr_buf s) (wr_p s') n) /\
     wr_p s' = wr_p s + zlen (field_wire f) /\
     wr_p s' + wr_r s' = wr_p s + wr_r s /\
     wr_written s' = u16 (wr_written s + u16 (zlen (field_wire f)))).
Proof.
  rewrite put_field_spec by done.
  destruct (Z.ltb_spec (wr_r s) (zlen (field_wire f))).
  - split; [done|]. intros ? [=].
  - split; [split; [done|lia]|]. intros s' [= <-].
    destruct Hwf as (?&?&?). pose proof (zlen_nonneg (field_wire f)).
    split; [apply put_result_wf; [by repeat split|lia]|]. simpl.
    repeat split; try lia.
    + apply region_blit_eq; lia.
    + apply region_blit_before; lia.
    + intros n Hn. apply region_blit_after; lia.
Qed.

Lemma put_field_functional_witness :
  region (wr_buf (put_result sample_writer [1; 2; 3])) 2 3 = [1; 2; 3].
Proof.
  destruct (put_field_functional sample_writer (FBytes [1; 2; 3])) as [_ H].
  - unfold wr_wf. vm_compute. intuition congruence.
  - destruct (H _ eq_refl) as (_&H2&_). exact H2.
Defined.
