(* ===== verification/ReplayWindow.v ===== *)
(** * The replay filter: [flux/internal/replay_window]

    The filter is a block of [1 + words] 64-bit words: word 0 is the high-water
    mark, the rest is a bitmap in which bit [i] stands for counter
    [highWater - i].  Advancing the mark shifts the whole bitmap, word by word,
    in place.

    The specification is the history: the list of counters accepted so far.  A
    counter is admissible when it is not zero and either above everything
    accepted or inside the window and not accepted before.  [Accept_refines]
    shows the shifted bitmap decides exactly that, and the theorems on runs
    follow from the specification alone. *)

From S2P Require Import Prelude.

(** ** Definitions *)

Definition ReplayWindow_Reset (words : Z) (st : list Z) : list Z :=
  for_up 0 (Z.to_nat (1 + words)) (fun i s => s.[i <- 0]) st.

(** [bmp[i]], with [bmp = state + 1]. *)
Definition bmp (st : list Z) (i : Z) : Z := st.[1 + i].

(** One iteration of the descending shift loop. *)
Definition slide_word (wordShift bitShift w : Z) (st : list Z) : list Z :=
  let src := w - wordShift in
  let v :=
    if 0 <=? src then
      let v := u64 (Z.shiftl (bmp st src) bitShift) in
      if negb (bitShift =? 0) && (0 <=? src - 1)
      then Z.lor v (Z.shiftr (bmp st (src - 1)) (64 - bitShift))
      else v
    else 0 in
  st.[1 + w <- v].

Definition ReplayWindow_Accept (words : Z) (st : list Z) (counter : Z) : bool * list Z :=
  if counter =? 0 then (false, st)
  else
    let high := st.[0] in
    let bits := words * 64 in
    if high <? counter then
      let diff := counter - high in
      let st :=
        if bits <=? diff
        then for_up 0 (Z.to_nat words) (fun i s => s.[1 + i <- 0]) st
        else for_down (Z.to_nat words) (slide_word (diff / 64) (diff mod 64)) st in
      let st := st.[1 <- Z.lor st.[1] 1] in
      (true, st.[0 <- counter])
    else
      let diff := high - counter in
      if bits <=? diff then (false, st)
      else
        let word := diff / 64 in
        let mask := Z.shiftl 1 (diff mod 64) in
        if negb (Z.land (bmp st word) mask =? 0) then (false, st)
        else (true, st.[1 + word <- Z.lor (bmp st word) mask]).

(** ** Specification: the history of accepted counters *)

Definition high_of (acc : list Z) : Z := foldr Z.max 0 acc.

Definition admissible (bits : Z) (acc : list Z) (c : Z) : Prop :=
  c <> 0 /\ (high_of acc < c \/ (high_of acc - c < bits /\ c ∉ acc)).

(** Feeds a sequence of counters through the filter and collects the accepted
    ones, newest first. *)
Fixpoint feed (words : Z) (st : list Z) (acc cs : list Z) : list Z * list Z :=
  match cs with
  | [] => (acc, st)
  | c :: cs' =>
      let '(ok, st') := ReplayWindow_Accept words st c in
      feed words st' (if ok then c :: acc else acc) cs'
  end.

(** ** Bits of the bitmap *)

Definition seen_bit (st : list Z) (i : Z) : bool := Z.testbit (bmp st (i / 64)) (i mod 64).

(** The block is the right size and holds 64-bit words. *)
Definition block_wf (words : Z) (st : list Z) : Prop :=
  1 <= words /\ zlen st = 1 + words /\ forall i, 0 <= i < words -> is_u64 (bmp st i).

(** The bitmap is the history seen through the window. *)
Record replay_rel (words : Z) (st acc : list Z) : Prop := {
  rr_wf : block_wf words st;
  rr_high : st.[0] = high_of acc;
  rr_pos : forall c, c ∈ acc -> 1 <= c;
  rr_seen : forall i, 0 <= i < words * 64 ->
            seen_bit st i = true <-> high_of acc - i ∈ acc }.

Lemma high_of_ge acc c : c ∈ acc -> c <= high_of acc.
Proof.
  induction 1 as [|? ? ? ? IH]; simpl; lia.
Qed.

Lemma high_of_nonneg acc : 0 <= high_of acc.
Proof. induction acc; simpl; lia. Qed.

(** The value the shift loop gives word [w], from the original bitmap. *)
Definition slid (st : list Z) (wordShift bitShift w : Z) : Z :=
  if 0 <=? w - wordShift then
    let v := u64 (Z.shiftl (bmp st (w - wordShift)) bitShift) in
    if negb (bitShift =? 0) && (0 <=? w - wordShift - 1)
    then Z.lor v (Z.shiftr (bmp st (w - wordShift - 1)) (64 - bitShift)) else v
  else 0.

(** In-place is safe because the loop descends and reads only at or below the
    word it writes. *)
Lemma slide_loop words st ws bs :
  0 <= ws -> 0 <= words -> zlen st = 1 + words ->
  let st' := for_down (Z.to_nat words) (slide_word ws bs) st in
  zlen st' = zlen st /\ st'.[0] = st.[0] /\
  forall w, 0 <= w < words -> bmp st' w = slid st ws bs w.
Proof.
  intros Hws Hw Hlen.
  pose (P := fun (k : Z) (s : list Z) =>
    zlen s = zlen st /\ s.[0] = st.[0] /\
    (forall w, 0 <= w < k -> bmp s w = bmp st w) /\
    (forall w, k <= w < words -> bmp s w = slid st ws bs w)).
  enough (P 0 (for_down (Z.to_nat words) (slide_word ws bs) st)) as (?&?&?&?).
  { repeat split; [done..|]. intros; auto with lia. }
  apply for_down_inv.
  - rewrite Z2Nat.id by lia. repeat split; intros; [done..|lia].
  - rewrite Z2Nat.id by lia. intros k s Hk (Hl&H0&Hlow&Hhigh).
    unfold slide_word. repeat split.
    + by rewrite zlen_set.
    + rewrite arr_get_set_ne by lia. done.
    + intros w ?. unfold bmp in *. rewrite arr_get_set_ne by lia. apply Hlow. lia.
    + intros w ?. unfold bmp in *. rewrite arr_get_set by lia.
      destruct (Z.eqb_spec (1 + k) (1 + w)).
      * replace w with k by lia. unfold slid, bmp.
        destruct (Z.leb_spec 0 (k - ws)); [|done].
        rewrite Hlow by lia.
        destruct (negb (bs =? 0)); simpl; [|done].
        destruct (Z.leb_spec 0 (k - ws - 1)); [|done]. by rewrite Hlow by lia.
      * apply Hhigh. lia.
Qed.

Lemma slid_bit st ws bs w j :
  0 <= ws -> 0 <= bs < 64 -> 0 <= w -> 0 <= j < 64 ->
  (forall i, 0 <= i <= w -> is_u64 (bmp st i)) ->
  Z.testbit (slid st ws bs w) j =
  let i := 64 * w + j - (64 * ws + bs) in
  if 0 <=? i then seen_bit st i else false.
Proof.
  intros Hws Hbs Hw Hj H64. unfold slid, seen_bit. cbv zeta.
  set (i := 64 * w + j - (64 * ws + bs)).
  destruct (Z.leb_spec 0 (w - ws)) as [Hsrc|Hsrc].
  2:{ rewrite Z.testbit_0_l. destruct (Z.leb_spec 0 i); [subst i; lia|done]. }
  assert (Hv : Z.testbit (u64 (Z.shiftl (bmp st (w - ws)) bs)) j =
               if bs <=? j then Z.testbit (bmp st (w - ws)) (j - bs) else false).
  { unfold u64. rewrite Z.mod_pow2_bits_low by lia.
    destruct (Z.leb_spec bs j).
    - rewrite Z.shiftl_spec by lia. done.
    - rewrite Z.shiftl_spec_low by lia. done. }
  destruct (Z.leb_spec bs j) as [Hjb|Hjb].
  - (* the bit comes from word w - ws *)
    assert (i / 64 = w - ws /\ i mod 64 = j - bs) as [-> ->] by (subst i; zdm).
    destruct (Z.leb_spec 0 i); [|subst i; lia].
    destruct (negb (bs =? 0) && (0 <=? w - ws - 1)) eqn:Eb; [|by rewrite Hv].
    rewrite Z.lor_spec, Hv, Z.shiftr_spec by lia.
    rewrite (testbit_high (bmp st (w - ws - 1)) 64); [by rewrite orb_false_r| |lia].
    apply H64. destruct (Z.leb_spec 0 (w - ws - 1)); [lia|].
    by rewrite andb_false_r in Eb.
  - (* the bit comes from the word below *)
    destruct (Z.eqb_spec bs 0); [lia|]. simpl.
    destruct (Z.leb_spec 0 (w - ws - 1)).
    + assert (i / 64 = w - ws - 1 /\ i mod 64 = j + (64 - bs)) as [-> ->] by (subst i; zdm).
      rewrite Z.lor_spec, Hv, Z.shiftr_spec by lia. simpl.
      destruct (Z.leb_spec 0 i); [done|subst i; lia].
    + rewrite Hv. destruct (Z.leb_spec 0 i); [subst i; lia|done].
Qed.

Lemma slid_u64 st ws bs w :
  0 <= ws -> 0 <= bs < 64 -> 0 <= w -> (forall i, 0 <= i <= w -> is_u64 (bmp st i)) ->
  is_u64 (slid st ws bs w).
Proof.
  intros ??? H64. unfold slid.
  destruct (Z.leb_spec 0 (w - ws)); [|lia].
  destruct (negb _ && _) eqn:E; [|apply u64_range].
  apply andb_prop in E as [E1 E2]. apply Z.leb_le in E2.
  apply lor_lt; [lia|apply u64_range|].
  pose proof (H64 (w - ws - 1) ltac:(lia)).
  rewrite Z.shiftr_div_pow2 by lia. split; [apply Z.div_pos; lia|].
  apply Z.div_lt_upper_bound; [lia|].
  pose proof (Z.pow_pos_nonneg 2 (64 - bs)). nia.
Qed.

(** Sliding the window by [diff]: bit [i] of the result is bit [i - diff]. *)
Lemma slide_bits words st diff :
  block_wf words st -> 0 < diff < words * 64 ->
  let st' := for_down (Z.to_nat words) (slide_word (diff / 64) (diff mod 64)) st in
  block_wf words st' /\ st'.[0] = st.[0] /\
  forall i, 0 <= i < words * 64 ->
    seen_bit st' i = if diff <=? i then seen_bit st (i - diff) else false.
Proof.
  intros (Hw&Hlen&H64) Hd.
  destruct (slide_loop words st (diff / 64) (diff mod 64)) as (Hl&H0&Hbmp); [zdm|lia|lia|].
  split; [|split; [done|]].
  - split; [lia|]. split; [lia|]. intros i Hi. rewrite Hbmp by lia.
    apply slid_u64; [zdm|apply Z.mod_pos_bound; lia|lia|]. intros; apply H64; lia.
  - intros i Hi. unfold seen_bit at 1. rewrite Hbmp by zdm.
    rewrite slid_bit; [|zdm|apply Z.mod_pos_bound; lia|zdm|apply Z.mod_pos_bound; lia|].
    2:{ intros k Hk. apply H64. split; [lia|]. zdm. }
    cbv zeta.
    assert (64 * (i / 64) + i mod 64 - (64 * (diff / 64) + diff mod 64) = i - diff) as -> by zdm.
    destruct (Z.leb_spec diff i), (Z.leb_spec 0 (i - diff)); try lia; done.
Qed.

Lemma clear_loop words st :
  0 <= words -> zlen st = 1 + words ->
  let st' := for_up 0 (Z.to_nat words) (fun i s => s.[1 + i <- 0]) st in
  zlen st' = zlen st /\ st'.[0] = st.[0] /\ forall w, 0 <= w < words -> bmp st' w = 0.
Proof.
  intros Hw Hlen.
  pose (P := fun (k : Z) (s : list Z) =>
    zlen s = zlen st /\ s.[0] = st.[0] /\ forall w, 0 <= w < k -> bmp s w = 0).
  enough (P (0 + Z.of_nat (Z.to_nat words))
            (for_up 0 (Z.to_nat words) (fun i s => s.[1 + i <- 0]) st)) as (?&?&H).
  { repeat split; [done..|]. intros. apply H. lia. }
  apply for_up_inv.
  - repeat split; intros; [done..|lia].
  - intros k s Hk (?&?&?). repeat split.
    + by rewrite zlen_set.
    + rewrite arr_get_set_ne by lia. done.
    + intros w ?. unfold bmp in *. rewrite arr_get_set by lia.
      destruct (Z.eqb_spec (1 + k) (1 + w)); [done|]. auto with lia.
Qed.

(** Setting one bit. *)
Lemma set_bit words st d :
  block_wf words st -> 0 <= d < words * 64 ->
  let st' := st.[1 + d / 64 <- Z.lor (bmp st (d / 64)) (Z.shiftl 1 (d mod 64))] in
  block_wf words st' /\ st'.[0] = st.[0] /\
  forall i, 0 <= i < words * 64 -> seen_bit st' i = (i =? d) || seen_bit st i.
Proof.
  intros (Hw&Hlen&H64) Hd.
  assert (Hdw : 0 <= d / 64 < words) by zdm.
  pose proof (Z.mod_pos_bound d 64 ltac:(lia)) as Hm.
  split; [|split].
  - split; [done|]. split; [by rewrite zlen_set|].
    intros i Hi. unfold bmp. rewrite arr_get_set by lia.
    destruct (Z.eqb_spec (1 + d / 64) (1 + i)); [|by apply H64].
    apply lor_lt; [lia|by apply H64|].
    rewrite Z.shiftl_1_l. split; [apply Z.pow_nonneg; lia|].
    apply Z.pow_lt_mono_r; lia.
  - apply arr_get_set_ne; lia.
  - intros i Hi. unfold seen_bit, bmp. rewrite arr_get_set by zdm.
    destruct (Z.eqb_spec (1 + d / 64) (1 + i / 64)).
    + replace (i / 64) with (d / 64) by lia. fold (bmp st (d / 64)).
      rewrite Z.lor_spec, Z.shiftl_1_l.
      pose proof (Z.mod_pos_bound i 64 ltac:(lia)).
      destruct (Z.eqb_spec i d) as [->|].
      * rewrite Z.pow2_bits_true by lia. apply orb_true_r.
      * rewrite Z.pow2_bits_false by zdm. by rewrite orb_false_r.
    + destruct (Z.eqb_spec i d) as [->|]; [lia|done].
Qed.

Lemma land_pow2_zero x k : 0 <= k -> (Z.land x (Z.shiftl 1 k) =? 0) = negb (Z.testbit x k).
Proof.
  intros Hk. rewrite Z.shiftl_1_l.
  destruct (Z.testbit x k) eqn:E; simpl.
  - apply Z.eqb_neq. intros H. apply (f_equal (fun y => Z.testbit y k)) in H.
    rewrite Z.land_spec, E, Z.pow2_bits_true, Z.testbit_0_l in H by lia. done.
  - apply Z.eqb_eq, Z.bits_inj'. intros i Hi.
    rewrite Z.land_spec, Z.testbit_0_l. destruct (decide (i = k)) as [->|].
    + by rewrite E.
    + rewrite Z.pow2_bits_false by lia. apply andb_false_r.
Qed.

(** ** Refinement *)

(** A new highest counter: the bitmap after the slide and the mark is the
    history with the counter in front. *)
Lemma advance_rel words st st' acc c :
  replay_rel words st acc -> high_of acc < c ->
  block_wf words st' -> st'.[0] = high_of acc ->
  (forall i, 0 <= i < words * 64 ->
     seen_bit st' i = if c - high_of acc <=? i then seen_bit st (i - (c - high_of acc)) else false) ->
  replay_rel words (st'.[1 <- Z.lor st'.[1] 1]).[0 <- c] (c :: acc).
Proof.
  intros [Hwf Hhigh Hpos Hseen] Hc Hwf' H0 Hbits.
  pose proof (high_of_nonneg acc).
  assert (Hnew : high_of (c :: acc) = c) by (simpl; lia).
  destruct (set_bit words st' 0) as (Hwf''&H0'&Hb''); [done|destruct Hwf'; lia|].
  change (1 + 0 / 64) with 1 in *. change (Z.shiftl 1 (0 mod 64)) with 1 in *.
  change (bmp st' (0 / 64)) with (st'.[1]) in *.
  set (s1 := st'.[1 <- Z.lor st'.[1] 1]) in *.
  assert (Hbmp : forall i, 0 <= i -> bmp (s1.[0 <- c]) i = bmp s1 i)
    by (intros; unfold bmp; apply arr_get_set_ne; lia).
  split.
  - destruct Hwf'' as (?&?&H64). split; [done|]. split; [by rewrite zlen_set|].
    intros i Hi. rewrite Hbmp by lia. by apply H64.
  - rewrite Hnew. apply arr_get_set_eq. destruct Hwf'' as (?&?&?). lia.
  - intros x Hx. apply elem_of_cons in Hx as [->|Hx]; [lia|auto].
  - intros i Hi. rewrite Hnew.
    assert (seen_bit (s1.[0 <- c]) i = seen_bit s1 i) as ->.
    { unfold seen_bit. rewrite Hbmp; [done|zdm]. }
    rewrite Hb'' by done. rewrite Hbits by done.
    rewrite elem_of_cons, orb_true_iff, Z.eqb_eq.
    destruct (Z.leb_spec (c - high_of acc) i).
    + rewrite Hseen by lia. replace (high_of acc - (i - (c - high_of acc))) with (c - i) by lia.
      split; (intros [?|?]; [left; lia|by right]).
    + split; [intros [->|]; [left; lia|done]|].
      intros [?|Hin]; [left; lia|]. apply high_of_ge in Hin. lia.
Qed.

(** One call on the concrete block against the history. *)
Lemma Accept_refines words st acc c :
  replay_rel words st acc -> 0 <= c ->
  let '(ok, st') := ReplayWindow_Accept words st c in
  (ok = true <-> admissible (words * 64) acc c) /\
  replay_rel words st' (if ok then c :: acc else acc).
Proof.
  intros HR Hc. unfold ReplayWindow_Accept, admissible.
  pose proof HR as [Hwf Hhigh Hpos Hseen].
  destruct (Z.eqb_spec c 0) as [->|Hnz]; [split; [split; [done|lia]|done]|].
  rewrite Hhigh. destruct (Z.ltb_spec (high_of acc) c) as [Hlt|Hle].
  - split; [split; [intros _; split; [done|by left]|done]|].
    pose proof Hwf as (Hw&Hlen&_).
    destruct (Z.leb_spec (words * 64) (c - high_of acc)).
    + destruct (clear_loop words st) as (Hl&H0&Hz); [lia|done|].
      apply advance_rel with st; [done|lia| |by rewrite H0|].
      * split; [done|]. split; [by rewrite Hl|]. intros i Hi. rewrite Hz by done. lia.
      * intros i Hi. unfold seen_bit at 1. rewrite Hz by zdm. rewrite Z.testbit_0_l.
        destruct (Z.leb_spec (c - high_of acc) i); [lia|done].
    + destruct (slide_bits words st (c - high_of acc)) as (Hwf'&H0&Hb); [done|lia|].
      apply advance_rel with st; [done|lia|done|by rewrite H0|done].
  - destruct (Z.leb_spec (words * 64) (high_of acc - c)).
    { split; [split; [done|]|done]. intros [_ [?|[? _]]]; lia. }
    rewrite land_pow2_zero, negb_involutive by (apply Z.mod_pos_bound; lia).
    change (Z.testbit (bmp st ((high_of acc - c) / 64)) ((high_of acc - c) mod 64))
      with (seen_bit st (high_of acc - c)).
    pose proof (Hseen (high_of acc - c) ltac:(lia)) as Hs.
    replace (high_of acc - (high_of acc - c)) with c in Hs by lia.
    destruct (seen_bit st (high_of acc - c)) eqn:Eb.
    { split; [split; [done|]|done]. intros [_ [?|[_ []]]]; [lia|]. by apply Hs. }
    assert (Hnin : c ∉ acc) by (intros Hin; apply Hs in Hin; done).
    split; [split; [intros _; split; [done|right; split; [lia|done]]|done]|].
    destruct (set_bit words st (high_of acc - c)) as (Hwf'&H0&Hb); [done|lia|].
    assert (Hnew : high_of (c :: acc) = high_of acc) by (simpl; lia).
    split; [done|by rewrite H0, Hnew| |].
    + intros x Hx. apply elem_of_cons in Hx as [->|Hx]; [lia|auto].
    + intros i Hi. rewrite Hnew, Hb by done. rewrite elem_of_cons, orb_true_iff, Z.eqb_eq.
      rewrite Hseen by done. split; (intros [?|?]; [left; lia|by right]).
Qed.

Lemma Reset_clears words st :
  1 <= words -> zlen st = 1 + words ->
  zlen (ReplayWindow_Reset words st) = 1 + words /\
  forall i, 0 <= i < 1 + words -> (ReplayWindow_Reset words st).[i] = 0.
Proof.
  intros Hw Hlen. unfold ReplayWindow_Reset.
  pose (P := fun (k : Z) (s : list Z) => zlen s = 1 + words /\ forall i, 0 <= i < k -> s.[i] = 0).
  assert (HP : P (0 + Z.of_nat (Z.to_nat (1 + words)))
            (for_up 0 (Z.to_nat (1 + words)) (fun i s => s.[i <- 0]) st)).
  { apply for_up_inv.
    - split; [done|]. intros; lia.
    - intros k s Hk [? H]. split; [by rewrite zlen_set|]. intros i Hi.
      rewrite arr_get_set by lia. destruct (Z.eqb_spec k i); [done|]. apply H. lia. }
  destruct HP as [? H]. split; [done|]. intros. apply H. lia.
Qed.

Lemma Reset_rel words st :
  1 <= words -> zlen st = 1 + words -> replay_rel words (ReplayWindow_Reset words st) [].
Proof.
  intros Hw Hlen. destruct (Reset_clears words st Hw Hlen) as [Hl Hz]. split.
  - split; [done|]. split; [done|]. intros i Hi. unfold bmp. rewrite Hz by lia. lia.
  - apply Hz. lia.
  - intros c Hc. by apply elem_of_nil in Hc.
  - intros i Hi. unfold seen_bit, bmp. rewrite Hz by zdm. rewrite Z.testbit_0_l, elem_of_nil. done.
Qed.

Lemma feed_rel words cs : forall st acc,
  replay_rel words st acc -> NoDup acc -> Forall (fun c => 0 <= c) cs ->
  replay_rel words (feed words st acc cs).2 (feed words st acc cs).1 /\
  NoDup (feed words st acc cs).1.
Proof.
  induction cs as [|c cs IH]; intros st acc HR HN Hcs; [done|].
  apply Forall_cons in Hcs as [Hc Hcs]. cbn [feed].
  pose proof (Accept_refines words st acc c HR Hc) as Hacc.
  destruct (ReplayWindow_Accept words st c) as [ok st'] eqn:E.
  destruct Hacc as [Hok HR']. apply IH; [done| |done].
  destruct ok; [|done]. constructor; [|done].
  destruct Hok as [Hok _]. destruct (Hok eq_refl) as [_ [Hlt|[_ ?]]]; [|done].
  intros Hin%high_of_ge. lia.
Qed.

(** Replay safety: started from a reset block of any width, no
    sequence of arrivals makes the filter accept the same counter twice, and it
    never accepts the reserved counter 0. *)
Theorem replay_never_accepts_twice (words : Z) (st cs : list Z)
  (Hw : 1 <= words) (Hlen : zlen st = 1 + words) (Hcs : Forall (fun c => 0 <= c) cs) :
  NoDup (feed words (ReplayWindow_Reset words st) [] cs).1 /\
  0 ∉ (feed words (ReplayWindow_Reset words st) [] cs).1.
Proof.
  destruct (feed_rel words cs (ReplayWindow_Reset words st) []) as [[_ _ Hpos _] HN];
    [by apply Reset_rel|constructor|done|].
  split; [done|]. intros H0%Hpos. lia.
Qed.

Lemma replay_never_accepts_twice_witness :
  (feed 2 (ReplayWindow_Reset 2 [9; 9; 9]) [] [5; 70; 5; 6; 200; 70; 199; 0]).1 = [199; 200; 6; 70; 5] /\
  NoDup (feed 2 (ReplayWindow_Reset 2 [9; 9; 9]) [] [5; 70; 5; 6; 200; 70; 199; 0]).1 /\
  0 ∉ (feed 2 (ReplayWindow_Reset 2 [9; 9; 9]) [] [5; 70; 5; 6; 200; 70; 199; 0]).1.
Proof.
  split; [vm_compute; reflexivity|].
  apply (replay_never_accepts_twice 2 [9; 9; 9] [5; 70; 5; 6; 200; 70; 199; 0]);
    [lia|reflexivity|repeat constructor; lia].
Defined.

(** (C22) Refinement: after any sequence of arrivals the next counter is
    accepted exactly when the history admits it, that is when it is not 0 and is
    either above every accepted counter or within [64 * words] of the highest
    and not accepted before.  In particular reordering inside the window never
    drops a fresh packet. *)
Theorem replay_accepts_iff_admissible (words : Z) (st cs : list Z) (c : Z)
  (Hw : 1 <= words) (Hlen : zlen st = 1 + words)
  (Hcs : Forall (fun x => 0 <= x) cs) (Hc : 0 <= c) :
  let '(acc, st') := feed words (ReplayWindow_Reset words st) [] cs in
  (ReplayWindow_Accept words st' c).1 = true <-> admissible (words * 64) acc c.
Proof.
  destruct (feed_rel words cs (ReplayWindow_Reset words st) []) as [HR _];
    [by apply Reset_rel|constructor|done|].
  destruct (feed _ _ _ cs) as [acc st']. simpl in HR.
  pose proof (Accept_refines words st' acc c HR Hc) as H.
  destruct (ReplayWindow_Accept words st' c). by destruct H.
Qed.

Lemma replay_accepts_iff_admissible_witness :
  (ReplayWindow_Accept 1 (feed 1 (ReplayWindow_Reset 1 [0; 0]) [] [100; 40]).2 37).1 = true <->
  admissible 64 [40; 100] 37.
Proof.
  pose proof (replay_accepts_iff_admissible 1 [0; 0] [100; 40] 37) as H.
  apply H; [lia|reflexivity|repeat constructor; lia|lia].
Defined.

(** A refused counter leaves the block exactly as it was. *)
Lemma Accept_refused_unchanged words st c :
  (ReplayWindow_Accept words st c).1 = false -> (ReplayWindow_Accept words st c).2 = st.
Proof.
  unfold ReplayWindow_Accept.
  repeat case_match; done.
Qed.
