(* ===== verification/Batch.v ===== *)
(** * Packing messages into one packet: [flux/wire/batch]

    A packet's content is one bare message, or a list of messages each behind a
    two-byte length.  The first message is stored bare and grows its length only
    when a second one arrives, by a [memmove] over itself.

    The specification is the list of messages.  [batch_holds] relates a cursor's
    bytes to that list; [BatchAppend] appends to it, [BatchValidate] accepts
    exactly the contents that are some list's frames, and the walk with
    [BatchNext] gives the list back. *)

From S2P Require Import Prelude Wire.

(** ** Definitions *)

Definition LEN : Z := WIRE_BATCH_LEN_SIZE.

(** A cursor over a content buffer.  [bc_content = None] is the null pointer. *)
Record BatchCursor := {
  bc_content : option (list Z);
  bc_used : Z;
  bc_count : Z;
  bc_firstLen : Z;
  bc_capacity : Z }.

Definition PutLen (mem : list Z) (at_ value : Z) : list Z :=
  (mem.[at_ <- u8 (Z.shiftr value 0)]).[at_ + 1 <- u8 (Z.shiftr value 8)].

Definition TakeLen (mem : list Z) (at_ : Z) : Z :=
  u16 (Z.lor mem.[at_] (u16 (Z.shiftl mem.[at_ + 1] 8))).

Definition BatchCostOf (cursor : BatchCursor) (len : Z) : Z :=
  if len =? 0 then 0
  else if bc_count cursor =? 0 then len
  else if bc_count cursor =? 1 then u32 (LEN + LEN + len)
  else u32 (LEN + len).

Definition BatchFits (cursor : BatchCursor) (len : Z) : bool :=
  let cost := BatchCostOf cursor len in
  if cost =? 0 then false
  else u32 (bc_used cursor + cost) <=? bc_capacity cursor.

(** [None] is the answer [false], on which the source leaves the cursor as it
    was.  [message = None] is the null pointer. *)
Definition BatchAppend (cursor : BatchCursor) (message : option (list Z)) (len : Z) : option BatchCursor :=
  match message, bc_content cursor with
  | Some message, Some content =>
      if negb (BatchFits cursor len) then None
      else if bc_count cursor =? 0 then
        Some {| bc_content := Some (blit content 0 (region message 0 len));
                bc_used := len; bc_count := 1; bc_firstLen := len;
                bc_capacity := bc_capacity cursor |}
      else
        let '(content, used) :=
          if bc_count cursor =? 1 then
            let content := blit content LEN (region content 0 (bc_firstLen cursor)) in
            (PutLen content 0 (bc_firstLen cursor), u16 (bc_used cursor + LEN))
          else (content, bc_used cursor) in
        let content := PutLen content used len in
        let content := blit content (used + LEN) (region message 0 len) in
        Some {| bc_content := Some content;
                bc_used := u16 (used + LEN + len);
                bc_count := u16 (bc_count cursor + 1);
                bc_firstLen := bc_firstLen cursor;
                bc_capacity := bc_capacity cursor |}
  | _, _ => None
  end.

(** The walk over the length chain.  Every iteration moves past at least three
    bytes, so [len + 1] iterations reach its end; running out would answer
    [false], and [BatchValidate_iff] shows that never decides the result. *)
Fixpoint BatchValidate_loop (fuel : nat) (content : list Z) (len offset : Z) : bool :=
  match fuel with
  | O => false
  | S fuel' =>
      if offset + LEN <=? len then
        let entry := TakeLen content offset in
        if entry =? 0 then false
        else
          let offset := u32 (offset + (LEN + entry)) in
          if len <? offset then false
          else BatchValidate_loop fuel' content len offset
      else offset =? len
  end.

Definition BatchValidate (content : option (list Z)) (len : Z) : bool :=
  match content with
  | None => false
  | Some content => BatchValidate_loop (S (Z.to_nat len)) content len 0
  end.

(** Answers the message's start, its length, and the advanced offset. *)
Definition BatchNext (content : option (list Z)) (len offset : Z) : option (Z * Z * Z) :=
  match content with
  | None => None
  | Some content =>
      if len <=? offset then None
      else if len <? u32 (offset + LEN) then None
      else
        let entry := TakeLen content offset in
        if len <? u32 (offset + LEN + entry) then None
        else Some (offset + LEN, entry, u16 (offset + LEN + entry))
  end.

(** ** Specification *)

(** A message and its two-byte length in front. *)
Definition frame (m : list Z) : list Z := le_bytes 2 (zlen m) ++ m.
Definition frames (ms : list (list Z)) : list Z := concat (map frame ms).

Definition message_ok (m : list Z) : Prop := 1 <= zlen m < 2 ^ 16 /\ Forall is_byte m.

(** What the packet's content is for a list of messages: nothing, one bare
    message, or the framed list. *)
Definition batch_bytes (ms : list (list Z)) : list Z :=
  match ms with [] => [] | [m] => m | _ => frames ms end.

Record batch_holds (c : BatchCursor) (content : list Z) (ms : list (list Z)) : Prop := {
  bh_content : bc_content c = Some content;
  bh_room : bc_capacity c <= zlen content;
  bh_cap : is_u16 (bc_capacity c);
  bh_bytes : Forall is_byte content;
  bh_msgs : Forall message_ok ms;
  bh_used : bc_used c = zlen (batch_bytes ms);
  bh_fits : bc_used c <= bc_capacity c;
  bh_count : bc_count c = zlen ms;
  bh_first : forall m ms', ms = m :: ms' -> bc_firstLen c = zlen m;
  bh_region : region content 0 (bc_used c) = batch_bytes ms }.

(** Reads messages off a content until [BatchNext] refuses. *)
Fixpoint batch_walk (fuel : nat) (content : list Z) (len offset : Z) : list (list Z) * Z :=
  match fuel with
  | O => ([], offset)
  | S fuel' =>
      match BatchNext (Some content) len offset with
      | None => ([], offset)
      | Some (start, n, offset') =>
          let '(ms, fin) := batch_walk fuel' content len offset' in
          (region content start n :: ms, fin)
      end
  end.

(** ** Lengths *)

Lemma frame_len m : zlen (frame m) = 2 + zlen m.
Proof. unfold frame. rewrite zlen_app. unfold zlen. rewrite length_le_bytes. lia. Qed.

Lemma frames_cons m ms : frames (m :: ms) = frame m ++ frames ms.
Proof. done. Qed.

Lemma frames_app ms1 ms2 : frames (ms1 ++ ms2) = frames ms1 ++ frames ms2.
Proof. unfold frames. by rewrite map_app, concat_app. Qed.

Lemma frames_single m : frames [m] = frame m.
Proof. unfold frames. cbn [map concat]. apply app_nil_r. Qed.

Lemma frame_bytes m : Forall is_byte m -> Forall is_byte (frame m).
Proof. intros. unfold frame. auto using Forall_app_2, le_bytes_byte. Qed.

Lemma bytes_at (l : list Z) i : Forall is_byte l -> 0 <= i < zlen l -> is_byte l.[i].
Proof.
  intros Hb Hi. unfold arr_get, zlen in *.
  destruct (lookup_lt_is_Some_2 l (Z.to_nat i)) as [x Hx]; [lia|].
  rewrite (list_lookup_total_correct _ _ _ Hx). by eapply Forall_lookup_1.
Qed.

Lemma TakeLen_value mem at_ :
  Forall is_byte mem -> 0 <= at_ -> at_ + 2 <= zlen mem ->
  TakeLen mem at_ = le_value (region mem at_ 2) /\ is_u16 (TakeLen mem at_).
Proof.
  intros Hb H0 H1.
  pose proof (bytes_at mem at_ Hb ltac:(lia)) as Ha.
  pose proof (bytes_at mem (at_ + 1) Hb ltac:(lia)) as Hc.
  split; [|apply u16_range].
  unfold TakeLen. unfold u16 at 2. rewrite u_shift_small by (lia || done).
  unfold is_byte in *. rewrite lor_shift_add by lia. rewrite u16_small by lia.
  rewrite (region_cons mem at_ 2), (region_cons mem (at_ + 1) (2 - 1)) by lia.
  replace (2 - 1 - 1) with 0 by lia.
  rewrite region_nil. cbn [le_value]. lia.
Qed.

Lemma PutLen_blit mem at_ v :
  0 <= at_ -> at_ + 2 <= zlen mem -> PutLen mem at_ v = blit mem at_ (le_bytes 2 v).
Proof.
  intros. unfold PutLen. cbn [le_bytes]. rewrite Z.shiftr_0_r.
  rewrite <- (blit_nil mem at_) at 1.
  pose proof (set_blit mem at_ [] (u8 v)) as E1. change (zlen []) with 0 in E1. cbn [app] in E1.
  rewrite Z.add_0_r in E1. rewrite E1 by lia.
  pose proof (set_blit mem at_ [u8 v] (u8 (Z.shiftr v 8))) as E2.
  change (zlen [u8 v]) with 1 in E2. by rewrite E2 by lia.
Qed.

Lemma le_value_len (m : list Z) : is_u16 (zlen m) -> le_value (le_bytes 2 (zlen m)) = zlen m.
Proof. intros. rewrite le_value_bytes. by apply Z.mod_small. Qed.

(** ** Appending *)

Lemma batch_bytes_snoc2 ms m : ms <> [] -> batch_bytes (ms ++ [m]) = frames ms ++ frame m.
Proof.
  intros Hne. rewrite <- frames_single, <- frames_app.
  destruct ms as [|m1 [|m2 ms]]; [done|done|done].
Qed.

Lemma append_framed content u pre m :
  0 <= u -> zlen pre = u -> u + 2 + zlen m <= zlen content ->
  region content 0 u = pre ->
  let content' := blit (PutLen content u (zlen m)) (u + LEN) m in
  zlen content' = zlen content /\ region content' 0 (u + 2 + zlen m) = pre ++ frame m.
Proof.
  intros Hu Hpre Hroom Hreg. cbv zeta. pose proof (zlen_nonneg m).
  rewrite PutLen_blit by lia.
  assert (Hl2 : zlen (le_bytes 2 (zlen m)) = 2) by (unfold zlen; by rewrite length_le_bytes).
  pose proof (blit_blit content (le_bytes 2 (zlen m)) m u) as E. rewrite Hl2 in E.
  change LEN with 2. rewrite E by lia. fold (frame m).
  pose proof (frame_len m) as Hf.
  split; [apply zlen_blit; lia|].
  replace (u + 2 + zlen m) with (u + zlen (frame m)) by lia.
  rewrite region_app by lia. f_equal.
  - rewrite region_blit_before by lia. done.
  - rewrite Z.add_0_l. apply region_blit_eq; lia.
Qed.

Lemma batch_bytes_len_snoc c content ms m :
  batch_holds c content ms -> zlen m < 2 ^ 16 ->
  BatchCostOf c (zlen m) =
    if zlen m =? 0 then 0 else u32 (zlen (batch_bytes (ms ++ [m])) - zlen (batch_bytes ms)).
Proof.
  intros Hh Hm.
  pose proof (zlen_nonneg m). unfold BatchCostOf. rewrite (bh_count _ _ _ Hh).
  destruct (Z.eqb_spec (zlen m) 0); [done|].
  destruct ms as [|m1 [|m2 ms]].
  - change (zlen [] =? 0) with true. simpl. change (zlen []) with 0. rewrite u32_small by lia. lia.
  - change (zlen [m1]) with 1. change (1 =? 0) with false. change (1 =? 1) with true. cbv iota.
    rewrite batch_bytes_snoc2, frames_single, zlen_app, !frame_len by done. simpl.
    change LEN with 2. f_equal. lia.
  - destruct (Z.eqb_spec (zlen (m1 :: m2 :: ms)) 0); [unfold zlen in *; simpl in *; lia|].
    destruct (Z.eqb_spec (zlen (m1 :: m2 :: ms)) 1); [unfold zlen in *; simpl in *; lia|].
    rewrite batch_bytes_snoc2, zlen_app, frame_len by done.
    change (batch_bytes (m1 :: m2 :: ms)) with (frames (m1 :: m2 :: ms)).
    change LEN with 2. f_equal. lia.
Qed.

(** The cost is what the content grows by. *)
Lemma BatchFits_spec c content ms m :
  batch_holds c content ms -> message_ok m ->
  BatchFits c (zlen m) = (zlen (batch_bytes (ms ++ [m])) <=? bc_capacity c) /\
  zlen (batch_bytes ms) < zlen (batch_bytes (ms ++ [m])) <= zlen (batch_bytes ms) + 4 + zlen m.
Proof.
  intros Hh [Hm Hmb].
  assert (Hgrow : zlen (batch_bytes ms) < zlen (batch_bytes (ms ++ [m]))
                  <= zlen (batch_bytes ms) + 4 + zlen m).
  { destruct ms as [|m1 [|m2 ms]].
    - simpl. change (zlen []) with 0. lia.
    - rewrite batch_bytes_snoc2, frames_single, zlen_app, !frame_len by done. simpl. lia.
    - rewrite batch_bytes_snoc2, zlen_app, frame_len by done.
      change (batch_bytes (m1 :: m2 :: ms)) with (frames (m1 :: m2 :: ms)). lia. }
  split; [|done].
  pose proof (batch_bytes_len_snoc c content ms m Hh ltac:(lia)) as Hc.
  pose proof (bh_used _ _ _ Hh). pose proof (bh_fits _ _ _ Hh). pose proof (bh_cap _ _ _ Hh).
  pose proof (zlen_nonneg (batch_bytes ms)).
  unfold BatchFits. rewrite Hc. destruct (Z.eqb_spec (zlen m) 0); [lia|].
  rewrite (u32_small (_ - _)) by lia.
  destruct (Z.eqb_spec (zlen (batch_bytes (ms ++ [m])) - zlen (batch_bytes ms)) 0); [lia|].
  rewrite u32_small by lia. f_equal. lia.
Qed.

(** The first message grows its length in place when a second one arrives;
    either way what precedes the append is the framed list so far. *)
Lemma append_prefix c content m1 ms (m : list Z) :
  batch_holds c content (m1 :: ms) -> 1 <= zlen m ->
  zlen (frames (m1 :: ms)) + (2 + zlen m) <= bc_capacity c ->
  exists content1 u1,
    (if zlen (m1 :: ms) =? 1
     then (PutLen (blit content LEN (region content 0 (bc_firstLen c))) 0 (bc_firstLen c),
           u16 (bc_used c + LEN))
     else (content, bc_used c)) = (content1, u1) /\
    zlen content1 = zlen content /\ Forall is_byte content1 /\
    u1 = zlen (frames (m1 :: ms)) /\ region content1 0 u1 = frames (m1 :: ms).
Proof.
  intros [Hc Hroom Hcap Hb Hms Hused Hf Hcount Hfirst Hreg] Hm Hle.
  destruct (Z.eqb_spec (zlen (m1 :: ms)) 1).
  - assert (ms = []) as -> by (destruct ms; [done|unfold zlen in *; simpl in *; lia]).
    pose proof (zlen_nonneg m1).
    rewrite (Hfirst m1 [] eq_refl). simpl in Hused, Hreg. rewrite Hused in *.
    rewrite frames_single in *. rewrite frame_len in *. rewrite Hreg.
    change LEN with 2. rewrite u16_small by lia.
    eexists _, _. split; [reflexivity|].
    rewrite PutLen_blit by (rewrite ?zlen_blit; lia).
    assert (Hl2 : zlen (le_bytes 2 (zlen m1)) = 2) by (unfold zlen; by rewrite length_le_bytes).
    split; [rewrite !zlen_blit by (rewrite ?zlen_blit; lia); done|].
    apply Forall_cons in Hms as [[? ?] _].
    split; [auto using blit_bytes, le_bytes_byte|]. split; [lia|].
    replace (zlen m1 + 2) with (2 + zlen m1) by lia. rewrite region_app by lia.
    pose proof (region_blit_eq (blit content 2 m1) 0 (le_bytes 2 (zlen m1))) as E.
    rewrite Hl2 in E. rewrite E by (rewrite ?zlen_blit; lia).
    rewrite region_blit_after by (rewrite ?zlen_blit; lia).
    change (0 + 2) with 2. rewrite region_blit_eq by lia. done.
  - assert (batch_bytes (m1 :: ms) = frames (m1 :: ms)) as Hbb
      by (destruct ms; [unfold zlen in *; simpl in *; lia|done]).
    rewrite Hbb in *. eexists _, _. split; [reflexivity|]. repeat split; done.
Qed.

Lemma frames_count ms : Forall message_ok ms -> zlen ms <= zlen (frames ms).
Proof.
  induction 1 as [|x l [? ?] _ IH]; [done|]. rewrite frames_cons, zlen_app, frame_len.
  change (x :: l) with ([x] ++ l). rewrite zlen_app. change (zlen [x]) with 1. lia.
Qed.

Lemma BatchAppend_step (c : BatchCursor) (content : list Z) (ms : list (list Z)) (m : list Z)
  (Hh : batch_holds c content ms) (Hm : message_ok m) :
  match BatchAppend c (Some m) (zlen m) with
  | Some c' => zlen (batch_bytes (ms ++ [m])) <= bc_capacity c /\
               bc_capacity c' = bc_capacity c /\
               exists content', zlen content' = zlen content /\ batch_holds c' content' (ms ++ [m])
  | None => bc_capacity c < zlen (batch_bytes (ms ++ [m]))
  end.
Proof.
  destruct (BatchFits_spec c content ms m Hh Hm) as [Hfit Hgrow].
  unfold BatchAppend. rewrite (bh_content _ _ _ Hh), Hfit.
  destruct (Z.leb_spec (zlen (batch_bytes (ms ++ [m]))) (bc_capacity c)) as [Hle|]; [|done].
  cbn [negb]. pose proof Hh as [Hc Hroom Hcap Hb Hms Hused Hf Hcount Hfirst Hreg].
  rewrite region_full, Hcount.
  assert (Hms' : Forall message_ok (ms ++ [m])) by (apply Forall_app_2; [done|by apply Forall_singleton]).
  destruct Hm as [Hm Hmb].
  destruct ms as [|m1 ms].
  { (* the first message, bare *)
    change (zlen [] =? 0) with true. cbv iota. simpl in Hle. simpl.
    split; [done|]. split; [done|].
    exists (blit content 0 m). split; [apply zlen_blit; lia|].
    split; simpl; try done.
    - rewrite zlen_blit by lia. done.
    - by apply blit_bytes.
    - by intros ? ? [= <- <-].
    - apply region_blit_eq; lia. }
  rewrite batch_bytes_snoc2 in * by done.
  destruct (Z.eqb_spec (zlen (m1 :: ms)) 0); [unfold zlen in *; simpl in *; lia|].
  rewrite zlen_app, frame_len in *.
  destruct (append_prefix c content m1 ms m Hh) as (content1 & u1 & -> & Hl1 & Hb1 & Hu1 & Hr1); [lia..|].
  pose proof (zlen_nonneg (frames (m1 :: ms))).
  destruct (append_framed content1 u1 (frames (m1 :: ms)) m) as [Hl Hr]; [lia..|done|].
  split; [lia|]. split; [done|].
  eexists. split; [etransitivity; [exact Hl|exact Hl1]|].
  pose proof (frames_count (m1 :: ms) Hms) as Hcnt. pose proof (zlen_nonneg (m1 :: ms)).
  change LEN with 2 in *.
  split; cbn [bc_content bc_used bc_count bc_firstLen bc_capacity].
  - done.
  - lia.
  - done.
  - rewrite PutLen_blit by lia. auto using blit_bytes, le_bytes_byte.
  - done.
  - rewrite batch_bytes_snoc2 by done. rewrite zlen_app, frame_len, u16_small by lia. lia.
  - rewrite u16_small by lia. lia.
  - rewrite zlen_app. change (zlen [m]) with 1. rewrite u16_small by lia. done.
  - intros ? ? [= <- <-]. by apply (Hfirst _ ms).
  - rewrite batch_bytes_snoc2 by done. rewrite u16_small by lia. exact Hr.
Qed.

(** Appending: a message goes in exactly when the content it
    would produce fits the capacity, and then the cursor holds the old messages
    followed by the new one; otherwise the call answers false and nothing
    changed. *)
Theorem BatchAppend_functional (c : BatchCursor) (content : list Z) (ms : list (list Z)) (m : list Z)
  (Hh : batch_holds c content ms) (Hm : message_ok m) :
  match BatchAppend c (Some m) (zlen m) with
  | Some c' => zlen (batch_bytes (ms ++ [m])) <= bc_capacity c /\
               bc_capacity c' = bc_capacity c /\
               exists content', zlen content' = zlen content /\ batch_holds c' content' (ms ++ [m])
  | None => bc_capacity c < zlen (batch_bytes (ms ++ [m]))
  end.
Proof. by apply BatchAppend_step. Qed.

Definition empty_cursor (cap : Z) : BatchCursor :=
  {| bc_content := Some (replicate (Z.to_nat cap) 0); bc_used := 0; bc_count := 0;
     bc_firstLen := 0; bc_capacity := cap |}.

Lemma empty_cursor_holds cap :
  is_u16 cap -> batch_holds (empty_cursor cap) (replicate (Z.to_nat cap) 0) [].
Proof.
  intros. split; simpl; try done; try lia.
  - rewrite zlen_replicate; lia.
  - apply Forall_replicate. unfold is_byte. lia.
Qed.

Lemma BatchAppend_functional_witness :
  match BatchAppend (empty_cursor 16) (Some [1; 2; 3]) 3 with
  | Some c' => 3 <= 16 /\ bc_capacity c' = 16 /\
               exists content', zlen content' = 16 /\ batch_holds c' content' [[1; 2; 3]]
  | None => 16 < 3
  end.
Proof.
  apply (BatchAppend_functional (empty_cursor 16) (replicate 16 0) [] [1; 2; 3]).
  - apply empty_cursor_holds. lia.
  - split; [unfold zlen; simpl; lia|repeat constructor; unfold is_byte; lia].
Defined.

(** ** Validating and walking *)

(** The two bytes at [off] decide the entry there. *)
Lemma entry_at content off len m rest :
  Forall is_byte content -> 0 <= off -> off + len <= zlen content ->
  message_ok m -> region content off len = frame m ++ rest ->
  off + 2 <= zlen content /\ TakeLen content off = zlen m /\
  region content (off + 2) (zlen m) = m /\
  2 + zlen m <= len /\ region content (off + 2 + zlen m) (len - 2 - zlen m) = rest.
Proof.
  intros Hb Hoff Hlen [Hm _] Hreg.
  destruct (decide (0 <= len)) as [Hl0|]; last first.
  { unfold region in Hreg. replace (Z.to_nat len) with 0%nat in Hreg by lia. done. }
  pose proof (zlen_region content off len Hoff Hl0 Hlen) as Hzl.
  rewrite Hreg, zlen_app, frame_len in Hzl. pose proof (zlen_nonneg rest).
  replace len with (2 + (zlen m + (len - 2 - zlen m))) in Hreg by lia.
  rewrite !region_app in Hreg by lia. unfold frame in Hreg. rewrite <- app_assoc in Hreg.
  assert (Hl2 : zlen (le_bytes 2 (zlen m)) = 2) by (unfold zlen; by rewrite length_le_bytes).
  apply app_inj_1 in Hreg as [H1 Hreg];
    [|apply length_of_zlen; rewrite zlen_region by lia; done].
  apply app_inj_1 in Hreg as [H2 H3];
    [|apply length_of_zlen; rewrite zlen_region by lia; done].
  repeat split; try lia; try done.
  destruct (TakeLen_value content off) as [-> _]; [done|lia|lia|].
  rewrite H1. apply le_value_len. lia.
Qed.

(** Conversely an entry that passes the loop's tests is a frame. *)
Lemma entry_frame content off len :
  Forall is_byte content -> 0 <= off -> off + len <= zlen content ->
  2 + TakeLen content off <= len -> 1 <= TakeLen content off ->
  exists m, message_ok m /\ zlen m = TakeLen content off /\
    region content off len =
      frame m ++ region content (off + 2 + TakeLen content off) (len - 2 - TakeLen content off).
Proof.
  intros Hb Hoff Hlen Hfit Hpos. set (n := TakeLen content off) in *.
  destruct (TakeLen_value content off) as [Hv Hu]; [done|lia|lia|].
  fold n in Hv, Hu.
  exists (region content (off + 2) n).
  assert (Hn : zlen (region content (off + 2) n) = n) by (apply zlen_region; lia).
  split; [|split].
  - split; [lia|]. unfold region. auto using Forall_take, Forall_drop.
  - done.
  - replace len with (2 + (n + (len - 2 - n))) at 1 by lia.
    rewrite !region_app by lia. rewrite app_assoc. f_equal.
    unfold frame. rewrite Hn. f_equal.
    pose proof (le_bytes_value (region content off 2)) as Hle.
    rewrite length_region in Hle by lia. change (Z.to_nat 2) with 2%nat in Hle.
    rewrite <- Hv in Hle. symmetry. apply Hle.
    unfold region. auto using Forall_take, Forall_drop.
Qed.

Lemma BatchValidate_loop_iff fuel content len : forall off,
  Forall is_byte content -> len <= zlen content -> is_u16 len -> 0 <= off <= len ->
  len - off < Z.of_nat fuel ->
  BatchValidate_loop fuel content len off = true <->
  exists ms, Forall message_ok ms /\ region content off (len - off) = frames ms.
Proof.
  induction fuel as [|fuel IH]; intros off Hb Hz Hlen Hoff Hfuel; [lia|].
  cbn [BatchValidate_loop]. change LEN with 2.
  destruct (Z.leb_spec (off + 2) len) as [Hroom|Hroom].
  - destruct (TakeLen_value content off) as [_ Hu]; [done|lia|lia|].
    assert (Hsplit : forall m ms, message_ok m -> region content off (len - off) = frame m ++ frames ms ->
              TakeLen content off = zlen m /\ 2 + zlen m <= len - off /\
              region content (off + 2 + zlen m) (len - (off + 2 + zlen m)) = frames ms).
    { intros m ms Hm E. destruct (entry_at content off (len - off) m (frames ms))
        as (_&?&_&?&?); [done|lia|lia|done|done|].
      replace (len - (off + 2 + zlen m)) with (len - off - 2 - zlen m) by lia. done. }
    assert (Hcons : forall ms, region content off (len - off) = frames ms -> ms <> []).
    { intros ms E ->. apply (f_equal zlen) in E. rewrite zlen_region in E by lia.
      change (zlen (frames [])) with 0 in E. lia. }
    rewrite (u32_small (off + (2 + TakeLen content off))) by lia.
    destruct (Z.eqb_spec (TakeLen content off) 0) as [E0|E0].
    { split; [done|]. intros ([|m ms]&Hms&E); [by apply Hcons in E|].
      apply Forall_cons in Hms as [Hm Hms]. rewrite frames_cons in E.
      destruct (Hsplit _ _ Hm E) as (?&?&?). destruct Hm. lia. }
    destruct (Z.ltb_spec len (off + (2 + TakeLen content off))).
    { split; [done|]. intros ([|m ms]&Hms&E); [by apply Hcons in E|].
      apply Forall_cons in Hms as [Hm Hms]. rewrite frames_cons in E.
      destruct (Hsplit _ _ Hm E) as (?&?&?). lia. }
    rewrite IH by (done || lia).
    replace (off + (2 + TakeLen content off)) with (off + 2 + TakeLen content off) by lia.
    split.
    + intros (ms&Hms&E).
      destruct (entry_frame content off (len - off)) as (m&Hm&Hzm&Hr); [done|lia..|].
      exists (m :: ms). split; [by constructor|]. rewrite frames_cons, Hr. f_equal. rewrite <- E.
      f_equal. lia.
    + intros ([|m ms]&Hms&E); [by apply Hcons in E|].
      apply Forall_cons in Hms as [Hm Hms]. rewrite frames_cons in E.
      destruct (Hsplit _ _ Hm E) as (->&?&?). by exists ms.
  - rewrite Z.eqb_eq. split.
    + intros ->. exists []. split; [done|]. by rewrite Z.sub_diag.
    + intros ([|m ms]&Hms&E).
      * apply (f_equal zlen) in E. rewrite zlen_region in E by lia.
        change (zlen (frames [])) with 0 in E. lia.
      * apply Forall_cons in Hms as [[Hm _] _].
        apply (f_equal zlen) in E. rewrite frames_cons, zlen_app, frame_len, zlen_region in E by lia.
        pose proof (zlen_nonneg (frames ms)). lia.
Qed.

(** Validation is exact: a content passes precisely when its
    bytes are the frames of some list of non-empty messages, so a chain that
    overruns, frames nothing or leaves a tail is refused whole. *)
Theorem BatchValidate_iff (content : list Z) (len : Z)
  (Hb : Forall is_byte content) (Hz : len <= zlen content) (Hlen : is_u16 len) :
  BatchValidate (Some content) len = true <->
  exists ms, Forall message_ok ms /\ region content 0 len = frames ms.
Proof.
  unfold BatchValidate. rewrite BatchValidate_loop_iff by (done || lia).
  by rewrite Z.sub_0_r.
Qed.

Lemma BatchValidate_iff_witness :
  BatchValidate (Some [2; 0; 7; 8; 1; 0; 9]) 7 = true /\
  exists ms, Forall message_ok ms /\ region [2; 0; 7; 8; 1; 0; 9] 0 7 = frames ms.
Proof.
  assert (H : BatchValidate (Some [2; 0; 7; 8; 1; 0; 9]) 7 = true) by reflexivity.
  split; [exact H|].
  apply (BatchValidate_iff [2; 0; 7; 8; 1; 0; 9] 7); [|vm_compute; discriminate|lia|exact H].
  repeat constructor; unfold is_byte; lia.
Defined.

(** Where the rest of the content is a framed list, the walk's next step answers
    its first message and stands before the others. *)
Lemma BatchNext_frame content len m ms off :
  Forall is_byte content -> len <= zlen content -> is_u16 len -> 0 <= off <= len ->
  message_ok m -> region content off (len - off) = frames (m :: ms) ->
  BatchNext (Some content) len off = Some (off + 2, zlen m, off + 2 + zlen m) /\
  region content (off + 2) (zlen m) = m /\ off + 2 + zlen m <= len /\
  region content (off + 2 + zlen m) (len - (off + 2 + zlen m)) = frames ms.
Proof.
  intros Hb Hz Hlen Hoff Hm E. rewrite frames_cons in E.
  destruct (entry_at content off (len - off) m (frames ms)) as (Hr2&HT&Hreg&Hle&Hrest); [done|lia|lia|done|done|].
  destruct Hm as [Hm _]. unfold BatchNext. change LEN with 2.
  destruct (Z.leb_spec len off); [lia|].
  rewrite HT. rewrite (u32_small (off + 2)), (u32_small (off + 2 + zlen m)) by lia.
  destruct (Z.ltb_spec len (off + 2)); [lia|].
  destruct (Z.ltb_spec len (off + 2 + zlen m)); [lia|].
  rewrite u16_small by lia. split; [done|]. split; [done|]. split; [lia|].
  rewrite <- Hrest. f_equal. lia.
Qed.

Lemma BatchNext_end content len off : len <= off -> BatchNext content len off = None.
Proof. intros. unfold BatchNext. destruct content; [|done]. destruct (Z.leb_spec len off); [done|lia]. Qed.

Lemma batch_walk_spec content len ms : forall off fuel,
  Forall is_byte content -> len <= zlen content -> is_u16 len -> 0 <= off <= len ->
  Forall message_ok ms -> region content off (len - off) = frames ms ->
  (length ms < fuel)%nat -> batch_walk fuel content len off = (ms, len).
Proof.
  induction ms as [|m ms IH]; intros off fuel Hb Hz Hlen Hoff Hms E Hfuel; (destruct fuel as [|fuel]; [lia|]); cbn [batch_walk].
  - apply (f_equal zlen) in E. rewrite zlen_region in E by lia. change (zlen (frames [])) with 0 in E.
    rewrite BatchNext_end by lia. f_equal. lia.
  - apply Forall_cons in Hms as [Hm Hms].
    destruct (BatchNext_frame content len m ms off) as (->&->&?&?); [done..|]. pose proof (zlen_nonneg m).
    rewrite IH; [done|done..|lia|done|done|simpl in Hfuel; lia].
Qed.

(** Appends a list of messages one after another; [None] when one is refused. *)
Fixpoint append_all (c : BatchCursor) (ms : list (list Z)) : option BatchCursor :=
  match ms with
  | [] => Some c
  | m :: ms' => c' ← BatchAppend c (Some m) (zlen m); append_all c' ms'
  end.

Lemma append_all_capacity ms : forall c c',
  append_all c ms = Some c' -> bc_capacity c' = bc_capacity c.
Proof.
  induction ms as [|m ms IH]; intros c c' Ha; [by injection Ha as <-|].
  cbn [append_all] in Ha. destruct (BatchAppend c (Some m) (zlen m)) as [c1|] eqn:E; [|done].
  apply IH in Ha. rewrite Ha. unfold BatchAppend in E.
  repeat case_match; simplify_eq; done.
Qed.

Lemma append_all_holds ms : forall c content pre c',
  batch_holds c content pre -> Forall message_ok ms -> append_all c ms = Some c' ->
  exists content', batch_holds c' content' (pre ++ ms).
Proof.
  induction ms as [|m ms IH]; intros c content pre c' Hh Hms Ha.
  - injection Ha as <-. rewrite app_nil_r. eauto.
  - apply Forall_cons in Hms as [Hm Hms]. cbn [append_all] in Ha.
    pose proof (BatchAppend_step c content pre m Hh Hm) as Hf.
    destruct (BatchAppend c (Some m) (zlen m)) as [c1|]; [|done]. simpl in Ha.
    destruct Hf as (_&_&content1&_&Hh1).
    destruct (IH _ _ _ _ Hh1 Hms Ha) as [content' ?]. exists content'.
    by rewrite <- app_assoc in *.
Qed.

(** Round trip: whatever two or more messages a fresh cursor was
    able to pack, the receiver validates the packed content and the walk hands
    back exactly those messages, in order, consuming every byte. *)
Theorem batch_roundtrip (cap : Z) (ms : list (list Z)) (c : BatchCursor) (content : list Z)
  (Hcap : is_u16 cap) (Hms : Forall message_ok ms) (Htwo : (2 <= length ms)%nat)
  (Ha : append_all (empty_cursor cap) ms = Some c) (Hc : bc_content c = Some content) :
  BatchValidate (bc_content c) (bc_used c) = true /\
  batch_walk (S (length ms)) content (bc_used c) 0 = (ms, bc_used c) /\
  bc_used c <= cap.
Proof.
  destruct (append_all_holds ms _ _ [] _ (empty_cursor_holds cap Hcap) Hms Ha) as [content' Hh].
  pose proof (append_all_capacity ms _ _ Ha) as Hcc. simpl in Hcc.
  destruct Hh as [Hc' Hroom Hcap' Hb Hms' Hused Hf Hcount Hfirst Hreg].
  rewrite Hc in Hc'. injection Hc' as <-. cbn [app] in *.
  assert (batch_bytes ms = frames ms) as Hbb by (destruct ms as [|? [|]]; simpl in *; [lia..|done]).
  rewrite Hbb in *. pose proof (zlen_nonneg (frames ms)).
  split; [|split; [|lia]].
  - rewrite Hc. unfold BatchValidate. apply BatchValidate_loop_iff; [done|lia..|].
    exists ms. by rewrite Z.sub_0_r.
  - apply batch_walk_spec; [done|lia..|done| |lia]. by rewrite Z.sub_0_r.
Qed.

Lemma batch_roundtrip_witness :
  exists c content, append_all (empty_cursor 20) [[5]; [6; 7]; [8; 9; 10]] = Some c /\
  bc_content c = Some content /\
  BatchValidate (bc_content c) (bc_used c) = true /\
  batch_walk 4 content (bc_used c) 0 = ([[5]; [6; 7]; [8; 9; 10]], bc_used c) /\
  bc_used c <= 20.
Proof.
  eexists _, _. split; [vm_compute; reflexivity|]. split; [reflexivity|].
  apply (batch_roundtrip 20 [[5]; [6; 7]; [8; 9; 10]]);
    [lia| |simpl; lia|vm_compute; reflexivity|reflexivity].
  repeat constructor; unfold is_byte, zlen; simpl; lia.
Defined.

(** A single message is stored bare: the content is the message itself, the
    bytes an unbatched packet would carry. *)
Lemma batch_single_bare cap m c :
  is_u16 cap -> message_ok m -> append_all (empty_cursor cap) [m] = Some c ->
  bc_used c = zlen m /\ exists content, bc_content c = Some content /\ region content 0 (zlen m) = m.
Proof.
  intros Hcap Hm Ha.
  destruct (append_all_holds [m] _ _ [] _ (empty_cursor_holds cap Hcap)
              (proj2 (Forall_singleton _ _) Hm) Ha) as [content Hh].
  destruct Hh as [Hc _ _ _ _ Hused _ _ _ Hreg]. simpl in *.
  split; [done|]. exists content. split; [done|]. by rewrite Hused in Hreg.
Qed.
