(* ===== verification/FlowData.v ===== *)
(** * Flow modes, epochs and the flow data byte: [flux/flow/flow.h]

    The byte after the sequence of every flow packet packs the mode (bits 0-2),
    the epoch (bits 3-5) and two framing bits (6 and 7).  Epochs are positions on
    a ring of eight; [CompareFlowEpoch] orders two of them by walking forward. *)

From S2P Require Import Prelude.

(** ** Definitions *)

Inductive FlowMode := RELIABLE_ORDERED | RELIABLE_UNORDERED | UNRELIABLE | RELIABLE_ORDERED_BULK.

#[export] Instance FlowMode_eq_dec : EqDecision FlowMode.
Proof. solve_decision. Defined.
#[export] Instance FlowMode_inhabited : Inhabited FlowMode := populate RELIABLE_ORDERED.

Definition mode_value (m : FlowMode) : Z :=
  match m with
  | RELIABLE_ORDERED => 0 | RELIABLE_UNORDERED => 1 | UNRELIABLE => 2 | RELIABLE_ORDERED_BULK => 3
  end.

(** [static_cast<FlowMode>] on a value below [FLOW_MODE_COUNT]. *)
Definition mode_of (v : Z) : FlowMode :=
  if v =? 0 then RELIABLE_ORDERED else if v =? 1 then RELIABLE_UNORDERED
  else if v =? 2 then UNRELIABLE else RELIABLE_ORDERED_BULK.

Definition FLOW_MODE_COUNT : Z := 4.

Definition IsOrdered (mode : FlowMode) : bool :=
  bool_decide (mode = RELIABLE_ORDERED) || bool_decide (mode = RELIABLE_ORDERED_BULK).

Definition IsReliable (mode : FlowMode) : bool := negb (bool_decide (mode = UNRELIABLE)).

Definition FLOW_WINDOW : Z := 256.
Definition FLOW_WINDOW_BULK : Z := 1024.

Definition WindowFor (mode : FlowMode) : Z :=
  if bool_decide (mode = RELIABLE_ORDERED_BULK) then FLOW_WINDOW_BULK else FLOW_WINDOW.

Definition ReorderCapFor (mode : FlowMode) : Z := if IsOrdered mode then WindowFor mode else 0.

Inductive FlowLifecycle := OPEN | CLOSING | CLOSED | FAILED.

#[export] Instance FlowLifecycle_eq_dec : EqDecision FlowLifecycle.
Proof. solve_decision. Defined.

Definition FLOW_EPOCH_COUNT : Z := 8.
Definition FLOW_EPOCH_MASK : Z := FLOW_EPOCH_COUNT - 1.

Inductive FlowPart := Whole | First | Middle | Last.

#[export] Instance FlowPart_eq_dec : EqDecision FlowPart.
Proof. solve_decision. Defined.

Definition FLOW_PART_MORE : Z := 64.
Definition FLOW_PART_CONT : Z := 128.

Definition FlowPartAllowed (mode : FlowMode) (part : FlowPart) : bool :=
  bool_decide (part = Whole) || IsOrdered mode.

(** [None] is the answer [false], which leaves [outData] alone. *)
Definition EncodeFlowData (mode : FlowMode) (epoch : Z) (part : FlowPart) : option Z :=
  if FLOW_MODE_COUNT <=? mode_value mode then None
  else if FLOW_EPOCH_MASK <? epoch then None
  else if negb (FlowPartAllowed mode part) then None
  else
    let bits := 0 in
    let bits := if bool_decide (part = First) || bool_decide (part = Middle)
                then Z.lor bits FLOW_PART_MORE else bits in
    let bits := if bool_decide (part = Middle) || bool_decide (part = Last)
                then Z.lor bits FLOW_PART_CONT else bits in
    Some (u8 (Z.lor (Z.lor (mode_value mode) (Z.shiftl epoch 3)) bits)).

Definition FlowDataPart (data : Z) : FlowPart :=
  let more := negb (Z.land data FLOW_PART_MORE =? 0) in
  let cont := negb (Z.land data FLOW_PART_CONT =? 0) in
  if negb cont then (if more then First else Whole)
  else (if more then Middle else Last).

Definition FlowDataEpoch (data : Z) : Z := u8 (Z.land (Z.shiftr data 3) FLOW_EPOCH_MASK).

Definition DecodeFlowData (data : Z) : option (FlowMode * Z * FlowPart) :=
  let modeBits := Z.land data 7 in
  if FLOW_MODE_COUNT <=? modeBits then None
  else
    let mode := mode_of modeBits in
    let part := FlowDataPart data in
    if negb (FlowPartAllowed mode part) then None
    else Some (mode, FlowDataEpoch data, part).

Inductive FlowEpochOrder := Current | Newer | Stale.

Definition CompareFlowEpoch (have seen : Z) : FlowEpochOrder :=
  let forward := u8 (Z.land (seen - have) FLOW_EPOCH_MASK) in
  if forward =? 0 then Current
  else if forward <? FLOW_EPOCH_COUNT / 2 then Newer else Stale.

(** ** Theorems *)

Lemma epoch_cases (P : Z -> Prop) e :
  0 <= e <= FLOW_EPOCH_MASK -> P 0 -> P 1 -> P 2 -> P 3 -> P 4 -> P 5 -> P 6 -> P 7 -> P e.
Proof.
  unfold FLOW_EPOCH_MASK, FLOW_EPOCH_COUNT. intros H. intros.
  assert (e = 0 \/ e = 1 \/ e = 2 \/ e = 3 \/ e = 4 \/ e = 5 \/ e = 6 \/ e = 7) by lia.
  intuition subst; done.
Qed.

(** Every flow data byte the sender encodes is one byte wide and
    decodes to the same mode, epoch and framing; encoding refuses exactly an
    epoch past the ring or framing bits on a mode without order. *)
Theorem EncodeFlowData_roundtrip (mode : FlowMode) (epoch : Z) (part : FlowPart)
  (He : 0 <= epoch) :
  match EncodeFlowData mode epoch part with
  | Some d => is_u8 d /\ DecodeFlowData d = Some (mode, epoch, part) /\
              epoch < FLOW_EPOCH_COUNT /\ FlowPartAllowed mode part = true
  | None => FLOW_EPOCH_COUNT <= epoch \/ FlowPartAllowed mode part = false
  end.
Proof.
  destruct (decide (epoch <= FLOW_EPOCH_MASK)) as [Hle|Hgt].
  - pattern epoch. apply epoch_cases; [lia|..];
      destruct mode, part; vm_compute; intuition congruence.
  - unfold EncodeFlowData.
    destruct (Z.leb_spec FLOW_MODE_COUNT (mode_value mode)); [destruct mode; done|].
    destruct (Z.ltb_spec FLOW_EPOCH_MASK epoch); [|lia].
    left. unfold FLOW_EPOCH_MASK in *. lia.
Qed.

Lemma EncodeFlowData_roundtrip_witness :
  match EncodeFlowData RELIABLE_ORDERED_BULK 5 Middle with
  | Some d => is_u8 d /\ DecodeFlowData d = Some (RELIABLE_ORDERED_BULK, 5, Middle) /\
              5 < FLOW_EPOCH_COUNT /\ FlowPartAllowed RELIABLE_ORDERED_BULK Middle = true
  | None => FLOW_EPOCH_COUNT <= 5 \/ FlowPartAllowed RELIABLE_ORDERED_BULK Middle = false
  end.
Proof. apply (EncodeFlowData_roundtrip RELIABLE_ORDERED_BULK 5 Middle). lia. Defined.

(** A decidable check of every byte value. *)
Definition decode_canonical (d : Z) : bool :=
  match DecodeFlowData d with
  | Some (mode, epoch, part) => bool_decide (EncodeFlowData mode epoch part = Some d)
  | None => true
  end.

Lemma decode_canonical_all : forallb decode_canonical (seqZ 0 256) = true.
Proof. vm_compute. reflexivity. Qed.

(** The decoder is canonical: every byte off the wire that it
    accepts is the encoding of what it answered, so no two bytes mean the same
    flow and no accepted byte carries a bit the encoder would not set. *)
Theorem DecodeFlowData_canonical (d : Z) (mode : FlowMode) (epoch : Z) (part : FlowPart)
  (Hd : is_u8 d) (Hdec : DecodeFlowData d = Some (mode, epoch, part)) :
  EncodeFlowData mode epoch part = Some d.
Proof.
  pose proof decode_canonical_all as H. rewrite forallb_forall in H.
  specialize (H d). unfold decode_canonical in H. rewrite Hdec in H.
  rewrite bool_decide_eq_true in H. apply H.
  apply list_elem_of_In, elem_of_seqZ. lia.
Qed.

Lemma DecodeFlowData_canonical_witness :
  EncodeFlowData RELIABLE_ORDERED_BULK 6 First = Some 115.
Proof. apply (DecodeFlowData_canonical 115); [lia|reflexivity]. Defined.

(** On generation numbers at most four behind and three ahead, the
    three-bit epochs order exactly as the generations do: equal is current, a
    later one is newer, an earlier one is stale.  So a straggler never resets an
    association and a receiver that missed up to two generations still catches
    up. *)
Theorem CompareFlowEpoch_orders_generations (h s : Z) (Hdist : -4 <= s - h <= 3) :
  CompareFlowEpoch (h mod FLOW_EPOCH_COUNT) (s mod FLOW_EPOCH_COUNT) =
  if s =? h then Current else if h <? s then Newer else Stale.
Proof.
  unfold CompareFlowEpoch, FLOW_EPOCH_MASK. change FLOW_EPOCH_COUNT with 8.
  change (8 - 1) with (2 ^ 3 - 1). rewrite land_mask by lia. change (2 ^ 3) with 8.
  rewrite <- Zminus_mod.
  rewrite u8_small by (pose proof (Z.mod_pos_bound (s - h) 8); lia).
  change (8 / 2) with 4.
  repeat (zcase; try done; try (exfalso; zdm)).
Qed.

Lemma CompareFlowEpoch_orders_generations_witness :
  CompareFlowEpoch (9 mod FLOW_EPOCH_COUNT) (11 mod FLOW_EPOCH_COUNT) = Newer.
Proof. apply (CompareFlowEpoch_orders_generations 9 11). lia. Defined.

(** Both ends derive ring sizes from the mode; all are powers of two, which is
    what indexing by [seq & (window - 1)] needs, and an ordered receiver can hold
    everything a sender may have in flight. *)
Lemma WindowFor_pow2 mode : exists k, 0 <= k < 16 /\ WindowFor mode = 2 ^ k.
Proof. destruct mode; [exists 8|exists 8|exists 8|exists 10]; done. Qed.

Lemma ReorderCapFor_window mode : IsOrdered mode = true -> ReorderCapFor mode = WindowFor mode.
Proof. unfold ReorderCapFor. by intros ->. Qed.
