(* ===== verification/RobinHood.v ===== *)
(** * Robin Hood indexes: the anonymous helpers of [flux/peer/peer_table.cpp]

    The peer table keeps three open-addressed indexes over one set of helpers:
    a probe ([FindPos]), an insert in which an entry that has probed further
    takes the bucket and the loser carries on ([InsertEntry]), and a removal that
    shifts the following run back by one ([RemoveEntryAt]).  A bucket whose hash
    is 0 is empty; removal clears only the hash and leaves the rest stale.

    The tag index uses siblings of the same three functions with no stored key;
    they are the instances at the one-point key.

    Everything rests on one local invariant, [rh]: a live entry that is [d > 0]
    buckets past its home has a live left neighbour at least [d - 1] past its
    own.  The walks are unbounded loops in the source; here they carry fuel and
    answer [None] while still running, and the theorems show that a table with an
    empty bucket never runs out. *)

From S2P Require Import Prelude.

(** ** Definitions *)

Record entry (K : Type) := mk_entry { e_hash : Z; e_idx : Z; e_key : K }.
Arguments mk_entry {K}.
Arguments e_hash {K}.
Arguments e_idx {K}.
Arguments e_key {K}.

#[export] Instance entry_inhabited {K} `{Inhabited K} : Inhabited (entry K) :=
  populate (mk_entry 0 0 inhabitant).

Definition Dist (hash pos mask : Z) : Z := Z.land (u32 (pos - Z.land (u32 hash) mask)) mask.

Section Index.
Context {K : Type} `{!Inhabited K}.
Implicit Types (entries T : list (entry K)) (eq : entry K -> bool).

(** [Some (Some p)] is a position, [Some None] is [NPOS], [None] means the loop
    has not finished within the fuel. *)
Fixpoint FindPos_loop (fuel : nat) entries (mask hash : Z) eq (pos dist : Z) : option (option Z) :=
  match fuel with
  | O => None
  | S fuel' =>
      let e := entries.[pos] in
      if e_hash e =? 0 then Some None
      else if (e_hash e =? hash) && eq e then Some (Some pos)
      else if Dist (e_hash e) pos mask <? dist then Some None
      else FindPos_loop fuel' entries mask hash eq (Z.land (u32 (pos + 1)) mask) (u32 (dist + 1))
  end.

Definition FindPos entries (mask hash : Z) eq : option (option Z) :=
  FindPos_loop (length entries) entries mask hash eq (Z.land (u32 hash) mask) 0.

Fixpoint InsertEntry_loop (fuel : nat) entries (mask : Z) (carry : entry K) (pos dist : Z)
  : option (list (entry K)) :=
  match fuel with
  | O => None
  | S fuel' =>
      let e := entries.[pos] in
      if e_hash e =? 0 then Some (entries.[pos <- carry])
      else
        let entryDist := Dist (e_hash e) pos mask in
        if entryDist <? dist then
          InsertEntry_loop fuel' (entries.[pos <- carry]) mask e
            (Z.land (u32 (pos + 1)) mask) (u32 (entryDist + 1))
        else
          InsertEntry_loop fuel' entries mask carry
            (Z.land (u32 (pos + 1)) mask) (u32 (dist + 1))
  end.

Definition InsertEntry entries (mask hash slot : Z) (key : K) : option (list (entry K)) :=
  InsertEntry_loop (length entries) entries mask (mk_entry hash slot key) (Z.land (u32 hash) mask) 0.

(** [entries[pos].hash.store(0)], which leaves index and key behind. *)
Definition clear_hash (e : entry K) : entry K := mk_entry 0 (e_idx e) (e_key e).

Fixpoint RemoveEntryAt_loop (fuel : nat) entries (mask pos : Z) : option (list (entry K)) :=
  match fuel with
  | O => None
  | S fuel' =>
      let next := Z.land (u32 (pos + 1)) mask in
      let ne := entries.[next] in
      if (e_hash ne =? 0) || (Dist (e_hash ne) next mask =? 0)
      then Some (entries.[pos <- clear_hash entries.[pos]])
      else RemoveEntryAt_loop fuel' (entries.[pos <- ne]) mask next
  end.

Definition RemoveEntryAt entries (mask pos : Z) : option (list (entry K)) :=
  RemoveEntryAt_loop (length entries) entries mask pos.
End Index.

(** The tag index stores no key. *)
Definition FindTagPos (entries : list (entry unit)) (mask hash slot : Z) : option (option Z) :=
  FindPos entries mask hash (fun e => e_idx e =? slot).
Definition InsertTagEntry (entries : list (entry unit)) (mask hash slot : Z) : option (list (entry unit)) :=
  InsertEntry entries mask hash slot tt.
Definition RemoveTagEntryAt (entries : list (entry unit)) (mask pos : Z) : option (list (entry unit)) :=
  RemoveEntryAt entries mask pos.

(** ** Ring arithmetic *)

Section Ring.
Context (k : Z) (Hk : 0 <= k <= 30).
Definition NB : Z := 2 ^ k.

Lemma N_pos : 0 < NB /\ NB <= 2 ^ 30.
Proof.
  unfold NB. split; [apply Z.pow_pos_nonneg; lia|].
  apply Z.pow_le_mono_r; lia.
Qed.

Lemma land_N x : Z.land x (NB - 1) = x mod NB.
Proof. apply land_mask. lia. Qed.

Lemma u32_mod_N x : u32 x mod NB = x mod NB.
Proof.
  unfold u32, NB. replace (2 ^ 32) with (2 ^ k * 2 ^ (32 - k)).
  - rewrite Z.rem_mul_r by (apply Z.pow_nonzero || apply Z.pow_pos_nonneg; lia).
    rewrite Z.mul_comm, Z_mod_plus_full. apply Z.mod_mod. apply Z.pow_nonzero; lia.
  - rewrite <- Z.pow_add_r by lia. f_equal. lia.
Qed.

(** The distance of [pos] past the home bucket of [h]. *)
Definition rdist (h pos : Z) : Z := (pos - h) mod NB.
Definition nxt (p : Z) : Z := (p + 1) mod NB.
Definition prv (p : Z) : Z := (p - 1) mod NB.

Lemma Dist_rdist h p : Dist h p (NB - 1) = rdist h p.
Proof.
  unfold Dist, rdist. rewrite !land_N, !u32_mod_N.
  by rewrite Zminus_mod_idemp_r.
Qed.

Lemma home_N h : Z.land (u32 h) (NB - 1) = h mod NB.
Proof. by rewrite land_N, u32_mod_N. Qed.

Lemma next_N p : Z.land (u32 (p + 1)) (NB - 1) = nxt p.
Proof. unfold nxt. by rewrite land_N, u32_mod_N. Qed.

Lemma rdist_range h p : 0 <= rdist h p < NB.
Proof. apply Z.mod_pos_bound. apply N_pos. Qed.
Lemma nxt_range p : 0 <= nxt p < NB.
Proof. apply Z.mod_pos_bound. apply N_pos. Qed.
Lemma prv_range p : 0 <= prv p < NB.
Proof. apply Z.mod_pos_bound. apply N_pos. Qed.

Lemma prv_nxt p : 0 <= p < NB -> prv (nxt p) = p.
Proof.
  intros. unfold prv, nxt. rewrite Zminus_mod_idemp_l.
  replace (p + 1 - 1) with p by lia. by apply Z.mod_small.
Qed.
Lemma nxt_prv p : 0 <= p < NB -> nxt (prv p) = p.
Proof.
  intros. unfold prv, nxt. rewrite Zplus_mod_idemp_l.
  replace (p - 1 + 1) with p by lia. by apply Z.mod_small.
Qed.

Lemma rdist_prv h p : 0 < rdist h p -> rdist h (prv p) = rdist h p - 1.
Proof.
  intros H. unfold rdist, prv in *. rewrite Zminus_mod_idemp_l.
  replace (p - 1 - h) with (p - h - 1) by lia.
  rewrite <- Zminus_mod_idemp_l. apply Z.mod_small.
  pose proof (Z.mod_pos_bound (p - h) NB (proj1 N_pos)). lia.
Qed.

Lemma rdist_nxt h p : rdist h p + 1 < NB -> rdist h (nxt p) = rdist h p + 1.
Proof.
  intros H. unfold rdist, nxt in *. rewrite Zminus_mod_idemp_l.
  replace (p + 1 - h) with (p - h + 1) by lia.
  rewrite <- Zplus_mod_idemp_l. apply Z.mod_small.
  pose proof (Z.mod_pos_bound (p - h) NB (proj1 N_pos)). lia.
Qed.

Lemma rdist_home h p : 0 <= p < NB -> (h + rdist h p) mod NB = p.
Proof.
  intros. unfold rdist. rewrite Zplus_mod_idemp_r.
  replace (h + (p - h)) with p by lia. by apply Z.mod_small.
Qed.

Lemma rdist_at h d : 0 <= d < NB -> rdist h ((h + d) mod NB) = d.
Proof.
  intros. unfold rdist. rewrite Zminus_mod_idemp_l.
  replace (h + d - h) with d by lia. by apply Z.mod_small.
Qed.

Lemma rdist_self h : rdist h (h mod NB) = 0.
Proof.
  unfold rdist. rewrite Zminus_mod_idemp_l, Z.sub_diag. apply Z.mod_0_l.
  pose proof N_pos. lia.
Qed.

(** Buckets between [p] and [z], walking forward. *)
Definition ahead (p z : Z) : Z := (z - p) mod NB.
Lemma ahead_range p z : 0 <= ahead p z < NB.
Proof. apply Z.mod_pos_bound. apply N_pos. Qed.

Lemma ahead_nxt p z : 0 <= p < NB -> 0 <= z < NB -> p <> z -> ahead (nxt p) z = ahead p z - 1.
Proof.
  intros Hp Hz Hne. unfold ahead, nxt. rewrite Zminus_mod_idemp_r.
  replace (z - (p + 1)) with (z - p - 1) by lia.
  rewrite <- Zminus_mod_idemp_l. apply Z.mod_small.
  pose proof (Z.mod_pos_bound (z - p) NB (proj1 N_pos)).
  enough ((z - p) mod NB <> 0) by lia. intros E.
  pose proof N_pos. apply Z.mod_divide in E; [|lia]. destruct E as [q Hq].
  assert (q = 0 \/ 1 <= q \/ q <= -1) as [->|[?|?]] by lia; nia.
Qed.

(** ** The invariant *)

Section Table.
Context {K : Type} `{!Inhabited K}.
Implicit Types (T : list (entry K)) (p q z : Z).

Definition live T p : Prop := e_hash T.[p] <> 0.
Definition dist T p : Z := rdist (e_hash T.[p]) p.

Record rh T : Prop := {
  rh_len : zlen T = NB;
  rh_step : forall p, 0 <= p < NB -> live T p -> 0 < dist T p ->
            live T (prv p) /\ dist T p - 1 <= dist T (prv p) }.

Definition has_room T : Prop := exists z, 0 <= z < NB /\ ~ live T z.

(** Walking back from a live entry to its home meets only live entries, each at
    least as far from its own home as the walk is from this one's. *)
Lemma rh_chain T p (j : nat) :
  rh T -> 0 <= p < NB -> live T p -> Z.of_nat j <= dist T p ->
  live T ((p - Z.of_nat j) mod NB) /\ dist T p - Z.of_nat j <= dist T ((p - Z.of_nat j) mod NB).
Proof.
  intros HT Hp Hl. induction j as [|j IH]; intros Hj.
  - rewrite Z.sub_0_r, Z.mod_small by lia. split; [done|lia].
  - destruct IH as [Hl' Hd']; [lia|].
    assert (Hr : 0 <= (p - Z.of_nat j) mod NB < NB) by (apply Z.mod_pos_bound; apply N_pos).
    destruct (rh_step T HT _ Hr Hl' ltac:(lia)) as [Hl'' Hd''].
    assert (prv ((p - Z.of_nat j) mod NB) = (p - Z.of_nat (S j)) mod NB) as E.
    { unfold prv. rewrite Zminus_mod_idemp_l. f_equal. lia. }
    rewrite E in *. split; [done|lia].
Qed.

(** The same fact in the direction a probe walks. *)
Lemma rh_probe T p i :
  rh T -> 0 <= p < NB -> live T p -> 0 <= i <= dist T p ->
  let q := (e_hash T.[p] + i) mod NB in live T q /\ i <= dist T q.
Proof.
  intros HT Hp Hl Hi. cbv zeta.
  destruct (rh_chain T p (Z.to_nat (dist T p - i)) HT Hp Hl ltac:(lia)) as [H1 H2].
  rewrite Z2Nat.id in * by lia.
  assert ((p - (dist T p - i)) mod NB = (e_hash T.[p] + i) mod NB) as E.
  { rewrite <- (rdist_home (e_hash T.[p]) p Hp) at 1. fold (dist T p).
    rewrite Zminus_mod_idemp_l. f_equal. lia. }
  rewrite E in *. split; [done|lia].
Qed.

(** ** Probing *)

Lemma u32_dist x : 0 <= x <= NB -> u32 x = x.
Proof. intros. pose proof N_pos. apply u32_small. lia. Qed.

Lemma probe_next hash d : nxt ((hash + d) mod NB) = (hash + (d + 1)) mod NB.
Proof. unfold nxt. rewrite Zplus_mod_idemp_l. f_equal. lia. Qed.

Lemma probe_reaches hash z : 0 <= z < NB -> (hash + ahead (hash mod NB) z) mod NB = z.
Proof.
  intros Hz. unfold ahead. rewrite Zplus_mod_idemp_r, <- Zplus_mod_idemp_l.
  replace (hash mod NB + (z - hash mod NB)) with z by lia. by apply Z.mod_small.
Qed.

(** A walk from the home bucket that stands on a live entry has not reached the
    empty bucket [z] yet. *)
Lemma probe_before T hash d z :
  0 <= z < NB -> ~ live T z -> live T ((hash + d) mod NB) ->
  d <= ahead (hash mod NB) z -> d < ahead (hash mod NB) z.
Proof.
  intros Hz He Hl Hd. enough (d <> ahead (hash mod NB) z) by lia. intros ->.
  rewrite probe_reaches in Hl by done. done.
Qed.

Definition matches T hash (eq : entry K -> bool) q : Prop :=
  0 <= q < NB /\ e_hash T.[q] = hash /\ eq T.[q] = true.

(** A match at least [d] from its home keeps the [d]th bucket of the walk live
    and at least [d] from its own. *)
Lemma match_keeps T hash eq q d :
  rh T -> hash <> 0 -> matches T hash eq q -> 0 <= d <= dist T q ->
  live T ((hash + d) mod NB) /\ d <= dist T ((hash + d) mod NB).
Proof.
  intros HT Hh (Hq&Eq&Em) Hd.
  destruct (rh_probe T q d HT Hq) as [H1 H2]; [unfold live; congruence|lia|].
  by rewrite Eq in *.
Qed.

Lemma match_at T hash eq q : matches T hash eq q -> q = (hash + dist T q) mod NB.
Proof.
  intros (Hq&Eq&_). unfold dist. rewrite Eq. symmetry. by apply rdist_home.
Qed.

Lemma FindPos_loop_spec T hash (eq : entry K -> bool) z : forall fuel d,
  rh T -> hash <> 0 -> 0 <= z < NB -> ~ live T z ->
  0 <= d <= ahead (hash mod NB) z -> ahead (hash mod NB) z - d < Z.of_nat fuel ->
  (forall q, matches T hash eq q -> d <= dist T q) ->
  match FindPos_loop fuel T (NB - 1) hash eq ((hash + d) mod NB) d with
  | Some (Some p) => matches T hash eq p
  | Some None => forall q, ~ matches T hash eq q
  | None => False
  end.
Proof.
  induction fuel as [|fuel IH]; intros d HT Hh Hz Hez Hd Hfuel Hfar; [lia|].
  set (pos := (hash + d) mod NB).
  pose proof (ahead_range (hash mod NB) z) as Har.
  assert (Hpos : 0 <= pos < NB) by (apply Z.mod_pos_bound, N_pos).
  assert (Hkeep : forall q, matches T hash eq q -> live T pos /\ d <= dist T pos).
  { intros q Hm. apply (match_keeps T hash eq q); [done..|]. pose proof (Hfar q Hm). lia. }
  cbn [FindPos_loop]. rewrite Dist_rdist. fold (dist T pos).
  destruct (Z.eqb_spec (e_hash T.[pos]) 0) as [E0|E0].
  { intros q Hm. destruct (Hkeep q Hm) as [Hl _]. done. }
  destruct ((e_hash T.[pos] =? hash) && eq T.[pos]) eqn:Em.
  { apply andb_prop in Em as [Eh%Z.eqb_eq ?]. done. }
  destruct (Z.ltb_spec (dist T pos) d).
  { intros q Hm. destruct (Hkeep q Hm) as [_ ?]. lia. }
  assert (d < ahead (hash mod NB) z) by (apply (probe_before T); [lia|done|done|lia]).
  rewrite next_N, u32_dist by lia. unfold pos. rewrite probe_next.
  apply IH; try done; [lia..|].
  intros q Hm. pose proof (Hfar q Hm). enough (dist T q <> d) by lia. intros Ed.
  pose proof (match_at T hash eq q Hm) as Eq. rewrite Ed in Eq. fold pos in Eq. subst q.
  destruct Hm as (_&Hh1&Hh2). rewrite Hh1, Hh2, Z.eqb_refl in Em. done.
Qed.

(** Finding is exact and always ends: some matching bucket when there is one,
    [NPOS] otherwise. *)
Lemma FindPos_spec T hash eq :
  rh T -> has_room T -> hash <> 0 ->
  match FindPos T (NB - 1) hash eq with
  | Some (Some p) => matches T hash eq p
  | Some None => forall q, ~ matches T hash eq q
  | None => False
  end.
Proof.
  intros HT (z&Hz&He) Hh. unfold FindPos. rewrite home_N.
  pose proof (ahead_range (hash mod NB) z). pose proof (rh_len T HT) as Hlen. unfold zlen in Hlen.
  pose proof (FindPos_loop_spec T hash eq z (length T) 0 HT Hh Hz He) as H1.
  rewrite Z.add_0_r in H1. apply H1; [lia..|].
  intros q Hm. unfold dist. apply rdist_range.
Qed.

(** ** What the table holds *)

Definition content T : list (entry K) := filter (fun e => e_hash e <> 0) T.

Lemma set_perm T p (e : entry K) : 0 <= p < zlen T -> T.[p] :: T.[p <- e] ≡ₚ e :: T.
Proof.
  intros Hp. unfold arr_get, arr_set, zlen in *.
  destruct (lookup_lt_is_Some_2 T (Z.to_nat p)) as [x Hx]; [lia|].
  rewrite (list_lookup_total_correct _ _ _ Hx).
  pose proof (take_drop_middle T (Z.to_nat p) x Hx) as E.
  assert (Hl : length (take (Z.to_nat p) T) = Z.to_nat p) by (rewrite length_take; lia).
  revert E Hl. generalize (take (Z.to_nat p) T), (drop (S (Z.to_nat p)) T).
  intros l1 l2 <- Hl. rewrite insert_app_r_alt, Hl, Nat.sub_diag by lia. simpl.
  rewrite <- !Permutation_middle. apply Permutation_swap.
Qed.

Lemma content_cons_live e l : e_hash e <> 0 -> content (e :: l) = e :: content l.
Proof. intros. unfold content. rewrite filter_cons. by destruct (decide _). Qed.
Lemma content_cons_dead e l : e_hash e = 0 -> content (e :: l) = content l.
Proof. intros. unfold content. rewrite filter_cons. destruct (decide _); [done|done]. Qed.

Lemma content_set_live T p e :
  0 <= p < zlen T -> live T p -> e_hash e <> 0 -> T.[p] :: content (T.[p <- e]) ≡ₚ e :: content T.
Proof.
  intros. rewrite <- !content_cons_live by done. unfold content. by rewrite (set_perm T p e).
Qed.
Lemma content_set_dead T p e :
  0 <= p < zlen T -> ~ live T p -> e_hash e <> 0 -> content (T.[p <- e]) ≡ₚ e :: content T.
Proof.
  intros ? Hd ?. unfold live in Hd.
  rewrite <- (content_cons_dead T.[p]) by (destruct (decide (e_hash T.[p] = 0)); done).
  rewrite <- content_cons_live by done. unfold content. by rewrite (set_perm T p e).
Qed.
Lemma content_clear T p e :
  0 <= p < zlen T -> live T p -> e_hash e = 0 -> T.[p] :: content (T.[p <- e]) ≡ₚ content T.
Proof.
  intros. rewrite <- content_cons_live by done.
  rewrite <- (content_cons_dead e T) by done. unfold content. by rewrite (set_perm T p e).
Qed.

Lemma elem_of_content T e : zlen T = NB -> e ∈ content T <-> exists p, 0 <= p < NB /\ live T p /\ T.[p] = e.
Proof.
  intros Hl. unfold content. rewrite list_elem_of_filter, list_elem_of_lookup. split.
  - intros [Hh [i Hi]]. exists (Z.of_nat i).
    assert (T.[Z.of_nat i] = e) as E.
    { unfold arr_get. rewrite Nat2Z.id. by apply list_lookup_total_correct. }
    apply lookup_lt_Some in Hi. unfold zlen in Hl. split; [lia|]. unfold live. by rewrite E.
  - intros (p&Hp&Hlv&<-). split; [done|]. exists (Z.to_nat p).
    unfold arr_get. apply list_lookup_lookup_total_lt. unfold zlen in Hl. lia.
Qed.

(** ** Insertion *)

Lemma live_set_ne T p q e : 0 <= p -> 0 <= q -> p <> q -> live (T.[p <- e]) q <-> live T q.
Proof. intros. unfold live. by rewrite arr_get_set_ne. Qed.
Lemma dist_set_ne T p q e : 0 <= p -> 0 <= q -> p <> q -> dist (T.[p <- e]) q = dist T q.
Proof. intros. unfold dist. by rewrite arr_get_set_ne. Qed.

(** Placing an entry that is no closer to its home than the one it replaces. *)
Lemma rh_set T pos c :
  rh T -> 0 <= pos < NB -> e_hash c <> 0 ->
  (0 < rdist (e_hash c) pos ->
     prv pos <> pos /\ live T (prv pos) /\ rdist (e_hash c) pos - 1 <= dist T (prv pos)) ->
  (live T pos -> dist T pos <= rdist (e_hash c) pos) ->
  rh (T.[pos <- c]).
Proof.
  intros [Hlen Hstep] Hpos Hc Hprev Hsteal. split; [by rewrite zlen_set|].
  intros p Hp Hl Hd. pose proof (prv_range p) as Hpr.
  assert (Hself : dist (T.[pos <- c]) pos = rdist (e_hash c) pos)
    by (unfold dist; by rewrite arr_get_set_eq by lia).
  destruct (decide (p = pos)) as [->|Hne].
  - rewrite Hself in *. destruct (Hprev Hd) as (?&?&?).
    rewrite live_set_ne, dist_set_ne by lia. done.
  - rewrite live_set_ne in Hl by lia. rewrite dist_set_ne in * by lia.
    destruct (Hstep p Hp Hl Hd) as [Hl' Hd'].
    destruct (decide (prv p = pos)) as [E|].
    + rewrite E in *. split; [unfold live; by rewrite arr_get_set_eq by lia|].
      rewrite Hself. pose proof (Hsteal Hl'). lia.
    + rewrite live_set_ne, dist_set_ne by lia. done.
Qed.

Lemma ring_two p z : 0 <= p < NB -> 0 <= z < NB -> p <> z -> nxt p <> p /\ prv p <> p.
Proof.
  intros Hp Hz Hne. assert (2 <= NB) by lia.
  assert (Hnxt : forall q, 0 <= q < NB -> nxt q <> q).
  { intros q Hq. unfold nxt. destruct (decide (q + 1 < NB)).
    - rewrite Z.mod_small by lia. lia.
    - replace (q + 1) with NB by lia. rewrite Z.mod_same by lia. lia. }
  split; [by apply Hnxt|]. intros E. apply (Hnxt (prv p) (prv_range p)).
  rewrite nxt_prv by done. done.
Qed.

(** With an empty bucket somewhere no entry is a whole ring past its home. *)
Lemma dist_not_full T p z :
  rh T -> 0 <= p < NB -> live T p -> 0 <= z < NB -> ~ live T z -> dist T p + 1 < NB.
Proof.
  intros HT Hp Hl Hz He.
  destruct (Z.lt_ge_cases (dist T p + 1) NB) as [|Hge]; [done|]. exfalso. apply He.
  pose proof (ahead_range z p) as Ha.
  destruct (rh_chain T p (Z.to_nat (ahead z p)) HT Hp Hl ltac:(lia)) as [H1 _].
  rewrite Z2Nat.id in H1 by lia.
  assert ((p - ahead z p) mod NB = z) as E; [|by rewrite E in H1].
  unfold ahead. rewrite Zminus_mod_idemp_r. replace (p - (p - z)) with z by lia.
  by apply Z.mod_small.
Qed.

Lemma InsertEntry_loop_spec z : forall fuel T carry pos d,
  rh T -> 0 <= z < NB -> ~ live T z -> e_hash carry <> 0 -> 0 <= pos < NB ->
  rdist (e_hash carry) pos = d ->
  (0 < d -> live T (prv pos) /\ d - 1 <= dist T (prv pos)) ->
  ahead pos z < Z.of_nat fuel ->
  exists T', InsertEntry_loop fuel T (NB - 1) carry pos d = Some T' /\
             rh T' /\ content T' ≡ₚ carry :: content T.
Proof.
  induction fuel as [|fuel IH]; intros T carry pos d HT Hz He Hc Hpos Hd Hprev Hf;
    [pose proof (ahead_range pos z); lia|].
  cbn [InsertEntry_loop]. rewrite Dist_rdist. fold (dist T pos).
  pose proof (rh_len T HT) as Hlen.
  destruct (Z.eqb_spec (e_hash T.[pos]) 0) as [E0|E0].
  { eexists. split; [done|]. split.
    - apply rh_set; try done. rewrite Hd.
      intros Hd0. destruct (Hprev Hd0) as [Hl ?]. repeat split; try done.
      intros E. rewrite E in Hl. done.
    - apply content_set_dead; [lia|intros Hl; by apply Hl|done]. }
  assert (Hne : pos <> z) by (intros ->; done).
  destruct (ring_two pos z Hpos Hz Hne) as [_ Hpp].
  pose proof (dist_not_full T pos z HT Hpos E0 Hz He) as Hfull.
  pose proof (rdist_range (e_hash T.[pos]) pos) as Hrd. fold (dist T pos) in Hrd.
  pose proof (rdist_range (e_hash carry) pos).
  pose proof (ahead_nxt pos z Hpos Hz Hne) as Han.
  rewrite next_N. destruct (Z.ltb_spec (dist T pos) d) as [Hlt|Hge].
  - (* the carried entry takes the bucket, the loser carries on *)
    rewrite u32_dist by lia.
    destruct (IH (T.[pos <- carry]) T.[pos] (nxt pos) (dist T pos + 1)) as (T'&?&?&Hperm).
    + apply rh_set; try done; rewrite Hd; [|lia]. intros Hd0. by destruct (Hprev Hd0).
    + done.
    + by rewrite live_set_ne by lia.
    + done.
    + apply nxt_range.
    + apply rdist_nxt. done.
    + intros _. rewrite prv_nxt by lia. unfold live, dist. rewrite arr_get_set_eq by lia.
      split; [done|]. fold (dist T pos). lia.
    + lia.
    + exists T'. split; [done|]. split; [done|]. rewrite Hperm. by apply content_set_live; [lia|..].
  - rewrite u32_dist by lia. apply IH; try done; [apply nxt_range| | |lia].
    + rewrite <- Hd. apply rdist_nxt. lia.
    + intros _. rewrite prv_nxt by lia. split; [done|lia].
Qed.

Lemma InsertEntry_spec T hash slot key :
  rh T -> has_room T -> hash <> 0 ->
  exists T', InsertEntry T (NB - 1) hash slot key = Some T' /\ rh T' /\
             content T' ≡ₚ mk_entry hash slot key :: content T.
Proof.
  intros HT (z&Hz&He) Hh. unfold InsertEntry. rewrite home_N.
  pose proof (rh_len T HT) as Hlen. unfold zlen in Hlen.
  apply (InsertEntry_loop_spec z); simpl; try done.
  - apply Z.mod_pos_bound, N_pos.
  - apply rdist_self.
  - pose proof (ahead_range (hash mod NB) z). lia.
Qed.

(** ** Removal *)

(** The table while the loop runs: bucket [p] is about to be overwritten, and
    its right neighbour could move into it. *)
Record hole T p : Prop := {
  ho_len : zlen T = NB;
  ho_step : forall q, 0 <= q < NB -> q <> p -> q <> nxt p -> live T q -> 0 < dist T q ->
            live T (prv q) /\ dist T q - 1 <= dist T (prv q);
  ho_next : live T (nxt p) -> 0 < dist T (nxt p) ->
            dist T (nxt p) = 1 \/ (live T (prv p) /\ dist T (nxt p) - 2 <= dist T (prv p)) }.

Lemma rh_hole T p z :
  rh T -> 0 <= p < NB -> 0 <= z < NB -> p <> z -> hole T p.
Proof.
  intros [Hlen Hstep] Hp Hz Hne. split; [done|intros; by apply Hstep|].
  intros Hl Hd. destruct (Hstep (nxt p) (nxt_range p) Hl Hd) as [Hl' Hd'].
  rewrite prv_nxt in * by done.
  destruct (decide (dist T (nxt p) = 1)); [by left|right].
  destruct (Hstep p Hp Hl' ltac:(lia)) as [??]. split; [done|lia].
Qed.

Lemma hole_close T p :
  hole T p -> 0 <= p < NB -> nxt p <> p ->
  ~ live T (nxt p) \/ dist T (nxt p) = 0 ->
  rh (T.[p <- clear_hash T.[p]]).
Proof.
  intros [Hlen Hstep _] Hp Hnp Hend. split; [by rewrite zlen_set|].
  intros q Hq Hl Hd. pose proof (prv_range q).
  destruct (decide (q = p)) as [->|Hqp].
  { unfold live in Hl. by rewrite arr_get_set_eq in Hl by lia. }
  rewrite live_set_ne in Hl by lia. rewrite dist_set_ne in * by lia.
  assert (q <> nxt p) as Hqn.
  { intros ->. destruct Hend; [done|lia]. }
  assert (prv q <> p) by (intros <-; by rewrite nxt_prv in Hqn).
  rewrite live_set_ne, dist_set_ne by lia. by apply Hstep.
Qed.

Lemma hole_shift T p z :
  hole T p -> 0 <= p < NB -> 0 <= z < NB -> p <> z -> nxt p <> z ->
  live T (nxt p) -> 0 < dist T (nxt p) -> hole (T.[p <- T.[nxt p]]) (nxt p).
Proof.
  intros [Hlen Hstep Hnext] Hp Hz Hne Hnz Hl Hd.
  pose proof (nxt_range p) as Hn. pose proof (nxt_range (nxt p)) as Hnn. pose proof (prv_range p).
  destruct (ring_two p z Hp Hz Hne) as [Hnp Hpp].
  assert (Hself : dist (T.[p <- T.[nxt p]]) p = dist T (nxt p) - 1).
  { unfold dist. rewrite arr_get_set_eq by lia. rewrite <- rdist_prv by done. by rewrite prv_nxt. }
  split; [by rewrite zlen_set| |].
  - intros q Hq Hqn Hqnn Hlq Hdq. pose proof (prv_range q).
    destruct (decide (q = p)) as [->|Hqp].
    + rewrite Hself in *. rewrite live_set_ne, dist_set_ne by lia.
      destruct (Hnext Hl Hd) as [|[? ?]]; [lia|]. split; [done|lia].
    + rewrite live_set_ne in Hlq by lia. rewrite dist_set_ne in * by lia.
      assert (prv q <> p) by (intros <-; by rewrite nxt_prv in Hqn).
      rewrite live_set_ne, dist_set_ne by lia. by apply Hstep.
  - rewrite prv_nxt by done. intros Hlr Hdr.
    assert (nxt (nxt p) <> p).
    { intros E. assert (z = p \/ z = nxt p) as [->| ->]; [|done..].
      assert (NB <= 2); [|assert (NB = 2) by lia; assert (0 <= p < 2 /\ 0 <= z < 2 /\ 0 <= nxt p < 2) by lia; lia].
      unfold nxt in E. rewrite Zplus_mod_idemp_l in E.
      destruct (Z.le_gt_cases NB 2); [done|]. exfalso.
      destruct (decide (p + 2 < NB)).
      - rewrite Z.mod_small in E by lia. lia.
      - replace (p + 1 + 1) with (p + 2 - NB + 1 * NB) in E by lia.
        rewrite Z_mod_plus_full, Z.mod_small in E by lia. lia. }
    rewrite live_set_ne in Hlr by lia. rewrite dist_set_ne in * by lia. right.
    destruct (ring_two (nxt p) z Hn Hz Hnz) as [Hnn2 _].
    destruct (Hstep (nxt (nxt p))) as [_ Hdd]; try done.
    rewrite prv_nxt in Hdd by done. rewrite Hself.
    split; [unfold live; by rewrite arr_get_set_eq by lia|lia].
Qed.

Lemma RemoveEntryAt_loop_spec z : forall fuel T p,
  hole T p -> 0 <= p < NB -> live T p -> 0 <= z < NB -> ~ live T z ->
  ahead p z < 1 + Z.of_nat fuel ->
  exists T', RemoveEntryAt_loop fuel T (NB - 1) p = Some T' /\
             rh T' /\ T.[p] :: content T' ≡ₚ content T.
Proof.
  induction fuel as [|fuel IH]; intros T p HH Hp Hl Hz He Hf.
  { exfalso. pose proof (ahead_range p z). assert (ahead p z = 0) as E by lia.
    unfold ahead in E. pose proof N_pos. apply Z.mod_divide in E; [|lia]. destruct E as [q Hq].
    assert (q = 0 \/ 1 <= q \/ q <= -1) as [->|[?|?]] by lia; [|nia|nia].
    assert (z = p) as -> by lia. done. }
  assert (Hne : p <> z) by (intros ->; done).
  destruct (ring_two p z Hp Hz Hne) as [Hnp _].
  pose proof (nxt_range p) as Hn. pose proof (ho_len T p HH) as Hlen.
  cbn [RemoveEntryAt_loop]. rewrite next_N, Dist_rdist. fold (dist T (nxt p)).
  destruct (Z.eqb_spec (e_hash T.[nxt p]) 0) as [E0|E0];
    [|destruct (Z.eqb_spec (dist T (nxt p)) 0) as [Ed|Ed]]; simpl.
  - eexists. split; [done|]. split; [apply hole_close; auto|].
    apply content_clear; [lia|done|done].
  - eexists. split; [done|]. split; [apply hole_close; auto|].
    apply content_clear; [lia|done|done].
  - assert (Hnz : nxt p <> z) by (intros E; rewrite E in E0; done).
    assert (Hd0 : 0 < dist T (nxt p)).
    { pose proof (rdist_range (e_hash T.[nxt p]) (nxt p)). unfold dist in *. lia. }
    destruct (IH (T.[p <- T.[nxt p]]) (nxt p)) as (T'&?&?&Hperm).
    + by apply hole_shift with z.
    + done.
    + by rewrite live_set_ne by lia.
    + done.
    + by rewrite live_set_ne by lia.
    + rewrite (ahead_nxt p z) by done. lia.
    + exists T'. split; [done|]. split; [done|]. rewrite arr_get_set_ne in Hperm by lia.
      pose proof (content_set_live T p T.[nxt p] ltac:(lia) Hl E0) as Hs.
      rewrite <- Hperm in Hs. rewrite Permutation_swap in Hs.
      by apply Permutation_cons_inv in Hs.
Qed.

Lemma RemoveEntryAt_spec T p :
  rh T -> has_room T -> 0 <= p < NB -> live T p ->
  exists T', RemoveEntryAt T (NB - 1) p = Some T' /\ rh T' /\ T.[p] :: content T' ≡ₚ content T.
Proof.
  intros HT (z&Hz&He) Hp Hl. unfold RemoveEntryAt.
  assert (p <> z) by (intros ->; done).
  pose proof (rh_len T HT) as Hlen. unfold zlen in Hlen.
  apply (RemoveEntryAt_loop_spec z); try done; [by apply rh_hole with z|].
  pose proof (ahead_range p z). lia.
Qed.
End Table.
End Ring.


(** ** What the three walks do to one index *)

Definition found (r : option (option Z)) : bool :=
  match r with Some (Some _) => true | _ => false end.

Section Laws.
Context (k : Z) (Hk : 0 <= k <= 30) {K : Type} `{!Inhabited K}.
Implicit Types (T : list (entry K)) (eq : entry K -> bool).

Lemma found_iff T hash eq :
  rh k T -> has_room k T -> hash <> 0 ->
  found (FindPos T (NB k - 1) hash eq) = true <->
  exists e, e ∈ content T /\ e_hash e = hash /\ eq e = true.
Proof using Hk.
  intros HT Hr Hh. pose proof (FindPos_spec k Hk T hash eq HT Hr Hh) as HF.
  pose proof (fun e => elem_of_content k T e (rh_len k T HT)) as Hel.
  destruct (FindPos _ _ _ _) as [[p|]|]; [| |done]; simpl.
  - split; [|done]. intros _. destruct HF as (Hp&Eh&Em). exists T.[p].
    rewrite Hel. split; [|done]. exists p. unfold live. by rewrite Eh.
  - split; [done|]. intros (e&Hin&Eh&Em). apply Hel in Hin as (p&Hp&Hl&<-).
    by destruct (HF p).
Qed.

Lemma FindPos_terminates T hash eq :
  rh k T -> has_room k T -> hash <> 0 -> is_Some (FindPos T (NB k - 1) hash eq).
Proof using Hk.
  intros HT Hr Hh. pose proof (FindPos_spec k Hk T hash eq HT Hr Hh).
  by destruct (FindPos _ _ _ _) as [[p|]|].
Qed.

(** An index has room exactly while it holds fewer entries than buckets. *)
Lemma has_room_iff T : zlen T = NB k -> has_room k T <-> zlen (content T) < NB k.
Proof using Hk.
  intros Hl. unfold has_room. split.
  - intros (z&Hz&He). rewrite <- Hl. unfold zlen, content.
    pose proof (Permutation_length (filter_app_complement (fun e : entry K => e_hash e <> 0) T)) as HP.
    rewrite length_app in HP.
    enough (0%nat <> length (filter (fun e : entry K => ~ e_hash e <> 0) T)) by lia.
    assert (T.[z] ∈ filter (fun e : entry K => ~ e_hash e <> 0) T) as Hin.
    { apply list_elem_of_filter. split; [exact He|].
      apply list_elem_of_lookup. exists (Z.to_nat z). apply list_lookup_lookup_total_lt.
      unfold zlen in Hl. lia. }
    intros E%eq_sym%nil_length_inv. rewrite E in Hin. by apply not_elem_of_nil in Hin.
  - intros Hc. destruct (decide (Forall (fun e => e_hash e <> 0) T)) as [HF|HF].
    + exfalso. enough (content T = T) as E by (rewrite E in Hc; lia).
      clear -HF. induction HF; [done|]. by rewrite content_cons_live, IHHF.
    + apply not_Forall_Exists in HF; [|solve_decision].
      apply Exists_exists in HF as (e&Hin&He). apply list_elem_of_lookup in Hin as [i Hi].
      exists (Z.of_nat i). pose proof (lookup_lt_Some _ _ _ Hi). unfold zlen in Hl. split; [lia|].
      unfold live, arr_get. rewrite Nat2Z.id, (list_lookup_total_correct _ _ _ Hi). done.
Qed.

Lemma content_perm_room T T' :
  zlen T = NB k -> zlen T' = NB k -> content T ≡ₚ content T' -> has_room k T -> has_room k T'.
Proof using Hk.
  intros H1 H2 HP. rewrite !has_room_iff by done. unfold zlen. by rewrite HP.
Qed.

Lemma exists_elem_cons {A} (P : A -> Prop) x l :
  (exists y, y ∈ x :: l /\ P y) <-> P x \/ (exists y, y ∈ l /\ P y).
Proof.
  setoid_rewrite elem_of_cons. split; [intros (y&[->|?]&?); eauto|].
  intros [?|(y&?&?)]; eauto.
Qed.

(** Inserting into an index that still has an empty bucket always
    ends, keeps the Robin Hood order, adds exactly one entry, and changes the
    answer of exactly those searches that match it: no displaced entry is lost. *)
Theorem InsertEntry_correct T hash slot (key : K) :
  rh k T -> has_room k T -> hash <> 0 ->
  exists T', InsertEntry T (NB k - 1) hash slot key = Some T' /\ rh k T' /\
    content T' ≡ₚ mk_entry hash slot key :: content T /\
    (has_room k T' -> forall h eq, h <> 0 ->
       found (FindPos T' (NB k - 1) h eq) =
       ((hash =? h) && eq (mk_entry hash slot key)) || found (FindPos T (NB k - 1) h eq)).
Proof using Hk.
  intros HT Hr Hh. destruct (InsertEntry_spec k Hk T hash slot key HT Hr Hh) as (T'&E&HT'&HP).
  exists T'. split_and!; [done..|]. intros Hr' h eq Hh'.
  apply eq_iff_eq_true. rewrite orb_true_iff, andb_true_iff, Z.eqb_eq, !found_iff by done.
  setoid_rewrite HP.
  exact (exists_elem_cons (fun e => e_hash e = h /\ eq e = true) _ _).
Qed.

(** Removing a live bucket always ends, keeps the Robin Hood
    order, and takes out exactly that entry: a search still answers for every
    entry left, with no tombstone in its way. *)
Theorem RemoveEntryAt_correct T p :
  rh k T -> has_room k T -> 0 <= p < NB k -> live T p ->
  exists T', RemoveEntryAt T (NB k - 1) p = Some T' /\ rh k T' /\ has_room k T' /\
    T.[p] :: content T' ≡ₚ content T /\
    (forall h eq, h <> 0 ->
       found (FindPos T (NB k - 1) h eq) =
       ((e_hash T.[p] =? h) && eq T.[p]) || found (FindPos T' (NB k - 1) h eq)).
Proof using Hk.
  intros HT Hr Hp Hl. destruct (RemoveEntryAt_spec k Hk T p HT Hr Hp Hl) as (T'&E&HT'&HP).
  assert (Hr' : has_room k T').
  { rewrite (has_room_iff T) in Hr by apply HT. rewrite (has_room_iff T') by apply HT'.
    unfold zlen in *. rewrite <- HP in Hr. simpl in Hr. lia. }
  exists T'. split_and!; [done..|]. intros h eq Hh'.
  apply eq_iff_eq_true. rewrite orb_true_iff, andb_true_iff, Z.eqb_eq, !found_iff by done.
  setoid_rewrite <- HP.
  exact (exists_elem_cons (fun e => e_hash e = h /\ eq e = true) _ _).
Qed.
End Laws.

(** *** A concrete index of four buckets: hashes 5 and 9 share home bucket 1 *)

Definition sample_index : list (entry Z) :=
  [mk_entry 0 0 0; mk_entry 5 10 100; mk_entry 9 11 101; mk_entry 0 0 0].

Lemma sample_index_rh : rh 2 sample_index.
Proof.
  split; [done|]. intros p Hp Hl Hd. unfold NB in Hp. simpl in Hp.
  assert (p = 0 \/ p = 1 \/ p = 2 \/ p = 3) as [->|[->|[->| ->]]] by lia; vm_compute in Hl, Hd |- *; done.
Qed.

Lemma sample_index_room : has_room 2 sample_index.
Proof. exists 0. split; [done|]. intros H. by apply H. Qed.

Lemma InsertEntry_correct_witness :
  exists T', InsertEntry sample_index 3 6 12 102 = Some T' /\ rh 2 T' /\
    content T' ≡ₚ mk_entry 6 12 102 :: content sample_index /\
    (has_room 2 T' -> forall h eq, h <> 0 ->
       found (FindPos T' 3 h eq) =
       ((6 =? h) && eq (mk_entry 6 12 102)) || found (FindPos sample_index 3 h eq)).
Proof.
  apply (InsertEntry_correct 2 ltac:(lia) sample_index 6 12 102 sample_index_rh sample_index_room).
  lia.
Defined.

Lemma RemoveEntryAt_correct_witness :
  exists T', RemoveEntryAt sample_index 3 1 = Some T' /\ rh 2 T' /\ has_room 2 T' /\
    mk_entry 5 10 100 :: content T' ≡ₚ content sample_index /\
    (forall h eq, h <> 0 ->
       found (FindPos sample_index 3 h eq) =
       ((5 =? h) && eq (mk_entry 5 10 100)) || found (FindPos T' 3 h eq)).
Proof.
  apply (RemoveEntryAt_correct 2 ltac:(lia) sample_index 1 sample_index_rh sample_index_room).
  - unfold NB. lia.
  - vm_compute. done.
Defined.
