(* ===== verification/Buckets.v ===== *)
(** * Rotating buckets

    The round trip estimate ([flux/internal/rtt.h]) and the delivery estimate
    ([flux/internal/delivery.h]) remember the recent past the same way: a fixed
    row of buckets, newest first, aged by one place for every whole span that has
    passed, with each measurement folded into the newest.  This file has the two
    loops both of them contain, and what such a row is worth: bucket [i] is the
    fold of exactly the measurements whose span is [i] before the current one. *)

From Stdlib Require Import Sorted.
From S2P Require Import Prelude.

(** ** The two loops *)

(** [for (i = N - 1; i > 0; --i) b[i] = b[i - 1]; b[0] = e;] *)
Definition age_buckets {A} `{Inhabited A} (e : A) (b : list A) : list A :=
  (for_down (length b - 1) (fun j b => b.[j + 1 <- b.[j]]) b).[0 <- e].

(** [while (elapsed >= span) { step; elapsed -= span; }] *)
Fixpoint drain {S} (span : Z) (step : S -> S) (fuel : nat) (s : S) (elapsed : Z) : S * Z :=
  match fuel with
  | O => (s, elapsed)
  | Datatypes.S fuel' =>
      if span <=? elapsed then drain span step fuel' (step s) (elapsed - span) else (s, elapsed)
  end.

(** One iteration retires one span, so this many are enough. *)
Definition drain_fuel (span elapsed : Z) : nat := Z.to_nat (elapsed / span).

(** ** The loops meet their specification *)

Lemma drain_spec {S} span (step : S -> S) s elapsed :
  0 < span -> 0 <= elapsed ->
  drain span step (drain_fuel span elapsed) s elapsed =
  (Nat.iter (drain_fuel span elapsed) step s, elapsed mod span).
Proof.
  intros Hb He. unfold drain_fuel.
  remember (Z.to_nat (elapsed / span)) as n eqn:En. revert s elapsed He En.
  induction n as [|n IH]; intros s elapsed He En.
  - simpl. f_equal. pose proof (Z.div_mod elapsed span ltac:(lia)).
    assert (0 <= elapsed / span) by (apply Z.div_pos; lia).
    assert (elapsed / span = 0) as E by lia. rewrite E in *. lia.
  - assert (Hq : elapsed / span = Z.of_nat n + 1) by lia.
    assert (span <= elapsed).
    { pose proof (Z.mul_div_le elapsed span ltac:(lia)). nia. }
    cbn [drain]. destruct (Z.leb_spec span elapsed); [|lia].
    assert (Hdiv : (elapsed - span) / span = Z.of_nat n).
    { replace (elapsed - span) with (elapsed + (-1) * span) by lia. rewrite Z.div_add by lia. lia. }
    rewrite IH by (rewrite ?Hdiv; lia). rewrite Nat.iter_succ_r. f_equal.
    replace (elapsed - span) with (elapsed + (-1) * span) by lia. apply Z_mod_plus_full.
Qed.

Section Aging.
Context {A : Type} `{!Inhabited A} (e : A).
Implicit Types b : list A.

Lemma age_loop_spec n b :
  (n < length b)%nat ->
  for_down n (fun j b => b.[j + 1 <- b.[j]]) b =
  take 1 b ++ take n b ++ drop (S n) b.
Proof.
  revert b. induction n as [|n IH]; intros b Hn; simpl.
  - destruct b; done.
  - rewrite IH; unfold arr_set; rewrite ?length_insert; [|lia].
    destruct (lookup_lt_is_Some_2 b n) as [x Hx]; [lia|].
    replace (Z.to_nat (Z.of_nat n + 1)) with (S n) by lia.
    unfold arr_get. rewrite Nat2Z.id, (list_lookup_total_correct _ _ _ Hx).
    rewrite !take_insert_ge by lia.
    destruct (lookup_lt_is_Some_2 b (S n)) as [y Hy]; [lia|].
    rewrite (drop_S (<[S n:=x]> b) x) by (apply list_lookup_insert_eq; lia).
    rewrite drop_insert_lt by lia.
    rewrite (take_S_r _ _ _ Hx), <- !app_assoc. done.
Qed.

Lemma age_buckets_spec b : b <> [] -> age_buckets e b = e :: take (length b - 1) b.
Proof.
  intros Hb. destruct b as [|x b]; [done|]. unfold age_buckets.
  rewrite age_loop_spec by (simpl; lia). simpl.
  rewrite Nat.sub_0_r, drop_all, app_nil_r. done.
Qed.

Lemma length_age b : length (age_buckets e b) = length b.
Proof.
  destruct b as [|x b]; [done|]. rewrite age_buckets_spec by done. simpl.
  rewrite Nat.sub_0_r. destruct b; simpl; [done|]. by rewrite length_take, Nat.min_l by (simpl; lia).
Qed.

Lemma length_ages n b : length (Nat.iter n (age_buckets e) b) = length b.
Proof. induction n as [|n IH]; [done|]. by rewrite Nat.iter_succ, length_age. Qed.

Lemma Forall_ages (P : A -> Prop) n b : P e -> Forall P b -> Forall P (Nat.iter n (age_buckets e) b).
Proof.
  intros He Hb. induction n as [|n IH]; [done|]. rewrite Nat.iter_succ.
  destruct (Nat.iter n (age_buckets e) b) as [|x l]; [done|].
  rewrite age_buckets_spec by done. constructor; [done|]. by apply Forall_take.
Qed.
End Aging.

(** ** What the row remembers *)

Section Memory.
Context {A : Type} `{!Inhabited A} (op : A -> A -> A) (e : A).
Implicit Types (b : list A) (log : list (Z * A)).

(** The fold, in order of arrival, of what a log holds for one span. *)
Definition span_fold log (k : Z) : A :=
  foldl op e (map snd (filter (fun '(j, _) => j = k) log)).

Record remembers b (cur : Z) log : Prop := {
  rm_span : Forall (fun '(j, _) => j <= cur) log;
  rm_bucket : forall i, 0 <= i < zlen b -> b.[i] = span_fold log (cur - i) }.

Lemma span_fold_future log cur k :
  Forall (fun '(j, _) => j <= cur) log -> cur < k -> span_fold log k = e.
Proof.
  intros HF Hk. unfold span_fold. enough (filter (fun '(j, _) => j = k) log = []) as -> by done.
  induction HF as [|[j x] log Hj _ IH]; [done|]. rewrite filter_cons_False; [done|lia].
Qed.

Lemma remembers_nil n cur : remembers (replicate n e) cur [].
Proof.
  split; [constructor|]. intros i Hi. unfold arr_get, zlen in *. rewrite length_replicate in Hi.
  rewrite lookup_total_replicate_2 by lia. done.
Qed.

(** Ageing moves the current span on by one. *)
Lemma remembers_age b cur log :
  b <> [] -> remembers b cur log -> remembers (age_buckets e b) (cur + 1) log.
Proof.
  intros Hb [Hs Hm]. split.
  - eapply Forall_impl; [exact Hs|]. intros [j x]. lia.
  - unfold zlen. rewrite length_age. intros i Hi. rewrite age_buckets_spec by done.
    destruct (decide (i = 0)) as [->|].
    + cbn. symmetry. apply (span_fold_future log cur); [done|lia].
    + replace (cur + 1 - i) with (cur - (i - 1)) by lia. rewrite <- Hm by (unfold zlen; lia).
      unfold arr_get. replace (Z.to_nat i) with (S (Z.to_nat (i - 1))) by lia.
      rewrite !list_lookup_total_alt, <- (lookup_take_lt b (length b - 1)) by lia. done.
Qed.

Lemma remembers_ages n b cur log :
  b <> [] -> remembers b cur log ->
  Nat.iter n (age_buckets e) b <> [] /\
  length (Nat.iter n (age_buckets e) b) = length b /\
  remembers (Nat.iter n (age_buckets e) b) (cur + Z.of_nat n) log.
Proof.
  intros Hb Hm. induction n as [|n (IH1&IH2&IH3)]; simpl.
  - by rewrite Z.add_0_r.
  - rewrite length_age. split_and!; [|done|].
    + intros E. apply (f_equal length) in E. rewrite length_age in E.
      destruct (Nat.iter n _ b); done.
    + replace (cur + Z.of_nat (S n)) with (cur + Z.of_nat n + 1) by lia. by apply remembers_age.
Qed.

(** A measurement joins the newest bucket. *)
Lemma remembers_add b cur log x :
  b <> [] -> remembers b cur log ->
  remembers (b.[0 <- op b.[0] x]) cur (log ++ [(cur, x)]).
Proof.
  intros Hb [Hs Hm]. assert (0 < zlen b) by (destruct b; unfold zlen; simpl; [done|lia]).
  split.
  - apply Forall_app_2; [done|]. constructor; [lia|constructor].
  - rewrite zlen_set. intros i Hi. unfold span_fold. rewrite filter_app, map_app, foldl_app.
    destruct (decide (i = 0)) as [->|].
    + rewrite arr_get_set_eq, Hm, Z.sub_0_r by lia.
      rewrite filter_cons_True by done. done.
    + rewrite arr_get_set_ne, Hm by lia. rewrite filter_cons_False by lia. done.
Qed.

(** *** A row driven by a clock

    One measurement [x] at time [now]: the row is anchored at the first time it
    sees, aged by the whole spans that have passed, and the newest bucket
    absorbs [x].  The stamp 0 means no time seen yet. *)
Context (span : Z) (Hspan : 0 < span).

Definition row_start (stamp now : Z) : Z := if stamp =? 0 then now else stamp.
Definition spans_passed (stamp now : Z) : Z := Z.max 0 (now - stamp) / span.

Definition row_fold (s : list A * Z) (p : Z * A) : list A * Z :=
  let start := row_start s.2 p.1 in
  let n := spans_passed start p.1 in
  let b := Nat.iter (Z.to_nat n) (age_buckets e) s.1 in
  (b.[0 <- op b.[0] p.2], start + n * span).

Definition span_of (t0 now : Z) : Z := (now - t0) / span.

Record row_at (s : list A * Z) (l : list (Z * A)) (t0 newest : Z) : Prop := {
  ro_t0 : 0 < t0 <= newest;
  ro_stamp : s.2 = t0 + span_of t0 newest * span;
  ro_times : Forall (fun p => t0 <= p.1 <= newest) l;
  ro_log : remembers s.1 (span_of t0 newest) (map (fun p => (span_of t0 p.1, p.2)) l) }.

Lemma span_of_bounds t0 now : t0 <= now -> t0 <= t0 + span_of t0 now * span <= now.
Proof.
  intros. unfold span_of. pose proof (Z.mul_div_le (now - t0) span Hspan).
  pose proof (Z.div_pos (now - t0) span). nia.
Qed.

Lemma span_advance t0 newest now :
  t0 <= newest -> newest <= now ->
  0 <= spans_passed (t0 + span_of t0 newest * span) now /\
  span_of t0 newest + spans_passed (t0 + span_of t0 newest * span) now = span_of t0 now.
Proof.
  intros H1 H2. pose proof (span_of_bounds t0 newest H1) as Hb. unfold spans_passed.
  rewrite Z.max_r by lia. split; [apply Z.div_pos; lia|].
  unfold span_of at 3.
  replace (now - t0) with (now - (t0 + span_of t0 newest * span) + span_of t0 newest * span) by lia.
  rewrite Z.div_add by lia. lia.
Qed.

Lemma row_fold_next s l t0 newest p :
  s.1 <> [] -> row_at s l t0 newest -> newest <= p.1 -> row_at (row_fold s p) (l ++ [p]) t0 p.1.
Proof.
  intros Hne [Ht Hst Htimes Hlog] Hnow.
  destruct (span_advance t0 newest p.1) as [Hsp Hadd]; [lia..|].
  pose proof (span_of_bounds t0 newest ltac:(lia)) as Hb. rewrite <- Hst in *.
  assert (Hrf : row_start s.2 p.1 = s.2).
  { unfold row_start. destruct (Z.eqb_spec s.2 0); lia. }
  destruct (remembers_ages (Z.to_nat (spans_passed s.2 p.1)) s.1 _ _ Hne Hlog) as (Hne'&_&Hrem).
  rewrite Z2Nat.id in Hrem by lia. rewrite Hadd in Hrem. unfold row_fold. rewrite Hrf. split; cbn [fst snd].
  - lia.
  - rewrite <- Hadd, Z.mul_add_distr_r. lia.
  - apply Forall_app_2; [|repeat constructor; lia].
    eapply Forall_impl; [exact Htimes|]. intros; cbn in *; lia.
  - rewrite map_app. by apply remembers_add.
Qed.

Lemma row_fold_first n p :
  0 < p.1 -> row_at (row_fold (replicate (S n) e, 0) p) [p] p.1 p.1.
Proof.
  intros Ht. unfold row_fold, row_start. cbn [fst snd Z.eqb].
  assert (Hso : span_of p.1 p.1 = 0) by (unfold span_of; by rewrite Z.sub_diag, Z.div_0_l by lia).
  assert (Hsp : spans_passed p.1 p.1 = 0).
  { unfold spans_passed. rewrite Z.sub_diag, Z.max_id. apply Z.div_0_l. lia. }
  rewrite Hsp. split; cbn [fst snd].
  - lia.
  - rewrite Hso. lia.
  - repeat constructor; lia.
  - cbn [map]. rewrite Hso. apply (remembers_add _ 0 []); [done|]. apply remembers_nil.
Qed.

Definition row_run (n : nat) (l : list (Z * A)) : list A * Z := foldl row_fold (replicate n e, 0) l.

Lemma length_row_fold s p : length (row_fold s p).1 = length s.1.
Proof.
  unfold row_fold, arr_set. cbn [fst]. by rewrite length_insert, length_ages.
Qed.

Lemma length_row_run n l : length (row_run n l).1 = n.
Proof.
  unfold row_run. induction l as [|p l IH] using rev_ind; [apply length_replicate|].
  rewrite foldl_app. cbn [foldl]. by rewrite length_row_fold.
Qed.

(** The time the row is anchored at. *)
Definition anchor (l : list (Z * A)) : Z := match l with [] => 0 | p :: _ => p.1 end.

(** A row driven by a clock that does not go back remembers, in every bucket,
    exactly the measurements of that span. *)
Lemma row_run_at n l p :
  Forall (fun p : Z * A => 0 < p.1) (l ++ [p]) -> Sorted (fun x y : Z * A => x.1 <= y.1) (l ++ [p]) ->
  row_at (row_run (S n) (l ++ [p])) (l ++ [p]) (anchor (l ++ [p])) p.1.
Proof.
  revert p. induction l as [|q l IH] using rev_ind; intros p HF HS.
  - apply Forall_cons in HF as [Hp _]. by apply row_fold_first.
  - assert (StronglySorted (fun x y : Z * A => x.1 <= y.1) ((l ++ [q]) ++ [p])) as HSS.
    { apply Sorted_StronglySorted; [intros ???; lia|done]. }
    assert (Sorted (fun x y : Z * A => x.1 <= y.1) (l ++ [q]) /\ q.1 <= p.1) as [HS' Hle].
    { clear -HSS. rewrite <- app_assoc in HSS. induction l as [|x l IHl]; cbn in HSS.
      - apply StronglySorted_inv in HSS as [_ HF]. apply Forall_cons in HF as [? _]. by repeat constructor.
      - apply StronglySorted_inv in HSS as [HSS HF]. destruct (IHl HSS) as [Hs ?]. split; [|done].
        constructor; [done|]. destruct l; constructor; by apply Forall_inv in HF. }
    apply Forall_snoc_inv in HF as [HF Hp]. pose proof (IH q HF HS') as Hrow.
    assert (anchor ((l ++ [q]) ++ [p]) = anchor (l ++ [q])) as -> by (by destruct l).
    unfold row_run in *. rewrite foldl_app. apply row_fold_next with q.1; [|done|done].
    intros E. pose proof (length_row_run (S n) (l ++ [q])) as Hl. unfold row_run in Hl. by rewrite E in Hl.
Qed.
End Memory.

(** A span of a stream of stamped values, read off the items they came from. *)
Lemma span_filter_map {A} (stamp val : A -> Z) (span t0 k : Z) (l : list A) :
  map snd (filter (fun '(j, _) => j = k)
    (map (fun p => (span_of span t0 p.1, p.2)) (map (fun a => (stamp a, val a)) l))) =
  map val (filter (fun a => span_of span t0 (stamp a) = k) l).
Proof.
  induction l as [|a l IH]; [done|]. cbn [map fst snd].
  destruct (decide (span_of span t0 (stamp a) = k)).
  - rewrite !filter_cons_True by done. cbn [map]. by rewrite IH.
  - rewrite !filter_cons_False by done. done.
Qed.
