(* ===== verification/Rtt.v ===== *)
(** * The round trip estimate: [flux/internal/rtt.h]

    One estimate per peer: the smoothed round trip and its deviation, the peak
    acknowledgement hold, and the rotating minimum that stands for the path with
    nothing queued in it.  Proved here: what a fold does to every field, that the
    arithmetic stays inside 32 bits for every stream of samples, that the
    remembered minimum is the minimum of a sliding window of samples, and the
    exact value and bounds of the retransmit deadline. *)

From Stdlib Require Import Sorted.
From S2P Require Import Prelude Buckets.

Definition MIN_RTT_BUCKETS : Z := 3.
Definition MIN_RTT_BUCKET_MICROS : Z := 4000000.
Definition RTT_SAMPLE_MAX_MICROS : Z := 10000000.
Definition RTO_VARIANCE_MIN_MICROS : Z := 1000.
Definition RTO_MARGIN_DIVISOR : Z := 8.
Definition RTO_MAX_MICROS : Z := 60000000.
Definition RTO_MAX_BACKOFF_SHIFT : nat := 3.

(** ** Definitions *)

Record RttEstimate := {
  srttMicros : Z; rttvarMicros : Z; peerAckDelayMicros : Z; latestMicros : Z;
  minBucketsMicros : list Z; minRotatedAtMicros : Z; lastAckedAtMicros : Z }.

Definition Rtt_Reset : RttEstimate :=
  {| srttMicros := 0; rttvarMicros := 0; peerAckDelayMicros := 0; latestMicros := 0;
     minBucketsMicros := replicate (Z.to_nat MIN_RTT_BUCKETS) 0;
     minRotatedAtMicros := 0; lastAckedAtMicros := 0 |}.

Definition MinRtt_step (lowest bucket : Z) : Z :=
  if negb (bucket =? 0) && ((lowest =? 0) || (bucket <? lowest)) then bucket else lowest.
Definition MinRttMicros (r : RttEstimate) : Z := foldl MinRtt_step 0 (minBucketsMicros r).

Definition QueueMicros (r : RttEstimate) : Z :=
  let lowest := MinRttMicros r in
  if (lowest =? 0) || (srttMicros r <=? lowest) then 0 else u32 (srttMicros r - lowest).

Definition LatestQueueMicros (r : RttEstimate) : Z :=
  let lowest := MinRttMicros r in
  if (lowest =? 0) || (latestMicros r <=? lowest) then 0 else u32 (latestMicros r - lowest).

Definition MarkAcked (r : RttEstimate) (nowMicros : Z) : RttEstimate :=
  {| srttMicros := srttMicros r; rttvarMicros := rttvarMicros r;
     peerAckDelayMicros := peerAckDelayMicros r; latestMicros := latestMicros r;
     minBucketsMicros := minBucketsMicros r; minRotatedAtMicros := minRotatedAtMicros r;
     lastAckedAtMicros := nowMicros |}.

Definition SilentForMicros (r : RttEstimate) (nowMicros : Z) : Z :=
  if (lastAckedAtMicros r =? 0) || (nowMicros <=? lastAckedAtMicros r) then 0
  else u64 (nowMicros - lastAckedAtMicros r).

(** The body of the ageing loop: every bucket one place down, the stamp one span
    on. *)
Definition Rtt_rotate (s : list Z * Z) : list Z * Z :=
  (age_buckets 0 s.1, u64 (s.2 + MIN_RTT_BUCKET_MICROS)).

(** [minBucketsMicros[0]] after a sample. *)
Definition keep_min (b sample : Z) : Z := if (b =? 0) || (sample <? b) then sample else b.

Definition Rtt_Sample (r : RttEstimate) (roundTripMicros heldMicros nowMicros : Z) : bool * RttEstimate :=
  if (roundTripMicros =? 0) || (RTT_SAMPLE_MAX_MICROS <? roundTripMicros) then (false, r)
  else
    let sample := u32 roundTripMicros in
    let rotated0 := if minRotatedAtMicros r =? 0 then nowMicros else minRotatedAtMicros r in
    let elapsed := if rotated0 <? nowMicros then u64 (nowMicros - rotated0) else 0 in
    let s := (drain MIN_RTT_BUCKET_MICROS Rtt_rotate (drain_fuel MIN_RTT_BUCKET_MICROS elapsed)
                (minBucketsMicros r, rotated0) elapsed).1 in
    let buckets := s.1.[0 <- keep_min s.1.[0] sample] in
    let '(srtt, rttvar) :=
      if srttMicros r =? 0 then (sample, sample / 2)
      else
        let diff := if sample <? srttMicros r then u32 (srttMicros r - sample)
                    else u32 (sample - srttMicros r) in
        (u32 (u32 (srttMicros r * 7) + sample) / 8, u32 (u32 (rttvarMicros r * 3) + diff) / 4) in
    let ackDelay := if peerAckDelayMicros r <? heldMicros then heldMicros
                    else u32 (u32 (peerAckDelayMicros r * 7) + heldMicros) / 8 in
    (true,
     {| srttMicros := srtt; rttvarMicros := rttvar; peerAckDelayMicros := ackDelay;
        latestMicros := sample; minBucketsMicros := buckets; minRotatedAtMicros := s.2;
        lastAckedAtMicros := lastAckedAtMicros r |}).

Definition RoundTripOr (r : RttEstimate) (fallbackMicros : Z) : Z :=
  if negb (srttMicros r =? 0) then srttMicros r else fallbackMicros.

(** [for (shift = 0; shift < MAX && silent > rto; ++shift) rto <<= 1;] *)
Fixpoint backoff (fuel : nat) (silent rto : Z) : Z :=
  match fuel with
  | O => rto
  | S fuel' => if rto <? silent then backoff fuel' silent (u64 (Z.shiftl rto 1)) else rto
  end.

Definition RetransmitTimeout (r : RttEstimate) (fallbackMicros ackCadenceMicros nowMicros : Z) : Z :=
  let variance := u64 (4 * rttvarMicros r) in
  let variance := if variance <? RTO_VARIANCE_MIN_MICROS then RTO_VARIANCE_MIN_MICROS else variance in
  let sojournSpread := RoundTripOr r fallbackMicros / RTO_MARGIN_DIVISOR in
  let variance := if variance <? sojournSpread then sojournSpread else variance in
  let hold := ackCadenceMicros in
  let hold := if hold <? peerAckDelayMicros r then peerAckDelayMicros r else hold in
  let rto := u64 (RoundTripOr r fallbackMicros + variance + hold) in
  let silent := SilentForMicros r nowMicros in
  let rto := backoff RTO_MAX_BACKOFF_SHIFT silent rto in
  if rto <? 1000 then 1000
  else if RTO_MAX_MICROS <? rto then RTO_MAX_MICROS else rto.

Definition LossDelayMicros (r : RttEstimate) (fallbackMicros : Z) : Z :=
  let base := if srttMicros r <? latestMicros r then latestMicros r else srttMicros r in
  let base := if base =? 0 then fallbackMicros else base in
  let delay := u64 (base + base / 8) in
  if delay <? RTO_VARIANCE_MIN_MICROS then RTO_VARIANCE_MIN_MICROS else delay.

(** ** The state the estimate can be in *)

Definition bucket_ok (b : Z) : Prop := 0 <= b <= RTT_SAMPLE_MAX_MICROS.

(** The average and the deviation never leave the band of accepted samples, so
    no product below comes near 32 bits.  [rotated <= clock] for every clock the
    caller has shown. *)
Record rtt_wf (r : RttEstimate) : Prop := {
  rw_srtt : bucket_ok (srttMicros r);
  rw_var : bucket_ok (rttvarMicros r);
  rw_latest : bucket_ok (latestMicros r);
  rw_delay : is_u32 (peerAckDelayMicros r);
  rw_len : zlen (minBucketsMicros r) = MIN_RTT_BUCKETS;
  rw_buckets : Forall bucket_ok (minBucketsMicros r);
  rw_rotated : is_u64 (minRotatedAtMicros r);
  rw_acked : is_u64 (lastAckedAtMicros r) }.

Lemma Rtt_Reset_wf : rtt_wf Rtt_Reset.
Proof.
  unfold Rtt_Reset. split; simpl; unfold bucket_ok, RTT_SAMPLE_MAX_MICROS; try lia; [done|].
  repeat constructor; unfold bucket_ok; lia.
Qed.

(** *** The ageing loop *)

Lemma Rtt_rotate_iter n b t :
  0 <= t -> t + Z.of_nat n * MIN_RTT_BUCKET_MICROS < 2 ^ 64 ->
  Nat.iter n Rtt_rotate (b, t) = (Nat.iter n (age_buckets 0) b, t + Z.of_nat n * MIN_RTT_BUCKET_MICROS).
Proof.
  unfold MIN_RTT_BUCKET_MICROS. intros Ht Hb. induction n as [|n IH].
  - simpl. f_equal. lia.
  - rewrite !Nat.iter_succ, IH by lia. unfold Rtt_rotate. simpl. f_equal.
    unfold MIN_RTT_BUCKET_MICROS. rewrite u64_small by lia. lia.
Qed.

(** The whole ageing step in closed form: one place for every span that has
    passed, and the stamp that many spans on. *)
Abbreviation spans_passed := (Buckets.spans_passed MIN_RTT_BUCKET_MICROS).

Lemma Rtt_ageing b rotated now :
  is_u64 rotated -> is_u64 now ->
  let elapsed := if rotated <? now then u64 (now - rotated) else 0 in
  (drain MIN_RTT_BUCKET_MICROS Rtt_rotate (drain_fuel MIN_RTT_BUCKET_MICROS elapsed) (b, rotated) elapsed).1 =
  (Nat.iter (Z.to_nat (spans_passed rotated now)) (age_buckets 0) b,
   rotated + spans_passed rotated now * MIN_RTT_BUCKET_MICROS).
Proof.
  intros Hr Hn elapsed.
  assert (elapsed = Z.max 0 (now - rotated)) as ->.
  { subst elapsed. destruct (Z.ltb_spec rotated now); [rewrite u64_small by lia|]; lia. }
  unfold Buckets.spans_passed. rewrite drain_spec by (unfold MIN_RTT_BUCKET_MICROS; lia).
  unfold drain_fuel. simpl. unfold MIN_RTT_BUCKET_MICROS.
  rewrite Rtt_rotate_iter by (unfold MIN_RTT_BUCKET_MICROS; zdm).
  f_equal. unfold MIN_RTT_BUCKET_MICROS. zdm.
Qed.

(** *** One sample *)

Definition accepted (roundTripMicros : Z) : bool :=
  negb ((roundTripMicros =? 0) || (RTT_SAMPLE_MAX_MICROS <? roundTripMicros)).

Abbreviation rotated_from r now := (row_start (minRotatedAtMicros r) now).

Lemma rotated_from_range r now :
  is_u64 (minRotatedAtMicros r) -> is_u64 now -> is_u64 (rotated_from r now).
Proof. unfold row_start. intros. destruct (Z.eqb_spec (minRotatedAtMicros r) 0); lia. Qed.

(** What an accepted sample does, with every wrap-around discharged. *)
Record sampled (r : RttEstimate) (rtt held now : Z) (r' : RttEstimate) : Prop := {
  sm_latest : latestMicros r' = rtt;
  sm_srtt : srttMicros r' = if srttMicros r =? 0 then rtt else (srttMicros r * 7 + rtt) / 8;
  sm_var : rttvarMicros r' = if srttMicros r =? 0 then rtt / 2
           else (rttvarMicros r * 3 + Z.abs (srttMicros r - rtt)) / 4;
  sm_buckets : let b := Nat.iter (Z.to_nat (spans_passed (rotated_from r now) now)) (age_buckets 0)
                          (minBucketsMicros r) in
               minBucketsMicros r' = b.[0 <- keep_min b.[0] rtt];
  sm_rotated : minRotatedAtMicros r' =
               rotated_from r now + spans_passed (rotated_from r now) now * MIN_RTT_BUCKET_MICROS;
  sm_delay : peerAckDelayMicros r' =
             if peerAckDelayMicros r <? held then held
             else u32 (peerAckDelayMicros r * 7 + held) / 8;
  sm_acked : lastAckedAtMicros r' = lastAckedAtMicros r }.

Lemma Rtt_Sample_accepts r rtt held now :
  rtt_wf r -> 1 <= rtt <= RTT_SAMPLE_MAX_MICROS -> is_u32 held -> is_u64 now ->
  exists r', Rtt_Sample r rtt held now = (true, r') /\ sampled r rtt held now r'.
Proof.
  intros [Hs Hv Hl Hd Hlen Hb Hr Ha] Hrtt Hheld Hnow.
  unfold bucket_ok, RTT_SAMPLE_MAX_MICROS in *. unfold Rtt_Sample, RTT_SAMPLE_MAX_MICROS.
  destruct (Z.eqb_spec rtt 0); [lia|]. destruct (Z.ltb_spec 10000000 rtt); [lia|]. cbn [orb].
  fold (rotated_from r now).
  pose proof (rotated_from_range r now Hr Hnow) as Hro.
  cbv zeta. rewrite (Rtt_ageing (minBucketsMicros r) (rotated_from r now) now) by done.
  rewrite (u32_small rtt) by lia.
  destruct (Z.eqb_spec (srttMicros r) 0) as [E|E]; (eexists; split; [reflexivity|]);
    split; cbn; rewrite ?(proj2 (Z.eqb_eq _ _) E), ?(proj2 (Z.eqb_neq _ _) E), ?u32_add_l; try done.
  - rewrite u32_small by lia. done.
  - f_equal. destruct (Z.ltb_spec rtt (srttMicros r));
      rewrite (u32_small (_ - _)), u32_small by lia; lia.
Qed.

Lemma Rtt_Sample_refuses r rtt held now :
  accepted rtt = false -> Rtt_Sample r rtt held now = (false, r).
Proof. unfold accepted, Rtt_Sample. intros E%negb_false_iff. by rewrite E. Qed.

Lemma accepted_iff rtt : 0 <= rtt -> accepted rtt = true <-> 1 <= rtt <= RTT_SAMPLE_MAX_MICROS.
Proof.
  unfold accepted, RTT_SAMPLE_MAX_MICROS. intros. rewrite negb_true_iff, orb_false_iff, Z.eqb_neq, Z.ltb_ge. lia.
Qed.

Lemma spans_passed_stamp rotated now :
  is_u64 rotated -> is_u64 now ->
  is_u64 (rotated + spans_passed rotated now * MIN_RTT_BUCKET_MICROS).
Proof. unfold Buckets.spans_passed, MIN_RTT_BUCKET_MICROS. intros. zdm. Qed.

Lemma sampled_wf r rtt held now r' :
  rtt_wf r -> 1 <= rtt <= RTT_SAMPLE_MAX_MICROS -> is_u32 held -> is_u64 now ->
  sampled r rtt held now r' -> rtt_wf r'.
Proof.
  intros [Hs Hv Hl Hd Hlen Hb Hr Ha] Hrtt Hheld Hnow [E1 E2 E3 E4 E5 E6 E7].
  unfold bucket_ok, RTT_SAMPLE_MAX_MICROS in *.
  pose proof (rotated_from_range r now Hr Hnow) as Hro.
  pose proof (length_ages 0 (Z.to_nat (spans_passed (rotated_from r now) now)) (minBucketsMicros r)) as Hln.
  pose proof (Forall_ages 0 bucket_ok (Z.to_nat (spans_passed (rotated_from r now) now)) (minBucketsMicros r)
    ltac:(unfold bucket_ok, RTT_SAMPLE_MAX_MICROS; lia) Hb) as Hok.
  split; unfold bucket_ok, RTT_SAMPLE_MAX_MICROS.
  - rewrite E2. destruct (_ =? 0); zdm.
  - rewrite E3. destruct (_ =? 0); zdm.
  - lia.
  - rewrite E6. destruct (_ <? _); [done|]. pose proof (u32_range (peerAckDelayMicros r * 7 + held)). zdm.
  - rewrite E4, zlen_set. unfold zlen in *. by rewrite Hln.
  - rewrite E4. apply Forall_insert; [done|]. unfold keep_min.
    destruct (_ || _); [unfold bucket_ok, RTT_SAMPLE_MAX_MICROS; lia|].
    unfold arr_get. rewrite Forall_lookup in Hok. apply (Hok 0%nat).
    apply list_lookup_lookup_total_lt. unfold zlen, MIN_RTT_BUCKETS in Hlen. lia.
  - rewrite E5. by apply spans_passed_stamp.
  - by rewrite E7.
Qed.

(** ** Streams of samples *)

Record rtt_sample := { s_rtt : Z; s_held : Z; s_now : Z }.

Definition rtt_fold (r : RttEstimate) (s : rtt_sample) : RttEstimate :=
  (Rtt_Sample r (s_rtt s) (s_held s) (s_now s)).2.
Definition rtt_run (l : list rtt_sample) : RttEstimate := foldl rtt_fold Rtt_Reset l.

Definition sample_ok (s : rtt_sample) : Prop :=
  0 <= s_rtt s < 2 ^ 64 /\ is_u32 (s_held s) /\ 0 < s_now s < 2 ^ 64.

Definition taken (l : list rtt_sample) : list rtt_sample := filter (fun s => accepted (s_rtt s) = true) l.

Lemma rtt_fold_cases r s :
  rtt_wf r -> sample_ok s ->
  (accepted (s_rtt s) = false /\ rtt_fold r s = r) \/
  (accepted (s_rtt s) = true /\ 1 <= s_rtt s <= RTT_SAMPLE_MAX_MICROS /\
   sampled r (s_rtt s) (s_held s) (s_now s) (rtt_fold r s) /\ rtt_wf (rtt_fold r s)).
Proof.
  intros Hw (H1&H2&H3). unfold rtt_fold. destruct (accepted (s_rtt s)) eqn:E; [right|left].
  - apply accepted_iff in E as Hr; [|lia].
    destruct (Rtt_Sample_accepts r (s_rtt s) (s_held s) (s_now s)) as (r'&->&Hs); [done..|lia|].
    split_and!; [done|lia|lia|done|]. eapply sampled_wf; [done|..|exact Hs]; [lia|done|lia].
  - by rewrite Rtt_Sample_refuses.
Qed.

Lemma taken_snoc l s :
  taken (l ++ [s]) = taken l ++ (if accepted (s_rtt s) then [s] else []).
Proof.
  unfold taken. rewrite filter_app. f_equal. rewrite filter_cons, filter_nil.
  destruct (accepted (s_rtt s)) eqn:E; by case_decide.
Qed.

Lemma rtt_run_snoc l s : rtt_run (l ++ [s]) = rtt_fold (rtt_run l) s.
Proof. unfold rtt_run. by rewrite foldl_app. Qed.

Lemma rtt_run_wf l : Forall sample_ok l -> rtt_wf (rtt_run l).
Proof.
  induction l as [|s l IH] using rev_ind; intros HF; [apply Rtt_Reset_wf|].
  rewrite rtt_run_snoc. apply Forall_snoc_inv in HF as [HF Hs].
  by destruct (rtt_fold_cases (rtt_run l) s (IH HF) Hs) as [[_ ->]|(_&_&_&?)]; [apply IH|].
Qed.

(** The average never leaves the band its samples span, whatever their order. *)
Lemma rtt_run_band l lo hi :
  Forall sample_ok l -> Forall (fun s => lo <= s_rtt s <= hi) (taken l) -> 1 <= lo ->
  (taken l = [] /\ srttMicros (rtt_run l) = 0) \/
  (taken l <> [] /\ lo <= srttMicros (rtt_run l) <= hi /\ 0 <= rttvarMicros (rtt_run l) <= hi).
Proof.
  intros HF HT Hlo. induction l as [|s l IH] using rev_ind; [by left|].
  rewrite rtt_run_snoc, taken_snoc in *. apply Forall_snoc_inv in HF as [HF Hs].
  apply Forall_app in HT as [HT Hts]. pose proof (rtt_run_wf l HF) as Hw.
  destruct (rtt_fold_cases (rtt_run l) s Hw Hs) as [(E&->)|(E&Hb&Hsm&_)]; rewrite E in *.
  - rewrite app_nil_r. by apply IH.
  - right. split; [by destruct (taken l)|]. apply Forall_cons in Hts as [Hts _].
    rewrite (sm_srtt _ _ _ _ _ Hsm), (sm_var _ _ _ _ _ Hsm).
    destruct (IH HF HT) as [[_ ->]|(_&Hband&Hvar)]; [simpl; zdm|].
    destruct (Z.eqb_spec (srttMicros (rtt_run l)) 0); [lia|zdm].
Qed.

(** *** The minimum *)

Lemma keep_min_fold l b :
  0 <= b -> Forall (fun x => 1 <= x) l ->
  let m := foldl keep_min b l in
  (b = 0 -> l = [] -> m = 0) /\ (b <> 0 \/ l <> [] -> 1 <= m /\ (m = b \/ m ∈ l)) /\
  (b <> 0 -> m <= b) /\ (forall x, x ∈ l -> m <= x).
Proof.
  revert b. induction l as [|y l IH]; intros b Hb HF; cbn [foldl].
  { cbv zeta. split_and!; [done| |lia|by intros x ?%not_elem_of_nil]. intros [?|?]; [|done]. split; [lia|by left]. }
  apply Forall_cons in HF as [Hy HF].
  assert (Hk : 1 <= keep_min b y /\ keep_min b y <= y /\ (b <> 0 -> keep_min b y <= b) /\
               (keep_min b y = y \/ keep_min b y = b)).
  { unfold keep_min. destruct (Z.eqb_spec b 0), (Z.ltb_spec y b); simpl; lia. }
  destruct Hk as (K1&K2&K3&K4).
  destruct (IH (keep_min b y)) as (_&I2&I3&I4); [lia|done|].
  destruct I2 as [I2 I2']; [lia|]. cbv zeta. split_and!; [done| | |].
  - intros _. split; [lia|]. destruct I2' as [->|Hin]; [|right; by right].
    destruct K4 as [->| ->]; [right; by left|by left].
  - intros Hne. specialize (K3 Hne). lia.
  - intros x [->|Hx]%elem_of_cons; [lia|auto].
Qed.

Lemma MinRtt_step_keep_min lowest bucket :
  0 <= lowest -> 0 <= bucket ->
  MinRtt_step lowest bucket = if bucket =? 0 then lowest else keep_min lowest bucket.
Proof. unfold MinRtt_step, keep_min. intros. by destruct (bucket =? 0). Qed.

(** The scan over the row, when each bucket is the minimum of its own list. *)
Lemma MinRtt_scan (vs : list (list Z)) a :
  0 <= a -> Forall (Forall (fun x => 1 <= x)) vs ->
  foldl MinRtt_step a (map (foldl keep_min 0) vs) = foldl keep_min a (concat vs).
Proof.
  intros Ha. revert a Ha. induction vs as [|v vs IH]; intros a Ha HF; [done|].
  apply Forall_cons in HF as [Hv HF]. cbn [foldl map concat]. rewrite foldl_app.
  pose proof (keep_min_fold v 0 ltac:(lia) Hv) as (V1&V2&_&V4).
  pose proof (keep_min_fold v a ltac:(lia) Hv) as (A1&A2&A3&A4).
  assert (E : MinRtt_step a (foldl keep_min 0 v) = foldl keep_min a v); [|rewrite E; apply IH; [|done]].
  - destruct v as [|x v]; [done|]. destruct V2 as [V2 V2']; [by right|].
    destruct A2 as [A2 A2']; [by right|].
    assert (Hin : foldl keep_min 0 (x :: v) ∈ x :: v) by (destruct V2' as [?|?]; [lia|done]).
    rewrite MinRtt_step_keep_min by lia.
    destruct (Z.eqb_spec (foldl keep_min 0 (x :: v)) 0); [lia|].
    pose proof (A4 _ Hin). unfold keep_min at 1. clear V1 A1.
    destruct A2' as [E|Hin']; [|specialize (V4 _ Hin')];
      destruct (Z.eqb_spec a 0), (Z.ltb_spec (foldl keep_min 0 (x :: v)) a); cbn [orb]; lia.
  - destruct v as [|x v]; [done|]. destruct A2; [by right|lia].
Qed.

(** *** The window *)

Definition clock_ok (l : list rtt_sample) : Prop :=
  Forall sample_ok l /\ Sorted (fun a b => s_now a <= s_now b) l.

Abbreviation stamped l := (map (fun s => (s_now s, s_rtt s)) l).
Abbreviation span_of := (Buckets.span_of MIN_RTT_BUCKET_MICROS).

(** The buckets and their stamp are the row of the accepted samples. *)
Lemma rtt_run_row l :
  Forall sample_ok l ->
  (minBucketsMicros (rtt_run l), minRotatedAtMicros (rtt_run l)) =
  row_run keep_min 0 MIN_RTT_BUCKET_MICROS (Z.to_nat MIN_RTT_BUCKETS) (stamped (taken l)).
Proof.
  induction l as [|s l IH] using rev_ind; intros HF; [done|].
  apply Forall_snoc_inv in HF as [HF Hs]. specialize (IH HF). pose proof (rtt_run_wf l HF) as Hw.
  rewrite rtt_run_snoc, taken_snoc.
  destruct (rtt_fold_cases (rtt_run l) s Hw Hs) as [(E&->)|(E&_&Hsm&_)]; rewrite E.
  - by rewrite app_nil_r.
  - rewrite map_app. unfold row_run in *. rewrite foldl_app, <- IH.
    rewrite (sm_buckets _ _ _ _ _ Hsm), (sm_rotated _ _ _ _ _ Hsm). done.
Qed.

Lemma taken_sorted l :
  Sorted (fun a b => s_now a <= s_now b) l ->
  Sorted (fun a b : Z * Z => a.1 <= b.1) (stamped (taken l)).
Proof.
  intros HS. apply Sorted_StronglySorted in HS; [|intros ???; lia]. apply StronglySorted_Sorted.
  induction HS as [|s l _ IH HF]; [constructor|]. unfold taken. rewrite filter_cons.
  case_decide; [|done]. constructor; [done|]. apply Forall_map, Forall_forall.
  intros x [_ Hx]%list_elem_of_filter. rewrite Forall_forall in HF. by apply HF.
Qed.

Lemma row_after l newest :
  clock_ok l -> last (taken l) = Some newest ->
  exists t0, row_at keep_min 0 MIN_RTT_BUCKET_MICROS
    (minBucketsMicros (rtt_run l), minRotatedAtMicros (rtt_run l)) (stamped (taken l)) t0 (s_now newest).
Proof.
  intros [HF HS] HL. rewrite rtt_run_row by done. pose proof (taken_sorted l HS) as HSt.
  assert (HP : Forall (fun p : Z * Z => 0 < p.1) (stamped (taken l))).
  { apply Forall_map, Forall_forall. intros s [_ Hs]%list_elem_of_filter.
    rewrite Forall_forall in HF. destruct (HF s Hs) as (_&_&?). simpl. lia. }
  apply last_Some in HL as [l' E]. rewrite E, map_app in *.
  eexists. by apply (row_run_at keep_min 0 MIN_RTT_BUCKET_MICROS ltac:(unfold MIN_RTT_BUCKET_MICROS; lia) 2).
Qed.

Lemma row_of_three (b : list Z) : zlen b = 3 -> b = [b.[0]; b.[1]; b.[2]].
Proof. unfold zlen. intros H. destruct b as [|x [|y [|z [|]]]]; simpl in H; try lia. done. Qed.

(** The remembered minimum, read off the samples of the last three spans. *)
Lemma MinRtt_row r l t0 newest :
  rtt_wf r -> row_at keep_min 0 MIN_RTT_BUCKET_MICROS (minBucketsMicros r, minRotatedAtMicros r) (stamped (taken l)) t0 newest ->
  Forall sample_ok l ->
  MinRttMicros r =
  foldl keep_min 0 (concat (map (fun i => map s_rtt (filter (fun s => span_of t0 (s_now s) = span_of t0 newest - i) (taken l)))
                             [0; 1; 2])).
Proof.
  intros Hw [_ _ _ [_ Hb]] HF. cbn [fst] in Hb. pose proof (rw_len r Hw) as Hl. unfold MIN_RTT_BUCKETS in Hl.
  unfold MinRttMicros. rewrite (row_of_three (minBucketsMicros r) Hl).
  rewrite (Hb 0), (Hb 1), (Hb 2) by lia. unfold span_fold. rewrite !span_filter_map.
  rewrite <- MinRtt_scan; [by cbn [map]|lia|].
  apply Forall_map, Forall_forall. intros i _. simpl. apply Forall_map, Forall_forall. simpl.
  intros s [_ Hs]%list_elem_of_filter. apply list_elem_of_filter in Hs as [Hacc Hin].
  rewrite Forall_forall in HF. destruct (HF s Hin) as (?&_). apply accepted_iff in Hacc; lia.
Qed.

(** The minimum round trip is a sliding window minimum.  After any
    stream of samples stamped by a clock that does not go back, it is one of the
    accepted samples, taken less than 12 seconds before the newest one, and it is
    no larger than any accepted sample of the last 8 seconds: a route that gets
    longer is believed within three spans, and a recent fast sample is never
    forgotten early. *)
Theorem MinRtt_window (l : list rtt_sample) (newest : rtt_sample)
  (Hc : clock_ok l) (Hn : last (taken l) = Some newest) :
  (exists s, s ∈ taken l /\ s_rtt s = MinRttMicros (rtt_run l) /\ s_now newest - s_now s < 12000000) /\
  (forall s, s ∈ taken l -> s_now newest - s_now s <= 8000000 -> MinRttMicros (rtt_run l) <= s_rtt s).
Proof.
  destruct (row_after l newest Hc Hn) as [t0 Hrow].
  rewrite (MinRtt_row (rtt_run l) l t0 (s_now newest)); [|by apply rtt_run_wf, Hc|done|apply Hc].
  set (vals := concat _).
  assert (Hval : forall x, x ∈ vals <-> exists s, s ∈ taken l /\ s_rtt s = x /\ span_of t0 (s_now newest) - 2 <= span_of t0 (s_now s)).
  { intros x. subst vals. cbn [map concat]. rewrite app_nil_r, !elem_of_app, !list_elem_of_fmap.
    pose proof (ro_times _ _ _ _ _ _ _ Hrow) as HT. rewrite Forall_map, Forall_forall in HT. simpl in HT.
    clear Hn Hrow. revert HT. generalize (taken l). intros tl HT.
    setoid_rewrite list_elem_of_filter. split.
    - intros [(s&->&Hs&?)|[(s&->&Hs&?)|(s&->&Hs&?)]]; exists s; (split_and!; [done..|lia]).
    - intros (s&Hs&<-&Hsp). specialize (HT s Hs).
      assert (span_of t0 (s_now s) <= span_of t0 (s_now newest)) by (unfold Buckets.span_of, MIN_RTT_BUCKET_MICROS; zdm).
      assert (span_of t0 (s_now s) = span_of t0 (s_now newest) - 0 \/ span_of t0 (s_now s) = span_of t0 (s_now newest) - 1
              \/ span_of t0 (s_now s) = span_of t0 (s_now newest) - 2) as [?|[?|?]] by lia; eauto 8. }
  assert (Hpos : Forall (fun x => 1 <= x) vals).
  { apply Forall_forall. intros x (s&Hs&<-&_)%Hval. apply list_elem_of_filter in Hs as [Ha Hin].
    destruct Hc as [HF _]. rewrite Forall_forall in HF. destruct (HF s Hin) as (?&_).
    apply accepted_iff in Ha; lia. }
  destruct (keep_min_fold vals 0 ltac:(lia) Hpos) as (_&K2&_&K4).
  assert (Hin : s_rtt newest ∈ vals).
  { apply Hval. exists newest. split; [by apply last_Some_elem_of|]. split; [done|lia]. }
  destruct K2 as [K2 [K2'|K2']]; [right; intros E; rewrite E in Hin; by apply not_elem_of_nil in Hin|lia|]. split.
  - apply Hval in K2' as (s&?&?&Hsp). exists s. split_and!; [done..|].
    unfold Buckets.span_of, MIN_RTT_BUCKET_MICROS in Hsp. zdm.
  - intros s Hs Hage. apply K4, Hval. exists s. split_and!; [done..|].
    unfold Buckets.span_of, MIN_RTT_BUCKET_MICROS. zdm.
Qed.

Definition sample_stream : list rtt_sample :=
  [ {| s_rtt := 40000; s_held := 0; s_now := 1000000 |};
    {| s_rtt := 0; s_held := 0; s_now := 1500000 |};
    {| s_rtt := 55000; s_held := 900; s_now := 6000000 |};
    {| s_rtt := 60000; s_held := 100; s_now := 14000000 |} ].

Lemma sample_stream_ok : clock_ok sample_stream.
Proof. split; [repeat constructor; simpl; lia|]. repeat constructor; simpl; lia. Qed.

Lemma MinRtt_window_witness :
  MinRttMicros (rtt_run sample_stream) = 55000 /\
  (exists s, s ∈ taken sample_stream /\ s_rtt s = MinRttMicros (rtt_run sample_stream) /\ 14000000 - s_now s < 12000000).
Proof.
  split; [vm_compute; reflexivity|].
  apply (MinRtt_window sample_stream _ sample_stream_ok eq_refl).
Defined.

(** Folding samples never overflows and never escapes: whatever
    64-bit measurements arrive, refused or not, the estimate stays well formed,
    the smoothed round trip stays between the smallest and largest accepted
    sample and the deviation below the largest.  No stream poisons the average. *)
Theorem Rtt_average_between (l : list rtt_sample) (lo hi : Z)
  (Hok : Forall sample_ok l) (Hlo : 1 <= lo)
  (Hband : Forall (fun s => lo <= s_rtt s <= hi) (taken l)) (Hne : taken l <> []) :
  rtt_wf (rtt_run l) /\ lo <= srttMicros (rtt_run l) <= hi /\ 0 <= rttvarMicros (rtt_run l) <= hi.
Proof.
  split; [by apply rtt_run_wf|]. destruct (rtt_run_band l lo hi Hok Hband Hlo) as [[? _]|(_&?&?)]; [done|split; lia].
Qed.

Lemma Rtt_average_between_witness :
  rtt_wf (rtt_run sample_stream) /\ 40000 <= srttMicros (rtt_run sample_stream) <= 60000 /\
  0 <= rttvarMicros (rtt_run sample_stream) <= 60000.
Proof.
  apply (Rtt_average_between sample_stream 40000 60000 (proj1 sample_stream_ok)); [lia| |done].
  repeat constructor; simpl; lia.
Defined.

(** ** Deadlines *)

(** The deadline before any backoff. *)
Definition rto_base (r : RttEstimate) (fallback cadence : Z) : Z :=
  let rt := RoundTripOr r fallback in
  rt + Z.max (Z.max RTO_VARIANCE_MIN_MICROS (4 * rttvarMicros r)) (rt / RTO_MARGIN_DIVISOR)
     + Z.max cadence (peerAckDelayMicros r).

Lemma backoff_spec fuel silent rto :
  0 <= rto -> rto * 2 ^ Z.of_nat fuel < 2 ^ 64 ->
  exists j, 0 <= j <= Z.of_nat fuel /\ backoff fuel silent rto = rto * 2 ^ j /\
    (forall i, 0 <= i < j -> rto * 2 ^ i < silent) /\ (j < Z.of_nat fuel -> silent <= rto * 2 ^ j).
Proof.
  revert rto. induction fuel as [|fuel IH]; intros rto H0 Hb.
  - exists 0. simpl. split_and!; lia.
  - cbn [backoff]. rewrite Nat2Z.inj_succ, Z.pow_succ_r in * by lia.
    destruct (Z.ltb_spec rto silent).
    + assert (0 < 2 ^ Z.of_nat fuel) by (apply Z.pow_pos_nonneg; lia).
      rewrite Z.shiftl_mul_pow2, Z.pow_1_r, u64_small by nia.
      destruct (IH (rto * 2)) as (j&Hj&->&Hlt&Hge); [lia|nia|].
      exists (j + 1). rewrite Z.pow_add_r by lia. split_and!; [lia|lia|lia| |].
      * intros i Hi. destruct (decide (i = 0)) as [->|]; [lia|].
        specialize (Hlt (i - 1) ltac:(lia)). replace i with (1 + (i - 1)) by lia.
        rewrite Z.pow_add_r by lia. lia.
      * intros. specialize (Hge ltac:(lia)). lia.
    + exists 0. split_and!; try lia.
Qed.

Lemma RetransmitTimeout_closed r fallback cadence now :
  rtt_wf r -> is_u32 fallback -> is_u32 cadence ->
  RetransmitTimeout r fallback cadence now =
  Z.min RTO_MAX_MICROS
    (backoff RTO_MAX_BACKOFF_SHIFT (SilentForMicros r now) (rto_base r fallback cadence)) /\
  1000 <= rto_base r fallback cadence < 2 ^ 34.
Proof.
  intros [Hs Hv Hl Hd _ _ _ _] Hf Hc. unfold bucket_ok, RTT_SAMPLE_MAX_MICROS in *.
  assert (Hrt : 0 <= RoundTripOr r fallback < 2 ^ 32) by (unfold RoundTripOr; destruct (srttMicros r =? 0); simpl; lia).
  assert (Hb : 1000 <= rto_base r fallback cadence < 2 ^ 34).
  { unfold rto_base, RTO_VARIANCE_MIN_MICROS, RTO_MARGIN_DIVISOR. zdm. }
  split; [|done]. unfold RetransmitTimeout. cbv zeta.
  match goal with |- context [backoff _ _ (u64 ?e)] => assert (E : u64 e = rto_base r fallback cadence) end.
  { rewrite (u64_small (4 * _)) by lia. unfold rto_base in *. unfold RTO_VARIANCE_MIN_MICROS, RTO_MARGIN_DIVISOR in *.
    set (rt := RoundTripOr r fallback) in *.
    assert (0 <= rt / 8 <= rt) by zdm. rewrite u64_small; zcases. }
  rewrite E. destruct (backoff_spec 3 (SilentForMicros r now) (rto_base r fallback cadence)) as (j&Hj&Ej&_&_);
    [lia|change (2 ^ Z.of_nat 3) with 8; lia|].
  unfold RTO_MAX_BACKOFF_SHIFT, RTO_MAX_MICROS. rewrite Ej.
  assert (1 <= 2 ^ j) by (pose proof (Z.pow_pos_nonneg 2 j); lia).
  assert (1000 <= rto_base r fallback cadence * 2 ^ j) by nia. zcases.
Qed.

(** The retransmit deadline: the round trip, plus the largest of four
    deviations, a millisecond and an eighth of the path, plus the longer of the
    two acknowledgement holds, doubled [j <= 3] times where [j] is the fewest
    doublings that reach the silence, and at most a minute.  It is never under a
    millisecond and, short of the ceiling, never within an eighth of the round
    trip itself. *)
Theorem RetransmitTimeout_spec (r : RttEstimate) (fallback cadence now : Z)
  (Hw : rtt_wf r) (Hf : is_u32 fallback) (Hc : is_u32 cadence) :
  let rto := RetransmitTimeout r fallback cadence now in
  let base := rto_base r fallback cadence in
  let silent := SilentForMicros r now in
  1000 <= rto <= RTO_MAX_MICROS /\
  Z.min RTO_MAX_MICROS (RoundTripOr r fallback + RoundTripOr r fallback / 8) <= rto /\
  exists j, 0 <= j <= 3 /\ rto = Z.min RTO_MAX_MICROS (base * 2 ^ j) /\
    (forall i, 0 <= i < j -> base * 2 ^ i < silent) /\ (j < 3 -> silent <= base * 2 ^ j).
Proof.
  cbv zeta. destruct (RetransmitTimeout_closed r fallback cadence now Hw Hf Hc) as [-> Hb].
  destruct (backoff_spec RTO_MAX_BACKOFF_SHIFT (SilentForMicros r now) (rto_base r fallback cadence))
    as (j&Hj&->&Hlt&Hge); [lia|change (Z.of_nat RTO_MAX_BACKOFF_SHIFT) with 3; lia|].
  change (Z.of_nat RTO_MAX_BACKOFF_SHIFT) with 3 in *.
  assert (1 <= 2 ^ j) by (pose proof (Z.pow_pos_nonneg 2 j); lia).
  assert (rto_base r fallback cadence <= rto_base r fallback cadence * 2 ^ j) by nia.
  assert (RoundTripOr r fallback + RoundTripOr r fallback / 8 <= rto_base r fallback cadence).
  { unfold rto_base, RTO_MARGIN_DIVISOR. pose proof (rw_delay r Hw). lia. }
  unfold RTO_MAX_MICROS in *. split_and!; [lia..|]. exists j. split_and!; [lia..|done|done].
Qed.

Lemma RetransmitTimeout_spec_witness :
  let r := MarkAcked (rtt_run sample_stream) 14000000 in
  exists j, 0 <= j <= 3 /\
    RetransmitTimeout r 100000 25000 14400000 = Z.min RTO_MAX_MICROS (rto_base r 100000 25000 * 2 ^ j) /\
    (forall i, 0 <= i < j -> rto_base r 100000 25000 * 2 ^ i < SilentForMicros r 14400000) /\
    (j < 3 -> SilentForMicros r 14400000 <= rto_base r 100000 25000 * 2 ^ j).
Proof.
  cbv zeta. apply (RetransmitTimeout_spec (MarkAcked (rtt_run sample_stream) 14000000) 100000 25000 14400000); [|lia|lia].
  destruct (rtt_run_wf sample_stream (proj1 sample_stream_ok)). by split.
Defined.

(** A gap is called a loss only once it is older than nine eighths of the larger
    of the newest and the average round trip. *)
Lemma LossDelayMicros_closed r fallback :
  rtt_wf r -> is_u32 fallback ->
  LossDelayMicros r fallback =
  let base := Z.max (latestMicros r) (srttMicros r) in
  let base := if base =? 0 then fallback else base in Z.max RTO_VARIANCE_MIN_MICROS (base + base / 8).
Proof.
  intros [Hs _ Hl _ _ _ _ _] Hf. unfold bucket_ok, RTT_SAMPLE_MAX_MICROS in *. unfold LossDelayMicros. cbv zeta.
  assert ((if srttMicros r <? latestMicros r then latestMicros r else srttMicros r)
          = Z.max (latestMicros r) (srttMicros r)) as -> by zcases.
  set (b := if _ =? 0 then _ else _). assert (0 <= b < 2 ^ 32) by (subst b; zcases).
  rewrite u64_small by zdm. unfold RTO_VARIANCE_MIN_MICROS. zcases.
Qed.
