(* ===== verification/Delivery.v ===== *)
(** * The delivery estimate: [flux/internal/delivery.h]

    How much a path was recently seen to carry, and how much of what was put on it
    did not arrive: two rows of byte counts that age together.  Proved here: the
    rows are exact saturating per-span totals, the loss percentage is a percentage
    of the retired spans, and the overflow gate compares what it says it compares
    without any intermediate leaving 64 bits. *)

From Stdlib Require Import Sorted.
From S2P Require Import Prelude Buckets.

Definition DELIVERY_BUCKETS : Z := 4.
Definition DELIVERY_BUCKET_MICROS : Z := 250000.
Definition CC_OVERFLOW_GATE_PERCENT : Z := 75.

(** ** Definitions *)

Record DeliveryEstimate := {
  bucketBytes : list Z; lostBytes : list Z; rotatedAtMicros : Z; everComplete : bool }.

Definition Delivery_Reset : DeliveryEstimate :=
  {| bucketBytes := replicate (Z.to_nat DELIVERY_BUCKETS) 0;
     lostBytes := replicate (Z.to_nat DELIVERY_BUCKETS) 0;
     rotatedAtMicros := 0; everComplete := false |}.

(** The body of the ageing loop. *)
Definition Delivery_rotate (d : DeliveryEstimate) : DeliveryEstimate :=
  {| bucketBytes := age_buckets 0 (bucketBytes d); lostBytes := age_buckets 0 (lostBytes d);
     rotatedAtMicros := u64 (rotatedAtMicros d + DELIVERY_BUCKET_MICROS); everComplete := true |}.

(** [grown > UINT32_MAX ? UINT32_MAX : grown], in 64 bits. *)
Definition grow (bucket more : Z) : Z :=
  let grown := u64 (bucket + more) in if UINT32_MAX <? grown then UINT32_MAX else u32 grown.

Definition Delivery_Sample (d : DeliveryEstimate) (ackedBytes lostDeclaredBytes nowMicros : Z) : DeliveryEstimate :=
  let start := if rotatedAtMicros d =? 0 then nowMicros else rotatedAtMicros d in
  let elapsed := if start <? nowMicros then u64 (nowMicros - start) else 0 in
  let d := {| bucketBytes := bucketBytes d; lostBytes := lostBytes d;
              rotatedAtMicros := start; everComplete := everComplete d |} in
  let d := (drain DELIVERY_BUCKET_MICROS Delivery_rotate
              (drain_fuel DELIVERY_BUCKET_MICROS elapsed) d elapsed).1 in
  {| bucketBytes := (bucketBytes d).[0 <- grow (bucketBytes d).[0] ackedBytes];
     lostBytes := (lostBytes d).[0 <- grow (lostBytes d).[0] lostDeclaredBytes];
     rotatedAtMicros := rotatedAtMicros d; everComplete := everComplete d |}.

Definition LossPercent (d : DeliveryEstimate) : Z :=
  if negb (everComplete d) then 0
  else
    let '(delivered, lost) :=
      for_up 1 (Z.to_nat (DELIVERY_BUCKETS - 1))
        (fun i '(delivered, lost) =>
           (u64 (delivered + (bucketBytes d).[i]), u64 (lost + (lostBytes d).[i]))) (0, 0) in
    let resolved := u64 (delivered + lost) in
    if resolved =? 0 then 0 else u32 (u64 (lost * 100) / resolved).

Definition PeakBytesPerBucket (d : DeliveryEstimate) : Z :=
  if negb (everComplete d) then 0
  else for_up 1 (Z.to_nat (DELIVERY_BUCKETS - 1))
         (fun i peak => if peak <? (bucketBytes d).[i] then (bucketBytes d).[i] else peak) 0.

Definition PathBytes (d : DeliveryEstimate) (minRttMicros : Z) : Z :=
  let peak := PeakBytesPerBucket d in
  if (peak =? 0) || (minRttMicros =? 0) then 0
  else u64 (peak * minRttMicros) / DELIVERY_BUCKET_MICROS.

Definition CouldOverflow (d : DeliveryEstimate) (minRttMicros inFlightBytes : Z) : bool :=
  let path := PathBytes d minRttMicros in
  if path =? 0 then true
  else u64 (path * CC_OVERFLOW_GATE_PERCENT) <=? u64 (inFlightBytes * 100).

(** ** Well-formedness *)

Record delivery_wf (d : DeliveryEstimate) : Prop := {
  dw_blen : zlen (bucketBytes d) = DELIVERY_BUCKETS;
  dw_llen : zlen (lostBytes d) = DELIVERY_BUCKETS;
  dw_bytes : Forall (fun x => is_u32 x) (bucketBytes d);
  dw_lost : Forall (fun x => is_u32 x) (lostBytes d);
  dw_stamp : is_u64 (rotatedAtMicros d) }.

Lemma Delivery_Reset_wf : delivery_wf Delivery_Reset.
Proof. split; simpl; try done; repeat constructor; lia. Qed.

(** *** One fold in closed form *)

Abbreviation passed := (spans_passed DELIVERY_BUCKET_MICROS).

Lemma Delivery_rotate_iter n d :
  0 <= rotatedAtMicros d -> rotatedAtMicros d + Z.of_nat n * DELIVERY_BUCKET_MICROS < 2 ^ 64 ->
  Nat.iter n Delivery_rotate d =
  {| bucketBytes := Nat.iter n (age_buckets 0) (bucketBytes d);
     lostBytes := Nat.iter n (age_buckets 0) (lostBytes d);
     rotatedAtMicros := rotatedAtMicros d + Z.of_nat n * DELIVERY_BUCKET_MICROS;
     everComplete := everComplete d || (0 <? Z.of_nat n) |}.
Proof.
  intros H0. induction n as [|n IH]; intros Hb.
  - destruct d as [b l t c]. simpl. by rewrite orb_false_r, Z.add_0_r.
  - unfold DELIVERY_BUCKET_MICROS in *. rewrite !Nat.iter_succ, IH by lia. unfold Delivery_rotate. cbn.
    unfold DELIVERY_BUCKET_MICROS. rewrite u64_small by lia. f_equal; [lia|by rewrite orb_true_r].
Qed.

Lemma Delivery_Sample_closed d acked lost now :
  delivery_wf d -> is_u64 now ->
  let start := row_start (rotatedAtMicros d) now in
  let n := passed start now in
  let b := Nat.iter (Z.to_nat n) (age_buckets 0) (bucketBytes d) in
  let l := Nat.iter (Z.to_nat n) (age_buckets 0) (lostBytes d) in
  Delivery_Sample d acked lost now =
  {| bucketBytes := b.[0 <- grow b.[0] acked]; lostBytes := l.[0 <- grow l.[0] lost];
     rotatedAtMicros := start + n * DELIVERY_BUCKET_MICROS;
     everComplete := everComplete d || (0 <? n) |} /\ is_u64 (start + n * DELIVERY_BUCKET_MICROS).
Proof.
  intros Hw Hn. cbv zeta. pose proof (dw_stamp d Hw) as Hs.
  unfold Delivery_Sample. fold (row_start (rotatedAtMicros d) now).
  assert (Hst : is_u64 (row_start (rotatedAtMicros d) now)) by (unfold row_start; destruct (_ =? 0); lia).
  set (start := row_start (rotatedAtMicros d) now) in *. cbv zeta.
  assert ((if start <? now then u64 (now - start) else 0) = Z.max 0 (now - start)) as ->.
  { destruct (Z.ltb_spec start now); [rewrite u64_small by lia|]; lia. }
  unfold passed. rewrite drain_spec by (unfold DELIVERY_BUCKET_MICROS; lia).
  unfold drain_fuel. cbn [fst].
  assert (Hb : is_u64 (start + Z.max 0 (now - start) / DELIVERY_BUCKET_MICROS * DELIVERY_BUCKET_MICROS))
    by (unfold DELIVERY_BUCKET_MICROS; zdm).
  assert (0 <= Z.max 0 (now - start) / DELIVERY_BUCKET_MICROS) by (unfold DELIVERY_BUCKET_MICROS; zdm).
  rewrite Delivery_rotate_iter; cbn [rotatedAtMicros bucketBytes lostBytes everComplete];
    rewrite ?Z2Nat.id by lia; [done|lia|lia].
Qed.

Lemma grow_range b x : is_u32 (grow b x).
Proof.
  unfold grow, UINT32_MAX. pose proof (u32_range (u64 (b + x))). destruct (_ <? _); lia.
Qed.

Lemma grow_sat b x : is_u32 b -> is_u32 x -> grow b x = Z.min UINT32_MAX (b + x).
Proof.
  unfold grow, UINT32_MAX. intros. rewrite u64_small by lia.
  destruct (Z.ltb_spec (2 ^ 32 - 1) (b + x)); [lia|]. rewrite u32_small by lia. lia.
Qed.

Lemma Delivery_Sample_wf d acked lost now :
  delivery_wf d -> is_u64 now -> delivery_wf (Delivery_Sample d acked lost now).
Proof.
  intros Hw Hn. destruct (Delivery_Sample_closed d acked lost now Hw Hn) as [-> Hst].
  destruct Hw as [H1 H2 H3 H4 H5].
  split; cbn [bucketBytes lostBytes rotatedAtMicros];
    rewrite ?zlen_set; unfold zlen in *; rewrite ?length_ages; try done;
    apply Forall_insert; auto using grow_range; apply Forall_ages; done || lia.
Qed.

(** ** Streams of feedback *)

Record feedback := { f_acked : Z; f_lost : Z; f_now : Z }.
Definition delivery_run (l : list feedback) : DeliveryEstimate :=
  foldl (fun d f => Delivery_Sample d (f_acked f) (f_lost f) (f_now f)) Delivery_Reset l.

Definition feedback_ok (l : list feedback) : Prop :=
  Forall (fun f => is_u32 (f_acked f) /\ is_u32 (f_lost f) /\ 0 < f_now f < 2 ^ 64) l /\
  Sorted (fun a b => f_now a <= f_now b) l.

(** Both rows run on the same clock. *)
Lemma delivery_run_rows l :
  Forall (fun f => is_u64 (f_now f)) l ->
  delivery_wf (delivery_run l) /\
  (bucketBytes (delivery_run l), rotatedAtMicros (delivery_run l)) =
    row_run grow 0 DELIVERY_BUCKET_MICROS (Z.to_nat DELIVERY_BUCKETS) (map (fun f => (f_now f, f_acked f)) l) /\
  (lostBytes (delivery_run l), rotatedAtMicros (delivery_run l)) =
    row_run grow 0 DELIVERY_BUCKET_MICROS (Z.to_nat DELIVERY_BUCKETS) (map (fun f => (f_now f, f_lost f)) l).
Proof.
  induction l as [|f l IH] using rev_ind; intros HF; [split; [apply Delivery_Reset_wf|done]|].
  apply Forall_snoc_inv in HF as [HF Hf]. destruct (IH HF) as (Hw&Hb&Hl).
  unfold delivery_run in *. rewrite foldl_app. cbn [foldl].
  split; [by apply Delivery_Sample_wf|].
  destruct (Delivery_Sample_closed (foldl (fun d f => Delivery_Sample d (f_acked f) (f_lost f) (f_now f)) Delivery_Reset l)
    (f_acked f) (f_lost f) (f_now f) Hw Hf) as [-> _].
  unfold row_run in *. rewrite !map_app, !foldl_app, <- Hb, <- Hl. done.
Qed.

Definition sum (l : list Z) : Z := foldr Z.add 0 l.

Lemma sum_nonneg l : Forall (fun x => is_u32 x) l -> 0 <= sum l.
Proof. induction 1; simpl; lia. Qed.

(** Saturating additions in sequence saturate the sum. *)
Lemma grow_fold l b :
  is_u32 b -> Forall (fun x => is_u32 x) l -> foldl grow b l = Z.min UINT32_MAX (b + sum l).
Proof.
  intros Hb HF. revert b Hb. induction HF as [|x l Hx HF IH]; intros b Hb; cbn [foldl sum foldr].
  - unfold UINT32_MAX. lia.
  - rewrite IH by apply grow_range. rewrite grow_sat by done. pose proof (sum_nonneg l HF).
    fold (sum l). unfold UINT32_MAX. lia.
Qed.

(** The feedback of one span. *)
Definition in_span (t0 k : Z) (l : list feedback) : list feedback :=
  filter (fun f => span_of DELIVERY_BUCKET_MICROS t0 (f_now f) = k) l.

Lemma sorted_map (g : feedback -> Z) l :
  Sorted (fun a b => f_now a <= f_now b) l ->
  Sorted (fun x y : Z * Z => x.1 <= y.1) (map (fun f => (f_now f, g f)) l).
Proof.
  induction 1 as [|f l _ IH Hh]; [constructor|]. cbn [map]. constructor; [done|].
  destruct Hh; constructor. done.
Qed.

(** When the first feedback arrived: the rows are anchored there. *)
Definition first_now (l : list feedback) : Z := match l with [] => 0 | f :: _ => f_now f end.

Abbreviation spanned t0 now := (span_of DELIVERY_BUCKET_MICROS t0 now).

(** One row after a stream. *)
Lemma row_totals (g : feedback -> Z) l f s :
  feedback_ok (l ++ [f]) -> Forall (fun f => is_u32 (g f)) (l ++ [f]) ->
  s = row_run grow 0 DELIVERY_BUCKET_MICROS (Z.to_nat DELIVERY_BUCKETS) (map (fun f => (f_now f, g f)) (l ++ [f])) ->
  let t0 := first_now (l ++ [f]) in
  s.2 = t0 + spanned t0 (f_now f) * DELIVERY_BUCKET_MICROS /\
  forall i, 0 <= i < DELIVERY_BUCKETS ->
    s.1.[i] = Z.min UINT32_MAX (sum (map g (in_span t0 (spanned t0 (f_now f) - i) (l ++ [f])))).
Proof.
  intros [HF HS] Hg ->. cbv zeta.
  pose proof (row_run_at grow 0 DELIVERY_BUCKET_MICROS ltac:(unfold DELIVERY_BUCKET_MICROS; lia) 3
    (map (fun f => (f_now f, g f)) l) (f_now f, g f)) as Hrow.
  change [(f_now f, g f)] with (map (fun f => (f_now f, g f)) [f]) in Hrow. rewrite <- map_app in Hrow.
  assert (anchor (map (fun f => (f_now f, g f)) (l ++ [f])) = first_now (l ++ [f])) as Ha by (by destruct l).
  rewrite Ha in Hrow.
  destruct Hrow as [_ Hst _ [_ Hb]]; [|by apply sorted_map|].
  { apply Forall_map. eapply Forall_impl; [exact HF|]. cbn. lia. }
  change (S 3) with (Z.to_nat DELIVERY_BUCKETS) in *. cbn [fst] in Hst, Hb. split; [exact Hst|].
  intros i Hi. rewrite Hb by (unfold zlen; rewrite length_row_run; unfold DELIVERY_BUCKETS in *; lia).
  unfold span_fold. rewrite span_filter_map, grow_fold; [done|lia|].
  apply Forall_map, Forall_forall. cbn. intros x [_ Hx]%list_elem_of_filter.
  rewrite Forall_forall in Hg. by apply Hg.
Qed.

(** The rows are exact: after any feedback stamped by a clock that
    does not go back, bucket [i] of each row holds the bytes acknowledged, or
    declared lost, during the quarter second [i] spans before the current one,
    saturated at 32 bits.  Nothing outside those four spans contributes. *)
Theorem Delivery_totals (l : list feedback) (f : feedback) (Hok : feedback_ok (l ++ [f])) :
  let d := delivery_run (l ++ [f]) in
  let t0 := first_now (l ++ [f]) in
  delivery_wf d /\ forall i, 0 <= i < DELIVERY_BUCKETS ->
    let now_span := in_span t0 (spanned t0 (f_now f) - i) (l ++ [f]) in
    (bucketBytes d).[i] = Z.min UINT32_MAX (sum (map f_acked now_span)) /\
  (lostBytes d).[i] = Z.min UINT32_MAX (sum (map f_lost now_span)).
Proof.
  cbv zeta. pose proof Hok as [HF _].
  destruct (delivery_run_rows (l ++ [f])) as (Hw&Hb&Hl).
  { eapply Forall_impl; [exact HF|]. cbn. lia. }
  destruct (row_totals f_acked l f _ Hok (Forall_impl _ _ _ HF (fun _ H => proj1 H)) Hb) as [_ Hbi].
  destruct (row_totals f_lost l f _ Hok (Forall_impl _ _ _ HF (fun _ H => proj1 (proj2 H))) Hl) as [_ Hli].
  split; [done|]. intros i Hi. split; [by apply Hbi|by apply Hli].
Qed.

Definition sample_feedback : list feedback :=
  [ {| f_acked := 1200; f_lost := 0; f_now := 1000 |};
    {| f_acked := 2400; f_lost := 1200; f_now := 200000 |};
    {| f_acked := 3600; f_lost := 0; f_now := 260000 |} ].

Lemma Delivery_totals_witness :
  let d := delivery_run (sample_feedback ++ [ {| f_acked := 100; f_lost := 50; f_now := 600000 |} ]) in
  bucketBytes d = [100; 3600; 3600; 0] /\ LossPercent d = 14 /\ delivery_wf d.
Proof.
  cbv zeta. split; [vm_compute; reflexivity|]. split; [vm_compute; reflexivity|].
  apply (Delivery_totals sample_feedback {| f_acked := 100; f_lost := 50; f_now := 600000 |}).
  split; repeat constructor; simpl; lia.
Defined.

(** ** The judgements read off the rows *)

Lemma row_of_four (b : list Z) : zlen b = 4 -> b = [b.[0]; b.[1]; b.[2]; b.[3]].
Proof. unfold zlen. intros H. destruct b as [|x [|y [|z [|w [|]]]]]; simpl in H; try lia. done. Qed.

Lemma row_entry (b : list Z) i : zlen b = 4 -> Forall (fun x => is_u32 x) b -> 0 <= i < 4 -> is_u32 b.[i].
Proof.
  intros Hl HF Hi. unfold arr_get. rewrite Forall_lookup in HF.
  destruct (lookup_lt_is_Some_2 b (Z.to_nat i)) as [x Hx]; [unfold zlen in Hl; lia|].
  rewrite (list_lookup_total_correct _ _ _ Hx). by apply (HF (Z.to_nat i)).
Qed.

(** The retired part of a row. *)
Definition retired (b : list Z) : list Z := region b 1 (DELIVERY_BUCKETS - 1).

(** The overflow gate, in exact arithmetic: with an estimate it answers
    whether at least three quarters of [peak * minRtt / span] bytes are in flight,
    where [peak] is the largest retired bucket, and without one it answers yes.
    The loss percentage is the exact share of lost bytes over the same buckets and
    never exceeds 100.  No intermediate wraps. *)
Theorem Delivery_judgements (d : DeliveryEstimate) (minRtt inFlight : Z)
  (Hw : delivery_wf d) (Hr : is_u32 minRtt) (Hi : is_u32 inFlight) :
  let peak := if everComplete d then foldr Z.max 0 (retired (bucketBytes d)) else 0 in
  let path := peak * minRtt / DELIVERY_BUCKET_MICROS in
  let delivered := sum (retired (bucketBytes d)) in
  let lost := sum (retired (lostBytes d)) in
  PathBytes d minRtt = path /\
  CouldOverflow d minRtt inFlight = ((path =? 0) || (75 * path <=? 100 * inFlight)) /\
  LossPercent d = (if everComplete d && negb (delivered + lost =? 0)
                   then lost * 100 / (delivered + lost) else 0) /\
  0 <= LossPercent d <= 100.
Proof.
  destruct Hw as [Hbl Hll Hb Hlo _]. unfold DELIVERY_BUCKETS in *.
  pose proof (row_entry _ 1 Hbl Hb ltac:(lia)). pose proof (row_entry _ 2 Hbl Hb ltac:(lia)).
  pose proof (row_entry _ 3 Hbl Hb ltac:(lia)). pose proof (row_entry _ 1 Hll Hlo ltac:(lia)).
  pose proof (row_entry _ 2 Hll Hlo ltac:(lia)). pose proof (row_entry _ 3 Hll Hlo ltac:(lia)).
  assert (Er : forall b : list Z, zlen b = 4 -> retired b = [b.[1]; b.[2]; b.[3]]).
  { intros b Hlen. rewrite (row_of_four b Hlen). done. }
  rewrite (Er _ Hbl), (Er _ Hll). cbv zeta. cbn [foldr sum].
  assert (Hpeak : PeakBytesPerBucket d = if everComplete d
            then Z.max (bucketBytes d).[1] (Z.max (bucketBytes d).[2] (Z.max (bucketBytes d).[3] 0)) else 0).
  { unfold PeakBytesPerBucket. destruct (everComplete d); [|done].
    change (Z.to_nat (DELIVERY_BUCKETS - 1)) with 3%nat. cbn [for_up negb]. change (1 + 1) with 2. change (2 + 1) with 3. zcases. }
  set (peak := if everComplete d then _ else 0) in *.
  assert (0 <= peak < 2 ^ 32) by (subst peak; destruct (everComplete d); lia).
  assert (HP : PathBytes d minRtt = peak * minRtt / DELIVERY_BUCKET_MICROS).
  { unfold PathBytes. rewrite Hpeak. destruct (Z.eqb_spec peak 0) as [->|]; [done|].
    destruct (Z.eqb_spec minRtt 0) as [->|]; [by rewrite Z.mul_0_r|]. simpl. by rewrite u64_small by nia. }
  refine (conj HP (conj _ (conj _ _))).
  - unfold CouldOverflow. rewrite HP. set (path := peak * minRtt / DELIVERY_BUCKET_MICROS).
    assert (0 <= path < 73786976294839).
    { subst path. unfold DELIVERY_BUCKET_MICROS. assert (0 <= peak * minRtt < 2 ^ 64) by nia. zdm. }
    destruct (Z.eqb_spec path 0); [done|]. simpl. unfold CC_OVERFLOW_GATE_PERCENT.
    rewrite !u64_small by lia. apply eq_iff_eq_true. rewrite !Z.leb_le. lia.
  - unfold LossPercent. destruct (everComplete d); [|done]. cbn [negb andb].
    change (Z.to_nat (DELIVERY_BUCKETS - 1)) with 3%nat. cbn [for_up]. change (1 + 1) with 2. change (2 + 1) with 3.
    unwrap. match goal with |- context [?a =? 0] => set (t := a) in * end.
    replace (_ + (_ + (_ + 0)) + (_ + (_ + (_ + 0)))) with t by (subst t; lia).
    destruct (Z.eqb_spec t 0); [done|]. cbn [negb].
    replace ((_ + (_ + (_ + 0))) * 100) with ((0 + (lostBytes d).[1] + (lostBytes d).[2] + (lostBytes d).[3]) * 100) by lia.
    apply u32_small. split; [apply Z.div_pos; lia|]. apply Z.div_lt_upper_bound; lia.
  - unfold LossPercent. destruct (everComplete d); [|simpl; lia]. cbn [negb].
    change (Z.to_nat (DELIVERY_BUCKETS - 1)) with 3%nat. cbn [for_up]. change (1 + 1) with 2. change (2 + 1) with 3.
    unwrap. match goal with |- context [?a =? 0] => set (t := a) in * end.
    destruct (Z.eqb_spec t 0); [lia|].
    match goal with |- context [u32 (?x / t)] => assert (0 <= x / t <= 100) end.
    { split; [apply Z.div_pos; lia|]. apply Z.div_le_upper_bound; lia. }
    rewrite u32_small; lia.
Qed.

Lemma Delivery_judgements_witness :
  let d := delivery_run (sample_feedback ++ [ {| f_acked := 100; f_lost := 50; f_now := 600000 |} ]) in
  PathBytes d 40000 = 3600 * 40000 / DELIVERY_BUCKET_MICROS /\ CouldOverflow d 40000 400 = false /\
  0 <= LossPercent d <= 100.
Proof.
  cbv zeta. split; [vm_compute; reflexivity|]. split; [vm_compute; reflexivity|].
  apply (Delivery_judgements (delivery_run (sample_feedback ++ [ {| f_acked := 100; f_lost := 50; f_now := 600000 |} ])) 40000 400);
    [|lia|lia].
  apply delivery_run_rows. repeat constructor; simpl; lia.
Defined.
