(* ===== verification/Curve.v ===== *)
(** * The congestion curve: [flux/internal/congestion_curve.h]

    The queue target, CUBIC's window and Reno's line, at the widths the code
    computes them.  The curve is proved to be the cubic it is meant to be, to
    start no lower than the retained window, to pass through the anchor and never
    to fall, for as long as its one signed product fits 64 bits; and that product
    is shown to leave 64 bits well inside the range its clamp admits. *)

From S2P Require Import Prelude Wire CommonMath.

Definition QUEUE_TARGET_DIVISOR : Z := 8.
Definition QUEUE_TARGET_MIN_MICROS : Z := 1000.
Definition CC_CUBIC_C_SCALED : Z := 40.
Definition CC_CUBIC_C_SCALE : Z := 100.
Definition CC_LOSS_RETAIN_PERCENT : Z := 70.

(** ** Definitions *)

Definition QueueTargetMicros (minRttMicros : Z) : Z :=
  let target := minRttMicros / QUEUE_TARGET_DIVISOR in
  if target <? QUEUE_TARGET_MIN_MICROS then QUEUE_TARGET_MIN_MICROS else target.

Definition cBytes : Z := u64 (CC_CUBIC_C_SCALED * MAX_WIRE_PACKET_SIZE) / CC_CUBIC_C_SCALE.
Definition OFFSET_LIMIT : Z := 2000000.

Definition reduction (wMaxBytes : Z) : Z := u64 (wMaxBytes * (100 - CC_LOSS_RETAIN_PERCENT)) / 100.
Definition kMilli (wMaxBytes : Z) : Z :=
  i64 (CubeRoot (u64 (reduction wMaxBytes * 1000000000) / cBytes)).
Definition cubic_offset (wMaxBytes elapsedMicros : Z) : Z :=
  let elapsedMilli := i64 (elapsedMicros / 1000) in i64 (elapsedMilli - kMilli wMaxBytes).

(** A signed product is written with the wrap-around of two's complement; where
    it would wrap the source has no defined meaning. *)
Definition CubicWindow (wMaxBytes elapsedMicros : Z) : Z :=
  if (cBytes =? 0) || (wMaxBytes =? 0) then wMaxBytes
  else
    let offset := cubic_offset wMaxBytes elapsedMicros in
    let bounded := if OFFSET_LIMIT <? offset then OFFSET_LIMIT
                   else if offset <? - OFFSET_LIMIT then - OFFSET_LIMIT else offset in
    let growth := Z.quot (i64 (i64 (i64 (i64 cBytes * bounded) * bounded) * bounded)) 1000000000 in
    let window := i64 (i64 wMaxBytes + growth) in
    if window <? 0 then 0 else u64 window.

Definition RenoWindow (wMaxBytes elapsedMicros srttMicros : Z) : Z :=
  if srttMicros =? 0 then 0
  else
    let retained := u64 (wMaxBytes * CC_LOSS_RETAIN_PERCENT) / 100 in
    let rounds := elapsedMicros / srttMicros in
    let perRound := u64 (u64 (MAX_WIRE_PACKET_SIZE * 3) * (100 - CC_LOSS_RETAIN_PERCENT))
                    / (100 + CC_LOSS_RETAIN_PERCENT) in
    u64 (retained + u64 (rounds * perRound)).

(** ** The curve as a formula *)

Lemma i64_small x : - 2 ^ 63 <= x < 2 ^ 63 -> i64 x = x.
Proof.
  intros H. unfold i64, signed. destruct (Z.leb_spec 0 x).
  - rewrite Z.mod_small by lia. change (2 ^ (64 - 1)) with (2 ^ 63). destruct (Z.ltb_spec x (2 ^ 63)); lia.
  - rewrite <- (Z_mod_plus_full x 1), Z.mod_small by lia. change (2 ^ (64 - 1)) with (2 ^ 63).
    destruct (Z.ltb_spec (x + 1 * 2 ^ 64) (2 ^ 63)); lia.
Qed.

(** The time, in milliseconds, the curve takes to climb back to its anchor. *)
Definition climb (w : Z) : Z := CubeRoot (w * 30 / 100 * 1000000000 / 480).

Lemma climb_bounds w :
  is_u32 w ->
  0 <= climb w < 140000 /\ 480 * (climb w * climb w * climb w) <= w * 30 / 100 * 1000000000.
Proof.
  intros Hw. unfold climb. set (n := w * 30 / 100 * 1000000000 / 480).
  assert (0 <= w * 30 / 100 <= 1288490188) by zdm.
  assert (Hn : 0 <= n < 2 ^ 52) by (subst n; zdm).
  rewrite CubeRoot_unfold by lia.
  destruct (CubeRoot_loop_spec 22 n (0, 2 ^ 21 - 1)) as ((?&Hlo&Hhi)&Heq&?); [|simpl; lia|simpl; lia|].
  { unfold cbrt_bracket. simpl. lia. }
  set (s := CubeRoot_loop 22 n (0, 2 ^ 21 - 1)) in *. rewrite u32_small by lia.
  assert (n * 480 <= w * 30 / 100 * 1000000000) by (subst n; zdm).
  assert (n < 2 ^ 52) by lia. assert (n <= 2684354558333334) by (subst n; zdm). split; [|nia].
  split; [lia|]. destruct (Z.lt_ge_cases s.1 140000); [done|].
  assert (140000 * 140000 * 140000 <= s.1 * s.1 * s.1) by nia. lia.
Qed.

Definition cubic (w t : Z) : Z := w + Z.quot (480 * (t * t * t)) 1000000000.

(** The largest offset, in milliseconds, at which the product is defined. *)
Definition SAFE_OFFSET : Z := 267840.

Lemma cube_bound t : - 140000 <= t <= SAFE_OFFSET ->
  - 2 ^ 63 <= 480 * t * t * t < 2 ^ 63 /\ - 2 ^ 63 <= 480 * t * t < 2 ^ 63 /\ - 2 ^ 63 <= 480 * t < 2 ^ 63.
Proof.
  unfold SAFE_OFFSET. intros Ht.
  assert (0 <= t * t <= 267840 * 267840) by nia.
  assert (- (140000 * (267840 * 267840)) <= t * t * t <= 267840 * (267840 * 267840)) by nia. lia.
Qed.

Lemma CubicWindow_formula w elapsed :
  0 < w < 2 ^ 32 -> is_u64 elapsed -> elapsed / 1000 - climb w <= SAFE_OFFSET ->
  CubicWindow w elapsed = Z.max 0 (cubic w (elapsed / 1000 - climb w)).
Proof.
  intros Hw He Ht. destruct (climb_bounds w ltac:(lia)) as [Hc _].
  assert (0 <= elapsed / 1000 < 2 ^ 55) by zdm.
  assert (Hred : reduction w = w * 30 / 100).
  { unfold reduction, CC_LOSS_RETAIN_PERCENT. by rewrite u64_small by lia. }
  assert (Hk : kMilli w = climb w).
  { unfold kMilli, climb. rewrite Hred. change cBytes with 480.
    rewrite u64_small by zdm. fold (climb w). rewrite i64_small by lia. done. }
  unfold CubicWindow, cubic_offset. change cBytes with 480. rewrite Hk. cbn [orb Z.eqb].
  destruct (Z.eqb_spec w 0); [lia|]. cbv zeta.
  rewrite (i64_small (elapsed / 1000)), (i64_small (elapsed / 1000 - climb w)) by lia.
  unfold SAFE_OFFSET in Ht.
  set (t := elapsed / 1000 - climb w) in *.
  destruct (cube_bound t) as (H3&H2&H1); [unfold SAFE_OFFSET; lia|].
  unfold OFFSET_LIMIT. destruct (Z.ltb_spec 2000000 t); [lia|]. destruct (Z.ltb_spec t (- (2000000))); [lia|].
  rewrite (i64_small 480), (i64_small (480 * t)), (i64_small (480 * t * t)), (i64_small (480 * t * t * t)), (i64_small w) by lia.
  unfold cubic. replace (480 * (t * t * t)) with (480 * t * t * t) by lia.
  assert (- 10000000000 <= Z.quot (480 * t * t * t) 1000000000 <= 10000000000) by zdm.
  rewrite i64_small by lia. destruct (Z.ltb_spec (w + Z.quot (480 * t * t * t) 1000000000) 0); [lia|].
  rewrite u64_small by lia. lia.
Qed.

Lemma cubic_mono w s t : s <= t -> cubic w s <= cubic w t.
Proof.
  intros H. unfold cubic.
  assert (0 <= t * t + t * s + s * s).
  { pose proof (Z.square_nonneg (2 * t + s)). pose proof (Z.square_nonneg s). lia. }
  assert (0 <= (t - s) * (t * t + t * s + s * s)) by (apply Z.mul_nonneg_nonneg; lia).
  assert (s * s * s <= t * t * t) by lia.
  assert (Z.quot (480 * (s * s * s)) 1000000000 <= Z.quot (480 * (t * t * t)) 1000000000); [|lia].
  apply Z.quot_le_mono; lia.
Qed.

(** The curve is the cubic through its anchor.  While the offset from
    the climb time is at most 267,840 ms the code returns
    [wMax + 480 (t - K)^3 / 10^9] exactly; over that range it never falls with
    time, it is never below the window retained after a loss, it is at most [wMax]
    before [K] and exactly [wMax] at [K]. *)
Theorem CubicWindow_shape (w e e' : Z)
  (Hw : 0 < w < 2 ^ 32) (He : 0 <= e <= e') (He' : is_u64 e')
  (Hsafe : e' / 1000 - climb w <= SAFE_OFFSET) :
  CubicWindow w e = cubic w (e / 1000 - climb w) /\
  CubicWindow w e <= CubicWindow w e' /\
  w - w * 30 / 100 <= CubicWindow w e /\
  (e / 1000 <= climb w -> CubicWindow w e <= w) /\
  (e / 1000 = climb w -> CubicWindow w e = w).
Proof.
  destruct (climb_bounds w ltac:(lia)) as [Hc Hcube].
  assert (e / 1000 <= e' / 1000) by zdm. assert (0 <= e / 1000) by zdm.
  rewrite !CubicWindow_formula by lia.
  pose proof (cubic_mono w (e / 1000 - climb w) (e' / 1000 - climb w) ltac:(lia)).
  pose proof (cubic_mono w (- climb w) (e / 1000 - climb w) ltac:(lia)).
  assert (Hstart : w - w * 30 / 100 <= cubic w (- climb w)).
  { unfold cubic. replace (480 * (- climb w * - climb w * - climb w))
      with (- (480 * (climb w * climb w * climb w))) by lia.
    rewrite Z.quot_opp_l by lia.
    assert (Z.quot (480 * (climb w * climb w * climb w)) 1000000000 <= w * 30 / 100); [|lia].
    assert (0 <= climb w * climb w * climb w) by nia.
    apply Z.le_trans with (Z.quot (w * 30 / 100 * 1000000000) 1000000000).
    - apply Z.quot_le_mono; lia.
    - by rewrite Z.quot_mul by lia. }
  assert (0 <= w - w * 30 / 100) by zdm.
  assert (Hzero : cubic w 0 = w) by (unfold cubic; change (Z.quot _ _) with 0; lia).
  rewrite !Z.max_r by lia. split_and!; try lia.
  - intros. pose proof (cubic_mono w (e / 1000 - climb w) 0 ltac:(lia)). lia.
  - intros ->. by rewrite Z.sub_diag.
Qed.

Lemma CubicWindow_shape_witness :
  CubicWindow 12000 1000000 <= CubicWindow 12000 5000000 /\ 8400 <= CubicWindow 12000 1000000.
Proof.
  split; apply (CubicWindow_shape 12000 1000000 5000000); try lia; vm_compute; discriminate.
Defined.

(** The clamp does not do what its comment says.  The product is
    computed in a signed 64-bit integer and the clamp admits offsets up to
    2,000,000 ms, but 480 times the cube of the offset passes [2^63] from
    268,000 ms on: for a window of 12,000 bytes, 270 seconds after the last
    reduction, the mathematical product does not fit, and with two's complement
    wrap-around the curve drops from above nine billion bytes to 0 within a
    second. *)
Theorem CubicWindow_overflow :
  let offset := cubic_offset 12000 270000000 in
  offset < OFFSET_LIMIT /\ 2 ^ 63 <= cBytes * offset * offset * offset /\
  CubicWindow 12000 269000000 > 9 * 10 ^ 9 /\ CubicWindow 12000 270000000 = 0.
Proof. vm_compute. split_and!; done. Qed.

(** Reno's line is exact while it fits. *)
Lemma RenoWindow_formula w elapsed srtt :
  is_u32 w -> is_u64 elapsed -> 1 <= srtt < 2 ^ 32 -> elapsed / srtt < 2 ^ 54 ->
  RenoWindow w elapsed srtt = w * 70 / 100 + elapsed / srtt * 635.
Proof.
  intros Hw He Hs Hr. unfold RenoWindow, CC_LOSS_RETAIN_PERCENT. destruct (Z.eqb_spec srtt 0); [lia|].
  change (u64 (u64 (MAX_WIRE_PACKET_SIZE * 3) * (100 - 70)) / (100 + 70)) with 635.
  assert (0 <= elapsed / srtt) by (apply Z.div_pos; lia).
  rewrite (u64_small (w * 70)), (u64_small (_ * 635)), u64_small; [done|zdm|lia|lia].
Qed.

Lemma CubicWindow_range w elapsed : is_u32 w -> is_u64 (CubicWindow w elapsed).
Proof.
  intros Hw. unfold CubicWindow. cbv zeta. destruct ((cBytes =? 0) || (w =? 0)); [lia|].
  match goal with |- context [if ?b then 0 else _] => destruct b end; [lia|apply u64_range].
Qed.

Lemma RenoWindow_range w elapsed srtt : is_u64 (RenoWindow w elapsed srtt).
Proof. unfold RenoWindow. cbv zeta. destruct (srtt =? 0); [lia|apply u64_range]. Qed.
