(* ===== verification/Congestion.v ===== *)
(** * Congestion control: [flux/peer/congestion.cpp]

    [ApplyCongestion] folds one piece of feedback into a peer: it frees what
    resolved, takes the measurement in, runs the starvation verdict, reacts to an
    unanswered probe, and then takes exactly one of a loss trim, a starved
    regrowth, a slow start step or a step along the curve.  The function is
    translated in the pieces its comments divide it into, and composed in the
    order of the source, early returns included.

    Proved: the budget never leaves its configured range and no field leaves its
    machine width, whatever feedback arrives; one trim per congestion event; what
    each branch does to the budget; and that growth is bounded by what was
    acknowledged. *)

From S2P Require Import Prelude Wire Buckets CommonMath Rtt Delivery Curve.

Definition CC_INITIAL_WINDOW_BYTES : Z := 10 * MAX_WIRE_PACKET_SIZE.
Definition CC_SLOW_START_CONFIRM_ROUNDS : Z := 2.
Definition CC_NOISE_RETAIN_PERCENT : Z := 95.
Definition CC_LOSS_TOLERANCE_PERCENT : Z := 2.
Definition CC_STARVED_BUDGET_BYTES : Z := CC_INITIAL_WINDOW_BYTES.
Definition CC_STARVED_CONFIRM_ROUNDS : Z := 16.
Definition CC_STARVED_CONFIRM_MIN_MICROS : Z := 250000.
Definition CC_STARVED_EXIT_ROUNDS : Z := 8.
Definition CC_STARVED_EXIT_MIN_MICROS : Z := 500000.
Definition CC_STARVED_REENTRY_WINDOW_MICROS : Z := 30000000.
Definition CC_STARVED_CAP_SLACK_DIVISOR : Z := 2.
Definition PERSISTENT_CONGESTION_PROBES : Z := 3.

(** ** Data *)

(** The fields of [Peer] the controller reads and writes. *)
Record CcPeer := mk_cc {
  congestionBudget : Z; bytesInFlight : Z; outstandingToPeer : Z;
  slowStartThreshold : Z; slowStartQueueSinceMicros : Z;
  wMaxBytes : Z; congestionEpochMicros : Z; congestionEpoch : Z;
  starvedCandidateSinceMicros : Z; starvedSinceMicros : Z; starvedClearSinceMicros : Z;
  starvedExitedAtMicros : Z; starvedQueueCapMicros : Z; starvedMinRttMicros : Z;
  starvedEpisodes : Z; rtt : RttEstimate; delivery : DeliveryEstimate }.

#[export] Instance CcPeer_eta : Eta CcPeer := fun p =>
  mk_cc (congestionBudget p) (bytesInFlight p) (outstandingToPeer p) (slowStartThreshold p)
    (slowStartQueueSinceMicros p) (wMaxBytes p) (congestionEpochMicros p) (congestionEpoch p)
    (starvedCandidateSinceMicros p) (starvedSinceMicros p) (starvedClearSinceMicros p)
    (starvedExitedAtMicros p) (starvedQueueCapMicros p) (starvedMinRttMicros p)
    (starvedEpisodes p) (rtt p) (delivery p).

Record CongestionDelta := {
  resolvedBytes : Z; resolvedPackets : Z; ackedBytes : Z; rttSampleMicros : Z;
  ackDelayMicros : Z; sawLoss : bool; lostDeclaredBytes : Z; lostEpoch : Z; sawProbe : bool }.

(** What the socket and its flow table were configured with. *)
Record CcConfig := {
  minCongestionBudget : Z; maxCongestionBudget : Z; RetryIntervalMicros : Z; AckDelayMicros : Z }.

(** ** Operations *)

Definition RampStep (budget acked ceiling : Z) : Z :=
  let step := if acked =? 0 then 1 else acked in
  let grown := u32 (budget + step) in
  let grown := if grown <? budget then UINT32_MAX else grown in
  if ceiling <? grown then ceiling else grown.

Definition StarvedQueueMicros (p : CcPeer) : Z :=
  if starvedMinRttMicros p <? srttMicros (rtt p) then u32 (srttMicros (rtt p) - starvedMinRttMicros p) else 0.

Definition StarvedWorstQueueMicros (p : CcPeer) : Z :=
  let latest := if starvedMinRttMicros p <? latestMicros (rtt p)
                then u32 (latestMicros (rtt p) - starvedMinRttMicros p) else 0 in
  let smoothed := StarvedQueueMicros p in
  if smoothed <? latest then latest else smoothed.

Definition ConfirmWindowMicros (roundTripMicros rounds floorMicros : Z) : Z :=
  let spanned := u64 (rounds * roundTripMicros) in
  if floorMicros <? spanned then spanned else floorMicros.

(** [now > since ? now - since : 0] *)
Definition since_micros (now since : Z) : Z := if since <? now then u64 (now - since) else 0.

(** The condition [AssertBudgetInRange] asserts. *)
Definition AssertBudgetInRange (c : CcConfig) (p : CcPeer) : bool :=
  (minCongestionBudget c <=? congestionBudget p) && (congestionBudget p <=? maxCongestionBudget c).

(** Free what resolved, take the measurement in. *)
Definition cc_fold (p : CcPeer) (d : CongestionDelta) (now : Z) : CcPeer :=
  let p := p <| bytesInFlight := u32 (bytesInFlight p -
                 (if resolvedBytes d <=? bytesInFlight p then resolvedBytes d else bytesInFlight p)) |> in
  let p := p <| outstandingToPeer := u32 (outstandingToPeer p -
                 (if resolvedPackets d <=? outstandingToPeer p then resolvedPackets d else outstandingToPeer p)) |> in
  let p := if negb (rttSampleMicros d =? 0)
           then p <| rtt := (Rtt_Sample (rtt p) (rttSampleMicros d) (ackDelayMicros d) now).2 |> else p in
  let p := if negb (ackedBytes d =? 0) then p <| rtt := MarkAcked (rtt p) now |> else p in
  p <| delivery := Delivery_Sample (delivery p) (ackedBytes d) (lostDeclaredBytes d) now |>.

(** An episode that ended longer than the re-entry window ago is forgotten. *)
Definition cc_forget (p : CcPeer) (now : Z) : CcPeer :=
  if negb (starvedExitedAtMicros p =? 0) &&
     (u64 (starvedExitedAtMicros p + CC_STARVED_REENTRY_WINDOW_MICROS) <? now)
  then p <| starvedExitedAtMicros := 0 |> <| starvedQueueCapMicros := 0 |> <| starvedMinRttMicros := 0 |>
  else p.

(** The queue standing over its target, and the budget pinned under the threshold. *)
Definition cc_starved_now (p : CcPeer) : bool :=
  let pathMinRtt := MinRttMicros (rtt p) in
  let queueOverTarget := negb (pathMinRtt =? 0) && (QueueTargetMicros pathMinRtt <? QueueMicros (rtt p)) in
  queueOverTarget && (congestionBudget p <=? CC_STARVED_BUDGET_BYTES).

(** The starvation verdict: entry. *)
Definition cc_enter (c : CcConfig) (p : CcPeer) (d : CongestionDelta) (now : Z) : CcPeer :=
  let pathMinRtt := MinRttMicros (rtt p) in
  if negb (cc_starved_now p) then p <| starvedCandidateSinceMicros := 0 |>
  else if negb (ackedBytes d =? 0) && negb (starvedExitedAtMicros p =? 0) then
    p <| starvedSinceMicros := now |> <| starvedExitedAtMicros := 0 |> <| starvedClearSinceMicros := 0 |>
      <| starvedCandidateSinceMicros := 0 |> <| starvedEpisodes := u32 (starvedEpisodes p + 1) |>
  else if starvedCandidateSinceMicros p =? 0 then p <| starvedCandidateSinceMicros := now |>
  else if negb (ackedBytes d =? 0) then
    let held := since_micros now (starvedCandidateSinceMicros p) in
    let confirm := ConfirmWindowMicros (RoundTripOr (rtt p) (RetryIntervalMicros c))
                     CC_STARVED_CONFIRM_ROUNDS CC_STARVED_CONFIRM_MIN_MICROS in
    if confirm <=? held then
      p <| starvedSinceMicros := now |>
        <| starvedQueueCapMicros := u32 (QueueMicros (rtt p) + QueueTargetMicros pathMinRtt / CC_STARVED_CAP_SLACK_DIVISOR) |>
        <| starvedMinRttMicros := pathMinRtt |> <| starvedClearSinceMicros := 0 |>
        <| starvedCandidateSinceMicros := 0 |> <| starvedEpisodes := u32 (starvedEpisodes p + 1) |>
    else p
  else p.

Definition cc_verdict (c : CcConfig) (p : CcPeer) (d : CongestionDelta) (now : Z) : CcPeer :=
  if starvedSinceMicros p =? 0 then cc_enter c (cc_forget p now) d now else p.

(** An unanswered probe. *)
Definition cc_probe (c : CcConfig) (p : CcPeer) (d : CongestionDelta) (now : Z) : CcPeer :=
  if sawProbe d && (ackedBytes d =? 0) then
    let base := RetransmitTimeout (rtt p) (RetryIntervalMicros c) (AckDelayMicros c) 0 in
    if u64 (base * PERSISTENT_CONGESTION_PROBES) <? SilentForMicros (rtt p) now then
      let p := if negb (congestionBudget p =? minCongestionBudget c) then
                 p <| congestionBudget := minCongestionBudget c |> <| wMaxBytes := minCongestionBudget c |>
                   <| congestionEpochMicros := now |> <| slowStartQueueSinceMicros := 0 |>
                   <| congestionEpoch := u8 (congestionEpoch p + 1) |>
               else p in
      p <| starvedCandidateSinceMicros := 0 |> <| starvedSinceMicros := 0 |> <| starvedClearSinceMicros := 0 |>
        <| starvedExitedAtMicros := 0 |> <| starvedQueueCapMicros := 0 |> <| starvedMinRttMicros := 0 |>
    else p
  else p.

(** Whether a reported loss belongs to an event not yet answered. *)
Definition cc_fresh_loss (p : CcPeer) (d : CongestionDelta) : bool :=
  sawLoss d && (0 <=? i8 (lostEpoch d - congestionEpoch p)).

(** Whether a loss is read as congestion rather than noise. *)
Definition cc_congested (p : CcPeer) (d : CongestionDelta) (inFlightAtEvent : Z) : bool :=
  let minRtt := MinRttMicros (rtt p) in
  let lost := lostDeclaredBytes d in
  let bigBite := (u64 (lost + ackedBytes d) <=? u64 (lost * 2)) && (3 * MAX_WIRE_PACKET_SIZE <=? lost)
                 && CouldOverflow (delivery p) minRtt inFlightAtEvent in
  let lossAboveTolerance := CC_LOSS_TOLERANCE_PERCENT <? LossPercent (delivery p) in
  let queueStanding :=
    if negb (starvedSinceMicros p =? 0) then starvedQueueCapMicros p <? StarvedWorstQueueMicros p
    else negb (minRtt =? 0) && (QueueTargetMicros minRtt <? QueueMicros (rtt p)) in
  (minRtt =? 0) || queueStanding || (bigBite && lossAboveTolerance).

(** The trim. *)
Definition cc_trim (c : CcConfig) (p : CcPeer) (d : CongestionDelta) (inFlightAtEvent now : Z) : CcPeer :=
  let congested := cc_congested p d inFlightAtEvent in
  let retain := if congested then CC_LOSS_RETAIN_PERCENT else CC_NOISE_RETAIN_PERCENT in
  let budgetAtLoss := congestionBudget p in
  let trimmed := u32 (u64 (congestionBudget p * retain) / 100) in
  let trimmed := if trimmed <? minCongestionBudget c then minCongestionBudget c else trimmed in
  let p := p <| congestionBudget := trimmed |> <| slowStartQueueSinceMicros := 0 |> in
  let p := if congested
           then p <| wMaxBytes := budgetAtLoss |> <| slowStartThreshold := trimmed |> <| congestionEpochMicros := now |>
           else p in
  p <| congestionEpoch := u8 (congestionEpoch p + 1) |>.

(** Recovery from starvation. *)
Definition cc_starved (c : CcConfig) (p : CcPeer) (d : CongestionDelta) (now : Z) : CcPeer :=
  let climb p :=
    if starvedQueueCapMicros p <? StarvedWorstQueueMicros p then p
    else p <| congestionBudget := RampStep (congestionBudget p) (ackedBytes d) (maxCongestionBudget c) |> in
  if StarvedQueueMicros p <=? QueueTargetMicros (starvedMinRttMicros p) then
    if starvedClearSinceMicros p =? 0 then climb (p <| starvedClearSinceMicros := now |>)
    else
      let clearHeld := since_micros now (starvedClearSinceMicros p) in
      let confirm := ConfirmWindowMicros (RoundTripOr (rtt p) (RetryIntervalMicros c))
                       CC_STARVED_EXIT_ROUNDS CC_STARVED_EXIT_MIN_MICROS in
      if confirm <=? clearHeld then
        p <| starvedSinceMicros := 0 |> <| starvedExitedAtMicros := now |> <| starvedClearSinceMicros := 0 |>
          <| slowStartThreshold := congestionBudget p |> <| wMaxBytes := congestionBudget p |>
          <| congestionEpochMicros := now |> <| slowStartQueueSinceMicros := 0 |>
      else climb p
  else climb (p <| starvedClearSinceMicros := 0 |>).

(** The queue readings the growth branches act on. *)
Definition cc_standing (p : CcPeer) (reading : RttEstimate -> Z) : bool :=
  let queueMinRtt := MinRttMicros (rtt p) in
  let signalLive := negb (queueMinRtt =? 0) && (CC_INITIAL_WINDOW_BYTES <=? congestionBudget p) in
  let queueTarget := if signalLive then QueueTargetMicros queueMinRtt else 0 in
  signalLive && (queueTarget <? reading (rtt p)).

Definition cc_slow_start (c : CcConfig) (p : CcPeer) (d : CongestionDelta) (now : Z) : CcPeer :=
  let queueStanding := cc_standing p QueueMicros in
  let latestStanding := cc_standing p LatestQueueMicros in
  let ramp p := p <| congestionBudget := RampStep (congestionBudget p) (ackedBytes d) (maxCongestionBudget c) |> in
  if slowStartQueueSinceMicros p =? 0 then
    if latestStanding then p <| slowStartQueueSinceMicros := now |> else ramp p
  else if negb latestStanding && negb queueStanding then ramp (p <| slowStartQueueSinceMicros := 0 |>)
  else
    let held := since_micros now (slowStartQueueSinceMicros p) in
    let confirm := u64 (CC_SLOW_START_CONFIRM_ROUNDS * RoundTripOr (rtt p) (RetryIntervalMicros c)) in
    if confirm <=? held then
      p <| slowStartThreshold := congestionBudget p |> <| wMaxBytes := congestionBudget p |>
        <| congestionEpochMicros := now |> <| slowStartQueueSinceMicros := 0 |>
    else p.

(** A step along the curve. *)
Definition cc_avoid (c : CcConfig) (p : CcPeer) (now : Z) : CcPeer :=
  if cc_standing p QueueMicros then p
  else
    let p := if congestionEpochMicros p =? 0 then
               let p := p <| congestionEpochMicros := now |> in
               if wMaxBytes p =? 0 then p <| wMaxBytes := congestionBudget p |> else p
             else p in
    let elapsed := since_micros now (congestionEpochMicros p) in
    let cubic := CubicWindow (wMaxBytes p) elapsed in
    let reno := RenoWindow (wMaxBytes p) elapsed (srttMicros (rtt p)) in
    let want := if reno <? cubic then cubic else reno in
    if congestionBudget p <? want then
      let step := u64 (want - congestionBudget p) in
      let capped := if MAX_WIRE_PACKET_SIZE <? step then MAX_WIRE_PACKET_SIZE else step in
      let grown := u32 (congestionBudget p + u32 capped) in
      let grown := if grown <? congestionBudget p then UINT32_MAX else grown in
      let grown := if maxCongestionBudget c <? grown then maxCongestionBudget c else grown in
      p <| congestionBudget := grown |>
    else p.

Definition ApplyCongestion (c : CcConfig) (p : CcPeer) (d : CongestionDelta) (now : Z) : CcPeer :=
  let inFlightAtEvent := bytesInFlight p in
  let p := cc_probe c (cc_verdict c (cc_fold p d now) d now) d now in
  if cc_fresh_loss p d then cc_trim c p d inFlightAtEvent now
  else if ackedBytes d =? 0 then p
  else if negb (starvedSinceMicros p =? 0) then cc_starved c p d now
  else if congestionBudget p <? slowStartThreshold p then cc_slow_start c p d now
  else cc_avoid c p now.

(** ** Well-formedness *)

Record config_ok (c : CcConfig) : Prop := {
  co_min : 1 <= minCongestionBudget c;
  co_max : minCongestionBudget c <= maxCongestionBudget c < 2 ^ 32;
  co_retry : is_u32 (RetryIntervalMicros c);
  co_ack : is_u32 (AckDelayMicros c) }.

Record delta_ok (d : CongestionDelta) : Prop := {
  do_rb : is_u32 (resolvedBytes d); do_rp : is_u32 (resolvedPackets d);
  do_acked : is_u32 (ackedBytes d); do_rtt : is_u32 (rttSampleMicros d);
  do_held : is_u32 (ackDelayMicros d); do_lost : is_u32 (lostDeclaredBytes d);
  do_epoch : is_u8 (lostEpoch d) }.

(** Every counter in its width, every stamp a clock reading. *)
Record cc_widths (p : CcPeer) : Prop := {
  cw_inflight : is_u32 (bytesInFlight p); cw_out : is_u32 (outstandingToPeer p);
  cw_thresh : is_u32 (slowStartThreshold p); cw_ssq : is_u64 (slowStartQueueSinceMicros p);
  cw_wmax : is_u32 (wMaxBytes p); cw_epochat : is_u64 (congestionEpochMicros p);
  cw_epoch : is_u8 (congestionEpoch p); cw_cand : is_u64 (starvedCandidateSinceMicros p);
  cw_since : is_u64 (starvedSinceMicros p); cw_clear : is_u64 (starvedClearSinceMicros p);
  cw_exited : is_u64 (starvedExitedAtMicros p); cw_cap : is_u32 (starvedQueueCapMicros p);
  cw_minrtt : is_u32 (starvedMinRttMicros p); cw_eps : is_u32 (starvedEpisodes p) }.

(** The verdict's bookkeeping: while starved, neither entry clock runs; while
    starved or inside the re-entry window, the frozen references are there. *)
Definition starved_inv (p : CcPeer) : Prop :=
  (starvedSinceMicros p <> 0 -> starvedCandidateSinceMicros p = 0 /\ starvedExitedAtMicros p = 0) /\
  (starvedSinceMicros p <> 0 \/ starvedExitedAtMicros p <> 0 -> starvedMinRttMicros p <> 0).

Record cc_wf (c : CcConfig) (p : CcPeer) : Prop := {
  cf_budget : minCongestionBudget c <= congestionBudget p <= maxCongestionBudget c;
  cf_widths : cc_widths p;
  cf_starved : starved_inv p;
  cf_rtt : rtt_wf (rtt p);
  cf_delivery : delivery_wf (delivery p) }.

(** Splits every test a definition makes. *)
Ltac cc_cases :=
  repeat match goal with |- context [if ?b then _ else _] => destruct b eqn:?; cbn end.

Lemma MinRttMicros_range r : rtt_wf r -> 0 <= MinRttMicros r <= RTT_SAMPLE_MAX_MICROS.
Proof.
  intros Hw. pose proof (rw_buckets r Hw) as HF. unfold MinRttMicros, RTT_SAMPLE_MAX_MICROS.
  enough (forall l a, 0 <= a <= 10000000 -> Forall bucket_ok l -> 0 <= foldl MinRtt_step a l <= 10000000)
    as H by (apply H; [lia|done]).
  clear. intros l. induction l as [|b l IH]; intros a Ha HF; [done|]. cbn [foldl].
  apply Forall_cons in HF as [Hb HF]. unfold bucket_ok, RTT_SAMPLE_MAX_MICROS in Hb.
  apply IH; [|done]. unfold MinRtt_step. destruct (_ && _); lia.
Qed.

Lemma QueueMicros_range r : rtt_wf r -> 0 <= QueueMicros r <= RTT_SAMPLE_MAX_MICROS.
Proof.
  intros Hw. pose proof (MinRttMicros_range r Hw). pose proof (rw_srtt r Hw) as Hs.
  unfold bucket_ok, RTT_SAMPLE_MAX_MICROS in *. unfold QueueMicros.
  destruct (Z.eqb_spec (MinRttMicros r) 0); cbn [orb]; [lia|].
  destruct (Z.leb_spec (srttMicros r) (MinRttMicros r)); [lia|]. rewrite u32_small by lia. lia.
Qed.

Lemma QueueTargetMicros_range m : 0 <= m -> 1000 <= QueueTargetMicros m <= Z.max 1000 m.
Proof.
  intros. unfold QueueTargetMicros, QUEUE_TARGET_DIVISOR, QUEUE_TARGET_MIN_MICROS.
  destruct (Z.ltb_spec (m / 8) 1000); zdm.
Qed.

Lemma Rtt_Sample_wf r x held now :
  rtt_wf r -> is_u32 x -> is_u32 held -> is_u64 now -> rtt_wf (Rtt_Sample r x held now).2.
Proof.
  intros Hw Hx Hh Hn. destruct (accepted x) eqn:E.
  - apply accepted_iff in E; [|lia].
    destruct (Rtt_Sample_accepts r x held now Hw E Hh Hn) as (r'&->&Hs). cbn. by eapply sampled_wf.
  - by rewrite Rtt_Sample_refuses.
Qed.

Lemma MarkAcked_wf r now : rtt_wf r -> is_u64 now -> rtt_wf (MarkAcked r now).
Proof. intros [] ?. by split. Qed.

Section Preservation.
Context (c : CcConfig) (Hc : config_ok c).
Context (d : CongestionDelta) (Hd : delta_ok d).
Context (now : Z) (Hnow : 0 < now < 2 ^ 64).
Implicit Types p : CcPeer.

Lemma cc_fold_wf p : cc_wf c p -> cc_wf c (cc_fold p d now).
Proof using Hd Hnow.
  intros [Hb [] Hs Hr Hdl]. unfold cc_fold.
  assert (Hr' : rtt_wf (Rtt_Sample (rtt p) (rttSampleMicros d) (ackDelayMicros d) now).2)
    by (apply Rtt_Sample_wf; [done|apply Hd|apply Hd|lia]).
  assert (Hnow' : is_u64 now) by lia.
  destruct (rttSampleMicros d =? 0), (ackedBytes d =? 0); cbn;
    (split; [exact Hb|split; cbn; auto using u32_range|exact Hs|cbn; auto using MarkAcked_wf|by apply Delivery_Sample_wf]).
Qed.

Lemma starved_inv_reset p : starvedSinceMicros p = 0 -> starvedExitedAtMicros p = 0 -> starved_inv p.
Proof. unfold starved_inv. intros -> ->. split; [done|intros [?|?]; done]. Qed.

Lemma cc_forget_wf p : starvedSinceMicros p = 0 -> cc_wf c p -> cc_wf c (cc_forget p now).
Proof using.
  intros H0 [Hb [] Hs Hr Hdl]. unfold cc_forget. destruct (_ && _); [|by split].
  split; [exact Hb|split; cbn; auto; lia|by apply starved_inv_reset|exact Hr|exact Hdl].
Qed.

Lemma cc_enter_wf p : starvedSinceMicros p = 0 -> cc_wf c p -> cc_wf c (cc_enter c p d now).
Proof using Hd Hnow.
  intros H0 [Hb [] Hs Hr Hdl]. pose proof (MinRttMicros_range _ Hr) as Hm. unfold RTT_SAMPLE_MAX_MICROS in Hm.
  unfold cc_enter, cc_starved_now, starved_inv in *. cbv zeta.
  cc_cases; bprop; (split; [exact Hb|split; cbn; auto using u32_range; lia| |exact Hr|exact Hdl]);
  unfold starved_inv; cbn; lia.
Qed.

Lemma cc_verdict_wf p : cc_wf c p -> cc_wf c (cc_verdict c p d now).
Proof using Hd Hnow.
  intros Hw. unfold cc_verdict. destruct (Z.eqb_spec (starvedSinceMicros p) 0); [|done].
  apply cc_enter_wf; [|by apply cc_forget_wf]. unfold cc_forget. by destruct (_ && _).
Qed.

Lemma cc_probe_wf p : cc_wf c p -> cc_wf c (cc_probe c p d now).
Proof using Hc Hd Hnow.
  intros [Hb [] Hs Hr Hdl]. destruct Hc. unfold cc_probe. cbv zeta. cc_cases; try by split.
  all: (split; [cbn; lia|split; cbn; auto using u8_range; lia|by apply starved_inv_reset|exact Hr|exact Hdl]).
Qed.

Lemma trim_bounds b retain :
  0 <= b < 2 ^ 32 -> 0 <= retain <= 100 -> u32 (u64 (b * retain) / 100) = b * retain / 100 /\ 0 <= b * retain / 100 <= b.
Proof using.
  intros. assert (0 <= b * retain <= b * 100) by nia. assert (0 <= b * retain / 100 <= b) by zdm.
  rewrite u64_small, u32_small by lia. lia.
Qed.

(** The share a loss leaves. *)
Definition retained (p : CcPeer) (inFlight : Z) : Z :=
  if cc_congested p d inFlight then CC_LOSS_RETAIN_PERCENT else CC_NOISE_RETAIN_PERCENT.

Lemma cc_trim_budget p inFlight :
  cc_wf c p ->
  congestionBudget (cc_trim c p d inFlight now) =
  Z.max (minCongestionBudget c) (congestionBudget p * retained p inFlight / 100) /\
  congestionBudget p * retained p inFlight / 100 <= congestionBudget p.
Proof using Hc.
  intros [Hb _ _ _ _]. destruct Hc. unfold cc_trim. cbv zeta. fold (retained p inFlight).
  destruct (trim_bounds (congestionBudget p) (retained p inFlight)) as [-> ?]; [lia| |].
  { unfold retained, CC_LOSS_RETAIN_PERCENT, CC_NOISE_RETAIN_PERCENT. destruct (cc_congested p d inFlight); lia. }
  split; [|lia]. destruct (cc_congested p d inFlight); cbn; zcases.
Qed.

Lemma cc_trim_wf p inFlight : cc_wf c p -> cc_wf c (cc_trim c p d inFlight now).
Proof using Hc Hnow.
  intros Hw. destruct (cc_trim_budget p inFlight Hw) as [Hbud Hle]. destruct Hw as [Hb [] Hs Hr Hdl]. destruct Hc.
  unfold retained in *. unfold cc_trim in *. cbv zeta in *.
  destruct (cc_congested p d inFlight); cbn in Hbud |- *;
    (split; [cbn; lia|split; cbn; auto using u8_range; lia|exact Hs|exact Hr|exact Hdl]).
Qed.

Lemma RampStep_spec b acked :
  0 <= b <= maxCongestionBudget c -> is_u32 acked ->
  RampStep b acked (maxCongestionBudget c) = Z.min (maxCongestionBudget c) (b + Z.max 1 acked).
Proof using Hc.
  intros Hb Ha. destruct Hc. unfold RampStep. cbv zeta.
  assert ((if acked =? 0 then 1 else acked) = Z.max 1 acked) as -> by zcases.
  unfold UINT32_MAX. destruct (Z.lt_ge_cases (b + Z.max 1 acked) (2 ^ 32)).
  - rewrite u32_small by lia. zcases.
  - assert (u32 (b + Z.max 1 acked) = b + Z.max 1 acked - 2 ^ 32) as ->.
    { unfold u32. rewrite <- (Z_mod_plus_full _ (-1)), Z.mod_small by lia. lia. }
    zcases.
Qed.

Lemma cc_set_budget_wf p b :
  cc_wf c p -> minCongestionBudget c <= b <= maxCongestionBudget c -> cc_wf c (p <| congestionBudget := b |>).
Proof using. intros [Hb [] Hs Hr Hdl] ?. by split. Qed.

Lemma ramp_wf p :
  cc_wf c p -> cc_wf c (p <| congestionBudget := RampStep (congestionBudget p) (ackedBytes d) (maxCongestionBudget c) |>).
Proof using Hc Hd.
  intros Hw. apply cc_set_budget_wf; [done|]. pose proof (cf_budget c p Hw). destruct Hc, Hd.
  rewrite RampStep_spec by lia. lia.
Qed.

Lemma cc_starved_wf p :
  starvedSinceMicros p <> 0 -> cc_wf c p -> cc_wf c (cc_starved c p d now).
Proof using Hc Hd Hnow.
  intros Hsince Hw. unfold cc_starved. cbv zeta.
  assert (Hset : forall x, is_u64 x -> cc_wf c (p <| starvedClearSinceMicros := x |>)).
  { intros x Hx. destruct Hw as [Hb [] Hs Hr Hdl]. by split. }
  pose proof (Hset now ltac:(lia)) as W1. pose proof (Hset 0 ltac:(lia)) as W0.
  pose proof (ramp_wf _ Hw) as R. pose proof (ramp_wf _ W1) as R1. pose proof (ramp_wf _ W0) as R0.
  cc_cases; try assumption.
  destruct Hw as [Hb [] Hs Hr Hdl]. unfold starved_inv in Hs. destruct Hc.
  split; [exact Hb|split; cbn; auto; lia| |exact Hr|exact Hdl]. unfold starved_inv. cbn. lia.
Qed.

Lemma cc_slow_start_wf p : cc_wf c p -> cc_wf c (cc_slow_start c p d now).
Proof using Hc Hd Hnow.
  intros Hw. unfold cc_slow_start. cbv zeta.
  assert (Hset : forall x, is_u64 x -> cc_wf c (p <| slowStartQueueSinceMicros := x |>)).
  { intros x Hx. destruct Hw as [Hb [] Hs Hr Hdl]. by split. }
  pose proof (Hset now ltac:(lia)) as W1. pose proof (Hset 0 ltac:(lia)) as W0.
  pose proof (ramp_wf _ Hw) as R. pose proof (ramp_wf _ W0) as R0.
  cc_cases; try assumption.
  destruct Hw as [Hb [] Hs Hr Hdl]. destruct Hc.
  split; [exact Hb|split; cbn; auto; lia|exact Hs|exact Hr|exact Hdl].
Qed.

(** The curve's anchor, taken when there is none. *)
Definition anchored (p : CcPeer) : CcPeer :=
  if congestionEpochMicros p =? 0 then
    let p := p <| congestionEpochMicros := now |> in
    if wMaxBytes p =? 0 then p <| wMaxBytes := congestionBudget p |> else p
  else p.

Lemma anchored_wf p : cc_wf c p -> cc_wf c (anchored p) /\ congestionBudget (anchored p) = congestionBudget p.
Proof using Hc Hnow.
  intros [Hb [] Hs Hr Hdl]. destruct Hc. unfold anchored. cbv zeta.
  cc_cases; (split; [|done]; split; [exact Hb|split; cbn; auto; lia|exact Hs|exact Hr|exact Hdl]).
Qed.

(** A step of at most one packet, capped. *)
Definition curve_step (b want : Z) : Z :=
  if b <? want then
    let step := u64 (want - b) in
    let capped := if MAX_WIRE_PACKET_SIZE <? step then MAX_WIRE_PACKET_SIZE else step in
    let grown := u32 (b + u32 capped) in
    let grown := if grown <? b then UINT32_MAX else grown in
    if maxCongestionBudget c <? grown then maxCongestionBudget c else grown
  else b.

Lemma curve_step_spec b want :
  0 <= b <= maxCongestionBudget c -> is_u64 want ->
  curve_step b want = Z.max b (Z.min (maxCongestionBudget c) (Z.min want (b + MAX_WIRE_PACKET_SIZE))).
Proof using Hc.
  intros Hb Hw. destruct Hc. unfold curve_step, MAX_WIRE_PACKET_SIZE, UINT32_MAX. cbv zeta.
  destruct (Z.ltb_spec b want); [|lia]. rewrite u64_small by lia.
  assert ((if 1200 <? want - b then 1200 else want - b) = Z.min 1200 (want - b)) as -> by zcases.
  rewrite (u32_small (Z.min 1200 (want - b))) by lia.
  destruct (Z.lt_ge_cases (b + Z.min 1200 (want - b)) (2 ^ 32)).
  - rewrite u32_small by lia. zcases.
  - assert (u32 (b + Z.min 1200 (want - b)) = b + Z.min 1200 (want - b) - 2 ^ 32) as ->.
    { unfold u32. rewrite <- (Z_mod_plus_full _ (-1)), Z.mod_small by lia. lia. }
    zcases.
Qed.

(** Where the curve wants the budget. *)
Definition curve_want (p : CcPeer) : Z :=
  let elapsed := since_micros now (congestionEpochMicros p) in
  Z.max (CubicWindow (wMaxBytes p) elapsed) (RenoWindow (wMaxBytes p) elapsed (srttMicros (rtt p))).

Lemma curve_want_u64 p : cc_wf c p -> is_u64 (curve_want p).
Proof using.
  intros [_ HW _ _ _]. unfold curve_want. cbv zeta.
  pose proof (CubicWindow_range (wMaxBytes p) (since_micros now (congestionEpochMicros p)) (cw_wmax p HW)).
  pose proof (RenoWindow_range (wMaxBytes p) (since_micros now (congestionEpochMicros p)) (srttMicros (rtt p))). lia.
Qed.

Lemma cc_avoid_closed p :
  cc_avoid c p now =
  if cc_standing p QueueMicros then p
  else let p := anchored p in
       if congestionBudget p <? curve_want p
       then p <| congestionBudget := curve_step (congestionBudget p) (curve_want p) |> else p.
Proof using.
  unfold cc_avoid. destruct (cc_standing p QueueMicros); [done|]. cbv zeta.
  fold (anchored p). set (q := anchored p).
  assert ((let e := since_micros now (congestionEpochMicros q) in
           if RenoWindow (wMaxBytes q) e (srttMicros (rtt q)) <? CubicWindow (wMaxBytes q) e
           then CubicWindow (wMaxBytes q) e else RenoWindow (wMaxBytes q) e (srttMicros (rtt q))) = curve_want q) as E.
  { unfold curve_want. cbv zeta. zcases. }
  cbv zeta in E. rewrite E. unfold curve_step. destruct (congestionBudget q <? curve_want q); done.
Qed.

Lemma cc_avoid_wf p : cc_wf c p -> cc_wf c (cc_avoid c p now).
Proof using Hc Hnow.
  intros Hw. rewrite cc_avoid_closed. destruct (cc_standing p QueueMicros); [done|]. cbv zeta.
  destruct (anchored_wf p Hw) as [Hq Eq]. destruct (_ <? _); [|done].
  apply cc_set_budget_wf; [done|]. pose proof (cf_budget c _ Hq). pose proof (curve_want_u64 _ Hq). destruct Hc.
  rewrite curve_step_spec by lia. lia.
Qed.

(** Before the branch is chosen. *)
Definition cc_pre (p : CcPeer) : CcPeer := cc_probe c (cc_verdict c (cc_fold p d now) d now) d now.

Lemma cc_pre_wf p : cc_wf c p -> cc_wf c (cc_pre p).
Proof using Hc Hd Hnow. intros. by apply cc_probe_wf, cc_verdict_wf, cc_fold_wf. Qed.

Lemma ApplyCongestion_wf p : cc_wf c p -> cc_wf c (ApplyCongestion c p d now).
Proof using Hc Hd Hnow.
  intros Hw%cc_pre_wf. unfold ApplyCongestion. fold (cc_pre p). cbv zeta.
  destruct (cc_fresh_loss (cc_pre p) d); [by apply cc_trim_wf|].
  destruct (ackedBytes d =? 0); [done|].
  destruct (Z.eqb_spec (starvedSinceMicros (cc_pre p)) 0); cbn [negb]; [|by apply cc_starved_wf].
  destruct (_ <? _); [by apply cc_slow_start_wf|by apply cc_avoid_wf].
Qed.
End Preservation.

(** ** What one piece of feedback does *)

Definition cc_run (c : CcConfig) (p : CcPeer) (fs : list (CongestionDelta * Z)) : CcPeer :=
  foldl (fun p '(d, now) => ApplyCongestion c p d now) p fs.

(** (C37) Whatever feedback arrives, in any order and however long, the
    budget stays inside its configured range, so the assertion on every path out
    of [ApplyCongestion] holds; every counter stays in its width, the estimates
    stay well formed, and the frozen starvation references are present whenever
    they are used. *)
Theorem ApplyCongestion_invariant (c : CcConfig) (p : CcPeer) (fs : list (CongestionDelta * Z))
  (Hc : config_ok c) (Hp : cc_wf c p)
  (Hfs : Forall (fun '(d, now) => delta_ok d /\ 0 < now < 2 ^ 64) fs) :
  cc_wf c (cc_run c p fs) /\ AssertBudgetInRange c (cc_run c p fs) = true.
Proof.
  assert (Hw : cc_wf c (cc_run c p fs)).
  { revert p Hp. induction Hfs as [|[d now] fs [Hd Hn] _ IH]; intros p Hp; [done|].
    apply IH. by apply ApplyCongestion_wf. }
  split; [done|]. destruct Hw as [Hb _ _ _ _]. unfold AssertBudgetInRange.
  apply andb_true_iff. rewrite !Z.leb_le. lia.
Qed.

Section Branches.
Context (c : CcConfig) (Hc : config_ok c).
Context (d : CongestionDelta) (Hd : delta_ok d).
Context (now : Z) (Hnow : 0 < now < 2 ^ 64).
Implicit Types p : CcPeer.

Abbreviation pre := (cc_pre c d now).

Lemma cc_fold_budget p :
  congestionBudget (cc_fold p d now) = congestionBudget p /\
  congestionEpoch (cc_fold p d now) = congestionEpoch p.
Proof using. unfold cc_fold. destruct (rttSampleMicros d =? 0), (ackedBytes d =? 0); done. Qed.

Lemma cc_verdict_budget p :
  congestionBudget (cc_verdict c p d now) = congestionBudget p /\
  congestionEpoch (cc_verdict c p d now) = congestionEpoch p.
Proof using. unfold cc_verdict, cc_enter, cc_forget. cbv zeta. cc_cases; done. Qed.

(** The budget moves before the branch only when the path has gone silent. *)
Lemma cc_pre_budget p :
  (congestionBudget (pre p) = congestionBudget p /\ congestionEpoch (pre p) = congestionEpoch p) \/
  (sawProbe d = true /\ ackedBytes d = 0 /\ congestionBudget (pre p) = minCongestionBudget c /\
   congestionEpoch (pre p) = u8 (congestionEpoch p + 1)).
Proof using.
  unfold cc_pre. set (q := cc_verdict c (cc_fold p d now) d now).
  assert (congestionBudget q = congestionBudget p /\ congestionEpoch q = congestionEpoch p) as [<- <-].
  { destruct (cc_verdict_budget (cc_fold p d now)), (cc_fold_budget p). subst q. split; congruence. }
  unfold cc_probe. cbv zeta. cc_cases; bprop; auto.
Qed.

Lemma cc_slow_start_budget p :
  cc_wf c p ->
  congestionBudget p <= congestionBudget (cc_slow_start c p d now) <= congestionBudget p + Z.max 1 (ackedBytes d).
Proof using Hc Hd.
  intros Hw. pose proof (cf_budget c p Hw). destruct Hc, Hd. unfold cc_slow_start. cbv zeta.
  cc_cases; rewrite ?RampStep_spec by done || lia; lia.
Qed.

Lemma cc_starved_budget p :
  cc_wf c p ->
  congestionBudget p <= congestionBudget (cc_starved c p d now) <= congestionBudget p + Z.max 1 (ackedBytes d).
Proof using Hc Hd.
  intros Hw. pose proof (cf_budget c p Hw). destruct Hc, Hd. unfold cc_starved. cbv zeta.
  cc_cases; rewrite ?RampStep_spec by done || lia; lia.
Qed.

Lemma cc_avoid_budget p :
  cc_wf c p ->
  congestionBudget p <= congestionBudget (cc_avoid c p now) <= congestionBudget p + MAX_WIRE_PACKET_SIZE.
Proof using Hc Hnow.
  intros Hw. rewrite cc_avoid_closed. unfold MAX_WIRE_PACKET_SIZE.
  destruct (cc_standing p QueueMicros); [lia|]. cbv zeta.
  destruct (anchored_wf c Hc now Hnow p Hw) as [Hq <-].
  pose proof (cf_budget c _ Hq). pose proof (curve_want_u64 c now _ Hq). destruct Hc.
  destruct (_ <? _); [|lia]. cbn.
  rewrite curve_step_spec by done || lia. unfold MAX_WIRE_PACKET_SIZE. lia.
Qed.

Lemma ApplyCongestion_branches p :
  cc_wf c p ->
  let p' := ApplyCongestion c p d now in
  if cc_fresh_loss (pre p) d then
    p' = cc_trim c (pre p) d (bytesInFlight p) now /\
    congestionBudget p' = Z.max (minCongestionBudget c)
      (congestionBudget (pre p) * retained d (pre p) (bytesInFlight p) / 100)
  else if ackedBytes d =? 0 then p' = pre p
  else congestionBudget p <= congestionBudget p' <= congestionBudget p + Z.max MAX_WIRE_PACKET_SIZE (ackedBytes d).
Proof using Hc Hd Hnow.
  intros Hw. cbv zeta. unfold ApplyCongestion. fold (cc_pre c d now p). cbv zeta.
  pose proof (cc_pre_wf c Hc d Hd now Hnow p Hw) as Hp.
  destruct (cc_fresh_loss (pre p) d).
  { split; [done|]. by apply cc_trim_budget. }
  destruct (Z.eqb_spec (ackedBytes d) 0); [done|].
  assert (Hbud : congestionBudget (pre p) = congestionBudget p) by (destruct (cc_pre_budget p) as [[? _]|(_&?&_)]; done).
  destruct Hd. rewrite <- Hbud. unfold MAX_WIRE_PACKET_SIZE in *.
  destruct (starvedSinceMicros (pre p) =? 0); cbn [negb].
  - destruct (_ <? _); [pose proof (cc_slow_start_budget _ Hp)|pose proof (cc_avoid_budget _ Hp) as H];
      unfold MAX_WIRE_PACKET_SIZE in *; lia.
  - pose proof (cc_starved_budget _ Hp). lia.
Qed.
End Branches.

(** *** A concrete peer *)

Definition sample_config : CcConfig :=
  {| minCongestionBudget := 2400; maxCongestionBudget := 16000000;
     RetryIntervalMicros := 200000; AckDelayMicros := 25000 |}.
Definition sample_peer : CcPeer :=
  mk_cc 12000 6000 5 (2 ^ 32 - 1) 0 0 0 0 0 0 0 0 0 0 0 Rtt_Reset Delivery_Reset.
Definition sample_ack : CongestionDelta :=
  {| resolvedBytes := 2400; resolvedPackets := 2; ackedBytes := 2400; rttSampleMicros := 40000;
     ackDelayMicros := 500; sawLoss := false; lostDeclaredBytes := 0; lostEpoch := 0; sawProbe := false |}.
Definition sample_loss : CongestionDelta :=
  {| resolvedBytes := 1200; resolvedPackets := 1; ackedBytes := 1200; rttSampleMicros := 41000;
     ackDelayMicros := 500; sawLoss := true; lostDeclaredBytes := 1200; lostEpoch := 0; sawProbe := false |}.

Lemma sample_config_ok : config_ok sample_config.
Proof. split; simpl; lia. Qed.
Lemma sample_peer_wf : cc_wf sample_config sample_peer.
Proof.
  split; [simpl; lia|split; simpl; lia|by apply starved_inv_reset|apply Rtt_Reset_wf|apply Delivery_Reset_wf].
Qed.
Lemma sample_ack_ok : delta_ok sample_ack.
Proof. split; simpl; lia. Qed.
Lemma sample_loss_ok : delta_ok sample_loss.
Proof. split; simpl; lia. Qed.

Lemma ApplyCongestion_invariant_witness :
  AssertBudgetInRange sample_config
    (cc_run sample_config sample_peer [(sample_ack, 1000000); (sample_loss, 1040000); (sample_ack, 1080000)]) = true.
Proof.
  apply (ApplyCongestion_invariant sample_config sample_peer
    [(sample_ack, 1000000); (sample_loss, 1040000); (sample_ack, 1080000)] sample_config_ok sample_peer_wf).
  repeat constructor; simpl; lia.
Defined.

(** What one piece of feedback may do to the budget.  A loss from an
    event not yet answered leaves exactly 70 percent of it, or 95 when the loss is
    read as noise, never under the floor.  Feedback that acknowledges nothing and
    is no fresh loss never raises it.  Anything else never lowers it and raises it
    by at most the larger of one packet and the acknowledged bytes. *)
Theorem ApplyCongestion_budget (c : CcConfig) (d : CongestionDelta) (now : Z) (p : CcPeer)
  (Hc : config_ok c) (Hd : delta_ok d) (Hnow : 0 < now < 2 ^ 64) (Hp : cc_wf c p) :
  let p' := ApplyCongestion c p d now in
  let q := cc_pre c d now p in
  (cc_fresh_loss q d = true ->
     congestionBudget p' = Z.max (minCongestionBudget c)
       (congestionBudget q * (if cc_congested q d (bytesInFlight p) then 70 else 95) / 100) /\
     congestionBudget p' <= congestionBudget p) /\
  (cc_fresh_loss q d = false -> ackedBytes d = 0 -> congestionBudget p' <= congestionBudget p) /\
  (cc_fresh_loss q d = false -> ackedBytes d <> 0 ->
     congestionBudget p <= congestionBudget p' <= congestionBudget p + Z.max 1200 (ackedBytes d)).
Proof.
  cbv zeta. pose proof (ApplyCongestion_branches c Hc d Hd now Hnow p Hp) as Hbr. cbv zeta in Hbr.
  pose proof (cf_budget c p Hp). pose proof (cc_pre_wf c Hc d Hd now Hnow p Hp) as Hq.
  assert (congestionBudget (cc_pre c d now p) <= congestionBudget p)
    by (destruct (cc_pre_budget c d now p) as [[-> _]|(_&_&->&_)]; lia).
  split_and!.
  - intros Hf. rewrite Hf in Hbr. destruct Hbr as [_ ->].
    destruct (cc_trim_budget c Hc d now (cc_pre c d now p) (bytesInFlight p) Hq) as [_ Hle].
    unfold retained, CC_LOSS_RETAIN_PERCENT, CC_NOISE_RETAIN_PERCENT in *.
    split; [done|]. lia.
  - intros Hf Ha. rewrite Hf in Hbr. rewrite Ha in Hbr. simpl in Hbr. rewrite Hbr. done.
  - intros Hf Ha. rewrite Hf in Hbr. apply Z.eqb_neq in Ha. by rewrite Ha in Hbr.
Qed.

Lemma ApplyCongestion_budget_witness :
  congestionBudget (ApplyCongestion sample_config sample_peer sample_loss 1000000) = 11400 /\
  congestionBudget (ApplyCongestion sample_config sample_peer sample_loss 1000000) <= 12000.
Proof.
  split; [vm_compute; reflexivity|].
  apply (proj1 (ApplyCongestion_budget sample_config sample_loss 1000000 sample_peer
    sample_config_ok sample_loss_ok ltac:(lia) sample_peer_wf)). vm_compute. reflexivity.
Defined.

Lemma i8_past e k : 1 <= k <= 128 -> i8 (u8 (e - k) - u8 e) < 0.
Proof.
  intros Hk. unfold i8, signed, u8. rewrite <- Zminus_mod. replace (e - k - e) with (- k) by lia.
  rewrite <- (Z_mod_plus_full (- k) 1), Z.mod_small by lia. change (2 ^ (8 - 1)) with 128.
  destruct (Z.ltb_spec (- k + 1 * 2 ^ 8) 128); lia.
Qed.

(** A packet sent before the reaction carries an epoch that is no longer fresh. *)
Lemma stale_not_fresh p d e k :
  congestionEpoch p = u8 e -> lostEpoch d = u8 (e - k) -> 1 <= k <= 128 -> cc_fresh_loss p d = false.
Proof.
  intros He Hl Hk. unfold cc_fresh_loss. rewrite He, Hl.
  pose proof (i8_past e k Hk). apply andb_false_iff. right. apply Z.leb_gt. lia.
Qed.

(** One trim per congestion event.  Once a loss has been answered,
    every further loss among the packets sent up to that moment, those stamped
    with the epoch in force then or any of the 126 before it, is the same event:
    feedback reporting it never lowers the budget, whatever else it carries, as
    long as it is not the probe that declares the path dead. *)
Theorem one_trim_per_event (c : CcConfig) (p : CcPeer) (d d' : CongestionDelta) (now now' k : Z)
  (Hc : config_ok c) (Hd : delta_ok d) (Hd' : delta_ok d')
  (Hnow : 0 < now < 2 ^ 64) (Hnow' : 0 < now' < 2 ^ 64) (Hp : cc_wf c p)
  (Hfresh : cc_fresh_loss (cc_pre c d now p) d = true)
  (Hk : 0 <= k <= 126) (Hstamp : lostEpoch d' = u8 (congestionEpoch (cc_pre c d now p) - k))
  (Hprobe : sawProbe d' = false) :
  congestionBudget (ApplyCongestion c p d now) <=
  congestionBudget (ApplyCongestion c (ApplyCongestion c p d now) d' now').
Proof.
  set (p1 := ApplyCongestion c p d now).
  assert (Hw1 : cc_wf c p1) by by apply ApplyCongestion_wf.
  assert (He1 : congestionEpoch p1 = u8 (congestionEpoch (cc_pre c d now p) + 1)).
  { pose proof (ApplyCongestion_branches c Hc d Hd now Hnow p Hp) as Hbr. cbv zeta in Hbr.
    rewrite Hfresh in Hbr. subst p1. rewrite (proj1 Hbr). unfold cc_trim. cbv zeta.
    by destruct (cc_congested _ _ _). }
  destruct (cc_pre_budget c d' now' p1) as [[Hb He]|(?&_)]; [|congruence].
  pose proof (ApplyCongestion_branches c Hc d' Hd' now' Hnow' p1 Hw1) as Hbr. cbv zeta in Hbr.
  assert (Hs : cc_fresh_loss (cc_pre c d' now' p1) d' = false).
  { eapply (stale_not_fresh _ _ (congestionEpoch (cc_pre c d now p) + 1) (k + 1)); [congruence| |lia].
    rewrite Hstamp. f_equal. lia. }
  rewrite Hs in Hbr. destruct (ackedBytes d' =? 0); [|lia]. rewrite Hbr. lia.
Qed.

Lemma one_trim_per_event_witness :
  congestionBudget (ApplyCongestion sample_config sample_peer sample_loss 1000000) <=
  congestionBudget (ApplyCongestion sample_config
    (ApplyCongestion sample_config sample_peer sample_loss 1000000) sample_loss 1000400).
Proof.
  apply (one_trim_per_event sample_config sample_peer sample_loss sample_loss 1000000 1000400 0
    sample_config_ok sample_loss_ok sample_loss_ok ltac:(lia) ltac:(lia) sample_peer_wf);
  try lia; vm_compute; reflexivity.
Defined.

(** ** The queue decides whether to climb at all *)

Definition over_target (r : RttEstimate) (reading : RttEstimate -> Z) : Prop :=
  MinRttMicros r <> 0 /\ QueueTargetMicros (MinRttMicros r) < reading r.

Lemma cc_standing_iff p reading :
  CC_INITIAL_WINDOW_BYTES <= congestionBudget p -> over_target (rtt p) reading -> cc_standing p reading = true.
Proof.
  intros Hb [Hm Hq]. unfold cc_standing. cbv zeta.
  apply Z.eqb_neq in Hm. rewrite Hm. apply Z.leb_le in Hb. rewrite Hb. by apply Z.ltb_lt.
Qed.

Lemma cc_verdict_rtt c d now p : rtt (cc_verdict c p d now) = rtt p.
Proof.
  unfold cc_verdict. destruct (starvedSinceMicros p =? 0); [|done]. transitivity (rtt (cc_forget p now)).
  - generalize (cc_forget p now) as q. intros q. unfold cc_enter. cbv zeta.
    repeat (match goal with |- context [if ?b then _ else _] => destruct b end; try done).
  - unfold cc_forget. by destruct (_ && _).
Qed.

Lemma cc_pre_rtt c d now p : rtt (cc_pre c d now p) = rtt (cc_fold p d now).
Proof.
  unfold cc_pre. rewrite <- (cc_verdict_rtt c d now (cc_fold p d now)). generalize (cc_verdict c (cc_fold p d now) d now) as q.
  intros q. unfold cc_probe. cbv zeta. destruct (_ && _); [|done]. destruct (_ <? _); [|done].
  by destruct (negb (congestionBudget q =? minCongestionBudget c)).
Qed.

(** The governor.  At or above the opening window, outside the
    starvation verdict, a path whose newest and smoothed round trips both stand
    over the queue target never grows the budget: not along the curve, and not in
    slow start, where the ramp holds flat. *)
Theorem queue_stops_growth (c : CcConfig) (d : CongestionDelta) (now : Z) (p : CcPeer)
  (Hc : config_ok c) (Hd : delta_ok d) (Hnow : 0 < now < 2 ^ 64) (Hp : cc_wf c p)
  (Hbud : CC_INITIAL_WINDOW_BYTES <= congestionBudget p)
  (Hstarved : starvedSinceMicros (cc_pre c d now p) = 0)
  (Hsmooth : over_target (rtt (cc_fold p d now)) QueueMicros)
  (Hlatest : over_target (rtt (cc_fold p d now)) LatestQueueMicros) :
  congestionBudget (ApplyCongestion c p d now) <= congestionBudget p.
Proof.
  pose proof (ApplyCongestion_branches c Hc d Hd now Hnow p Hp) as Hbr. cbv zeta in Hbr.
  pose proof (cc_pre_wf c Hc d Hd now Hnow p Hp) as Hq. pose proof (cf_budget c p Hp).
  assert (Hle : congestionBudget (cc_pre c d now p) <= congestionBudget p /\
                (ackedBytes d <> 0 -> congestionBudget (cc_pre c d now p) = congestionBudget p)).
  { destruct (cc_pre_budget c d now p) as [[-> _]|(_&?&->&_)]; [done|]. split; [lia|congruence]. }
  destruct (cc_fresh_loss (cc_pre c d now p) d) eqn:Hf.
  { destruct Hbr as [-> _].
    destruct (cc_trim_budget c Hc d now _ (bytesInFlight p) Hq) as [-> ?]. lia. }
  destruct (Z.eqb_spec (ackedBytes d) 0) as [|Ha]; [rewrite Hbr; lia|].
  destruct Hle as [_ Hle]. specialize (Hle Ha).
  unfold ApplyCongestion. fold (cc_pre c d now p). cbv zeta. rewrite Hf, (proj2 (Z.eqb_neq _ _) Ha), Hstarved.
  cbn [negb Z.eqb]. rewrite <- (cc_pre_rtt c) in Hsmooth, Hlatest. rewrite <- Hle in Hbud.
  pose proof (cc_standing_iff _ _ Hbud Hsmooth) as S1. pose proof (cc_standing_iff _ _ Hbud Hlatest) as S2.
  destruct (_ <? _).
  - unfold cc_slow_start. cbv zeta. rewrite S1, S2. cbn [negb andb]. cc_cases; lia.
  - rewrite cc_avoid_closed, S1. lia.
Qed.

Definition queued_peer : CcPeer :=
  sample_peer <| rtt := (rtt_run [ {| s_rtt := 20000; s_held := 0; s_now := 500000 |};
                                   {| s_rtt := 60000; s_held := 0; s_now := 700000 |};
                                   {| s_rtt := 60000; s_held := 0; s_now := 800000 |} ]) |>.
Definition queued_ack : CongestionDelta :=
  {| resolvedBytes := 2400; resolvedPackets := 2; ackedBytes := 2400; rttSampleMicros := 60000;
     ackDelayMicros := 500; sawLoss := false; lostDeclaredBytes := 0; lostEpoch := 0; sawProbe := false |}.

Lemma queued_peer_wf : cc_wf sample_config queued_peer.
Proof.
  destruct sample_peer_wf as [Hb [] Hs Hr Hdl].
  split; [exact Hb|by split|exact Hs|apply rtt_run_wf; repeat constructor; simpl; lia|exact Hdl].
Qed.

Lemma queue_stops_growth_witness :
  congestionBudget (ApplyCongestion sample_config queued_peer queued_ack 1000000) <= 12000.
Proof.
  apply (queue_stops_growth sample_config queued_ack 1000000 queued_peer sample_config_ok
    ltac:(split; simpl; lia) ltac:(lia) queued_peer_wf); [simpl; unfold CC_INITIAL_WINDOW_BYTES, MAX_WIRE_PACKET_SIZE; lia|vm_compute; reflexivity| |];
  (split; vm_compute; [discriminate|reflexivity]).
Defined.

(** ** The starvation verdict *)

Lemma trim_since c p d x now : starvedSinceMicros (cc_trim c p d x now) = starvedSinceMicros p.
Proof. unfold cc_trim. cbv zeta. by destruct (cc_congested _ _ _). Qed.

Lemma branches_since c d now p :
  starvedSinceMicros (ApplyCongestion c p d now) <> 0 ->
  starvedSinceMicros (cc_verdict c (cc_fold p d now) d now) <> 0.
Proof.
  intros H. assert (Hp : starvedSinceMicros (cc_pre c d now p) <> 0).
  { unfold ApplyCongestion in H. fold (cc_pre c d now p) in H. cbv zeta in H.
    destruct (cc_fresh_loss _ _); [by rewrite trim_since in H|].
    destruct (ackedBytes d =? 0); [done|].
    destruct (Z.eqb_spec (starvedSinceMicros (cc_pre c d now p)) 0) as [E|]; [|done].
    exfalso. apply H. cbn [negb]. destruct (_ <? _).
    - unfold cc_slow_start. cbv zeta. cc_cases; done.
    - rewrite cc_avoid_closed. unfold anchored. cbv zeta. cc_cases; done. }
  revert Hp. unfold cc_pre, cc_probe. cbv zeta. cc_cases; done.
Qed.

Lemma cc_fold_starved p d now :
  let q := cc_fold p d now in
  congestionBudget q = congestionBudget p /\ starvedSinceMicros q = starvedSinceMicros p /\
  starvedExitedAtMicros q = starvedExitedAtMicros p /\
  starvedCandidateSinceMicros q = starvedCandidateSinceMicros p.
Proof. unfold cc_fold. cbv zeta. destruct (rttSampleMicros d =? 0), (ackedBytes d =? 0); done. Qed.

Lemma since_micros_spec now since : is_u64 now -> is_u64 since -> since_micros now since = Z.max 0 (now - since).
Proof. intros. unfold since_micros. destruct (Z.ltb_spec since now); [rewrite u64_small by lia|]; lia. Qed.

(** Starvation is never declared lightly.  The verdict is entered
    only on an acknowledgement, with the queue over its target and the budget at
    or under the opening window, and only when one of two clocks allows it: the
    candidate condition has been timed for at least 16 round trips and a quarter
    second, or an earlier episode ended no more than 30 seconds ago. *)
Theorem starvation_entry (c : CcConfig) (d : CongestionDelta) (now : Z) (p : CcPeer)
  (Hc : config_ok c) (Hnow : 0 < now < 2 ^ 64) (Hp : cc_wf c p) (Hd : delta_ok d)
  (Hclock : starvedExitedAtMicros p + CC_STARVED_REENTRY_WINDOW_MICROS < 2 ^ 64)
  (Hbefore : starvedSinceMicros p = 0)
  (Hafter : starvedSinceMicros (ApplyCongestion c p d now) <> 0) :
  let r := rtt (cc_fold p d now) in
  ackedBytes d <> 0 /\ over_target r QueueMicros /\ congestionBudget p <= CC_STARVED_BUDGET_BYTES /\
  ((starvedExitedAtMicros p <> 0 /\ now - starvedExitedAtMicros p <= 30000000) \/
   (starvedCandidateSinceMicros p <> 0 /\
    Z.max 250000 (16 * RoundTripOr r (RetryIntervalMicros c)) <= now - starvedCandidateSinceMicros p)).
Proof.
  apply branches_since in Hafter. cbv zeta. pose proof (cc_fold_starved p d now) as (Eb&Es&Ee&Ec).
  pose proof (cc_fold_wf c d Hd now Hnow p Hp) as Hq. set (q := cc_fold p d now) in *. clearbody q.
  unfold cc_verdict in Hafter. rewrite Es, Hbefore in Hafter. cbn [Z.eqb] in Hafter.
  assert (Hfor : cc_forget q now = q \/ starvedExitedAtMicros (cc_forget q now) = 0).
  { unfold cc_forget. destruct (_ && _); [by right|by left]. }
  assert (Hsame : rtt (cc_forget q now) = rtt q /\ congestionBudget (cc_forget q now) = congestionBudget q /\
                  starvedCandidateSinceMicros (cc_forget q now) = starvedCandidateSinceMicros q /\
                  starvedSinceMicros (cc_forget q now) = 0).
  { unfold cc_forget. destruct (_ && _); cbn; by rewrite ?Es, ?Hbefore. }
  destruct Hsame as (Fr&Fb&Fc&Fs).
  assert (Hold : starvedExitedAtMicros (cc_forget q now) <> 0 -> now - starvedExitedAtMicros p <= 30000000 /\ starvedExitedAtMicros p <> 0).
  { unfold cc_forget. rewrite Ee. pose proof (cw_exited p (cf_widths c p Hp)).
    unfold CC_STARVED_REENTRY_WINDOW_MICROS in *. rewrite u64_small by lia.
    destruct (Z.eqb_spec (starvedExitedAtMicros p) 0) as [E0|E0]; cbn [negb andb]; [cbn; rewrite Ee, E0; done|].
    destruct (Z.ltb_spec (starvedExitedAtMicros p + 30000000) now); cbn; [done|]. intros. split; [lia|done]. }
  assert (Hrt : 0 <= RoundTripOr (rtt q) (RetryIntervalMicros c) < 2 ^ 32).
  { pose proof (rw_srtt _ (cf_rtt c q Hq)) as Hs. unfold bucket_ok, RTT_SAMPLE_MAX_MICROS in Hs. destruct Hc.
    unfold RoundTripOr. destruct (_ =? 0); cbn; lia. }
  pose proof (cw_cand p (cf_widths c p Hp)) as Hcand.
  unfold cc_enter, cc_starved_now, over_target in *. cbv zeta in Hafter.
  rewrite Fr, Fb, Fc, Ec, Eb in Hafter.
  revert Hafter. cc_cases; try done; intros _; bprop.
  - split_and!; try done. left. by destruct Hold.
  - split_and!; try done. right. split; [done|].
    match goal with H : ConfirmWindowMicros _ _ _ <= _ |- _ =>
      rewrite since_micros_spec in H by lia; unfold ConfirmWindowMicros, CC_STARVED_CONFIRM_ROUNDS,
        CC_STARVED_CONFIRM_MIN_MICROS in H; rewrite u64_small in H by lia; revert H end.
    zcases.
Qed.

(** A peer whose candidate clock started a second ago. *)
Definition starving_peer : CcPeer := queued_peer <| starvedCandidateSinceMicros := 1000000 |>.

Lemma starving_peer_wf : cc_wf sample_config starving_peer.
Proof.
  destruct queued_peer_wf as [Hb [] Hs Hr Hdl].
  split; [exact Hb|split; cbn; auto; lia|by apply starved_inv_reset|exact Hr|exact Hdl].
Qed.

Lemma starvation_entry_witness :
  starvedSinceMicros (ApplyCongestion sample_config starving_peer queued_ack 2000000) = 2000000 /\
  congestionBudget starving_peer <= CC_STARVED_BUDGET_BYTES.
Proof.
  split; [vm_compute; reflexivity|].
  apply (starvation_entry sample_config queued_ack 2000000 starving_peer sample_config_ok
    ltac:(lia) starving_peer_wf ltac:(split; simpl; lia)).
  - cbn. unfold CC_STARVED_REENTRY_WINDOW_MICROS. lia.
  - reflexivity.
  - vm_compute. discriminate.
Defined.
