(* ===== verification/Fifo.v ===== *)
(** * Ring queues: [common/collections/fifo_queue.h]

    A ring of cells, each with a sequence number that says whose turn the cell is:
    [t] while it waits for the [t]th push, [t + 1] while it holds the item of the
    [t]th push, [t + capacity] once that item has been taken.  The cursors and the
    sequence numbers are 32-bit counters that wrap.

    The operations are given as one caller runs them to the end with nobody else
    in between: a compare-and-swap on a cursor just read succeeds, and a retry
    that would re-read what it has already read never ends, which is the result
    [None].  The cell scheme is shared with the free lists of the slot pool, so
    the central relation and its two lemmas are stated for both. *)

From S2P Require Import Prelude CommonMath.

(** ** Definitions *)

Record cell (A : Type) := mk_cell { c_seq : Z; c_val : A }.
Arguments mk_cell {A}.
Arguments c_seq {A}.
Arguments c_val {A}.
#[export] Instance cell_inhabited {A} `{Inhabited A} : Inhabited (cell A) := populate (mk_cell 0 inhabitant).

(** [static_cast<int32_t>(a) - static_cast<int32_t>(b)] *)
Definition diff32 (a b : Z) : Z := i32 (i32 a - i32 b).

Record FifoQueue (A : Type) := mk_fifo {
  buffer : list (cell A); fq_capacity : Z; fq_mask : Z; fq_head : Z; fq_tail : Z }.
Arguments mk_fifo {A}.
Arguments buffer {A}.
Arguments fq_capacity {A}.
Arguments fq_mask {A}.
Arguments fq_head {A}.
Arguments fq_tail {A}.
#[export] Instance FifoQueue_eta {A} : Eta (FifoQueue A) := fun q =>
  mk_fifo (buffer q) (fq_capacity q) (fq_mask q) (fq_head q) (fq_tail q).

Section Operations.
Context {A : Type} `{!Inhabited A}.
Implicit Types (q : FifoQueue A) (item : A) (items : list A).

(** [Init], with an allocation that succeeds. *)
Definition Fifo_Init (capacity : Z) : FifoQueue A :=
  let cap := NextPowerOfTwo capacity in
  mk_fifo (map (fun i => mk_cell (Z.of_nat i) inhabitant) (seq 0 (Z.to_nat cap))) cap (u32 (cap - 1)) 0 0.

Definition Fifo_Push q item : option (bool * FifoQueue A) :=
  let tail := fq_tail q in
  let pos := Z.land tail (fq_mask q) in
  let diff := diff32 (c_seq (buffer q).[pos]) tail in
  if diff =? 0 then
    Some (true, q <| fq_tail := u32 (tail + 1) |>
                  <| buffer := (buffer q).[pos <- mk_cell (u32 (tail + 1)) item] |>)
  else if diff <? 0 then Some (false, q)
  else None.

Definition Fifo_Pop q : option (option A * FifoQueue A) :=
  let head := fq_head q in
  let pos := Z.land head (fq_mask q) in
  let cell := (buffer q).[pos] in
  let diff := diff32 (c_seq cell) (u32 (head + 1)) in
  if diff =? 0 then
    Some (Some (c_val cell), q <| fq_head := u32 (head + 1) |>
                               <| buffer := (buffer q).[pos <- mk_cell (u32 (head + fq_capacity q)) (c_val cell)] |>)
  else if diff <? 0 then Some (None, q)
  else None.

(** The scan both batch operations start with: how many consecutive cells, at
    most [count], carry the sequence number [base + i + lead]. *)
Fixpoint ready_run (count : nat) q (base lead : Z) (i : Z) : Z :=
  match count with
  | O => i
  | S count' =>
      let seq := c_seq (buffer q).[Z.land (u32 (base + i)) (fq_mask q)] in
      let diff := diff32 seq (u32 (base + i + lead)) in
      if (0 <? diff) || (diff <? 0) then i else ready_run count' q base lead (i + 1)
  end.

Definition push_cell (tail : Z) (items : list A) (i : Z) q : FifoQueue A :=
  q <| buffer := (buffer q).[Z.land (u32 (tail + i)) (fq_mask q) <- mk_cell (u32 (tail + i + 1)) items.[i]] |>.

Definition Fifo_PushBatch q items : Z * FifoQueue A :=
  let tail := fq_tail q in
  let available := ready_run (length items) q tail 0 0 in
  if available =? 0 then (0, q)
  else (available, for_up 0 (Z.to_nat available) (push_cell tail items) (q <| fq_tail := u32 (tail + available) |>)).

Definition pop_cell (head : Z) (i : Z) (s : list A * FifoQueue A) : list A * FifoQueue A :=
  let q := s.2 in
  let pos := Z.land (u32 (head + i)) (fq_mask q) in
  let v := c_val (buffer q).[pos] in
  (s.1 ++ [v], q <| buffer := (buffer q).[pos <- mk_cell (u32 (head + i + fq_capacity q)) v] |>).

Definition Fifo_PopBatch q (count : Z) : list A * FifoQueue A :=
  let head := fq_head q in
  let available := ready_run (Z.to_nat count) q head 1 0 in
  if available =? 0 then ([], q)
  else for_up 0 (Z.to_nat available) (pop_cell head) ([], q <| fq_head := u32 (head + available) |>).

Definition Fifo_Empty q : bool := fq_head q =? fq_tail q.
End Operations.

(** ** The ring relation *)

Lemma diff32_wrapped a b : - 2 ^ 31 <= a - b < 2 ^ 31 -> diff32 (u32 a) (u32 b) = a - b.
Proof.
  intros H. rewrite <- (i32_diff a b H). unfold diff32.
  assert (Hm : forall x, exists k, i32 x = x + k * 2 ^ 32).
  { intros x. unfold i32, signed. pose proof (Z.div_mod x (2 ^ 32) ltac:(lia)).
    destruct (_ <? _); [exists (- (x / 2 ^ 32))|exists (- (x / 2 ^ 32) - 1)]; lia. }
  destruct (Hm (u32 a)) as [k1 ->], (Hm (u32 b)) as [k2 ->].
  unfold i32, signed. replace (u32 a + k1 * 2 ^ 32 - (u32 b + k2 * 2 ^ 32))
    with (u32 a - u32 b + (k1 - k2) * 2 ^ 32) by lia. by rewrite Z_mod_plus_full.
Qed.

Section Ring.
Context (k : Z) (Hk : 0 <= k <= 31).
Definition CAP : Z := 2 ^ k.

Lemma CAP_pos : 1 <= CAP <= 2 ^ 31.
Proof.
  unfold CAP. split; [pose proof (Z.pow_pos_nonneg 2 k); lia|]. apply Z.pow_le_mono_r; lia.
Qed.

Lemma u32_mask x : Z.land (u32 x) (CAP - 1) = x mod CAP.
Proof.
  unfold CAP. rewrite land_mask by lia. unfold u32. replace (2 ^ 32) with (2 ^ k * 2 ^ (32 - k)).
  - rewrite Z.rem_mul_r by (apply Z.pow_nonzero || apply Z.pow_pos_nonneg; lia).
    rewrite Z.mul_comm, Z_mod_plus_full. apply Z.mod_mod. apply Z.pow_nonzero; lia.
  - rewrite <- Z.pow_add_r by lia. f_equal. lia.
Qed.

Lemma CAP_u32 : u32 (CAP - 1) = CAP - 1.
Proof. pose proof CAP_pos. apply u32_small. lia. Qed.

Lemma ring_pos_inj a i j : 0 <= i < CAP -> 0 <= j < CAP -> (a + i) mod CAP = (a + j) mod CAP -> i = j.
Proof.
  intros Hi Hj E. pose proof CAP_pos. pose proof (Z.div_mod (a + i) CAP ltac:(lia)).
  pose proof (Z.div_mod (a + j) CAP ltac:(lia)). rewrite E in *.
  assert (i - j = CAP * ((a + i) / CAP - (a + j) / CAP)) by lia.
  set (z := (a + i) / CAP - (a + j) / CAP) in *. assert (z = 0 \/ z <= -1 \/ 1 <= z) as [->|[?|?]] by lia; nia.
Qed.

Lemma ring_pos_range a : 0 <= a mod CAP < CAP.
Proof. pose proof CAP_pos. apply Z.mod_pos_bound. lia. Qed.

Context {A : Type} `{!Inhabited A}.
Implicit Types (cells : list (cell A)) (l : list A).

(** The ring holds [l], oldest first, and its next take is number [H]. *)
Record ring_holds cells (H : Z) l : Prop := {
  rg_len : zlen cells = CAP;
  rg_bound : zlen l <= CAP;
  rg_full : forall j, 0 <= j < zlen l -> cells.[(H + j) mod CAP] = mk_cell (u32 (H + j + 1)) l.[j];
  rg_free : forall j, zlen l <= j < CAP -> c_seq cells.[(H + j) mod CAP] = u32 (H + j) }.

Lemma rg_set cells pos v : zlen cells = CAP -> 0 <= pos < CAP -> zlen (cells.[pos <- v]) = CAP.
Proof. intros. by rewrite zlen_set. Qed.

Lemma arr_get_snoc l x j : 0 <= j <= zlen l -> (l ++ [x]).[j] = if j =? zlen l then x else l.[j].
Proof using.
  intros Hj. unfold arr_get, zlen in *. destruct (Z.eqb_spec j (Z.of_nat (length l))) as [->|].
  - by rewrite Nat2Z.id, lookup_total_app_r, Nat.sub_diag by lia.
  - by rewrite lookup_total_app_l by lia.
Qed.

(** Putting into a ring that is not full. *)
Lemma ring_put cells H l x :
  ring_holds cells H l -> zlen l < CAP ->
  c_seq cells.[(H + zlen l) mod CAP] = u32 (H + zlen l) /\
  ring_holds (cells.[(H + zlen l) mod CAP <- mk_cell (u32 (H + zlen l + 1)) x]) H (l ++ [x]).
Proof using Hk.
  intros [Hlen Hb Hfull Hfree] Hlt. pose proof (zlen_nonneg l). pose proof (ring_pos_range (H + zlen l)) as Hp.
  split; [by apply Hfree|]. assert (Hl' : zlen (l ++ [x]) = zlen l + 1) by (rewrite zlen_app; done).
  split; rewrite ?Hl'.
  - by apply rg_set.
  - lia.
  - intros j Hj. rewrite arr_get_snoc by lia. destruct (Z.eqb_spec j (zlen l)) as [->|].
    + rewrite arr_get_set_eq by lia. done.
    + rewrite arr_get_set_ne; [by apply Hfull; lia|lia|apply ring_pos_range|].
      intros E. apply ring_pos_inj in E; lia.
  - intros j Hj. rewrite arr_get_set_ne; [by apply Hfree; lia|lia|apply ring_pos_range|].
    intros E. apply ring_pos_inj in E; lia.
Qed.

(** Taking from a ring that is not empty. *)
Lemma ring_take cells H x l :
  ring_holds cells H (x :: l) ->
  cells.[H mod CAP] = mk_cell (u32 (H + 1)) x /\
  forall y, ring_holds (cells.[H mod CAP <- mk_cell (u32 (H + CAP)) y]) (H + 1) l.
Proof using Hk.
  intros [Hlen Hb Hfull Hfree]. pose proof CAP_pos. pose proof (zlen_nonneg l).
  assert (Hl : zlen (x :: l) = zlen l + 1) by (unfold zlen; simpl; lia). rewrite Hl in *.
  pose proof (ring_pos_range H) as Hp. split.
  { specialize (Hfull 0 ltac:(lia)). by rewrite Z.add_0_r in Hfull. }
  intros y. split.
  - by apply rg_set.
  - lia.
  - intros j Hj. replace (H + 1 + j) with (H + (j + 1)) by lia.
    rewrite arr_get_set_ne, Hfull; [|lia|lia|apply ring_pos_range|].
    + f_equal. unfold arr_get. by replace (Z.to_nat (j + 1)) with (S (Z.to_nat j)) by lia.
    + intros E. rewrite <- (Z.add_0_r H) in E at 1. apply ring_pos_inj in E; lia.
  - intros j Hj. destruct (decide (j = CAP - 1)) as [->|].
    + replace (H + 1 + (CAP - 1)) with (H + 1 * CAP) by lia. rewrite Z_mod_plus_full.
      rewrite arr_get_set_eq by lia. simpl. f_equal. lia.
    + replace (H + 1 + j) with (H + (j + 1)) by lia. rewrite arr_get_set_ne.
      * apply Hfree. lia.
      * lia.
      * apply ring_pos_range.
      * intros E. rewrite <- (Z.add_0_r H) in E at 1. apply ring_pos_inj in E; lia.
Qed.

(** What the two tests see at the ends of the ring. *)
Lemma ring_put_test cells H l :
  ring_holds cells H l ->
  diff32 (c_seq cells.[(H + zlen l) mod CAP]) (u32 (H + zlen l)) =
  if zlen l <? CAP then 0 else 1 - CAP.
Proof using Hk.
  intros [Hlen Hb Hfull Hfree]. pose proof CAP_pos. pose proof (zlen_nonneg l).
  destruct (Z.ltb_spec (zlen l) CAP).
  - rewrite Hfree by lia. rewrite diff32_wrapped by lia. lia.
  - assert (zlen l = CAP) as E by lia. rewrite E in *.
    replace ((H + CAP) mod CAP) with ((H + 0) mod CAP)
      by (rewrite Z.add_0_r; replace (H + CAP) with (H + 1 * CAP) by lia; symmetry; apply Z_mod_plus_full).
    rewrite Hfull by lia. cbn [c_seq]. rewrite diff32_wrapped by lia. lia.
Qed.

Lemma ring_take_test cells H l :
  ring_holds cells H l ->
  diff32 (c_seq cells.[H mod CAP]) (u32 (H + 1)) = if zlen l =? 0 then -1 else 0.
Proof using Hk.
  intros [Hlen Hb Hfull Hfree]. pose proof CAP_pos. pose proof (zlen_nonneg l).
  destruct (Z.eqb_spec (zlen l) 0).
  - specialize (Hfree 0 ltac:(lia)). rewrite Z.add_0_r in Hfree. rewrite Hfree, diff32_wrapped by lia. lia.
  - specialize (Hfull 0 ltac:(lia)). rewrite Z.add_0_r in Hfull. rewrite Hfull. cbn [c_seq].
    rewrite diff32_wrapped by lia. lia.
Qed.
End Ring.

(** ** Refinement of a bounded list *)

Section Refinement.
Context (k : Z) (Hk : 1 <= k <= 31) {A : Type} `{!Inhabited A}.
Implicit Types (q : FifoQueue A) (l : list A).
Abbreviation CAP := (CAP k).

Record fifo_rel q l : Prop := {
  fr_cap : fq_capacity q = CAP;
  fr_mask : fq_mask q = CAP - 1;
  fr_ring : exists H, ring_holds k (buffer q) H l /\ fq_head q = u32 H /\ fq_tail q = u32 (H + zlen l) }.

Lemma CAP_two : 2 <= CAP <= 2 ^ 31.
Proof using Hk.
  pose proof (CAP_pos k ltac:(lia)). split; [|lia]. unfold Fifo.CAP.
  change 2 with (2 ^ 1) at 1. apply Z.pow_le_mono_r; lia.
Qed.

Lemma push_refines q l x :
  fifo_rel q l ->
  if zlen l <? CAP
  then exists q', Fifo_Push q x = Some (true, q') /\ fifo_rel q' (l ++ [x])
  else Fifo_Push q x = Some (false, q).
Proof using Hk.
  intros [Hc Hm (H&Hr&Hh&Ht)]. pose proof CAP_two. unfold Fifo_Push. rewrite Hm, Ht, u32_mask by lia.
  pose proof (ring_put_test k ltac:(lia) _ _ _ Hr) as Hd. rewrite Hd. cbv zeta.
  destruct (Z.ltb_spec (zlen l) CAP) as [Hlt|].
  - rewrite Z.eqb_refl. eexists. split; [reflexivity|].
    destruct (ring_put k ltac:(lia) _ _ _ x Hr Hlt) as [_ Hr']. split; [done..|]. exists H. cbn.
    rewrite u32_add_l. split_and!; [done|done|]. rewrite zlen_app. change (zlen [x]) with 1. f_equal. lia.
  - destruct (Z.eqb_spec (1 - CAP) 0); [lia|]. destruct (Z.ltb_spec (1 - CAP) 0); [done|lia].
Qed.

Lemma pop_refines q l :
  fifo_rel q l ->
  match l with
  | [] => Fifo_Pop q = Some (None, q)
  | x :: l' => exists q', Fifo_Pop q = Some (Some x, q') /\ fifo_rel q' l'
  end.
Proof using Hk.
  intros [Hc Hm (H&Hr&Hh&Ht)]. pose proof CAP_two. unfold Fifo_Pop. rewrite Hm, Hh, u32_mask, u32_add_l by lia.
  pose proof (ring_take_test k ltac:(lia) _ _ _ Hr) as Hd. rewrite Hd. cbv zeta.
  destruct l as [|x l]; [done|].
  assert (Hl : zlen (x :: l) = zlen l + 1) by (unfold zlen; simpl; lia). pose proof (zlen_nonneg l).
  destruct (Z.eqb_spec (zlen (x :: l)) 0); [lia|]. rewrite Z.eqb_refl.
  destruct (ring_take k ltac:(lia) _ _ _ _ Hr) as [Hx Hr']. rewrite Hx. cbn [c_val].
  eexists. split; [reflexivity|]. split; [done..|]. exists (H + 1). cbn. rewrite Hc, u32_add_l.
  split_and!; [done|done|]. rewrite Ht, Hl. f_equal. lia.
Qed.

Lemma ready_run_spec q base lead n : forall count i,
  0 <= i <= n ->
  (forall j, i <= j < n -> diff32 (c_seq (buffer q).[Z.land (u32 (base + j)) (fq_mask q)]) (u32 (base + j + lead)) = 0) ->
  diff32 (c_seq (buffer q).[Z.land (u32 (base + n)) (fq_mask q)]) (u32 (base + n + lead)) <> 0 ->
  ready_run count q base lead i = Z.min n (i + Z.of_nat count).
Proof using.
  induction count as [|count IH]; intros i Hi Hz Hn; cbn [ready_run]; [lia|].
  destruct (decide (i = n)) as [->|].
  - set (df := diff32 _ _) in *. destruct (Z.ltb_spec 0 df), (Z.ltb_spec df 0); cbn [orb]; lia.
  - rewrite Hz by lia. cbn [orb Z.ltb Z.compare]. rewrite IH; [lia|lia| |done]. intros j Hj. apply Hz. lia.
Qed.

Lemma push_run_spec q l count :
  fifo_rel q l -> ready_run count q (fq_tail q) 0 0 = Z.min (CAP - zlen l) (Z.of_nat count).
Proof using Hk.
  intros [Hc Hm (H&Hr&Hh&Ht)]. pose proof CAP_two. pose proof (zlen_nonneg l). destruct Hr as [_ Hb Hfull Hfree].
  rewrite (ready_run_spec q (fq_tail q) 0 (CAP - zlen l)); [lia|lia| |]; rewrite Hm, Ht.
  - intros j Hj. rewrite Z.add_0_r, !u32_add_l, u32_mask by lia. rewrite <- Z.add_assoc.
    rewrite Hfree by lia. rewrite diff32_wrapped; lia.
  - rewrite Z.add_0_r, u32_add_l, u32_mask by lia. replace (H + zlen l + (CAP - zlen l)) with (H + CAP) by lia.
    replace ((H + CAP) mod CAP) with ((H + 0) mod CAP)
      by (rewrite Z.add_0_r; replace (H + CAP) with (H + 1 * CAP) by lia; symmetry; apply Z_mod_plus_full).
    destruct (decide (zlen l = 0)).
    + rewrite Hfree, diff32_wrapped by lia. lia.
    + rewrite Hfull by lia. cbn [c_seq]. rewrite diff32_wrapped by lia. lia.
Qed.

Lemma pop_run_spec q l count :
  fifo_rel q l -> ready_run count q (fq_head q) 1 0 = Z.min (zlen l) (Z.of_nat count).
Proof using Hk.
  intros [Hc Hm (H&Hr&Hh&Ht)]. pose proof CAP_two. pose proof (zlen_nonneg l). destruct Hr as [_ Hb Hfull Hfree].
  rewrite (ready_run_spec q (fq_head q) 1 (zlen l)); [lia|lia| |]; rewrite Hm, Hh.
  - intros j Hj. rewrite u32_add_l, u32_mask, Hfull by lia. cbn [c_seq].
    replace (u32 (u32 H + j + 1)) with (u32 (H + j + 1)) by (rewrite <- !Z.add_assoc, u32_add_l; done).
    rewrite diff32_wrapped; lia.
  - rewrite u32_add_l, u32_mask by lia.
    replace (u32 (u32 H + zlen l + 1)) with (u32 (H + zlen l + 1)) by (rewrite <- !Z.add_assoc, u32_add_l; done).
    destruct (decide (zlen l = CAP)) as [E|].
    + rewrite E. replace ((H + CAP) mod CAP) with ((H + 0) mod CAP)
        by (rewrite Z.add_0_r; replace (H + CAP) with (H + 1 * CAP) by lia; symmetry; apply Z_mod_plus_full).
      rewrite Hfull by lia. cbn [c_seq]. rewrite diff32_wrapped by lia. lia.
    + rewrite Hfree, diff32_wrapped by lia. lia.
Qed.

Lemma take_snoc_get (l : list A) i : 0 <= i < zlen l -> take (Z.to_nat (i + 1)) l = take (Z.to_nat i) l ++ [l.[i]].
Proof using.
  intros Hi. unfold arr_get, zlen in *. replace (Z.to_nat (i + 1)) with (S (Z.to_nat i)) by lia.
  destruct (lookup_lt_is_Some_2 l (Z.to_nat i)) as [x Hx]; [lia|].
  by rewrite (list_lookup_total_correct _ _ _ Hx), (take_S_r _ _ _ Hx).
Qed.

Lemma zlen_take (l : list A) i : 0 <= i <= zlen l -> zlen (take (Z.to_nat i) l) = i.
Proof using. unfold zlen. intros. rewrite length_take. lia. Qed.

Lemma pushbatch_refines q l items :
  fifo_rel q l ->
  let n := Z.min (CAP - zlen l) (zlen items) in
  exists q', Fifo_PushBatch q items = (n, q') /\ fifo_rel q' (l ++ take (Z.to_nat n) items).
Proof using Hk.
  intros Hrel n. pose proof (push_run_spec q l (length items) Hrel) as Hrun. fold (zlen items) in Hrun. fold n in Hrun.
  pose proof Hrel as [Hc Hm (H&Hr&Hh&Ht)]. pose proof CAP_two. pose proof (zlen_nonneg l). pose proof (zlen_nonneg items).
  pose proof (rg_bound k _ _ _ Hr) as Hb.
  unfold Fifo_PushBatch. rewrite Hrun. cbv zeta. destruct (Z.eqb_spec n 0) as [E|].
  { exists q. rewrite E. split; [done|]. simpl. by rewrite app_nil_r. }
  eexists. split; [reflexivity|].
  set (q0 := q <| fq_tail := u32 (fq_tail q + n) |>).
  pose proof (for_up_inv (fun i q' => fq_capacity q' = CAP /\ fq_mask q' = CAP - 1 /\ fq_head q' = u32 H /\
     fq_tail q' = u32 (H + zlen l + n) /\ ring_holds k (buffer q') H (l ++ take (Z.to_nat i) items))
     0 (Z.to_nat n) (push_cell (fq_tail q) items) q0) as Hloop.
  destruct Hloop as (I1&I2&I3&I4&I5).
  - subst q0. cbn. rewrite app_nil_r. split_and!; try done. by rewrite Ht, u32_add_l.
  - intros i q' Hi (J1&J2&J3&J4&J5). unfold push_cell. cbn. split_and!; try done.
    rewrite J2, Ht, u32_add_l, u32_mask by lia.
    rewrite take_snoc_get by lia. rewrite app_assoc.
    pose proof (ring_put k ltac:(lia) _ _ _ items.[i] J5) as [_ Hput].
    { rewrite zlen_app, zlen_take by lia. lia. }
    rewrite zlen_app, zlen_take in Hput by lia.
    replace (u32 (u32 (H + zlen l) + i + 1)) with (u32 (H + (zlen l + i) + 1))
      by (rewrite <- (Z.add_assoc (u32 _)), u32_add_l; f_equal; lia).
    by replace (H + zlen l + i) with (H + (zlen l + i)) by lia.
  - rewrite Z.add_0_l, Z2Nat.id in * by lia. split; [done..|]. exists H. split_and!; [done..|].
    rewrite I4, zlen_app, zlen_take by lia. f_equal. lia.
Qed.

Lemma popbatch_refines q l count :
  fifo_rel q l -> 0 <= count ->
  exists q', Fifo_PopBatch q count = (take (Z.to_nat count) l, q') /\ fifo_rel q' (drop (Z.to_nat count) l).
Proof using Hk.
  intros Hrel Hcount. pose proof (pop_run_spec q l (Z.to_nat count) Hrel) as Hrun.
  rewrite Z2Nat.id in Hrun by lia. set (n := Z.min (zlen l) count) in *.
  pose proof Hrel as [Hc Hm (H&Hr&Hh&Ht)]. pose proof CAP_two. pose proof (zlen_nonneg l).
  assert (Htake : take (Z.to_nat count) l = take (Z.to_nat n) l).
  { subst n. unfold zlen in *. destruct (Z.le_gt_cases (Z.of_nat (length l)) count).
    - rewrite !take_ge by lia. done.
    - f_equal. lia. }
  assert (Hdrop : drop (Z.to_nat count) l = drop (Z.to_nat n) l).
  { subst n. unfold zlen in *. destruct (Z.le_gt_cases (Z.of_nat (length l)) count).
    - rewrite !drop_ge by lia. done.
    - f_equal. lia. }
  rewrite Htake, Hdrop. unfold Fifo_PopBatch. rewrite Hrun. cbv zeta. destruct (Z.eqb_spec n 0) as [E|].
  { exists q. rewrite E. by rewrite take_0, drop_0. }
  set (q0 := q <| fq_head := u32 (fq_head q + n) |>).
  pose proof (for_up_inv (fun i (s : list A * FifoQueue A) => fq_capacity s.2 = CAP /\ fq_mask s.2 = CAP - 1 /\
     fq_head s.2 = u32 (H + n) /\ fq_tail s.2 = u32 (H + zlen l) /\ s.1 = take (Z.to_nat i) l /\
     ring_holds k (buffer s.2) (H + i) (drop (Z.to_nat i) l)) 0 (Z.to_nat n) (pop_cell (fq_head q)) ([], q0)) as Hloop.
  destruct Hloop as (I1&I2&I3&I4&I5&I6).
  - subst q0. cbn. rewrite Hh, u32_add_l, Z.add_0_r. by split_and!.
  - intros i [out q'] Hi (J1&J2&J3&J4&J5&J6). cbn in J1, J2, J3, J4, J5, J6.
    assert (Hd : drop (Z.to_nat i) l = l.[i] :: drop (Z.to_nat (i + 1)) l).
    { replace (Z.to_nat (i + 1)) with (S (Z.to_nat i)) by lia. unfold arr_get, zlen in *.
      destruct (lookup_lt_is_Some_2 l (Z.to_nat i)) as [x Hx]; [lia|].
      by rewrite (list_lookup_total_correct _ _ _ Hx), (drop_S _ _ _ Hx). }
    rewrite Hd in J6. destruct (ring_take k ltac:(lia) _ _ _ _ J6) as [Hx Hr'].
    unfold pop_cell. cbn. rewrite J1, J2, Hh, u32_add_l, u32_mask by lia. rewrite Hx. cbn [c_val].
    split_and!; try done.
    + rewrite J5, take_snoc_get by lia. done.
    + replace (u32 (u32 H + i + CAP)) with (u32 (H + i + CAP))
        by (rewrite <- !(Z.add_assoc _ i), u32_add_l; done).
      replace (H + (i + 1)) with (H + i + 1) by lia. apply Hr'.
  - rewrite Z.add_0_l, Z2Nat.id in * by lia.
    destruct (for_up _ _ _ _) as [out q'] eqn:E. cbn in *. exists q'. rewrite I5. split; [done|].
    split; [done..|]. exists (H + n). split_and!; [done..|]. rewrite I4. f_equal.
    unfold zlen in *. rewrite length_drop. lia.
Qed.

Lemma init_refines capacity :
  NextPowerOfTwo capacity = CAP -> fifo_rel (Fifo_Init (A := A) capacity) [].
Proof using Hk.
  intros E. pose proof CAP_two. unfold Fifo_Init. rewrite E. split; [done|cbn; by rewrite CAP_u32 by lia|].
  exists 0. cbn. split_and!; [|done|done].
  assert (Hlen : zlen (map (fun i => mk_cell (A := A) (Z.of_nat i) inhabitant) (seq 0 (Z.to_nat CAP))) = CAP).
  { unfold zlen. rewrite length_map, length_seq. lia. }
  split; [exact Hlen|unfold zlen; simpl; lia|unfold zlen; simpl; lia|].
  intros j Hj. change (zlen []) with 0 in Hj. rewrite Z.add_0_l, Z.mod_small, u32_small by lia.
  unfold arr_get. rewrite list_lookup_total_alt, list_lookup_fmap, lookup_seq_lt by lia. cbn. lia.
Qed.
End Refinement.

(** ** Whole runs *)

Inductive fifo_op (A : Type) := OPush (x : A) | OPop | OPushBatch (items : list A) | OPopBatch (count : Z).
Arguments OPush {A}.
Arguments OPop {A}.
Arguments OPushBatch {A}.
Arguments OPopBatch {A}.

Inductive fifo_out (A : Type) := RPushed (ok : bool) | RPopped (x : option A) | RCount (n : Z) | RItems (l : list A).
Arguments RPushed {A}.
Arguments RPopped {A}.
Arguments RCount {A}.
Arguments RItems {A}.

Section Runs.
Context {A : Type} `{!Inhabited A}.

Definition fifo_step (q : FifoQueue A) (op : fifo_op A) : option (fifo_out A * FifoQueue A) :=
  match op with
  | OPush x => '(b, q') ← Fifo_Push q x; Some (RPushed b, q')
  | OPop => '(x, q') ← Fifo_Pop q; Some (RPopped x, q')
  | OPushBatch items => let '(n, q') := Fifo_PushBatch q items in Some (RCount n, q')
  | OPopBatch count => let '(l, q') := Fifo_PopBatch q count in Some (RItems l, q')
  end.

(** The promise: a list of at most [cap] items, first in, first out. *)
Definition spec_step (cap : Z) (l : list A) (op : fifo_op A) : fifo_out A * list A :=
  match op with
  | OPush x => if zlen l <? cap then (RPushed true, l ++ [x]) else (RPushed false, l)
  | OPop => match l with [] => (RPopped None, []) | x :: l' => (RPopped (Some x), l') end
  | OPushBatch items => let n := Z.min (cap - zlen l) (zlen items) in (RCount n, l ++ take (Z.to_nat n) items)
  | OPopBatch count => (RItems (take (Z.to_nat count) l), drop (Z.to_nat count) l)
  end.

Fixpoint fifo_run (q : FifoQueue A) (ops : list (fifo_op A)) : option (list (fifo_out A)) :=
  match ops with
  | [] => Some []
  | op :: ops' => '(r, q') ← fifo_step q op; rs ← fifo_run q' ops'; Some (r :: rs)
  end.
Fixpoint spec_run (cap : Z) (l : list A) (ops : list (fifo_op A)) : list (fifo_out A) :=
  match ops with
  | [] => []
  | op :: ops' => let '(r, l') := spec_step cap l op in r :: spec_run cap l' ops'
  end.

Definition op_ok (op : fifo_op A) : Prop := match op with OPopBatch n => 0 <= n | _ => True end.

Lemma fifo_step_refines k q l op :
  1 <= k <= 31 -> fifo_rel k q l -> op_ok op ->
  exists q', fifo_step q op = Some ((spec_step (CAP k) l op).1, q') /\ fifo_rel k q' (spec_step (CAP k) l op).2.
Proof.
  intros Hk Hr Hop. destruct op as [x| |items|count]; cbn [fifo_step spec_step].
  - pose proof (push_refines k Hk q l x Hr) as Hp. destruct (_ <? _).
    + destruct Hp as (q'&->&?). by exists q'.
    + rewrite Hp. by exists q.
  - pose proof (pop_refines k Hk q l Hr) as Hp. destruct l as [|x l].
    + rewrite Hp. by exists q.
    + destruct Hp as (q'&->&?). by exists q'.
  - destruct (pushbatch_refines k Hk q l items Hr) as (q'&->&?). by exists q'.
  - destruct (popbatch_refines k Hk q l count Hr Hop) as (q'&->&?). by exists q'.
Qed.
End Runs.

(** (C38) Refinement: a queue of two or more cells answers every sequence of
    single and batched pushes and pops exactly as a bounded list does, never
    waits, and keeps doing so when the 32-bit cursors wrap. *)
Theorem fifo_refines_bounded_list {A} `{!Inhabited A} (capacity k : Z) (ops : list (fifo_op A))
  (Hk : 1 <= k <= 31) (Hcap : NextPowerOfTwo capacity = 2 ^ k) (Hops : Forall op_ok ops) :
  fifo_run (Fifo_Init capacity) ops = Some (spec_run (2 ^ k) [] ops).
Proof.
  pose proof (init_refines k Hk (A := A) capacity Hcap) as Hr.
  revert Hr. generalize (Fifo_Init (A := A) capacity), (@nil A).
  induction Hops as [|op ops Hop _ IH]; intros q l Hr; [done|]. cbn [fifo_run spec_run].
  destruct (fifo_step_refines k q l op Hk Hr Hop) as (q'&->&Hr'). cbn.
  rewrite (IH q' _ Hr'). unfold CAP. by destruct (spec_step (2 ^ k) l op).
Qed.

Definition sample_ops : list (fifo_op Z) :=
  [OPushBatch [1; 2; 3]; OPush 4; OPush 5; OPop; OPush 6; OPopBatch 3; OPop; OPop].

Lemma fifo_refines_witness :
  fifo_run (Fifo_Init 3) sample_ops = Some (spec_run 4 [] sample_ops) /\
  spec_run 4 [] sample_ops =
    [RCount 3; RPushed true; RPushed false; RPopped (Some 1); RPushed true; RItems [2; 3; 4]; RPopped (Some 6); RPopped None].
Proof.
  split; [|reflexivity].
  apply (fifo_refines_bounded_list 3 2 sample_ops); [lia|vm_compute; reflexivity|].
  repeat constructor. cbn. lia.
Defined.

(** A queue initialised for one item does not work: with a single
    cell the sequence number of a full cell is also the one its next push waits
    for, so a second push is accepted over the first item, and the pop that
    follows never returns. *)
Theorem fifo_capacity_one_overwrites :
  exists q1 q2 : FifoQueue Z,
    Fifo_Push (Fifo_Init 1) 7 = Some (true, q1) /\ Fifo_Push q1 8 = Some (true, q2) /\
    map c_val (buffer q2) = [8] /\ Fifo_Pop q2 = None.
Proof. do 2 eexists. split; [vm_compute; reflexivity|]. split; [vm_compute; reflexivity|]. split; vm_compute; reflexivity. Qed.
