(* ===== verification/SlotPool.v ===== *)
(** * Slot pools: [common/collections/slot_pool.cpp]

    A pool hands out slot indices.  Its free list is up to sixteen ring queues,
    ring [r] owning for good the indices congruent to [r]; an acquire starts at a
    ring picked by a hint and hops on when one is empty, a release goes back to
    the index's home ring.  Each slot also carries a reader-writer lock word.

    As in the queue file, the operations are what one caller does undisturbed and
    [None] is a wait that does not end.  Proved: an acquire never hands out an
    index that is already held and fails only when none is free, a release by a
    holder never waits, and the lock word admits many readers or one writer. *)

From S2P Require Import Prelude CommonMath Fifo.

(** ** Definitions *)

Definition SHARD_COUNT : Z := 16.
Definition WRITE_LOCKED : Z := 2 ^ 32 - 1.
Definition MAX_READERS : Z := 2 ^ 32 - 2.
Definition INVALID : Z := UINT32_MAX.

Record ShardCtl := mk_ctl { sh_head : Z; sh_tail : Z }.
#[export] Instance ShardCtl_inhabited : Inhabited ShardCtl := populate (mk_ctl 0 0).

Record SlotPool := mk_pool {
  sp_capacity : Z; sp_stride : Z; sp_ring : list (cell Z); sp_shards : list ShardCtl;
  shardCount : Z; shardMask : Z; perCap : Z; perMask : Z; sp_locks : list Z }.
#[export] Instance SlotPool_eta : Eta SlotPool := fun p =>
  mk_pool (sp_capacity p) (sp_stride p) (sp_ring p) (sp_shards p) (shardCount p) (shardMask p)
    (perCap p) (perMask p) (sp_locks p).

(** The bytes [Init] asks the allocator for, as the source computes them: a
    product of two [uint32_t]. *)
Definition pool_bytes (capacity stride : Z) : Z := u32 (NextPowerOfTwo capacity * stride).

(** [Init], with allocations that succeed. *)
Definition Pool_Init (capacity slotSize : Z) : SlotPool :=
  let cap := NextPowerOfTwo capacity in
  let sc := if cap <? SHARD_COUNT then cap else SHARD_COUNT in
  let pc := cap / sc in
  mk_pool cap slotSize
    (concat (map (fun r => map (fun k => mk_cell (u32 (Z.of_nat k + 1)) (u32 (Z.of_nat r + Z.of_nat k * sc)))
                             (seq 0 (Z.to_nat pc))) (seq 0 (Z.to_nat sc))))
    (replicate (Z.to_nat sc) (mk_ctl pc 0)) sc (u32 (sc - 1)) pc (u32 (pc - 1))
    (replicate (Z.to_nat cap) 0).

(** [Shutdown], the memory aside. *)
Definition Pool_Shutdown (p : SlotPool) : SlotPool := mk_pool 0 0 [] [] 0 0 0 0 [].

Definition TryAcquireFrom (p : SlotPool) (ring : Z) : option (Z * SlotPool) :=
  let ctl := (sp_shards p).[ring] in
  let tail := sh_tail ctl in
  let pos := ring * perCap p + Z.land tail (perMask p) in
  let cell := (sp_ring p).[pos] in
  let diff := diff32 (c_seq cell) (u32 (tail + 1)) in
  if diff =? 0 then
    let idx := c_val cell in
    Some (idx, p <| sp_shards := (sp_shards p).[ring <- mk_ctl (sh_head ctl) (u32 (tail + 1))] |>
                 <| sp_ring := (sp_ring p).[pos <- mk_cell (u32 (tail + perMask p + 1)) idx] |>)
  else if diff <? 0 then Some (INVALID, p)
  else None.

(** The hop loop; [hint] stands for the hashed stack address. *)
Fixpoint Acquire_loop (hops : nat) (p : SlotPool) (start hop : Z) : option (Z * SlotPool) :=
  match hops with
  | O => Some (INVALID, p)
  | S hops' =>
      '(idx, p') ← TryAcquireFrom p (Z.land (u32 (start + hop)) (shardMask p));
      if negb (idx =? INVALID) then Some (idx, p') else Acquire_loop hops' p' start (hop + 1)
  end.

Definition Acquire (hint : Z) (p : SlotPool) : option (Z * SlotPool) :=
  Acquire_loop (Z.to_nat (shardCount p)) p (Z.land hint (shardMask p)) 0.

Definition Release (p : SlotPool) (idx : Z) : option SlotPool :=
  let ring := Z.land idx (shardMask p) in
  let ctl := (sp_shards p).[ring] in
  let head := sh_head ctl in
  let pos := ring * perCap p + Z.land head (perMask p) in
  let diff := diff32 (c_seq (sp_ring p).[pos]) head in
  if diff =? 0 then
    Some (p <| sp_shards := (sp_shards p).[ring <- mk_ctl (u32 (head + 1)) (sh_tail ctl)] |>
            <| sp_ring := (sp_ring p).[pos <- mk_cell (u32 (head + 1)) idx] |>)
  else None.

(** Lock words. *)
Definition lock_word (p : SlotPool) (idx : Z) : Z := (sp_locks p).[idx].
Definition set_lock (p : SlotPool) (idx v : Z) : SlotPool := p <| sp_locks := (sp_locks p).[idx <- v] |>.

Definition ReadLock (p : SlotPool) (idx : Z) : option SlotPool :=
  let cur := lock_word p idx in
  if (cur =? WRITE_LOCKED) || (MAX_READERS <=? cur) then None else Some (set_lock p idx (u32 (cur + 1))).
Definition WriteLock (p : SlotPool) (idx : Z) : option SlotPool :=
  if lock_word p idx =? 0 then Some (set_lock p idx WRITE_LOCKED) else None.
Definition UnlockRead (p : SlotPool) (idx : Z) : SlotPool := set_lock p idx (u32 (lock_word p idx - 1)).
Definition UnlockWrite (p : SlotPool) (idx : Z) : SlotPool := set_lock p idx 0.
Definition DowngradeLock (p : SlotPool) (idx : Z) : SlotPool :=
  if lock_word p idx =? WRITE_LOCKED then set_lock p idx 1 else p.

(** Byte offset of a slot, in 64 bits. *)
Definition GetSlotPtr (p : SlotPool) (idx : Z) : Z := u64 (idx * sp_stride p).

(** ** What a client may rely on

    An allocator of slots, with the indices currently out: it hands out an index
    nobody holds unless all are held, and takes a held one back at once. *)
Class Allocator (S : Type) := {
  al_owns : S -> Z -> list Z -> Prop;
  al_acquire : Z -> S -> option (Z * S);
  al_release : S -> Z -> option S;
  al_capacity : S -> Z;
  al_acquire_ok : forall s n held hint, al_owns s n held ->
    (zlen held < n /\ exists idx s', al_acquire hint s = Some (idx, s') /\
        (idx ∉ held) /\ 0 <= idx < n /\ al_owns s' n (idx :: held)) \/
    (zlen held = n /\ exists s', al_acquire hint s = Some (INVALID, s') /\ al_owns s' n held);
  al_release_ok : forall s n held idx, al_owns s n (idx :: held) ->
    exists s', al_release s idx = Some s' /\ al_owns s' n held;
  al_held : forall s n held, al_owns s n held ->
    al_capacity s = n /\ NoDup held /\ Forall (fun i => 0 <= i < n) held /\ n <= 2 ^ 31;
  al_perm : forall s n held held', held ≡ₚ held' -> al_owns s n held -> al_owns s n held' }.

(** ** The free lists *)

Definition fupd {B} (f : Z -> B) (r : Z) (v : B) : Z -> B := fun x => if x =? r then v else f x.

Lemma fupd_eq {B} (f : Z -> B) r v : fupd f r v r = v.
Proof. unfold fupd. by rewrite Z.eqb_refl. Qed.
Lemma fupd_ne {B} (f : Z -> B) r v x : x <> r -> fupd f r v x = f x.
Proof. unfold fupd. intros. by destruct (Z.eqb_spec x r). Qed.

Definition free_all (fr : Z -> list Z) (rs : list Z) : list Z := concat (map fr rs).

Lemma free_all_ext fr fr' rs : (forall r, r ∈ rs -> fr r = fr' r) -> free_all fr rs = free_all fr' rs.
Proof.
  unfold free_all. induction rs as [|r rs IH]; intros H; [done|]. cbn. f_equal.
  - apply H. by left.
  - apply IH. intros. apply H. by right.
Qed.

(** Changing one ring by one index changes the union by that index. *)
Lemma free_all_upd fr rs r x l :
  NoDup rs -> r ∈ rs -> fr r ≡ₚ x :: l -> free_all fr rs ≡ₚ x :: free_all (fupd fr r l) rs.
Proof.
  intros Hnd Hin Hx. induction Hnd as [|y rs Hy Hnd IH]; [by apply not_elem_of_nil in Hin|].
  unfold free_all in *. cbn. apply elem_of_cons in Hin as [->|Hin].
  - rewrite Hx, fupd_eq. cbn. apply Permutation_skip, Permutation_app_head.
    fold (free_all fr rs) (free_all (fupd fr y l) rs).
    rewrite (free_all_ext (fupd fr y l) fr); [done|]. intros r Hr. apply fupd_ne. by intros ->.
  - assert (y <> r) by (by intros ->). rewrite fupd_ne by done.
    rewrite (IH Hin). by rewrite Permutation_middle.
Qed.

Lemma elem_of_free_all fr rs x : x ∈ free_all fr rs <-> exists r, r ∈ rs /\ x ∈ fr r.
Proof.
  unfold free_all. induction rs as [|r rs IH]; cbn.
  - split; [by intros ?%not_elem_of_nil|intros (r&?%not_elem_of_nil&_); done].
  - rewrite elem_of_app, IH. setoid_rewrite elem_of_cons. split.
    + intros [?|(r'&?&?)]; eauto.
    + intros (r'&[->|?]&?); eauto.
Qed.

(** The indices [0 .. n-1]. *)
Definition upto (n : Z) : list Z := map Z.of_nat (seq 0 (Z.to_nat n)).

Lemma elem_of_upto n x : x ∈ upto n <-> 0 <= x < n.
Proof.
  unfold upto. rewrite list_elem_of_fmap. split.
  - intros (i&->&Hi%elem_of_seq). lia.
  - intros Hx. exists (Z.to_nat x). split; [lia|]. apply elem_of_seq. lia.
Qed.
Lemma NoDup_upto n : NoDup (upto n).
Proof. unfold upto. apply NoDup_fmap_2; [intros ??; lia|apply NoDup_seq]. Qed.
Lemma zlen_upto n : 0 <= n -> zlen (upto n) = n.
Proof. intros. unfold upto, zlen. rewrite length_map, length_seq. lia. Qed.

(** ** Regions of the flat cell array *)

Section Flat.
Context {A : Type} `{!Inhabited A}.
Implicit Types (a : list A).

Lemma region_set_in a off n i v :
  0 <= off -> 0 <= i < n -> off + n <= zlen a ->
  region (a.[off + i <- v]) off n = (region a off n).[i <- v].
Proof.
  intros. apply arr_ext.
  - rewrite zlen_set, !zlen_region; rewrite ?zlen_set; lia.
  - rewrite zlen_region by (rewrite ?zlen_set; lia). intros x Hx.
    rewrite region_lookup by (rewrite ?zlen_set; lia).
    rewrite !arr_get_set by (rewrite ?zlen_region; lia). rewrite region_lookup by lia.
    destruct (Z.eqb_spec (off + i) (off + x)), (Z.eqb_spec i x); lia || done.
Qed.

Lemma region_set_out a off n p v :
  0 <= off -> 0 <= n -> off + n <= zlen a -> 0 <= p < zlen a -> ~ (off <= p < off + n) ->
  region (a.[p <- v]) off n = region a off n.
Proof.
  intros. apply arr_ext.
  - rewrite !zlen_region; rewrite ?zlen_set; lia.
  - rewrite zlen_region by (rewrite ?zlen_set; lia). intros x Hx.
    rewrite !region_lookup by (rewrite ?zlen_set; lia). apply arr_get_set_ne; lia.
Qed.
End Flat.

(** ** The pool invariant *)

Section Pool.
Context (j k : Z) (Hj : 0 <= j) (Hk : 0 <= k) (Hjk : j + k <= 31).
Abbreviation SC := (2 ^ j).
Abbreviation PC := (2 ^ k).
Definition POOL : Z := 2 ^ (j + k).

Lemma pool_sizes : 1 <= SC /\ 1 <= PC /\ POOL = SC * PC /\ POOL <= 2 ^ 31 /\ SC <= 2 ^ 31 /\ PC <= 2 ^ 31.
Proof using Hj Hk Hjk.
  pose proof (Z.pow_pos_nonneg 2 j ltac:(lia) Hj). pose proof (Z.pow_pos_nonneg 2 k ltac:(lia) Hk).
  unfold POOL. rewrite <- Z.pow_add_r by lia. repeat split; try lia; apply Z.pow_le_mono_r; lia.
Qed.

(** Ring [r]'s cells inside the flat array. *)
Definition ring_of (p : SlotPool) (r : Z) : list (cell Z) := region (sp_ring p) (r * PC) PC.

Record pool_at (p : SlotPool) (fr : Z -> list Z) (T : Z -> Z) : Prop := {
  pa_cap : sp_capacity p = POOL; pa_sc : shardCount p = SC; pa_sm : shardMask p = SC - 1;
  pa_pc : perCap p = PC; pa_pm : perMask p = PC - 1;
  pa_ring : zlen (sp_ring p) = POOL; pa_shards : zlen (sp_shards p) = SC;
  pa_rings : forall r, 0 <= r < SC -> ring_holds k (ring_of p r) (T r) (fr r);
  pa_ctl : forall r, 0 <= r < SC -> (sp_shards p).[r] = mk_ctl (u32 (T r + zlen (fr r))) (u32 (T r));
  pa_home : forall r x, 0 <= r < SC -> x ∈ fr r -> x mod SC = r }.

Definition pool_owns (p : SlotPool) (held : list Z) : Prop :=
  exists fr T, pool_at p fr T /\ free_all fr (upto SC) ++ held ≡ₚ upto POOL.

Lemma ring_in_flat r i : 0 <= r < SC -> 0 <= i < PC -> 0 <= r * PC + i < POOL.
Proof using Hj Hk Hjk. intros. destruct pool_sizes as (?&?&->&_). nia. Qed.

Lemma ring_cell p r i :
  zlen (sp_ring p) = POOL -> 0 <= r < SC -> 0 <= i < PC -> (sp_ring p).[r * PC + i] = (ring_of p r).[i].
Proof using Hj Hk Hjk.
  intros Hl Hr Hi. unfold ring_of. rewrite region_lookup; [done|nia|done|].
  rewrite Hl. pose proof (ring_in_flat r (PC - 1) Hr ltac:(lia)). lia.
Qed.

(** Storing into one ring's cell changes that ring only. *)
Lemma ring_of_set p r r' i v s :
  zlen (sp_ring p) = POOL -> 0 <= r < SC -> 0 <= r' < SC -> 0 <= i < PC ->
  ring_of (p <| sp_shards := s |> <| sp_ring := (sp_ring p).[r * PC + i <- v] |>) r' =
  if r' =? r then (ring_of p r).[i <- v] else ring_of p r'.
Proof using Hj Hk Hjk.
  intros Hl Hr Hr' Hi. unfold ring_of. cbn.
  pose proof (ring_in_flat r i Hr Hi). pose proof (ring_in_flat r' (PC - 1) Hr' ltac:(lia)).
  pose proof (ring_in_flat r (PC - 1) Hr ltac:(lia)).
  destruct (Z.eqb_spec r' r) as [->|].
  - apply region_set_in; [nia|done|lia].
  - apply region_set_out; [nia|lia|lia|lia|]. intros ?. assert (r' < r \/ r < r') as [?|?] by lia; nia.
Qed.

Lemma take_at p fr T r x l :
  pool_at p fr T -> 0 <= r < SC -> fr r = x :: l ->
  exists p', TryAcquireFrom p r = Some (x, p') /\ pool_at p' (fupd fr r l) (fupd T r (T r + 1)).
Proof using Hj Hk Hjk.
  intros [H1 H2 H3 H4 H5 H6 H7 Hrings Hctl Hhome] Hr Hx. destruct pool_sizes as (S1&S2&S3&S4&S5&S6).
  assert (Hk' : 0 <= k <= 31) by lia.
  pose proof (Hrings r Hr) as Hh. rewrite Hx in Hh.
  pose proof (ring_take_test k Hk' _ _ _ Hh) as Ht. destruct (ring_take k Hk' _ _ _ _ Hh) as [Hc Hn].
  pose proof (ring_pos_range k Hk' (T r)) as Hpos. unfold CAP in *.
  unfold TryAcquireFrom. rewrite (Hctl r Hr), H4, H5. cbn [sh_tail sh_head].
  rewrite (u32_mask k Hk'), u32_add_l. unfold CAP. rewrite ring_cell by done. rewrite Ht.
  assert (Hlx : (zlen (x :: l) =? 0) = false) by (apply Z.eqb_neq; unfold zlen; simpl; lia).
  rewrite Hlx, Z.eqb_refl, Hc. cbn [c_val]. eexists. split; [reflexivity|].
  split; try done; [cbn; by rewrite zlen_set|cbn; by rewrite zlen_set|..].
  - intros r' Hr'. rewrite ring_of_set by done. destruct (Z.eqb_spec r' r) as [->|].
    + rewrite !fupd_eq. replace (u32 (u32 (T r) + (PC - 1) + 1)) with (u32 (T r + PC)); [apply Hn|].
      replace (u32 (T r) + (PC - 1) + 1) with (u32 (T r) + PC) by lia. by rewrite u32_add_l.
    + rewrite !fupd_ne by done. by apply Hrings.
  - intros r' Hr'. cbn. rewrite arr_get_set by lia. destruct (Z.eqb_spec r r') as [<-|].
    + rewrite !fupd_eq. rewrite Hx. f_equal. f_equal. unfold zlen. simpl. lia.
    + rewrite !fupd_ne by done. by apply Hctl.
  - intros r' y Hr' Hy. destruct (decide (r' = r)) as [->|].
    + rewrite fupd_eq in Hy. apply Hhome; [done|]. rewrite Hx. by right.
    + rewrite fupd_ne in Hy by done. by apply Hhome.
Qed.

Lemma take_empty p fr T r :
  pool_at p fr T -> 0 <= r < SC -> fr r = [] -> TryAcquireFrom p r = Some (INVALID, p).
Proof using Hj Hk Hjk.
  intros [H1 H2 H3 H4 H5 H6 H7 Hrings Hctl Hhome] Hr Hx. assert (Hk' : 0 <= k <= 31) by lia.
  pose proof (Hrings r Hr) as Hh. rewrite Hx in Hh.
  pose proof (ring_take_test k Hk' _ _ _ Hh) as Ht. pose proof (ring_pos_range k Hk' (T r)) as Hpos. unfold CAP in *.
  unfold TryAcquireFrom. rewrite (Hctl r Hr), H4, H5. cbn [sh_tail sh_head].
  rewrite (u32_mask k Hk'), u32_add_l. unfold CAP. rewrite ring_cell by done. by rewrite Ht.
Qed.

Lemma put_at p fr T r x :
  pool_at p fr T -> 0 <= r < SC -> zlen (fr r) < PC -> x mod SC = r -> 0 <= x ->
  exists p', Release p x = Some p' /\ pool_at p' (fupd fr r (fr r ++ [x])) T.
Proof using Hj Hk Hjk.
  intros [H1 H2 H3 H4 H5 H6 H7 Hrings Hctl Hhome] Hr Hroom Hx Hx0. destruct pool_sizes as (S1&S2&S3&S4&S5&S6).
  assert (Hk' : 0 <= k <= 31) by lia.
  pose proof (Hrings r Hr) as Hh. pose proof (ring_put_test k Hk' _ _ _ Hh) as Ht.
  destruct (ring_put k Hk' _ _ _ x Hh Hroom) as [_ Hn].
  pose proof (ring_pos_range k Hk' (T r + zlen (fr r))) as Hpos. unfold CAP in *.
  unfold Release. rewrite H3, land_mask, Hx by lia. rewrite (Hctl r Hr), H4, H5. cbn [sh_tail sh_head].
  rewrite (u32_mask k Hk'). unfold CAP. rewrite ring_cell by done. rewrite Ht.
  assert ((zlen (fr r) <? PC) = true) as -> by (apply Z.ltb_lt; lia). rewrite Z.eqb_refl.
  eexists. split; [reflexivity|]. split; try done; [cbn; by rewrite zlen_set|cbn; by rewrite zlen_set|..].
  - intros r' Hr'. rewrite ring_of_set by done. destruct (Z.eqb_spec r' r) as [->|].
    + rewrite !fupd_eq. rewrite u32_add_l. apply Hn.
    + rewrite !fupd_ne by done. by apply Hrings.
  - intros r' Hr'. cbn. rewrite arr_get_set by lia. destruct (Z.eqb_spec r r') as [<-|].
    + rewrite !fupd_eq, u32_add_l, zlen_app. f_equal. f_equal. unfold zlen. simpl. lia.
    + rewrite !fupd_ne by done. by apply Hctl.
  - intros r' y Hr' Hy. destruct (decide (r' = r)) as [->|].
    + rewrite fupd_eq in Hy. apply elem_of_app in Hy as [Hy|Hy]; [by apply Hhome|].
      apply list_elem_of_singleton in Hy as ->. done.
    + rewrite fupd_ne in Hy by done. by apply Hhome.
Qed.

Lemma owns_range fr held r x :
  free_all fr (upto SC) ++ held ≡ₚ upto POOL -> 0 <= r < SC -> x ∈ fr r -> 0 <= x < POOL.
Proof using.
  intros HP Hr Hx. apply elem_of_upto. rewrite <- HP. apply elem_of_app. left.
  apply elem_of_free_all. exists r. by rewrite elem_of_upto.
Qed.

Lemma Acquire_loop_spec p fr T start :
  pool_at p fr T -> (forall r x, 0 <= r < SC -> x ∈ fr r -> x <> INVALID) ->
  forall hops hop, 0 <= start -> 0 <= hop ->
  (exists r x l p', 0 <= r < SC /\ fr r = x :: l /\ Acquire_loop hops p start hop = Some (x, p') /\
     pool_at p' (fupd fr r l) (fupd T r (T r + 1))) \/
  ((forall h, hop <= h < hop + Z.of_nat hops -> fr ((start + h) mod SC) = []) /\
   Acquire_loop hops p start hop = Some (INVALID, p)).
Proof using Hj Hk Hjk.
  intros Hp Hval hops. destruct pool_sizes as (S1&_).
  induction hops as [|hops IH]; intros hop Hs Hh; [right; split; [lia|done]|].
  cbn [Acquire_loop]. rewrite (pa_sm _ _ _ Hp), (u32_mask j) by lia. unfold CAP.
  pose proof (Z.mod_pos_bound (start + hop) SC ltac:(lia)) as Hr.
  destruct (fr ((start + hop) mod SC)) as [|x l] eqn:E.
  - rewrite (take_empty p fr T) by done. cbn. rewrite Z.eqb_refl. cbn.
    destruct (IH (hop + 1) Hs ltac:(lia)) as [?|[Hall ->]]; [by left|right]. split; [|done].
    intros h Hh'. destruct (decide (h = hop)) as [->|]; [done|]. apply Hall. lia.
  - left. destruct (take_at p fr T _ x l Hp Hr E) as (p'&->&Hp'). cbn.
    destruct (Z.eqb_spec x INVALID) as [->|]; [exfalso; eapply Hval; [exact Hr| |done]; rewrite E; by left|].
    cbn. exists ((start + hop) mod SC), x, l, p'. done.
Qed.

Lemma Acquire_owns hint p held :
  pool_owns p held ->
  (zlen held < POOL /\ exists idx p', Acquire hint p = Some (idx, p') /\
      (idx ∉ held) /\ 0 <= idx < POOL /\ pool_owns p' (idx :: held)) \/
  (zlen held = POOL /\ Acquire hint p = Some (INVALID, p)).
Proof using Hj Hk Hjk.
  intros (fr&T&Hp&HP). destruct pool_sizes as (S1&S2&S3&S4&_).
  assert (Hval : forall r x, 0 <= r < SC -> x ∈ fr r -> x <> INVALID).
  { intros r x Hr Hx. pose proof (owns_range _ _ _ _ HP Hr Hx). unfold INVALID, UINT32_MAX. lia. }
  unfold Acquire. rewrite (pa_sc _ _ _ Hp), (pa_sm _ _ _ Hp), land_mask by lia.
  pose proof (Z.mod_pos_bound hint SC ltac:(lia)) as Hst.
  destruct (Acquire_loop_spec p fr T (hint mod SC) Hp Hval (Z.to_nat SC) 0) as [(r&x&l&p'&Hr&E&->&Hp')|[Hall ->]];
    [lia|lia|left|right].
  - assert (HP' : free_all (fupd fr r l) (upto SC) ++ x :: held ≡ₚ upto POOL).
    { rewrite <- HP, (free_all_upd fr (upto SC) r x l); [|apply NoDup_upto|by apply elem_of_upto|by rewrite E].
      symmetry. apply Permutation_middle. }
    assert (Hnd : NoDup (free_all (fupd fr r l) (upto SC) ++ x :: held)) by (rewrite HP'; apply NoDup_upto).
    apply NoDup_app in Hnd as (_&_&Hnd). apply NoDup_cons in Hnd as [Hx _]. split.
    + pose proof (Permutation_length HP') as HL. rewrite length_app in HL. simpl in HL.
      pose proof (zlen_upto POOL ltac:(lia)). unfold zlen in *. lia.
    + exists x, p'. split_and!; [done|done| | |].
      * eapply owns_range; [exact HP|exact Hr|rewrite E; by left].
      * eapply owns_range; [exact HP|exact Hr|rewrite E; by left].
      * by exists (fupd fr r l), (fupd T r (T r + 1)).
  - split; [|done]. assert (free_all fr (upto SC) = []) as E.
    { destruct (free_all fr (upto SC)) as [|x l] eqn:Ex; [done|]. exfalso.
      assert (x ∈ free_all fr (upto SC)) as Hin by (rewrite Ex; by left).
      apply elem_of_free_all in Hin as (r&Hr%elem_of_upto&Hx).
      specialize (Hall ((r - hint mod SC) mod SC)).
      assert ((hint mod SC + (r - hint mod SC) mod SC) mod SC = r) as Er.
      { rewrite Zplus_mod_idemp_r. replace (hint mod SC + (r - hint mod SC)) with r by lia. by apply Z.mod_small. }
      rewrite Er in Hall. rewrite Hall in Hx; [by apply not_elem_of_nil in Hx|].
      pose proof (Z.mod_pos_bound (r - hint mod SC) SC). lia. }
    rewrite E in HP. cbn in HP. pose proof (Permutation_length HP) as HL.
    pose proof (zlen_upto POOL ltac:(lia)). unfold zlen in *. lia.
Qed.

(** A residue class has one member per cell of its ring. *)
Lemma class_count l r :
  NoDup l -> Forall (fun x => 0 <= x < POOL /\ x mod SC = r) l -> zlen l <= PC.
Proof using Hj Hk Hjk.
  intros Hnd HF. destruct pool_sizes as (S1&S2&S3&_).
  assert (Hsub : map (fun x => x / SC) l ⊆+ upto PC).
  { apply NoDup_submseteq.
    - clear S3. induction Hnd as [|x l Hx Hnd IH]; [constructor|]. cbn. apply Forall_cons in HF as [[Hx1 Hx2] HF].
      constructor; [|by apply IH]. intros (y&Ey&Hy)%list_elem_of_fmap. apply Hx.
      rewrite Forall_forall in HF. destruct (HF y Hy) as [Hy1 Hy2].
      assert (x = y) as ->; [|done]. rewrite (Z.div_mod x SC), (Z.div_mod y SC) by lia. congruence.
    - intros y (x&->&Hx)%list_elem_of_fmap. apply elem_of_upto. rewrite Forall_forall in HF.
      destruct (HF x Hx) as [Hr _]. rewrite S3 in Hr. split; [apply Z.div_pos; lia|].
      apply Z.div_lt_upper_bound; lia. }
  apply submseteq_length in Hsub. rewrite length_map in Hsub.
  pose proof (zlen_upto PC ltac:(lia)). unfold zlen in *. lia.
Qed.

Lemma Release_owns p idx held :
  pool_owns p (idx :: held) -> exists p', Release p idx = Some p' /\ pool_owns p' held.
Proof using Hj Hk Hjk.
  intros (fr&T&Hp&HP). destruct pool_sizes as (S1&S2&S3&S4&_).
  assert (Hidx : 0 <= idx < POOL).
  { apply elem_of_upto. rewrite <- HP. apply elem_of_app. right. by left. }
  pose proof (Z.mod_pos_bound idx SC ltac:(lia)) as Hr. set (r := idx mod SC) in *.
  assert (Hnd : NoDup (free_all fr (upto SC) ++ idx :: held)) by (rewrite HP; apply NoDup_upto).
  assert (Hsplit : free_all fr (upto SC) ≡ₚ fr r ++ free_all (fupd fr r []) (upto SC)).
  { clear -Hr Hj. assert (Hin : r ∈ upto SC) by (by apply elem_of_upto). revert Hin. generalize (NoDup_upto SC).
    generalize (upto SC). intros rs Hnd Hin. induction Hnd as [|y rs Hy Hnd IH]; [by apply not_elem_of_nil in Hin|].
    unfold free_all in *. cbn. apply elem_of_cons in Hin as [<-|Hin].
    - rewrite fupd_eq. cbn. apply Permutation_app_head. fold (free_all fr rs) (free_all (fupd fr r []) rs).
      rewrite (free_all_ext (fupd fr r []) fr); [done|]. intros x Hx. apply fupd_ne. by intros ->.
    - rewrite fupd_ne by (by intros ->). rewrite (IH Hin). rewrite !app_assoc. by rewrite (Permutation_app_comm (fr y)). }
  assert (Hroom : zlen (fr r) < PC).
  { assert (Hc : zlen (idx :: fr r) <= PC).
    { apply class_count with r.
      - assert (Hperm : free_all fr (upto SC) ++ idx :: held ≡ₚ (idx :: fr r) ++ (free_all (fupd fr r []) (upto SC) ++ held)).
        { rewrite Hsplit, <- Permutation_middle. cbn. by rewrite app_assoc. }
        rewrite Hperm in Hnd. by apply NoDup_app in Hnd as (Hnd&_&_).
      - constructor; [done|]. apply Forall_forall. intros x Hx. split; [by eapply owns_range|].
        by apply (pa_home _ _ _ Hp). }
    unfold zlen in *. simpl in Hc. lia. }
  destruct (put_at p fr T r idx Hp Hr Hroom eq_refl ltac:(lia)) as (p'&->&Hp'). exists p'. split; [done|].
  exists (fupd fr r (fr r ++ [idx])), T. split; [done|]. rewrite <- HP.
  rewrite (free_all_upd (fupd fr r (fr r ++ [idx])) (upto SC) r idx (fr r)).
  - rewrite (free_all_ext (fupd (fupd fr r (fr r ++ [idx])) r (fr r)) fr).
    + cbn. apply Permutation_middle.
    + intros x _. unfold fupd. by destruct (Z.eqb_spec x r) as [->|].
  - apply NoDup_upto.
  - by apply elem_of_upto.
  - rewrite fupd_eq. symmetry. apply Permutation_cons_append.
Qed.
End Pool.

(** ** A fresh pool *)

Lemma region_concat {A} (f : nat -> list A) (n m r : nat) :
  (forall i, length (f i) = m) -> (r < n)%nat ->
  region (concat (map f (seq 0 n))) (Z.of_nat r * Z.of_nat m) (Z.of_nat m) = f r.
Proof.
  intros Hlen Hr. unfold region.
  replace (Z.to_nat (Z.of_nat r * Z.of_nat m)) with (r * m)%nat by lia. rewrite Nat2Z.id.
  assert (Hpre : forall a b, length (concat (map f (seq a b))) = (b * m)%nat).
  { intros a b. revert a. induction b as [|b IH]; intros a; [done|]. cbn. rewrite length_app, Hlen, IH. lia. }
  replace n with (r + (1 + (n - r - 1)))%nat by lia. rewrite seq_app, map_app, concat_app.
  rewrite drop_app_length' by (rewrite Hpre; lia). rewrite Nat.add_0_l. cbn [seq map concat Nat.add].
  by rewrite take_app_length' by (by rewrite Hlen).
Qed.

Section Init.
Context (j k : Z) (Hj : 0 <= j) (Hk : 0 <= k) (Hjk : j + k <= 31).

Definition init_free (r : Z) : list Z := map (fun i => r + Z.of_nat i * 2 ^ j) (seq 0 (Z.to_nat (2 ^ k))).

Lemma init_free_all : free_all init_free (upto (2 ^ j)) ≡ₚ upto (POOL j k).
Proof using Hj Hk Hjk.
  destruct (pool_sizes j k Hj Hk Hjk) as (S1&S2&S3&_). symmetry.
  apply submseteq_length_Permutation; [apply NoDup_submseteq; [apply NoDup_upto|]|].
  - intros x Hx%elem_of_upto. apply elem_of_free_all. exists (x mod 2 ^ j). split.
    + apply elem_of_upto. apply Z.mod_pos_bound. lia.
    + unfold init_free. apply list_elem_of_fmap. exists (Z.to_nat (x / 2 ^ j)). rewrite S3 in Hx.
      pose proof (Z.div_pos x (2 ^ j) ltac:(lia) ltac:(lia)).
      pose proof (Z.div_lt_upper_bound x (2 ^ j) (2 ^ k) ltac:(lia) ltac:(lia)). split.
      * rewrite Z2Nat.id by lia. pose proof (Z.div_mod x (2 ^ j) ltac:(lia)). lia.
      * apply elem_of_seq. lia.
  - assert (Hl : forall rs, length (free_all init_free rs) = (length rs * Z.to_nat (2 ^ k))%nat).
    { intros rs. unfold free_all. induction rs as [|r rs IH]; [done|]. cbn. rewrite length_app, IH.
      unfold init_free at 1. by rewrite length_map, length_seq. }
    rewrite Hl. pose proof (zlen_upto (POOL j k) ltac:(nia)). pose proof (zlen_upto (2 ^ j) ltac:(lia)).
    unfold zlen in *. nia.
Qed.

Lemma Pool_Init_owns capacity stride :
  NextPowerOfTwo capacity = POOL j k -> j = Z.min 4 (j + k) -> pool_owns j k (Pool_Init capacity stride) [].
Proof using Hj Hk Hjk.
  intros Hcap Hjmin. destruct (pool_sizes j k Hj Hk Hjk) as (S1&S2&S3&S4&S5&S6).
  assert (Hsc : (if POOL j k <? SHARD_COUNT then POOL j k else SHARD_COUNT) = 2 ^ j).
  { unfold SHARD_COUNT, POOL. change 16 with (2 ^ 4). destruct (Z.ltb_spec (2 ^ (j + k)) (2 ^ 4)) as [H|H].
    - apply Z.pow_lt_mono_r_iff in H; [|lia|lia]. f_equal. lia.
    - apply Z.pow_le_mono_r_iff in H; [|lia|lia]. f_equal. lia. }
  exists init_free, (fun _ => 0). split; [|by rewrite app_nil_r, init_free_all].
  unfold Pool_Init. rewrite Hcap, Hsc, S3. replace (2 ^ j * 2 ^ k / 2 ^ j) with (2 ^ k)
    by (rewrite Z.mul_comm, Z.div_mul; lia).
  set (mkrow := fun r => map _ _).
  assert (Hrow : forall i, length (mkrow i) = Z.to_nat (2 ^ k)) by (intros; subst mkrow; cbn; by rewrite length_map, length_seq).
  assert (Hlen : forall r, zlen (init_free r) = 2 ^ k) by (intros; unfold init_free, zlen; rewrite length_map, length_seq; lia).
  split; cbn; try done; try (by rewrite u32_small by lia); try lia.
  - unfold zlen. assert (Hc : forall a b, length (concat (map mkrow (seq a b))) = (b * Z.to_nat (2 ^ k))%nat).
    { intros a b. revert a. induction b as [|b IH]; intros a; [done|]. cbn. rewrite length_app, Hrow, IH. lia. }
    rewrite Hc. nia.
  - rewrite zlen_replicate by lia. done.
  - intros r Hr. unfold ring_of. cbn.
    pose proof (region_concat mkrow (Z.to_nat (2 ^ j)) (Z.to_nat (2 ^ k)) (Z.to_nat r) Hrow ltac:(lia)) as Hreg.
    rewrite !Z2Nat.id in Hreg by lia. rewrite Hreg.
    split; unfold CAP; rewrite ?Hlen; try lia.
    + unfold zlen. rewrite Hrow. lia.
    + intros i Hi. rewrite Z.add_0_l, Z.mod_small by lia. subst mkrow. unfold init_free, arr_get. cbn.
      rewrite !list_lookup_total_alt, !list_lookup_fmap, !lookup_seq_lt by lia. cbn.
      rewrite !Z2Nat.id by lia. f_equal. apply u32_small. nia.
  - intros r Hr. rewrite arr_get_replicate by lia. rewrite Hlen, u32_small by lia. done.
  - intros r x Hr Hx. unfold init_free in Hx. apply list_elem_of_fmap in Hx as (i&->&_).
    rewrite Z_mod_plus_full. by apply Z.mod_small.
Qed.
End Init.

(** ** The pool is an allocator *)

Definition SlotPool_owns (p : SlotPool) (n : Z) (held : list Z) : Prop :=
  exists j k, 0 <= j /\ 0 <= k /\ j + k <= 31 /\ n = POOL j k /\ pool_owns j k p held.

#[export] Program Instance SlotPool_allocator : Allocator SlotPool := {|
  al_owns := SlotPool_owns; al_acquire := Acquire; al_release := Release; al_capacity := sp_capacity |}.
Next Obligation.
  intros p n held hint (j&k&Hj&Hk&Hjk&->&Ho).
  destruct (Acquire_owns j k Hj Hk Hjk hint p held Ho) as [[Hlt (idx&p'&E&?&?&?)]|[Heq E]].
  - left. split; [done|]. exists idx, p'. split_and!; [done|done|lia|lia|by exists j, k].
  - right. split; [done|]. exists p. split; [done|]. by exists j, k.
Qed.
Next Obligation.
  intros p n held idx (j&k&Hj&Hk&Hjk&->&Ho).
  destruct (Release_owns j k Hj Hk Hjk p idx held Ho) as (p'&E&?). exists p'. split; [done|]. by exists j, k.
Qed.
Next Obligation.
  intros p n held (j&k&Hj&Hk&Hjk&->&(fr&T&Hp&HP)). destruct (pool_sizes j k Hj Hk Hjk) as (_&_&_&?&_).
  assert (NoDup (free_all fr (upto (2 ^ j)) ++ held)) as (_&_&Hnd)%NoDup_app by (rewrite HP; apply NoDup_upto).
  split_and!; [apply Hp|done| |done]. apply Forall_forall. intros x Hx. apply elem_of_upto. rewrite <- HP. apply elem_of_app. by right.
Qed.
Next Obligation.
  intros p n held held' HH (j&k&Hj&Hk&Hjk&->&(fr&T&Hp&HP)).
  exists j, k. split_and!; [done..|]. exists fr, T. by rewrite <- HH.
Qed.

(** ** Reachable pools *)

(** Everything a client that releases only what it holds can bring about, with the
    indices it then holds. *)
Inductive reach (capacity stride : Z) : SlotPool -> list Z -> Prop :=
| reach_init : reach capacity stride (Pool_Init capacity stride) []
| reach_acquire p held hint idx p' :
    reach capacity stride p held -> Acquire hint p = Some (idx, p') -> idx <> INVALID ->
    reach capacity stride p' (idx :: held)
| reach_exhausted p held hint p' :
    reach capacity stride p held -> Acquire hint p = Some (INVALID, p') -> reach capacity stride p' held
| reach_release p held1 idx held2 p' :
    reach capacity stride p (held1 ++ idx :: held2) -> Release p idx = Some p' ->
    reach capacity stride p' (held1 ++ held2).

Lemma reach_owns capacity stride n p held :
  NextPowerOfTwo capacity = 2 ^ n -> 0 <= n <= 31 -> reach capacity stride p held -> al_owns p (2 ^ n) held.
Proof.
  intros Hcap Hn. induction 1 as [|p held hint idx p' _ IH E Hne|p held hint p' _ IH E|p held1 idx held2 p' _ IH E].
  - exists (Z.min 4 n), (n - Z.min 4 n). split_and!; try lia.
    + unfold POOL. f_equal. lia.
    + apply Pool_Init_owns; try lia. rewrite Hcap. unfold POOL. f_equal. lia.
  - destruct (al_acquire_ok p (2 ^ n) held hint IH) as [(_&idx'&s'&E'&_&_&?)|(_&s'&E'&_)]; cbn in E'; by simplify_eq.
  - destruct (al_acquire_ok p (2 ^ n) held hint IH) as [(_&idx'&s'&E'&_&Hr&_)|(_&s'&E'&?)]; cbn in E'; simplify_eq; [|done].
    pose proof (Z.pow_le_mono_r 2 n 31 ltac:(lia) ltac:(lia)). unfold INVALID, UINT32_MAX in Hr. lia.
  - apply (al_perm p (2 ^ n) _ (idx :: held1 ++ held2)) in IH; [|symmetry; apply Permutation_middle].
    destruct (al_release_ok p (2 ^ n) _ _ IH) as (s'&E'&?). cbn in E'. by simplify_eq.
Qed.

(** (C39) However acquires and releases alternate, and whatever ring the hints
    start at, the indices out are distinct and in range; the next acquire returns
    an index nobody holds while one is left and fails exactly when none is; and a
    release by a holder never waits. *)
Theorem pool_exclusive (capacity stride n : Z) (p : SlotPool) (held : list Z)
  (Hcap : NextPowerOfTwo capacity = 2 ^ n) (Hn : 0 <= n <= 31) (Hreach : reach capacity stride p held) :
  NoDup held /\ Forall (fun i => 0 <= i < 2 ^ n) held /\
  (forall hint, exists idx p', Acquire hint p = Some (idx, p') /\
     if zlen held <? 2 ^ n then (idx ∉ held) /\ 0 <= idx < 2 ^ n else idx = INVALID) /\
  (forall idx, idx ∈ held -> is_Some (Release p idx)).
Proof.
  pose proof (reach_owns capacity stride n p held Hcap Hn Hreach) as Ho.
  destruct (al_held p (2 ^ n) held Ho) as (_&Hnd&Hrange&_). split_and!; [done|done| |].
  - intros hint. destruct (al_acquire_ok p (2 ^ n) held hint Ho) as [(Hlt&idx&s'&E&Hx&Hi&_)|(Heq&s'&E&_)].
    + exists idx, s'. split; [done|]. destruct (Z.ltb_spec (zlen held) (2 ^ n)); [done|lia].
    + exists INVALID, s'. split; [done|]. destruct (Z.ltb_spec (zlen held) (2 ^ n)); [lia|done].
  - intros idx [l1 [l2 ->]]%list_elem_of_split.
    apply (al_perm p (2 ^ n) _ (idx :: l1 ++ l2)) in Ho; [|symmetry; apply Permutation_middle].
    destruct (al_release_ok p (2 ^ n) _ _ Ho) as (s'&E&_). by exists s'.
Qed.

(** Two indices of the same ring are taken and the first goes back. *)
Definition pool0 : SlotPool := Pool_Init 20 64.
Definition pool1 : SlotPool := (default (0, pool0) (Acquire 1 pool0)).2.
Definition pool2 : SlotPool := (default (0, pool0) (Acquire 1 pool1)).2.
Definition pool3 : SlotPool := default pool0 (Release pool2 1).

Lemma pool3_reach : reach 20 64 pool3 [17].
Proof.
  apply (reach_release 20 64 pool2 [17] 1 []); [|vm_compute; reflexivity].
  apply (reach_acquire 20 64 pool1 [1] 1 17 pool2); [|vm_compute; reflexivity|done].
  apply (reach_acquire 20 64 pool0 [] 1 1 pool1); [constructor|vm_compute; reflexivity|done].
Qed.

Lemma pool_exclusive_witness :
  NoDup [17] /\ Forall (fun i => 0 <= i < 2 ^ 5) [17] /\
  (forall hint, exists idx p', Acquire hint pool3 = Some (idx, p') /\
     if zlen [17] <? 2 ^ 5 then (idx ∉ [17]) /\ 0 <= idx < 2 ^ 5 else idx = INVALID) /\
  (forall idx, idx ∈ [17] -> is_Some (Release pool3 idx)).
Proof.
  apply (pool_exclusive 20 64 5 pool3 [17]); [vm_compute; reflexivity|lia|exact pool3_reach].
Defined.

(** ** Lock words *)

(** A slot's lock as its users see it, and what each operation of a disciplined
    user does to the word. *)
Inductive lock_run (idx : Z) (p0 : SlotPool) : SlotPool -> Z -> bool -> Prop :=
| lk_start : lock_run idx p0 p0 0 false
| lk_read p r w p' : lock_run idx p0 p r w -> ReadLock p idx = Some p' -> lock_run idx p0 p' (r + 1) w
| lk_write p r w p' : lock_run idx p0 p r w -> WriteLock p idx = Some p' -> lock_run idx p0 p' r true
| lk_unread p r w : lock_run idx p0 p r w -> 0 < r -> lock_run idx p0 (UnlockRead p idx) (r - 1) w
| lk_unwrite p r : lock_run idx p0 p r true -> lock_run idx p0 (UnlockWrite p idx) r false
| lk_downgrade p r : lock_run idx p0 p r true -> lock_run idx p0 (DowngradeLock p idx) (r + 1) false.

Lemma lock_word_set p idx v : 0 <= idx < zlen (sp_locks p) -> lock_word (set_lock p idx v) idx = v.
Proof. intros. unfold lock_word, set_lock. cbn. by rewrite arr_get_set_eq. Qed.

Definition word_of (readers : Z) (writer : bool) : Z := if writer then WRITE_LOCKED else readers.

Lemma lock_run_word idx p0 p r w :
  0 <= idx < zlen (sp_locks p0) -> lock_word p0 idx = 0 -> lock_run idx p0 p r w ->
  zlen (sp_locks p) = zlen (sp_locks p0) /\ lock_word p idx = word_of r w /\
  0 <= r <= MAX_READERS /\ (w = true -> r = 0).
Proof.
  intros Hi H0. unfold MAX_READERS, WRITE_LOCKED. induction 1 as
    [|p r w p' _ (L&W&R&X) E|p r w p' _ (L&W&R&X) E|p r w _ (L&W&R&X) Hr|p r _ (L&W&R&X)|p r _ (L&W&R&X)].
  - split_and!; [done|done|lia|lia|done].
  - unfold ReadLock, MAX_READERS, WRITE_LOCKED in E. rewrite W in E. unfold word_of, WRITE_LOCKED in *.
    destruct w; [done|]. destruct (Z.eqb_spec r (2 ^ 32 - 1)); [done|].
    destruct (Z.leb_spec (2 ^ 32 - 2) r); [done|]. cbn in E. simplify_eq.
    rewrite lock_word_set, u32_small by lia. unfold set_lock. cbn. rewrite zlen_set. split_and!; lia || done.
  - unfold WriteLock, WRITE_LOCKED in E. rewrite W in E. unfold word_of, WRITE_LOCKED in *.
    destruct w; [done|]. destruct (Z.eqb_spec r 0); [|done]. simplify_eq.
    rewrite lock_word_set by lia. unfold set_lock. cbn. rewrite zlen_set. split_and!; lia || done.
  - destruct w; [specialize (X eq_refl); lia|]. unfold UnlockRead, word_of in *. rewrite lock_word_set by lia.
    rewrite W, u32_small by lia. unfold set_lock. cbn. rewrite zlen_set. split_and!; lia || done.
  - specialize (X eq_refl). unfold UnlockWrite, word_of. rewrite lock_word_set by lia.
    unfold set_lock. cbn. rewrite zlen_set. split_and!; lia || done.
  - specialize (X eq_refl). unfold DowngradeLock, word_of, WRITE_LOCKED in *. rewrite W, Z.eqb_refl, lock_word_set by lia.
    unfold set_lock. cbn. rewrite zlen_set. split_and!; lia || done.
Qed.

(** The lock word is a reader-writer lock.  However readers and writers
    of a slot take turns, there is never a reader beside a writer nor more readers
    than the word can count; a read lock is granted exactly when no writer is in
    and a reader's place is left, a write lock exactly when nobody is in. *)
Theorem slot_lock_excludes (idx : Z) (p0 p : SlotPool) (readers : Z) (writer : bool)
  (Hi : 0 <= idx < zlen (sp_locks p0)) (H0 : lock_word p0 idx = 0) (Hrun : lock_run idx p0 p readers writer) :
  (writer = true -> readers = 0) /\ 0 <= readers <= MAX_READERS /\
  (is_Some (ReadLock p idx) <-> writer = false /\ readers < MAX_READERS) /\
  (is_Some (WriteLock p idx) <-> writer = false /\ readers = 0).
Proof.
  destruct (lock_run_word idx p0 p readers writer Hi H0 Hrun) as (_&W&R&X).
  unfold ReadLock, WriteLock, WRITE_LOCKED, MAX_READERS in *. rewrite W. unfold word_of, WRITE_LOCKED.
  split; [done|]. split; [done|]. destruct writer.
  - split; (split; [intros [? E]; cbn in E; done|intros [? _]; done]).
  - destruct (Z.eqb_spec readers (2 ^ 32 - 1)); [lia|]. cbn [orb]. split.
    + destruct (Z.leb_spec (2 ^ 32 - 2) readers); split; [by intros [? ?]|lia|split; [done|lia]|by eexists].
    + destruct (Z.eqb_spec readers 0); split; [split; done|by eexists|by intros [? ?]|lia].
Qed.

Lemma slot_lock_excludes_witness :
  is_Some (ReadLock (DowngradeLock (default pool0 (WriteLock pool0 3)) 3) 3) /\
  (is_Some (WriteLock (DowngradeLock (default pool0 (WriteLock pool0 3)) 3) 3) <-> false = false /\ 0 + 1 = 0).
Proof.
  split; [by eexists|].
  apply (slot_lock_excludes 3 pool0 (DowngradeLock (default pool0 (WriteLock pool0 3)) 3) (0 + 1) false).
  - vm_compute. split; [discriminate|reflexivity].
  - vm_compute. reflexivity.
  - apply lk_downgrade. eapply lk_write; [apply lk_start|vm_compute; reflexivity].
Defined.

(** The size [Init] requests is a 32-bit product.  For 2^20 slots of
    4,096 bytes it wraps to nothing, while the second slot already lies 4,096
    bytes into the region: pools of four gibibytes or more are under-allocated. *)
Theorem pool_bytes_wraps :
  pool_bytes (2 ^ 20) 4096 = 0 /\
  GetSlotPtr (mk_pool (2 ^ 20) 4096 [] [] 16 15 65536 65535 []) 1 = 4096.
Proof. split; vm_compute; reflexivity. Qed.
