(* ===== verification/Errors.v ===== *)
(** * Error codes: [common/error.h]

    The codes every component of the library reports, with the values the source
    gives them. *)

From S2P Require Import Prelude.

Inductive Error :=
| Ok
| NotInitialized | InvalidParam | InvalidState | LimitReached | ResolveFailed | NotImplemented
| RandomFailed | AlreadyInUse | NotFound
| IoFailed | BindFailed | SendFailed
| AllocFailed | PoolExhausted | BufferFull | TooLarge
| Malformed | NotAuthenticated
| AlreadyPending | TooManyPending
| Refused.

#[export] Instance Error_eq_dec : EqDecision Error.
Proof. solve_decision. Defined.
