(* ===== verification/Keys.v ===== *)
(** * Keys of the peer table: [flux/address.h], [flux/peer/peer_id.h]

    What the peer table asks of a key: an equality test and a non-zero hash that
    equal keys share.  Addresses, peer ids and migration tags are instances; an
    address of a family other than IPv4 or IPv6, the unset address included, is
    equal to nothing, itself included, so it is not a usable key. *)

From S2P Require Import Prelude.

(** ** Definitions *)

(** A socket address as the hash and the comparison read it: the family, the raw
    port and scope words, and the address bytes. *)
Record Address := mk_addr { ss_family : Z; a_port : Z; a_bytes : list Z; a_scope : Z }.
#[export] Instance Address_eq_dec : EqDecision Address.
Proof. solve_decision. Defined.
#[export] Instance Address_inhabited : Inhabited Address := populate (mk_addr 0 0 [] 0).

(** The values of the Linux headers. *)
Definition AF_INET : Z := 2.
Definition AF_INET6 : Z := 10.

Definition Address_IsSet (a : Address) : bool := negb (ss_family a =? 0).

Definition Address_eqb (a b : Address) : bool :=
  if negb (ss_family a =? ss_family b) then false
  else if ss_family a =? AF_INET then
    (a_port a =? a_port b) && bool_decide (a_bytes a = a_bytes b)
  else if ss_family a =? AF_INET6 then
    (a_port a =? a_port b) && (a_scope a =? a_scope b) && bool_decide (a_bytes a = a_bytes b)
  else false.

(** FNV-1a. *)
Definition fnv_prime : Z := 0x100000001b3.
Definition feed (h : Z) (bytes : list Z) : Z := foldl (fun h b => u64 (Z.lxor h b * fnv_prime)) h bytes.

Definition Address_hash (a : Address) : Z :=
  let h := feed 0xcbf29ce484222325 (le_bytes 2 (ss_family a)) in
  if ss_family a =? AF_INET then feed (feed h (a_bytes a)) (le_bytes 2 (a_port a))
  else if ss_family a =? AF_INET6 then
    feed (feed (feed h (a_bytes a)) (le_bytes 4 (a_scope a))) (le_bytes 2 (a_port a))
  else h.

Definition HashAddr (a : Address) : Z := let h := Address_hash a in if negb (h =? 0) then h else 1.

Record BcpId := mk_id { id_bytes : list Z }.
#[export] Instance BcpId_eq_dec : EqDecision BcpId.
Proof. solve_decision. Defined.
#[export] Instance BcpId_inhabited : Inhabited BcpId := populate (mk_id []).

Definition BcpId_eqb (a b : BcpId) : bool := bool_decide (id_bytes a = id_bytes b).
Definition HashId (i : BcpId) : Z :=
  let h := le_value (take 8 (id_bytes i)) in if negb (h =? 0) then h else 1.

(** A migration tag: four bytes, read as one integer with nothing remapped. *)
Definition HashTag (tag : list Z) : Z := le_value tag.

(** ** The interface *)

Class TableKey (K : Type) := {
  key_eqb : K -> K -> bool;
  key_hash : K -> Z;
  key_ok : K -> Prop;
  key_hash_nonzero : forall a, key_hash a <> 0;
  key_refl : forall a, key_ok a -> key_eqb a a = true;
  key_sym : forall a b, key_eqb a b = key_eqb b a;
  key_trans : forall a b c, key_eqb a b = true -> key_eqb b c = true -> key_eqb a c = true;
  key_hash_eq : forall a b, key_eqb a b = true -> key_hash a = key_hash b }.

Lemma HashAddr_nonzero a : HashAddr a <> 0.
Proof. unfold HashAddr. cbv zeta. destruct (Z.eqb_spec (Address_hash a) 0); cbn; lia. Qed.
Lemma HashId_nonzero i : HashId i <> 0.
Proof. unfold HashId. cbv zeta. destruct (Z.eqb_spec (le_value (take 8 (id_bytes i))) 0); cbn; lia. Qed.

Lemma Address_eqb_iff a b :
  Address_eqb a b = true <->
  ss_family a = ss_family b /\ a_port a = a_port b /\ a_bytes a = a_bytes b /\
  (ss_family a = AF_INET \/ (ss_family a = AF_INET6 /\ a_scope a = a_scope b)).
Proof.
  unfold Address_eqb, AF_INET, AF_INET6. destruct (Z.eqb_spec (ss_family a) (ss_family b)) as [E|]; cbn [negb]; [|split; [done|tauto]].
  destruct (Z.eqb_spec (ss_family a) 2) as [E4|].
  { rewrite andb_true_iff, Z.eqb_eq, bool_decide_eq_true. tauto. }
  destruct (Z.eqb_spec (ss_family a) 10) as [E6|].
  { rewrite !andb_true_iff, !Z.eqb_eq, bool_decide_eq_true. split; [tauto|].
    intros (_&?&?&[?|[_ ?]]); [lia|done]. }
  split; [done|]. intros (_&_&_&[?|[? _]]); lia.
Qed.

#[export] Program Instance Address_key : TableKey Address := {|
  key_eqb := Address_eqb; key_hash := HashAddr;
  key_ok a := ss_family a = AF_INET \/ ss_family a = AF_INET6;
  key_hash_nonzero := HashAddr_nonzero |}.
Next Obligation. intros a H. apply Address_eqb_iff. destruct H; auto 10. Qed.
Next Obligation.
  intros a b. apply eq_iff_eq_true. rewrite !Address_eqb_iff. split; intros (E&?&?&[?|[? ?]]); rewrite E in *; auto 10.
Qed.
Next Obligation.
  intros a b c. rewrite !Address_eqb_iff. intros (E1&P1&B1&F1) (E2&P2&B2&F2).
  split_and!; [congruence..|]. destruct F1 as [?|[? ?]]; [by left|right].
  split; [done|]. destruct F2 as [F2|[? ?]]; [|congruence]. unfold AF_INET, AF_INET6 in *. congruence.
Qed.
Next Obligation.
  intros a b (E1&P1&B1&F1)%Address_eqb_iff. unfold HashAddr. cbv zeta.
  assert (Address_hash a = Address_hash b) as ->; [|done].
  unfold Address_hash. rewrite <- E1, <- P1, <- B1. unfold AF_INET, AF_INET6 in *.
  destruct F1 as [->|[-> ->]]; done.
Qed.

#[export] Program Instance BcpId_key : TableKey BcpId := {|
  key_eqb := BcpId_eqb; key_hash := HashId; key_ok _ := True; key_hash_nonzero := HashId_nonzero |}.
Next Obligation. intros a _. by apply bool_decide_eq_true. Qed.
Next Obligation. intros a b. apply bool_decide_ext. done. Qed.
Next Obligation. intros a b c. unfold BcpId_eqb. rewrite !bool_decide_eq_true. congruence. Qed.
Next Obligation. intros a b. unfold BcpId_eqb, HashId. by intros ->%bool_decide_eq_true. Qed.

(** Distinct tags have distinct hashes, so the tag index needs no key. *)
Lemma HashTag_inj t t' :
  Forall is_byte t -> Forall is_byte t' -> length t = length t' -> HashTag t = HashTag t' -> t = t'.
Proof.
  unfold HashTag. intros H1 H2 Hl E. rewrite <- (le_bytes_value t H1), <- (le_bytes_value t' H2). congruence.
Qed.
