(* ===== verification/Peer.v ===== *)
(** * A peer's record: [flux/peer/peer.h]

    The whole of [Peer], as the slot of the peer pool stores it, and the value
    registration writes into a slot.  Keys, salts and tags are byte strings. *)

From S2P Require Import Prelude Wire Rtt Delivery Curve Congestion Keys SlotPool.

Inductive HandshakeState := AWAITING_CHALLENGE | AWAITING_FINISH | ESTABLISHED.
#[export] Instance HandshakeState_eq_dec : EqDecision HandshakeState.
Proof. solve_decision. Defined.

Definition SEEN_STAMP_SHIFT : Z := 10.
Definition SeenStamp (micros : Z) : Z := u32 (Z.shiftr micros SEEN_STAMP_SHIFT).

Record Peer := mk_peer {
  p_addr : Address; p_id : BcpId;
  theirPk : list Z; session : list Z; headerKey : list Z; macKey : list Z;
  sendCounter : Z; myTagStep : Z; theirTagStep : Z; myTag : list Z;
  pathAddr : Address; pathChallenge : list Z; pathStep : Z;
  hsSalt : list Z; announcedTag : list Z;
  hsEphSecret : list Z; hsPeerEph : list Z; hsEphPub : list Z; hsConfirm : list Z;
  pendingHead : Z; pendingTail : Z; firstSeenAt : Z; lastSeenAt : Z;
  p_cc : CcPeer;   (* the congestion fields, the round trip and delivery estimates *)
  theirGrant : Z; theirGrantGeneration : Z; ourGrantGeneration : Z;
  grantSendPending : bool; grantSentAtMicros : Z;
  p_state : HandshakeState; attempts : Z; hasId : bool; authenticated : bool; confirmed : bool;
  pacingTokens : Z; pacingRefilledAt : Z; emitting : bool; freeWhenRead : bool }.

#[export] Instance Peer_eta : Eta Peer := fun p =>
  mk_peer (p_addr p) (p_id p) (theirPk p) (session p) (headerKey p) (macKey p)
    (sendCounter p) (myTagStep p) (theirTagStep p) (myTag p) (pathAddr p) (pathChallenge p) (pathStep p)
    (hsSalt p) (announcedTag p) (hsEphSecret p) (hsPeerEph p) (hsEphPub p) (hsConfirm p)
    (pendingHead p) (pendingTail p) (firstSeenAt p) (lastSeenAt p) (p_cc p)
    (theirGrant p) (theirGrantGeneration p) (ourGrantGeneration p) (grantSendPending p) (grantSentAtMicros p)
    (p_state p) (attempts p) (hasId p) (authenticated p) (confirmed p)
    (pacingTokens p) (pacingRefilledAt p) (emitting p) (freeWhenRead p).

Definition IsValid (p : Peer) : bool := bool_decide (p_state p = ESTABLISHED).

Definition KEY_SIZE : Z := 32.
Definition zeros (n : Z) : list Z := replicate (Z.to_nat n) 0.

Definition unset_address : Address := mk_addr 0 0 [] 0.

(** The congestion state a slot starts with. *)
Definition fresh_cc : CcPeer :=
  mk_cc CC_INITIAL_WINDOW_BYTES 0 0 UINT32_MAX 0 0 0 0 0 0 0 0 0 0 0 Rtt_Reset Delivery_Reset.

(** The peer registration leaves in its slot, field by field. *)
Definition write_peer (old : Peer) (addr : Address) (id : option BcpId) (nowMicros : Z) : Peer :=
  let p := old <| p_addr := addr |> <| p_id := default (mk_id (zeros 32)) id |> in
  let p := p <| theirPk := zeros KEY_SIZE |> <| session := zeros KEY_SIZE |>
             <| headerKey := zeros KEY_SIZE |> <| macKey := zeros KEY_SIZE |> in
  let p := p <| sendCounter := 0 |> <| myTagStep := 0 |> <| theirTagStep := 0 |>
             <| myTag := zeros WIRE_PEER_TAG_SIZE |> <| pathAddr := unset_address |>
             <| pathChallenge := zeros 16 |> <| pathStep := 0 |>
             <| hsSalt := zeros WIRE_HS_SALT_SIZE |> <| announcedTag := zeros WIRE_HS_TAG_SIZE |> in
  let p := p <| hsEphSecret := zeros KEY_SIZE |> <| hsPeerEph := zeros KEY_SIZE |>
             <| hsEphPub := zeros KEY_SIZE |> <| hsConfirm := zeros WIRE_HS_MAC_SIZE |> in
  let p := p <| pendingHead := INVALID |> <| pendingTail := INVALID |>
             <| firstSeenAt := SeenStamp nowMicros |> in
  let p := p <| lastSeenAt := firstSeenAt p |> in
  let p := p <| p_cc := fresh_cc |> in
  let p := p <| theirGrant := 0 |> <| theirGrantGeneration := 0 |> <| ourGrantGeneration := 0 |>
             <| pacingTokens := 0 |> <| pacingRefilledAt := 0 |> <| emitting := false |>
             <| freeWhenRead := false |> <| grantSendPending := false |> <| grantSentAtMicros := 0 |> in
  p <| p_state := AWAITING_CHALLENGE |> <| attempts := 0 |>
    <| hasId := bool_decide (is_Some id) |> <| authenticated := false |> <| confirmed := false |>.

(** What a slot of a pool that was never used holds: all bytes zero. *)
Definition blank_peer : Peer :=
  mk_peer unset_address (mk_id (zeros 32)) (zeros KEY_SIZE) (zeros KEY_SIZE) (zeros KEY_SIZE) (zeros KEY_SIZE)
    0 0 0 (zeros WIRE_PEER_TAG_SIZE) unset_address (zeros 16) 0 (zeros WIRE_HS_SALT_SIZE) (zeros WIRE_HS_TAG_SIZE)
    (zeros KEY_SIZE) (zeros KEY_SIZE) (zeros KEY_SIZE) (zeros WIRE_HS_MAC_SIZE) 0 0 0 0
    (mk_cc 0 0 0 0 0 0 0 0 0 0 0 0 0 0 0 Rtt_Reset Delivery_Reset) 0 0 0 false 0
    AWAITING_CHALLENGE 0 false false false 0 0 false false.
#[export] Instance Peer_inhabited : Inhabited Peer := populate blank_peer.

(** Nothing of a previous occupant survives registration: the record a slot ends
    up with does not depend on the bytes it held. *)
Lemma write_peer_fresh old old' addr id now : write_peer old addr id now = write_peer old' addr id now.
Proof. reflexivity. Qed.

(** A new peer's congestion state satisfies the controller's invariant wherever
    the configured range contains the opening window. *)
Lemma fresh_cc_wf c :
  minCongestionBudget c <= CC_INITIAL_WINDOW_BYTES <= maxCongestionBudget c -> cc_wf c fresh_cc.
Proof.
  intros H. split; [exact H|split; cbn; unfold UINT32_MAX; lia|by apply starved_inv_reset|apply Rtt_Reset_wf|apply Delivery_Reset_wf].
Qed.

(** ** The limits the socket configures

    [Socket::InitFlows] derives the budget's floor and ceiling from the
    configuration. *)
Definition FLOW_WINDOW_BULK : Z := 1024.

Definition min_budget (floor : Z) : Z :=
  let m := if negb (floor =? 0) then floor else 2 * MAX_WIRE_PACKET_SIZE in
  if m <? MAX_WIRE_PACKET_SIZE then MAX_WIRE_PACKET_SIZE else m.
Definition max_budget (maxOutPerPeer : Z) : Z :=
  let ceiling := u64 (u64 (maxOutPerPeer * FLOW_WINDOW_BULK) * MAX_WIRE_PACKET_SIZE) in
  if ceiling =? 0 then CC_INITIAL_WINDOW_BYTES
  else if UINT32_MAX <? ceiling then UINT32_MAX else u32 ceiling.

Definition budget_config (floor maxOutPerPeer retry ack : Z) : CcConfig :=
  {| minCongestionBudget := min_budget floor; maxCongestionBudget := max_budget maxOutPerPeer;
     RetryIntervalMicros := retry; AckDelayMicros := ack |}.

Lemma max_budget_opening n : is_u32 n -> CC_INITIAL_WINDOW_BYTES <= max_budget n < 2 ^ 32.
Proof.
  intros Hn. unfold max_budget, CC_INITIAL_WINDOW_BYTES, FLOW_WINDOW_BULK, MAX_WIRE_PACKET_SIZE, UINT32_MAX. cbv zeta.
  rewrite (u64_small (n * 1024)), u64_small by lia. destruct (Z.eqb_spec (n * 1024 * 1200) 0); [lia|].
  destruct (Z.ltb_spec (2 ^ 32 - 1) (n * 1024 * 1200)); [lia|]. rewrite u32_small by lia. lia.
Qed.

(** A peer starts with the opening window of 12,000 bytes whatever
    floor was configured, so the controller's range assertion holds of a new peer
    exactly when the configured floor is at most that.  A larger configured floor,
    which the socket accepts, is violated from registration on. *)
Theorem fresh_peer_in_range (floor maxOutPerPeer retry ack : Z)
  (Hf : is_u32 floor) (Hm : is_u32 maxOutPerPeer) :
  AssertBudgetInRange (budget_config floor maxOutPerPeer retry ack) fresh_cc = true <-> floor <= 12000.
Proof.
  pose proof (max_budget_opening maxOutPerPeer Hm). unfold AssertBudgetInRange. cbn [congestionBudget fresh_cc minCongestionBudget maxCongestionBudget budget_config].
  rewrite andb_true_iff, !Z.leb_le. unfold min_budget, CC_INITIAL_WINDOW_BYTES, MAX_WIRE_PACKET_SIZE in *. cbv zeta.
  destruct (Z.eqb_spec floor 0); cbn [negb]; [destruct (Z.ltb_spec (2 * 1200) 1200); lia|]. destruct (Z.ltb_spec floor 1200); lia.
Qed.

Lemma fresh_peer_in_range_witness :
  AssertBudgetInRange (budget_config 20000 16 200000 25000) fresh_cc = true <-> 20000 <= 12000.
Proof. apply (fresh_peer_in_range 20000 16 200000 25000); lia. Defined.
