(* ===== verification/PeerTable.v ===== *)
(** * The peer table: [flux/peer/peer_table.cpp]

    Peers live in pool slots and never move; three Robin Hood indexes map an
    address, a proven id and a migration tag to a slot.  Every operation is
    translated whole: its parameter checks, its probes, the record it writes, the
    index updates and the slot it frees.  The table is a client of the index laws
    ([RobinHood]), of the key interface ([Keys]) and of any slot allocator
    ([SlotPool]).

    The writers' operations are given as one writer runs them under the table's
    writer lock, with slot locks free to take: a plan, what the checks and probes
    decide, and the stores it calls for, one stage each, in the order the source makes
    them.  An operation runs its stages to the end; a reader may see the table between
    any two.  The lock-free readers are given
    whole: each optimistic attempt sees the version before, whatever its loads of
    the table returned, and the version after, and the last resort probes the
    table under the writer lock.  [None] is a walk that does not end; the
    invariant rules it out. *)

From S2P Require Import Prelude CommonMath Errors RobinHood Keys SlotPool Congestion Peer.

Definition MAX_LOAD_PERCENT : Z := 85.
Definition MAX_TAGS_PER_PEER : Z := 4.

Section Definitions.
Context {S : Type} `{!Allocator S}.

Record PeerTable := mk_table {
  pt_init : bool;                     (* the indexes are allocated *)
  addrIdx : list (entry Address); bcpIdx : list (entry BcpId); tagIdx : list (entry unit);
  idxCapacity : Z; idxMask : Z; tagIdxCapacity : Z; tagIdxMask : Z; tagCapacity : Z; tagCount : Z;
  peerPool : S; peers : list Peer; peerCapacity : Z; peerCount : Z; version : Z }.

#[global] Instance PeerTable_eta : Eta PeerTable := fun t =>
  mk_table (pt_init t) (addrIdx t) (bcpIdx t) (tagIdx t) (idxCapacity t) (idxMask t) (tagIdxCapacity t)
    (tagIdxMask t) (tagCapacity t) (tagCount t) (peerPool t) (peers t) (peerCapacity t) (peerCount t) (version t).

Definition empty_entry {K} `{Inhabited K} : entry K := mk_entry 0 0 inhabitant.

(** Buckets for [n] entries under the load cap. *)
Definition need_for (n : Z) : Z := u64 (u64 (n * 100) + MAX_LOAD_PERCENT - 1) / MAX_LOAD_PERCENT.

(** [Init], with allocations that succeed and a pool made by [mkPool]. *)
Definition PeerTable_Init (mkPool : Z -> S) (poolCapacity : Z -> Z) (t : PeerTable) (capacity : Z) : Error * PeerTable :=
  if capacity =? 0 then (InvalidParam, t)
  else if 2 ^ 30 <? need_for capacity then (InvalidParam, t)
  else
    let tagCap := u64 (capacity * MAX_TAGS_PER_PEER) in
    if 2 ^ 30 <? need_for tagCap then (InvalidParam, t)
    else
      let ic := NextPowerOfTwo (u32 (need_for capacity)) in
      let tc := NextPowerOfTwo (u32 (need_for tagCap)) in
      (Ok, mk_table true (replicate (Z.to_nat ic) empty_entry) (replicate (Z.to_nat ic) empty_entry)
             (replicate (Z.to_nat tc) empty_entry) ic (u32 (ic - 1)) tc (u32 (tc - 1)) (u32 tagCap) (tagCount t)
             (mkPool capacity) (replicate (Z.to_nat (poolCapacity capacity)) blank_peer) capacity 0 0).

(** [Shutdown]; [shut] is the pool's own. *)
Definition PeerTable_Shutdown (shut : S -> S) (t : PeerTable) : PeerTable :=
  mk_table false [] [] [] 0 0 0 0 0 0 (shut (peerPool t)) (peers t) 0 0 0.

(** *** Stores *)

Definition stage : Type := PeerTable -> option PeerTable.

Fixpoint run_stages (l : list stage) (t : PeerTable) : option PeerTable :=
  match l with [] => Some t | f :: l' => t' ← f t; run_stages l' t' end.

(** The tables after each stage. *)
Fixpoint trace_stages (l : list stage) (t : PeerTable) : option (list PeerTable) :=
  match l with [] => Some [] | f :: l' => t' ← f t; ts ← trace_stages l' t'; Some (t' :: ts) end.

Definition store_version (v : Z) : stage := fun t => Some (t <| version := v |>).
Definition store_pool (pool : S) : stage := fun t => Some (t <| peerPool := pool |>).
Definition store_peer (slot : Z) (f : Peer -> Peer) : stage := fun t => Some (t <| peers := (peers t).[slot <- f (peers t).[slot]] |>).
Definition count_peers (d : Z) : stage := fun t => Some (t <| peerCount := u32 (peerCount t + d) |>).
Definition count_tags (d : Z) : stage := fun t => Some (t <| tagCount := u32 (tagCount t + d) |>).
Definition insert_addr (slot : Z) (a : Address) : stage := fun t =>
  ai ← InsertEntry (addrIdx t) (idxMask t) (HashAddr a) slot a; Some (t <| addrIdx := ai |>).
Definition insert_id (slot : Z) (id : option BcpId) : stage := fun t =>
  bi ← match id with
       | None => Some (bcpIdx t)
       | Some i => InsertEntry (bcpIdx t) (idxMask t) (HashId i) slot i
       end;
  Some (t <| bcpIdx := bi |>).
Definition remove_addr (pos : option Z) : stage := fun t =>
  ai ← match pos with None => Some (addrIdx t) | Some p => RemoveEntryAt (addrIdx t) (idxMask t) p end;
  Some (t <| addrIdx := ai |>).
Definition remove_id (pos : option Z) : stage := fun t =>
  bi ← match pos with None => Some (bcpIdx t) | Some p => RemoveEntryAt (bcpIdx t) (idxMask t) p end;
  Some (t <| bcpIdx := bi |>).
Definition insert_tag (th slot : Z) : stage := fun t =>
  ti ← InsertTagEntry (tagIdx t) (tagIdxMask t) th slot; Some (t <| tagIdx := ti |>).
Definition remove_tag_at (pos : Z) : stage := fun t =>
  ti ← RemoveTagEntryAt (tagIdx t) (tagIdxMask t) pos; Some (t <| tagIdx := ti |>).

(** *** Operations *)

Definition find_addr (t : PeerTable) (a : Address) : option (option Z) :=
  FindPos (addrIdx t) (idxMask t) (HashAddr a) (fun e => Address_eqb (e_key e) a).
Definition find_id (t : PeerTable) (i : BcpId) : option (option Z) :=
  FindPos (bcpIdx t) (idxMask t) (HashId i) (fun e => BcpId_eqb (e_key e) i).

Definition RegisterPeer_plan (hint now : Z) (t : PeerTable) (addr : Address) (id : option BcpId)
  : option (Error * Z * list stage) :=
  if negb (pt_init t) then Some (NotInitialized, INVALID, [])
  else if negb (Address_IsSet addr) then Some (InvalidParam, INVALID, [])
  else if peerCapacity t <=? peerCount t then Some (LimitReached, INVALID, [])
  else
    a ← find_addr t addr;
    match a with
    | Some _ => Some (AlreadyPending, INVALID, [])
    | None =>
        b ← match id with None => Some None | Some i => find_id t i end;
        match b with
        | Some _ => Some (AlreadyPending, INVALID, [])
        | None =>
            '(slot, pool) ← al_acquire hint (peerPool t);
            if slot =? INVALID then Some (LimitReached, INVALID, [store_pool pool])
            else
              let v := version t in
              Some (Ok, slot, [store_pool pool; store_peer slot (fun p => write_peer p addr id now);
                               store_version (u32 (v + 1)); insert_addr slot addr; insert_id slot id; store_version (u32 (v + 2));
                               count_peers 1])
        end
    end.

Definition RegisterPeer (hint now : Z) (t : PeerTable) (addr : Address) (id : option BcpId)
  : option (Error * Z * PeerTable) :=
  '(e, slot, l) ← RegisterPeer_plan hint now t addr id; t' ← run_stages l t; Some (e, slot, t').

(** The other operations: a verdict and the stores. *)
Definition run_plan (plan : option (Error * list stage)) (t : PeerTable) : option (Error * PeerTable) :=
  '(e, l) ← plan; t' ← run_stages l t; Some (e, t').

(** Whether the slot is the one its own address maps to. *)
Definition slot_live (t : PeerTable) (slot : Z) : option (option Z) :=
  apos ← find_addr t (p_addr (peers t).[slot]);
  Some (match apos with
        | Some p => if e_idx (addrIdx t).[p] =? slot then Some p else None
        | None => None
        end).

Definition BindId_plan (t : PeerTable) (slot : Z) (id : BcpId) : option (Error * list stage) :=
  if negb (pt_init t) then Some (NotInitialized, [])
  else if al_capacity (peerPool t) <=? slot then Some (InvalidParam, [])
  else
    l ← slot_live t slot;
    match l with
    | None => Some (NotFound, [])
    | Some _ =>
        if hasId (peers t).[slot] then Some (AlreadyPending, [])
        else
          b ← find_id t id;
          match b with
          | Some _ => Some (AlreadyPending, [])
          | None =>
              let v := version t in
              Some (Ok, [store_peer slot (fun p => p <| p_id := id |> <| hasId := true |>);
                         store_version (u32 (v + 1)); insert_id slot (Some id); store_version (u32 (v + 2))])
          end
    end.
Definition BindId (t : PeerTable) (slot : Z) (id : BcpId) : option (Error * PeerTable) := run_plan (BindId_plan t slot id) t.

(** [ClearTagsLocked]: the inner loop re-checks a bucket a removal may have
    refilled; it runs at most once per entry. *)
Fixpoint clear_bucket (fuel : nat) (t : PeerTable) (slot pos : Z) : option PeerTable :=
  match fuel with
  | O => None
  | Datatypes.S fuel' =>
      let e := (tagIdx t).[pos] in
      if negb (e_hash e =? 0) && (e_idx e =? slot) then
        ti ← RemoveTagEntryAt (tagIdx t) (tagIdxMask t) pos;
        clear_bucket fuel' (t <| tagIdx := ti |> <| tagCount := u32 (tagCount t - 1) |>) slot pos
      else Some t
  end.

Fixpoint clear_buckets (n : nat) (t : PeerTable) (slot pos : Z) : option PeerTable :=
  match n with
  | O => Some t
  | Datatypes.S n' => t' ← clear_bucket (Datatypes.S (length (tagIdx t))) t slot pos; clear_buckets n' t' slot (pos + 1)
  end.

Definition ClearTagsLocked (t : PeerTable) (slot : Z) : option PeerTable :=
  clear_buckets (Z.to_nat (tagIdxCapacity t)) t slot 0.

Definition DrainAndFree (t : PeerTable) (slot : Z) : option PeerTable :=
  if emitting (peers t).[slot] then
    Some (t <| peers := (peers t).[slot <- (peers t).[slot] <| freeWhenRead := true |>] |>)
  else
    pool ← al_release (peerPool t) slot;
    Some (t <| peerPool := pool |>).

Definition ClearEmitting (t : PeerTable) (slot : Z) : option PeerTable :=
  if al_capacity (peerPool t) <=? slot then Some t
  else
    let release := freeWhenRead (peers t).[slot] in
    let t := t <| peers := (peers t).[slot <- (peers t).[slot] <| emitting := false |> <| freeWhenRead := false |>] |> in
    if release then pool ← al_release (peerPool t) slot; Some (t <| peerPool := pool |>)
    else Some t.

Definition clear_tags (slot : Z) : stage := fun t => ClearTagsLocked t slot.
Definition drain_slot (slot : Z) : stage := fun t => DrainAndFree t slot.

(** The shared tail of both removals: the indexes, the tags, the count, the slot. *)
Definition remove_stages (v slot : Z) (apos bpos : option Z) : list stage :=
  [store_version (u32 (v + 1)); remove_addr apos; remove_id bpos; clear_tags slot; store_version (u32 (v + 2));
   count_peers (-1); drain_slot slot].
Definition remove_at (t : PeerTable) (slot : Z) (apos bpos : option Z) : option PeerTable :=
  run_stages (remove_stages (version t) slot apos bpos) t.

Definition RemovePeer_addr_plan (t : PeerTable) (addr : Address) : option (Error * list stage) :=
  if negb (pt_init t) then Some (NotInitialized, [])
  else
    a ← find_addr t addr;
    match a with
    | None => Some (NotFound, [])
    | Some p =>
        let slot := e_idx (addrIdx t).[p] in
        let pr := (peers t).[slot] in
        b ← (if hasId pr then find_id t (p_id pr) else Some None);
        Some (Ok, remove_stages (version t) slot (Some p) b)
    end.
Definition RemovePeer_addr (t : PeerTable) (addr : Address) : option (Error * PeerTable) := run_plan (RemovePeer_addr_plan t addr) t.

Definition RemovePeer_id_plan (t : PeerTable) (id : BcpId) : option (Error * list stage) :=
  if negb (pt_init t) then Some (NotInitialized, [])
  else
    b ← find_id t id;
    match b with
    | None => Some (NotFound, [])
    | Some q =>
        let slot := e_idx (bcpIdx t).[q] in
        a ← find_addr t (p_addr (peers t).[slot]);
        Some (Ok, remove_stages (version t) slot a (Some q))
    end.
Definition RemovePeer_id (t : PeerTable) (id : BcpId) : option (Error * PeerTable) := run_plan (RemovePeer_id_plan t id) t.

(** The record is rewritten before the version moves. *)
Definition UpdateAddress_plan (t : PeerTable) (slot : Z) (newAddr : Address) : option (Error * list stage) :=
  if negb (pt_init t) then Some (NotInitialized, [])
  else if (al_capacity (peerPool t) <=? slot) || negb (Address_IsSet newAddr) then Some (InvalidParam, [])
  else
    l ← slot_live t slot;
    match l with
    | None => Some (NotFound, [])
    | Some apos =>
        if Address_eqb newAddr (p_addr (peers t).[slot]) then Some (Ok, [])
        else
          n ← find_addr t newAddr;
          match n with
          | Some _ => Some (AlreadyPending, [])
          | None =>
              let v := version t in
              Some (Ok, [store_peer slot (fun p => p <| p_addr := newAddr |>);
                         store_version (u32 (v + 1)); remove_addr (Some apos); insert_addr slot newAddr; store_version (u32 (v + 2))])
          end
    end.
Definition UpdateAddress (t : PeerTable) (slot : Z) (newAddr : Address) : option (Error * PeerTable) :=
  run_plan (UpdateAddress_plan t slot newAddr) t.

Definition BindTag_plan (t : PeerTable) (slot : Z) (tag : list Z) : option (Error * list stage) :=
  if negb (pt_init t) then Some (NotInitialized, [])
  else if al_capacity (peerPool t) <=? slot then Some (InvalidParam, [])
  else
    let th := HashTag tag in
    if th =? 0 then Some (InvalidParam, [])
    else if tagCapacity t <=? tagCount t then Some (LimitReached, [])
    else
      l ← slot_live t slot;
      match l with
      | None => Some (NotFound, [])
      | Some _ =>
          let v := version t in
          Some (Ok, [store_version (u32 (v + 1)); insert_tag th slot; store_version (u32 (v + 2)); count_tags 1])
      end.
Definition BindTag (t : PeerTable) (slot : Z) (tag : list Z) : option (Error * PeerTable) := run_plan (BindTag_plan t slot tag) t.

Definition UnbindTag_plan (t : PeerTable) (slot : Z) (tag : list Z) : option (Error * list stage) :=
  if negb (pt_init t) then Some (NotInitialized, [])
  else
    let th := HashTag tag in
    if th =? 0 then Some (InvalidParam, [])
    else
      tpos ← FindTagPos (tagIdx t) (tagIdxMask t) th slot;
      match tpos with
      | None => Some (NotFound, [])
      | Some p =>
          let v := version t in
          Some (Ok, [store_version (u32 (v + 1)); remove_tag_at p; store_version (u32 (v + 2)); count_tags (-1)])
      end.
Definition UnbindTag (t : PeerTable) (slot : Z) (tag : list Z) : option (Error * PeerTable) := run_plan (UnbindTag_plan t slot tag) t.

Definition UnbindTags_plan (t : PeerTable) (slot : Z) : option (Error * list stage) :=
  if negb (pt_init t) then Some (NotInitialized, [])
  else
    let v := version t in
    Some (Ok, [store_version (u32 (v + 1)); clear_tags slot; store_version (u32 (v + 2))]).
Definition UnbindTags (t : PeerTable) (slot : Z) : option (Error * PeerTable) := run_plan (UnbindTags_plan t slot) t.

(** *** Lock-free readers *)

Definition MAX_OPTIMISTIC_ATTEMPTS : nat := 16.

(** What one attempt observes: the version it starts from, the table as its
    relaxed loads return it, torn or not, and the version it ends with. *)
Record View := mk_view { v_start : Z; v_table : PeerTable; v_end : Z }.

(** The retry loop the readers share: an odd version or a changed one costs an
    attempt, and after the last one the probe runs under the writer lock. *)
Fixpoint seq_read {R} (probe : PeerTable -> R) (attempts : nat) (views : nat -> View) (locked : PeerTable) : R :=
  match attempts with
  | O => probe locked
  | Datatypes.S n =>
      let v := views O in
      if Z.odd (v_start v) then seq_read probe n (fun i => views (Datatypes.S i)) locked
      else
        let r := probe (v_table v) in
        if v_end v =? v_start v then r
        else seq_read probe n (fun i => views (Datatypes.S i)) locked
  end.

(** One probe: at most [capacity] buckets, the candidate verified against the
    peer itself. *)
Fixpoint Lookup_loop {K} `{Inhabited K} (n : nat) (entries : list (entry K)) (mask hash : Z)
    (verify : Z -> bool) (pos dist : Z) : option Z :=
  match n with
  | O => None
  | Datatypes.S n' =>
      let e := entries.[pos] in
      if e_hash e =? 0 then None
      else if e_hash e =? hash then
        if verify (e_idx e) then Some (e_idx e)
        else Lookup_loop n' entries mask hash verify (Z.land (u32 (pos + 1)) mask) (u32 (dist + 1))
      else if Dist (e_hash e) pos mask <? dist then None
      else Lookup_loop n' entries mask hash verify (Z.land (u32 (pos + 1)) mask) (u32 (dist + 1))
  end.

Definition Lookup_probe {K} `{Inhabited K} (entries : list (entry K)) (mask capacity hash : Z) (verify : Z -> bool) : option Z :=
  Lookup_loop (Z.to_nat capacity) entries mask hash verify (Z.land (u32 hash) mask) 0.

(** [Lookup], for an index of the table and a test on its peers. *)
Definition Lookup {K} `{Inhabited K} (index : PeerTable -> list (entry K)) (hash : Z) (verify : Peer -> bool)
    (views : nat -> View) (t : PeerTable) : Error + Z :=
  let probe u := Lookup_probe (index u) (idxMask t) (idxCapacity t) hash (fun s => verify (peers u).[s]) in
  match seq_read probe MAX_OPTIMISTIC_ATTEMPTS views t with
  | Some slot => inr slot
  | None => inl NotFound
  end.

Definition GetPeer_addr (views : nat -> View) (t : PeerTable) (addr : Address) : Error + Z :=
  if negb (pt_init t) then inl NotInitialized
  else Lookup addrIdx (HashAddr addr) (fun p => Address_eqb (p_addr p) addr) views t.

Definition GetPeer_id (views : nat -> View) (t : PeerTable) (id : BcpId) : Error + Z :=
  if negb (pt_init t) then inl NotInitialized
  else Lookup bcpIdx (HashId id) (fun p => hasId p && BcpId_eqb (p_id p) id) views t.

(** Every bucket of a tag along its probe. *)
Fixpoint tag_holders (n : nat) (entries : list (entry unit)) (mask th pos dist : Z) : list Z :=
  match n with
  | O => []
  | Datatypes.S n' =>
      let e := entries.[pos] in
      if e_hash e =? 0 then []
      else if e_hash e =? th then
        e_idx e :: tag_holders n' entries mask th (Z.land (u32 (pos + 1)) mask) (u32 (dist + 1))
      else if Dist (e_hash e) pos mask <? dist then []
      else tag_holders n' entries mask th (Z.land (u32 (pos + 1)) mask) (u32 (dist + 1))
  end.

(** The count of holders and the handles taken, at most [max] of them. *)
Definition GetPeersByTag (views : nat -> View) (t : PeerTable) (tag : list Z) (max : Z) : Z * list Z :=
  if negb (pt_init t) || (max =? 0) then (0, [])
  else
    let th := HashTag tag in
    if th =? 0 then (0, [])
    else
      let probe u :=
        let holders := tag_holders (Z.to_nat (tagIdxCapacity t)) (tagIdx u) (tagIdxMask t) th
                         (Z.land (u32 th) (tagIdxMask t)) 0 in
        (zlen holders, take (Z.to_nat max) holders) in
      seq_read probe MAX_OPTIMISTIC_ATTEMPTS views t.

(** A page of the registered addresses, from [cursor]. *)
Fixpoint collect (n : nat) (entries : list (entry Address)) (pos max : Z) (out : list Address) : Z * list Address :=
  match n with
  | O => (pos, out)
  | Datatypes.S n' =>
      if max <=? zlen out then (pos, out)
      else if e_hash entries.[pos] =? 0 then collect n' entries (pos + 1) max out
      else collect n' entries (pos + 1) max (out ++ [e_key entries.[pos]])
  end.
Definition CollectAddresses (t : PeerTable) (cursor max : Z) : Z * list Address :=
  if negb (pt_init t) || (max =? 0) then (cursor, [])
  else collect (Z.to_nat (idxCapacity t - cursor)) (addrIdx t) cursor max [].
End Definitions.
Arguments PeerTable : clear implicits.
Arguments View : clear implicits.
Arguments stage : clear implicits.
