(* ===== verification/PeerIndex.v ===== *)
(** * An index that maps a set of slots by key

    What the three Robin Hood indexes of the peer table mean: [represents k T f l]
    says that the index [T] of [2^k] buckets holds exactly the slots [l], each
    under the key [f] gives it.  The searches, the insertion, the removal and the
    readers' bounded probe are characterised against it once, for every key type;
    the tag index, a multiset of (tag, slot) pairs, is characterised by its
    content. *)

From S2P Require Import Prelude Errors RobinHood Keys SlotPool PeerTable.

Lemma filter_all {A} (P : A -> Prop) `{!forall x, Decision (P x)} (l : list A) :
  (forall x, x ∈ l -> P x) -> filter P l = l.
Proof.
  induction l as [|x l IH]; intros HP; [done|]. rewrite filter_cons_True by (apply HP; by left).
  f_equal. apply IH. intros y Hy. apply HP. by right.
Qed.

Lemma empty_index {K} `{!Inhabited K} (k : Z) (T : list (entry K)) :
  zlen T = NB k -> (forall p, 0 <= p < NB k -> e_hash T.[p] = 0) -> rh k T /\ content T = [].
Proof.
  intros Hl He. split.
  - split; [done|]. intros p Hp Hlv. by destruct (Hlv (He p Hp)).
  - apply elem_of_nil_inv. intros e Hin. apply (elem_of_content k) in Hin as (p&Hp&Hlv&_); [|done].
    by apply Hlv, He.
Qed.

Section Represents.
Context {K : Type} `{!Inhabited K, !TableKey K} (k : Z) (Hk : 0 <= k <= 30).
Implicit Types (T : list (entry K)) (f : Z -> K) (l : list Z).

Definition slot_entry f (s : Z) : entry K := mk_entry (key_hash (f s)) s (f s).

Record represents T f l : Prop := {
  re_rh : rh k T;
  re_content : content T ≡ₚ map (slot_entry f) l;
  re_inj : forall s s', s ∈ l -> s' ∈ l -> key_eqb (f s) (f s') = true -> s = s';
  re_room : zlen l < NB k }.

Lemma represents_room T f l : represents T f l -> has_room k T.
Proof using Hk.
  intros [HT HC _ Hr]. apply has_room_iff; [done|apply HT|].
  unfold zlen in *. by rewrite HC, length_map.
Qed.

Lemma represents_ext T f f' l :
  (forall s, s ∈ l -> f s = f' s) -> represents T f l -> represents T f' l.
Proof.
  intros E [HT HC HI Hr]. split; [done| | |done].
  - rewrite HC. erewrite map_ext_in; [done|]. intros s Hs%list_elem_of_In.
    unfold slot_entry. by rewrite E.
  - intros s s' Hs Hs'. rewrite <- !E by done. by apply HI.
Qed.

Lemma represents_perm T f l l' : l ≡ₚ l' -> represents T f l -> represents T f l'.
Proof.
  intros E [HT HC HI Hr]. split; [done| | |].
  - by rewrite HC, E.
  - intros s s'. rewrite <- E. apply HI.
  - unfold zlen in *. by rewrite <- E.
Qed.

(** A bucket that holds the slot [s]. *)
Definition bucket_of T f (p s : Z) : Prop := 0 <= p < NB k /\ T.[p] = slot_entry f s.

Lemma represents_bucket T f l p :
  represents T f l -> 0 <= p < NB k -> live T p -> exists s, s ∈ l /\ bucket_of T f p s.
Proof using Hk.
  intros [HT HC _ _] Hp Hl.
  assert (T.[p] ∈ content T) as Hin by (apply (elem_of_content k); [apply HT|eauto]).
  rewrite HC in Hin. apply list_elem_of_In, in_map_iff in Hin as (s&E&Hs%list_elem_of_In).
  by exists s.
Qed.

Lemma represents_holds T f l s : represents T f l -> s ∈ l -> exists p, bucket_of T f p s.
Proof using Hk.
  intros [HT HC _ _] Hs. assert (slot_entry f s ∈ content T) as Hin.
  { rewrite HC. apply list_elem_of_In, in_map. by apply list_elem_of_In. }
  apply (elem_of_content k) in Hin as (p&Hp&_&E); [|apply HT]. by exists p.
Qed.

(** The search used by writers. *)
Lemma represents_find T f l a :
  represents T f l ->
  exists r, FindPos T (NB k - 1) (key_hash a) (fun e => key_eqb (e_key e) a) = Some r /\
    match r with
    | Some p => exists s, s ∈ l /\ bucket_of T f p s /\ key_eqb (f s) a = true
    | None => forall s, s ∈ l -> key_eqb (f s) a = false
    end.
Proof using Hk.
  intros HR. pose proof (FindPos_spec k Hk T (key_hash a) (fun e => key_eqb (e_key e) a)
    (re_rh _ _ _ HR) (represents_room _ _ _ HR) (key_hash_nonzero a)) as HF.
  destruct (FindPos _ _ _ _) as [[p|]|]; [eexists; split; [done|]..|done].
  - destruct HF as (Hp&Eh&Eq).
    destruct (represents_bucket T f l p HR Hp) as (s&Hs&Hb); [unfold live; rewrite Eh; apply key_hash_nonzero|].
    exists s. split_and!; [done..|]. destruct Hb as [_ E]. by rewrite E in Eq.
  - intros s Hs. destruct (key_eqb (f s) a) eqn:E; [exfalso|done].
    destruct (represents_holds T f l s HR Hs) as (p&Hp&Ep).
    apply (HF p). unfold matches. rewrite Ep. cbn. split_and!; [lia|lia|by apply key_hash_eq|done].
Qed.

Lemma represents_insert T f l s a :
  represents T f l -> zlen l + 1 < NB k -> f s = a ->
  (forall s', s' ∈ l -> key_eqb (f s') a = false) ->
  exists T', InsertEntry T (NB k - 1) (key_hash a) s a = Some T' /\ represents T' f (s :: l).
Proof using Hk.
  intros HR Hroom <- Hnew.
  destruct (InsertEntry_spec k Hk T (key_hash (f s)) s (f s) (re_rh _ _ _ HR)
    (represents_room _ _ _ HR) (key_hash_nonzero _)) as (T'&E&HT'&HP).
  exists T'. split; [done|]. destruct HR as [_ HC HI _]. split; [done| | |].
  - by rewrite HP, HC.
  - intros x y. rewrite !elem_of_cons. intros [->|Hx] [->|Hy] Heq; [done| | |by apply HI].
    + rewrite key_sym in Heq. by rewrite Hnew in Heq.
    + by rewrite Hnew in Heq.
  - unfold zlen in *. simpl. lia.
Qed.

Lemma represents_remove T f l s p :
  represents T f (s :: l) -> bucket_of T f p s ->
  exists T', RemoveEntryAt T (NB k - 1) p = Some T' /\ represents T' f l.
Proof using Hk.
  intros HR (Hp&E).
  destruct (RemoveEntryAt_spec k Hk T p (re_rh _ _ _ HR) (represents_room _ _ _ HR) Hp) as (T'&E'&HT'&HP).
  { unfold live. rewrite E. apply key_hash_nonzero. }
  exists T'. split; [done|]. destruct HR as [_ HC HI Hr]. split; [done| | |].
  - rewrite HC, E in HP. simpl in HP. by apply Permutation_cons_inv in HP.
  - intros x y Hx Hy. apply HI; by right.
  - unfold zlen in *. simpl in Hr. lia.
Qed.

(** ** The readers' probe *)

Lemma Lookup_loop_FindPos T hash verify : forall n d,
  0 <= d -> d + Z.of_nat n <= NB k ->
  Lookup_loop n T (NB k - 1) hash verify ((hash + d) mod NB k) d =
  match FindPos_loop n T (NB k - 1) hash (fun e => verify (e_idx e)) ((hash + d) mod NB k) d with
  | Some (Some p) => Some (e_idx T.[p])
  | _ => None
  end.
Proof using Hk.
  induction n as [|n IH]; intros d Hd Hn; [done|]. cbn [Lookup_loop FindPos_loop].
  rewrite Dist_rdist, (next_N k Hk), (u32_dist k Hk), probe_next by lia.
  destruct (Z.eqb_spec (e_hash T.[(hash + d) mod NB k]) 0); [done|].
  destruct (Z.eqb_spec (e_hash T.[(hash + d) mod NB k]) hash) as [E|]; cbn [andb].
  - destruct (verify _); [done|]. rewrite E, (rdist_at k) by lia.
    rewrite Z.ltb_irrefl. apply IH; lia.
  - destruct (_ <? d); [done|]. apply IH; lia.
Qed.

(** A bounded probe, whatever verifies its candidates: it answers a verified slot filed
    under the hash, or there is none. *)
Lemma represents_probe T f l a verify :
  represents T f l ->
  match Lookup_probe T (NB k - 1) (NB k) (key_hash a) verify with
  | Some s => s ∈ l /\ key_hash (f s) = key_hash a /\ verify s = true
  | None => forall s, s ∈ l -> key_hash (f s) = key_hash a -> verify s = false
  end.
Proof using Hk.
  intros HR. pose proof (re_rh _ _ _ HR) as HT. pose proof (rh_len k T HT) as Hlen. unfold zlen in Hlen.
  unfold Lookup_probe. rewrite (home_N k Hk).
  pose proof (Lookup_loop_FindPos T (key_hash a) verify (Z.to_nat (NB k)) 0) as EL.
  rewrite Z.add_0_r in EL. rewrite EL by (pose proof (N_pos k Hk); lia). clear EL.
  replace (Z.to_nat (NB k)) with (length T) by lia.
  rewrite <- (home_N k Hk). fold (FindPos T (NB k - 1) (key_hash a) (fun e => verify (e_idx e))).
  pose proof (FindPos_spec k Hk T (key_hash a) (fun e => verify (e_idx e))
    HT (represents_room _ _ _ HR) (key_hash_nonzero a)) as HF.
  destruct (FindPos _ _ _ _) as [[p|]|]; [| |done].
  - destruct HF as (Hp&Eh&Eq).
    destruct (represents_bucket T f l p HR Hp) as (s&Hs&_&E); [unfold live; rewrite Eh; apply key_hash_nonzero|].
    rewrite E in *. by cbn in *.
  - intros s Hs Eh. destruct (verify s) eqn:E; [exfalso|done].
    destruct (represents_holds T f l s HR Hs) as (p&Hp&Ep).
    apply (HF p). unfold matches. rewrite Ep. cbn. split_and!; lia || done.
Qed.

(** Verified by its key, it answers as the index means it: the slot registered under
    the key, or nothing. *)
Lemma represents_lookup T f l a verify :
  represents T f l -> (forall s, s ∈ l -> verify s = key_eqb (f s) a) ->
  match Lookup_probe T (NB k - 1) (NB k) (key_hash a) verify with
  | Some s => s ∈ l /\ key_eqb (f s) a = true
  | None => forall s, s ∈ l -> key_eqb (f s) a = false
  end.
Proof using Hk.
  intros HR Hv. pose proof (represents_probe T f l a verify HR) as HP. destruct (Lookup_probe _ _ _ _ _) as [s|].
  - destruct HP as (Hs&_&E). by rewrite <- Hv.
  - intros s Hs. destruct (key_eqb (f s) a) eqn:E; [|done]. rewrite <- (HP s Hs), Hv by (done || by apply key_hash_eq). done.
Qed.

Lemma represents_empty T f :
  zlen T = NB k -> (forall p, 0 <= p < NB k -> e_hash T.[p] = 0) -> represents T f [].
Proof using Hk.
  intros Hl He. destruct (empty_index k T Hl He) as [HT EC].
  split; [done|by rewrite EC| |apply N_pos, Hk].
  intros s s' Hs. by apply not_elem_of_nil in Hs.
Qed.
End Represents.

(** ** The tag index *)

Section Tags.
Context (k : Z) (Hk : 0 <= k <= 30).
Implicit Types (T : list (entry unit)).

(** The bucket before [p] is the last one a walk from [p] reaches. *)
Lemma ahead_last p q : 0 <= q < NB k -> nxt k q = p -> ahead k p q = NB k - 1.
Proof using Hk.
  intros Hq <-. unfold ahead, nxt. rewrite Zminus_mod_idemp_r.
  replace (q - (q + 1)) with (NB k - 1 + (-1) * NB k) by lia.
  rewrite Z_mod_plus_full. apply Z.mod_small. pose proof (N_pos k Hk). lia.
Qed.

(** Where a removal leaves things: every entry either stays in its bucket or
    moves one bucket back, and nothing moves across the bucket removed. *)
Lemma RemoveEntryAt_loop_moves {K} `{!Inhabited K} z : forall fuel (T : list (entry K)) p (T' : list (entry K)),
  zlen T = NB k -> 0 <= p < NB k -> live T p -> 0 <= z < NB k -> ~ live T z ->
  RemoveEntryAt_loop fuel T (NB k - 1) p = Some T' ->
  forall q, 0 <= q < NB k -> live T' q ->
    ahead k p q < ahead k p z /\ live T (nxt k q) /\ T'.[q] = T.[nxt k q] /\ nxt k q <> p \/
    T'.[q] = T.[q] /\ q <> p.
Proof using Hk.
  induction fuel as [|fuel IH]; intros T p T' Hlen Hp Hl Hz He; [done|].
  cbn [RemoveEntryAt_loop]. rewrite (next_N k Hk), (Dist_rdist k Hk).
  pose proof (nxt_range k Hk p) as Hn.
  assert (Hpz : p <> z) by (intros ->; done).
  destruct (ring_two k Hk p z Hp Hz Hpz) as [Hnp _].
  destruct (Z.eqb_spec (e_hash T.[nxt k p]) 0) as [E0|E0];
    [|destruct (Z.eqb_spec (rdist k (e_hash T.[nxt k p]) (nxt k p)) 0)]; cbn [orb].
  1,2: intros [= <-] q Hq Hlq; right; destruct (decide (p = q)) as [<-|];
    [exfalso; apply Hlq; by rewrite arr_get_set_eq by lia|by rewrite arr_get_set_ne by lia].
  intros E q Hq Hlq.
  assert (Hnz : nxt k p <> z) by (intros Ez; rewrite Ez in E0; done).
  pose proof (ahead_nxt k Hk p z Hp Hz Hpz) as Ha.
  assert (Hz' : ~ live (T.[p <- T.[nxt k p]]) z) by by rewrite live_set_ne by lia.
  destruct (IH (T.[p <- T.[nxt k p]]) (nxt k p) T' ltac:(by rewrite zlen_set) Hn
    ltac:(by rewrite live_set_ne by lia) Hz Hz' E q Hq Hlq) as [(H1&H2&H3&H4)|[H1 H2]].
  - left. pose proof (nxt_range k Hk q) as Hnq.
    assert (Hqp : q <> p).
    { intros ->. apply H4. done. }
    pose proof (ahead_nxt k Hk p q Hp Hq ltac:(done)).
    assert (nxt k q <> p).
    { intros Eq. pose proof (ahead_last p q Hq Eq). pose proof (ahead_range k Hk p z). lia. }
    rewrite arr_get_set_ne in H3 by lia. rewrite live_set_ne in H2 by lia.
    split_and!; [lia|done..].
  - destruct (decide (q = p)) as [->|].
    + left. rewrite arr_get_set_eq in H1 by lia.
      unfold ahead at 1. rewrite Z.sub_diag, Z.mod_0_l by (pose proof (N_pos k Hk); lia).
      pose proof (ahead_range k Hk (nxt k p) z). split_and!; [lia|done..].
    + right. by rewrite arr_get_set_ne in H1 by lia.
Qed.

(** ** Dropping every tag of a slot *)

Definition others (slot : Z) T : list (entry unit) := filter (fun e => e_idx e <> slot) (content T).

(** A tag index with its bookkeeping. *)
Record tags_ok T (count : Z) : Prop := {
  tg_rh : rh k T;
  tg_count : count = zlen (content T);
  tg_room : count < NB k }.

Lemma tags_room T c : tags_ok T c -> has_room k T.
Proof using Hk. intros [HT -> Hr]. by apply has_room_iff; [|apply HT|]. Qed.

Lemma remove_tag T c pos :
  tags_ok T c -> 0 <= pos < NB k -> live T pos ->
  exists T', RemoveTagEntryAt T (NB k - 1) pos = Some T' /\ tags_ok T' (u32 (c - 1)) /\
    zlen (content T) = zlen (content T') + 1 /\ T.[pos] :: content T' ≡ₚ content T.
Proof using Hk.
  intros Hok Hp Hl. pose proof (tags_room _ _ Hok) as Hroom. destruct Hok as [HT -> Hr].
  destruct (RemoveEntryAt_spec k Hk T pos HT Hroom Hp Hl) as (T'&E&HT'&HP).
  assert (HL : zlen (content T) = zlen (content T') + 1).
  { unfold zlen. rewrite <- HP. simpl. lia. }
  pose proof (zlen_nonneg (content T')). pose proof (N_pos k Hk).
  exists T'. split; [done|]. split; [|done]. split; [done|rewrite u32_small by lia; lia|rewrite u32_small by lia; lia].
Qed.

Lemma remove_tag_others T c pos T' slot :
  tags_ok T c -> 0 <= pos < NB k -> live T pos -> e_idx T.[pos] = slot ->
  RemoveTagEntryAt T (NB k - 1) pos = Some T' ->
  (forall q, 0 <= q < pos -> live T q -> e_idx T.[q] <> slot) ->
  others slot T' ≡ₚ others slot T /\ (forall q, 0 <= q < pos -> live T' q -> e_idx T'.[q] <> slot).
Proof using Hk.
  intros Hok Hp Hl Hs E Hbelow.
  destruct (remove_tag T c pos Hok Hp Hl) as (T1&E1&_&_&HP). rewrite E in E1. injection E1 as <-.
  split.
  - unfold others. rewrite <- HP, filter_cons. by destruct (decide _).
  - intros q Hq Hlq. destruct (tags_room _ _ Hok) as (z&Hz&He).
    destruct (RemoveEntryAt_loop_moves z _ _ _ _ (rh_len k _ (tg_rh _ _ Hok)) Hp Hl Hz He E q ltac:(lia) Hlq)
      as [(_&Hln&Eq&Hne)|[Eq _]]; rewrite Eq.
    + apply Hbelow; [|done]. unfold nxt in *. rewrite Z.mod_small in * by lia. lia.
    + apply Hbelow; [done|]. unfold live in *. by rewrite <- Eq.
Qed.

Section Clear.
Context {S : Type} `{!Allocator S}.
Implicit Types t : PeerTable S.

Definition with_tags t T c := t <| tagIdx := T |> <| tagCount := c |>.

Lemma clear_bucket_spec slot pos : 0 <= pos < NB k -> forall fuel t,
  tagIdxMask t = NB k - 1 -> tags_ok (tagIdx t) (tagCount t) ->
  (forall q, 0 <= q < pos -> live (tagIdx t) q -> e_idx (tagIdx t).[q] <> slot) ->
  zlen (content (tagIdx t)) < Z.of_nat fuel ->
  exists T c, clear_bucket fuel t slot pos = Some (with_tags t T c) /\ tags_ok T c /\
    others slot T ≡ₚ others slot (tagIdx t) /\
    (forall q, 0 <= q <= pos -> live T q -> e_idx T.[q] <> slot).
Proof using Hk.
  intros Hp. induction fuel as [|fuel IH]; intros t Hm Hok Hbelow Hf.
  { pose proof (zlen_nonneg (content (tagIdx t))). lia. }
  cbn [clear_bucket].
  destruct (Z.eqb_spec (e_hash (tagIdx t).[pos]) 0) as [E0|E0];
    [|destruct (Z.eqb_spec (e_idx (tagIdx t).[pos]) slot) as [Es|Es]]; cbn [negb andb].
  - exists (tagIdx t), (tagCount t). split_and!; [by destruct t|done..|].
    intros q Hq Hl. destruct (decide (q = pos)) as [->|]; [done|]. apply Hbelow; [lia|done].
  - rewrite Hm. destruct (remove_tag _ _ _ Hok Hp E0) as (T'&E&Hok'&HL&HP). rewrite E. cbn [mbind option_bind].
    destruct (remove_tag_others _ _ _ _ slot Hok Hp E0 Es E Hbelow) as [HO Hb].
    destruct (IH (with_tags t T' (u32 (tagCount t - 1)))) as (T2&c2&E2&?&HO2&?); [done..|change (zlen (content T') < Z.of_nat fuel); lia|].
    exists T2, c2. split_and!; [exact E2|done| |done]. by rewrite HO2, <- HO.
  - exists (tagIdx t), (tagCount t). split_and!; [by destruct t|done..|].
    intros q Hq Hl. destruct (decide (q = pos)) as [->|]; [done|]. apply Hbelow; [lia|done].
Qed.

Lemma clear_buckets_spec slot : forall n t pos,
  0 <= pos -> pos + Z.of_nat n <= NB k ->
  tagIdxMask t = NB k - 1 -> tags_ok (tagIdx t) (tagCount t) ->
  (forall q, 0 <= q < pos -> live (tagIdx t) q -> e_idx (tagIdx t).[q] <> slot) ->
  exists T c, clear_buckets n t slot pos = Some (with_tags t T c) /\ tags_ok T c /\
    others slot T ≡ₚ others slot (tagIdx t) /\
    (forall q, 0 <= q < pos + Z.of_nat n -> live T q -> e_idx T.[q] <> slot).
Proof using Hk.
  induction n as [|n IH]; intros t pos Hpos Hn Hm Hok Hbelow.
  { exists (tagIdx t), (tagCount t). split_and!; [by destruct t|done..|]. by rewrite Z.add_0_r. }
  cbn [clear_buckets].
  destruct (clear_bucket_spec slot pos ltac:(lia) (Datatypes.S (length (tagIdx t))) t Hm Hok Hbelow) as (T&c&E&Hok'&HO&Hb).
  { pose proof (length_filter (fun e : entry unit => e_hash e <> 0) (tagIdx t)). unfold zlen, content. lia. }
  rewrite E. cbn [mbind option_bind].
  destruct (IH (with_tags t T c) (pos + 1)) as (T2&c2&E2&?&HO2&?); [lia|lia|done|done| |].
  { intros q Hq. apply Hb. lia. }
  exists T2, c2. split_and!; [exact E2|done|by rewrite HO2|]. intros q Hq. apply H0. lia.
Qed.

(** [ClearTagsLocked] takes out every tag of the slot and no other. *)
Lemma ClearTagsLocked_spec t slot :
  tagIdxMask t = NB k - 1 -> tagIdxCapacity t = NB k -> tags_ok (tagIdx t) (tagCount t) ->
  exists T c, ClearTagsLocked t slot = Some (with_tags t T c) /\ tags_ok T c /\
    content T ≡ₚ others slot (tagIdx t).
Proof using Hk.
  intros Hm Hc Hok. pose proof (N_pos k Hk). unfold ClearTagsLocked. rewrite Hc.
  destruct (clear_buckets_spec slot (Z.to_nat (NB k)) t 0) as (T&c&E&Hok'&HO&Hb); [lia|lia|done|done|intros; lia|].
  exists T, c. split_and!; [done..|]. rewrite <- HO. unfold others.
  rewrite filter_all; [done|]. intros e Hin.
  apply (elem_of_content k) in Hin as (p&Hp&Hl&<-); [|apply Hok']. apply Hb; [lia|done].
Qed.
End Clear.

(** ** Everyone under a tag *)

Definition walk_from T th (d : Z) (n : nat) : list (entry unit) :=
  map (fun i => T.[(th + i) mod NB k]) (seqZ d (Z.of_nat n)).

Definition with_hash (th : Z) (l : list (entry unit)) : list (entry unit) := filter (fun e => e_hash e = th) l.

(** Once the probe may stop, no bucket further on holds the tag. *)
Lemma walk_done T th d : forall n d',
  rh k T -> th <> 0 -> 0 <= d <= d' -> d' + Z.of_nat n <= NB k ->
  (live T ((th + d) mod NB k) -> e_hash T.[(th + d) mod NB k] <> th /\ dist k T ((th + d) mod NB k) < d) ->
  with_hash th (walk_from T th d' n) = [].
Proof using Hk.
  induction n as [|n IH]; intros d' HT Hth Hd Hn Hstop; [done|].
  unfold walk_from, with_hash. rewrite seqZ_cons by lia. cbn [map]. rewrite filter_cons.
  assert (Hp : 0 <= (th + d') mod NB k < NB k) by (apply Z.mod_pos_bound, N_pos, Hk).
  destruct (decide _) as [E|E].
  - exfalso. assert (Hdist : dist k T ((th + d') mod NB k) = d').
    { unfold dist. rewrite E. apply rdist_at. lia. }
    destruct (rh_probe k Hk T _ d HT Hp) as [H1 H2]; [unfold live; congruence|lia|].
    rewrite E in *. destruct (Hstop H1). lia.
  - replace (Z.succ d') with (d' + 1) by lia. replace (Z.pred (Z.of_nat (S n))) with (Z.of_nat n) by lia.
    apply (IH (d' + 1)); [done|done|lia|lia|done].
Qed.

Lemma tag_holders_walk T th : forall n d,
  rh k T -> th <> 0 -> 0 <= d -> d + Z.of_nat n <= NB k ->
  tag_holders n T (NB k - 1) th ((th + d) mod NB k) d = map e_idx (with_hash th (walk_from T th d n)).
Proof using Hk.
  induction n as [|n IH]; intros d HT Hth Hd Hn; [done|]. cbn [tag_holders].
  rewrite (Dist_rdist k Hk), (next_N k Hk), (u32_dist k Hk), probe_next by lia. fold (dist k T ((th + d) mod NB k)).
  assert (Hcons : with_hash th (walk_from T th d (S n)) =
    with_hash th (T.[(th + d) mod NB k] :: walk_from T th (d + 1) n)).
  { unfold walk_from. rewrite seqZ_cons by lia. cbn [map]. do 4 f_equal; lia. }
  destruct (Z.eqb_spec (e_hash T.[(th + d) mod NB k]) 0) as [E0|E0].
  { rewrite (walk_done T th d); [done|done|done|lia|lia|]. intros Hl. by destruct (Hl E0). }
  destruct (Z.eqb_spec (e_hash T.[(th + d) mod NB k]) th) as [Eh|Eh].
  { rewrite Hcons. unfold with_hash. rewrite filter_cons_True by done. cbn [map]. f_equal. apply IH; [done|done|lia|lia]. }
  destruct (Z.ltb_spec (dist k T ((th + d) mod NB k)) d).
  { rewrite (walk_done T th d); [done|done|done|lia|lia|done]. }
  rewrite Hcons. unfold with_hash. rewrite filter_cons_False by done. apply IH; [done|done|lia|lia].
Qed.

(** A walk around the whole ring meets every bucket once. *)
Lemma ring_positions th :
  map (fun i => (th + i) mod NB k) (seqZ 0 (NB k)) ≡ₚ seqZ 0 (NB k).
Proof using Hk.
  pose proof (N_pos k Hk). apply NoDup_Permutation.
  - apply NoDup_fmap_2_strong; [|apply NoDup_seqZ]. intros i j Hi%elem_of_seqZ Hj%elem_of_seqZ E.
    rewrite <- (rdist_at k th i), <- (rdist_at k th j) by lia. by rewrite E.
  - apply NoDup_seqZ.
  - intros p. rewrite elem_of_seqZ. split.
    + intros (i&->&_)%list_elem_of_fmap. pose proof (Z.mod_pos_bound (th + i) (NB k)). lia.
    + intros Hp. apply list_elem_of_fmap. exists (rdist k th p). rewrite rdist_home by lia.
      split; [done|]. apply elem_of_seqZ. pose proof (rdist_range k Hk th p). lia.
Qed.

Lemma buckets_map T : zlen T = NB k -> map (fun p => T.[p]) (seqZ 0 (NB k)) = T.
Proof using Hk.
  intros Hl. pose proof (N_pos k Hk). apply arr_ext.
  - unfold zlen in *. rewrite length_map, length_seqZ. lia.
  - unfold zlen. rewrite length_map, length_seqZ. intros i Hi. unfold arr_get at 1.
    rewrite list_lookup_total_alt, list_lookup_fmap, lookup_seqZ_lt by lia. cbn. f_equal. lia.
Qed.

Lemma ring_walk T th : zlen T = NB k -> walk_from T th 0 (length T) ≡ₚ T.
Proof using Hk.
  intros Hl. unfold walk_from. unfold zlen in Hl. rewrite Hl. fold (zlen T) in Hl.
  transitivity (map (fun p => T.[p]) (seqZ 0 (NB k))); [|by rewrite buckets_map].
  rewrite <- (ring_positions th) at 2. by rewrite map_map.
Qed.

(** The holders the probe collects are exactly the slots filed under the tag. *)
Lemma tag_holders_spec T th :
  rh k T -> th <> 0 ->
  tag_holders (Z.to_nat (NB k)) T (NB k - 1) th (Z.land (u32 th) (NB k - 1)) 0
    ≡ₚ map e_idx (with_hash th (content T)).
Proof using Hk.
  intros HT Hth. pose proof (rh_len k T HT) as Hl. pose proof Hl as Hl'. unfold zlen in Hl'.
  pose proof (tag_holders_walk T th (length T) 0 HT Hth) as E. rewrite Z.add_0_r in E.
  rewrite (home_N k Hk), <- Hl', Nat2Z.id, Hl', E by lia. unfold with_hash.
  rewrite (ring_walk T th Hl). unfold content. rewrite list_filter_filter. erewrite list_filter_iff; [done|].
  intros e. cbn. split; [intros ->|]; tauto.
Qed.
End Tags.
