(* ===== verification/PeerInvariant.v ===== *)
(** * What the peer table promises

    The abstract table is a set of registered slots, each with an address, an
    optional proven id and any number of tags, plus the slots that were removed
    while a reader still held them.  [pt_inv] ties the three indexes, the pool
    and the counters to it.  Every operation is characterised on every branch
    against the abstract table and preserves the invariant, and any history of
    operations from [Init] runs to completion. *)

From S2P Require Import Prelude CommonMath Errors RobinHood Keys SlotPool Congestion Peer PeerTable PeerIndex.

(** ** Running stages *)

Section Stages.
Context {S : Type} `{!Allocator S}.
Implicit Types (t u : PeerTable S).

Lemma run_some (f : stage S) l t u : f t = Some u -> run_stages (f :: l) t = run_stages l u.
Proof. intros E. cbn [run_stages]. by rewrite E. Qed.
Lemma insert_addr_some t slot a ai : InsertEntry (addrIdx t) (idxMask t) (HashAddr a) slot a = Some ai -> insert_addr slot a t = Some (t <| addrIdx := ai |>).
Proof. intros E. unfold insert_addr. by rewrite E. Qed.
Lemma insert_id_some t slot id bi :
  match id with None => Some (bcpIdx t) | Some i => InsertEntry (bcpIdx t) (idxMask t) (HashId i) slot i end = Some bi ->
  insert_id slot id t = Some (t <| bcpIdx := bi |>).
Proof. intros E. unfold insert_id. by rewrite E. Qed.
Lemma remove_addr_some t p ai : RemoveEntryAt (addrIdx t) (idxMask t) p = Some ai -> remove_addr (Some p) t = Some (t <| addrIdx := ai |>).
Proof. intros E. unfold remove_addr. by rewrite E. Qed.
Lemma remove_id_some t q bi :
  match q with None => Some (bcpIdx t) | Some p => RemoveEntryAt (bcpIdx t) (idxMask t) p end = Some bi -> remove_id q t = Some (t <| bcpIdx := bi |>).
Proof. intros E. unfold remove_id. by rewrite E. Qed.
Lemma insert_tag_some t th slot ti : InsertTagEntry (tagIdx t) (tagIdxMask t) th slot = Some ti -> insert_tag th slot t = Some (t <| tagIdx := ti |>).
Proof. intros E. unfold insert_tag. by rewrite E. Qed.
Lemma remove_tag_some t p ti : RemoveTagEntryAt (tagIdx t) (tagIdxMask t) p = Some ti -> remove_tag_at p t = Some (t <| tagIdx := ti |>).
Proof. intros E. unfold remove_tag_at. by rewrite E. Qed.
End Stages.

(** A stage that only stores, and one whose call is known to return. *)
Ltac store := erewrite run_some by reflexivity.
Ltac call E :=
  erewrite run_some by first [apply insert_addr_some; exact E | apply insert_id_some; exact E | apply remove_addr_some; exact E |
    apply remove_id_some; exact E | apply insert_tag_some; exact E | apply remove_tag_some; exact E | exact E].

Section Invariant.
Context {S : Type} `{!Allocator S} (k kt n : Z) (Hk : 0 <= k <= 30) (Hkt : 0 <= kt <= 30).
Implicit Types (t : PeerTable S) (regs zs : list Z).

Definition addr_of t (s : Z) : Address := p_addr (peers t).[s].
Definition id_of t (s : Z) : BcpId := p_id (peers t).[s].
Definition has_id t (s : Z) : Prop := hasId (peers t).[s] = true.
#[global] Instance has_id_dec t s : Decision (has_id t s).
Proof. unfold has_id. solve_decision. Defined.
Definition with_id t regs : list Z := filter (has_id t) regs.

(** The parts [Init] fixes. *)
Record sized t : Prop := {
  sz_init : pt_init t = true;
  sz_mask : idxMask t = NB k - 1; sz_cap : idxCapacity t = NB k;
  sz_tmask : tagIdxMask t = NB kt - 1; sz_tcap : tagIdxCapacity t = NB kt;
  sz_load : peerCapacity t < NB k; sz_tload : tagCapacity t < NB kt;
  sz_peers : zlen (peers t) = n }.

(** [regs] are the registered slots, [zs] the removed ones a reader holds. *)
Record pt_inv t regs zs : Prop := {
  iv_sized : sized t;
  iv_addr : represents k (addrIdx t) (addr_of t) regs;
  iv_id : represents k (bcpIdx t) (id_of t) (with_id t regs);
  iv_tags : tags_ok kt (tagIdx t) (tagCount t);
  iv_tload : tagCount t <= tagCapacity t;
  iv_tregs : forall e, e ∈ content (tagIdx t) -> e_idx e ∈ regs;
  iv_count : peerCount t = zlen regs;
  iv_load : zlen regs <= peerCapacity t;
  iv_key : forall s, s ∈ regs -> key_ok (addr_of t s);
  iv_owns : al_owns (peerPool t) n (regs ++ zs);
  iv_free : forall s, 0 <= s < n -> s ∉ zs -> freeWhenRead (peers t).[s] = false;
  iv_held : forall s, s ∈ zs -> emitting (peers t).[s] = true /\ freeWhenRead (peers t).[s] = true }.

Lemma inv_range t regs zs s : pt_inv t regs zs -> s ∈ regs ++ zs -> 0 <= s < n.
Proof.
  intros HI Hs. destruct (al_held _ _ _ (iv_owns _ _ _ HI)) as (_&_&HF&_).
  rewrite Forall_forall in HF. by apply HF.
Qed.
Lemma inv_regs_range t regs zs s : pt_inv t regs zs -> s ∈ regs -> 0 <= s < n.
Proof. intros HI Hs. apply (inv_range t regs zs); [done|]. apply elem_of_app. by left. Qed.

Lemma inv_nodup t regs zs : pt_inv t regs zs -> NoDup (regs ++ zs).
Proof. intros HI. by destruct (al_held _ _ _ (iv_owns _ _ _ HI)) as (_&?&_&_). Qed.

Lemma inv_capacity t regs zs : pt_inv t regs zs -> al_capacity (peerPool t) = n.
Proof. intros HI. by destruct (al_held _ _ _ (iv_owns _ _ _ HI)) as (?&_&_&_). Qed.

Lemma inv_perm t regs regs' zs : regs ≡ₚ regs' -> pt_inv t regs zs -> pt_inv t regs' zs.
Proof.
  intros HP []. split; try done.
  - by apply (represents_perm k _ _ regs).
  - apply (represents_perm k _ _ (with_id t regs)); [|done]. unfold with_id. by rewrite HP.
  - intros e. rewrite <- HP. auto.
  - unfold zlen. by rewrite <- HP.
  - unfold zlen. by rewrite <- HP.
  - intros s. rewrite <- HP. auto.
  - eapply al_perm; [|done]. by rewrite HP.
Qed.

Lemma with_id_length t regs : zlen (with_id t regs) <= zlen regs.
Proof. unfold zlen, with_id. pose proof (length_filter (has_id t) regs). lia. Qed.

Lemma elem_of_with_id t regs s : s ∈ with_id t regs <-> has_id t s /\ s ∈ regs.
Proof. apply list_elem_of_filter. Qed.

(** ** Searches *)

Lemma find_addr_spec t regs zs a :
  pt_inv t regs zs ->
  exists r, find_addr t a = Some r /\
    match r with
    | Some p => exists s, s ∈ regs /\ bucket_of k (addrIdx t) (addr_of t) p s /\ Address_eqb (addr_of t s) a = true
    | None => forall s, s ∈ regs -> Address_eqb (addr_of t s) a = false
    end.
Proof using Hk.
  intros HI. unfold find_addr. rewrite (sz_mask _ (iv_sized _ _ _ HI)).
  apply (represents_find k Hk _ _ _ a (iv_addr _ _ _ HI)).
Qed.

Lemma find_id_spec t regs zs i :
  pt_inv t regs zs ->
  exists r, find_id t i = Some r /\
    match r with
    | Some p => exists s, s ∈ with_id t regs /\ bucket_of k (bcpIdx t) (id_of t) p s /\ BcpId_eqb (id_of t s) i = true
    | None => forall s, s ∈ with_id t regs -> BcpId_eqb (id_of t s) i = false
    end.
Proof using Hk.
  intros HI. unfold find_id. rewrite (sz_mask _ (iv_sized _ _ _ HI)).
  apply (represents_find k Hk _ _ _ i (iv_id _ _ _ HI)).
Qed.

(** A slot is live exactly when it is registered. *)
Lemma slot_live_spec t regs zs slot :
  pt_inv t regs zs ->
  exists r, slot_live t slot = Some r /\
    match r with
    | Some p => slot ∈ regs /\ bucket_of k (addrIdx t) (addr_of t) p slot
    | None => slot ∉ regs
    end.
Proof using Hk.
  intros HI. unfold slot_live. fold (addr_of t slot).
  destruct (find_addr_spec t regs zs (addr_of t slot) HI) as (r&E&Hr). rewrite E. cbn [mbind option_bind].
  eexists. split; [done|]. destruct r as [p|].
  - destruct Hr as (s&Hs&Hb&Heq). destruct Hb as [Hp Eb] eqn:EB. rewrite Eb. cbn [e_idx slot_entry].
    destruct (Z.eqb_spec s slot) as [->|Hne]; [done|]. intros Hin. apply Hne.
    by apply (re_inj k _ _ _ (iv_addr _ _ _ HI)).
  - intros Hin. pose proof (Hr slot Hin) as H1.
    pose proof (key_refl (addr_of t slot) (iv_key _ _ _ HI slot Hin)) as H2. cbn in H2. congruence.
Qed.

(** The probe of a consistent table. *)
Lemma addr_probe_spec t regs zs a :
  pt_inv t regs zs ->
  match Lookup_probe (addrIdx t) (NB k - 1) (NB k) (HashAddr a) (fun s => Address_eqb (p_addr (peers t).[s]) a) with
  | Some s => s ∈ regs /\ Address_eqb (addr_of t s) a = true
  | None => forall s, s ∈ regs -> Address_eqb (addr_of t s) a = false
  end.
Proof using Hk. intros HI. by apply (represents_lookup k Hk _ _ _ a _ (iv_addr _ _ _ HI)). Qed.

Lemma id_probe_spec t regs zs i :
  pt_inv t regs zs ->
  match Lookup_probe (bcpIdx t) (NB k - 1) (NB k) (HashId i)
    (fun s => hasId (peers t).[s] && BcpId_eqb (p_id (peers t).[s]) i) with
  | Some s => s ∈ regs /\ has_id t s /\ BcpId_eqb (id_of t s) i = true
  | None => forall s, s ∈ regs -> has_id t s -> BcpId_eqb (id_of t s) i = false
  end.
Proof using Hk.
  intros HI. pose proof (represents_lookup k Hk _ _ _ i
    (fun s => hasId (peers t).[s] && BcpId_eqb (p_id (peers t).[s]) i) (iv_id _ _ _ HI)) as HL.
  change (key_hash i) with (HashId i) in HL.
  assert (Hv : forall s, s ∈ with_id t regs ->
    hasId (peers t).[s] && BcpId_eqb (p_id (peers t).[s]) i = key_eqb (id_of t s) i).
  { intros s [Hid _]%elem_of_with_id. unfold has_id in Hid. by rewrite Hid. }
  specialize (HL Hv). destruct (Lookup_probe _ _ _ _ _) as [s|].
  - destruct HL as [[Hid Hin]%elem_of_with_id Heq]. done.
  - intros s Hin Hid. apply HL. by apply elem_of_with_id.
Qed.

(** A seqlock reader answers from one consistent moment: a view whose version
    was even and did not change, or the table under the lock. *)
Lemma seq_read_from {R} (probe : PeerTable S -> R) : forall attempts views t,
  (exists i, (i < attempts)%nat /\ Z.odd (v_start (views i)) = false /\ v_end (views i) = v_start (views i) /\
     seq_read probe attempts views t = probe (v_table (views i))) \/
  seq_read probe attempts views t = probe t.
Proof.
  induction attempts as [|n' IH]; intros views t; [by right|]. cbn [seq_read].
  destruct (Z.odd (v_start (views O))) eqn:Eo.
  - destruct (IH (fun i => views (Datatypes.S i)) t) as [(i&?&?&?&?)|?]; [left; exists (Datatypes.S i)|by right].
    split; [lia|done].
  - destruct (Z.eqb_spec (v_end (views O)) (v_start (views O))).
    + left. exists O. split; [lia|done].
    + destruct (IH (fun i => views (Datatypes.S i)) t) as [(i&?&?&?&?)|?]; [left; exists (Datatypes.S i)|by right].
      split; [lia|done].
Qed.

(** The seqlock's contract: what a validated attempt saw was the table between
    two writes, one of the [moments]. *)
Definition seqlock_ok (moments : PeerTable S -> Prop) (views : nat -> View S) (t : PeerTable S) : Prop :=
  moments t /\
  forall i, Z.odd (v_start (views i)) = false -> v_end (views i) = v_start (views i) -> moments (v_table (views i)).

Lemma seq_read_moment {R} (probe : PeerTable S -> R) moments attempts views t :
  seqlock_ok moments views t -> exists u, moments u /\ seq_read probe attempts views t = probe u.
Proof.
  intros [Ht Hv]. destruct (seq_read_from probe attempts views t) as [(i&_&H1&H2&->)| ->]; eauto.
Qed.

Definition consistent (u : PeerTable S) : Prop := exists regs zs, pt_inv u regs zs.

(** ** Frames *)

(** Two tables whose records give the slots the same identities. *)
Definition same_ident t t' regs : Prop := forall s, s ∈ regs ->
  addr_of t' s = addr_of t s /\ id_of t' s = id_of t s /\ hasId (peers t').[s] = hasId (peers t).[s].

Lemma with_id_cons t s regs :
  with_id t (s :: regs) = if hasId (peers t).[s] then s :: with_id t regs else with_id t regs.
Proof.
  unfold with_id. rewrite filter_cons. destruct (decide (has_id t s)) as [E|E]; unfold has_id in E;
    [by rewrite E|by destruct (hasId _)].
Qed.

Lemma with_id_frame t t' regs : same_ident t t' regs -> with_id t' regs = with_id t regs.
Proof.
  induction regs as [|s regs IH]; intros HF; [done|]. rewrite !with_id_cons.
  destruct (HF s ltac:(by left)) as (_&_&->). rewrite IH; [done|]. intros s' Hs'. apply HF. by right.
Qed.

Lemma addr_frame t t' T regs :
  same_ident t t' regs -> represents k T (addr_of t) regs -> represents k T (addr_of t') regs.
Proof. intros HF. apply represents_ext. intros s Hs. symmetry. by apply HF. Qed.

Lemma id_frame t t' T regs :
  same_ident t t' regs -> represents k T (id_of t) (with_id t regs) ->
  represents k T (id_of t') (with_id t' regs).
Proof.
  intros HF. rewrite (with_id_frame t t' regs HF). apply represents_ext.
  intros s [_ Hs]%elem_of_with_id. symmetry. by apply HF.
Qed.

Lemma key_frame t t' regs :
  same_ident t t' regs -> (forall s, s ∈ regs -> key_ok (addr_of t s)) -> forall s, s ∈ regs -> key_ok (addr_of t' s).
Proof. intros HF HO s Hs. destruct (HF s Hs) as (->&_&_). auto. Qed.

(** Writing one slot outside [regs] changes no identity of theirs. *)
Lemma same_ident_set t t' regs zs slot w :
  pt_inv t regs zs -> 0 <= slot -> slot ∉ regs -> peers t' = (peers t).[slot <- w] -> same_ident t t' regs.
Proof.
  intros HI Hs Hn E s Hin. pose proof (inv_regs_range _ _ _ _ HI Hin).
  assert (slot <> s) by (by intros ->). unfold addr_of, id_of. by rewrite E, !arr_get_set_ne by lia.
Qed.

(** ** Registration *)

Definition conflict t regs (addr : Address) (id : option BcpId) : Prop :=
  (exists s, s ∈ regs /\ Address_eqb (addr_of t s) addr = true) \/
  (exists i s, id = Some i /\ s ∈ with_id t regs /\ BcpId_eqb (id_of t s) i = true).

(** The two insertions, for any slot outside the table. *)
Lemma register_write t regs zs slot w addr id pool :
  pt_inv t regs zs -> key_ok addr -> ~ conflict t regs addr id -> zlen regs < peerCapacity t ->
  slot ∉ regs ++ zs -> 0 <= slot < n -> al_owns pool n (slot :: regs ++ zs) ->
  p_addr w = addr -> p_id w = default (mk_id (zeros 32)) id -> hasId w = bool_decide (is_Some id) ->
  freeWhenRead w = false ->
  exists ai bi, InsertEntry (addrIdx t) (idxMask t) (HashAddr addr) slot addr = Some ai /\
    match id with
    | None => Some (bcpIdx t)
    | Some i => InsertEntry (bcpIdx t) (idxMask t) (HashId i) slot i
    end = Some bi /\
    forall v, pt_inv (t <| peerPool := pool |> <| peers := (peers t).[slot <- w] |> <| addrIdx := ai |>
                        <| bcpIdx := bi |> <| version := v |> <| peerCount := u32 (peerCount t + 1) |>)
                (slot :: regs) zs.
Proof using Hk.
  intros HI Hok Hnc Hroom Hnew Hrange Hown Ea Ei Eh Ef.
  pose proof (iv_sized _ _ _ HI) as Hsz. destruct (N_pos k Hk) as [_ HN].
  rewrite not_elem_of_app in Hnew. destruct Hnew as [Hn1 Hn2].
  set (t1 := t <| peers := (peers t).[slot <- w] |>).
  assert (HF : same_ident t t1 regs) by (apply (same_ident_set t t1 regs zs slot w); [done|lia|done|done]).
  assert (Hw : (peers t1).[slot] = w) by (apply arr_get_set_eq; rewrite (sz_peers _ Hsz); lia).
  pose proof (sz_load _ Hsz) as Hload.
  rewrite (sz_mask _ Hsz).
  destruct (represents_insert k Hk (addrIdx t) (addr_of t1) regs slot addr) as (ai&Eai&Hai).
  { apply (addr_frame t t1); [exact HF|exact (iv_addr _ _ _ HI)]. }
  { lia. }
  { unfold addr_of. by rewrite Hw. }
  { intros s' Hs'. destruct (HF s' Hs') as (->&_&_). apply not_true_iff_false. intros E. apply Hnc. left. eauto. }
  assert (exists bi, match id with
    | None => Some (bcpIdx t) | Some i => InsertEntry (bcpIdx t) (NB k - 1) (HashId i) slot i end = Some bi /\
    represents k bi (id_of t1) (with_id t1 (slot :: regs))) as (bi&Ebi&Hbi).
  { rewrite with_id_cons, Hw, Eh. pose proof (id_frame t t1 _ regs HF (iv_id _ _ _ HI)) as Hids.
    destruct id as [i|]; [|by exists (bcpIdx t)]. rewrite bool_decide_eq_true_2 by done.
    change (HashId i) with (key_hash i).
    apply (represents_insert k Hk (bcpIdx t) (id_of t1) (with_id t1 regs) slot i); [done| | |].
    - pose proof (with_id_length t1 regs). lia.
    - unfold id_of. by rewrite Hw, Ei.
    - intros s' Hs'. rewrite (with_id_frame t t1 regs HF) in Hs'.
      destruct (HF s') as (_&->&_); [by apply elem_of_with_id in Hs' as []|].
      apply not_true_iff_false. intros E. apply Hnc. right. eauto. }
  exists ai, bi. split_and!; [done..|]. intros v.
  assert (Hzs : forall s, s ∈ zs -> 0 <= s).
  { intros s Hs. apply (inv_range t regs zs); [done|]. apply elem_of_app. by right. }
  pose proof (iv_count _ _ _ HI) as Hc. pose proof (zlen_nonneg regs).
  destruct HI. split; cbn; try done.
  - destruct Hsz. split; cbn; try done. by rewrite zlen_set.
  - intros e He. right. auto.
  - rewrite Hc, u32_small by lia. unfold zlen. simpl. lia.
  - unfold zlen in *. simpl. lia.
  - intros s [->|Hs]%elem_of_cons; [change (key_ok (p_addr (peers t1).[slot])); by rewrite Hw, Ea|].
    by apply (key_frame t t1 regs).
  - intros s Hs Hz. rewrite arr_get_set by (rewrite ?(sz_peers _ Hsz); lia). destruct (slot =? s); [done|auto].
  - intros s Hs. rewrite arr_get_set_ne; [auto|lia| |by intros ->].
    apply Hzs. done.
Qed.

(** What registration did, on each of its outcomes. *)
Definition registered (now : Z) t regs zs (addr : Address) (id : option BcpId) (e : Error) (slot : Z) (t' : PeerTable S) : Prop :=
  match e with
  | Ok => ~ conflict t regs addr id /\ (slot ∉ regs ++ zs) /\ 0 <= slot < n /\ pt_inv t' (slot :: regs) zs /\
          peers t' = (peers t).[slot <- write_peer blank_peer addr id now] /\ tagIdx t' = tagIdx t
  | AlreadyPending => conflict t regs addr id /\ slot = INVALID /\ t' = t
  | LimitReached => slot = INVALID /\ (zlen regs = peerCapacity t \/ zlen (regs ++ zs) = n) /\
                    (exists pool, t' = t <| peerPool := pool |>) /\ pt_inv t' regs zs
  | _ => False
  end.

Lemma key_ok_set a : key_ok a -> Address_IsSet a = true.
Proof. cbn. unfold Address_IsSet, AF_INET, AF_INET6. intros H. apply negb_true_iff, Z.eqb_neq. lia. Qed.

Lemma inv_pool t regs zs pool : al_owns pool n (regs ++ zs) -> pt_inv t regs zs -> pt_inv (t <| peerPool := pool |>) regs zs.
Proof. intros Ho []. split; try done. by destruct iv_sized0. Qed.

Lemma RegisterPeer_core hint now t regs zs addr id :
  pt_inv t regs zs -> key_ok addr ->
  exists e slot t', RegisterPeer hint now t addr id = Some (e, slot, t') /\ registered now t regs zs addr id e slot t'.
Proof using Hk.
  intros HI Hok. pose proof (iv_sized _ _ _ HI) as Hsz. unfold RegisterPeer, RegisterPeer_plan.
  rewrite (sz_init _ Hsz), (key_ok_set _ Hok). cbn [negb].
  pose proof (iv_count _ _ _ HI) as Hc. pose proof (iv_load _ _ _ HI) as Hl.
  destruct (Z.leb_spec (peerCapacity t) (peerCount t)) as [Hfull|Hroom].
  { eexists _, _, _. split; [done|]. cbn. split_and!; [done|lia|by exists (peerPool t); destruct t|done]. }
  destruct (find_addr_spec t regs zs addr HI) as (ra&Ea&Ha). rewrite Ea. cbn [mbind option_bind].
  destruct ra as [p|].
  { eexists _, _, _. split; [done|]. cbn. split_and!; [|done..]. left. destruct Ha as (s&?&_&?). eauto. }
  assert (exists rb, match id with None => Some None | Some i => find_id t i end = Some rb /\
    match rb with Some _ => conflict t regs addr id | None => ~ conflict t regs addr id end) as (rb&Eb&Hb).
  { assert (Hna : ~ exists s, s ∈ regs /\ Address_eqb (addr_of t s) addr = true).
    { intros (s&Hs&E). rewrite Ha in E; done. }
    destruct id as [i|]; [|exists None; split; [done|]; intros [?|(?&?&?&_)]; done].
    destruct (find_id_spec t regs zs i HI) as (rb&Eb&Hb). exists rb. split; [done|]. destruct rb as [q|].
    - right. destruct Hb as (s&?&_&?). eauto.
    - intros [?|(i'&s&[= <-]&Hs&E)]; [done|]. rewrite Hb in E; done. }
  rewrite Eb. cbn [mbind option_bind]. destruct rb as [q|]; [eexists _, _, _; split; [done|]; cbn; split_and!; done|].
  destruct (al_acquire_ok _ _ _ hint (iv_owns _ _ _ HI)) as [(Hlt&slot&pool&E&Hn&Hr&Ho)|(Heq&pool&E&Ho)];
    rewrite E; cbn [mbind option_bind].
  - destruct (al_held _ _ _ (iv_owns _ _ _ HI)) as (_&_&_&Hn31).
    destruct (Z.eqb_spec slot INVALID) as [Hi|_]; [unfold INVALID, UINT32_MAX in Hi; lia|].
    destruct (register_write t regs zs slot (write_peer blank_peer addr id now) addr id pool) as (ai&bi&E1&E2&HI');
      try done; [lia|].
    cbn [mbind option_bind]. do 3 store. call E1. call E2. do 2 store. cbn [run_stages mbind option_bind]. rewrite (write_peer_fresh _ blank_peer).
    eexists Ok, slot, _. split; [reflexivity|]. cbn [registered].
    refine (conj Hb (conj Hn (conj Hr (conj (HI' _) (conj eq_refl eq_refl))))).
  - rewrite Z.eqb_refl. eexists _, _, _. split; [done|]. cbn. split_and!; [done|by right|by exists pool|].
    by apply inv_pool.
Qed.

(** ** Removal *)

(** The table once the indexes have forgotten a slot, before the slot is freed. *)
Lemma forget_slot t s regs zs p bq v :
  pt_inv t (s :: regs) zs -> bucket_of k (addrIdx t) (addr_of t) p s ->
  match bq with
  | Some q => has_id t s /\ bucket_of k (bcpIdx t) (id_of t) q s
  | None => ~ has_id t s
  end ->
  exists ai bi T c, RemoveEntryAt (addrIdx t) (idxMask t) p = Some ai /\
    match bq with None => Some (bcpIdx t) | Some q => RemoveEntryAt (bcpIdx t) (idxMask t) q end = Some bi /\
    ClearTagsLocked (t <| version := v |> <| addrIdx := ai |> <| bcpIdx := bi |>) s =
      Some (with_tags (t <| version := v |> <| addrIdx := ai |> <| bcpIdx := bi |>) T c) /\
    content T ≡ₚ others s (tagIdx t) /\ tags_ok kt T c /\ c <= tagCapacity t /\
    (forall e, e ∈ content T -> e_idx e ∈ regs) /\
    represents k ai (addr_of t) regs /\ represents k bi (id_of t) (with_id t regs).
Proof using Hk Hkt.
  intros HI Hp Hq. pose proof (iv_sized _ _ _ HI) as Hsz. rewrite (sz_mask _ Hsz).
  destruct (represents_remove k Hk _ _ _ _ _ (iv_addr _ _ _ HI) Hp) as (ai&Ea&Hai).
  assert (exists bi, match bq with None => Some (bcpIdx t) | Some q => RemoveEntryAt (bcpIdx t) (NB k - 1) q end = Some bi /\
    represents k bi (id_of t) (with_id t regs)) as (bi&Eb&Hbi).
  { pose proof (iv_id _ _ _ HI) as Hid. rewrite with_id_cons in Hid. unfold has_id in Hq. destruct bq as [q|].
    - destruct Hq as [Eh Hq]. rewrite Eh in Hid. by apply (represents_remove k Hk _ _ _ s).
    - exists (bcpIdx t). split; [done|]. by destruct (hasId _). }
  set (t1 := t <| version := v |> <| addrIdx := ai |> <| bcpIdx := bi |>).
  destruct (ClearTagsLocked_spec kt Hkt t1 s
    (sz_tmask _ Hsz) (sz_tcap _ Hsz) (iv_tags _ _ _ HI)) as (T&c&Et&Hok&HT).
  change (tagIdx t1) with (tagIdx t) in HT.
  exists ai, bi, T, c. split_and!; try done.
  - pose proof (iv_tload _ _ _ HI) as Hl. rewrite (tg_count _ _ _ (iv_tags _ _ _ HI)) in Hl.
    rewrite (tg_count _ _ _ Hok). unfold zlen in *. rewrite HT. unfold others.
    pose proof (length_filter (fun e : entry unit => e_idx e <> s) (content (tagIdx t))). lia.
  - intros e He. rewrite HT in He. apply list_elem_of_filter in He as [Hne Hin].
    apply (iv_tregs _ _ _ HI), elem_of_cons in Hin as [?|?]; done.
Qed.

Definition zombies t s zs : list Z := if emitting (peers t).[s] then s :: zs else zs.

(** Freeing the slot of a table [u] that has forgotten it. *)
Lemma drain_core t u s regs zs :
  pt_inv t (s :: regs) zs -> sized u ->
  represents k (addrIdx u) (addr_of t) regs -> represents k (bcpIdx u) (id_of t) (with_id t regs) ->
  tags_ok kt (tagIdx u) (tagCount u) -> tagCount u <= tagCapacity u ->
  (forall e, e ∈ content (tagIdx u) -> e_idx e ∈ regs) ->
  peerCount u = zlen regs -> peerCapacity u = peerCapacity t -> peerPool u = peerPool t -> peers u = peers t ->
  exists t', DrainAndFree u s = Some t' /\ pt_inv t' regs (zombies t s zs) /\ tagIdx t' = tagIdx u /\
    (forall s', 0 <= s' -> s' <> s -> (peers t').[s'] = (peers t).[s']).
Proof.
  intros HI Hsz Hai Hbi Hok Hcap Hin Hc Ecap Epool Epeers.
  pose proof (inv_nodup _ _ _ HI) as Hnd. rewrite <- app_comm_cons, NoDup_cons in Hnd. destruct Hnd as [Hns Hnd].
  rewrite not_elem_of_app in Hns. destruct Hns as [Hn1 Hn2].
  assert (Hpos : forall s', s' ∈ s :: regs ++ zs -> 0 <= s' < n).
  { intros s' Hs'. by apply (inv_range t (s :: regs) zs). }
  assert (Hload : zlen regs <= peerCapacity u).
  { pose proof (iv_load _ _ _ HI) as Hl. unfold zlen in *. simpl in Hl. lia. }
  unfold DrainAndFree, zombies. rewrite Epeers. destruct (emitting (peers t).[s]) eqn:Eem.
  - eexists. split; [reflexivity|]. split_and!; [|done|intros s' ??; apply arr_get_set_ne; [|lia|lia]].
    2: { apply Hpos. by left. }
    assert (HF : same_ident t (u <| peers := (peers t).[s <- (peers t).[s] <| freeWhenRead := true |>] |>) regs).
    { intros s' Hs'. unfold addr_of, id_of. cbn [peers upd].
      rewrite arr_get_set_ne; [done|apply Hpos; by left|apply Hpos; right; apply elem_of_app; by left|by intros ->]. }
    assert (Hs : 0 <= s < n) by (apply Hpos; by left).
    assert (Hl : 0 <= s < zlen (peers t)) by (rewrite <- Epeers, (sz_peers _ Hsz); lia).
    destruct HI. split; try done.
    + destruct Hsz. split; try done. cbn [peers upd]. by rewrite zlen_set, <- Epeers.
    + exact (addr_frame t _ _ _ HF Hai).
    + exact (id_frame t _ _ _ HF Hbi).
    + apply (key_frame t _ _ HF). intros s' Hs'. apply iv_key0. by right.
    + cbn [peerPool upd]. rewrite Epool. apply (al_perm _ _ ((s :: regs) ++ zs)); [apply Permutation_middle|done].
    + intros s' Hs' [Hne Hz]%not_elem_of_cons. cbn [peers upd]. rewrite arr_get_set_ne by lia. auto.
    + intros s' Hs'. cbn [peers upd]. apply elem_of_cons in Hs' as [->|Hs'].
      * by rewrite arr_get_set_eq by lia.
      * rewrite arr_get_set_ne; [auto|lia|apply Hpos; right; apply elem_of_app; by right|by intros ->].
  - destruct (al_release_ok _ _ _ _ (iv_owns _ _ _ HI)) as (pool&Er&Ho). rewrite Epool, Er. cbn [mbind option_bind].
    eexists. split; [reflexivity|]. split_and!; [|done|intros s' ??; by rewrite <- Epeers].
    assert (HF : same_ident t (u <| peerPool := pool |>) regs).
    { intros s' Hs'. unfold addr_of, id_of. cbn [peers upd]. by rewrite Epeers. }
    destruct HI. split; try done.
    + by destruct Hsz.
    + exact (addr_frame t _ _ _ HF Hai).
    + exact (id_frame t _ _ _ HF Hbi).
    + apply (key_frame t _ _ HF). intros s' Hs'. apply iv_key0. by right.
    + cbn [peers upd]. by rewrite Epeers.
    + cbn [peers upd]. by rewrite Epeers.
Qed.

(** What removing [s] leaves: every other record, every other tag, and the slot
    freed unless a reader holds it. *)
Definition removed t s regs zs (t' : PeerTable S) : Prop :=
  pt_inv t' regs (zombies t s zs) /\ content (tagIdx t') ≡ₚ others s (tagIdx t) /\
  (forall s', 0 <= s' -> s' <> s -> (peers t').[s'] = (peers t).[s']).

Lemma remove_at_core t s regs zs p bq :
  pt_inv t (s :: regs) zs -> bucket_of k (addrIdx t) (addr_of t) p s ->
  match bq with
  | Some q => has_id t s /\ bucket_of k (bcpIdx t) (id_of t) q s
  | None => ~ has_id t s
  end ->
  exists t', remove_at t s (Some p) bq = Some t' /\ removed t s regs zs t'.
Proof using Hk Hkt.
  intros HI Hp Hq. pose proof (iv_sized _ _ _ HI) as Hsz.
  destruct (forget_slot t s regs zs p bq (u32 (version t + 1)) HI Hp Hq) as (ai&bi&T&c&Ea&Eb&Et&HT&Hok&Hcap&Hin&Hai&Hbi).
  unfold remove_at, remove_stages. store. call Ea. call Eb. call Et. do 2 store.
  pose proof (iv_count _ _ _ HI) as Hc. pose proof (iv_load _ _ _ HI) as Hload. pose proof (sz_load _ Hsz).
  destruct (N_pos k Hk) as [_ HN]. unfold zlen in Hc, Hload. simpl in Hc, Hload.
  match goal with |- context [run_stages _ ?v] => set (u := v) end.
  destruct (drain_core t u s regs zs HI) as (t'&E&HI'&ET&Hp'); try done.
  - by destruct Hsz.
  - change (u32 (peerCount t - 1) = zlen regs). rewrite u32_small; unfold zlen; lia.
  - exists t'. split; [by call E|]. split_and!; [done|by rewrite ET|done].
Qed.

Lemma RemovePeer_addr_core t regs zs a :
  pt_inv t regs zs ->
  exists e t', RemovePeer_addr t a = Some (e, t') /\
    match e with
    | Ok => exists s regs', regs ≡ₚ s :: regs' /\ Address_eqb (addr_of t s) a = true /\ removed t s regs' zs t'
    | NotFound => t' = t /\ forall s, s ∈ regs -> Address_eqb (addr_of t s) a = false
    | _ => False
    end.
Proof using Hk Hkt.
  intros HI. unfold RemovePeer_addr, run_plan, RemovePeer_addr_plan. rewrite (sz_init _ (iv_sized _ _ _ HI)). cbn [negb].
  destruct (find_addr_spec t regs zs a HI) as (r&E&Hr). rewrite E. cbn [mbind option_bind].
  destruct r as [p|]; [|by eexists _, _].
  destruct Hr as (s&Hs&Hb&Heq). rewrite (proj2 Hb). cbn [e_idx slot_entry].
  apply elem_of_Permutation in Hs as [regs' HP].
  pose proof (inv_perm t _ _ zs HP HI) as HI'.
  assert (exists bq, (if hasId (peers t).[s] then find_id t (p_id (peers t).[s]) else Some None) = Some bq /\
    match bq with
    | Some q => has_id t s /\ bucket_of k (bcpIdx t) (id_of t) q s
    | None => ~ has_id t s
    end) as (bq&Ebq&Hbq).
  { unfold has_id. destruct (hasId (peers t).[s]) eqn:Eh; [|by exists None].
    destruct (find_id_spec t _ zs (id_of t s) HI') as (bq&Eb&Hbq). exists bq. split; [done|].
    assert (Hin : s ∈ with_id t (s :: regs')) by (apply elem_of_with_id; split; [done|by left]).
    destruct bq as [q|].
    - destruct Hbq as (s'&Hs'&Hb'&E'). split; [done|].
      by rewrite <- (re_inj k _ _ _ (iv_id _ _ _ HI') s' s Hs' Hin E').
    - pose proof (Hbq s Hin) as E'. pose proof (key_refl (id_of t s) I) as E''. cbn in E''. congruence. }
  rewrite Ebq. cbn [mbind option_bind].
  destruct (remove_at_core t s regs' zs p bq HI' Hb Hbq) as (t'&Et&Ht). unfold remove_at in Et. cbn [mbind option_bind]. rewrite Et.
  eexists Ok, t'. split; [done|]. eauto.
Qed.

Lemma RemovePeer_id_core t regs zs i :
  pt_inv t regs zs ->
  exists e t', RemovePeer_id t i = Some (e, t') /\
    match e with
    | Ok => exists s regs', regs ≡ₚ s :: regs' /\ has_id t s /\ BcpId_eqb (id_of t s) i = true /\ removed t s regs' zs t'
    | NotFound => t' = t /\ forall s, s ∈ regs -> has_id t s -> BcpId_eqb (id_of t s) i = false
    | _ => False
    end.
Proof using Hk Hkt.
  intros HI. unfold RemovePeer_id, run_plan, RemovePeer_id_plan. rewrite (sz_init _ (iv_sized _ _ _ HI)). cbn [negb].
  destruct (find_id_spec t regs zs i HI) as (r&E&Hr). rewrite E. cbn [mbind option_bind].
  destruct r as [q|].
  2: { eexists _, _. split; [done|]. split; [done|]. intros s ??. apply Hr. by apply elem_of_with_id. }
  destruct Hr as (s&Hs&Hb&Heq). rewrite (proj2 Hb). cbn [e_idx slot_entry].
  apply elem_of_with_id in Hs as [Hid Hin].
  destruct (find_addr_spec t regs zs (addr_of t s) HI) as (ra&Ea&Ha). fold (addr_of t s). rewrite Ea. cbn [mbind option_bind].
  destruct ra as [p|].
  2: { pose proof (Ha s Hin) as E1. pose proof (key_refl _ (iv_key _ _ _ HI s Hin)) as E2. cbn in E2. congruence. }
  destruct Ha as (s'&Hs'&Hb'&E'). rewrite (re_inj k _ _ _ (iv_addr _ _ _ HI) s' s Hs' Hin E') in Hb'.
  apply elem_of_Permutation in Hin as [regs' HP].
  destruct (remove_at_core t s regs' zs p (Some q) (inv_perm t _ _ zs HP HI) Hb') as (t'&Et&Ht); [done|].
  unfold remove_at in Et. cbn [mbind option_bind]. rewrite Et. eexists Ok, t'. split; [done|]. eexists s, regs'. done.
Qed.

(** ** Changing a live peer's identity *)

(** Writing a record that keeps the two flags of its slot's read protocol. *)
Lemma flags_set t regs zs slot w :
  pt_inv t regs zs -> 0 <= slot < n ->
  emitting w = emitting (peers t).[slot] -> freeWhenRead w = freeWhenRead (peers t).[slot] ->
  let P := (peers t).[slot <- w] in
  (forall s, 0 <= s < n -> s ∉ zs -> freeWhenRead P.[s] = false) /\
  (forall s, s ∈ zs -> emitting P.[s] = true /\ freeWhenRead P.[s] = true).
Proof.
  intros HI Hs He Hf P. pose proof (sz_peers _ (iv_sized _ _ _ HI)) as Hl.
  assert (HP : forall s, 0 <= s < n -> emitting P.[s] = emitting (peers t).[s] /\ freeWhenRead P.[s] = freeWhenRead (peers t).[s]).
  { intros s Hr. unfold P. rewrite arr_get_set by lia. by destruct (Z.eqb_spec slot s) as [<-|]. }
  split; intros s H1.
  - intros H2. destruct (HP s H1) as [_ ->]. by apply (iv_free _ _ _ HI).
  - assert (0 <= s < n) as Hr by (apply (inv_range t regs zs); [done|]; apply elem_of_app; by right).
    destruct (HP s Hr) as [-> ->]. by apply (iv_held _ _ _ HI).
Qed.

Lemma head_fresh t slot regs zs : pt_inv t (slot :: regs) zs -> (slot ∉ regs) /\ 0 <= slot < n.
Proof.
  intros HI. pose proof (inv_nodup _ _ _ HI) as Hnd. rewrite <- app_comm_cons, NoDup_cons in Hnd.
  destruct Hnd as [Hns _]. rewrite not_elem_of_app in Hns. destruct Hns as [Hn _]. split; [done|].
  apply (inv_regs_range t (slot :: regs) zs); [done|by left].
Qed.

Lemma head_set t t' slot regs zs w :
  pt_inv t (slot :: regs) zs -> peers t' = (peers t).[slot <- w] ->
  same_ident t t' regs /\ (peers t').[slot] = w.
Proof.
  intros HI E. destruct (head_fresh _ _ _ _ HI) as [Hn Hr]. split.
  - intros s Hs. assert (0 <= s < n) by (apply (inv_regs_range t (slot :: regs) zs); [done|by right]).
    assert (slot <> s) by (by intros ->). unfold addr_of, id_of. by rewrite E, arr_get_set_ne by lia.
  - rewrite E. apply arr_get_set_eq. rewrite (sz_peers _ (iv_sized _ _ _ HI)). lia.
Qed.

Lemma bind_write t slot regs zs i v :
  pt_inv t (slot :: regs) zs -> ~ has_id t slot ->
  (forall s, s ∈ with_id t (slot :: regs) -> BcpId_eqb (id_of t s) i = false) ->
  exists bi, InsertEntry (bcpIdx t) (idxMask t) (HashId i) slot i = Some bi /\
    pt_inv (t <| peers := (peers t).[slot <- (peers t).[slot] <| p_id := i |> <| hasId := true |>] |>
              <| bcpIdx := bi |> <| version := v |>) (slot :: regs) zs.
Proof using Hk.
  intros HI Hnid Hnew. pose proof (iv_sized _ _ _ HI) as Hsz. rewrite (sz_mask _ Hsz).
  destruct (head_fresh _ _ _ _ HI) as [Hfresh Hr].
  set (w := (peers t).[slot] <| p_id := i |> <| hasId := true |>).
  set (t1 := t <| peers := (peers t).[slot <- w] |>).
  destruct (head_set t t1 slot regs zs w HI eq_refl) as [HF Hw].
  destruct (flags_set t (slot :: regs) zs slot w HI Hr eq_refl eq_refl) as [Hfree Hheld].
  assert (Ebefore : with_id t (slot :: regs) = with_id t regs).
  { rewrite with_id_cons. unfold has_id in Hnid. by destruct (hasId _). }
  assert (Eafter : with_id t1 (slot :: regs) = slot :: with_id t regs).
  { rewrite with_id_cons, Hw. cbn [hasId w upd]. by rewrite (with_id_frame t t1 regs HF). }
  destruct (represents_insert k Hk (bcpIdx t) (id_of t1) (with_id t regs) slot i) as (bi&E&Hbi).
  { pose proof (iv_id _ _ _ HI) as Hid. rewrite Ebefore in Hid.
    rewrite <- (with_id_frame t t1 regs HF). by apply (id_frame t). }
  { pose proof (with_id_length t regs). pose proof (iv_load _ _ _ HI) as Hl. pose proof (sz_load _ Hsz).
    unfold zlen in *. simpl in Hl. lia. }
  { unfold id_of. by rewrite Hw. }
  { intros s Hs. destruct (HF s) as (_&->&_); [by apply elem_of_with_id in Hs as []|].
    apply Hnew. by rewrite Ebefore. }
  exists bi. split; [done|].
  assert (Haddr : forall s, s ∈ slot :: regs -> addr_of t s = addr_of t1 s).
  { intros s [->|Hs]%elem_of_cons; [|symmetry; by apply HF]. unfold addr_of at 2. by rewrite Hw. }
  destruct HI. split; try done.
  - destruct Hsz. split; try done. transitivity (zlen (peers t)); [apply zlen_set|done].
  - exact (represents_ext k _ _ _ _ Haddr iv_addr0).
  - rewrite <- Eafter in Hbi. exact Hbi.
  - intros s Hs. change (key_ok (addr_of t1 s)). rewrite <- Haddr by done. auto.
Qed.

Definition bound t regs zs (slot : Z) (i : BcpId) (e : Error) (t' : PeerTable S) : Prop :=
  match e with
  | Ok => slot ∈ regs /\ ~ has_id t slot /\ (forall s, s ∈ with_id t regs -> BcpId_eqb (id_of t s) i = false) /\
          pt_inv t' regs zs /\ tagIdx t' = tagIdx t /\
          peers t' = (peers t).[slot <- (peers t).[slot] <| p_id := i |> <| hasId := true |>]
  | AlreadyPending => t' = t /\ slot ∈ regs /\
          (has_id t slot \/ exists s, s ∈ with_id t regs /\ BcpId_eqb (id_of t s) i = true)
  | NotFound => t' = t /\ slot ∉ regs
  | InvalidParam => t' = t /\ n <= slot
  | _ => False
  end.

Lemma BindId_core t regs zs slot i :
  pt_inv t regs zs -> exists e t', BindId t slot i = Some (e, t') /\ bound t regs zs slot i e t'.
Proof using Hk.
  intros HI. unfold BindId, run_plan, BindId_plan. rewrite (sz_init _ (iv_sized _ _ _ HI)), (inv_capacity _ _ _ HI). cbn [negb].
  destruct (Z.leb_spec n slot); [by eexists _, _|].
  destruct (slot_live_spec t regs zs slot HI) as (r&E&Hr). rewrite E. cbn [mbind option_bind].
  destruct r as [p|]; [|by eexists _, _]. destruct Hr as [Hin _].
  destruct (hasId (peers t).[slot]) eqn:Eh.
  { eexists _, _. split; [done|]. split_and!; [done..|]. by left. }
  destruct (find_id_spec t regs zs i HI) as (rb&Eb&Hb). rewrite Eb. cbn [mbind option_bind].
  destruct rb as [q|].
  { eexists _, _. split; [done|]. split_and!; [done..|]. right. destruct Hb as (s&?&_&?). eauto. }
  assert (Hnid : ~ has_id t slot) by (unfold has_id; by rewrite Eh).
  pose proof Hin as Hin'. apply elem_of_Permutation in Hin' as [regs' HP].
  destruct (bind_write t slot regs' zs i (u32 (version t + 2)) (inv_perm t _ _ zs HP HI) Hnid) as (bi&E1&HI').
  { intros s. unfold with_id. rewrite <- HP. apply Hb. }
  cbn [mbind option_bind]. do 2 store. call E1. store. cbn [run_stages mbind option_bind]. eexists Ok, _. split; [reflexivity|].
  split_and!; [done|done|done| |done|done]. apply (inv_perm _ _ _ zs (symmetry HP) HI').
Qed.

Lemma move_write t slot regs zs p a v :
  pt_inv t (slot :: regs) zs -> bucket_of k (addrIdx t) (addr_of t) p slot -> key_ok a ->
  (forall s, s ∈ slot :: regs -> Address_eqb (addr_of t s) a = false) ->
  exists ai ai', RemoveEntryAt (addrIdx t) (idxMask t) p = Some ai /\
    InsertEntry ai (idxMask t) (HashAddr a) slot a = Some ai' /\
    pt_inv (t <| peers := (peers t).[slot <- (peers t).[slot] <| p_addr := a |>] |>
              <| addrIdx := ai' |> <| version := v |>) (slot :: regs) zs.
Proof using Hk.
  intros HI Hp Hok Hnew. pose proof (iv_sized _ _ _ HI) as Hsz. rewrite (sz_mask _ Hsz).
  destruct (head_fresh _ _ _ _ HI) as [Hfresh Hr].
  set (w := (peers t).[slot] <| p_addr := a |>).
  set (t1 := t <| peers := (peers t).[slot <- w] |>).
  destruct (head_set t t1 slot regs zs w HI eq_refl) as [HF Hw].
  destruct (flags_set t (slot :: regs) zs slot w HI Hr eq_refl eq_refl) as [Hfree Hheld].
  destruct (represents_remove k Hk _ _ _ _ _ (iv_addr _ _ _ HI) Hp) as (ai&E&Hai).
  destruct (represents_insert k Hk ai (addr_of t1) regs slot a) as (ai'&E'&Hai').
  { exact (addr_frame t t1 _ _ HF Hai). }
  { pose proof (iv_load _ _ _ HI) as Hl. pose proof (sz_load _ Hsz). unfold zlen in *. simpl in Hl. lia. }
  { unfold addr_of. by rewrite Hw. }
  { intros s Hs. destruct (HF s Hs) as (->&_&_). apply Hnew. by right. }
  exists ai, ai'. split_and!; [done..|].
  assert (Hid : same_ident t t1 regs /\ id_of t1 slot = id_of t slot /\ hasId (peers t1).[slot] = hasId (peers t).[slot]).
  { unfold id_of. rewrite Hw. done. }
  destruct Hid as (_&Hid&Hhas).
  assert (Ew : with_id t1 (slot :: regs) = with_id t (slot :: regs)).
  { rewrite !with_id_cons, Hhas. by rewrite (with_id_frame t t1 regs HF). }
  destruct HI. split; try done.
  - destruct Hsz. split; try done. transitivity (zlen (peers t)); [apply zlen_set|done].
  - change (represents k (bcpIdx t) (id_of t1) (with_id t1 (slot :: regs))). rewrite Ew.
    apply (represents_ext k _ (id_of t)); [|done].
    intros s [_ [->|Hs]%elem_of_cons]%elem_of_with_id; [done|symmetry; by apply HF].
  - intros s Hs. change (key_ok (addr_of t1 s)). apply elem_of_cons in Hs as [->|Hs].
    + unfold addr_of. by rewrite Hw.
    + apply (key_frame t t1 regs HF); [|done]. intros s' Hs'. apply iv_key0. by right.
Qed.

Definition moved t regs zs (slot : Z) (a : Address) (e : Error) (t' : PeerTable S) : Prop :=
  match e with
  | Ok => slot ∈ regs /\
          (Address_eqb a (addr_of t slot) = true /\ t' = t \/
           (forall s, s ∈ regs -> Address_eqb (addr_of t s) a = false) /\ pt_inv t' regs zs /\
           tagIdx t' = tagIdx t /\ peers t' = (peers t).[slot <- (peers t).[slot] <| p_addr := a |>])
  | AlreadyPending => t' = t /\ slot ∈ regs /\ exists s, s ∈ regs /\ s <> slot /\ Address_eqb (addr_of t s) a = true
  | NotFound => t' = t /\ slot ∉ regs
  | InvalidParam => t' = t /\ n <= slot
  | _ => False
  end.

Lemma UpdateAddress_core t regs zs slot a :
  pt_inv t regs zs -> key_ok a ->
  exists e t', UpdateAddress t slot a = Some (e, t') /\ moved t regs zs slot a e t'.
Proof using Hk.
  intros HI Hok. unfold UpdateAddress, run_plan, UpdateAddress_plan. rewrite (sz_init _ (iv_sized _ _ _ HI)), (inv_capacity _ _ _ HI), (key_ok_set a Hok).
  cbn [negb]. rewrite orb_false_r.
  destruct (Z.leb_spec n slot); [by eexists _, _|].
  destruct (slot_live_spec t regs zs slot HI) as (r&E&Hr). rewrite E. cbn [mbind option_bind].
  destruct r as [p|]; [|by eexists _, _]. destruct Hr as [Hin Hb]. fold (addr_of t slot).
  destruct (Address_eqb a (addr_of t slot)) eqn:Esame.
  { eexists Ok, _. split; [done|]. split; [done|]. by left. }
  destruct (find_addr_spec t regs zs a HI) as (ra&Ea&Ha). rewrite Ea. cbn [mbind option_bind].
  destruct ra as [q|].
  { eexists AlreadyPending, _. split; [done|]. split_and!; [done..|]. destruct Ha as (s&Hs&_&Eq). exists s.
    split_and!; [done| |done]. intros ->. pose proof (key_sym a (addr_of t slot)) as Hsym. cbn in Hsym. congruence. }
  pose proof Hin as Hin'. apply elem_of_Permutation in Hin' as [regs' HP].
  destruct (move_write t slot regs' zs p a (u32 (version t + 2)) (inv_perm t _ _ zs HP HI) Hb Hok) as (ai&ai'&E1&E2&HI').
  { intros s. rewrite <- HP. apply Ha. }
  cbn [mbind option_bind]. do 2 store. call E1. call E2. store. cbn [run_stages mbind option_bind]. eexists Ok, _. split; [reflexivity|].
  split; [done|]. right. split_and!; [done| |done|done]. apply (inv_perm _ _ _ zs (symmetry HP) HI').
Qed.

(** ** Tags *)

Lemma inv_tags t regs zs T c v :
  pt_inv t regs zs -> tags_ok kt T c -> c <= tagCapacity t -> (forall e, e ∈ content T -> e_idx e ∈ regs) ->
  pt_inv ((with_tags t T c) <| version := v |>) regs zs.
Proof. intros [] ???. split; try done. by destruct iv_sized0. Qed.

Lemma HashTag_range tag : Forall is_byte tag -> 0 <= HashTag tag.
Proof. intros H. unfold HashTag. induction H; cbn [le_value]; [lia|]. unfold is_byte in *. lia. Qed.

Definition tagged t regs zs (slot : Z) (tag : list Z) (e : Error) (t' : PeerTable S) : Prop :=
  match e with
  | Ok => slot ∈ regs /\ HashTag tag <> 0 /\ tagCount t < tagCapacity t /\ pt_inv t' regs zs /\ peers t' = peers t /\
          content (tagIdx t') ≡ₚ mk_entry (HashTag tag) slot tt :: content (tagIdx t)
  | NotFound => t' = t /\ slot ∉ regs
  | LimitReached => t' = t /\ tagCount t = tagCapacity t
  | InvalidParam => t' = t /\ (n <= slot \/ HashTag tag = 0)
  | _ => False
  end.

Lemma BindTag_core t regs zs slot tag :
  pt_inv t regs zs -> exists e t', BindTag t slot tag = Some (e, t') /\ tagged t regs zs slot tag e t'.
Proof using Hk Hkt.
  intros HI. pose proof (iv_sized _ _ _ HI) as Hsz. unfold BindTag, run_plan, BindTag_plan.
  rewrite (sz_init _ Hsz), (inv_capacity _ _ _ HI). cbn [negb].
  destruct (Z.leb_spec n slot); [eexists _, _; split; [done|]; cbn; auto|].
  destruct (Z.eqb_spec (HashTag tag) 0); [eexists _, _; split; [done|]; cbn; auto|].
  pose proof (iv_tload _ _ _ HI). destruct (Z.leb_spec (tagCapacity t) (tagCount t)).
  { eexists _, _. split; [done|]. split; [done|lia]. }
  destruct (slot_live_spec t regs zs slot HI) as (r&E&Hr). rewrite E. cbn [mbind option_bind].
  destruct r as [p|]; [|by eexists _, _]. destruct Hr as [Hin _].
  pose proof (iv_tags _ _ _ HI) as Hok. pose proof (tags_room kt Hkt _ _ Hok) as Hroom.
  destruct (InsertEntry_spec kt Hkt (tagIdx t) (HashTag tag) slot tt (tg_rh _ _ _ Hok) Hroom ltac:(done)) as (T'&E'&HT'&HP).
  assert (E1 : InsertTagEntry (tagIdx t) (tagIdxMask t) (HashTag tag) slot = Some T') by (unfold InsertTagEntry; by rewrite (sz_tmask _ Hsz)).
  cbn [mbind option_bind]. store. call E1. do 2 store. cbn [run_stages mbind option_bind]. eexists Ok, _. split; [reflexivity|].
  pose proof (sz_tload _ Hsz). destruct (N_pos kt Hkt). pose proof (zlen_nonneg (content (tagIdx t))).
  pose proof (tg_count _ _ _ Hok) as Hc.
  assert (Hc' : u32 (tagCount t + 1) = tagCount t + 1) by (apply u32_small; lia).
  split_and!; [done|done|lia| |done|done].
  apply (inv_tags t regs zs T' (u32 (tagCount t + 1)) (u32 (version t + 2)) HI).
  - split; [done| |]; rewrite Hc'; [|lia]. rewrite Hc. unfold zlen. rewrite HP. simpl. lia.
  - rewrite Hc'. lia.
  - intros e. rewrite HP, elem_of_cons. intros [->|He]; [done|by apply (iv_tregs _ _ _ HI)].
Qed.

Definition untagged t regs zs (slot : Z) (tag : list Z) (e : Error) (t' : PeerTable S) : Prop :=
  match e with
  | Ok => pt_inv t' regs zs /\ peers t' = peers t /\
          content (tagIdx t) ≡ₚ mk_entry (HashTag tag) slot tt :: content (tagIdx t')
  | NotFound => t' = t /\ mk_entry (HashTag tag) slot tt ∉ content (tagIdx t)
  | InvalidParam => t' = t /\ HashTag tag = 0
  | _ => False
  end.

Lemma UnbindTag_core t regs zs slot tag :
  pt_inv t regs zs -> exists e t', UnbindTag t slot tag = Some (e, t') /\ untagged t regs zs slot tag e t'.
Proof using Hk Hkt.
  intros HI. pose proof (iv_sized _ _ _ HI) as Hsz. unfold UnbindTag, run_plan, UnbindTag_plan. rewrite (sz_init _ Hsz). cbn [negb].
  destruct (Z.eqb_spec (HashTag tag) 0); [by eexists _, _|].
  pose proof (iv_tags _ _ _ HI) as Hok. pose proof (tags_room kt Hkt _ _ Hok) as Hroom.
  unfold FindTagPos. rewrite (sz_tmask _ Hsz).
  pose proof (FindPos_spec kt Hkt (tagIdx t) (HashTag tag) (fun e => e_idx e =? slot) (tg_rh _ _ _ Hok) Hroom ltac:(done)) as HF.
  destruct (FindPos _ _ _ _) as [[p|]|]; [| |done]; cbn [mbind option_bind].
  - destruct HF as (Hp&Eh&Ei%Z.eqb_eq).
    destruct (remove_tag kt Hkt _ _ p Hok Hp) as (T'&E'&Hok'&HL&HP); [unfold live; lia|].
    assert (E1 : RemoveTagEntryAt (tagIdx t) (tagIdxMask t) p = Some T') by (by rewrite (sz_tmask _ Hsz)).
    store. call E1. do 2 store. cbn [run_stages mbind option_bind]. eexists Ok, _. split; [reflexivity|].
    assert (He : (tagIdx t).[p] = mk_entry (HashTag tag) slot tt).
    { destruct (tagIdx t).[p] as [h x []]. cbn in *. by subst. }
    split_and!; [|done|by rewrite <- He, HP].
    apply (inv_tags t regs zs T' (u32 (tagCount t - 1)) (u32 (version t + 2)) HI); [done| |].
    + rewrite (tg_count _ _ _ Hok'). pose proof (iv_tload _ _ _ HI) as Hl.
      rewrite (tg_count _ _ _ Hok) in Hl. lia.
    + intros e He'. apply (iv_tregs _ _ _ HI). rewrite <- HP. by right.
  - eexists _, _. split; [done|]. split; [done|]. intros Hin.
    apply (elem_of_content kt) in Hin as (p&Hp&_&E); [|apply Hok].
    apply (HF p). unfold matches. rewrite E. cbn. rewrite Z.eqb_refl. split_and!; done || lia.
Qed.

Lemma UnbindTags_core t regs zs slot :
  pt_inv t regs zs ->
  exists t', UnbindTags t slot = Some (Ok, t') /\ pt_inv t' regs zs /\ peers t' = peers t /\
    content (tagIdx t') ≡ₚ others slot (tagIdx t).
Proof using Hk Hkt.
  intros HI. pose proof (iv_sized _ _ _ HI) as Hsz. unfold UnbindTags, run_plan, UnbindTags_plan. rewrite (sz_init _ Hsz). cbn [negb].
  pose proof (iv_tags _ _ _ HI) as Hok.
  set (t1 := t <| version := u32 (version t + 1) |>).
  destruct (ClearTagsLocked_spec kt Hkt t1 slot (sz_tmask t Hsz) (sz_tcap t Hsz) Hok) as (T&c&E&Hok'&HP).
  change (tagIdx t1) with (tagIdx t) in HP.
  cbn [mbind option_bind]. store. call E. store. cbn [run_stages mbind option_bind]. eexists. split; [reflexivity|]. split_and!; [|done|done].
  apply (inv_tags t regs zs T c (u32 (version t + 2)) HI); [done| |].
  - rewrite (tg_count _ _ _ Hok'). pose proof (iv_tload _ _ _ HI) as Hl. rewrite (tg_count _ _ _ Hok) in Hl.
    unfold zlen in *. rewrite HP. unfold others.
    pose proof (length_filter (fun e : entry unit => e_idx e <> slot) (content (tagIdx t))). lia.
  - intros e. rewrite HP. intros [_ He]%list_elem_of_filter. by apply (iv_tregs _ _ _ HI).
Qed.

(** ** Readers leaving, and what a handle may write *)

Lemma ClearEmitting_core t regs zs slot :
  pt_inv t regs zs -> 0 <= slot ->
  exists t' zs', ClearEmitting t slot = Some t' /\ pt_inv t' regs zs' /\
    (if decide (slot ∈ zs) then zs ≡ₚ slot :: zs' else zs' = zs) /\ tagIdx t' = tagIdx t.
Proof.
  intros HI Hpos. pose proof (iv_sized _ _ _ HI) as Hsz. unfold ClearEmitting. rewrite (inv_capacity _ _ _ HI).
  destruct (Z.leb_spec n slot) as [Hout|Hin].
  { exists t, zs. split_and!; [done|done| |done]. destruct (decide _) as [Hz|]; [|done].
    exfalso. assert (0 <= slot < n); [|lia]. apply (inv_range t regs zs); [done|]. apply elem_of_app. by right. }
  set (w := (peers t).[slot] <| emitting := false |> <| freeWhenRead := false |>).
  assert (Hl : 0 <= slot < zlen (peers t)) by (rewrite (sz_peers _ Hsz); lia).
  set (t1 := t <| peers := (peers t).[slot <- w] |>).
  assert (HF : same_ident t t1 regs).
  { intros s Hs. assert (0 <= s) by (by apply (inv_regs_range t regs zs)). unfold addr_of, id_of. cbn [peers t1 upd].
    rewrite arr_get_set by lia. by destruct (Z.eqb_spec slot s) as [<-|]. }
  assert (Hset : forall s, 0 <= s -> s <> slot -> (peers t1).[s] = (peers t).[s]).
  { intros s ??. cbn [peers t1 upd]. apply arr_get_set_ne; lia. }
  assert (Hself : freeWhenRead (peers t1).[slot] = false) by (cbn [peers t1 upd]; by rewrite arr_get_set_eq).
  assert (Hinv : forall pool zs', al_owns pool n (regs ++ zs') -> (forall s, s ∈ zs' -> s ∈ zs) -> slot ∉ zs' ->
    (forall s, s ∈ zs -> s <> slot -> s ∈ zs') -> pt_inv (t1 <| peerPool := pool |>) regs zs').
  { intros pool zs' Ho Hsub Hnot Hsup. assert (Hz : forall s, s ∈ zs -> 0 <= s).
    { intros s Hs. apply (inv_range t regs zs); [done|]. apply elem_of_app. by right. }
    destruct HI. split; try done.
    - destruct Hsz. split; try done. transitivity (zlen (peers t)); [apply zlen_set|done].
    - exact (addr_frame t t1 _ _ HF iv_addr0).
    - exact (id_frame t t1 _ _ HF iv_id0).
    - exact (key_frame t t1 _ HF iv_key0).
    - intros s Hs Hnz. change (freeWhenRead (peers t1).[s] = false). destruct (decide (s = slot)) as [->|]; [done|].
      rewrite Hset by lia. apply iv_free0; [done|]. intros Hs'. by apply Hnz, Hsup.
    - intros s Hs. change (emitting (peers t1).[s] = true /\ freeWhenRead (peers t1).[s] = true).
      assert (s <> slot) by (by intros ->). rewrite Hset by auto. auto. }
  destruct (decide (slot ∈ zs)) as [Hz|Hz].
  - destruct (iv_held _ _ _ HI slot Hz) as [_ Hf]. rewrite Hf.
    pose proof Hz as Hz'. apply elem_of_Permutation in Hz' as [zs' HP].
    pose proof (iv_owns _ _ _ HI) as Ho.
    destruct (al_release_ok (peerPool t) n (regs ++ zs') slot) as (pool&E&Ho').
    { eapply al_perm; [|exact Ho]. rewrite HP. symmetry. apply Permutation_middle. }
    change (peerPool t1) with (peerPool t). rewrite E. cbn [mbind option_bind].
    eexists _, zs'. split; [reflexivity|]. split_and!; [|done|done].
    pose proof (inv_nodup _ _ _ HI) as Hnd. rewrite HP in Hnd. apply NoDup_app in Hnd as (_&_&Hnd).
    rewrite NoDup_cons in Hnd. apply Hinv; [done| |tauto|].
    + intros s Hs. rewrite HP. by right.
    + intros s Hs Hne. rewrite HP, elem_of_cons in Hs. tauto.
  - rewrite (iv_free _ _ _ HI slot) by (done || lia). exists t1, zs. split_and!; [done| |done|done].
    apply (Hinv (peerPool t) zs); [apply HI|done|done|done].
Qed.

(** A record a handle's holder may store: the table's own fields are not its to
    change, and a removed peer stays pinned until [ClearEmitting]. *)
Definition handle_may_write (old w : Peer) : Prop :=
  p_addr w = p_addr old /\ p_id w = p_id old /\ hasId w = hasId old /\ freeWhenRead w = freeWhenRead old /\
  (freeWhenRead old = true -> emitting w = true).

Lemma handle_write_core t regs zs slot w :
  pt_inv t regs zs -> 0 <= slot -> handle_may_write (peers t).[slot] w ->
  pt_inv (t <| peers := (peers t).[slot <- w] |>) regs zs.
Proof.
  intros HI Hpos (Ea&Ei&Eh&Ef&Ee). pose proof (iv_sized _ _ _ HI) as Hsz.
  set (t1 := t <| peers := (peers t).[slot <- w] |>).
  assert (HP : forall s, 0 <= s < n -> (peers t1).[s] = if slot =? s then w else (peers t).[s]).
  { intros s Hs. cbn [peers t1 upd]. destruct (Z.eqb_spec slot s) as [<-|].
    - apply arr_get_set_eq. rewrite (sz_peers _ Hsz). lia.
    - apply arr_get_set_ne; lia. }
  assert (HF : same_ident t t1 regs).
  { intros s Hs. pose proof (inv_regs_range t regs zs s HI Hs). unfold addr_of, id_of. rewrite HP by done.
    by destruct (Z.eqb_spec slot s) as [<-|]. }
  assert (Hz : forall s, s ∈ zs -> 0 <= s < n).
  { intros s Hs. apply (inv_range t regs zs); [done|]. apply elem_of_app. by right. }
  destruct HI. split; try done.
  - destruct Hsz. split; try done. transitivity (zlen (peers t)); [apply zlen_set|done].
  - exact (addr_frame t t1 _ _ HF iv_addr0).
  - exact (id_frame t t1 _ _ HF iv_id0).
  - exact (key_frame t t1 _ HF iv_key0).
  - intros s Hs Hnz. rewrite HP by done. destruct (Z.eqb_spec slot s) as [<-|]; [rewrite Ef|]; auto.
  - intros s Hs. rewrite HP by auto. destruct (iv_held0 s Hs). destruct (Z.eqb_spec slot s) as [<-|]; [|done].
    rewrite Ef. auto.
Qed.
End Invariant.
