(* ===== verification/PeerSpec.v ===== *)
(** * The peer table's guarantees

    The claims about [PeerTable] as its callers see it: every history of
    operations from [Init] runs to the end and keeps the table consistent;
    registration, lookup by address, id and tag, address migration and removal do
    what their comments say, on every branch.  Lookups that race the writers are the
    subject of [PeerRace]. *)

From S2P Require Import Prelude CommonMath Errors RobinHood Keys SlotPool Congestion Peer PeerTable PeerIndex PeerInvariant.

(** ** The size of the indexes *)

Lemma bucket_bits n : 2 <= n <= 2 ^ 30 -> exists k, 0 <= k <= 30 /\ NextPowerOfTwo n = NB k /\ n <= NB k.
Proof.
  intros Hn. exists (Z.log2 (n - 1) + 1). pose proof (Z.log2_nonneg (n - 1)).
  assert (Z.log2 (n - 1) < 30) by (apply Z.log2_lt_pow2; lia).
  pose proof (Z.log2_spec (n - 1) ltac:(lia)) as [_ Hs]. unfold Z.succ in Hs.
  split; [lia|]. rewrite NextPowerOfTwo_log2 by lia. unfold NB.
  pose proof (Z.pow_le_mono_r 2 (Z.log2 (n - 1) + 1) 30 ltac:(lia) ltac:(lia)).
  rewrite u32_small; [split; [done|lia]|]. split; [apply Z.pow_nonneg; lia|lia].
Qed.

Lemma need_for_exceeds c : 1 <= c < 2 ^ 34 -> c + 1 <= need_for c.
Proof.
  intros Hc. unfold need_for, MAX_LOAD_PERCENT. rewrite (u64_small (c * 100)) by lia. rewrite u64_small by lia. zdm.
Qed.

Section Table.
Context {S : Type} `{!Allocator S}.
Implicit Types (t : PeerTable S) (regs zs : list Z).

(** [Init] accepts a capacity exactly when both indexes fit in [2^30] buckets; the
    table it makes is consistent and empty. *)
Lemma Init_bits capacity :
  is_u32 capacity -> need_for (capacity * MAX_TAGS_PER_PEER) <= 2 ^ 30 -> need_for capacity <= 2 ^ 30 -> capacity <> 0 ->
  exists k kt, 0 <= k <= 30 /\ 0 <= kt <= 30 /\
    NextPowerOfTwo (need_for capacity) = NB k /\ NextPowerOfTwo (need_for (capacity * MAX_TAGS_PER_PEER)) = NB kt.
Proof.
  intros Hc Ht Hn H0. unfold MAX_TAGS_PER_PEER in *.
  pose proof (need_for_exceeds capacity ltac:(lia)). pose proof (need_for_exceeds (capacity * 4) ltac:(lia)).
  destruct (bucket_bits (need_for capacity) ltac:(lia)) as (k&Hk&Ek&_).
  destruct (bucket_bits (need_for (capacity * 4)) ltac:(lia)) as (kt&Hkt&Ekt&_).
  exists k, kt. done.
Qed.

Lemma Init_core mkPool poolCapacity t capacity k kt :
  is_u32 capacity -> tagCount t = 0 -> 0 <= k <= 30 -> 0 <= kt <= 30 ->
  NextPowerOfTwo (need_for capacity) = NB k -> NextPowerOfTwo (need_for (capacity * MAX_TAGS_PER_PEER)) = NB kt ->
  al_owns (mkPool capacity) (poolCapacity capacity) [] -> 0 <= poolCapacity capacity ->
  (PeerTable_Init mkPool poolCapacity t capacity).1 = Ok ->
  pt_inv k kt (poolCapacity capacity) (PeerTable_Init mkPool poolCapacity t capacity).2 [] [].
Proof.
  intros Hc Htc Hk Hkt Ek Ekt Hpool Hpc HOk. unfold PeerTable_Init in *. destruct (Z.eqb_spec capacity 0); [done|].
  destruct (Z.ltb_spec (2 ^ 30) (need_for capacity)) as [|Hn]; [done|]. revert HOk Ekt.
  rewrite (u64_small (capacity * MAX_TAGS_PER_PEER)) by (unfold MAX_TAGS_PER_PEER; lia).
  set (tc := capacity * MAX_TAGS_PER_PEER). assert (Etc : tc = capacity * 4) by done. clearbody tc.
  destruct (Z.ltb_spec (2 ^ 30) (need_for tc)) as [|Htn]; [done|]. intros _ Ekt. cbn [snd].
  pose proof (need_for_exceeds capacity ltac:(lia)). pose proof (need_for_exceeds tc ltac:(lia)).
  rewrite (u32_small (need_for capacity)), (u32_small (need_for tc)), (u32_small tc) by lia.
  destruct (bucket_bits (need_for capacity) ltac:(lia)) as (k'&_&Ek'&Hke). rewrite Ek in Ek'.
  destruct (bucket_bits (need_for tc) ltac:(lia)) as (kt'&_&Ekt'&Hkte). rewrite Ekt in Ekt'.
  rewrite <- Ek' in Hke. rewrite <- Ekt' in Hkte. clear k' kt' Ek' Ekt'.
  destruct (N_pos k Hk), (N_pos kt Hkt). rewrite Ek, Ekt, !u32_small by lia.
  split; try done.
  - split; try done; cbn; [lia|lia|]. by rewrite zlen_replicate.
  - apply (represents_empty k Hk); cbn; [rewrite zlen_replicate by lia; done|].
    intros p Hp. by rewrite arr_get_replicate.
  - apply (represents_empty k Hk); cbn; [rewrite zlen_replicate by lia; done|].
    intros p Hp. by rewrite arr_get_replicate.
  - destruct (empty_index kt (replicate (Z.to_nat (NB kt)) (empty_entry (K := unit)))) as [HT HC].
    { by rewrite zlen_replicate by lia. }
    { intros p Hp. by rewrite arr_get_replicate. }
    split; [done|change (tagCount t = zlen (content (replicate (Z.to_nat (NB kt)) (empty_entry (K := unit))))); by rewrite HC|].
    change (tagCount t < NB kt). lia.
  - change (tagCount t <= tc). lia.
  - intros e Hin. change (e ∈ content (replicate (Z.to_nat (NB kt)) (empty_entry (K := unit)))) in Hin.
    destruct (empty_index kt (replicate (Z.to_nat (NB kt)) (empty_entry (K := unit)))) as [_ HC].
    { by rewrite zlen_replicate by lia. }
    { intros p Hp. by rewrite arr_get_replicate. }
    rewrite HC in Hin. by apply not_elem_of_nil in Hin.
  - change (0 <= capacity). lia.
  - intros s Hs. by apply not_elem_of_nil in Hs.
  - intros s Hs _. cbn. by rewrite arr_get_replicate.
  - intros s Hs. by apply not_elem_of_nil in Hs.
Qed.

(** ** Histories *)

(** What callers, writers and the holders of handles may do to a table. *)
Inductive table_op :=
| OpRegister (hint now : Z) (addr : Address) (id : option BcpId)
| OpBindId (slot : Z) (id : BcpId)
| OpRemoveAddr (addr : Address)
| OpRemoveId (id : BcpId)
| OpUpdateAddress (slot : Z) (addr : Address)
| OpBindTag (slot : Z) (tag : list Z)
| OpUnbindTag (slot : Z) (tag : list Z)
| OpUnbindTags (slot : Z)
| OpClearEmitting (slot : Z)
| OpWrite (slot : Z) (w : Peer).

Definition table_step t (op : table_op) : option (PeerTable S) :=
  match op with
  | OpRegister hint now addr id => r ← RegisterPeer hint now t addr id; Some r.2
  | OpBindId slot id => r ← BindId t slot id; Some r.2
  | OpRemoveAddr addr => r ← RemovePeer_addr t addr; Some r.2
  | OpRemoveId id => r ← RemovePeer_id t id; Some r.2
  | OpUpdateAddress slot addr => r ← UpdateAddress t slot addr; Some r.2
  | OpBindTag slot tag => r ← BindTag t slot tag; Some r.2
  | OpUnbindTag slot tag => r ← UnbindTag t slot tag; Some r.2
  | OpUnbindTags slot => r ← UnbindTags t slot; Some r.2
  | OpClearEmitting slot => ClearEmitting t slot
  | OpWrite slot w => Some (t <| peers := (peers t).[slot <- w] |>)
  end.

(** Addresses are of a known family, slots are unsigned, and the holders of
    handles keep off the table's own fields. *)
Definition op_ok t (op : table_op) : Prop :=
  match op with
  | OpRegister _ _ addr _ => key_ok addr
  | OpUpdateAddress _ addr => key_ok addr
  | OpClearEmitting slot => 0 <= slot
  | OpWrite slot w => 0 <= slot /\ handle_may_write (peers t).[slot] w
  | _ => True
  end.

(** The tables a history leads to. *)
Inductive table_reach (t0 : PeerTable S) : PeerTable S -> Prop :=
| reach_start : table_reach t0 t0
| reach_step t op t' : table_reach t0 t -> op_ok t op -> table_step t op = Some t' -> table_reach t0 t'.

Section Steps.
Context (k kt n : Z) (Hk : 0 <= k <= 30) (Hkt : 0 <= kt <= 30).

(** Every operation returns, whatever the branch, and keeps the invariant. *)
Lemma table_step_consistent t op :
  consistent k kt n t -> op_ok t op -> exists t', table_step t op = Some t' /\ consistent k kt n t'.
Proof using Hk Hkt.
  intros (regs&zs&HI) Hop. unfold consistent. destruct op; cbn [table_step op_ok] in *.
  - destruct (RegisterPeer_core k kt n Hk hint now t regs zs addr id HI Hop) as (e&slot&t'&E&H). rewrite E.
    exists t'. split; [done|]. destruct e; cbn in H; try done.
    + destruct H as (_&_&_&?&_). eauto.
    + destruct H as (_&_&_&?). eauto.
    + destruct H as (_&_&->). eauto.
  - destruct (BindId_core k kt n Hk t regs zs slot id HI) as (e&t'&E&H). rewrite E. exists t'. split; [done|].
    destruct e; cbn in H; try done; [destruct H as (_&_&_&?&_)|..]; try destruct H as [-> _]; eauto.
  - destruct (RemovePeer_addr_core k kt n Hk Hkt t regs zs addr HI) as (e&t'&E&H). rewrite E. exists t'. split; [done|].
    destruct e; try done; [destruct H as (s&regs'&_&_&?&_)|destruct H as [-> _]]; eauto.
  - destruct (RemovePeer_id_core k kt n Hk Hkt t regs zs id HI) as (e&t'&E&H). rewrite E. exists t'. split; [done|].
    destruct e; try done; [destruct H as (s&regs'&_&_&_&?&_)|destruct H as [-> _]]; eauto.
  - destruct (UpdateAddress_core k kt n Hk t regs zs slot addr HI Hop) as (e&t'&E&H). rewrite E. exists t'. split; [done|].
    destruct e; cbn in H; try done; [destruct H as (_&[[_ ->]|(_&?&_)])|..]; try destruct H as [-> _]; eauto.
  - destruct (BindTag_core k kt n Hk Hkt t regs zs slot tag HI) as (e&t'&E&H). rewrite E. exists t'. split; [done|].
    destruct e; cbn in H; try done; [destruct H as (_&_&_&?&_)|..]; try destruct H as [-> _]; eauto.
  - destruct (UnbindTag_core k kt n Hk Hkt t regs zs slot tag HI) as (e&t'&E&H). rewrite E. exists t'. split; [done|].
    destruct e; cbn in H; try done; [destruct H as (?&_)|..]; try destruct H as [-> _]; eauto.
  - destruct (UnbindTags_core k kt n Hk Hkt t regs zs slot HI) as (t'&E&?&_). rewrite E. exists t'. split; [done|]. eauto.
  - destruct (ClearEmitting_core k kt n Hk Hkt t regs zs slot HI Hop) as (t'&zs'&E&?&_). rewrite E. eauto.
  - destruct Hop. eexists. split; [reflexivity|]. exists regs, zs. by apply handle_write_core.
Qed.

Lemma table_reach_consistent t0 t : consistent k kt n t0 -> table_reach t0 t -> consistent k kt n t.
Proof using Hk Hkt.
  intros H0. induction 1 as [|t op t' _ IH Hop E]; [done|].
  destruct (table_step_consistent t op IH Hop) as (t''&E'&?). by simplify_eq.
Qed.
End Steps.


(** ** What readers are told *)

Section Answers.
Context (k kt n : Z) (Hk : 0 <= k <= 30) (Hkt : 0 <= kt <= 30).

(** The right answer about an address, an id, a tag, for the table [u]. *)
Definition right_addr (u : PeerTable S) (a : Address) (r : Error + Z) : Prop :=
  exists regs zs, pt_inv k kt n u regs zs /\
  match r with
  | inr s => s ∈ regs /\ Address_eqb (addr_of u s) a = true
  | inl e => e = NotFound /\ forall s, s ∈ regs -> Address_eqb (addr_of u s) a = false
  end.
Definition right_id (u : PeerTable S) (i : BcpId) (r : Error + Z) : Prop :=
  exists regs zs, pt_inv k kt n u regs zs /\
  match r with
  | inr s => s ∈ regs /\ has_id u s /\ BcpId_eqb (id_of u s) i = true
  | inl e => e = NotFound /\ forall s, s ∈ regs -> has_id u s -> BcpId_eqb (id_of u s) i = false
  end.

Lemma GetPeer_addr_moment moments views t a :
  seqlock_ok moments views t -> (forall u, moments u -> consistent k kt n u) ->
  exists u, moments u /\ right_addr u a (GetPeer_addr views t a).
Proof using Hk Hkt.
  intros Hseq Hmom. destruct (Hmom t (proj1 Hseq)) as (regs0&zs0&HI0). pose proof (iv_sized _ _ _ _ _ _ HI0) as Hsz.
  unfold GetPeer_addr, Lookup. rewrite (sz_init _ _ _ _ Hsz), (sz_mask _ _ _ _ Hsz), (sz_cap _ _ _ _ Hsz). cbn [negb].
  match goal with |- context [seq_read ?p _ _ _] =>
    destruct (seq_read_moment p moments MAX_OPTIMISTIC_ATTEMPTS views t Hseq) as (u&Hu&E) end.
  cbv zeta. rewrite E. exists u. split; [done|].
  destruct (Hmom u Hu) as (regs&zs&HI). exists regs, zs. split; [done|].
  pose proof (addr_probe_spec k kt n Hk u regs zs a HI) as HP. by destruct (Lookup_probe _ _ _ _ _).
Qed.

Lemma GetPeer_id_moment moments views t i :
  seqlock_ok moments views t -> (forall u, moments u -> consistent k kt n u) ->
  exists u, moments u /\ right_id u i (GetPeer_id views t i).
Proof using Hk Hkt.
  intros Hseq Hmom. destruct (Hmom t (proj1 Hseq)) as (regs0&zs0&HI0). pose proof (iv_sized _ _ _ _ _ _ HI0) as Hsz.
  unfold GetPeer_id, Lookup. rewrite (sz_init _ _ _ _ Hsz), (sz_mask _ _ _ _ Hsz), (sz_cap _ _ _ _ Hsz). cbn [negb].
  match goal with |- context [seq_read ?p _ _ _] =>
    destruct (seq_read_moment p moments MAX_OPTIMISTIC_ATTEMPTS views t Hseq) as (u&Hu&E) end.
  cbv zeta. rewrite E. exists u. split; [done|].
  destruct (Hmom u Hu) as (regs&zs&HI). exists regs, zs. split; [done|].
  pose proof (id_probe_spec k kt n Hk u regs zs i HI) as HP. by destruct (Lookup_probe _ _ _ _ _).
Qed.

(** The slots filed under a tag, once per binding. *)
Definition holders (u : PeerTable S) (tag : list Z) : list Z := map e_idx (with_hash (HashTag tag) (content (tagIdx u))).

Lemma GetPeersByTag_moment moments views t tag max :
  seqlock_ok moments views t -> (forall u, moments u -> consistent k kt n u) -> HashTag tag <> 0 -> 0 < max ->
  exists u l, moments u /\ l ≡ₚ holders u tag /\ GetPeersByTag views t tag max = (zlen l, take (Z.to_nat max) l).
Proof using Hk Hkt.
  intros Hseq Hmom Ht Hm. destruct (Hmom t (proj1 Hseq)) as (regs0&zs0&HI0). pose proof (iv_sized _ _ _ _ _ _ HI0) as Hsz.
  unfold GetPeersByTag. rewrite (sz_init _ _ _ _ Hsz), (sz_tmask _ _ _ _ Hsz), (sz_tcap _ _ _ _ Hsz). cbn [negb orb].
  destruct (Z.eqb_spec max 0); [lia|]. destruct (Z.eqb_spec (HashTag tag) 0); [done|].
  match goal with |- context [seq_read ?p _ _ _] =>
    destruct (seq_read_moment p moments MAX_OPTIMISTIC_ATTEMPTS views t Hseq) as (u&Hu&E) end.
  cbv zeta. rewrite E. destruct (Hmom u Hu) as (regs&zs&HI).
  eexists u, _. split; [done|]. split; [|reflexivity].
  apply (tag_holders_spec kt Hkt); [apply (iv_tags _ _ _ _ _ _ HI)|done].
Qed.

(** Nobody writes while the call runs. *)
Definition undisturbed (views : nat -> View S) t : Prop := seqlock_ok (eq t) views t.

Lemma GetPeer_addr_probe t regs zs a views :
  pt_inv k kt n t regs zs -> undisturbed views t ->
  (exists s, GetPeer_addr views t a = inr s /\ s ∈ regs /\ Address_eqb (addr_of t s) a = true) \/
  (GetPeer_addr views t a = inl NotFound /\ forall s, s ∈ regs -> Address_eqb (addr_of t s) a = false).
Proof using Hk Hkt.
  intros HI Hv. pose proof (iv_sized _ _ _ _ _ _ HI) as Hsz.
  unfold GetPeer_addr, Lookup. rewrite (sz_init _ _ _ _ Hsz), (sz_mask _ _ _ _ Hsz), (sz_cap _ _ _ _ Hsz). cbn [negb].
  match goal with |- context [seq_read ?p _ _ _] =>
    destruct (seq_read_moment p (eq t) MAX_OPTIMISTIC_ATTEMPTS views t Hv) as (u&<-&E) end.
  cbv zeta. rewrite E. pose proof (addr_probe_spec k kt n Hk t regs zs a HI) as HP.
  destruct (Lookup_probe _ _ _ _ _) as [s|]; [left; exists s; done|right; done].
Qed.

Lemma GetPeer_id_probe t regs zs i views :
  pt_inv k kt n t regs zs -> undisturbed views t ->
  (exists s, GetPeer_id views t i = inr s /\ s ∈ with_id t regs /\ BcpId_eqb (id_of t s) i = true) \/
  (GetPeer_id views t i = inl NotFound /\ forall s, s ∈ with_id t regs -> BcpId_eqb (id_of t s) i = false).
Proof using Hk Hkt.
  intros HI Hv. pose proof (iv_sized _ _ _ _ _ _ HI) as Hsz.
  unfold GetPeer_id, Lookup. rewrite (sz_init _ _ _ _ Hsz), (sz_mask _ _ _ _ Hsz), (sz_cap _ _ _ _ Hsz). cbn [negb].
  match goal with |- context [seq_read ?p _ _ _] =>
    destruct (seq_read_moment p (eq t) MAX_OPTIMISTIC_ATTEMPTS views t Hv) as (u&<-&E) end.
  cbv zeta. rewrite E. pose proof (id_probe_spec k kt n Hk t regs zs i HI) as HP.
  destruct (Lookup_probe _ _ _ _ _) as [s|].
  - left. exists s. rewrite elem_of_with_id. tauto.
  - right. split; [done|]. intros s [? ?]%elem_of_with_id. auto.
Qed.

(** A registered key is found at its slot. *)
Lemma found_id_slot t regs zs i s views :
  pt_inv k kt n t regs zs -> s ∈ with_id t regs -> BcpId_eqb (id_of t s) i = true ->
  undisturbed views t -> GetPeer_id views t i = inr s.
Proof using Hk Hkt.
  intros HI Hs Heq Hv.
  destruct (GetPeer_id_probe t regs zs i views HI Hv) as [(s'&E&Hs'&Heq')|[_ Hn]].
  - rewrite E. f_equal. apply (re_inj k _ _ _ (iv_id _ _ _ _ _ _ HI)); [done..|].
    exact (key_trans (id_of t s') i (id_of t s) Heq' (eq_trans (key_sym i (id_of t s)) Heq)).
  - by rewrite Hn in Heq.
Qed.

Lemma found_addr_slot t regs zs a s views :
  pt_inv k kt n t regs zs -> s ∈ regs -> Address_eqb (addr_of t s) a = true ->
  undisturbed views t -> GetPeer_addr views t a = inr s.
Proof using Hk Hkt.
  intros HI Hs Heq Hv.
  destruct (GetPeer_addr_probe t regs zs a views HI Hv) as [(s'&E&Hs'&Heq')|[_ Hn]].
  - rewrite E. f_equal. apply (re_inj k _ _ _ (iv_addr _ _ _ _ _ _ HI)); [done..|].
    exact (key_trans (addr_of t s') a (addr_of t s) Heq' (eq_trans (key_sym a (addr_of t s)) Heq)).
  - by rewrite Hn in Heq.
Qed.
End Answers.
End Table.

(** ** The claims *)

Section Claims.
Context {S : Type} `{!Allocator S}.
Implicit Types (t : PeerTable S) (regs zs : list Z).

Lemma holders_others th (s : Z) (l : list (entry unit)) :
  map e_idx (with_hash th (filter (fun e => e_idx e <> s) l)) = filter (fun s' => s' <> s) (map e_idx (with_hash th l)).
Proof.
  unfold with_hash. induction l as [|e l IH]; [done|]. rewrite !filter_cons.
  destruct (decide (e_hash e = th)) as [E|E], (decide (e_idx e <> s)) as [Ei|Ei]; cbn [map];
    rewrite ?filter_cons; repeat destruct (decide _); cbn [map]; try done; by rewrite IH.
Qed.

Lemma registered_record k kt n now t regs zs addr id slot t' :
  0 <= k <= 30 -> 0 <= kt <= 30 ->
  pt_inv k kt n t regs zs -> key_ok addr -> registered k kt n now t regs zs addr id Ok slot t' ->
  forall views, undisturbed views t' ->
    GetPeer_addr views t' addr = inr slot /\ (forall i, id = Some i -> GetPeer_id views t' i = inr slot).
Proof.
  intros Hk Hkt HI Hok (_&_&Hr&HI'&Hp&_) views Hv.
  assert (Hw : (peers t').[slot] = write_peer blank_peer addr id now).
  { rewrite Hp. apply arr_get_set_eq. rewrite (sz_peers _ _ _ _ (iv_sized _ _ _ _ _ _ HI)). lia. }
  split.
  - apply (found_addr_slot k kt n Hk Hkt t' (slot :: regs) zs); [done|by left| |done].
    unfold addr_of. rewrite Hw. exact (key_refl addr Hok).
  - intros i ->. apply (found_id_slot k kt n Hk Hkt t' (slot :: regs) zs); [done| | |done].
    + apply elem_of_with_id. split; [unfold has_id; by rewrite Hw|by left].
    + unfold id_of. rewrite Hw. exact (key_refl i I).
Qed.

Lemma removed_gone k kt n t s regs zs t' :
  0 <= k <= 30 -> 0 <= kt <= 30 ->
  pt_inv k kt n t (s :: regs) zs -> removed k kt n t s regs zs t' ->
  forall views, undisturbed views t' ->
    (forall a, Address_eqb (addr_of t s) a = true -> GetPeer_addr views t' a = inl NotFound) /\
    (forall i, has_id t s -> BcpId_eqb (id_of t s) i = true -> GetPeer_id views t' i = inl NotFound) /\
    (forall s' a, s' ∈ regs -> Address_eqb (addr_of t s') a = true -> GetPeer_addr views t' a = inr s') /\
    (forall tag, holders t' tag ≡ₚ filter (fun s' => s' <> s) (holders t tag)).
Proof.
  intros Hk Hkt HI (HI'&HT&Hp) views Hv. destruct (head_fresh k kt n t s regs zs HI) as [Hfresh Hr].
  assert (Hsame : forall s', s' ∈ regs -> (peers t').[s'] = (peers t).[s'] /\ s' <> s).
  { intros s' Hs'. assert (s' <> s) by (by intros ->). split; [apply Hp; [|done]|done].
    assert (0 <= s' < n); [|lia]. apply (inv_regs_range k kt n t (s :: regs) zs); [done|by right]. }
  split_and!.
  - intros a Ha. destruct (GetPeer_addr_probe k kt n Hk Hkt t' regs _ a views HI' Hv) as [(s'&_&Hs'&Heq)|[? _]]; [|done].
    exfalso. destruct (Hsame s' Hs') as [E Hne]. apply Hne.
    apply (re_inj k _ _ _ (iv_addr _ _ _ _ _ _ HI)); [by right|by left|].
    unfold addr_of in Heq. rewrite E in Heq.
    exact (key_trans (addr_of t s') a (addr_of t s) Heq (eq_trans (key_sym a (addr_of t s)) Ha)).
  - intros i Hid Hi. destruct (GetPeer_id_probe k kt n Hk Hkt t' regs _ i views HI' Hv) as [(s'&_&Hs'&Heq)|[? _]]; [|done].
    exfalso. apply elem_of_with_id in Hs' as [Hhas Hs']. destruct (Hsame s' Hs') as [E Hne]. apply Hne.
    unfold has_id in Hhas. rewrite E in Hhas.
    apply (re_inj k _ _ _ (iv_id _ _ _ _ _ _ HI)); [apply elem_of_with_id; split; [done|by right]|apply elem_of_with_id; split; [done|by left]|].
    unfold id_of in Heq. rewrite E in Heq.
    exact (key_trans (id_of t s') i (id_of t s) Heq (eq_trans (key_sym i (id_of t s)) Hi)).
  - intros s' a Hs' Ha. apply (found_addr_slot k kt n Hk Hkt t' regs _ a s' views HI' Hs'); [|done].
    unfold addr_of. by rewrite (proj1 (Hsame s' Hs')).
  - intros tag. unfold holders, with_hash. rewrite HT. unfold others.
    pose proof (holders_others (HashTag tag) s (content (tagIdx t))) as E. unfold with_hash in E. by rewrite E.
Qed.

Section Histories.
Context (mkPool : Z -> S) (poolCapacity : Z -> Z).

(** (C19) Whatever the callers do to a table that [Init] accepted, in any
    order and however long, each operation returns: no probe, insertion, shift or
    tag sweep runs on for ever.  And every table on the way is consistent: its
    three indexes hold exactly the registered peers, no slot is both registered
    and free, and every index keeps an empty bucket. *)
Theorem peer_table_history (t0 t : PeerTable S) (capacity : Z) (op : table_op)
  (Hc : is_u32 capacity) (Htc : tagCount t0 = 0) (Hpc : 0 <= poolCapacity capacity)
  (Hpool : al_owns (mkPool capacity) (poolCapacity capacity) [])
  (HOk : (PeerTable_Init mkPool poolCapacity t0 capacity).1 = Ok)
  (Hreach : table_reach (PeerTable_Init mkPool poolCapacity t0 capacity).2 t) (Hop : op_ok t op) :
  exists k kt, 0 <= k <= 30 /\ 0 <= kt <= 30 /\ consistent k kt (poolCapacity capacity) t /\
    exists t', table_step t op = Some t' /\ consistent k kt (poolCapacity capacity) t'.
Proof.
  assert (Hb : need_for (capacity * MAX_TAGS_PER_PEER) <= 2 ^ 30 /\ need_for capacity <= 2 ^ 30 /\ capacity <> 0).
  { revert HOk. unfold PeerTable_Init. destruct (Z.eqb_spec capacity 0); [done|].
    destruct (Z.ltb_spec (2 ^ 30) (need_for capacity)); [done|].
    rewrite (u64_small (capacity * MAX_TAGS_PER_PEER)) by (unfold MAX_TAGS_PER_PEER; lia).
    destruct (Z.ltb_spec (2 ^ 30) (need_for (capacity * MAX_TAGS_PER_PEER))); [done|]. lia. }
  destruct Hb as (Hb1&Hb2&Hb3). destruct (Init_bits capacity Hc Hb1 Hb2 Hb3) as (k&kt&Hk&Hkt&Ek&Ekt).
  exists k, kt. split; [done|]. split; [done|].
  assert (Ht : consistent k kt (poolCapacity capacity) t).
  { apply (table_reach_consistent k kt _ Hk Hkt (PeerTable_Init mkPool poolCapacity t0 capacity).2); [|done].
    exists [], []. by apply Init_core. }
  split; [done|]. by apply table_step_consistent.
Qed.
End Histories.

Section At.
Context (k kt n : Z) (Hk : 0 <= k <= 30) (Hkt : 0 <= kt <= 30).

(** Registration, on every outcome.  It succeeds exactly when
    neither the address nor the id is taken and both the table and its pool have
    room: the slot is one nobody held, its record is the one a new peer gets
    whatever bytes were there, every other record and every tag are as before,
    and from then on a lookup by the address, and by the id if one was given,
    finds it.  A refusal changes nothing a reader can see. *)
Theorem RegisterPeer_correct t regs zs (hint now : Z) (addr : Address) (id : option BcpId)
  (HI : pt_inv k kt n t regs zs) (Hok : key_ok addr) :
  exists e slot t', RegisterPeer hint now t addr id = Some (e, slot, t') /\
    registered k kt n now t regs zs addr id e slot t' /\
    (e = Ok -> forall views, undisturbed views t' ->
       GetPeer_addr views t' addr = inr slot /\ (forall i, id = Some i -> GetPeer_id views t' i = inr slot)).
Proof using Hk Hkt.
  destruct (RegisterPeer_core k kt n Hk hint now t regs zs addr id HI Hok) as (e&slot&t'&E&HR).
  exists e, slot, t'. split; [done|]. split; [done|]. intros -> views Hv.
  by apply (registered_record k kt n now t regs zs addr id slot t').
Qed.

(** Removal by address.  It fails exactly when no registered peer has
    the address, changing nothing.  Otherwise it takes out that one peer: its
    address, its id and its tags find nothing any more, every other peer keeps its
    record, its address and its tags, and the slot goes back to the pool at once
    unless a reader is still emitting from it, in which case it stays out of the
    pool until [ClearEmitting]. *)
Theorem RemovePeer_correct t regs zs (a : Address) (HI : pt_inv k kt n t regs zs) :
  exists e t', RemovePeer_addr t a = Some (e, t') /\
    match e with
    | Ok => exists s regs', regs ≡ₚ s :: regs' /\ Address_eqb (addr_of t s) a = true /\
        pt_inv k kt n t' regs' (if emitting (peers t).[s] then s :: zs else zs) /\
        (forall s', 0 <= s' -> s' <> s -> (peers t').[s'] = (peers t).[s']) /\
        forall views, undisturbed views t' ->
          GetPeer_addr views t' a = inl NotFound /\
          (has_id t s -> GetPeer_id views t' (id_of t s) = inl NotFound) /\
          (forall s' a', s' ∈ regs' -> Address_eqb (addr_of t s') a' = true -> GetPeer_addr views t' a' = inr s') /\
          (forall tag, holders t' tag ≡ₚ filter (fun s' => s' <> s) (holders t tag))
    | NotFound => t' = t /\ forall s, s ∈ regs -> Address_eqb (addr_of t s) a = false
    | _ => False
    end.
Proof using Hk Hkt.
  destruct (RemovePeer_addr_core k kt n Hk Hkt t regs zs a HI) as (e&t'&E&HR).
  exists e, t'. split; [done|]. destruct e; try done. destruct HR as (s&regs'&HP&Ha&HR).
  exists s, regs'. split; [done|]. split; [done|]. split; [apply HR|]. split; [apply HR|].
  intros views Hv. destruct (removed_gone k kt n t s regs' zs t' Hk Hkt (inv_perm k kt n t _ _ zs HP HI) HR views Hv) as (G1&G2&G3&G4).
  split_and!; [by apply G1| |done|done]. intros Hid. apply G2; [done|]. exact (key_refl (id_of t s) I).
Qed.

(** Address migration, on every outcome.  A live peer moves to a free
    address and keeps its slot, its id and its tags: the new address finds it, the
    old one finds nothing, and every other address finds what it found before.
    Moving to its own address changes nothing; a taken address, a slot that is
    not live and a slot out of range are refused, changing nothing. *)
Theorem UpdateAddress_correct t regs zs (slot : Z) (a : Address)
  (HI : pt_inv k kt n t regs zs) (Hok : key_ok a) :
  exists e t', UpdateAddress t slot a = Some (e, t') /\ moved k kt n t regs zs slot a e t' /\
    (e = Ok -> forall views, undisturbed views t' ->
       GetPeer_addr views t' a = inr slot /\
       (Address_eqb a (addr_of t slot) = false -> GetPeer_addr views t' (addr_of t slot) = inl NotFound) /\
       (forall s a', s ∈ regs -> s <> slot -> Address_eqb (addr_of t s) a' = true -> GetPeer_addr views t' a' = inr s) /\
       (forall tag, holders t' tag = holders t tag)).
Proof using Hk Hkt.
  destruct (UpdateAddress_core k kt n Hk t regs zs slot a HI Hok) as (e&t'&E&HM).
  exists e, t'. split; [done|]. split; [done|]. intros -> views Hv. destruct HM as [Hin [[Hsame ->]|(Hnew&HI'&HT&Hp)]].
  { split_and!; [|congruence| |done].
    - apply (found_addr_slot k kt n Hk Hkt t regs zs); [done|done| |done].
      exact (eq_trans (key_sym (addr_of t slot) a) Hsame).
    - intros s a' Hs _ Ha'. by apply (found_addr_slot k kt n Hk Hkt t regs zs). }
  assert (Hr : 0 <= slot < n) by (by apply (inv_regs_range k kt n t regs zs)).
  assert (Hl : 0 <= slot < zlen (peers t)) by (rewrite (sz_peers _ _ _ _ (iv_sized _ _ _ _ _ _ HI)); lia).
  assert (Hself : addr_of t' slot = a) by (unfold addr_of; by rewrite Hp, arr_get_set_eq).
  assert (Hother : forall s, s ∈ regs -> s <> slot -> addr_of t' s = addr_of t s).
  { intros s Hs Hne. assert (0 <= s < n) by (by apply (inv_regs_range k kt n t regs zs)).
    unfold addr_of. by rewrite Hp, arr_get_set_ne by lia. }
  split_and!.
  - apply (found_addr_slot k kt n Hk Hkt t' regs zs); [done|done| |done]. rewrite Hself. exact (key_refl a Hok).
  - intros Hne. destruct (GetPeer_addr_probe k kt n Hk Hkt t' regs zs (addr_of t slot) views HI' Hv) as [(s&_&Hs&Heq)|[? _]]; [|done].
    exfalso. destruct (decide (s = slot)) as [->|Hns]; [congruence|].
    rewrite Hother in Heq by done. apply Hns. by apply (re_inj k _ _ _ (iv_addr _ _ _ _ _ _ HI)).
  - intros s a' Hs Hne Ha'. apply (found_addr_slot k kt n Hk Hkt t' regs zs); [done|done| |done]. by rewrite Hother.
  - intros tag. unfold holders. by rewrite HT.
Qed.

(** Tags are an exact multimap.  Binding one to a live peer while there
    is room adds that one pair, so the next lookup of the tag counts one more
    holder and lists the peer; the lookup reports every holder and hands out the
    first [max] of them; a bind that fails, because the slot is not live, the tag
    is zero or the index is full, changes nothing. *)
Theorem BindTag_lookup t regs zs (slot : Z) (tag : list Z) (HI : pt_inv k kt n t regs zs) :
  exists e t', BindTag t slot tag = Some (e, t') /\ tagged k kt n t regs zs slot tag e t' /\
    forall views max, HashTag tag <> 0 -> 0 < max -> undisturbed views t' ->
      exists l, GetPeersByTag views t' tag max = (zlen l, take (Z.to_nat max) l) /\
        l ≡ₚ (if decide (e = Ok) then slot :: holders t tag else holders t tag).
Proof using Hk Hkt.
  destruct (BindTag_core k kt n Hk Hkt t regs zs slot tag HI) as (e&t'&E&HT).
  exists e, t'. split; [done|]. split; [done|]. intros views max Ht Hm Hv.
  assert (Hcons : forall u, t' = u -> consistent k kt n u).
  { intros u <-. unfold consistent. destruct e; cbn in HT; try done; [destruct HT as (_&_&_&?&_)|..];
      try destruct HT as [-> _]; eauto. }
  destruct (GetPeersByTag_moment k kt n Hk Hkt (eq t') views t' tag max Hv Hcons Ht Hm) as (u&l&<-&HP&EG).
  exists l. split; [done|]. rewrite HP. unfold holders, with_hash. destruct (decide (e = Ok)) as [->|Hne].
  - destruct HT as (_&_&_&_&_&HC). rewrite HC, filter_cons_True by done. done.
  - destruct e; cbn in HT; try done; destruct HT as [-> _]; done.
Qed.
End At.
End Claims.

(** ** A concrete table: two peers at most, over the slot pool of the library *)

Definition empty_table : PeerTable SlotPool :=
  mk_table false [] [] [] 0 0 0 0 0 0 (Pool_Init 1 64) [] 0 0 0.
Definition sample_pool (capacity : Z) : SlotPool := Pool_Init capacity 64.
Definition sample0 : PeerTable SlotPool := (PeerTable_Init sample_pool NextPowerOfTwo empty_table 2).2.
Definition sample_a : Address := mk_addr AF_INET 7000 [10; 0; 0; 1] 0.
Definition sample_b : Address := mk_addr AF_INET 7001 [10; 0; 0; 2] 0.
Definition sample_id : BcpId := mk_id (replicate 32 5).
Definition sample_tag : list Z := [1; 2; 3; 4].
Definition sample1 : PeerTable SlotPool :=
  match RegisterPeer 0 1000 sample0 sample_a (Some sample_id) with Some (_, _, t) => t | None => sample0 end.

Lemma sample_key_a : key_ok sample_a.
Proof. by left. Qed.
Lemma sample_key_b : key_ok sample_b.
Proof. by left. Qed.

Lemma sample_pool_owns : al_owns (sample_pool 2) (NextPowerOfTwo 2) [].
Proof. change (NextPowerOfTwo 2) with (2 ^ 1). apply (reach_owns 2 64 1); [done|lia|constructor]. Qed.

Lemma sample0_inv : pt_inv 2 4 2 sample0 [] [].
Proof.
  apply (Init_core sample_pool NextPowerOfTwo empty_table 2 2 4); try done; try lia.
  exact sample_pool_owns.
Qed.

Lemma sample1_inv : pt_inv 2 4 2 sample1 [0] [].
Proof.
  destruct (RegisterPeer_core 2 4 2 ltac:(lia) 0 1000 sample0 [] [] sample_a (Some sample_id) sample0_inv sample_key_a)
    as (e&slot&t'&E&HR).
  assert (Ho : (fst <$> RegisterPeer 0 1000 sample0 sample_a (Some sample_id)) = Some (Ok, 0)) by (vm_compute; done).
  unfold sample1. rewrite E in *. cbn in Ho. injection Ho as -> ->. destruct HR as (_&_&_&?&_). done.
Qed.

Lemma sample1_addr : addr_of sample1 0 = sample_a.
Proof. vm_compute. done. Qed.

Lemma peer_table_history_witness :
  exists k kt, 0 <= k <= 30 /\ 0 <= kt <= 30 /\ consistent k kt 2 sample0 /\
    exists t', table_step sample0 (OpRegister 0 1000 sample_a (Some sample_id)) = Some t' /\ consistent k kt 2 t'.
Proof.
  apply (peer_table_history sample_pool NextPowerOfTwo empty_table sample0 2 (OpRegister 0 1000 sample_a (Some sample_id)));
    [lia|done|done|exact sample_pool_owns|vm_compute; done|constructor|exact sample_key_a].
Defined.

Lemma RegisterPeer_correct_witness :
  exists e slot t', RegisterPeer 0 2000 sample1 sample_b None = Some (e, slot, t') /\
    registered 2 4 2 2000 sample1 [0] [] sample_b None e slot t' /\
    (e = Ok -> forall views, undisturbed views t' ->
       GetPeer_addr views t' sample_b = inr slot /\ (forall i, None = Some i -> GetPeer_id views t' i = inr slot)).
Proof.
  apply (RegisterPeer_correct 2 4 2 ltac:(lia) ltac:(lia) sample1 [0] [] 0 2000 sample_b None sample1_inv sample_key_b).
Defined.

Lemma RemovePeer_correct_witness :
  exists e t', RemovePeer_addr sample1 sample_a = Some (e, t') /\
    match e with
    | Ok => exists s regs', [0] ≡ₚ s :: regs' /\ Address_eqb (addr_of sample1 s) sample_a = true /\
        pt_inv 2 4 2 t' regs' (if emitting (peers sample1).[s] then [s] else []) /\
        (forall s', 0 <= s' -> s' <> s -> (peers t').[s'] = (peers sample1).[s']) /\
        forall views, undisturbed views t' ->
          GetPeer_addr views t' sample_a = inl NotFound /\
          (has_id sample1 s -> GetPeer_id views t' (id_of sample1 s) = inl NotFound) /\
          (forall s' a', s' ∈ regs' -> Address_eqb (addr_of sample1 s') a' = true -> GetPeer_addr views t' a' = inr s') /\
          (forall tag, holders t' tag ≡ₚ filter (fun s' => s' <> s) (holders sample1 tag))
    | NotFound => t' = sample1 /\ forall s, s ∈ [0] -> Address_eqb (addr_of sample1 s) sample_a = false
    | _ => False
    end.
Proof.
  apply (RemovePeer_correct 2 4 2 ltac:(lia) ltac:(lia) sample1 [0] [] sample_a sample1_inv).
Defined.

Lemma UpdateAddress_correct_witness :
  exists e t', UpdateAddress sample1 0 sample_b = Some (e, t') /\ moved 2 4 2 sample1 [0] [] 0 sample_b e t' /\
    (e = Ok -> forall views, undisturbed views t' ->
       GetPeer_addr views t' sample_b = inr 0 /\
       (Address_eqb sample_b (addr_of sample1 0) = false -> GetPeer_addr views t' (addr_of sample1 0) = inl NotFound) /\
       (forall s a', s ∈ [0] -> s <> 0 -> Address_eqb (addr_of sample1 s) a' = true -> GetPeer_addr views t' a' = inr s) /\
       (forall tag, holders t' tag = holders sample1 tag)).
Proof.
  apply (UpdateAddress_correct 2 4 2 ltac:(lia) ltac:(lia) sample1 [0] [] 0 sample_b sample1_inv sample_key_b).
Defined.

Lemma BindTag_lookup_witness :
  exists e t', BindTag sample1 0 sample_tag = Some (e, t') /\ tagged 2 4 2 sample1 [0] [] 0 sample_tag e t' /\
    forall views max, HashTag sample_tag <> 0 -> 0 < max -> undisturbed views t' ->
      exists l, GetPeersByTag views t' sample_tag max = (zlen l, take (Z.to_nat max) l) /\
        l ≡ₚ (if decide (e = Ok) then 0 :: holders sample1 sample_tag else holders sample1 sample_tag).
Proof.
  apply (BindTag_lookup 2 4 2 ltac:(lia) ltac:(lia) sample1 [0] [] 0 sample_tag sample1_inv).
Defined.

(** The operations evaluate: what a racing reader of [sample1] is told. *)
Example sample1_lookup : GetPeer_addr (fun _ => mk_view 1 sample0 1) sample1 sample_a = inr 0.
Proof. vm_compute. done. Qed.
Example sample1_torn : GetPeer_addr (fun _ => mk_view 2 sample0 4) sample1 sample_a = inr 0.
Proof. vm_compute. done. Qed.
