(* ===== verification/PeerRace.v ===== *)
(** * Lookups that race the writers

    The peer table as a shared memory.  A writer's operation is the stages of its plan,
    one after the other, and while a stage lasts the parts it changes may read as
    anything; a reader's loads fall anywhere in between, each at its own time, and what
    it makes of them is decided by the versions it saw first and last.  Nothing is
    assumed about what a validated attempt saw: that is what is proved, from the
    version's two stores in every plan.  Loads and stores take effect in one order for
    all threads; writers hold the writer lock for the whole of their operation, and the
    slot locks make a record's load one step.

    Proved: whatever the writers do, a lookup by address, id or tag answers what is
    right about the table as it was before or after an operation that runs during the
    call. *)

From S2P Require Import Prelude CommonMath Errors RobinHood Keys SlotPool Congestion Peer PeerTable PeerIndex PeerInvariant PeerSpec.

(** A field that a store leaves alone, read through any slot. *)
Lemma arr_set_field {A B} `{Inhabited A} (f : A -> B) (l : list A) i w s : f w = f l.[i] -> f (l.[i <- w]).[s] = f l.[s].
Proof.
  intros E. unfold arr_get, arr_set in *. destruct (decide (Z.to_nat i = Z.to_nat s)) as [<-|Hne].
  - destruct (decide (Z.to_nat i < length l)%nat); [by rewrite list_lookup_total_insert_eq|]. by rewrite list_insert_ge by lia.
  - by rewrite list_lookup_total_insert_ne.
Qed.

Lemma Zmod_even_pow x : Z.even (x mod 2 ^ 32) = Z.even x.
Proof. change (2 ^ 32) with (2 * 2 ^ 31). rewrite Z.rem_mul_r by lia. rewrite Z.even_add, Z.even_mul. cbn. rewrite Zmod_even. by destruct (Z.even x). Qed.

Section Race.
Context {S : Type} `{!Allocator S}.
Implicit Types (t u m x a b : PeerTable S) (ts : list (PeerTable S)).

Definition op_plan t (op : table_op) : option (list (stage S)) :=
  match op with
  | OpRegister hint now addr id => r ← RegisterPeer_plan hint now t addr id; Some r.2
  | OpBindId slot id => r ← BindId_plan t slot id; Some r.2
  | OpRemoveAddr addr => r ← RemovePeer_addr_plan t addr; Some r.2
  | OpRemoveId id => r ← RemovePeer_id_plan t id; Some r.2
  | OpUpdateAddress slot addr => r ← UpdateAddress_plan t slot addr; Some r.2
  | OpBindTag slot tag => r ← BindTag_plan t slot tag; Some r.2
  | OpUnbindTag slot tag => r ← UnbindTag_plan t slot tag; Some r.2
  | OpUnbindTags slot => r ← UnbindTags_plan t slot; Some r.2
  | OpClearEmitting slot => Some [fun t => ClearEmitting t slot]
  | OpWrite slot w => Some [store_peer slot (fun _ => w)]
  end.

(** The plan is the operation. *)
Lemma run_plan_runs p t : (r ← run_plan p t; Some r.2) = (l ← (r ← p; Some r.2); run_stages l t).
Proof. destruct p as [[e l]|]; [|done]. cbn. by destruct (run_stages l t). Qed.
Lemma op_plan_runs t op : table_step t op = l ← op_plan t op; run_stages l t.
Proof.
  destruct op; cbn [table_step op_plan]; try apply run_plan_runs.
  - unfold RegisterPeer. destruct (RegisterPeer_plan hint now t addr id) as [[[e slot] l]|]; [|done]. cbn. by destruct (run_stages l t).
  - cbn. by destruct (ClearEmitting t slot).
  - done.
Qed.

Lemma last_default {A} (x d : A) l : List.last (x :: l) d = List.last l x.
Proof. revert x d. induction l as [|y l IH]; intros x d; [done|]. change (List.last (x :: y :: l) d) with (List.last (y :: l) d). by rewrite !IH. Qed.
Lemma trace_run l : forall t ts, trace_stages l t = Some ts -> run_stages l t = Some (List.last ts t).
Proof.
  induction l as [|f l IH]; intros t ts; [by intros [= <-]|]. cbn [trace_stages run_stages]. destruct (f t) as [u|]; [cbn|done].
  destruct (trace_stages l u) as [us|] eqn:E; [cbn|done]. intros [= <-]. by rewrite (IH u us E), last_default.
Qed.

(** ** The memory *)

(** What a reader may find while the table goes from [m] to [x]: a word that does not
    change is that word, the version one of its two values, a record one of its two. *)
Record torn m x u : Prop := {
  tn_addr : addrIdx m = addrIdx x -> addrIdx u = addrIdx m;
  tn_id : bcpIdx m = bcpIdx x -> bcpIdx u = bcpIdx m;
  tn_tag : tagIdx m = tagIdx x -> tagIdx u = tagIdx m;
  tn_version : version u = version m \/ version u = version x;
  tn_peers : forall s, (peers u).[s] = (peers m).[s] \/ (peers u).[s] = (peers x).[s] }.

(** The memory, the table before and after the operation under way, and the tables its
    remaining stages lead to. *)
Record World := mk_world { w_mem : PeerTable S; w_before : PeerTable S; w_after : PeerTable S; w_rest : list (PeerTable S) }.

Inductive wstep : World -> World -> Prop :=
| ws_stutter w : wstep w w
| ws_begin m b a op l ts : op_ok m op -> op_plan m op = Some l -> trace_stages l m = Some ts ->
    wstep (mk_world m b a []) (mk_world m m (List.last ts m) ts)
| ws_tear m b a x ts u : torn m x u -> wstep (mk_world m b a (x :: ts)) (mk_world u b a (x :: ts))
| ws_land m b a x ts : wstep (mk_world m b a (x :: ts)) (mk_world x b a ts).

(** What an attempt between two times loads: every word of the indexes and every record
    as it was at some time in between. *)
Record seen (run : nat -> World) (s e : nat) u : Prop := {
  sn_addr : forall p, exists i j, (s <= i <= e)%nat /\ (s <= j <= e)%nat /\
    e_hash (addrIdx u).[p] = e_hash (addrIdx (w_mem (run i))).[p] /\ e_idx (addrIdx u).[p] = e_idx (addrIdx (w_mem (run j))).[p];
  sn_id : forall p, exists i j, (s <= i <= e)%nat /\ (s <= j <= e)%nat /\
    e_hash (bcpIdx u).[p] = e_hash (bcpIdx (w_mem (run i))).[p] /\ e_idx (bcpIdx u).[p] = e_idx (bcpIdx (w_mem (run j))).[p];
  sn_tag : forall p, exists i j, (s <= i <= e)%nat /\ (s <= j <= e)%nat /\
    e_hash (tagIdx u).[p] = e_hash (tagIdx (w_mem (run i))).[p] /\ e_idx (tagIdx u).[p] = e_idx (tagIdx (w_mem (run j))).[p];
  sn_peer : forall q, exists i, (s <= i <= e)%nat /\ (peers u).[q] = (peers (w_mem (run i))).[q] }.

(** ** What the stages keep *)

Definition filed {K} (T : list (entry K)) : list Z := map e_idx (content T).
Definition same_index t u : Prop := addrIdx u = addrIdx t /\ bcpIdx u = bcpIdx t /\ tagIdx u = tagIdx t.
Definition same_ids t u : Prop := forall s, s ∈ filed (bcpIdx t) -> id_of u s = id_of t s /\ hasId (peers u).[s] = hasId (peers t).[s].
(** Nothing a lookup could tell apart. *)
Definition agree t u : Prop :=
  version u = version t /\ same_index t u /\ (forall s, s ∈ filed (addrIdx t) -> addr_of u s = addr_of t s) /\ same_ids t u.

Lemma agree_refl t : agree t t.
Proof. by split_and!. Qed.
Lemma agree_sym t u : agree t u -> agree u t.
Proof.
  intros (Hv&(Ha&Hb&Ht)&Hf&Hi). split; [done|]. split; [done|]. split.
  - intros s. rewrite Ha. intros Hs. by rewrite Hf.
  - intros s. rewrite Hb. intros Hs. by destruct (Hi s Hs) as [-> ->].
Qed.
Lemma agree_trans t u x : agree t u -> agree u x -> agree t x.
Proof.
  intros (Hv&(Ha&Hb&Ht)&Hf&Hi) (Hv'&(Ha'&Hb'&Ht')&Hf'&Hi'). split; [congruence|]. split; [split_and!; congruence|]. split.
  - intros s Hs. rewrite Hf' by (by rewrite Ha). by apply Hf.
  - intros s Hs. destruct (Hi' s) as [-> ->]; [by rewrite Hb|]. by apply Hi.
Qed.

Definition keeps_version (f : stage S) : Prop := forall t u, f t = Some u -> version u = version t.
Definition keeps_table (f : stage S) : Prop := forall t u, f t = Some u -> agree t u.

Lemma set_record_agree t slot w : p_addr w = p_addr (peers t).[slot] -> p_id w = p_id (peers t).[slot] -> hasId w = hasId (peers t).[slot] ->
  agree t (t <| peers := (peers t).[slot <- w] |>).
Proof.
  intros E1 E2 E3. split; [done|]. split; [done|]. split; [|intros s _; split].
  - intros s _. exact (arr_set_field p_addr (peers t) slot w s E1).
  - exact (arr_set_field p_id (peers t) slot w s E2).
  - exact (arr_set_field hasId (peers t) slot w s E3).
Qed.

Lemma DrainAndFree_agree slot : keeps_table (drain_slot slot).
Proof.
  intros t u. unfold drain_slot, DrainAndFree. destruct (emitting _); [intros [= <-]; by apply set_record_agree|].
  destruct (al_release _ _); cbn; [|done]. by intros [= <-].
Qed.
Lemma ClearEmitting_agree slot : keeps_table (fun t => ClearEmitting t slot).
Proof.
  intros t u. unfold ClearEmitting. destruct (_ <=? _); [by intros [= <-]|]. cbv zeta. set (t1 := t <| peers := _ |>).
  assert (H1 : agree t t1) by (by apply set_record_agree). destruct (freeWhenRead _); [|by intros [= <-]].
  destruct (al_release _ _); cbn; [|done]. intros [= <-]. exact H1.
Qed.

Lemma clear_tags_version slot : keeps_version (clear_tags slot).
Proof.
  assert (H1 : forall fuel t pos u, clear_bucket fuel t slot pos = Some u -> version u = version t).
  { induction fuel as [|fuel IH]; intros t pos u; cbn [clear_bucket]; [done|]. destruct (_ && _); [|by intros [= <-]].
    destruct (RemoveTagEntryAt _ _ _); cbn [mbind option_bind]; [|done]. intros E. by apply IH in E. }
  assert (H2 : forall n t pos u, clear_buckets n t slot pos = Some u -> version u = version t).
  { induction n as [|n IH]; intros t pos u; cbn [clear_buckets]; [by intros [= <-]|]. destruct (clear_bucket _ _ _ _) as [t1|] eqn:E; cbn [mbind option_bind]; [|done].
    intros E2. apply IH in E2. apply H1 in E. congruence. }
  intros t u. apply H2.
Qed.
Lemma index_stage_version :
  (forall slot addr, keeps_version (insert_addr slot addr)) /\ (forall slot i, keeps_version (insert_id slot i)) /\
  (forall p, keeps_version (remove_addr p)) /\ (forall p, keeps_version (remove_id p)) /\
  (forall th slot, keeps_version (insert_tag th slot)) /\ (forall p, keeps_version (remove_tag_at p)).
Proof.
  split_and!; intros; intros t u; unfold insert_addr, insert_id, remove_addr, remove_id, insert_tag, remove_tag_at;
    match goal with |- mbind _ ?e = _ -> _ => destruct e end; cbn [mbind option_bind]; try done; by intros [= <-].
Qed.
Lemma count_stage_table d : keeps_table (count_peers d) /\ keeps_table (count_tags d).
Proof. split; intros t u [= <-]; by split_and!. Qed.
Lemma store_pool_table p : keeps_table (store_pool p).
Proof. intros t u [= <-]. by split_and!. Qed.

(** ** The three phases of an operation

    Before the version is odd the index is the old one, and at most the address of one
    record has moved; while it is odd anything may be read; after it the table is the
    new one. *)

Section Phases.
Context (k kt n : Z) (Hk : 0 <= k <= 30) (Hkt : 0 <= kt <= 30).

(** The operation gives the slot another address and changes no other. *)
Definition moving b a (slot : Z) : Prop :=
  exists regs zs zs', pt_inv k kt n b regs zs /\ pt_inv k kt n a regs zs' /\ slot ∈ regs /\
    (forall s, s ∈ regs -> s <> slot -> addr_of a s = addr_of b s).
Definition early b a u : Prop :=
  version u = version b /\ same_index b u /\
  (forall s, s ∈ filed (addrIdx b) -> addr_of u s = addr_of b s \/ moving b a s /\ addr_of u s = addr_of a s) /\ same_ids b u.

Inductive phase := Before | During | After.
Definition in_phase b a (ph : phase) u : Prop :=
  match ph with
  | Before => early b a u
  | During => version u = u32 (version b + 1)
  | After => agree a u
  end.

(** The version's store alone. *)
Definition version_step m x : Prop :=
  version x = u32 (version m + 1) /\ same_index m x /\ forall s, (peers x).[s] = (peers m).[s].

Inductive ladder b a : phase -> PeerTable S -> list (PeerTable S) -> Prop :=
| lad_end : ladder b a After a []
| lad_same ph m x ts : in_phase b a ph m -> ladder b a ph x ts -> ladder b a ph m (x :: ts)
| lad_odd m x ts : early b a m -> version_step m x -> ladder b a During x ts -> ladder b a Before m (x :: ts)
| lad_even m x ts : version m = u32 (version b + 1) -> version_step m x -> ladder b a After x ts -> ladder b a During m (x :: ts).

Lemma ladder_phase b a ph m ts : ladder b a ph m ts -> in_phase b a ph m.
Proof using. intros []; try done; apply agree_refl. Qed.

Lemma phase_version b a ph m x : in_phase b a ph m -> in_phase b a ph x -> version x = version m.
Proof using. destruct ph; cbn; [intros (->&_) (->&_)|intros -> ->|intros (->&_) (->&_)]; done. Qed.

(** What is read on the way from one table of a phase to another is of the phase. *)
Lemma phase_torn b a ph m x u : in_phase b a ph m -> in_phase b a ph x -> torn m x u -> in_phase b a ph u.
Proof using.
  intros Hm Hx [Ta Tb Tt Tv Tp]. assert (Hv : version u = version m) by (pose proof (phase_version _ _ _ _ _ Hm Hx); destruct Tv; congruence).
  destruct ph; cbn in *; [| |].
  - destruct Hm as (Vm&(A1&A2&A3)&F1&I1), Hx as (Vx&(B1&B2&B3)&F2&I2). split; [congruence|]. split; [split_and!; [rewrite Ta|rewrite Tb|rewrite Tt]; congruence|].
    unfold addr_of, same_ids, id_of in *. split; intros s Hs; destruct (Tp s) as [E|E]; rewrite E; auto.
  - congruence.
  - destruct Hm as (Vm&(A1&A2&A3)&F1&I1), Hx as (Vx&(B1&B2&B3)&F2&I2). split; [congruence|]. split; [split_and!; [rewrite Ta|rewrite Tb|rewrite Tt]; congruence|].
    unfold addr_of, same_ids, id_of in *. split; intros s Hs; destruct (Tp s) as [E|E]; rewrite E; auto.
Qed.

(** Only the version is torn when only it changes. *)
Lemma version_torn m x u : version_step m x -> torn m x u ->
  same_index m u /\ (forall s, (peers u).[s] = (peers m).[s]) /\ (version u = version m \/ version u = version x).
Proof using.
  intros (_&(A1&A2&A3)&Hp) [Ta Tb Tt Tv Tp]. split; [split_and!; auto|]. split; [|done]. intros s. destruct (Tp s) as [->| ->]; auto.
Qed.

Lemma same_index_trans t u x : same_index t u -> same_index u x -> same_index t x.
Proof using. intros (A1&A2&A3) (B1&B2&B3). split_and!; congruence. Qed.
Lemma same_index_sym t u : same_index t u -> same_index u t.
Proof using. intros (A1&A2&A3). split_and!; congruence. Qed.

Lemma phase_same_memory b a ph m u : in_phase b a ph m -> same_index m u -> (forall s, (peers u).[s] = (peers m).[s]) -> version u = version m -> in_phase b a ph u.
Proof using.
  intros H Hi Hp Hv. destruct ph; cbn in *; [| |].
  - destruct H as (V&I&F&D). split; [congruence|]. split; [by eapply same_index_trans|]. unfold addr_of, same_ids, id_of in *. split; intros s Hs; rewrite Hp; auto.
  - congruence.
  - destruct H as (V&I&F&D). split; [congruence|]. split; [by eapply same_index_trans|]. unfold addr_of, same_ids, id_of in *. split; intros s Hs; rewrite Hp; auto.
Qed.

Lemma version_step_same m x u : version_step m x -> same_index m u -> (forall s, (peers u).[s] = (peers m).[s]) -> version u = version m -> version_step u x.
Proof using.
  intros (V&I&P) Hi Hp Hv. split; [congruence|]. split; [eapply same_index_trans; [by apply same_index_sym|done]|]. intros s. rewrite P. symmetry. apply Hp.
Qed.

(** One store further, the phase is the same or the next, and the version says which. *)
Definition advanced (ph : phase) m (ph' : phase) u : Prop :=
  ph' = ph /\ version u = version m \/
  (ph = Before /\ ph' = During \/ ph = During /\ ph' = After) /\ version u = u32 (version m + 1).

Lemma ladder_land b a ph m x ts : ladder b a ph m (x :: ts) -> exists ph', ladder b a ph' x ts /\ advanced ph m ph' x.
Proof using.
  intros H. inversion H; subst.
  - exists ph. split; [done|]. left. split; [done|]. eapply phase_version; [done|by eapply ladder_phase].
  - exists During. split; [done|]. right. split; [by left|]. by match goal with V : version_step _ _ |- _ => destruct V end.
  - exists After. split; [done|]. right. split; [by right|]. by match goal with V : version_step _ _ |- _ => destruct V end.
Qed.

Lemma ladder_tear b a ph m x ts u : ladder b a ph m (x :: ts) -> torn m x u -> exists ph', ladder b a ph' u (x :: ts) /\ advanced ph m ph' u.
Proof using.
  intros H Ht. assert (Hx : forall ph', ladder b a ph' x ts -> version_step m x -> same_index m u -> (forall s, (peers u).[s] = (peers m).[s]) -> version u = version x -> ladder b a ph' u (x :: ts)).
  { intros ph' Hl (V&I&P) Hi Hp Hv. apply lad_same; [|done]. eapply phase_same_memory; [by eapply ladder_phase| | |done].
    - eapply same_index_trans; [by apply same_index_sym|done].
    - intros s. by rewrite Hp, P. }
  inversion H; subst.
  - exists ph. match goal with L : ladder b a ph x ts, I : in_phase b a ph m |- _ => pose proof (ladder_phase _ _ _ _ _ L) as Hpx; pose proof (phase_torn _ _ _ _ _ _ I Hpx Ht) as Hpu;
      split; [by apply lad_same|]; left; split; [done|]; by apply (phase_version b a ph) end.
  - match goal with V : version_step m x |- _ => destruct (version_torn _ _ _ V Ht) as (Hi&Hp&[Hv|Hv]) end.
    + exists Before. split; [|by left]. apply lad_odd; [by apply (phase_same_memory b a Before m)|by eapply version_step_same|done].
    + exists During. split; [by apply Hx|]. right. split; [by left|]. match goal with V : version_step m x |- _ => destruct V; congruence end.
  - match goal with V : version_step m x |- _ => destruct (version_torn _ _ _ V Ht) as (Hi&Hp&[Hv|Hv]) end.
    + exists During. split; [|by left]. apply lad_even; [congruence|by eapply version_step_same|done].
    + exists After. split; [by apply Hx|]. right. split; [by right|]. match goal with V : version_step m x |- _ => destruct V; congruence end.
Qed.

(** ** Every plan climbs it *)

Lemma trace_app l1 l2 : forall t ts, trace_stages (l1 ++ l2) t = Some ts ->
  exists ts1 ts2, trace_stages l1 t = Some ts1 /\ trace_stages l2 (List.last ts1 t) = Some ts2 /\ ts = ts1 ++ ts2.
Proof using.
  induction l1 as [|f l1 IH]; intros t ts H; [by exists [], ts|]. cbn [app trace_stages] in *. destruct (f t) as [u|]; [cbn in *|done].
  destruct (trace_stages (l1 ++ l2) u) as [us|] eqn:E; [cbn in *|done]. injection H as <-. destruct (IH u us E) as (ts1&ts2&->&E2&->).
  exists (u :: ts1), ts2. split; [done|]. by rewrite last_default.
Qed.
Lemma last_app_default {A} (l1 l2 : list A) d : List.last (l1 ++ l2) d = List.last l2 (List.last l1 d).
Proof using. revert d. induction l1 as [|x l1 IH]; intros d; [done|]. rewrite <- app_comm_cons, !last_default. apply IH. Qed.

Lemma mid_version l : Forall keeps_version l -> forall m ts, trace_stages l m = Some ts -> Forall (fun x => version x = version m) ts.
Proof using.
  induction 1 as [|f l Hf _ IH]; intros m ts; [by intros [= <-]|]. cbn [trace_stages]. destruct (f m) as [u|] eqn:E; [cbn|done].
  destruct (trace_stages l u) as [us|] eqn:E2; [cbn|done]. intros [= <-]. pose proof (Hf _ _ E) as Ev. constructor; [done|].
  rewrite <- Ev. by apply IH.
Qed.
Lemma post_agree l : Forall keeps_table l -> forall m ts, trace_stages l m = Some ts -> agree (List.last ts m) m /\ Forall (agree (List.last ts m)) ts.
Proof using.
  induction 1 as [|f l Hf _ IH]; intros m ts; [intros [= <-]; split; [apply agree_refl|constructor]|]. cbn [trace_stages]. destruct (f m) as [u|] eqn:E; [cbn|done].
  destruct (trace_stages l u) as [us|] eqn:E2; [cbn|done]. intros [= <-]. rewrite last_default. destruct (IH _ _ E2) as [H1 H2].
  split; [|by constructor]. eapply agree_trans; [done|]. apply agree_sym. by apply Hf.
Qed.

Lemma same_climb b a ph m ts rest : in_phase b a ph m -> Forall (in_phase b a ph) ts -> ladder b a ph (List.last ts m) rest -> ladder b a ph m (ts ++ rest).
Proof using.
  intros Hm Hts. revert m Hm. induction Hts as [|x ts Hx Hts IH]; intros m Hm Hl; [done|]. rewrite last_default in Hl. cbn [app].
  apply lad_same; [done|]. by apply IH.
Qed.
Lemma end_climb b a m ts : agree a m -> Forall (agree a) ts -> List.last ts m = a -> ladder b a After m ts.
Proof using.
  intros Hm Hts E. rewrite <- (app_nil_r ts). apply same_climb; [done|done|]. rewrite E. apply lad_end.
Qed.
Lemma store_version_step v m : v = u32 (version m + 1) -> version_step m (m <| version := v |>).
Proof using. by intros ->. Qed.
Lemma Forall_last {A} (P : A -> Prop) l d : P d -> Forall P l -> P (List.last l d).
Proof using. intros Hd Hl. revert d Hd. induction Hl as [|x l Hx _ IH]; intros d Hd; [done|]. rewrite last_default. by apply IH. Qed.

(** The shape of a plan that changes the index: stores before, the version odd, the
    index, the version even, stores after. *)
Lemma bracket_ladder b pre mid post ts : is_u32 (version b) ->
  trace_stages (pre ++ store_version (u32 (version b + 1)) :: mid ++ store_version (u32 (version b + 2)) :: post) b = Some ts ->
  (forall us, trace_stages pre b = Some us -> Forall (early b (List.last ts b)) us) -> Forall keeps_version mid -> Forall keeps_table post ->
  ladder b (List.last ts b) Before b ts /\ version (List.last ts b) = u32 (version b + 2).
Proof using.
  intros Hu H Hpre Hmid Hpost. set (a := List.last ts b) in *. apply trace_app in H as (ts0&r0&E0&H&Ets). specialize (Hpre _ E0).
  assert (Hb : early b a b) by (split_and!; try done; by left). set (m0 := List.last ts0 b) in *.
  assert (Hm0 : early b a m0) by (by apply (Forall_last (early b a))).
  cbn [trace_stages store_version mbind option_bind] in H. set (m1 := m0 <| version := _ |>) in H.
  destruct (trace_stages (mid ++ _) m1) as [r1|] eqn:E1; [|done]. cbn [mbind option_bind] in H. injection H as <-.
  apply trace_app in E1 as (ts1&r2&E1&H&->). pose proof (mid_version _ Hmid _ _ E1) as Hv1. set (m2 := List.last ts1 m1) in *.
  cbn [trace_stages store_version mbind option_bind] in H. set (m3 := m2 <| version := _ |>) in H.
  destruct (trace_stages post m3) as [ts3|] eqn:E3; [|done]. cbn [mbind option_bind] in H. injection H as <-.
  destruct (post_agree _ Hpost _ _ E3) as [Ha3 Ha4].
  assert (Ea : a = List.last ts3 m3). { unfold a. rewrite Ets, last_app_default, last_default, last_app_default, last_default. done. }
  assert (V1 : version m1 = u32 (version b + 1)) by done. rewrite V1 in Hv1.
  assert (V2 : version m2 = u32 (version b + 1)) by (by apply (Forall_last (fun x => version x = u32 (version b + 1)))).
  rewrite Ets. split.
  - apply (same_climb b a Before b ts0); [done|done|]. apply (lad_odd b a m0 m1); [done|apply store_version_step; by rewrite (proj1 Hm0)|].
    apply (same_climb b a During m1 ts1); [done|done|]. apply (lad_even b a m2 m3); [done| |].
    + apply store_version_step. rewrite V2. unfold u32. rewrite Zplus_mod_idemp_l. f_equal. lia.
    + apply end_climb; rewrite Ea; done.
  - rewrite Ea. by rewrite <- (proj1 Ha3).
Qed.

Lemma quiet_ladder b l ts : Forall keeps_table l -> trace_stages l b = Some ts -> ladder b (List.last ts b) After b ts.
Proof using. intros Hl H. destruct (post_agree _ Hl _ _ H). by apply end_climb. Qed.

Lemma filed_perm {K} `{Inhabited K} `{!TableKey K} (T : list (entry K)) f l : represents k T f l -> filed T ≡ₚ l.
Proof using. intros HR. unfold filed. rewrite (re_content k _ _ _ HR), map_map. cbn. by rewrite map_id. Qed.
Lemma filed_regs b regs zs s : pt_inv k kt n b regs zs -> s ∈ filed (addrIdx b) <-> s ∈ regs.
Proof using. intros HI. by rewrite (filed_perm _ _ _ (iv_addr _ _ _ _ _ _ HI)). Qed.
Lemma filed_ids b regs zs s : pt_inv k kt n b regs zs -> s ∈ filed (bcpIdx b) <-> s ∈ with_id b regs.
Proof using. intros HI. by rewrite (filed_perm _ _ _ (iv_id _ _ _ _ _ _ HI)). Qed.

(** The climbs of one operation: through all three phases, or none at all. *)
Definition climbs b ts : Prop :=
  (ladder b (List.last ts b) Before b ts /\ version (List.last ts b) = u32 (version b + 2)) \/ ladder b (List.last ts b) After b ts.

Lemma nothing_climbs b ts : trace_stages [] b = Some ts -> climbs b ts.
Proof using. intros H. right. by apply (quiet_ladder b []). Qed.

Lemma keeps_all :
  (forall slot addr, keeps_version (insert_addr (S := S) slot addr)) /\ (forall slot i, keeps_version (insert_id (S := S) slot i)) /\
  (forall p, keeps_version (remove_addr (S := S) p)) /\ (forall p, keeps_version (remove_id (S := S) p)) /\
  (forall th slot, keeps_version (insert_tag (S := S) th slot)) /\ (forall p, keeps_version (remove_tag_at (S := S) p)) /\
  (forall slot, keeps_version (clear_tags (S := S) slot)) /\ (forall d, keeps_table (count_peers (S := S) d)) /\ (forall d, keeps_table (count_tags (S := S) d)) /\
  (forall slot, keeps_table (drain_slot slot)).
Proof using.
  destruct index_stage_version as (?&?&?&?&?&?). split_and!; try done; try apply clear_tags_version; try apply DrainAndFree_agree; intros d; apply count_stage_table.
Qed.
Ltac keeps := destruct keeps_all as (?&?&?&?&?&?&?&?&?&?); repeat (apply Forall_cons_2 || apply Forall_nil_2); auto.

Lemma register_climbs b regs zs hint now addr id l ts : pt_inv k kt n b regs zs -> is_u32 (version b) ->
  op_plan b (OpRegister hint now addr id) = Some l -> trace_stages l b = Some ts -> climbs b ts.
Proof using Hk.
  intros HI Hu Hp H. cbn [op_plan] in Hp. unfold RegisterPeer_plan in Hp.
  repeat (destruct (negb _) in Hp; [injection Hp as <-; by apply nothing_climbs|]). destruct (peerCapacity b <=? peerCount b); [injection Hp as <-; by apply nothing_climbs|].
  destruct (find_addr b addr) as [[?|]|]; [injection Hp as <-; by apply nothing_climbs| |done]. cbn [mbind option_bind] in Hp.
  destruct (match id with None => _ | Some _ => _ end) as [[?|]|]; [injection Hp as <-; by apply nothing_climbs| |done]. cbn [mbind option_bind] in Hp.
  destruct (al_acquire_ok _ _ _ hint (iv_owns _ _ _ _ _ _ HI)) as [(_&slot&pool&E&Hn&Hr&_)|(_&pool&E&_)]; rewrite E in Hp; cbn [mbind option_bind] in Hp.
  2: { rewrite Z.eqb_refl in Hp. injection Hp as <-. right. apply (quiet_ladder b [store_pool pool]); [apply Forall_singleton, store_pool_table|done]. }
  destruct (slot =? INVALID) in Hp; injection Hp as <-.
  { right. apply (quiet_ladder b [store_pool pool]); [apply Forall_singleton, store_pool_table|done]. }
  left. refine (bracket_ladder b [store_pool pool; store_peer slot _] [insert_addr slot addr; insert_id slot id] [count_peers 1] ts Hu H _ _ _); [|keeps|keeps].
  rewrite not_elem_of_app in Hn. destruct Hn as [Hn _].
  assert (Hrec : forall w s, s ∈ regs -> (peers b).[slot <- w].[s] = (peers b).[s]).
  { intros w s Hs. pose proof (inv_regs_range _ _ _ _ _ _ _ HI Hs). apply arr_get_set_ne; [lia|lia|by intros ->]. }
  intros us [= <-]. constructor; [|constructor; [|constructor]].
  - split_and!; try done. by left.
  - split; [done|]. split; [done|]. split; [intros s Hs; left|intros s Hs].
    + unfold addr_of. cbn [peers upd store_peer]. rewrite Hrec; [done|]. by rewrite <- (filed_regs b regs zs s HI).
    + rewrite (filed_ids b regs zs s HI) in Hs. apply elem_of_with_id in Hs as [_ Hs]. unfold id_of. cbn [peers upd]. by rewrite Hrec.
Qed.

Lemma bind_climbs b regs zs slot i l ts : pt_inv k kt n b regs zs -> is_u32 (version b) ->
  op_plan b (OpBindId slot i) = Some l -> trace_stages l b = Some ts -> climbs b ts.
Proof using Hk.
  intros HI Hu Hp H. cbn [op_plan] in Hp. unfold BindId_plan in Hp.
  destruct (negb _) in Hp; [injection Hp as <-; by apply nothing_climbs|]. destruct (_ <=? slot) in Hp; [injection Hp as <-; by apply nothing_climbs|].
  destruct (slot_live_spec k kt n Hk b regs zs slot HI) as (r&E&Hr). rewrite E in Hp. cbn [mbind option_bind] in Hp.
  destruct r as [p|]; [|injection Hp as <-; by apply nothing_climbs]. destruct (hasId (peers b).[slot]) eqn:Eh; [injection Hp as <-; by apply nothing_climbs|].
  destruct (find_id b i) as [[?|]|]; [injection Hp as <-; by apply nothing_climbs| |done]. cbn [mbind option_bind snd] in Hp. injection Hp as <-.
  left. refine (bracket_ladder b [store_peer slot _] [insert_id slot (Some i)] [] ts Hu H _ _ _); [|keeps|keeps].
  set (w := (peers b).[slot] <| p_id := i |> <| hasId := true |>).
  intros us [= <-]. constructor; [|constructor]. destruct Hr as [Hin _]. split; [done|]. split; [done|]. split; [intros s Hs; left|intros s Hs].
  - exact (arr_set_field p_addr (peers b) slot w s eq_refl).
  - rewrite (filed_ids b regs zs s HI) in Hs. apply elem_of_with_id in Hs as [Hid Hs]. unfold has_id in Hid.
    assert (slot <> s) by (intros ->; congruence). pose proof (inv_regs_range _ _ _ _ _ _ _ HI Hs). pose proof (inv_regs_range _ _ _ _ _ _ _ HI Hin).
    assert (Ep : (peers b).[slot <- w].[s] = (peers b).[s]) by (apply arr_get_set_ne; lia).
    split; [exact (f_equal p_id Ep)|exact (f_equal hasId Ep)].
Qed.

Lemma remove_climbs b slot ap bp ts : is_u32 (version b) -> trace_stages (remove_stages (version b) slot ap bp) b = Some ts -> climbs b ts.
Proof using.
  intros Hu H. left. refine (bracket_ladder b [] [remove_addr ap; remove_id bp; clear_tags slot] [count_peers (-1); drain_slot slot] ts Hu H _ _ _); [|keeps|keeps].
  intros us [= <-]. constructor.
Qed.

Lemma move_climbs b regs zs slot addr l ts : pt_inv k kt n b regs zs -> is_u32 (version b) -> key_ok addr ->
  op_plan b (OpUpdateAddress slot addr) = Some l -> trace_stages l b = Some ts -> climbs b ts.
Proof using Hk.
  intros HI Hu Hok Hp H. destruct (UpdateAddress_core k kt n Hk b regs zs slot addr HI Hok) as (e&a&E&HM).
  assert (Ea : a = List.last ts b).
  { pose proof (op_plan_runs b (OpUpdateAddress slot addr)) as ER. rewrite Hp in ER. cbn [table_step mbind option_bind] in ER.
    rewrite (trace_run _ _ _ H), E in ER. cbn in ER. by injection ER. }
  cbn [op_plan] in Hp. unfold UpdateAddress, run_plan in E. unfold UpdateAddress_plan in Hp, E.
  destruct (negb _) in Hp, E; [injection Hp as <-; by apply nothing_climbs|]. destruct (_ || _) in Hp, E; [injection Hp as <-; by apply nothing_climbs|].
  destruct (slot_live b slot) as [[p|]|]; [|injection Hp as <-; by apply nothing_climbs|done]. cbn [mbind option_bind] in Hp, E.
  destruct (Address_eqb addr _) eqn:Esame; [injection Hp as <-; by apply nothing_climbs|].
  destruct (find_addr b addr) as [[?|]|]; [injection Hp as <-; by apply nothing_climbs| |done]. cbn [mbind option_bind snd] in Hp, E. injection Hp as <-.
  destruct (run_stages _ b) as [a'|] in E; [|done]. cbn [mbind option_bind] in E. injection E as <- ->. destruct HM as [Hin [[Hs _]|(_&HI'&_&Epe)]]; [unfold addr_of in Hs; congruence|].
  left. refine (bracket_ladder b [store_peer slot _] [remove_addr (Some p); insert_addr slot addr] [] ts Hu H _ _ _); [|keeps|keeps]. rewrite <- Ea.
  set (w := (peers b).[slot] <| p_addr := addr |>) in *. pose proof (inv_regs_range _ _ _ _ _ _ _ HI Hin) as Hr.
  intros us [= <-]. constructor; [|constructor]. split; [done|]. split; [done|]. split.
  - intros s Hs. rewrite (filed_regs b regs zs s HI) in Hs. destruct (decide (s = slot)) as [->|Hne].
    + right. split; [|unfold addr_of; by rewrite Epe]. exists regs, zs, zs. split_and!; [done|done|done|]. intros s Hs' Hne.
      pose proof (inv_regs_range _ _ _ _ _ _ _ HI Hs'). unfold addr_of. by rewrite Epe, arr_get_set_ne by lia.
    + left. pose proof (inv_regs_range _ _ _ _ _ _ _ HI Hs). apply (f_equal p_addr). apply arr_get_set_ne; lia.
  - intros s _. split; [exact (arr_set_field p_id (peers b) slot w s eq_refl)|exact (arr_set_field hasId (peers b) slot w s eq_refl)].
Qed.

Lemma tag_climbs b op l ts : is_u32 (version b) ->
  match op with OpBindTag _ _ | OpUnbindTag _ _ | OpUnbindTags _ => True | _ => False end ->
  op_plan b op = Some l -> trace_stages l b = Some ts -> climbs b ts.
Proof using.
  intros Hu Hop Hp H. destruct op; try done; cbn [op_plan] in Hp.
  - unfold BindTag_plan in Hp. destruct (negb _) in Hp; [injection Hp as <-; by apply nothing_climbs|]. destruct (_ <=? slot) in Hp; [injection Hp as <-; by apply nothing_climbs|].
    cbv zeta in Hp. destruct (_ =? 0) in Hp; [injection Hp as <-; by apply nothing_climbs|]. destruct (_ <=? _) in Hp; [injection Hp as <-; by apply nothing_climbs|].
    destruct (slot_live b slot) as [[p|]|]; [|injection Hp as <-; by apply nothing_climbs|done]. injection Hp as <-.
    left. refine (bracket_ladder b [] [insert_tag _ slot] [count_tags 1] ts Hu H _ _ _); [|keeps|keeps]. intros us [= <-]. constructor.
  - unfold UnbindTag_plan in Hp. destruct (negb _) in Hp; [injection Hp as <-; by apply nothing_climbs|].
    cbv zeta in Hp. destruct (_ =? 0) in Hp; [injection Hp as <-; by apply nothing_climbs|].
    destruct (FindTagPos _ _ _ _) as [[p|]|]; [|injection Hp as <-; by apply nothing_climbs|done]. injection Hp as <-.
    left. refine (bracket_ladder b [] [remove_tag_at p] [count_tags (-1)] ts Hu H _ _ _); [|keeps|keeps]. intros us [= <-]. constructor.
  - unfold UnbindTags_plan in Hp. destruct (negb _) in Hp; [injection Hp as <-; by apply nothing_climbs|]. injection Hp as <-.
    left. refine (bracket_ladder b [] [clear_tags slot] [] ts Hu H _ _ _); [|keeps|keeps]. intros us [= <-]. constructor.
Qed.

(** Every operation of a consistent table climbs. *)
Lemma op_climbs b op l ts : consistent k kt n b -> is_u32 (version b) -> op_ok b op ->
  op_plan b op = Some l -> trace_stages l b = Some ts -> climbs b ts.
Proof using Hk Hkt.
  intros (regs&zs&HI) Hu Hok Hp H. destruct op.
  - by apply (register_climbs b regs zs hint now addr id l).
  - by apply (bind_climbs b regs zs slot id l).
  - cbn [op_plan] in Hp. unfold RemovePeer_addr_plan in Hp. destruct (negb _) in Hp; [injection Hp as <-; by apply nothing_climbs|].
    destruct (find_addr b addr) as [[p|]|]; [|injection Hp as <-; by apply nothing_climbs|done]. cbn [mbind option_bind] in Hp.
    destruct (if hasId _ then _ else _) as [q|] in Hp; [|done]. injection Hp as <-. by eapply remove_climbs.
  - cbn [op_plan] in Hp. unfold RemovePeer_id_plan in Hp. destruct (negb _) in Hp; [injection Hp as <-; by apply nothing_climbs|].
    destruct (find_id b id) as [[p|]|]; [|injection Hp as <-; by apply nothing_climbs|done]. cbn [mbind option_bind] in Hp.
    destruct (find_addr _ _) as [q|] in Hp; [|done]. injection Hp as <-. by eapply remove_climbs.
  - by apply (move_climbs b regs zs slot addr l).
  - by apply (tag_climbs b (OpBindTag slot tag) l).
  - by apply (tag_climbs b (OpUnbindTag slot tag) l).
  - by apply (tag_climbs b (OpUnbindTags slot) l).
  - injection Hp as <-. right. eapply quiet_ladder; [apply Forall_singleton, ClearEmitting_agree|done].
  - injection Hp as <-. destruct Hok as (_&E1&E2&E3&_). cbn in H. injection H as <-. right. apply end_climb; cbn [List.last]; [|constructor; [apply agree_refl|constructor]|done].
    apply agree_sym. by apply set_record_agree.
Qed.


(** ** Whatever the writers do *)

Record world_inv (w : World) : Prop := {
  wi_before : consistent k kt n (w_before w); wi_after : consistent k kt n (w_after w);
  wi_even : Z.even (version (w_before w)) = true /\ Z.even (version (w_after w)) = true;
  wi_u32 : is_u32 (version (w_before w)) /\ is_u32 (version (w_after w));
  wi_ladder : exists ph, ladder (w_before w) (w_after w) ph (w_mem w) (w_rest w) }.

(** The table [B] is the one the version in force stands for. *)
Definition stands_for B (w : World) : Prop :=
  world_inv w /\ exists ph, ladder (w_before w) (w_after w) ph (w_mem w) (w_rest w) /\
    match ph with Before => agree B (w_before w) | During => False | After => agree B (w_after w) end.

Lemma even_plus v d : Z.even d = true -> Z.even (u32 (v + d)) = Z.even v.
Proof using.
  intros Hd. unfold u32. rewrite Zmod_even_pow. rewrite Z.even_add, Hd. by destruct (Z.even v).
Qed.

Lemma mem_version w : world_inv w -> is_u32 (version (w_mem w)).
Proof using.
  intros [_ _ _ [H1 H2] (ph&HL)]. apply ladder_phase in HL. destruct ph; cbn in HL; [by rewrite (proj1 HL)|rewrite HL; apply u32_range|by rewrite (proj1 HL)].
Qed.
Lemma next_differs v : is_u32 v -> u32 (v + 1) <> v.
Proof using. intros H. unfold u32. zdm. Qed.

Lemma advanced_inv m b a rest ph ph' u rest' : world_inv (mk_world m b a rest) -> ladder b a ph' u rest' -> advanced ph m ph' u ->
  world_inv (mk_world u b a rest') /\ (version u = version m \/ version u = u32 (version m + 1)) /\
  (forall B, match ph with Before => agree B b | During => False | After => agree B a end -> version u = version m -> stands_for B (mk_world u b a rest')).
Proof using.
  intros Hw HL Ha. pose proof (mem_version _ Hw) as Hv. cbn in Hv. destruct Hw as [H1 H2 H3 H4 _]. cbn in *.
  assert (Hw' : world_inv (mk_world u b a rest')) by (split; cbn; eauto). split; [done|]. destruct Ha as [[-> Ev]|[Hn Ev]].
  - split; [by left|]. intros B HB _. split; [done|]. by exists ph.
  - split; [by right|]. intros B _ E. exfalso. apply (next_differs _ Hv). congruence.
Qed.

(** One step keeps the invariant; while the version stays, so does what it stands for. *)
Lemma race_step_inv w w' : world_inv w -> wstep w w' ->
  world_inv w' /\ (version (w_mem w') = version (w_mem w) \/ version (w_mem w') = u32 (version (w_mem w) + 1)) /\
  (forall B, stands_for B w -> version (w_mem w') = version (w_mem w) -> stands_for B w').
Proof using Hk Hkt.
  intros Hw Hs. destruct Hs as [w|m b a op l ts Hop Hp Ht|m b a x ts u Htorn|m b a x ts].
  - split; [done|]. split; [by left|]. done.
  - pose proof Hw as [_ H2 [_ H3] [_ H4] (ph&HL)]. cbn in *. assert (m = a) as -> by (by inversion HL).
    pose proof (op_plan_runs a op) as ER. rewrite Hp in ER. cbn [mbind option_bind] in ER. rewrite (trace_run _ _ _ Ht) in ER.
    destruct (table_step_consistent k kt n Hk Hkt a op H2 Hop) as (t'&E'&Hc). rewrite E' in ER. injection ER as ->.
    set (a' := List.last ts a) in *. pose proof (op_climbs a op l ts H2 H4 Hop Hp Ht) as Hcl. unfold climbs in Hcl. fold a' in Hcl.
    assert (HV : Z.even (version a') = true /\ is_u32 (version a')).
    { destruct Hcl as [[_ ->]|HL'%ladder_phase]; [rewrite even_plus by done; split; [done|apply u32_range]|]. cbn in HL'. by rewrite <- (proj1 HL'). }
    assert (Hw' : world_inv (mk_world a a a' ts)).
    { destruct HV. split; cbn; [done..|]. destruct Hcl as [[? _]|?]; eauto. }
    split; [exact Hw'|]. split; [by left|]. intros B (_&ph'&HL'&HB) _. cbn in HL', HB. assert (ph' = After) as -> by (by inversion HL'). split; [exact Hw'|].
    destruct Hcl as [[Hcl _]|Hcl]; [by exists Before|]. exists After. split; [done|]. cbn. eapply agree_trans; [done|]. apply agree_sym. by apply ladder_phase in Hcl.
  - destruct Hw as [H1 H2 H3 H4 (ph&HL)] eqn:EW. clear EW. cbn in HL. destruct (ladder_tear _ _ _ _ _ _ _ HL Htorn) as (ph1&HL1&Ha1).
    destruct (advanced_inv m b a (x :: ts) ph ph1 u (x :: ts) Hw HL1 Ha1) as (Hw'&Hv&_). split; [done|]. split; [done|].
    intros B (_&ph2&HL2&HB) E. destruct (ladder_tear _ _ _ _ _ _ _ HL2 Htorn) as (ph3&HL3&Ha3).
    by apply (advanced_inv m b a (x :: ts) ph2 ph3 u (x :: ts)).
  - destruct Hw as [H1 H2 H3 H4 (ph&HL)] eqn:EW. clear EW. cbn in HL. destruct (ladder_land _ _ _ _ _ _ HL) as (ph1&HL1&Ha1).
    destruct (advanced_inv m b a (x :: ts) ph ph1 x ts Hw HL1 Ha1) as (Hw'&Hv&_). split; [done|]. split; [done|].
    intros B (_&ph2&HL2&HB) E. destruct (ladder_land _ _ _ _ _ _ HL2) as (ph3&HL3&Ha3).
    by apply (advanced_inv m b a (x :: ts) ph2 ph3 x ts).
Qed.

Section Run.
Context (run : nat -> World) (Hrun : forall i, wstep (run i) (run (Datatypes.S i))) (H0 : world_inv (run 0%nat)).

Lemma run_inv i : world_inv (run i).
Proof using Hk Hkt Hrun H0. induction i as [|i IH]; [done|]. by destruct (race_step_inv _ _ IH (Hrun i)). Qed.

(** How far the version moves in some steps, and that nothing moves while it does not. *)
Lemma run_epoch s d : exists c, 0 <= c <= Z.of_nat d /\
  version (w_mem (run (s + d))) = u32 (version (w_mem (run s)) + c) /\
  (forall B, stands_for B (run s) -> c = 0 -> forall i, (i <= d)%nat -> stands_for B (run (s + i))).
Proof using Hk Hkt Hrun H0.
  induction d as [|d (c&Hc&Ev&HB)].
  - exists 0. split; [lia|]. rewrite Nat.add_0_r, Z.add_0_r, u32_small by apply (mem_version _ (run_inv s)). split; [done|].
    intros B Hs _ i Hi. replace i with 0%nat by lia. by rewrite Nat.add_0_r.
  - rewrite Nat.add_succ_r. destruct (race_step_inv _ _ (run_inv (s + d)) (Hrun (s + d))) as (_&[Es|En]&Hst).
    + exists c. split; [lia|]. split; [congruence|]. intros B Hs E i Hi. destruct (decide (i = Datatypes.S d)) as [->|].
      * rewrite Nat.add_succ_r. apply Hst; [|done]. by apply HB.
      * apply HB; [done|done|lia].
    + exists (c + 1). split; [lia|]. split; [|lia]. rewrite En, Ev. unfold u32. rewrite Zplus_mod_idemp_l. f_equal. lia.
Qed.

(** Between two loads of the same even version, one table. *)
Lemma validated s e : (s <= e)%nat -> Z.of_nat (e - s) < 2 ^ 32 -> Z.odd (version (w_mem (run s))) = false -> version (w_mem (run e)) = version (w_mem (run s)) ->
  exists B, (B = w_before (run s) \/ B = w_after (run s)) /\ forall i, (s <= i <= e)%nat -> stands_for B (run i).
Proof using Hk Hkt Hrun H0.
  intros Hse Hd Hodd Ev. pose proof (run_inv s) as Hw. destruct (run_epoch s (e - s)) as (c&Hc&Ec&HB). replace (s + (e - s))%nat with e in Ec by lia.
  pose proof (mem_version _ Hw) as Hu. assert (c = 0) as ->. { rewrite Ev in Ec. unfold u32 in Ec. clear -Ec Hu Hc Hd. zdm. }
  assert (HS : exists B, (B = w_before (run s) \/ B = w_after (run s)) /\ stands_for B (run s)).
  { destruct (wi_ladder _ Hw) as (ph&HL). destruct ph.
    - exists (w_before (run s)). split; [by left|]. split; [done|]. exists Before. split; [done|apply agree_refl].
    - apply ladder_phase in HL. cbn in HL. exfalso. rewrite HL in Hodd. rewrite <- Z.negb_even in Hodd. destruct (wi_even _ Hw) as [He _].
      assert (E : Z.even (u32 (version (w_before (run s)) + 1)) = false); [|by rewrite E in Hodd]. unfold u32. rewrite Zmod_even_pow, Z.even_add, He. done.
    - exists (w_after (run s)). split; [by right|]. split; [done|]. exists After. split; [done|apply agree_refl]. }
  destruct HS as (B&HBs&Hst). exists B. split; [done|]. intros i Hi. replace i with (s + (i - s))%nat by lia. apply (HB B Hst eq_refl). lia.
Qed.
End Run.

(** ** What an attempt makes of its loads *)

Lemma Lookup_loop_ext {K} `{Inhabited K} (T T' : list (entry K)) mask hash verify :
  (forall p, e_hash T.[p] = e_hash T'.[p] /\ e_idx T.[p] = e_idx T'.[p]) ->
  forall f pos dist, Lookup_loop f T mask hash verify pos dist = Lookup_loop f T' mask hash verify pos dist.
Proof using. intros E. induction f as [|f IH]; intros pos dist; [done|]. cbn [Lookup_loop]. destruct (E pos) as [-> ->]. by rewrite IH. Qed.
Lemma tag_holders_ext (T T' : list (entry unit)) mask th :
  (forall p, e_hash T.[p] = e_hash T'.[p] /\ e_idx T.[p] = e_idx T'.[p]) ->
  forall f pos dist, tag_holders f T mask th pos dist = tag_holders f T' mask th pos dist.
Proof using. intros E. induction f as [|f IH]; intros pos dist; [done|]. cbn [tag_holders]. destruct (E pos) as [-> ->]. by rewrite IH. Qed.

(** A record as it may be read while [B] stands. *)
Lemma stands_reads B w : stands_for B w ->
  same_index B (w_mem w) /\ same_ids B (w_mem w) /\
  (forall s, s ∈ filed (addrIdx B) -> addr_of (w_mem w) s = addr_of B s \/
     moving (w_before w) (w_after w) s /\ agree B (w_before w) /\ addr_of (w_mem w) s = addr_of (w_after w) s).
Proof using.
  intros (_&ph&HL&HB). apply ladder_phase in HL. destruct ph; [|done|].
  - destruct HL as (_&I&F&D), HB as (Bv&BI&BF&BD). split; [by eapply same_index_trans|]. split.
    + intros s Hs. destruct (D s) as [-> ->]; [by rewrite (proj1 (proj2 BI))|]. by apply BD.
    + intros s Hs. destruct (F s) as [->|[Hm ->]]; [by rewrite (proj1 BI)|left; by apply BF|]. right. split; [done|]. by split_and!.
  - pose proof (agree_trans _ _ _ HB HL) as (_&I&F&D). split; [done|]. split; [done|]. intros s Hs. left. by apply F.
Qed.

Section Attempt.
Context (run : nat -> World) (s e : nat) (B u : PeerTable S) (regs zs : list Z) (HI : pt_inv k kt n B regs zs).
Context (Hst : forall i, (s <= i <= e)%nat -> stands_for B (run i)) (Hseen : seen run s e u).

Lemma seen_entries :
  (forall p, e_hash (addrIdx u).[p] = e_hash (addrIdx B).[p] /\ e_idx (addrIdx u).[p] = e_idx (addrIdx B).[p]) /\
  (forall p, e_hash (bcpIdx u).[p] = e_hash (bcpIdx B).[p] /\ e_idx (bcpIdx u).[p] = e_idx (bcpIdx B).[p]) /\
  (forall p, e_hash (tagIdx u).[p] = e_hash (tagIdx B).[p] /\ e_idx (tagIdx u).[p] = e_idx (tagIdx B).[p]).
Proof using Hst Hseen.
  destruct Hseen as [Sa Si St _].
  assert (HB : forall i, (s <= i <= e)%nat -> same_index B (w_mem (run i))) by (intros i Hi; by apply stands_reads, Hst).
  split_and!; intros p; [destruct (Sa p) as (i&j&Hi&Hj&->&->)|destruct (Si p) as (i&j&Hi&Hj&->&->)|destruct (St p) as (i&j&Hi&Hj&->&->)];
    destruct (HB i Hi) as (A1&A2&A3), (HB j Hj) as (A4&A5&A6); by rewrite ?A1, ?A2, ?A3, ?A4, ?A5, ?A6.
Qed.

(** The table whose answer it is: the one that stands, or the one a move under way
    leads to. *)
Definition answered (u' : PeerTable S) : Prop := u' = B \/ exists i, (s <= i <= e)%nat /\ u' = w_after (run i).

Lemma addr_attempt (a : Address) : exists u', answered u' /\
  right_addr k kt n u' a (match Lookup_probe (addrIdx u) (NB k - 1) (NB k) (HashAddr a) (fun q => Address_eqb (p_addr (peers u).[q]) a) with
                          | Some slot => inr slot | None => inl NotFound end).
Proof using Hk Hst Hseen HI.
  unfold Lookup_probe. rewrite (Lookup_loop_ext _ _ _ _ _ (proj1 seen_entries)). fold (Lookup_probe (addrIdx B) (NB k - 1) (NB k) (HashAddr a) (fun q => Address_eqb (p_addr (peers u).[q]) a)).
  pose proof (iv_addr _ _ _ _ _ _ HI) as HR. pose proof (represents_probe k Hk _ _ _ a (fun q => Address_eqb (p_addr (peers u).[q]) a) HR) as HP.
  change (key_hash a) with (HashAddr a) in HP.
  assert (Hrec : forall q, q ∈ regs -> addr_of u q = addr_of B q \/ exists i, (s <= i <= e)%nat /\ moving (w_before (run i)) (w_after (run i)) q /\ agree B (w_before (run i)) /\ addr_of u q = addr_of (w_after (run i)) q).
  { intros q Hq. destruct (sn_peer _ _ _ _ Hseen q) as (i&Hi&E). destruct (stands_reads B (run i) (Hst i Hi)) as (_&_&F).
    unfold addr_of in *. rewrite E. destruct (F q) as [?|(?&?&?)]; [by rewrite (filed_regs B regs zs q HI)|by left|right; eauto]. }
  destruct (Lookup_probe _ _ _ _ _) as [slot|].
  - destruct HP as (Hin&_&Hv). destruct (Hrec slot Hin) as [E|(i&Hi&(regs'&zs1&zs2&I1&I2&Hs&_)&_&E)]; unfold addr_of in E; rewrite E in Hv.
    + exists B. split; [by left|]. by exists regs, zs.
    + exists (w_after (run i)). split; [right; eauto|]. by exists regs', zs2.
  - destruct (decide (Exists (fun q => Address_eqb (addr_of B q) a = true) regs)) as [Hex|Hno].
    2: { exists B. split; [by left|]. exists regs, zs. split; [done|]. split; [done|]. intros q Hq. apply not_true_iff_false. intros E. apply Hno. apply Exists_exists. eauto. }
    apply Exists_exists in Hex as (q&Hq&Eq). pose proof (HP q Hq (key_hash_eq (addr_of B q) a Eq)) as Hv.
    destruct (Hrec q Hq) as [E|(i&Hi&(regs'&zs1&zs2&I1&I2&Hs&Hoth)&(_&(Ai&_&_)&Af&_)&E)]; unfold addr_of at 1 in E; rewrite E in Hv; [congruence|].
    exists (w_after (run i)). split; [right; eauto|]. exists regs', zs2. split; [done|]. split; [done|]. intros q' Hq'.
    destruct (decide (q' = q)) as [->|Hne]; [done|]. rewrite (Hoth q' Hq' Hne). apply not_true_iff_false. intros E'. apply Hne.
    assert (Hq2 : q' ∈ regs). { rewrite <- (filed_regs B regs zs q' HI), <- Ai. by rewrite (filed_regs _ _ _ _ I1). }
    rewrite (Af q') in E' by (by rewrite (filed_regs B regs zs q' HI)).
    apply (re_inj k _ _ _ HR); [done|done|]. exact (key_trans (addr_of B q') a (addr_of B q) E' (eq_trans (key_sym a (addr_of B q)) Eq)).
Qed.

Lemma id_attempt (i : BcpId) :
  right_id k kt n B i (match Lookup_probe (bcpIdx u) (NB k - 1) (NB k) (HashId i) (fun q => hasId (peers u).[q] && BcpId_eqb (p_id (peers u).[q]) i) with
                       | Some slot => inr slot | None => inl NotFound end).
Proof using Hk Hst Hseen HI.
  unfold Lookup_probe. rewrite (Lookup_loop_ext _ _ _ _ _ (proj1 (proj2 seen_entries))). fold (Lookup_probe (bcpIdx B) (NB k - 1) (NB k) (HashId i) (fun q => hasId (peers u).[q] && BcpId_eqb (p_id (peers u).[q]) i)).
  pose proof (iv_id _ _ _ _ _ _ HI) as HR.
  assert (Hv : forall q, q ∈ with_id B regs -> hasId (peers u).[q] && BcpId_eqb (p_id (peers u).[q]) i = key_eqb (id_of B q) i).
  { intros q Hq. destruct (sn_peer _ _ _ _ Hseen q) as (j&Hj&E). destruct (stands_reads B (run j) (Hst j Hj)) as (_&D&_).
    destruct (D q) as [E1 E2]; [by rewrite (filed_ids B regs zs q HI)|]. unfold id_of in E1. rewrite E, E1, E2. apply elem_of_with_id in Hq as [Hid _]. unfold has_id in Hid. by rewrite Hid. }
  pose proof (represents_lookup k Hk _ _ _ i _ HR Hv) as HP. change (key_hash i) with (HashId i) in HP. exists regs, zs. split; [done|].
  destruct (Lookup_probe _ _ _ _ _) as [slot|].
  - destruct HP as [[? ?]%elem_of_with_id ?]. done.
  - split; [done|]. intros q Hq Hid. apply HP. by apply elem_of_with_id.
Qed.

Lemma tag_attempt th : tag_holders (Z.to_nat (NB kt)) (tagIdx u) (NB kt - 1) th (Z.land (u32 th) (NB kt - 1)) 0 =
  tag_holders (Z.to_nat (NB kt)) (tagIdx B) (NB kt - 1) th (Z.land (u32 th) (NB kt - 1)) 0.
Proof using Hst Hseen. apply tag_holders_ext. apply seen_entries. Qed.
End Attempt.

(** ** A call *)

(** The attempts of a call, each between its own loads of the version, and the table
    found under the writer lock, when no operation is under way, after the last attempt
    fails.  An attempt takes less than [2^32] steps. *)
Definition failed (v : View S) : Prop := Z.odd (v_start v) = true \/ v_end v <> v_start v.
Record lookup_call (run : nat -> World) (first last : nat) (views : nat -> View S) t : Prop := {
  lc_attempts : forall j, (j < MAX_OPTIMISTIC_ATTEMPTS)%nat -> exists s e, (first <= s <= e)%nat /\ (e <= last)%nat /\ Z.of_nat (e - s) < 2 ^ 32 /\
    v_start (views j) = version (w_mem (run s)) /\ v_end (views j) = version (w_mem (run e)) /\ seen run s e (v_table (views j));
  lc_locked : exists L, (L <= last)%nat /\ w_rest (run L) = [] /\ t = w_mem (run L) /\
    ((forall j, (j < MAX_OPTIMISTIC_ATTEMPTS)%nat -> failed (views j)) -> (first <= L)%nat) }.

(** A table before or after an operation that runs during the call. *)
Definition during (run : nat -> World) (first last : nat) (u : PeerTable S) : Prop :=
  exists i, (first <= i <= last)%nat /\ (u = w_before (run i) \/ u = w_after (run i)).

Lemma seq_read_cases {R} (probe : PeerTable S -> R) : forall attempts (views : nat -> View S) t,
  (exists j, (j < attempts)%nat /\ ~ failed (views j) /\ seq_read probe attempts views t = probe (v_table (views j))) \/
  ((forall j, (j < attempts)%nat -> failed (views j)) /\ seq_read probe attempts views t = probe t).
Proof using.
  induction attempts as [|f IH]; intros views t; [right; split; [lia|done]|]. cbn [seq_read]. unfold failed in *.
  assert (HS : (Z.odd (v_start (views O)) = true \/ v_end (views O) <> v_start (views O)) ->
    (exists j, (j < Datatypes.S f)%nat /\ ~ (Z.odd (v_start (views j)) = true \/ v_end (views j) <> v_start (views j)) /\ seq_read probe f (fun i => views (Datatypes.S i)) t = probe (v_table (views j))) \/
    ((forall j, (j < Datatypes.S f)%nat -> Z.odd (v_start (views j)) = true \/ v_end (views j) <> v_start (views j)) /\ seq_read probe f (fun i => views (Datatypes.S i)) t = probe t)).
  { intros HO. destruct (IH (fun i => views (Datatypes.S i)) t) as [(j&?&?&?)|[Hf ?]]; [left; exists (Datatypes.S j); split; [lia|done]|right].
    split; [|done]. intros [|j] Hj; [done|]. apply (Hf j). lia. }
  destruct (Z.odd (v_start (views O))) eqn:Eo; [apply HS; by left|]. destruct (Z.eqb_spec (v_end (views O)) (v_start (views O))); [|apply HS; by right].
  left. exists O. split; [lia|]. split; [|done]. intros [?|?]; congruence.
Qed.

Section Call.
Context (run : nat -> World) (t0 : PeerTable S) (Hstart : run 0%nat = mk_world t0 t0 t0 []) (Hrun : forall i, wstep (run i) (run (Datatypes.S i))).
Context (Hcons : consistent k kt n t0) (Heven : Z.even (version t0) = true) (Hu32 : is_u32 (version t0)).
Context (first last : nat) (views : nat -> View S) (t : PeerTable S) (Hcall : lookup_call run first last views t).

Lemma start_inv : world_inv (run 0%nat).
Proof using Hstart Hcons Heven Hu32. rewrite Hstart. split; try done. exists After. apply lad_end. Qed.
Lemma unlocked_after L : w_rest (run L) = [] -> w_mem (run L) = w_after (run L).
Proof using Hk Hkt Hrun Hstart Hcons Heven Hu32.
  intros E. destruct (wi_ladder _ (run_inv run Hrun start_inv L)) as (ph&HL). rewrite E in HL. by inversion HL.
Qed.
Lemma call_table : consistent k kt n t.
Proof using All.
  destruct (lc_locked _ _ _ _ _ Hcall) as (L&_&E&->&_). rewrite (unlocked_after L E). apply (wi_after _ (run_inv run Hrun start_inv L)).
Qed.

Lemma call_cases {R} (probe : PeerTable S -> R) :
  (exists B s e u, (first <= s <= e)%nat /\ (e <= last)%nat /\ (B = w_before (run s) \/ B = w_after (run s)) /\
     (forall i, (s <= i <= e)%nat -> stands_for B (run i)) /\ seen run s e u /\ seq_read probe MAX_OPTIMISTIC_ATTEMPTS views t = probe u) \/
  during run first last t /\ seq_read probe MAX_OPTIMISTIC_ATTEMPTS views t = probe t.
Proof using All.
  destruct (seq_read_cases probe MAX_OPTIMISTIC_ATTEMPTS views t) as [(j&Hj&Hv&E)|[Hf E]].
  - left. destruct (lc_attempts _ _ _ _ _ Hcall j Hj) as (s&e&Hse&He&Hd&Es&Ee&Hseen). unfold failed in Hv. rewrite Es, Ee in Hv.
    destruct (validated run Hrun start_inv s e) as (B&HB&Hst); [lia|done|by destruct (Z.odd _); [destruct Hv; left|]|by apply dec_stable; intros ?; apply Hv; right|].
    exists B, s, e, (v_table (views j)). done.
  - right. destruct (lc_locked _ _ _ _ _ Hcall) as (L&HL&EL&Et&Hfirst). split; [|done]. exists L. split; [split; [by apply Hfirst|done]|]. right. rewrite Et. by apply unlocked_after.
Qed.

Lemma answered_during s e B u' : (first <= s <= e)%nat -> (e <= last)%nat -> (B = w_before (run s) \/ B = w_after (run s)) -> answered run s e B u' -> during run first last u'.
Proof using. intros H1 H2 HB [->|(i&Hi&->)]; [exists s; split; [lia|done]|]. exists i. split; [lia|by right]. Qed.
Lemma stood_consistent s e B : (s <= e)%nat -> (forall i, (s <= i <= e)%nat -> stands_for B (run i)) -> (B = w_before (run s) \/ B = w_after (run s)) -> consistent k kt n B.
Proof using. intros Hse Hst HB. destruct (Hst s ltac:(lia)) as [Hw _]. destruct HB as [->| ->]; apply Hw. Qed.

(** (C30) A lookup racing any number of writers answers what is right about a table of
    its own time.  Take any run of the writers' operations from a consistent table, each
    operation the stores of its plan in order with anything readable in what a store has
    not finished writing; and a call whose loads fall anywhere in it, each attempt
    loading the version, then every word it probes and every record it verifies at times
    of their own, then the version again.  Whatever the torn attempts saw, the answer of
    [GetPeer] by address and by id, and of [GetPeersByTag], is the right one for the
    table before or after an operation that runs during the call: the slot registered
    under the key, or that there is none; all holders of the tag, or the first that
    fit. *)
Theorem GetPeer_linearizable (a : Address) (i : BcpId) (tag : list Z) (max : Z) (Htag : HashTag tag <> 0) (Hmax : 0 < max) :
  (exists u, during run first last u /\ right_addr k kt n u a (GetPeer_addr views t a)) /\
  (exists u, during run first last u /\ right_id k kt n u i (GetPeer_id views t i)) /\
  (exists u l, during run first last u /\ l ≡ₚ holders u tag /\ GetPeersByTag views t tag max = (zlen l, take (Z.to_nat max) l)).
Proof using All.
  destruct call_table as (regs0&zs0&HI0). pose proof (iv_sized _ _ _ _ _ _ HI0) as Hsz. split; [|split].
  - unfold GetPeer_addr, Lookup. rewrite (sz_init _ _ _ _ Hsz), (sz_mask _ _ _ _ Hsz), (sz_cap _ _ _ _ Hsz). cbn [negb]. cbv zeta.
    match goal with |- context [seq_read ?p _ _ _] => destruct (call_cases p) as [(B&s&e&u&Hse&He&HB&Hst&Hseen&->)|[Ht ->]] end.
    + destruct (stood_consistent s e B ltac:(lia) Hst HB) as (regs&zs&HI). destruct (addr_attempt run s e B u regs zs HI Hst Hseen a) as (u'&Hu&Hr).
      exists u'. split; [by eapply answered_during|done].
    + exists t. split; [done|]. exists regs0, zs0. split; [done|]. pose proof (addr_probe_spec k kt n Hk t regs0 zs0 a HI0) as HP. by destruct (Lookup_probe _ _ _ _ _).
  - unfold GetPeer_id, Lookup. rewrite (sz_init _ _ _ _ Hsz), (sz_mask _ _ _ _ Hsz), (sz_cap _ _ _ _ Hsz). cbn [negb]. cbv zeta.
    match goal with |- context [seq_read ?p _ _ _] => destruct (call_cases p) as [(B&s&e&u&Hse&He&HB&Hst&Hseen&->)|[Ht ->]] end.
    + destruct (stood_consistent s e B ltac:(lia) Hst HB) as (regs&zs&HI). exists B. split; [eapply answered_during; [done..|by left]|].
      by apply (id_attempt run s e B u regs zs).
    + exists t. split; [done|]. exists regs0, zs0. split; [done|]. pose proof (id_probe_spec k kt n Hk t regs0 zs0 i HI0) as HP. by destruct (Lookup_probe _ _ _ _ _).
  - unfold GetPeersByTag. rewrite (sz_init _ _ _ _ Hsz), (sz_tmask _ _ _ _ Hsz), (sz_tcap _ _ _ _ Hsz). cbn [negb orb].
    destruct (Z.eqb_spec max 0); [lia|]. destruct (Z.eqb_spec (HashTag tag) 0); [done|]. cbv zeta.
    match goal with |- context [seq_read ?p _ _ _] => destruct (call_cases p) as [(B&s&e&u&Hse&He&HB&Hst&Hseen&->)|[Ht ->]] end.
    + destruct (stood_consistent s e B ltac:(lia) Hst HB) as (regs&zs&HI). rewrite (tag_attempt run s e B u Hst Hseen). eexists B, _. split; [eapply answered_during; [done..|by left]|].
      split; [|reflexivity]. apply (tag_holders_spec kt Hkt); [apply (iv_tags _ _ _ _ _ _ HI)|done].
    + eexists t, _. split; [done|]. split; [|reflexivity]. apply (tag_holders_spec kt Hkt); [apply (iv_tags _ _ _ _ _ _ HI0)|done].
Qed.
End Call.
End Phases.
End Race.

(** ** A race: an address moves under a lookup *)

Definition race_op : table_op := OpUpdateAddress 0 sample_b.
Definition race_plan : list (stage SlotPool) := default [] (op_plan sample1 race_op).
Definition race_trace : list (PeerTable SlotPool) := default [] (trace_stages race_plan sample1).
Definition race_after : PeerTable SlotPool := List.last race_trace sample1.
(** The record is rewritten, the version not yet odd. *)
Definition race_moved : PeerTable SlotPool := hd sample1 race_trace.
Definition race_run (i : nat) : World :=
  match i with
  | 0%nat => mk_world sample1 sample1 sample1 []
  | 1%nat => mk_world sample1 sample1 race_after race_trace
  | _ => mk_world race_moved sample1 race_after (tail race_trace)
  end.
Definition race_view : View SlotPool := mk_view 2 race_moved 2.

Lemma race_op_ok : op_ok sample1 race_op.
Proof. exact sample_key_b. Qed.
Definition returns {A} (o : option A) : bool := match o with Some _ => true | None => false end.
Lemma race_returns : returns (op_plan sample1 race_op) = true /\ returns (trace_stages race_plan sample1) = true.
Proof. split; vm_compute; reflexivity. Qed.
Lemma race_has_plan : op_plan sample1 race_op = Some race_plan.
Proof. pose proof (proj1 race_returns) as E. unfold race_plan. by destruct (op_plan sample1 race_op). Qed.
Lemma race_has_trace : trace_stages race_plan sample1 = Some race_trace.
Proof. pose proof (proj2 race_returns) as E. unfold race_trace. by destruct (trace_stages race_plan sample1). Qed.
Lemma race_head : race_trace = race_moved :: tail race_trace.
Proof. assert (E : negb (Nat.eqb (length race_trace) 0) = true) by (vm_compute; reflexivity). unfold race_moved. by destruct race_trace. Qed.
Lemma race_steps i : wstep (race_run i) (race_run (Datatypes.S i)).
Proof.
  destruct i as [|[|i]]; cbn [race_run]; [|rewrite race_head at 1; apply ws_land|apply ws_stutter].
  unfold race_after. apply (ws_begin sample1 sample1 sample1 race_op race_plan race_trace race_op_ok race_has_plan race_has_trace).
Qed.
Lemma race_seen : seen race_run 0 2 race_moved.
Proof.
  assert (Ea : addrIdx race_moved = addrIdx sample1) by (vm_compute; reflexivity). assert (Ei : bcpIdx race_moved = bcpIdx sample1) by (vm_compute; reflexivity).
  assert (Et : tagIdx race_moved = tagIdx sample1) by (vm_compute; reflexivity).
  assert (Hr : (0 <= 0 <= 2)%nat /\ (0 <= 2 <= 2)%nat) by lia. destruct Hr as [H1 H2].
  split; intros p; [exists 0%nat, 0%nat; rewrite Ea|exists 0%nat, 0%nat; rewrite Ei|exists 0%nat, 0%nat; rewrite Et|exists 2%nat]; cbn [race_run w_mem].
  1-3: split; [exact H1|]; split; [exact H1|]; split; exact eq_refl.
  split; [exact H2|exact eq_refl].
Qed.
Lemma race_call : lookup_call race_run 0 2 (fun _ => race_view) sample1.
Proof.
  split; [intros j _|].
  - exists 0%nat, 2%nat. split; [lia|]. split; [lia|]. split; [reflexivity|]. split; [vm_compute; reflexivity|]. split; [vm_compute; reflexivity|]. exact race_seen.
  - exists 0%nat. split; [lia|]. split; [exact eq_refl|]. split; [exact eq_refl|]. intros _. lia.
Qed.

Lemma GetPeer_linearizable_witness :
  GetPeer_addr (fun _ => race_view) sample1 sample_a = inl NotFound /\
  exists u, during race_run 0 2 u /\ right_addr 2 4 2 u sample_a (GetPeer_addr (fun _ => race_view) sample1 sample_a).
Proof.
  split; [vm_compute; reflexivity|].
  refine (proj1 (GetPeer_linearizable 2 4 2 ltac:(lia) ltac:(lia) race_run sample1 eq_refl race_steps _ _ _ 0 2 (fun _ => race_view) sample1 race_call
    sample_a sample_id sample_tag 1 _ _)).
  - exists [0], []. exact sample1_inv.
  - vm_compute. reflexivity.
  - vm_compute. split; [discriminate|reflexivity].
  - vm_compute. discriminate.
  - lia.
Defined.
