(* ===== verification/Transfer.v ===== *)
(** * Transfers: [flux/transfer/transfer_table.cpp]

    Every transfer a socket runs, in both directions, translated operation by
    operation.  A packet's place is arithmetic: sequence [s] belongs at
    [s * TRANSFER_STRIDE_BYTES] of a buffer the application owns.  Per-packet
    state is a ring of [TRANSFER_WINDOW] entries per slot, kept in flat arrays
    beside the slots, and a bit of a ring lives in a word of 32.

    A null array of the source is the empty list.  The application's buffers are
    the byte strings held by [destination] and [source]: two running transfers are
    assumed not to share one.  Slot locks are free, as for one thread.  [None] is
    a pool operation that does not return. *)

From S2P Require Import Prelude Wire Errors Keys Curve Rtt SlotPool.

(** ** Constants *)

Definition NPOS : Z := INVALID.
Definition INVALID_ID : Z := 0xFFFF.
Definition TRANSFER_STRIDE_BYTES : Z :=
  MAX_WIRE_PACKET_SIZE - WIRE_SECURE_HEAD_SIZE - WIRE_PEER_TAG_SIZE - WIRE_TAG_SIZE
  - WIRE_SECURE_CHANNEL_SIZE - TRANSFER_WIRE_HEADER_SIZE.
Definition TRANSFER_WINDOW : Z := 1024.
Definition RING_WORDS : Z := TRANSFER_WINDOW / 32.
Definition WINDOW_MASK : Z := TRANSFER_WINDOW - 1.
Definition TRANSFER_ACK_BITMAP_BYTES : Z := TRANSFER_WINDOW / 8.
Definition TRANSFER_MAX_BYTES_DEFAULT : Z := 2 ^ 30.
Definition MAX_PER_PEER : Z := 4.

(** ** Bits of a ring, [base] words into a flat array *)

Definition bit (index : Z) : Z := u32 (Z.shiftl 1 (Z.land index 31)).
Definition BitTest (bits : list Z) (base index : Z) : bool :=
  negb (Z.land bits.[base + Z.shiftr index 5] (bit index) =? 0).
Definition BitSet (bits : list Z) (base index : Z) : list Z :=
  let w := base + Z.shiftr index 5 in bits.[w <- Z.lor bits.[w] (bit index)].
Definition BitClear (bits : list Z) (base index : Z) : list Z :=
  let w := base + Z.shiftr index 5 in bits.[w <- Z.land bits.[w] (Z.lxor UINT32_MAX (bit index))].

(** ** Sizes *)

Definition PacketsFor (length : Z) : Z :=
  u32 (u64 (u64 (length + TRANSFER_STRIDE_BYTES) - 1) / TRANSFER_STRIDE_BYTES).

Definition payload_at (length seq : Z) : Z :=
  let offset := u64 (seq * TRANSFER_STRIDE_BYTES) in
  let remaining := if offset <? length then length - offset else 0 in
  if remaining <? TRANSFER_STRIDE_BYTES then remaining else TRANSFER_STRIDE_BYTES.

Definition WireSizeForSeq (length seq : Z) : Z :=
  u32 (WIRE_SECURE_HEAD_SIZE + WIRE_PEER_TAG_SIZE + WIRE_SECURE_CHANNEL_SIZE
       + TRANSFER_WIRE_HEADER_SIZE + payload_at length seq + WIRE_TAG_SIZE).

(** ** State *)

Record OutTransfer := mk_out {
  o_peerSlot : Z; o_peerAddr : Address; o_transferId : Z; source : list Z; o_length : Z; o_packetCount : Z;
  nextSeq : Z; acked : Z; o_announced : bool; announceAcked : bool; announceSentAt : Z; refused : bool;
  inFlight : Z; contiguousAcked : Z; highestAcked : Z; lossBarrierSeq : Z }.
#[export] Instance OutTransfer_eta : Eta OutTransfer := fun o =>
  mk_out (o_peerSlot o) (o_peerAddr o) (o_transferId o) (source o) (o_length o) (o_packetCount o) (nextSeq o) (acked o)
    (o_announced o) (announceAcked o) (announceSentAt o) (refused o) (inFlight o) (contiguousAcked o) (highestAcked o)
    (lossBarrierSeq o).

Record InTransfer := mk_in {
  i_peerSlot : Z; i_peerAddr : Address; i_transferId : Z; i_length : Z; i_packetCount : Z;
  destination : option (list Z); i_announced : bool; complete : bool; recvNext : Z; placed : Z;
  sinceAck : Z; ackOwed : bool }.
#[export] Instance InTransfer_eta : Eta InTransfer := fun i =>
  mk_in (i_peerSlot i) (i_peerAddr i) (i_transferId i) (i_length i) (i_packetCount i) (destination i) (i_announced i)
    (complete i) (recvNext i) (placed i) (sinceAck i) (ackOwed i).

Definition no_address : Address := mk_addr 0 0 [] 0.
Definition blank_out : OutTransfer := mk_out 0 no_address 0 [] 0 0 0 0 false false 0 false 0 0 0 0.
Definition blank_in : InTransfer := mk_in 0 no_address 0 0 0 None false false 0 0 0 false.
#[export] Instance OutTransfer_inhabited : Inhabited OutTransfer := populate blank_out.
#[export] Instance InTransfer_inhabited : Inhabited InTransfer := populate blank_in.

Record DirEntry := mk_dir { d_transferId : Z; d_slot : Z }.
Definition free_entry : DirEntry := mk_dir INVALID_ID NPOS.
#[export] Instance DirEntry_inhabited : Inhabited DirEntry := populate free_entry.

Record Finished := mk_finished { f_slot : Z; f_incoming : bool; f_outcome : Error }.
#[export] Instance Finished_inhabited : Inhabited Finished := populate (mk_finished 0 false Ok).

Record TransferView := mk_view {
  v_bytes : option (list Z); v_length : Z; v_peer : Address; v_transferId : Z; v_outcome : Error }.

Record Params := mk_params { p_outCount : Z; p_inCount : Z; p_maxPeers : Z; p_maxTransferBytes : Z }.

Section Definitions.
Context {S : Type} `{!Allocator S}.

Record TransferTable := mk_tt {
  outPool : S; inPool : S; outs : list OutTransfer; ins : list InTransfer;
  sentAtRing : list Z; ackedRing : list Z; placedRing : list Z; resentRing : list Z;
  outDir : list DirEntry; inDir : list DirEntry;
  outCount : Z; inCount : Z; maxPeers : Z; maxTransferBytes : Z;
  finished : list Finished; finishedHead : Z; finishedCount : Z }.

#[global] Instance TransferTable_eta : Eta TransferTable := fun t =>
  mk_tt (outPool t) (inPool t) (outs t) (ins t) (sentAtRing t) (ackedRing t) (placedRing t) (resentRing t)
    (outDir t) (inDir t) (outCount t) (inCount t) (maxPeers t) (maxTransferBytes t) (finished t) (finishedHead t)
    (finishedCount t).

Definition is_null {A} (l : list A) : bool := match l with [] => true | _ => false end.

(** [Init], with allocations that succeed; [mkPool n] is a pool for [n] slots and
    [slots n] how many it then has. *)
Definition TransferTable_Init (mkPool : Z -> S) (slots : Z -> Z) (params : Params) (t : TransferTable) : Error * TransferTable :=
  if p_maxPeers params =? 0 then (InvalidParam, t)
  else
    let t := t <| maxPeers := p_maxPeers params |> <| outCount := p_outCount params |> <| inCount := p_inCount params |>
               <| maxTransferBytes := if negb (p_maxTransferBytes params =? 0) then p_maxTransferBytes params
                                      else TRANSFER_MAX_BYTES_DEFAULT |> in
    let sends := negb (outCount t =? 0) in
    let receives := negb (inCount t =? 0) in
    if negb sends && negb receives then (Ok, t)
    else
      let dirCells := maxPeers t * MAX_PER_PEER in
      (Ok, t <| outPool := if sends then mkPool (outCount t) else outPool t |>
             <| outs := if sends then replicate (Z.to_nat (slots (outCount t))) blank_out else outs t |>
             <| inPool := if receives then mkPool (inCount t) else inPool t |>
             <| ins := if receives then replicate (Z.to_nat (slots (inCount t))) blank_in else ins t |>
             <| outDir := if sends then replicate (Z.to_nat dirCells) free_entry else outDir t |>
             <| inDir := if receives then replicate (Z.to_nat dirCells) free_entry else inDir t |>
             <| finished := replicate (Z.to_nat (u32 (outCount t + inCount t))) inhabitant |>
             <| sentAtRing := if sends then replicate (Z.to_nat (outCount t * TRANSFER_WINDOW)) 0 else sentAtRing t |>
             <| ackedRing := if sends then replicate (Z.to_nat (outCount t * RING_WORDS)) 0 else ackedRing t |>
             <| resentRing := if sends then replicate (Z.to_nat (outCount t * RING_WORDS)) 0 else resentRing t |>
             <| placedRing := if receives then replicate (Z.to_nat (inCount t * RING_WORDS)) 0 else placedRing t |>).

Definition TransferTable_Shutdown (shut : S -> S) (t : TransferTable) : TransferTable :=
  t <| outPool := shut (outPool t) |> <| inPool := shut (inPool t) |> <| outDir := [] |> <| inDir := [] |>
    <| finished := [] |> <| sentAtRing := [] |> <| ackedRing := [] |> <| placedRing := [] |> <| resentRing := [] |>
    <| outCount := 0 |> <| inCount := 0 |> <| maxPeers := 0 |> <| finishedHead := 0 |> <| finishedCount := 0 |>.

(** *** The directory: a row of [MAX_PER_PEER] entries per peer *)

Definition row_find (dir : list DirEntry) (row transferId : Z) : Z :=
  match find_up 0 (Z.to_nat MAX_PER_PEER)
    (fun i => negb (d_slot dir.[row + i] =? NPOS) && (d_transferId dir.[row + i] =? transferId)) with
  | Some i => d_slot dir.[row + i]
  | None => NPOS
  end.

(** The first free cell of a row, or [MAX_PER_PEER]. *)
Definition row_free (dir : list DirEntry) (row : Z) : Z :=
  match find_up 0 (Z.to_nat MAX_PER_PEER) (fun i => d_slot dir.[row + i] =? NPOS) with
  | Some i => i
  | None => MAX_PER_PEER
  end.

(** Clears every cell of a row that names [slot]. *)
Definition row_drop (dir : list DirEntry) (row slot : Z) : list DirEntry :=
  for_up 0 (Z.to_nat MAX_PER_PEER)
    (fun i dir => if d_slot dir.[row + i] =? slot then dir.[row + i <- free_entry] else dir) dir.

Definition FindOut (t : TransferTable) (peerSlot transferId : Z) : Z :=
  if is_null (outDir t) || (maxPeers t <=? peerSlot) then NPOS
  else row_find (outDir t) (peerSlot * MAX_PER_PEER) transferId.
Definition FindIn (t : TransferTable) (peerSlot transferId : Z) : Z :=
  if is_null (inDir t) || (maxPeers t <=? peerSlot) then NPOS
  else row_find (inDir t) (peerSlot * MAX_PER_PEER) transferId.

(** [memset] of one slot's words. *)
Definition zero_fill (ring : list Z) (base n : Z) : list Z := blit ring base (replicate (Z.to_nat n) 0).

Definition BeginSend (hint : Z) (t : TransferTable) (peerSlot : Z) (peer : Address) (transferId : Z)
    (buffer : option (list Z)) (length : Z) : option (Error * TransferTable) :=
  if outCount t =? 0 then Some (InvalidState, t)
  else match buffer with
  | None => Some (InvalidParam, t)
  | Some bytes =>
    if length =? 0 then Some (InvalidParam, t)
    else if maxTransferBytes t <? length then Some (TooLarge, t)
    else if maxPeers t <=? peerSlot then Some (InvalidParam, t)
    else if transferId =? INVALID_ID then Some (InvalidParam, t)
    else if negb (FindOut t peerSlot transferId =? NPOS) then Some (AlreadyPending, t)
    else
      let packets := PacketsFor length in
      if packets =? 0 then Some (InvalidParam, t)
      else
        let row := peerSlot * MAX_PER_PEER in
        let free := row_free (outDir t) row in
        if free =? MAX_PER_PEER then Some (LimitReached, t)
        else
          '(slot, pool) ← al_acquire hint (outPool t);
          let t := t <| outPool := pool |> in
          if slot =? NPOS then Some (PoolExhausted, t)
          else
            let out := outs t in
            let t := t <| outs := out.[slot <- mk_out peerSlot peer transferId bytes length packets 0 0 false false 0
                                                 false 0 0 0 0] |> in
            let t := t <| ackedRing := zero_fill (ackedRing t) (slot * RING_WORDS) RING_WORDS |>
                       <| resentRing := zero_fill (resentRing t) (slot * RING_WORDS) RING_WORDS |>
                       <| sentAtRing := zero_fill (sentAtRing t) (slot * TRANSFER_WINDOW) TRANSFER_WINDOW |> in
            Some (Ok, t <| outDir := (outDir t).[row + free <- mk_dir transferId slot] |>)
  end.

Definition OnAnnounce (hint : Z) (t : TransferTable) (peerSlot : Z) (peer : Address) (transferId length stride : Z)
  : option (Error * bool * TransferTable) :=
  if inCount t =? 0 then Some (InvalidState, false, t)
  else if maxPeers t <=? peerSlot then Some (InvalidParam, false, t)
  else if negb (stride =? TRANSFER_STRIDE_BYTES) then Some (Malformed, false, t)
  else if length =? 0 then Some (Malformed, false, t)
  else if maxTransferBytes t <? length then Some (TooLarge, false, t)
  else if negb (FindIn t peerSlot transferId =? NPOS) then Some (Ok, false, t)
  else
    let row := peerSlot * MAX_PER_PEER in
    let free := row_free (inDir t) row in
    if free =? MAX_PER_PEER then Some (LimitReached, false, t)
    else
      '(slot, pool) ← al_acquire hint (inPool t);
      let t := t <| inPool := pool |> in
      if slot =? NPOS then Some (PoolExhausted, false, t)
      else
        let t := t <| ins := (ins t).[slot <- mk_in peerSlot peer transferId length (PacketsFor length) None true false
                                              0 0 0 true] |> in
        let t := t <| placedRing := zero_fill (placedRing t) (slot * RING_WORDS) RING_WORDS |> in
        Some (Ok, true, t <| inDir := (inDir t).[row + free <- mk_dir transferId slot] |>).

(** The finished queue takes an entry while it has room. *)
Definition push_finished (t : TransferTable) (entry : Finished) : TransferTable :=
  let ring := u32 (outCount t + inCount t) in
  if finishedCount t <? ring then
    let tail := u32 (finishedHead t + finishedCount t) mod ring in
    t <| finished := (finished t).[tail <- entry] |> <| finishedCount := u32 (finishedCount t + 1) |>
  else t.

(** The cursor's walk over what is now contiguous; it ends at the packet count at
    the latest. *)
Fixpoint walk (fuel : nat) (ring : list Z) (base next count : Z) : list Z * Z :=
  match fuel with
  | O => (ring, next)
  | Datatypes.S fuel' =>
      if (next <? count) && BitTest ring base (Z.land next WINDOW_MASK)
      then walk fuel' (BitClear ring base (Z.land next WINDOW_MASK)) base (u32 (next + 1)) count
      else (ring, next)
  end.

(** The body of [OnData], for the transfer [i] in a slot whose ring starts at
    word [base]. *)
Definition place (i : InTransfer) (ring : list Z) (base seq : Z) (payload : list Z) (payloadLen : Z)
  : Error * InTransfer * list Z :=
  match destination i with
  | None => (AlreadyPending, i <| ackOwed := true |>, ring)
  | Some dest =>
    if complete i then (Ok, i, ring)
    else if i_packetCount i <=? seq then (Malformed, i, ring)
    else
      let offset := u64 (seq * TRANSFER_STRIDE_BYTES) in
      if i_length i <=? offset then (Malformed, i, ring)
      else
        let remaining := i_length i - offset in
        let expected := if remaining <? TRANSFER_STRIDE_BYTES then remaining else TRANSFER_STRIDE_BYTES in
        if negb (payloadLen =? expected) then (Malformed, i, ring)
        else
          let ringIndex := Z.land seq WINDOW_MASK in
          if seq <? recvNext i then (Ok, i <| ackOwed := true |>, ring)
          else if BitTest ring base ringIndex then (Ok, i <| ackOwed := true |>, ring)
          else
            let i := i <| destination := Some (blit dest offset (take (Z.to_nat expected) payload)) |> in
            let cursorBefore := recvNext i in
            let ring := BitSet ring base ringIndex in
            let i := i <| placed := u32 (placed i + 1) |> in
            let i := if negb (seq =? cursorBefore) then i <| ackOwed := true |> else i in
            let '(ring, next) := walk (Z.to_nat (i_packetCount i - recvNext i)) ring base (recvNext i) (i_packetCount i) in
            let i := i <| recvNext := next |> in
            let i := if negb (recvNext i =? cursorBefore) then i <| ackOwed := true |> else i in
            let i := if i_packetCount i <=? recvNext i then i <| complete := true |> else i in
            (Ok, i, ring)
  end.

Definition OnData (t : TransferTable) (peerSlot transferId seq : Z) (payload : list Z) (payloadLen : Z)
  : Error * TransferTable :=
  let slot := FindIn t peerSlot transferId in
  if slot =? NPOS then (NotFound, t)
  else
    let i := (ins t).[slot] <| sinceAck := u32 (sinceAck (ins t).[slot] + 1) |> in
    let '(result, i', ring) := place i (placedRing t) (slot * RING_WORDS) seq payload payloadLen in
    let t := t <| ins := (ins t).[slot <- i'] |> <| placedRing := ring |> in
    let t := if complete i' && negb (complete i) then push_finished t (mk_finished slot true Ok) else t in
    (result, t).

Definition Allow (t : TransferTable) (peerSlot transferId : Z) (buffer : option (list Z)) : Error * TransferTable :=
  match buffer with
  | None => (InvalidParam, t)
  | Some bytes =>
    let slot := FindIn t peerSlot transferId in
    if slot =? NPOS then (NotFound, t)
    else
      let i := (ins t).[slot] in
      if negb (i_announced i) || bool_decide (is_Some (destination i)) then (InvalidState, t)
      else (Ok, t <| ins := (ins t).[slot <- i <| destination := Some bytes |>] |>)
  end.

(** The slot, the directory row and the pool give an incoming transfer up. *)
Definition drop_in (t : TransferTable) (peerSlot slot : Z) : option TransferTable :=
  let t := t <| ins := (ins t).[slot <- blank_in] |> in
  let t := t <| inDir := row_drop (inDir t) (peerSlot * MAX_PER_PEER) slot |> in
  pool ← al_release (inPool t) slot; Some (t <| inPool := pool |>).

Definition Reject (t : TransferTable) (peerSlot transferId : Z) : option (Error * TransferTable) :=
  let slot := FindIn t peerSlot transferId in
  if slot =? NPOS then Some (NotFound, t)
  else t' ← drop_in t peerSlot slot; Some (Ok, t').

Definition PendingLength (t : TransferTable) (peerSlot transferId : Z) : Z :=
  let slot := FindIn t peerSlot transferId in
  if slot =? NPOS then 0
  else
    let i := (ins t).[slot] in
    if i_announced i && bool_decide (destination i = None) then i_length i else 0.

Definition Progress (t : TransferTable) (peerSlot transferId : Z) : Z :=
  let inSlot := FindIn t peerSlot transferId in
  if negb (inSlot =? NPOS) then
    let i := (ins t).[inSlot] in
    let done := u64 (recvNext i * TRANSFER_STRIDE_BYTES) in
    if i_length i <? done then i_length i else done
  else
    let outSlot := FindOut t peerSlot transferId in
    if outSlot =? NPOS then 0
    else
      let o := (outs t).[outSlot] in
      let done := u64 (contiguousAcked o * TRANSFER_STRIDE_BYTES) in
      if o_length o <? done then o_length o else done.

Definition Complete (t : TransferTable) (peerSlot transferId : Z) : option (Error * TransferTable) :=
  let slot := FindIn t peerSlot transferId in
  if slot =? NPOS then Some (NotFound, t)
  else if negb (complete (ins t).[slot]) then Some (NotFound, t)
  else t' ← drop_in t peerSlot slot; Some (Ok, t').

(** One entry of the finished queue, taken off its head. *)
Definition drain_one (t : TransferTable) : option (TransferView * TransferTable) :=
  let ring := u32 (outCount t + inCount t) in
  let entry := (finished t).[finishedHead t] in
  let t := t <| finishedHead := u32 (finishedHead t + 1) mod ring |> <| finishedCount := u32 (finishedCount t - 1) |> in
  if f_incoming entry then
    let i := (ins t).[f_slot entry] in
    Some (mk_view (destination i) (i_length i) (i_peerAddr i) (i_transferId i) (f_outcome entry), t)
  else
    let sent := (outs t).[f_slot entry] in
    let t := t <| outs := (outs t).[f_slot entry <- blank_out] |> in
    let t := if (o_peerSlot sent <? maxPeers t) && negb (is_null (outDir t))
             then t <| outDir := row_drop (outDir t) (o_peerSlot sent * MAX_PER_PEER) (f_slot entry) |> else t in
    pool ← al_release (outPool t) (f_slot entry);
    Some (mk_view None (o_length sent) (o_peerAddr sent) (o_transferId sent) (f_outcome entry), t <| outPool := pool |>).

(** [DrainFinished] into an array of [max] views. *)
Fixpoint drain_loop (fuel : nat) (t : TransferTable) (room : Z) (out : list TransferView) : option (list TransferView * TransferTable) :=
  match fuel with
  | O => Some (out, t)
  | Datatypes.S fuel' =>
      if (zlen out <? room) && (0 <? finishedCount t)
      then '(v, t') ← drain_one t; drain_loop fuel' t' room (out ++ [v])
      else Some (out, t)
  end.
Definition DrainFinished (t : TransferTable) (max : Z) : option (list TransferView * TransferTable) :=
  if (max =? 0) || (finishedCount t =? 0) then Some ([], t)
  else drain_loop (Z.to_nat (finishedCount t)) t max [].
End Definitions.
Arguments TransferTable : clear implicits.
