(* ===== verification/TransferAck.v ===== *)
(** * Transfers: the sender's window and the acknowledgements
      [flux/transfer/transfer_table.cpp]

    The second half of the table: what a send pass marks and looks for, what a
    receiver reports, what an acknowledgement or a refusal resolves, and the sweep
    of a peer that is going away. *)

From S2P Require Import Prelude Wire Errors Keys Curve Rtt SlotPool Transfer.

Section Definitions.
Context {S : Type} `{!Allocator S}.
Implicit Types t : TransferTable S.

(** *** The send pass *)

(** [ForEachSending]: [fn] sees each transfer of the peer's row in turn and
    answers whether to go on. *)
Fixpoint for_each_from (n : nat) (i row : Z) (fn : Z -> TransferTable S -> bool * TransferTable S) t : TransferTable S :=
  match n with
  | O => t
  | Datatypes.S n' =>
      let slot := d_slot (outDir t).[row + i] in
      if slot =? INVALID then for_each_from n' (i + 1) row fn t
      else
        let '(carryOn, t) := fn slot t in
        if carryOn then for_each_from n' (i + 1) row fn t else t
  end.
Definition ForEachSending t (peerSlot : Z) (fn : Z -> TransferTable S -> bool * TransferTable S) : TransferTable S :=
  if is_null (outDir t) || (maxPeers t <=? peerSlot) then t
  else for_each_from (Z.to_nat MAX_PER_PEER) 0 (peerSlot * MAX_PER_PEER) fn t.

(** Whether one outstanding sequence is due for a resend. *)
Definition overdue t (slot : Z) (out : OutTransfer) (now rto lossDelay seq : Z) : bool :=
  let ring := Z.land seq WINDOW_MASK in
  let sentAt := (sentAtRing t).[slot * TRANSFER_WINDOW + ring] in
  if BitTest (ackedRing t) (slot * RING_WORDS) ring then false
  else if sentAt =? 0 then false
  else if negb (BitTest (resentRing t) (slot * RING_WORDS) ring)
       && ((u32 (seq + LOSS_PACKET_THRESHOLD) <=? highestAcked out)
           || ((seq <? highestAcked out) && (sentAt <? now) && (lossDelay <? now - sentAt)))
  then true
  else (sentAt <? now) && (rto <? now - sentAt).

Definition OldestOverdue t (slot : Z) (out : OutTransfer) (now rto lossDelay fromSeq : Z) : Z :=
  let seq := if contiguousAcked out <? fromSeq then fromSeq else contiguousAcked out in
  match find_up seq (Z.to_nat (nextSeq out - seq)) (overdue t slot out now rto lossDelay) with
  | Some s => s
  | None => UINT32_MAX
  end.

Definition MarkSent t (slot seq now : Z) : TransferTable S :=
  let ring := Z.land seq WINDOW_MASK in
  let at_ := slot * TRANSFER_WINDOW + ring in
  let out := (outs t).[slot] in
  let t := if (sentAtRing t).[at_] =? 0
           then t <| outs := (outs t).[slot <- out <| inFlight := u32 (inFlight out + 1) |>] |>
           else t <| resentRing := BitSet (resentRing t) (slot * RING_WORDS) ring |> in
  let t := t <| sentAtRing := (sentAtRing t).[at_ <- now] |> in
  t <| ackedRing := BitClear (ackedRing t) (slot * RING_WORDS) ring |>.

Definition SendingLength t (peerSlot transferId : Z) : Z :=
  let slot := FindOut t peerSlot transferId in
  if slot =? NPOS then 0 else o_length (outs t).[slot].

(** *** What a receiver reports *)

(** The bits of [outBitmap], one per sequence from the cursor, up to the packet
    count. *)
Fixpoint report (n : nat) (i : Z) (ring : list Z) (base cursor count : Z) (bitmap : list Z) : list Z :=
  match n with
  | O => bitmap
  | Datatypes.S n' =>
      let seq := u32 (cursor + i) in
      if count <=? seq then bitmap
      else
        let bitmap := if BitTest ring base (Z.land seq WINDOW_MASK)
                      then bitmap.[Z.shiftr i 3 <- Z.lor bitmap.[Z.shiftr i 3] (u8 (Z.shiftl 1 (Z.land i 7)))]
                      else bitmap in
        report n' (i + 1) ring base cursor count bitmap
  end.

Definition ReceiveState t (peerSlot transferId : Z) : option (Z * list Z) :=
  let slot := FindIn t peerSlot transferId in
  if slot =? NPOS then None
  else
    let i := (ins t).[slot] in
    Some (recvNext i, report (Z.to_nat TRANSFER_WINDOW) 0 (placedRing t) (slot * RING_WORDS) (recvNext i)
                        (i_packetCount i) (replicate (Z.to_nat TRANSFER_ACK_BITMAP_BYTES) 0)).

Definition TakeAckDebt t (peerSlot transferId : Z) : bool * TransferTable S :=
  let slot := FindIn t peerSlot transferId in
  if slot =? NPOS then (false, t)
  else
    let i := (ins t).[slot] in
    let owed := ackOwed i || (ACK_EVERY_PACKETS <=? sinceAck i) in
    (owed, if owed then t <| ins := (ins t).[slot <- i <| ackOwed := false |> <| sinceAck := 0 |>] |> else t).

(** *** What an acknowledgement resolves *)

(** The transfer, its rings and the four results while [OnAck] runs. *)
Record AckState := mk_ack {
  k_out : OutTransfer; k_sentAt : list Z; k_acked : list Z; k_resent : list Z;
  freedBytes : Z; freedPackets : Z; rttSample : Z; lostBytes : Z }.
#[global] Instance AckState_eta : Eta AckState := fun k =>
  mk_ack (k_out k) (k_sentAt k) (k_acked k) (k_resent k) (freedBytes k) (freedPackets k) (rttSample k) (lostBytes k).

(** The lambda [resolve]. *)
Definition resolve (slot now seq : Z) (k : AckState) : AckState :=
  let ring := Z.land seq WINDOW_MASK in
  let at_ := slot * TRANSFER_WINDOW + ring in
  let base := slot * RING_WORDS in
  let k :=
    if negb ((k_sentAt k).[at_] =? 0) then
      let sent := (k_sentAt k).[at_] in
      let k := if (sent <? now) && negb (BitTest (k_resent k) base ring)
               then if now - sent <? RTT_SAMPLE_MAX_MICROS then k <| rttSample := u32 (now - sent) |> else k
               else k in
      let k := k <| k_resent := BitClear (k_resent k) base ring |> <| k_sentAt := (k_sentAt k).[at_ <- 0] |> in
      let out := k_out k in
      let k := if negb (inFlight out =? 0) then k <| k_out := out <| inFlight := inFlight out - 1 |> |> else k in
      k <| freedBytes := u32 (freedBytes k + WireSizeForSeq (o_length (k_out k)) seq) |>
        <| freedPackets := u32 (freedPackets k + 1) |>
    else k in
  k <| k_acked := BitSet (k_acked k) base ring |>.

(** The selective bitmap. *)
Fixpoint resolve_bitmap (n : nat) (i recvNext slot now : Z) (bitmap : list Z) (k : AckState) : AckState :=
  match n with
  | O => k
  | Datatypes.S n' =>
      if Z.land bitmap.[Z.shiftr i 3] (Z.shiftl 1 (Z.land i 7)) =? 0
      then resolve_bitmap n' (i + 1) recvNext slot now bitmap k
      else
        let seq := u32 (recvNext + i) in
        if o_packetCount (k_out k) <=? seq then k
        else
          let k := resolve slot now seq k in
          let out := k_out k in
          let k := if highestAcked out <? u32 (seq + 1) then k <| k_out := out <| highestAcked := u32 (seq + 1) |> |> else k in
          resolve_bitmap n' (i + 1) recvNext slot now bitmap k
  end.

(** Bytes outstanding below the highest sequence reported, less the reordering
    threshold, that no loss event has been charged for. *)
Definition missing_bytes (slot : Z) (k : AckState) : Z :=
  let out := k_out k in
  let from := if lossBarrierSeq out <? contiguousAcked out then contiguousAcked out else lossBarrierSeq out in
  let upTo := if LOSS_PACKET_THRESHOLD <? highestAcked out then highestAcked out - LOSS_PACKET_THRESHOLD else 0 in
  for_up from (Z.to_nat (upTo - from))
    (fun seq missing =>
       let ring := Z.land seq WINDOW_MASK in
       if negb ((k_sentAt k).[slot * TRANSFER_WINDOW + ring] =? 0) && negb (BitTest (k_acked k) (slot * RING_WORDS) ring)
       then u32 (missing + WireSizeForSeq (o_length out) seq) else missing) 0.

(** The acknowledgement applied to one transfer. *)
Definition ack_transfer (slot recvNext : Z) (bitmap : list Z) (now : Z) (k : AckState) : AckState :=
  let k := k <| k_out := (k_out k) <| announceAcked := true |> |> in
  let recvNext := if o_packetCount (k_out k) <? recvNext then o_packetCount (k_out k) else recvNext in
  let from := contiguousAcked (k_out k) in
  let k := for_up from (Z.to_nat (recvNext - from)) (resolve slot now) k in
  let k := if contiguousAcked (k_out k) <? recvNext then k <| k_out := (k_out k) <| contiguousAcked := recvNext |> |> else k in
  let k := if highestAcked (k_out k) <? recvNext then k <| k_out := (k_out k) <| highestAcked := recvNext |> |> else k in
  let k := resolve_bitmap (Z.to_nat TRANSFER_WINDOW) 0 recvNext slot now bitmap k in
  let missing := missing_bytes slot k in
  if negb (missing =? 0)
  then k <| lostBytes := missing |> <| k_out := (k_out k) <| lossBarrierSeq := nextSeq (k_out k) |> |>
  else k.

Definition load_ack t (slot : Z) : AckState :=
  mk_ack (outs t).[slot] (sentAtRing t) (ackedRing t) (resentRing t) 0 0 0 0.
Definition store_ack t (slot : Z) (k : AckState) : TransferTable S :=
  t <| outs := (outs t).[slot <- k_out k] |> <| sentAtRing := k_sentAt k |> <| ackedRing := k_acked k |>
    <| resentRing := k_resent k |>.

(** What [OnAck] hands back: freed bytes and packets, a round-trip sample, bytes
    declared lost. *)
Record AckResult := mk_result { r_bytes : Z; r_packets : Z; r_rtt : Z; r_lost : Z }.
Definition no_result : AckResult := mk_result 0 0 0 0.

Definition OnAck t (peerSlot transferId recvNext : Z) (bitmap : list Z) (now : Z) : AckResult * TransferTable S :=
  let slot := FindOut t peerSlot transferId in
  if slot =? NPOS then (no_result, t)
  else
    let k := ack_transfer slot recvNext bitmap now (load_ack t slot) in
    let t := store_ack t slot k in
    let t := if o_packetCount (k_out k) <=? contiguousAcked (k_out k) then push_finished t (mk_finished slot false Ok) else t in
    (mk_result (freedBytes k) (freedPackets k) (rttSample k) (lostBytes k), t).

(** One sequence a refusal gives up. *)
Definition drop_flight (slot seq : Z) (k : AckState) : AckState :=
  let at_ := slot * TRANSFER_WINDOW + Z.land seq WINDOW_MASK in
  if (k_sentAt k).[at_] =? 0 then k
  else
    let k := k <| k_sentAt := (k_sentAt k).[at_ <- 0] |> in
    let out := k_out k in
    let k := if negb (inFlight out =? 0) then k <| k_out := out <| inFlight := inFlight out - 1 |> |> else k in
    k <| freedBytes := u32 (freedBytes k + WireSizeForSeq (o_length (k_out k)) seq) |>
      <| freedPackets := u32 (freedPackets k + 1) |>.

Definition OnRefused t (peerSlot transferId : Z) : Z * Z * TransferTable S :=
  let slot := FindOut t peerSlot transferId in
  if slot =? NPOS then (0, 0, t)
  else
    let out := (outs t).[slot] in
    if refused out then (0, 0, t)
    else
      let k := for_up (contiguousAcked out) (Z.to_nat (nextSeq out - contiguousAcked out)) (drop_flight slot) (load_ack t slot) in
      let t := store_ack t slot (k <| k_out := (k_out k) <| refused := true |> |>) in
      (freedBytes k, freedPackets k, push_finished t (mk_finished slot false Refused)).

(** *** A peer going away *)

Fixpoint sweep_out (n : nat) (i row : Z) t : option (TransferTable S) :=
  match n with
  | O => Some t
  | Datatypes.S n' =>
      let slot := d_slot (outDir t).[row + i] in
      if slot =? NPOS then sweep_out n' (i + 1) row t
      else
        let t := t <| outDir := (outDir t).[row + i <- free_entry] |> <| outs := (outs t).[slot <- blank_out] |> in
        pool ← al_release (outPool t) slot;
        sweep_out n' (i + 1) row (t <| outPool := pool |>)
  end.
Fixpoint sweep_in (n : nat) (i row : Z) t : option (TransferTable S) :=
  match n with
  | O => Some t
  | Datatypes.S n' =>
      let slot := d_slot (inDir t).[row + i] in
      if slot =? NPOS then sweep_in n' (i + 1) row t
      else
        let t := t <| inDir := (inDir t).[row + i <- free_entry] |> <| ins := (ins t).[slot <- blank_in] |> in
        pool ← al_release (inPool t) slot;
        sweep_in n' (i + 1) row (t <| inPool := pool |>)
  end.

Definition SweepPeer t (peerSlot : Z) : option (TransferTable S) :=
  if maxPeers t <=? peerSlot then Some t
  else
    let row := peerSlot * MAX_PER_PEER in
    t ← (if is_null (outDir t) then Some t else sweep_out (Z.to_nat MAX_PER_PEER) 0 row t);
    if is_null (inDir t) then Some t else sweep_in (Z.to_nat MAX_PER_PEER) 0 row t.
End Definitions.
