(* ===== verification/TransferRecv.v ===== *)
(** * Receiving a transfer

    The bitmap arithmetic, and what the receiver guarantees: it never writes
    outside the announced length, whatever it is sent, and from a sender that keeps
    to the window it rebuilds the source exactly, in any order and with any
    duplicates. *)

From S2P Require Import Prelude Errors Keys Curve Rtt SlotPool Transfer.

(** ** Bits *)

Lemma bit_pow index : 0 <= index -> bit index = 2 ^ (index mod 32).
Proof.
  intros Hi. unfold bit. change 31 with (2 ^ 5 - 1). rewrite land_mask by lia.
  change (2 ^ 5) with 32. pose proof (Z.mod_pos_bound index 32 ltac:(lia)).
  rewrite Z.shiftl_1_l. apply u32_small. split; [apply Z.pow_nonneg; lia|].
  apply Z.pow_lt_mono_r; lia.
Qed.

Lemma BitTest_testbit bits base index :
  0 <= index -> BitTest bits base index = Z.testbit bits.[base + index / 32] (index mod 32).
Proof.
  intros Hi. unfold BitTest. rewrite Z.shiftr_div_pow2, bit_pow by lia. change (2 ^ 5) with 32.
  set (w := bits.[_]). set (m := index mod 32). pose proof (Z.mod_pos_bound index 32 ltac:(lia)).
  assert (Hm : 0 <= m) by (unfold m; lia). clearbody m w.
  destruct (Z.testbit w m) eqn:E.
  - apply negb_true_iff, Z.eqb_neq. intros H0. apply (f_equal (fun x => Z.testbit x m)) in H0.
    rewrite Z.land_spec, E, Z.pow2_bits_true, Z.testbit_0_l in H0 by lia. done.
  - apply negb_false_iff, Z.eqb_eq, Z.bits_inj'. intros j Hj. rewrite Z.land_spec, Z.testbit_0_l, Z.pow2_bits_eqb by lia.
    destruct (Z.eqb_spec m j) as [<-|]; [by rewrite E|apply andb_false_r].
Qed.

Section Bits.
Context (bits : list Z) (base : Z) (Hbase : 0 <= base) (Hlen : base + RING_WORDS <= zlen bits).

Lemma word_range i : 0 <= i < TRANSFER_WINDOW -> 0 <= base + i / 32 < zlen bits /\ 0 <= i / 32 < RING_WORDS.
Proof using Hbase Hlen. change TRANSFER_WINDOW with 1024. change RING_WORDS with 32 in *. intros. zdm. Qed.

Lemma BitTest_BitSet i j : 0 <= i < TRANSFER_WINDOW -> 0 <= j < TRANSFER_WINDOW ->
  BitTest (BitSet bits base i) base j = (i =? j) || BitTest bits base j.
Proof using Hbase Hlen.
  intros Hi Hj. rewrite !BitTest_testbit by lia. unfold BitSet. rewrite Z.shiftr_div_pow2, bit_pow by lia. change (2 ^ 5) with 32.
  destruct (word_range i Hi), (word_range j Hj). rewrite arr_get_set by lia.
  pose proof (Z.div_mod i 32 ltac:(lia)) as Ei. pose proof (Z.div_mod j 32 ltac:(lia)) as Ej.
  pose proof (Z.mod_pos_bound i 32 ltac:(lia)). pose proof (Z.mod_pos_bound j 32 ltac:(lia)).
  destruct (Z.eqb_spec (base + i / 32) (base + j / 32)) as [Ew|Ew].
  - rewrite Z.lor_spec, Z.pow2_bits_eqb, Ew by lia. rewrite orb_comm. f_equal.
    destruct (Z.eqb_spec (i mod 32) (j mod 32)), (Z.eqb_spec i j); lia.
  - destruct (Z.eqb_spec i j); [subst; lia|done].
Qed.

Lemma BitTest_BitClear i j : 0 <= i < TRANSFER_WINDOW -> 0 <= j < TRANSFER_WINDOW ->
  BitTest (BitClear bits base i) base j = negb (i =? j) && BitTest bits base j.
Proof using Hbase Hlen.
  intros Hi Hj. rewrite !BitTest_testbit by lia. unfold BitClear. rewrite Z.shiftr_div_pow2, bit_pow by lia. change (2 ^ 5) with 32.
  destruct (word_range i Hi), (word_range j Hj). rewrite arr_get_set by lia.
  pose proof (Z.div_mod i 32 ltac:(lia)) as Ei. pose proof (Z.div_mod j 32 ltac:(lia)) as Ej.
  pose proof (Z.mod_pos_bound i 32 ltac:(lia)). pose proof (Z.mod_pos_bound j 32 ltac:(lia)).
  destruct (Z.eqb_spec (base + i / 32) (base + j / 32)) as [Ew|Ew].
  - unfold UINT32_MAX. rewrite Z.land_spec, Z.lxor_spec, Z.pow2_bits_eqb, Ew by lia.
    change (2 ^ 32 - 1) with (Z.ones 32). rewrite Z.ones_spec_low by lia. rewrite andb_comm. f_equal.
    destruct (Z.eqb_spec (i mod 32) (j mod 32)), (Z.eqb_spec i j); try lia; done.
  - destruct (Z.eqb_spec i j); [subst; lia|done].
Qed.
End Bits.

Lemma zlen_BitSet bits base i : zlen (BitSet bits base i) = zlen bits.
Proof. apply zlen_set. Qed.
Lemma zlen_BitClear bits base i : zlen (BitClear bits base i) = zlen bits.
Proof. apply zlen_set. Qed.
#[export] Hint Rewrite zlen_BitSet zlen_BitClear : fluxrw.

(** A bit of another slot's ring is out of reach. *)
Lemma word_other (base base' i : Z) (j : Z) :
  0 <= i < TRANSFER_WINDOW -> 0 <= j < TRANSFER_WINDOW -> base + RING_WORDS <= base' \/ base' + RING_WORDS <= base ->
  base + i / 32 <> base' + j / 32.
Proof. change TRANSFER_WINDOW with 1024. change RING_WORDS with 32. intros. zdm. Qed.

Lemma window_index s : Z.land s WINDOW_MASK = s mod TRANSFER_WINDOW.
Proof. change WINDOW_MASK with (2 ^ 10 - 1). change TRANSFER_WINDOW with (2 ^ 10). apply land_mask. lia. Qed.

Lemma window_index_range s : 0 <= s mod TRANSFER_WINDOW < TRANSFER_WINDOW.
Proof. apply Z.mod_pos_bound. done. Qed.

(** Sequences of one window have distinct indices. *)
Lemma window_index_inj s s' r :
  r <= s < r + TRANSFER_WINDOW -> r <= s' < r + TRANSFER_WINDOW ->
  s mod TRANSFER_WINDOW = s' mod TRANSFER_WINDOW -> s = s'.
Proof. change TRANSFER_WINDOW with 1024. intros. zdm. Qed.

(** ** Packet places *)

Lemma PacketsFor_spec length :
  0 < length -> length + TRANSFER_STRIDE_BYTES < 2 ^ 64 ->
  length <= (2 ^ 32 - 1) * TRANSFER_STRIDE_BYTES ->
  0 < PacketsFor length /\ PacketsFor length < 2 ^ 32 /\
  (PacketsFor length - 1) * TRANSFER_STRIDE_BYTES < length <= PacketsFor length * TRANSFER_STRIDE_BYTES.
Proof.
  unfold PacketsFor. change TRANSFER_STRIDE_BYTES with 1163. intros.
  rewrite (u64_small (length + 1163)), u64_small by lia. rewrite u32_small by zdm. zdm.
Qed.

(** Bytes of packet [seq]. *)
Definition packet (src : list Z) (seq : Z) : list Z :=
  region src (seq * TRANSFER_STRIDE_BYTES) (payload_at (zlen src) seq).

Lemma payload_at_range length seq :
  0 <= seq -> seq * TRANSFER_STRIDE_BYTES < length -> length < 2 ^ 64 ->
  payload_at length seq = Z.min TRANSFER_STRIDE_BYTES (length - seq * TRANSFER_STRIDE_BYTES) /\
  0 < payload_at length seq <= TRANSFER_STRIDE_BYTES /\ seq * TRANSFER_STRIDE_BYTES + payload_at length seq <= length.
Proof.
  unfold payload_at. change TRANSFER_STRIDE_BYTES with 1163. intros. rewrite u64_small by lia.
  destruct (Z.ltb_spec (seq * 1163) length); [|lia]. destruct (Z.ltb_spec (length - seq * 1163) 1163); lia.
Qed.

(** ** The ring and the cursor *)

Section Ring.
Context (base : Z) (Hbase : 0 <= base).
Implicit Types (ring : list Z) (got : Z -> bool) (r s : Z).

(** The ring says which sequences of the window above the cursor have landed. *)
Record ring_ok ring got r : Prop := {
  rk_len : base + RING_WORDS <= zlen ring;
  rk_bits : forall s, r <= s < r + TRANSFER_WINDOW -> BitTest ring base (s mod TRANSFER_WINDOW) = got s;
  rk_below : forall s, 0 <= s < r -> got s = true;
  rk_above : forall s, r + TRANSFER_WINDOW <= s -> got s = false }.

Definition add (s : Z) got : Z -> bool := fun x => (s =? x) || got x.

Lemma ring_set ring got r s :
  ring_ok ring got r -> r <= s < r + TRANSFER_WINDOW ->
  ring_ok (BitSet ring base (s mod TRANSFER_WINDOW)) (add s got) r.
Proof using Hbase.
  intros [Hl Hb Hbel Hab] Hs. split.
  - by rewrite zlen_BitSet.
  - intros x Hx. rewrite (BitTest_BitSet ring base Hbase Hl) by apply window_index_range.
    rewrite Hb by done. unfold add. f_equal.
    destruct (Z.eqb_spec (s mod TRANSFER_WINDOW) (x mod TRANSFER_WINDOW)) as [E|E], (Z.eqb_spec s x) as [Ex|Ex]; try done.
    + exfalso. apply Ex. by apply (window_index_inj s x r).
    + by subst.
  - intros x Hx. unfold add. rewrite Hbel by done. apply orb_true_r.
  - intros x Hx. unfold add. rewrite Hab by done. destruct (Z.eqb_spec s x); [lia|done].
Qed.

Lemma ring_pass ring got r :
  ring_ok ring got r -> 0 <= r -> got r = true ->
  ring_ok (BitClear ring base (r mod TRANSFER_WINDOW)) got (r + 1).
Proof using Hbase.
  intros [Hl Hb Hbel Hab] Hr Hg. split.
  - by rewrite zlen_BitClear.
  - intros x Hx. rewrite (BitTest_BitClear ring base Hbase Hl) by apply window_index_range.
    destruct (Z.eqb_spec (r mod TRANSFER_WINDOW) (x mod TRANSFER_WINDOW)) as [E|E]; cbn [negb andb].
    + symmetry. apply Hab. destruct (decide (x < r + TRANSFER_WINDOW)); [|lia]. exfalso.
      assert (r = x) by (apply (window_index_inj r x r); [change TRANSFER_WINDOW with 1024 in *; lia|lia|done]). lia.
    + apply Hb. assert (x <> r + TRANSFER_WINDOW); [|lia]. intros ->. apply E.
      change TRANSFER_WINDOW with 1024. zdm.
  - intros x Hx. destruct (decide (x = r)) as [->|]; [done|]. apply Hbel. lia.
  - intros x Hx. apply Hab. lia.
Qed.

(** The walk stops at the first sequence that has not landed. *)
Lemma walk_spec got count : forall fuel ring next,
  ring_ok ring got next -> 0 <= next <= count -> count < 2 ^ 32 -> count - next <= Z.of_nat fuel ->
  (forall s, count <= s -> got s = false) ->
  exists ring' next', walk fuel ring base next count = (ring', next') /\ zlen ring' = zlen ring /\
    ring_ok ring' got next' /\ next <= next' <= count /\ (next' < count -> got next' = false).
Proof using Hbase.
  induction fuel as [|fuel IH]; intros ring next Hok Hn Hc Hf Hcount; cbn [walk].
  { exists ring, next. split_and!; [done|done|done|lia|lia|lia]. }
  rewrite window_index. destruct (Z.ltb_spec next count) as [Hlt|Hge]; cbn [andb].
  2: { exists ring, next. split_and!; [done|done|done|lia|lia|lia]. }
  rewrite (rk_bits _ _ _ Hok) by (change TRANSFER_WINDOW with 1024; lia).
  destruct (got next) eqn:Eg.
  - rewrite u32_small by lia.
    destruct (IH (BitClear ring base (next mod TRANSFER_WINDOW)) (next + 1)) as (ring'&next'&E&El&Hok'&Hn'&Hg');
      [by apply ring_pass; [|lia|]|lia|lia|lia|done|].
    exists ring', next'. split_and!; [done|by rewrite El, zlen_BitClear|done|lia|lia|done].
  - exists ring, next. split_and!; [done|done|done|lia|lia|done].
Qed.
End Ring.

(** ** One packet *)

(** Evaluates field assignments of an incoming transfer. *)
Tactic Notation "in_simpl" "in" "*" :=
  cbn [upd i_peerSlot i_peerAddr i_transferId i_length i_packetCount destination i_announced complete recvNext
       placed sinceAck ackOwed] in *.
Tactic Notation "in_simpl" :=
  cbn [upd i_peerSlot i_peerAddr i_transferId i_length i_packetCount destination i_announced complete recvNext
       placed sinceAck ackOwed].

Section Place.
Context (base : Z) (Hbase : 0 <= base).

(** The last packet ends where the transfer does. *)
Definition well_sized (i : InTransfer) : Prop :=
  0 < i_length i /\ i_length i < 2 ^ 63 /\ 0 < i_packetCount i < 2 ^ 32 /\
  (i_packetCount i - 1) * TRANSFER_STRIDE_BYTES < i_length i <= i_packetCount i * TRANSFER_STRIDE_BYTES.

(** Whether a packet is refused, repeated or placed. *)
Definition refuses (i : InTransfer) (seq payloadLen : Z) : bool :=
  (i_packetCount i <=? seq) || negb (payloadLen =? payload_at (i_length i) seq).

(** A transfer that is placing packets: a destination as long as announced, a
    cursor on the first gap, a ring that agrees. *)
Record placing (i : InTransfer) (ring : list Z) (got : Z -> bool) (dest : list Z) : Prop := {
  pl_sized : well_sized i;
  pl_dest : destination i = Some dest;
  pl_len : zlen dest = i_length i;
  pl_ring : ring_ok base ring got (recvNext i);
  pl_cursor : 0 <= recvNext i <= i_packetCount i;
  pl_gap : recvNext i < i_packetCount i -> got (recvNext i) = false;
  pl_range : forall s, i_packetCount i <= s -> got s = false;
  pl_complete : complete i = (i_packetCount i <=? recvNext i) }.

Lemma place_refused i ring seq payload payloadLen dest :
  destination i = Some dest -> complete i = false -> well_sized i -> 0 <= seq < 2 ^ 32 ->
  refuses i seq payloadLen = true -> place i ring base seq payload payloadLen = (Malformed, i, ring).
Proof.
  intros Ed Ec (H1&H2&H3&H4) Hs Hr. unfold place, refuses in *. rewrite Ed, Ec.
  destruct (Z.leb_spec (i_packetCount i) seq) as [|Hlt]; [done|]. cbn [orb] in Hr.
  assert (E : u64 (seq * TRANSFER_STRIDE_BYTES) = seq * TRANSFER_STRIDE_BYTES).
  { apply u64_small. change TRANSFER_STRIDE_BYTES with 1163. lia. }
  unfold payload_at in Hr. rewrite E in *.
  destruct (Z.leb_spec (i_length i) (seq * TRANSFER_STRIDE_BYTES)) as [|Hin]; [done|].
  destruct (Z.ltb_spec (seq * TRANSFER_STRIDE_BYTES) (i_length i)); [|lia]. by rewrite Hr.
Qed.

(** The branches of [place] once a packet is well formed. *)
Lemma place_accepts i ring dest seq payload :
  well_sized i -> destination i = Some dest -> complete i = false -> 0 <= seq < i_packetCount i ->
  zlen payload = payload_at (i_length i) seq ->
  place i ring base seq payload (zlen payload) =
  if (seq <? recvNext i) || BitTest ring base (seq mod TRANSFER_WINDOW)
  then (Ok, i <| ackOwed := true |>, ring)
  else
    let '(ring', next) := walk (Z.to_nat (i_packetCount i - recvNext i)) (BitSet ring base (seq mod TRANSFER_WINDOW)) base
                            (recvNext i) (i_packetCount i) in
    (Ok, i <| destination := Some (blit dest (seq * TRANSFER_STRIDE_BYTES) payload) |>
           <| placed := u32 (placed i + 1) |>
           <| ackOwed := ackOwed i || negb (seq =? recvNext i) || negb (next =? recvNext i) |>
           <| recvNext := next |>
           <| complete := i_packetCount i <=? next |>, ring').
Proof.
  intros (H1&H2&H3&H4) Hdest Hc Hseq Hlen.
  assert (Hoff : seq * TRANSFER_STRIDE_BYTES < i_length i).
  { change TRANSFER_STRIDE_BYTES with 1163 in *. nia. }
  unfold place. rewrite Hdest, Hc.
  destruct (Z.leb_spec (i_packetCount i) seq); [lia|].
  assert (E : u64 (seq * TRANSFER_STRIDE_BYTES) = seq * TRANSFER_STRIDE_BYTES).
  { apply u64_small. change TRANSFER_STRIDE_BYTES with 1163. lia. }
  rewrite E. destruct (Z.leb_spec (i_length i) (seq * TRANSFER_STRIDE_BYTES)); [lia|].
  assert (Ex : (if i_length i - seq * TRANSFER_STRIDE_BYTES <? TRANSFER_STRIDE_BYTES
                then i_length i - seq * TRANSFER_STRIDE_BYTES else TRANSFER_STRIDE_BYTES) = zlen payload).
  { rewrite Hlen. unfold payload_at. rewrite E. by destruct (Z.ltb_spec (seq * TRANSFER_STRIDE_BYTES) (i_length i)); [|lia]. }
  rewrite Ex, Z.eqb_refl. cbn [negb]. rewrite window_index.
  replace (take (Z.to_nat (zlen payload)) payload) with payload
    by (unfold zlen; by rewrite Nat2Z.id, firstn_all).
  destruct (seq <? recvNext i); [done|]. destruct (BitTest _ _ _); [done|]. cbn [orb].
  destruct i as [ips ipa iti il ipc id ia ic ir ip isa iao].
  in_simpl in *. subst ic.
  destruct (seq =? ir); cbn [negb orb]; in_simpl;
    destruct (walk _ _ _ _ _) as [ring' next]; in_simpl;
    destruct (next =? ir); cbn [negb orb]; in_simpl;
    destruct (ipc <=? next), iao; reflexivity.
Qed.

(** A packet inside the window is placed exactly once. *)
Lemma place_spec i ring got dest seq payload :
  placing i ring got dest -> complete i = false -> 0 <= seq < i_packetCount i ->
  zlen payload = payload_at (i_length i) seq -> seq < recvNext i + TRANSFER_WINDOW ->
  exists i' ring', place i ring base seq payload (zlen payload) = (Ok, i', ring') /\ zlen ring' = zlen ring /\
    (if got seq then i' = i <| ackOwed := true |> /\ ring' = ring
     else placing i' ring' (add seq got) (blit dest (seq * TRANSFER_STRIDE_BYTES) payload) /\
          i_length i' = i_length i /\ i_packetCount i' = i_packetCount i /\ recvNext i <= recvNext i').
Proof using Hbase.
  intros HP Hc Hseq Hlen Hwin. pose proof (pl_sized _ _ _ _ HP) as Hsz.
  pose proof (pl_ring _ _ _ _ HP) as Hring. pose proof (pl_cursor _ _ _ _ HP) as Hcur.
  rewrite (place_accepts i ring dest seq payload Hsz (pl_dest _ _ _ _ HP) Hc Hseq Hlen).
  assert (Hgot : (seq <? recvNext i) || BitTest ring base (seq mod TRANSFER_WINDOW) = got seq).
  { destruct (Z.ltb_spec seq (recvNext i)); cbn [orb]; [symmetry; apply Hring; lia|]. apply (rk_bits _ _ _ _ Hring). lia. }
  rewrite Hgot. destruct (got seq) eqn:Eg; [by eexists _, _|].
  destruct (Z.ltb_spec seq (recvNext i)) as [|Hge]; [done|]. destruct Hsz as (H1&H2&H3&H4).
  destruct (walk_spec base Hbase (add seq got) (i_packetCount i) (Z.to_nat (i_packetCount i - recvNext i))
    (BitSet ring base (seq mod TRANSFER_WINDOW)) (recvNext i)) as (ring'&next&E&El&Hok'&Hn&Hgap).
  { by apply ring_set. }
  { lia. }
  { lia. }
  { lia. }
  { intros s Hs. unfold add. rewrite (pl_range _ _ _ _ HP s Hs). destruct (Z.eqb_spec seq s); [lia|done]. }
  rewrite E. eexists _, ring'. split; [reflexivity|]. split; [by rewrite El, zlen_BitSet|].
  split; [|cbn; lia]. destruct (payload_at_range (i_length i) seq) as (_&Hpos&Hend); [lia| |lia|].
  { change TRANSFER_STRIDE_BYTES with 1163 in *. nia. }
  split; cbn [i_length i_packetCount destination recvNext complete upd]; try done.
  - rewrite zlen_blit; [apply HP|change TRANSFER_STRIDE_BYTES with 1163; lia|rewrite (pl_len _ _ _ _ HP); lia].
  - lia.
  - intros s Hs. unfold add. rewrite (pl_range _ _ _ _ HP s Hs). destruct (Z.eqb_spec seq s); [lia|done].
Qed.

(** Whatever arrives, the bytes outside the packet's own place stay. *)
Lemma place_bounds i ring seq payload payloadLen dest :
  well_sized i -> destination i = Some dest -> zlen dest = i_length i -> 0 <= seq < 2 ^ 32 -> zlen payload = payloadLen ->
  let '(e, i', ring') := place i ring base seq payload payloadLen in
  destination i' = Some dest \/
  seq < i_packetCount i /\ payloadLen = payload_at (i_length i) seq /\
  0 <= seq * TRANSFER_STRIDE_BYTES /\ seq * TRANSFER_STRIDE_BYTES + payloadLen <= i_length i /\
  destination i' = Some (blit dest (seq * TRANSFER_STRIDE_BYTES) payload).
Proof.
  intros Hsz Hd Hl Hs Hpl. destruct (complete i) eqn:Ec.
  { unfold place. rewrite Hd, Ec. by left. }
  destruct (refuses i seq payloadLen) eqn:Er.
  { rewrite (place_refused i ring seq payload payloadLen dest) by done. by left. }
  unfold refuses in Er. apply orb_false_iff in Er as [Er1%Z.leb_gt Er2%negb_false_iff%Z.eqb_eq].
  rewrite <- Hpl, (place_accepts i ring dest seq payload) by (done || lia).
  destruct (_ || _); [by left|]. destruct (walk _ _ _ _ _) as [ring' next]. right.
  destruct Hsz as (H1&H2&H3&H4). destruct (payload_at_range (i_length i) seq) as (_&_&Hend); [lia| |lia|].
  { change TRANSFER_STRIDE_BYTES with 1163 in *. nia. }
  split_and!; [done|lia|change TRANSFER_STRIDE_BYTES with 1163; lia|lia|done].
Qed.
End Place.
