(* ===== verification/TransferSpec.v ===== *)
(** * What a receiver promises

    The composition of announcement, answer and data: from a sender that keeps to
    the window, packets that arrive in any order and any number of times rebuild
    the source exactly; whatever arrives, a write stays inside the announced
    length; and the two ways a table can be driven past what it was built for. *)

From S2P Require Import Prelude CommonMath Errors Keys Curve Rtt SlotPool Transfer TransferRecv.

(** Evaluates the fields of a table that is written out. *)
Ltac table_simpl :=
  cbv beta iota zeta delta [upd outCount inCount maxPeers maxTransferBytes inPool outPool ins outs inDir outDir placedRing
    ackedRing resentRing sentAtRing finished finishedHead finishedCount fst snd].

(** ** The destination, packet by packet *)

(** Packets that have landed carry the source, the rest of the buffer is as it was. *)
Definition assembled (src before dest : list Z) (count : Z) (got : Z -> bool) : Prop :=
  forall s, 0 <= s < count ->
    region dest (s * TRANSFER_STRIDE_BYTES) (payload_at (zlen src) s) =
    if got s then packet src s else region before (s * TRANSFER_STRIDE_BYTES) (payload_at (zlen src) s).

Section Assembly.
Context (src before : list Z) (count : Z).
Context (Hcount : (count - 1) * TRANSFER_STRIDE_BYTES < zlen src <= count * TRANSFER_STRIDE_BYTES).
Context (Hsize : zlen src < 2 ^ 63).

Lemma place_of s : 0 <= s < count ->
  0 <= s * TRANSFER_STRIDE_BYTES /\
  payload_at (zlen src) s = Z.min TRANSFER_STRIDE_BYTES (zlen src - s * TRANSFER_STRIDE_BYTES) /\
  0 < payload_at (zlen src) s /\ s * TRANSFER_STRIDE_BYTES + payload_at (zlen src) s <= zlen src.
Proof using Hcount Hsize.
  intros Hs. assert (s * TRANSFER_STRIDE_BYTES < zlen src) by (change TRANSFER_STRIDE_BYTES with 1163 in *; nia).
  destruct (payload_at_range (zlen src) s) as (?&?&?); [lia|done|lia|]. change TRANSFER_STRIDE_BYTES with 1163 in *. lia.
Qed.

Lemma zlen_packet s : 0 <= s < count -> zlen (packet src s) = payload_at (zlen src) s.
Proof using Hcount Hsize. intros Hs. destruct (place_of s Hs) as (?&?&?&?). apply zlen_region; lia. Qed.

Lemma assembled_ext dest got got' :
  (forall s, got s = got' s) -> assembled src before dest count got -> assembled src before dest count got'.
Proof. intros He Ha s Hs. rewrite <- He. by apply Ha. Qed.

Lemma assembled_none got : (forall s, got s = false) -> assembled src before before count got.
Proof. intros He s Hs. by rewrite He. Qed.

Lemma assembled_place dest got s :
  zlen dest = zlen src -> 0 <= s < count -> assembled src before dest count got ->
  assembled src before (blit dest (s * TRANSFER_STRIDE_BYTES) (packet src s)) count (add s got).
Proof using Hcount Hsize.
  intros Hl Hs Ha x Hx. unfold add.
  destruct (place_of s Hs) as (Hs0&Hsn&Hsp&Hse). destruct (place_of x Hx) as (Hx0&Hxn&Hxp&Hxe).
  destruct (Z.eqb_spec s x) as [->|Hne]; cbn [orb].
  - rewrite <- (zlen_packet x Hx). apply region_blit_eq; [done|]. rewrite zlen_packet by done. lia.
  - rewrite <- (Ha x Hx). destruct (decide (x < s)).
    + apply region_blit_before; [done|lia| |lia]. change TRANSFER_STRIDE_BYTES with 1163 in *. lia.
    + apply region_blit_after; rewrite ?zlen_packet by done; [done| |lia|lia].
      change TRANSFER_STRIDE_BYTES with 1163 in *. lia.
Qed.

(** Bytes below a run of landed packets are the source's. *)
Lemma assembled_prefix dest got n :
  zlen dest = zlen src -> assembled src before dest count got -> 0 <= n <= zlen src ->
  (forall s, 0 <= s -> s * TRANSFER_STRIDE_BYTES < n -> got s = true) ->
  region dest 0 n = region src 0 n.
Proof using Hcount Hsize.
  intros Hl Ha Hn Hgot. apply arr_ext; rewrite !zlen_region by lia; [done|]. intros b Hb.
  rewrite !region_lookup by lia. rewrite !Z.add_0_l.
  set (s := b / TRANSFER_STRIDE_BYTES).
  assert (Es : s * TRANSFER_STRIDE_BYTES <= b < s * TRANSFER_STRIDE_BYTES + TRANSFER_STRIDE_BYTES)
    by (unfold s; change TRANSFER_STRIDE_BYTES with 1163 in *; zdm).
  assert (Hs : 0 <= s < count) by (change TRANSFER_STRIDE_BYTES with 1163 in *; lia).
  destruct (place_of s Hs) as (Hs0&Hsn&Hsp&Hse). pose proof (Ha s Hs) as E. rewrite Hgot in E by lia.
  replace b with (s * TRANSFER_STRIDE_BYTES + (b - s * TRANSFER_STRIDE_BYTES)) by lia.
  rewrite <- (region_lookup dest _ (payload_at (zlen src) s)) by lia.
  rewrite <- (region_lookup src _ (payload_at (zlen src) s)) by lia. by rewrite E.
Qed.

Lemma assembled_all dest got :
  zlen dest = zlen src -> assembled src before dest count got ->
  (forall s, 0 <= s < count -> got s = true) -> dest = src.
Proof using Hcount Hsize.
  intros Hl Ha Hgot. rewrite <- (region_full dest), Hl.
  transitivity (region src 0 (zlen src)); [|apply region_full].
  apply (assembled_prefix dest got); [done|done|pose proof (zlen_nonneg src); lia|].
  intros s H0 Hs. apply Hgot. change TRANSFER_STRIDE_BYTES with 1163 in *. lia.
Qed.
End Assembly.

(** ** A receiving transfer in its table *)

(** Field by field, what [placing] looks at. *)
Lemma placing_fields base ring got got' dest (i i' : InTransfer) :
  placing base i ring got dest ->
  i_length i' = i_length i -> i_packetCount i' = i_packetCount i -> destination i' = destination i ->
  recvNext i' = recvNext i -> complete i' = complete i -> (forall s, got s = got' s) ->
  placing base i' ring got' dest.
Proof.
  intros [Hs Hd Hl [Hr1 Hr2 Hr3 Hr4] Hc Hg Hrg Hcm] E1 E2 E3 E4 E5 Eg. split.
  - unfold well_sized in *. by rewrite E1, E2.
  - by rewrite E3.
  - by rewrite E1.
  - rewrite E4. split; [done| | |]; intros s Hx; rewrite <- Eg; auto.
  - by rewrite E2, E4.
  - rewrite E2, E4, <- Eg. done.
  - intros s. rewrite E2, <- Eg. auto.
  - by rewrite E5, E2, E4.
Qed.

Section Receive.
Context {S : Type} `{!Allocator S}.
Implicit Types (t : TransferTable S) (src before dest : list Z) (got : Z -> bool).

Definition finished_room t : Z := u32 (outCount t + inCount t).

Record receiving t (peer tid slot : Z) src before dest got (queued : Z) : Prop := {
  rc_find : FindIn t peer tid = slot;
  rc_slot : 0 <= slot < zlen (ins t);
  rc_real : slot <> NPOS;
  rc_place : placing (slot * RING_WORDS) (ins t).[slot] (placedRing t) got dest;
  rc_length : i_length (ins t).[slot] = zlen src;
  rc_bytes : assembled src before dest (i_packetCount (ins t).[slot]) got;
  rc_room : 0 <= queued < finished_room t;
  rc_queued : finishedCount t = queued + (if complete (ins t).[slot] then 1 else 0) }.

Lemma push_finished_fields t e :
  let t' := push_finished t e in
  ins t' = ins t /\ placedRing t' = placedRing t /\ inDir t' = inDir t /\ maxPeers t' = maxPeers t /\
  outCount t' = outCount t /\ inCount t' = inCount t /\
  finishedCount t' = if finishedCount t <? finished_room t then u32 (finishedCount t + 1) else finishedCount t.
Proof. unfold push_finished, finished_room. destruct (_ <? _) eqn:E; cbn; rewrite ?E; by split_and!. Qed.

(** The parts of a packet's run, with the queue entry a completion makes. *)
Lemma OnData_place t peer tid seq payload n slot r i' ring :
  FindIn t peer tid = slot -> slot <> NPOS ->
  place ((ins t).[slot] <| sinceAck := u32 (sinceAck (ins t).[slot] + 1) |>) (placedRing t) (slot * RING_WORDS) seq payload n
    = (r, i', ring) ->
  exists t', OnData t peer tid seq payload n = (r, t') /\
    ins t' = (ins t).[slot <- i'] /\ placedRing t' = ring /\ inDir t' = inDir t /\ maxPeers t' = maxPeers t /\
    finished_room t' = finished_room t /\
    finishedCount t' = if complete i' && negb (complete (ins t).[slot])
                       then if finishedCount t <? finished_room t then u32 (finishedCount t + 1) else finishedCount t
                       else finishedCount t.
Proof.
  intros Ef Hn E. unfold OnData. rewrite Ef. destruct (Z.eqb_spec slot NPOS); [done|]. rewrite E.
  change (complete ((ins t).[slot] <| sinceAck := u32 (sinceAck (ins t).[slot] + 1) |>)) with (complete (ins t).[slot]).
  destruct (complete i' && negb (complete (ins t).[slot])).
  - set (t1 := (t <| ins := _ |>) <| placedRing := ring |>).
    destruct (push_finished_fields t1 (mk_finished slot true Ok)) as (E1&E2&E3&E4&E5&E6&E7).
    eexists. split; [reflexivity|]. rewrite E1, E2, E3, E4, E7. unfold finished_room in *. rewrite E5, E6. by split_and!.
  - eexists. split; [reflexivity|]. by split_and!.
Qed.

(** What a step needs of [place], and what it leaves. *)
Lemma place_step i ring base src before dest got s :
  0 <= base -> placing base i ring got dest -> i_length i = zlen src ->
  assembled src before dest (i_packetCount i) got ->
  0 <= s < i_packetCount i -> s < recvNext i + TRANSFER_WINDOW ->
  exists i' ring' dest', place i ring base s (packet src s) (zlen (packet src s)) = (Ok, i', ring') /\
    placing base i' ring' (add s got) dest' /\ i_length i' = zlen src /\ i_packetCount i' = i_packetCount i /\
    assembled src before dest' (i_packetCount i) (add s got) /\ (complete i = true -> complete i' = true).
Proof.
  intros Hb HP Hlen Ha Hs Hw. destruct (pl_sized _ _ _ _ _ HP) as (H1&H2&H3&H4). rewrite Hlen in H1, H2, H4.
  assert (Hgot : forall x, got s = true -> got x = add s got x).
  { intros x Hg. unfold add. destruct (Z.eqb_spec s x) as [<-|]; [by rewrite Hg|done]. }
  destruct (complete i) eqn:Ec.
  { assert (Hg : got s = true).
    { apply (rk_below _ _ _ _ (pl_ring _ _ _ _ _ HP)). pose proof (pl_complete _ _ _ _ _ HP) as E.
      rewrite Ec in E. symmetry in E. apply Z.leb_le in E. lia. }
    exists i, ring, dest. split; [unfold place; by rewrite (pl_dest _ _ _ _ _ HP), Ec|].
    split; [eapply placing_fields; [exact HP|done..|by auto]|]. split_and!; [done|done| |done].
    apply (assembled_ext src before _ _ got); [by auto|done]. }
  destruct (place_spec base Hb i ring got dest s (packet src s)) as (i'&ring'&E&El&Hcase);
    [done|done|done|by rewrite (zlen_packet src (i_packetCount i)), Hlen|done|].
  destruct (got s) eqn:Eg.
  - destruct Hcase as [-> ->]. exists (i <| ackOwed := true |>), ring, dest. split; [exact E|].
    split; [eapply placing_fields; [exact HP|done..|by auto]|]. split_and!; [done|done| |by cbn; rewrite Ec].
    apply (assembled_ext src before _ _ got); [by auto|done].
  - destruct Hcase as (HP'&E1&E2&_). exists i', ring', (blit dest (s * TRANSFER_STRIDE_BYTES) (packet src s)).
    split_and!; [exact E|exact HP'|by rewrite E1|exact E2| |done].
    apply assembled_place; [done|lia|by rewrite (pl_len _ _ _ _ _ HP)|done|done].
Qed.

Lemma OnData_step t peer tid slot src before dest got q s :
  receiving t peer tid slot src before dest got q ->
  0 <= s < i_packetCount (ins t).[slot] -> s < recvNext (ins t).[slot] + TRANSFER_WINDOW ->
  exists t' dest', OnData t peer tid s (packet src s) (zlen (packet src s)) = (Ok, t') /\
    receiving t' peer tid slot src before dest' (add s got) q /\
    i_packetCount (ins t').[slot] = i_packetCount (ins t).[slot].
Proof.
  intros [Hf Hs Hn HP Hl Ha Hroom Hq] Hseq Hw. set (i := (ins t).[slot]) in *.
  destruct (place_step (i <| sinceAck := u32 (sinceAck i + 1) |>) (placedRing t) (slot * RING_WORDS) src before dest got s)
    as (i'&ring'&dest'&E&HP'&E1&E2&Ha'&Hc'); [change RING_WORDS with 32; lia|by eapply placing_fields|done..|].
  destruct (OnData_place t peer tid s _ _ slot Ok i' ring' Hf Hn E) as (t'&Et&Ei&Er&Ed&Em&Ero&Eq).
  assert (Eslot : (ins t').[slot] = i') by (rewrite Ei; by apply arr_get_set_eq).
  exists t', dest'. split; [done|]. split; [|by rewrite Eslot].
  split; rewrite ?Eslot, ?Er, ?Ero; try done.
  - unfold FindIn in *. by rewrite Ed, Em.
  - by rewrite Ei, zlen_set.
  - by rewrite E2.
  - rewrite Eq, Hq. fold i. change (complete (i <| sinceAck := u32 (sinceAck i + 1) |>)) with (complete i) in Hc'.
    destruct (complete i); [by rewrite Hc'|]. destruct (complete i'); cbn [andb negb]; [|done].
    destruct (Z.ltb_spec (q + 0) (finished_room t)); [|lia].
    pose proof (u32_range (outCount t + inCount t)) as Hr. unfold finished_room in *. rewrite u32_small; lia.
Qed.

(** A sender's packets, delivered one after the other. *)
Fixpoint deliver t (peer tid : Z) src (l : list Z) : list Error * TransferTable S :=
  match l with
  | [] => ([], t)
  | s :: l' =>
      let '(e, t) := OnData t peer tid s (packet src s) (zlen (packet src s)) in
      let '(es, t) := deliver t peer tid src l' in (e :: es, t)
  end.

(** A sender sends [s] only once everything [TRANSFER_WINDOW] below it has landed. *)
Fixpoint windowed (count : Z) (seen l : list Z) : Prop :=
  match l with
  | [] => True
  | s :: l' =>
      0 <= s < count /\ (forall x, 0 <= x -> x + TRANSFER_WINDOW <= s -> x ∈ seen) /\ windowed count (s :: seen) l'
  end.

Definition landed (seen : list Z) : Z -> bool := fun s => bool_decide (s ∈ seen).

Lemma deliver_receiving peer tid slot src before q count : forall l t dest seen,
  receiving t peer tid slot src before dest (landed seen) q -> i_packetCount (ins t).[slot] = count ->
  windowed count seen l ->
  exists t' dest', deliver t peer tid src l = (map (fun _ => Ok) l, t') /\
    receiving t' peer tid slot src before dest' (landed (rev l ++ seen)) q /\ i_packetCount (ins t').[slot] = count.
Proof.
  induction l as [|s l IH]; intros t dest seen HR Hc Hw; [by exists t, dest|].
  cbn [windowed] in Hw. destruct Hw as (Hs&Hwin&Hw). pose proof (rc_place _ _ _ _ _ _ _ _ _ HR) as HP.
  destruct (OnData_step t peer tid slot src before dest (landed seen) q s HR) as (t1&d1&E&HR1&Hc1); [by rewrite Hc| |].
  { destruct (decide (s < recvNext (ins t).[slot] + TRANSFER_WINDOW)); [done|]. exfalso.
    pose proof (pl_cursor _ _ _ _ _ HP) as Hcur. change TRANSFER_WINDOW with 1024 in *.
    pose proof (pl_gap _ _ _ _ _ HP ltac:(lia)) as Hg. unfold landed in Hg. apply bool_decide_eq_false in Hg.
    apply Hg, Hwin; lia. }
  assert (HR2 : receiving t1 peer tid slot src before d1 (landed (s :: seen)) q).
  { assert (Hext : forall x, add s (landed seen) x = landed (s :: seen) x).
    { intros x. unfold add, landed. destruct (Z.eqb_spec s x) as [->|]; [symmetry; apply bool_decide_eq_true; by left|].
      apply bool_decide_ext. rewrite elem_of_cons. split; [by right|by intros [->|?]]. }
    destruct HR1. split; try done; [by eapply placing_fields|by eapply assembled_ext]. }
  destruct (IH t1 d1 (s :: seen) HR2) as (t2&d2&E2&HR3&Hc2); [by rewrite Hc1|done|].
  exists t2, d2. cbn [deliver map rev]. rewrite E, E2, <- app_assoc. by split_and!.
Qed.

(** ** From the announcement on *)

(** The receiving half of a table whose pool is no larger than its rings. *)
Record in_table t (n : Z) (held : list Z) : Prop := {
  it_pool : al_owns (inPool t) n held;
  it_count : 0 < inCount t;
  it_ins : n <= zlen (ins t);
  it_ring : n * RING_WORDS <= zlen (placedRing t);
  it_dir : maxPeers t * MAX_PER_PEER <= zlen (inDir t);
  it_bytes : maxTransferBytes t <= UINT32_MAX * TRANSFER_STRIDE_BYTES }.

Lemma zlen_fill ring base n : 0 <= base -> 0 <= n -> base + n <= zlen ring -> zlen (zero_fill ring base n) = zlen ring.
Proof. intros. unfold zero_fill. apply zlen_blit; [done|]. by rewrite zlen_replicate. Qed.

Lemma BitTest_zero ring base i n : 0 <= base -> 0 <= i < TRANSFER_WINDOW -> base + RING_WORDS <= zlen ring -> n = RING_WORDS ->
  BitTest (zero_fill ring base n) base i = false.
Proof.
  intros Hb Hi Hl ->. rewrite BitTest_testbit by lia.
  assert (Hz : zlen (replicate (Z.to_nat RING_WORDS) 0) = RING_WORDS) by (apply zlen_replicate; done).
  destruct (word_range ring base Hb Hl i Hi) as (?&?). unfold zero_fill.
  rewrite <- (region_lookup _ base RING_WORDS) by (rewrite ?zlen_blit; rewrite ?Hz; lia).
  pose proof (region_blit_eq ring base (replicate (Z.to_nat RING_WORDS) 0)) as E. rewrite Hz in E. rewrite E by lia.
  rewrite arr_get_replicate by lia. apply Z.testbit_0_l.
Qed.

Lemma row_find_new dir row id slot :
  row_find dir row id = NPOS -> row_free dir row <> MAX_PER_PEER -> 0 <= row -> row + MAX_PER_PEER <= zlen dir -> slot <> NPOS ->
  row_find dir.[row + row_free dir row <- mk_dir id slot] row id = slot.
Proof.
  unfold row_find, row_free. intros Hf Hfree Hrow Hlen Hslot.
  destruct (find_up _ _ (fun i => d_slot dir.[row + i] =? NPOS)) as [k|] eqn:Ek; [|done].
  apply find_up_Some in Ek as (Hk&Hkp&_). change (Z.of_nat (Z.to_nat MAX_PER_PEER)) with MAX_PER_PEER in Hk.
  destruct (find_up 0 (Z.to_nat MAX_PER_PEER) (fun i => negb (d_slot dir.[row + i] =? NPOS) && (d_transferId dir.[row + i] =? id)))
    as [x|] eqn:Ex.
  { apply find_up_Some in Ex as (_&Hx&_). rewrite Hf in Hx. by rewrite Z.eqb_refl in Hx. }
  set (dir' := dir.[row + k <- mk_dir id slot]).
  destruct (find_up 0 (Z.to_nat MAX_PER_PEER) (fun i => negb (d_slot dir'.[row + i] =? NPOS) && (d_transferId dir'.[row + i] =? id)))
    as [x|] eqn:En.
  - apply find_up_Some in En as (Hx&Hxp&_). change (Z.of_nat (Z.to_nat MAX_PER_PEER)) with MAX_PER_PEER in Hx.
    cbv beta in Hxp. unfold dir' in *. rewrite arr_get_set in Hxp |- * by lia. destruct (Z.eqb_spec (row + k) (row + x)); [done|].
    pose proof (find_up_None _ _ _ Ex x ltac:(lia)) as Hn. cbv beta in Hn. by rewrite Hn in Hxp.
  - pose proof (find_up_None _ _ _ En k ltac:(lia)) as Hn. cbv beta in Hn.
    unfold dir' in Hn. rewrite arr_get_set_eq in Hn by lia. cbn [d_slot d_transferId] in Hn. rewrite Z.eqb_refl in Hn.
    destruct (Z.eqb_spec slot NPOS); done.
Qed.

(** The first free cell of a row makes its transfer findable. *)
Lemma FindIn_new t t0 peer tid slot :
  FindIn t peer tid = NPOS -> 0 <= peer < maxPeers t -> maxPeers t * MAX_PER_PEER <= zlen (inDir t) -> slot <> NPOS ->
  row_free (inDir t) (peer * MAX_PER_PEER) <> MAX_PER_PEER -> maxPeers t0 = maxPeers t ->
  inDir t0 = (inDir t).[peer * MAX_PER_PEER + row_free (inDir t) (peer * MAX_PER_PEER) <- mk_dir tid slot] ->
  FindIn t0 peer tid = slot.
Proof.
  intros Hnone Hpeer Hd Hreal Hfree E1 E2.
  assert (Hrow : peer * MAX_PER_PEER + MAX_PER_PEER <= zlen (inDir t)) by (change MAX_PER_PEER with 4 in *; lia).
  assert (Hnull : forall d : list DirEntry, zlen d = zlen (inDir t) -> is_null d = false).
  { intros [|] El; [|done]. change (zlen []) with 0 in El. change MAX_PER_PEER with 4 in Hrow. lia. }
  unfold FindIn in *. rewrite E1, E2. rewrite Hnull in Hnone |- * by (rewrite ?zlen_set; done). cbn [orb] in *.
  destruct (Z.leb_spec (maxPeers t) peer); [lia|]. apply row_find_new; [done|done| |done|done].
  change MAX_PER_PEER with 4. lia.
Qed.

Lemma announced_receiving hint t n held peer addr tid src before t1 t2 :
  in_table t n held -> 0 <= peer -> zlen src < 2 ^ 63 -> zlen before = zlen src ->
  0 <= finishedCount t < finished_room t ->
  OnAnnounce hint t peer addr tid (zlen src) TRANSFER_STRIDE_BYTES = Some (Ok, true, t1) ->
  Allow t1 peer tid (Some before) = (Ok, t2) ->
  exists slot, receiving t2 peer tid slot src before before (landed []) (finishedCount t) /\
    i_packetCount (ins t2).[slot] = PacketsFor (zlen src).
Proof.
  intros [Hp Hc Hi Hr Hd Hm] Hpeer H63 Hlen Hroom. unfold OnAnnounce.
  destruct (Z.eqb_spec (inCount t) 0); [done|]. destruct (Z.leb_spec (maxPeers t) peer); [done|].
  rewrite Z.eqb_refl. cbn [negb]. destruct (Z.eqb_spec (zlen src) 0) as [|Hnz]; [done|].
  destruct (Z.ltb_spec (maxTransferBytes t) (zlen src)) as [|Hmax]; [done|].
  destruct (Z.eqb_spec (FindIn t peer tid) NPOS) as [Hnone|]; [|done]. cbn [negb].
  destruct (Z.eqb_spec (row_free (inDir t) (peer * MAX_PER_PEER)) MAX_PER_PEER) as [|Hfree]; [done|].
  pose proof (zlen_nonneg src) as Hpos. unfold UINT32_MAX in Hm.
  destruct (PacketsFor_spec (zlen src)) as (Hk1&Hk2&Hk3); [lia|change TRANSFER_STRIDE_BYTES with 1163; lia|lia|].
  pose proof (al_held (inPool t) n held Hp) as (_&_&_&Hn31).
  destruct (al_acquire_ok (inPool t) n held hint Hp) as [(_&slot&pool&E&_&Hslot&_)|(_&pool&E&_)]; rewrite E; cbn [mbind option_bind];
    [|by rewrite Z.eqb_refl].
  assert (Hreal : slot <> NPOS) by (unfold NPOS, INVALID, UINT32_MAX; lia).
  destruct (Z.eqb_spec slot NPOS); [done|]. intros [= <-]. unfold Allow.
  assert (Hfind : forall t0, maxPeers t0 = maxPeers t ->
    inDir t0 = (inDir t).[peer * MAX_PER_PEER + row_free (inDir t) (peer * MAX_PER_PEER) <- mk_dir tid slot] ->
    FindIn t0 peer tid = slot) by (intros t0; by apply FindIn_new).
  rewrite Hfind by done. destruct (Z.eqb_spec slot NPOS); [done|]. cbn [ins upd].
  rewrite arr_get_set_eq by lia. in_simpl. rewrite bool_decide_eq_false_2 by (intros [? ?]; done). cbn [negb orb].
  intros [= <-]. exists slot.
  assert (Eslot : forall v w, ((ins t).[slot <- v]).[slot <- w].[slot] = w)
    by (intros; apply arr_get_set_eq; rewrite zlen_set; lia).
  split; [|cbn [ins upd]; rewrite Eslot; done].
  split; cbn [ins placedRing upd]; rewrite ?Eslot, ?zlen_set; in_simpl; try done.
  - by apply Hfind.
  - lia.
  - split; in_simpl; try done.
    + unfold well_sized. in_simpl. lia.
    + split; try done.
      * rewrite zlen_fill; change RING_WORDS with 32 in *; lia.
      * intros s Hs. apply BitTest_zero; [change RING_WORDS with 32; lia|apply window_index_range|change RING_WORDS with 32 in *; lia|done].
      * intros; lia.
    + lia.
    + destruct (Z.leb_spec (PacketsFor (zlen src)) 0); [lia|done].
  - cbn [finishedCount]. lia.
Qed.

Lemma receiving_progress t peer tid slot src before dest got q :
  receiving t peer tid slot src before dest got q ->
  zlen dest = zlen src /\ 0 <= Progress t peer tid <= zlen src /\
  region dest 0 (Progress t peer tid) = region src 0 (Progress t peer tid) /\
  (complete (ins t).[slot] = true <-> (forall s, 0 <= s < i_packetCount (ins t).[slot] -> got s = true)) /\
  (complete (ins t).[slot] = true -> dest = src).
Proof.
  intros [Hf Hs Hn HP Hl Ha Hroom Hq]. unfold Progress. rewrite Hf. destruct (Z.eqb_spec slot NPOS); [done|]. cbn [negb].
  set (i := (ins t).[slot]) in *. destruct (pl_sized _ _ _ _ _ HP) as (H1&H2&H3&H4).
  pose proof (pl_len _ _ _ _ _ HP) as Hdl. rewrite Hl in *. pose proof (pl_cursor _ _ _ _ _ HP) as Hcur.
  rewrite (u64_small (recvNext i * _)) by (change TRANSFER_STRIDE_BYTES with 1163; lia).
  set (p := if _ <? _ then _ else _).
  assert (Hp : p = Z.min (zlen src) (recvNext i * TRANSFER_STRIDE_BYTES)) by (unfold p; destruct (Z.ltb_spec (zlen src) (recvNext i * TRANSFER_STRIDE_BYTES)); lia).
  assert (Hbelow : forall s, 0 <= s < recvNext i -> got s = true) by apply (pl_ring _ _ _ _ _ HP).
  assert (Hiff : complete i = true <-> (forall s, 0 <= s < i_packetCount i -> got s = true)).
  { rewrite (pl_complete _ _ _ _ _ HP), Z.leb_le. split; [intros Hc s Hx; apply Hbelow; lia|]. intros Hall.
    destruct (decide (recvNext i < i_packetCount i)) as [Hlt|]; [|lia].
    pose proof (pl_gap _ _ _ _ _ HP Hlt) as Hg. by rewrite Hall in Hg by lia. }
  split_and!; [done|change TRANSFER_STRIDE_BYTES with 1163 in *; lia|change TRANSFER_STRIDE_BYTES with 1163 in *; lia| |done|].
  - apply (assembled_prefix src before (i_packetCount i) H4 H2 dest got); [done|done|change TRANSFER_STRIDE_BYTES with 1163 in *; lia|].
    intros s Hx Hlt. apply Hbelow. change TRANSFER_STRIDE_BYTES with 1163 in *. lia.
  - intros Hc. apply (assembled_all src before (i_packetCount i) H4 H2 dest got); [done|done|by apply Hiff].
Qed.

(** (C20) A transfer is rebuilt.  When an announcement is taken and allowed,
    and the sender's packets arrive in whatever order and as often as they like, each
    sent only once everything a window below it has landed, every packet is answered
    Ok; the buffer holds the source at every packet that came and what it held before
    at every other; the bytes that the progress reports are the source's; the transfer is
    complete exactly when every packet came, the buffer then equals the source, and
    exactly one finished entry was queued for it. *)
Theorem transfer_received (hint : Z) t (n : Z) (held : list Z) (peer : Z) (addr : Address) (tid : Z) src before t1 t2
    (l : list Z) :
  in_table t n held -> 0 <= peer -> zlen src < 2 ^ 63 -> zlen before = zlen src ->
  0 <= finishedCount t < finished_room t ->
  OnAnnounce hint t peer addr tid (zlen src) TRANSFER_STRIDE_BYTES = Some (Ok, true, t1) ->
  Allow t1 peer tid (Some before) = (Ok, t2) ->
  windowed (PacketsFor (zlen src)) [] l ->
  exists t3 dest, deliver t2 peer tid src l = (map (fun _ => Ok) l, t3) /\
    let i := (ins t3).[FindIn t3 peer tid] in
    destination i = Some dest /\ zlen dest = zlen src /\
    (forall s, 0 <= s < PacketsFor (zlen src) ->
       region dest (s * TRANSFER_STRIDE_BYTES) (payload_at (zlen src) s) =
       if bool_decide (s ∈ l) then packet src s else region before (s * TRANSFER_STRIDE_BYTES) (payload_at (zlen src) s)) /\
    region dest 0 (Progress t3 peer tid) = region src 0 (Progress t3 peer tid) /\
    (complete i = true <-> (forall s, 0 <= s < PacketsFor (zlen src) -> s ∈ l)) /\
    (complete i = true -> dest = src) /\
    finishedCount t3 = finishedCount t + (if complete i then 1 else 0).
Proof.
  intros Ht Hpeer H63 Hlen Hroom Ea El Hw.
  destruct (announced_receiving hint t n held peer addr tid src before t1 t2 Ht Hpeer H63 Hlen Hroom Ea El) as (slot&HR&Hc).
  destruct (deliver_receiving peer tid slot src before (finishedCount t) (PacketsFor (zlen src)) l t2 before [] HR Hc Hw)
    as (t3&dest&E&HR3&Hc3).
  exists t3, dest. split; [done|]. rewrite (rc_find _ _ _ _ _ _ _ _ _ HR3). cbv zeta.
  destruct (receiving_progress _ _ _ _ _ _ _ _ _ HR3) as (Hl&_&Hp&Hiff&Hall).
  assert (Hin : forall s, landed (rev l ++ []) s = bool_decide (s ∈ l)).
  { intros s. unfold landed. apply bool_decide_ext. by rewrite app_nil_r, !list_elem_of_In, <- in_rev. }
  split_and!; [apply HR3|done| |done| |done|apply HR3].
  - intros s Hs. rewrite <- Hin. apply HR3. by rewrite Hc3.
  - rewrite Hiff, Hc3. split; intros H s Hs; specialize (H s Hs); rewrite ?Hin in *;
      [by apply bool_decide_eq_true in H|by apply bool_decide_eq_true].
Qed.
End Receive.

(** ** Whatever arrives *)

(** [place] keeps the announced size, and outside the slot's own words the rings. *)
Lemma place_frame i ring base seq payload n :
  let '(e, i', ring') := place i ring base seq payload n in
  i_length i' = i_length i /\ i_packetCount i' = i_packetCount i /\ i_peerSlot i' = i_peerSlot i /\
  i_transferId i' = i_transferId i /\ (destination i = None -> destination i' = None).
Proof.
  destruct i as [ips ipa iti il ipc [dest|] ia ic ir ip isa iao]; unfold place; in_simpl; [|done].
  repeat match goal with |- context [if ?b then (_, _, _) else _] => destruct b; [done|] end.
  destruct (seq =? ir); cbn [negb]; in_simpl; destruct (walk _ _ _ _ _) as [r next]; in_simpl;
    destruct (next =? ir); cbn [negb]; in_simpl; destruct (_ <=? next); in_simpl; done.
Qed.

Lemma land_index s : 0 <= s -> 0 <= Z.shiftr (Z.land s WINDOW_MASK) 5 < RING_WORDS.
Proof.
  intros Hs. rewrite window_index, Z.shiftr_div_pow2 by lia. pose proof (window_index_range s).
  change RING_WORDS with 32. change TRANSFER_WINDOW with 1024 in *. change (2 ^ 5) with 32. zdm.
Qed.

Lemma walk_cursor base count : forall fuel ring next, 0 <= next -> 0 <= (walk fuel ring base next count).2.
Proof.
  induction fuel as [|fuel IH]; intros ring next Hn; cbn [walk]; [done|].
  destruct (_ && _); [|done]. apply IH. pose proof (u32_range (next + 1)). lia.
Qed.

Lemma place_cursor i ring base seq payload n :
  0 <= recvNext i -> 0 <= recvNext (place i ring base seq payload n).1.2.
Proof.
  destruct i as [ips ipa iti il ipc [dest|] ia ic ir ip isa iao]; unfold place; in_simpl; [|done]. intros Hr.
  repeat match goal with |- context [if ?b then (_, _, _) else _] => destruct b; [done|] end.
  destruct (seq =? ir); cbn [negb]; in_simpl;
    match goal with |- context [walk ?f ?r base ?x ?c] => pose proof (walk_cursor base c f r x Hr) as E; destruct (walk f r base x c) as [r' next] end;
    in_simpl; destruct (next =? ir); cbn [negb]; in_simpl; destruct (_ <=? next); done.
Qed.

Section OwnWords.
Context (base w : Z) (Hbase : 0 <= base) (Hw : 0 <= w) (Hout : w < base \/ base + RING_WORDS <= w).

Lemma BitSet_out ring s : 0 <= s -> (BitSet ring base (Z.land s WINDOW_MASK)).[w] = ring.[w].
Proof using Hbase Hw Hout. intros Hs. pose proof (land_index s Hs). unfold BitSet. apply arr_get_set_ne; lia. Qed.
Lemma BitClear_out ring s : 0 <= s -> (BitClear ring base (Z.land s WINDOW_MASK)).[w] = ring.[w].
Proof using Hbase Hw Hout. intros Hs. pose proof (land_index s Hs). unfold BitClear. apply arr_get_set_ne; lia. Qed.

Lemma walk_out count : forall fuel ring next, 0 <= next ->
  (walk fuel ring base next count).1.[w] = ring.[w].
Proof using Hbase Hw Hout.
  induction fuel as [|fuel IH]; intros ring next Hn; cbn [walk]; [done|].
  destruct (_ && _); [|done]. rewrite IH by (pose proof (u32_range (next + 1)); lia). by apply BitClear_out.
Qed.

Lemma place_out i ring seq payload n :
  0 <= seq -> 0 <= recvNext i -> (place i ring base seq payload n).2.[w] = ring.[w].
Proof using Hbase Hw Hout.
  destruct i as [ips ipa iti il ipc [dest|] ia ic ir ip isa iao]; unfold place; in_simpl; [|done]. intros Hs Hr.
  repeat match goal with |- context [if ?b then (_, _, _) else _] => destruct b; [done|] end.
  destruct (seq =? ir); cbn [negb]; in_simpl;
    match goal with |- context [walk ?f ?r base ?x ?c] => pose proof (walk_out c f r x Hr) as E; destruct (walk f r base x c) as [r' next] end;
    cbn [fst snd] in *; rewrite E; by apply BitSet_out.
Qed.
End OwnWords.

Lemma blit_get (b l : list Z) off x :
  0 <= off -> off + zlen l <= zlen b -> 0 <= x < zlen b ->
  (blit b off l).[x] = if (off <=? x) && (x <? off + zlen l) then l.[x - off] else b.[x].
Proof.
  intros Ho Hl Hx. pose proof (zlen_nonneg l). assert (Hlen : zlen (blit b off l) = zlen b) by (apply zlen_blit; lia).
  destruct (Z.leb_spec off x), (Z.ltb_spec x (off + zlen l)); cbn [andb].
  - replace x with (off + (x - off)) at 1 by lia. rewrite <- (region_lookup _ off (zlen l)) by lia.
    by rewrite region_blit_eq by lia.
  - pose proof (region_blit_after b off l x 1 ltac:(lia) ltac:(lia) ltac:(lia) ltac:(lia)) as E.
    apply (f_equal (fun r => r.[0])) in E. rewrite !region_lookup, Z.add_0_r in E by (rewrite ?Hlen; lia). done.
  - pose proof (region_blit_before b off l x 1 ltac:(lia) ltac:(lia) ltac:(lia) ltac:(lia)) as E.
    apply (f_equal (fun r => r.[0])) in E. rewrite !region_lookup, Z.add_0_r in E by (rewrite ?Hlen; lia). done.
  - lia.
Qed.

Section Bounds.
Context {S : Type} `{!Allocator S}.
Implicit Types (t : TransferTable S).

(** A slot whose destination is as long as announced. *)
Definition bounded (i : InTransfer) : Prop :=
  well_sized i /\ 0 <= recvNext i /\ forall dest, destination i = Some dest -> zlen dest = i_length i.

Lemma place_result i ring base seq payload dest :
  well_sized i -> destination i = Some dest -> 0 <= seq < 2 ^ 32 ->
  (place i ring base seq payload (zlen payload)).1.1 = (if negb (complete i) && refuses i seq (zlen payload) then Malformed else Ok).
Proof.
  intros Hs Hd Hseq. destruct (complete i) eqn:Ec; [unfold place; by rewrite Hd, Ec|]. cbn [negb andb].
  destruct (refuses i seq (zlen payload)) eqn:Er; [by rewrite (place_refused base i ring seq payload (zlen payload) dest)|].
  unfold refuses in Er. apply orb_false_iff in Er as [Er1%Z.leb_gt Er2%negb_false_iff%Z.eqb_eq].
  rewrite (place_accepts base i ring dest seq payload) by (done || lia).
  destruct (_ || _); [done|]. by destruct (walk _ _ _ _ _).
Qed.

(** (C36) Whatever a peer sends, [OnData] answers Malformed exactly for a packet of an
    unfinished transfer whose sequence or size does not fit the announced length;
    it changes no byte of the buffer outside the packet's own place, which lies inside the
    announced length, and there only to the packet's bytes; it changes no other
    transfer and no other slot's ring, and the slot stays as it must be for the
    next packet. *)
Theorem OnData_bounds t (peer tid seq : Z) (payload dest : list Z) :
  let slot := FindIn t peer tid in
  let off := seq * TRANSFER_STRIDE_BYTES in
  slot <> NPOS -> 0 <= slot < zlen (ins t) -> bounded (ins t).[slot] -> destination (ins t).[slot] = Some dest ->
  0 <= seq < 2 ^ 32 ->
  let '(e, t') := OnData t peer tid seq payload (zlen payload) in
  e = (if negb (complete (ins t).[slot]) && refuses (ins t).[slot] seq (zlen payload) then Malformed else Ok) /\
  (exists dest', destination (ins t').[slot] = Some dest' /\ zlen dest' = zlen dest /\
     (forall b, 0 <= b < zlen dest -> dest'.[b] <> dest.[b] ->
        off <= b < off + zlen payload /\ off + zlen payload <= i_length (ins t).[slot] /\ dest'.[b] = payload.[b - off]) /\
     (e = Malformed -> dest' = dest)) /\
  (forall s, 0 <= s -> s <> slot -> (ins t').[s] = (ins t).[s]) /\
  (forall w, 0 <= w -> w < slot * RING_WORDS \/ slot * RING_WORDS + RING_WORDS <= w -> (placedRing t').[w] = (placedRing t).[w]) /\
  bounded (ins t').[slot].
Proof.
  intros slot off Hn Hslot (Hsz&Hr&Hlen) Hd Hseq. pose proof (Hlen dest Hd) as Hl. set (i := (ins t).[slot]) in *.
  set (i1 := i <| sinceAck := u32 (sinceAck i + 1) |>). set (base := slot * RING_WORDS).
  pose proof (place_result i1 (placedRing t) base seq payload dest Hsz Hd Hseq) as Hres.
  pose proof (place_bounds base i1 (placedRing t) seq payload (zlen payload) dest Hsz Hd Hl Hseq eq_refl) as Hbnd.
  pose proof (place_frame i1 (placedRing t) base seq payload (zlen payload)) as Hfr.
  assert (Hb0 : 0 <= base) by (unfold base; change RING_WORDS with 32; lia).
  pose proof (fun w H1 H2 => place_out base w Hb0 H1 H2 i1 (placedRing t) seq payload (zlen payload) (proj1 Hseq) Hr) as Hout.
  pose proof (place_cursor i1 (placedRing t) base seq payload (zlen payload) Hr) as Hcur.
  destruct (place i1 (placedRing t) base seq payload (zlen payload)) as [[e i'] ring'] eqn:E. cbn [fst snd] in *.
  destruct (OnData_place t peer tid seq payload (zlen payload) slot e i' ring' eq_refl Hn E) as (t'&Et&Ei&Er&_).
  rewrite Et. assert (Es : (ins t').[slot] = i') by (rewrite Ei; by apply arr_get_set_eq). rewrite Es, Er.
  destruct Hfr as (F1&F2&_). split_and!; [exact Hres| | |exact Hout|].
  - destruct Hbnd as [Hsame|(Hc&Hpl&Ho&Hend&Hblit)].
    + exists dest. by split_and!.
    + change (i_length i1) with (i_length i) in *. fold off in Ho, Hend, Hblit.
      exists (blit dest off payload). split_and!; [done|by apply zlen_blit; lia| |].
      * intros b Hb Hne. rewrite blit_get in Hne |- * by lia.
        destruct (Z.leb_spec off b), (Z.ltb_spec b (off + zlen payload)); cbn [andb] in *; try done.
      * intros ->. exfalso. revert Hres. unfold refuses. change (complete i1) with (complete i).
        destruct (Z.leb_spec (i_packetCount i1) seq); [lia|]. rewrite Hpl, Z.eqb_refl. cbn [negb orb]. by rewrite andb_false_r.
  - intros s Hs Hne. rewrite Ei. apply arr_get_set_ne; lia.
  - split_and!; [unfold well_sized in *; by rewrite F1, F2|done|].
    intros d Ed. rewrite F1. destruct Hbnd as [Hsame|(Hc&Hpl&Ho&Hend&Hblit)]; [by rewrite Hsame in Ed; simplify_eq|].
    rewrite Hblit in Ed. injection Ed as <-. rewrite zlen_blit; [done|done|]. change (i_length i1) with (i_length i) in *. lia.
Qed.
End Bounds.

(** ** A concrete transfer *)

Definition no_table : TransferTable SlotPool :=
  mk_tt (Pool_Init 1 0) (Pool_Init 1 0) [] [] [] [] [] [] [] [] 0 0 0 0 [] 0 0.
Definition pool_slots (n : Z) : Z := sp_capacity (Pool_Init n 0).
Definition init_table (outs_ ins_ peers : Z) : TransferTable SlotPool :=
  (TransferTable_Init (fun n => Pool_Init n 0) pool_slots (mk_params outs_ ins_ peers 0) no_table).2.

Definition sample_table : TransferTable SlotPool := init_table 0 2 1.
Definition sample_src : list Z := replicate (Z.to_nat TRANSFER_STRIDE_BYTES) 5 ++ [6; 7].
Definition sample_buffer : list Z := replicate (Z.to_nat 1165) 0.
Definition sample_announced : TransferTable SlotPool :=
  match OnAnnounce 0 sample_table 0 no_address 7 1165 TRANSFER_STRIDE_BYTES with Some (_, _, t) => t | None => sample_table end.
Definition sample_allowed : TransferTable SlotPool := (Allow sample_announced 0 7 (Some sample_buffer)).2.

Lemma sample_in_table : in_table sample_table 2 [].
Proof.
  split; [|vm_compute; done..]. apply (reach_owns 2 0 1); [vm_compute; done|lia|constructor].
Qed.

Lemma sample_windowed l : Forall (fun s => 0 <= s < 2) l -> forall seen, windowed 2 seen l.
Proof.
  induction 1 as [|s l Hs _ IH]; intros seen; cbn [windowed]; [done|]. split_and!; [lia|lia| |done].
  intros x Hx Hw. change TRANSFER_WINDOW with 1024 in Hw. lia.
Qed.

Lemma transfer_received_witness :
  exists t3 dest, deliver sample_allowed 0 7 sample_src [1; 0; 1] = ([Ok; Ok; Ok], t3) /\
    let i := (ins t3).[FindIn t3 0 7] in
    destination i = Some dest /\ zlen dest = zlen sample_src /\
    (forall s, 0 <= s < PacketsFor (zlen sample_src) ->
       region dest (s * TRANSFER_STRIDE_BYTES) (payload_at (zlen sample_src) s) =
       if bool_decide (s ∈ [1; 0; 1]) then packet sample_src s
       else region sample_buffer (s * TRANSFER_STRIDE_BYTES) (payload_at (zlen sample_src) s)) /\
    region dest 0 (Progress t3 0 7) = region sample_src 0 (Progress t3 0 7) /\
    (complete i = true <-> (forall s, 0 <= s < PacketsFor (zlen sample_src) -> s ∈ [1; 0; 1])) /\
    (complete i = true -> dest = sample_src) /\
    finishedCount t3 = finishedCount sample_table + (if complete i then 1 else 0).
Proof.
  apply (transfer_received 0 sample_table 2 [] 0 no_address 7 sample_src sample_buffer sample_announced sample_allowed [1; 0; 1]).
  - exact sample_in_table.
  - lia.
  - vm_compute. reflexivity.
  - vm_compute. reflexivity.
  - vm_compute. split; [discriminate|reflexivity].
  - vm_compute. reflexivity.
  - vm_compute. reflexivity.
  - apply (sample_windowed [1; 0; 1]). repeat constructor; lia.
Defined.

Lemma OnData_bounds_witness :
  let slot := FindIn sample_allowed 0 7 in
  let '(e, t') := OnData sample_allowed 0 7 1 [8; 9; 10] (zlen [8; 9; 10]) in
  e = (if negb (complete (ins sample_allowed).[slot]) && refuses (ins sample_allowed).[slot] 1 (zlen [8; 9; 10]) then Malformed else Ok) /\
  (exists dest', destination (ins t').[slot] = Some dest' /\ zlen dest' = zlen sample_buffer /\
     (forall b, 0 <= b < zlen sample_buffer -> dest'.[b] <> sample_buffer.[b] ->
        1 * TRANSFER_STRIDE_BYTES <= b < 1 * TRANSFER_STRIDE_BYTES + zlen [8; 9; 10] /\
        1 * TRANSFER_STRIDE_BYTES + zlen [8; 9; 10] <= i_length (ins sample_allowed).[slot] /\
        dest'.[b] = [8; 9; 10].[b - 1 * TRANSFER_STRIDE_BYTES]) /\
     (e = Malformed -> dest' = sample_buffer)) /\
  (forall s, 0 <= s -> s <> slot -> (ins t').[s] = (ins sample_allowed).[s]) /\
  (forall w, 0 <= w -> w < slot * RING_WORDS \/ slot * RING_WORDS + RING_WORDS <= w ->
     (placedRing t').[w] = (placedRing sample_allowed).[w]) /\
  bounded (ins t').[slot].
Proof.
  apply (OnData_bounds sample_allowed 0 7 1 [8; 9; 10] sample_buffer).
  - vm_compute. discriminate.
  - vm_compute. split; [discriminate|reflexivity].
  - split; [vm_compute; split_and!; done|]. split; [vm_compute; discriminate|].
    intros dest E. vm_compute in E. injection E as <-. vm_compute. reflexivity.
  - vm_compute. reflexivity.
  - lia.
Defined.
