(* ===== verification/TransferLimits.v ===== *)
(** * Where the transfer table's bookkeeping gives out

    Three facts about the table as it is written.  Its rings are sized by the
    configured count while its pool rounds that count up to a power of two, so a slot
    may have no ring of its own.  A packet exactly one window above the cursor is
    taken for the packet the cursor waits for.  And a transfer is queued as finished by
    every acknowledgement that finds it complete, not only by the first. *)

From S2P Require Import Prelude CommonMath Errors Keys Curve Rtt SlotPool Transfer TransferAck TransferRecv TransferSpec.

(** ** Rings and slots *)

(** (C40) Each slot the pool of incoming transfers can hand out has its ring inside the
    table's array exactly when the configured count is a power of two. *)
Theorem rings_fit_iff_power_of_two (stride : Z) (params : Params) (t : TransferTable SlotPool) :
  0 < p_inCount params <= 2 ^ 31 -> 0 < p_maxPeers params ->
  let t' := (TransferTable_Init (fun n => Pool_Init n stride) (fun n => sp_capacity (Pool_Init n stride)) params t).2 in
  (forall slot, 0 <= slot < al_capacity (inPool t') -> slot * RING_WORDS + RING_WORDS <= zlen (placedRing t')) <->
  p_inCount params = NextPowerOfTwo (p_inCount params).
Proof.
  destruct params as [o c p b], t as [f1 f2 f3 f4 f5 f6 f7 f8 f9 f10 f11 f12 f13 f14 f15 f16 f17]. cbn [p_inCount p_maxPeers]. intros Hin Hp.
  unfold TransferTable_Init. cbn [p_inCount p_maxPeers p_outCount p_maxTransferBytes].
  destruct (Z.eqb_spec p 0); [lia|].
  table_simpl. destruct (Z.eqb_spec c 0); [lia|]. cbn [negb andb]. rewrite andb_false_r. table_simpl.
  change (al_capacity (Pool_Init c stride)) with (NextPowerOfTwo c).
  rewrite zlen_replicate by (change RING_WORDS with 32; lia).
  assert (Hge : c <= NextPowerOfTwo c).
  { destruct (Z.eqb_spec c 1) as [->|]; [done|]. rewrite NextPowerOfTwo_log2 by lia.
    pose proof (Z.log2_spec (c - 1) ltac:(lia)) as Hl. rewrite <- Z.add_1_r in Hl.
    assert (Z.log2 (c - 1) < 31) by (apply Z.log2_lt_pow2; lia). pose proof (Z.log2_nonneg (c - 1)).
    pose proof (Z.pow_le_mono_r 2 (Z.log2 (c - 1) + 1) 31 ltac:(lia) ltac:(lia)). rewrite u32_small by lia. lia. }
  change RING_WORDS with 32. split; intros H.
  - specialize (H (NextPowerOfTwo c - 1)). lia.
  - rewrite <- H. intros slot Hs. lia.
Qed.

Lemma rings_fit_witness :
  let t := (TransferTable_Init (fun n => Pool_Init n 0) (fun n => sp_capacity (Pool_Init n 0)) (mk_params 0 3 1 0) no_table).2 in
  ~ (forall slot, 0 <= slot < al_capacity (inPool t) -> slot * RING_WORDS + RING_WORDS <= zlen (placedRing t)).
Proof.
  intros t Hall. assert (E : 3 = NextPowerOfTwo 3); [|vm_compute in E; discriminate].
  exact (proj1 (rings_fit_iff_power_of_two 0 (mk_params 0 3 1 0) no_table ltac:(cbn [p_inCount]; lia) ltac:(cbn [p_maxPeers]; lia)) Hall).
Defined.

(** Three incoming transfers configured: the first announcement may take slot 3 and clears
    words past the end of the array. *)
Example announce_overruns_ring :
  match OnAnnounce 3 (init_table 0 3 1) 0 no_address 7 5000 TRANSFER_STRIDE_BYTES with
  | Some (Ok, true, t) => FindIn t 0 7 = 3 /\ zlen (placedRing (init_table 0 3 1)) <= 3 * RING_WORDS
  | _ => False
  end.
Proof. vm_compute. split; [reflexivity|discriminate]. Qed.

(** ** The window *)

Lemma walk_mono base count : count < 2 ^ 32 -> forall fuel ring next, 0 <= next -> next <= (walk fuel ring base next count).2.
Proof.
  intros Hc. induction fuel as [|fuel IH]; intros ring next Hn; cbn [walk]; [cbn; lia|].
  destruct (Z.ltb_spec next count); cbn [andb]; [|cbn; lia]. destruct (BitTest _ _ _); [|cbn; lia].
  rewrite u32_small by lia. pose proof (IH (BitClear ring base (Z.land next WINDOW_MASK)) (next + 1) ltac:(lia)). lia.
Qed.

(** A packet exactly one window above the cursor has the ring bit the cursor
    waits on: the cursor passes a packet that never came, and its place in the buffer
    is as it was. *)
Lemma place_unwindowed base i ring got dest payload :
  0 <= base -> placing base i ring got dest -> complete i = false ->
  let r := recvNext i in
  let s := r + TRANSFER_WINDOW in
  s < i_packetCount i -> zlen payload = payload_at (i_length i) s ->
  exists i' ring' dest', place i ring base s payload (zlen payload) = (Ok, i', ring') /\
    got r = false /\ r < recvNext i' /\ destination i' = Some dest' /\
    region dest' (r * TRANSFER_STRIDE_BYTES) TRANSFER_STRIDE_BYTES = region dest (r * TRANSFER_STRIDE_BYTES) TRANSFER_STRIDE_BYTES.
Proof.
  intros Hb HP Hc r s Hs Hlen. pose proof (pl_cursor _ _ _ _ _ HP) as Hcur. fold r in Hcur.
  pose proof (pl_sized _ _ _ _ _ HP) as Hsz. destruct (Hsz) as (H1&H2&H3&H4).
  assert (Hw : TRANSFER_WINDOW = 1024) by done. assert (Hst : TRANSFER_STRIDE_BYTES = 1163) by done.
  pose proof (pl_gap _ _ _ _ _ HP ltac:(fold r; lia)) as Hg. fold r in Hg.
  rewrite (place_accepts base i ring dest s payload Hsz (pl_dest _ _ _ _ _ HP) Hc ltac:(lia) Hlen). fold r.
  assert (Em : s mod TRANSFER_WINDOW = r mod TRANSFER_WINDOW) by (unfold s; rewrite Hw; zdm).
  pose proof (pl_ring _ _ _ _ _ HP) as Hring. fold r in Hring.
  rewrite Em, (rk_bits _ _ _ _ Hring) by lia. rewrite Hg. destruct (Z.ltb_spec s r); [lia|]. cbn [orb].
  replace (Z.to_nat (i_packetCount i - r)) with (S (Z.to_nat (i_packetCount i - r - 1))) by lia. cbn [walk].
  rewrite window_index. destruct (Z.ltb_spec r (i_packetCount i)); [|lia]. cbn [andb].
  rewrite (BitTest_BitSet ring base Hb (rk_len _ _ _ _ Hring)) by apply window_index_range. rewrite Z.eqb_refl. cbn [orb].
  rewrite u32_small by lia.
  match goal with |- context [walk ?f ?g base ?x ?c] => pose proof (walk_mono base c ltac:(lia) f g x ltac:(lia)) as Hm;
    destruct (walk f g base x c) as [ring' next] end.
  cbn [snd] in Hm. eexists _, ring', (blit dest (s * TRANSFER_STRIDE_BYTES) payload). split; [reflexivity|].
  cbn [recvNext destination upd]. split_and!; [done|lia|done|]. pose proof (pl_len _ _ _ _ _ HP).
  apply region_blit_before; lia.
Qed.

(** ** Finished twice *)

(** A send of one packet whose acknowledgement comes twice before the application drains. *)
Definition ack_twice : option (TransferTable SlotPool) :=
  match BeginSend 0 (init_table 1 1 1) 0 no_address 7 (Some [1; 2; 3]) 3 with
  | Some (Ok, t) =>
      let bitmap := replicate (Z.to_nat TRANSFER_ACK_BITMAP_BYTES) 0 in
      let t := MarkSent t 0 0 1000 in
      let t := (OnAck t 0 7 1 bitmap 2000).2 in
      Some (OnAck t 0 7 1 bitmap 2100).2
  | _ => None
  end.

(** Both acknowledgements queue the slot as finished.  Draining the two entries reports a
    transfer nobody started and releases the slot twice; the next send then waits in
    the pool for a cell that no release will ever publish. *)
Example finished_twice :
  match ack_twice with
  | Some t =>
      finishedCount t = 2 /\
      match DrainFinished t 2 with
      | Some (views, t') =>
          map v_transferId views = [7; 0] /\ map v_length views = [3; 0] /\
          BeginSend 0 t' 0 no_address 8 (Some [1; 2; 3]) 3 = None
      | None => False
      end
  | None => False
  end.
Proof. vm_compute. split_and!; reflexivity. Qed.
