(* ===== verification/TransferSend.v ===== *)
(** * What a sender keeps account of

    [inFlight] is what a transfer holds against its peer's congestion budget, and the
    freed packets an acknowledgement or a refusal reports are what the caller gives
    back.  The stamps are the truth behind both: a packet is outstanding while its ring
    entry carries the time it was sent.  The two agree after any operation, whatever
    the far side sends. *)

From S2P Require Import Prelude Wire CommonMath Errors Keys Curve Rtt SlotPool Transfer TransferAck TransferRecv TransferSpec.

(** ** Counting stamps *)

Definition nz (x : Z) : Z := if x =? 0 then 0 else 1.
Fixpoint count_nz (l : list Z) : Z := match l with [] => 0 | x :: l' => nz x + count_nz l' end.

Lemma nz_range x : 0 <= nz x <= 1.
Proof. unfold nz. by destruct (x =? 0). Qed.

Lemma count_nz_range l : 0 <= count_nz l <= zlen l.
Proof.
  unfold zlen. induction l as [|x l IH]; cbn [count_nz length]; [lia|]. pose proof (nz_range x). lia.
Qed.

Lemma count_nz_set l i v : 0 <= i < zlen l -> count_nz l.[i <- v] = count_nz l - nz l.[i] + nz v.
Proof.
  unfold arr_set, arr_get, zlen. intros Hi. assert (Hn : (Z.to_nat i < length l)%nat) by lia. clear Hi.
  revert Hn. generalize (Z.to_nat i) as n. clear i. induction l as [|x l IH]; intros n Hn; [cbn in Hn; lia|].
  destruct n as [|n]; [cbn; lia|]. specialize (IH n ltac:(cbn in Hn; lia)).
  change (nz x + count_nz (<[n:=v]> l) = nz x + count_nz l - nz (l !!! n) + nz v). lia.
Qed.

Lemma count_nz_zero n : count_nz (replicate n 0) = 0.
Proof. induction n; cbn; [done|]. lia. Qed.

(** Packets of a slot that are on the wire. *)
Definition outstanding (stamps : list Z) (slot : Z) : Z := count_nz (region stamps (slot * TRANSFER_WINDOW) TRANSFER_WINDOW).
Definition stamp_at (slot seq : Z) : Z := slot * TRANSFER_WINDOW + Z.land seq WINDOW_MASK.

Section Stamps.
Context (stamps : list Z) (slot : Z) (Hslot : 0 <= slot) (Hfit : slot * TRANSFER_WINDOW + TRANSFER_WINDOW <= zlen stamps).

Lemma stamp_at_range seq : slot * TRANSFER_WINDOW <= stamp_at slot seq < slot * TRANSFER_WINDOW + TRANSFER_WINDOW.
Proof using Type. unfold stamp_at. rewrite window_index. pose proof (window_index_range seq). lia. Qed.

Lemma outstanding_set seq v :
  outstanding stamps.[stamp_at slot seq <- v] slot = outstanding stamps slot - nz stamps.[stamp_at slot seq] + nz v.
Proof using Hslot Hfit.
  pose proof (stamp_at_range seq) as Hr. unfold outstanding. change TRANSFER_WINDOW with 1024 in *.
  replace (stamp_at slot seq) with (slot * 1024 + (stamp_at slot seq - slot * 1024)) at 1 by lia.
  rewrite region_set_in by lia. rewrite count_nz_set by (rewrite zlen_region; lia).
  rewrite region_lookup by lia. by replace (slot * 1024 + (stamp_at slot seq - slot * 1024)) with (stamp_at slot seq) by lia.
Qed.

Lemma outstanding_set_other slot' seq v :
  0 <= slot' -> slot' <> slot -> slot' * TRANSFER_WINDOW + TRANSFER_WINDOW <= zlen stamps ->
  outstanding stamps.[stamp_at slot seq <- v] slot' = outstanding stamps slot'.
Proof using Hslot Hfit.
  intros Hs Hne Hf. pose proof (stamp_at_range seq) as Hr. unfold outstanding. change TRANSFER_WINDOW with 1024 in *.
  f_equal. apply region_set_out; lia.
Qed.

Lemma outstanding_range : 0 <= outstanding stamps slot <= TRANSFER_WINDOW.
Proof using Hslot Hfit.
  unfold outstanding. pose proof (count_nz_range (region stamps (slot * TRANSFER_WINDOW) TRANSFER_WINDOW)) as H.
  change TRANSFER_WINDOW with 1024 in *. rewrite zlen_region in H by lia. done.
Qed.
End Stamps.

Lemma WireSizeForSeq_range length seq : 0 < WireSizeForSeq length seq <= MAX_WIRE_PACKET_SIZE.
Proof.
  unfold WireSizeForSeq, payload_at. change TRANSFER_STRIDE_BYTES with 1163. change MAX_WIRE_PACKET_SIZE with 1200.
  pose proof (u64_range (seq * 1163)). set (o := u64 _) in *.
  change WIRE_SECURE_HEAD_SIZE with 9. change WIRE_PEER_TAG_SIZE with 4. change WIRE_SECURE_CHANNEL_SIZE with 1.
  change TRANSFER_WIRE_HEADER_SIZE with 7. change WIRE_TAG_SIZE with 16.
  set (r := if o <? length then length - o else 0).
  assert (0 <= r) by (unfold r; destruct (Z.ltb_spec o length); lia).
  destruct (Z.ltb_spec r 1163); rewrite u32_small; lia.
Qed.

(** ** One acknowledgement or refusal *)

(** Evaluates field assignments of an outgoing transfer and of a running acknowledgement. *)
Tactic Notation "out_simpl" "in" "*" :=
  cbn [upd k_out k_sentAt k_acked k_resent freedBytes freedPackets rttSample lostBytes o_peerSlot o_peerAddr o_transferId source
       o_length o_packetCount nextSeq acked o_announced announceAcked announceSentAt refused inFlight contiguousAcked
       highestAcked lossBarrierSeq] in *.
Tactic Notation "out_simpl" :=
  cbn [upd k_out k_sentAt k_acked k_resent freedBytes freedPackets rttSample lostBytes o_peerSlot o_peerAddr o_transferId source
       o_length o_packetCount nextSeq acked o_announced announceAcked announceSentAt refused inFlight contiguousAcked
       highestAcked lossBarrierSeq].

Lemma arr_get_set_any {A} `{Inhabited A} (a : list A) i j v : a.[i <- v].[j] = v \/ a.[i <- v].[j] = a.[j].
Proof.
  unfold arr_get, arr_set. destruct (decide (Z.to_nat i = Z.to_nat j)) as [->|Hne].
  - destruct (decide (Z.to_nat j < length a)%nat); [left; by apply list_lookup_total_insert_eq|].
    right. by rewrite list_insert_ge by lia.
  - right. by apply list_lookup_total_insert_ne.
Qed.

(** What an acknowledgement is made of: resolutions, and assignments that leave these
    alone. *)
Definition same_account (k k' : AckState) : Prop :=
  k_sentAt k' = k_sentAt k /\ inFlight (k_out k') = inFlight (k_out k) /\ freedPackets k' = freedPackets k /\
  freedBytes k' = freedBytes k /\ o_packetCount (k_out k') = o_packetCount (k_out k).

Section Induction.
Context (P : AckState -> Prop) (slot now : Z).
Context (Hres : forall seq k, P k -> P (resolve slot now seq k)) (Hsame : forall k k', P k -> same_account k k' -> P k').

Lemma resolve_bitmap_ind bitmap recvNext : forall n i k, P k -> P (resolve_bitmap n i recvNext slot now bitmap k).
Proof using Hres Hsame.
  induction n as [|n IH]; intros i k Hk; cbn [resolve_bitmap]; [done|].
  destruct (_ =? 0); [by apply IH|]. destruct (_ <=? _); [done|]. apply IH.
  pose proof (Hres (u32 (recvNext + i)) k Hk) as Hr. destruct (_ <? _); [by apply (Hsame _ _ Hr)|done].
Qed.

Lemma ack_transfer_ind recvNext bitmap k : P k -> P (ack_transfer slot recvNext bitmap now k).
Proof using Hres Hsame.
  intros Hk. unfold ack_transfer. generalize (Z.to_nat TRANSFER_WINDOW) as width. intros width.
  set (k1 := k <| k_out := (k_out k) <| announceAcked := true |> |>).
  set (r := if o_packetCount (k_out k1) <? recvNext then o_packetCount (k_out k1) else recvNext).
  set (k2 := for_up _ _ _ k1).
  assert (H2 : P k2).
  { unfold k2. apply (for_up_inv (fun _ => P)); [by apply (Hsame k)|]. intros seq k' _. apply Hres. }
  clearbody k2 r. set (k3 := if contiguousAcked (k_out k2) <? r then _ else k2).
  assert (H3 : P k3) by (unfold k3; destruct (contiguousAcked (k_out k2) <? r); [by apply (Hsame k2)|done]).
  clearbody k3. set (k4 := if highestAcked (k_out k3) <? r then _ else k3).
  assert (H4 : P k4) by (unfold k4; destruct (highestAcked (k_out k3) <? r); [by apply (Hsame k3)|done]).
  clearbody k4. pose proof (resolve_bitmap_ind bitmap r width 0 k4 H4) as H5.
  set (k5 := resolve_bitmap _ _ _ _ _ _ _) in *. clearbody k5.
  destruct (negb (missing_bytes _ _ =? 0)); [by apply (Hsame k5)|done].
Qed.
End Induction.

Section Ack.
Context (slot : Z) (Hslot : 0 <= slot).
Implicit Types k : AckState.

(** Only this slot's stamps change, and only to be cleared. *)
Record ack_frame (st0 : list Z) k : Prop := {
  af_len : zlen (k_sentAt k) = zlen st0;
  af_other : forall i, 0 <= i -> (forall seq, i <> stamp_at slot seq) -> (k_sentAt k).[i] = st0.[i];
  af_cleared : forall i, (k_sentAt k).[i] = st0.[i] \/ (k_sentAt k).[i] = 0 }.

(** What holds while an acknowledgement runs over the stamps [st0] of a transfer that
    had [n0] packets out. *)
Record ack_inv (st0 : list Z) (n0 : Z) k : Prop := {
  ai_frame : ack_frame st0 k;
  ai_flight : inFlight (k_out k) = outstanding (k_sentAt k) slot;
  ai_freed : freedPackets k + inFlight (k_out k) = n0;
  ai_pos : 0 <= freedPackets k;
  ai_bytes : freedPackets k <= freedBytes k <= freedPackets k * MAX_WIRE_PACKET_SIZE }.

Context (st0 : list Z) (n0 : Z) (Hfit : slot * TRANSFER_WINDOW + TRANSFER_WINDOW <= zlen st0) (Hn0 : n0 <= TRANSFER_WINDOW).

Lemma ack_frame_refl k : k_sentAt k = st0 -> ack_frame st0 k.
Proof using Type. intros E. split; rewrite E; auto. Qed.

Lemma ack_frame_same k k' : ack_frame st0 k -> k_sentAt k' = k_sentAt k -> ack_frame st0 k'.
Proof using Type. intros [] E. by split; rewrite ?E. Qed.

Lemma ack_frame_clear k k' seq :
  ack_frame st0 k -> k_sentAt k' = (k_sentAt k).[stamp_at slot seq <- 0] -> ack_frame st0 k'.
Proof using Hslot Hfit.
  intros [Hl Ho Hc] E. pose proof (stamp_at_range slot seq) as Hr. change TRANSFER_WINDOW with 1024 in *. split; rewrite E.
  - by rewrite zlen_set.
  - intros i Hi Hne. rewrite arr_get_set_ne; [by apply Ho|lia|lia|apply not_eq_sym, Hne].
  - intros i. destruct (arr_get_set_any (k_sentAt k) (stamp_at slot seq) i 0) as [-> | ->]; [by right|apply Hc].
Qed.

(** Only the stamps, the count in flight and the two totals matter. *)
Lemma ack_inv_same k k' : ack_inv st0 n0 k -> same_account k k' -> ack_inv st0 n0 k'.
Proof using Type.
  intros [Hf ????] (E1&E2&E3&E4&_). split; [by apply (ack_frame_same k)|rewrite ?E1, ?E2, ?E3, ?E4; done..].
Qed.

(** Clearing one stamp that is set frees one packet. *)
Lemma ack_inv_free k k' seq len :
  ack_inv st0 n0 k -> (k_sentAt k).[stamp_at slot seq] <> 0 -> k_sentAt k' = (k_sentAt k).[stamp_at slot seq <- 0] ->
  inFlight (k_out k') = (if negb (inFlight (k_out k) =? 0) then inFlight (k_out k) - 1 else inFlight (k_out k)) ->
  freedPackets k' = u32 (freedPackets k + 1) -> freedBytes k' = u32 (freedBytes k + WireSizeForSeq len seq) ->
  ack_inv st0 n0 k'.
Proof using Hslot Hfit Hn0.
  intros [Hframe Hf Hfr Hp Hb] Hnz E1 E2 E3 E4. pose proof (af_len _ _ Hframe) as Hl.
  assert (Hfit' : slot * TRANSFER_WINDOW + TRANSFER_WINDOW <= zlen (k_sentAt k)) by (by rewrite Hl).
  pose proof (outstanding_set _ slot Hslot Hfit' seq 0) as Hset. pose proof (stamp_at_range slot seq) as Hr.
  pose proof (outstanding_range (k_sentAt k).[stamp_at slot seq <- 0] slot Hslot) as Hrange. rewrite zlen_set in Hrange.
  specialize (Hrange Hfit'). pose proof (WireSizeForSeq_range len seq) as Hw.
  change TRANSFER_WINDOW with 1024 in *. change MAX_WIRE_PACKET_SIZE with 1200 in *.
  assert (Hnz1 : nz (k_sentAt k).[stamp_at slot seq] = 1) by (unfold nz; by destruct (Z.eqb_spec (k_sentAt k).[stamp_at slot seq] 0)).
  change (nz 0) with 0 in Hset. destruct (Z.eqb_spec (inFlight (k_out k)) 0); cbn [negb] in E2; [lia|].
  rewrite u32_small in E3, E4 by lia.
  split; [by apply (ack_frame_clear k k' seq)|..]; rewrite ?E1, ?E2, ?E3, ?E4; change MAX_WIRE_PACKET_SIZE with 1200; lia.
Qed.

(** A resolution, or a packet given up, clears a stamp that is set and takes its account
    down, or leaves both. *)
Lemma resolve_cases now seq k :
  let k' := resolve slot now seq k in
  if (k_sentAt k).[stamp_at slot seq] =? 0 then same_account k k'
  else k_sentAt k' = (k_sentAt k).[stamp_at slot seq <- 0] /\
    inFlight (k_out k') = (if negb (inFlight (k_out k) =? 0) then inFlight (k_out k) - 1 else inFlight (k_out k)) /\
    freedPackets k' = u32 (freedPackets k + 1) /\ freedBytes k' = u32 (freedBytes k + WireSizeForSeq (o_length (k_out k)) seq).
Proof using Type.
  destruct k as [o st ac re fb fp rt lo]. unfold resolve. fold (stamp_at slot seq). out_simpl.
  destruct (st.[stamp_at slot seq] =? 0); cbn [negb]; [done|].
  destruct (_ && _); [destruct (_ <? RTT_SAMPLE_MAX_MICROS)|]; out_simpl; by destruct (inFlight o =? 0).
Qed.

Lemma drop_flight_cases seq k :
  let k' := drop_flight slot seq k in
  if (k_sentAt k).[stamp_at slot seq] =? 0 then same_account k k'
  else k_sentAt k' = (k_sentAt k).[stamp_at slot seq <- 0] /\
    inFlight (k_out k') = (if negb (inFlight (k_out k) =? 0) then inFlight (k_out k) - 1 else inFlight (k_out k)) /\
    freedPackets k' = u32 (freedPackets k + 1) /\ freedBytes k' = u32 (freedBytes k + WireSizeForSeq (o_length (k_out k)) seq).
Proof using Type.
  destruct k as [o st ac re fb fp rt lo]. unfold drop_flight. fold (stamp_at slot seq). out_simpl.
  destruct (st.[stamp_at slot seq] =? 0); [done|]. out_simpl. by destruct (inFlight o =? 0).
Qed.

Lemma resolve_inv now seq k : ack_inv st0 n0 k -> ack_inv st0 n0 (resolve slot now seq k).
Proof using Hslot Hfit Hn0.
  intros Hk. pose proof (resolve_cases now seq k) as Hc. cbv zeta in Hc.
  destruct (Z.eqb_spec (k_sentAt k).[stamp_at slot seq] 0); [by apply (ack_inv_same k)|].
  destruct Hc as (?&?&?&?). by eapply ack_inv_free.
Qed.

Lemma drop_flight_inv seq k : ack_inv st0 n0 k -> ack_inv st0 n0 (drop_flight slot seq k).
Proof using Hslot Hfit Hn0.
  intros Hk. pose proof (drop_flight_cases seq k) as Hc. cbv zeta in Hc.
  destruct (Z.eqb_spec (k_sentAt k).[stamp_at slot seq] 0); [by apply (ack_inv_same k)|].
  destruct Hc as (?&?&?&?). by eapply ack_inv_free.
Qed.

Lemma resolve_frame now seq k : ack_frame st0 k -> ack_frame st0 (resolve slot now seq k).
Proof using Hslot Hfit.
  intros Hk. pose proof (resolve_cases now seq k) as Hc. cbv zeta in Hc.
  destruct (_ =? 0); destruct Hc as (E&_); [by apply (ack_frame_same k)|by apply (ack_frame_clear k _ seq)].
Qed.

Lemma drop_flight_frame seq k : ack_frame st0 k -> ack_frame st0 (drop_flight slot seq k).
Proof using Hslot Hfit.
  intros Hk. pose proof (drop_flight_cases seq k) as Hc. cbv zeta in Hc.
  destruct (_ =? 0); destruct Hc as (E&_); [by apply (ack_frame_same k)|by apply (ack_frame_clear k _ seq)].
Qed.

Lemma ack_transfer_inv recvNext bitmap now k :
  ack_inv st0 n0 k -> ack_inv st0 n0 (ack_transfer slot recvNext bitmap now k).
Proof using Hslot Hfit Hn0. apply ack_transfer_ind; [intros; by apply resolve_inv|apply ack_inv_same]. Qed.

Lemma ack_transfer_frame recvNext bitmap now k :
  ack_frame st0 k -> ack_frame st0 (ack_transfer slot recvNext bitmap now k).
Proof using Hslot Hfit.
  apply ack_transfer_ind; [intros; by apply resolve_frame|]. intros k0 k' Hk (E&_). by apply (ack_frame_same k0).
Qed.
End Ack.

(** The packet count of a send never changes. *)
Lemma resolve_count slot now seq k : o_packetCount (k_out (resolve slot now seq k)) = o_packetCount (k_out k).
Proof.
  destruct k as [o st ac re fb fp rt lo]. unfold resolve. out_simpl. destruct (negb _); [|done].
  destruct (_ && _); [destruct (_ <? RTT_SAMPLE_MAX_MICROS)|]; out_simpl; by destruct (inFlight o =? 0).
Qed.
Lemma drop_flight_count slot seq k : o_packetCount (k_out (drop_flight slot seq k)) = o_packetCount (k_out k).
Proof.
  destruct k as [o st ac re fb fp rt lo]. unfold drop_flight. out_simpl. destruct (_ =? 0); [done|]. out_simpl. by destruct (inFlight o =? 0).
Qed.

Lemma ack_transfer_count slot recvNext bitmap now k :
  o_packetCount (k_out (ack_transfer slot recvNext bitmap now k)) = o_packetCount (k_out k).
Proof.
  apply (ack_transfer_ind (fun k' => o_packetCount (k_out k') = o_packetCount (k_out k))); [|by intros k0 k' E (_&_&_&_&->)|done].
  intros seq k' <-. apply resolve_count.
Qed.

(** ** The table *)

Section Table.
Context {S : Type} `{!Allocator S}.
Implicit Types (t : TransferTable S).

(** The sending half of a table whose rings cover its slots: every transfer that is
    running counts in [inFlight] the stamps its ring holds. *)
Record sender_ok t : Prop := {
  so_fit : zlen (outs t) * TRANSFER_WINDOW <= zlen (sentAtRing t);
  so_dir : forall c, d_slot (outDir t).[c] = NPOS \/ 0 <= d_slot (outDir t).[c] < zlen (outs t);
  so_account : forall j, 0 <= j < zlen (outs t) -> o_packetCount (outs t).[j] <> 0 ->
    inFlight (outs t).[j] = outstanding (sentAtRing t) j }.

Lemma FindOut_range t peer tid : sender_ok t -> FindOut t peer tid <> NPOS -> 0 <= FindOut t peer tid < zlen (outs t).
Proof.
  intros Hok. unfold FindOut. destruct (_ || _); [done|]. unfold row_find.
  destruct (find_up _ _ _) as [i|]; [|done]. intros Hne. by destruct (so_dir _ Hok (peer * MAX_PER_PEER + i)).
Qed.

(** What an operation may do to the directory and to slots it gives up. *)
Lemma sender_ok_drop t t' s :
  sender_ok t -> outs t' = (outs t).[s <- blank_out] -> sentAtRing t' = sentAtRing t ->
  (forall c, d_slot (outDir t').[c] = NPOS \/ d_slot (outDir t').[c] = d_slot (outDir t).[c]) -> sender_ok t'.
Proof.
  intros [Hf Hd Ha] E1 E2 E3. split; rewrite ?E1, ?E2, ?zlen_set; [done| |].
  - intros c. destruct (E3 c) as [-> | ->]; [by left|apply Hd].
  - intros j Hj. destruct (arr_get_set_any (outs t) s j blank_out) as [-> | ->]; [done|by apply Ha].
Qed.

Lemma sender_ok_same t t' :
  sender_ok t -> outs t' = outs t -> sentAtRing t' = sentAtRing t -> outDir t' = outDir t -> sender_ok t'.
Proof. intros [Hf Hd Ha] E1 E2 E3. split; by rewrite ?E1, ?E2, ?E3. Qed.

(** A slot's packet fits the rings. *)
Lemma slot_fits t s : sender_ok t -> 0 <= s < zlen (outs t) -> s * TRANSFER_WINDOW + TRANSFER_WINDOW <= zlen (sentAtRing t).
Proof. intros [Hf _ _] Hs. change TRANSFER_WINDOW with 1024 in *. nia. Qed.

(** An operation on one slot leaves the account of the others. *)
Lemma sender_ok_slot t t' s o :
  sender_ok t -> 0 <= s < zlen (outs t) -> outs t' = (outs t).[s <- o] -> zlen (sentAtRing t') = zlen (sentAtRing t) ->
  (forall i, 0 <= i -> (forall seq, i <> stamp_at s seq) -> (sentAtRing t').[i] = (sentAtRing t).[i]) ->
  (forall c, d_slot (outDir t').[c] = NPOS \/ 0 <= d_slot (outDir t').[c] < zlen (outs t)) ->
  (o_packetCount o <> 0 -> inFlight o = outstanding (sentAtRing t') s) -> sender_ok t'.
Proof.
  intros Hok Hs E1 E2 E3 E4 Hacc. destruct Hok as [Hf Hd Ha] eqn:E. split; rewrite ?E1, ?E2, ?zlen_set; [done|done|].
  intros j Hj. rewrite arr_get_set by lia. destruct (Z.eqb_spec s j) as [<-|Hne]; [done|]. intros Hl. rewrite Ha by done.
  unfold outstanding. f_equal. apply arr_ext; change TRANSFER_WINDOW with 1024 in *; rewrite !zlen_region by lia; [done|].
  intros i Hi. rewrite !region_lookup by lia. symmetry. apply E3; [lia|]. intros seq.
  pose proof (stamp_at_range s seq) as Hr. change TRANSFER_WINDOW with 1024 in *. lia.
Qed.

Lemma load_ack_inv t s :
  sender_ok t -> 0 <= s < zlen (outs t) -> o_packetCount (outs t).[s] <> 0 ->
  ack_inv s (sentAtRing t) (inFlight (outs t).[s]) (load_ack t s) /\ inFlight (outs t).[s] <= TRANSFER_WINDOW.
Proof.
  intros Hok Hs Hl. pose proof (so_account _ Hok s Hs Hl) as Ha.
  pose proof (outstanding_range (sentAtRing t) s (proj1 Hs) (slot_fits t s Hok Hs)) as Hr.
  split; [|lia]. split; [by apply ack_frame_refl|..]; cbn [load_ack k_sentAt k_out freedPackets freedBytes]; done || lia.
Qed.

Lemma store_ack_ok t s k :
  sender_ok t -> 0 <= s < zlen (outs t) -> ack_frame s (sentAtRing t) k ->
  (o_packetCount (k_out k) <> 0 -> inFlight (k_out k) = outstanding (k_sentAt k) s) -> sender_ok (store_ack t s k).
Proof. intros Hok Hs [Hl Ho _] Ha. by apply (sender_ok_slot t _ s (k_out k) Hok Hs); [..|apply Hok|]. Qed.

(** *** Each operation *)

Lemma push_finished_send t e :
  outs (push_finished t e) = outs t /\ sentAtRing (push_finished t e) = sentAtRing t /\ outDir (push_finished t e) = outDir t.
Proof. unfold push_finished. by destruct (_ <? _). Qed.

Lemma push_finished_ok t e : sender_ok t -> sender_ok (push_finished t e).
Proof. intros Hok. destruct (push_finished_send t e) as (E1&E2&E3). by apply (sender_ok_same t). Qed.

(** An acknowledgement keeps the account and frees what it takes off it. *)
Lemma OnAck_core t peer tid recvNext bitmap now :
  sender_ok t ->
  let '(r, t') := OnAck t peer tid recvNext bitmap now in
  sender_ok t' /\
  (let s := FindOut t peer tid in
   if s =? NPOS then r = no_result /\ t' = t
   else o_packetCount (outs t).[s] <> 0 ->
     r_packets r + inFlight (outs t').[s] = inFlight (outs t).[s] /\ 0 <= r_packets r /\
     r_packets r <= r_bytes r <= r_packets r * MAX_WIRE_PACKET_SIZE).
Proof.
  intros Hok. unfold OnAck. destruct (Z.eqb_spec (FindOut t peer tid) NPOS) as [|Hne]; [done|].
  pose proof (FindOut_range t peer tid Hok Hne) as Hs. set (s := FindOut t peer tid) in *.
  pose proof (slot_fits t s Hok Hs) as Hfit. set (k := ack_transfer _ _ _ _ _).
  assert (Hcount : o_packetCount (k_out k) = o_packetCount (outs t).[s]) by apply ack_transfer_count.
  assert (Hframe : ack_frame s (sentAtRing t) k) by 
    (apply ack_transfer_frame; [lia|done|by apply ack_frame_refl]).
  assert (Hinv : o_packetCount (outs t).[s] <> 0 -> ack_inv s (sentAtRing t) (inFlight (outs t).[s]) k).
  { intros Hl. destruct (load_ack_inv t s Hok Hs Hl). by apply ack_transfer_inv; [lia|..]. }
  clearbody k. assert (Hst : sender_ok (store_ack t s k)).
  { apply store_ack_ok; [done|done|done|]. rewrite Hcount. intros Hl. by apply Hinv. }
  set (t' := if o_packetCount (k_out k) <=? contiguousAcked (k_out k) then _ else store_ack t s k).
  assert (Ht' : sender_ok t' /\ outs t' = outs (store_ack t s k)).
  { unfold t'. destruct (_ <=? _); [|done]. split; [by apply push_finished_ok|apply push_finished_send]. }
  destruct Ht' as (Hok'&Eo). split; [done|]. intros Hl. destruct (Hinv Hl) as [_ _ Hfr Hp Hb]. rewrite Eo.
  cbn [store_ack outs upd r_packets r_bytes]. rewrite arr_get_set_eq by done. lia.
Qed.

Lemma OnRefused_core t peer tid :
  sender_ok t ->
  let '(bytes, packets, t') := OnRefused t peer tid in
  sender_ok t' /\
  (let s := FindOut t peer tid in
   if s =? NPOS then (bytes, packets) = (0, 0) /\ t' = t
   else o_packetCount (outs t).[s] <> 0 ->
     packets + inFlight (outs t').[s] = inFlight (outs t).[s] /\ 0 <= packets /\
     packets <= bytes <= packets * MAX_WIRE_PACKET_SIZE).
Proof.
  intros Hok. unfold OnRefused. destruct (Z.eqb_spec (FindOut t peer tid) NPOS) as [|Hne]; [done|].
  pose proof (FindOut_range t peer tid Hok Hne) as Hs. set (s := FindOut t peer tid) in *.
  pose proof (slot_fits t s Hok Hs) as Hfit. destruct (refused (outs t).[s]); [split; [done|]; lia|].
  set (k := for_up _ _ (drop_flight s) _).
  assert (Hcount : o_packetCount (k_out k) = o_packetCount (outs t).[s]).
  { unfold k. apply (for_up_inv (fun _ k => o_packetCount (k_out k) = o_packetCount (outs t).[s])); [done|].
    intros seq k' _ <-. apply drop_flight_count. }
  assert (Hframe : ack_frame s (sentAtRing t) k).
  { unfold k. apply (for_up_inv (fun _ => ack_frame s (sentAtRing t))); [by apply ack_frame_refl|].
    intros seq k' _. apply drop_flight_frame; [lia|done]. }
  assert (Hinv : o_packetCount (outs t).[s] <> 0 -> ack_inv s (sentAtRing t) (inFlight (outs t).[s]) k).
  { intros Hl. destruct (load_ack_inv t s Hok Hs Hl). unfold k. apply (for_up_inv (fun _ => ack_inv _ _ _)); [done|].
    intros seq k' _. by apply drop_flight_inv; [lia|..]. }
  clearbody k. set (k' := k <| k_out := (k_out k) <| refused := true |> |>).
  assert (Hst : sender_ok (store_ack t s k')).
  { apply store_ack_ok; [done|done|by apply (ack_frame_same _ _ k)|]. change (o_packetCount (k_out k')) with (o_packetCount (k_out k)).
    rewrite Hcount. intros Hl. change (inFlight (k_out k')) with (inFlight (k_out k)). by apply Hinv. }
  split; [by apply push_finished_ok|]. intros Hl. destruct (Hinv Hl) as [_ _ Hfr Hp Hb].
  destruct (push_finished_send (store_ack t s k') (mk_finished s false Refused)) as (->&_).
  cbn [store_ack outs upd]. rewrite arr_get_set_eq by done. change (inFlight (k_out k')) with (inFlight (k_out k)). lia.
Qed.

Lemma MarkSent_core t s seq now :
  sender_ok t -> 0 <= s < zlen (outs t) -> 0 < now -> sender_ok (MarkSent t s seq now).
Proof.
  intros Hok Hs Hnow. pose proof (slot_fits t s Hok Hs) as Hfit. unfold MarkSent. fold (stamp_at s seq).
  pose proof (stamp_at_range s seq) as Hr. pose proof (outstanding_set (sentAtRing t) s (proj1 Hs) Hfit seq now) as Hset.
  pose proof (outstanding_range (sentAtRing t).[stamp_at s seq <- now] s (proj1 Hs)) as Hrange. rewrite zlen_set in Hrange.
  specialize (Hrange Hfit). assert (Hnz : nz now = 1) by (unfold nz; destruct (Z.eqb_spec now 0); lia).
  set (o := (outs t).[s]) in *. change TRANSFER_WINDOW with 1024 in *.
  apply (sender_ok_slot t _ s (if (sentAtRing t).[stamp_at s seq] =? 0 then o <| inFlight := u32 (inFlight o + 1) |> else o) Hok Hs).
  - destruct (_ =? 0); cbn [outs upd]; [done|]. symmetry. by apply arr_set_get_id.
  - destruct (_ =? 0); cbn [sentAtRing upd]; apply zlen_set.
  - intros i Hi Hne. destruct (_ =? 0); cbn [sentAtRing upd]; apply arr_get_set_ne; lia || apply not_eq_sym, Hne.
  - intros c. destruct (_ =? 0); cbn [outDir upd]; apply Hok.
  - intros Hl. assert (Ha : inFlight o = outstanding (sentAtRing t) s).
    { apply Hok; [done|]. revert Hl. fold o. by destruct (_ =? 0). }
    unfold nz in Hset at 1. destruct ((sentAtRing t).[stamp_at s seq] =? 0); cbn [sentAtRing upd inFlight]; rewrite Hset; [|lia].
    rewrite Ha, u32_small; lia.
Qed.

Lemma outstanding_cleared stamps s :
  0 <= s -> s * TRANSFER_WINDOW + TRANSFER_WINDOW <= zlen stamps ->
  outstanding (zero_fill stamps (s * TRANSFER_WINDOW) TRANSFER_WINDOW) s = 0.
Proof.
  intros Hs Hf. unfold outstanding, zero_fill.
  assert (Hz : zlen (replicate (Z.to_nat TRANSFER_WINDOW) 0) = TRANSFER_WINDOW) by (apply zlen_replicate; done).
  pose proof (region_blit_eq stamps (s * TRANSFER_WINDOW) (replicate (Z.to_nat TRANSFER_WINDOW) 0)) as E. rewrite Hz in E.
  rewrite E; [apply count_nz_zero|change TRANSFER_WINDOW with 1024; lia|done].
Qed.

(** The slot the pool hands out is one the rings cover. *)
Definition acquires_in_range (hint : Z) t : Prop :=
  forall s p, al_acquire hint (outPool t) = Some (s, p) -> s = NPOS \/ 0 <= s < zlen (outs t).

Lemma BeginSend_core hint t peer addr tid buffer length e t' :
  sender_ok t -> acquires_in_range hint t ->
  BeginSend hint t peer addr tid buffer length = Some (e, t') -> sender_ok t'.
Proof.
  intros Hok Hacq. unfold BeginSend.
  destruct (_ =? 0); [by intros [= _ <-]|]. destruct buffer as [bytes|]; [|by intros [= _ <-]].
  do 6 (destruct (_ : bool); [by intros [= _ <-]|]). destruct (_ =? MAX_PER_PEER); [by intros [= _ <-]|].
  destruct (al_acquire hint (outPool t)) as [[s pool]|] eqn:E; cbn [mbind option_bind]; [|done].
  destruct (Z.eqb_spec s NPOS) as [|Hne]; [intros [= _ <-]; by apply (sender_ok_same t)|].
  destruct (Hacq s pool E) as [|Hs]; [done|]. intros [= _ <-]. pose proof (slot_fits t s Hok Hs) as Hfit.
  assert (Hlen : zlen (zero_fill (sentAtRing t) (s * TRANSFER_WINDOW) TRANSFER_WINDOW) = zlen (sentAtRing t))
    by (apply zlen_fill; change TRANSFER_WINDOW with 1024 in *; lia).
  eapply (sender_ok_slot t _ s _ Hok Hs); cbn [outs sentAtRing outDir upd]; [reflexivity|done| | |].
  - intros i Hi Hne'. unfold zero_fill.
    assert (Hz : zlen (replicate (Z.to_nat TRANSFER_WINDOW) 0) = TRANSFER_WINDOW) by (apply zlen_replicate; done).
    destruct (decide (i < zlen (sentAtRing t))).
    + rewrite blit_get; rewrite ?Hz; [|change TRANSFER_WINDOW with 1024 in *; lia..].
      destruct (Z.leb_spec (s * TRANSFER_WINDOW) i), (Z.ltb_spec i (s * TRANSFER_WINDOW + TRANSFER_WINDOW)); cbn [andb]; try done.
      destruct (Hne' (i - s * TRANSFER_WINDOW)). unfold stamp_at. rewrite window_index, Z.mod_small by lia. lia.
    + unfold arr_get. rewrite !list_lookup_total_alt, !lookup_ge_None_2; [done|unfold zlen in *; lia|].
      fold (zero_fill (sentAtRing t) (s * TRANSFER_WINDOW) TRANSFER_WINDOW). unfold zlen in *; lia.
  - intros c. destruct (arr_get_set_any (outDir t) (peer * MAX_PER_PEER + row_free (outDir t) (peer * MAX_PER_PEER)) c (mk_dir tid s))
      as [-> | ->]; [by right|apply Hok].
  - intros _. by rewrite outstanding_cleared by lia.
Qed.

Lemma row_drop_dir dir row slot c :
  d_slot (row_drop dir row slot).[c] = NPOS \/ d_slot (row_drop dir row slot).[c] = d_slot dir.[c].
Proof.
  unfold row_drop. apply (for_up_inv (fun _ d => d_slot d.[c] = NPOS \/ d_slot d.[c] = d_slot dir.[c])); [by right|].
  intros i d _ Hd. destruct (_ =? slot); [|done].
  by destruct (arr_get_set_any d (row + i) c free_entry) as [-> | ->]; [left|].
Qed.

Lemma drain_one_ok t v t' : sender_ok t -> drain_one t = Some (v, t') -> sender_ok t'.
Proof.
  intros Hok. unfold drain_one. set (t1 := (t <| finishedHead := _ |>) <| finishedCount := _ |>).
  destruct (f_incoming _); [intros [= _ <-]; by apply (sender_ok_same t)|].
  set (e := (finished t).[finishedHead t]). set (t2 := t1 <| outs := _ |>).
  set (t3 := if (_ <? _) && _ then _ else t2).
  assert (H3 : sender_ok t3).
  { apply (sender_ok_drop t _ (f_slot e) Hok); unfold t3; destruct (_ && _); try done.
    - intros c. apply row_drop_dir.
    - intros c. by right. }
  clearbody t3. destruct (al_release _ _) as [pool|]; cbn [mbind option_bind]; [|done]. intros [= _ <-]. by apply (sender_ok_same t3).
Qed.

Lemma drain_loop_ok room : forall fuel t out vs t', sender_ok t -> drain_loop fuel t room out = Some (vs, t') -> sender_ok t'.
Proof.
  induction fuel as [|fuel IH]; intros t out vs t' Hok; cbn [drain_loop]; [by intros [= _ <-]|].
  destruct (_ && _); [|by intros [= _ <-]]. destruct (drain_one t) as [[v t1]|] eqn:E; cbn [mbind option_bind]; [|done].
  apply IH. by apply (drain_one_ok t v).
Qed.

Lemma sweep_out_ok row : forall n i t t', sender_ok t -> sweep_out n i row t = Some t' -> sender_ok t'.
Proof.
  induction n as [|n IH]; intros i t t' Hok; cbn [sweep_out]; [by intros [= <-]|].
  destruct (_ =? NPOS); [by apply IH|]. set (s := d_slot _). set (t1 := (t <| outDir := _ |>) <| outs := _ |>).
  assert (H1 : sender_ok t1).
  { apply (sender_ok_drop t _ s Hok); try done. intros c. unfold t1. cbn [outDir upd].
    destruct (arr_get_set_any (outDir t) (row + i) c free_entry) as [-> | ->]; [by left|by right]. }
  destruct (al_release _ _) as [pool|]; cbn [mbind option_bind]; [|done]. apply IH. by apply (sender_ok_same t1).
Qed.

Lemma sweep_in_ok row : forall n i t t', sender_ok t -> sweep_in n i row t = Some t' -> sender_ok t'.
Proof.
  induction n as [|n IH]; intros i t t' Hok; cbn [sweep_in]; [by intros [= <-]|].
  destruct (_ =? NPOS); [by apply IH|].
  destruct (al_release _ _) as [pool|]; cbn [mbind option_bind]; [|done]. apply IH. by apply (sender_ok_same t).
Qed.

Lemma SweepPeer_ok t peer t' : sender_ok t -> SweepPeer t peer = Some t' -> sender_ok t'.
Proof.
  intros Hok. unfold SweepPeer. destruct (_ <=? peer); [by intros [= <-]|].
  destruct (if is_null (outDir t) then _ else _) as [t1|] eqn:E; cbn [mbind option_bind]; [|done].
  assert (H1 : sender_ok t1) by (destruct (is_null (outDir t)); [by injection E as <-|by eapply sweep_out_ok]).
  destruct (is_null (inDir t1)); [by intros [= <-]|by apply sweep_in_ok].
Qed.

(** *** The receiving half leaves the account alone *)

Definition same_sends t t' : Prop := outs t' = outs t /\ sentAtRing t' = sentAtRing t /\ outDir t' = outDir t.

Lemma drop_in_sends t peer s t' : drop_in t peer s = Some t' -> same_sends t t'.
Proof. unfold drop_in. destruct (al_release _ _); cbn [mbind option_bind]; [by intros [= <-]|done]. Qed.

Lemma OnData_sends t peer tid seq payload n : same_sends t (OnData t peer tid seq payload n).2.
Proof.
  unfold OnData. destruct (_ =? NPOS); [done|]. destruct (place _ _ _ _ _ _) as [[r i'] ring]. cbn [snd].
  destruct (_ && _); [|done]. unfold same_sends.
  by match goal with |- context [push_finished ?x ?e] => destruct (push_finished_send x e) as (->&->&->) end.
Qed.

Lemma Allow_sends t peer tid buffer : same_sends t (Allow t peer tid buffer).2.
Proof. unfold Allow. destruct buffer; [|done]. destruct (_ =? NPOS); [done|]. by destruct (_ || _). Qed.

Lemma OnAnnounce_sends hint t peer addr tid length stride e new t' :
  OnAnnounce hint t peer addr tid length stride = Some (e, new, t') -> same_sends t t'.
Proof.
  unfold OnAnnounce. cbv zeta. repeat match goal with |- (if ?b then Some _ else _) = _ -> _ => destruct b; [by intros [= _ _ <-]|] end.
  destruct (al_acquire _ _) as [[s pool]|]; cbn [mbind option_bind]; [|done].
  destruct (_ =? NPOS); by intros [= _ _ <-].
Qed.

Lemma Reject_sends t peer tid e t' : Reject t peer tid = Some (e, t') -> same_sends t t'.
Proof.
  unfold Reject. destruct (_ =? NPOS); [by intros [= _ <-]|].
  destruct (drop_in _ _ _) as [t1|] eqn:E; cbn [mbind option_bind]; [|done]. intros [= _ <-]. by eapply drop_in_sends.
Qed.

Lemma Complete_sends t peer tid e t' : Complete t peer tid = Some (e, t') -> same_sends t t'.
Proof.
  unfold Complete. destruct (_ =? NPOS); [by intros [= _ <-]|]. destruct (negb _); [by intros [= _ <-]|].
  destruct (drop_in _ _ _) as [t1|] eqn:E; cbn [mbind option_bind]; [|done]. intros [= _ <-]. by eapply drop_in_sends.
Qed.

Lemma same_sends_ok t t' : sender_ok t -> same_sends t t' -> sender_ok t'.
Proof. intros Hok (E1&E2&E3). by apply (sender_ok_same t). Qed.

Lemma Init_ok mkPool slots params t :
  0 < p_outCount params -> slots (p_outCount params) = p_outCount params -> p_maxPeers params <> 0 ->
  sender_ok (TransferTable_Init mkPool slots params t).2.
Proof.
  destruct params as [o c p b], t as [f1 f2 f3 f4 f5 f6 f7 f8 f9 f10 f11 f12 f13 f14 f15 f16 f17].
  cbn [p_outCount p_maxPeers]. intros Ho Hsl Hp.
  unfold TransferTable_Init. cbn [p_inCount p_maxPeers p_outCount p_maxTransferBytes].
  destruct (Z.eqb_spec p 0); [done|]. table_simpl. destruct (Z.eqb_spec o 0); [lia|]. cbn [negb andb]. table_simpl.
  split; table_simpl; rewrite ?Hsl.
  - rewrite !zlen_replicate by (change TRANSFER_WINDOW with 1024; lia). done.
  - intros i. left. unfold arr_get. destruct (decide (Z.to_nat i < Z.to_nat (p * MAX_PER_PEER))%nat).
    + by rewrite lookup_total_replicate_2.
    + rewrite list_lookup_total_alt, lookup_ge_None_2 by (rewrite length_replicate; lia). done.
  - rewrite zlen_replicate by lia. intros j Hj. by rewrite arr_get_replicate by done.
Qed.

(** *** Any history *)

(** Everything the socket does with the table.  The send pass changes a transfer's own
    fields besides marking packets sent; what it leaves alone are the account and the
    packet count. *)
Inductive send_reach : TransferTable S -> Prop :=
| sr_init mkPool slots params t : 0 < p_outCount params -> slots (p_outCount params) = p_outCount params ->
    p_maxPeers params <> 0 -> send_reach (TransferTable_Init mkPool slots params t).2
| sr_begin hint t peer addr tid buffer length e t' : send_reach t -> acquires_in_range hint t ->
    BeginSend hint t peer addr tid buffer length = Some (e, t') -> send_reach t'
| sr_pass t s o : send_reach t -> 0 <= s < zlen (outs t) -> inFlight o = inFlight (outs t).[s] ->
    o_packetCount o = o_packetCount (outs t).[s] -> send_reach (t <| outs := (outs t).[s <- o] |>)
| sr_mark t s seq now : send_reach t -> 0 <= s < zlen (outs t) -> 0 < now -> send_reach (MarkSent t s seq now)
| sr_ack t peer tid recvNext bitmap now : send_reach t -> send_reach (OnAck t peer tid recvNext bitmap now).2
| sr_refused t peer tid : send_reach t -> send_reach (OnRefused t peer tid).2
| sr_drain t max vs t' : send_reach t -> DrainFinished t max = Some (vs, t') -> send_reach t'
| sr_sweep t peer t' : send_reach t -> SweepPeer t peer = Some t' -> send_reach t'
| sr_announce hint t peer addr tid length stride e new t' : send_reach t ->
    OnAnnounce hint t peer addr tid length stride = Some (e, new, t') -> send_reach t'
| sr_allow t peer tid buffer : send_reach t -> send_reach (Allow t peer tid buffer).2
| sr_data t peer tid seq payload n : send_reach t -> send_reach (OnData t peer tid seq payload n).2
| sr_reject t peer tid e t' : send_reach t -> Reject t peer tid = Some (e, t') -> send_reach t'
| sr_complete t peer tid e t' : send_reach t -> Complete t peer tid = Some (e, t') -> send_reach t'.

Lemma send_reach_ok t : send_reach t -> sender_ok t.
Proof.
  induction 1 as [mkPool slots params t Ho Hsl Hp|hint t peer addr tid buffer length e t' _ IH Hacq E|t s o _ IH Hs E1 E2
    |t s seq now _ IH Hs Hnow|t peer tid recvNext bitmap now _ IH|t peer tid _ IH|t max vs t' _ IH E|t peer t' _ IH E
    |hint t peer addr tid length stride e new t' _ IH E|t peer tid buffer _ IH|t peer tid seq payload n _ IH
    |t peer tid e t' _ IH E|t peer tid e t' _ IH E].
  - by apply Init_ok.
  - by eapply BeginSend_core.
  - apply (sender_ok_slot t _ s o IH Hs); try done; [apply IH|]. rewrite E1, E2. by apply IH.
  - by apply MarkSent_core.
  - pose proof (OnAck_core t peer tid recvNext bitmap now IH) as H. destruct (OnAck _ _ _ _ _ _). apply H.
  - pose proof (OnRefused_core t peer tid IH) as H. destruct (OnRefused _ _ _) as [[bytes packets] t']. apply H.
  - unfold DrainFinished in E. destruct (_ || _); [by injection E as _ <-|by eapply drain_loop_ok].
  - by eapply SweepPeer_ok.
  - by eapply same_sends_ok, OnAnnounce_sends.
  - by eapply same_sends_ok, Allow_sends.
  - by eapply same_sends_ok, OnData_sends.
  - by eapply same_sends_ok, Reject_sends.
  - by eapply same_sends_ok, Complete_sends.
Qed.

(** (C25) After any history of sends, acknowledgements, refusals, drains and sweeps, whatever
    cursors and bitmaps the far sides sent, the packets a running transfer counts in
    flight are exactly its set stamps, at most one window of them; and what an
    acknowledgement or a refusal reports as freed is exactly what it takes off that
    count, at no more than a full wire packet each. *)
Theorem in_flight_accounted t (peer tid recvNext : Z) (bitmap : list Z) (now : Z) :
  send_reach t ->
  (forall s, 0 <= s < zlen (outs t) -> o_packetCount (outs t).[s] <> 0 ->
     inFlight (outs t).[s] = outstanding (sentAtRing t) s /\ 0 <= inFlight (outs t).[s] <= TRANSFER_WINDOW) /\
  (let s := FindOut t peer tid in
   s <> NPOS -> o_packetCount (outs t).[s] <> 0 ->
   (let '(r, t') := OnAck t peer tid recvNext bitmap now in
    inFlight (outs t').[s] = inFlight (outs t).[s] - r_packets r /\ 0 <= r_packets r /\
    r_packets r <= r_bytes r <= r_packets r * MAX_WIRE_PACKET_SIZE) /\
   (let '(bytes, packets, t') := OnRefused t peer tid in
    inFlight (outs t').[s] = inFlight (outs t).[s] - packets /\ 0 <= packets /\
    packets <= bytes <= packets * MAX_WIRE_PACKET_SIZE)).
Proof.
  intros Hr. pose proof (send_reach_ok t Hr) as Hok. split.
  - intros s Hs Hl. rewrite (so_account _ Hok s Hs Hl). split; [done|].
    apply outstanding_range; [lia|by apply slot_fits].
  - intros s Hne Hl. pose proof (OnAck_core t peer tid recvNext bitmap now Hok) as Ha.
    pose proof (OnRefused_core t peer tid Hok) as Hf. cbv zeta in Ha, Hf. fold s in Ha, Hf.
    destruct (OnAck t peer tid recvNext bitmap now) as [r t1], (OnRefused t peer tid) as [[bytes packets] t2].
    destruct (Z.eqb_spec s NPOS); [done|]. destruct Ha as (_&Ha), Hf as (_&Hf). specialize (Ha Hl). specialize (Hf Hl). lia.
Qed.
End Table.

(** ** A concrete send *)

Definition sample_begun : TransferTable SlotPool :=
  match BeginSend 0 (init_table 1 1 1) 0 no_address 7 (Some [1; 2; 3]) 3 with Some (_, t) => t | None => init_table 1 1 1 end.
Definition sample_sent : TransferTable SlotPool := MarkSent sample_begun 0 0 1000.

Lemma sample_sent_reach : send_reach sample_sent.
Proof.
  apply sr_mark; [|vm_compute; split; [discriminate|reflexivity]|lia].
  apply (sr_begin 0 (init_table 1 1 1) 0 no_address 7 (Some [1; 2; 3]) 3 Ok).
  - apply sr_init; [cbn [p_outCount]; lia|vm_compute; reflexivity|cbn [p_maxPeers]; lia].
  - intros s p E. right. vm_compute in E. injection E as <- _. vm_compute. split; [discriminate|reflexivity].
  - vm_compute. reflexivity.
Qed.

Lemma in_flight_accounted_witness :
  inFlight (outs sample_sent).[0] = 1 /\
  (forall s, 0 <= s < zlen (outs sample_sent) -> o_packetCount (outs sample_sent).[s] <> 0 ->
     inFlight (outs sample_sent).[s] = outstanding (sentAtRing sample_sent) s /\ 0 <= inFlight (outs sample_sent).[s] <= TRANSFER_WINDOW) /\
  (let '(r, t') := OnAck sample_sent 0 7 1 (replicate 128 0) 1500 in
   inFlight (outs t').[0] = inFlight (outs sample_sent).[0] - r_packets r /\ 0 <= r_packets r /\
   r_packets r <= r_bytes r <= r_packets r * MAX_WIRE_PACKET_SIZE).
Proof.
  split; [vm_compute; reflexivity|].
  destruct (in_flight_accounted sample_sent 0 7 1 (replicate 128 0) 1500 sample_sent_reach) as (H1&H2).
  split; [exact H1|]. cbv zeta in H2. assert (E : FindOut sample_sent 0 7 = 0) by (vm_compute; reflexivity). rewrite E in H2.
  refine (proj1 (H2 _ _)); vm_compute; discriminate.
Defined.
