(* ===== verification/ReadyLanes.v ===== *)
(** * Ready lanes: [flux/socket/ready_lanes.h] and [.cpp]

    Packets ready to be polled wait in up to sixteen bounded queues.  A key, a peer's
    slot for flow traffic, picks the lane by multiplicative hashing, so one peer's
    packets stay in one queue and keep their order; a polling thread claims a lane
    while it reads it.

    The file also states, as the class [ReadyQueue], what the delivery path relies on,
    and the lanes are its instance.  [None] is, as in the queue file, a wait that does
    not end. *)

From S2P Require Import Prelude CommonMath Fifo SlotPool.

(** ** Definitions *)

Definition MAX_LANES : Z := 16.
Definition NO_LANE : Z := 0xFFFFFFFF.
Definition GOLDEN : Z := 0x9E3779B1.

Record ReadyEntry := mk_ready { r_slot : Z; r_peer : Z }.
#[export] Instance ReadyEntry_inhabited : Inhabited ReadyEntry := populate (mk_ready 0 0).

Record ReadyLanes := mk_lanes { lanes : list (FifoQueue ReadyEntry); busy : list bool; laneCount : Z; laneShift : Z }.
#[export] Instance ReadyLanes_eta : Eta ReadyLanes := fun r => mk_lanes (lanes r) (busy r) (laneCount r) (laneShift r).
#[export] Instance FifoQueue_inhabited : Inhabited (FifoQueue ReadyEntry) := populate (mk_fifo [] 0 0 0 0).

(** The doubling loop of [Init]; four rounds reach [MAX_LANES]. *)
Fixpoint lane_bits (fuel : nat) (wanted count bits : Z) : Z * Z :=
  match fuel with
  | O => (count, bits)
  | S fuel' =>
      if (count <? wanted) && (count <? MAX_LANES) then lane_bits fuel' wanted (u32 (Z.shiftl count 1)) (bits + 1)
      else (count, bits)
  end.

Definition Lanes_Init (wanted perLaneCapacity : Z) (r : ReadyLanes) : bool * ReadyLanes :=
  if perLaneCapacity =? 0 then (false, r)
  else
    let '(count, bits) := lane_bits 5 wanted 1 0 in
    let r := r <| lanes := for_up 0 (Z.to_nat count) (fun i l => l.[i <- Fifo_Init perLaneCapacity]) (lanes r) |> in
    (true, r <| laneCount := count |> <| laneShift := 32 - bits |>).

Definition Lanes_Shutdown (r : ReadyLanes) : ReadyLanes :=
  mk_lanes (replicate (Z.to_nat MAX_LANES) inhabitant) (replicate (Z.to_nat MAX_LANES) false) 0 32.

Definition ClaimLane (r : ReadyLanes) (wanted : Z) : Z * ReadyLanes :=
  if laneCount r =? 0 then (NO_LANE, r)
  else
    let start := if wanted <? laneCount r then wanted else 0 in
    match find_up 0 (Z.to_nat (laneCount r)) (fun i => negb (busy r).[u32 (start + i) mod laneCount r]) with
    | Some i => let lane := u32 (start + i) mod laneCount r in (lane, r <| busy := (busy r).[lane <- true] |>)
    | None => (NO_LANE, r)
    end.

Definition ReleaseLane (r : ReadyLanes) (lane : Z) : ReadyLanes :=
  if lane <? laneCount r then r <| busy := (busy r).[lane <- false] |> else r.

Definition LaneOf (r : ReadyLanes) (key : Z) : Z :=
  if 1 <? laneCount r then Z.shiftr (u32 (key * GOLDEN)) (laneShift r) else 0.

Definition Lanes_Push (r : ReadyLanes) (lane slotIndex peerSlot : Z) : option (bool * ReadyLanes) :=
  if lane <? laneCount r then
    '(ok, q) ← Fifo_Push (lanes r).[lane] (mk_ready slotIndex peerSlot);
    Some (ok, r <| lanes := (lanes r).[lane <- q] |>)
  else Some (false, r).

Definition Lanes_Pop (r : ReadyLanes) (lane : Z) : option (option ReadyEntry * ReadyLanes) :=
  if lane <? laneCount r then
    '(x, q) ← Fifo_Pop (lanes r).[lane]; Some (x, r <| lanes := (lanes r).[lane <- q] |>)
  else Some (None, r).

(** ** What a client relies on *)

(** [rq_holds q n c]: lane [l] holds [c l], oldest first, and takes at least [n]. *)
Class ReadyQueue (Q : Type) := {
  rq_lane : Q -> Z -> Z;
  rq_push : Q -> Z -> Z -> Z -> option (bool * Q);
  rq_pop : Q -> Z -> option (option ReadyEntry * Q);
  rq_holds : Q -> Z -> (Z -> list ReadyEntry) -> Prop;
  rq_lane_ok : forall q n c peer, 0 <= peer -> rq_holds q n c -> 0 <= rq_lane q peer;
  rq_push_ok : forall q n c peer idx, 0 <= peer -> rq_holds q n c ->
    exists ok q', rq_push q (rq_lane q peer) idx peer = Some (ok, q') /\ (forall p, rq_lane q' p = rq_lane q p) /\
      (zlen (c (rq_lane q peer)) < n -> ok = true) /\
      rq_holds q' n (if ok : bool then fupd c (rq_lane q peer) (c (rq_lane q peer) ++ [mk_ready idx peer]) else c);
  rq_pop_ok : forall q n c lane, 0 <= lane -> rq_holds q n c ->
    match c lane with
    | [] => rq_pop q lane = Some (None, q)
    | x :: l => exists q', rq_pop q lane = Some (Some x, q') /\ (forall p, rq_lane q' p = rq_lane q p) /\ rq_holds q' n (fupd c lane l)
    end }.

(** ** The lanes *)

Lemma lane_bits_spec wanted : 0 <= wanted -> 
  exists b, 0 <= b <= 4 /\ lane_bits 5 wanted 1 0 = (2 ^ b, b) /\ (wanted <= 2 ^ b \/ b = 4).
Proof.
  intros Hw. cbn [lane_bits]. change MAX_LANES with 16.
  change (u32 (Z.shiftl 1 1)) with 2. change (u32 (Z.shiftl 2 1)) with 4. change (u32 (Z.shiftl 4 1)) with 8.
  change (u32 (Z.shiftl 8 1)) with 16. cbn [Z.ltb Z.compare Pos.compare Pos.compare_cont andb]. rewrite ?andb_true_r, ?andb_false_r.
  destruct (Z.ltb_spec 1 wanted); [|exists 0; split_and!; [lia|lia|done|lia]].
  destruct (Z.ltb_spec 2 wanted); [|exists 1; split_and!; [lia|lia|done|lia]].
  destruct (Z.ltb_spec 4 wanted); [|exists 2; split_and!; [lia|lia|done|lia]].
  destruct (Z.ltb_spec 8 wanted); [|exists 3; split_and!; [lia|lia|done|lia]].
  exists 4. split_and!; [lia|lia|done|by right].
Qed.

(** Every lane in use is a working queue, and holds what [c] says. *)
Record lanes_hold (r : ReadyLanes) (n : Z) (c : Z -> list ReadyEntry) : Prop := {
  lh_bits : exists b, 0 <= b <= 4 /\ laneCount r = 2 ^ b /\ laneShift r = 32 - b;
  lh_len : zlen (lanes r) = MAX_LANES;
  lh_lane : exists k, 1 <= k <= 31 /\ n <= 2 ^ k /\ forall l, 0 <= l < laneCount r -> fifo_rel k (lanes r).[l] (c l);
  lh_idle : forall l, laneCount r <= l -> c l = [] }.

Lemma laneCount_range r n c : lanes_hold r n c -> 1 <= laneCount r <= MAX_LANES.
Proof.
  intros [(b&Hb&E&_) _ _ _]. rewrite E. change MAX_LANES with (2 ^ 4). split.
  - pose proof (Z.pow_pos_nonneg 2 b). lia.
  - apply Z.pow_le_mono_r; lia.
Qed.

Lemma LaneOf_range r n c key : lanes_hold r n c -> 0 <= key -> 0 <= LaneOf r key < laneCount r.
Proof.
  intros Hh Hk. pose proof (laneCount_range r n c Hh). destruct Hh as [(b&Hb&Ec&Es) _ _ _]. unfold LaneOf.
  destruct (Z.ltb_spec 1 (laneCount r)); [|lia]. rewrite Es, Ec, Z.shiftr_div_pow2 by lia.
  pose proof (u32_range (key * GOLDEN)) as Hr. pose proof (Z.pow_pos_nonneg 2 (32 - b)).
  split; [apply Z.div_pos; lia|]. apply Z.div_lt_upper_bound; [lia|]. rewrite <- Z.pow_add_r by lia.
  replace (32 - b + b) with 32 by lia. lia.
Qed.

Lemma Lanes_Push_ok r n c lane idx peer :
  lanes_hold r n c -> 0 <= lane < laneCount r ->
  exists ok r', Lanes_Push r lane idx peer = Some (ok, r') /\ laneCount r' = laneCount r /\ laneShift r' = laneShift r /\
    busy r' = busy r /\ (zlen (c lane) < n -> ok = true) /\ lanes_hold r' n (if ok : bool then fupd c lane (c lane ++ [mk_ready idx peer]) else c).
Proof.
  intros Hh Hl. pose proof (laneCount_range r n c Hh) as Hc. destruct Hh as [Hb Hlen (k&Hk&Hn&Hlane) Hidle].
  unfold Lanes_Push. destruct (Z.ltb_spec lane (laneCount r)); [|lia].
  pose proof (push_refines k Hk (lanes r).[lane] (c lane) (mk_ready idx peer) (Hlane lane Hl)) as Hp.
  destruct (Z.ltb_spec (zlen (c lane)) (CAP k)) as [|Hfull].
  - destruct Hp as (q'&E&Hq). rewrite E. cbn [mbind option_bind]. exists true. eexists. split; [reflexivity|].
    split; [done|]. split; [done|]. split; [done|]. split; [done|]. split; cbn [laneCount laneShift lanes upd]; [done|by rewrite zlen_set| |].
    + exists k. split_and!; [lia..|]. intros l Hx. rewrite arr_get_set by (rewrite ?Hlen; lia).
      destruct (Z.eqb_spec lane l) as [<-|Hne]; [by rewrite fupd_eq|]. rewrite fupd_ne by lia. by apply Hlane.
    + intros l Hx. rewrite fupd_ne by lia. by apply Hidle.
  - rewrite Hp. cbn [mbind option_bind]. exists false. eexists. split; [reflexivity|]. split; [done|]. split; [done|]. split; [done|].
    split; [unfold CAP in Hfull; lia|]. split; cbn [laneCount laneShift lanes upd]; [done|by rewrite zlen_set| |done].
    exists k. split_and!; [lia..|]. intros l Hx. rewrite arr_get_set by (rewrite ?Hlen; lia).
    destruct (Z.eqb_spec lane l) as [<-|Hne]; by apply Hlane.
Qed.

Lemma Lanes_Pop_ok r n c lane :
  lanes_hold r n c -> 0 <= lane ->
  match c lane with
  | [] => exists r', Lanes_Pop r lane = Some (None, r') /\ r' = r
  | x :: l => exists r', Lanes_Pop r lane = Some (Some x, r') /\ laneCount r' = laneCount r /\ laneShift r' = laneShift r /\
      lanes_hold r' n (fupd c lane l)
  end.
Proof.
  intros Hh Hl. pose proof (laneCount_range r n c Hh) as Hc. destruct Hh as [Hb Hlen (k&Hk&Hn&Hlane) Hidle].
  unfold Lanes_Pop. destruct (Z.ltb_spec lane (laneCount r)).
  - pose proof (pop_refines k Hk (lanes r).[lane] (c lane) (Hlane lane ltac:(lia))) as Hp.
    destruct (c lane) as [|x l] eqn:Ec.
    + rewrite Hp. cbn [mbind option_bind]. eexists. split; [reflexivity|]. rewrite arr_set_get_id by (rewrite Hlen; lia). by destruct r.
    + destruct Hp as (q'&E&Hq). rewrite E. cbn [mbind option_bind]. eexists. split; [reflexivity|]. split; [done|]. split; [done|].
      split; cbn [laneCount laneShift lanes upd]; [done|by rewrite zlen_set| |].
      * exists k. split_and!; [lia..|]. intros y Hy. rewrite arr_get_set by (rewrite ?Hlen; lia).
        destruct (Z.eqb_spec lane y) as [<-|Hne]; [by rewrite fupd_eq|]. rewrite fupd_ne by lia. by apply Hlane.
      * intros y Hy. rewrite fupd_ne by lia. by apply Hidle.
  - rewrite Hidle by lia. by exists r.
Qed.

Lemma LaneOf_same r r' key : laneCount r' = laneCount r -> laneShift r' = laneShift r -> LaneOf r' key = LaneOf r key.
Proof. intros E1 E2. unfold LaneOf. by rewrite E1, E2. Qed.

#[export] Program Instance ReadyLanes_queue : ReadyQueue ReadyLanes := {|
  rq_lane := LaneOf; rq_push := Lanes_Push; rq_pop := Lanes_Pop; rq_holds := lanes_hold |}.
Next Obligation. intros r n c peer Hp Hh. by apply (LaneOf_range r n c peer Hh Hp). Qed.
Next Obligation.
  intros r n c peer idx Hp Hh. destruct (Lanes_Push_ok r n c (LaneOf r peer) idx peer Hh (LaneOf_range r n c peer Hh Hp))
    as (ok&r'&E&E1&E2&_&Hn&Hh'). exists ok, r'. split_and!; [done| |done|done]. intros p. by apply LaneOf_same.
Qed.
Next Obligation.
  intros r n c lane Hl Hh. pose proof (Lanes_Pop_ok r n c lane Hh Hl) as Hp. destruct (c lane) as [|x l].
  - by destruct Hp as (r'&E&->).
  - destruct Hp as (r'&E&E1&E2&Hh'). exists r'. split_and!; [done| |done]. intros p. by apply LaneOf_same.
Qed.

Lemma Lanes_Init_ok wanted perLaneCapacity r0 :
  0 <= wanted -> 2 <= perLaneCapacity <= 2 ^ 31 ->
  exists r, Lanes_Init wanted perLaneCapacity (Lanes_Shutdown r0) = (true, r) /\
    lanes_hold r perLaneCapacity (fun _ => []) /\ Z.min wanted MAX_LANES <= laneCount r.
Proof.
  intros Hw Hc. unfold Lanes_Init. destruct (Z.eqb_spec perLaneCapacity 0); [lia|].
  destruct (lane_bits_spec wanted Hw) as (b&Hb&E&Hge). rewrite E. cbv zeta beta. eexists. split; [reflexivity|].
  destruct (NextPowerOfTwo_spec perLaneCapacity ltac:(lia)) as (k&Hk&Ek&Hle&_).
  assert (1 <= k) by (destruct (Z.eq_dec k 0) as [->|]; [change (2 ^ 0) with 1 in Hle; lia|lia]).
  pose proof (Z.pow_pos_nonneg 2 b ltac:(lia) ltac:(lia)). 
  assert (2 ^ b <= MAX_LANES) by (change MAX_LANES with (2 ^ 4); apply Z.pow_le_mono_r; lia).
  pose proof (for_up_inv (fun i l => zlen l = MAX_LANES /\ forall j, 0 <= j < i -> l.[j] = Fifo_Init perLaneCapacity) 0 (Z.to_nat (2 ^ b))
    (fun i l => l.[i <- Fifo_Init perLaneCapacity]) (lanes (Lanes_Shutdown r0))) as Hinv.
  destruct Hinv as [Hlen Hget].
  { split; [by apply zlen_replicate|]. lia. }
  { intros i l Hi [Hlen Hget]. split; [by rewrite zlen_set|]. intros j Hj. rewrite arr_get_set by lia.
    destruct (Z.eqb_spec i j); [done|]. apply Hget. lia. }
  split.
  - split; cbn [laneCount laneShift lanes upd]; [by exists b|exact Hlen| |done].
    exists k. split_and!; [lia..|]. intros l Hl. rewrite Hget by lia. by apply init_refines; [lia|].
  - cbn [laneCount upd]. destruct Hge as [|Hb4]; [lia|]. subst b. change (2 ^ 4) with MAX_LANES. lia.
Qed.

(** ** Whole runs *)

Inductive ready_op := RPush (peer idx : Z) | RPop (lane : Z).
Inductive ready_ev := EPushed (peer idx : Z) (ok : bool) | EPopped (lane : Z) (x : option ReadyEntry).

Definition ready_op_ok (op : ready_op) : Prop := match op with RPush peer _ => 0 <= peer | RPop lane => 0 <= lane end.

Section History.
Context {Q : Type} `{!ReadyQueue Q}.
Implicit Types (q : Q) (c : Z -> list ReadyEntry) (tr : list ready_ev).

Definition ready_step q (op : ready_op) : option (ready_ev * Q) :=
  match op with
  | RPush peer idx => '(ok, q') ← rq_push q (rq_lane q peer) idx peer; Some (EPushed peer idx ok, q')
  | RPop lane => '(x, q') ← rq_pop q lane; Some (EPopped lane x, q')
  end.

Fixpoint ready_run q (ops : list ready_op) : option (list ready_ev * Q) :=
  match ops with
  | [] => Some ([], q)
  | op :: ops => '(e, q1) ← ready_step q op; '(tr, q2) ← ready_run q1 ops; Some (e :: tr, q2)
  end.
End History.

(** The indices one peer had accepted, and those handed out for it, in order. *)
Definition of_peer (p : Z) (l : list ReadyEntry) : list Z := omap (fun e => if r_peer e =? p then Some (r_slot e) else None) l.
Definition accepted (p : Z) (tr : list ready_ev) : list Z :=
  omap (fun e => match e with EPushed p' idx true => if p' =? p then Some idx else None | _ => None end) tr.
Definition handed_out (p : Z) (tr : list ready_ev) : list Z :=
  omap (fun e => match e with EPopped _ (Some x) => if r_peer x =? p then Some (r_slot x) else None | _ => None end) tr.

(** Every push is of one of [n] slots that is not waiting already. *)
Fixpoint one_entry_per_slot (n : Z) (w : list Z) (tr : list ready_ev) : Prop :=
  match tr with
  | [] => True
  | EPushed _ idx ok :: tr => 0 <= idx < n /\ (idx ∉ w) /\ one_entry_per_slot n (if ok then idx :: w else w) tr
  | EPopped _ (Some x) :: tr => one_entry_per_slot n (filter (fun i => i <> r_slot x) w) tr
  | EPopped _ None :: tr => one_entry_per_slot n w tr
  end.

Definition push_accepted (e : ready_ev) : Prop := match e with EPushed _ _ ok => ok = true | _ => True end.

(** Waiting entries name distinct slots below [n], all in [w]. *)
Record slots_in (n : Z) (w : list Z) (c : Z -> list ReadyEntry) : Prop := {
  si_nodup : forall l, NoDup (map r_slot (c l));
  si_in : forall l e, e ∈ c l -> (r_slot e ∈ w) /\ 0 <= r_slot e < n;
  si_lane : forall l l' e e', e ∈ c l -> e' ∈ c l' -> r_slot e = r_slot e' -> l = l' }.

Lemma slots_in_room n w c l idx : slots_in n w c -> 0 <= idx < n -> idx ∉ w -> zlen (c l) < n.
Proof.
  intros [Hnd Hin _] Hi Hw. 
  assert (Hsub : idx :: map r_slot (c l) ⊆+ upto n).
  { apply NoDup_submseteq.
    - constructor; [|apply Hnd]. intros (e&E&He)%list_elem_of_fmap. apply Hw. rewrite E. by apply (Hin l e).
    - intros x [->|(e&->&He)%list_elem_of_fmap]%elem_of_cons; apply elem_of_upto; [done|]. destruct (Hin l e He). lia. }
  apply submseteq_length in Hsub. cbn in Hsub. rewrite length_map in Hsub. pose proof (zlen_upto n ltac:(lia)) as Hu.
  unfold zlen in *. lia.
Qed.

Lemma slots_in_push n w c l idx peer : slots_in n w c -> 0 <= idx < n -> idx ∉ w ->
  slots_in n (idx :: w) (fupd c l (c l ++ [mk_ready idx peer])).
Proof.
  intros [Hnd Hin Hlane] Hi Hw.
  assert (Hc : forall y e, e ∈ fupd c l (c l ++ [mk_ready idx peer]) y -> (e ∈ c y) \/ (e = mk_ready idx peer /\ y = l)).
  { intros y e. unfold fupd. destruct (Z.eqb_spec y l) as [->|]; [|tauto]. rewrite elem_of_app, list_elem_of_singleton. tauto. }
  assert (Hnew : forall y e, e ∈ c y -> r_slot e <> idx) by (intros y e He E; apply Hw; rewrite <- E; by apply (Hin y e)).
  split.
  - intros y. unfold fupd. destruct (Z.eqb_spec y l) as [->|]; [|done]. rewrite map_app, NoDup_app. split_and!; [done| |cbn; apply NoDup_singleton].
    intros x (e&->&He)%list_elem_of_fmap Hx%list_elem_of_singleton. by apply (Hnew l e).
  - intros y e [He|[-> ->]]%Hc; [|split; [by left|done]]. destruct (Hin y e He). split; [by right|done].
  - intros y y' e e' [He|[-> ->]]%Hc [He'|[-> ->]]%Hc E; [by eapply Hlane|by apply Hnew in He|by apply Hnew in He'; rewrite <- E in He'|done].
Qed.

Lemma slots_in_pop n w c l x rest : slots_in n w c -> c l = x :: rest ->
  slots_in n (filter (fun i => i <> r_slot x) w) (fupd c l rest).
Proof.
  intros [Hnd Hin Hlane] E. pose proof (Hnd l) as Hl. rewrite E in Hl. cbn in Hl. apply NoDup_cons in Hl as [Hx Hl].
  assert (Hc : forall y e, e ∈ fupd c l rest y -> (e ∈ c y) /\ r_slot e <> r_slot x).
  { intros y e. unfold fupd. destruct (Z.eqb_spec y l) as [->|Hne]; intros He.
    - split; [rewrite E; by right|]. intros Ex. apply Hx. rewrite <- Ex. by apply list_elem_of_fmap_2.
    - split; [done|]. intros Ex. apply Hne. eapply Hlane; [exact He| |exact Ex]. rewrite E. by left. }
  split.
  - intros y. unfold fupd. by destruct (Z.eqb_spec y l).
  - intros y e [He Hne]%Hc. destruct (Hin y e He). rewrite list_elem_of_filter. done.
  - intros y y' e e' [He _]%Hc [He' _]%Hc. by apply Hlane.
Qed.

Section HistoryProofs.
Context {Q : Type} `{!ReadyQueue Q}.
Implicit Types (q : Q) (c : Z -> list ReadyEntry).

(** The lanes hold [c], every entry in its own peer's lane. *)
Record lanes_are q (n : Z) c : Prop := {
  la_holds : rq_holds q n c;
  la_home : forall l e, e ∈ c l -> rq_lane q (r_peer e) = l;
  la_peer : forall l e, e ∈ c l -> 0 <= r_peer e }.

Lemma of_peer_other q n c p peer idx : lanes_are q n c ->
  of_peer p (fupd c (rq_lane q peer) (c (rq_lane q peer) ++ [mk_ready idx peer]) (rq_lane q p)) =
  of_peer p (c (rq_lane q p)) ++ (if peer =? p then [idx] else []).
Proof.
  intros Hla. unfold fupd. destruct (Z.eqb_spec (rq_lane q p) (rq_lane q peer)) as [E|Hne].
  - rewrite E. unfold of_peer. rewrite omap_app. f_equal. cbn. by destruct (peer =? p).
  - destruct (Z.eqb_spec peer p) as [->|]; [done|]. by rewrite app_nil_r.
Qed.

Lemma of_peer_pop q n c p lane x rest : lanes_are q n c -> c lane = x :: rest ->
  of_peer p (c (rq_lane q p)) = (if r_peer x =? p then [r_slot x] else []) ++ of_peer p (fupd c lane rest (rq_lane q p)).
Proof.
  intros Hla E. pose proof (la_home _ _ _ Hla lane x ltac:(rewrite E; by left)) as Hx.
  unfold fupd. destruct (Z.eqb_spec (rq_lane q p) lane) as [El|Hne].
  - rewrite El, E. cbn. by destruct (r_peer x =? p).
  - destruct (Z.eqb_spec (r_peer x) p) as [<-|]; [by rewrite Hx in Hne|done].
Qed.

Lemma ready_step_ok q n c op : lanes_are q n c -> ready_op_ok op ->
  exists e q1 c1, ready_step q op = Some (e, q1) /\ (forall p, rq_lane q1 p = rq_lane q p) /\ lanes_are q1 n c1 /\
    (forall p tr, of_peer p (c (rq_lane q p)) ++ accepted p (e :: tr) = handed_out p [e] ++ of_peer p (c1 (rq_lane q p)) ++ accepted p tr) /\
    match e with EPopped lane (Some x) => lane = rq_lane q (r_peer x) /\ 0 <= r_peer x | _ => True end /\
    (forall w tr, slots_in n w c -> one_entry_per_slot n w (e :: tr) ->
      push_accepted e /\ exists w1, slots_in n w1 c1 /\ one_entry_per_slot n w1 tr).
Proof.
  intros Hla Hop. pose proof Hla as [Hh Hhome Hpeer]. destruct op as [peer idx|lane]; cbn [ready_step ready_op_ok] in *.
  - destruct (rq_push_ok q n c peer idx Hop Hh) as (ok&q1&->&Hl1&Hroom&Hh1). cbn [mbind option_bind].
    do 3 eexists. split; [reflexivity|]. split; [exact Hl1|]. split_and!; [split; [exact Hh1| |]| |done|].
    + intros l e He. rewrite Hl1. destruct ok; [|by apply Hhome]. unfold fupd in He.
      destruct (Z.eqb_spec l (rq_lane q peer)) as [->|]; [|by apply Hhome].
      apply elem_of_app in He as [He| ->%list_elem_of_singleton]; [by apply Hhome|done].
    + intros l e He. destruct ok; [|by apply (Hpeer l)]. unfold fupd in He.
      destruct (Z.eqb_spec l (rq_lane q peer)) as [->|]; [|by apply (Hpeer l)].
      apply elem_of_app in He as [He| ->%list_elem_of_singleton]; [by eapply Hpeer|done].
    + intros p tr. cbn. destruct ok; [|done]. rewrite (of_peer_other q n) by done.
      rewrite <- app_assoc. f_equal. by destruct (peer =? p).
    + intros w tr Hs (Hi&Hw&Htr). pose proof (slots_in_room _ _ _ (rq_lane q peer) idx Hs Hi Hw) as Hr.
      rewrite (Hroom Hr) in *. split; [done|]. exists (idx :: w). split; [by apply slots_in_push|done].
  - pose proof (rq_pop_ok q n c lane Hop Hh) as Hp. destruct (c lane) as [|x rest] eqn:E.
    + rewrite Hp. cbn [mbind option_bind]. exists (EPopped lane None), q, c.
      split_and!; try done. intros w tr Hs Htr. split; [done|]. by exists w.
    + destruct Hp as (q1&->&Hl1&Hh1). cbn [mbind option_bind]. do 3 eexists. split; [reflexivity|]. split; [exact Hl1|].
      split_and!; [split; [exact Hh1| |]| | | |].
      * intros l e He. rewrite Hl1. apply Hhome. unfold fupd in He. destruct (Z.eqb_spec l lane) as [->|]; [|done]. rewrite E. by right.
      * intros l e He. unfold fupd in He. destruct (Z.eqb_spec l lane) as [->|]; [|by apply (Hpeer l)]. apply (Hpeer lane). rewrite E. by right.
      * intros p tr. rewrite (of_peer_pop q n c p lane x rest Hla E). cbn. destruct (r_peer x =? p); by rewrite <- ?app_assoc.
      * symmetry. apply Hhome. rewrite E. by left.
      * apply (Hpeer lane). rewrite E. by left.
      * intros w tr Hs Htr. split; [done|]. eexists. split; [by apply slots_in_pop|exact Htr].
Qed.

Lemma ready_run_ok ops : forall q n c, lanes_are q n c -> Forall ready_op_ok ops ->
  exists tr q1 c1, ready_run q ops = Some (tr, q1) /\ (forall p, rq_lane q1 p = rq_lane q p) /\ lanes_are q1 n c1 /\
    (forall p, of_peer p (c (rq_lane q p)) ++ accepted p tr = handed_out p tr ++ of_peer p (c1 (rq_lane q p))) /\
    (forall lane x, EPopped lane (Some x) ∈ tr -> lane = rq_lane q (r_peer x) /\ 0 <= r_peer x) /\
    (forall w, slots_in n w c -> one_entry_per_slot n w tr -> Forall push_accepted tr).
Proof.
  induction ops as [|op ops IH]; intros q n c Hla Hops.
  - exists [], q, c. split_and!; try done; [intros p; by rewrite app_nil_r|by intros ?? ?%elem_of_nil].
  - apply Forall_cons in Hops as [Hop Hops]. destruct (ready_step_ok q n c op Hla Hop) as (e&q1&c1&E1&Hl1&Hla1&Hord1&Hlane1&Hslot1).
    destruct (IH q1 n c1 Hla1 Hops) as (tr&q2&c2&E2&Hl2&Hla2&Hord2&Hlane2&Hslot2).
    exists (e :: tr), q2, c2. cbn [ready_run]. rewrite E1. cbn [mbind option_bind]. rewrite E2. cbn [mbind option_bind].
    split; [done|]. split; [intros p; by rewrite Hl2|]. split_and!; [done| | |].
    + intros p. rewrite Hord1. specialize (Hord2 p). rewrite Hl1 in Hord2. rewrite Hord2, app_assoc. f_equal.
      unfold handed_out. change (e :: tr) with ([e] ++ tr). by rewrite omap_app.
    + intros lane x [<-|Hin]%elem_of_cons; [done|]. rewrite <- Hl1. by apply Hlane2.
    + intros w Hs Htr. destruct (Hslot1 w tr Hs Htr) as (Ha&w1&Hs1&Htr1). constructor; [done|]. by apply (Hslot2 w1).
Qed.
End HistoryProofs.

(** Functional: lanes set up for [perLaneCapacity] slots answer every
    sequence of pushes and pops.  What is handed out for a peer is a prefix of what was
    accepted for it, in the order of acceptance; all of it comes out of the one lane
    [LaneOf] names, so the thread that holds that lane's claim sees all of it; and
    while no slot is queued twice no push is refused. *)
Theorem lanes_keep_peer_order (wanted perLaneCapacity : Z) (r0 r : ReadyLanes) (ops : list ready_op)
  (Hwanted : 0 <= wanted) (Hcap : 2 <= perLaneCapacity <= 2 ^ 31)
  (Hinit : Lanes_Init wanted perLaneCapacity (Lanes_Shutdown r0) = (true, r)) (Hops : Forall ready_op_ok ops) :
  exists tr r', ready_run r ops = Some (tr, r') /\
    (forall p, exists waiting, accepted p tr = handed_out p tr ++ waiting) /\
    (forall lane x, EPopped lane (Some x) ∈ tr -> lane = LaneOf r (r_peer x) /\ 0 <= lane < laneCount r) /\
    (one_entry_per_slot perLaneCapacity [] tr -> Forall push_accepted tr).
Proof.
  destruct (Lanes_Init_ok wanted perLaneCapacity r0 Hwanted Hcap) as (r1&E&Hh&_). rewrite Hinit in E. injection E as <-.
  assert (Hla : lanes_are r perLaneCapacity (fun _ => [])) by (split; [exact Hh|by intros l e He%elem_of_nil|by intros l e He%elem_of_nil]).
  destruct (ready_run_ok ops r perLaneCapacity _ Hla Hops) as (tr&r'&c&Er&_&_&Hord&Hlane&Hslot).
  exists tr, r'. split_and!; [done| | |].
  - intros p. eexists. exact (Hord p).
  - intros lane x Hx. apply Hlane in Hx as [-> Hp]. split; [done|].
    by apply (LaneOf_range r perLaneCapacity (fun _ => [])).
  - apply Hslot. split; [intros; constructor|by intros ?? ?%elem_of_nil|by intros ???? ?%elem_of_nil].
Qed.

Definition sample_lanes : ReadyLanes := (Lanes_Init 3 4 (Lanes_Shutdown (mk_lanes [] [] 0 0))).2.
Definition sample_ready_ops : list ready_op := [RPush 5 0; RPush 6 1; RPush 5 2; RPop (LaneOf sample_lanes 5); RPop (LaneOf sample_lanes 5); RPop 3].

Lemma lanes_keep_peer_order_witness :
  handed_out 5 (default ([], sample_lanes) (ready_run sample_lanes sample_ready_ops)).1 = [0; 2] /\ laneCount sample_lanes = 4 /\
  exists tr r', ready_run sample_lanes sample_ready_ops = Some (tr, r') /\
    (forall p, exists waiting, accepted p tr = handed_out p tr ++ waiting) /\
    (forall lane x, EPopped lane (Some x) ∈ tr -> lane = LaneOf sample_lanes (r_peer x) /\ 0 <= lane < laneCount sample_lanes) /\
    (one_entry_per_slot 4 [] tr -> Forall push_accepted tr).
Proof.
  split; [vm_compute; reflexivity|]. split; [vm_compute; reflexivity|].
  apply (lanes_keep_peer_order 3 4 (mk_lanes [] [] 0 0) sample_lanes sample_ready_ops); [lia|lia|vm_compute; reflexivity|].
  repeat constructor; vm_compute; discriminate.
Defined.
