(* ===== verification/InFlow.v ===== *)
(** * Receiving half of a flow: data, the seen window and acknowledgement ranges

    The records of [flux/flow/flow.h] a receiver keeps, and the helpers of
    [flux/flow/flow_table.cpp] over its sliding bitmap.  [seen_ok] reads the bitmap as
    a predicate on sequences; every helper is specified by it. *)

From S2P Require Import Prelude Keys FlowData SlotPool.

(** ** Data *)

Record HoldbackEntry := mk_held { h_seq : Z; h_slot : Z }.
#[export] Instance HoldbackEntry_inhabited : Inhabited HoldbackEntry := populate (mk_held 0 INVALID).

Record AckRange := mk_range { r_first : Z; r_last : Z }.

(** The bitmap and the hold-back ring sit behind the record in its slot. *)
Record InAssociation := mk_in {
  ia_peerSlot : Z; ia_peerAddr : Address; ia_peerId : BcpId; ia_flowId : Z; ia_mode : FlowMode; ia_flowEpoch : Z;
  ia_life : FlowLifecycle; ia_emitting : bool; ackImmediate : bool; ia_epoch : Z;
  ia_recvNext : Z; recvHighest : Z; newSinceFlush : Z; lastProgressMicros : Z; ackArmedMicros : Z; newestArrivalMicros : Z;
  windowBits : Z; reorderCap : Z; heldCount : Z; Seen : list Z; Holdback : list HoldbackEntry }.
#[export] Instance InAssociation_eta : Eta InAssociation := fun r =>
  mk_in (ia_peerSlot r) (ia_peerAddr r) (ia_peerId r) (ia_flowId r) (ia_mode r) (ia_flowEpoch r) (ia_life r) (ia_emitting r)
    (ackImmediate r) (ia_epoch r) (ia_recvNext r) (recvHighest r) (newSinceFlush r) (lastProgressMicros r) (ackArmedMicros r)
    (newestArrivalMicros r) (windowBits r) (reorderCap r) (heldCount r) (Seen r) (Holdback r).

(** ** Operations *)

Definition ResetInAssoc (a : InAssociation) (peerSlot : Z) (peerAddr : Address) (peerId : option BcpId) (flowId : Z)
    (mode : FlowMode) (flowEpoch window cap now : Z) : InAssociation :=
  {| ia_peerSlot := peerSlot; ia_peerAddr := peerAddr;
     ia_peerId := match peerId with Some i => i | None => mk_id (replicate 32 0) end;
     ia_flowId := flowId; ia_mode := mode; ia_flowEpoch := flowEpoch; ia_life := OPEN; ia_emitting := false;
     ackImmediate := false; ia_epoch := u32 (ia_epoch a + 1);
     ia_recvNext := 1; heldCount := 0; recvHighest := 0; newSinceFlush := 0; ackArmedMicros := 0; newestArrivalMicros := 0;
     lastProgressMicros := now; windowBits := window; reorderCap := cap;
     Seen := replicate (Z.to_nat (window / 64)) 0; Holdback := replicate (Z.to_nat cap) (mk_held 0 INVALID) |}.

Definition SeenTest (bitmap : list Z) (seq bits : Z) : bool :=
  let idx := Z.land seq (bits - 1) in
  negb (Z.land (Z.shiftr bitmap.[Z.shiftr idx 6] (Z.land idx 63)) 1 =? 0).

Definition SeenSet (bitmap : list Z) (seq bits : Z) : list Z :=
  let idx := Z.land seq (bits - 1) in let w := Z.shiftr idx 6 in
  bitmap.[w <- Z.lor bitmap.[w] (Z.shiftl 1 (Z.land idx 63))].

Definition SeenClear (bitmap : list Z) (seq bits : Z) : list Z :=
  let idx := Z.land seq (bits - 1) in let w := Z.shiftr idx 6 in
  bitmap.[w <- Z.land bitmap.[w] (Z.lxor UINT64_MAX (Z.shiftl 1 (Z.land idx 63)))].

(** The lowest sequence the window still answers for. *)
Definition seen_floor (highest bits : Z) : Z := if bits <=? highest then highest - bits + 1 else 1.

Definition CommitSeen (a : InAssociation) (seq : Z) : InAssociation :=
  let bits := windowBits a in
  let a :=
    if recvHighest a <? seq then
      let seen :=
        if bits <=? seq - recvHighest a then replicate (Z.to_nat (bits / 64)) 0
        else
          let oldFloor := seen_floor (recvHighest a) bits in
          let newFloor := seen_floor seq bits in
          for_up oldFloor (Z.to_nat (newFloor - oldFloor)) (fun s seen => SeenClear seen s bits) (Seen a) in
      a <| Seen := seen |> <| recvHighest := seq |>
    else a in
  a <| Seen := SeenSet (Seen a) seq bits |>.

Definition AlreadySeen (a : InAssociation) (seq : Z) : bool :=
  let bits := windowBits a in
  if recvHighest a <? seq then false
  else if seq <? seen_floor (recvHighest a) bits then true
  else SeenTest (Seen a) seq bits.

Definition ArmAck (a : InAssociation) (now : Z) : InAssociation :=
  let a := if newSinceFlush a =? 0 then a <| ackArmedMicros := now |> else a in
  if newSinceFlush a <? UINT32_MAX then a <| newSinceFlush := newSinceFlush a + 1 |> else a.

Definition ArmAckForArrival (a : InAssociation) (committed : bool) (now : Z) : InAssociation :=
  let a := ArmAck a now in
  if committed then a <| newestArrivalMicros := now |> else a.

(** [while (s >= floor && p(s)) --s], with a round for every [s] down to the floor. *)
Fixpoint down_while (fuel : nat) (p : Z -> bool) (floor s : Z) : Z :=
  match fuel with
  | O => s
  | S fuel' => if (floor <=? s) && p s then down_while fuel' p floor (s - 1) else s
  end.

Fixpoint ack_loop (room : nat) (test : Z -> bool) (floor s : Z) : list AckRange :=
  match room with
  | O => []
  | S room' =>
      let last := down_while (Z.to_nat (s - floor + 1)) (fun x => negb (test x)) floor s in
      if last <? floor then []
      else
        let below := down_while (Z.to_nat (last - floor + 1)) test floor last in
        mk_range (below + 1) last :: (if below <? floor then [] else ack_loop room' test floor below)
  end.

Definition BuildAckRanges (a : InAssociation) (maxRanges : Z) : list AckRange :=
  let bits := windowBits a in
  let hi := recvHighest a in
  if (hi =? 0) || (maxRanges =? 0) then []
  else ack_loop (Z.to_nat maxRanges) (fun s => SeenTest (Seen a) s bits) (seen_floor hi bits) hi.

Definition SeqInRanges (seq : Z) (ranges : list AckRange) : bool :=
  existsb (fun r => (r_first r <=? seq) && (seq <=? r_last r)) ranges.

Definition Elapsed (now since : Z) : Z := if since <? now then now - since else 0.

(** ** The bitmap *)

Section Seen.
Context (w : Z) (Hw : 6 <= w <= 15).
Abbreviation W := (2 ^ w).

Lemma W_words : W = 64 * (W / 64) /\ 1 <= W / 64.
Proof using Hw.
  assert (E : 2 ^ w = 2 ^ (w - 6) * 64) by (change 64 with (2 ^ 6); rewrite <- Z.pow_add_r by lia; f_equal; lia).
  pose proof (Z.pow_pos_nonneg 2 (w - 6)). rewrite E, Z.div_mul by lia. lia.
Qed.

Lemma seen_index s : Z.land s (W - 1) = s mod W.
Proof using Hw. apply land_mask. lia. Qed.

Lemma seen_word s : 0 <= s mod W / 64 < W / 64.
Proof using Hw.
  destruct W_words. pose proof (Z.mod_pos_bound s W ltac:(lia)). split; [apply Z.div_pos; lia|].
  apply Z.div_lt_upper_bound; lia.
Qed.

Lemma SeenTest_bit bitmap s : SeenTest bitmap s W = Z.testbit bitmap.[s mod W / 64] (s mod W mod 64).
Proof using Hw.
  unfold SeenTest. rewrite seen_index, (Z.shiftr_div_pow2 _ 6) by lia. change (2 ^ 6) with 64.
  change 63 with (2 ^ 6 - 1). rewrite land_mask by lia. change (2 ^ 6) with 64.
  change 1 with (Z.ones 1). rewrite Z.land_ones by lia. change (2 ^ 1) with 2.
  pose proof (Z.mod_pos_bound (s mod W) 64 ltac:(lia)). rewrite <- Z.bit0_mod, Z.shiftr_spec, Z.add_0_l by lia.
  by destruct (Z.testbit _ _).
Qed.

Lemma same_bit s t : (s mod W / 64 = t mod W / 64 /\ s mod W mod 64 = t mod W mod 64) <-> s mod W = t mod W.
Proof using Hw.
  split; [intros [E1 E2]|by intros ->]. rewrite (Z.div_mod (s mod W) 64), (Z.div_mod (t mod W) 64) by lia. by rewrite E1, E2.
Qed.

Lemma SeenTest_Set bitmap s t : zlen bitmap = W / 64 ->
  SeenTest (SeenSet bitmap s W) t W = (s mod W =? t mod W) || SeenTest bitmap t W.
Proof using Hw.
  intros Hlen. rewrite !SeenTest_bit. unfold SeenSet. rewrite seen_index, (Z.shiftr_div_pow2 _ 6) by lia. change (2 ^ 6) with 64.
  change 63 with (2 ^ 6 - 1). rewrite land_mask by lia. change (2 ^ 6) with 64.
  pose proof (seen_word s). pose proof (seen_word t). rewrite arr_get_set by lia. pose proof (same_bit s t).
  pose proof (Z.mod_pos_bound (s mod W) 64 ltac:(lia)). pose proof (Z.mod_pos_bound (t mod W) 64 ltac:(lia)).
  destruct (Z.eqb_spec (s mod W / 64) (t mod W / 64)) as [E|].
  - rewrite Z.lor_spec, Z.shiftl_1_l, Z.pow2_bits_eqb, E, orb_comm by lia. f_equal.
    destruct (Z.eqb_spec (s mod W mod 64) (t mod W mod 64)), (Z.eqb_spec (s mod W) (t mod W)); tauto.
  - destruct (Z.eqb_spec (s mod W) (t mod W)); tauto.
Qed.

Lemma SeenTest_Clear bitmap s t : zlen bitmap = W / 64 ->
  SeenTest (SeenClear bitmap s W) t W = negb (s mod W =? t mod W) && SeenTest bitmap t W.
Proof using Hw.
  intros Hlen. rewrite !SeenTest_bit. unfold SeenClear. rewrite seen_index, (Z.shiftr_div_pow2 _ 6) by lia. change (2 ^ 6) with 64.
  change 63 with (2 ^ 6 - 1). rewrite land_mask by lia. change (2 ^ 6) with 64.
  pose proof (seen_word s). pose proof (seen_word t). rewrite arr_get_set by lia. pose proof (same_bit s t).
  pose proof (Z.mod_pos_bound (s mod W) 64 ltac:(lia)). pose proof (Z.mod_pos_bound (t mod W) 64 ltac:(lia)).
  destruct (Z.eqb_spec (s mod W / 64) (t mod W / 64)) as [E|].
  - unfold UINT64_MAX. rewrite Z.land_spec, Z.lxor_spec, Z.shiftl_1_l, Z.pow2_bits_eqb, E by lia.
    change (2 ^ 64 - 1) with (Z.ones 64). rewrite Z.ones_spec_low, andb_comm by lia.
    destruct (Z.eqb_spec (s mod W mod 64) (t mod W mod 64)), (Z.eqb_spec (s mod W) (t mod W)); cbn; tauto.
  - destruct (Z.eqb_spec (s mod W) (t mod W)); cbn; tauto.
Qed.

Lemma zlen_SeenSet bitmap s : zlen (SeenSet bitmap s W) = zlen bitmap.
Proof. apply zlen_set. Qed.
Lemma zlen_SeenClear bitmap s : zlen (SeenClear bitmap s W) = zlen bitmap.
Proof. apply zlen_set. Qed.

Lemma seen_index_inj s t h : h - W < s <= h -> h - W < t <= h -> s mod W = t mod W -> s = t.
Proof.
  intros Hs Ht E. pose proof (Z.div_mod s W ltac:(lia)). pose proof (Z.div_mod t W ltac:(lia)).
  assert (s / W = t / W) by nia. lia.
Qed.
End Seen.

(** ** The window as a predicate *)

Section SeenWindow.
Context (w : Z) (Hw : 6 <= w <= 15).
Abbreviation W := (2 ^ w).
Implicit Types (a : InAssociation) (got : Z -> bool).

(** [got] is what the bitmap knows: nothing above the highest, and the bits of
    the last [W] sequences. *)
Record seen_ok a got : Prop := {
  so_bits : windowBits a = W;
  so_len : zlen (Seen a) = W / 64;
  so_high : 0 <= recvHighest a;
  so_test : forall s, recvHighest a - W < s <= recvHighest a -> SeenTest (Seen a) s W = got s;
  so_low : forall s, s <= 0 -> got s = false;
  so_above : forall s, recvHighest a < s -> got s = false }.

Definition marked (seq : Z) got : Z -> bool := fun s => (s =? seq) || got s.

Lemma clear_run_spec bitmap n : forall lo hi, zlen bitmap = W / 64 -> hi - W < lo -> lo + Z.of_nat n <= hi + 1 ->
  let b := for_up lo n (fun s seen => SeenClear seen s W) bitmap in
  zlen b = W / 64 /\
  forall s, hi - W < s <= hi -> SeenTest b s W = (if (lo <=? s) && (s <? lo + Z.of_nat n) then false else SeenTest bitmap s W).
Proof using Hw.
  revert bitmap. induction n as [|n IH]; intros bitmap lo hi Hlen Hlo Hhi; cbn [for_up].
  - split; [done|]. intros s Hs. destruct (Z.leb_spec lo s), (Z.ltb_spec s (lo + Z.of_nat 0)); try done; lia.
  - destruct (IH (SeenClear bitmap lo W) (lo + 1) hi) as [Hl Ht]; [by rewrite zlen_SeenClear|lia|lia|].
    cbv zeta in *. split; [done|]. intros s Hs. rewrite Ht by done. rewrite SeenTest_Clear by done.
    destruct (Z.eqb_spec (lo mod W) (s mod W)) as [E|E].
    + assert (lo = s) as -> by (apply (seen_index_inj w Hw lo s hi); [lia|lia|done]).
      destruct (Z.leb_spec s s); [|lia]. destruct (Z.ltb_spec s (s + Z.of_nat (S n))); [|lia].
      destruct (Z.leb_spec (s + 1) s); [lia|done].
    + assert (lo <> s) by (by intros ->). cbn [negb andb].
      destruct (Z.leb_spec (lo + 1) s), (Z.leb_spec lo s), (Z.ltb_spec s (lo + 1 + Z.of_nat n)), (Z.ltb_spec s (lo + Z.of_nat (S n))); cbn; try done; lia.
Qed.

Lemma wiped_test s : SeenTest (replicate (Z.to_nat (W / 64)) 0) s W = false.
Proof using Hw.
  rewrite SeenTest_bit by done. rewrite arr_get_replicate by (by apply seen_word). apply Z.testbit_0_l.
Qed.

Lemma reset_seen a peerSlot addr id flowId mode epoch cap now : seen_ok (ResetInAssoc a peerSlot addr id flowId mode epoch W cap now) (fun _ => false).
Proof using Hw.
  destruct (W_words w Hw). split; cbn [windowBits Seen recvHighest ResetInAssoc]; try done; [apply zlen_replicate; lia|].
  intros s _. apply wiped_test.
Qed.

(** After the window slid up to [seq], before its own bit is set. *)
Lemma CommitSeen_slide a got seq : seen_ok a got -> recvHighest a < seq ->
  let b := (if W <=? seq - recvHighest a then replicate (Z.to_nat (W / 64)) 0
            else for_up (seen_floor (recvHighest a) W) (Z.to_nat (seen_floor seq W - seen_floor (recvHighest a) W))
                   (fun s seen => SeenClear seen s W) (Seen a)) in
  zlen b = W / 64 /\ forall s, seq - W < s <= seq -> SeenTest b s W = got s.
Proof using Hw.
  intros [Hb Hl Hh Ht Hlow Hab] Hseq. destruct (W_words w Hw) as [HW HW1].
  destruct (Z.leb_spec W (seq - recvHighest a)) as [Hfar|Hnear]; cbv zeta.
  - split; [apply zlen_replicate; lia|]. intros s Hs. rewrite wiped_test. symmetry. apply Hab. lia.
  - set (lo := seen_floor (recvHighest a) W). set (n := Z.to_nat _).
    assert (Hlo : (recvHighest a - W < lo /\ (lo = 1 \/ lo = recvHighest a - W + 1)) /\ 1 <= lo).
    { subst lo. unfold seen_floor. destruct (Z.leb_spec W (recvHighest a)); lia. }
    assert (Hn : (lo + Z.of_nat n = seq - W + 1 \/ (n = 0%nat /\ seq - W + 1 <= lo /\ (lo = 1)))).
    { subst n lo. unfold seen_floor. destruct (Z.leb_spec W (recvHighest a)), (Z.leb_spec W seq); lia. }
    destruct (clear_run_spec (Seen a) n lo (recvHighest a) Hl ltac:(lia) ltac:(lia)) as [Hlen Hb']. cbv zeta in *.
    split; [done|]. intros s Hs.
    destruct (decide (s <= recvHighest a)) as [Hle|Hgt].
    + rewrite Hb' by lia. rewrite Ht by lia.
      destruct (Z.leb_spec lo s), (Z.ltb_spec s (lo + Z.of_nat n)); cbn; try done. lia.
    + (* a sequence the slide made room for: its position held [s - W] *)
      assert (Es : s mod W = (s - W) mod W) by (rewrite <- (Z_mod_plus_full (s - W) 1); f_equal; lia).
      rewrite SeenTest_bit, Es, <- SeenTest_bit by done. rewrite Hb' by lia. rewrite Ht by lia.
      rewrite (Hab s) by lia. 
      destruct (Z.leb_spec lo (s - W)), (Z.ltb_spec (s - W) (lo + Z.of_nat n)); cbn; try done; apply Hlow || (apply Hlow; lia); lia.
Qed.

Lemma CommitSeen_eq a seq :
  CommitSeen a seq = a <| Seen := Seen (CommitSeen a seq) |> <| recvHighest := recvHighest (CommitSeen a seq) |>.
Proof. unfold CommitSeen. destruct (recvHighest a <? seq); by destruct a. Qed.

Lemma CommitSeen_ok a got seq : seen_ok a got -> 1 <= seq -> recvHighest a - W < seq ->
  seen_ok (CommitSeen a seq) (marked seq got) /\ recvHighest (CommitSeen a seq) = Z.max (recvHighest a) seq.
Proof using Hw.
  intros Hok Hpos Hfl. unfold CommitSeen. pose proof Hok as [Hb Hl Hh Ht Hlow Hab]. rewrite Hb.
  assert (Hset : forall bitmap h, zlen bitmap = W / 64 -> h - W < seq <= h ->
    (forall s, h - W < s <= h -> SeenTest bitmap s W = got s) ->
    forall s, h - W < s <= h -> SeenTest (SeenSet bitmap seq W) s W = marked seq got s).
  { intros bitmap h Hlen Hin Hbm s Hs. rewrite SeenTest_Set, Hbm by done. unfold marked. f_equal.
    destruct (Z.eqb_spec (seq mod W) (s mod W)) as [E|E], (Z.eqb_spec s seq) as [E'|E']; try done.
    - apply (seen_index_inj w Hw seq s h) in E; [by subst|lia|lia].
    - by subst. }
  destruct (Z.ltb_spec (recvHighest a) seq) as [Hup|Hdown].
  - destruct (CommitSeen_slide a got seq Hok Hup) as [Hlen Hbm]. cbv zeta in *.
    match type of Hlen with zlen ?b = _ => set (bm := b) in * end. clearbody bm.
    split; [|cbn [recvHighest upd]; lia]. split; cbn [recvHighest windowBits Seen upd]; [done|by rewrite zlen_SeenSet|lia| | |].
    + apply Hset; [done|lia|done].
    + intros s Hs. unfold marked. rewrite Hlow by done. destruct (Z.eqb_spec s seq); [lia|done].
    + intros s Hs. unfold marked. rewrite Hab by lia. destruct (Z.eqb_spec s seq); [lia|done].
  - split; [|cbn [recvHighest upd]; lia]. split; cbn [recvHighest windowBits Seen upd]; [done|by rewrite zlen_SeenSet|lia| | |].
    + apply Hset; [done|lia|done].
    + intros s Hs. unfold marked. rewrite Hlow by done. destruct (Z.eqb_spec s seq); [lia|done].
    + intros s Hs. unfold marked. rewrite Hab by lia. destruct (Z.eqb_spec s seq); [lia|done].
Qed.

Lemma AlreadySeen_ok a got seq : seen_ok a got ->
  AlreadySeen a seq = (seq <=? recvHighest a) && ((seq <=? recvHighest a - W) || (seq <? 1) || got seq).
Proof using Hw.
  intros [Hb Hl Hh Ht Hlow Hab]. unfold AlreadySeen. rewrite Hb.
  destruct (Z.ltb_spec (recvHighest a) seq), (Z.leb_spec seq (recvHighest a)); try lia; try done. cbn [andb].
  unfold seen_floor. destruct (Z.leb_spec W (recvHighest a)).
  - destruct (Z.ltb_spec seq (recvHighest a - W + 1)), (Z.leb_spec seq (recvHighest a - W)); try lia; try done.
    rewrite Ht by lia. destruct (Z.ltb_spec seq 1); [lia|done].
  - destruct (Z.leb_spec seq (recvHighest a - W)); [destruct (Z.ltb_spec seq 1); [done|lia]|]. destruct (Z.ltb_spec seq 1); [done|]. cbn. apply Ht. lia.
Qed.
End SeenWindow.

(** ** Acknowledgement ranges *)

Lemma down_while_spec p floor : forall fuel s, s - floor + 1 <= Z.of_nat fuel -> floor - 1 <= s ->
  let r := down_while fuel p floor s in
  floor - 1 <= r <= s /\ (forall x, r < x <= s -> p x = true) /\ (floor <= r -> p r = false).
Proof.
  induction fuel as [|fuel IH]; intros s Hf Hs; cbn [down_while]; cbv zeta.
  - split_and!; [lia|lia|lia|lia].
  - destruct (Z.leb_spec floor s); cbn [andb]; [|split_and!; lia].
    destruct (p s) eqn:E.
    + destruct (IH (s - 1) ltac:(lia) ltac:(lia)) as (Hr&Hp&Hn). cbv zeta in *. split_and!; [lia|lia| |done].
      intros x Hx. destruct (decide (x = s)) as [->|]; [done|]. apply Hp. lia.
    + split_and!; [lia|lia| |done]. lia.
Qed.

(** Newest first: disjoint, separated ranges at or below [s]. *)
Fixpoint descending (s : Z) (rs : list AckRange) : Prop :=
  match rs with
  | [] => True
  | r :: rs => r_first r <= r_last r <= s /\ descending (r_first r - 2) rs
  end.

(** The lowest sequence a list of [room] ranges accounts for. *)
Definition accounted_from (floor : Z) (room : nat) (rs : list AckRange) : Z :=
  if decide (length rs < room)%nat then floor else match last rs with Some r => r_first r | None => floor end.

Lemma ack_loop_spec test floor : forall room s, (0 < room)%nat -> 1 <= floor -> floor - 1 <= s ->
  let rs := ack_loop room test floor s in
  (length rs <= room)%nat /\ descending s rs /\
  (forall x, SeqInRanges x rs = true -> floor <= x <= s /\ test x = true) /\
  (forall x, accounted_from floor room rs <= x <= s -> test x = true -> SeqInRanges x rs = true).
Proof.
  induction room as [|room IH]; intros s Hroom Hfl Hs; [lia|]. cbn [ack_loop]. cbv zeta.
  destruct (down_while_spec (fun x => negb (test x)) floor (Z.to_nat (s - floor + 1)) s ltac:(lia) Hs) as (H1&H2&H3).
  cbv zeta in *. set (top := down_while _ _ _ s) in *. clearbody top.
  assert (Hskip : forall x, top < x <= s -> test x = false) by (intros x Hx; apply negb_true_iff; by apply H2).
  destruct (Z.ltb_spec top floor) as [Hnone|Hsome].
  - cbn. split_and!; [lia|done|done|]. intros x Hx. unfold accounted_from in Hx. cbn in Hx. rewrite Hskip; [done|].
    destruct (decide _); lia.
  - specialize (H3 ltac:(lia)). apply negb_false_iff in H3.
    destruct (down_while_spec test floor (Z.to_nat (top - floor + 1)) top ltac:(lia) ltac:(lia)) as (K1&K2&K3).
    cbv zeta in *. set (low := down_while _ _ _ top) in *. clearbody low.
    assert (Hlow : low < top). { destruct (decide (low = top)) as [->|]; [|lia]. rewrite K3 in H3 by lia. done. }
    assert (Hstop : forall x, floor <= x -> x = low -> test x = false) by (intros x ? ->; by apply K3).
    set (rest := if low <? floor then [] else ack_loop room test floor low).
    assert (Hrest : (length rest <= room)%nat /\ descending (low - 1) rest /\
      (forall x, SeqInRanges x rest = true -> floor <= x <= low /\ test x = true) /\
      (forall x, accounted_from floor (S room) (mk_range (low + 1) top :: rest) <= x <= low -> test x = true -> SeqInRanges x rest = true)).
    { subst rest. destruct (Z.ltb_spec low floor) as [Hb|Hb].
      - cbn. split_and!; [lia|done|done|]. intros x Hx Ht. unfold accounted_from in Hx. cbn in Hx. destruct (decide _); lia.
      - destruct room as [|room']; [|].
        + cbn. split_and!; [lia|done|done|]. intros x Hx Ht. unfold accounted_from in Hx. cbn in Hx. destruct (decide _); lia.
        + destruct (IH low ltac:(lia) Hfl ltac:(lia)) as (I1&I2&I3&I4). cbv zeta in *.
          set (rs := ack_loop (S room') test floor low) in *.
          split_and!; [done| |done|].
          * destruct rs as [|r rs'] eqn:Ers; [done|]. cbn in I2 |- *. destruct I2 as [Ir Id]. split; [|done].
            split; [lia|]. destruct (decide (r_last r = low)) as [El|]; [|lia]. exfalso.
            assert (Hl : SeqInRanges low (r :: rs') = true) by (cbn; destruct (Z.leb_spec (r_first r) low), (Z.leb_spec low (r_last r)); try done; lia).
            apply I3 in Hl as [_ Hl]. rewrite K3 in Hl by lia. done.
          * intros x Hx Ht. apply I4; [|done]. unfold accounted_from in Hx |- *. cbn [length] in Hx.
            destruct (decide (length rs < S room')%nat), (decide (S (length rs) < S (S room'))%nat); try lia.
            destruct rs as [|r rs'] eqn:Ers; [cbn in *; lia|]. cbn in Hx. cbn. lia. }
    clearbody rest. destruct Hrest as (R1&R2&R3&R4). split_and!.
    + cbn. lia.
    + cbn. split; [lia|]. replace (low + 1 - 2) with (low - 1) by lia. done.
    + intros x. cbn. intros [Hx|Hx]%orb_true_iff.
      * apply andb_true_iff in Hx as [?%Z.leb_le ?%Z.leb_le]. split; [lia|]. apply K2. lia.
      * apply R3 in Hx as [? ?]. split; [lia|done].
    + intros x Hx Ht. cbn. apply orb_true_iff.
      destruct (decide (x <= low)); [right; apply R4; [lia|done]|].
      left. destruct (decide (x <= top)); [|rewrite Hskip in Ht by lia; done].
      apply andb_true_iff. split; apply Z.leb_le; lia.
Qed.

Section AckSpec.
Context (w : Z) (Hw : 6 <= w <= 15).
Abbreviation W := (2 ^ w).

Lemma SeqInRanges_nil s : SeqInRanges s [] = false.
Proof. done. Qed.

(** The ranges name only what the window knows, in order, and everything it knows
    down to where the list ends. *)
Lemma BuildAckRanges_ok a got maxRanges : seen_ok w a got -> 0 <= maxRanges ->
  let rs := BuildAckRanges a maxRanges in
  zlen rs <= maxRanges /\ descending (recvHighest a) rs /\
  (forall s, SeqInRanges s rs = true -> got s = true) /\
  (1 <= maxRanges -> forall s, got s = true -> Z.max 1 (recvHighest a - W + 1) <= s ->
     accounted_from 1 (Z.to_nat maxRanges) rs <= s -> SeqInRanges s rs = true).
Proof using Hw.
  intros [Hb Hl Hh Ht Hlow Hab] Hm. unfold BuildAckRanges. rewrite Hb. cbv zeta.
  destruct (Z.eqb_spec (recvHighest a) 0) as [E0|]; cbn [orb].
  { split_and!; [done|done|done|]. intros _ s Hs ?. destruct (decide (s <= 0)); [lia|]. by rewrite Hab in Hs by lia. }
  destruct (Z.eqb_spec maxRanges 0); [split_and!; [unfold zlen; cbn; lia|done|done|by intros; lia]|].
  set (test := fun s => SeenTest (Seen a) s W). set (floor := seen_floor (recvHighest a) W).
  assert (Hfl : floor = Z.max 1 (recvHighest a - W + 1)) by (subst floor; unfold seen_floor; destruct (Z.leb_spec W (recvHighest a)); lia).
  destruct (ack_loop_spec test floor (Z.to_nat maxRanges) (recvHighest a) ltac:(lia) ltac:(lia)) as (R1&R2&R3&R4).
  { subst floor. unfold seen_floor. pose proof (W_words w Hw). destruct (Z.leb_spec W (recvHighest a)); lia. }
  cbv zeta in *. set (rs := ack_loop _ _ _ _) in *. clearbody rs.
  split_and!; [unfold zlen; lia|done| |].
  - intros s (Hs&Htest)%R3. subst test. cbn in Htest. by rewrite Ht in Htest by lia.
  - intros _ s Hs Hge Hacc.
    assert (s <= recvHighest a) by (destruct (decide (s <= recvHighest a)); [done|by rewrite Hab in Hs by lia]).
    apply R4; [|subst test; cbn; by rewrite Ht by lia]. split; [|lia].
    unfold accounted_from in *. destruct (decide _); [lia|]. destruct (last rs); lia.
Qed.
End AckSpec.
