(* ===== verification/InDeliver.v ===== *)
(** * Receiving half of a flow: delivery

    [QueueReady], [DeliverOrdered], [DeliverUnordered], [DrainHoldbackRun] and the two
    drains of the hold-back ring, of [flux/flow/flow_table.cpp], for one association.
    What they share with the rest of the socket, the ready lanes, the receive pool and
    the occupancy counters, is the record [RecvWorld]; lanes and pool are any
    [ReadyQueue] and any [Allocator].  An incoming packet is its slot index, [INVALID]
    once the association or a lane has taken it; the caller releases what is left. *)

From stdpp Require Import gmap.
From S2P Require Import Prelude Keys FlowData Fifo SlotPool ReadyLanes InFlow.

(** ** Occupancy counters: [flux/peer/peer_recv_state.h] *)

Record PeerRecvState := mk_recv { occupancy : Z; grant : Z; stallReclaims : Z; lastStallMicros : Z }.
#[export] Instance PeerRecvState_eta : Eta PeerRecvState := fun r => mk_recv (occupancy r) (grant r) (stallReclaims r) (lastStallMicros r).
#[export] Instance PeerRecvState_inhabited : Inhabited PeerRecvState := populate (mk_recv 0 0 0 0).

Definition PinOne (p : PeerRecvState) : PeerRecvState := p <| occupancy := u32 (occupancy p + 1) |>.
Definition ReleaseOne (p : PeerRecvState) : PeerRecvState := if 0 <? occupancy p then p <| occupancy := occupancy p - 1 |> else p.
Definition PeerRecvState_Reset (p : PeerRecvState) : PeerRecvState := mk_recv 0 0 0 0.

(** ** What associations share *)

Record RecvWorld (Q S : Type) := mk_world {
  readyLanes : Q; recvPool : S; peerRecvStates : list PeerRecvState; heldTotal : Z; holdCeiling : Z }.
Arguments mk_world {Q S}.
Arguments readyLanes {Q S}.
Arguments recvPool {Q S}.
Arguments peerRecvStates {Q S}.
Arguments heldTotal {Q S}.
Arguments holdCeiling {Q S}.

Section Deliver.
Context {Q S : Type} `{!ReadyQueue Q} `{!Allocator S}.
Abbreviation World := (RecvWorld Q S).
Implicit Types (a : InAssociation) (k : World).

#[export] Instance RecvWorld_eta : Eta World := fun r =>
  mk_world (readyLanes r) (recvPool r) (peerRecvStates r) (heldTotal r) (holdCeiling r).

Definition pin (k : World) (peerSlot : Z) : World :=
  k <| peerRecvStates := (peerRecvStates k).[peerSlot <- PinOne (peerRecvStates k).[peerSlot]] |>
    <| heldTotal := u32 (heldTotal k + 1) |>.
Definition unpin (k : World) (peerSlot : Z) : World :=
  k <| peerRecvStates := (peerRecvStates k).[peerSlot <- ReleaseOne (peerRecvStates k).[peerSlot]] |>
    <| heldTotal := u32 (heldTotal k - 1) |>.

Definition HasRoomFor (k : World) (peerSlot : Z) : bool :=
  let p := (peerRecvStates k).[peerSlot] in
  if negb (grant p =? 0) && (grant p <=? occupancy p) then false
  else heldTotal k <? holdCeiling k.

(** The answer, what is left of the handle, the world. *)
Definition QueueReady (k : World) (idx peerSlot : Z) : option (bool * Z * World) :=
  if idx =? INVALID then Some (false, idx, k)
  else
    '(ok, q) ← rq_push (readyLanes k) (rq_lane (readyLanes k) peerSlot) idx peerSlot;
    let k := k <| readyLanes := q |> in
    if ok : bool then Some (true, INVALID, pin k peerSlot) else Some (false, idx, k).

Definition DeliverUnordered (a : InAssociation) (k : World) (incoming seq now : Z) : option (Z * Z * InAssociation * World) :=
  if AlreadySeen a seq then Some (0, incoming, ArmAckForArrival a false now, k)
  else if bool_decide (ia_mode a = UNRELIABLE) && (seq <=? recvHighest a) then
    Some (0, incoming, ArmAckForArrival (CommitSeen a seq) true now, k)
  else if negb (HasRoomFor k (ia_peerSlot a)) then Some (0, incoming, ArmAckForArrival a false now, k)
  else
    '(ok, incoming, k) ← QueueReady k incoming (ia_peerSlot a);
    if ok : bool then Some (1, incoming, ArmAckForArrival (CommitSeen a seq) true now, k)
    else Some (0, incoming, a, k).

(** The cursor never stops at 0, which marks a sequence never sent. *)
Definition next_seq (seq : Z) : Z := let n := u32 (seq + 1) in if n =? 0 then 1 else n.

Fixpoint drain_run (fuel : nat) (produced : Z) (a : InAssociation) (k : World) : option (Z * InAssociation * World) :=
  match fuel with
  | O => None
  | Datatypes.S fuel' =>
      if 0 <? reorderCap a then
        let at_ := Z.land (ia_recvNext a) (reorderCap a - 1) in
        let held := (Holdback a).[at_] in
        if (h_slot held =? INVALID) || negb (h_seq held =? ia_recvNext a) then Some (produced, a, k)
        else
          '(ok, q) ← rq_push (readyLanes k) (rq_lane (readyLanes k) (ia_peerSlot a)) (h_slot held) (ia_peerSlot a);
          let k := k <| readyLanes := q |> in
          if ok : bool then
            let a := a <| Holdback := (Holdback a).[at_ <- mk_held 0 INVALID] |> in
            let a := if 0 <? heldCount a then a <| heldCount := heldCount a - 1 |> else a in
            drain_run fuel' (produced + 1) (a <| ia_recvNext := next_seq (ia_recvNext a) |>) k
          else Some (produced, a, k)
      else Some (produced, a, k)
  end.

(** Every round empties an entry of the ring, which bounds the loop. *)
Definition DrainHoldbackRun (a : InAssociation) (k : World) : option (Z * InAssociation * World) :=
  drain_run (Datatypes.S (length (Holdback a))) 0 a k.

Definition DeliverOrdered (a : InAssociation) (k : World) (incoming seq now : Z) : option (Z * Z * InAssociation * World) :=
  if seq <? ia_recvNext a then
    Some (0, incoming, ArmAckForArrival (a <| ackImmediate := true |>) false now, k)
  else if seq =? ia_recvNext a then
    if (heldCount a =? 0) && negb (HasRoomFor k (ia_peerSlot a)) then Some (0, incoming, ArmAckForArrival a false now, k)
    else
      '(ok, incoming, k) ← QueueReady k incoming (ia_peerSlot a);
      if ok : bool then
        let a := ArmAckForArrival (CommitSeen a seq) true now in
        let a := a <| ia_recvNext := next_seq seq |> in
        '(produced, a, k) ← DrainHoldbackRun a k;
        Some (1 + produced, incoming, a, k)
      else Some (0, incoming, a, k)
  else if (0 <? reorderCap a) && HasRoomFor k (ia_peerSlot a) && (seq <? u32 (ia_recvNext a + reorderCap a)) then
    let at_ := Z.land seq (reorderCap a - 1) in
    if h_slot (Holdback a).[at_] =? INVALID then
      let a := a <| Holdback := (Holdback a).[at_ <- mk_held seq incoming] |> in
      let a := a <| heldCount := u16 (heldCount a + 1) |> in
      let k := pin k (ia_peerSlot a) in
      let a := CommitSeen a seq in
      let a := a <| ackImmediate := true |> in
      Some (0, INVALID, ArmAckForArrival a true now, k)
    else Some (0, incoming, a, k)
  else Some (0, incoming, ArmAckForArrival (a <| ackImmediate := true |>) false now, k).

(** [DeliverIn] once the association is locked; [now'] is the second clock reading. *)
Definition DeliverIn (a : InAssociation) (k : World) (flowId assocEpoch seq incoming now now' : Z) : option (Z * Z * InAssociation * World) :=
  if (ia_epoch a =? assocEpoch) && bool_decide (ia_life a = OPEN) && (ia_flowId a =? flowId) then
    let cursorBefore := ia_recvNext a in
    '(produced, incoming, a, k) ← (if IsOrdered (ia_mode a) then DeliverOrdered a k incoming seq now else DeliverUnordered a k incoming seq now);
    Some (produced, incoming, (if negb (ia_recvNext a =? cursorBefore) then a <| lastProgressMicros := now' |> else a), k)
  else Some (0, incoming, a, k).

(** One turn of the loops that empty the ring: entry [i], its seen bit when [forget]. *)
Definition drop_entry (forget : bool) (i : Z) (s : option (Z * InAssociation * World)) : option (Z * InAssociation * World) :=
  '(dropped, a, k) ← s;
  let e := (Holdback a).[i] in
  if h_slot e =? INVALID then Some (dropped, a, k)
  else
    p ← al_release (recvPool k) (h_slot e);
    let k := unpin (k <| recvPool := p |>) (ia_peerSlot a) in
    let a := if 0 <? heldCount a then a <| heldCount := heldCount a - 1 |> else a in
    let a := if forget then a <| Seen := SeenClear (Seen a) (h_seq e) (windowBits a) |> else a in
    Some (dropped + 1, a <| Holdback := (Holdback a).[i <- mk_held 0 INVALID] |>, k).

Definition DropInHoldback (a : InAssociation) (k : World) : option (Z * InAssociation * World) :=
  for_up 0 (Z.to_nat (reorderCap a)) (drop_entry true) (Some (0, a, k)).

Definition DrainInHoldback (a : InAssociation) (k : World) : option (InAssociation * World) :=
  '(_, a, k) ← for_up 0 (Z.to_nat (reorderCap a)) (drop_entry false) (Some (0, a, k));
  Some (a, k).

Definition InAssocJammed (flowStallTimeout : Z) (a : InAssociation) (now : Z) : bool :=
  (0 <? reorderCap a) && (ia_recvNext a <=? recvHighest a) && (flowStallTimeout <? Elapsed now (lastProgressMicros a)).

(** The body of the loop of [ReclaimJammedInFlows]; the count is of flows that gave
    something up. *)
Definition ReclaimJammed (flowStallTimeout now peerSlot : Z) (a : InAssociation) (k : World) : option (Z * InAssociation * World) :=
  if InAssocJammed flowStallTimeout a now then
    '(dropped, a, k) ← DropInHoldback a k;
    let k :=
      if 0 <? dropped then
        let p := (peerRecvStates k).[peerSlot] in
        k <| peerRecvStates := (peerRecvStates k).[peerSlot <- p <| stallReclaims := u32 (stallReclaims p + 1) |> <| lastStallMicros := now |>] |>
      else k in
    Some ((if 0 <? dropped then 1 else 0), (ArmAck a now) <| lastProgressMicros := now |>, k)
  else Some (0, a, k).
End Deliver.
