(* ===== verification/InOrder.v ===== *)
(** * Ordered delivery

    What an ordered association promises: a receiver that delivers [1, 2, 3, ...] and
    holds what comes early.  [spec_deliver] is that receiver over a finite map; the
    code refines it, as long as the lanes have the room their set-up gives them.  Then
    whole histories: what reaches the lanes is the sequence of packets in order, every
    packet the association kept is delivered, held or was dropped, and acknowledgement
    ranges name nothing else. *)

From stdpp Require Import gmap.
From S2P Require Import Prelude Keys FlowData Fifo SlotPool ReadyLanes InFlow InDeliver.

(** ** Specification *)

Record ord := mk_ord { o_next : Z; o_held : gmap Z Z }.

Fixpoint spec_run (fuel : nat) (next : Z) (held : gmap Z Z) : list Z * ord :=
  match fuel with
  | O => ([], mk_ord next held)
  | S fuel' =>
      match held !! next with
      | None => ([], mk_ord next held)
      | Some x => let '(l, o) := spec_run fuel' (next + 1) (delete next held) in (x :: l, o)
      end
  end.

(** What is delivered, the new state, and whether the packet was kept. *)
Definition spec_deliver (cap : Z) (room : bool) (o : ord) (seq slot : Z) : list Z * ord * bool :=
  if seq <? o_next o then ([], o, false)
  else if seq =? o_next o then
    if bool_decide (o_held o = ∅) && negb room then ([], o, false)
    else let '(l, o') := spec_run (S (size (o_held o))) (seq + 1) (o_held o) in (slot :: l, o', true)
  else if room && (seq <? o_next o + cap) then
    match o_held o !! seq with
    | None => ([], mk_ord (o_next o) (<[seq := slot]> (o_held o)), true)
    | Some _ => ([], o, false)
    end
  else ([], o, false).

(** ** The relation *)

(** What the association has had: below the cursor or held. *)
Definition got_of (next : Z) (held : gmap Z Z) : Z -> bool :=
  fun s => (1 <=? s) && (s <? next) || bool_decide (is_Some (held !! s)).

Ltac in_cbn := cbn [ia_peerSlot ia_mode ia_life ia_flowId ia_epoch ia_recvNext recvHighest windowBits reorderCap heldCount Seen Holdback
  newSinceFlush ackArmedMicros newestArrivalMicros ackImmediate lastProgressMicros upd] in *.

Section Order.
Context (w e : Z) (Hw : 6 <= w <= 15) (He : 0 <= e <= w).
Abbreviation W := (2 ^ w).
Abbreviation cap := (2 ^ e).
Implicit Types (a : InAssociation) (held : gmap Z Z) (o : ord).

Lemma caps : 1 <= cap <= W /\ W <= 2 ^ 15.
Proof using Hw He.
  pose proof (Z.pow_pos_nonneg 2 e ltac:(lia) ltac:(lia)).
  split; [split; [lia|apply Z.pow_le_mono_r; lia]|apply Z.pow_le_mono_r; lia].
Qed.

Record in_rel (a : InAssociation) (next : Z) (held : gmap Z Z) : Prop := {
  ir_seen : seen_ok w a (got_of next held);
  ir_cap : reorderCap a = cap;
  ir_len : zlen (Holdback a) = cap;
  ir_next : ia_recvNext a = next;
  ir_pos : 1 <= next;
  ir_high : next - 1 <= recvHighest a < next + cap;
  ir_ring : forall s x, held !! s = Some x -> (Holdback a).[s mod cap] = mk_held s x /\ x <> INVALID /\ next <= s < next + cap;
  ir_entry : forall i, 0 <= i < cap -> h_slot (Holdback a).[i] <> INVALID ->
    held !! h_seq (Holdback a).[i] = Some (h_slot (Holdback a).[i]) /\ h_seq (Holdback a).[i] mod cap = i;
  ir_count : heldCount a = Z.of_nat (size held) }.

Lemma seen_ok_ext a got got' : (forall s, got s = got' s) -> seen_ok w a got -> seen_ok w a got'.
Proof. intros E [H1 H2 H3 H4 H5 H6]. split; [done|done|done|intros; rewrite <- E; auto..]. Qed.

Lemma held_size next held : (forall s x, held !! s = Some x -> next <= s < next + cap) -> Z.of_nat (size held) <= cap.
Proof using Hw He.
  intros H. pose proof (Z.pow_pos_nonneg 2 e ltac:(lia) ltac:(lia)).
  assert (Hsub : map fst (map_to_list held) ⊆+ map (fun i => next + i) (upto cap)).
  { apply NoDup_submseteq; [apply NoDup_fst_map_to_list|].
    intros s (p&->&Hp)%list_elem_of_fmap. destruct p as [s x]. apply elem_of_map_to_list in Hp. apply H in Hp.
    apply list_elem_of_fmap. exists (s - next). cbn. split; [lia|]. apply elem_of_upto. lia. }
  apply submseteq_length in Hsub. rewrite !length_map in Hsub. pose proof (zlen_upto cap ltac:(lia)). unfold zlen in *.
  rewrite length_map_to_list in Hsub. lia.
Qed.

Lemma in_rel_size a next held : in_rel a next held -> Z.of_nat (size held) <= cap.
Proof using Hw He. intros Hr. apply (held_size next). intros s x Hs. by apply (ir_ring _ _ _ Hr) in Hs as (_&_&?). Qed.

Lemma ring_at s : Z.land s (cap - 1) = s mod cap.
Proof using Hw He. apply land_mask. lia. Qed.

Lemma ring_range s : 0 <= s mod cap < cap.
Proof using Hw He. apply Z.mod_pos_bound, Z.pow_pos_nonneg; lia. Qed.

Lemma ring_inj lo s t : lo <= s < lo + cap -> lo <= t < lo + cap -> s mod cap = t mod cap -> s = t.
Proof using Hw He.
  intros Hs Ht E. pose proof (Z.pow_pos_nonneg 2 e ltac:(lia) ltac:(lia)). by apply (mod_window_inj cap lo).
Qed.

(** The entry the code looks at for a sequence in the window is the map's. *)
Lemma ring_lookup a next held s : in_rel a next held -> next <= s < next + cap ->
  let en := (Holdback a).[s mod cap] in
  match held !! s with
  | Some x => en = mk_held s x /\ x <> INVALID
  | None => h_slot en = INVALID
  end.
Proof using Hw He.
  intros Hr Hs. cbv zeta. destruct (held !! s) as [x|] eqn:E; [by apply (ir_ring _ _ _ Hr) in E as (?&?&_)|].
  destruct (decide (h_slot (Holdback a).[s mod cap] = INVALID)) as [|Hne]; [done|].
  destruct (ir_entry _ _ _ Hr (s mod cap) (ring_range s) Hne) as [Hh Hm].
  pose proof Hh as Hh'. apply (ir_ring _ _ _ Hr) in Hh' as (_&_&Hin).
  apply (ring_inj next) in Hm; [|done|done]. congruence.
Qed.

(** ** Taking an entry out, putting one in *)

Lemma got_of_deliver next held : is_Some (held !! next) -> 1 <= next ->
  forall s, got_of next held s = got_of (next + 1) (delete next held) s.
Proof.
  intros Hx Hp s. unfold got_of. destruct (decide (s = next)) as [->|Hne].
  - rewrite (bool_decide_eq_true_2 _ Hx). destruct (Z.leb_spec 1 next), (Z.ltb_spec next (next + 1)); done || lia.
  - rewrite lookup_delete_ne by done. f_equal. f_equal. destruct (Z.ltb_spec s next), (Z.ltb_spec s (next + 1)); done || lia.
Qed.

Lemma in_rel_take a a' next held x :
  in_rel a next held -> held !! next = Some x -> 
  Holdback a' = (Holdback a).[next mod cap <- mk_held 0 INVALID] -> heldCount a' = heldCount a - 1 -> ia_recvNext a' = next + 1 ->
  Seen a' = Seen a -> recvHighest a' = recvHighest a -> windowBits a' = windowBits a -> reorderCap a' = reorderCap a ->
  in_rel a' (next + 1) (delete next held).
Proof using Hw He.
  intros Hr Hx EH Ec En ES Eh Ew Er. pose proof (ring_range next) as Hi. pose proof Hr as [[Q1 Q2 Q3 Q4 Q5 Q6] R2 R3 R4 R5 R6 R7 R8 R9].
  pose proof (R7 _ _ Hx) as (Hent&Hxi&_).
  split.
  - apply (seen_ok_ext _ (got_of next held)); [apply got_of_deliver; by eauto|]. by split; rewrite ?ES, ?Eh, ?Ew.
  - by rewrite Er.
  - by rewrite EH, zlen_set.
  - done.
  - lia.
  - rewrite Eh. assert (got_of next held next = true) by (unfold got_of; rewrite Hx, bool_decide_true by done; apply orb_true_r).
    assert (~ recvHighest a < next) by (intros Hlt; rewrite (Q6 next) in * by lia; done). lia.
  - intros s y Hs. apply lookup_delete_Some in Hs as [Hne Hs]. destruct (R7 _ _ Hs) as (Es&Hy&Hin).
    rewrite EH, arr_get_set by (rewrite ?R3; pose proof (ring_range s); lia).
    destruct (Z.eqb_spec (next mod cap) (s mod cap)) as [E|]; [|split_and!; [done|done|lia|lia]].
    apply (ring_inj next) in E; [done|lia|lia].
  - intros i Hir. rewrite EH, arr_get_set by (rewrite ?R3; lia). destruct (Z.eqb_spec (next mod cap) i) as [|Hne]; [by cbn|].
    intros Hs. destruct (R8 i Hir Hs) as [Hh Hm]. split; [|done]. rewrite lookup_delete_ne; [done|]. intros E. by rewrite <- E in Hm.
  - rewrite Ec, R9, map_size_delete_Some by eauto. assert (size held <> 0%nat); [|lia].
    intros Hz%map_size_empty_inv. subst. by rewrite lookup_empty in Hx.
Qed.

Lemma got_of_hold next held seq slot : forall s, marked seq (got_of next held) s = got_of next (<[seq := slot]> held) s.
Proof.
  intros s. unfold marked, got_of. destruct (Z.eqb_spec s seq) as [->|Hne].
  - rewrite lookup_insert_eq, (bool_decide_eq_true_2 (is_Some (Some slot))) by by eexists. by rewrite orb_true_r.
  - by rewrite lookup_insert_ne by done.
Qed.

Lemma got_of_cursor next held : 1 <= next -> forall s, marked next (got_of next held) s = got_of (next + 1) held s.
Proof.
  intros Hp s. unfold marked, got_of. destruct (Z.eqb_spec s next) as [->|].
  - destruct (Z.leb_spec 1 next), (Z.ltb_spec next (next + 1)); done || lia.
  - cbn. f_equal. f_equal. destruct (Z.ltb_spec s next), (Z.ltb_spec s (next + 1)); done || lia.
Qed.
(** ** The code refines the specification *)

(** What delivery leaves alone, and what the relation reads. *)
Definition ident (a : InAssociation) := (ia_peerSlot a, ia_mode a, ia_life a, ia_flowId a, ia_epoch a, ia_flowEpoch a).
Definition core (a : InAssociation) := (windowBits a, Seen a, recvHighest a, reorderCap a, Holdback a, ia_recvNext a, heldCount a).

Lemma in_rel_core a a' next held : core a' = core a -> in_rel a next held -> in_rel a' next held.
Proof.
  intros E [[Q1 Q2 Q3 Q4 Q5 Q6] R2 R3 R4 R5 R6 R7 R8 R9]. injection E as E1 E2 E3 E4 E5 E6 E7.
  split; [split|..]; rewrite ?E1, ?E2, ?E3, ?E4, ?E5, ?E6, ?E7; done.
Qed.

Lemma arm_core a b now : core (ArmAckForArrival a b now) = core a.
Proof. unfold ArmAckForArrival, ArmAck. destruct (newSinceFlush a =? 0), b; case_match; by destruct a. Qed.
Lemma arm_ident a b now : ident (ArmAckForArrival a b now) = ident a.
Proof. unfold ArmAckForArrival, ArmAck. destruct (newSinceFlush a =? 0), b; case_match; by destruct a. Qed.
Lemma commit_ident a seq : ident (CommitSeen a seq) = ident a.
Proof. by rewrite CommitSeen_eq. Qed.
Lemma commit_fields a seq : windowBits (CommitSeen a seq) = windowBits a /\ reorderCap (CommitSeen a seq) = reorderCap a /\
  Holdback (CommitSeen a seq) = Holdback a /\ ia_recvNext (CommitSeen a seq) = ia_recvNext a /\ heldCount (CommitSeen a seq) = heldCount a.
Proof. by rewrite CommitSeen_eq. Qed.

Context {Q T : Type} `{!ReadyQueue Q} `{!Allocator T}.
Implicit Types (k : RecvWorld Q T) (c : Z -> list ReadyEntry).

(** [l] was appended to the peer's lane and nothing else about the lanes changed. *)
Definition lanes_gain k k' (n : Z) c (peer : Z) (l : list Z) : Prop :=
  exists c', rq_holds (readyLanes k') n c' /\ (forall p, rq_lane (readyLanes k') p = rq_lane (readyLanes k) p) /\
    c' (rq_lane (readyLanes k) peer) = c (rq_lane (readyLanes k) peer) ++ map (fun x => mk_ready x peer) l /\
    (forall y, y <> rq_lane (readyLanes k) peer -> c' y = c y).

(** Room for [m] more packets in the peer's lane. *)
Definition lane_room k (n : Z) c (peer m : Z) : Prop :=
  0 <= peer /\ rq_holds (readyLanes k) n c /\ zlen (c (rq_lane (readyLanes k) peer)) + m <= n.

Lemma lanes_gain_nil k n c peer : rq_holds (readyLanes k) n c -> lanes_gain k k n c peer [].
Proof. intros H. exists c. split_and!; [done|done|by rewrite app_nil_r|done]. Qed.

Lemma lanes_gain_push k n c peer x m : lane_room k n c peer (m + 1) -> 0 <= m ->
  exists q, rq_push (readyLanes k) (rq_lane (readyLanes k) peer) x peer = Some (true, q) /\
    forall k', readyLanes k' = q -> exists c', lane_room k' n c' peer m /\
      forall k2 l, lanes_gain k' k2 n c' peer l -> lanes_gain k k2 n c peer (x :: l).
Proof.
  intros (Hp&Hh&Hroom) Hm. destruct (rq_push_ok _ _ _ peer x Hp Hh) as (ok&q&E&Hl&Hok&Hh').
  rewrite Hok in * by lia. exists q. split; [done|]. intros k' <-.
  eexists. split.
  - split_and!; [done|exact Hh'|]. rewrite Hl, fupd_eq, zlen_app. change (zlen [_]) with 1. lia.
  - intros k2 l (c2&H2&Hl2&Hc2&Ho2). exists c2. rewrite Hl in Hc2, Ho2. rewrite fupd_eq in Hc2. split_and!; [done| | |].
    + intros p. by rewrite Hl2, Hl.
    + rewrite Hc2. by rewrite <- app_assoc.
    + intros y Hy. rewrite Ho2, fupd_ne by done. done.
Qed.

Lemma next_seq_small s : 0 <= s -> s + 1 < 2 ^ 32 -> next_seq s = s + 1.
Proof. intros H1 H2. unfold next_seq. rewrite u32_small by lia. destruct (Z.eqb_spec (s + 1) 0); [lia|done]. Qed.

Lemma drain_run_refines n : forall fuel produced a k c next held,
  in_rel a next held -> (size held < fuel)%nat -> lane_room k n c (ia_peerSlot a) (Z.of_nat (size held)) -> next + Z.of_nat fuel < 2 ^ 32 ->
  let '(l, o) := spec_run fuel next held in
  exists a' k', drain_run fuel produced a k = Some (produced + zlen l, a', k') /\
    in_rel a' (o_next o) (o_held o) /\ o_held o !! o_next o = None /\ ident a' = ident a /\
    lanes_gain k k' n c (ia_peerSlot a) l /\ k' = k <| readyLanes := readyLanes k' |>.
Proof using Hw He.
  induction fuel as [|fuel IH]; intros produced a k c next held Hr Hf Hroom Hlim; [lia|].
  cbn [spec_run drain_run]. rewrite (ir_cap _ _ _ Hr), (ir_next _ _ _ Hr), ring_at.
  pose proof (Z.pow_pos_nonneg 2 e ltac:(lia) ltac:(lia)). destruct (Z.ltb_spec 0 cap); [|lia]. cbv zeta.
  pose proof (ring_lookup a next held next Hr ltac:(lia)) as Hent. cbv zeta in Hent.
  destruct (held !! next) as [x|] eqn:E.
  - destruct Hent as [Hent Hx]. rewrite Hent. cbn [h_slot h_seq].
    destruct (Z.eqb_spec x INVALID); [done|]. rewrite Z.eqb_refl. cbn [orb negb].
    assert (Hsz : Z.of_nat (size held) = Z.of_nat (size (delete next held)) + 1).
    { rewrite map_size_delete_Some by eauto. assert (size held <> 0%nat); [|lia]. intros Hz%map_size_empty_inv. subst. by rewrite lookup_empty in E. }
    rewrite Hsz in Hroom. destruct (lanes_gain_push k n c (ia_peerSlot a) x _ Hroom ltac:(lia)) as (q&Eq&Hq).
    rewrite Eq. cbn [mbind option_bind].
    repeat match goal with |- context [heldCount (?r <| Holdback := ?h |>)] => change (heldCount (r <| Holdback := h |>)) with (heldCount r) end.
    rewrite (ir_count _ _ _ Hr). destruct (Z.ltb_spec 0 (Z.of_nat (size held))); [|lia].
    match goal with |- context [next_seq (ia_recvNext ?r)] => change (ia_recvNext r) with (ia_recvNext a) end.
    rewrite (ir_next _ _ _ Hr), next_seq_small by (pose proof (ir_pos _ _ _ Hr); lia).
    set (k1 := k <| readyLanes := q |>). destruct (Hq k1 eq_refl) as (c1&Hroom1&Hgain).
    set (a1 := _ <| ia_recvNext := next + 1 |>).
    assert (Hr1 : in_rel a1 (next + 1) (delete next held)).
    { apply (in_rel_take a a1 next held x Hr E); try reflexivity. by rewrite (ir_count _ _ _ Hr). }
    specialize (IH (produced + 1) a1 k1 c1 (next + 1) (delete next held) Hr1 ltac:(lia) Hroom1 ltac:(lia)).
    destruct (spec_run fuel (next + 1) (delete next held)) as [l o]. destruct IH as (a'&k'&E'&Hr'&Hn'&Hs'&Hg'&Hk').
    exists a', k'. split_and!; [|done|done| | |].
    + rewrite E'. replace (zlen (x :: l)) with (zlen l + 1) by (unfold zlen; cbn [length]; lia). by replace (produced + (zlen l + 1)) with (produced + 1 + zlen l) by lia.
    + by rewrite Hs'.
    + by apply Hgain.
    + rewrite Hk'. by destruct k.
  - rewrite Hent. cbn [orb]. exists a, k. destruct Hroom as (_&Hh&_). split_and!; try done.
    + change (zlen []) with 0. by rewrite Z.add_0_r.
    + by apply lanes_gain_nil.
    + by destruct k.
Qed.
Lemma spec_run_more : forall f1 f2 next held, (size held < f1)%nat -> (size held < f2)%nat -> spec_run f1 next held = spec_run f2 next held.
Proof.
  induction f1 as [|f1 IH]; intros [|f2] next held H1 H2; [lia|lia|lia|]. cbn. destruct (held !! next) as [x|] eqn:E; [|done].
  assert (size held = Datatypes.S (size (delete next held))).
  { rewrite map_size_delete_Some by eauto. assert (size held <> 0%nat); [|lia]. intros Hz%map_size_empty_inv. subst. by rewrite lookup_empty in E. }
  rewrite (IH f2) by lia. done.
Qed.

(** The cursor's packet is in: the cursor moves, and its bit is set. *)
Lemma in_rel_cursor a a' next held : in_rel a next held -> held !! next = None ->
  core a' = core ((CommitSeen a next) <| ia_recvNext := next + 1 |>) -> in_rel a' (next + 1) held.
Proof using Hw He.
  intros Hr Hn E. apply (in_rel_core _ a' _ _ E). clear a' E.
  pose proof Hr as [R1 R2 R3 R4 R5 R6 R7 R8 R9]. destruct (commit_fields a next) as (E1&E2&E3&E4&E5).
  pose proof caps.
  destruct (CommitSeen_ok w Hw a _ next R1 ltac:(lia) ltac:(lia)) as [Hok Hh].
  split; cbn [reorderCap Holdback ia_recvNext recvHighest heldCount upd]; rewrite ?E2, ?E3, ?E5, ?Hh; try done; try lia.
  - apply (seen_ok_ext _ (marked next (got_of next held))); [exact (got_of_cursor next held R5)|]. rewrite <- Hh, <- E2, <- E3, <- E5. by destruct Hok; split.
  - intros s x Hs. destruct (R7 _ _ Hs) as (?&?&?). assert (s <> next) by (intros ->; by rewrite Hs in Hn). split_and!; [done|done|lia|lia].
Qed.

(** A packet ahead of the cursor is held. *)
Lemma in_rel_hold a a' next held seq slot : in_rel a next held -> held !! seq = None -> next < seq < next + cap -> slot <> INVALID ->
  core a' = core (CommitSeen (a <| Holdback := (Holdback a).[seq mod cap <- mk_held seq slot] |> <| heldCount := heldCount a + 1 |>) seq) ->
  in_rel a' next (<[seq := slot]> held).
Proof using Hw He.
  intros Hr Hn Hs Hx E. apply (in_rel_core _ a' _ _ E). clear a' E. pose proof Hr as [R1 R2 R3 R4 R5 R6 R7 R8 R9].
  set (b := a <| Holdback := _ |> <| heldCount := _ |>). destruct (commit_fields b seq) as (E1&E2&E3&E4&E5).
  assert (Hb : seen_ok w b (got_of next held)) by (by destruct R1; split).
  pose proof caps. pose proof (ring_range seq).
  destruct (CommitSeen_ok w Hw b _ seq Hb ltac:(lia)) as [Hok Hh]; [change (recvHighest b) with (recvHighest a); lia|].
  change (recvHighest b) with (recvHighest a) in *. change (heldCount b) with (heldCount a + 1) in *.
  change (Holdback b) with ((Holdback a).[seq mod cap <- mk_held seq slot]) in *.
  change (reorderCap b) with (reorderCap a) in *. change (ia_recvNext b) with (ia_recvNext a) in *.
  assert (Hother : forall s, next <= s < next + cap -> seq mod cap = s mod cap -> s = seq).
  { intros s Hin Em. symmetry. apply (ring_inj next); [lia|lia|done]. }
  split; rewrite ?E2, ?E3, ?E4, ?E5, ?Hh; try done; try lia.
  - apply (seen_ok_ext _ (marked seq (got_of next held))); [apply got_of_hold|done].
  - by rewrite zlen_set.
  - intros s x Hl. pose proof (ring_range s). rewrite arr_get_set by lia. apply lookup_insert_Some in Hl as [[<- <-]|[Hne Hl]].
    + rewrite Z.eqb_refl. split_and!; [done|done|lia|lia].
    + destruct (R7 _ _ Hl) as (Ex&Hx'&Hin). destruct (Z.eqb_spec (seq mod cap) (s mod cap)) as [Em|]; [|split_and!; [done|done|lia|lia]].
      by apply Hother in Em.
  - intros i Hi. rewrite arr_get_set by lia. destruct (Z.eqb_spec (seq mod cap) i) as [<-|Hne].
    + cbn [h_slot h_seq]. intros _. by rewrite lookup_insert_eq.
    + intros Hs'. destruct (R8 i Hi Hs') as [Hl Hm]. split; [|done]. rewrite lookup_insert_ne; [done|]. intros E'. by rewrite <- E' in Hm.
  - rewrite map_size_insert_None by done. lia.
Qed.
(** The shape of one step's outcome. *)
Definition delivers n a k c slot (l : list Z) o (kept : bool) (r : option (Z * Z * InAssociation * RecvWorld Q T)) : Prop :=
  exists a' k', r = Some (zlen l, (if kept then INVALID else slot), a', k') /\
    in_rel a' (o_next o) (o_held o) /\ o_held o !! o_next o = None /\ ident a' = ident a /\
    lanes_gain k k' n c (ia_peerSlot a) l /\ k' = (if kept then pin k (ia_peerSlot a) else k) <| readyLanes := readyLanes k' |>.

Lemma delivers_nothing n a a' k c slot next held :
  in_rel a next held -> held !! next = None -> rq_holds (readyLanes k) n c -> core a' = core a -> ident a' = ident a ->
  delivers n a k c slot [] (mk_ord next held) false (Some (0, slot, a', k)).
Proof.
  intros Hr Hn Hh Ec Ei. exists a', k. split_and!; [done| |done|done|by apply lanes_gain_nil|by destruct k].
  by apply (in_rel_core a).
Qed.

Lemma DeliverOrdered_cursor n a k c slot next held now :
  in_rel a next held -> held !! next = None -> lane_room k n c (ia_peerSlot a) (Z.of_nat (size held) + 1) ->
  next + cap + 2 < 2 ^ 32 -> slot <> INVALID ->
  let '(l, o) := spec_run (Datatypes.S (size held)) (next + 1) held in
  delivers n a k c slot (slot :: l) o true
    ('(ok, incoming, k) ← QueueReady k slot (ia_peerSlot a);
     if ok : bool then
       let a := ArmAckForArrival (CommitSeen a next) true now in
       let a := a <| ia_recvNext := next_seq next |> in
       '(produced, a, k) ← DrainHoldbackRun a k;
       Some (1 + produced, incoming, a, k)
     else Some (0, incoming, a, k)).
Proof using Hw He.
  intros Hr Hn Hroom Hlim Hx. unfold QueueReady. destruct (Z.eqb_spec slot INVALID); [done|].
  destruct (lanes_gain_push k n c (ia_peerSlot a) slot _ Hroom ltac:(lia)) as (q&Eq&Hq). rewrite Eq. cbn [mbind option_bind]. cbv zeta.
  set (k1 := pin _ _). destruct (Hq k1 eq_refl) as (c1&Hroom1&Hgain). rewrite next_seq_small by (pose proof (ir_pos _ _ _ Hr); lia).
  set (a1 := _ <| ia_recvNext := next + 1 |>).
  assert (Ec : core a1 = core ((CommitSeen a next) <| ia_recvNext := next + 1 |>)).
  { pose proof (arm_core (CommitSeen a next) true now) as E. subst a1. revert E. generalize (ArmAckForArrival (CommitSeen a next) true now).
    intros b E. injection E as E1 E2 E3 E4 E5 E6 E7. unfold core. in_cbn. by rewrite E1, E2, E3, E4, E5, E7. }
  assert (Ei : ident a1 = ident a).
  { pose proof (arm_ident (CommitSeen a next) true now) as E. rewrite commit_ident in E. subst a1. revert E.
    generalize (ArmAckForArrival (CommitSeen a next) true now). intros b E. by destruct b. }
  pose proof (in_rel_cursor a a1 next held Hr Hn Ec) as Hr1. clearbody a1. pose proof (in_rel_size _ _ _ Hr1) as Hsz.
  assert (Hlen : Z.of_nat (length (Holdback a1)) = cap) by apply (ir_len _ _ _ Hr1).
  assert (Hpeer : ia_peerSlot a1 = ia_peerSlot a) by (by injection Ei).
  unfold DrainHoldbackRun. rewrite <- Hpeer in Hroom1.
  pose proof (drain_run_refines n (Datatypes.S (length (Holdback a1))) 0 a1 k1 c1 (next + 1) held Hr1 ltac:(lia) Hroom1 ltac:(lia)) as Hd.
  rewrite (spec_run_more _ (Datatypes.S (size held))) in Hd by lia.
  destruct (spec_run _ _ _) as [l o]. destruct Hd as (a'&k'&E&Hr'&Hn'&Hi'&Hg'&Hk'). rewrite E. cbn [mbind option_bind].
  exists a', k'. split_and!; [|done|done|by rewrite Hi'| |].
  - replace (zlen (slot :: l)) with (1 + (0 + zlen l)) by (unfold zlen; cbn [length]; lia). done.
  - rewrite Hpeer in Hg'. by apply Hgain.
  - rewrite Hk'. subst k1. by destruct k.
Qed.

Lemma DeliverOrdered_refines n a k c slot seq next held now :
  in_rel a next held -> held !! next = None -> lane_room k n c (ia_peerSlot a) (Z.of_nat (size held) + 1) ->
  next + cap + 2 < 2 ^ 32 -> slot <> INVALID ->
  let '(l, o, kept) := spec_deliver cap (HasRoomFor k (ia_peerSlot a)) (mk_ord next held) seq slot in
  delivers n a k c slot l o kept (DeliverOrdered a k slot seq now).
Proof using Hw He.
  intros Hr Hn Hroom Hlim Hx. pose proof Hroom as (Hp&Hh&_).
  unfold spec_deliver, DeliverOrdered. cbn [o_next o_held]. rewrite (ir_next _ _ _ Hr), (ir_cap _ _ _ Hr).
  assert (Hquiet : forall b, delivers n a k c slot [] (mk_ord next held) false (Some (0, slot, ArmAckForArrival a b now, k))).
  { intros b. apply delivers_nothing; [done|done|done|apply arm_core|apply arm_ident]. }
  assert (Hloud : delivers n a k c slot [] (mk_ord next held) false (Some (0, slot, ArmAckForArrival (a <| ackImmediate := true |>) false now, k))).
  { apply delivers_nothing; [done|done|done|by rewrite arm_core; destruct a|by rewrite arm_ident; destruct a]. }
  destruct (Z.ltb_spec seq next) as [|Hge]; [exact Hloud|].
  destruct (Z.eqb_spec seq next) as [->|Hne].
  - assert (Eh : bool_decide (held = ∅) = (heldCount a =? 0)).
    { rewrite (ir_count _ _ _ Hr). destruct (Z.eqb_spec (Z.of_nat (size held)) 0) as [E0|E0].
      - apply bool_decide_eq_true. apply map_size_empty_iff. lia.
      - apply bool_decide_eq_false. intros ->. rewrite map_size_empty in E0. lia. }
    rewrite Eh. destruct ((heldCount a =? 0) && negb (HasRoomFor k (ia_peerSlot a))); [apply Hquiet|].
    pose proof (DeliverOrdered_cursor n a k c slot next held now Hr Hn Hroom Hlim Hx) as Hd.
    destruct (spec_run _ _ _) as [l o]. exact Hd.
  - pose proof (Z.pow_pos_nonneg 2 e ltac:(lia) ltac:(lia)). pose proof caps. pose proof (ir_pos _ _ _ Hr).
    destruct (Z.ltb_spec 0 cap); [|lia]. rewrite u32_small by lia. cbn [andb].
    destruct (HasRoomFor k (ia_peerSlot a)); cbn [andb]; [|exact Hloud].
    destruct (Z.ltb_spec seq (next + cap)) as [Hin|]; [|exact Hloud].
    rewrite ring_at. pose proof (ring_lookup a next held seq Hr ltac:(lia)) as Hl. cbv zeta in Hl.
    destruct (held !! seq) as [x|] eqn:E.
    + destruct Hl as [-> Hx']. cbn [h_slot]. destruct (Z.eqb_spec x INVALID); [done|]. by apply delivers_nothing.
    + rewrite Hl, Z.eqb_refl. cbv zeta. pose proof (in_rel_size _ _ _ Hr) as Hsz.
      match goal with |- context [u16 (heldCount ?b + 1)] => change (heldCount b) with (heldCount a) end.
      rewrite (u16_small (heldCount a + 1)) by (rewrite (ir_count _ _ _ Hr); change (2 ^ 15) with 32768 in *; lia).
      set (b := a <| Holdback := _ |> <| heldCount := _ |>).
      eexists _, _. split; [reflexivity|]. cbn [o_next o_held]. split_and!.
      * apply (in_rel_hold a _ next held seq slot Hr E); [lia|done|]. fold b. rewrite arm_core. by destruct (CommitSeen b seq).
      * rewrite lookup_insert_ne by lia. done.
      * rewrite arm_ident. transitivity (ident (CommitSeen b seq)); [by destruct (CommitSeen b seq)|]. rewrite commit_ident. by destruct a.
      * exists c. split_and!; [done|done|by rewrite app_nil_r|done].
      * by destruct k.
Qed.
(** ** Emptying the hold-back ring *)

(** The slots a map names. *)
Definition slots_of held : list Z := map snd (map_to_list held).

Lemma slots_of_delete held s x : held !! s = Some x -> slots_of held ≡ₚ x :: slots_of (delete s held).
Proof. intros Hx. unfold slots_of. by rewrite <- (map_to_list_delete held s x Hx). Qed.

Lemma slots_of_insert held s x : held !! s = None -> slots_of (<[s := x]> held) ≡ₚ x :: slots_of held.
Proof. intros Hx. unfold slots_of. by rewrite map_to_list_insert. Qed.

Lemma slots_of_empty : slots_of ∅ = [].
Proof. unfold slots_of. by rewrite map_to_list_empty. Qed.

Lemma zlen_slots_of held : zlen (slots_of held) = Z.of_nat (size held).
Proof. unfold slots_of, zlen. by rewrite length_map, length_map_to_list. Qed.

(** The part of the relation the ring alone carries. *)
Record ring_rel a held : Prop := {
  rr_cap : reorderCap a = cap;
  rr_len : zlen (Holdback a) = cap;
  rr_ring : forall s x, held !! s = Some x -> (Holdback a).[s mod cap] = mk_held s x /\ x <> INVALID;
  rr_entry : forall i, 0 <= i < cap -> h_slot (Holdback a).[i] <> INVALID ->
    held !! h_seq (Holdback a).[i] = Some (h_slot (Holdback a).[i]) /\ h_seq (Holdback a).[i] mod cap = i;
  rr_count : heldCount a = Z.of_nat (size held) }.

Lemma in_rel_ring a next held : in_rel a next held -> ring_rel a held.
Proof. intros [R1 R2 R3 R4 R5 R6 R7 R8 R9]. split; try done. intros s x Hx. by apply R7 in Hx as (?&?&_). Qed.

Lemma ring_rel_remove a a' held i s : ring_rel a held -> 0 <= i < cap -> s mod cap = i -> is_Some (held !! s) ->
  Holdback a' = (Holdback a).[i <- mk_held 0 INVALID] -> heldCount a' = heldCount a - 1 -> reorderCap a' = reorderCap a ->
  ring_rel a' (delete s held).
Proof using Hw He.
  intros [R2 R3 R7 R8 R9] Hi Hs [x Hx] EH Ec Er. split.
  - by rewrite Er.
  - by rewrite EH, zlen_set.
  - intros t y Hy. apply lookup_delete_Some in Hy as [Hne Hy]. destruct (R7 _ _ Hy) as [Et Hyi]. destruct (R7 _ _ Hx) as [Es _].
    rewrite EH, arr_get_set by (rewrite ?R3; pose proof (ring_range t); lia). destruct (Z.eqb_spec i (t mod cap)) as [E|]; [|done].
    exfalso. apply Hne. rewrite <- E, <- Hs, Es in Et. by injection Et.
  - intros j Hj. rewrite EH, arr_get_set by (rewrite ?R3; lia). destruct (Z.eqb_spec i j) as [|Hne]; [by cbn|].
    intros Hsl. destruct (R8 j Hj Hsl) as [Hh Hm]. split; [|done]. rewrite lookup_delete_ne; [done|]. intros E. rewrite <- E in Hm. lia.
  - rewrite Ec, R9, map_size_delete_Some by eauto. assert (size held <> 0%nat); [|lia].
    intros Hz%map_size_empty_inv. subst. by rewrite lookup_empty in Hx.
Qed.

Definition unpins (d : Z) (peer : Z) k : RecvWorld Q T := Nat.iter (Z.to_nat d) (fun k => unpin k peer) k.

Lemma unpins_S d peer k : 0 <= d -> unpins (d + 1) peer k = unpin (unpins d peer k) peer.
Proof. intros Hd. unfold unpins. by rewrite Z2Nat.inj_add, Nat.add_comm by lia. Qed.

(** One entry: what it held goes back to the pool, its seen bit with it if asked. *)
Lemma drop_entry_spec forget i d a k next held m rest :
  ring_rel a held -> 0 <= i < cap -> al_owns (recvPool k) m (slots_of held ++ rest) -> (forget = true -> seen_ok w a (got_of next held)) ->
  (forall s, is_Some (held !! s) -> next < s /\ recvHighest a - W < s) ->
  exists d' a' k' held', drop_entry forget i (Some (d, a, k)) = Some (d', a', k') /\
    ring_rel a' held' /\ (forall s, is_Some (held' !! s) -> is_Some (held !! s) /\ s mod cap <> i) /\
    al_owns (recvPool k') m (slots_of held' ++ rest) /\ (forget = true -> seen_ok w a' (got_of next held')) /\
    ident a' = ident a /\ ia_recvNext a' = ia_recvNext a /\ recvHighest a' = recvHighest a /\
    d' + Z.of_nat (size held') = d + Z.of_nat (size held) /\ d <= d' /\
    k' = (unpins (d' - d) (ia_peerSlot a) k) <| recvPool := recvPool k' |>.
Proof using Hw He.
  intros Hr Hi Hown Hseen Hin. unfold drop_entry. cbn [mbind option_bind]. cbv zeta.
  destruct (Z.eqb_spec (h_slot (Holdback a).[i]) INVALID) as [Hnone|Hsome].
  - exists d, a, k, held. split_and!; try done; try lia.
    + intros s Hs. split; [done|]. intros Hm. destruct Hs as [x Hx]. 
      destruct (rr_ring _ _ Hr _ _ Hx) as [Es Hxi]. rewrite Hm in Es. by rewrite Es in Hnone.
    + rewrite Z.sub_diag. by destruct k.
  - destruct (rr_entry _ _ Hr i Hi Hsome) as [Hx Hm]. set (s := h_seq (Holdback a).[i]) in *. set (x := h_slot (Holdback a).[i]) in *.
    assert (Hown' : al_owns (recvPool k) m (x :: slots_of (delete s held) ++ rest)).
    { eapply al_perm; [|exact Hown]. by rewrite (slots_of_delete _ _ _ Hx). }
    destruct (al_release_ok _ _ _ _ Hown') as (p&->&Hp). cbn [mbind option_bind].
    assert (Hsz : Z.of_nat (size held) = Z.of_nat (size (delete s held)) + 1).
    { pose proof (slots_of_delete _ _ _ Hx) as E. apply Permutation_length in E. cbn in E.
      rewrite <- !zlen_slots_of. unfold zlen. lia. }
    rewrite (rr_count _ _ Hr). destruct (Z.ltb_spec 0 (Z.of_nat (size held))); [|lia].
    set (k1 := unpin _ _). set (a1 := a <| heldCount := _ |>).
    set (a2 := if forget then _ else a1). set (a3 := a2 <| Holdback := _ |>).
    assert (Ea : ident a3 = ident a /\ ia_recvNext a3 = ia_recvNext a /\ recvHighest a3 = recvHighest a /\ reorderCap a3 = reorderCap a /\
      Holdback a3 = (Holdback a).[i <- mk_held 0 INVALID] /\ heldCount a3 = heldCount a - 1 /\ windowBits a3 = windowBits a /\
      Seen a3 = if forget then SeenClear (Seen a) s (windowBits a) else Seen a).
    { subst a3 a2 a1. rewrite (rr_count _ _ Hr). destruct forget; by destruct a. }
    destruct Ea as (F1&F2&F3&F4&F5&F6&F7&F8). clearbody a3.
    exists (d + 1), a3, k1, (delete s held). split_and!; try done; try lia.
    + apply (ring_rel_remove a a3 held i s Hr Hi Hm); [by eexists|done..].
    + intros t [y Hy]. apply lookup_delete_Some in Hy as [Hne Hy]. split; [by eexists|]. intros E.
      destruct (rr_ring _ _ Hr _ _ Hy) as [Et _]. destruct (rr_ring _ _ Hr _ _ Hx) as [Es _]. rewrite E in Et. rewrite Hm, Et in Es. injection Es as E'. done.
    + intros ->. specialize (Hseen eq_refl). destruct Hseen as [Q1 Q2 Q3 Q4 Q5 Q6]. 
      destruct (Hin s ltac:(by eexists)) as [Hns Hwin]. rewrite Q1 in F8.
      split; rewrite ?F7, ?F3; try done.
      * by rewrite F8, zlen_SeenClear.
      * intros t Ht. rewrite F8, SeenTest_Clear, Q4 by done. unfold got_of. destruct (decide (t = s)) as [->|Hne].
        -- rewrite Z.eqb_refl, lookup_delete_eq. cbn. destruct (Z.ltb_spec s next); [lia|]. by rewrite andb_false_r.
        -- rewrite lookup_delete_ne by done. destruct (Z.eqb_spec (s mod W) (t mod W)) as [E|]; [|done].
           exfalso. apply Hne. symmetry. apply (seen_index_inj w Hw s t (recvHighest a)); [|done|done].
           split; [done|]. destruct (decide (s <= recvHighest a)); [done|]. specialize (Q6 s ltac:(lia)). unfold got_of in Q6.
           rewrite Hx, (bool_decide_eq_true_2 (is_Some (Some x))), orb_true_r in Q6 by by eexists. done.
      * intros t Ht. specialize (Q5 t Ht). unfold got_of in *. destruct (decide (t = s)) as [->|]; [|by rewrite lookup_delete_ne].
        rewrite Hx, (bool_decide_eq_true_2 (is_Some (Some x))), orb_true_r in Q5 by by eexists. done.
      * intros t Ht. specialize (Q6 t Ht). unfold got_of in *. destruct (decide (t = s)) as [->|]; [|by rewrite lookup_delete_ne].
        rewrite Hx, (bool_decide_eq_true_2 (is_Some (Some x))), orb_true_r in Q6 by by eexists. done.
    + subst k1. replace (d + 1 - d) with (0 + 1) by lia. rewrite unpins_S by lia. by destruct k.
Qed.
Lemma unpins_pool d peer k p : unpins d peer (k <| recvPool := p |>) = (unpins d peer k) <| recvPool := p |>.
Proof. unfold unpins. induction (Z.to_nat d) as [|n IH]; [done|]. rewrite !Nat.iter_succ, IH. by destruct (Nat.iter n _ k). Qed.

Lemma unpins_add d d' peer k : 0 <= d -> 0 <= d' -> unpins d' peer (unpins d peer k) = unpins (d + d') peer k.
Proof. intros. unfold unpins. rewrite Z.add_comm, Z2Nat.inj_add, Nat.iter_add by lia. done. Qed.

Lemma drop_loop_spec forget a k next held m rest :
  ring_rel a held -> al_owns (recvPool k) m (slots_of held ++ rest) -> (forget = true -> seen_ok w a (got_of next held)) ->
  (forall s, is_Some (held !! s) -> next < s /\ recvHighest a - W < s) ->
  exists a' k', for_up 0 (Z.to_nat cap) (drop_entry forget) (Some (0, a, k)) = Some (Z.of_nat (size held), a', k') /\
    ring_rel a' ∅ /\ al_owns (recvPool k') m rest /\ (forget = true -> seen_ok w a' (got_of next ∅)) /\
    ident a' = ident a /\ ia_recvNext a' = ia_recvNext a /\ recvHighest a' = recvHighest a /\
    k' = (unpins (Z.of_nat (size held)) (ia_peerSlot a) k) <| recvPool := recvPool k' |>.
Proof using Hw He.
  intros Hr Hown Hseen Hin. pose proof caps.
  pose proof (for_up_inv (fun i s => exists d a' k' held', s = Some (d, a', k') /\ ring_rel a' held' /\
      (forall t, is_Some (held' !! t) -> is_Some (held !! t) /\ i <= t mod cap) /\ al_owns (recvPool k') m (slots_of held' ++ rest) /\
      (forget = true -> seen_ok w a' (got_of next held')) /\ ident a' = ident a /\ ia_recvNext a' = ia_recvNext a /\ recvHighest a' = recvHighest a /\
      d + Z.of_nat (size held') = Z.of_nat (size held) /\ 0 <= d /\ k' = (unpins d (ia_peerSlot a) k) <| recvPool := recvPool k' |>)
    0 (Z.to_nat cap) (drop_entry forget) (Some (0, a, k))) as Hinv.
  destruct Hinv as (d&a'&k'&held'&E&Hr'&Hsub&Hown'&Hseen'&Hi'&Hn'&Hh'&Hd&Hd0&Hk').
  - exists 0, a, k, held. split_and!; try done; try lia; [|by destruct k]. intros t Ht. split; [done|]. apply ring_range.
  - intros i s Hi (d&a1&k1&held1&->&Hr1&Hsub1&Hown1&Hseen1&Hi1&Hn1&Hh1&Hd1&Hd01&Hk1).
    destruct (drop_entry_spec forget i d a1 k1 next held1 m rest Hr1 ltac:(lia) Hown1 Hseen1) as (d2&a2&k2&held2&E2&Hr2&Hsub2&Hown2&Hseen2&Hi2&Hn2&Hh2&Hd2&Hdd2&Hk2).
    { intros t Ht. rewrite Hh1. by apply Hin, Hsub1. }
    exists d2, a2, k2, held2. split_and!; try done; try congruence; try lia.
    + intros t Ht. destruct (Hsub2 t Ht) as [Ht1 Hne]. destruct (Hsub1 t Ht1). split; [done|]. lia.
    + assert (Ep : ia_peerSlot a1 = ia_peerSlot a) by (by injection Hi1). rewrite Hk2, Ep, Hk1, unpins_pool, unpins_add by lia.
      replace (d + (d2 - d)) with d2 by lia. by destruct (unpins d2 (ia_peerSlot a) k).
  - assert (held' = ∅).
    { apply map_empty. intros t. destruct (held' !! t) eqn:Et; [|done]. destruct (Hsub t ltac:(by eexists)) as [_ Ht].
      pose proof (ring_range t). lia. }
    subst held'. rewrite map_size_empty in Hd. rewrite slots_of_empty in Hown'. exists a', k'.
    replace (Z.of_nat (size held)) with d by lia. by split_and!.
Qed.

(** Giving up what is held: the ring is empty, every slot is back in the pool and
    uncounted, and the window forgets exactly the sequences given up. *)
Lemma DropInHoldback_ok a k next held m rest : in_rel a next held -> held !! next = None -> al_owns (recvPool k) m (slots_of held ++ rest) ->
  exists a' k', DropInHoldback a k = Some (Z.of_nat (size held), a', k') /\ in_rel a' next ∅ /\ al_owns (recvPool k') m rest /\
    ident a' = ident a /\ k' = (unpins (Z.of_nat (size held)) (ia_peerSlot a) k) <| recvPool := recvPool k' |>.
Proof using Hw He.
  intros Hr Hn Hown. pose proof caps. unfold DropInHoldback. rewrite (ir_cap _ _ _ Hr).
  destruct (drop_loop_spec true a k next held m rest (in_rel_ring _ _ _ Hr) Hown (fun _ => ir_seen _ _ _ Hr)) as (a'&k'&E&Hr'&Hown'&Hs'&Hi'&Hn'&Hh'&Hk').
  { intros s [x Hx]. pose proof (ir_high _ _ _ Hr). destruct (ir_ring _ _ _ Hr _ _ Hx) as (_&_&?).
    assert (s <> next) by (intros ->; by rewrite Hx in Hn). lia. }
  exists a', k'. split_and!; try done. destruct Hr' as [Q1 Q2 Q3 Q4 Q5].
  split; try done; [by apply Hs'|by rewrite Hn', (ir_next _ _ _ Hr)|apply (ir_pos _ _ _ Hr)|rewrite Hh'; apply (ir_high _ _ _ Hr)].
Qed.

(** The drain before a reset gives the same slots back. *)
Lemma DrainInHoldback_ok a k next held m rest : in_rel a next held -> held !! next = None -> al_owns (recvPool k) m (slots_of held ++ rest) ->
  exists a' k', DrainInHoldback a k = Some (a', k') /\ al_owns (recvPool k') m rest /\ ident a' = ident a /\
    k' = (unpins (Z.of_nat (size held)) (ia_peerSlot a) k) <| recvPool := recvPool k' |>.
Proof using Hw He.
  intros Hr Hn Hown. pose proof caps. unfold DrainInHoldback. rewrite (ir_cap _ _ _ Hr).
  destruct (drop_loop_spec false a k next held m rest (in_rel_ring _ _ _ Hr) Hown ltac:(done)) as (a'&k'&E&Hr'&Hown'&Hs'&Hi'&Hn'&Hh'&Hk').
  { intros s [x Hx]. pose proof (ir_high _ _ _ Hr). destruct (ir_ring _ _ _ Hr _ _ Hx) as (_&_&?).
    assert (s <> next) by (intros ->; by rewrite Hx in Hn). lia. }
  rewrite E. cbn [mbind option_bind]. by exists a', k'.
Qed.

(** A fresh association expects 1 and holds nothing. *)
Lemma ResetInAssoc_ok a peerSlot addr id flowId mode epoch now :
  let a' := ResetInAssoc a peerSlot addr id flowId mode epoch W cap now in
  in_rel a' 1 ∅ /\ ia_peerSlot a' = peerSlot /\ ia_mode a' = mode /\ ia_flowId a' = flowId /\ ia_life a' = OPEN /\ ia_epoch a' = u32 (ia_epoch a + 1).
Proof using Hw He.
  pose proof caps. destruct (W_words w Hw). cbv zeta. split; [|done]. unfold ResetInAssoc.
  split; cbn [reorderCap Holdback ia_recvNext recvHighest heldCount]; try done; try lia.
  - apply (seen_ok_ext _ (fun _ => false)); [|by apply (reset_seen w Hw)]. intros s. unfold got_of. rewrite lookup_empty.
    destruct (Z.leb_spec 1 s), (Z.ltb_spec s 1); try lia; done.
  - apply zlen_replicate. lia.
  - intros i Hi. rewrite arr_get_replicate by lia. by cbn.
Qed.
End Order.
