(* ===== verification/InHistory.v ===== *)
(** * Ordered delivery: whole histories

    Arrivals at one association, and the give-ups of the stall timer between them, in
    any order and with anything happening to the rest of the socket in between: every
    event brings its own lanes, pool and counters.  The run of the code is a relation
    that records what reached the lanes, what the association kept and what it gave
    up; it refines the run of the specification, and the specification delivers
    [1, 2, 3, ...]. *)

From stdpp Require Import gmap.
From S2P Require Import Prelude Keys FlowData Fifo SlotPool ReadyLanes InFlow InDeliver InOrder.

Section History.
Context {Q T : Type} `{!ReadyQueue Q} `{!Allocator T}.
Implicit Types (k : RecvWorld Q T) (c : Z -> list ReadyEntry) (a : InAssociation) (held : gmap Z Z).

(** An arrival in world [k] whose lanes hold [c]; a give-up in a world whose pool,
    of [m] slots, also has [rest] out. *)
Inductive in_event :=
| EArrive (k : RecvWorld Q T) (c : Z -> list ReadyEntry) (seq slot now : Z)
| EGiveUp (k : RecvWorld Q T) (m : Z) (rest : list Z).

Inductive in_run (n : Z) : InAssociation -> list in_event -> InAssociation -> list Z -> list Z -> list Z -> Prop :=
| run_done a : in_run n a [] a [] [] []
| run_arrive a k c seq slot now evs l incoming a1 k1 a' outs kept given :
    DeliverOrdered a k slot seq now = Some (zlen l, incoming, a1, k1) ->
    lanes_gain k k1 n c (ia_peerSlot a) l ->
    in_run n a1 evs a' outs kept given ->
    in_run n a (EArrive k c seq slot now :: evs) a' (l ++ outs) ((if incoming =? INVALID then [slot] else []) ++ kept) given
| run_giveup a k m rest evs d a1 k1 G a' outs kept given :
    DropInHoldback a k = Some (d, a1, k1) ->
    al_owns (recvPool k) m (G ++ rest) -> al_owns (recvPool k1) m rest ->
    in_run n a1 evs a' outs kept given ->
    in_run n a (EGiveUp k m rest :: evs) a' outs kept (G ++ given).

Definition arrivals (evs : list in_event) : list (Z * Z) :=
  omap (fun ev => match ev with EArrive _ _ seq slot _ => Some (seq, slot) | EGiveUp _ _ _ => None end) evs.

(** ** The specification's run *)

Record spec_out := mk_out { so_state : ord; so_outs : list Z; so_kept : list Z; so_given : list Z }.

Definition spec_step (cap peer : Z) (o : ord) (ev : in_event) : list Z * ord * list Z * list Z :=
  match ev with
  | EArrive k c seq slot now =>
      let '(l, o', kept) := spec_deliver cap (HasRoomFor k peer) o seq slot in (l, o', (if kept : bool then [slot] else []), [])
  | EGiveUp _ _ _ => ([], mk_ord (o_next o) ∅, [], slots_of (o_held o))
  end.

Fixpoint spec_hist (cap peer : Z) (o : ord) (evs : list in_event) : spec_out :=
  match evs with
  | [] => mk_out o [] [] []
  | ev :: evs =>
      let '(l, o1, kept, given) := spec_step cap peer o ev in
      let r := spec_hist cap peer o1 evs in
      mk_out (so_state r) (l ++ so_outs r) (kept ++ so_kept r) (given ++ so_given r)
  end.

(** What an event's surroundings must provide: a lane of [n] with room for what is
    held and the packet, a slot that exists, a sequence short of the wrap; a pool that
    has lent the held slots. *)
Definition event_ok (n cap peer : Z) (o : ord) (ev : in_event) : Prop :=
  match ev with
  | EArrive k c seq slot now =>
      lane_room k n c peer (Z.of_nat (size (o_held o)) + 1) /\ slot <> INVALID /\ 0 <= seq /\ seq + cap + 3 < 2 ^ 32
  | EGiveUp k m rest => al_owns (recvPool k) m (slots_of (o_held o) ++ rest)
  end.

Fixpoint events_ok (n cap peer : Z) (o : ord) (evs : list in_event) : Prop :=
  match evs with
  | [] => True
  | ev :: evs => event_ok n cap peer o ev /\ events_ok n cap peer (spec_step cap peer o ev).1.1.2 evs
  end.

(** ** What the specification does *)

Lemma spec_run_ok : forall fuel next held,
  let '(l, o) := spec_run fuel next held in
  o_next o = next + zlen l /\ (forall i, 0 <= i < zlen l -> held !! (next + i) = Some l.[i]) /\
  slots_of held ≡ₚ l ++ slots_of (o_held o) /\ (forall s x, o_held o !! s = Some x -> held !! s = Some x).
Proof.
  induction fuel as [|fuel IH]; intros next held; cbn [spec_run].
  - cbn. change (zlen []) with 0. split_and!; [lia|lia|done|done].
  - destruct (held !! next) as [x|] eqn:E; [|cbn; change (zlen []) with 0; split_and!; [lia|lia|done|done]].
    specialize (IH (next + 1) (delete next held)). destruct (spec_run fuel (next + 1) (delete next held)) as [l o].
    destruct IH as (I1&I2&I3&I4). assert (El : zlen (x :: l) = zlen l + 1) by (unfold zlen; cbn [length]; lia).
    rewrite El. split_and!; [lia| | |].
    + intros i Hi. destruct (decide (i = 0)) as [->|].
      * by rewrite Z.add_0_r, E.
      * specialize (I2 (i - 1) ltac:(lia)). replace (next + 1 + (i - 1)) with (next + i) in I2 by lia.
        rewrite lookup_delete_ne in I2 by lia. rewrite I2. f_equal. unfold arr_get.
        replace (Z.to_nat i) with (S (Z.to_nat (i - 1))) by lia. done.
    + by rewrite (slots_of_delete held next x E), I3.
    + intros s y Hs. apply I4 in Hs. by apply lookup_delete_Some in Hs as [_ ?].
Qed.

(** One arrival: the deliveries continue the count, and the books balance. *)
Record step_books (o : ord) (arrived : list (Z * Z)) (l : list Z) (o' : ord) (kept given : list Z) : Prop := {
  sb_next : o_next o' = o_next o + zlen l;
  sb_outs : forall i, 0 <= i < zlen l -> (o_held o !! (o_next o + i) = Some l.[i]) \/ (o_next o + i, l.[i]) ∈ arrived;
  sb_slots : kept ++ slots_of (o_held o) ≡ₚ l ++ slots_of (o_held o') ++ given;
  sb_held : forall s x, o_held o' !! s = Some x -> o_held o !! s = Some x \/ (s, x) ∈ arrived }.

Lemma spec_step_books cap peer o ev : 
  let '(l, o', kept, given) := spec_step cap peer o ev in step_books o (arrivals [ev]) l o' kept given.
Proof.
  destruct ev as [k c seq slot now|k m rest]; cbn.
  - assert (Hstay : step_books o [(seq, slot)] [] o [] []).
    { split; change (zlen []) with 0; [lia|lia|cbn; by rewrite app_nil_r|by left]. }
    unfold spec_deliver. destruct (seq <? o_next o); [exact Hstay|].
    destruct (Z.eqb_spec seq (o_next o)) as [->|].
    + destruct (bool_decide (o_held o = ∅) && negb (HasRoomFor k peer)); [exact Hstay|].
      pose proof (spec_run_ok (S (size (o_held o))) (o_next o + 1) (o_held o)) as Hr.
      destruct (spec_run _ _ _) as [l o']. destruct Hr as (R1&R2&R3&R4).
      assert (El : zlen (slot :: l) = zlen l + 1) by (unfold zlen; cbn [length]; lia).
      split; rewrite ?El.
      * lia.
      * intros i Hi. destruct (decide (i = 0)) as [->|]; [right; rewrite Z.add_0_r; by left|]. left.
        specialize (R2 (i - 1) ltac:(lia)). replace (o_next o + 1 + (i - 1)) with (o_next o + i) in R2 by lia.
        rewrite R2. f_equal. unfold arr_get. replace (Z.to_nat i) with (S (Z.to_nat (i - 1))) by lia. done.
      * cbn. by rewrite app_nil_r, R3.
      * intros s x Hs. left. by apply R4.
    + destruct (HasRoomFor k peer && (seq <? o_next o + cap)); [|exact Hstay].
      destruct (o_held o !! seq) as [y|] eqn:E; [exact Hstay|].
      split; cbn [o_next o_held]; change (zlen []) with 0; [lia|lia| |].
      * cbn. by rewrite app_nil_r, slots_of_insert.
      * intros s x [[<- <-]|[Hne Hs]]%lookup_insert_Some; [right; by left|by left].
  - split; cbn [o_next o_held]; change (zlen []) with 0; [lia|lia| |].
    + by rewrite slots_of_empty.
    + intros s x Hs. by rewrite lookup_empty in Hs.
Qed.

Lemma spec_hist_books cap peer : forall evs o,
  let r := spec_hist cap peer o evs in step_books o (arrivals evs) (so_outs r) (so_state r) (so_kept r) (so_given r).
Proof.
  induction evs as [|ev evs IH]; intros o; cbn [spec_hist]; cbv zeta.
  - cbn. split; change (zlen []) with 0; [lia|lia|by rewrite app_nil_r|by left].
  - pose proof (spec_step_books cap peer o ev) as H1. destruct (spec_step cap peer o ev) as [[[l o1] kept] given].
    specialize (IH o1). cbv zeta in IH. set (r := spec_hist cap peer o1 evs) in *. clearbody r. cbn [so_outs so_state so_kept so_given].
    destruct H1 as [A1 A2 A3 A4], IH as [B1 B2 B3 B4].
    assert (Ea : arrivals (ev :: evs) = arrivals [ev] ++ arrivals evs) by (unfold arrivals; by rewrite <- omap_app).
    rewrite Ea. split.
    + rewrite zlen_app. lia.
    + intros i Hi. rewrite zlen_app in Hi. destruct (decide (i < zlen l)) as [Hl|Hl].
      * unfold arr_get. rewrite lookup_total_app_l by (unfold zlen in *; lia). destruct (A2 i ltac:(lia)) as [?|?]; [by left|right].
        apply elem_of_app. by left.
      * specialize (B2 (i - zlen l) ltac:(lia)). rewrite A1 in B2. replace (o_next o + zlen l + (i - zlen l)) with (o_next o + i) in B2 by lia.
        unfold arr_get in *. rewrite lookup_total_app_r by (unfold zlen in *; lia).
        replace (Z.to_nat i - length l)%nat with (Z.to_nat (i - zlen l)) by (unfold zlen in *; lia).
        destruct B2 as [Hh|Hh]; [|right; apply elem_of_app; by right].
        destruct (A4 _ _ Hh) as [?|?]; [by left|right; apply elem_of_app; by left].
    + transitivity (so_kept r ++ (kept ++ slots_of (o_held o))); [solve_Permutation|]. rewrite A3.
      transitivity (l ++ given ++ (so_kept r ++ slots_of (o_held o1))); [solve_Permutation|]. rewrite B3. solve_Permutation.
    + intros s x Hs. destruct (B4 _ _ Hs) as [Hh|?]; [|right; apply elem_of_app; by right].
      destruct (A4 _ _ Hh) as [?|?]; [by left|right; apply elem_of_app; by left].
Qed.
(** ** The code's run *)

Context (w e : Z) (Hw : 6 <= w <= 15) (He : 0 <= e <= w).
Abbreviation cap := (2 ^ e).

(** The 32-bit sequence is far from its end. *)
Definition short_of_wrap (o : ord) : Prop := o_next o + cap + 2 < 2 ^ 32 /\ forall s, is_Some (o_held o !! s) -> s + cap + 3 < 2 ^ 32.

Lemma step_short n peer o ev : short_of_wrap o -> event_ok n cap peer o ev -> short_of_wrap (spec_step cap peer o ev).1.1.2.
Proof using Type.
  intros [Hn Hh] Hok. pose proof (spec_step_books cap peer o ev) as Hb.
  destruct (spec_step cap peer o ev) as [[[l o1] kept] given]. cbn. destruct Hb as [B1 B2 B3 B4].
  assert (Harr : forall s x, (s, x) ∈ arrivals [ev] -> s + cap + 3 < 2 ^ 32).
  { intros s x Hx. destruct ev; cbn in Hx; [|by apply elem_of_nil in Hx].
    apply list_elem_of_singleton in Hx as [= -> ->]. by destruct Hok as (_&_&_&?). }
  split.
  - rewrite B1. pose proof (zlen_nonneg l). destruct (decide (zlen l = 0)) as [->|]; [lia|].
    destruct (B2 (zlen l - 1) ltac:(lia)) as [Hx|Hx].
    + specialize (Hh (o_next o + (zlen l - 1)) ltac:(by eexists)). lia.
    + apply Harr in Hx. lia.
  - intros s [x Hx]. destruct (B4 _ _ Hx) as [Hs|Hs]; [apply Hh; by eexists|by eapply Harr].
Qed.

Lemma in_run_refines n : forall evs a o, in_rel w e a (o_next o) (o_held o) -> o_held o !! o_next o = None -> short_of_wrap o ->
  events_ok n cap (ia_peerSlot a) o evs ->
  let r := spec_hist cap (ia_peerSlot a) o evs in
  exists a', in_run n a evs a' (so_outs r) (so_kept r) (so_given r) /\
    in_rel w e a' (o_next (so_state r)) (o_held (so_state r)) /\ o_held (so_state r) !! o_next (so_state r) = None /\ ident a' = ident a.
Proof using Hw He.
  induction evs as [|ev evs IH]; intros a o Hr Hn Hs Hev; cbn [spec_hist]; cbv zeta.
  - exists a. split_and!; [constructor|done|done|done].
  - cbn [events_ok] in Hev. destruct Hev as [Hev Hevs]. pose proof (step_short n (ia_peerSlot a) o ev Hs Hev) as Hs1.
    destruct ev as [k c seq slot now|k m rest]; cbn [spec_step] in *.
    + destruct Hev as (Hroom&Hx&Hq&Hlim). destruct o as [next held]. cbn [o_next o_held] in *.
      pose proof (DeliverOrdered_refines w e Hw He n a k c slot seq next held now Hr Hn Hroom ltac:(apply Hs) Hx) as Hd.
      destruct (spec_deliver _ _ _ _ _) as [[l o1] kept]. cbn in Hs1, Hevs. destruct Hd as (a1&k1&E&Hr1&Hn1&Hi1&Hg1&_).
      assert (Hp : ia_peerSlot a1 = ia_peerSlot a) by (by injection Hi1). rewrite <- Hp in Hevs.
      destruct (IH a1 o1 Hr1 Hn1 Hs1 Hevs) as (a'&Hrun&Hr'&Hn'&Hi'). rewrite Hp in *.
      exists a'. cbn [so_outs so_kept so_given so_state]. split_and!; [|done|done|by rewrite Hi'].
      replace (if kept then [slot] else []) with (if (if kept then INVALID else slot) =? INVALID then [slot] else [])
        by (destruct kept; [done|by destruct (Z.eqb_spec slot INVALID)]).
      by eapply run_arrive.
    + destruct (DropInHoldback_ok w e Hw He a k (o_next o) (o_held o) m rest Hr Hn Hev) as (a1&k1&E&Hr1&Hown&Hi1&_).
      cbn in Hs1, Hevs. assert (Hp : ia_peerSlot a1 = ia_peerSlot a) by (by injection Hi1). rewrite <- Hp in Hevs.
      destruct (IH a1 (mk_ord (o_next o) ∅) Hr1 (lookup_empty _) Hs1 Hevs) as (a'&Hrun&Hr'&Hn'&Hi'). rewrite Hp in *.
      exists a'. cbn [so_outs so_kept so_given so_state app]. split_and!; [|done|done|by rewrite Hi'].
      by eapply run_giveup.
Qed.
End History.

(** ** What an ordered flow promises *)

Section Promises.
Context {Q T : Type} `{!ReadyQueue Q} `{!Allocator T}.
Context (w e : Z) (Hw : 6 <= w <= 15) (He : 0 <= e <= w).
Abbreviation cap := (2 ^ e).

(** A fresh association of a peer, for a flow in some mode. *)
Definition fresh_in (old : InAssociation) (peer : Z) (addr : Address) (id : BcpId) (flowId : Z) (mode : FlowMode) (flowEpoch now : Z) : InAssociation :=
  ResetInAssoc old peer addr (Some id) flowId mode flowEpoch (2 ^ w) cap now.

Lemma fresh_run n old peer addr id flowId mode flowEpoch now (evs : list (@in_event Q T)) :
  events_ok n cap peer (mk_ord 1 ∅) evs ->
  let r := spec_hist cap peer (mk_ord 1 ∅) evs in
  exists a', in_run n (fresh_in old peer addr id flowId mode flowEpoch now) evs a' (so_outs r) (so_kept r) (so_given r) /\
    in_rel w e a' (o_next (so_state r)) (o_held (so_state r)).
Proof using Hw He.
  intros Hev. cbv zeta. destruct (ResetInAssoc_ok w e Hw He old peer addr (Some id) flowId mode flowEpoch now) as (Hr&Hp&_).
  destruct (in_run_refines w e Hw He n evs _ (mk_ord 1 ∅) Hr (lookup_empty _)) as (a'&Hrun&Hr'&_).
  - split; cbn; [|intros s [x Hx]; by rewrite lookup_empty in Hx]. 
    assert (2 ^ e <= 2 ^ 15) by (apply Z.pow_le_mono_r; lia). change (2 ^ 15) with 32768 in *. lia.
  - by rewrite Hp.
  - rewrite Hp in *. by exists a'.
Qed.
(** The entries of the ring in use. *)
Definition occupied (a : InAssociation) : list HoldbackEntry := filter (fun en => h_slot en <> INVALID) (Holdback a).

Lemma NoDup_filter_index {A} (P : A -> Prop) `{!forall x, Decision (P x)} (f : A -> Z) (l : list A) : forall off,
  (forall i x, l !! i = Some x -> P x -> f x = off + Z.of_nat i) -> NoDup (filter P l).
Proof.
  induction l as [|x l IH]; intros off Hf; [constructor|].
  assert (Hl : NoDup (filter P l)).
  { apply (IH (off + 1)). intros i y Hy HP. rewrite (Hf (S i) y Hy HP). lia. }
  rewrite filter_cons. destruct (decide (P x)) as [HP|]; [|done]. constructor; [|done].
  intros (HPx&[j Hj]%list_elem_of_lookup)%list_elem_of_filter.
  pose proof (Hf 0%nat x eq_refl HP). pose proof (Hf (S j) x Hj HPx). lia.
Qed.

Lemma occupied_slots a next held : in_rel w e a next held -> map (fun en => (h_seq en, h_slot en)) (occupied a) ≡ₚ map_to_list held.
Proof using Hw He.
  intros Hr. pose proof (Z.pow_pos_nonneg 2 e ltac:(lia) ltac:(lia)).
  assert (Hlk : forall i en, Holdback a !! i = Some en -> 0 <= Z.of_nat i < cap /\ (Holdback a).[Z.of_nat i] = en).
  { intros i en Hi. pose proof (lookup_lt_Some _ _ _ Hi). pose proof (ir_len _ _ _ _ _ Hr). split; [unfold zlen in *; lia|].
    unfold arr_get. rewrite Nat2Z.id. by apply list_lookup_total_correct. }
  apply NoDup_Permutation; [|apply NoDup_map_to_list|].
  - apply NoDup_fmap; [intros [a1 a2] [b1 b2]; by cbn; intros [= -> ->]|]. unfold occupied.
    apply (NoDup_filter_index _ (fun en => h_seq en mod cap) _ 0). intros i en Hi Hs. destruct (Hlk i en Hi) as [Hin <-].
    apply (ir_entry _ _ _ _ _ Hr) in Hs as [_ ->]; lia.
  - intros [s x]. rewrite elem_of_map_to_list, list_elem_of_fmap. split.
    + intros (en&[= -> ->]&(Hs&[i Hi]%list_elem_of_lookup)%list_elem_of_filter). destruct (Hlk i en Hi) as [Hin <-].
      by apply (ir_entry _ _ _ _ _ Hr) in Hs as [? _].
    + intros Hx. exists (mk_held s x). split; [done|]. apply list_elem_of_filter. destruct (ir_ring _ _ _ _ _ Hr _ _ Hx) as (Es&Hne&_).
      split; [done|]. apply list_elem_of_lookup. exists (Z.to_nat (s mod cap)).
      pose proof (ring_range w e Hw He s). pose proof (ir_len _ _ _ _ _ Hr). unfold zlen in *.
      destruct (lookup_lt_is_Some_2 (Holdback a) (Z.to_nat (s mod cap))) as [y Hy]; [lia|]. rewrite Hy. f_equal.
      unfold arr_get in Es. by rewrite (list_lookup_total_correct _ _ _ Hy) in Es.
Qed.

Lemma occupied_slots_of a next held : in_rel w e a next held -> map h_slot (occupied a) ≡ₚ slots_of held.
Proof using Hw He. intros Hr. unfold slots_of. rewrite <- (occupied_slots a next held Hr), map_map. done. Qed.

Lemma occupied_seq a next held s : in_rel w e a next held -> (is_Some (held !! s) <-> exists en, en ∈ occupied a /\ h_seq en = s).
Proof using Hw He.
  intros Hr. pose proof (occupied_slots a next held Hr) as Hp. split.
  - intros [x Hx]. apply elem_of_map_to_list in Hx. rewrite <- Hp in Hx. apply list_elem_of_fmap in Hx as (en&[= -> ->]&Hen). by exists en.
  - intros (en&Hen&<-). assert (Hin : (h_seq en, h_slot en) ∈ map_to_list held) by (rewrite <- Hp; apply list_elem_of_fmap; by exists en).
    apply elem_of_map_to_list in Hin. by eexists.
Qed.
End Promises.

(** Every arrival found room and lay within the reorder window. *)
Fixpoint all_welcome {Q T} `{!ReadyQueue Q} `{!Allocator T} (cap peer : Z) (o : ord) (evs : list (@in_event Q T)) : Prop :=
  match evs with
  | [] => True
  | ev :: evs =>
      match ev with EArrive k c seq slot now => HasRoomFor k peer = true /\ seq < o_next o + cap | EGiveUp _ _ _ => False end /\
      all_welcome cap peer (spec_step cap peer o ev).1.1.2 evs
  end.

Lemma spec_run_keeps fuel next held s : forall o l, spec_run fuel next held = (l, o) ->
  is_Some (held !! s) -> s < o_next o \/ is_Some (o_held o !! s).
Proof.
  revert next held. induction fuel as [|fuel IH]; intros next held o l; cbn [spec_run]; [intros [= <- <-]; by right|].
  destruct (held !! next) as [x|] eqn:E; [|intros [= <- <-]; by right].
  destruct (spec_run fuel (next + 1) (delete next held)) as [l1 o1] eqn:E1. intros [= <- <-] Hs.
  destruct (decide (s = next)) as [->|Hne].
  - left. pose proof (spec_run_ok fuel (next + 1) (delete next held)) as Hr. rewrite E1 in Hr. destruct Hr as (->&_).
    pose proof (zlen_nonneg l1). lia.
  - apply (IH _ _ _ _ E1). by rewrite lookup_delete_ne.
Qed.

Section Welcome.
Context {Q T : Type} `{!ReadyQueue Q} `{!Allocator T}.

Lemma welcome_step cap peer o (ev : @in_event Q T) : 
  match ev with EArrive k c seq slot now => HasRoomFor k peer = true /\ seq < o_next o + cap | EGiveUp _ _ _ => False end ->
  let o' := (spec_step cap peer o ev).1.1.2 in
  o_next o <= o_next o' /\ (forall s, is_Some (o_held o !! s) -> s < o_next o' \/ is_Some (o_held o' !! s)) /\
  (forall s x, (s, x) ∈ arrivals [ev] -> s < o_next o' \/ is_Some (o_held o' !! s)).
Proof.
  pose proof (spec_step_books cap peer o ev) as Hb. destruct ev as [k c seq slot now|]; [|done]. intros [Hroom Hwin]. cbn in *.
  assert (Hone : forall (P : Z -> Prop) s x, P seq -> (s, x) ∈ [(seq, slot)] -> P s) by (intros P s x HP Hx; apply list_elem_of_singleton in Hx; by injection Hx as -> ->).
  revert Hb. unfold spec_deliver. rewrite Hroom. generalize (S (size (o_held o))) as fuel. intros fuel. destruct (Z.ltb_spec seq (o_next o)); cbn.
  { intros _. split_and!; [lia|by right|]. intros s x. apply (Hone (fun s => s < o_next o \/ is_Some (o_held o !! s))). left. lia. }
  destruct (Z.eqb_spec seq (o_next o)) as [->|]; cbn.
  { rewrite andb_false_r. destruct (spec_run fuel (o_next o + 1) (o_held o)) as [l o'] eqn:E. cbn. intros [B1 _ _ _].
    assert (zlen (slot :: l) = zlen l + 1) by (unfold zlen; cbn [length]; lia). pose proof (zlen_nonneg l). split_and!; [lia| |].
    - intros s. by apply (spec_run_keeps _ _ _ s _ _ E).
    - intros s x. apply (Hone (fun s => s < o_next o' \/ is_Some (o_held o' !! s))). left. lia. }
  destruct (Z.ltb_spec seq (o_next o + cap)); [|lia]. destruct (o_held o !! seq) as [y|] eqn:E; cbn; intros _.
  - split_and!; [lia|by right|]. intros s x. apply (Hone (fun s => s < o_next o \/ is_Some (o_held o !! s))). right. by eexists.
  - split_and!; [lia| |].
    + intros s Hs. right. destruct (decide (s = seq)) as [->|]; [rewrite lookup_insert_eq; by eexists|by rewrite lookup_insert_ne].
    + intros s x. apply (Hone (fun s => s < o_next o \/ is_Some (<[seq := slot]> (o_held o) !! s))). right. rewrite lookup_insert_eq. by eexists.
Qed.

Lemma welcome_hist cap peer : forall (evs : list (@in_event Q T)) o, all_welcome cap peer o evs ->
  let o' := so_state (spec_hist cap peer o evs) in
  o_next o <= o_next o' /\ (forall s, is_Some (o_held o !! s) -> s < o_next o' \/ is_Some (o_held o' !! s)) /\
  (forall s x, (s, x) ∈ arrivals evs -> s < o_next o' \/ is_Some (o_held o' !! s)).
Proof.
  induction evs as [|ev evs IH]; intros o Hw; cbn [spec_hist]; cbv zeta.
  - cbn. split_and!; [lia|by right|by intros ?? ?%elem_of_nil].
  - destruct Hw as [Hev Hw]. destruct (welcome_step cap peer o ev Hev) as (A1&A2&A3). cbv zeta in *.
    destruct (spec_step cap peer o ev) as [[[l o1] kept] given]. cbn in A1, A2, A3, Hw. destruct (IH o1 Hw) as (B1&B2&B3). cbv zeta in *.
    cbn [so_state]. set (o' := so_state _) in *. split_and!; [lia| |].
    + intros s Hs. destruct (A2 s Hs) as [?|?]; [left; lia|by apply B2].
    + intros s x Hx. assert (Ea : arrivals (ev :: evs) = arrivals [ev] ++ arrivals evs) by (unfold arrivals; by rewrite <- omap_app).
      rewrite Ea in Hx. apply elem_of_app in Hx as [Hx|Hx]; [|by eapply B3].
      destruct (A3 s x Hx) as [?|?]; [left; lia|by apply B2].
Qed.
End Welcome.

Section Theorems.
Context {Q T : Type} `{!ReadyQueue Q} `{!Allocator T}.

(** (C2) Ordered delivery.  Whatever arrives, in whatever order and however
    often, with give-ups of the stall timer in between: the run of the code goes
    through, what it has put into the peer's lane is, in order, one packet for each
    of the sequences 1, 2, 3, ... below its cursor, each a packet that arrived under
    that sequence, and every packet it kept is delivered, in its ring, or was given
    back. *)
Theorem ordered_in_order (w e n peer : Z) (old : InAssociation) (addr : Address) (id : BcpId) (flowId flowEpoch now : Z)
  (mode : FlowMode) (evs : list (@in_event Q T)) (Hw : 6 <= w <= 15) (He : 0 <= e <= w)
  (Hevs : events_ok n (2 ^ e) peer (mk_ord 1 ∅) evs) :
  exists a outs kept given, in_run n (fresh_in w e old peer addr id flowId mode flowEpoch now) evs a outs kept given /\
    zlen outs = ia_recvNext a - 1 /\
    (forall i, 0 <= i < zlen outs -> (i + 1, outs.[i]) ∈ arrivals evs) /\
    kept ≡ₚ outs ++ map h_slot (occupied a) ++ given.
Proof.
  destruct (fresh_run w e Hw He n old peer addr id flowId mode flowEpoch now evs Hevs) as (a&Hrun&Hr).
  pose proof (spec_hist_books (2 ^ e) peer evs (mk_ord 1 ∅)) as [B1 B2 B3 B4]. cbv zeta in *. cbn [o_next o_held] in *.
  do 4 eexists. split_and!; [exact Hrun| | |].
  - rewrite (ir_next _ _ _ _ _ Hr), B1. lia.
  - intros i Hi. destruct (B2 i Hi) as [Hx|Hx]; [by rewrite lookup_empty in Hx|]. by rewrite Z.add_comm.
  - rewrite (occupied_slots_of w e Hw He a _ _ Hr), <- B3, slots_of_empty, app_nil_r. done.
Qed.

(** (C34) Nothing is left waiting without cause: when every arrival found room and
    lay within the reorder window, and each of [1..m] has arrived, all of them have
    been delivered. *)
Theorem ordered_complete (w e n peer m : Z) (old : InAssociation) (addr : Address) (id : BcpId) (flowId flowEpoch now : Z)
  (mode : FlowMode) (evs : list (@in_event Q T)) (Hw : 6 <= w <= 15) (He : 0 <= e <= w)
  (Hevs : events_ok n (2 ^ e) peer (mk_ord 1 ∅) evs) (Hwelcome : all_welcome (2 ^ e) peer (mk_ord 1 ∅) evs)
  (Hall : forall s, 1 <= s <= m -> exists x, (s, x) ∈ arrivals evs) :
  exists a outs kept, in_run n (fresh_in w e old peer addr id flowId mode flowEpoch now) evs a outs kept [] /\ m <= zlen outs.
Proof.
  pose proof (welcome_hist (2 ^ e) peer evs (mk_ord 1 ∅) Hwelcome) as (W1&_&W3). cbv zeta in *.
  pose proof (spec_hist_books (2 ^ e) peer evs (mk_ord 1 ∅)) as [B1 B2 B3 B4]. cbv zeta in *. cbn [o_next o_held] in *.
  destruct (ResetInAssoc_ok w e Hw He old peer addr (Some id) flowId mode flowEpoch now) as (Hr0&Hp&_).
  destruct (in_run_refines w e Hw He n evs (fresh_in w e old peer addr id flowId mode flowEpoch now) (mk_ord 1 ∅) Hr0 (lookup_empty _))
    as (a&Hrun&Hr&Hn&_).
  { split; cbn; [|intros s [x Hx]; by rewrite lookup_empty in Hx].
    assert (2 ^ e <= 2 ^ 15) by (apply Z.pow_le_mono_r; lia). change (2 ^ 15) with 32768 in *. lia. }
  { done. }
  change (ia_peerSlot (fresh_in w e old peer addr id flowId mode flowEpoch now)) with peer in *.
  assert (Hg : so_given (spec_hist (2 ^ e) peer (mk_ord 1 ∅) evs) = []).
  { clear -Hwelcome. revert Hwelcome. generalize (mk_ord 1 ∅). induction evs as [|ev evs IH]; intros o; [done|]. cbn [all_welcome spec_hist].
    intros [Hev Hrest]. destruct ev as [k c seq slot nw|]; [|done]. cbn [spec_step] in *.
    destruct (spec_deliver _ _ _ _ _) as [[l o1] kp]. cbn in *. by apply IH. }
  rewrite Hg in Hrun. set (r := spec_hist _ _ _ _) in *. clearbody r. exists a, (so_outs r), (so_kept r). split; [exact Hrun|].
  pose proof (zlen_nonneg (so_outs r)). destruct (Z.le_gt_cases m (zlen (so_outs r))) as [|Hlt]; [done|].
  exfalso. destruct (Hall (o_next (so_state r)) ltac:(lia)) as [x Hx].
  destruct (W3 _ _ Hx) as [?|Hheld]; [lia|]. rewrite Hn in Hheld. by destruct Hheld.
Qed.

(** (C23) Acknowledgements tell the truth.  After any such run the ranges the
    receiver would send are at most as many as asked, disjoint and newest first; a
    sequence they name has been delivered or sits in the ring; and every sequence of
    the window that was delivered or is held is named, unless the list ran out above
    it. *)
Theorem acks_truthful (w e n peer maxRanges : Z) (old : InAssociation) (addr : Address) (id : BcpId) (flowId flowEpoch now : Z)
  (mode : FlowMode) (evs : list (@in_event Q T)) (Hw : 6 <= w <= 15) (He : 0 <= e <= w) (Hmax : 1 <= maxRanges)
  (Hevs : events_ok n (2 ^ e) peer (mk_ord 1 ∅) evs) :
  exists a outs kept given, in_run n (fresh_in w e old peer addr id flowId mode flowEpoch now) evs a outs kept given /\
    let rs := BuildAckRanges a maxRanges in
    let had s := 1 <= s <= zlen outs \/ exists en, en ∈ occupied a /\ h_seq en = s in
    zlen rs <= maxRanges /\ descending (recvHighest a) rs /\
    (forall s, SeqInRanges s rs = true -> had s) /\
    (forall s, had s -> recvHighest a - 2 ^ w < s -> accounted_from 1 (Z.to_nat maxRanges) rs <= s -> SeqInRanges s rs = true).
Proof.
  destruct (fresh_run w e Hw He n old peer addr id flowId mode flowEpoch now evs Hevs) as (a&Hrun&Hr).
  pose proof (spec_hist_books (2 ^ e) peer evs (mk_ord 1 ∅)) as [B1 _ _ _]. cbv zeta in *. cbn [o_next o_held] in *.
  do 4 eexists. split; [exact Hrun|]. cbv zeta.
  destruct (BuildAckRanges_ok w Hw a _ maxRanges (ir_seen _ _ _ _ _ Hr) ltac:(lia)) as (R1&R2&R3&R4). cbv zeta in *.
  set (st := so_state _) in *. set (outs := so_outs _) in *.
  assert (Hhad : forall s, got_of (o_next st) (o_held st) s = true <-> 1 <= s <= zlen outs \/ exists en, en ∈ occupied a /\ h_seq en = s).
  { intros s. rewrite <- (occupied_seq w e Hw He a _ _ s Hr). unfold got_of. rewrite orb_true_iff, andb_true_iff, bool_decide_eq_true.
    rewrite Z.leb_le, Z.ltb_lt, B1. split; (intros [?|?]; [left; lia|by right]). }
  split_and!; [done|done| |].
  - intros s Hs. apply Hhad. by apply R3.
  - intros s Hs Hwin Hacc. apply R4; [lia|by apply Hhad| |done].
    assert (1 <= s); [|lia]. destruct Hs as [?|(en&Hen&<-)]; [lia|].
    assert (Hx : is_Some (o_held st !! h_seq en)) by (apply (occupied_seq w e Hw He a _ _ _ Hr); by exists en).
    destruct Hx as [x Hx]. pose proof (ir_ring _ _ _ _ _ Hr _ _ Hx) as (_&_&?). pose proof (ir_pos _ _ _ _ _ Hr). lia.
Qed.
End Theorems.

(** ** Concrete runs *)

Definition sample_q : ReadyLanes := (Lanes_Init 1 8 (Lanes_Shutdown (mk_lanes [] [] 0 0))).2.
Definition sample_world (pool : SlotPool) : RecvWorld ReadyLanes SlotPool := mk_world sample_q pool [mk_recv 0 0 0 0] 0 100.
Definition blank_in : InAssociation := mk_in 0 (mk_addr 0 0 [] 0) (mk_id []) 0 RELIABLE_ORDERED 0 CLOSED false false 6 0 0 0 0 0 0 0 0 0 [] [].
Definition sample_arrive (seq slot : Z) : @in_event ReadyLanes SlotPool := EArrive (sample_world pool3) (fun _ => []) seq slot 1000.

(** 3 comes early and is given up, then 2, 2 again, 1 and 3. *)
Definition sample_events : list (@in_event ReadyLanes SlotPool) :=
  [sample_arrive 3 17; EGiveUp (sample_world pool3) 32 []; sample_arrive 2 5; sample_arrive 2 6; sample_arrive 1 7; sample_arrive 3 8].
Definition sample_arrivals : list (@in_event ReadyLanes SlotPool) := [sample_arrive 3 17; sample_arrive 2 5; sample_arrive 1 7].

Lemma sample_q_holds : rq_holds sample_q 8 (fun _ => []).
Proof.
  destruct (Lanes_Init_ok 1 8 (mk_lanes [] [] 0 0) ltac:(lia) ltac:(lia)) as (r&E&Hh&_).
  unfold sample_q. rewrite E. exact Hh.
Qed.

Lemma sample_room m : m <= 8 -> lane_room (sample_world pool3) 8 (fun _ => []) 0 m.
Proof. intros Hm. split_and!; [lia|exact sample_q_holds|]. change (zlen []) with 0. lia. Qed.

Lemma sample_owns : al_owns (recvPool (sample_world pool3)) 32 [17].
Proof. apply (reach_owns 20 64 5); [vm_compute; reflexivity|lia|exact pool3_reach]. Qed.

(** Discharges [events_ok] at concrete events by running the specification. *)
Ltac sample_event :=
  lazymatch goal with
  | |- lane_room _ _ _ _ _ => apply sample_room; vm_compute; discriminate
  | |- al_owns _ _ ?l => replace l with [17] by (vm_compute; reflexivity); exact sample_owns
  | |- _ => vm_compute; done
  end.
Ltac sample_events_ok := unfold sample_events, sample_arrivals, sample_arrive; cbn [events_ok event_ok]; split_and!; sample_event.

Lemma ordered_in_order_witness :
  so_outs (spec_hist (2 ^ 2) 0 (mk_ord 1 ∅) sample_events) = [7; 5; 8] /\
  exists a outs kept given, in_run 8 (fresh_in 6 2 blank_in 0 (mk_addr 2 7 [] 0) (mk_id []) 4 RELIABLE_ORDERED 0 500) sample_events a outs kept given /\
    zlen outs = ia_recvNext a - 1 /\
    (forall i, 0 <= i < zlen outs -> (i + 1, outs.[i]) ∈ arrivals sample_events) /\
    kept ≡ₚ outs ++ map h_slot (occupied a) ++ given.
Proof.
  split; [vm_compute; reflexivity|].
  apply (ordered_in_order 6 2 8 0 blank_in (mk_addr 2 7 [] 0) (mk_id []) 4 0 500 RELIABLE_ORDERED sample_events); [lia|lia|].
  sample_events_ok.
Defined.

Lemma ordered_complete_witness :
  exists a outs kept, in_run 8 (fresh_in 6 2 blank_in 0 (mk_addr 2 7 [] 0) (mk_id []) 4 RELIABLE_ORDERED 0 500) sample_arrivals a outs kept [] /\
    3 <= zlen outs.
Proof.
  apply (ordered_complete 6 2 8 0 3 blank_in (mk_addr 2 7 [] 0) (mk_id []) 4 0 500 RELIABLE_ORDERED sample_arrivals); [lia|lia| | |].
  - sample_events_ok.
  - unfold sample_arrivals, sample_arrive. cbn [all_welcome]. split_and!; vm_compute; done.
  - intros s Hs. assert (s = 1 \/ s = 2 \/ s = 3) as [-> | [-> | ->]] by lia.
    + exists 7. right; right; left.
    + exists 5. right; left.
    + exists 17. left.
Defined.

Lemma acks_truthful_witness :
  exists a outs kept given, in_run 8 (fresh_in 6 2 blank_in 0 (mk_addr 2 7 [] 0) (mk_id []) 4 RELIABLE_ORDERED 0 500) sample_events a outs kept given /\
    let rs := BuildAckRanges a 16 in
    let had s := 1 <= s <= zlen outs \/ exists en, en ∈ occupied a /\ h_seq en = s in
    zlen rs <= 16 /\ descending (recvHighest a) rs /\
    (forall s, SeqInRanges s rs = true -> had s) /\
    (forall s, had s -> recvHighest a - 2 ^ 6 < s -> accounted_from 1 (Z.to_nat 16) rs <= s -> SeqInRanges s rs = true).
Proof.
  apply (acks_truthful 6 2 8 0 16 blank_in (mk_addr 2 7 [] 0) (mk_id []) 4 0 500 RELIABLE_ORDERED sample_events); [lia|lia|lia|].
  sample_events_ok.
Defined.
