(* ===== verification/InUnordered.v ===== *)
(** * Unordered delivery: whole histories

    The two modes that hold nothing back.  The window alone keeps duplicates out, so
    the theorem is about any surroundings: lanes that may be full, peers past their
    grant. *)

From Stdlib Require Import Sorted.
From stdpp Require Import gmap.
From S2P Require Import Prelude Keys FlowData Fifo SlotPool ReadyLanes InFlow InDeliver InOrder.

Section Unordered.
Context {Q T : Type} `{!ReadyQueue Q} `{!Allocator T}.
Context (w : Z) (Hw : 6 <= w <= 15).
Abbreviation W := (2 ^ w).
Implicit Types (k : RecvWorld Q T) (c : Z -> list ReadyEntry) (a : InAssociation) (got : Z -> bool).

(** What one arrival can come to, and when. *)
Inductive un_outcome := UDuplicate | UStale | URefused | UFull | UDelivered.

Definition un_class a k (seq : Z) (pushed : bool) : un_outcome :=
  if AlreadySeen a seq then UDuplicate
  else if bool_decide (ia_mode a = UNRELIABLE) && (seq <=? recvHighest a) then UStale
  else if negb (HasRoomFor k (ia_peerSlot a)) then URefused
  else if pushed then UDelivered else UFull.

Definition un_commits (u : un_outcome) : bool := match u with UStale | UDelivered => true | _ => false end.
Definition un_delivers (u : un_outcome) : bool := match u with UDelivered => true | _ => false end.

Lemma seen_ok_arm a got b now : seen_ok w a got -> seen_ok w (ArmAckForArrival a b now) got.
Proof. intros [H1 H2 H3 H4 H5 H6]. pose proof (arm_core a b now) as E. injection E as E1 E2 E3 _ _ _ _. by split; rewrite ?E1, ?E2, ?E3. Qed.

Lemma DeliverUnordered_ok n a k c slot seq now got : seen_ok w a got -> rq_holds (readyLanes k) n c -> 0 <= ia_peerSlot a -> slot <> INVALID ->
  exists pushed a' k', let u := un_class a k seq pushed in
    DeliverUnordered a k slot seq now = Some ((if un_delivers u then 1 else 0), (if un_delivers u then INVALID else slot), a', k') /\
    seen_ok w a' (if un_commits u then marked seq got else got) /\
    recvHighest a' = (if un_commits u then Z.max (recvHighest a) seq else recvHighest a) /\ ident a' = ident a /\
    lanes_gain k k' n c (ia_peerSlot a) (if un_delivers u then [slot] else []) /\
    (zlen (c (rq_lane (readyLanes k) (ia_peerSlot a))) < n -> pushed = true).
Proof using Hw.
  intros Hok Hh Hp Hx. unfold DeliverUnordered, QueueReady, un_class.
  destruct (rq_push_ok _ _ _ _ slot Hp Hh) as (ok&q&Eq&Hl&Hroom&Hh'). exists ok.
  pose proof (AlreadySeen_ok w Hw a got seq Hok) as Hs.
  assert (Hhigh : forall a b now, recvHighest (ArmAckForArrival a b now) = recvHighest a).
  { intros a1 b now1. pose proof (arm_core a1 b now1) as E. by injection E. }
  assert (Hquiet : forall b, seen_ok w (ArmAckForArrival a b now) got) by (intros; by apply seen_ok_arm).
  destruct (AlreadySeen a seq) eqn:Ea.
  { exists (ArmAckForArrival a false now), k. cbn [un_delivers un_commits]. split_and!; [done|apply Hquiet|apply Hhigh|apply arm_ident|by apply lanes_gain_nil|done]. }
  assert (Hnew : 1 <= seq /\ recvHighest a - W < seq).
  { symmetry in Hs. apply andb_false_iff in Hs as [Hs%Z.leb_gt|Hs]; [destruct Hok; split; [lia|]; pose proof (W_words w Hw); lia|].
    apply orb_false_iff in Hs as [[Hs1%Z.leb_gt Hs2%Z.ltb_ge]%orb_false_iff _]. lia. }
  destruct (CommitSeen_ok w Hw a got seq Hok ltac:(lia) ltac:(lia)) as [Hc Hch].
  destruct (bool_decide (ia_mode a = UNRELIABLE) && (seq <=? recvHighest a)).
  { exists (ArmAckForArrival (CommitSeen a seq) true now), k. cbn [un_delivers un_commits]. 
    split_and!; [done|by apply seen_ok_arm|by rewrite Hhigh|by rewrite arm_ident, commit_ident|by apply lanes_gain_nil|done]. }
  destruct (HasRoomFor k (ia_peerSlot a)); cbn [negb];
    [|exists (ArmAckForArrival a false now), k; cbn [un_delivers un_commits]; split_and!; [done|apply Hquiet|apply Hhigh|apply arm_ident|by apply lanes_gain_nil|done]].
  destruct (Z.eqb_spec slot INVALID); [done|]. rewrite Eq. cbn [mbind option_bind]. destruct ok.
  - do 2 eexists. split; [reflexivity|]. split_and!; [by apply seen_ok_arm|by rewrite Hhigh|by rewrite arm_ident, commit_ident| |done].
    eexists. split; [exact Hh'|]. split; [exact Hl|]. rewrite fupd_eq. split; [done|]. intros y Hy. by rewrite fupd_ne.
  - do 2 eexists. split; [reflexivity|]. split_and!; [done|done|done| |done].
    exists c. split; [exact Hh'|]. split; [exact Hl|]. by rewrite app_nil_r.
Qed.

(** ** Histories *)

Record un_event := mk_un { v_world : RecvWorld Q T; v_lanes : Z -> list ReadyEntry; v_seq : Z; v_slot : Z; v_now : Z }.

(** The run, with the packets delivered and the sequences committed. *)
Inductive un_run (n : Z) : InAssociation -> list un_event -> InAssociation -> list (Z * Z) -> Prop :=
| un_done a : un_run n a [] a []
| un_step a ev evs produced incoming a1 k1 a' outs :
    DeliverUnordered a (v_world ev) (v_slot ev) (v_seq ev) (v_now ev) = Some (produced, incoming, a1, k1) ->
    lanes_gain (v_world ev) k1 n (v_lanes ev) (ia_peerSlot a) (if produced =? 1 then [v_slot ev] else []) ->
    un_run n a1 evs a' outs ->
    un_run n a (ev :: evs) a' ((if produced =? 1 then [(v_seq ev, v_slot ev)] else []) ++ outs).

Definition un_ok (n : Z) (ev : un_event) : Prop := rq_holds (readyLanes (v_world ev)) n (v_lanes ev) /\ v_slot ev <> INVALID.

Lemma un_run_ok n : forall evs a got, seen_ok w a got -> 0 <= ia_peerSlot a -> Forall (un_ok n) evs ->
  exists a' outs got', un_run n a evs a' outs /\ seen_ok w a' got' /\ ident a' = ident a /\ recvHighest a <= recvHighest a' /\
    (forall s, got s = true -> got' s = true) /\
    (forall s, s ∈ map fst outs -> got' s = true /\ got s = false) /\ NoDup (map fst outs) /\
    (forall o, o ∈ outs -> o ∈ map (fun ev => (v_seq ev, v_slot ev)) evs) /\
    (forall s, got' s = true -> got s = true \/ s ∈ map fst outs \/ (ia_mode a = UNRELIABLE /\ s ∈ map v_seq evs)) /\
    (ia_mode a = UNRELIABLE -> StronglySorted Z.lt (map fst outs) /\ Forall (fun s => recvHighest a < s) (map fst outs)).
Proof using Hw.
  induction evs as [|ev evs IH]; intros a got Hok Hp Hevs.
  - exists a, [], got. cbn. split_and!; try done.
    + apply un_done.
    + by intros s ?%elem_of_nil.
    + apply NoDup_nil_2.
    + by left.
    + intros _. split; constructor.
  - apply Forall_cons in Hevs as [[Hh Hx] Hevs].
    destruct (DeliverUnordered_ok n a (v_world ev) (v_lanes ev) (v_slot ev) (v_seq ev) (v_now ev) got Hok Hh Hp Hx)
      as (pushed&a1&k1&E&Hok1&Hhi1&Hid1&Hg1&_). cbv zeta in *. set (u := un_class a (v_world ev) (v_seq ev) pushed) in *.
    assert (Hp1 : ia_peerSlot a1 = ia_peerSlot a) by (by injection Hid1). assert (Hm1 : ia_mode a1 = ia_mode a) by (by injection Hid1).
    destruct (IH a1 _ Hok1 ltac:(lia) Hevs) as (a'&outs&got'&Hrun&Hok'&Hid'&Hhi'&Hmono&Hout&Hnd&Harr&Hback&Hun).
    assert (Hdel : un_delivers u = true -> got (v_seq ev) = false /\ un_commits u = true /\ (ia_mode a = UNRELIABLE -> recvHighest a < v_seq ev)).
    { subst u. unfold un_class. pose proof (AlreadySeen_ok w Hw a got (v_seq ev) Hok) as Hs. destruct (AlreadySeen a (v_seq ev)); [done|].
      destruct (bool_decide (ia_mode a = UNRELIABLE) && (v_seq ev <=? recvHighest a)) eqn:Eu; [done|].
      destruct (negb _); [done|]. destruct pushed; [|done]. intros _. split_and!; [|done|].
      - symmetry in Hs. apply andb_false_iff in Hs as [Hs%Z.leb_gt|Hs]; [destruct Hok; auto|]. by apply orb_false_iff in Hs as [_ ?].
      - intros Em. rewrite bool_decide_true in Eu by done. cbn in Eu. by apply Z.leb_gt. }
    assert (Hstale : un_commits u = true -> un_delivers u = false -> ia_mode a = UNRELIABLE).
    { subst u. unfold un_class. destruct (AlreadySeen _ _); [done|]. destruct (bool_decide (ia_mode a = UNRELIABLE)) eqn:Em; cbn [andb].
      - intros _ _. by apply bool_decide_eq_true in Em.
      - destruct (negb _); [done|]. by destruct pushed. }
    set (one := if un_delivers u then [(v_seq ev, v_slot ev)] else []).
    exists a', (one ++ outs), got'. clearbody u.
    assert (Hone : forall s, s ∈ map fst one -> s = v_seq ev /\ un_delivers u = true).
    { subst one. destruct (un_delivers u); cbn; [|by intros s ?%elem_of_nil]. by intros s ->%list_elem_of_singleton. }
    split_and!.
    + assert (Eone : one = if (if un_delivers u then 1 else 0) =? 1 then [(v_seq ev, v_slot ev)] else []) by (subst one; by destruct (un_delivers u)).
      rewrite Eone. eapply un_step; [exact E| |done]. by destruct (un_delivers u).
    + done.
    + by rewrite Hid'.
    + rewrite Hhi1 in Hhi'. destruct (un_commits u); lia.
    + intros s Hs. apply Hmono. destruct (un_commits u); [|done]. unfold marked. by rewrite Hs, orb_true_r.
    + intros s. rewrite map_app, elem_of_app. intros [Hs|Hs].
      * destruct (Hone s Hs) as [-> Hd]. destruct (Hdel Hd) as (?&Hc&_). split; [|done]. apply Hmono. rewrite Hc. unfold marked. by rewrite Z.eqb_refl.
      * destruct (Hout s Hs) as [? Hg]. split; [done|]. destruct (un_commits u); [|done]. unfold marked in Hg. by apply orb_false_iff in Hg as [_ ?].
    + rewrite map_app. apply NoDup_app. split_and!; [subst one; destruct (un_delivers u); cbn; [apply NoDup_singleton|constructor]| |done].
      intros s Hs Hs'. destruct (Hone s Hs) as [-> Hd]. destruct (Hdel Hd) as (_&Hc&_). destruct (Hout _ Hs') as [_ Hg].
      rewrite Hc in Hg. unfold marked in Hg. by rewrite Z.eqb_refl in Hg.
    + intros o [Ho|Ho]%elem_of_app; cbn; [|right; by apply Harr]. subst one. destruct (un_delivers u); [|by apply elem_of_nil in Ho].
      apply list_elem_of_singleton in Ho as ->. left.
    + intros s Hs. destruct (Hback s Hs) as [Hg|[Hg|[Hm Hg]]].
      * destruct (un_commits u) eqn:Ec; [|by left]. unfold marked in Hg. apply orb_true_iff in Hg as [->%Z.eqb_eq|Hg]; [|by left]. right.
        rewrite map_app, elem_of_app. destruct (un_delivers u) eqn:Ed; [left; left; subst one; cbn; left|]. right. split; [by apply Hstale|]. cbn. left.
      * right. left. rewrite map_app, elem_of_app. by right.
      * right. right. rewrite Hm1 in Hm. split; [done|]. cbn. by right.
    + intros Hm. rewrite Hm1 in Hun. destruct (Hun Hm) as [Hsort Hall]. rewrite map_app. split.
      * subst one. destruct (un_delivers u) eqn:Ed; [|done]. cbn. destruct (Hdel eq_refl) as (_&Hc&_). constructor; [done|].
        eapply Forall_impl; [exact Hall|]. cbn. intros s Hs. rewrite Hhi1, Hc in Hs. lia.
      * apply Forall_app. split.
        -- apply Forall_forall. intros s Hs. destruct (Hone s Hs) as [-> Hd]. by apply Hdel.
        -- eapply Forall_impl; [exact Hall|]. cbn. intros s Hs. rewrite Hhi1 in Hs. destruct (un_commits u); lia.
Qed.
End Unordered.

Section Promises.
Context {Q T : Type} `{!ReadyQueue Q} `{!Allocator T}.

(** (C35) An unordered association delivers no sequence twice, whatever arrives and
    whatever room there is: every packet it delivers did arrive under its sequence, an
    unreliable flow delivers in increasing order, and the acknowledgement ranges name only
    sequences that were delivered or, on an unreliable flow, came too late. *)
Theorem unordered_at_most_once (w n peer flowId flowEpoch cap now maxRanges : Z) (old : InAssociation) (addr : Address) (id : BcpId)
  (mode : FlowMode) (evs : list (@un_event Q T)) (Hw : 6 <= w <= 15) (Hpeer : 0 <= peer) (Hmax : 0 <= maxRanges)
  (Hevs : Forall (un_ok n) evs) :
  exists a outs, un_run n (ResetInAssoc old peer addr (Some id) flowId mode flowEpoch (2 ^ w) cap now) evs a outs /\
    NoDup (map fst outs) /\ (forall o, o ∈ outs -> o ∈ map (fun ev => (v_seq ev, v_slot ev)) evs) /\
    (mode = UNRELIABLE -> StronglySorted Z.lt (map fst outs)) /\
    (forall s, SeqInRanges s (BuildAckRanges a maxRanges) = true ->
       s ∈ map fst outs \/ (mode = UNRELIABLE /\ s ∈ map v_seq evs)).
Proof.
  destruct (un_run_ok w Hw n evs (ResetInAssoc old peer addr (Some id) flowId mode flowEpoch (2 ^ w) cap now) (fun _ => false))
    as (a&outs&got&Hrun&Hok&_&_&_&_&Hnd&Harr&Hback&Hun); [by apply (reset_seen w Hw)|done|done|].
  exists a, outs. split_and!; [done|done|done|by intros Hm; apply Hun|].
  intros s Hs. destruct (BuildAckRanges_ok w Hw a got maxRanges Hok Hmax) as (_&_&Hr&_). apply Hr in Hs.
  destruct (Hback s Hs) as [?|[?|?]]; [done|by left|by right].
Qed.
End Promises.

(** ** A concrete run: 2, 1, 2 again, and 70, which pushes 1 out of the window. *)

Definition sample_un_q : ReadyLanes := (Lanes_Init 1 8 (Lanes_Shutdown (mk_lanes [] [] 0 0))).2.
Definition sample_un_world : RecvWorld ReadyLanes SlotPool := mk_world sample_un_q pool0 [mk_recv 0 0 0 0] 0 100.
Definition sample_un (seq slot : Z) : @un_event ReadyLanes SlotPool := mk_un sample_un_world (fun _ => []) seq slot 1000.
Definition sample_un_events : list (@un_event ReadyLanes SlotPool) := [sample_un 2 4; sample_un 1 5; sample_un 2 6; sample_un 70 7; sample_un 1 8].
Definition blank_un : InAssociation := mk_in 0 (mk_addr 0 0 [] 0) (mk_id []) 0 RELIABLE_ORDERED 0 CLOSED false false 6 0 0 0 0 0 0 0 0 0 [] [].

Lemma sample_un_ok : Forall (un_ok 8) sample_un_events.
Proof.
  destruct (Lanes_Init_ok 1 8 (mk_lanes [] [] 0 0) ltac:(lia) ltac:(lia)) as (r&E&Hh&_).
  assert (Hq : rq_holds sample_un_q 8 (fun _ => [])) by (unfold sample_un_q; rewrite E; exact Hh).
  assert (Hone : forall seq slot, slot <> INVALID -> un_ok 8 (sample_un seq slot)) by (intros; by split).
  unfold sample_un_events. repeat (apply Forall_cons; split; [by apply Hone|]). by apply Forall_nil.
Qed.

Lemma unordered_at_most_once_witness :
  exists a outs, un_run 8 (ResetInAssoc blank_un 0 (mk_addr 2 7 [] 0) (Some (mk_id [])) 4 UNRELIABLE 0 (2 ^ 6) 0 500) sample_un_events a outs /\
    NoDup (map fst outs) /\ (forall o, o ∈ outs -> o ∈ map (fun ev => (v_seq ev, v_slot ev)) sample_un_events) /\
    (UNRELIABLE = UNRELIABLE -> StronglySorted Z.lt (map fst outs)) /\
    (forall s, SeqInRanges s (BuildAckRanges a 16) = true ->
       s ∈ map fst outs \/ (UNRELIABLE = UNRELIABLE /\ s ∈ map v_seq sample_un_events)).
Proof.
  apply (unordered_at_most_once 6 8 0 4 0 0 500 16 blank_un (mk_addr 2 7 [] 0) (mk_id []) UNRELIABLE sample_un_events);
    [lia|lia|lia|exact sample_un_ok].
Defined.
