(* ===== verification/Packet.v ===== *)
(** * The packet in its slot: [PacketSlot] of [flux/socket/packet_slot]

    A slot holds the packet's peer address, its length and its bytes.  The
    accessors find every field from the controller byte alone: which fields are
    present, and so where each of them starts.

    The specification is the layout: the list of the parts a packet may carry.
    [layout_bytes] writes them in wire order, and [packet_accessors] shows that the
    accessors read back exactly the parts the layout has, and the documented
    default for the ones it has not. *)

From S2P Require Import Prelude Wire Bytes FlowData Keys.

(** ** Definitions *)

Record PacketSlot := mk_pkt { pk_address : Address; dataSize : Z; pk_data : list Z }.
#[export] Instance PacketSlot_eta : Eta PacketSlot := fun p => mk_pkt (pk_address p) (dataSize p) (pk_data p).

Implicit Types p : PacketSlot.

Definition Packet_IsValid p : bool := if dataSize p <? MIN_WIRE_SIZE then false else true.

Definition Controller p : Z := (pk_data p).[0].

Definition IsInternal p : bool :=
  if negb (Packet_IsValid p) then false else negb (Z.land (Controller p) CTRL_INTERNAL =? 0).

Definition IsSecure p : bool :=
  if negb (Packet_IsValid p) then false else Z.land (Controller p) CTRL_UNSECURE =? 0.

Definition IsMacOnly p : bool :=
  if negb (Packet_IsValid p) then false else IsSecure p && negb (Z.land (Controller p) CTRL_MACONLY =? 0).

Definition IsBatch p : bool :=
  if negb (Packet_IsValid p) then false else negb (Z.land (Controller p) CTRL_BATCH =? 0).

Definition HasFlow p : bool :=
  if negb (Packet_IsValid p) then false else negb (Z.land (Controller p) CTRL_HAS_FLOW =? 0).

Definition IsTagged p : bool :=
  if negb (IsSecure p) then false else negb (Z.land (Controller p) CTRL_TAGGED =? 0).

Definition FlowHeaderOffset p : Z :=
  if negb (HasFlow p) then dataSize p
  else
    let offset := WIRE_CONTROLLER_SIZE in
    let offset := if IsSecure p then offset + WIRE_NONCE_SIZE else offset in
    let offset := if IsTagged p then offset + WIRE_PEER_TAG_SIZE else offset in
    let offset := if IsSecure p then offset + WIRE_SECURE_CHANNEL_SIZE else offset in
    if offset + WIRE_FLOW_HEADER_SIZE <=? dataSize p then offset else dataSize p.

Definition FlowId p : Z :=
  let offset := FlowHeaderOffset p in
  if offset =? dataSize p then INVALID_FLOW_ID
  else
    match TakeU16 {| rd_buf := pk_data p; rd_p := offset; rd_r := WIRE_FLOW_ID_SIZE |} with
    | Some (flowId, _) => flowId
    | None => INVALID_FLOW_ID
    end.

Definition FlowSeq p : Z :=
  let offset := FlowHeaderOffset p in
  if offset =? dataSize p then 0
  else
    match TakeU32 {| rd_buf := pk_data p; rd_p := offset + WIRE_FLOW_ID_SIZE; rd_r := WIRE_FLOW_SEQ_SIZE |} with
    | Some (seq, _) => seq
    | None => 0
    end.

(** [PacketSlot::FlowData]. *)
Definition FlowDataByte p : Z :=
  let offset := FlowHeaderOffset p in
  if offset =? dataSize p then 0
  else (pk_data p).[offset + WIRE_FLOW_ID_SIZE + WIRE_FLOW_SEQ_SIZE].

Definition Part p : FlowPart := FlowDataPart (FlowDataByte p).

(** A pointer into the slot is the bytes from there on; [None] is null. *)
Definition from {A} (l : list A) (offset : Z) : list A := drop (Z.to_nat offset) l.

Definition PeerTagField p : option (list Z) :=
  if negb (IsTagged p) then None
  else
    let offset := WIRE_CONTROLLER_SIZE + WIRE_NONCE_SIZE in
    if dataSize p <? offset + WIRE_PEER_TAG_SIZE then None else Some (from (pk_data p) offset).

Definition SecureChannel p : Z :=
  if negb (IsSecure p) then SECURE_CHANNEL_APP
  else
    let offset := WIRE_CONTROLLER_SIZE + WIRE_NONCE_SIZE in
    let offset := if IsTagged p then offset + WIRE_PEER_TAG_SIZE else offset in
    if dataSize p <? offset + WIRE_SECURE_CHANNEL_SIZE then SECURE_CHANNEL_APP else (pk_data p).[offset].

Definition ContentOffset p : Z :=
  let contentOffset := WIRE_CONTROLLER_SIZE in
  let contentOffset := if IsSecure p then contentOffset + WIRE_NONCE_SIZE else contentOffset in
  let contentOffset := if IsTagged p then contentOffset + WIRE_PEER_TAG_SIZE else contentOffset in
  let contentOffset := if IsSecure p then contentOffset + WIRE_SECURE_CHANNEL_SIZE else contentOffset in
  if HasFlow p then contentOffset + WIRE_FLOW_HEADER_SIZE else contentOffset.

Definition ContentLength p : Z :=
  let trailer := if IsSecure p then WIRE_TAG_SIZE else 0 in
  let used := ContentOffset p + trailer in
  if used <=? dataSize p then dataSize p - used else 0.

Definition Content p (offset : Z) : option (list Z) :=
  if dataSize p <? offset then None else Some (from (pk_data p) offset).

(** ** Specification: layouts *)

(** What a packet carries in front of and behind its content. *)
Inductive protection :=
| Plain
| Sealed (macOnly : bool) (nonce : list Z) (peerTag : option (list Z)) (channel : Z) (trailer : list Z).

Record Layout := mk_layout {
  ly_internal : bool; ly_batch : bool; ly_prot : protection;
  ly_flow : option (Z * Z * Z); ly_payload : list Z }.

Definition flag (b : bool) (bit : Z) : Z := if b then bit else 0.
Definition is_some {A} (o : option A) : bool := match o with Some _ => true | None => false end.

Definition ly_sealed (l : Layout) : bool := match ly_prot l with Plain => false | Sealed _ _ _ _ _ => true end.
Definition ly_macOnly (l : Layout) : bool := match ly_prot l with Plain => false | Sealed m _ _ _ _ => m end.
Definition ly_peerTag (l : Layout) : option (list Z) := match ly_prot l with Plain => None | Sealed _ _ t _ _ => t end.
Definition ly_channel (l : Layout) : Z := match ly_prot l with Plain => SECURE_CHANNEL_APP | Sealed _ _ _ c _ => c end.
Definition ly_trailer (l : Layout) : list Z := match ly_prot l with Plain => [] | Sealed _ _ _ _ t => t end.
Definition ly_head (l : Layout) : list Z :=
  match ly_prot l with Plain => [] | Sealed _ n t c _ => n ++ default [] t ++ [c] end.

Definition layout_controller (l : Layout) : Z :=
  Z.lor (Z.lor (Z.lor (Z.lor (Z.lor (flag (ly_internal l) CTRL_INTERNAL)
    (flag (is_some (ly_flow l)) CTRL_HAS_FLOW))
    (flag (negb (ly_sealed l)) CTRL_UNSECURE))
    (flag (is_some (ly_peerTag l)) CTRL_TAGGED))
    (flag (ly_macOnly l) CTRL_MACONLY))
    (flag (ly_batch l) CTRL_BATCH).

Definition flow_bytes (f : option (Z * Z * Z)) : list Z :=
  match f with None => [] | Some (id, seq, data) => le_bytes 2 id ++ le_bytes 4 seq ++ [data] end.

Definition layout_bytes (l : Layout) : list Z :=
  layout_controller l :: ly_head l ++ flow_bytes (ly_flow l) ++ ly_payload l ++ ly_trailer l.

Definition prot_ok (pr : protection) : Prop :=
  match pr with
  | Plain => True
  | Sealed _ n t c tr =>
      zlen n = WIRE_NONCE_SIZE /\ Forall is_byte n /\ is_byte c /\ zlen tr = WIRE_TAG_SIZE /\ Forall is_byte tr /\
      match t with None => True | Some t => zlen t = WIRE_PEER_TAG_SIZE /\ Forall is_byte t end
  end.
Definition flow_ok (f : option (Z * Z * Z)) : Prop :=
  match f with None => True | Some (id, seq, data) => is_u16 id /\ is_u32 seq /\ is_u8 data end.
Definition layout_ok (l : Layout) : Prop :=
  prot_ok (ly_prot l) /\ flow_ok (ly_flow l) /\ Forall is_byte (ly_payload l).

(** The slot holds the layout: its length counts the layout's bytes, which the
    storage starts with. *)
Definition holds_layout p (l : Layout) : Prop :=
  exists rest, pk_data p = layout_bytes l ++ rest /\ dataSize p = zlen (layout_bytes l).

(** ** Lemmas *)

Lemma zlen_le_bytes n x : zlen (le_bytes n x) = Z.of_nat n.
Proof. unfold zlen. by rewrite length_le_bytes. Qed.

Section Pieces.
Context {A : Type} `{!Inhabited A}.
Implicit Types l : list A.

Lemma from_app l1 l2 n : n = zlen l1 -> from (l1 ++ l2) n = l2.
Proof. intros ->. unfold from, zlen. rewrite Nat2Z.id. apply drop_app_length. Qed.

Lemma region_mid l1 l2 l3 off n : off = zlen l1 -> n = zlen l2 -> region (l1 ++ l2 ++ l3) off n = l2.
Proof.
  intros -> ->. unfold region, zlen. rewrite !Nat2Z.id, drop_app_length. apply take_app_length.
Qed.

Lemma get_mid l1 x l3 off : off = zlen l1 -> (l1 ++ x :: l3).[off] = x.
Proof.
  intros ->. unfold arr_get, zlen. rewrite Nat2Z.id, lookup_total_app_r by lia.
  by rewrite Nat.sub_diag.
Qed.
End Pieces.

(** A field standing in a buffer is what a take there answers. *)
Lemma take_field_at buf off r f :
  Forall is_byte buf -> 0 <= off -> off + r <= zlen buf -> field_size f <= r ->
  region buf off (field_size f) = field_wire f -> field_ok f ->
  take_field {| rd_buf := buf; rd_p := off; rd_r := r |} f
  = Some (f, rd_adv {| rd_buf := buf; rd_p := off; rd_r := r |} (field_size f)).
Proof.
  intros Hb Ho Hr Hf Hreg Hok. pose proof (zlen_nonneg (field_wire f)). unfold field_size in *.
  rewrite take_field_spec; [|by repeat split; cbn; lia|done]. cbn [rd_r rd_buf rd_p]. unfold field_size.
  destruct (Z.ltb_spec r (zlen (field_wire f))); [lia|]. by rewrite Hreg, field_of_wire.
Qed.

Lemma TakeU16_at buf off r v :
  Forall is_byte buf -> 0 <= off -> off + r <= zlen buf -> 2 <= r ->
  region buf off 2 = le_bytes 2 v -> is_u16 v ->
  exists s, TakeU16 {| rd_buf := buf; rd_p := off; rd_r := r |} = Some (v, s).
Proof.
  intros Hb Ho Hr H2 Hreg Hv.
  pose proof (take_field_at buf off r (FU16 v) Hb Ho Hr H2 Hreg Hv) as H. cbn [take_field] in H.
  destruct (TakeU16 _) as [[x s]|]; [|done]. cbn in H. injection H as -> _. eauto.
Qed.

Lemma TakeU32_at buf off r v :
  Forall is_byte buf -> 0 <= off -> off + r <= zlen buf -> 4 <= r ->
  region buf off 4 = le_bytes 4 v -> is_u32 v ->
  exists s, TakeU32 {| rd_buf := buf; rd_p := off; rd_r := r |} = Some (v, s).
Proof.
  intros Hb Ho Hr H4 Hreg Hv.
  pose proof (take_field_at buf off r (FU32 v) Hb Ho Hr H4 Hreg Hv) as H. cbn [take_field] in H.
  destruct (TakeU32 _) as [[x s]|]; [|done]. cbn in H. injection H as -> _. eauto.
Qed.

(** ** The accessors on a layout *)

Lemma layout_len l : 1 <= zlen (layout_bytes l).
Proof. unfold layout_bytes, zlen. cbn [length]. lia. Qed.

Section Accessors.
Context (p : PacketSlot) (l : Layout) (Hh : holds_layout p l) (Hok : layout_ok l).

Lemma held_valid : Packet_IsValid p = true.
Proof using Hh.
  destruct Hh as (rest&_&Hs). unfold Packet_IsValid, MIN_WIRE_SIZE, WIRE_CONTROLLER_SIZE. rewrite Hs.
  pose proof (layout_len l). destruct (Z.ltb_spec (zlen (layout_bytes l)) 1); [lia|done].
Qed.

Lemma held_controller : Controller p = layout_controller l.
Proof using Hh. destruct Hh as (rest&Hd&_). unfold Controller. rewrite Hd. done. Qed.

(** Each controller bit says what it stands for. *)
Lemma held_flags :
  IsInternal p = ly_internal l /\ IsSecure p = ly_sealed l /\ IsMacOnly p = ly_macOnly l /\
  IsBatch p = ly_batch l /\ HasFlow p = is_some (ly_flow l) /\ IsTagged p = is_some (ly_peerTag l).
Proof using Hh.
  unfold IsTagged, IsMacOnly, IsInternal, IsSecure, IsBatch, HasFlow.
  rewrite held_valid, held_controller. unfold layout_controller, ly_sealed, ly_macOnly, ly_peerTag.
  destruct (ly_internal l), (ly_batch l), (ly_flow l) as [[[? ?] ?]|], (ly_prot l) as [|[|] ? [?|] ? ?];
    vm_compute; auto 10.
Qed.

Lemma head_len :
  zlen (ly_head l) = (if ly_sealed l then 9 else 0) + (if is_some (ly_peerTag l) then 4 else 0).
Proof using Hok.
  destruct Hok as (Hp&_&_). unfold ly_head, ly_sealed, ly_peerTag.
  destruct (ly_prot l) as [|m n t c tr]; [done|].
  destruct Hp as (Hn&_&_&_&_&Ht). rewrite !zlen_app, Hn. change (zlen [c]) with 1.
  destruct t as [t|]; cbn; [destruct Ht as [-> _]|]; done.
Qed.

Lemma trailer_len : zlen (ly_trailer l) = if ly_sealed l then 16 else 0.
Proof using Hok.
  destruct Hok as (Hp&_&_). unfold ly_trailer, ly_sealed.
  destruct (ly_prot l) as [|m n t c tr]; [done|]. apply Hp.
Qed.

Lemma flow_len : zlen (flow_bytes (ly_flow l)) = if is_some (ly_flow l) then 7 else 0.
Proof using. destruct (ly_flow l) as [[[? ?] ?]|]; done. Qed.

Lemma layout_zlen :
  zlen (layout_bytes l) = 1 + zlen (ly_head l) + zlen (flow_bytes (ly_flow l)) + zlen (ly_payload l) + zlen (ly_trailer l).
Proof using.
  unfold layout_bytes. change (?c :: ?r) with ([c] ++ r). rewrite !zlen_app. change (zlen [_]) with 1. lia.
Qed.

Lemma held_content_offset : ContentOffset p = 1 + zlen (ly_head l) + zlen (flow_bytes (ly_flow l)).
Proof using Hh Hok.
  destruct held_flags as (_&Es&_&_&Ef&Et). unfold ContentOffset. rewrite Es, Ef, Et, head_len, flow_len.
  unfold WIRE_CONTROLLER_SIZE, WIRE_NONCE_SIZE, WIRE_PEER_TAG_SIZE, WIRE_SECURE_CHANNEL_SIZE, WIRE_FLOW_HEADER_SIZE,
    WIRE_FLOW_ID_SIZE, WIRE_FLOW_SEQ_SIZE, WIRE_FLOW_DATA_SIZE.
  destruct (ly_sealed l), (is_some (ly_peerTag l)), (is_some (ly_flow l)); lia.
Qed.

Lemma held_content :
  ContentLength p = zlen (ly_payload l) /\
  exists b, Content p (ContentOffset p) = Some b /\ region b 0 (ContentLength p) = ly_payload l.
Proof using Hh Hok.
  pose proof held_content_offset as Eo. destruct held_flags as (_&Es&_).
  pose proof layout_zlen as Ez. pose proof trailer_len as Et. destruct Hh as (rest&Hd&Hs).
  pose proof (zlen_nonneg (ly_payload l)). pose proof (zlen_nonneg (ly_trailer l)).
  assert (El : ContentLength p = zlen (ly_payload l)).
  { unfold ContentLength. rewrite Es, Eo, Hs, Ez. unfold WIRE_TAG_SIZE.
    destruct (ly_sealed l); rewrite Et in *; zcase; lia. }
  split; [done|]. rewrite El. unfold Content. rewrite Eo, Hs, Ez. zcase; [lia|].
  eexists. split; [done|]. rewrite Hd. unfold layout_bytes. change (?c :: ?r) with ([c] ++ r).
  rewrite <- !app_assoc. rewrite (app_assoc _ (ly_head l)), (app_assoc _ (flow_bytes _)).
  rewrite from_app by (rewrite !zlen_app; done).
  apply (region_mid [] _ _ 0); done.
Qed.
Lemma held_flow_offset :
  FlowHeaderOffset p = if is_some (ly_flow l) then 1 + zlen (ly_head l) else dataSize p.
Proof using Hh Hok.
  destruct held_flags as (_&Es&_&_&Ef&Et). unfold FlowHeaderOffset. rewrite Es, Ef, Et, head_len.
  pose proof layout_zlen as Ez. rewrite flow_len, head_len, trailer_len in Ez. destruct Hh as (rest&_&Hs).
  rewrite Hs, Ez. pose proof (zlen_nonneg (ly_payload l)).
  unfold WIRE_CONTROLLER_SIZE, WIRE_NONCE_SIZE, WIRE_PEER_TAG_SIZE, WIRE_SECURE_CHANNEL_SIZE, WIRE_FLOW_HEADER_SIZE,
    WIRE_FLOW_ID_SIZE, WIRE_FLOW_SEQ_SIZE, WIRE_FLOW_DATA_SIZE.
  destruct (is_some (ly_flow l)); cbn [negb]; [|done].
  destruct (ly_sealed l), (is_some (ly_peerTag l)); zcase; lia.
Qed.

(** Around the flow header: what the storage is. *)
Lemma held_flow_data : exists pre post,
  pk_data p = pre ++ flow_bytes (ly_flow l) ++ post /\ zlen pre = 1 + zlen (ly_head l).
Proof using Hh.
  destruct Hh as (rest&Hd&_).
  exists (layout_controller l :: ly_head l), ((ly_payload l ++ ly_trailer l) ++ rest).
  rewrite Hd. unfold layout_bytes. split; [by cbn; rewrite <- !app_assoc|].
  change (?c :: ?r) with ([c] ++ r). by rewrite zlen_app.
Qed.

Lemma held_flow :
  Forall is_byte (pk_data p) ->
  match ly_flow l with
  | None => FlowId p = INVALID_FLOW_ID /\ FlowSeq p = 0 /\ FlowDataByte p = 0
  | Some (id, seq, data) => FlowId p = id /\ FlowSeq p = seq /\ FlowDataByte p = data
  end.
Proof using Hh Hok.
  intros Hb. unfold FlowId, FlowSeq, FlowDataByte. cbv zeta. rewrite held_flow_offset.
  destruct held_flow_data as (pre&post&Hd&Hpre). pose proof layout_zlen as Ez. rewrite flow_len in Ez.
  assert (Hs : dataSize p = zlen (layout_bytes l)) by (by destruct Hh as (?&_&?)).
  pose proof (zlen_nonneg (ly_payload l)). pose proof (zlen_nonneg (ly_trailer l)). pose proof (zlen_nonneg (ly_head l)).
  destruct Hok as (_&Hf&_).
  destruct (ly_flow l) as [[[id seq] data]|]; cbn [is_some] in *; [|by rewrite Z.eqb_refl].
  destruct (Z.eqb_spec (1 + zlen (ly_head l)) (dataSize p)); [lia|].
  destruct Hf as (Hid&Hseq&Hdat). cbn [flow_bytes] in Hd.
  assert (Hlen : zlen (pk_data p) = zlen pre + (7 + zlen post)).
  { rewrite Hd. rewrite !zlen_app, !zlen_le_bytes. change (zlen [data]) with 1. lia. }
  pose proof (zlen_nonneg post). unfold WIRE_FLOW_ID_SIZE, WIRE_FLOW_SEQ_SIZE.
  destruct (TakeU16_at (pk_data p) (1 + zlen (ly_head l)) 2 id) as [? ->]; [done|lia..| |done|].
  { rewrite Hd, <- !app_assoc. apply region_mid; [lia|done]. }
  destruct (TakeU32_at (pk_data p) (1 + zlen (ly_head l) + 2) 4 seq) as [? ->]; [done|lia..| |done|].
  { rewrite Hd, <- !app_assoc, (app_assoc pre). apply region_mid; [rewrite zlen_app, zlen_le_bytes; lia|done]. }
  split; [done|]. split; [done|].
  rewrite Hd, <- !app_assoc, (app_assoc pre), (app_assoc (pre ++ _)). apply get_mid.
  rewrite !zlen_app, !zlen_le_bytes. lia.
Qed.

Lemma held_head :
  SecureChannel p = ly_channel l /\
  match ly_peerTag l with
  | None => PeerTagField p = None
  | Some t => exists b, PeerTagField p = Some b /\ region b 0 WIRE_PEER_TAG_SIZE = t
  end.
Proof using Hh Hok.
  destruct held_flags as (_&Es&_&_&_&Et). unfold SecureChannel, PeerTagField. rewrite Es, Et.
  pose proof layout_zlen as Ez. pose proof head_len as Hl. pose proof trailer_len as Htr. rewrite flow_len in Ez.
  destruct Hh as (rest&Hd&Hs). destruct Hok as (Hp&_&_). unfold layout_bytes in Hd.
  pose proof (zlen_nonneg (ly_payload l)). pose proof (zlen_nonneg (ly_trailer l)).
  unfold ly_sealed, ly_peerTag, ly_channel, ly_head in *.
  destruct (ly_prot l) as [|m n t c tr]; [done|]. cbn [negb].
  destruct Hp as (Hn&_&_&_&_&Ht). unfold WIRE_CONTROLLER_SIZE, WIRE_SECURE_CHANNEL_SIZE, WIRE_NONCE_SIZE in *.
  destruct t as [t|]; cbn [is_some negb default] in *.
  - destruct Ht as (Ht&_). unfold WIRE_PEER_TAG_SIZE in *.
    destruct (Z.ltb_spec (dataSize p) (1 + 8 + 4 + 1)); [destruct (is_some (ly_flow l)); lia|].
    destruct (Z.ltb_spec (dataSize p) (1 + 8 + 4)); [lia|]. rewrite Hd. cbn [app].
    change (layout_controller l :: ?r) with ([layout_controller l] ++ r). rewrite <- !app_assoc. split.
    + rewrite (app_assoc _ n), (app_assoc _ t). apply get_mid. rewrite !zlen_app. change (zlen [_]) with 1. lia.
    + eexists. split; [done|]. rewrite app_assoc, from_app by (rewrite zlen_app; change (zlen [_]) with 1; lia).
      apply (region_mid [] t); done.
  - destruct (Z.ltb_spec (dataSize p) (1 + 8 + 1)); [destruct (is_some (ly_flow l)); lia|]. split; [|done].
    rewrite Hd. cbn [app]. change (layout_controller l :: ?r) with ([layout_controller l] ++ r). rewrite <- !app_assoc.
    rewrite app_assoc. apply get_mid. rewrite zlen_app. change (zlen [_]) with 1. lia.
Qed.
End Accessors.

(** (C33) A packet whose slot holds a layout is read back part by part: the
    controller bits say which parts are there, every field the layout has is
    answered with its value and every one it has not with the documented default,
    and the content is the payload alone, without the header in front of it or
    the authentication tag behind it. *)
Theorem packet_accessors (p : PacketSlot) (l : Layout)
  (Hh : holds_layout p l) (Hok : layout_ok l) (Hb : Forall is_byte (pk_data p)) :
  (IsInternal p = ly_internal l /\ IsSecure p = ly_sealed l /\ IsMacOnly p = ly_macOnly l /\
   IsBatch p = ly_batch l /\ HasFlow p = is_some (ly_flow l) /\ IsTagged p = is_some (ly_peerTag l)) /\
  (SecureChannel p = ly_channel l /\
   match ly_peerTag l with
   | None => PeerTagField p = None
   | Some t => exists b, PeerTagField p = Some b /\ region b 0 WIRE_PEER_TAG_SIZE = t
   end) /\
  match ly_flow l with
  | None => FlowId p = INVALID_FLOW_ID /\ FlowSeq p = 0 /\ FlowDataByte p = 0
  | Some (id, seq, data) => FlowId p = id /\ FlowSeq p = seq /\ FlowDataByte p = data
  end /\
  ContentLength p = zlen (ly_payload l) /\
  exists b, Content p (ContentOffset p) = Some b /\ region b 0 (ContentLength p) = ly_payload l.
Proof.
  split; [by apply held_flags|]. split; [by apply held_head|]. split; [by apply held_flow|]. by apply held_content.
Qed.

Definition sample_layout : Layout :=
  mk_layout false false (Sealed true (replicate 8 5) (Some [1; 2; 3; 4]) 0 (replicate 16 9)) (Some (7, 300, 8)) [10; 11; 12].
Definition sample_packet : PacketSlot :=
  mk_pkt (mk_addr 0 0 [] 0) (zlen (layout_bytes sample_layout)) (layout_bytes sample_layout ++ [0; 0]).

Lemma packet_accessors_witness :
  FlowId sample_packet = 7 /\ FlowSeq sample_packet = 300 /\ FlowDataByte sample_packet = 8 /\
  ContentLength sample_packet = 3.
Proof.
  destruct (packet_accessors sample_packet sample_layout) as (_&_&(?&?&?)&?&_); [..|by auto].
  - by exists [0; 0].
  - unfold layout_ok, prot_ok, sample_layout. cbn.
    repeat split; try lia; repeat constructor; unfold is_byte; lia.
  - unfold is_byte. apply Forall_forall. intros x Hx. vm_compute in Hx.
    repeat (apply elem_of_cons in Hx as [->|Hx]; [lia|]). by apply elem_of_nil in Hx.
Defined.

Section TwoSlots.
Context (p q : PacketSlot) (Hs : dataSize p = dataSize q)
  (Hp : dataSize p <= zlen (pk_data p)) (Hq : dataSize q <= zlen (pk_data q))
  (Hag : region (pk_data p) 0 (dataSize p) = region (pk_data q) 0 (dataSize q)).

Lemma agree_at i : 0 <= i < dataSize p -> (pk_data p).[i] = (pk_data q).[i].
Proof using Hs Hp Hq Hag.
  intros Hi.
  assert (E : forall b : list Z, dataSize p <= zlen b -> region b 0 (dataSize p) !! Z.to_nat i = Some b.[i]).
  { intros b Hb. unfold region, arr_get, zlen in *. rewrite drop_0, lookup_take_lt by lia. apply list_lookup_lookup_total_lt. lia. }
  apply (inj Some). rewrite <- (E _ Hp). rewrite Hag, <- Hs. apply E. lia.
Qed.

Lemma agree_region i n : 0 <= i -> 0 <= n -> i + n <= dataSize p -> region (pk_data p) i n = region (pk_data q) i n.
Proof using Hs Hp Hq Hag.
  intros Hi Hn Hin. apply arr_ext.
  - rewrite !zlen_region; lia.
  - intros k Hk. rewrite zlen_region in Hk by lia. rewrite !region_lookup by lia. apply agree_at. lia.
Qed.

Lemma agree_flags :
  IsInternal p = IsInternal q /\ IsSecure p = IsSecure q /\ IsMacOnly p = IsMacOnly q /\ IsBatch p = IsBatch q /\
  HasFlow p = HasFlow q /\ IsTagged p = IsTagged q.
Proof using Hs Hp Hq Hag.
  unfold IsTagged, IsMacOnly, IsInternal, IsSecure, IsBatch, HasFlow, Packet_IsValid, Controller, MIN_WIRE_SIZE, WIRE_CONTROLLER_SIZE.
  rewrite <- Hs. destruct (Z.ltb_spec (dataSize p) 1); [done|]. rewrite agree_at by lia. auto 10.
Qed.

Lemma agree_offsets :
  FlowHeaderOffset p = FlowHeaderOffset q /\ ContentOffset p = ContentOffset q /\ ContentLength p = ContentLength q.
Proof using Hs Hp Hq Hag.
  destruct agree_flags as (_&Es&_&_&Ef&Et). unfold FlowHeaderOffset, ContentLength, ContentOffset.
  by rewrite Es, Ef, Et, Hs.
Qed.

(** A flow header is answered only where it fits whole. *)
Lemma flow_header_fits r :
  FlowHeaderOffset r <> dataSize r -> 1 <= FlowHeaderOffset r /\ FlowHeaderOffset r + 7 <= dataSize r.
Proof using.
  unfold FlowHeaderOffset, WIRE_CONTROLLER_SIZE, WIRE_NONCE_SIZE, WIRE_PEER_TAG_SIZE, WIRE_SECURE_CHANNEL_SIZE,
    WIRE_FLOW_HEADER_SIZE, WIRE_FLOW_ID_SIZE, WIRE_FLOW_SEQ_SIZE, WIRE_FLOW_DATA_SIZE. cbv zeta.
  destruct (HasFlow r); [cbn [negb]|done].
  zcase; [|done]. intros _. destruct (IsSecure r), (IsTagged r); lia.
Qed.

Lemma agree_flow : FlowId p = FlowId q /\ FlowSeq p = FlowSeq q /\ FlowDataByte p = FlowDataByte q.
Proof using Hs Hp Hq Hag.
  destruct agree_offsets as (Eo&_). pose proof (flow_header_fits p) as Hf.
  unfold FlowId, FlowSeq, FlowDataByte. cbv zeta. rewrite <- Eo, <- Hs.
  destruct (Z.eqb_spec (FlowHeaderOffset p) (dataSize p)) as [|Hne]; [done|]. destruct (Hf Hne).
  unfold TakeU16, TakeU32, WIRE_FLOW_ID_SIZE, WIRE_FLOW_SEQ_SIZE, rd_at. cbn [rd_r rd_buf rd_p].
  change (2 <? 2) with false. change (4 <? 4) with false. cbv iota.
  rewrite !agree_at by lia. auto.
Qed.

Lemma agree_head :
  SecureChannel p = SecureChannel q /\
  (fun b => region b 0 WIRE_PEER_TAG_SIZE) <$> PeerTagField p = (fun b => region b 0 WIRE_PEER_TAG_SIZE) <$> PeerTagField q.
Proof using Hs Hp Hq Hag.
  destruct agree_flags as (_&Es&_&_&_&Et). unfold SecureChannel, PeerTagField. rewrite Es, Et, <- Hs. cbv zeta.
  unfold WIRE_CONTROLLER_SIZE, WIRE_SECURE_CHANNEL_SIZE, WIRE_NONCE_SIZE, WIRE_PEER_TAG_SIZE. split.
  - destruct (IsSecure q); [cbn [negb]|done]. destruct (IsTagged q); zcase; try done; apply agree_at; lia.
  - destruct (IsTagged q); [cbn [negb]|done]. zcase; [done|]. cbn. f_equal.
    pose proof (agree_region (1 + 8) 4 ltac:(lia) ltac:(lia) ltac:(lia)) as E.
    unfold region, from in *. exact E.
Qed.
End TwoSlots.

(** No accessor reads past the datagram: two slots of one length that
    agree on the first [dataSize] bytes, whatever else their storage holds and
    however short or damaged the packet is, give the same answers, the content
    itself included. *)
Theorem reads_stay_in_packet (p q : PacketSlot)
  (Hs : dataSize p = dataSize q) (Hp : dataSize p <= zlen (pk_data p)) (Hq : dataSize q <= zlen (pk_data q))
  (Hag : region (pk_data p) 0 (dataSize p) = region (pk_data q) 0 (dataSize q)) :
  IsInternal p = IsInternal q /\ IsSecure p = IsSecure q /\ IsMacOnly p = IsMacOnly q /\ IsBatch p = IsBatch q /\
  HasFlow p = HasFlow q /\ IsTagged p = IsTagged q /\ FlowId p = FlowId q /\ FlowSeq p = FlowSeq q /\
  FlowDataByte p = FlowDataByte q /\ SecureChannel p = SecureChannel q /\
  ContentOffset p = ContentOffset q /\ ContentLength p = ContentLength q /\
  (fun b => region b 0 WIRE_PEER_TAG_SIZE) <$> PeerTagField p = (fun b => region b 0 WIRE_PEER_TAG_SIZE) <$> PeerTagField q /\
  region (pk_data p) (ContentOffset p) (ContentLength p) = region (pk_data q) (ContentOffset q) (ContentLength q).
Proof.
  destruct (agree_flags p q Hs Hp Hq Hag) as (?&?&?&?&?&?). destruct (agree_flow p q Hs Hp Hq Hag) as (?&?&?).
  destruct (agree_head p q Hs Hp Hq Hag) as (?&?). destruct (agree_offsets p q Hs Hp Hq Hag) as (?&Eo&El).
  do 13 (split; [done|]). rewrite <- Eo, <- El.
  destruct (decide (ContentLength p = 0)) as [->|Hne]; [by rewrite !region_nil|].
  apply agree_region; try done; revert Hne; unfold ContentLength;
    assert (1 <= ContentOffset p) by (unfold ContentOffset, WIRE_CONTROLLER_SIZE, WIRE_NONCE_SIZE, WIRE_PEER_TAG_SIZE,
      WIRE_SECURE_CHANNEL_SIZE, WIRE_FLOW_HEADER_SIZE, WIRE_FLOW_ID_SIZE, WIRE_FLOW_SEQ_SIZE, WIRE_FLOW_DATA_SIZE; cbv zeta;
      destruct (IsSecure p), (IsTagged p), (HasFlow p); lia);
    cbv zeta; unfold WIRE_TAG_SIZE; destruct (IsSecure p); zcase; lia.
Qed.

Lemma reads_stay_in_packet_witness :
  FlowSeq (mk_pkt (mk_addr 0 0 [] 0) 9 [6; 1; 0; 44; 1; 0; 0; 8; 5; 99]) =
  FlowSeq (mk_pkt (mk_addr 1 1 [] 1) 9 [6; 1; 0; 44; 1; 0; 0; 8; 5; 77; 3]).
Proof.
  apply (reads_stay_in_packet (mk_pkt (mk_addr 0 0 [] 0) 9 [6; 1; 0; 44; 1; 0; 0; 8; 5; 99])
    (mk_pkt (mk_addr 1 1 [] 1) 9 [6; 1; 0; 44; 1; 0; 0; 8; 5; 77; 3])); vm_compute; congruence.
Defined.
