(* ===== verification/PacketHandle.v ===== *)
(** * Handles on packet slots: [PacketSlotHandle] of [flux/socket/packet_slot]

    A handle owns one slot of a pool and at most one lock on it.  It is read,
    written, moved, detached from its slot, and releases what it still owns when
    it dies.  The operations thread the pool whose slot the handle names; [None]
    is a lock that is waited for without end.

    Proved of any number of handles on one pool, whatever is done with them in
    whatever order: every slot out has one owner, every lock word is its owner's
    lock, and so no operation ever waits, releases a slot twice or leaks one. *)

From S2P Require Import Prelude CommonMath Fifo SlotPool Errors.

(** ** Definitions *)

Inductive LockMode := NONE | READ | WRITE.
#[export] Instance LockMode_eq_dec : EqDecision LockMode.
Proof. solve_decision. Defined.

(** A packet pointer is the index of the slot it points at, a pool pointer the
    pool's name; [None] is null. *)
Record PacketSlotHandle := mk_handle {
  pktR_ : option Z; pktW_ : option Z; idx_ : Z; pool_ : option Z; socket_ : option Z;
  lm_ : LockMode; failReason_ : Error; valid_ : bool }.
#[export] Instance PacketSlotHandle_eta : Eta PacketSlotHandle := fun h =>
  mk_handle (pktR_ h) (pktW_ h) (idx_ h) (pool_ h) (socket_ h) (lm_ h) (failReason_ h) (valid_ h).

Implicit Types (h o : PacketSlotHandle) (sp : SlotPool).

(** The default handle, [PacketSlotHandle::Invalid]. *)
Definition Handle_Invalid : PacketSlotHandle := mk_handle None None INVALID None None NONE InvalidState false.

Definition Handle_of (index : Z) (pool : option Z) : PacketSlotHandle :=
  let ok := negb (index =? INVALID) && bool_decide (pool <> None) in
  mk_handle None None index pool None NONE (if ok then Ok else InvalidParam) ok.

Definition Handle_failed (failReason : Error) (pool : option Z) : PacketSlotHandle :=
  mk_handle None None INVALID pool None NONE failReason false.

Definition BindSocket h (socket : option Z) : PacketSlotHandle := h <| socket_ := socket |>.

Definition Read h sp : option (option Z * PacketSlotHandle * SlotPool) :=
  if negb (valid_ h) then Some (None, h, sp)
  else
    match lm_ h with
    | READ => Some (pktR_ h, h, sp)
    | WRITE =>
        let h := h <| lm_ := READ |> in
        let h := h <| pktR_ := pktW_ h |> in
        Some (pktR_ h, h, DowngradeLock sp (idx_ h))
    | NONE =>
        sp ← ReadLock sp (idx_ h);
        let h := h <| pktR_ := Some (idx_ h) |> in
        let h := h <| lm_ := READ |> in
        Some (pktR_ h, h, sp)
    end.

Definition Write h sp : option (option Z * PacketSlotHandle * SlotPool) :=
  if negb (valid_ h) then Some (None, h, sp)
  else
    match lm_ h with
    | WRITE => Some (pktW_ h, h, sp)
    | _ =>
        let '(h, sp) :=
          if bool_decide (lm_ h = READ) then (h <| pktR_ := None |>, UnlockRead sp (idx_ h)) else (h, sp) in
        sp ← WriteLock sp (idx_ h);
        let h := h <| pktW_ := Some (idx_ h) |> in
        let h := h <| lm_ := WRITE |> in
        Some (pktW_ h, h, sp)
    end.

Definition Failed h : bool := negb (bool_decide (failReason_ h = Ok)).
Definition FailReason h : Error := failReason_ h.
Definition GetStride sp : Z := sp_stride sp.
Definition GetSlotIndex h : Z := idx_ h.
Definition GetPool h : option Z := pool_ h.

Definition Invalidate h : PacketSlotHandle := h <| valid_ := false |> <| socket_ := None |>.

(** The lock a handle's mode says it has, given up. *)
Definition unlock (lm : LockMode) (idx : Z) sp : SlotPool :=
  match lm with READ => UnlockRead sp idx | WRITE => UnlockWrite sp idx | NONE => sp end.

Definition Detach h sp : Z * PacketSlotHandle * SlotPool :=
  if negb (valid_ h) || (idx_ h =? INVALID) then (INVALID, h, sp)
  else
    let sp := unlock (lm_ h) (idx_ h) sp in
    let h := h <| lm_ := NONE |> in
    let detached := idx_ h in
    let h := h <| pktR_ := None |> in
    let h := h <| pktW_ := None |> in
    let h := h <| idx_ := INVALID |> in
    (detached, Invalidate h, sp).

Definition Handle_Release h sp : option (PacketSlotHandle * SlotPool) :=
  if valid_ h && negb (idx_ h =? INVALID) then
    let sp := unlock (lm_ h) (idx_ h) sp in
    sp ← Release sp (idx_ h);
    Some (Invalidate h, sp)
  else Some (h, sp).

(** The new [*this] and the new [o]; [self] says they are one object.  Move
    construction is a steal into a default handle. *)
Definition Steal (self : bool) h o sp : option (PacketSlotHandle * PacketSlotHandle * SlotPool) :=
  if self then Some (h, o, sp) else
  '(h, sp) ← Handle_Release h sp;
  let h := h <| valid_ := valid_ o |> <| failReason_ := failReason_ o |> <| pktW_ := pktW_ o |>
             <| pktR_ := pktR_ o |> <| idx_ := idx_ o |> <| pool_ := pool_ o |>
             <| socket_ := socket_ o |> <| lm_ := lm_ o |> in
  Some (h, Invalidate o, sp).

(** ** Specification: many handles, one pool *)

(** The slot a handle owns. *)
Definition owns h : list Z := if valid_ h then [idx_ h] else [].
Definition lock_of h : Z := match lm_ h with NONE => 0 | READ => 1 | WRITE => WRITE_LOCKED end.

(** Every handle variable of the program, the slots that travel as bare indices,
    and the pool. *)
Record world := mk_world { w_handles : list PacketSlotHandle; w_loose : list Z; w_pool : SlotPool }.

Definition held (hs : list PacketSlotHandle) : list Z := concat (map owns hs).

Section World.
Context (name : Z).   (* the pool's name *)

(** One operation on one handle variable.  A variable that has died is a default
    handle again. *)
Inductive wstep : world -> world -> Prop :=
| ws_declare hs loose sp : wstep (mk_world hs loose sp) (mk_world (Handle_Invalid :: hs) loose sp)
| ws_acquire hs loose sp hint idx sp' :
    Acquire hint sp = Some (idx, sp') ->
    wstep (mk_world hs loose sp) (mk_world (Handle_of idx (Some name) :: hs) loose sp')
| ws_adopt hs l1 idx l2 sp :
    wstep (mk_world hs (l1 ++ idx :: l2) sp) (mk_world (Handle_of idx (Some name) :: hs) (l1 ++ l2) sp)
| ws_read hs loose sp i h r h' sp' :
    hs !! i = Some h -> Read h sp = Some (r, h', sp') ->
    wstep (mk_world hs loose sp) (mk_world (<[i := h']> hs) loose sp')
| ws_write hs loose sp i h r h' sp' :
    hs !! i = Some h -> Write h sp = Some (r, h', sp') ->
    wstep (mk_world hs loose sp) (mk_world (<[i := h']> hs) loose sp')
| ws_detach hs loose sp i h idx h' sp' :
    hs !! i = Some h -> Detach h sp = (idx, h', sp') ->
    wstep (mk_world hs loose sp) (mk_world (<[i := h']> hs) (if idx =? INVALID then loose else idx :: loose) sp')
| ws_move hs loose sp i j h o h' o' sp' :
    hs !! i = Some h -> hs !! j = Some o -> Steal (bool_decide (i = j)) h o sp = Some (h', o', sp') ->
    wstep (mk_world hs loose sp) (mk_world (<[j := o']> (<[i := h']> hs)) loose sp')
| ws_die hs loose sp i h h' sp' :
    hs !! i = Some h -> Handle_Release h sp = Some (h', sp') ->
    wstep (mk_world hs loose sp) (mk_world (<[i := Handle_Invalid]> hs) loose sp').

Inductive wreach (capacity stride : Z) : world -> Prop :=
| wr_init : wreach capacity stride (mk_world [] [] (Pool_Init capacity stride))
| wr_step w w' : wreach capacity stride w -> wstep w w' -> wreach capacity stride w'.
End World.

(** ** Locks beside the free lists *)

Lemma owns_set_lock sp n l idx v : al_owns sp n l -> al_owns (set_lock sp idx v) n l.
Proof.
  intros (j&k&Hj&Hk&Hjk&->&fr&T&[? ? ? ? ? ? ? ? ? ?]&HP). exists j, k. split_and!; [done..|].
  exists fr, T. split; [|done]. by split.
Qed.

Lemma owns_unlock sp n l lm idx : al_owns sp n l -> al_owns (unlock lm idx sp) n l.
Proof. intros H. destruct lm; [done|by apply owns_set_lock..]. Qed.

Lemma TryAcquireFrom_locks sp r x sp' : TryAcquireFrom sp r = Some (x, sp') -> sp_locks sp' = sp_locks sp.
Proof. unfold TryAcquireFrom. intros. repeat case_match; simplify_eq; done. Qed.

Lemma Acquire_locks hint sp idx sp' : Acquire hint sp = Some (idx, sp') -> sp_locks sp' = sp_locks sp.
Proof.
  unfold Acquire. generalize (Z.land hint (shardMask sp)), 0. generalize (Z.to_nat (shardCount sp)).
  intros hops start. revert sp. induction hops as [|hops IH]; intros sp hop E; [by injection E as <- <-|].
  cbn [Acquire_loop] in E. destruct (TryAcquireFrom _ _) as [[x sp1]|] eqn:E1; [|done]. cbn in E.
  apply TryAcquireFrom_locks in E1. case_match; [by simplify_eq|]. apply IH in E. congruence.
Qed.

Lemma Release_locks sp idx sp' : Release sp idx = Some sp' -> sp_locks sp' = sp_locks sp.
Proof. unfold Release. intros. repeat case_match; simplify_eq; done. Qed.

Lemma lock_word_set_ne sp i j v : 0 <= i -> 0 <= j -> i <> j -> lock_word (set_lock sp i v) j = lock_word sp j.
Proof. intros. unfold lock_word, set_lock. cbn. by apply arr_get_set_ne. Qed.

Lemma locks_unlock sp lm idx : zlen (sp_locks (unlock lm idx sp)) = zlen (sp_locks sp).
Proof. destruct lm; [done|unfold unlock, UnlockRead, UnlockWrite, set_lock; cbn; apply zlen_set..]. Qed.

(** The word after the owner's unlock is zero. *)
Lemma word_unlock sp lm idx :
  0 <= idx < zlen (sp_locks sp) ->
  lock_word sp idx = match lm with NONE => 0 | READ => 1 | WRITE => WRITE_LOCKED end ->
  lock_word (unlock lm idx sp) idx = 0 /\
  (forall k, 0 <= k -> k <> idx -> lock_word (unlock lm idx sp) k = lock_word sp k).
Proof.
  intros Hi Hw. destruct lm; cbn [unlock].
  - done.
  - unfold UnlockRead. rewrite Hw. split; [by rewrite lock_word_set|intros; apply lock_word_set_ne; lia].
  - unfold UnlockWrite. split; [by rewrite lock_word_set|intros; apply lock_word_set_ne; lia].
Qed.

(** ** What the handles hold *)

Lemma held_insert hs i h h' : hs !! i = Some h -> held (<[i := h']> hs) ≡ₚ owns h' ++ held (delete i hs).
Proof. apply concat_map_insert. Qed.

Lemma held_lookup hs i h : hs !! i = Some h -> held hs ≡ₚ owns h ++ held (delete i hs).
Proof. apply concat_map_lookup. Qed.

Lemma held_elem hs i h : hs !! i = Some h -> valid_ h = true -> idx_ h ∈ held hs.
Proof. intros Hi Hv. rewrite (held_lookup hs i h Hi). unfold owns. rewrite Hv. by left. Qed.

Lemma held_elem_inv hs x : x ∈ held hs -> exists i h, hs !! i = Some h /\ valid_ h = true /\ idx_ h = x.
Proof.
  unfold held. intros (l&Hx&Hl)%list_elem_of_In%in_concat. apply list_elem_of_In, list_elem_of_fmap in Hx as (h&->&Hh).
  apply list_elem_of_In in Hl. apply list_elem_of_lookup in Hh as [i Hi]. exists i, h. unfold owns in Hl.
  destruct (valid_ h); [|by apply not_elem_of_nil in Hl]. by apply list_elem_of_singleton in Hl as ->.
Qed.

(** The lock word a slot should have: what its owner's mode puts there. *)
Definition contrib (x : Z) h : Z := if valid_ h && (idx_ h =? x) then lock_of h else 0.
Definition word_at (hs : list PacketSlotHandle) (x : Z) : Z := foldr Z.add 0 (map (contrib x) hs).

Lemma word_at_insert hs i h h' x :
  hs !! i = Some h -> word_at (<[i := h']> hs) x = contrib x h' + word_at (delete i hs) x.
Proof.
  intros Hi. unfold word_at. rewrite insert_take_drop by (by eapply lookup_lt_Some). rewrite delete_take_drop.
  rewrite !map_app, !foldr_app. cbn [map foldr].
  generalize (foldr Z.add 0 (map (contrib x) (drop (S i) hs))). intros z.
  induction (map (contrib x) (take i hs)) as [|a l IH]; cbn; [done|lia].
Qed.

Lemma word_at_lookup hs i h x : hs !! i = Some h -> word_at hs x = contrib x h + word_at (delete i hs) x.
Proof. intros Hi. rewrite <- (word_at_insert hs i h h x Hi). by rewrite list_insert_id. Qed.

Lemma word_at_out hs x : x ∉ held hs -> word_at hs x = 0.
Proof.
  induction hs as [|h hs IH]; intros Hx; [done|]. unfold word_at in *. cbn.
  unfold held in *. cbn in Hx. apply not_elem_of_app in Hx as [Hx1 Hx2]. rewrite (IH Hx2).
  unfold contrib, owns in *. destruct (valid_ h); [|done]. cbn.
  destruct (Z.eqb_spec (idx_ h) x) as [<-|]; [|done]. destruct Hx1. by left.
Qed.

(** ** The invariant *)

Section Invariant.
Context (name n : Z) (Hn : 0 <= n <= 31).

Definition handle_ok h : Prop :=
  valid_ h = true ->
  pool_ h = Some name /\ failReason_ h = Ok /\ idx_ h <> INVALID /\
  (lm_ h = READ -> pktR_ h = Some (idx_ h)) /\ (lm_ h = WRITE -> pktW_ h = Some (idx_ h)).

Record winv (w : world) : Prop := {
  wi_owns : al_owns (w_pool w) (2 ^ n) (held (w_handles w) ++ w_loose w);
  wi_locks : zlen (sp_locks (w_pool w)) = 2 ^ n;
  wi_ok : Forall handle_ok (w_handles w);
  wi_words : forall x, 0 <= x < 2 ^ n -> lock_word (w_pool w) x = word_at (w_handles w) x }.

Lemma handle_ok_off h : valid_ h = false -> handle_ok h.
Proof using. intros Hv H. congruence. Qed.

(** A valid handle's slot is its own, and the word there is its lock. *)
Lemma owner_facts hs loose sp i h :
  winv (mk_world hs loose sp) -> hs !! i = Some h -> valid_ h = true ->
  0 <= idx_ h < 2 ^ n /\ lock_word sp (idx_ h) = lock_of h /\ (idx_ h ∉ held (delete i hs)) /\ handle_ok h.
Proof using Hn.
  intros [Ho Hl Hok Hw] Hi Hv. cbn [w_handles w_loose w_pool] in *. destruct (al_held _ _ _ Ho) as (_&Hnd&Hr&_).
  rewrite (held_lookup hs i h Hi) in Hnd, Hr. unfold owns in Hnd, Hr. rewrite Hv in Hnd, Hr. cbn [app] in Hnd, Hr.
  apply Forall_cons in Hr as [Hr _]. apply NoDup_cons in Hnd as [Hni _].
  assert (idx_ h ∉ held (delete i hs)) as Hnh by (intros ?; apply Hni, elem_of_app; by left).
  split; [done|]. split; [|split; [done|by eapply Forall_lookup_1]].
  rewrite Hw, (word_at_lookup hs i h), word_at_out by done. unfold contrib. rewrite Hv, Z.eqb_refl. cbn. lia.
Qed.

(** Handle [i] becomes [h'], which owns the same slot, and only the word of that
    slot changes. *)
Lemma winv_touch hs loose sp i h h' sp' :
  winv (mk_world hs loose sp) -> hs !! i = Some h -> valid_ h = true ->
  valid_ h' = true -> idx_ h' = idx_ h -> handle_ok h' ->
  (forall l, al_owns sp (2 ^ n) l -> al_owns sp' (2 ^ n) l) -> zlen (sp_locks sp') = zlen (sp_locks sp) ->
  lock_word sp' (idx_ h) = lock_of h' ->
  (forall x, 0 <= x -> x <> idx_ h -> lock_word sp' x = lock_word sp x) ->
  winv (mk_world (<[i := h']> hs) loose sp').
Proof using Hn.
  intros Hinv Hi Hv Hv' Hid Hok' Hpo Hlo Hme Hot.
  destruct (owner_facts _ _ _ _ _ Hinv Hi Hv) as (Hr&Hword&Hnh&_). destruct Hinv as [Ho Hl Hok Hw]. cbn [w_handles w_loose w_pool] in *.
  split; cbn [w_handles w_loose w_pool].
  - apply Hpo. eapply al_perm; [|exact Ho]. apply Permutation_app_tail.
    rewrite (held_insert hs i h h' Hi), (held_lookup hs i h Hi). unfold owns. by rewrite Hv, Hv', Hid.
  - congruence.
  - by apply Forall_insert.
  - intros x Hx. rewrite (word_at_insert hs i h h' x Hi). unfold contrib. rewrite Hv', Hid. cbn [andb].
    destruct (Z.eqb_spec (idx_ h) x) as [<-|Hne].
    + rewrite word_at_out by done. lia.
    + rewrite Hot, Hw, (word_at_lookup hs i h x Hi) by lia. unfold contrib. rewrite Hv. cbn [andb].
      by destruct (Z.eqb_spec (idx_ h) x).
Qed.

(** Handle [i] gives its slot up, to the pool or to a bare index. *)
Lemma winv_drop hs loose sp i h h' loose' sp' :
  winv (mk_world hs loose sp) -> hs !! i = Some h -> valid_ h = true -> valid_ h' = false ->
  al_owns sp' (2 ^ n) (held (delete i hs) ++ loose') -> zlen (sp_locks sp') = zlen (sp_locks sp) ->
  lock_word sp' (idx_ h) = 0 -> (forall x, 0 <= x -> x <> idx_ h -> lock_word sp' x = lock_word sp x) ->
  winv (mk_world (<[i := h']> hs) loose' sp').
Proof using Hn.
  intros Hinv Hi Hv Hv' Hown Hlo Hme Hot.
  destruct (owner_facts _ _ _ _ _ Hinv Hi Hv) as (Hr&Hword&Hnh&_). destruct Hinv as [Ho Hl Hok Hw]. cbn [w_handles w_loose w_pool] in *.
  split; cbn [w_handles w_loose w_pool].
  - eapply al_perm; [|exact Hown]. apply Permutation_app_tail.
    rewrite (held_insert hs i h h' Hi). unfold owns. by rewrite Hv'.
  - congruence.
  - apply Forall_insert; [done|by apply handle_ok_off].
  - intros x Hx. rewrite (word_at_insert hs i h h' x Hi). unfold contrib. rewrite Hv'. cbn [andb].
    destruct (Z.eqb_spec (idx_ h) x) as [<-|Hne].
    + rewrite word_at_out by done. lia.
    + rewrite Hot, Hw, (word_at_lookup hs i h x Hi) by lia. unfold contrib. rewrite Hv. cbn [andb].
      by destruct (Z.eqb_spec (idx_ h) x).
Qed.

(** A handle that owns nothing is replaced by another that owns nothing. *)
Lemma winv_idle hs loose sp i h h' :
  winv (mk_world hs loose sp) -> hs !! i = Some h -> valid_ h = false -> valid_ h' = false ->
  winv (mk_world (<[i := h']> hs) loose sp).
Proof using.
  intros [Ho Hl Hok Hw] Hi Hv Hv'. cbn [w_handles w_loose w_pool] in *. split; cbn [w_handles w_loose w_pool].
  - eapply al_perm; [|exact Ho]. apply Permutation_app_tail.
    rewrite (held_insert hs i h h' Hi), (held_lookup hs i h Hi). unfold owns. by rewrite Hv, Hv'.
  - done.
  - apply Forall_insert; [done|by apply handle_ok_off].
  - intros x Hx. rewrite Hw, (word_at_insert hs i h h' x Hi), (word_at_lookup hs i h x Hi) by done.
    unfold contrib. by rewrite Hv, Hv'.
Qed.

(** Reading never waits, answers the handle's own slot, and keeps the invariant. *)
Lemma Read_ok hs loose sp i h :
  winv (mk_world hs loose sp) -> hs !! i = Some h ->
  exists h' sp', Read h sp = Some (if valid_ h then Some (idx_ h) else None, h', sp') /\
    winv (mk_world (<[i := h']> hs) loose sp').
Proof using Hn.
  intros Hinv Hi. unfold Read. destruct (valid_ h) eqn:Hv; cbn [negb].
  2: { exists h, sp. split; [done|]. by rewrite list_insert_id. }
  destruct (owner_facts _ _ _ _ _ Hinv Hi Hv) as (Hr&Hword&_&Hok).
  pose proof (wi_locks _ Hinv) as Hl. cbn [w_pool] in Hl.
  destruct (Hok Hv) as (Hp&Hf&Hne&HR&HW). unfold lock_of in Hword.
  destruct (lm_ h) eqn:Hm.
  - unfold ReadLock. rewrite Hword. cbn. eexists _, _. split; [reflexivity|].
    apply (winv_touch _ _ sp _ h); try done; cbn.
    + intros l. apply owns_set_lock.
    + apply zlen_set.
    + rewrite lock_word_set by lia. done.
    + intros x Hx Hxn. apply lock_word_set_ne; lia.
  - rewrite HR by done. eexists _, _. split; [reflexivity|]. by rewrite list_insert_id.
  - cbn. rewrite HW by done. eexists _, _. split; [reflexivity|]. unfold DowngradeLock. rewrite Hword, Z.eqb_refl.
    apply (winv_touch _ _ sp _ h); try done; cbn.
    + intros l. apply owns_set_lock.
    + apply zlen_set.
    + by rewrite lock_word_set by lia.
    + intros x Hx Hxn. apply lock_word_set_ne; lia.
Qed.

Lemma Write_ok hs loose sp i h :
  winv (mk_world hs loose sp) -> hs !! i = Some h ->
  exists h' sp', Write h sp = Some (if valid_ h then Some (idx_ h) else None, h', sp') /\
    winv (mk_world (<[i := h']> hs) loose sp').
Proof using Hn.
  intros Hinv Hi. unfold Write. destruct (valid_ h) eqn:Hv; cbn [negb].
  2: { exists h, sp. split; [done|]. by rewrite list_insert_id. }
  destruct (owner_facts _ _ _ _ _ Hinv Hi Hv) as (Hr&Hword&_&Hok).
  pose proof (wi_locks _ Hinv) as Hl. cbn [w_pool] in Hl.
  destruct (Hok Hv) as (Hp&Hf&Hne&HR&HW). unfold lock_of in Hword.
  destruct (lm_ h) eqn:Hm; cbn [bool_decide].
  - rewrite bool_decide_false by done. unfold WriteLock. rewrite Hword. cbn. eexists _, _. split; [reflexivity|].
    apply (winv_touch _ _ sp _ h); try done; cbn.
    + intros l. apply owns_set_lock.
    + apply zlen_set.
    + rewrite lock_word_set by lia. done.
    + intros x Hx Hxn. apply lock_word_set_ne; lia.
  - rewrite bool_decide_true by done. cbn [mbind option_bind]. unfold WriteLock, UnlockRead.
    change (idx_ (h <| pktR_ := None |>)) with (idx_ h).
    rewrite lock_word_set by lia. rewrite Hword. cbn. eexists _, _. split; [reflexivity|].
    apply (winv_touch _ _ sp _ h); try done; cbn.
    + intros l Hl'. by apply owns_set_lock, owns_set_lock.
    + unfold set_lock. cbn. by rewrite !zlen_set.
    + rewrite lock_word_set; [done|]. unfold set_lock. cbn. rewrite zlen_set. lia.
    + intros x Hx Hxn. rewrite !lock_word_set_ne by lia. done.
  - rewrite HW by done. eexists _, _. split; [reflexivity|]. by rewrite list_insert_id.
Qed.

Lemma Release_ok hs loose sp i h :
  winv (mk_world hs loose sp) -> hs !! i = Some h ->
  exists h' sp', Handle_Release h sp = Some (h', sp') /\ valid_ h' = false /\
    forall h'', valid_ h'' = false -> winv (mk_world (<[i := h'']> hs) loose sp').
Proof using Hn.
  intros Hinv Hi. unfold Handle_Release. destruct (valid_ h) eqn:Hv; cbn [andb].
  2: { exists h, sp. split; [done|]. split; [done|]. intros h'' Hv''. by eapply winv_idle. }
  destruct (owner_facts _ _ _ _ _ Hinv Hi Hv) as (Hr&Hword&_&Hok).
  pose proof (wi_locks _ Hinv) as Hl. pose proof (wi_owns _ Hinv) as Ho. cbn [w_pool w_handles w_loose] in Hl, Ho.
  destruct (Hok Hv) as (_&_&Hne&_). destruct (Z.eqb_spec (idx_ h) INVALID); [done|]. cbn [negb].
  destruct (word_unlock sp (lm_ h) (idx_ h)) as [Hw0 Hw1]; [lia|by rewrite Hword|].
  assert (Ho' : al_owns (unlock (lm_ h) (idx_ h) sp) (2 ^ n) (idx_ h :: held (delete i hs) ++ loose)).
  { apply owns_unlock. eapply al_perm; [|exact Ho]. rewrite (held_lookup hs i h Hi). unfold owns. by rewrite Hv. }
  destruct (al_release_ok _ _ _ _ Ho') as (sp'&E&Ho''). cbn [al_release SlotPool_allocator] in E.
  rewrite E. eexists _, _. split; [reflexivity|]. split; [done|]. intros h'' Hv''.
  pose proof (Release_locks _ _ _ E) as El.
  apply (winv_drop hs loose sp _ h); try done.
  - by rewrite El, locks_unlock.
  - unfold lock_word in *. by rewrite El.
  - intros x Hx Hxn. unfold lock_word in *. rewrite El. by apply Hw1.
Qed.

Lemma Detach_ok hs loose sp i h :
  winv (mk_world hs loose sp) -> hs !! i = Some h ->
  exists idx h' sp', Detach h sp = (idx, h', sp') /\ idx = (if valid_ h then idx_ h else INVALID) /\
    winv (mk_world (<[i := h']> hs) (if idx =? INVALID then loose else idx :: loose) sp').
Proof using Hn.
  intros Hinv Hi. unfold Detach. destruct (valid_ h) eqn:Hv; cbn [negb orb].
  2: { eexists _, _, _. split; [reflexivity|]. split; [done|]. by rewrite list_insert_id. }
  destruct (owner_facts _ _ _ _ _ Hinv Hi Hv) as (Hr&Hword&_&Hok).
  pose proof (wi_locks _ Hinv) as Hl. pose proof (wi_owns _ Hinv) as Ho. cbn [w_pool w_handles w_loose] in Hl, Ho.
  destruct (Hok Hv) as (_&_&Hne&_). destruct (Z.eqb_spec (idx_ h) INVALID); [done|].
  destruct (word_unlock sp (lm_ h) (idx_ h)) as [Hw0 Hw1]; [lia|by rewrite Hword|].
  eexists _, _, _. split; [reflexivity|]. split; [done|]. cbn [idx_ upd].
  change (idx_ (h <| lm_ := NONE |>)) with (idx_ h). destruct (Z.eqb_spec (idx_ h) INVALID); [done|].
  apply (winv_drop hs loose sp _ h); try done.
  - apply owns_unlock. eapply al_perm; [|exact Ho]. rewrite (held_lookup hs i h Hi). unfold owns. rewrite Hv.
    cbn [app]. apply Permutation_middle.
  - apply locks_unlock.
Qed.
End Invariant.

Lemma winv_init capacity stride n :
  NextPowerOfTwo capacity = 2 ^ n -> 0 <= n <= 31 -> winv 0 n (mk_world [] [] (Pool_Init capacity stride)).
Proof.
  intros Hcap Hn. pose proof (Z.pow_pos_nonneg 2 n ltac:(lia) ltac:(lia)). split; cbn [w_handles w_loose w_pool].
  - apply (reach_owns capacity stride); [done|done|constructor].
  - unfold Pool_Init. cbn [sp_locks]. rewrite Hcap. apply zlen_replicate. lia.
  - constructor.
  - intros x Hx. unfold Pool_Init, lock_word. cbn [sp_locks]. rewrite Hcap. by apply arr_get_replicate.
Qed.

Section Steps.
Context (name n : Z) (Hn : 0 <= n <= 31).
Abbreviation inv := (winv name n).

Lemma contrib_new x idx : contrib x (Handle_of idx (Some name)) = 0.
Proof using. unfold contrib. by destruct (valid_ _ && _). Qed.

(** A fresh handle on a slot nobody's handle owns, the word there being zero. *)
Lemma winv_new hs loose sp idx loose' sp' :
  inv (mk_world hs loose sp) -> idx <> INVALID ->
  al_owns sp' (2 ^ n) (idx :: held hs ++ loose') -> sp_locks sp' = sp_locks sp ->
  inv (mk_world (Handle_of idx (Some name) :: hs) loose' sp').
Proof using Hn.
  intros [Ho Hl Hok Hw] Hne Hown El. cbn [w_handles w_loose w_pool] in *.
  assert (Hv : valid_ (Handle_of idx (Some name)) = true) by (unfold Handle_of; by destruct (Z.eqb_spec idx INVALID)).
  split; cbn [w_handles w_loose w_pool].
  - unfold held. cbn [map concat]. unfold owns at 1. rewrite Hv. exact Hown.
  - congruence.
  - constructor; [|done]. intros _. unfold Handle_of. by destruct (Z.eqb_spec idx INVALID).
  - intros x Hx. unfold word_at. cbn [map foldr]. rewrite contrib_new. unfold lock_word in *. rewrite El. by apply Hw.
Qed.

Lemma winv_none hs loose sp h sp' :
  inv (mk_world hs loose sp) -> valid_ h = false ->
  al_owns sp' (2 ^ n) (held hs ++ loose) -> sp_locks sp' = sp_locks sp -> inv (mk_world (h :: hs) loose sp').
Proof using Hn.
  intros [Ho Hl Hok Hw] Hv Hown El. cbn [w_handles w_loose w_pool] in *. split; cbn [w_handles w_loose w_pool].
  - unfold held. cbn [map concat]. unfold owns at 1. by rewrite Hv.
  - congruence.
  - constructor; [by apply handle_ok_off|done].
  - intros x Hx. unfold word_at. cbn [map foldr]. unfold contrib at 1. rewrite Hv. unfold lock_word in *. rewrite El. by apply Hw.
Qed.

(** Handle [i], owning nothing, takes over what handle [j] owns. *)
Lemma winv_transfer hs loose sp i j h o h' o' :
  inv (mk_world hs loose sp) -> i <> j -> hs !! i = Some h -> hs !! j = Some o ->
  valid_ h = false -> owns h' = owns o -> (forall x, contrib x h' = contrib x o) -> handle_ok name h' -> valid_ o' = false ->
  inv (mk_world (<[j := o']> (<[i := h']> hs)) loose sp).
Proof using Hn.
  intros [Ho Hl Hok Hw] Hij Hi Hj Hv Hown Hcon Hok' Hv'. cbn [w_handles w_loose w_pool] in *.
  assert (Hj' : <[i := h']> hs !! j = Some o) by (by rewrite list_lookup_insert_ne).
  split; cbn [w_handles w_loose w_pool]; [| |by apply Forall_insert; [apply Forall_insert|apply handle_ok_off]|].
  - eapply al_perm; [|exact Ho]. apply Permutation_app_tail.
    rewrite (held_insert _ j o o' Hj'). unfold owns at 1. rewrite Hv'. cbn [app].
    apply (Permutation_app_inv_l (owns o)). rewrite <- (held_lookup _ j o Hj'), (held_insert hs i h h' Hi), Hown.
    rewrite (held_lookup hs i h Hi). unfold owns at 2. by rewrite Hv.
  - done.
  - intros x Hx. rewrite Hw by done. rewrite (word_at_insert _ j o o' x Hj'). unfold contrib at 1. rewrite Hv'. cbn [andb].
    pose proof (word_at_lookup _ j o x Hj') as E1. rewrite (word_at_insert hs i h h' x Hi), Hcon in E1.
    rewrite (word_at_lookup hs i h x Hi). unfold contrib at 1. rewrite Hv. cbn [andb]. lia.
Qed.

Lemma wstep_inv w w' : inv w -> wstep name w w' -> inv w'.
Proof using Hn.
  intros Hinv Hs. destruct Hs as [hs loose sp|hs loose sp hint idx sp' E|hs l1 idx l2 sp|hs loose sp i h r h' sp' Hi E
    |hs loose sp i h r h' sp' Hi E|hs loose sp i h idx h' sp' Hi E|hs loose sp i j h o h' o' sp' Hi Hj E|hs loose sp i h h' sp' Hi E].
  - apply (winv_none _ _ sp); try done. apply Hinv.
  - pose proof (wi_owns _ _ _ Hinv) as Ho. cbn [w_handles w_loose w_pool] in Ho. pose proof (Acquire_locks _ _ _ _ E) as El.
    destruct (al_acquire_ok sp (2 ^ n) _ hint Ho) as [(_&idx'&s'&E'&_&Hr&Ho')|(_&s'&E'&Ho')]; cbn [al_acquire SlotPool_allocator] in E';
      rewrite E in E'; injection E' as -> ->.
    + apply (winv_new _ loose sp); try done. pose proof (Z.pow_le_mono_r 2 n 31 ltac:(lia) ltac:(lia)).
      unfold INVALID, UINT32_MAX. lia.
    + by apply (winv_none _ _ sp).
  - pose proof (wi_owns _ _ _ Hinv) as Ho. cbn [w_handles w_loose w_pool] in Ho.
    destruct (al_held _ _ _ Ho) as (_&_&Hr&_). apply Forall_app in Hr as [_ Hr]. apply Forall_app in Hr as [_ Hr].
    apply Forall_cons in Hr as [Hr _]. pose proof (Z.pow_le_mono_r 2 n 31 ltac:(lia) ltac:(lia)).
    apply (winv_new _ (l1 ++ idx :: l2) sp); try done; [unfold INVALID, UINT32_MAX; lia|].
    eapply al_perm; [|exact Ho]. solve_Permutation.
  - destruct (Read_ok name n Hn _ _ _ _ _ Hinv Hi) as (h1&sp1&E1&?). by simplify_eq.
  - destruct (Write_ok name n Hn _ _ _ _ _ Hinv Hi) as (h1&sp1&E1&?). by simplify_eq.
  - destruct (Detach_ok name n Hn _ _ _ _ _ Hinv Hi) as (i1&h1&sp1&E1&_&?). rewrite E in E1. by injection E1 as -> -> ->.
  - unfold Steal in E. case_bool_decide as Hij.
    { subst j. simplify_eq. by rewrite (list_insert_id _ _ _ Hi), list_insert_id. }
    destruct (Release_ok name n Hn _ _ _ _ _ Hinv Hi) as (h1&sp1&E1&Hv1&Hw). rewrite E1 in E. cbn [mbind option_bind] in E.
    injection E as <- <- <-. specialize (Hw h1 Hv1).
    assert (Hj1 : <[i := h1]> hs !! j = Some o) by (by rewrite list_lookup_insert_ne).
    rewrite <- (list_insert_insert_eq hs i _ h1).
    eapply winv_transfer; [exact Hw|done|apply list_lookup_insert_eq; by eapply lookup_lt_Some|exact Hj1|done|done|done| |done].
    apply (Forall_lookup_1 _ _ _ _ (wi_ok _ _ _ Hw) Hj1).
  - destruct (Release_ok name n Hn _ _ _ _ _ Hinv Hi) as (h1&sp1&E1&Hv1&Hw). simplify_eq. by apply Hw.
Qed.
End Steps.

Lemma wreach_inv capacity stride n name w :
  NextPowerOfTwo capacity = 2 ^ n -> 0 <= n <= 31 -> wreach name capacity stride w -> winv name n w.
Proof.
  intros Hcap Hn. induction 1 as [|w w' _ IH Hs]; [|by eapply wstep_inv].
  destruct (winv_init capacity stride n Hcap Hn). by split.
Qed.

(** (C28) Whatever a program does with its handles, in whatever order they are
    made, read, written, moved, detached, adopted again and left to die: no two of
    them and no bare index share a slot; a slot's lock word is its owner's lock and
    zero where no handle owns it; reading, writing and releasing never wait, and a
    pointer they answer is the handle's own slot; and an acquire fails exactly when
    every slot is owned, so none is leaked and none is released twice. *)
Theorem handles_sound (capacity stride n name : Z) (w : world)
  (Hcap : NextPowerOfTwo capacity = 2 ^ n) (Hn : 0 <= n <= 31) (Hreach : wreach name capacity stride w) :
  NoDup (held (w_handles w) ++ w_loose w) /\
  (forall i h, w_handles w !! i = Some h ->
     (exists h' sp', Read h (w_pool w) = Some (if valid_ h then Some (idx_ h) else None, h', sp')) /\
     (exists h' sp', Write h (w_pool w) = Some (if valid_ h then Some (idx_ h) else None, h', sp')) /\
     is_Some (Handle_Release h (w_pool w)) /\
     (valid_ h = true -> lock_word (w_pool w) (idx_ h) = lock_of h)) /\
  (forall x, 0 <= x < 2 ^ n -> x ∉ held (w_handles w) -> lock_word (w_pool w) x = 0) /\
  (forall hint, exists idx sp', Acquire hint (w_pool w) = Some (idx, sp') /\
     (idx = INVALID <-> zlen (held (w_handles w) ++ w_loose w) = 2 ^ n)).
Proof.
  pose proof (wreach_inv capacity stride n name w Hcap Hn Hreach) as Hinv.
  destruct w as [hs loose sp]. pose proof (wi_owns _ _ _ Hinv) as Ho. cbn [w_handles w_loose w_pool] in *.
  split; [apply (al_held _ _ _ Ho)|]. split; [|split].
  - intros i h Hi. split_and!.
    + destruct (Read_ok name n Hn _ _ _ _ _ Hinv Hi) as (?&?&?&_). eauto.
    + destruct (Write_ok name n Hn _ _ _ _ _ Hinv Hi) as (?&?&?&_). eauto.
    + destruct (Release_ok name n Hn _ _ _ _ _ Hinv Hi) as (?&?&->&_). by eexists.
    + intros Hv. by destruct (owner_facts name n Hn _ _ _ _ _ Hinv Hi Hv) as (_&?&_).
  - intros x Hx Hout. pose proof (wi_words _ _ _ Hinv x Hx) as E. cbn [w_handles w_pool] in E. rewrite E. by apply word_at_out.
  - intros hint. pose proof (Z.pow_le_mono_r 2 n 31 ltac:(lia) ltac:(lia)).
    destruct (al_acquire_ok sp (2 ^ n) _ hint Ho) as [(Hlt&idx&s'&E&_&Hr&_)|(Heq&s'&E&_)];
      eexists _, _; (split; [exact E|]); [|done]. unfold INVALID, UINT32_MAX. split; lia.
Qed.

(** Two packets are acquired, one is written and moved into the other's handle. *)
Definition handle1 : PacketSlotHandle := Handle_of 1 (Some 0).
Definition written : PacketSlotHandle * SlotPool :=
  let '(_, h, sp) := default (None, Handle_Invalid, pool0) (Write (Handle_of 17 (Some 0)) pool2) in (h, sp).
Definition moved : PacketSlotHandle * PacketSlotHandle * SlotPool :=
  default (Handle_Invalid, Handle_Invalid, pool0) (Steal false handle1 written.1 written.2).
Definition world1 : world :=
  mk_world (<[0%nat := moved.1.2]> (<[1%nat := moved.1.1]> [written.1; handle1])) [] moved.2.

Lemma world1_reach : wreach 0 20 64 world1.
Proof.
  eapply wr_step; [|apply (ws_move 0 _ [] written.2 1 0 handle1 written.1); [reflexivity|reflexivity|vm_compute; reflexivity]].
  eapply wr_step; [|apply (ws_write 0 [Handle_of 17 (Some 0); handle1] [] pool2 0 (Handle_of 17 (Some 0)) (Some 17));
    [reflexivity|vm_compute; reflexivity]].
  eapply wr_step; [|apply (ws_acquire 0 _ [] pool1 1); vm_compute; reflexivity].
  eapply wr_step; [|apply (ws_acquire 0 [] [] pool0 1); vm_compute; reflexivity].
  exact (wr_init 0 20 64).
Qed.

Lemma handles_sound_witness :
  held (w_handles world1) = [17] /\ lock_word (w_pool world1) 17 = WRITE_LOCKED /\ lock_word (w_pool world1) 1 = 0.
Proof.
  destruct (handles_sound 20 64 5 0 world1) as (_&H1&H2&_); [vm_compute; reflexivity|lia|exact world1_reach|].
  split; [vm_compute; reflexivity|]. split.
  - refine (proj2 (proj2 (proj2 (H1 1%nat _ eq_refl))) eq_refl).
  - apply H2; [lia|]. vm_compute. intros Hx. apply list_elem_of_singleton in Hx. lia.
Defined.

(** A handle that was detached or moved from keeps the reason it was built with:
    it answers that nothing failed, and yet reads and writes answer null. *)
Lemma detached_not_failed h sp :
  valid_ h = true -> failReason_ h = Ok -> idx_ h <> INVALID ->
  let '(_, h', sp') := Detach h sp in Failed h' = false /\ Write h' sp' = Some (None, h', sp').
Proof. intros Hv Hf Hne. unfold Detach. rewrite Hv. destruct (Z.eqb_spec (idx_ h) INVALID); [done|]. cbn. unfold Failed. cbn. by rewrite Hf. Qed.
