(* ===== verification/PacketRead.v ===== *)
(** * Reading packets: [PacketSlotReader] and [PollCursor] of [flux/socket/packet_slot]

    A reader opens a packet through its handle and stands on one message at a
    time; a cursor walks the messages of every packet a poll delivered.  The
    packets' bytes are the pool's memory, a list indexed by slot.

    The specification is [messages_of], the messages a packet holds: the whole
    content for an ordinary packet, the framed list for a batch, none when the
    batch's framing is damaged. *)

From S2P Require Import Prelude Wire Bytes Batch CommonMath Fifo SlotPool ReadyLanes Errors FlowData Keys Packet PacketHandle.

(** ** Reader *)

Record PacketSlotReader := mk_reader {
  r_pkt : option PacketSlot; r_cursor : BytesReader; r_failReason : Error; r_content : option (list Z);
  r_contentLen : Z; r_walkOffset : Z; r_message : option (list Z); r_messageLen : Z }.
#[export] Instance PacketSlotReader_eta : Eta PacketSlotReader := fun r =>
  mk_reader (r_pkt r) (r_cursor r) (r_failReason r) (r_content r) (r_contentLen r) (r_walkOffset r)
    (r_message r) (r_messageLen r).
#[export] Instance PacketSlot_inhabited : Inhabited PacketSlot := populate (mk_pkt inhabitant 0 []).

Definition reader_at (message : option (list Z)) (messageLen : Z) : BytesReader :=
  {| rd_buf := default [] message; rd_p := 0; rd_r := messageLen |}.

(** The message [BatchNext] answered: its start in the content, its length, the
    advanced offset. *)
Definition on_message (r : PacketSlotReader) (m : Z * Z * Z) : PacketSlotReader :=
  let '(start, len, off) := m in
  r <| r_message := (fun c => from c start) <$> r_content r |> <| r_messageLen := len |> <| r_walkOffset := off |>.

Definition reader_start (r : PacketSlotReader) (pkt : PacketSlot) : PacketSlotReader :=
  let offset := ContentOffset pkt in
  if dataSize pkt <? offset then r
  else
    let r := r <| r_content := Content pkt offset |> in
    let r := r <| r_contentLen := u16 (ContentLength pkt) |> in
    if IsBatch pkt then
      match (if BatchValidate (r_content r) (r_contentLen r)
             then BatchNext (r_content r) (r_contentLen r) (r_walkOffset r) else None) with
      | None => r <| r_content := None |> <| r_message := None |> <| r_messageLen := 0 |> <| r_failReason := Malformed |>
      | Some m => let r := on_message r m in r <| r_cursor := reader_at (r_message r) (r_messageLen r) |>
      end
    else
      let r := r <| r_message := r_content r |> in
      let r := r <| r_messageLen := r_contentLen r |> in
      let r := r <| r_walkOffset := r_contentLen r |> in
      r <| r_cursor := reader_at (r_message r) (r_messageLen r) |>.

Definition unopened (why : Error) : PacketSlotReader := mk_reader None (reader_at None 0) why None 0 0 None 0.

(** The constructor: the new reader, the handle and the pool after its [Read]. *)
Definition Reader_Open (mem : list PacketSlot) (h : PacketSlotHandle) (sp : SlotPool)
  : option (PacketSlotReader * PacketSlotHandle * SlotPool) :=
  let r := unopened (FailReason h) in
  if Failed h then Some (r, h, sp)
  else
    '(ptr, h, sp) ← Read h sp;
    match ptr with
    | None => Some (r, h, sp)
    | Some slot => Some (reader_start (r <| r_pkt := Some mem.[slot] |>) mem.[slot], h, sp)
    end.

(** [None] is the answer [false], which leaves the reader as it was. *)
Definition NextMessage (r : PacketSlotReader) : option PacketSlotReader :=
  match r_content r with
  | None => None
  | Some _ =>
      if r_contentLen r <=? r_walkOffset r then None
      else
        m ← BatchNext (r_content r) (r_contentLen r) (r_walkOffset r);
        let r := on_message r m in
        Some (r <| r_cursor := reader_at (r_message r) (r_messageLen r) |>)
  end.

Definition Reader_Take {A} (take : BytesReader -> option (A * BytesReader)) (r : PacketSlotReader) : option (A * PacketSlotReader) :=
  '(v, c) ← take (r_cursor r); Some (v, r <| r_cursor := c |>).
Definition Reader_TakeU8 := Reader_Take TakeU8.
Definition Reader_TakeU16 := Reader_Take TakeU16.
Definition Reader_TakeU32 := Reader_Take TakeU32.
Definition Reader_TakeU64 := Reader_Take TakeU64.
Definition Reader_TakeBytes (r : PacketSlotReader) (len : Z) := Reader_Take (fun c => TakeBytes c len) r.

Definition Reader_Failed (r : PacketSlotReader) : bool := negb (bool_decide (r_failReason r = Ok)).

(** The bytes the reader stands on. *)
Definition message_bytes (r : PacketSlotReader) : list Z := region (default [] (r_message r)) 0 (r_messageLen r).

(** ** Cursor *)

(** [slots_] is the array of handles the poll filled, shared with its caller;
    [claims_] says whether [lanes_] is non-null. *)
Record PollCursor := mk_cursor {
  claims_ : bool; lane_ : Z; slots_ : list PacketSlotHandle; count_ : Z; index_ : Z;
  opened_ : bool; reader_ : PacketSlotReader }.
#[export] Instance PollCursor_eta : Eta PollCursor := fun c =>
  mk_cursor (claims_ c) (lane_ c) (slots_ c) (count_ c) (index_ c) (opened_ c) (reader_ c).
#[export] Instance Handle_inhabited : Inhabited PacketSlotHandle := populate Handle_Invalid.

Definition Cursor_of (claims : bool) (lane : Z) (slots : option (list PacketSlotHandle)) (count : Z) : PollCursor :=
  mk_cursor claims lane (default [] slots) (match slots with Some _ => count | None => 0 end) 0 false (unopened InvalidState).

Definition Cursor_destroy (c : PollCursor) (l : ReadyLanes) : ReadyLanes :=
  if claims_ c then ReleaseLane l (lane_ c) else l.

(** Move construction: the new cursor and the one it was made from. *)
Definition Cursor_move (o : PollCursor) : PollCursor * PollCursor := (o, o <| claims_ := false |>).

(** Move assignment to a cursor that is not [o] itself. *)
Definition Cursor_assign (c o : PollCursor) (l : ReadyLanes) : PollCursor * PollCursor * ReadyLanes :=
  (o, o <| claims_ := false |>, if claims_ c then ReleaseLane l (lane_ c) else l).

(** The loop of [Next].  An iteration that does not answer moves to the next
    packet, so [count_ - index_ + 1] rounds reach an answer; [None] is a lock that
    is waited for without end. *)
Fixpoint Next_loop (fuel : nat) (mem : list PacketSlot) (c : PollCursor) (sp : SlotPool)
  : option (bool * PollCursor * SlotPool) :=
  match fuel with
  | O => None
  | Datatypes.S fuel' =>
      if index_ c <? count_ c then
        if negb (opened_ c) then
          let c := c <| opened_ := true |> in
          '(r, h, sp) ← Reader_Open mem (slots_ c).[index_ c] sp;
          let c := c <| slots_ := (slots_ c).[index_ c <- h] |> <| reader_ := r |> in
          if negb (Reader_Failed r) then Some (true, c, sp)
          else Next_loop fuel' mem (c <| index_ := u32 (index_ c + 1) |> <| opened_ := false |>) sp
        else
          match NextMessage (reader_ c) with
          | Some r => Some (true, c <| reader_ := r |>, sp)
          | None => Next_loop fuel' mem (c <| index_ := u32 (index_ c + 1) |> <| opened_ := false |>) sp
          end
      else Some (false, c <| reader_ := unopened InvalidState |>, sp)
  end.

Definition Next (mem : list PacketSlot) (c : PollCursor) (sp : SlotPool) : option (bool * PollCursor * SlotPool) :=
  Next_loop (Datatypes.S (Z.to_nat (count_ c - index_ c))) mem c sp.

(** ** Specification *)

(** The messages a packet holds. *)
Definition messages_of (pkt : PacketSlot) : list (list Z) :=
  let len := u16 (ContentLength pkt) in
  if dataSize pkt <? ContentOffset pkt then [[]]
  else
    let content := from (pk_data pkt) (ContentOffset pkt) in
    if IsBatch pkt then
      (if BatchValidate (Some content) len then (batch_walk (Datatypes.S (Z.to_nat len)) content len 0).1 else [])
    else [region content 0 len].

(** A packet as the receive path leaves it: its length fits its storage. *)
Record pkt_wf (pkt : PacketSlot) : Prop := {
  pw_size : is_u16 (dataSize pkt); pw_room : dataSize pkt <= zlen (pk_data pkt); pw_bytes : Forall is_byte (pk_data pkt) }.

(** The reader stands before the messages [ms]. *)
Definition reader_on (r : PacketSlotReader) (ms : list (list Z)) : Prop :=
  match r_content r with
  | None => ms = []
  | Some c =>
      Forall is_byte c /\ r_contentLen r <= zlen c /\ is_u16 (r_contentLen r) /\
      0 <= r_walkOffset r <= r_contentLen r /\ Forall message_ok ms /\
      region c (r_walkOffset r) (r_contentLen r - r_walkOffset r) = frames ms
  end.

(** ** The reader walks the packet's messages *)

Lemma from_region {A} (c : list A) start n : 0 <= start -> region (from c start) 0 n = region c start n.
Proof. intros. unfold region, from. by rewrite drop_0. Qed.

Lemma on_message_step r c m ms :
  r_content r = Some c -> reader_on r (m :: ms) ->
  exists x, BatchNext (r_content r) (r_contentLen r) (r_walkOffset r) = Some x /\
    message_bytes (on_message r x) = m /\ reader_on (on_message r x) ms /\ r_walkOffset r < r_contentLen r.
Proof.
  unfold reader_on. intros E. rewrite E. intros (Hb&Hl&Hu&Ho&Hms&Hreg). apply Forall_cons in Hms as [Hm Hms].
  destruct (BatchNext_frame c (r_contentLen r) m ms (r_walkOffset r)) as (HN&Hr&Hle&Hrest); [done..|].
  pose proof (zlen_nonneg m).
  eexists. split; [exact HN|]. unfold on_message, message_bytes. cbn. rewrite E. cbn.
  rewrite from_region by lia. split; [done|]. split; [|lia]. split_and!; done || lia.
Qed.

Lemma NextMessage_spec r ms :
  reader_on r ms ->
  match ms with
  | [] => NextMessage r = None
  | m :: ms' => exists r', NextMessage r = Some r' /\ message_bytes r' = m /\ reader_on r' ms' /\ r_failReason r' = r_failReason r
  end.
Proof.
  intros Hon. unfold NextMessage. destruct (r_content r) as [c|] eqn:E.
  2: { unfold reader_on in Hon. rewrite E in Hon. by subst ms. }
  destruct ms as [|m ms].
  - unfold reader_on in Hon. rewrite E in Hon. destruct Hon as (_&Hl&_&Ho&_&Hreg).
    apply (f_equal zlen) in Hreg. rewrite zlen_region in Hreg by lia. change (zlen (frames [])) with 0 in Hreg.
    destruct (Z.leb_spec (r_contentLen r) (r_walkOffset r)); [done|lia].
  - destruct (on_message_step r c m ms E Hon) as (x&HN&Hm&Hon'&Hlt). rewrite E in HN.
    destruct (Z.leb_spec (r_contentLen r) (r_walkOffset r)); [lia|]. rewrite HN. cbn [mbind option_bind].
    eexists. split; [reflexivity|]. destruct x as [[start len] off]. done.
Qed.

Lemma content_bounds pkt :
  pkt_wf pkt -> ContentOffset pkt <= dataSize pkt ->
  let c := from (pk_data pkt) (ContentOffset pkt) in
  Forall is_byte c /\ ContentLength pkt <= zlen c /\ 0 <= ContentLength pkt /\ is_u16 (ContentLength pkt).
Proof.
  intros [Hs Hr Hb] Ho. cbv zeta. assert (H0 : 1 <= ContentOffset pkt).
  { unfold ContentOffset, WIRE_CONTROLLER_SIZE, WIRE_NONCE_SIZE, WIRE_PEER_TAG_SIZE, WIRE_SECURE_CHANNEL_SIZE,
      WIRE_FLOW_HEADER_SIZE, WIRE_FLOW_ID_SIZE, WIRE_FLOW_SEQ_SIZE, WIRE_FLOW_DATA_SIZE. cbv zeta.
    destruct (IsSecure pkt), (IsTagged pkt), (HasFlow pkt); lia. }
  assert (Hl : 0 <= ContentLength pkt /\ ContentLength pkt <= dataSize pkt - ContentOffset pkt).
  { unfold ContentLength, WIRE_TAG_SIZE. cbv zeta. destruct (IsSecure pkt); zcase; lia. }
  split; [by apply Forall_drop|]. split; [|lia]. unfold from, zlen in *. rewrite length_drop. lia.
Qed.

Lemma frames_length ms : Forall message_ok ms -> zlen ms <= zlen (frames ms).
Proof.
  induction 1 as [|m ms [Hm _] _ IH]; [done|]. rewrite frames_cons, zlen_app, frame_len. unfold zlen in *. cbn [length]. lia.
Qed.

(** What a freshly started reader stands on and before. *)
Lemma reader_start_spec pkt r :
  pkt_wf pkt -> r = (unopened Ok) <| r_pkt := Some pkt |> ->
  let r' := reader_start r pkt in
  match messages_of pkt with
  | [] => Reader_Failed r' = true
  | m :: ms => Reader_Failed r' = false /\ message_bytes r' = m /\ reader_on r' ms
  end.
Proof.
  intros Hwf ->. cbv zeta. unfold reader_start, messages_of. cbv zeta.
  destruct (Z.ltb_spec (dataSize pkt) (ContentOffset pkt)) as [|Ho]; [done|].
  destruct (content_bounds pkt Hwf Ho) as (Hb&Hl&H0&Hu).
  unfold Content. destruct (Z.ltb_spec (dataSize pkt) (ContentOffset pkt)); [lia|].
  rewrite (u16_small (ContentLength pkt)) by done. set (c := from (pk_data pkt) (ContentOffset pkt)) in *.
  destruct (IsBatch pkt).
  - cbn [r_content r_contentLen r_walkOffset upd unopened].
    destruct (BatchValidate (Some c) (ContentLength pkt)) eqn:EV; [|done].
    apply BatchValidate_iff in EV as (ms&Hms&Hreg); [|done..].
    assert (Hlen : (length ms < Datatypes.S (Z.to_nat (ContentLength pkt)))%nat).
    { pose proof (frames_length ms Hms) as Hf. rewrite <- Hreg, zlen_region in Hf by lia. unfold zlen in Hf. lia. }
    rewrite (batch_walk_spec c (ContentLength pkt) ms 0) by (rewrite ?Z.sub_0_r; try done; try lia).
    set (r1 := (unopened Ok) <| r_pkt := Some pkt |> <| r_content := Some c |> <| r_contentLen := ContentLength pkt |>).
    cbn [fst]. destruct ms as [|m ms].
    + rewrite BatchNext_end; [done|]. apply (f_equal zlen) in Hreg. rewrite zlen_region in Hreg by lia.
      change (zlen (frames [])) with 0 in Hreg. lia.
    + destruct (on_message_step r1 c m ms) as (x&HN&Hm&Hon&_); [done| |].
      { unfold reader_on. cbn. rewrite Z.sub_0_r. split_and!; done || lia. }
      change (BatchNext (Some c) (ContentLength pkt) 0) with (BatchNext (r_content r1) (r_contentLen r1) (r_walkOffset r1)).
      rewrite HN. destruct x as [[start n] off]. done.
  - unfold message_bytes, reader_on. cbn. split; [done|]. split; [done|]. split_and!; try done; try lia.
    rewrite Z.sub_diag. apply region_nil.
Qed.

Lemma Read_keeps h sp r h' sp' :
  Read h sp = Some (r, h', sp') -> idx_ h' = idx_ h /\ valid_ h' = valid_ h /\ failReason_ h' = failReason_ h.
Proof.
  unfold Read. destruct (valid_ h) eqn:Hv; cbn [negb]; [|intros [= <- <- <-]; done].
  destruct (lm_ h); [destruct (ReadLock sp (idx_ h)); [|done]; cbn; intros [= <- <- <-]; done|intros [= <- <- <-]; done|intros [= <- <- <-]; done].
Qed.

(** ** The cursor walks every packet's messages *)

Section Cursor.
Context (name n : Z) (Hn : 0 <= n <= 31) (mem : list PacketSlot) (loose : list Z).

(** The messages of the packets in the slots [ids], each with its packet's place. *)
Fixpoint later (k : Z) (ids : list Z) : list (Z * list Z) :=
  match ids with
  | [] => []
  | x :: ids' => map (pair k) (messages_of mem.[x]) ++ later (k + 1) ids'
  end.

(** The cursor is before the messages [ms], the packets it was given lying in the
    slots [ids]. *)
Record cursor_on (ids : list Z) (c : PollCursor) (sp : SlotPool) (ms : list (Z * list Z)) : Prop := {
  co_world : winv name n (mk_world (slots_ c) loose sp);
  co_ids : map idx_ (take (Z.to_nat (count_ c)) (slots_ c)) = ids;
  co_valid : Forall (fun h => valid_ h = true) (take (Z.to_nat (count_ c)) (slots_ c));
  co_mem : Forall (fun x => pkt_wf mem.[x]) ids;
  co_count : zlen ids = count_ c /\ is_u32 (count_ c + 1);
  co_index : 0 <= index_ c <= count_ c;
  co_rest : if opened_ c
            then index_ c < count_ c /\ exists ms1, reader_on (reader_ c) ms1 /\
                 ms = map (pair (index_ c)) ms1 ++ later (index_ c + 1) (drop (Z.to_nat (index_ c + 1)) ids)
            else ms = later (index_ c) (drop (Z.to_nat (index_ c)) ids) }.

Lemma later_at ids i : 0 <= i < zlen ids ->
  later i (drop (Z.to_nat i) ids) = map (pair i) (messages_of mem.[ids.[i]]) ++ later (i + 1) (drop (Z.to_nat (i + 1)) ids).
Proof using.
  intros Hi. unfold arr_get at 2. unfold zlen in Hi.
  destruct (lookup_lt_is_Some_2 ids (Z.to_nat i)) as [x Hx]; [lia|].
  rewrite (drop_S _ _ _ Hx). rewrite (list_lookup_total_correct _ _ _ Hx). cbn [later].
  by replace (Z.to_nat (i + 1)) with (Datatypes.S (Z.to_nat i)) by lia.
Qed.

(** Opening the packet the index stands at. *)
Lemma open_spec ids c sp ms :
  cursor_on ids c sp ms -> opened_ c = false -> index_ c < count_ c ->
  exists r h sp', Reader_Open mem (slots_ c).[index_ c] sp = Some (r, h, sp') /\
    let c' := c <| opened_ := true |> <| slots_ := (slots_ c).[index_ c <- h] |> <| reader_ := r |> in
    match messages_of mem.[ids.[index_ c]] with
    | [] => Reader_Failed r = true /\
            cursor_on ids (c' <| index_ := u32 (index_ c + 1) |> <| opened_ := false |>) sp' ms
    | m :: _ => Reader_Failed r = false /\ message_bytes r = m /\
                exists ms', ms = (index_ c, m) :: ms' /\ cursor_on ids c' sp' ms'
    end.
Proof using Hn.
  intros [Hw Hids Hval Hmem [Hcnt Hu] Hidx Hrest] Hop Hlt. rewrite Hop in Hrest. subst ms.
  rewrite (later_at ids (index_ c)) by lia.
  set (i := Z.to_nat (index_ c)). set (k := Z.to_nat (count_ c)) in *.
  assert (Hik : (i < k)%nat) by lia.
  assert (Hlen : zlen ids <= zlen (slots_ c)).
  { rewrite <- Hids. unfold zlen. rewrite length_map, length_take. lia. }
  destruct (lookup_lt_is_Some_2 (slots_ c) i) as [h0 Hh0]; [unfold zlen in *; lia|].
  assert (Eh : (slots_ c).[index_ c] = h0) by (unfold arr_get; by rewrite (list_lookup_total_correct _ _ _ Hh0)).
  assert (Hh0' : take k (slots_ c) !! i = Some h0) by (by rewrite lookup_take_lt).
  assert (Hv0 : valid_ h0 = true) by (by apply (Forall_lookup_1 _ _ _ _ Hval Hh0')).
  assert (Eid : ids.[index_ c] = idx_ h0).
  { unfold arr_get. apply list_lookup_total_correct. rewrite <- Hids. fold i. by rewrite list_lookup_fmap, Hh0'. }
  destruct (owner_facts name n Hn _ _ _ _ _ Hw Hh0 Hv0) as (_&_&_&Hok). destruct (Hok Hv0) as (_&Hf&_).
  destruct (Read_ok name n Hn _ _ _ _ _ Hw Hh0) as (h'&sp'&ER&Hw'). rewrite Hv0 in ER.
  destruct (Read_keeps _ _ _ _ _ ER) as (Ki&Kv&_).
  unfold Reader_Open. rewrite Eh. unfold Failed, FailReason. rewrite Hf. cbn [bool_decide negb]. rewrite bool_decide_true by done. cbn [negb].
  rewrite ER. cbn [mbind option_bind]. eexists _, _, _. split; [reflexivity|]. cbv zeta.
  assert (Hwf : pkt_wf mem.[idx_ h0]).
  { rewrite <- Eid. unfold arr_get at 2. apply (Forall_lookup_1 _ _ _ _ Hmem (list_lookup_lookup_total_lt ids i ltac:(unfold zlen in *; lia))). }
  pose proof (reader_start_spec mem.[idx_ h0] _ Hwf eq_refl) as HS. cbv zeta in HS. rewrite Eid.
  set (r := reader_start _ _) in *.
  (* What the new slot array keeps. *)
  assert (Hslots : (slots_ c).[index_ c <- h'] = <[i := h']> (slots_ c)) by done.
  assert (Htk : take k (<[i := h']> (slots_ c)) = <[i := h']> (take k (slots_ c))) by (by rewrite take_insert_lt).
  assert (Hids' : map idx_ (take k (<[i := h']> (slots_ c))) = ids).
  { rewrite Htk. unfold map. fold (map idx_). change (map idx_) with (fmap (M := list) idx_). rewrite list_fmap_insert, Ki.
    rewrite list_insert_id; [done|]. by rewrite list_lookup_fmap, Hh0'. }
  assert (Hval' : Forall (fun h => valid_ h = true) (take k (<[i := h']> (slots_ c)))).
  { rewrite Htk. apply Forall_insert; [done|congruence]. }
  destruct (messages_of mem.[idx_ h0]) as [|m ms] eqn:EM.
  - split; [done|]. split; cbn [slots_ count_ index_ opened_ reader_ upd]; try done.
    + rewrite u32_small by lia. lia.
    + by rewrite u32_small by lia.
  - destruct HS as (HF&Hm&Hon). split; [done|]. split; [done|]. eexists. split; [reflexivity|].
    split; cbn [slots_ count_ index_ opened_ reader_ upd]; try done. split; [done|]. by exists ms.
Qed.

Lemma Next_loop_spec ids fuel : forall c sp ms,
  cursor_on ids c sp ms -> count_ c - index_ c < Z.of_nat fuel ->
  exists b c' sp', Next_loop fuel mem c sp = Some (b, c', sp') /\
    match ms with
    | [] => b = false
    | (k, m) :: ms' => b = true /\ message_bytes (reader_ c') = m /\ index_ c' = k /\ cursor_on ids c' sp' ms'
    end.
Proof using Hn.
  induction fuel as [|fuel IH]; intros c sp ms Hon Hfuel; [destruct Hon; lia|].
  cbn [Next_loop]. destruct (Z.ltb_spec (index_ c) (count_ c)) as [Hlt|Hge].
  - destruct (opened_ c) eqn:Hop; cbn [negb].
    + destruct Hon as [Hw Hids Hval Hmem Hcnt Hidx Hrest]. rewrite Hop in Hrest. destruct Hrest as (_&ms1&Hr&->).
      pose proof (NextMessage_spec _ _ Hr) as HN. destruct ms1 as [|m ms1].
      * rewrite HN. cbn [map app]. apply IH; [|cbn; rewrite u32_small by lia; lia].
        split; cbn [slots_ count_ index_ opened_ reader_ upd]; rewrite ?u32_small by lia; done || lia.
      * destruct HN as (r'&->&Hm&Hr'&_). cbn [map app]. eexists _, _, _. split; [reflexivity|].
        split; [done|]. split; [done|]. split; [done|].
        split; cbn [slots_ count_ index_ opened_ reader_ upd]; try done. rewrite Hop. split; [done|]. by exists ms1.
    + destruct (open_spec ids c sp ms Hon Hop Hlt) as (r&h&sp'&HO&Hc). cbv zeta in Hc.
      change (slots_ (c <| opened_ := true |>)) with (slots_ c). change (index_ (c <| opened_ := true |>)) with (index_ c).
      rewrite HO. cbn [mbind option_bind]. destruct (messages_of _) as [|m0 l].
      * destruct Hc as (->&Hc). cbn [negb]. apply IH; [exact Hc|]. cbn.
        destruct Hon as [_ _ _ _ [_ ?] ? _]. rewrite u32_small by lia. lia.
      * destruct Hc as (->&Hm&ms'&->&Hc). cbn [negb]. eexists _, _, _. split; [reflexivity|]. auto.
  - destruct Hon as [_ Hids _ _ [Hc _] Hidx Hrest]. destruct (opened_ c); [lia|].
    rewrite drop_ge in Hrest by (unfold zlen in *; lia). cbn in Hrest. subst ms. eexists _, _, _. split; reflexivity.
Qed.

(** What a loop over the cursor sees: each message with its packet's place. *)
Fixpoint cursor_all (fuel : nat) (c : PollCursor) (sp : SlotPool) : option (list (Z * list Z)) :=
  match fuel with
  | O => None
  | Datatypes.S fuel' =>
      '(b, c', sp') ← Next mem c sp;
      if b : bool then ms ← cursor_all fuel' c' sp'; Some ((index_ c', message_bytes (reader_ c')) :: ms) else Some []
  end.

Lemma cursor_all_spec ids ms : forall c sp fuel,
  cursor_on ids c sp ms -> (length ms < fuel)%nat -> cursor_all fuel c sp = Some ms.
Proof using Hn.
  induction ms as [|[k m] ms IH]; intros c sp fuel Hon Hfuel; (destruct fuel as [|fuel]; [cbn in Hfuel; lia|]); cbn [cursor_all];
    destruct (Next_loop_spec ids (Datatypes.S (Z.to_nat (count_ c - index_ c))) c sp _ Hon) as (b&c'&sp'&E&Hc);
    try (destruct Hon; lia); unfold Next; rewrite E; cbn [mbind option_bind].
  - by subst b.
  - destruct Hc as (->&<-&<-&Hon'). rewrite (IH _ _ _ Hon') by (cbn in Hfuel; lia). done.
Qed.
End Cursor.

(** (C29) One loop over the cursor a poll returned sees every message of every
    packet it delivered, each exactly once, in arrival order and with the packet it
    came in, whether the packets carried one message or a batch (a packet
    shorter than its own header counts as one empty message); a damaged batch
    yields nothing and hides nothing behind it; and the loop ends: no call of
    [Next] runs on or waits for a lock. *)
Theorem cursor_sees_each_message_once (capacity stride name n lane : Z) (mem : list PacketSlot) (loose : list Z)
  (sp : SlotPool) (slots : list PacketSlotHandle) (count : Z)
  (Hcap : NextPowerOfTwo capacity = 2 ^ n) (Hn : 0 <= n <= 31)
  (Hw : wreach name capacity stride (mk_world slots loose sp)) (Hc : 0 <= count <= zlen slots) (Hu : is_u32 (count + 1))
  (Hv : Forall (fun h => valid_ h = true) (take (Z.to_nat count) slots))
  (Hm : Forall (fun h => pkt_wf mem.[idx_ h]) (take (Z.to_nat count) slots)) :
  let ms := later mem 0 (map idx_ (take (Z.to_nat count) slots)) in
  cursor_all mem (S (length ms)) (Cursor_of true lane (Some slots) count) sp = Some ms.
Proof.
  cbv zeta. apply (wreach_inv capacity stride n name) in Hw; [|done..].
  apply (cursor_all_spec name n Hn mem loose (map idx_ (take (Z.to_nat count) slots))); [|lia].
  split; cbn [Cursor_of slots_ count_ index_ opened_ default]; try done; try lia.
  - by apply Forall_map.
  - split; [|lia]. unfold zlen in *. rewrite length_map, length_take. lia.
Qed.

(** A plain packet, a damaged batch, and a batch of two. *)
Definition sample_mem : list PacketSlot :=
  [ mk_pkt inhabitant 8 [Z.lor CTRL_UNSECURE CTRL_BATCH; 1; 0; 7; 2; 0; 8; 9; 99];
    mk_pkt inhabitant 4 [Z.lor CTRL_UNSECURE CTRL_BATCH; 9; 0; 7];
    mk_pkt inhabitant 3 [CTRL_UNSECURE; 5; 6; 77] ].
Definition acquired (hint : Z) (sp : SlotPool) : SlotPool := (default (0, pool0) (Acquire hint sp)).2.
Definition sample_pool : SlotPool := acquired 2 (acquired 1 (acquired 0 pool0)).
Definition sample_slots : list PacketSlotHandle := [Handle_of 2 (Some 0); Handle_of 1 (Some 0); Handle_of 0 (Some 0)].

Lemma sample_reach : wreach 0 20 64 (mk_world sample_slots [] sample_pool).
Proof.
  eapply wr_step; [|apply (ws_acquire 0 _ [] (acquired 1 (acquired 0 pool0)) 2); vm_compute; reflexivity].
  eapply wr_step; [|apply (ws_acquire 0 _ [] (acquired 0 pool0) 1); vm_compute; reflexivity].
  eapply wr_step; [|apply (ws_acquire 0 [] [] pool0 0); vm_compute; reflexivity].
  exact (wr_init 0 20 64).
Qed.

Lemma cursor_sees_each_message_once_witness :
  cursor_all sample_mem 4 (Cursor_of true 3 (Some sample_slots) 3) sample_pool
  = Some [(0, [5; 6]); (2, [7]); (2, [8; 9])].
Proof.
  apply (cursor_sees_each_message_once 20 64 0 5 3 sample_mem [] sample_pool sample_slots 3);
    [vm_compute; reflexivity|lia|exact sample_reach|vm_compute; split; discriminate|lia| |].
  - repeat constructor.
  - repeat constructor; cbn; unfold zlen, is_byte; cbn; try lia; discriminate.
Defined.
