(* ===== verification/PacketBuild.v ===== *)
(** * Building packets: [PacketSlotWriter] of [flux/socket/packet_slot], [flux/wire/packet_builder]

    A writer fills the slot it holds; a builder collects what the packet should be,
    takes a slot at the first put, writes the header and hands over a stage that
    takes the payload and sends.  What the builder asks of the socket, slots, the
    mode of a flow and the sending itself, is the class [SocketKernel].

    Proved: what a chain hands to the sender is the layout that was asked for, with
    room left for the authentication tag; and every way a chain can go wrong ends
    in its own error with nothing sent and no slot kept. *)

From S2P Require Import Prelude Wire Bytes Batch CommonMath Fifo SlotPool Errors FlowData Keys Packet PacketHandle.

(** ** Writer *)

(** [w_address] is the slot's address field, [None] when [pkt_] is null; the
    cursor's buffer and total are the slot's bytes and [dataSize]. *)
Record PacketSlotWriter := mk_writer {
  w_address : option Address; w_handle : PacketSlotHandle; w_cursor : BytesWriter }.
#[export] Instance PacketSlotWriter_eta : Eta PacketSlotWriter := fun w => mk_writer (w_address w) (w_handle w) (w_cursor w).

Definition null_cursor : BytesWriter := {| wr_buf := []; wr_p := 0; wr_r := 0; wr_written := 0 |}.

(** [header] is [sizeof(PacketSlot)].  A write through the null pointer that an
    empty handle answers has no meaning: [None], as is a lock never granted. *)
Definition Writer_of (header : Z) (mem : list PacketSlot) (h : PacketSlotHandle) (sp : SlotPool) : option (PacketSlotWriter * SlotPool) :=
  if Failed h then Some (mk_writer None h null_cursor, sp)
  else
    '(ptr, h, sp) ← Write h sp;
    slot ← ptr;
    let pkt := nth (Z.to_nat slot) mem (mk_pkt inhabitant 0 []) in
    Some (mk_writer (Some (pk_address pkt)) h
            {| wr_buf := pk_data pkt; wr_p := 0; wr_r := u64 (GetStride sp - header); wr_written := 0 |}, sp).

Definition WriteAddress (w : PacketSlotWriter) (address : Address) : PacketSlotWriter := w <| w_address := Some address |>.

(** [memset(cursor.p, 0, reserved)] and the cursor past it. *)
Definition ReserveSecureHeader (w : PacketSlotWriter) (tagged : bool) : option PacketSlotWriter :=
  let reserved := WIRE_NONCE_SIZE in
  let reserved := if tagged then reserved + WIRE_PEER_TAG_SIZE else reserved in
  let c := w_cursor w in
  if wr_r c <? reserved + WIRE_TAG_SIZE then None
  else
    let c := {| wr_buf := wr_buf c; wr_p := wr_p c; wr_r := wr_r c - WIRE_TAG_SIZE; wr_written := wr_written c |} in
    let c := {| wr_buf := blit (wr_buf c) (wr_p c) (replicate (Z.to_nat reserved) 0); wr_p := wr_p c + reserved;
                wr_r := wr_r c - reserved; wr_written := wr_written c |} in
    Some (w <| w_cursor := AddWritten c reserved |>).

Definition Writer_put (w : PacketSlotWriter) (f : field) : option PacketSlotWriter :=
  c ← put_field (w_cursor w) f; Some (w <| w_cursor := c |>).
Definition Writer_PutU8 w v := Writer_put w (FU8 v).
Definition Writer_PutU16 w v := Writer_put w (FU16 v).
Definition Writer_PutU32 w v := Writer_put w (FU32 v).
Definition Writer_PutU64 w v := Writer_put w (FU64 v).
Definition Writer_PutBytes w l := Writer_put w (FBytes l).

Definition Writer_Failed (w : PacketSlotWriter) : bool := Failed (w_handle w).

(** The handle leaves, and with it the slot as it was written. *)
Definition ExtractHandle (w : PacketSlotWriter) : PacketSlotHandle * PacketSlot * PacketSlotWriter :=
  (w_handle w, mk_pkt (default inhabitant (w_address w)) (wr_written (w_cursor w)) (wr_buf (w_cursor w)),
   mk_writer None (Invalidate (w_handle w)) null_cursor).

(** [ISocketKernel::Write]. *)
Definition Kernel_Write (header : Z) (mem : list PacketSlot) (name hint : Z) (sp : SlotPool)
  : option ((Error + PacketSlotWriter) * SlotPool) :=
  '(slotIdx, sp) ← Acquire hint sp;
  if slotIdx =? INVALID then Some (inl PoolExhausted, sp)
  else '(w, sp) ← Writer_of header mem (Handle_of slotIdx (Some name)) sp; Some (inr w, sp).

(** ** Flow handles: [flux/flow/flow_handle.h] *)

Record FlowHandle := mk_flow_handle { fh_slot : Z; fh_epoch : Z; fh_id : Z; fh_data : Z; fh_fail : Error }.
Definition FlowHandle_none : FlowHandle := mk_flow_handle UINT32_MAX 0 INVALID_FLOW_ID 0 InvalidState.
Definition FlowHandle_Failed (f : FlowHandle) : bool := negb (bool_decide (fh_fail f = Ok)).
(** A moved-from handle keeps its data byte. *)
Definition FlowHandle_Steal (o : FlowHandle) : FlowHandle * FlowHandle :=
  (o, mk_flow_handle UINT32_MAX 0 INVALID_FLOW_ID (fh_data o) InvalidState).

(** ** What the builder asks of the socket *)

Class SocketKernel (S : Type) := {
  AcquireKernelWriter : S -> (Error + PacketSlotWriter) * S;
  FlowModeOf : S -> FlowHandle -> option FlowMode;
  AcquireFlowWriter : S -> FlowHandle -> (Error + PacketSlotWriter) * S;
  Sender_Send : S -> PacketSlotHandle -> PacketSlot -> bool -> Error * S;
  (** The destructor of a handle that is dropped. *)
  DropHandle : S -> PacketSlotHandle -> S }.

(** ** Content stage *)

Record PacketContentStage := mk_stage {
  st_writer : PacketSlotWriter; st_respondTo : Address; st_failReason : Error; st_failed : bool }.
#[export] Instance PacketContentStage_eta : Eta PacketContentStage := fun st =>
  mk_stage (st_writer st) (st_respondTo st) (st_failReason st) (st_failed st).

Definition address_unset : Address := mk_addr 0 0 [] 0.
Definition Stage_of (w : PacketSlotWriter) (respondTo : Address) : PacketContentStage := mk_stage w respondTo Ok false.
Definition Stage_failed (reason : Error) : PacketContentStage :=
  mk_stage (mk_writer None Handle_Invalid null_cursor) address_unset reason true.

Definition Stage_Fail (st : PacketContentStage) (reason : Error) : PacketContentStage :=
  if st_failed st then st else st <| st_failed := true |> <| st_failReason := reason |>.

(** [PutU8] .. [PutBytes] of the stage: one shape over the kind of field. *)
Definition Stage_put (st : PacketContentStage) (f : field) : PacketContentStage :=
  match Writer_put (st_writer st) f with
  | Some w => st <| st_writer := w |>
  | None => Stage_Fail st TooLarge
  end.

(** ** Builder *)

Inductive Security := Encrypted | MacOnly | Unsecured.
#[export] Instance Security_eq_dec : EqDecision Security.
Proof. solve_decision. Defined.
Inductive Target := Unset | TNoFlow | TFlow.

Record PacketBuilder := mk_builder {
  b_socket : bool; b_respondTo : Address; b_failReason : Error; security_ : Security; securityChosen_ : bool;
  tagged_ : bool; spent_ : bool; target_ : Target; flow_ : FlowHandle; part_ : FlowPart }.
#[export] Instance PacketBuilder_eta : Eta PacketBuilder := fun b =>
  mk_builder (b_socket b) (b_respondTo b) (b_failReason b) (security_ b) (securityChosen_ b) (tagged_ b) (spent_ b)
    (target_ b) (flow_ b) (part_ b).

Definition Builder_of (tagged : bool) : PacketBuilder :=
  mk_builder true address_unset Ok Encrypted false tagged false Unset FlowHandle_none Whole.
Definition Builder_failed (reason : Error) : PacketBuilder :=
  mk_builder false address_unset reason Encrypted false false false Unset FlowHandle_none Whole.
Definition Aim (b : PacketBuilder) (target : Address) : PacketBuilder := b <| b_respondTo := target |>.

Definition Conflicts (chosen : bool) (have want : Security) : bool := chosen && negb (bool_decide (have = want)).

Definition Builder_Unsecured (b : PacketBuilder) : PacketBuilder :=
  let b := if Conflicts (securityChosen_ b) (security_ b) Unsecured then b <| b_failReason := InvalidParam |> else b in
  b <| security_ := Unsecured |> <| securityChosen_ := true |>.
Definition Builder_MacOnly (b : PacketBuilder) : PacketBuilder :=
  let b := if Conflicts (securityChosen_ b) (security_ b) MacOnly then b <| b_failReason := InvalidParam |> else b in
  b <| security_ := MacOnly |> <| securityChosen_ := true |>.
Definition NoFlow (b : PacketBuilder) : PacketBuilder := b <| target_ := TNoFlow |>.
Definition WithFlow (b : PacketBuilder) (flow : FlowHandle) (part : FlowPart) : PacketBuilder :=
  b <| target_ := TFlow |> <| flow_ := flow |> <| part_ := part |>.

Definition WriteCommonHeader (w : PacketSlotWriter) (level : Security) (tagged hasFlow : bool) : option PacketSlotWriter :=
  let secure := negb (bool_decide (level = Unsecured)) in
  let controller := if secure then 0 else CTRL_UNSECURE in
  let controller := if bool_decide (level = MacOnly) then Z.lor controller CTRL_MACONLY else controller in
  let controller := if tagged then Z.lor controller CTRL_TAGGED else controller in
  let controller := if hasFlow then Z.lor controller CTRL_HAS_FLOW else controller in
  w ← Writer_PutU8 w controller;
  w ← (if secure then ReserveSecureHeader w tagged else Some w);
  if secure then Writer_PutU8 w SECURE_CHANNEL_APP else Some w.

Definition flow_byte (data : Z) (part : FlowPart) : Z :=
  let data := if bool_decide (part = First) || bool_decide (part = Middle) then Z.lor data FLOW_PART_MORE else data in
  if bool_decide (part = Middle) || bool_decide (part = Last) then Z.lor data FLOW_PART_CONT else data.

Section Builder.
Context {S : Type} `{!SocketKernel S}.
Implicit Types s : S.

Definition Begin s (b : PacketBuilder) : PacketContentStage * PacketBuilder * S :=
  if negb (b_socket b) then (Stage_failed (b_failReason b), b, s)
  else if spent_ b then (Stage_failed InvalidState, b, s)
  else
    match target_ b with
    | Unset => (Stage_failed InvalidState, b, s)
    | target =>
        if negb (bool_decide (b_failReason b = Ok)) then (Stage_failed (b_failReason b), b, s)
        else
          let b := b <| spent_ := true |> in
          match target with
          | TNoFlow | Unset =>
              let '(result, s) := AcquireKernelWriter s in
              match result with
              | inl e => (Stage_failed e, b, s)
              | inr w =>
                  let secure := negb (bool_decide (security_ b = Unsecured)) in
                  match WriteCommonHeader w (security_ b) (secure && tagged_ b) false with
                  | None => (Stage_failed BufferFull, b, DropHandle s (w_handle w))
                  | Some w => (Stage_of w (b_respondTo b), b, s)
                  end
              end
          | TFlow =>
              if negb (bool_decide (part_ b = Whole))
                 && match FlowModeOf s (flow_ b) with None => true | Some mode => negb (FlowPartAllowed mode (part_ b)) end
              then (Stage_failed InvalidParam, b, s)
              else
                let '(result, s) := AcquireFlowWriter s (flow_ b) in
                match result with
                | inl e => (Stage_failed e, b, s)
                | inr w =>
                    if bool_decide (security_ b = Unsecured) then (Stage_failed InvalidParam, b, DropHandle s (w_handle w))
                    else
                      match WriteCommonHeader w (security_ b) (tagged_ b) true with
                      | None => (Stage_failed BufferFull, b, DropHandle s (w_handle w))
                      | Some w =>
                          match (w ← Writer_PutU16 w (fh_id (flow_ b)); w ← Writer_PutU32 w 0;
                                 Writer_PutU8 w (flow_byte (fh_data (flow_ b)) (part_ b))) with
                          | None => (Stage_failed BufferFull, b, DropHandle s (w_handle w))
                          | Some w => (Stage_of w (b_respondTo b), b, s)
                          end
                      end
                end
          end
    end.

(** [Send] and [SendSecured] of the stage. *)
Definition Stage_Send s (st : PacketContentStage) (address : Address) (requireAuth : bool) : Error * PacketContentStage * S :=
  if st_failed st then (st_failReason st, st, s)
  else
    let w := WriteAddress (st_writer st) address in
    let '(h, pkt, w) := ExtractHandle w in
    let '(e, s) := Sender_Send s h pkt requireAuth in
    (e, st <| st_writer := w |>, s).

(** [Respond] and [RespondSecured] of the stage. *)
Definition Stage_Respond s (st : PacketContentStage) (requireAuth : bool) : Error * PacketContentStage * S :=
  if st_failed st then (st_failReason st, st, s)
  else if negb (Address_IsSet (st_respondTo st)) then (InvalidState, st, s)
  else Stage_Send s st (st_respondTo st) requireAuth.

(** A whole chain off a builder: the puts, the terminal call ([None] answers the
    packet being replied to) and the stage's end. *)
Definition chain s (b : PacketBuilder) (fs : list field) (address : option Address) (requireAuth : bool) : Error * PacketBuilder * S :=
  let '(st, b, s) := Begin s b in
  let st := fold_left Stage_put fs st in
  let '(e, st, s) := match address with
                     | Some a => Stage_Send s st a requireAuth
                     | None => Stage_Respond s st requireAuth
                     end in
  (e, b, DropHandle s (w_handle (st_writer st))).
End Builder.

(** ** What a writer has written *)

Record fresh_writer (room : Z) (w : PacketSlotWriter) : Prop := {
  fw_cursor : wr_wf (w_cursor w); fw_bytes : Forall is_byte (wr_buf (w_cursor w));
  fw_start : wr_p (w_cursor w) = 0; fw_len : wr_written (w_cursor w) = 0;
  fw_room : wr_r (w_cursor w) = room; fw_u16 : is_u16 room; fw_handle : valid_ (w_handle w) = true }.

(** From the fresh writer [w0], [w] has written [bytes] and keeps [spare] bytes back. *)
Record wrote (room : Z) (w0 w : PacketSlotWriter) (bytes : list Z) (spare : Z) : Prop := {
  wt_handle : w_handle w = w_handle w0; wt_address : w_address w = w_address w0;
  wt_buf : wr_buf (w_cursor w) = blit (wr_buf (w_cursor w0)) 0 bytes;
  wt_p : wr_p (w_cursor w) = zlen bytes; wt_r : wr_r (w_cursor w) = room - spare - zlen bytes;
  wt_len : wr_written (w_cursor w) = zlen bytes; wt_spare : 0 <= spare; wt_fits : zlen bytes + spare <= room }.

Section Written.
Context (room : Z) (w0 : PacketSlotWriter) (Hf : fresh_writer room w0).

Lemma wrote_nil : wrote room w0 w0 [] 0.
Proof using Hf. destruct Hf as [? ? ? ? ? ? ?]. split; cbn; rewrite ?blit_nil; try done; unfold zlen; cbn; lia. Qed.

Lemma wrote_wf w bytes spare : wrote room w0 w bytes spare -> wr_wf (w_cursor w).
Proof using Hf.
  intros [_ _ Hb Hp Hr _ Hs Hfit]. destruct Hf as [(H0&H1&H2) _ Hst _ Hroom _ _]. pose proof (zlen_nonneg bytes).
  unfold wr_wf. rewrite Hb, Hp, Hr, zlen_blit by lia. lia.
Qed.

(** A put writes its bytes behind the others, or does not fit. *)
Lemma wrote_put w bytes spare f :
  wrote room w0 w bytes spare ->
  if zlen bytes + zlen (field_wire f) + spare <=? room
  then exists w', Writer_put w f = Some w' /\ wrote room w0 w' (bytes ++ field_wire f) spare
  else Writer_put w f = None.
Proof using Hf.
  intros Hw. pose proof (wrote_wf _ _ _ Hw) as Hwf. destruct Hw as [Hh Ha Hb Hp Hr Hl Hs Hfit].
  destruct Hf as [(H0&H1&H2) _ Hst _ Hroom Hu _]. pose proof (zlen_nonneg bytes). pose proof (zlen_nonneg (field_wire f)).
  unfold Writer_put. rewrite put_field_spec by done. rewrite Hr.
  destruct (Z.leb_spec (zlen bytes + zlen (field_wire f) + spare) room), (Z.ltb_spec (room - spare - zlen bytes) (zlen (field_wire f))); try lia; [|done].
  cbn [mbind option_bind]. eexists. split; [reflexivity|].
  unfold put_result. split; cbn; try done; rewrite ?zlen_app; try lia.
  - rewrite Hb, Hp. apply (blit_blit (wr_buf (w_cursor w0)) bytes (field_wire f) 0); lia.
  - rewrite Hl. rewrite (u16_small (zlen (field_wire f))), u16_small by lia. done.
Qed.

Definition reserve_size (tagged : bool) : Z := if tagged then WIRE_NONCE_SIZE + WIRE_PEER_TAG_SIZE else WIRE_NONCE_SIZE.

Lemma wrote_reserve w bytes tagged :
  wrote room w0 w bytes 0 ->
  if zlen bytes + reserve_size tagged + WIRE_TAG_SIZE <=? room
  then exists w', ReserveSecureHeader w tagged = Some w' /\
         wrote room w0 w' (bytes ++ replicate (Z.to_nat (reserve_size tagged)) 0) WIRE_TAG_SIZE
  else ReserveSecureHeader w tagged = None.
Proof using Hf.
  intros Hw. destruct Hw as [Hh Ha Hb Hp Hr Hl Hs Hfit].
  destruct Hf as [(H0&H1&H2) _ Hst _ Hroom Hu _]. pose proof (zlen_nonneg bytes).
  assert (Hrs : 8 <= reserve_size tagged <= 12) by (unfold reserve_size, WIRE_NONCE_SIZE, WIRE_PEER_TAG_SIZE; destruct tagged; lia).
  unfold ReserveSecureHeader. cbv zeta. change (if tagged then _ else _) with (reserve_size tagged).
  set (k := reserve_size tagged) in *. rewrite Hr. unfold WIRE_TAG_SIZE.
  pose proof (zlen_replicate k 0 ltac:(lia)) as Hz.
  destruct (Z.leb_spec (zlen bytes + k + 16) room), (Z.ltb_spec (room - 0 - zlen bytes) (k + 16)); try lia; [|done].
  eexists. split; [reflexivity|]. unfold AddWritten. split; cbn; try done; rewrite ?zlen_app, ?Hz; try lia.
  - rewrite Hb, Hp. apply (blit_blit (wr_buf (w_cursor w0)) bytes _ 0); lia.
  - rewrite Hl. rewrite (u16_small k), u16_small by lia. done.
Qed.
End Written.

(** ** The layout a chain asks for *)

Definition asked_prot (b : PacketBuilder) (trailer : list Z) : protection :=
  if bool_decide (security_ b = Unsecured) then Plain
  else Sealed (bool_decide (security_ b = MacOnly)) (replicate 8 0)
         (if tagged_ b then Some (replicate 4 0) else None) SECURE_CHANNEL_APP trailer.
Definition asked_flow (b : PacketBuilder) : option (Z * Z * Z) :=
  match target_ b with TFlow => Some (fh_id (flow_ b), 0, flow_byte (fh_data (flow_ b)) (part_ b)) | _ => None end.
Definition asked (b : PacketBuilder) (payload trailer : list Z) : Layout :=
  mk_layout false false (asked_prot b trailer) (asked_flow b) payload.
Definition spare_of (b : PacketBuilder) : Z := if bool_decide (security_ b = Unsecured) then 0 else WIRE_TAG_SIZE.
(** Everything in front of the payload. *)
Definition asked_head (b : PacketBuilder) : list Z :=
  layout_controller (asked b [] []) :: ly_head (asked b [] []) ++ flow_bytes (asked_flow b).

Lemma asked_bytes b payload trailer :
  layout_bytes (asked b payload trailer)
  = asked_head b ++ payload ++ (if bool_decide (security_ b = Unsecured) then [] else trailer).
Proof.
  unfold asked_head, layout_bytes, asked, ly_head, ly_trailer, layout_controller, ly_sealed, ly_peerTag, ly_macOnly, asked_prot. cbn.
  case_bool_decide; cbn; rewrite <- ?app_assoc; done.
Qed.

(** The bytes of [WriteCommonHeader]. *)
Definition common_head (b : PacketBuilder) : list Z :=
  layout_controller (asked b [] []) :: ly_head (asked b [] []).

Section Headers.
Context (room : Z) (w0 : PacketSlotWriter) (Hf : fresh_writer room w0).

Lemma common_header_spec b hasFlow :
  hasFlow = is_some (asked_flow b) ->
  let tagged := negb (bool_decide (security_ b = Unsecured)) && tagged_ b in
  if zlen (common_head b) + spare_of b <=? room
  then exists w, WriteCommonHeader w0 (security_ b) tagged hasFlow = Some w /\ wrote room w0 w (common_head b) (spare_of b)
  else WriteCommonHeader w0 (security_ b) tagged hasFlow = None.
Proof using Hf.
  intros Hflow. cbv zeta. unfold WriteCommonHeader. cbv zeta.
  set (controller := if hasFlow then _ else _). set (tg := negb (bool_decide (security_ b = Unsecured)) && tagged_ b).
  assert (Ec : controller = layout_controller (asked b [] [])).
  { subst controller tg. unfold layout_controller, asked, ly_sealed, ly_peerTag, ly_macOnly, asked_prot. cbn. rewrite <- Hflow.
    destruct (security_ b), (tagged_ b), hasFlow; reflexivity. }
  pose proof (wrote_nil room w0 Hf) as Hw0.
  pose proof (wrote_put room w0 Hf w0 [] 0 (FU8 controller) Hw0) as HP. cbn [field_wire app] in HP.
  change (zlen [] + zlen [controller] + 0) with 1 in HP.
  unfold Writer_PutU8. rewrite Ec in *. unfold spare_of, common_head, ly_head, asked, asked_prot, WIRE_TAG_SIZE in *. cbn [ly_prot].
  subst tg. destruct (bool_decide (security_ b = Unsecured)) eqn:Es; cbn [negb andb].
  - change (zlen [?x] + 0) with 1. destruct (1 <=? room); [|by rewrite HP].
    destruct HP as (w&->&Hw). cbn [mbind option_bind]. eauto.
  - set (ctl := layout_controller _) in *.
    assert (Hlen : zlen (ctl :: replicate 8 0 ++ default [] (if tagged_ b then Some (replicate 4 0) else None) ++ [SECURE_CHANNEL_APP])
                   = 2 + reserve_size (tagged_ b)) by (destruct (tagged_ b); reflexivity).
    rewrite Hlen. assert (Hrs : 8 <= reserve_size (tagged_ b) <= 12) by (destruct (tagged_ b); vm_compute; split; discriminate).
    destruct (Z.leb_spec 1 room).
    2: { destruct (Z.leb_spec (2 + reserve_size (tagged_ b) + 16) room); [lia|]. by rewrite HP. }
    destruct HP as (w1&->&Hw1). cbn [mbind option_bind].
    pose proof (wrote_reserve room w0 Hf w1 [ctl] (tagged_ b) Hw1) as HR. change (zlen [ctl]) with 1 in HR. unfold WIRE_TAG_SIZE in HR.
    destruct (Z.leb_spec (1 + reserve_size (tagged_ b) + 16) room).
    2: { destruct (Z.leb_spec (2 + reserve_size (tagged_ b) + 16) room); [lia|]. by rewrite HR. }
    destruct HR as (w2&->&Hw2). cbn [mbind option_bind].
    pose proof (wrote_put room w0 Hf w2 _ 16 (FU8 SECURE_CHANNEL_APP) Hw2) as HC.
    assert (Hl2 : zlen ([ctl] ++ replicate (Z.to_nat (reserve_size (tagged_ b))) 0) = 1 + reserve_size (tagged_ b))
      by (destruct (tagged_ b); reflexivity).
    rewrite Hl2 in HC. change (zlen (field_wire (FU8 SECURE_CHANNEL_APP))) with 1 in HC.
    replace (1 + reserve_size (tagged_ b) + 1 + 16) with (2 + reserve_size (tagged_ b) + 16) in HC by lia.
    destruct (2 + reserve_size (tagged_ b) + 16 <=? room); [|done].
    destruct HC as (w3&->&Hw3). eexists. split; [reflexivity|]. destruct (tagged_ b); exact Hw3.
Qed.
End Headers.

(** ** Puts of the stage *)

Lemma stage_put_failed st f : st_failed st = true ->
  let st' := Stage_put st f in
  st_failed st' = true /\ st_failReason st' = st_failReason st /\ w_handle (st_writer st') = w_handle (st_writer st).
Proof.
  intros Hfl. unfold Stage_put, Stage_Fail, Writer_put. rewrite Hfl.
  destruct (put_field _ f); cbn; auto.
Qed.

Lemma stage_puts_failed fs : forall st, st_failed st = true ->
  let st' := fold_left Stage_put fs st in
  st_failed st' = true /\ st_failReason st' = st_failReason st /\ w_handle (st_writer st') = w_handle (st_writer st).
Proof.
  induction fs as [|f fs IH]; intros st Hfl; [done|]. cbn [fold_left].
  destruct (stage_put_failed st f Hfl) as (H1&H2&H3). destruct (IH _ H1) as (?&E2&E3). by rewrite <- H2, <- H3.
Qed.

Lemma stage_puts room w0 fs : fresh_writer room w0 -> forall st bytes spare,
  wrote room w0 (st_writer st) bytes spare -> st_failed st = false ->
  let st' := fold_left Stage_put fs st in
  if zlen bytes + zlen (fields_wire fs) + spare <=? room
  then wrote room w0 (st_writer st') (bytes ++ fields_wire fs) spare /\ st_failed st' = false /\ st_respondTo st' = st_respondTo st
  else st_failed st' = true /\ st_failReason st' = TooLarge /\ w_handle (st_writer st') = w_handle w0.
Proof.
  intros Hf. induction fs as [|f fs IH]; intros st bytes spare Hw Hok; cbn [fold_left].
  - change (fields_wire []) with (@nil Z). rewrite app_nil_r. change (zlen []) with 0.
    pose proof (wt_fits _ _ _ _ _ Hw). destruct (Z.leb_spec (zlen bytes + 0 + spare) room); [done|lia].
  - rewrite fields_wire_cons, zlen_app. pose proof (zlen_nonneg (fields_wire fs)).
    pose proof (wrote_put room w0 Hf (st_writer st) bytes spare f Hw) as HP.
    assert (ES : Stage_put st f = match Writer_put (st_writer st) f with Some w => st <| st_writer := w |> | None => Stage_Fail st TooLarge end)
      by done.
    destruct (Z.leb_spec (zlen bytes + zlen (field_wire f) + spare) room).
    + destruct HP as (w'&EW&Hw'). rewrite EW in ES. rewrite ES. specialize (IH (st <| st_writer := w' |>) _ _ Hw' Hok). rewrite zlen_app, <- app_assoc in IH.
      replace (zlen bytes + (zlen (field_wire f) + zlen (fields_wire fs)) + spare)
        with (zlen bytes + zlen (field_wire f) + zlen (fields_wire fs) + spare) by lia. exact IH.
    + rewrite HP in ES. rewrite ES. destruct (Z.leb_spec (zlen bytes + (zlen (field_wire f) + zlen (fields_wire fs)) + spare) room); [lia|].
      unfold Stage_Fail. rewrite Hok.
      destruct (stage_puts_failed fs (st <| st_failed := true |> <| st_failReason := TooLarge |>)) as (?&->&->); [done|].
      split; [done|]. split; [done|]. apply Hw.
Qed.

(** ** Chains *)

(** What a socket that hands out slots promises the builder: a writer it hands out
    is fresh, and dropping an empty handle does nothing. *)
Class SocketKernelLaws (S : Type) `{!SocketKernel S} (room : Z) : Prop := {
  sk_kernel : forall s w s', AcquireKernelWriter s = (inr w, s') -> fresh_writer room w;
  sk_flow : forall s f w s', AcquireFlowWriter s f = (inr w, s') -> fresh_writer room w;
  sk_drop : forall s h, valid_ h = false -> DropHandle s h = s }.

(** The builder can begin: it was declared and nothing conflicts. *)
Definition ready {S} `{!SocketKernel S} (s : S) (b : PacketBuilder) : Prop :=
  b_socket b = true /\ spent_ b = false /\ b_failReason b = Ok /\
  match target_ b with
  | Unset => False
  | TNoFlow => True
  | TFlow => security_ b <> Unsecured /\
      (part_ b = Whole \/ exists mode, FlowModeOf s (flow_ b) = Some mode /\ FlowPartAllowed mode (part_ b) = true)
  end.

Definition acquire_for {S} `{!SocketKernel S} (s : S) (b : PacketBuilder) : (Error + PacketSlotWriter) * S :=
  match target_ b with TFlow => AcquireFlowWriter s (flow_ b) | _ => AcquireKernelWriter s end.

Section Chains.
Context {S : Type} `{!SocketKernel S} {room : Z} `{!SocketKernelLaws S room}.

Lemma asked_head_len b : zlen (asked_head b) = zlen (common_head b) + zlen (flow_bytes (asked_flow b)).
Proof using. unfold asked_head, common_head. by rewrite app_comm_cons, zlen_app. Qed.

(** What [Begin] leaves of a slot it got. *)
Lemma Begin_acquired s b w0 s1 :
  ready s b -> acquire_for s b = (inr w0, s1) -> fresh_writer room w0 ->
  let b' := b <| spent_ := true |> in
  if zlen (asked_head b) + spare_of b <=? room
  then exists w, Begin s b = (Stage_of w (b_respondTo b), b', s1) /\ wrote room w0 w (asked_head b) (spare_of b)
  else Begin s b = (Stage_failed BufferFull, b', DropHandle s1 (w_handle w0)).
Proof using.
  intros (Hs&Hsp&Hfr&Ht) Hacq Hf. cbv zeta. unfold Begin. rewrite Hs, Hsp, Hfr. cbn [negb].
  rewrite bool_decide_true by done. cbn [negb]. unfold acquire_for in Hacq. rewrite asked_head_len.
  pose proof (common_header_spec room w0 Hf b (is_some (asked_flow b)) eq_refl) as HC. cbv zeta in HC.
  unfold asked_head. fold (common_head b). rewrite app_comm_cons. fold (common_head b).
  change (security_ (b <| spent_ := true |>)) with (security_ b). change (tagged_ (b <| spent_ := true |>)) with (tagged_ b).
  change (flow_ (b <| spent_ := true |>)) with (flow_ b). change (part_ (b <| spent_ := true |>)) with (part_ b).
  change (b_respondTo (b <| spent_ := true |>)) with (b_respondTo b).
  destruct (target_ b) eqn:Et; [done| |].
  - unfold asked_flow in *. rewrite Et in *. cbn [is_some flow_bytes] in *. rewrite app_nil_r. change (zlen (@nil Z)) with 0. rewrite Z.add_0_r.
    rewrite Hacq. destruct (zlen (common_head b) + spare_of b <=? room).
    + destruct HC as (w&->&Hw). eauto.
    + by rewrite HC.
  - destruct Ht as (Hsec&Hpart).
    assert (Hp : negb (bool_decide (part_ b = Whole)) && match FlowModeOf s (flow_ b) with None => true | Some mode => negb (FlowPartAllowed mode (part_ b)) end = false).
    { destruct Hpart as [->|(mode&->&->)]; [by rewrite bool_decide_true|]. by rewrite andb_false_r. }
    rewrite Hp, Hacq. rewrite (bool_decide_false (security_ b = Unsecured)) in * by done. cbn [negb andb] in HC.
    assert (Ef : asked_flow b = Some (fh_id (flow_ b), 0, flow_byte (fh_data (flow_ b)) (part_ b))) by (unfold asked_flow; by rewrite Et).
    rewrite Ef in *. cbn [is_some] in HC. change (zlen (flow_bytes _)) with 7. pose proof (zlen_nonneg (common_head b)).
    destruct (Z.leb_spec (zlen (common_head b) + spare_of b) room).
    2: { rewrite HC. destruct (Z.leb_spec (zlen (common_head b) + 7 + spare_of b) room); [lia|done]. }
    destruct HC as (w1&->&Hw1).
    pose proof (wrote_put room w0 Hf w1 _ _ (FU16 (fh_id (flow_ b))) Hw1) as H1. change (zlen (field_wire _)) with 2 in H1.
    unfold Writer_PutU16, Writer_PutU32, Writer_PutU8.
    destruct (Z.leb_spec (zlen (common_head b) + 2 + spare_of b) room).
    2: { rewrite H1. cbn. rewrite (wt_handle _ _ _ _ _ Hw1). destruct (Z.leb_spec (zlen (common_head b) + 7 + spare_of b) room); [lia|done]. }
    destruct H1 as (w2&->&Hw2). cbn [mbind option_bind].
    pose proof (wrote_put room w0 Hf w2 _ _ (FU32 0) Hw2) as HQ. rewrite zlen_app in HQ.
    change (zlen (field_wire (FU16 _))) with 2 in HQ. change (zlen (field_wire (FU32 _))) with 4 in HQ.
    destruct (Z.leb_spec (zlen (common_head b) + 2 + 4 + spare_of b) room).
    2: { rewrite HQ. cbn. rewrite (wt_handle _ _ _ _ _ Hw1). destruct (Z.leb_spec (zlen (common_head b) + 7 + spare_of b) room); [lia|done]. }
    destruct HQ as (w3&->&Hw3). cbn [mbind option_bind].
    pose proof (wrote_put room w0 Hf w3 _ _ (FU8 (flow_byte (fh_data (flow_ b)) (part_ b))) Hw3) as H3. rewrite !zlen_app in H3.
    change (zlen (field_wire (FU16 _))) with 2 in H3. change (zlen (field_wire (FU32 _))) with 4 in H3. change (zlen (field_wire (FU8 _))) with 1 in H3.
    replace (zlen (common_head b) + 2 + 4 + 1 + spare_of b) with (zlen (common_head b) + 7 + spare_of b) in H3 by lia.
    destruct (zlen (common_head b) + 7 + spare_of b <=? room); [|rewrite H3; cbn; by rewrite (wt_handle _ _ _ _ _ Hw1)].
    destruct H3 as (w4&->&Hw4). eexists. split; [reflexivity|]. rewrite <- !app_assoc in Hw4. exact Hw4.
Qed.

(** Where the chain's last call sends. *)
Definition dest (b : PacketBuilder) (address : option Address) : option Address :=
  match address with
  | Some a => Some a
  | None => if Address_IsSet (b_respondTo b) then Some (b_respondTo b) else None
  end.

Lemma chain_failed s b st b' s1 fs address auth reason :
  Begin s b = (st, b', s1) -> st_failed st = true -> st_failReason st = reason -> valid_ (w_handle (st_writer st)) = false ->
  chain s b fs address auth = (reason, b', s1).
Proof using All.
  intros EB Hfl Hr Hv. unfold chain. rewrite EB. destruct (stage_puts_failed fs st Hfl) as (H1&H2&H3).
  unfold Stage_Respond, Stage_Send. rewrite H1, H2, Hr. destruct address; rewrite H3, sk_drop; done.
Qed.

Lemma asked_packet w0 w b payload a trailer :
  fresh_writer room w0 -> wrote room w0 w (asked_head b ++ payload) (spare_of b) -> zlen trailer = spare_of b ->
  let '(_, pkt, _) := ExtractHandle (WriteAddress w a) in
  pk_address pkt = a /\ dataSize pkt + spare_of b <= room /\
  holds_layout (mk_pkt a (dataSize pkt + spare_of b) (blit (pk_data pkt) (dataSize pkt) trailer)) (asked b payload trailer).
Proof using.
  intros Hf [Hh Ha Hb Hp Hr Hl Hs Hfit] Htr. cbn -[zlen blit]. rewrite Hl, Hb. destruct Hf as [(H0&H1&H2) _ Hst _ Hroom _ _].
  split; [done|]. split; [lia|]. set (bytes := asked_head b ++ payload) in *. pose proof (zlen_nonneg bytes).
  assert (El : layout_bytes (asked b payload trailer) = bytes ++ trailer).
  { rewrite asked_bytes. subst bytes. rewrite <- app_assoc. f_equal. f_equal. unfold spare_of in Htr.
    case_bool_decide; [|done]. by destruct trailer. }
  exists (drop (length (bytes ++ trailer)) (wr_buf (w_cursor w0))). cbn [pk_data dataSize]. rewrite El, zlen_app. split; [|lia].
  pose proof (blit_blit (wr_buf (w_cursor w0)) bytes trailer 0 ltac:(lia) ltac:(lia)) as E. rewrite Z.add_0_l in E. by rewrite E.
Qed.

Lemma chain_result s b w0 s1 fs address auth :
  ready s b -> acquire_for s b = (inr w0, s1) ->
  let b' := b <| spent_ := true |> in
  let payload := fields_wire fs in
  if zlen (asked_head b) + zlen payload + spare_of b <=? room
  then
    match dest b address with
    | Some a =>
        exists pkt, chain s b fs address auth =
            (let '(e, s2) := Sender_Send s1 (w_handle w0) pkt auth in (e, b', s2)) /\
          pk_address pkt = a /\ dataSize pkt + spare_of b <= room /\
          forall trailer, zlen trailer = spare_of b ->
            holds_layout (mk_pkt a (dataSize pkt + spare_of b) (blit (pk_data pkt) (dataSize pkt) trailer)) (asked b payload trailer)
    | None => chain s b fs address auth = (InvalidState, b', DropHandle s1 (w_handle w0))
    end
  else chain s b fs address auth =
         (if zlen (asked_head b) + spare_of b <=? room then TooLarge else BufferFull, b', DropHandle s1 (w_handle w0)).
Proof using All.
  intros Hrd Hacq. cbv zeta.
  assert (Hf : fresh_writer room w0).
  { unfold acquire_for in Hacq. destruct (target_ b); eauto using sk_kernel, sk_flow. }
  pose proof (Begin_acquired s b w0 s1 Hrd Hacq Hf) as HB. cbv zeta in HB. pose proof (zlen_nonneg (fields_wire fs)).
  destruct (Z.leb_spec (zlen (asked_head b) + spare_of b) room).
  2: { destruct (Z.leb_spec (zlen (asked_head b) + zlen (fields_wire fs) + spare_of b) room); [lia|].
       destruct (Z.leb_spec (zlen (asked_head b) + spare_of b) room); [lia|]. by eapply chain_failed. }
  destruct HB as (w&EB&Hw). unfold chain. rewrite EB.
  pose proof (stage_puts room w0 fs Hf (Stage_of w (b_respondTo b)) _ _ Hw eq_refl) as HP. cbv zeta in HP.
  set (st := fold_left Stage_put fs _) in *.
  destruct (Z.leb_spec (zlen (asked_head b) + zlen (fields_wire fs) + spare_of b) room).
  - destruct HP as (Hw'&Hnf&Hrt). unfold Stage_Respond, dest. rewrite Hnf, Hrt. cbn [Stage_of st_respondTo].
    assert (HS : forall a, exists pkt, (let '(e, st', s2) := Stage_Send s1 st a auth in (e, b <| spent_ := true |>, DropHandle s2 (w_handle (st_writer st'))))
       = (let '(e, s2) := Sender_Send s1 (w_handle w0) pkt auth in (e, b <| spent_ := true |>, s2)) /\
       pk_address pkt = a /\ dataSize pkt + spare_of b <= room /\
       forall trailer, zlen trailer = spare_of b ->
         holds_layout (mk_pkt a (dataSize pkt + spare_of b) (blit (pk_data pkt) (dataSize pkt) trailer)) (asked b (fields_wire fs) trailer)).
    { intros a. unfold Stage_Send. rewrite Hnf.
      pose proof (asked_packet w0 (st_writer st) b (fields_wire fs) a) as HA.
      destruct (ExtractHandle (WriteAddress (st_writer st) a)) as [[h pkt] wx] eqn:EX. exists pkt.
      assert (Eh : h = w_handle w0) by (injection EX as <- _ _; cbn; apply Hw').
      assert (Ex : valid_ (w_handle wx) = false) by (by injection EX as _ _ <-).
      split; [|split; [|split; [|intros trailer Htr; by apply HA]]].
      - rewrite Eh. destruct (Sender_Send s1 (w_handle w0) pkt auth) as [e s2]. cbn. by rewrite sk_drop.
      - destruct (HA (replicate (Z.to_nat (spare_of b)) 0) Hf Hw') as (?&_); [|done].
        apply zlen_replicate. apply Hw'.
      - destruct (HA (replicate (Z.to_nat (spare_of b)) 0) Hf Hw') as (_&?&_); [|done].
        apply zlen_replicate. apply Hw'. }
    destruct address as [a|]; [apply HS|].
    destruct (Address_IsSet (b_respondTo b)); cbn [negb]; [apply HS|]. f_equal. f_equal. apply Hw'.
  - destruct HP as (Hfl&Hr&Hh). destruct (Z.leb_spec (zlen (asked_head b) + spare_of b) room); [|lia].
    unfold Stage_Respond, Stage_Send. rewrite Hfl, Hr. destruct address; by rewrite Hh.
Qed.

(** Two protections conflict, whichever was asked for first. *)
Lemma two_protections b :
  let x := Builder_MacOnly (Builder_Unsecured b) in let y := Builder_Unsecured (Builder_MacOnly b) in
  (b_socket x = b_socket b /\ spent_ x = spent_ b /\ target_ x = target_ b /\ b_failReason x = InvalidParam) /\
  (b_socket y = b_socket b /\ spent_ y = spent_ b /\ target_ y = target_ b /\ b_failReason y = InvalidParam).
Proof using. cbv zeta. destruct b as [? ? ? [] [] ? ? ? ? ?]; split; split_and!; reflexivity. Qed.

(** (C27) A chain off a builder that may begin hands the sender exactly one
    packet, the layout that was asked for: the controller bits of the chosen
    protection, the reserved counter and peer-tag fields, the application channel,
    the flow's id, its data byte with the framing bits and a zero sequence to be
    stamped, and the payload; and it leaves the authentication tag its sixteen
    bytes.  If that does not fit the slot nothing is sent, the slot is dropped, and
    the error says what was too much: [BufferFull] when the header and the tag already
    do not fit, [TooLarge] when they do and the payload is what does not. *)
Theorem builder_refines_layout (s s1 : S) (b : PacketBuilder) (w0 : PacketSlotWriter) (fs : list field) (a : Address) (auth : bool)
  (Hready : ready s b) (Hacq : acquire_for s b = (inr w0, s1)) :
  if zlen (layout_bytes (asked b (fields_wire fs) (replicate 16 0))) <=? room
  then exists pkt, chain s b fs (Some a) auth =
         (let '(e, s2) := Sender_Send s1 (w_handle w0) pkt auth in (e, b <| spent_ := true |>, s2)) /\
       pk_address pkt = a /\ dataSize pkt + spare_of b <= room /\
       forall trailer, zlen trailer = spare_of b ->
         holds_layout (mk_pkt a (dataSize pkt + spare_of b) (blit (pk_data pkt) (dataSize pkt) trailer))
           (asked b (fields_wire fs) trailer)
  else chain s b fs (Some a) auth =
         (if zlen (layout_bytes (asked b [] (replicate 16 0))) <=? room then TooLarge else BufferFull,
          b <| spent_ := true |>, DropHandle s1 (w_handle w0)).
Proof using All.
  pose proof (chain_result s b w0 s1 fs (Some a) auth Hready Hacq) as H. cbv zeta in H. cbn [dest] in H.
  assert (El : forall l, zlen (layout_bytes (asked b l (replicate 16 0))) = zlen (asked_head b) + zlen l + spare_of b).
  { intros l. rewrite asked_bytes, !zlen_app. unfold spare_of. case_bool_decide; change (zlen (replicate 16 0)) with 16; cbn; unfold WIRE_TAG_SIZE, zlen; cbn; lia. }
  rewrite !El. change (zlen []) with 0. rewrite Z.add_0_r. destruct (_ <=? room); exact H.
Qed.

(** Every way a chain can be refused answers its own error, sends nothing
    and touches no slot: a builder without a socket its stored reason, a builder
    already spent or never told its target [InvalidState], two protections
    [InvalidParam] in either order, framing on a mode without order
    [InvalidParam], an empty pool the pool's error; and a flow that was asked to go
    unsecured gives its slot back. *)
Theorem builder_errors (s : S) (b : PacketBuilder) (fs : list field) (address : option Address) (auth : bool) :
  (b_socket b = false -> chain s b fs address auth = (b_failReason b, b, s)) /\
  (b_socket b = true -> spent_ b = true \/ target_ b = Unset -> chain s b fs address auth = (InvalidState, b, s)) /\
  (b_socket b = true -> spent_ b = false -> target_ b <> Unset ->
     chain s (Builder_MacOnly (Builder_Unsecured b)) fs address auth = (InvalidParam, Builder_MacOnly (Builder_Unsecured b), s) /\
     chain s (Builder_Unsecured (Builder_MacOnly b)) fs address auth = (InvalidParam, Builder_Unsecured (Builder_MacOnly b), s)) /\
  (b_socket b = true -> spent_ b = false -> target_ b = TFlow -> b_failReason b = Ok -> part_ b <> Whole ->
     (forall mode, FlowModeOf s (flow_ b) = Some mode -> FlowPartAllowed mode (part_ b) = false) ->
     chain s b fs address auth = (InvalidParam, b <| spent_ := true |>, s)) /\
  (forall e s1, ready s b -> acquire_for s b = (inl e, s1) -> chain s b fs address auth = (e, b <| spent_ := true |>, s1)) /\
  (forall w s1, b_socket b = true -> spent_ b = false -> target_ b = TFlow -> b_failReason b = Ok -> part_ b = Whole ->
     security_ b = Unsecured -> AcquireFlowWriter s (flow_ b) = (inr w, s1) ->
     chain s b fs address auth = (InvalidParam, b <| spent_ := true |>, DropHandle s1 (w_handle w))).
Proof using All.
  assert (HF : forall b' reason b1 s1, Begin s b' = (Stage_failed reason, b1, s1) -> chain s b' fs address auth = (reason, b1, s1))
    by (intros; by eapply chain_failed).
  split_and!.
  - intros Hs. apply HF. unfold Begin. by rewrite Hs.
  - intros Hs [Hsp|Ht]; apply HF; unfold Begin; rewrite Hs; cbn [negb]; [by rewrite Hsp|]. rewrite Ht. by destruct (spent_ b).
  - intros Hs Hsp Ht. destruct (two_protections b) as [(E1&E2&E3&E4) (F1&F2&F3&F4)]. split; apply HF; unfold Begin.
    + rewrite E1, E2, E3, E4, Hs, Hsp. cbn [negb]. by destruct (target_ b).
    + rewrite F1, F2, F3, F4, Hs, Hsp. cbn [negb]. by destruct (target_ b).
  - intros Hs Hsp Ht Hr Hp Hm. apply HF. unfold Begin. rewrite Hs, Hsp, Ht, Hr. cbn [negb]. rewrite bool_decide_true by done. cbn [negb].
    change (part_ (b <| spent_ := true |>)) with (part_ b). change (flow_ (b <| spent_ := true |>)) with (flow_ b).
    rewrite bool_decide_false by done. cbn [negb andb].
    destruct (FlowModeOf s (flow_ b)) as [mode|]; [|done]. by rewrite (Hm mode).
  - intros e s1 (Hs&Hsp&Hr&Ht) Hacq. apply HF. unfold Begin. unfold acquire_for in Hacq. rewrite Hs, Hsp, Hr. cbn [negb].
    rewrite bool_decide_true by done. cbn [negb]. destruct (target_ b); [done|by rewrite Hacq|].
    destruct Ht as (_&Hp). change (part_ (b <| spent_ := true |>)) with (part_ b). change (flow_ (b <| spent_ := true |>)) with (flow_ b).
    destruct Hp as [->|(mode&->&->)]; [rewrite bool_decide_true by done; cbn [negb andb]|rewrite andb_false_r]; by rewrite Hacq.
  - intros w s1 Hs Hsp Ht Hr Hp Hsec Hacq. apply HF. unfold Begin. rewrite Hs, Hsp, Ht, Hr. cbn [negb].
    rewrite bool_decide_true by done. cbn [negb]. change (part_ (b <| spent_ := true |>)) with (part_ b).
    change (flow_ (b <| spent_ := true |>)) with (flow_ b). change (security_ (b <| spent_ := true |>)) with (security_ b).
    rewrite Hp, bool_decide_true by done. cbn [negb andb]. rewrite Hacq, Hsec. by rewrite bool_decide_true.
Qed.
End Chains.

(** A socket with one free slot of sixty bytes, remembering what was sent. *)
Definition Demo : Type := list PacketSlot.
Definition demo_writer : PacketSlotWriter :=
  mk_writer (Some address_unset) (Handle_of 0 (Some 0)) {| wr_buf := replicate 60 7; wr_p := 0; wr_r := 60; wr_written := 0 |}.
Definition DemoKernel : SocketKernel Demo := {|
  AcquireKernelWriter s := (inr demo_writer, s);
  FlowModeOf s f := Some RELIABLE_ORDERED;
  AcquireFlowWriter s f := (inr demo_writer, s);
  Sender_Send s h pkt auth := (Ok, s ++ [pkt]);
  DropHandle s h := s |}.

Lemma demo_fresh : fresh_writer 60 demo_writer.
Proof.
  split; [vm_compute; repeat split; discriminate|apply Forall_replicate; unfold is_byte; lia|done|done|done|lia|done].
Qed.

Lemma DemoLaws : @SocketKernelLaws Demo DemoKernel 60.
Proof. split; [intros s w s' [= <- _]|intros s f w s' [= <- _]|done]; apply demo_fresh. Qed.

Definition demo_flow : FlowHandle := mk_flow_handle 0 1 7 8 Ok.
Definition demo_builder : PacketBuilder := WithFlow (Builder_MacOnly (Builder_of true)) demo_flow First.

Lemma builder_refines_layout_witness :
  exists pkt, @chain Demo DemoKernel [] demo_builder [FU16 513; FU8 9] (Some (mk_addr 2 1 [] 0)) true
    = (Ok, demo_builder <| spent_ := true |>, [pkt]) /\
  holds_layout (mk_pkt (mk_addr 2 1 [] 0) 40 (blit (pk_data pkt) (dataSize pkt) (replicate 16 9)))
    (mk_layout false false (Sealed true (replicate 8 0) (Some (replicate 4 0)) 0 (replicate 16 9)) (Some (7, 0, 72)) [1; 2; 9]).
Proof.
  pose proof (@builder_refines_layout Demo DemoKernel 60 DemoLaws [] [] demo_builder demo_writer [FU16 513; FU8 9]
    (mk_addr 2 1 [] 0) true) as H.
  assert (Hr : @ready Demo DemoKernel [] demo_builder).
  { split; [done|]. split; [done|]. split; [done|]. split; [done|]. right. exists RELIABLE_ORDERED. done. }
  specialize (H Hr eq_refl). change (zlen _ <=? 60) with true in H. cbv iota in H.
  destruct H as (pkt&E&Ha&_&Hl). exists pkt. split; [exact E|].
  assert (Es : dataSize pkt = 24).
  { vm_compute in E. injection E as <-. reflexivity. }
  specialize (Hl (replicate 16 9) eq_refl). rewrite Es in *. exact Hl.
Defined.

Lemma builder_errors_witness :
  @chain Demo DemoKernel [] (Builder_Unsecured (Builder_MacOnly (NoFlow (Builder_of false)))) [FU8 1] None true
  = (InvalidParam, Builder_Unsecured (Builder_MacOnly (NoFlow (Builder_of false))), []).
Proof.
  apply (@builder_errors Demo DemoKernel 60 DemoLaws [] (NoFlow (Builder_of false)) [FU8 1] None true); done.
Defined.

(** The framing bits lie over the flow's own byte: the part is the one asked for,
    the mode and the generation stay. *)
Lemma flow_byte_part mode epoch part data :
  0 <= epoch <= FLOW_EPOCH_MASK -> FlowPartAllowed mode part = true ->
  EncodeFlowData mode epoch Whole = Some data -> DecodeFlowData (flow_byte data part) = Some (mode, epoch, part).
Proof.
  intros He Hp Hd. revert Hp Hd. pattern epoch. apply epoch_cases; [done|..];
    destruct mode, part; vm_compute; intros Hp Hd; try discriminate Hp; injection Hd as <-; reflexivity.
Qed.

(** A chain's packet, once sealed, is read back by the accessors of the far side as
    the one message its payload is. *)
Lemma built_content b payload trailer pkt :
  holds_layout pkt (asked b payload trailer) -> layout_ok (asked b payload trailer) ->
  ContentLength pkt = zlen payload /\ IsBatch pkt = false /\ HasFlow pkt = is_some (asked_flow b) /\ SecureChannel pkt = SECURE_CHANNEL_APP.
Proof.
  intros Hh Hok. destruct (held_content pkt _ Hh Hok) as (Hc&_). destruct (held_flags pkt _ Hh) as (_&_&_&Hb&Hf&_).
  destruct (held_head pkt _ Hh Hok) as (Hs&_). split_and!; [done|done|done|].
  rewrite Hs. unfold ly_channel, asked, asked_prot. cbn. by case_bool_decide.
Qed.
