(* ===== verification/OutFlow.v ===== *)
(** * Sending half of a flow: [flux/flow/flow.h], [flux/flow/flow_table.cpp]

    What a flow keeps with one peer: the ring of packets in flight, indexed by
    sequence, the queue of packets that wait, and the two sums the peer is charged,
    bytes in flight and packets outstanding.  Each operation is the part of its
    function that runs under the association's lock; the peer is lent, as in the
    source.  Packet bodies are slots of the staging pool, or of the send pool while
    an unreliable packet waits; both are any [Allocator].  [None] is a pool operation
    that does not return. *)

From S2P Require Import Prelude Wire Keys FlowData SlotPool Rtt Delivery Curve Congestion Peer InFlow Packet.

(** ** Constants *)

Definition CC_PACING_GAIN_PERCENT : Z := 125.
Definition CC_PACING_BURST_BYTES : Z := 2 * MAX_WIRE_PACKET_SIZE.
Definition FLOW_DEATH_ROUNDS : Z := 16.
Definition FLOW_DEATH_MIN_PROBES : Z := 8.
Definition RESENDS_PER_ASSOC_PER_TICK : Z := 16.

(** ** Data *)

Inductive SendAdmission := Sent | Queued | Dropped | Rejected | Dead.

Record InFlightEntry := mk_fly {
  e_sentAt : Z; e_seq : Z; e_slot : Z; e_wireSize : Z; e_retries : Z; e_epoch : Z;
  e_acked : bool; e_lostByAck : bool; e_freeResend : bool }.
#[export] Instance InFlightEntry_eta : Eta InFlightEntry := fun e =>
  mk_fly (e_sentAt e) (e_seq e) (e_slot e) (e_wireSize e) (e_retries e) (e_epoch e) (e_acked e) (e_lostByAck e) (e_freeResend e).
Definition free_entry : InFlightEntry := mk_fly 0 0 INVALID 0 0 0 false false false.
#[export] Instance InFlightEntry_inhabited : Inhabited InFlightEntry := populate free_entry.

Record WaitingEntry := mk_wait { w_since : Z; w_slot : Z; w_wireSize : Z }.
Definition free_waiting : WaitingEntry := mk_wait 0 INVALID 0.
#[export] Instance WaitingEntry_inhabited : Inhabited WaitingEntry := populate free_waiting.

(** The two rings and the batch buffer sit behind the record in its slot. *)
Record OutAssociation := mk_out {
  oa_peerSlot : Z; oa_peerAddr : Address; oa_peerId : BcpId; oa_flowSlot : Z; oa_nextInFlow : Z;
  oa_flowId : Z; oa_mode : FlowMode; oa_flowEpoch : Z; oa_epoch : Z; oa_life : FlowLifecycle; oa_emitting : bool;
  nextSeq : Z; unresolved : Z; lastResolvedMicros : Z; ackBase : Z; inflightCap : Z; waitingCap : Z;
  waitingHead : Z; waitingCount : Z;
  openBatchUsed : Z; openBatchHeader : Z; openBatchCount : Z; openBatchFirstLen : Z; openBatchInFlight : bool;
  InFlight : list InFlightEntry; Waiting : list WaitingEntry; OpenBatch : list Z }.
#[export] Instance OutAssociation_eta : Eta OutAssociation := fun a =>
  mk_out (oa_peerSlot a) (oa_peerAddr a) (oa_peerId a) (oa_flowSlot a) (oa_nextInFlow a) (oa_flowId a) (oa_mode a)
    (oa_flowEpoch a) (oa_epoch a) (oa_life a) (oa_emitting a) (nextSeq a) (unresolved a) (lastResolvedMicros a) (ackBase a)
    (inflightCap a) (waitingCap a) (waitingHead a) (waitingCount a) (openBatchUsed a) (openBatchHeader a) (openBatchCount a)
    (openBatchFirstLen a) (openBatchInFlight a) (InFlight a) (Waiting a) (OpenBatch a).
#[export] Instance CongestionDelta_eta : Eta CongestionDelta := fun d =>
  Build_CongestionDelta (resolvedBytes d) (resolvedPackets d) (ackedBytes d) (rttSampleMicros d) (ackDelayMicros d)
    (sawLoss d) (lostDeclaredBytes d) (lostEpoch d) (sawProbe d).
Definition no_delta : CongestionDelta := Build_CongestionDelta 0 0 0 0 0 false 0 0 false.

Implicit Types (a : OutAssociation) (e : InFlightEntry) (p : Peer) (d : CongestionDelta).

(** The place of a sequence in the ring, and of a waiting packet in its queue. *)
Definition ring_at a (seq : Z) : Z := Z.land seq (inflightCap a - 1).
Definition wait_at a (k : Z) : Z := Z.land k (waitingCap a - 1).

Definition ResetOutAssoc a (peerSlot : Z) (peerAddr : Address) (peerId : option BcpId) (flowId : Z) (mode : FlowMode)
    (flowEpoch inflight waiting now : Z) : OutAssociation :=
  {| oa_peerSlot := peerSlot; oa_peerAddr := peerAddr;
     oa_peerId := match peerId with Some i => i | None => mk_id (replicate 32 0) end;
     oa_flowSlot := INVALID; oa_nextInFlow := INVALID; oa_flowId := flowId; oa_mode := mode; oa_flowEpoch := flowEpoch;
     oa_epoch := u32 (oa_epoch a + 1); oa_life := OPEN; oa_emitting := false;
     nextSeq := 1; unresolved := 0; lastResolvedMicros := now; ackBase := 1; inflightCap := inflight; waitingCap := waiting;
     waitingHead := 0; waitingCount := 0;
     openBatchUsed := 0; openBatchHeader := 0; openBatchCount := 0; openBatchFirstLen := 0; openBatchInFlight := false;
     InFlight := replicate (Z.to_nat inflight) free_entry; Waiting := replicate (Z.to_nat waiting) free_waiting;
     OpenBatch := OpenBatch a |}.

(** ** Pacing *)

Definition RefillPacing p (now : Z) : Peer :=
  let srtt := srttMicros (rtt (p_cc p)) in
  if srtt =? 0 then p
  else if (pacingRefilledAt p =? 0) || (now <? pacingRefilledAt p) then p <| pacingRefilledAt := now |>
  else
    let elapsed := now - pacingRefilledAt p in
    if elapsed =? 0 then p
    else
      let gained := u64 (u64 (congestionBudget (p_cc p) * CC_PACING_GAIN_PERCENT) * elapsed) / u64 (100 * srtt) in
      if gained =? 0 then p
      else
        let topped := u64 (pacingTokens p + gained) in
        p <| pacingTokens := (if CC_PACING_BURST_BYTES <? topped then CC_PACING_BURST_BYTES else topped) |>
          <| pacingRefilledAt := now |>.

Definition PacingAllows p (now wireSize : Z) : bool * Peer :=
  if srttMicros (rtt (p_cc p)) =? 0 then (true, p)
  else let p := RefillPacing p now in (wireSize <=? pacingTokens p, p).

Definition SpendPacing p (wireSize : Z) : Peer :=
  p <| pacingTokens := (if wireSize <? pacingTokens p then pacingTokens p - wireSize else 0) |>.

(** ** The gate *)

Definition CanSend a p (wireSize : Z) (windowed : bool) : bool :=
  if windowed && (inflightCap a <=? unresolved a) then false
  else if congestionBudget (p_cc p) <? u64 (bytesInFlight (p_cc p) + wireSize) then false
  else if negb (theirGrant p =? 0) && (theirGrant p <=? outstandingToPeer (p_cc p)) then false
  else e_seq (InFlight a).[ring_at a (nextSeq a)] =? 0.

(** The bytes of the sequence and the generation, at [field]. *)
Definition stamp_packet (packet : PacketSlot) (seq flowEpoch : Z) : PacketSlot :=
  let field := FlowHeaderOffset packet + WIRE_FLOW_ID_SIZE in
  let data := pk_data packet in
  let data := data.[field <- u8 (Z.shiftr seq 0)] in
  let data := data.[field + 1 <- u8 (Z.shiftr seq 8)] in
  let data := data.[field + 2 <- u8 (Z.shiftr seq 16)] in
  let data := data.[field + 3 <- u8 (Z.shiftr seq 24)] in
  let at_ := field + WIRE_FLOW_SEQ_SIZE in
  let data := data.[at_ <- u8 (Z.lor (Z.land data.[at_] (Z.lnot (Z.shiftl FLOW_EPOCH_MASK 3))) (Z.shiftl flowEpoch 3))] in
  packet <| pk_data := data |>.

Definition after_seq (seq : Z) : Z := let n := u32 (seq + 1) in if n =? 0 then 1 else n.

Definition StampFlowPacket a p (packet : PacketSlot) (stagingSlot wireSize : Z) (flying : bool) (now : Z)
  : OutAssociation * Peer * PacketSlot :=
  let seq := nextSeq a in
  let entry := mk_fly (if flying then now else 0) seq stagingSlot wireSize 0 (congestionEpoch (p_cc p)) false false false in
  let a := a <| InFlight := (InFlight a).[ring_at a seq <- entry] |> <| unresolved := u32 (unresolved a + 1) |> in
  let p := p <| p_cc := (p_cc p) <| bytesInFlight := u32 (bytesInFlight (p_cc p) + wireSize) |> |> in
  let p := SpendPacing p wireSize in
  let p := p <| p_cc := (p_cc p) <| outstandingToPeer := u32 (outstandingToPeer (p_cc p) + 1) |> |> in
  let a := a <| nextSeq := after_seq seq |> in
  (a, p, stamp_packet packet seq (oa_flowEpoch a)).

Definition EnqueueWaiting a (packetSlot wireSize now : Z) : OutAssociation :=
  let at_ := wait_at a (u32 (waitingHead a + waitingCount a)) in
  a <| Waiting := (Waiting a).[at_ <- mk_wait now packetSlot wireSize] |> <| waitingCount := u32 (waitingCount a + 1) |>.

(** Takes the oldest waiting packet off its queue. *)
Definition pop_waiting a : OutAssociation :=
  a <| Waiting := (Waiting a).[wait_at a (waitingHead a) <- free_waiting] |>
    <| waitingHead := u32 (waitingHead a + 1) |> <| waitingCount := u32 (waitingCount a - 1) |>.

Section Pools.
Context {S : Type} `{!Allocator S}.

(** The staging pool and the send pool. *)
Record OutPools := mk_pools { staging : S; sending : S }.
#[export] Instance OutPools_eta : Eta OutPools := fun k => mk_pools (staging k) (sending k).
Implicit Types k : OutPools.

Definition WaitPoolFor (mode : FlowMode) k : S := if bool_decide (mode = UNRELIABLE) then sending k else staging k.
Definition set_wait_pool (mode : FlowMode) k (s : S) : OutPools :=
  if bool_decide (mode = UNRELIABLE) then k <| sending := s |> else k <| staging := s |>.

Definition release_staging k (slot : Z) : option OutPools :=
  if negb (slot =? INVALID) then s ← al_release (staging k) slot; Some (k <| staging := s |>) else Some k.

(** The part of [AdmitOut] under the association's lock. *)
Definition AdmitAssoc a p k (packet : PacketSlot) (flowId packetSlot wireSize : Z) (flying : bool) (now : Z)
  : option (SendAdmission * OutAssociation * Peer * PacketSlot * OutPools) :=
  if negb (bool_decide (oa_life a = OPEN)) || negb (oa_flowId a =? flowId) then Some (Dead, a, p, packet, k)
  else
    let unreliable := bool_decide (oa_mode a = UNRELIABLE) in
    let room := (waitingCount a =? 0) && CanSend a p wireSize (negb unreliable) in
    let '(passes, p) := if room then PacingAllows p now wireSize else (false, p) in
    if passes then
      let '(a, p, packet) := StampFlowPacket a p packet (if unreliable then INVALID else packetSlot) wireSize flying now in
      Some (Sent, a, p, packet, k)
    else if waitingCount a <? waitingCap a then Some (Queued, EnqueueWaiting a packetSlot wireSize now, p, packet, k)
    else if negb unreliable then Some (Rejected, a, p, packet, k)
    else if 0 <? waitingCap a then
      s ← al_release (sending k) (w_slot (Waiting a).[wait_at a (waitingHead a)]);
      Some (Queued, EnqueueWaiting (pop_waiting a) packetSlot wireSize now, p, packet, k <| sending := s |>)
    else Some (Dropped, a, p, packet, k).

(** ** Drains *)

(** One entry of [DrainOutInflight]. *)
Definition drain_entry (i : Z) (st : OutAssociation * Z * Z * OutPools) : option (OutAssociation * Z * Z * OutPools) :=
  let '(a, bytes, packets, k) := st in
  let e := (InFlight a).[i] in
  let '(bytes, packets) :=
    if negb (e_seq e =? 0) && negb (e_acked e) then (u32 (bytes + e_wireSize e), u32 (packets + 1)) else (bytes, packets) in
  k ← release_staging k (e_slot e);
  let e := e <| e_slot := INVALID |> <| e_seq := 0 |> <| e_wireSize := 0 |> <| e_acked := false |> in
  Some (a <| InFlight := (InFlight a).[i <- e] |>, bytes, packets, k).

Definition DrainOutInflight a k : option (OutAssociation * Z * Z * OutPools) :=
  '(a, bytes, packets, k) ← for_upM 0 (Z.to_nat (inflightCap a)) drain_entry (a, 0, 0, k);
  Some (a <| unresolved := 0 |>, bytes, packets, k).

Fixpoint drain_waiting (fuel : nat) a k : option (OutAssociation * OutPools) :=
  match fuel with
  | O => Some (a, k)
  | Datatypes.S fuel' =>
      if 0 <? waitingCount a then
        let oldest := (Waiting a).[wait_at a (waitingHead a)] in
        k ← (if negb (w_slot oldest =? INVALID)
             then s ← al_release (WaitPoolFor (oa_mode a) k) (w_slot oldest); Some (set_wait_pool (oa_mode a) k s)
             else Some k);
        drain_waiting fuel' (pop_waiting a) k
      else Some (a, k)
  end.

Definition DrainOutWaiting a k : option (OutAssociation * OutPools) := drain_waiting (Z.to_nat (waitingCount a)) a k.

(** ** Resolving *)

(** The newest epoch among the losses a delta reports. *)
Definition note_loss d (epoch : Z) : CongestionDelta :=
  let d := if negb (sawLoss d) || (0 <? i8 (epoch - lostEpoch d)) then d <| lostEpoch := epoch |> else d in
  d <| sawLoss := true |>.

Definition ResolveOutEntry a (i : Z) (acked : bool) d k : option (OutAssociation * CongestionDelta * OutPools) :=
  let e := (InFlight a).[i] in
  if (e_seq e =? 0) || e_acked e then Some (a, d, k)
  else
    let d := d <| resolvedBytes := u32 (resolvedBytes d + e_wireSize e) |>
               <| resolvedPackets := u32 (resolvedPackets d + 1) |> in
    let d := if acked then d <| ackedBytes := u32 (ackedBytes d + e_wireSize e) |> else note_loss d (e_epoch e) in
    let a := if 0 <? unresolved a then a <| unresolved := unresolved a - 1 |> else a in
    if acked && IsOrdered (oa_mode a) then
      Some (a <| InFlight := (InFlight a).[i <- e <| e_acked := true |>] |>, d, k)
    else
      k ← release_staging k (e_slot e);
      let e := e <| e_seq := 0 |> <| e_slot := INVALID |> <| e_wireSize := 0 |> <| e_acked := false |> in
      Some (a <| InFlight := (InFlight a).[i <- e] |>, d, k).

Definition refund_attempt a (seq : Z) : OutAssociation :=
  let at_ := ring_at a seq in
  let e := (InFlight a).[at_] in
  if negb (e_seq e =? seq) || e_acked e then a
  else
    let e := if 0 <? e_retries e then e <| e_retries := e_retries e - 1 |> else e in
    a <| InFlight := (InFlight a).[at_ <- e <| e_sentAt := 0 |>] |>.

Definition RefundResendAttempts a (seqs : list Z) : OutAssociation := fold_left refund_attempt seqs a.

(** One entry of [DeclareLostBelow]. *)
Definition declare_entry (largestAcked now lossDelay i : Z) (st : OutAssociation * CongestionDelta) : OutAssociation * CongestionDelta :=
  let '(a, d) := st in
  let e := (InFlight a).[i] in
  if (e_seq e =? 0) || e_acked e || e_lostByAck e then (a, d)
  else if i32 (largestAcked - e_seq e) <=? 0 then (a, d)
  else
    let farBehind := LOSS_PACKET_THRESHOLD <=? i32 (largestAcked - e_seq e) in
    let longOverdue := negb (e_sentAt e =? 0) && (lossDelay <? Elapsed now (e_sentAt e)) in
    if negb farBehind && negb longOverdue then (a, d)
    else
      let e' := e <| e_lostByAck := true |> <| e_freeResend := true |> <| e_sentAt := 0 |> in
      (a <| InFlight := (InFlight a).[i <- e'] |>,
       note_loss (d <| lostDeclaredBytes := u32 (lostDeclaredBytes d + e_wireSize e) |>) (e_epoch e)).

Definition DeclareLostBelow a (largestAcked now lossDelay : Z) d : OutAssociation * CongestionDelta :=
  if bool_decide (oa_mode a = UNRELIABLE) then (a, d)
  else for_up 0 (Z.to_nat (inflightCap a)) (declare_entry largestAcked now lossDelay) (a, d).

Fixpoint release_run (steps : nat) a (remoteRecvNext : Z) k : option (OutAssociation * OutPools) :=
  if negb (ackBase a =? nextSeq a) && (ackBase a <? remoteRecvNext) then
    match steps with
    | O => Some (a, k)
    | Datatypes.S steps' =>
        let at_ := ring_at a (ackBase a) in
        let e := (InFlight a).[at_] in
        if (e_seq e =? ackBase a) && negb (e_acked e) then Some (a, k)
        else
          '(a, k) ← (if e_seq e =? ackBase a
                     then k ← release_staging k (e_slot e);
                          let e := e <| e_seq := 0 |> <| e_slot := INVALID |> <| e_wireSize := 0 |> <| e_retries := 0 |>
                                     <| e_sentAt := 0 |> <| e_acked := false |> <| e_lostByAck := false |> <| e_freeResend := false |> in
                          Some (a <| InFlight := (InFlight a).[at_ <- e] |>, k)
                     else Some (a, k));
          release_run steps' (a <| ackBase := after_seq (ackBase a) |>) remoteRecvNext k
    end
  else Some (a, k).

Definition ReleaseAckedRun a (remoteRecvNext : Z) k : option (OutAssociation * OutPools) :=
  release_run (Z.to_nat (inflightCap a)) a remoteRecvNext k.

(** ** Acknowledgements *)

(** The locals of [ApplyAckRanges]'s scan. *)
Record AckScan := mk_scan {
  as_out : OutAssociation; as_pools : OutPools; as_delta : CongestionDelta; largestAcked : Z; anyAcked : bool;
  sampleSeq : Z; sampleSentAt : Z; sampleResent : bool; haveSample : bool }.
#[export] Instance AckScan_eta : Eta AckScan := fun s =>
  mk_scan (as_out s) (as_pools s) (as_delta s) (largestAcked s) (anyAcked s) (sampleSeq s) (sampleSentAt s) (sampleResent s) (haveSample s).

Definition scan_entry (remoteRecvNext : Z) (ranges : list AckRange) (i : Z) (s : AckScan) : option AckScan :=
  let e := (InFlight (as_out s)).[i] in
  if e_seq e =? 0 then Some s
  else if (e_seq e <? remoteRecvNext) || SeqInRanges (e_seq e) ranges then
    let s := if negb (anyAcked s) || (0 <? i32 (e_seq e - largestAcked s))
             then s <| largestAcked := e_seq e |> <| anyAcked := true |> else s in
    let s := if negb (e_acked e) && (negb (haveSample s) || (0 <? i32 (e_seq e - sampleSeq s)))
             then s <| sampleSeq := e_seq e |> <| sampleSentAt := e_sentAt e |>
                    <| sampleResent := negb (e_retries e =? 0) || e_lostByAck e |> <| haveSample := true |> else s in
    '(a, d, k) ← ResolveOutEntry (as_out s) i true (as_delta s) (as_pools s);
    Some (s <| as_out := a |> <| as_delta := d |> <| as_pools := k |>)
  else Some s.

(** The one round-trip sample of an acknowledgement. *)
Definition ack_sample (s : AckScan) (remoteAckDelay now : Z) : CongestionDelta :=
  let d := as_delta s in
  if haveSample s && negb (sampleResent s) && negb (sampleSentAt s =? 0) && (sampleSentAt s <=? now) then
    let sample := now - sampleSentAt s in
    let sample := if remoteAckDelay <? sample then sample - remoteAckDelay else sample in
    d <| rttSampleMicros := (if UINT32_MAX <? sample then UINT32_MAX else sample) |> <| ackDelayMicros := remoteAckDelay |>
  else d.

(** The part of [ApplyAckRanges] under the association's lock; [lossDelay] is the
    peer's [LossDelayMicros]. *)
Definition ApplyAck a (flowId flowEpoch remoteRecvNext remoteAckDelay : Z) (ranges : list AckRange) (now lossDelay : Z) d k
  : option (OutAssociation * CongestionDelta * OutPools) :=
  if negb (oa_flowId a =? flowId) || negb (oa_flowEpoch a =? flowEpoch) then Some (a, d, k)
  else
    s ← for_upM 0 (Z.to_nat (inflightCap a)) (scan_entry remoteRecvNext ranges) (mk_scan a k d 0 false 0 0 false false);
    let d := ack_sample s remoteAckDelay now in
    let '(a, d) :=
      if anyAcked s then DeclareLostBelow ((as_out s) <| lastResolvedMicros := now |>) (largestAcked s) now lossDelay d
      else (as_out s, d) in
    '(a, k) ← ReleaseAckedRun a remoteRecvNext (as_pools s);
    Some (a, d, k).
End Pools.
Arguments OutPools : clear implicits.
Arguments AckScan : clear implicits.
