(* ===== verification/OutRetransmit.v ===== *)
(** * Sending half of a flow: retransmission, the waiting queue's drain, teardown

    The scan that resends overdue packets and judges a silent target dead, the peek
    and claim that let the oldest waiting packet go, and the two ways an association
    ends, of [flux/flow/flow_table.cpp], each as the part under the association's
    lock. *)

From S2P Require Import Prelude Wire Keys FlowData SlotPool Rtt Delivery Curve Congestion Peer InFlow Packet OutFlow.

(** What the table was configured with. *)
Record FlowConfig := mk_flow_config { retryIntervalMicros : Z; flowAckDelayMicros : Z; flowStallTimeout : Z }.

Implicit Types (a : OutAssociation) (e : InFlightEntry) (p : Peer) (d : CongestionDelta) (f : FlowConfig).

(** ** Retransmission *)

(** The deadline of the association, the interval of its probes. *)
Definition death_bound f p : Z :=
  let base := RetransmitTimeout (rtt (p_cc p)) (retryIntervalMicros f) (flowAckDelayMicros f) 0 in
  let deathBound := u64 (FLOW_DEATH_ROUNDS * base) in
  if deathBound <? retryIntervalMicros f then retryIntervalMicros f else deathBound.

Definition probe_interval f p (now : Z) : Z :=
  let base := RetransmitTimeout (rtt (p_cc p)) (retryIntervalMicros f) (flowAckDelayMicros f) 0 in
  let probeCap := death_bound f p / FLOW_DEATH_MIN_PROBES in
  let probeCap := if probeCap <? base then base else probeCap in
  let rto := RetransmitTimeout (rtt (p_cc p)) (retryIntervalMicros f) (flowAckDelayMicros f) now in
  if probeCap <? rto then probeCap else rto.

Section Retransmit.
Context {S : Type} `{!Allocator S}.
Implicit Types k : OutPools S.

(** The locals of the scan: the resends are (sequence, slot), in order. *)
Record Rescan := mk_rescan {
  rs_out : OutAssociation; rs_peer : Peer; rs_delta : CongestionDelta; rs_pools : OutPools S; resends : list (Z * Z) }.
#[export] Instance Rescan_eta : Eta Rescan := fun s =>
  mk_rescan (rs_out s) (rs_peer s) (rs_delta s) (rs_pools s) (resends s).

(** A slot to resend, room in this tick, and the clock's leave. *)
Definition may_resend (s : Rescan) (e : InFlightEntry) (now : Z) : bool * Peer :=
  if negb (e_slot e =? INVALID) && (zlen (resends s) <? RESENDS_PER_ASSOC_PER_TICK)
  then PacingAllows (rs_peer s) now (e_wireSize e) else (false, rs_peer s).

Definition rescan_entry f (now rto i : Z) (s : Rescan) : option Rescan :=
  let a := rs_out s in
  let e := (InFlight a).[i] in
  if e_seq e =? 0 then Some s
  else if e_acked e then
    if (e_sentAt e =? 0) || (Elapsed now (e_sentAt e) <? flowStallTimeout f) then Some s
    else
      let '(ok, p) := may_resend s e now in
      let s := s <| rs_peer := p |> in
      if ok then
        Some (s <| rs_peer := SpendPacing (rs_peer s) (e_wireSize e) |> <| resends := resends s ++ [(e_seq e, e_slot e)] |>
                <| rs_out := a <| InFlight := (InFlight a).[i <- e <| e_sentAt := now |>] |> |>)
      else Some s
  else if Elapsed now (e_sentAt e) <? rto then Some s
  else if bool_decide (oa_mode a = UNRELIABLE) then
    '(a, d, k) ← ResolveOutEntry a i false (rs_delta s) (rs_pools s);
    Some (s <| rs_out := a |> <| rs_delta := d |> <| rs_pools := k |>)
  else
    let '(ok, p) := may_resend s e now in
    let s := s <| rs_peer := p |> in
    if ok then
      let s := s <| rs_delta := (rs_delta s) <| sawProbe := true |> |> in
      let s := s <| rs_peer := SpendPacing (rs_peer s) (e_wireSize e) |> <| resends := resends s ++ [(e_seq e, e_slot e)] |> in
      let e := e <| e_sentAt := now |> in
      let e := if e_freeResend e then e <| e_freeResend := false |>
               else if e_retries e <? 255 then e <| e_retries := e_retries e + 1 |> else e in
      Some (s <| rs_out := a <| InFlight := (InFlight a).[i <- e] |> |>)
    else Some s.

(** The scan, and whether the association is dead. *)
Definition RetransmitInflight f a p (now : Z) d k : option (bool * Rescan) :=
  let s := mk_rescan a p d k [] in
  if (0 <? unresolved a) && (death_bound f p <? Elapsed now (lastResolvedMicros a)) then Some (true, s)
  else s ← for_upM 0 (Z.to_nat (inflightCap a)) (rescan_entry f now (probe_interval f p now)) s; Some (false, s).

(** The flow's id, the verdict, the scan. *)
Definition RetransmitPass f a p (now : Z) d k : option (Z * bool * Rescan) :=
  match oa_life a with
  | OPEN => '(dead, s) ← RetransmitInflight f a p now d k; Some (oa_flowId a, dead, s)
  | _ => Some (oa_flowId a, false, mk_rescan a p d k [])
  end.

(** What the caller of the scan does with its report, when it is not dead: the
    controller hears of it when something resolved, was lost or goes out. *)
Definition scan_report (c : CcConfig) (s : Rescan) (now : Z) : Peer :=
  let d := rs_delta s in
  let hasDelta := negb (resolvedBytes d =? 0) || sawLoss d in
  if negb hasDelta && (zlen (resends s) =? 0) then rs_peer s
  else (rs_peer s) <| p_cc := ApplyCongestion c (p_cc (rs_peer s)) d now |>.

Definition ResendStillValid a (expectedSeq stagingSlot : Z) : bool :=
  if bool_decide (oa_life a = OPEN) then
    let e := (InFlight a).[ring_at a expectedSeq] in (e_seq e =? expectedSeq) && (e_slot e =? stagingSlot)
  else false.

(** ** The waiting queue's drain *)

Definition WouldAdmit a p (wireSize : Z) : bool :=
  bool_decide (oa_life a = OPEN) && (waitingCount a =? 0)
  && CanSend a p wireSize (negb (bool_decide (oa_mode a = UNRELIABLE))).

Record WaitingCandidate := mk_candidate { wc_assoc : Z; wc_packet : Z; wc_epoch : Z; wc_mode : FlowMode }.
#[export] Instance WaitingCandidate_eta : Eta WaitingCandidate := fun c =>
  mk_candidate (wc_assoc c) (wc_packet c) (wc_epoch c) (wc_mode c).
Definition no_candidate : WaitingCandidate := mk_candidate INVALID INVALID 0 RELIABLE_ORDERED.

(** [PeekWaiting] over the associations a peer's strip lists, in its order, free
    entries as [INVALID]; [assocs] is the pool's memory. *)
Definition peek_entry (assocs : list OutAssociation) p (st : WaitingCandidate * Z) (slot : Z) : WaitingCandidate * Z :=
  let '(out, oldestSince) := st in
  if slot =? INVALID then (out, oldestSince)
  else
    let a := nth (Z.to_nat slot) assocs (mk_out 0 (mk_addr 0 0 [] 0) (mk_id []) 0 0 0 RELIABLE_ORDERED 0 0 CLOSED false 0 0 0 0 0 0 0 0 0 0 0 0 false [] [] []) in
    if bool_decide (oa_life a = OPEN) && (0 <? waitingCount a) then
      let head := (Waiting a).[wait_at a (waitingHead a)] in
      if CanSend a p (w_wireSize head) (negb (bool_decide (oa_mode a = UNRELIABLE)))
         && ((wc_assoc out =? INVALID) || (w_since head <? oldestSince))
      then (mk_candidate slot (w_slot head) (oa_epoch a) (oa_mode a), w_since head)
      else (out, oldestSince)
    else (out, oldestSince).

Definition PeekWaiting (assocs : list OutAssociation) (dir : list Z) p : bool * WaitingCandidate :=
  let '(out, _) := fold_left (peek_entry assocs p) dir (no_candidate, 0) in (negb (wc_assoc out =? INVALID), out).

Definition ClaimWaiting (c : WaitingCandidate) a p (packet : PacketSlot) (now : Z) : bool * OutAssociation * Peer * PacketSlot :=
  if (oa_epoch a =? wc_epoch c) && bool_decide (oa_life a = OPEN) && (0 <? waitingCount a) then
    let head := (Waiting a).[wait_at a (waitingHead a)] in
    if (w_slot head =? wc_packet c) && CanSend a p (w_wireSize head) (negb (bool_decide (oa_mode a = UNRELIABLE))) then
      let '(ok, p) := PacingAllows p now (w_wireSize head) in
      if ok then
        let '(a, p, packet) :=
          StampFlowPacket (pop_waiting a) p packet
            (if bool_decide (wc_mode c = UNRELIABLE) then INVALID else wc_packet c) (w_wireSize head) true now in
        (true, a, p, packet)
      else (false, a, p, packet)
    else (false, a, p, packet)
  else (false, a, p, packet).

(** ** Teardown *)

Definition refund p (bytes packets : Z) : Peer :=
  let cc := p_cc p in
  let cc := cc <| bytesInFlight := bytesInFlight cc - (if bytes <=? bytesInFlight cc then bytes else bytesInFlight cc) |> in
  let cc := cc <| outstandingToPeer :=
                    outstandingToPeer cc - (if packets <=? outstandingToPeer cc then packets else outstandingToPeer cc) |> in
  p <| p_cc := cc |>.

(** [FreeAssoc] once the association is off its flow's list: the association, the
    peer it refunds, and whether the slot's lease ends now. *)
Definition FreeAssocBody a (refundTo : option Peer) k : option (OutAssociation * option Peer * bool * OutPools S) :=
  '(a, drained, packets, k) ← DrainOutInflight a k;
  '(a, k) ← DrainOutWaiting a k;
  let a := a <| oa_life := CLOSED |> in
  Some (a, (fun p => refund p drained packets) <$> refundTo, negb (oa_emitting a), k).

Definition FailAssoc a (flowId : Z) (refundTo : option Peer) k : option (bool * OutAssociation * option Peer * OutPools S) :=
  if (oa_flowId a =? flowId) && negb (bool_decide (oa_life a = CLOSED)) && negb (bool_decide (oa_life a = FAILED)) then
    '(a, drained, packets, k) ← DrainOutInflight a k;
    '(a, k) ← DrainOutWaiting a k;
    Some (true, a <| oa_life := FAILED |>,
          (if negb (drained =? 0) then (fun p => refund p drained packets) <$> refundTo else refundTo), k)
  else Some (false, a, refundTo, k).
End Retransmit.
Arguments Rescan : clear implicits.
