(* ===== verification/OutInvariant.v ===== *)
(** * Sending half of a flow: the invariant

    The ring holds every sequence in its place, the counter is the number of
    unacknowledged entries, every retained copy and every waiting packet is a slot the
    association owns alone, and an ordered association keeps a copy of everything
    between its base and its next sequence.  Each operation keeps that, never waits
    on a pool, and accounts for every byte and packet it stops charging the peer. *)

From S2P Require Import Prelude Wire Keys FlowData SlotPool Rtt Delivery Curve Congestion Peer InFlow Packet OutFlow OutRetransmit.

Implicit Types (a : OutAssociation) (e : InFlightEntry) (p : Peer) (d : CongestionDelta).

(** ** What the rings hold *)

Definition pend e : bool := negb (e_seq e =? 0) && negb (e_acked e).
Definition pend_bytes a : Z := zsum (fun e => if pend e then e_wireSize e else 0) (InFlight a).
Definition pend_count a : Z := zsum (fun e => if pend e then 1 else 0) (InFlight a).
Definition slot_of (slot : Z) : list Z := if slot =? INVALID then [] else [slot].
Definition ring_slots a : list Z := concat (map (fun e => slot_of (e_slot e)) (InFlight a)).
Definition waiting_list a : list WaitingEntry :=
  map (fun j => (Waiting a).[wait_at a (u32 (waitingHead a + Z.of_nat j))]) (seq 0 (Z.to_nat (waitingCount a))).
Definition wait_slots a : list Z := map w_slot (waiting_list a).
Definition unreliable a : bool := bool_decide (oa_mode a = UNRELIABLE).

(** What resolving makes of an entry. *)
Definition after_resolve (mode : FlowMode) (acked : bool) e : InFlightEntry :=
  if pend e then
    if acked && IsOrdered mode then e <| e_acked := true |>
    else e <| e_seq := 0 |> <| e_slot := INVALID |> <| e_wireSize := 0 |> <| e_acked := false |>
  else e.

Lemma pend_after_resolve mode acked e : pend (after_resolve mode acked e) = false.
Proof. unfold after_resolve. destruct (pend e) eqn:E; [|done]. destruct (_ && _); [|done]. unfold pend. cbn. by rewrite andb_false_r. Qed.

(** ** Shape *)

(** A packet on the wire has a header. *)
Abbreviation is_wire x := (1 <= x < 2 ^ 16).

Record entry_ok (mode : FlowMode) (cap base next i : Z) (e : InFlightEntry) : Prop := {
  eo_free : e_seq e = 0 -> e_slot e = INVALID;
  eo_live : e_seq e <> 0 ->
    base <= e_seq e < next /\ next <= e_seq e + cap /\ e_seq e mod cap = i /\ is_wire (e_wireSize e) /\
    (e_slot e = INVALID <-> mode = UNRELIABLE) /\ (e_acked e = true -> IsOrdered mode = true) }.

Record shape_ok (w : Z) a : Prop := {
  so_cap : inflightCap a = 2 ^ w; so_ring : zlen (InFlight a) = 2 ^ w;
  so_next : 1 <= ackBase a <= nextSeq a /\ is_u32 (nextSeq a);
  so_entry : forall i, 0 <= i < 2 ^ w -> entry_ok (oa_mode a) (2 ^ w) (ackBase a) (nextSeq a) i (InFlight a).[i];
  so_count : unresolved a = pend_count a;
  so_full : IsOrdered (oa_mode a) = true -> forall s, ackBase a <= s < nextSeq a -> e_seq (InFlight a).[s mod 2 ^ w] = s;
  so_wcap : waitingCap a = 0 \/ exists v, 0 <= v <= 15 /\ waitingCap a = 2 ^ v;
  so_wlen : zlen (Waiting a) = waitingCap a;
  so_wait : 0 <= waitingCount a <= waitingCap a /\ is_u32 (waitingHead a);
  so_sizes : Forall (fun x => is_wire (w_wireSize x)) (waiting_list a) }.

(** Everything an operation on the ring leaves alone. *)
Definition frame a a' : Prop :=
  (oa_mode a' = oa_mode a /\ inflightCap a' = inflightCap a /\ waitingCap a' = waitingCap a) /\
  (nextSeq a' = nextSeq a /\ ackBase a' = ackBase a) /\
  (Waiting a' = Waiting a /\ waitingHead a' = waitingHead a /\ waitingCount a' = waitingCount a).

Lemma frame_refl a : frame a a.
Proof. by repeat split. Qed.
Lemma frame_trans a1 a2 a3 : frame a1 a2 -> frame a2 a3 -> frame a1 a3.
Proof. unfold frame. intros ((->&->&->)&(->&->)&(->&->&->)) H. exact H. Qed.

Lemma frame_waiting a a' : frame a a' -> waiting_list a' = waiting_list a.
Proof. unfold frame, waiting_list, wait_at. by intros ((_&_&->)&_&(->&->&->)). Qed.

Section Shape.
Context (w : Z) (Hw : 6 <= w <= 15).
Abbreviation N := (2 ^ w).

Lemma N_range : 64 <= N <= 2 ^ 15.
Proof using Hw. split; [change 64 with (2 ^ 6)|]; apply Z.pow_le_mono_r; lia. Qed.

Lemma ring_at_mod a s : inflightCap a = N -> ring_at a s = s mod N.
Proof using Hw. intros E. unfold ring_at. rewrite E. apply land_mask. lia. Qed.

Lemma ring_at_range a s : inflightCap a = N -> 0 <= ring_at a s < N.
Proof using Hw. intros E. rewrite ring_at_mod by done. pose proof N_range. apply Z.mod_pos_bound. lia. Qed.

Lemma pend_bytes_set a a' i e :
  shape_ok w a -> 0 <= i < N -> InFlight a' = (InFlight a).[i <- e] ->
  pend_bytes a' = pend_bytes a - (if pend (InFlight a).[i] then e_wireSize (InFlight a).[i] else 0) + (if pend e then e_wireSize e else 0).
Proof using. intros Ha Hi E. unfold pend_bytes. rewrite E, zsum_set; [done|]. rewrite (so_ring _ _ Ha). done. Qed.

Lemma pend_count_set a a' i e :
  shape_ok w a -> 0 <= i < N -> InFlight a' = (InFlight a).[i <- e] ->
  pend_count a' = pend_count a - (if pend (InFlight a).[i] then 1 else 0) + (if pend e then 1 else 0).
Proof using. intros Ha Hi E. unfold pend_count. rewrite E, zsum_set; [done|]. rewrite (so_ring _ _ Ha). done. Qed.

Lemma ring_slots_set a a' i e :
  shape_ok w a -> 0 <= i < N -> InFlight a' = (InFlight a).[i <- e] ->
  slot_of (e_slot (InFlight a).[i]) ++ ring_slots a' ≡ₚ slot_of (e_slot e) ++ ring_slots a.
Proof using.
  intros Ha Hi E. unfold ring_slots. rewrite E.
  apply (concat_map_set (fun e => slot_of (e_slot e))). by rewrite (so_ring _ _ Ha).
Qed.

(** What is charged stays within what the sums can count. *)
Lemma pend_bounds a : shape_ok w a -> 0 <= pend_count a <= N /\ 0 <= pend_bytes a <= UINT16_MAX * N.
Proof using Hw.
  intros Ha. pose proof N_range.
  assert (He : forall e, e ∈ InFlight a -> pend e = true -> is_wire (e_wireSize e)).
  { intros e He Hp. apply list_elem_of_arr in He as (i&Hi&<-). rewrite (so_ring _ _ Ha) in Hi.
    destruct (so_entry _ _ Ha i Hi) as [_ Hl]. unfold pend in Hp. bprop. destruct (Hl ltac:(done)) as (_&_&_&?&_). done. }
  unfold pend_count, pend_bytes. rewrite <- (so_ring _ _ Ha). split; split.
  - apply zsum_nonneg. intros e _. destruct (pend e); lia.
  - rewrite <- (Z.mul_1_l (zlen _)). apply zsum_bound. intros e _. destruct (pend e); lia.
  - apply zsum_nonneg. intros e Hin. destruct (pend e) eqn:Ep; [|lia]. specialize (He e Hin Ep). lia.
  - apply zsum_bound. intros e Hin. unfold UINT16_MAX. destruct (pend e) eqn:Ep; [|lia]. specialize (He e Hin Ep). lia.
Qed.

Lemma pend_count_bytes a : shape_ok w a -> pend_count a <= pend_bytes a.
Proof using.
  intros Ha. unfold pend_count, pend_bytes. apply zsum_mono. intros e He. destruct (pend e) eqn:Hp; [|lia].
  apply list_elem_of_arr in He as (i&Hi&<-). rewrite (so_ring _ _ Ha) in Hi. destruct (so_entry _ _ Ha i Hi) as [_ Hl].
  unfold pend in Hp. bprop. destruct (Hl ltac:(done)) as (_&_&_&?&_). lia.
Qed.

(** One entry changes in place. *)
Lemma shape_set a a' i e :
  shape_ok w a -> 0 <= i < N -> frame a a' -> InFlight a' = (InFlight a).[i <- e] ->
  entry_ok (oa_mode a) N (ackBase a) (nextSeq a) i e ->
  unresolved a' = unresolved a - (if pend (InFlight a).[i] then 1 else 0) + (if pend e then 1 else 0) ->
  (IsOrdered (oa_mode a) = true -> e_seq (InFlight a).[i] <> 0 -> e_seq e = e_seq (InFlight a).[i]) ->
  shape_ok w a'.
Proof using Hw.
  intros Ha Hi ((E1&E2&E3)&(E4&E5)&(E6&E7&E8)) El He Hu Hord. pose proof N_range. pose proof Ha as [Hc Hr Hn Hen Hcnt Hf Hwc Hwl Hwt Hsz].
  assert (Hsz' : Forall (fun x => is_wire (w_wireSize x)) (waiting_list a')) by (rewrite (frame_waiting a a'); [done|by repeat split]).
  split; rewrite ?E1, ?E2, ?E3, ?E4, ?E5, ?E6, ?E7, ?E8; try done.
  - by rewrite El, zlen_set.
  - intros j Hj. rewrite El, arr_get_set by lia. destruct (Z.eqb_spec i j) as [<-|]; [done|]. by apply Hen.
  - rewrite Hu, Hcnt. symmetry. by apply pend_count_set.
  - intros Ho s Hs. specialize (Hf Ho s Hs). pose proof (Z.mod_pos_bound s N ltac:(lia)).
    rewrite El, arr_get_set by lia. destruct (Z.eqb_spec i (s mod N)) as [->|]; [|done].
    rewrite Hord; [done|done|]. rewrite Hf. lia.
Qed.

(** Fields outside the shape. *)
Lemma shape_frame a a' : shape_ok w a -> frame a a' -> InFlight a' = InFlight a -> unresolved a' = unresolved a -> shape_ok w a'.
Proof using.
  intros [Hc Hr Hn Hen Hcnt Hf Hwc Hwl Hwt Hsz] ((E1&E2&E3)&(E4&E5)&(E6&E7&E8)) El Eu.
  assert (Hsz' : Forall (fun x => is_wire (w_wireSize x)) (waiting_list a')) by (rewrite (frame_waiting a a'); [done|by repeat split]).
  split; rewrite ?E1, ?E2, ?E3, ?E4, ?E5, ?E6, ?E7, ?E8, ?El; try done. rewrite Eu, Hcnt. unfold pend_count. by rewrite El.
Qed.
End Shape.

(** ** Who owns the slots *)

Section Pools.
Context {S : Type} `{!Allocator S} (w ns nd : Z) (Hw : 6 <= w <= 15).
Implicit Types (k : OutPools S).
Abbreviation N := (2 ^ w).

(** [Fs] and [Fd] are the slots out of the two pools that are not this
    association's. *)
Record out_ok a k (Fs Fd : list Z) : Prop := {
  oo_shape : shape_ok w a;
  oo_staging : al_owns (staging k) ns (ring_slots a ++ (if unreliable a then [] else wait_slots a) ++ Fs);
  oo_sending : al_owns (sending k) nd ((if unreliable a then wait_slots a else []) ++ Fd) }.

(** What a delta reports and what the ring still charges add up to [tb] bytes and
    [tp] packets. *)
Record acct a d (tb tp : Z) : Prop := {
  ac_bytes : resolvedBytes d + pend_bytes a = tb; ac_packets : resolvedPackets d + pend_count a = tp;
  ac_range : 0 <= resolvedBytes d /\ 0 <= resolvedPackets d /\ tb <= UINT32_MAX /\ tp <= UINT32_MAX;
  ac_acked : 0 <= ackedBytes d <= resolvedBytes d /\ resolvedPackets d <= resolvedBytes d }.

Lemma release_staging_ok k slot l :
  al_owns (staging k) ns (slot_of slot ++ l) ->
  exists k', release_staging k slot = Some k' /\ al_owns (staging k') ns l /\ sending k' = sending k.
Proof using.
  unfold release_staging, slot_of. destruct (Z.eqb_spec slot INVALID); cbn [negb app]; intros Ho; [by exists k|].
  destruct (al_release_ok _ _ _ _ Ho) as (s'&->&?). cbn [mbind option_bind]. by eexists.
Qed.

(** A slot in use is never the invalid one. *)
Lemma owned_valid (s : S) (n : Z) l x : al_owns s n l -> x ∈ l -> x <> INVALID.
Proof using.
  intros Ho Hx. destruct (al_held _ _ _ Ho) as (_&_&Hr&Hn). rewrite Forall_forall in Hr. specialize (Hr x Hx).
  unfold INVALID, UINT32_MAX. lia.
Qed.

Lemma out_frame a a' k Fs Fd :
  out_ok a k Fs Fd -> frame a a' -> InFlight a' = InFlight a -> unresolved a' = unresolved a -> out_ok a' k Fs Fd.
Proof using.
  intros [Hs Ho1 Ho2] Hfr El Eu. pose proof (frame_waiting _ _ Hfr) as Ew.
  assert (Em : unreliable a' = unreliable a) by (unfold unreliable; by destruct Hfr as ((->&_)&_)).
  split; [by eapply shape_frame|..]; unfold wait_slots, ring_slots in *; by rewrite ?Em, ?Ew, ?El.
Qed.

(** One entry changes in place, and the staging pool with it. *)
Lemma out_set a a' k k' Fs Fd i e :
  out_ok a k Fs Fd -> 0 <= i < N -> frame a a' -> InFlight a' = (InFlight a).[i <- e] ->
  entry_ok (oa_mode a) N (ackBase a) (nextSeq a) i e ->
  unresolved a' = unresolved a - (if pend (InFlight a).[i] then 1 else 0) + (if pend e then 1 else 0) ->
  (IsOrdered (oa_mode a) = true -> e_seq (InFlight a).[i] <> 0 -> e_seq e = e_seq (InFlight a).[i]) ->
  sending k' = sending k ->
  (forall l, al_owns (staging k) ns (slot_of (e_slot (InFlight a).[i]) ++ l) -> al_owns (staging k') ns (slot_of (e_slot e) ++ l)) ->
  out_ok a' k' Fs Fd.
Proof using Hw.
  intros [Hs Ho1 Ho2] Hi Hfr El He Hu Hord Hsend Hst. pose proof (frame_waiting _ _ Hfr) as Ew.
  assert (Em : unreliable a' = unreliable a) by (unfold unreliable; by destruct Hfr as ((->&_)&_)).
  split; [by eapply shape_set| |].
  - unfold wait_slots in *. rewrite Em, Ew. set (rest := (if unreliable a then [] else map w_slot (waiting_list a)) ++ Fs) in *.
    pose proof (ring_slots_set w a a' i e Hs Hi El) as HP.
    (* the ring without this entry's slot *)
    assert (Hin : (InFlight a) !! Z.to_nat i = Some (InFlight a).[i]).
    { unfold arr_get. apply list_lookup_lookup_total_lt. pose proof (so_ring _ _ Hs) as Hz. unfold zlen in Hz. lia. }
    set (f := fun e => slot_of (e_slot e)).
    assert (E1 : ring_slots a ≡ₚ f (InFlight a).[i] ++ concat (map f (delete (Z.to_nat i) (InFlight a)))) by (by apply concat_map_lookup).
    assert (E2 : ring_slots a' ≡ₚ f e ++ concat (map f (delete (Z.to_nat i) (InFlight a)))).
    { unfold ring_slots. rewrite El. by apply concat_map_insert with (x := (InFlight a).[i]). }
    eapply al_perm; [|apply (Hst (concat (map f (delete (Z.to_nat i) (InFlight a))) ++ rest))].
    + rewrite E2. by rewrite app_assoc.
    + eapply al_perm; [|exact Ho1]. rewrite E1. by rewrite app_assoc.
  - unfold wait_slots in *. by rewrite Hsend, Em, Ew.
Qed.

(** The entry an operation finds. *)
Lemma out_entry_at a k Fs Fd i : out_ok a k Fs Fd -> 0 <= i < N -> entry_ok (oa_mode a) N (ackBase a) (nextSeq a) i (InFlight a).[i].
Proof using. intros Ho Hi. by apply (so_entry _ _ (oo_shape _ _ _ _ Ho)). Qed.

Lemma note_loss_sums d epoch :
  resolvedBytes (note_loss d epoch) = resolvedBytes d /\ resolvedPackets (note_loss d epoch) = resolvedPackets d /\
  ackedBytes (note_loss d epoch) = ackedBytes d.
Proof using. unfold note_loss. by destruct (negb (sawLoss d) || _). Qed.

(** An entry that is charged is part of the sums. *)
Lemma pend_entry a i :
  shape_ok w a -> 0 <= i < N -> pend (InFlight a).[i] = true ->
  1 <= pend_count a /\ e_wireSize (InFlight a).[i] <= pend_bytes a.
Proof using Hw.
  intros Hs Hi Ep. pose proof (so_ring _ _ Hs) as Hlen. set (l := (InFlight a).[i <- free_entry]).
  pose proof (zsum_set (fun e => if pend e then 1 else 0) (InFlight a) i free_entry ltac:(lia)) as E1.
  pose proof (zsum_set (fun e => if pend e then e_wireSize e else 0) (InFlight a) i free_entry ltac:(lia)) as E2.
  cbv beta in E1, E2. rewrite Ep in E1, E2. change (pend free_entry) with false in E1, E2. cbv iota in E1, E2.
  assert (H1 : 0 <= zsum (fun e => if pend e then 1 else 0) l) by (apply zsum_nonneg; intros e _; destruct (pend e); lia).
  assert (H2 : 0 <= zsum (fun e => if pend e then e_wireSize e else 0) l).
  { apply zsum_nonneg. intros e He. apply list_elem_of_arr in He as (j&Hj&<-). subst l. rewrite zlen_set in Hj.
    rewrite arr_get_set by lia. destruct (Z.eqb_spec i j) as [<-|]; [done|].
    destruct (pend (InFlight a).[j]) eqn:Ej; [|lia]. destruct (so_entry _ _ Hs j ltac:(lia)) as [_ Hlj].
    unfold pend in Ej. bprop. destruct (Hlj ltac:(done)) as (_&_&_&?&_). lia. }
  subst l. unfold pend_count, pend_bytes. lia.
Qed.

(** The slot of an entry can go back, and does so the same way whatever else is out. *)
Lemma set_slot_release a k Fs Fd i :
  out_ok a k Fs Fd -> 0 <= i < N ->
  exists k', release_staging k (e_slot (InFlight a).[i]) = Some k' /\ sending k' = sending k /\
    forall l, al_owns (staging k) ns (slot_of (e_slot (InFlight a).[i]) ++ l) -> al_owns (staging k') ns l.
Proof using Hw.
  intros Ho Hi. pose proof (oo_staging _ _ _ _ Ho) as Ho1. pose proof (so_ring _ _ (oo_shape _ _ _ _ Ho)) as Hlen.
  set (f := fun e => slot_of (e_slot e)).
  assert (Hin : (InFlight a) !! Z.to_nat i = Some (InFlight a).[i]).
  { unfold arr_get. apply list_lookup_lookup_total_lt. unfold zlen in Hlen. lia. }
  assert (E1 : ring_slots a ≡ₚ slot_of (e_slot (InFlight a).[i]) ++ concat (map f (delete (Z.to_nat i) (InFlight a))))
    by (exact (concat_map_lookup f _ _ _ Hin)).
  eapply al_perm in Ho1; [|rewrite E1, <- app_assoc; reflexivity].
  destruct (release_staging_ok k _ _ Ho1) as (k'&E&_&Es). exists k'. split; [done|]. split; [done|].
  intros l Hl. destruct (release_staging_ok k _ _ Hl) as (k2&E2&?&_). rewrite E in E2. by injection E2 as <-.
Qed.

(** Resolving an entry: it is charged no more, its copy is kept by an ordered
    association that was told the packet arrived, and given back otherwise. *)
Lemma ResolveOutEntry_ok a i acked d k Fs Fd tb tp :
  out_ok a k Fs Fd -> 0 <= i < N -> acked = true \/ oa_mode a = UNRELIABLE -> acct a d tb tp ->
  exists a' d' k', ResolveOutEntry a i acked d k = Some (a', d', k') /\ out_ok a' k' Fs Fd /\ frame a a' /\ acct a' d' tb tp /\
    ackedBytes d' = ackedBytes d + (if acked && pend (InFlight a).[i] then e_wireSize (InFlight a).[i] else 0) /\
    lastResolvedMicros a' = lastResolvedMicros a /\
    InFlight a' = (InFlight a).[i <- after_resolve (oa_mode a) acked (InFlight a).[i]].
Proof using Hw.
  intros Ho Hi Hac Hacct. pose proof (out_entry_at _ _ _ _ _ Ho Hi) as He. pose proof (oo_shape _ _ _ _ Ho) as Hs.
  pose proof (so_ring _ _ Hs) as Hlen. unfold ResolveOutEntry.
  assert (EP : (e_seq (InFlight a).[i] =? 0) || e_acked (InFlight a).[i] = negb (pend (InFlight a).[i])).
  { unfold pend. by destruct (e_seq _ =? 0), (e_acked _). }
  rewrite EP. destruct (pend (InFlight a).[i]) eqn:Ep; cbn [negb].
  2: { exists a, d, k. rewrite andb_false_r, Z.add_0_r. split_and!; try done; try apply frame_refl.
       unfold after_resolve. rewrite Ep, arr_set_get_id by lia. done. }
  assert (Hne : e_seq (InFlight a).[i] <> 0 /\ e_acked (InFlight a).[i] = false) by (unfold pend in Ep; by bprop).
  destruct Hne as [Hne Hna]. destruct He as [_ Hlive]. specialize (Hlive Hne). destruct Hlive as (Hl1&Hl2&Hl3&Hl4&Hl5&Hl6).
  pose proof (pend_bounds w Hw a Hs) as (Hb1&Hb2). destruct (pend_entry a i Hs Hi Ep) as [Hcnt1 Hby1].
  destruct Hacct as [A1 A2 A3 A4]. unfold UINT32_MAX in A3. rewrite (so_count _ _ Hs). destruct (Z.ltb_spec 0 (pend_count a)); [|lia].
  set (d1 := d <| resolvedBytes := _ |> <| resolvedPackets := _ |>).
  set (d2 := if acked then _ else _).
  assert (Ed : resolvedBytes d2 = resolvedBytes d + e_wireSize (InFlight a).[i] /\ resolvedPackets d2 = resolvedPackets d + 1 /\
    ackedBytes d2 = ackedBytes d + (if acked then e_wireSize (InFlight a).[i] else 0)).
  { subst d2. destruct acked; [|destruct (note_loss_sums d1 (e_epoch (InFlight a).[i])) as (->&->&->)]; subst d1; cbn;
      rewrite !u32_small by lia; lia. }
  destruct Ed as (D1&D2&D3). rewrite andb_true_r. clearbody d2. clear d1.
  assert (Hacct' : forall a' e, InFlight a' = (InFlight a).[i <- e] -> pend e = false -> acct a' d2 tb tp).
  { intros a' e El Epe. pose proof (pend_bytes_set w a a' i e Hs Hi El) as P1. pose proof (pend_count_set w a a' i e Hs Hi El) as P2.
    rewrite Ep, Epe in P1, P2. split; [lia|lia|unfold UINT32_MAX; lia|]. rewrite D1, D3. destruct acked; lia. }
  destruct (acked && IsOrdered (oa_mode a)) eqn:Eo.
  - set (e := (InFlight a).[i] <| e_acked := true |>).
    change (oa_mode (a <| unresolved := pend_count a - 1 |>)) with (oa_mode a).
    change (InFlight (a <| unresolved := pend_count a - 1 |>)) with (InFlight a). rewrite Eo.
    eexists _, d2, k. split; [reflexivity|].
    assert (Epe : pend e = false) by (unfold pend, e; cbn; by rewrite andb_false_r).
    apply andb_true_iff in Eo as [-> Eo].
    split; [|split; [by repeat split|split; [by apply (Hacct' _ e)|split; [done|split; [done|]]]]].
    + apply (out_set a _ k k Fs Fd i e); try done; try by repeat split.
      * rewrite Ep, Epe. change (pend_count a - 1 = unresolved a - 1 + 0). rewrite (so_count _ _ Hs). lia.
    + unfold after_resolve. by rewrite Ep, Eo.
  - change (oa_mode (a <| unresolved := pend_count a - 1 |>)) with (oa_mode a).
    change (InFlight (a <| unresolved := pend_count a - 1 |>)) with (InFlight a). rewrite Eo.
    set (e := (InFlight a).[i] <| e_seq := 0 |> <| e_slot := INVALID |> <| e_wireSize := 0 |> <| e_acked := false |>).
    assert (Epe : pend e = false) by done.
    pose proof (set_slot_release a k Fs Fd i Ho Hi) as Hrel.
    destruct Hrel as (k'&Er&Hsend&Hl). rewrite Er. cbn [mbind option_bind]. eexists _, d2, k'. split; [reflexivity|].
    split; [|split; [by repeat split|split; [by apply (Hacct' _ e)|split; [done|split; [done|]]]]].
    + apply (out_set a _ k k' Fs Fd i e); try done; try by repeat split.
      * rewrite Ep, Epe. change (pend_count a - 1 = unresolved a - 1 + 0). rewrite (so_count _ _ Hs). lia.
      * intros Hord. exfalso. rewrite Hord in Eo. destruct Hac as [->|Hm]; [done|]. by rewrite Hm in Hord.
    + unfold after_resolve. by rewrite Ep, Eo.
Qed.
End Pools.
