(* ===== verification/OutSteps.v ===== *)
(** * Sending half of a flow: what each operation does

    Every operation of an association keeps the invariant of the sending half.  An
    acknowledgement takes exactly the packets it names off the charge, copies go only
    below the receiver's cursor, and the loss rules and resends change no packet's
    standing. *)

From S2P Require Import Prelude Wire Keys FlowData SlotPool Rtt Delivery Curve Congestion Peer InFlow Packet OutFlow OutRetransmit OutInvariant.

Implicit Types (a : OutAssociation) (e : InFlightEntry) (p : Peer) (d : CongestionDelta).

Section Steps.
Context {S : Type} `{!Allocator S} (w ns nd : Z) (Hw : 6 <= w <= 15).
Implicit Types (k : OutPools S).
Abbreviation N := (2 ^ w).
Abbreviation ok := (out_ok w ns nd).

(** ** Entries that keep their standing *)

(** Same packet, same slot, same charge. *)
Definition same_standing e e' : Prop :=
  e_seq e' = e_seq e /\ e_slot e' = e_slot e /\ e_wireSize e' = e_wireSize e /\ e_acked e' = e_acked e.

Lemma same_standing_refl e : same_standing e e.
Proof using. done. Qed.

Lemma pend_same e e' : same_standing e e' -> pend e' = pend e.
Proof using. intros (E1&_&_&E2). unfold pend. by rewrite E1, E2. Qed.

Lemma set_standing a a' k Fs Fd i e :
  ok a k Fs Fd -> 0 <= i < N -> frame a a' -> InFlight a' = (InFlight a).[i <- e] -> unresolved a' = unresolved a ->
  same_standing (InFlight a).[i] e ->
  ok a' k Fs Fd /\ pend_bytes a' = pend_bytes a /\ pend_count a' = pend_count a.
Proof using Hw.
  intros Ho Hi Hfr El Eu Hst. pose proof (pend_same _ _ Hst) as Ep. pose proof (oo_shape _ _ _ _ _ _ _ Ho) as Hs.
  pose proof (out_entry_at w ns nd a k Fs Fd i Ho Hi) as He. destruct Hst as (E1&E2&E3&E4).
  split; [|split].
  - apply (out_set w ns nd Hw a a' k k Fs Fd i e); try done.
    + destruct He as [F1 F2]. split; rewrite E1, E2; [done|]. by rewrite E3, E4.
    + rewrite Ep. destruct (pend _); lia.
    + by rewrite E2.
  - rewrite (pend_bytes_set w a a' i e Hs Hi El), Ep, E3. destruct (pend _); lia.
  - rewrite (pend_count_set w a a' i e Hs Hi El), Ep. destruct (pend _); lia.
Qed.

(** The part of the association an operation leaves every packet's standing in. *)
Definition standing a a' : Prop :=
  frame a a' /\ unresolved a' = unresolved a /\ zlen (InFlight a') = zlen (InFlight a) /\
  (forall i, 0 <= i < zlen (InFlight a) -> same_standing (InFlight a).[i] (InFlight a').[i]) /\
  pend_bytes a' = pend_bytes a /\ pend_count a' = pend_count a.

Lemma standing_refl a : standing a a.
Proof using. split; [apply frame_refl|]. split_and!; try done. Qed.

Lemma standing_set a a1 a' k Fs Fd i e :
  standing a a1 -> ok a1 k Fs Fd -> 0 <= i < N -> frame a1 a' -> InFlight a' = (InFlight a1).[i <- e] ->
  unresolved a' = unresolved a1 -> same_standing (InFlight a1).[i] e -> standing a a' /\ ok a' k Fs Fd.
Proof using Hw.
  intros (F&U&L&St&B&C) Ho Hi Hfr El Eu Hst.
  destruct (set_standing a1 a' k Fs Fd i e Ho Hi Hfr El Eu Hst) as (Ho'&Eb&Ec). split; [|done].
  pose proof (so_ring _ _ (oo_shape _ _ _ _ _ _ _ Ho)) as Hlen.
  split; [by eapply frame_trans|]. split_and!; [congruence|rewrite El, zlen_set; congruence| |congruence|congruence].
  intros j Hj. rewrite El, arr_get_set by lia. destruct (Z.eqb_spec i j) as [<-|]; [|by apply St].
  destruct (St i Hj) as (?&?&?&?), Hst as (?&?&?&?). repeat split; congruence.
Qed.

(** ** Declared losses *)

Lemma DeclareLostBelow_ok a largest now delay d k Fs Fd tb tp :
  ok a k Fs Fd -> acct a d tb tp ->
  let '(a', d') := DeclareLostBelow a largest now delay d in
  ok a' k Fs Fd /\ standing a a' /\ acct a' d' tb tp /\ ackedBytes d' = ackedBytes d /\ lastResolvedMicros a' = lastResolvedMicros a.
Proof using Hw.
  intros Ho Hac. unfold DeclareLostBelow. case_bool_decide; [split; [done|]; split; [apply standing_refl|done]|].
  rewrite (so_cap _ _ (oo_shape _ _ _ _ _ _ _ Ho)). pose proof (N_range w Hw).
  pose proof (for_up_inv (fun _ (st : OutAssociation * CongestionDelta) => let '(a', d') := st in
    ok a' k Fs Fd /\ standing a a' /\ acct a' d' tb tp /\ ackedBytes d' = ackedBytes d /\ lastResolvedMicros a' = lastResolvedMicros a)
    0 (Z.to_nat N) (declare_entry largest now delay) (a, d)) as HI.
  apply HI; [split; [done|]; split; [apply standing_refl|done]|]. clear HI.
  intros i [a1 d1] Hi (Ho1&Hs1&Ha1&Eb1&El1). unfold declare_entry.
  set (e := (InFlight a1).[i]) in *.
  destruct (_ || e_lostByAck e); [done|]. destruct (i32 _ <=? 0); [done|]. destruct (negb _ && negb _); [done|].
  set (e' := e <| e_lostByAck := true |> <| e_freeResend := true |> <| e_sentAt := 0 |>).
  destruct (standing_set a a1 (a1 <| InFlight := (InFlight a1).[i <- e'] |>) k Fs Fd i e' Hs1 Ho1 ltac:(lia))
    as (Hs2&Ho2); [by repeat split|done|done|by repeat split|].
  split; [done|]. split; [done|].
  set (d2 := note_loss _ _).
  assert (resolvedBytes d2 = resolvedBytes d1 /\ resolvedPackets d2 = resolvedPackets d1 /\ ackedBytes d2 = ackedBytes d1) as (E1&E2&E3)
    by exact (note_loss_sums (d1 <| lostDeclaredBytes := u32 (lostDeclaredBytes d1 + e_wireSize e) |>) (e_epoch e)).
  destruct Ha1 as [A1 A2 A3 A4]. destruct Hs1 as (_&_&_&_&B1&C1), Hs2 as (_&_&_&_&B2&C2).
  split; [|split; [by rewrite E3|done]].
  split; rewrite ?E1, ?E2, ?E3, ?B2, ?C2, <- ?B1, <- ?C1; done.
Qed.

(** ** Copies released below the receiver's cursor *)

(** Everything a release leaves alone. *)
Definition frame_base a a' : Prop :=
  (oa_mode a' = oa_mode a /\ inflightCap a' = inflightCap a /\ waitingCap a' = waitingCap a) /\ nextSeq a' = nextSeq a /\
  (Waiting a' = Waiting a /\ waitingHead a' = waitingHead a /\ waitingCount a' = waitingCount a) /\
  unresolved a' = unresolved a /\ lastResolvedMicros a' = lastResolvedMicros a.

Lemma frame_base_refl a : frame_base a a.
Proof using. by repeat split. Qed.
Lemma frame_base_trans a1 a2 a3 : frame_base a1 a2 -> frame_base a2 a3 -> frame_base a1 a3.
Proof using. unfold frame_base. intros ((->&->&->)&->&(->&->&->)&->&->) H. exact H. Qed.

Lemma after_seq_small s : 0 <= s -> is_u32 (s + 1) -> after_seq s = s + 1.
Proof using. intros H0 H. unfold after_seq. rewrite u32_small by done. destruct (Z.eqb_spec (s + 1) 0); lia. Qed.

(** The base moves past a sequence whose entry is acknowledged and given up, or
    carries another sequence. *)
Lemma base_step a a' k k' Fs Fd :
  ok a k Fs Fd -> ackBase a < nextSeq a -> frame_base a a' -> ackBase a' = ackBase a + 1 ->
  let i := ackBase a mod N in
  (e_seq (InFlight a).[i] <> ackBase a /\ InFlight a' = InFlight a /\ k' = k) \/
  (exists e, e_seq (InFlight a).[i] = ackBase a /\ e_acked (InFlight a).[i] = true /\
     InFlight a' = (InFlight a).[i <- e] /\ e_seq e = 0 /\ e_slot e = INVALID /\ sending k' = sending k /\
     forall l, al_owns (staging k) ns (slot_of (e_slot (InFlight a).[i]) ++ l) -> al_owns (staging k') ns l) ->
  ok a' k' Fs Fd /\ pend_bytes a' = pend_bytes a /\ pend_count a' = pend_count a.
Proof using Hw.
  intros Ho Hlt ((E1&E2&E3)&E4&(E6&E7&E8)&E9&_) Eb i Hcase. pose proof (N_range w Hw).
  pose proof (oo_shape _ _ _ _ _ _ _ Ho) as Hs. pose proof Hs as [Hc Hr Hn Hen Hcnt Hf Hwc Hwl Hwt Hsz].
  assert (Hi : 0 <= i < N) by (subst i; apply Z.mod_pos_bound; lia).
  assert (Ew : waiting_list a' = waiting_list a) by (unfold waiting_list, wait_at; by rewrite E3, E6, E7, E8).
  assert (Em : unreliable a' = unreliable a) by (unfold unreliable; by rewrite E1).
  (* a live entry elsewhere carries a later sequence *)
  assert (Hlater : forall j, 0 <= j < N -> e_seq (InFlight a).[j] <> 0 -> j <> i -> ackBase a + 1 <= e_seq (InFlight a).[j]).
  { intros j Hj Hne Hji. destruct (Hen j Hj) as [_ Hl]. destruct (Hl Hne) as (?&_&Hm&_).
    assert (e_seq (InFlight a).[j] <> ackBase a); [|lia]. intros E. apply Hji. subst i. by rewrite <- E. }
  assert (Hlive : forall j e, 0 <= j < N -> (e_seq e <> 0 -> ackBase a + 1 <= e_seq e) ->
    entry_ok (oa_mode a) N (ackBase a) (nextSeq a) j e -> entry_ok (oa_mode a) N (ackBase a + 1) (nextSeq a) j e).
  { intros j e Hj Hge [F1 F2]. split; [done|]. intros Hne. destruct (F2 Hne) as ([_ ?]&?). split; [split; [by apply Hge|done]|done]. }
  destruct Hcase as [(Hne&El&->)|(e&Heq&Hack&El&Hz&Hsl&Hsend&Hst)].
  - assert (Hnord : IsOrdered (oa_mode a) = false).
    { destruct (IsOrdered (oa_mode a)) eqn:Eo; [|done]. exfalso. apply Hne. by apply Hf; [done|lia]. }
    assert (Hall : forall j, 0 <= j < N -> e_seq (InFlight a).[j] <> 0 -> ackBase a + 1 <= e_seq (InFlight a).[j]).
    { intros j Hj Hnz. destruct (decide (j = i)) as [->|]; [|by apply Hlater]. destruct (Hen i Hi) as [_ Hl]. destruct (Hl Hnz) as (?&_). lia. }
    split; [|unfold pend_bytes, pend_count; by rewrite El].
    split; [|unfold ring_slots, wait_slots in *; rewrite Em, Ew, El; apply Ho|unfold wait_slots in *; rewrite Em, Ew; apply Ho].
    split; rewrite ?E1, ?E2, ?E3, ?E4, ?E6, ?E7, ?E8, ?E9, ?El, ?Eb, ?Ew; try done; [lia| |unfold pend_count in *; by rewrite El|].
    + intros j Hj. apply Hlive; [done| |by apply Hen]. intros. by apply Hall.
    + intros Hord. congruence.
  - assert (Hp : pend (InFlight a).[i] = false) by (unfold pend; rewrite Hack; by rewrite andb_false_r).
    assert (Hpe : pend e = false) by (unfold pend; by rewrite Hz).
    pose proof (pend_bytes_set w a a' i e Hs Hi El) as P1. pose proof (pend_count_set w a a' i e Hs Hi El) as P2.
    rewrite Hp, Hpe in P1, P2. split; [|lia].
    split; [|unfold wait_slots in *; rewrite Em, Ew|unfold wait_slots in *; rewrite Hsend, Em, Ew; apply Ho].
    + split; rewrite ?E1, ?E2, ?E3, ?E4, ?E6, ?E7, ?E8, ?E9, ?El, ?Eb, ?Ew; try done; [by rewrite zlen_set|lia| |lia|].
      * intros j Hj. rewrite arr_get_set by lia. destruct (Z.eqb_spec i j) as [<-|Hij].
        { split; [done|]. by rewrite Hz. }
        apply Hlive; [done| |by apply Hen]. intros Hnz. by apply Hlater; [| |congruence].
      * intros Hord s Hs'. pose proof (Z.mod_pos_bound s N ltac:(lia)). rewrite arr_get_set by lia.
        destruct (Hen i Hi) as [_ Hl]. destruct (Hl ltac:(lia)) as (_&Hwin&_). rewrite Heq in Hwin.
        destruct (Z.eqb_spec i (s mod N)) as [E|]; [|apply Hf; [done|lia]].
        exfalso. subst i. assert (ackBase a = s); [|lia].
        apply (mod_window_inj N (ackBase a)); lia.
    + set (f := fun e => slot_of (e_slot e)).
      assert (Hin : (InFlight a) !! Z.to_nat i = Some (InFlight a).[i]).
      { unfold arr_get. apply list_lookup_lookup_total_lt. unfold zlen in Hr. lia. }
      eapply al_perm; [|apply (Hst (concat (map f (delete (Z.to_nat i) (InFlight a))) ++ (if unreliable a then [] else map w_slot (waiting_list a)) ++ Fs))].
      * unfold ring_slots. rewrite El. fold f. rewrite (concat_map_insert f _ _ _ e Hin). assert (Ef : f e = []) by (unfold f; by rewrite Hsl). rewrite Ef. done.
      * eapply al_perm; [|apply Ho]. unfold ring_slots. fold f. rewrite (concat_map_lookup f _ _ _ Hin). rewrite <- app_assoc. reflexivity.
Qed.

(** What a release does: it frees entries that were acknowledged below the cursor,
    and nothing else. *)
Definition released a a' rn : Prop :=
  ackBase a <= ackBase a' <= Z.max (ackBase a) rn /\
  forall i, 0 <= i < N -> (InFlight a').[i] = (InFlight a).[i] \/
    (e_seq (InFlight a).[i] <> 0 /\ e_acked (InFlight a).[i] = true /\ ackBase a <= e_seq (InFlight a).[i] < ackBase a' /\
     (InFlight a').[i] = free_entry <| e_epoch := e_epoch (InFlight a).[i] |>).

(** Why a release of at most [steps] sequences stops. *)
Definition stopped (steps : nat) a a' rn : Prop :=
  ackBase a' = nextSeq a \/ rn <= ackBase a' \/ ackBase a' = ackBase a + Z.of_nat steps \/
  (e_seq (InFlight a').[ackBase a' mod N] = ackBase a' /\ e_acked (InFlight a').[ackBase a' mod N] = false).

Lemma released_refl a rn : released a a rn.
Proof using. split; [lia|by left]. Qed.

Lemma release_run_ok steps rn : forall a k Fs Fd,
  ok a k Fs Fd ->
  exists a' k', release_run steps a rn k = Some (a', k') /\ ok a' k' Fs Fd /\ frame_base a a' /\
    pend_bytes a' = pend_bytes a /\ pend_count a' = pend_count a /\ released a a' rn /\ stopped steps a a' rn.
Proof using Hw.
  induction steps as [|steps IH]; intros a k Fs Fd Ho.
  all: assert (Hstay : forall steps, stopped steps a a rn -> exists a' k', Some (a, k) = Some (a', k') /\ ok a' k' Fs Fd /\ frame_base a a' /\
    pend_bytes a' = pend_bytes a /\ pend_count a' = pend_count a /\ released a a' rn /\ stopped steps a a' rn)
    by (intros st Hst; exists a, k; split_and!; try done; apply released_refl).
  { cbn [release_run]. assert (stopped 0 a a rn) by (right; right; left; lia). destruct (_ && _); by apply Hstay. }
  cbn [release_run]. destruct (Z.eqb_spec (ackBase a) (nextSeq a)) as [|Hne]; [apply Hstay; by left|].
  destruct (Z.ltb_spec (ackBase a) rn) as [Hlt|]; [|apply Hstay; right; by left]. cbn [negb andb].
  pose proof (oo_shape _ _ _ _ _ _ _ Ho) as Hs. pose proof Hs as [Hc Hr [Hn Hn32] Hen Hcnt Hf Hwc Hwl Hwt Hsz].
  pose proof (N_range w Hw). rewrite (ring_at_mod w Hw _ _ Hc).
  set (i := ackBase a mod N). assert (Hi : 0 <= i < N) by (subst i; apply Z.mod_pos_bound; lia).
  destruct (_ && negb _) eqn:Eb.
  { apply Hstay. right; right; right. fold i. bprop. done. }
  assert (Haft : after_seq (ackBase a) = ackBase a + 1) by (apply after_seq_small; lia).
  destruct (Z.eqb_spec (e_seq (InFlight a).[i]) (ackBase a)) as [Heq|Hneq].
  - cbn [andb] in Eb. apply negb_false_iff in Eb.
    destruct (set_slot_release w ns nd Hw a k Fs Fd i Ho Hi) as (k1&Er&Hsend&Hl). rewrite Er. cbn [mbind option_bind].
    set (e1 := (InFlight a).[i] <| e_seq := 0 |> <| e_slot := INVALID |> <| e_wireSize := 0 |> <| e_retries := 0 |>
                 <| e_sentAt := 0 |> <| e_acked := false |> <| e_lostByAck := false |> <| e_freeResend := false |>).
    set (a1 := (a <| InFlight := (InFlight a).[i <- e1] |>) <| ackBase := _ |>).
    destruct (base_step a a1 k k1 Fs Fd Ho) as (Ho1&B1&C1); [lia|by repeat split|exact Haft| |].
    { right. exists e1. split_and!; try done. }
    destruct (IH a1 k1 Fs Fd Ho1) as (a2&k2&E2&Ho2&F2&B2&C2&[Hb2 He2]&Hst2).
    exists a2, k2. split; [exact E2|]. split; [done|]. split; [eapply frame_base_trans; [|exact F2]; by repeat split|].
    assert (Ea1 : ackBase a1 = ackBase a + 1) by exact Haft. rewrite Ea1 in Hb2, He2.
    split; [congruence|]. split; [congruence|]. split; [|unfold stopped in *; rewrite Ea1 in Hst2; change (nextSeq a1) with (nextSeq a) in Hst2; destruct Hst2 as [?|[?|[?|?]]]; auto; right; right; left; lia].
    split; [lia|]. intros j Hj.
    change (InFlight a1) with ((InFlight a).[i <- e1]) in He2. specialize (He2 j Hj). rewrite arr_get_set in He2 by lia.
    destruct (Z.eqb_spec i j) as [Eij|].
    + rewrite <- Eij in *. destruct He2 as [He2|(Hz&_)]; [|done]. right. split; [lia|]. split; [done|]. split; [lia|]. rewrite He2. reflexivity.
    + destruct He2 as [He2|(?&?&?&?)]; [by left|right; split_and!; try done; lia].
  - cbn [mbind option_bind]. set (a1 := a <| ackBase := _ |>).
    destruct (base_step a a1 k k Fs Fd Ho) as (Ho1&B1&C1); [lia|by repeat split|exact Haft|by left|].
    destruct (IH a1 k Fs Fd Ho1) as (a2&k2&E2&Ho2&F2&B2&C2&[Hb2 He2]&Hst2).
    exists a2, k2. split; [exact E2|]. split; [done|]. split; [eapply frame_base_trans; [|exact F2]; by repeat split|].
    assert (Ea1 : ackBase a1 = ackBase a + 1) by exact Haft. rewrite Ea1 in Hb2, He2.
    split; [congruence|]. split; [congruence|]. split; [|unfold stopped in *; rewrite Ea1 in Hst2; change (nextSeq a1) with (nextSeq a) in Hst2; destruct Hst2 as [?|[?|[?|?]]]; auto; right; right; left; lia].
    split; [lia|]. intros j Hj.
    change (InFlight a1) with (InFlight a) in He2. destruct (He2 j Hj) as [?|(?&?&?&?)]; [by left|right; split_and!; try done; lia].
Qed.

(** ** Acknowledgements *)

(** An acknowledgement names a sequence below its cursor or in its ranges. *)
Definition names (rn : Z) (ranges : list AckRange) e : bool := (e_seq e <? rn) || SeqInRanges (e_seq e) ranges.
Definition hit rn ranges e : bool := pend e && names rn ranges e.
Definition after_scan (mode : FlowMode) rn ranges e : InFlightEntry := if names rn ranges e then after_resolve mode true e else e.

(** The sample's entry: the newest of the packets this acknowledgement is the first
    to name. *)
Definition sample_of a rn ranges (i : Z) (s : AckScan S) : Prop :=
  if haveSample s then
    exists j, 0 <= j < i /\ hit rn ranges (InFlight a).[j] = true /\
      (sampleSeq s = e_seq (InFlight a).[j] /\ sampleSentAt s = e_sentAt (InFlight a).[j]) /\
      sampleResent s = negb (e_retries (InFlight a).[j] =? 0) || e_lostByAck (InFlight a).[j] /\
      forall j', 0 <= j' < i -> hit rn ranges (InFlight a).[j'] = true -> e_seq (InFlight a).[j'] <= sampleSeq s
  else forall j, 0 <= j < i -> hit rn ranges (InFlight a).[j] = false.

Record scan_ok a d (rn : Z) (ranges : list AckRange) Fs Fd tb tp (i : Z) (s : AckScan S) : Prop := {
  sc_ok : ok (as_out s) (as_pools s) Fs Fd;
  sc_frame : frame a (as_out s) /\ lastResolvedMicros (as_out s) = lastResolvedMicros a;
  sc_acct : acct (as_out s) (as_delta s) tb tp;
  sc_acked : ackedBytes (as_delta s) + pend_bytes (as_out s) = ackedBytes d + pend_bytes a;
  sc_done : forall j, 0 <= j < i -> (InFlight (as_out s)).[j] = after_scan (oa_mode a) rn ranges (InFlight a).[j];
  sc_todo : forall j, i <= j < N -> (InFlight (as_out s)).[j] = (InFlight a).[j];
  sc_sample : sample_of a rn ranges i s;
  sc_any : anyAcked s = false -> forall j, 0 <= j < i -> hit rn ranges (InFlight a).[j] = false }.

Lemma names_hit rn ranges e : e_seq e <> 0 -> hit rn ranges e = names rn ranges e && negb (e_acked e).
Proof using. intros H. unfold hit, pend. destruct (Z.eqb_spec (e_seq e) 0); [done|]. by rewrite andb_comm. Qed.

Lemma seq_gap a k Fs Fd i j :
  ok a k Fs Fd -> 0 <= i < N -> 0 <= j < N -> e_seq (InFlight a).[i] <> 0 -> e_seq (InFlight a).[j] <> 0 ->
  i32 (e_seq (InFlight a).[i] - e_seq (InFlight a).[j]) = e_seq (InFlight a).[i] - e_seq (InFlight a).[j].
Proof using Hw.
  intros Ho Hi Hj Hni Hnj. pose proof (oo_shape _ _ _ _ _ _ _ Ho) as Hs. pose proof (N_range w Hw).
  destruct (so_entry _ _ Hs i Hi) as [_ H1], (so_entry _ _ Hs j Hj) as [_ H2]. specialize (H1 Hni). specialize (H2 Hnj).
  apply i32_small. lia.
Qed.

(** Where the scan stood still: the entry is not hit, so nothing moves. *)
Lemma scan_skip a d rn ranges Fs Fd tb tp i s :
  0 <= i < N -> hit rn ranges (InFlight a).[i] = false -> scan_ok a d rn ranges Fs Fd tb tp i s -> scan_ok a d rn ranges Fs Fd tb tp (i + 1) s.
Proof using Hw.
  intros Hi Hh [S1 S2 S3 S4 S5 S6 S7 S8].
  assert (Hn : forall j, 0 <= j < i + 1 -> j = i \/ 0 <= j < i) by lia.
  split; try done.
  - intros j Hj. destruct (Hn j Hj) as [->|]; [|by apply S5]. rewrite S6 by lia. unfold after_scan, after_resolve.
    unfold hit in Hh. by destruct (names _ _ _), (pend _).
  - intros j Hj. apply S6. lia.
  - unfold sample_of in *. destruct (haveSample s).
    + destruct S7 as (j&Hj&Hhj&E&Er&Hm). exists j. split; [lia|]. split_and!; try done; try apply E.
      intros j' Hj' Hh'. destruct (Hn j' Hj') as [->|]; [congruence|by apply Hm].
    + intros j Hj. destruct (Hn j Hj) as [->|]; [done|by apply S7].
  - intros Ha j Hj. destruct (Hn j Hj) as [->|]; [done|by apply S8].
Qed.

Lemma scan_entry_ok a d rn ranges k0 Fs Fd tb tp i s :
  ok a k0 Fs Fd -> 0 <= i < N -> scan_ok a d rn ranges Fs Fd tb tp i s ->
  exists s', scan_entry rn ranges i s = Some s' /\ scan_ok a d rn ranges Fs Fd tb tp (i + 1) s'.
Proof using Hw.
  intros Ho0 Hi Hsc. pose proof Hsc as [S1 [S2 S2'] S3 S4 S5 S6 S7 S8]. unfold scan_entry.
  rewrite S6 by lia. set (e := (InFlight a).[i]) in *. fold (names rn ranges e).
  destruct (Z.eqb_spec (e_seq e) 0) as [Hz|Hnz].
  { exists s. split; [done|]. apply scan_skip; [done| |done]. unfold hit, pend. subst e. by rewrite Hz. }
  destruct (names rn ranges e) eqn:En.
  2: { exists s. split; [done|]. apply scan_skip; [done| |done]. unfold hit. subst e. by rewrite En, andb_false_r. }
  set (s1 := if _ || _ then _ else s). set (s2 := if _ && _ then _ else s1).
  assert (Es1 : as_out s1 = as_out s /\ as_pools s1 = as_pools s /\ as_delta s1 = as_delta s /\ haveSample s1 = haveSample s /\
    sampleSeq s1 = sampleSeq s /\ anyAcked s1 = true /\ sampleSentAt s1 = sampleSentAt s /\ sampleResent s1 = sampleResent s).
  { subst s1. destruct (anyAcked s) eqn:Ea; [|done]. by destruct (negb true || _). }
  destruct Es1 as (E1&E2&E3&E4&E5&E6&E7&E8).
  assert (Es2 : as_out s2 = as_out s /\ as_pools s2 = as_pools s /\ as_delta s2 = as_delta s /\ anyAcked s2 = true /\ sample_of a rn ranges (i + 1) s2).
  { pose proof (names_hit rn ranges e Hnz) as Hh. rewrite En in Hh. cbn [andb] in Hh.
    assert (Hn : forall j, 0 <= j < i + 1 -> j = i \/ 0 <= j < i) by lia.
    subst s2. rewrite E4, E5. unfold sample_of in *.
    destruct (e_acked e) eqn:Eacc; cbn [negb andb] in Hh |- *.
    - repeat (split; [done|]). rewrite E4, E5, E7, E8. destruct (haveSample s).
      + destruct S7 as (j&Hj&Hhj&E&Er&Hm). exists j. split; [lia|]. split_and!; try done; try apply E.
        intros j' Hj' Hh'. destruct (Hn j' Hj') as [->|]; [fold e in Hh'; congruence|by apply Hm].
      + intros j Hj. destruct (Hn j Hj) as [->|]; [done|by apply S7].
    - destruct (haveSample s) eqn:Ehs; cbn [negb orb].
      + destruct S7 as (j&Hj&Hhj&(Ej1&Ej2)&Er&Hm). rewrite Ej1.
        assert (Hjn : e_seq (InFlight a).[j] <> 0) by (intros Ez; unfold hit, pend in Hhj; by rewrite Ez in Hhj).
        pose proof (seq_gap a k0 Fs Fd i j Ho0 Hi ltac:(lia) Hnz Hjn) as Eg. fold e in Eg. rewrite Eg.
        destruct (Z.ltb_spec 0 (e_seq e - e_seq (InFlight a).[j])).
        * repeat (split; [done|]). cbn [haveSample]. exists i. split; [lia|]. split; [done|]. split; [done|]. split; [done|].
          intros j' Hj' Hh'. change (e_seq (InFlight a).[j'] <= e_seq e).
          destruct (Hn j' Hj') as [->|]; [done|]. specialize (Hm j' ltac:(lia) Hh'). lia.
        * repeat (split; [done|]). rewrite E4, E5, E7, E8. exists j. split; [lia|]. split_and!; try done.
          intros j' Hj' Hh'. destruct (Hn j' Hj') as [->|]; [fold e; lia|by apply Hm].
      + repeat (split; [done|]). exists i. split; [lia|]. split; [done|]. split; [done|]. split; [done|].
        intros j' Hj' Hh'. destruct (Hn j' Hj') as [->|]; [done|]. rewrite S7 in Hh' by done. done. }
  clearbody s2. clear S7 E1 E2 E3 E4 E5 E6 E7 E8 s1. destruct Es2 as (E1&E2&E3&E4&E5).
  rewrite E1, E2, E3.
  destruct (ResolveOutEntry_ok w ns nd Hw (as_out s) i true (as_delta s) (as_pools s) Fs Fd tb tp S1 Hi (or_introl eq_refl) S3)
    as (a'&d'&k'&ER&Ho'&Hf'&Hac'&Eb&Elr&El). rewrite ER. cbn [mbind option_bind]. eexists. split; [reflexivity|].
  pose proof (oo_shape _ _ _ _ _ _ _ S1) as Hsh. pose proof (so_ring _ _ Hsh) as Hlen.
  rewrite S6 in Eb, El by lia. fold e in Eb, El.
  assert (Em : oa_mode (as_out s) = oa_mode a) by apply S2. rewrite Em in El.
  set (s3 := s2 <| as_out := a' |> <| as_delta := d' |> <| as_pools := k' |>).
  change (sample_of a rn ranges (i + 1) s3) in E5. change (anyAcked s3 = true) in E4.
  assert (T : as_out s3 = a' /\ as_delta s3 = d' /\ as_pools s3 = k') by done. clearbody s3. destruct T as (T1&T2&T3).
  split; rewrite ?T1, ?T2, ?T3; try done.
  - split; [by eapply frame_trans|congruence].
  - pose proof (pend_bytes_set w (as_out s) a' i _ Hsh Hi El) as P. rewrite S6 in P by lia. fold e in P.
    rewrite pend_after_resolve in P. cbn [andb] in Eb. cbv beta iota in P. destruct (pend e); lia.
  - intros j Hj. rewrite El, arr_get_set by lia. destruct (Z.eqb_spec i j) as [<-|]; [|apply S5; lia].
    fold e. unfold after_scan. by rewrite En.
  - intros j Hj. rewrite El, arr_get_set by lia. destruct (Z.eqb_spec i j); [lia|]. apply S6. lia.
  - by rewrite E4.
Qed.

(** The whole scan. *)
Lemma scan_ok_all a d rn ranges k Fs Fd tb tp :
  ok a k Fs Fd -> acct a d tb tp ->
  exists s, for_upM 0 (Z.to_nat (inflightCap a)) (scan_entry rn ranges) (mk_scan a k d 0 false 0 0 false false) = Some s /\
    scan_ok a d rn ranges Fs Fd tb tp N s.
Proof using Hw.
  intros Ho Hac. pose proof (N_range w Hw). rewrite (so_cap _ _ (oo_shape _ _ _ _ _ _ _ Ho)).
  destruct (for_upM_inv (fun i s => scan_ok a d rn ranges Fs Fd tb tp i s) 0 (Z.to_nat N) (scan_entry rn ranges)
    (mk_scan a k d 0 false 0 0 false false)) as (s&Es&Hs).
  - split; cbn [as_out as_pools as_delta]; try done; try (split; [apply frame_refl|done]); [intros; lia|unfold sample_of; cbn; intros; lia|intros; lia].
  - intros i s Hi Hs. apply (scan_entry_ok a d rn ranges k); [done|lia|done].
  - exists s. split; [done|]. by replace N with (0 + Z.of_nat (Z.to_nat N)) by lia.
Qed.

(** The sample changes no account. *)
Lemma ack_sample_acct a (s : AckScan S) rad now tb tp : acct a (as_delta s) tb tp ->
  acct a (ack_sample s rad now) tb tp /\ ackedBytes (ack_sample s rad now) = ackedBytes (as_delta s).
Proof using. intros [A1 A2 A3 A4]. unfold ack_sample. by destruct (_ && _ && _ && _). Qed.

(** What an acknowledgement does to the ring. *)
Record ack_result a a' (rn : Z) (ranges : list AckRange) : Prop := {
  ar_pend : forall i, 0 <= i < N -> pend (InFlight a').[i] = pend (InFlight a).[i] && negb (names rn ranges (InFlight a).[i]);
  ar_live : forall i, 0 <= i < N -> pend (InFlight a').[i] = true -> same_standing (InFlight a).[i] (InFlight a').[i];
  ar_copy : IsOrdered (oa_mode a) = true -> forall i, 0 <= i < N -> rn <= e_seq (InFlight a).[i] ->
    e_seq (InFlight a').[i] = e_seq (InFlight a).[i] /\ e_slot (InFlight a').[i] = e_slot (InFlight a).[i];
  ar_base : ackBase a <= ackBase a' <= Z.max (ackBase a) rn;
  ar_cursor : IsOrdered (oa_mode a) = true -> ackBase a' = Z.max (ackBase a) (Z.min rn (nextSeq a)) }.

Lemma after_scan_pend mode rn ranges e : pend (after_scan mode rn ranges e) = pend e && negb (names rn ranges e).
Proof using. unfold after_scan. destruct (names _ _ _); [by rewrite pend_after_resolve, andb_false_r|by rewrite andb_true_r]. Qed.

Lemma same_standing_trans e1 e2 e3 : same_standing e1 e2 -> same_standing e2 e3 -> same_standing e1 e3.
Proof using. intros (?&?&?&?) (?&?&?&?). repeat split; congruence. Qed.

(** An ordered association keeps at most a ring of sequences. *)
Lemma ordered_window a k Fs Fd : ok a k Fs Fd -> IsOrdered (oa_mode a) = true -> nextSeq a - ackBase a <= N.
Proof using Hw.
  intros Ho Hord. pose proof (oo_shape _ _ _ _ _ _ _ Ho) as Hs. pose proof (N_range w Hw). pose proof (so_next _ _ Hs) as [Hn _].
  destruct (Z.eqb_spec (ackBase a) (nextSeq a)); [lia|].
  pose proof (so_full _ _ Hs Hord (ackBase a) ltac:(lia)) as Hfull. pose proof (Z.mod_pos_bound (ackBase a) N ltac:(lia)).
  destruct (so_entry _ _ Hs (ackBase a mod N) ltac:(lia)) as [_ Hl]. rewrite Hfull in Hl. destruct (Hl ltac:(lia)) as (_&?&_). lia.
Qed.

(** From the three passes over the ring. *)
Lemma ack_result_of a a1 a2 a3 rn ranges Fs Fd k2 k3 :
  frame a a1 -> ok a2 k2 Fs Fd -> ok a3 k3 Fs Fd ->
  (forall j, 0 <= j < N -> (InFlight a1).[j] = after_scan (oa_mode a) rn ranges (InFlight a).[j]) ->
  (frame a1 a2 /\ forall i, 0 <= i < N -> same_standing (InFlight a1).[i] (InFlight a2).[i]) ->
  nextSeq a3 = nextSeq a2 -> released a2 a3 rn -> stopped (Z.to_nat N) a2 a3 rn ->
  ack_result a a3 rn ranges.
Proof using Hw.
  intros F1 Ho2 Ho3 Hscan [F2 Hst] En [Hb Hrel] Hstop. pose proof (N_range w Hw).
  pose proof (frame_trans _ _ _ F1 F2) as ((Em&_)&(En2&Eb2)&_).
  assert (H12 : forall i, 0 <= i < N -> same_standing (after_scan (oa_mode a) rn ranges (InFlight a).[i]) (InFlight a2).[i])
    by (intros i Hi; rewrite <- Hscan by done; by apply Hst).
  split.
  - intros i Hi. rewrite <- (after_scan_pend (oa_mode a)), <- (pend_same _ _ (H12 i Hi)).
    destruct (Hrel i Hi) as [->|(Hnz&Hac&_&->)]; [done|]. unfold pend. cbn. rewrite Hac. by rewrite andb_false_r.
  - intros i Hi Hp. destruct (Hrel i Hi) as [E|(_&_&_&E)]; rewrite E in Hp |- *; [|done].
    pose proof (H12 i Hi) as H12i. rewrite (pend_same _ _ H12i), after_scan_pend in Hp. apply andb_true_iff in Hp as [_ Hn].
    unfold after_scan in H12i. by destruct (names _ _ _).
  - intros Hord i Hi Hge. destruct (H12 i Hi) as (H1&H2&_&_).
    assert (E : e_seq (InFlight a2).[i] = e_seq (InFlight a).[i] /\ e_slot (InFlight a2).[i] = e_slot (InFlight a).[i]).
    { unfold after_scan, after_resolve in H1, H2. rewrite Hord in H1, H2. by destruct (names rn ranges (InFlight a).[i]), (pend (InFlight a).[i]). }
    destruct E as [E1 E2]. destruct (Hrel i Hi) as [->|(_&_&[Hlo Hhi]&_)]; [done|]. exfalso. lia.
  - by rewrite <- Eb2.
  - intros Hord. pose proof (oo_shape _ _ _ _ _ _ _ Ho2) as Hs2. pose proof (so_next _ _ Hs2) as [Hn2 _].
    rewrite En2, Eb2 in Hn2. pose proof (ordered_window a2 k2 Fs Fd Ho2 ltac:(by rewrite Em)) as Hwin. rewrite En2, Eb2 in Hwin.
    rewrite Eb2 in Hb. unfold stopped in Hstop. rewrite Z2Nat.id in Hstop by lia. rewrite En2, Eb2 in Hstop.
    pose proof (so_next _ _ (oo_shape _ _ _ _ _ _ _ Ho3)) as [Hcap _]. rewrite En, En2 in Hcap.
    destruct Hstop as [?|[?|[?|[Hq Hna]]]]; [lia..|].
    pose proof (Z.mod_pos_bound (ackBase a3) N ltac:(lia)) as Hi. set (i := ackBase a3 mod N) in *.
    destruct (Z.leb_spec rn (ackBase a3)); [lia|]. exfalso.
    destruct (Hrel i Hi) as [E|(_&_&_&E)]; rewrite E in Hq, Hna; [|cbn in Hq; lia].
    destruct (H12 i Hi) as (H1&_&_&H4). rewrite Hq in H1. rewrite Hna in H4.
    unfold after_scan, after_resolve in H1, H4. rewrite Hord in H1, H4. unfold names, pend in H1, H4.
    assert (H3 : e_seq (InFlight a).[i] = ackBase a3) by (destruct (_ || _) in H1; [destruct (_ && _) in H1|]; cbn in H1; congruence).
    rewrite H3 in H4. destruct (Z.ltb_spec (ackBase a3) rn); [|lia]. cbn [orb] in H4.
    destruct (Z.eqb_spec (ackBase a3) 0); [lia|]. cbn [negb andb] in H4. destruct (e_acked (InFlight a).[i]) eqn:Ea; cbn [negb] in H4; [congruence|done].
Qed.

Lemma ApplyAck_ok a flowId flowEpoch rn rad ranges now delay d k Fs Fd tb tp :
  ok a k Fs Fd -> acct a d tb tp ->
  exists a' d' k', ApplyAck a flowId flowEpoch rn rad ranges now delay d k = Some (a', d', k') /\
    ok a' k' Fs Fd /\ acct a' d' tb tp /\ ackedBytes d' + pend_bytes a' = ackedBytes d + pend_bytes a /\
    (oa_mode a' = oa_mode a /\ nextSeq a' = nextSeq a) /\
    (lastResolvedMicros a' = lastResolvedMicros a \/ lastResolvedMicros a' = now) /\
    if (oa_flowId a =? flowId) && (oa_flowEpoch a =? flowEpoch) then ack_result a a' rn ranges else (a', d', k') = (a, d, k).
Proof using Hw.
  intros Ho Hac. unfold ApplyAck. rewrite <- negb_andb.
  destruct ((oa_flowId a =? flowId) && (oa_flowEpoch a =? flowEpoch)); cbn [negb].
  2: { exists a, d, k. split_and!; try done. by left. }
  destruct (scan_ok_all a d rn ranges k Fs Fd tb tp Ho Hac) as (s&Es&[S1 [S2 S2'] S3 S4 S5 S6 S7 S8]). rewrite Es. cbn [mbind option_bind].
  destruct (ack_sample_acct (as_out s) s rad now tb tp S3) as [Hac1 Eb1]. set (d1 := ack_sample s rad now) in *. clearbody d1.
  assert (HD : exists a2 d2, (if anyAcked s then DeclareLostBelow ((as_out s) <| lastResolvedMicros := now |>) (largestAcked s) now delay d1
      else (as_out s, d1)) = (a2, d2) /\ ok a2 (as_pools s) Fs Fd /\ standing (as_out s) a2 /\ acct a2 d2 tb tp /\
      ackedBytes d2 = ackedBytes d1 /\ (lastResolvedMicros a2 = lastResolvedMicros a \/ lastResolvedMicros a2 = now)).
  { destruct (anyAcked s).
    - set (a1 := (as_out s) <| lastResolvedMicros := now |>).
      assert (Ho1 : ok a1 (as_pools s) Fs Fd) by (by apply (out_frame w ns nd (as_out s))).
      assert (Hac1' : acct a1 d1 tb tp) by (destruct Hac1; by split).
      pose proof (DeclareLostBelow_ok a1 (largestAcked s) now delay d1 (as_pools s) Fs Fd tb tp Ho1 Hac1') as HD.
      destruct (DeclareLostBelow a1 _ now delay d1) as [a2 d2]. destruct HD as (?&?&?&?&El). exists a2, d2. split_and!; try done. by right.
    - exists (as_out s), d1. split; [done|]. split; [done|]. split; [apply standing_refl|]. split; [done|]. split; [done|by left]. }
  destruct HD as (a2&d2&->&Ho2&Hst&Hac2&Eb2&El2).
  destruct (release_run_ok (Z.to_nat N) rn a2 (as_pools s) Fs Fd Ho2) as (a3&k3&ER&Ho3&F3&B3&C3&Hrel&Hstop).
  unfold ReleaseAckedRun. rewrite (so_cap _ _ (oo_shape _ _ _ _ _ _ _ Ho2)), ER. cbn [mbind option_bind].
  exists a3, d2, k3. split; [done|]. split; [done|].
  destruct Hst as (Fr&_&Ln&Hsame&Bst&_). destruct F3 as ((Em3&_)&En3&_&_&El3).
  pose proof (frame_trans _ _ _ S2 Fr) as ((Em&_)&(En&_)&_).
  split; [destruct Hac2; split; [lia|lia|done|lia]|]. split; [lia|]. split; [split; congruence|]. split; [by rewrite El3|].
  apply (ack_result_of a (as_out s) a2 a3 rn ranges Fs Fd (as_pools s) k3); try done.
  split; [done|]. intros i Hi. apply Hsame. by rewrite (so_ring _ _ (oo_shape _ _ _ _ _ _ _ S1)).
Qed.
End Steps.
