(* ===== verification/OutSend.v ===== *)
(** * Sending half of a flow: sending, resending, ending

    The other operations of an association keep the invariant of the sending half:
    stamping and queueing a packet, the resend scan, the drain of the waiting queue,
    and the two ways an association ends. *)

From S2P Require Import Prelude Wire Keys FlowData SlotPool Rtt Delivery Curve Congestion Peer InFlow Packet OutFlow OutRetransmit OutInvariant OutSteps.

Implicit Types (a : OutAssociation) (e : InFlightEntry) (p : Peer) (d : CongestionDelta).

(** ** The clock of the pacing *)

(** Pacing moves its own two fields of the peer. *)
Definition paced p p' : Prop := p_cc p' = p_cc p /\ theirGrant p' = theirGrant p /\ p_addr p' = p_addr p.

Lemma paced_refl p : paced p p.
Proof. done. Qed.
Lemma paced_trans p1 p2 p3 : paced p1 p2 -> paced p2 p3 -> paced p1 p3.
Proof. unfold paced. intros (->&->&->) H. exact H. Qed.

Lemma RefillPacing_paced p now : paced p (RefillPacing p now).
Proof. unfold RefillPacing. by repeat match goal with |- context [if ?b then _ else _] => destruct b end. Qed.

Lemma PacingAllows_paced p now wireSize : paced p (PacingAllows p now wireSize).2.
Proof. unfold PacingAllows. destruct (_ =? 0); [done|]. apply RefillPacing_paced. Qed.

Lemma SpendPacing_paced p wireSize : paced p (SpendPacing p wireSize).
Proof. done. Qed.

Section Steps.
Context {S : Type} `{!Allocator S} (w ns nd : Z) (Hw : 6 <= w <= 15).
Implicit Types (k : OutPools S).
Abbreviation N := (2 ^ w).
Abbreviation ok := (out_ok w ns nd).

(** ** Refunds and the resend scan *)

Lemma RefundResendAttempts_ok a seqs k Fs Fd :
  ok a k Fs Fd -> standing a (RefundResendAttempts a seqs) /\ ok (RefundResendAttempts a seqs) k Fs Fd.
Proof using Hw.
  intros Ho. unfold RefundResendAttempts.
  assert (H : forall a1, standing a a1 -> ok a1 k Fs Fd ->
    standing a (fold_left refund_attempt seqs a1) /\ ok (fold_left refund_attempt seqs a1) k Fs Fd).
  { induction seqs as [|s seqs IH]; intros a1 Hs1 Ho1; [done|]. cbn [fold_left].
    enough (standing a (refund_attempt a1 s) /\ ok (refund_attempt a1 s) k Fs Fd) as [? ?] by by apply IH.
    unfold refund_attempt. destruct (negb _ || _); [done|].
    apply (standing_set w ns nd Hw a a1 _ k Fs Fd (ring_at a1 s)
      ((if 0 <? e_retries (InFlight a1).[ring_at a1 s]
        then (InFlight a1).[ring_at a1 s] <| e_retries := e_retries (InFlight a1).[ring_at a1 s] - 1 |>
        else (InFlight a1).[ring_at a1 s]) <| e_sentAt := 0 |>)); try done.
    - apply (ring_at_range w Hw), (so_cap _ _ (oo_shape _ _ _ _ _ _ _ Ho1)).
    - by destruct (0 <? _). }
  apply H; [apply standing_refl|done].
Qed.

Record rescan_ok a p d Fs Fd tb tp (s : Rescan S) : Prop := {
  rc_ok : ok (rs_out s) (rs_pools s) Fs Fd;
  rc_frame : frame a (rs_out s) /\ lastResolvedMicros (rs_out s) = lastResolvedMicros a;
  rc_reliable : oa_mode a <> UNRELIABLE -> standing a (rs_out s);
  rc_peer : paced p (rs_peer s);
  rc_acct : acct (rs_out s) (rs_delta s) tb tp;
  rc_acked : ackedBytes (rs_delta s) = ackedBytes d;
  rc_resends : zlen (resends s) <= RESENDS_PER_ASSOC_PER_TICK /\
    forall q x, (q, x) ∈ resends s -> exists i, 0 <= i < N /\ e_seq (InFlight (rs_out s)).[i] = q /\ e_slot (InFlight (rs_out s)).[i] = x /\
      x <> INVALID;
  rc_unreliable : oa_mode a = UNRELIABLE -> resends s = [] }.

Lemma may_resend_ok (s : Rescan S) e now : paced (rs_peer s) (may_resend s e now).2 /\
  ((may_resend s e now).1 = true -> e_slot e <> INVALID /\ zlen (resends s) < RESENDS_PER_ASSOC_PER_TICK).
Proof using.
  unfold may_resend. destruct (Z.eqb_spec (e_slot e) INVALID); [done|]. destruct (Z.ltb_spec (zlen (resends s)) RESENDS_PER_ASSOC_PER_TICK); cbn [negb andb]; [|done].
  split; [apply PacingAllows_paced|done].
Qed.

(** A resend goes out: the entry keeps its standing, the packet joins the list. *)
Lemma rescan_resend a p d Fs Fd tb tp s s' i e :
  rescan_ok a p d Fs Fd tb tp s -> 0 <= i < N -> same_standing (InFlight (rs_out s)).[i] e ->
  e_slot e <> INVALID -> oa_mode a <> UNRELIABLE -> zlen (resends s) < RESENDS_PER_ASSOC_PER_TICK ->
  rs_out s' = (rs_out s) <| InFlight := (InFlight (rs_out s)).[i <- e] |> -> rs_pools s' = rs_pools s -> paced (rs_peer s) (rs_peer s') ->
  resends s' = resends s ++ [(e_seq e, e_slot e)] ->
  (resolvedBytes (rs_delta s') = resolvedBytes (rs_delta s) /\ resolvedPackets (rs_delta s') = resolvedPackets (rs_delta s) /\
   ackedBytes (rs_delta s') = ackedBytes (rs_delta s)) ->
  rescan_ok a p d Fs Fd tb tp s'.
Proof using Hw.
  intros [R1 [R2 R2'] R3 R4 R5 R6 [R7 R8] R9] Hi Hst Hsl Hmode Hroom Eo Ek Hp Er (D1&D2&D3).
  pose proof (so_ring _ _ (oo_shape _ _ _ _ _ _ _ R1)) as Hlen.
  destruct (standing_set w ns nd Hw (rs_out s) (rs_out s) (rs_out s') (rs_pools s) Fs Fd i e) as [Hs2 Ho2];
    [apply standing_refl|done|done|by rewrite Eo|by rewrite Eo|by rewrite Eo|done|].
  pose proof Hs2 as (F&U&L&St&B&C).
  split; rewrite ?Ek; try done.
  - split; [by eapply frame_trans|]. by rewrite Eo.
  - intros Hm. destruct (standing_set w ns nd Hw a (rs_out s) (rs_out s') (rs_pools s) Fs Fd i e) as [Hs3 _];
      [by apply R3|done|done|by rewrite Eo|by rewrite Eo|by rewrite Eo|done|done].
  - by eapply paced_trans.
  - destruct R5 as [A1 A2 A3 A4]. split; rewrite ?D1, ?D2, ?D3, ?B, ?C; done.
  - congruence.
  - rewrite Er, zlen_app. split; [unfold zlen at 2; cbn [length]; lia|]. intros q x [Hin|Hin]%elem_of_app.
    + destruct (R8 q x Hin) as (j&Hj&E1&E2&Hx). exists j. destruct (St j ltac:(lia)) as (S1&S2&_). split; [done|]. split_and!; congruence.
    + apply list_elem_of_singleton in Hin. simplify_eq. exists i. rewrite Eo. cbn. rewrite arr_get_set by lia. rewrite Z.eqb_refl. done.
Qed.

Lemma rescan_entry_ok f now rto a p d Fs Fd tb tp i s :
  0 <= i < N -> rescan_ok a p d Fs Fd tb tp s ->
  exists s', rescan_entry f now rto i s = Some s' /\ rescan_ok a p d Fs Fd tb tp s'.
Proof using Hw.
  intros Hi Hs. pose proof Hs as [R1 [R2 R2'] R3 R4 R5 R6 [R7 R8] R9].
  assert (Em : oa_mode (rs_out s) = oa_mode a) by apply R2.
  pose proof (out_entry_at w ns nd _ _ Fs Fd i R1 Hi) as [_ Hl]. unfold rescan_entry.
  set (e := (InFlight (rs_out s)).[i]) in *.
  assert (Hpeer : rescan_ok a p d Fs Fd tb tp (s <| rs_peer := (may_resend s e now).2 |>)).
  { split; try done. eapply paced_trans; [exact R4|]. apply may_resend_ok. }
  destruct (may_resend_ok s e now) as [Hpp Hroom].
  destruct (Z.eqb_spec (e_seq e) 0) as [|Hnz]; [by exists s|]. destruct (Hl Hnz) as (_&_&_&_&Hslot&Hack).
  destruct (e_acked e) eqn:Eacc.
  - destruct (_ || _); [by exists s|]. destruct (may_resend s e now) as [b p1]. cbn [fst snd] in *.
    destruct b; [|by eexists]. destruct (Hroom eq_refl) as [Hsl Hlt]. eexists. split; [reflexivity|].
    eapply (rescan_resend a p d Fs Fd tb tp s _ i (e <| e_sentAt := now |>)); try done.
    rewrite <- Em. intros E. by rewrite (Hack eq_refl) in E || (rewrite E in Hack; specialize (Hack eq_refl)).
  - destruct (_ <? rto); [by exists s|]. destruct (bool_decide_reflect (oa_mode (rs_out s) = UNRELIABLE)) as [Hun|Hrel].
    + destruct (ResolveOutEntry_ok w ns nd Hw (rs_out s) i false (rs_delta s) (rs_pools s) Fs Fd tb tp R1 Hi (or_intror Hun) R5)
        as (a'&d'&k'&ER&Ho'&Hf'&Hac'&Eb&Elr&El). rewrite ER. cbn [mbind option_bind]. eexists. split; [reflexivity|].
      cbn [andb] in Eb. split; try done.
      * split; [by eapply frame_trans|]. exact (eq_trans Elr R2').
      * intros Hm. congruence.
      * change (ackedBytes d' = ackedBytes d). lia.
      * change (zlen (resends s) <= RESENDS_PER_ASSOC_PER_TICK /\ forall q x, (q, x) ∈ resends s ->
          exists i, 0 <= i < N /\ e_seq (InFlight a').[i] = q /\ e_slot (InFlight a').[i] = x /\ x <> INVALID).
        split; [done|]. intros q x Hin. rewrite R9 in Hin by congruence. by apply not_elem_of_nil in Hin.
    + destruct (may_resend s e now) as [b p1]. cbn [fst snd] in *. destruct b; [|by eexists].
      destruct (Hroom eq_refl) as [Hsl Hlt]. cbv zeta. set (e2 := if e_freeResend _ then _ else _).
      assert (Hst : same_standing e e2 /\ e_slot e2 = e_slot e /\ e_seq e2 = e_seq e) by (subst e2; repeat case_match; by repeat split).
      clearbody e2. destruct Hst as (Hst&E1&E2). eexists. split; [reflexivity|].
      apply (rescan_resend a p d Fs Fd tb tp s _ i e2); try done; first [congruence|by rewrite E1, ?E2].
Qed.

Lemma RetransmitInflight_ok f a p now d k Fs Fd tb tp :
  ok a k Fs Fd -> acct a d tb tp ->
  exists dead s, RetransmitInflight f a p now d k = Some (dead, s) /\ rescan_ok a p d Fs Fd tb tp s /\
    dead = (0 <? pend_count a) && (death_bound f p <? Elapsed now (lastResolvedMicros a)) /\
    (dead = true -> s = mk_rescan a p d k []).
Proof using Hw.
  intros Ho Hac. unfold RetransmitInflight. rewrite <- (so_count _ _ (oo_shape _ _ _ _ _ _ _ Ho)).
  assert (H0 : rescan_ok a p d Fs Fd tb tp (mk_rescan a p d k [])).
  { split; cbn [rs_out rs_peer rs_delta rs_pools resends]; try done; try (by split; [apply frame_refl|]); try (intros; apply standing_refl).
    split; [done|]. intros q x Hin. by apply not_elem_of_nil in Hin. }
  destruct (_ && _) eqn:E; [by exists true, (mk_rescan a p d k [])|].
  rewrite (so_cap _ _ (oo_shape _ _ _ _ _ _ _ Ho)). pose proof (N_range w Hw).
  destruct (for_upM_inv (fun _ s => rescan_ok a p d Fs Fd tb tp s) 0 (Z.to_nat N) (rescan_entry f now (probe_interval f p now))
    (mk_rescan a p d k []) H0) as (s&Es&Hs).
  { intros i s Hi Hs. apply rescan_entry_ok; [lia|done]. }
  rewrite Es. cbn [mbind option_bind]. by exists false, s.
Qed.

(** ** The waiting queue *)

(** The part of the shape that is the queue's. *)
Record queue_ok a : Prop := {
  qo_cap : waitingCap a = 0 \/ exists v, 0 <= v <= 15 /\ waitingCap a = 2 ^ v;
  qo_len : zlen (Waiting a) = waitingCap a;
  qo_count : 0 <= waitingCount a <= waitingCap a /\ is_u32 (waitingHead a) }.

Lemma shape_queue a : shape_ok w a -> queue_ok a.
Proof using. intros Hs. split; apply Hs. Qed.

Definition wait_index a (j : Z) : Z := (waitingHead a + j) mod waitingCap a.

Lemma wait_at_index a j : queue_ok a -> 0 < waitingCap a -> 0 <= j -> wait_at a (u32 (waitingHead a + j)) = wait_index a j.
Proof using.
  intros Hs Hpos Hj. destruct (qo_cap _ Hs) as [|(v&Hv&E)]; [lia|]. unfold wait_at, wait_index. rewrite E, land_mask by lia.
  unfold u32. rewrite Z.mod_mod_divide; [done|]. exists (2 ^ (32 - v)). rewrite <- Z.pow_add_r by lia. f_equal. lia.
Qed.

Lemma wait_index_range a j : 0 < waitingCap a -> 0 <= wait_index a j < waitingCap a.
Proof using. intros. apply Z.mod_pos_bound. lia. Qed.

Lemma wait_index_inj a i j : 0 <= i < waitingCap a -> 0 <= j < waitingCap a -> wait_index a i = wait_index a j -> i = j.
Proof using. unfold wait_index. intros Hi Hj E. enough (waitingHead a + i = waitingHead a + j) by lia. by apply (mod_window_inj (waitingCap a) (waitingHead a)); [lia..|]. Qed.

Lemma waiting_list_index a : queue_ok a ->
  waiting_list a = map (fun j => (Waiting a).[wait_index a (Z.of_nat j)]) (seq 0 (Z.to_nat (waitingCount a))).
Proof using.
  intros Hs. unfold waiting_list. apply map_ext_in. intros j Hj%in_seq. pose proof (qo_count _ Hs).
  by rewrite wait_at_index by (done || lia).
Qed.

(** What a change of the queue leaves alone. *)
Definition frame_wait a a' : Prop :=
  (oa_mode a' = oa_mode a /\ inflightCap a' = inflightCap a /\ waitingCap a' = waitingCap a) /\
  (nextSeq a' = nextSeq a /\ ackBase a' = ackBase a) /\ (InFlight a' = InFlight a /\ unresolved a' = unresolved a) /\
  lastResolvedMicros a' = lastResolvedMicros a.

Lemma shape_wait a a' : shape_ok w a -> frame_wait a a' -> zlen (Waiting a') = zlen (Waiting a) ->
  0 <= waitingCount a' <= waitingCap a -> is_u32 (waitingHead a') -> Forall (fun x => is_wire (w_wireSize x)) (waiting_list a') -> shape_ok w a'.
Proof using.
  intros [Hc Hr Hn Hen Hcnt Hf Hwc Hwl Hwt Hsz] ((E1&E2&E3)&(E4&E5)&(E6&E7)&_) El Ec Eh.
  split; rewrite ?E1, ?E2, ?E3, ?E4, ?E5, ?E6, ?E7, ?El; try done. unfold pend_count. by rewrite E6.
Qed.

Lemma EnqueueWaiting_list a slot wireSize now : shape_ok w a -> is_wire wireSize -> waitingCount a < waitingCap a ->
  waiting_list (EnqueueWaiting a slot wireSize now) = waiting_list a ++ [mk_wait now slot wireSize] /\
  frame_wait a (EnqueueWaiting a slot wireSize now) /\ shape_ok w (EnqueueWaiting a slot wireSize now).
Proof using.
  intros Hs Hsz Hlt. pose proof (so_wait _ _ Hs) as [Hc Hh]. pose proof (so_wlen _ _ Hs) as Hl.
  assert (Hv : waitingCap a <= 2 ^ 15).
  { destruct (so_wcap _ _ Hs) as [->|(v&Hv&->)]; [lia|]. apply Z.pow_le_mono_r; lia. }
  set (a' := EnqueueWaiting a slot wireSize now).
  assert (Ew : Waiting a' = (Waiting a).[wait_index a (waitingCount a) <- mk_wait now slot wireSize]).
  { unfold a', EnqueueWaiting. rewrite <- wait_at_index by (by apply shape_queue || lia). done. }
  assert (Ec : waitingCount a' = waitingCount a + 1) by (change (u32 (waitingCount a + 1) = waitingCount a + 1); apply u32_small; lia).
  assert (Hf : frame_wait a a') by by repeat split.
  assert (Hq' : queue_ok a').
  { split; [exact (so_wcap _ _ Hs)|by rewrite Ew, zlen_set|]. split; [change (waitingCap a') with (waitingCap a); lia|done]. }
  assert (El : waiting_list a' = waiting_list a ++ [mk_wait now slot wireSize]).
  2: { split; [done|]. split; [done|]. apply (shape_wait a); [done..|by rewrite Ew, zlen_set|lia|done|].
       rewrite El. apply Forall_app. split; [apply (so_sizes _ _ Hs)|by apply Forall_singleton]. }
  rewrite !waiting_list_index by (done || by apply shape_queue). rewrite Ec, Z2Nat.inj_add, Nat.add_1_r, seq_S, map_app by lia. f_equal.
  - apply map_ext_in. intros j Hj%in_seq. change (wait_index a' (Z.of_nat j)) with (wait_index a (Z.of_nat j)). rewrite Ew.
    pose proof (wait_index_range a (waitingCount a) ltac:(lia)). pose proof (wait_index_range a (Z.of_nat j) ltac:(lia)).
    rewrite arr_get_set by lia. destruct (Z.eqb_spec (wait_index a (waitingCount a)) (wait_index a (Z.of_nat j))) as [E|]; [|done].
    apply wait_index_inj in E; lia.
  - cbn [map]. f_equal. change (wait_index a') with (wait_index a). rewrite Ew, Nat.add_0_l, Z2Nat.id by lia.
    pose proof (wait_index_range a (waitingCount a) ltac:(lia)). by rewrite arr_get_set_eq by lia.
Qed.

Lemma pop_waiting_queue a : queue_ok a -> 0 < waitingCount a ->
  waiting_list a = (Waiting a).[wait_at a (waitingHead a)] :: waiting_list (pop_waiting a) /\
  frame_wait a (pop_waiting a) /\ queue_ok (pop_waiting a) /\ waitingCount (pop_waiting a) = waitingCount a - 1.
Proof using.
  intros Hs Hpos. pose proof (qo_count _ Hs) as [Hc Hh]. pose proof (qo_len _ Hs) as Hl.
  assert (Hv : waitingCap a <= 2 ^ 15).
  { destruct (qo_cap _ Hs) as [->|(v&Hv&->)]; [lia|]. apply Z.pow_le_mono_r; lia. }
  pose proof (wait_at_index a 0 Hs ltac:(lia) ltac:(lia)) as E0. rewrite Z.add_0_r, u32_small in E0 by done.
  set (a' := pop_waiting a).
  assert (Ew : Waiting a' = (Waiting a).[wait_index a 0 <- free_waiting]) by (rewrite <- E0; done).
  assert (Ec : waitingCount a' = waitingCount a - 1) by (change (u32 (waitingCount a - 1) = waitingCount a - 1); apply u32_small; lia).
  assert (Hf : frame_wait a a') by by repeat split.
  assert (Hs' : queue_ok a').
  { split; [exact (qo_cap _ Hs)|by rewrite Ew, zlen_set|]. split; [change (waitingCap a') with (waitingCap a); lia|apply u32_range]. }
  split; [|done]. rewrite !waiting_list_index, E0, Ec by done.
  replace (Z.to_nat (waitingCount a)) with (Datatypes.S (Z.to_nat (waitingCount a - 1))) by lia. cbn [seq map]. f_equal.
  rewrite <- seq_shift, map_map. apply map_ext_in. intros j Hj%in_seq.
  assert (Ei : wait_index a' (Z.of_nat j) = wait_index a (Z.of_nat (Datatypes.S j))).
  { assert (0 < waitingCap a') by (change (0 < waitingCap a); lia). rewrite <- !wait_at_index by (done || lia). change (waitingHead a') with (u32 (waitingHead a + 1)).
    rewrite u32_add_l. unfold wait_at. change (waitingCap a') with (waitingCap a). by replace (waitingHead a + Z.of_nat (Datatypes.S j)) with (waitingHead a + 1 + Z.of_nat j) by lia. }
  rewrite Ei, Ew. pose proof (wait_index_range a 0 ltac:(lia)). pose proof (wait_index_range a (Z.of_nat (Datatypes.S j)) ltac:(lia)).
  rewrite arr_get_set by lia. destruct (Z.eqb_spec (wait_index a 0) (wait_index a (Z.of_nat (Datatypes.S j)))) as [E|]; [|done].
  apply wait_index_inj in E; lia.
Qed.

Lemma pop_waiting_list a : shape_ok w a -> 0 < waitingCount a ->
  waiting_list a = (Waiting a).[wait_at a (waitingHead a)] :: waiting_list (pop_waiting a) /\
  frame_wait a (pop_waiting a) /\ shape_ok w (pop_waiting a) /\ waitingCount (pop_waiting a) = waitingCount a - 1.
Proof using.
  intros Hs Hpos. destruct (pop_waiting_queue a (shape_queue a Hs) Hpos) as (El&Hf&Hq&Ec). split; [done|]. split; [done|]. split; [|done].
  apply (shape_wait a); try done; [|apply (qo_count _ Hq)|apply (qo_count _ Hq)|pose proof (so_sizes _ _ Hs) as Hsz; rewrite El in Hsz; by apply Forall_cons in Hsz as [_ ?]].
  rewrite (qo_len _ Hq), (so_wlen _ _ Hs). apply Hf.
Qed.

(** ** A packet joins the ring *)

(** The peer's sums are this association's part and the others'. *)
Definition charged a p (Xb Xp : Z) : Prop :=
  bytesInFlight (p_cc p) = pend_bytes a + Xb /\ outstandingToPeer (p_cc p) = pend_count a + Xp /\
  (0 <= Xb /\ Xb + UINT16_MAX * N <= UINT32_MAX) /\ (0 <= Xp /\ Xp + N <= UINT32_MAX).

Lemma charged_same a a' p p' Xb Xp :
  charged a p Xb Xp -> pend_bytes a' = pend_bytes a -> pend_count a' = pend_count a -> paced p p' -> charged a' p' Xb Xp.
Proof using. intros (?&?&?&?) E1 E2 (E3&_). unfold charged. by rewrite E1, E2, E3. Qed.

Lemma Stamp_ok a p packet slot ws flying now k Fs Fd Xb Xp :
  ok a k (slot_of slot ++ Fs) Fd -> (slot = INVALID <-> oa_mode a = UNRELIABLE) -> e_seq (InFlight a).[nextSeq a mod N] = 0 ->
  is_wire ws -> is_u32 (nextSeq a + 1) -> charged a p Xb Xp ->
  let '(a', p', packet') := StampFlowPacket a p packet slot ws flying now in
  ok a' k Fs Fd /\ charged a' p' Xb Xp /\ nextSeq a' = nextSeq a + 1 /\ waiting_list a' = waiting_list a /\ oa_mode a' = oa_mode a /\
  packet' = stamp_packet packet (nextSeq a) (oa_flowEpoch a) /\ lastResolvedMicros a' = lastResolvedMicros a /\
  InFlight a' = (InFlight a).[nextSeq a mod N <-
    mk_fly (if flying then now else 0) (nextSeq a) slot ws 0 (congestionEpoch (p_cc p)) false false false] /\ unresolved a' = unresolved a + 1.
Proof using Hw.
  intros [Hs Hst Hsd] Hslot Hfree Hws H32 Hch. pose proof Hs as [Hc Hr [Hn Hn32] Hen Hcnt Hf Hwc Hwl Hwt Hsz]. pose proof (N_range w Hw) as HN.
  unfold StampFlowPacket. rewrite (ring_at_mod w Hw _ _ Hc). set (i := nextSeq a mod N) in *.
  assert (Hi : 0 <= i < N) by (subst i; apply Z.mod_pos_bound; lia).
  set (e := mk_fly _ _ _ _ _ _ _ _ _). set (a' := upd nextSeq _ _). set (p' := upd p_cc _ (SpendPacing _ _)).
  assert (El : InFlight a' = (InFlight a).[i <- e]) by done.
  assert (En : nextSeq a' = nextSeq a + 1) by (apply after_seq_small; lia).
  assert (Hp0 : pend (InFlight a).[i] = false) by (unfold pend; by rewrite Hfree).
  assert (Hpe : pend e = true) by (unfold pend; cbn; destruct (Z.eqb_spec (nextSeq a) 0); [lia|done]).
  pose proof (pend_bytes_set w a a' i e Hs Hi El) as P1. pose proof (pend_count_set w a a' i e Hs Hi El) as P2.
  rewrite Hp0, Hpe in P1, P2. change (e_wireSize e) with ws in P1.
  pose proof (pend_bounds w Hw a Hs) as [Hb1 Hb2]. destruct Hch as (C1&C2&C3&C4).
  assert (Eu : unresolved a' = unresolved a + 1).
  { change (u32 (unresolved a + 1) = unresolved a + 1). rewrite Hcnt. apply u32_small. lia. }
  assert (Hs' : shape_ok w a').
  { split; try done.
    - by rewrite El, zlen_set.
    - change (1 <= ackBase a <= nextSeq a' /\ is_u32 (nextSeq a')). rewrite En. split; [lia|done].
    - intros j Hj. rewrite El, arr_get_set by lia. rewrite En. change (oa_mode a') with (oa_mode a). change (ackBase a') with (ackBase a).
      destruct (Z.eqb_spec i j) as [<-|Hij].
      + split; [cbn; lia|]. intros _. cbn. split_and!; try done; lia.
      + destruct (Hen j Hj) as [F1 F2]. split; [done|]. intros Hnz. destruct (F2 Hnz) as (G1&G2&G3&G4). split; [lia|]. split; [|done].
        assert (nextSeq a <> e_seq (InFlight a).[j] + N); [|lia]. intros E. apply Hij. subst i. rewrite E. etransitivity; [|exact G3].
        replace (e_seq (InFlight a).[j] + N) with (e_seq (InFlight a).[j] + 1 * N) by lia. apply Z_mod_plus_full.
    - rewrite Eu, Hcnt. lia.
    - change (IsOrdered (oa_mode a) = true -> forall s, ackBase a <= s < nextSeq a' -> e_seq (InFlight a').[s mod N] = s). rewrite En, El.
      intros Hord s Hs'. pose proof (Z.mod_pos_bound s N ltac:(lia)). rewrite arr_get_set by lia.
      destruct (Z.eqb_spec i (s mod N)) as [E|E].
      + cbn. destruct (decide (s = nextSeq a)) as [|Hne]; [done|]. exfalso. specialize (Hf Hord s ltac:(lia)). rewrite <- E in Hf. lia.
      + apply Hf; [done|]. assert (s <> nextSeq a) by (intros ->; done). lia. }
  pose proof (ring_slots_set w a a' i e Hs Hi El) as HP. pose proof (pend_bounds w Hw a' Hs') as [Hb3 Hb4].
  rewrite (eo_free _ _ _ _ _ _ (Hen i Hi) Hfree) in HP. change (slot_of INVALID) with (@nil Z) in HP. cbn [app] in HP.
  split; [split; [done| |done]|].
  - change (al_owns (staging k) ns (ring_slots a' ++ (if unreliable a then [] else wait_slots a) ++ Fs)).
    eapply al_perm; [|exact Hst]. rewrite HP. change (e_slot e) with slot. rewrite <- !app_assoc. rewrite !(Permutation_app_comm (slot_of slot)), <- !app_assoc. done.
  - split; [|by split_and!]. split; [|split; [|done]].
    + change (u32 (bytesInFlight (p_cc p) + ws) = pend_bytes a' + Xb). rewrite u32_small; [lia|]. unfold UINT32_MAX, UINT16_MAX in *. lia.
    + change (u32 (outstandingToPeer (p_cc p) + 1) = pend_count a' + Xp). rewrite u32_small; [lia|]. unfold UINT32_MAX in *. lia.
Qed.

(** ** A packet joins the queue, and leaves it *)

(** The slot [x], in the pool the mode waits in. *)
Definition with_staging (mode : FlowMode) x (Fs : list Z) : list Z := if bool_decide (mode = UNRELIABLE) then Fs else x :: Fs.
Definition with_sending (mode : FlowMode) x (Fd : list Z) : list Z := if bool_decide (mode = UNRELIABLE) then x :: Fd else Fd.

Lemma frame_wait_mode a a' : frame_wait a a' -> unreliable a' = unreliable a /\ ring_slots a' = ring_slots a /\ oa_mode a' = oa_mode a /\
  pend_bytes a' = pend_bytes a /\ pend_count a' = pend_count a.
Proof using.
  intros ((E1&_)&_&(E2&_)&_). unfold unreliable, ring_slots, pend_bytes, pend_count. by rewrite E1, E2.
Qed.

Lemma enqueue_ok a x ws now k Fs Fd :
  ok a k (with_staging (oa_mode a) x Fs) (with_sending (oa_mode a) x Fd) -> is_wire ws -> waitingCount a < waitingCap a ->
  ok (EnqueueWaiting a x ws now) k Fs Fd.
Proof using.
  intros [Hs Hst Hsd] Hws Hlt. destruct (EnqueueWaiting_list a x ws now Hs Hws Hlt) as (El&Hf&Hs').
  destruct (frame_wait_mode _ _ Hf) as (Em&Er&_). unfold with_staging, with_sending in *. fold (unreliable a) in *.
  assert (Ew : wait_slots (EnqueueWaiting a x ws now) ≡ₚ x :: wait_slots a).
  { unfold wait_slots. rewrite El, map_app. cbn. symmetry. apply Permutation_cons_append. }
  split; [done|..]; rewrite ?Em, ?Er; destruct (unreliable a); cbn [app] in *; try done.
  - eapply al_perm; [|exact Hst]. rewrite Ew. by rewrite <- (Permutation_middle (wait_slots a) Fs).
  - eapply al_perm; [|exact Hsd]. rewrite Ew. by rewrite <- Permutation_middle.
Qed.

Definition oldest a : WaitingEntry := (Waiting a).[wait_at a (waitingHead a)].

Lemma pop_ok a k Fs Fd :
  ok a k Fs Fd -> 0 < waitingCount a ->
  ok (pop_waiting a) k (with_staging (oa_mode a) (w_slot (oldest a)) Fs) (with_sending (oa_mode a) (w_slot (oldest a)) Fd).
Proof using.
  intros [Hs Hst Hsd] Hpos. destruct (pop_waiting_list a Hs Hpos) as (El&Hf&Hs'&_).
  destruct (frame_wait_mode _ _ Hf) as (Em&Er&_). unfold with_staging, with_sending. fold (unreliable a).
  assert (Ew : wait_slots a = w_slot (oldest a) :: wait_slots (pop_waiting a)) by (unfold wait_slots; by rewrite El).
  rewrite Ew in Hst, Hsd.
  split; [done|..]; rewrite ?Em, ?Er; destruct (unreliable a); cbn [app] in *; try done.
  - eapply al_perm; [|exact Hst]. apply Permutation_app_head. apply Permutation_middle.
  - eapply al_perm; [|exact Hsd]. apply Permutation_middle.
Qed.

(** ** The gate and the admission *)

Lemma CanSend_free a p ws windowed : shape_ok w a -> CanSend a p ws windowed = true -> e_seq (InFlight a).[nextSeq a mod N] = 0.
Proof using Hw.
  intros Hs. unfold CanSend. destruct (windowed && _); [done|]. destruct (_ <? _); [done|]. destruct (_ && _); [done|].
  rewrite (ring_at_mod w Hw _ _ (so_cap _ _ Hs)). apply Z.eqb_eq.
Qed.

(** The slot a packet is stamped with. *)
Lemma stamp_slot a x k Fs Fd :
  ok a k (with_staging (oa_mode a) x Fs) (with_sending (oa_mode a) x Fd) ->
  ok a k (slot_of (if unreliable a then INVALID else x) ++ Fs) (if unreliable a then x :: Fd else Fd) /\
  ((if unreliable a then INVALID else x) = INVALID <-> oa_mode a = UNRELIABLE).
Proof using.
  intros Ho. unfold with_staging, with_sending, unreliable in *. destruct (bool_decide_reflect (oa_mode a = UNRELIABLE)); [done|].
  assert (x <> INVALID).
  { eapply (owned_valid (staging k) ns); [exact (oo_staging _ _ _ _ _ _ _ Ho)|]. rewrite !elem_of_app. right; right. left. }
  unfold slot_of. destruct (Z.eqb_spec x INVALID); done.
Qed.

(** What the verdict leaves the caller. *)
Definition kept (v : SendAdmission) (mode : FlowMode) : bool :=
  match v with Sent => bool_decide (mode = UNRELIABLE) | Queued => false | _ => true end.

Definition admitted a p (ws x : Z) (flying : bool) (now : Z) (packet : PacketSlot) (v : SendAdmission) a' (packet' : PacketSlot) : Prop :=
  match v with
  | Sent =>
      CanSend a p ws (negb (unreliable a)) = true /\ waitingCount a = 0 /\ nextSeq a' = nextSeq a + 1 /\
      waiting_list a' = waiting_list a /\ packet' = stamp_packet packet (nextSeq a) (oa_flowEpoch a) /\
      InFlight a' = (InFlight a).[nextSeq a mod N <-
        mk_fly (if flying then now else 0) (nextSeq a) (if unreliable a then INVALID else x) ws 0 (congestionEpoch (p_cc p)) false false false]
  | Queued =>
      frame_wait a a' /\ packet' = packet /\
      waiting_list a' = (if waitingCount a <? waitingCap a then waiting_list a else tail (waiting_list a)) ++ [mk_wait now x ws] /\
      (waitingCount a < waitingCap a \/ oa_mode a = UNRELIABLE)
  | Dropped => a' = a /\ packet' = packet /\ oa_mode a = UNRELIABLE
  | Rejected => a' = a /\ packet' = packet /\ oa_mode a <> UNRELIABLE /\ waitingCount a = waitingCap a
  | Dead => a' = a /\ packet' = packet
  end.

(** A full queue of an unreliable association gives up its oldest packet. *)
Lemma replace_ok a x ws now k Fs Fd :
  ok a k (with_staging (oa_mode a) x Fs) (with_sending (oa_mode a) x Fd) -> is_wire ws -> oa_mode a = UNRELIABLE -> 0 < waitingCap a -> waitingCap a <= waitingCount a ->
  exists s, al_release (sending k) (w_slot (oldest a)) = Some s /\
    ok (EnqueueWaiting (pop_waiting a) x ws now) (k <| sending := s |>) Fs Fd /\
    waiting_list (EnqueueWaiting (pop_waiting a) x ws now) = tail (waiting_list a) ++ [mk_wait now x ws] /\
    frame_wait a (EnqueueWaiting (pop_waiting a) x ws now).
Proof using.
  intros Ho Hws Hmode Hpos Hfull. pose proof (oo_shape _ _ _ _ _ _ _ Ho) as Hs. pose proof (so_wait _ _ Hs) as [Hwc _].
  pose proof (pop_ok a k _ _ Ho ltac:(lia)) as Hpop. destruct (pop_waiting_list a Hs ltac:(lia)) as (El1&Hf1&Hs1&Ec1).
  destruct (frame_wait_mode _ _ Hf1) as (_&_&Em1&_). fold (oldest a) in El1. unfold with_staging, with_sending in *.
  rewrite Hmode, bool_decide_true in Hpop by done.
  destruct Hpop as [_ Hst1 Hsd1]. unfold unreliable in Hst1, Hsd1. rewrite Em1, Hmode, bool_decide_true in Hst1, Hsd1 by done.
  eapply al_perm in Hsd1; [|symmetry; apply Permutation_middle].
  destruct (al_release_ok _ _ _ _ Hsd1) as (s'&Es&Hsd2). exists s'. split; [done|].
  assert (Hlt1 : waitingCount (pop_waiting a) < waitingCap (pop_waiting a)) by (rewrite Ec1; change (waitingCount a - 1 < waitingCap a); lia).
  destruct (EnqueueWaiting_list (pop_waiting a) x ws now Hs1 Hws Hlt1) as (El2&_). split; [|split; [by rewrite El2, El1|by repeat split]].
  apply enqueue_ok; [|done|done]. unfold with_staging, with_sending. rewrite Em1, Hmode, bool_decide_true by done.
  split; [done|..]; unfold unreliable; rewrite Em1, Hmode, bool_decide_true by done; [done|].
  eapply al_perm; [|exact Hsd2]. cbn [sending]. done.
Qed.

Lemma AdmitAssoc_ok a p k packet flowId x ws flying now Fs Fd Xb Xp :
  ok a k (with_staging (oa_mode a) x Fs) (with_sending (oa_mode a) x Fd) ->
  is_wire ws -> is_u32 (nextSeq a + 1) -> charged a p Xb Xp ->
  exists v a' p' packet' k', AdmitAssoc a p k packet flowId x ws flying now = Some (v, a', p', packet', k') /\
    ok a' k' (if kept v (oa_mode a) then with_staging (oa_mode a) x Fs else Fs) (if kept v (oa_mode a) then with_sending (oa_mode a) x Fd else Fd) /\
    charged a' p' Xb Xp /\ oa_mode a' = oa_mode a /\ lastResolvedMicros a' = lastResolvedMicros a /\
    (v = Dead <-> oa_life a <> OPEN \/ oa_flowId a <> flowId) /\ admitted a p ws x flying now packet v a' packet'.
Proof using Hw.
  intros Ho Hws H32 Hch. pose proof (oo_shape _ _ _ _ _ _ _ Ho) as Hs. unfold AdmitAssoc.
  destruct (bool_decide_reflect (oa_life a = OPEN)) as [Hopen|Hnot]; cbn [negb orb].
  2: { exists Dead, a, p, packet, k. cbn [kept]. split_and!; try done. split; [by left|done]. }
  destruct (Z.eqb_spec (oa_flowId a) flowId) as [Hid|Hid]; cbn [negb].
  2: { exists Dead, a, p, packet, k. cbn [kept]. split_and!; try done. split; [by right|done]. }
  assert (Hdead : forall v, v <> Dead -> (v = Dead <-> oa_life a <> OPEN \/ oa_flowId a <> flowId)) by (intros v Hv; split; [done|by intros [?|?]]).
  fold (unreliable a). set (room := (waitingCount a =? 0) && CanSend a p ws (negb (unreliable a))).
  assert (HP : exists passes p1, (if room then PacingAllows p now ws else (false, p)) = (passes, p1) /\ paced p p1 /\ (passes = true -> room = true)).
  { destruct room eqn:Er; [|by exists false, p]. pose proof (PacingAllows_paced p now ws). destruct (PacingAllows p now ws) as [b p1]. by exists b, p1. }
  destruct HP as (passes&p1&->&Hp1&Hroom). pose proof (charged_same a a p p1 Xb Xp Hch eq_refl eq_refl Hp1) as Hch1.
  destruct passes.
  - specialize (Hroom eq_refl). subst room. apply andb_true_iff in Hroom as [Hz%Z.eqb_eq Hcan].
    pose proof (CanSend_free _ _ _ _ Hs Hcan) as Hfree.
    destruct (stamp_slot a x k Fs Fd Ho) as [Hok1 Hsl].
    pose proof (Stamp_ok a p1 packet (if unreliable a then INVALID else x) ws flying now k _ _ Xb Xp Hok1 Hsl Hfree Hws H32 Hch1) as HS.
    destruct (StampFlowPacket _ _ _ _ _ _ _) as [[a' p'] packet']. destruct HS as (Ho'&Hc'&En&Ew&Em&Ep&El&EI&_).
    exists Sent, a', p', packet', k. split; [done|]. cbn [kept]. fold (unreliable a).
    split; [unfold with_staging, with_sending; fold (unreliable a); by destruct (unreliable a)|]. split; [done|]. split; [done|]. split; [done|]. split; [by apply Hdead|].
    cbn [admitted]. destruct Hp1 as (E1&_). rewrite E1 in EI. by split_and!.
  - pose proof (so_wait _ _ Hs) as [Hwc _]. destruct (Z.ltb_spec (waitingCount a) (waitingCap a)) as [Hlt|Hge].
    { destruct (EnqueueWaiting_list a x ws now Hs Hws Hlt) as (El&Hf&_). destruct (frame_wait_mode _ _ Hf) as (_&_&Em&Eb&Ec).
      exists Queued, (EnqueueWaiting a x ws now), p1, packet, k. split; [done|]. cbn [kept].
      split; [by apply enqueue_ok|]. split; [by apply (charged_same a _ p)|]. split; [done|]. split; [done|]. split; [by apply Hdead|].
      cbn [admitted]. destruct (Z.ltb_spec (waitingCount a) (waitingCap a)); [|lia]. by split_and!; try left. }
    destruct (unreliable a) eqn:Eun; cbn [negb].
    2: { exists Rejected, a, p1, packet, k. cbn [kept]. do 5 (split; [done|]). split; [by apply Hdead|].
         cbn [admitted]. unfold unreliable in Eun. rewrite bool_decide_eq_false in Eun. split_and!; try done. lia. }
    assert (Hmode : oa_mode a = UNRELIABLE) by (unfold unreliable in Eun; by rewrite bool_decide_eq_true in Eun).
    destruct (Z.ltb_spec 0 (waitingCap a)) as [Hpos|].
    2: { exists Dropped, a, p1, packet, k. cbn [kept]. do 5 (split; [done|]). by split; [apply Hdead|]. }
    destruct (replace_ok a x ws now k Fs Fd Ho Hws Hmode Hpos ltac:(lia)) as (s'&Es&Ho'&El&Hf). fold (oldest a). rewrite Es. cbn [mbind option_bind].
    destruct (frame_wait_mode _ _ Hf) as (_&_&Em&Eb&Ec). eexists Queued, _, p1, packet, _. split; [reflexivity|]. cbn [kept].
    split; [exact Ho'|]. split; [by apply (charged_same a _ p)|]. split; [done|]. split; [apply Hf|]. split; [by apply Hdead|].
    cbn [admitted]. destruct (Z.ltb_spec (waitingCount a) (waitingCap a)); [lia|]. rewrite El. split_and!; try done. by right.
Qed.

(** ** The waiting queue's drain *)

Definition claimed a p (c : WaitingCandidate) (now : Z) (packet : PacketSlot) a' (packet' : PacketSlot) : Prop :=
  waiting_list a = oldest a :: waiting_list a' /\ w_slot (oldest a) = wc_packet c /\ oa_epoch a = wc_epoch c /\ oa_life a = OPEN /\
  CanSend a p (w_wireSize (oldest a)) (negb (unreliable a)) = true /\
  nextSeq a' = nextSeq a + 1 /\ packet' = stamp_packet packet (nextSeq a) (oa_flowEpoch a) /\
  InFlight a' = (InFlight a).[nextSeq a mod N <-
    mk_fly now (nextSeq a) (if unreliable a then INVALID else wc_packet c) (w_wireSize (oldest a)) 0 (congestionEpoch (p_cc p)) false false false].

Lemma ClaimWaiting_ok c a p packet now k Fs Fd Xb Xp :
  ok a k Fs Fd -> (oa_epoch a = wc_epoch c -> wc_mode c = oa_mode a) -> is_u32 (nextSeq a + 1) -> charged a p Xb Xp ->
  let '(b, a', p', packet') := ClaimWaiting c a p packet now in
  charged a' p' Xb Xp /\ oa_mode a' = oa_mode a /\ lastResolvedMicros a' = lastResolvedMicros a /\
  ok a' k Fs (if b && unreliable a then wc_packet c :: Fd else Fd) /\
  if b then claimed a p c now packet a' packet' else a' = a /\ packet' = packet.
Proof using Hw.
  intros Ho Hm H32 Hch. pose proof (oo_shape _ _ _ _ _ _ _ Ho) as Hs. unfold ClaimWaiting.
  destruct (Z.eqb_spec (oa_epoch a) (wc_epoch c)) as [Hep|]; [|by split_and!].
  destruct (bool_decide_reflect (oa_life a = OPEN)) as [Hopen|]; [|by split_and!].
  destruct (Z.ltb_spec 0 (waitingCount a)) as [Hpos|]; [|by split_and!]. cbn [andb]. fold (oldest a) (unreliable a).
  destruct (Z.eqb_spec (w_slot (oldest a)) (wc_packet c)) as [Hx|]; [|by split_and!].
  destruct (CanSend _ _ _ _) eqn:Hcan; [|by split_and!]. cbn [andb].
  pose proof (PacingAllows_paced p now (w_wireSize (oldest a))) as Hp1. destruct (PacingAllows _ _ _) as [b p1]. cbn [snd] in Hp1.
  pose proof (charged_same a a p p1 Xb Xp Hch eq_refl eq_refl Hp1) as Hch1. destruct b; [|by split_and!].
  destruct (pop_waiting_list a Hs Hpos) as (El&Hf&Hs1&_). destruct (frame_wait_mode _ _ Hf) as (Eun&_&Em&Eb&Ec).
  pose proof (pop_ok a k Fs Fd Ho Hpos) as Ho1. rewrite Hx in Ho1. rewrite (Hm Hep). fold (unreliable a).
  assert (Hws : is_wire (w_wireSize (oldest a))) by (pose proof (so_sizes _ _ Hs) as Hsz; rewrite El in Hsz; by apply Forall_cons in Hsz as [? _]).
  pose proof (CanSend_free _ _ _ _ Hs Hcan) as Hfree.
  rewrite <- Em in Ho1. destruct (stamp_slot (pop_waiting a) (wc_packet c) k Fs Fd Ho1) as [Hok1 Hsl]. rewrite Eun in Hok1, Hsl.
  pose proof (Stamp_ok (pop_waiting a) p1 packet _ (w_wireSize (oldest a)) true now k Fs _ Xb Xp Hok1 Hsl Hfree Hws H32) as HS.
  destruct (StampFlowPacket _ _ _ _ _ _ _) as [[a' p'] packet'].
  destruct HS as (Ho'&Hc'&En&Ew&Em'&Ep&El'&EI&_); [by apply (charged_same a _ p)|].
  split; [done|]. split; [congruence|]. split; [exact El'|]. split; [done|]. unfold claimed. rewrite Ew.
  destruct Hp1 as (E1&_). rewrite E1 in EI. by split_and!.
Qed.
End Steps.
