(* ===== verification/OutEnd.v ===== *)
(** * Sending half of a flow: how an association ends

    Both ways an association ends drain its two rings: every copy goes back to its
    pool, every waiting packet too, and the bytes and packets still charged come back
    off the peer. *)

From S2P Require Import Prelude Wire Keys FlowData SlotPool Rtt Delivery Curve Congestion Peer InFlow Packet OutFlow OutRetransmit OutInvariant OutSteps OutSend.

Implicit Types (a : OutAssociation) (e : InFlightEntry) (p : Peer).

Section End.
Context {S : Type} `{!Allocator S} (w ns nd : Z) (Hw : 6 <= w <= 15).
Implicit Types (k : OutPools S).
Abbreviation N := (2 ^ w).
Abbreviation ok := (out_ok w ns nd).

Definition drained_entry e : InFlightEntry := e <| e_slot := INVALID |> <| e_seq := 0 |> <| e_wireSize := 0 |> <| e_acked := false |>.

(** Before entry [i]: those below are free, what they were charged is counted. *)
Record drain_ok a k0 (l : list Z) (i : Z) (st : OutAssociation * Z * Z * OutPools S) : Prop := {
  dr_frame : frame a st.1.1.1 /\ lastResolvedMicros st.1.1.1 = lastResolvedMicros a /\ zlen (InFlight st.1.1.1) = N;
  dr_sums : st.1.1.2 + pend_bytes st.1.1.1 = pend_bytes a /\ st.1.2 + pend_count st.1.1.1 = pend_count a /\ 0 <= st.1.1.2 /\ 0 <= st.1.2;
  dr_done : forall j, 0 <= j < i -> (InFlight st.1.1.1).[j] = drained_entry (InFlight a).[j];
  dr_todo : forall j, i <= j < N -> (InFlight st.1.1.1).[j] = (InFlight a).[j];
  dr_pools : al_owns (staging st.2) ns (ring_slots st.1.1.1 ++ l) /\ sending st.2 = sending k0 }.

Lemma pend_size a i : shape_ok w a -> 0 <= i < N -> pend (InFlight a).[i] = true -> 0 <= e_wireSize (InFlight a).[i].
Proof using.
  intros Hs Hi Hp. destruct (so_entry _ _ Hs i Hi) as [_ Hl]. unfold pend in Hp. bprop. destruct (Hl ltac:(done)) as (_&_&_&?&_). lia.
Qed.

Lemma drain_entry_ok a k0 l i st :
  shape_ok w a -> 0 <= i < N -> drain_ok a k0 l i st -> exists st', drain_entry i st = Some st' /\ drain_ok a k0 l (i + 1) st'.
Proof using Hw.
  destruct st as [[[a1 bytes] packets] k]. intros Hs Hi [(D1&D1'&D1'') (D2&D3&D4&D5) D6 D7 [D8 D9]]. cbn [fst snd] in *. unfold drain_entry.
  pose proof (pend_bounds w Hw a Hs) as [Hb1 Hb2]. pose proof (N_range w Hw).
  assert (Hin : InFlight a1 !! Z.to_nat i = Some (InFlight a1).[i]).
  { unfold arr_get. apply list_lookup_lookup_total_lt. unfold zlen in D1''. lia. }
  set (e := (InFlight a1).[i]) in *. set (rest := concat (map (fun e => slot_of (e_slot e)) (delete (Z.to_nat i) (InFlight a1)))).
  assert (D8' : al_owns (staging k) ns (slot_of (e_slot e) ++ rest ++ l)).
  { eapply al_perm; [|exact D8]. rewrite app_assoc. apply Permutation_app_tail.
    exact (concat_map_lookup (fun e => slot_of (e_slot e)) _ _ _ Hin). }
  destruct (release_staging_ok ns k _ _ D8') as (k'&Er&Ho&Esd).
  set (a2 := a1 <| InFlight := (InFlight a1).[i <- drained_entry e] |>).
  assert (Hring : ring_slots a2 ≡ₚ rest).
  { exact (concat_map_insert (fun e => slot_of (e_slot e)) _ _ e (drained_entry e) Hin). }
  assert (Hz : forall f : InFlightEntry -> Z, zsum f (InFlight a2) = zsum f (InFlight a1) - f e + f (drained_entry e))
    by (intros f; apply zsum_set; lia).
  pose proof (Hz (fun e => if pend e then e_wireSize e else 0)) as Z1. pose proof (Hz (fun e => if pend e then 1 else 0)) as Z2.
  cbv beta in Z1, Z2. change (pend (drained_entry e)) with false in Z1, Z2. fold (pend_bytes a2) (pend_bytes a1) in Z1. fold (pend_count a2) (pend_count a1) in Z2.
  cbv iota in Z1, Z2. fold (pend e).
  assert (Hb : exists b c, (if pend e then (u32 (bytes + e_wireSize e), u32 (packets + 1)) else (bytes, packets)) = (b, c) /\
    b + pend_bytes a2 = pend_bytes a /\ c + pend_count a2 = pend_count a /\ 0 <= b /\ 0 <= c).
  { assert (Hat : forall j, 0 <= j < zlen (InFlight a2) -> pend (InFlight a2).[j] = true -> 0 <= e_wireSize (InFlight a2).[j]).
    { intros j Hj. cbn in Hj |- *. rewrite zlen_set in Hj. rewrite arr_get_set by lia. destruct (Z.eqb_spec i j) as [<-|]; [done|].
      destruct (Z.ltb_spec j i); [by rewrite D6 by lia|]. rewrite D7 by lia. apply pend_size; [done|lia]. }
    assert (Hnn : 0 <= pend_bytes a2 /\ 0 <= pend_count a2).
    { split; apply zsum_nonneg; intros x Hx; destruct (pend x) eqn:Ex; try lia. apply list_elem_of_arr in Hx as (j&Hj&<-). by apply Hat. }
    destruct (pend e) eqn:Ep.
    - assert (He : 0 <= e_wireSize e) by (subst e; rewrite D7 in Ep |- * by lia; by apply pend_size).
      eexists _, _. split; [reflexivity|]. unfold UINT16_MAX in Hb2. rewrite !u32_small by lia. lia.
    - exists bytes, packets. split_and!; try done; lia. }
  destruct Hb as (b&c&->&B1&B2&B3&B4). rewrite Er. cbn [mbind option_bind]. exists (a2, b, c, k'). split; [reflexivity|].
  split; cbn [fst snd].
  - split; [by eapply frame_trans; [exact D1|]|]. split; [done|]. cbn. by rewrite zlen_set.
  - done.
  - intros j Hj. cbn. rewrite arr_get_set by lia. destruct (Z.eqb_spec i j) as [<-|]; [|apply D6; lia].
    subst e. by rewrite D7 by lia.
  - intros j Hj. cbn. rewrite arr_get_set by lia. destruct (Z.eqb_spec i j); [lia|]. apply D7. lia.
  - split; [|congruence]. eapply al_perm; [|exact Ho]. by rewrite Hring.
Qed.

Lemma DrainOutInflight_ok a k Fs Fd :
  ok a k Fs Fd ->
  exists a' k', DrainOutInflight a k = Some (a', pend_bytes a, pend_count a, k') /\
    frame a a' /\ lastResolvedMicros a' = lastResolvedMicros a /\ unresolved a' = 0 /\
    (forall i, 0 <= i < N -> (InFlight a').[i] = drained_entry (InFlight a).[i]) /\
    al_owns (staging k') ns ((if unreliable a then [] else wait_slots a) ++ Fs) /\ sending k' = sending k.
Proof using Hw.
  intros [Hs Hst Hsd]. unfold DrainOutInflight. rewrite (so_cap _ _ Hs). pose proof (N_range w Hw).
  set (l := (if unreliable a then [] else wait_slots a) ++ Fs) in *.
  destruct (for_upM_inv (fun i st => drain_ok a k l i st) 0 (Z.to_nat N) drain_entry (a, 0, 0, k)) as (st&Es&Hd).
  - split; cbn [fst snd]; try done; [by split_and!; [apply frame_refl| |apply (so_ring _ _ Hs)]|intros; lia].
  - intros i st Hi Hd. apply drain_entry_ok; [done|lia|done].
  - destruct st as [[[a1 b] c] k1]. rewrite Es. cbn [mbind option_bind]. destruct Hd as [(D1&D1'&D1'') (D2&D3&_) D6 _ [D8 D9]].
    cbn [fst snd] in *. rewrite Z.add_0_l, Z2Nat.id in D6 by lia.
    assert (Hfree : forall x, x ∈ InFlight a1 -> pend x = false /\ slot_of (e_slot x) = []).
    { intros x Hx. apply list_elem_of_arr in Hx as (j&Hj&<-). rewrite D6 by lia. done. }
    assert (Hz : pend_bytes a1 = 0 /\ pend_count a1 = 0 /\ ring_slots a1 = []).
    { clear -Hfree. unfold pend_bytes, pend_count, ring_slots, zsum. induction (InFlight a1) as [|x r IH]; [done|].
      destruct (Hfree x ltac:(left)) as [Ex Ey]. destruct IH as (I1&I2&I3); [intros y Hy; apply Hfree; by right|].
      cbn. rewrite Ex, Ey. by rewrite I1, I2, I3. }
    destruct Hz as (Z1&Z2&Z3). rewrite Z3 in D8. exists (a1 <| unresolved := 0 |>), k1.
    assert (b = pend_bytes a) as -> by lia. assert (c = pend_count a) as -> by lia. by split_and!.
Qed.

Lemma drain_waiting_ok Fs Fd : forall fuel a k,
  queue_ok a -> waitingCount a = Z.of_nat fuel ->
  al_owns (staging k) ns ((if unreliable a then [] else wait_slots a) ++ Fs) ->
  al_owns (sending k) nd ((if unreliable a then wait_slots a else []) ++ Fd) ->
  exists a' k', drain_waiting fuel a k = Some (a', k') /\ waitingCount a' = 0 /\ frame_wait a a' /\
    al_owns (staging k') ns Fs /\ al_owns (sending k') nd Fd.
Proof using.
  induction fuel as [|fuel IH]; intros a k Hq Hc Hst Hsd.
  { exists a, k. cbn [drain_waiting]. split; [done|]. split; [lia|]. split; [by repeat split|].
    assert (Ew : wait_slots a = []) by (unfold wait_slots, waiting_list; by rewrite Hc). rewrite Ew in Hst, Hsd. by destruct (unreliable a). }
  cbn [drain_waiting]. destruct (Z.ltb_spec 0 (waitingCount a)); [|lia]. fold (oldest a).
  destruct (pop_waiting_queue a Hq ltac:(lia)) as (El&Hf&Hq'&Ec). fold (oldest a) in El.
  destruct (frame_wait_mode _ _ Hf) as (Em&_). unfold WaitPoolFor, set_wait_pool. fold (unreliable a).
  assert (Ew : wait_slots a = w_slot (oldest a) :: wait_slots (pop_waiting a)) by (unfold wait_slots; by rewrite El).
  rewrite Ew in Hst, Hsd.
  assert (Hrel : exists k', (if negb (w_slot (oldest a) =? INVALID)
      then s ← al_release (if unreliable a then sending k else staging k) (w_slot (oldest a));
           Some (if unreliable a then k <| sending := s |> else k <| staging := s |>)
      else Some k) = Some k' /\
    al_owns (staging k') ns ((if unreliable a then [] else wait_slots (pop_waiting a)) ++ Fs) /\
    al_owns (sending k') nd ((if unreliable a then wait_slots (pop_waiting a) else []) ++ Fd)).
  { assert (Hv : w_slot (oldest a) <> INVALID).
    { destruct (unreliable a); [apply (owned_valid (sending k) nd _ _ Hsd)|apply (owned_valid (staging k) ns _ _ Hst)]; left. }
    destruct (Z.eqb_spec (w_slot (oldest a)) INVALID); [done|]. cbn [negb].
    destruct (unreliable a); [destruct (al_release_ok _ _ _ _ Hsd) as (s&->&Ho)|destruct (al_release_ok _ _ _ _ Hst) as (s&->&Ho)];
      cbn [mbind option_bind]; by eexists. }
  destruct Hrel as (k1&->&Hst1&Hsd1). cbn [mbind option_bind]. rewrite <- Em in Hst1, Hsd1.
  destruct (IH (pop_waiting a) k1 Hq' ltac:(lia) Hst1 Hsd1) as (a'&k'&E&E0&Hf'&?&?).
  exists a', k'. split; [done|]. split; [done|]. split; [|done].
  destruct Hf as ((?&?&?)&(?&?)&(?&?)&?), Hf' as ((?&?&?)&(?&?)&(?&?)&?). repeat split; congruence.
Qed.

(** What an end leaves: nothing of this association is out, nothing is charged. *)
Definition emptied a' : Prop :=
  unresolved a' = 0 /\ waitingCount a' = 0 /\ forall i, 0 <= i < N -> e_seq (InFlight a').[i] = 0 /\ e_slot (InFlight a').[i] = INVALID.

Lemma drains_ok a k Fs Fd :
  ok a k Fs Fd ->
  exists a1 k1 a' k', DrainOutInflight a k = Some (a1, pend_bytes a, pend_count a, k1) /\ DrainOutWaiting a1 k1 = Some (a', k') /\
    emptied a' /\ al_owns (staging k') ns Fs /\ al_owns (sending k') nd Fd.
Proof using Hw.
  intros Ho. pose proof (oo_shape _ _ _ _ _ _ _ Ho) as Hs. pose proof (shape_queue w a Hs) as [Q1 Q2 Q3].
  destruct (DrainOutInflight_ok a k Fs Fd Ho) as (a1&k1&E1&Hf&_&Eu&Hfree&Hst1&Esd).
  destruct (frame_waiting a a1 Hf). pose proof Hf as ((F1&F2&F3)&_&(F4&F5&F6)).
  assert (Em : unreliable a1 = unreliable a) by (unfold unreliable; by rewrite F1).
  assert (Ew : wait_slots a1 = wait_slots a) by (unfold wait_slots; by rewrite (frame_waiting a a1 Hf)).
  destruct (drain_waiting_ok Fs Fd (Z.to_nat (waitingCount a1)) a1 k1) as (a'&k'&E2&Ec&((_&_&_)&_&(G1&G2)&_)&?&?).
  - split; rewrite ?F3, ?F4, ?F5, ?F6; done.
  - rewrite F6. lia.
  - by rewrite Em, Ew.
  - rewrite Em, Ew, Esd. apply (oo_sending _ _ _ _ _ _ _ Ho).
  - exists a1, k1, a', k'. split; [done|]. split; [done|]. split; [|done]. split; [congruence|]. split; [done|].
    intros i Hi. rewrite G1, Hfree by done. done.
Qed.

Lemma refund_zero p : 0 <= bytesInFlight (p_cc p) -> 0 <= outstandingToPeer (p_cc p) -> refund p 0 0 = p.
Proof using.
  intros Hb Hp. unfold refund. destruct (Z.leb_spec 0 (bytesInFlight (p_cc p))) as [_|]; [|lia].
  change (outstandingToPeer (upd bytesInFlight _ (p_cc p))) with (outstandingToPeer (p_cc p)).
  destruct (Z.leb_spec 0 (outstandingToPeer (p_cc p))) as [_|]; [|lia]. rewrite !Z.sub_0_r. by destruct p as [], p_cc as [].
Qed.

(** A refund takes off exactly what the association was charged. *)
Lemma refund_exact a p Xb Xp : shape_ok w a -> charged w a p Xb Xp ->
  let p' := refund p (pend_bytes a) (pend_count a) in
  bytesInFlight (p_cc p') = Xb /\ outstandingToPeer (p_cc p') = Xp /\
  p' = p <| p_cc := (p_cc p) <| bytesInFlight := Xb |> <| outstandingToPeer := Xp |> |>.
Proof using Hw.
  intros Hs (C1&C2&C3&C4). pose proof (pend_bounds w Hw a Hs) as [Hb1 Hb2].
  assert (E : refund p (pend_bytes a) (pend_count a) = p <| p_cc := (p_cc p) <| bytesInFlight := Xb |> <| outstandingToPeer := Xp |> |>).
  { unfold refund. rewrite C1. destruct (Z.leb_spec (pend_bytes a) (pend_bytes a + Xb)); [|lia].
    change (outstandingToPeer ((p_cc p) <| bytesInFlight := pend_bytes a + Xb - pend_bytes a |>)) with (outstandingToPeer (p_cc p)).
    rewrite C2. destruct (Z.leb_spec (pend_count a) (pend_count a + Xp)); [|lia].
    replace (pend_bytes a + Xb - pend_bytes a) with Xb by lia. by replace (pend_count a + Xp - pend_count a) with Xp by lia. }
  cbv zeta. by rewrite E.
Qed.
End End.
