(* ===== verification/OutHistory.v ===== *)
(** * Sending half of a flow: every history

    One sending association, the peer it charges and the pools it shares, taken
    through any sequence of operations in any order: packets admitted and claimed,
    acknowledgements of any content, resend scans, refunds, and what the rest of the
    program does to the pools and to the peer meanwhile.  No history charges the peer
    for anything but the packets still pending, and none loses the copy of a packet
    the receiver may still need. *)

From S2P Require Import Prelude Wire Keys FlowData SlotPool Rtt Delivery Curve Congestion Peer InFlow Packet OutFlow OutRetransmit OutInvariant OutSteps OutSend OutEnd.

Implicit Types (a : OutAssociation) (e : InFlightEntry) (p : Peer) (d : CongestionDelta).

(** ** What the peer's controller does with a report *)

Definition same_flight (q q' : CcPeer) : Prop := bytesInFlight q' = bytesInFlight q /\ outstandingToPeer q' = outstandingToPeer q.

Lemma ApplyCongestion_flight c q d now : same_flight (cc_fold q d now) (ApplyCongestion c q d now).
Proof.
  unfold ApplyCongestion. generalize (bytesInFlight q) as fl. generalize (cc_fold q d now) as q0. intros q0 fl. cbv zeta.
  assert (H1 : same_flight q0 (cc_verdict c q0 d now)).
  { unfold cc_verdict, cc_enter, cc_forget. cbv zeta. cc_cases; by split. }
  revert H1. generalize (cc_verdict c q0 d now) as q1. intros q1 H1.
  assert (H2 : same_flight q0 (cc_probe c q1 d now)).
  { unfold cc_probe. cbv zeta. cc_cases; exact H1. }
  revert H2. generalize (cc_probe c q1 d now) as q2. intros q2 H2. clear H1 q1.
  destruct (cc_fresh_loss q2 d); [unfold cc_trim; cbv zeta; destruct (cc_congested _ _ _); exact H2|].
  destruct (_ =? 0); [done|]. destruct (negb _); [unfold cc_starved; cbv zeta; cc_cases; exact H2|].
  destruct (_ <? _); [unfold cc_slow_start; cbv zeta; cc_cases; exact H2|].
  unfold cc_avoid. cbv zeta. cc_cases; exact H2.
Qed.

(** The part of [Flow_Ack] that follows the ranges. *)
Definition report_ack (c : CcConfig) p d (now : Z) : Peer :=
  let p := p <| p_cc := (p_cc p) <| rtt := MarkAcked (rtt (p_cc p)) now |> |> in
  p <| p_cc := ApplyCongestion c (p_cc p) d now |>.

Definition delta_report (c : CcConfig) p d (now : Z) : Peer := p <| p_cc := ApplyCongestion c (p_cc p) d now |>.

Section Report.
Context (w : Z) (Hw : 6 <= w <= 15).

(** A report of what left the ring takes exactly that off the peer. *)
Lemma delta_report_charged c a a' p d now Xb Xp :
  shape_ok w a' -> charged w a p Xb Xp -> acct a' d (pend_bytes a) (pend_count a) -> charged w a' (delta_report c p d now) Xb Xp.
Proof using Hw.
  intros Hs (C1&C2&C3&C4) [A1 A2 A3 A4]. pose proof (pend_bounds w Hw a' Hs) as [Hb1 Hb2].
  destruct (ApplyCongestion_flight c (p_cc p) d now) as [E1 E2]. unfold charged, delta_report. cbn [p_cc upd].
  change (p_cc (p <| p_cc := ApplyCongestion c (p_cc p) d now |>)) with (ApplyCongestion c (p_cc p) d now).
  rewrite E1, E2. assert (F : bytesInFlight (cc_fold (p_cc p) d now) = bytesInFlight (p_cc p) - resolvedBytes d /\
    outstandingToPeer (cc_fold (p_cc p) d now) = outstandingToPeer (p_cc p) - resolvedPackets d).
  { unfold cc_fold. cc_cases; cbn; rewrite ?u32_small; bprop; lia || (unfold UINT32_MAX, UINT16_MAX in *; lia). }
  destruct F as [-> ->]. split; [lia|]. split; [lia|done].
Qed.
End Report.

(** ** The world of one sending association *)

Section World.
Context {S : Type} `{!Allocator S} (w ns nd : Z) (Hw : 6 <= w <= 15) (c : CcConfig) (f : FlowConfig).
Implicit Types (k : OutPools S).
Abbreviation N := (2 ^ w).
Abbreviation ok := (out_ok w ns nd).

(** The association, the peer and the pools; what the rest of the program holds of
    the pools and charges the peer; the sequences stamped with their slots, and the
    acknowledgements applied, newest first. *)
Record OutWorld := mk_outworld {
  ow_out : OutAssociation; ow_peer : Peer; ow_pools : OutPools S;
  ow_staged : list Z; ow_sending : list Z; ow_bytes : Z; ow_packets : Z;
  ow_log : list (Z * Z); ow_acks : list (Z * list AckRange) }.

Implicit Types W : OutWorld.

(** The slot the retained copy of a stamped packet sits in. *)
Definition copy_slot a x : Z := if unreliable a then INVALID else x.

Inductive out_step : OutWorld -> OutWorld -> Prop :=
  (** A packet its sender holds is offered. *)
  | os_admit a p k Fs Fd B P log acks x flowId ws flying now packet v a' p' packet' k' :
      is_wire ws -> is_u32 (nextSeq a + 1) ->
      AdmitAssoc a p k packet flowId x ws flying now = Some (v, a', p', packet', k') ->
      out_step (mk_outworld a p k (with_staging (oa_mode a) x Fs) (with_sending (oa_mode a) x Fd) B P log acks)
        (mk_outworld a' p' k' (if kept v (oa_mode a) then with_staging (oa_mode a) x Fs else Fs)
           (if kept v (oa_mode a) then with_sending (oa_mode a) x Fd else Fd) B P
           (match v with Sent => [(nextSeq a, copy_slot a x)] | _ => [] end ++ log) acks)
  (** A waiting packet is claimed; an unreliable one leaves with its claimer. *)
  | os_claim a p k Fs Fd B P log acks cand now packet b a' p' packet' :
      (oa_epoch a = wc_epoch cand -> wc_mode cand = oa_mode a) -> is_u32 (nextSeq a + 1) ->
      ClaimWaiting cand a p packet now = (b, a', p', packet') ->
      out_step (mk_outworld a p k Fs Fd B P log acks)
        (mk_outworld a' p' k Fs (if b && unreliable a then wc_packet cand :: Fd else Fd) B P
           ((if b then [(nextSeq a, copy_slot a (wc_packet cand))] else []) ++ log) acks)
  (** An acknowledgement of this flow's generation arrives, whatever it says. *)
  | os_ack a p k Fs Fd B P log acks rn rad ranges now delay a' d k' :
      ApplyAck a (oa_flowId a) (oa_flowEpoch a) rn rad ranges now delay no_delta k = Some (a', d, k') ->
      out_step (mk_outworld a p k Fs Fd B P log acks) (mk_outworld a' (report_ack c p d now) k' Fs Fd B P log ((rn, ranges) :: acks))
  (** The resend scan runs. *)
  | os_scan a p k Fs Fd B P log acks now s :
      RetransmitInflight f a p now no_delta k = Some (false, s) ->
      out_step (mk_outworld a p k Fs Fd B P log acks)
        (mk_outworld (rs_out s) (scan_report c s now) (rs_pools s) Fs Fd B P log acks)
  (** Resends that did not leave are refunded. *)
  | os_refund a p k Fs Fd B P log acks seqs :
      out_step (mk_outworld a p k Fs Fd B P log acks) (mk_outworld (RefundResendAttempts a seqs) p k Fs Fd B P log acks)
  (** The rest of the program takes and returns slots, charges and reports. *)
  | os_others a p p' k k' Fs Fs' Fd Fd' B P B' P' log acks :
      al_owns (staging k') ns (ring_slots a ++ (if unreliable a then [] else wait_slots a) ++ Fs') ->
      al_owns (sending k') nd ((if unreliable a then wait_slots a else []) ++ Fd') ->
      charged w a p' B' P' ->
      out_step (mk_outworld a p k Fs Fd B P log acks) (mk_outworld a p' k' Fs' Fd' B' P' log acks).

(** Named by some acknowledgement; below the cursor of one. *)
Definition acked_by (acks : list (Z * list AckRange)) (s : Z) : Prop :=
  exists rn ranges, (rn, ranges) ∈ acks /\ (s < rn \/ SeqInRanges s ranges = true).
Definition below_cursor (acks : list (Z * list AckRange)) (s : Z) : Prop := exists rn ranges, (rn, ranges) ∈ acks /\ s < rn.

(** The ring holds sequence [s], with its copy in slot [x]. *)
Definition holds a s x : Prop := e_seq (InFlight a).[s mod N] = s /\ e_slot (InFlight a).[s mod N] = x.
Definition pending a s x : Prop := holds a s x /\ pend (InFlight a).[s mod N] = true.

Record log_ok a (log : list (Z * Z)) (acks : list (Z * list AckRange)) : Prop := {
  lo_range : forall s x, (s, x) ∈ log -> 1 <= s < nextSeq a;
  lo_pending : oa_mode a <> UNRELIABLE -> forall s x, (s, x) ∈ log -> acked_by acks s \/ pending a s x;
  lo_copy : IsOrdered (oa_mode a) = true -> forall s x, (s, x) ∈ log -> below_cursor acks s \/ holds a s x }.

Record world_ok W : Prop := {
  wo_ok : ok (ow_out W) (ow_pools W) (ow_staged W) (ow_sending W);
  wo_charged : charged w (ow_out W) (ow_peer W) (ow_bytes W) (ow_packets W);
  wo_log : log_ok (ow_out W) (ow_log W) (ow_acks W) }.

(** ** Each step keeps it *)

Lemma place_range s : 0 <= s mod N < N.
Proof using Hw. pose proof (N_range w Hw). apply Z.mod_pos_bound. lia. Qed.

Lemma log_keep a a' log acks :
  oa_mode a' = oa_mode a -> nextSeq a' = nextSeq a ->
  (oa_mode a <> UNRELIABLE -> forall i, 0 <= i < N -> same_standing (InFlight a).[i] (InFlight a').[i]) ->
  log_ok a log acks -> log_ok a' log acks.
Proof using Hw.
  intros Em En Hst [L1 L2 L3]. split; rewrite ?Em, ?En; [done| |].
  - intros Hm s x Hin. destruct (L2 Hm s x Hin) as [|[[H1 H2] H3]]; [by left|right].
    pose proof (Hst Hm _ (place_range s)) as Hs. pose proof Hs as (E1&E2&_). split; [by split; congruence|]. by rewrite (pend_same _ _ Hs).
  - intros Hord s x Hin. assert (Hm : oa_mode a <> UNRELIABLE) by (intros E; by rewrite E in Hord).
    destruct (L3 Hord s x Hin) as [|[H1 H2]]; [by left|right]. destruct (Hst Hm _ (place_range s)) as (E1&E2&_). by split; congruence.
Qed.

Lemma log_stamp a a' log acks e :
  shape_ok w a -> e_seq (InFlight a).[nextSeq a mod N] = 0 -> InFlight a' = (InFlight a).[nextSeq a mod N <- e] ->
  e_seq e = nextSeq a -> e_acked e = false -> nextSeq a' = nextSeq a + 1 -> oa_mode a' = oa_mode a ->
  log_ok a log acks -> log_ok a' ((nextSeq a, e_slot e) :: log) acks.
Proof using Hw.
  intros Hs Hfree El Eq Ea En Em [L1 L2 L3]. pose proof (so_ring _ _ Hs) as Hlen. destruct (so_next _ _ Hs) as [Hn _].
  pose proof (place_range (nextSeq a)) as Hpn.
  assert (Hnew : pending a' (nextSeq a) (e_slot e)).
  { unfold pending, holds, pend. rewrite El, arr_get_set_eq, Eq, Ea by lia. destruct (Z.eqb_spec (nextSeq a) 0); [lia|done]. }
  assert (Hold : forall s x, 1 <= s -> holds a s x -> (InFlight a').[s mod N] = (InFlight a).[s mod N]).
  { intros s x H1 [H2 _]. pose proof (place_range s). rewrite El, arr_get_set by lia.
    destruct (Z.eqb_spec (nextSeq a mod N) (s mod N)) as [E|]; [|done]. rewrite E in Hfree. lia. }
  split; rewrite ?Em, ?En.
  - intros s x Hin. apply elem_of_cons in Hin as [Hin|Hin]; [simplify_eq; lia|]. specialize (L1 s x Hin). lia.
  - intros Hm s x Hin. apply elem_of_cons in Hin as [Hin|Hin]; [simplify_eq; by right|].
    destruct (L2 Hm s x Hin) as [|[H1 H2]]; [by left|right]. specialize (L1 s x Hin).
    unfold pending, holds in *. by rewrite (Hold s x) by (done || lia).
  - intros Hord s x Hin. apply elem_of_cons in Hin as [Hin|Hin]; [simplify_eq; right; apply Hnew|].
    destruct (L3 Hord s x Hin) as [|H1]; [by left|right]. specialize (L1 s x Hin).
    unfold holds in *. by rewrite (Hold s x) by (done || lia).
Qed.

Lemma log_ack a a' log acks rn ranges :
  ack_result w a a' rn ranges -> oa_mode a' = oa_mode a -> nextSeq a' = nextSeq a ->
  log_ok a log acks -> log_ok a' log ((rn, ranges) :: acks).
Proof using Hw.
  intros [A1 A2 A3 _ _] Em En [L1 L2 L3]. split; rewrite ?Em, ?En; [done| |].
  - intros Hm s x Hin. destruct (L2 Hm s x Hin) as [(rn'&rg&H1&H2)|[[H1 H2] H3]]; [left; exists rn', rg; split; [by right|done]|].
    specialize (A1 _ (place_range s)). specialize (A2 _ (place_range s)). rewrite H3 in A1. cbn [andb] in A1.
    unfold names in A1. rewrite H1 in A1. destruct (_ || _) eqn:En'; cbn [negb] in A1.
    + left. exists rn, ranges. split; [left|]. apply orb_true_iff in En' as [?%Z.ltb_lt|?]; auto.
    + right. destruct (A2 A1) as (E1&E2&_). split; [by split; congruence|done].
  - intros Hord s x Hin. destruct (L3 Hord s x Hin) as [(rn'&rg&H1&H2)|[H1 H2]]; [left; exists rn', rg; split; [by right|done]|].
    destruct (Z.ltb_spec s rn); [left; exists rn, ranges; split; [left|done]|right].
    destruct (A3 Hord _ (place_range s)) as [E1 E2]; [lia|]. split; congruence.
Qed.

Lemma acct_start a : shape_ok w a -> acct a no_delta (pend_bytes a) (pend_count a).
Proof using Hw.
  intros Hs. pose proof (pend_bounds w Hw a Hs) as [H1 H2]. pose proof (N_range w Hw).
  split; cbn; unfold UINT32_MAX, UINT16_MAX in *; lia.
Qed.

(** What the scan leaves unsaid is nothing. *)
Lemma scan_report_charged a (s : Rescan S) now B P Fs Fd :
  ok (rs_out s) (rs_pools s) Fs Fd -> shape_ok w a -> charged w a (rs_peer s) B P -> acct (rs_out s) (rs_delta s) (pend_bytes a) (pend_count a) ->
  charged w (rs_out s) (scan_report c s now) B P.
Proof using Hw.
  intros Ho Hs Hc Hac. unfold scan_report. destruct (negb _ && _) eqn:E; [|by apply (delta_report_charged w Hw c a _ _ _ now B P (oo_shape _ _ _ _ _ _ _ Ho))].
  destruct Hac as [A1 A2 A3 A4]. assert (Hz : resolvedBytes (rs_delta s) = 0).
  { apply andb_true_iff in E as [E _]. destruct (Z.eqb_spec (resolvedBytes (rs_delta s)) 0); [done|]. by destruct (sawLoss _). }
  apply (charged_same w a _ (rs_peer s)); [done|lia|lia|done].
Qed.

Lemma admit_step a p k Fs Fd B P log acks x flowId ws flying now packet v a' p' packet' k' :
  is_wire ws -> is_u32 (nextSeq a + 1) ->
  AdmitAssoc a p k packet flowId x ws flying now = Some (v, a', p', packet', k') ->
  world_ok (mk_outworld a p k (with_staging (oa_mode a) x Fs) (with_sending (oa_mode a) x Fd) B P log acks) ->
  world_ok (mk_outworld a' p' k' (if kept v (oa_mode a) then with_staging (oa_mode a) x Fs else Fs)
       (if kept v (oa_mode a) then with_sending (oa_mode a) x Fd else Fd) B P
       (match v with Sent => [(nextSeq a, copy_slot a x)] | _ => [] end ++ log) acks).
Proof using Hw.
  intros Hws H32 HA [W1 W2 W3]. cbn in W1, W2, W3. pose proof (oo_shape _ _ _ _ _ _ _ W1) as Hs.
  destruct (AdmitAssoc_ok w ns nd Hw a p k packet flowId x ws flying now Fs Fd B P W1 Hws H32 W2)
    as (v0&a0&p0&pk0&k0&E&Ho&Hc&Em&_&_&Had). rewrite HA in E. simplify_eq. split; [done|done|]. cbn [ow_out ow_log ow_acks].
  destruct v0; cbn [app admitted] in *.
  - destruct Had as (Hcan&_&En&_&_&El).
    apply (log_stamp a a0 log acks _ Hs (CanSend_free w Hw _ _ _ _ Hs Hcan) El eq_refl eq_refl En Em W3).
  - destruct Had as (((_&_)&(En&_)&(El&_)&_)&_). apply (log_keep a); [done|done| |done]. intros _ i _. by rewrite El.
  - destruct Had as (->&_). done.
  - destruct Had as (->&_). done.
  - destruct Had as (->&_). done.
Qed.

Lemma claim_step a p k Fs Fd B P log acks cand now packet b a' p' packet' :
  (oa_epoch a = wc_epoch cand -> wc_mode cand = oa_mode a) -> is_u32 (nextSeq a + 1) ->
  ClaimWaiting cand a p packet now = (b, a', p', packet') ->
  world_ok (mk_outworld a p k Fs Fd B P log acks) ->
  world_ok (mk_outworld a' p' k Fs (if b && unreliable a then wc_packet cand :: Fd else Fd) B P
       ((if b then [(nextSeq a, copy_slot a (wc_packet cand))] else []) ++ log) acks).
Proof using Hw.
  intros Hm H32 HC [W1 W2 W3]. cbn in W1, W2, W3. pose proof (oo_shape _ _ _ _ _ _ _ W1) as Hs.
  pose proof (ClaimWaiting_ok w ns nd Hw cand a p packet now k Fs Fd B P W1 Hm H32 W2) as H. rewrite HC in H.
  destruct H as (Hc&Em&_&Ho&Hb). split; [done|done|]. cbn [ow_out ow_log ow_acks]. destruct b; cbn [app].
  - destruct Hb as (_&_&_&_&Hcan&En&_&El).
    apply (log_stamp a a' log acks _ Hs (CanSend_free w Hw _ _ _ _ Hs Hcan) El eq_refl eq_refl En Em W3).
  - destruct Hb as [-> _]. done.
Qed.

Lemma ack_step a p k Fs Fd B P log acks rn rad ranges now delay a' d k' :
  ApplyAck a (oa_flowId a) (oa_flowEpoch a) rn rad ranges now delay no_delta k = Some (a', d, k') ->
  world_ok (mk_outworld a p k Fs Fd B P log acks) ->
  world_ok (mk_outworld a' (report_ack c p d now) k' Fs Fd B P log ((rn, ranges) :: acks)).
Proof using Hw.
  intros HA [W1 W2 W3]. cbn in W1, W2, W3. pose proof (oo_shape _ _ _ _ _ _ _ W1) as Hs.
  destruct (ApplyAck_ok w ns nd Hw a (oa_flowId a) (oa_flowEpoch a) rn rad ranges now delay no_delta k Fs Fd _ _ W1 (acct_start a Hs))
    as (a0&d0&k0&E&Ho&Hac&_&[Em En]&_&Hr). rewrite HA in E. simplify_eq. rewrite !Z.eqb_refl in Hr. cbn [andb] in Hr.
  split; cbn [ow_out ow_log ow_acks ow_pools ow_staged ow_sending ow_peer ow_bytes ow_packets]; [done| |by apply (log_ack a)].
  by apply (delta_report_charged w Hw c a a0 (p <| p_cc := (p_cc p) <| rtt := MarkAcked (rtt (p_cc p)) now |> |>) d0 now B P (oo_shape _ _ _ _ _ _ _ Ho)).
Qed.

Lemma scan_step a p k Fs Fd B P log acks now s :
  RetransmitInflight f a p now no_delta k = Some (false, s) ->
  world_ok (mk_outworld a p k Fs Fd B P log acks) ->
  world_ok (mk_outworld (rs_out s) (scan_report c s now) (rs_pools s) Fs Fd B P log acks).
Proof using Hw.
  intros HR [W1 W2 W3]. cbn in W1, W2, W3. pose proof (oo_shape _ _ _ _ _ _ _ W1) as Hs.
  destruct (RetransmitInflight_ok w ns nd Hw f a p now no_delta k Fs Fd _ _ W1 (acct_start a Hs)) as (dead0&s0&E&[R1 [R2 _] R3 R4 R5 _ _ _]&_).
  rewrite HR in E. simplify_eq.
  split; cbn [ow_out ow_log ow_acks ow_pools ow_staged ow_sending ow_peer ow_bytes ow_packets]; [done| |].
  - apply (scan_report_charged a s0 now B P Fs Fd R1 Hs); [|done]. by apply (charged_same w a a p).
  - apply (log_keep a); [apply R2|apply R2| |done]. intros Hm i Hi. destruct (R3 Hm) as (_&_&_&Hst&_). apply Hst. by rewrite (so_ring _ _ Hs).
Qed.

Lemma step_ok W W' : out_step W W' -> world_ok W -> world_ok W'.
Proof using Hw.
  intros Hstep HW. destruct Hstep.
  - by eapply admit_step.
  - by eapply claim_step.
  - by eapply ack_step.
  - by eapply scan_step.
  - destruct HW as [W1 W2 W3]. cbn in W1, W2, W3. destruct (RefundResendAttempts_ok w ns nd Hw a seqs k Fs Fd W1) as [Hst Ho].
    pose proof Hst as (Hf&_&_&Hsame&Hb&Hc). split; [done|by apply (charged_same w a _ p)|].
    apply (log_keep a); [apply Hf|apply Hf| |done]. intros _ i Hi. apply Hsame. by rewrite (so_ring _ _ (oo_shape _ _ _ _ _ _ _ W1)).
  - destruct HW as [W1 W2 W3]. split; [|done|done]. split; [apply W1|done|done].
Qed.

Inductive out_steps : OutWorld -> OutWorld -> Prop :=
  | steps_none W : out_steps W W
  | steps_snoc W W1 W2 : out_steps W W1 -> out_step W1 W2 -> out_steps W W2.

Lemma steps_ok W W' : out_steps W W' -> world_ok W -> world_ok W'.
Proof using Hw. induction 1; eauto using step_ok. Qed.
End World.
Arguments OutWorld : clear implicits.
