(* ===== verification/OutTheorems.v ===== *)
(** * Sending half of a flow: theorems

    What the sending half promises, from a fresh association through any history, and
    what its clocks and its comparisons get wrong. *)

From S2P Require Import Prelude Wire Keys FlowData SlotPool Rtt Delivery Curve Congestion Peer InFlow Packet OutFlow OutRetransmit OutInvariant OutSteps OutSend OutEnd OutHistory.

Implicit Types (a : OutAssociation) (e : InFlightEntry) (p : Peer) (d : CongestionDelta).

(** The wait queue's capacity: none, or a power of two. *)
Definition wait_cap_ok (cap : Z) : Prop := cap = 0 \/ exists v, 0 <= v <= 15 /\ cap = 2 ^ v.

Section Fresh.
Context {S : Type} `{!Allocator S} (w ns nd : Z) (Hw : 6 <= w <= 15).
Abbreviation N := (2 ^ w).

Definition fresh_out (old : OutAssociation) peerSlot addr id flowId mode flowEpoch wait now : OutAssociation :=
  ResetOutAssoc old peerSlot addr id flowId mode flowEpoch N wait now.

(** A fresh association among slots that are others', a peer charged by others. *)
Definition fresh_world old peerSlot addr id flowId mode flowEpoch wait now p (k : OutPools S) Fs Fd : OutWorld S :=
  mk_outworld (fresh_out old peerSlot addr id flowId mode flowEpoch wait now) p k Fs Fd
    (bytesInFlight (p_cc p)) (outstandingToPeer (p_cc p)) [] [].

Record fresh_hyps (k : OutPools S) p (wait : Z) Fs Fd : Prop := {
  fh_wait : wait_cap_ok wait;
  fh_staging : al_owns (staging k) ns Fs;
  fh_sending : al_owns (sending k) nd Fd;
  fh_bytes : 0 <= bytesInFlight (p_cc p) /\ bytesInFlight (p_cc p) + UINT16_MAX * N <= UINT32_MAX;
  fh_packets : 0 <= outstandingToPeer (p_cc p) /\ outstandingToPeer (p_cc p) + N <= UINT32_MAX }.

Lemma fresh_sums old peerSlot addr id flowId mode flowEpoch wait now :
  let a := fresh_out old peerSlot addr id flowId mode flowEpoch wait now in
  pend_bytes a = 0 /\ pend_count a = 0 /\ ring_slots a = [].
Proof using.
  unfold fresh_out, pend_bytes, pend_count, ring_slots, ResetOutAssoc, zsum. cbn [InFlight].
  induction (Z.to_nat N) as [|n IH]; [done|]. cbn. destruct IH as (->&->&->). done.
Qed.

Lemma fresh_shape old peerSlot addr id flowId mode flowEpoch wait now :
  wait_cap_ok wait -> shape_ok w (fresh_out old peerSlot addr id flowId mode flowEpoch wait now).
Proof using Hw.
  intros Hv. pose proof (N_range w Hw). assert (0 <= wait) by (destruct Hv as [->|(v&?&->)]; lia).
  destruct (fresh_sums old peerSlot addr id flowId mode flowEpoch wait now) as (_&Hz&_).
  split; try done.
  - by apply zlen_replicate; lia.
  - intros i Hi. unfold fresh_out, ResetOutAssoc. cbn [InFlight]. rewrite arr_get_replicate by lia. by split.
  - intros _ s Hs. cbn in Hs. lia.
  - unfold fresh_out, ResetOutAssoc. cbn [Waiting waitingCap]. by rewrite zlen_replicate by lia.
Qed.

Lemma fresh_world_ok old peerSlot addr id flowId mode flowEpoch wait now p k Fs Fd :
  fresh_hyps k p wait Fs Fd -> world_ok w ns nd (fresh_world old peerSlot addr id flowId mode flowEpoch wait now p k Fs Fd).
Proof using Hw.
  intros [H1 H2 H3 H4 H5]. destruct (fresh_sums old peerSlot addr id flowId mode flowEpoch wait now) as (Z1&Z2&Z3).
  split; cbn [ow_out ow_pools ow_staged ow_sending ow_peer ow_bytes ow_packets ow_log ow_acks fresh_world].
  - split; [by apply fresh_shape|rewrite Z3|]; by destruct (unreliable _).
  - unfold charged. rewrite Z1, Z2. lia.
  - split; intros; by match goal with H : _ ∈ [] |- _ => apply not_elem_of_nil in H end.
Qed.
End Fresh.

Section Histories.
Context {S : Type} `{!Allocator S} (w ns nd : Z) (c : CcConfig) (f : FlowConfig).
Context (old : OutAssociation) (peerSlot : Z) (addr : Address) (id : option BcpId) (flowId : Z) (mode : FlowMode) (flowEpoch wait now : Z).
Context (p : Peer) (k : OutPools S) (Fs Fd : list Z).
Abbreviation N := (2 ^ w).
Abbreviation start := (fresh_world w old peerSlot addr id flowId mode flowEpoch wait now p k Fs Fd).

(** (C17) A peer is charged for what is in flight and nothing else.  Take an
    association from its creation through any sequence of admissions, claims,
    acknowledgements of any content, resend scans and refunds, while the rest of the
    program takes and returns slots and charges the peer for other flows: the peer's
    bytes in flight are those of the others plus the wire sizes of the packets in the
    ring that no acknowledgement has resolved, its outstanding packets likewise, the
    association's counter is their number, and no pool slot has two owners. *)
Theorem out_charge_exact (W : OutWorld S) (Hw : 6 <= w <= 15) (Hf : fresh_hyps w ns nd k p wait Fs Fd)
  (Hrun : out_steps w ns nd c f start W) :
  let a := ow_out W in
  bytesInFlight (p_cc (ow_peer W)) = ow_bytes W + zsum (fun e => if pend e then e_wireSize e else 0) (InFlight a) /\
  outstandingToPeer (p_cc (ow_peer W)) = ow_packets W + zsum (fun e => if pend e then 1 else 0) (InFlight a) /\
  unresolved a = zsum (fun e => if pend e then 1 else 0) (InFlight a) /\
  NoDup (ring_slots a ++ (if unreliable a then [] else wait_slots a) ++ ow_staged W) /\
  NoDup ((if unreliable a then wait_slots a else []) ++ ow_sending W).
Proof.
  pose proof (steps_ok w ns nd Hw c f _ _ Hrun (fresh_world_ok w ns nd Hw _ _ _ _ _ _ _ _ _ _ _ _ _ Hf)) as [[Hs H1 H2] (C1&C2&_) _].
  cbv zeta. fold (pend_bytes (ow_out W)) (pend_count (ow_out W)). split; [lia|]. split; [lia|]. split; [apply (so_count _ _ Hs)|].
  destruct (al_held _ _ _ H1) as (_&?&_), (al_held _ _ _ H2) as (_&?&_). done.
Qed.

(** (C18) No history loses a packet the receiver may still need.  Through any
    history, every packet a reliable association stamped is either named by an
    acknowledgement it was given or still pending in the ring under its sequence, with
    its copy in the slot it was stamped with; and an ordered association keeps the
    copy, acknowledged or not, of every sequence no acknowledgement's cursor has
    passed. *)
Theorem out_keeps_copies (W : OutWorld S) (Hw : 6 <= w <= 15) (Hf : fresh_hyps w ns nd k p wait Fs Fd)
  (Hrun : out_steps w ns nd c f start W) (s x : Z) (Hlog : (s, x) ∈ ow_log W) :
  let a := ow_out W in
  (oa_mode a <> UNRELIABLE -> acked_by (ow_acks W) s \/
     (pend (InFlight a).[s mod N] = true /\ e_seq (InFlight a).[s mod N] = s /\ e_slot (InFlight a).[s mod N] = x)) /\
  (IsOrdered (oa_mode a) = true -> below_cursor (ow_acks W) s \/
     (e_seq (InFlight a).[s mod N] = s /\ e_slot (InFlight a).[s mod N] = x)).
Proof.
  pose proof (steps_ok w ns nd Hw c f _ _ Hrun (fresh_world_ok w ns nd Hw _ _ _ _ _ _ _ _ _ _ _ _ _ Hf)) as [_ _ [_ L2 L3]].
  split.
  - intros Hm. destruct (L2 Hm s x Hlog) as [?|[[? ?] ?]]; [by left|by right].
  - intros Ho. destruct (L3 Ho s x Hlog) as [?|[? ?]]; [by left|by right].
Qed.

(** (C26) Every association ends.  From any history, freeing an association and
    failing one both return: the rings are empty, every slot the association owned is
    back in its pool, and the peer is charged exactly what the other associations
    charge it. *)
Theorem out_end_refunds (W : OutWorld S) (Hw : 6 <= w <= 15) (Hf : fresh_hyps w ns nd k p wait Fs Fd)
  (Hrun : out_steps w ns nd c f start W) (Hlife : oa_life (ow_out W) = OPEN) :
  exists a p' k' a' p'' k'',
    FreeAssocBody (ow_out W) (Some (ow_peer W)) (ow_pools W) = Some (a, Some p', negb (oa_emitting a), k') /\
    FailAssoc (ow_out W) (oa_flowId (ow_out W)) (Some (ow_peer W)) (ow_pools W) = Some (true, a', Some p'', k'') /\
    oa_life a = CLOSED /\ oa_life a' = FAILED /\ emptied w a /\ emptied w a' /\ p' = p'' /\ k' = k'' /\
    bytesInFlight (p_cc p') = ow_bytes W /\ outstandingToPeer (p_cc p') = ow_packets W /\
    al_owns (staging k') ns (ow_staged W) /\ al_owns (sending k') nd (ow_sending W).
Proof.
  pose proof (steps_ok w ns nd Hw c f _ _ Hrun (fresh_world_ok w ns nd Hw _ _ _ _ _ _ _ _ _ _ _ _ _ Hf)) as [Ho Hc _].
  set (a := ow_out W) in *. pose proof (oo_shape _ _ _ _ _ _ _ Ho) as Hs.
  destruct (drains_ok w ns nd Hw a _ _ _ Ho) as (a1&k1&a2&k2&E1&E2&Hem&Hst&Hsd).
  destruct (refund_exact w Hw a _ _ _ Hs Hc) as (R1&R2&R3). cbv zeta in *.
  set (p' := refund (ow_peer W) (pend_bytes a) (pend_count a)) in *.
  exists (a2 <| oa_life := CLOSED |>), p', k2, (a2 <| oa_life := FAILED |>), p', k2. unfold FreeAssocBody, FailAssoc.
  rewrite E1, Z.eqb_refl. cbn [mbind option_bind andb]. rewrite E2, Hlife. cbn [mbind option_bind fmap option_map negb].
  rewrite !bool_decide_eq_false_2 by done. cbn [negb andb].
  split; [done|]. split; [|by split_and!].
  destruct (Z.eqb_spec (pend_bytes a) 0) as [Ez|]; cbn [negb]; [|done].
  (* nothing was in flight *)
  pose proof (pend_count_bytes w a Hs). pose proof (pend_bounds w Hw a Hs) as [? _].
  assert (pend_count a = 0) as Ec by lia. subst p'. rewrite Ez, Ec. by rewrite refund_zero by (destruct Hc as (?&?&?&?); lia).
Qed.
End Histories.

(** ** Acknowledgements *)

Section Acks.
Context {S : Type} `{!Allocator S} (w ns nd : Z).
Abbreviation N := (2 ^ w).

(** (C21) An acknowledgement resolves exactly what it names.  For a well-formed
    association and the flow's own generation, [ApplyAckRanges] returns; a packet is
    pending afterwards exactly when it was before and is neither below the cursor nor
    in a range, with its sequence, slot and size; the bytes and packets the report
    frees are those of the packets it named, and as many bytes are acknowledged; an
    ordered association keeps every copy from the cursor on, and its base becomes the
    cursor, within what it has sent.  Another flow's or generation's acknowledgement
    changes nothing. *)
Theorem ack_resolves_named (Hw : 6 <= w <= 15) (a : OutAssociation) (flowId flowEpoch rn rad now delay tb tp : Z) (ranges : list AckRange)
  (d : CongestionDelta) (k : OutPools S) (Fs Fd : list Z) (Ho : out_ok w ns nd a k Fs Fd) (Hd : acct a d tb tp) :
  exists a' d' k', ApplyAck a flowId flowEpoch rn rad ranges now delay d k = Some (a', d', k') /\ out_ok w ns nd a' k' Fs Fd /\
    if (oa_flowId a =? flowId) && (oa_flowEpoch a =? flowEpoch) then
      (forall i, 0 <= i < N ->
        let e := (InFlight a).[i] in let e' := (InFlight a').[i] in
        let named := (e_seq e <? rn) || SeqInRanges (e_seq e) ranges in
        pend e' = pend e && negb named /\
        (pend e' = true -> e_seq e' = e_seq e /\ e_slot e' = e_slot e /\ e_wireSize e' = e_wireSize e) /\
        (IsOrdered (oa_mode a) = true -> rn <= e_seq e -> e_seq e' = e_seq e /\ e_slot e' = e_slot e)) /\
      resolvedBytes d' = resolvedBytes d + (pend_bytes a - pend_bytes a') /\
      resolvedPackets d' = resolvedPackets d + (pend_count a - pend_count a') /\
      ackedBytes d' = ackedBytes d + (pend_bytes a - pend_bytes a') /\
      (IsOrdered (oa_mode a) = true -> ackBase a' = Z.max (ackBase a) (Z.min rn (nextSeq a)))
    else (a', d', k') = (a, d, k).
Proof.
  destruct (ApplyAck_ok w ns nd Hw a flowId flowEpoch rn rad ranges now delay d k Fs Fd tb tp Ho Hd)
    as (a'&d'&k'&E&Ho'&[A1 A2 _ _]&Eb&_&_&Hr). exists a', d', k'. split; [done|]. split; [done|].
  destruct (_ && _); [|done]. destruct Hd as [B1 B2 _ _], Hr as [R1 R2 R3 _ R5].
  split; [|split_and!; [lia..|done]]. intros i Hi. cbv zeta. split; [by apply R1|]. split; [|intros Hord Hge; by apply R3].
  intros Hp. destruct (R2 i Hi Hp) as (?&?&?&_). done.
Qed.

(** What a sample of the round trip is taken from. *)
Lemma ResolveOutEntry_sample a i acked d (k : OutPools S) a' d' k' :
  ResolveOutEntry a i acked d k = Some (a', d', k') -> rttSampleMicros d' = rttSampleMicros d.
Proof using.
  assert (Hn : forall d0 ep, rttSampleMicros (note_loss d0 ep) = rttSampleMicros d0) by (intros; unfold note_loss; by destruct (negb _ || _)).
  unfold ResolveOutEntry. destruct (_ || _); [intros; by simplify_eq|]. destruct acked; cbn [andb].
  - destruct (IsOrdered _); [intros; by simplify_eq|]. destruct (release_staging _ _); cbn; [|done]. intros; by simplify_eq.
  - destruct (release_staging _ _); cbn; [|done]. intros; simplify_eq. by rewrite Hn.
Qed.

Lemma scan_sample_same rn ranges n x (s s' : AckScan S) :
  for_upM 0 n (scan_entry rn ranges) s = Some s' -> rttSampleMicros (as_delta s) = x -> rttSampleMicros (as_delta s') = x.
Proof using.
  apply (for_upM_keep (fun s => rttSampleMicros (as_delta s) = x)). intros i s1 s2 E Hx. unfold scan_entry in E.
  destruct (_ =? 0); [by simplify_eq|]. destruct (_ || _); [|by simplify_eq].
  set (s3 := if _ || _ then _ else s1) in E. set (s4 := if _ && _ then _ else s3) in E.
  assert (E4 : rttSampleMicros (as_delta s4) = x) by (subst s4 s3; by repeat case_match). clearbody s4.
  destruct (ResolveOutEntry _ _ _ _ _) as [[[a' d'] k']|] eqn:ER; [|done]. apply ResolveOutEntry_sample in ER.
  cbn [mbind option_bind] in E. simplify_eq. exact (eq_trans ER E4).
Qed.

Lemma declare_sample a largest now delay d :
  rttSampleMicros (DeclareLostBelow a largest now delay d).2 = rttSampleMicros d.
Proof using.
  unfold DeclareLostBelow. case_bool_decide; [done|].
  apply (for_up_inv (fun _ st => rttSampleMicros st.2 = rttSampleMicros d)); [done|].
  intros i [a1 d1] _ IH. unfold declare_entry. destruct (_ || e_lostByAck _); [done|]. destruct (_ <=? 0); [done|]. destruct (_ && _); [done|].
  cbn [snd] in *. unfold note_loss. by destruct (negb _ || _).
Qed.

(** (C31) A round-trip sample is unambiguous.  When an acknowledgement reports a
    sample, it is the age of the newest packet it is the first to name, less the hold
    time where that leaves something; that packet was sent once: never retried, never
    declared lost, and its send time is a time, not the marker of a packet due again. *)
Theorem ack_sample_unambiguous (Hw : 6 <= w <= 15) (a a' : OutAssociation) (flowId flowEpoch rn rad now delay tb tp : Z) (ranges : list AckRange)
  (d d' : CongestionDelta) (k k' : OutPools S) (Fs Fd : list Z) (Ho : out_ok w ns nd a k Fs Fd) (Hd : acct a d tb tp)
  (Hrun : ApplyAck a flowId flowEpoch rn rad ranges now delay d k = Some (a', d', k'))
  (Hnew : rttSampleMicros d' <> rttSampleMicros d) :
  exists i, 0 <= i < N /\
    let e := (InFlight a).[i] in
    let first_named e := pend e && ((e_seq e <? rn) || SeqInRanges (e_seq e) ranges) in
    first_named e = true /\
    (forall j, 0 <= j < N -> first_named (InFlight a).[j] = true -> e_seq (InFlight a).[j] <= e_seq e) /\
    e_retries e = 0 /\ e_lostByAck e = false /\ e_sentAt e <> 0 /\ e_sentAt e <= now /\
    rttSampleMicros d' = Z.min UINT32_MAX (let age := now - e_sentAt e in if rad <? age then age - rad else age).
Proof.
  unfold ApplyAck in Hrun. destruct (negb _ || _); [by simplify_eq|].
  destruct (scan_ok_all w ns nd Hw a d rn ranges k Fs Fd tb tp Ho Hd) as (s&Es&Hs). pose proof (sc_sample _ _ _ _ _ _ _ _ _ _ _ _ _ Hs) as Hsam.
  pose proof (scan_sample_same _ _ _ _ _ _ Es eq_refl) as Esame. cbn [as_delta] in Esame. rewrite Es in Hrun. cbn [mbind option_bind] in Hrun.
  assert (Hd' : rttSampleMicros d' = rttSampleMicros (ack_sample s rad now)).
  { destruct (anyAcked s).
    - pose proof (declare_sample ((as_out s) <| lastResolvedMicros := now |>) (largestAcked s) now delay (ack_sample s rad now)) as HD.
      destruct (DeclareLostBelow _ _ _ _ _) as [a2 d2]. destruct (ReleaseAckedRun _ _ _) as [[a3 k3]|]; [|done]. cbn in Hrun, HD. by simplify_eq.
    - destruct (ReleaseAckedRun _ _ _) as [[a3 k3]|]; [|done]. cbn in Hrun. by simplify_eq. }
  unfold ack_sample in Hd'. unfold sample_of in Hsam.
  destruct (haveSample s); cbn [andb] in Hd'; [|congruence]. destruct Hsam as (i&Hi&Hh&[E1 E2]&Er&Hmax).
  destruct (sampleResent s); cbn [negb andb] in Hd'; [congruence|].
  destruct (Z.eqb_spec (sampleSentAt s) 0) as [|Hne]; cbn [negb andb] in Hd'; [congruence|].
  destruct (Z.leb_spec (sampleSentAt s) now) as [Hle|]; [|congruence].
  symmetry in Er. apply orb_false_iff in Er as [Er1%negb_false_iff%Z.eqb_eq Er2].
  exists i. split; [done|]. cbv zeta. split; [exact Hh|]. split; [intros j Hj Hhj; rewrite <- E1; by apply Hmax|].
  split; [done|]. split; [done|]. rewrite <- E2. split; [done|]. split; [done|]. rewrite Hd'.
  set (x := if rad <? _ then _ else _). change (rttSampleMicros _) with (if UINT32_MAX <? x then UINT32_MAX else x).
  destruct (Z.ltb_spec UINT32_MAX x); lia.
Qed.
End Acks.

(** ** Admission *)

(** What decides the verdict: whether the association may be sent to, whether the gate
    passes, and the queue. *)
Definition refused_dead a (flowId : Z) : bool := negb (bool_decide (oa_life a = OPEN)) || negb (oa_flowId a =? flowId).
Definition gate_passes a p (ws now : Z) : bool :=
  (waitingCount a =? 0) && CanSend a p ws (negb (unreliable a)) && fst (PacingAllows p now ws).

Lemma AdmitAssoc_verdict {S : Type} `{!Allocator S} a p (k : OutPools S) packet flowId x ws flying now v a' p' packet' k' :
  AdmitAssoc a p k packet flowId x ws flying now = Some (v, a', p', packet', k') ->
  v = (if refused_dead a flowId then Dead
       else if gate_passes a p ws now then Sent
       else if waitingCount a <? waitingCap a then Queued
       else if negb (unreliable a) then Rejected
       else if 0 <? waitingCap a then Queued else Dropped).
Proof.
  unfold AdmitAssoc, refused_dead, gate_passes. fold (unreliable a). destruct (_ || _); [by intros [= <- _ _ _ _]|].
  destruct ((waitingCount a =? 0) && _); cbn [andb]; [destruct (PacingAllows p now ws) as [[] p1]; cbn [fst]|].
  { destruct (StampFlowPacket _ _ _ _ _ _ _) as [[? ?] ?]. by intros [= <- _ _ _ _]. }
  all: destruct (_ <? waitingCap a); [by intros [= <- _ _ _ _]|]; destruct (negb _); [by intros [= <- _ _ _ _]|];
    destruct (0 <? waitingCap a); [|by intros [= <- _ _ _ _]]; destruct (al_release _ _); cbn; [by intros [= <- _ _ _ _]|done].
Qed.

(** (C24) What becomes of an offered packet.  Admission returns one verdict, decided by
    the association, the peer's budget and its pacing.  It is dead exactly when the
    association is not open or is another flow's; else sent exactly when nothing waits
    and the gate and the pacing pass, then it holds the next sequence and the ring's next
    entry; else it queues behind everything that waits while the queue has room; with a
    full queue a reliable packet, and only that, is refused and nothing changes, while an
    unreliable one takes the place of the oldest, whose slot goes back to the send pool,
    and is dropped exactly by an association with no queue at all.  A sent or queued
    packet is charged as such, and only a refused, dropped or dead one stays with its
    sender, or an unreliable one that leaves at once. *)
Theorem admission_verdict {S : Type} `{!Allocator S} (w ns nd : Z) (Hw : 6 <= w <= 15) (a : OutAssociation) (p : Peer) (k : OutPools S)
  (packet : PacketSlot) (flowId x ws now Xb Xp : Z) (flying : bool) (Fs Fd : list Z)
  (Ho : out_ok w ns nd a k (with_staging (oa_mode a) x Fs) (with_sending (oa_mode a) x Fd))
  (Hws : is_wire ws) (H32 : is_u32 (nextSeq a + 1)) (Hc : charged w a p Xb Xp) :
  let open := oa_life a = OPEN /\ oa_flowId a = flowId in
  let gate := waitingCount a = 0 /\ CanSend a p ws (negb (unreliable a)) = true /\ fst (PacingAllows p now ws) = true in
  exists v a' p' packet' k', AdmitAssoc a p k packet flowId x ws flying now = Some (v, a', p', packet', k') /\
    out_ok w ns nd a' k' (if kept v (oa_mode a) then with_staging (oa_mode a) x Fs else Fs)
      (if kept v (oa_mode a) then with_sending (oa_mode a) x Fd else Fd) /\
    charged w a' p' Xb Xp /\
    (v = Dead <-> ~ open) /\
    (v = Sent <-> open /\ gate) /\
    (v = Queued <-> open /\ ~ gate /\ (waitingCount a < waitingCap a \/ oa_mode a = UNRELIABLE /\ 0 < waitingCap a)) /\
    (v = Rejected <-> open /\ ~ gate /\ waitingCount a = waitingCap a /\ oa_mode a <> UNRELIABLE) /\
    (v = Dropped <-> open /\ ~ gate /\ waitingCap a = 0 /\ oa_mode a = UNRELIABLE) /\
    match v with
    | Sent =>
        nextSeq a' = nextSeq a + 1 /\ packet' = stamp_packet packet (nextSeq a) (oa_flowEpoch a) /\ pend_bytes a' = pend_bytes a + ws /\
        (InFlight a').[nextSeq a mod 2 ^ w] =
          mk_fly (if flying then now else 0) (nextSeq a) (if unreliable a then INVALID else x) ws 0 (congestionEpoch (p_cc p)) false false false
    | Queued =>
        waiting_list a' = (if waitingCount a <? waitingCap a then waiting_list a else tail (waiting_list a)) ++ [mk_wait now x ws] /\
        packet' = packet /\ InFlight a' = InFlight a
    | Rejected | Dropped | Dead => a' = a /\ packet' = packet
    end.
Proof.
  cbv zeta. destruct (AdmitAssoc_ok w ns nd Hw a p k packet flowId x ws flying now Fs Fd Xb Xp Ho Hws H32 Hc)
    as (v&a'&p'&packet'&k'&E&Ho'&Hc'&_&_&_&Had). exists v, a', p', packet', k'.
  pose proof (oo_shape _ _ _ _ _ _ _ Ho) as Hs. pose proof (so_wait _ _ Hs) as [Hwc _].
  assert (Ho1 : refused_dead a flowId = false <-> oa_life a = OPEN /\ oa_flowId a = flowId).
  { unfold refused_dead. rewrite orb_false_iff, !negb_false_iff, bool_decide_eq_true, Z.eqb_eq. done. }
  assert (Hg : gate_passes a p ws now = true <-> waitingCount a = 0 /\ CanSend a p ws (negb (unreliable a)) = true /\ fst (PacingAllows p now ws) = true).
  { unfold gate_passes. rewrite !andb_true_iff, Z.eqb_eq. tauto. }
  assert (Hu : unreliable a = true <-> oa_mode a = UNRELIABLE) by apply bool_decide_eq_true.
  pose proof (AdmitAssoc_verdict _ _ _ _ _ _ _ _ _ _ _ _ _ _ E) as HV.
  split; [done|]. split; [done|]. split; [done|]. rewrite <- Ho1, <- Hg, <- Hu, !not_false_iff_true, !not_true_iff_false.
  do 5 (split; [rewrite HV; destruct (refused_dead a flowId), (gate_passes a p ws now), (unreliable a); cbn [negb];
    destruct (Z.ltb_spec (waitingCount a) (waitingCap a)), (Z.ltb_spec 0 (waitingCap a)); intuition (congruence || lia)|]).
  destruct v; cbn [admitted] in Had; try (by destruct Had as (?&?&_)); try done.
  - destruct Had as (H1&H2&H3&_&H4&H5). split_and!; try done.
    + rewrite (pend_bytes_set w a a' _ _ Hs (place_range w Hw (nextSeq a)) H5).
      unfold pend at 1. rewrite (CanSend_free w Hw _ _ _ _ Hs H1). cbn [negb andb]. unfold pend. cbn.
      destruct (so_next _ _ Hs) as [? _]. destruct (Z.eqb_spec (nextSeq a) 0); [lia|]. cbn [negb andb]. lia.
    + rewrite H5. apply arr_get_set_eq. rewrite (so_ring _ _ Hs). apply (place_range w Hw).
  - destruct Had as ((_&_&(H1&_)&_)&H2&H3&H4). done.
Qed.

(** ** What the clocks and the comparisons get wrong *)

(** A flow that sends after a pause is dead.  The deadline counts from the last
    packet resolved, or the association's creation, and sending does not restart it:
    whenever an association that has been quiet for longer than its death bound sends
    a packet, with nothing else in flight or overdue, the very next resend scan, at the
    same instant, pronounces it dead, before the packet could have been answered or
    resent once. *)
Theorem idle_then_sent_dies {S : Type} `{!Allocator S} (w ns nd : Z) (Hw : 6 <= w <= 15) (f : FlowConfig) (a : OutAssociation) (p : Peer) (k : OutPools S)
  (packet : PacketSlot) (flowId x ws now Xb Xp : Z) (flying : bool) (Fs Fd : list Z) d a' p' packet' k'
  (Ho : out_ok w ns nd a k (with_staging (oa_mode a) x Fs) (with_sending (oa_mode a) x Fd))
  (Hws : is_wire ws) (H32 : is_u32 (nextSeq a + 1)) (Hc : charged w a p Xb Xp)
  (Hsent : AdmitAssoc a p k packet flowId x ws flying now = Some (Sent, a', p', packet', k'))
  (Hquiet : death_bound f p' < Elapsed now (lastResolvedMicros a)) :
  RetransmitInflight f a' p' now d k' = Some (true, mk_rescan a' p' d k' []).
Proof.
  destruct (AdmitAssoc_ok w ns nd Hw a p k packet flowId x ws flying now Fs Fd Xb Xp Ho Hws H32 Hc)
    as (v&a0&p0&packet0&k0&E&Ho'&_&_&El&_&Had). rewrite Hsent in E. simplify_eq. cbn [admitted] in Had.
  destruct Had as (H1&_&_&_&_&H5). pose proof (oo_shape _ _ _ _ _ _ _ Ho) as Hs. pose proof (oo_shape _ _ _ _ _ _ _ Ho') as Hs'.
  pose proof (place_range w Hw (nextSeq a)) as Hr. pose proof (so_ring _ _ Hs) as Hlen.
  assert (Hp : pend (InFlight a0).[nextSeq a mod 2 ^ w] = true).
  { rewrite H5, arr_get_set_eq by lia. unfold pend. cbn. destruct (so_next _ _ Hs) as [? _]. destruct (Z.eqb_spec (nextSeq a) 0); [lia|done]. }
  destruct (pend_entry w Hw a0 _ Hs' Hr Hp) as [Hone _]. unfold RetransmitInflight. rewrite (so_count _ _ Hs'), El.
  destruct (Z.ltb_spec 0 (pend_count a0)); [|lia]. destruct (Z.ltb_spec (death_bound f p0) (Elapsed now (lastResolvedMicros a))); [done|lia].
Qed.

(** ** A concrete association *)

Definition sample_old : OutAssociation :=
  mk_out 0 (mk_addr 0 0 [] 0) (mk_id []) 0 0 0 RELIABLE_ORDERED 0 0 CLOSED false 0 0 0 0 0 0 0 0 0 0 0 0 false [] [] [].
Definition sample_flow_config : FlowConfig := mk_flow_config 200000 25000 10000000.
Definition sample_out_peer : Peer := blank_peer <| p_cc := sample_peer |>.
Definition sample_out_pools : OutPools SlotPool := mk_pools pool3 pool0.
Definition sample_start : OutWorld SlotPool :=
  fresh_world 6 sample_old 3 (mk_addr 2 7 [] 0) None 7 RELIABLE_ORDERED 1 4 1000 sample_out_peer sample_out_pools [17] [].

Lemma sample_staging : al_owns (staging sample_out_pools) 32 [17].
Proof. apply (reach_owns 20 64 5); [vm_compute; reflexivity|lia|exact pool3_reach]. Qed.
Lemma sample_sending : al_owns (sending sample_out_pools) 32 [].
Proof. apply (reach_owns 20 64 5 pool0 []); [vm_compute; reflexivity|lia|constructor]. Qed.

Lemma sample_fresh : fresh_hyps 6 32 32 sample_out_pools sample_out_peer 4 [17] [].
Proof.
  split; [right; exists 2; done|exact sample_staging|exact sample_sending|..]; vm_compute; (split; [discriminate|discriminate]).
Qed.

(** The packet in slot 17 is sent and stamped 1, then acknowledged by a cursor of 2. *)
Definition sample_admitted : SendAdmission * OutAssociation * Peer * PacketSlot * OutPools SlotPool :=
  default (Dead, ow_out sample_start, sample_out_peer, sample_packet, sample_out_pools)
    (AdmitAssoc (ow_out sample_start) sample_out_peer sample_out_pools sample_packet 7 17 1200 true 2000).
Definition sample_a1 : OutAssociation := sample_admitted.1.1.1.2.
Definition sample_p1 : Peer := sample_admitted.1.1.2.
Definition sample_k1 : OutPools SlotPool := sample_admitted.2.
Definition sample_acked : OutAssociation * CongestionDelta * OutPools SlotPool :=
  default (sample_a1, no_delta, sample_k1) (ApplyAck sample_a1 7 1 2 500 [] 42000 10000 no_delta sample_k1).

Definition sample_world1 : OutWorld SlotPool := mk_outworld sample_a1 sample_p1 sample_k1 [] [] 6000 5 [(1, 17)] [].
Definition sample_world2 : OutWorld SlotPool :=
  mk_outworld sample_acked.1.1 (report_ack sample_config sample_p1 sample_acked.1.2 42000) sample_acked.2 [] [] 6000 5 [(1, 17)] [(2, [])].

Lemma sample_admit_runs :
  AdmitAssoc (ow_out sample_start) sample_out_peer sample_out_pools sample_packet 7 17 1200 true 2000 =
  Some (Sent, sample_a1, sample_p1, sample_admitted.1.2, sample_k1).
Proof. vm_compute. reflexivity. Qed.

Lemma sample_steps1 : out_steps 6 32 32 sample_config sample_flow_config sample_start sample_world1.
Proof.
  eapply steps_snoc; [apply steps_none|].
  exact (os_admit 6 32 32 sample_config sample_flow_config (ow_out sample_start) sample_out_peer sample_out_pools [] [] 6000 5 [] [] 17 7 1200
    true 2000 sample_packet Sent sample_a1 sample_p1 sample_admitted.1.2 sample_k1 ltac:(lia) ltac:(vm_compute; done) sample_admit_runs).
Qed.

Lemma sample_steps2 : out_steps 6 32 32 sample_config sample_flow_config sample_start sample_world2.
Proof.
  eapply steps_snoc; [exact sample_steps1|].
  apply (os_ack 6 32 32 sample_config sample_flow_config sample_a1 sample_p1 sample_k1 [] [] 6000 5 [(1, 17)] [] 2 500 [] 42000 10000).
  vm_compute. reflexivity.
Qed.

Lemma out_charge_exact_witness :
  ow_bytes sample_world1 = 6000 /\
  let a := ow_out sample_world1 in
  bytesInFlight (p_cc (ow_peer sample_world1)) = ow_bytes sample_world1 + zsum (fun e => if pend e then e_wireSize e else 0) (InFlight a) /\
  outstandingToPeer (p_cc (ow_peer sample_world1)) = ow_packets sample_world1 + zsum (fun e => if pend e then 1 else 0) (InFlight a) /\
  unresolved a = zsum (fun e => if pend e then 1 else 0) (InFlight a) /\
  NoDup (ring_slots a ++ (if unreliable a then [] else wait_slots a) ++ ow_staged sample_world1) /\
  NoDup ((if unreliable a then wait_slots a else []) ++ ow_sending sample_world1).
Proof.
  split; [reflexivity|].
  exact (out_charge_exact 6 32 32 sample_config sample_flow_config sample_old 3 (mk_addr 2 7 [] 0) None 7 RELIABLE_ORDERED 1 4 1000
    sample_out_peer sample_out_pools [17] [] sample_world1 ltac:(lia) sample_fresh sample_steps1).
Defined.

Lemma out_keeps_copies_witness :
  let a := ow_out sample_world1 in
  (oa_mode a <> UNRELIABLE -> acked_by (ow_acks sample_world1) 1 \/
     (pend (InFlight a).[1 mod 2 ^ 6] = true /\ e_seq (InFlight a).[1 mod 2 ^ 6] = 1 /\ e_slot (InFlight a).[1 mod 2 ^ 6] = 17)) /\
  (IsOrdered (oa_mode a) = true -> below_cursor (ow_acks sample_world1) 1 \/
     (e_seq (InFlight a).[1 mod 2 ^ 6] = 1 /\ e_slot (InFlight a).[1 mod 2 ^ 6] = 17)).
Proof.
  exact (out_keeps_copies 6 32 32 sample_config sample_flow_config sample_old 3 (mk_addr 2 7 [] 0) None 7 RELIABLE_ORDERED 1 4 1000
    sample_out_peer sample_out_pools [17] [] sample_world1 ltac:(lia) sample_fresh sample_steps1 1 17 ltac:(left)).
Defined.

Lemma out_end_refunds_witness :
  exists a p' k' a' p'' k'',
    FreeAssocBody (ow_out sample_world2) (Some (ow_peer sample_world2)) (ow_pools sample_world2) = Some (a, Some p', negb (oa_emitting a), k') /\
    FailAssoc (ow_out sample_world2) (oa_flowId (ow_out sample_world2)) (Some (ow_peer sample_world2)) (ow_pools sample_world2) = Some (true, a', Some p'', k'') /\
    oa_life a = CLOSED /\ oa_life a' = FAILED /\ emptied 6 a /\ emptied 6 a' /\ p' = p'' /\ k' = k'' /\
    bytesInFlight (p_cc p') = ow_bytes sample_world2 /\ outstandingToPeer (p_cc p') = ow_packets sample_world2 /\
    al_owns (staging k') 32 (ow_staged sample_world2) /\ al_owns (sending k') 32 (ow_sending sample_world2).
Proof.
  apply (out_end_refunds 6 32 32 sample_config sample_flow_config sample_old 3 (mk_addr 2 7 [] 0) None 7 RELIABLE_ORDERED 1 4 1000
    sample_out_peer sample_out_pools [17] [] sample_world2 ltac:(lia) sample_fresh sample_steps2).
  vm_compute. reflexivity.
Defined.

Lemma sample_world1_ok : world_ok 6 32 32 sample_world1.
Proof.
  apply (steps_ok 6 32 32 ltac:(lia) _ _ _ _ sample_steps1), (fresh_world_ok 6 32 32 ltac:(lia) _ _ _ _ _ _ _ _ _ _ _ _ _ sample_fresh).
Qed.
Lemma sample_start_ok : world_ok 6 32 32 sample_start.
Proof. exact (fresh_world_ok 6 32 32 ltac:(lia) _ _ _ _ _ _ _ _ _ _ _ _ _ sample_fresh). Qed.

Lemma sample_acct : acct sample_a1 no_delta 1200 1.
Proof. split; vm_compute; repeat split; discriminate || reflexivity. Qed.

Lemma ack_resolves_named_witness :
  pend (InFlight sample_a1).[1] = true /\
  exists a' d' k', ApplyAck sample_a1 7 1 2 500 [] 42000 10000 no_delta sample_k1 = Some (a', d', k') /\ out_ok 6 32 32 a' k' [] [] /\
    if (oa_flowId sample_a1 =? 7) && (oa_flowEpoch sample_a1 =? 1) then
      (forall i, 0 <= i < 2 ^ 6 ->
        let e := (InFlight sample_a1).[i] in let e' := (InFlight a').[i] in
        let named := (e_seq e <? 2) || SeqInRanges (e_seq e) [] in
        pend e' = pend e && negb named /\
        (pend e' = true -> e_seq e' = e_seq e /\ e_slot e' = e_slot e /\ e_wireSize e' = e_wireSize e) /\
        (IsOrdered (oa_mode sample_a1) = true -> 2 <= e_seq e -> e_seq e' = e_seq e /\ e_slot e' = e_slot e)) /\
      resolvedBytes d' = resolvedBytes no_delta + (pend_bytes sample_a1 - pend_bytes a') /\
      resolvedPackets d' = resolvedPackets no_delta + (pend_count sample_a1 - pend_count a') /\
      ackedBytes d' = ackedBytes no_delta + (pend_bytes sample_a1 - pend_bytes a') /\
      (IsOrdered (oa_mode sample_a1) = true -> ackBase a' = Z.max (ackBase sample_a1) (Z.min 2 (nextSeq sample_a1)))
    else (a', d', k') = (sample_a1, no_delta, sample_k1).
Proof.
  split; [vm_compute; reflexivity|].
  exact (ack_resolves_named 6 32 32 ltac:(lia) sample_a1 7 1 2 500 42000 10000 1200 1 [] no_delta sample_k1 [] [] (wo_ok _ _ _ _ sample_world1_ok) sample_acct).
Defined.

(** The packet was sent at 2,000 and is acknowledged at 42,000, held for 500. *)
Lemma ack_sample_unambiguous_witness :
  rttSampleMicros sample_acked.1.2 = 39500 /\
  exists i, 0 <= i < 2 ^ 6 /\
    let e := (InFlight sample_a1).[i] in
    let first_named e := pend e && ((e_seq e <? 2) || SeqInRanges (e_seq e) []) in
    first_named e = true /\
    (forall j, 0 <= j < 2 ^ 6 -> first_named (InFlight sample_a1).[j] = true -> e_seq (InFlight sample_a1).[j] <= e_seq e) /\
    e_retries e = 0 /\ e_lostByAck e = false /\ e_sentAt e <> 0 /\ e_sentAt e <= 42000 /\
    rttSampleMicros sample_acked.1.2 = Z.min UINT32_MAX (let age := 42000 - e_sentAt e in if 500 <? age then age - 500 else age).
Proof.
  split; [vm_compute; reflexivity|].
  apply (ack_sample_unambiguous 6 32 32 ltac:(lia) sample_a1 sample_acked.1.1 7 1 2 500 42000 10000 1200 1 [] no_delta sample_acked.1.2 sample_k1 sample_acked.2 [] []).
  - exact (wo_ok _ _ _ _ sample_world1_ok).
  - exact sample_acct.
  - vm_compute. reflexivity.
  - vm_compute. discriminate.
Defined.

Lemma admission_verdict_witness :
  sample_admitted.1.1.1.1 = Sent /\
  let a := ow_out sample_start in
  exists v a' p' packet' k', AdmitAssoc a sample_out_peer sample_out_pools sample_packet 7 17 1200 true 2000 = Some (v, a', p', packet', k') /\
    out_ok 6 32 32 a' k' (if kept v (oa_mode a) then with_staging (oa_mode a) 17 [] else [])
      (if kept v (oa_mode a) then with_sending (oa_mode a) 17 [] else []) /\
    charged 6 a' p' 6000 5 /\
    (v = Dead <-> ~ (oa_life a = OPEN /\ oa_flowId a = 7)) /\
    (v = Sent <-> (oa_life a = OPEN /\ oa_flowId a = 7) /\
       waitingCount a = 0 /\ CanSend a sample_out_peer 1200 (negb (unreliable a)) = true /\ fst (PacingAllows sample_out_peer 2000 1200) = true).
Proof.
  split; [vm_compute; reflexivity|]. cbv zeta.
  destruct (admission_verdict 6 32 32 ltac:(lia) (ow_out sample_start) sample_out_peer sample_out_pools sample_packet 7 17 1200 2000 6000 5 true [] []
    (wo_ok _ _ _ _ sample_start_ok) ltac:(lia) ltac:(vm_compute; done) (wo_charged _ _ _ _ sample_start_ok)) as (v&a'&p'&packet'&k'&E&H1&H2&H3&H4&_).
  exists v, a', p', packet', k'. exact (conj E (conj H1 (conj H2 (conj H3 H4)))).
Defined.

(** Created at 1,000, the flow first sends ten seconds later. *)
Definition sample_late : SendAdmission * OutAssociation * Peer * PacketSlot * OutPools SlotPool :=
  default (Dead, ow_out sample_start, sample_out_peer, sample_packet, sample_out_pools)
    (AdmitAssoc (ow_out sample_start) sample_out_peer sample_out_pools sample_packet 7 17 1200 true 10001000).

Lemma idle_then_sent_dies_witness :
  sample_late.1.1.1.1 = Sent /\
  RetransmitInflight sample_flow_config sample_late.1.1.1.2 sample_late.1.1.2 10001000 no_delta sample_late.2 =
    Some (true, mk_rescan sample_late.1.1.1.2 sample_late.1.1.2 no_delta sample_late.2 []).
Proof.
  split; [vm_compute; reflexivity|].
  apply (idle_then_sent_dies 6 32 32 ltac:(lia) sample_flow_config (ow_out sample_start) sample_out_peer sample_out_pools sample_packet 7 17 1200 10001000 6000 5 true [] []
    no_delta sample_late.1.1.1.2 sample_late.1.1.2 sample_late.1.2 sample_late.2).
  - exact (wo_ok _ _ _ _ sample_start_ok).
  - lia.
  - vm_compute; done.
  - exact (wo_charged _ _ _ _ sample_start_ok).
  - vm_compute. reflexivity.
  - vm_compute. reflexivity.
Defined.

(** An association at the end of the sequence space: 2^32 - 1 and then 1 are in
    flight. *)
Definition sample_wrapping : OutAssociation :=
  (ow_out sample_start) <| ackBase := 2 ^ 32 - 1 |> <| nextSeq := 2 |> <| unresolved := 2 |>
    <| InFlight := (InFlight (ow_out sample_start)).[63 <- mk_fly 2000 (2 ^ 32 - 1) 17 1200 0 0 false false false].[1 <- mk_fly 2100 1 5 1200 0 0 false false false] |>.

(** Past 2^32 sequences the cursor misleads.  Two packets of an ordered flow are
    in flight, 2^32 - 1 and, after the wrap, 1.  An acknowledgement whose cursor says
    neither arrived resolves the second all the same, as if delivered; and one whose
    cursor says both arrived leaves the first pending and releases neither copy, since
    neither the comparison nor the base passes a cursor that wrapped. *)
Theorem wrapped_cursor_misread :
  (exists a' d' k', ApplyAck sample_wrapping 7 1 (2 ^ 32 - 1) 500 [] 42000 10000 no_delta sample_out_pools = Some (a', d', k') /\
    e_acked (InFlight a').[1] = true /\ ackedBytes d' = 1200) /\
  (exists a' d' k', ApplyAck sample_wrapping 7 1 2 500 [] 42000 10000 no_delta sample_out_pools = Some (a', d', k') /\
    pend (InFlight a').[63] = true /\ ackBase a' = 2 ^ 32 - 1 /\ e_slot (InFlight a').[63] = 17 /\ e_slot (InFlight a').[1] = 5).
Proof. split; (eexists _, _, _; split; [vm_compute; reflexivity|vm_compute; repeat split]). Qed.
