(* ===== verification/Words.v ===== *)
(** * The words of the ciphers: the utilities of [monocypher/monocypher.c]

    Little-endian loads and stores, rotations, the distance to an alignment, and the
    comparison that does not branch on secrets.  A pointer is the list of the bytes
    from it on.

    Proved: a load reads the little-endian value of the bytes, a store writes it, the
    two are inverse; [gap] is the distance to the next multiple; a comparison says
    equal exactly when the bytes are. *)

From S2P Require Import Prelude Wire Errors Keys Packet.

(** ** Definitions *)

Definition gap (x pow_2 : Z) : Z := Z.land (u64 (u64 (Z.lnot x) + 1)) (pow_2 - 1).

Definition load24_le (s : list Z) : Z := Z.lor (Z.lor s.[0] (Z.shiftl s.[1] 8)) (Z.shiftl s.[2] 16).
Definition load32_le (s : list Z) : Z := Z.lor (Z.lor (Z.lor s.[0] (Z.shiftl s.[1] 8)) (Z.shiftl s.[2] 16)) (u32 (Z.shiftl s.[3] 24)).
Definition load64_le (s : list Z) : Z := Z.lor (load32_le s) (u64 (Z.shiftl (load32_le (drop 4 s)) 32)).
Definition store32_le (i : Z) : list Z := [u8 i; u8 (Z.shiftr i 8); u8 (Z.shiftr i 16); u8 (Z.shiftr i 24)].
Definition store64_le (i : Z) : list Z := store32_le (u32 i) ++ store32_le (u32 (Z.shiftr i 32)).

Definition load32_le_buf (src : list Z) (size : nat) : list Z := map (fun i => load32_le (drop (i * 4) src)) (seq 0 size).
Definition load64_le_buf (src : list Z) (size : nat) : list Z := map (fun i => load64_le (drop (i * 8) src)) (seq 0 size).
Definition store32_le_buf (src : list Z) : list Z := concat (map store32_le src).
Definition store64_le_buf (src : list Z) : list Z := concat (map store64_le src).

Definition rotr64 (x n : Z) : Z := Z.lxor (Z.shiftr x n) (u64 (Z.shiftl x (64 - n))).
Definition rotl32 (x n : Z) : Z := Z.lxor (u32 (Z.shiftl x n)) (Z.shiftr x (32 - n)).

Definition neq0 (diff : Z) : Z :=
  let half := Z.lor (Z.shiftr diff 32) (u32 diff) in
  let eq0 := Z.land 1 (Z.shiftr (u64 (half - 1)) 32) in
  eq0 - 1.

Definition x16 (a b : list Z) : Z := Z.lor (Z.lxor (load64_le a) (load64_le b)) (Z.lxor (load64_le (drop 8 a)) (load64_le (drop 8 b))).
Definition x32 (a b : list Z) : Z := Z.lor (x16 a b) (x16 (drop 16 a) (drop 16 b)).
Definition x64 (a b : list Z) : Z := Z.lor (x32 a b) (x32 (drop 32 a) (drop 32 b)).
Definition crypto_verify16 (a b : list Z) : Z := neq0 (x16 a b).
Definition crypto_verify32 (a b : list Z) : Z := neq0 (x32 a b).
Definition crypto_verify64 (a b : list Z) : Z := neq0 (x64 a b).

(** [common/crypto]: a length without a routine of its own is compared byte by byte. *)
Definition Equal (a b : list Z) (len : Z) : bool :=
  if len =? 16 then crypto_verify16 a b =? 0
  else if len =? 32 then crypto_verify32 a b =? 0
  else if len =? 64 then crypto_verify64 a b =? 0
  else foldl (fun diff i => Z.lor diff (u8 (Z.lxor a.[Z.of_nat i] b.[Z.of_nat i]))) 0 (seq 0 (Z.to_nat len)) =? 0.

(** ** Loads and stores *)

Abbreviation bytes l := (Forall is_byte l).

Lemma le_value_bound l : bytes l -> 0 <= le_value l < 2 ^ (8 * zlen l).
Proof.
  induction 1 as [|b l Hb _ IH]; [done|]. unfold is_byte in Hb. unfold zlen in *. cbn [length le_value].
  replace (8 * Z.of_nat (Datatypes.S (length l))) with (8 + 8 * Z.of_nat (length l)) by lia. rewrite Z.pow_add_r by lia.
  change (2 ^ 8) with 256. lia.
Qed.
Lemma le_value_app l1 l2 : le_value (l1 ++ l2) = le_value l1 + 2 ^ (8 * zlen l1) * le_value l2.
Proof.
  induction l1 as [|b l IH]; [by rewrite Z.mul_1_l|]. cbn [le_value app]. rewrite IH. unfold zlen. cbn [length].
  replace (8 * Z.of_nat (Datatypes.S (length l))) with (8 + 8 * Z.of_nat (length l)) by lia. rewrite Z.pow_add_r by lia. lia.
Qed.
Lemma le_value_zeros n : le_value (replicate n 0) = 0.
Proof. induction n as [|n IH]; [done|]. cbn [replicate le_value]. by rewrite IH. Qed.

(** Reading past the end of the bytes reads zeros here; the callers stay inside. *)
Lemma load32_value s : bytes s -> 4 <= zlen s -> load32_le s = le_value (take 4 s).
Proof.
  intros H Hz. unfold zlen in Hz. do 4 (destruct s as [|? s]; [cbn in Hz; lia|]).
  do 4 (apply Forall_cons in H as [? H]). unfold is_byte in *. change (load32_le (z :: z0 :: z1 :: z2 :: s)) with
    (Z.lor (Z.lor (Z.lor z (Z.shiftl z0 8)) (Z.shiftl z1 16)) (u32 (Z.shiftl z2 24))). rewrite firstn_cons. change (take 3 (z0 :: z1 :: z2 :: s)) with [z0; z1; z2]. cbn [le_value].
  assert (Hs : u32 (Z.shiftl z2 24) = Z.shiftl z2 24) by (apply (u_shift_small 32); unfold is_byte; lia). rewrite Hs.
  rewrite (lor_shift_add z z0 8), (lor_shift_add _ z1 16), (lor_shift_add _ z2 24) by lia. lia.
Qed.
Lemma load32_range s : bytes s -> 4 <= zlen s -> is_u32 (load32_le s).
Proof.
  intros H Hz. rewrite load32_value by done. pose proof (le_value_bound (take 4 s) ltac:(by apply Forall_take)) as Hb.
  unfold zlen in *. rewrite length_take in Hb. replace (8 * Z.of_nat (4 `min` length s)) with 32 in Hb by lia. done.
Qed.
Lemma load64_value s : bytes s -> 8 <= zlen s -> load64_le s = le_value (take 8 s).
Proof.
  intros H Hz. unfold load64_le. assert (Hd : bytes (drop 4 s)) by by apply Forall_drop.
  assert (Hz4 : 4 <= zlen (drop 4 s)) by (unfold zlen in *; rewrite length_drop; lia).
  pose proof (load32_range s H ltac:(lia)) as R1. pose proof (load32_range _ Hd Hz4) as R2.
  rewrite u64_small by (rewrite Z.shiftl_mul_pow2 by lia; lia). rewrite lor_shift_add by lia. rewrite !load32_value by (done || lia).
  change (take 8 s) with (take (4 + 4) s). rewrite <- (take_take_drop s 4 4), le_value_app. unfold zlen in *. rewrite length_take.
  by replace (8 * Z.of_nat (4 `min` length s)) with 32 by lia.
Qed.

Lemma store32_bytes x : store32_le x = le_bytes 4 x.
Proof. unfold store32_le. cbn [le_bytes]. by rewrite !Z.shiftr_shiftr by lia. Qed.
Lemma le_bytes_app n m x : le_bytes (n + m) x = le_bytes n x ++ le_bytes m (Z.shiftr x (8 * Z.of_nat n)).
Proof.
  revert x. induction n as [|n IH]; intros x; [by rewrite Z.shiftr_0_r|]. cbn [Nat.add le_bytes app]. rewrite IH, Z.shiftr_shiftr by lia. do 4 f_equal. lia.
Qed.
Lemma le_bytes_mod n x : le_bytes n (x mod 2 ^ (8 * Z.of_nat n)) = le_bytes n x.
Proof.
  rewrite <- (le_value_bytes n x). rewrite <- (length_le_bytes n x) at 1. apply le_bytes_value, le_bytes_byte.
Qed.
Lemma store64_bytes x : store64_le x = le_bytes 8 x.
Proof. unfold store64_le. rewrite !store32_bytes. unfold u32. rewrite !(le_bytes_mod 4). by rewrite (le_bytes_app 4 4). Qed.
Lemma store32_u32 x : store32_le (u32 x) = store32_le x.
Proof. rewrite !store32_bytes. apply (le_bytes_mod 4). Qed.

Lemma load_store32 x rest : is_u32 x -> load32_le (store32_le x ++ rest) = x.
Proof.
  intros H. change (load32_le (store32_le x ++ rest)) with
    (Z.lor (Z.lor (Z.lor (u8 x) (Z.shiftl (u8 (Z.shiftr x 8)) 8)) (Z.shiftl (u8 (Z.shiftr x 16)) 16)) (u32 (Z.shiftl (u8 (Z.shiftr x 24)) 24))).
  assert (Hu : forall y, is_byte (u8 y)) by (intros y; apply u8_range). unfold is_byte in Hu. pose proof (Hu x). pose proof (Hu (Z.shiftr x 8)). pose proof (Hu (Z.shiftr x 16)). pose proof (Hu (Z.shiftr x 24)).
  assert (Hs : u32 (Z.shiftl (u8 (Z.shiftr x 24)) 24) = Z.shiftl (u8 (Z.shiftr x 24)) 24) by (apply (u_shift_small 32); unfold is_byte; lia). rewrite Hs.
  rewrite (lor_shift_add _ _ 8), (lor_shift_add _ _ 16), (lor_shift_add _ _ 24) by lia. rewrite !Z.shiftr_div_pow2 by lia. unfold u8. zdm.
Qed.

Lemma length_load32_buf src n : length (load32_le_buf src n) = n.
Proof. unfold load32_le_buf. by rewrite length_map, length_seq. Qed.
Lemma length_load64_buf src n : length (load64_le_buf src n) = n.
Proof. unfold load64_le_buf. by rewrite length_map, length_seq. Qed.
Lemma length_store32_buf l : length (store32_le_buf l) = (4 * length l)%nat.
Proof. unfold store32_le_buf. induction l as [|x l IH]; [done|]. cbn [map concat]. rewrite length_app, IH. cbn. lia. Qed.
Lemma length_store64_buf l : length (store64_le_buf l) = (8 * length l)%nat.
Proof. unfold store64_le_buf. induction l as [|x l IH]; [done|]. cbn [map concat]. rewrite length_app, IH. cbn. lia. Qed.

Lemma store32_byte x : bytes (store32_le x).
Proof. rewrite store32_bytes. apply le_bytes_byte. Qed.
Lemma store32_buf_bytes l : bytes (store32_le_buf l).
Proof. unfold store32_le_buf. induction l as [|x l IH]; [constructor|]. cbn [map concat]. apply Forall_app. split; [apply store32_byte|done]. Qed.
Lemma store64_buf_bytes l : bytes (store64_le_buf l).
Proof. unfold store64_le_buf. induction l as [|x l IH]; [constructor|]. cbn [map concat]. apply Forall_app. split; [rewrite store64_bytes; apply le_bytes_byte|done]. Qed.

(** ** Alignment *)

Lemma gap_spec x k : 0 <= k <= 63 -> 0 <= x < 2 ^ 63 -> gap x (2 ^ k) = (- x) mod 2 ^ k.
Proof.
  intros Hk Hx. unfold gap. replace (2 ^ k - 1) with (Z.ones k) by (rewrite Z.ones_equiv; lia). rewrite Z.land_ones by lia.
  change (Z.lnot x) with (Z.pred (- x)). unfold u64. rewrite Zplus_mod_idemp_l. replace (Z.pred (- x) + 1) with (- x) by lia.
  replace (2 ^ 64) with (2 ^ (64 - k) * 2 ^ k) by (rewrite <- Z.pow_add_r by lia; f_equal; lia).
  rewrite Z.mul_comm, Z.rem_mul_r by (try apply Z.pow_pos_nonneg; lia || (apply Z.pow_nonzero; lia)).
  rewrite Z.mul_comm, Z.mod_add by (apply Z.pow_nonzero; lia). by rewrite Z.mod_mod by (apply Z.pow_nonzero; lia).
Qed.

Lemma gap_range x k : 0 <= k <= 63 -> 0 <= x < 2 ^ 63 -> 0 <= gap x (2 ^ k) < 2 ^ k.
Proof. intros Hk Hx. rewrite gap_spec by done. apply Z.mod_pos_bound, Z.pow_pos_nonneg; lia. Qed.

(** ** Comparison *)

Lemma le_value_inj l1 l2 : bytes l1 -> bytes l2 -> length l1 = length l2 -> le_value l1 = le_value l2 -> l1 = l2.
Proof. intros H1 H2 Hl E. rewrite <- (le_bytes_value l1 H1), <- (le_bytes_value l2 H2). by rewrite Hl, E. Qed.

Lemma neq0_spec d : is_u64 d -> neq0 d = if d =? 0 then 0 else -1.
Proof.
  intros Hd. unfold neq0. destruct (Z.eqb_spec d 0) as [->|Hne]; [reflexivity|].
  assert (Hu : is_u32 (u32 d)) by apply u32_range.
  assert (Hh : is_u32 (Z.shiftr d 32)) by (rewrite Z.shiftr_div_pow2 by lia; zdm).
  assert (Hb : 0 <= Z.lor (Z.shiftr d 32) (u32 d) < 2 ^ 32) by (apply lor_lt; lia).
  assert (Z.lor (Z.shiftr d 32) (u32 d) <> 0).
  { intros [E1 E2]%Z.lor_eq_0_iff. rewrite Z.shiftr_div_pow2 in E1 by lia. unfold u32 in E2. zdm. }
  rewrite u64_small by lia. rewrite (Z.shiftr_div_pow2 _ 32) by lia. rewrite Z.div_small by lia. reflexivity.
Qed.

Lemma load64_range s : bytes s -> 8 <= zlen s -> is_u64 (load64_le s).
Proof.
  intros H Hz. rewrite load64_value by done. pose proof (le_value_bound (take 8 s) ltac:(by apply Forall_take)) as Hb.
  unfold zlen in *. rewrite length_take in Hb. by replace (8 * Z.of_nat (8 `min` length s)) with 64 in Hb by lia.
Qed.
Lemma lxor_lt x y w : 0 <= w -> 0 <= x < 2 ^ w -> 0 <= y < 2 ^ w -> 0 <= Z.lxor x y < 2 ^ w.
Proof.
  intros Hw Hx Hy. split; [apply Z.lxor_nonneg; lia|]. destruct (Z.eq_dec (Z.lxor x y) 0) as [->|Hne]; [lia|].
  assert (0 <= Z.lxor x y) by (apply Z.lxor_nonneg; lia). apply Z.log2_lt_pow2; [lia|]. apply Z.le_lt_trans with (Z.log2 (Z.lor x y)).
  - rewrite Z.log2_lor by lia. apply Z.log2_lxor; lia.
  - pose proof (lor_lt x y w Hw Hx Hy). destruct (Z.eq_dec (Z.lor x y) 0) as [E|]; [|apply Z.log2_lt_pow2; lia].
    apply Z.lor_eq_0_iff in E as [-> ->]. done.
Qed.
Lemma lxor_u64 x y : is_u64 x -> is_u64 y -> is_u64 (Z.lxor x y).
Proof. apply lxor_lt. lia. Qed.

Definition differ (n : nat) (a b : list Z) (d : Z) : Prop := is_u64 d /\ (d = 0 <-> take n a = take n b).

Lemma differ8 a b : bytes a -> bytes b -> 8 <= zlen a -> 8 <= zlen b -> differ 8 a b (Z.lxor (load64_le a) (load64_le b)).
Proof.
  intros Ha Hb Hza Hzb. split; [apply lxor_u64; by apply load64_range|]. rewrite Z.lxor_eq_0_iff, !load64_value by done. split; [|by intros ->].
  apply le_value_inj; try by apply Forall_take. unfold zlen in *. rewrite !length_take. lia.
Qed.
Lemma differ_app n m a b d e : differ n a b d -> differ m (drop n a) (drop n b) e -> length (take n a) = length (take n b) -> differ (n + m) a b (Z.lor d e).
Proof.
  intros [H1 H2] [H3 H4] Hl. split; [apply lor_lt; lia|]. rewrite Z.lor_eq_0_iff, H2, H4, <- !take_take_drop. split; [by intros [-> ->]|].
  intros E. by apply app_inj_1 in E.
Qed.

Ltac differ_tac := unfold zlen in *; rewrite ?length_take, ?length_drop; lia.
Lemma differ16 a b : bytes a -> bytes b -> 16 <= zlen a -> 16 <= zlen b -> differ 16 a b (x16 a b).
Proof. intros. apply (differ_app 8 8); [apply differ8; done || lia|apply differ8; (by apply Forall_drop) || differ_tac|differ_tac]. Qed.
Lemma differ32 a b : bytes a -> bytes b -> 32 <= zlen a -> 32 <= zlen b -> differ 32 a b (x32 a b).
Proof. intros. apply (differ_app 16 16); [apply differ16; done || lia|apply differ16; (by apply Forall_drop) || differ_tac|differ_tac]. Qed.
Lemma differ64 a b : bytes a -> bytes b -> 64 <= zlen a -> 64 <= zlen b -> differ 64 a b (x64 a b).
Proof. intros. apply (differ_app 32 32); [apply differ32; done || lia|apply differ32; (by apply Forall_drop) || differ_tac|differ_tac]. Qed.

Lemma differ_verify n a b d : differ n a b d -> (neq0 d =? 0) = bool_decide (take n a = take n b).
Proof.
  intros [Hu Hd]. rewrite neq0_spec by done. case_bool_decide as E.
  - apply Hd in E. by rewrite E.
  - destruct (Z.eqb_spec d 0) as [->|]; [|done]. by destruct E; apply Hd.
Qed.

Lemma diff_loop (a b : list Z) n : forall (k : nat) (d : Z), bytes a -> bytes b -> Z.of_nat (k + n) <= zlen a -> Z.of_nat (k + n) <= zlen b -> 0 <= d ->
  0 <= foldl (fun diff i => Z.lor diff (u8 (Z.lxor a.[Z.of_nat i] b.[Z.of_nat i]))) d (seq k n) /\
  (foldl (fun diff i => Z.lor diff (u8 (Z.lxor a.[Z.of_nat i] b.[Z.of_nat i]))) d (seq k n) = 0 <-> d = 0 /\ take n (drop k a) = take n (drop k b)).
Proof.
  induction n as [|n IH]; intros k d Ha Hb Hza Hzb Hd; cbn [seq foldl]; [split; [lia|by rewrite !take_0; tauto]|].
  unfold zlen in *. destruct (lookup_lt_is_Some_2 a k) as [x Hx]; [lia|]. destruct (lookup_lt_is_Some_2 b k) as [y Hy]; [lia|].
  assert (Ex : a.[Z.of_nat k] = x) by (unfold arr_get; rewrite Nat2Z.id; by apply list_lookup_total_correct).
  assert (Ey : b.[Z.of_nat k] = y) by (unfold arr_get; rewrite Nat2Z.id; by apply list_lookup_total_correct). rewrite Ex, Ey.
  assert (Bx : is_byte x) by exact (Forall_lookup_1 _ _ _ _ Ha Hx). assert (By : is_byte y) by exact (Forall_lookup_1 _ _ _ _ Hb Hy). unfold is_byte in *.
  assert (Hl : 0 <= Z.lxor x y) by (apply Z.lxor_nonneg; lia).
  assert (Hu : u8 (Z.lxor x y) = 0 <-> x = y).
  { rewrite u8_small by (apply lxor_lt; lia). apply Z.lxor_eq_0_iff. }
  destruct (IH (Datatypes.S k) (Z.lor d (u8 (Z.lxor x y)))) as [I1 I2]; try done; try lia; [apply Z.lor_nonneg; pose proof (u8_range (Z.lxor x y)); lia|].
  split; [done|]. rewrite I2, Z.lor_eq_0_iff, Hu. rewrite (drop_S a x k Hx), (drop_S b y k Hy). cbn [firstn]. split.
  - intros [[-> ->] ->]. done.
  - intros [-> E]. injection E as -> E. done.
Qed.

(** Equal exactly when the first [len] bytes are, whatever the length. *)
Lemma Equal_iff a b len : bytes a -> bytes b -> 0 <= len -> len <= zlen a -> len <= zlen b ->
  Equal a b len = bool_decide (take (Z.to_nat len) a = take (Z.to_nat len) b).
Proof.
  intros Ha Hb Hl Hza Hzb. unfold Equal. destruct (Z.eqb_spec len 16) as [->|_]; [apply (differ_verify 16), differ16; done|].
  destruct (Z.eqb_spec len 32) as [->|_]; [apply (differ_verify 32), differ32; done|].
  destruct (Z.eqb_spec len 64) as [->|_]; [apply (differ_verify 64), differ64; done|].
  destruct (diff_loop a b (Z.to_nat len) 0 0) as [_ H]; try done; try lia. rewrite !drop_0 in H. case_bool_decide as E.
  - apply Z.eqb_eq. by apply H.
  - apply Z.eqb_neq. intros E2. by apply H in E2 as [_ ?].
Qed.
