(* ===== verification/Chacha.v ===== *)
(** * ChaCha20: the stream cipher of [monocypher/monocypher.c]

    The rounds on sixteen words, the key derivation that is one permutation, and the
    cipher, whole blocks word by word and the rest byte by byte.  The NULL plain text
    that asks for the stream itself is [None].

    Proved: the cipher is the bytewise exclusive or of its text with the stream of the
    blocks at the counters from the one given, whatever the length and across the
    wrap of the counter's low half; so a second pass undoes the first. *)

From S2P Require Import Prelude Wire Errors Keys Packet Words.

(** ** Definitions *)

Definition QUARTERROUND (a b c d : Z) (t : list Z) : list Z :=
  let t := t.[a <- u32 (t.[a] + t.[b])] in let t := t.[d <- rotl32 (Z.lxor t.[d] t.[a]) 16] in
  let t := t.[c <- u32 (t.[c] + t.[d])] in let t := t.[b <- rotl32 (Z.lxor t.[b] t.[c]) 12] in
  let t := t.[a <- u32 (t.[a] + t.[b])] in let t := t.[d <- rotl32 (Z.lxor t.[d] t.[a]) 8] in
  let t := t.[c <- u32 (t.[c] + t.[d])] in t.[b <- rotl32 (Z.lxor t.[b] t.[c]) 7].

Definition double_round (t : list Z) : list Z :=
  let t := QUARTERROUND 3 7 11 15 (QUARTERROUND 2 6 10 14 (QUARTERROUND 1 5 9 13 (QUARTERROUND 0 4 8 12 t))) in
  QUARTERROUND 3 4 9 14 (QUARTERROUND 2 7 8 13 (QUARTERROUND 1 6 11 12 (QUARTERROUND 0 5 10 15 t))).

Definition chacha20_rounds (input : list Z) : list Z := Nat.iter 10 double_round input.

(** "expand 32-byte k" *)
Definition chacha20_constant : list Z := [101; 120; 112; 97; 110; 100; 32; 51; 50; 45; 98; 121; 116; 101; 32; 107].

Definition crypto_chacha20_h (key input : list Z) : list Z :=
  let block := load32_le_buf chacha20_constant 4 ++ load32_le_buf key 8 ++ load32_le_buf input 4 in
  let block := chacha20_rounds block in
  store32_le_buf (take 4 block) ++ store32_le_buf (take 4 (drop 12 block)).

(** The next block's counter: the high half moves when the low one comes round. *)
Definition next_block (input : list Z) : list Z :=
  let input := input.[12 <- u32 (input.[12] + 1)] in if input.[12] =? 0 then input.[13 <- u32 (input.[13] + 1)] else input.

Definition whole_block (input : list Z) (plain_text : option (list Z)) : list Z :=
  let pool := chacha20_rounds input in
  concat (map (fun j => let p := u32 (pool.[Z.of_nat j] + input.[Z.of_nat j]) in
    match plain_text with Some plain => store32_le (Z.lxor p (load32_le (drop (4 * j) plain))) | None => store32_le p end) (seq 0 16)).
Definition last_block (input : list Z) (plain_text : list Z) (text_size : Z) : list Z :=
  let pool := chacha20_rounds input in
  let tmp := concat (map (fun i => store32_le (u32 (pool.[Z.of_nat i] + input.[Z.of_nat i]))) (seq 0 16)) in
  map (fun i => Z.lxor tmp.[Z.of_nat i] plain_text.[Z.of_nat i]) (seq 0 (Z.to_nat text_size)).

Fixpoint djb_blocks (nb_blocks : nat) (input : list Z) (plain_text : option (list Z)) : list Z * list Z * option (list Z) :=
  match nb_blocks with
  | O => ([], input, plain_text)
  | Datatypes.S n =>
      let out := whole_block input plain_text in
      let '(rest, input, plain_text) := djb_blocks n (next_block input) (drop 64 <$> plain_text) in (out ++ rest, input, plain_text)
  end.

Definition djb_input (key nonce : list Z) (ctr : Z) : list Z :=
  load32_le_buf chacha20_constant 4 ++ load32_le_buf key 8 ++ [u32 ctr; u32 (Z.shiftr ctr 32)] ++ load32_le_buf nonce 2.

Definition crypto_chacha20_djb (plain_text : option (list Z)) (text_size : Z) (key nonce : list Z) (ctr : Z) : list Z * Z :=
  let input := djb_input key nonce ctr in
  let '(out, input, plain_text) := djb_blocks (Z.to_nat (Z.shiftr text_size 6)) input plain_text in
  let text_size := Z.land text_size 63 in
  let out := if 0 <? text_size then out ++ last_block input (default (replicate 128 0) plain_text) text_size else out in
  (out, u64 (input.[12] + u64 (Z.shiftl input.[13] 32) + (if 0 <? text_size then 1 else 0))).

Definition crypto_chacha20_ietf (plain_text : option (list Z)) (text_size : Z) (key nonce : list Z) (ctr : Z) : list Z * Z :=
  let big_ctr := u64 (ctr + u64 (Z.shiftl (load32_le nonce) 32)) in
  let '(out, ctr) := crypto_chacha20_djb plain_text text_size key (drop 4 nonce) big_ctr in (out, u32 ctr).

Definition crypto_chacha20_x (plain_text : option (list Z)) (text_size : Z) (key nonce : list Z) (ctr : Z) : list Z * Z :=
  let sub_key := crypto_chacha20_h key nonce in crypto_chacha20_djb plain_text text_size sub_key (drop 16 nonce) ctr.

(** The published vectors: section 2.1.1, 2.3.2 and 2.4.2 of RFC 8439. *)
Example quarter_round_vector : QUARTERROUND 0 1 2 3 [0x11111111; 0x01020304; 0x9b8d6f43; 0x01234567] = [0xea2a92f4; 0xcb1cf8ce; 0x4581472e; 0x5881c4bb].
Proof. vm_compute. reflexivity. Qed.

Definition vector_key : list Z := map Z.of_nat (seq 0 32).
Example block_vector :
  fst (crypto_chacha20_ietf None 16 vector_key [0; 0; 0; 9; 0; 0; 0; 0x4a; 0; 0; 0; 0] 1) =
  [0x10; 0xf1; 0xe7; 0xe4; 0xd1; 0x3b; 0x59; 0x15; 0x50; 0x0f; 0xdd; 0x1f; 0xa3; 0x20; 0x71; 0xc4].
Proof. vm_compute. reflexivity. Qed.

(** draft-irtf-cfrg-xchacha, section 2.2.1. *)
Example hchacha_vector :
  take 8 (crypto_chacha20_h vector_key [0; 0; 0; 9; 0; 0; 0; 0x4a; 0; 0; 0; 0; 0x31; 0x41; 0x59; 0x27]) = [0x82; 0x41; 0x3b; 0x42; 0x27; 0xb2; 0x7b; 0xfe].
Proof. vm_compute. reflexivity. Qed.

(** ** The stream *)

Lemma length_QUARTERROUND a b c d t : length (QUARTERROUND a b c d t) = length t.
Proof. unfold QUARTERROUND, arr_set. by rewrite !length_insert. Qed.
Lemma length_rounds t : length (chacha20_rounds t) = length t.
Proof.
  unfold chacha20_rounds. generalize 10%nat. intros k. induction k as [|n IH]; [done|]. cbn [Nat.iter nat_rect]. rewrite <- IH. unfold double_round. by rewrite !length_QUARTERROUND.
Qed.
#[local] Opaque chacha20_rounds.

(** The key stream as RFC 8439 has it: the blocks of the counters from [c] on. *)
Definition stream_block (key nonce : list Z) (c : Z) : list Z :=
  let input := djb_input key nonce c in
  store32_le_buf (zip_with (fun x y => u32 (x + y)) (chacha20_rounds input) input).
Fixpoint stream (key nonce : list Z) (c : Z) (blocks : nat) : list Z :=
  match blocks with O => [] | Datatypes.S n => stream_block key nonce c ++ stream key nonce (u64 (c + 1)) n end.

Definition xor (l1 l2 : list Z) : list Z := zip_with Z.lxor l1 l2.

Lemma length_djb_input key nonce c : length (djb_input key nonce c) = 16%nat.
Proof. done. Qed.

Lemma zlen_chacha20_h key input : zlen (crypto_chacha20_h key input) = 32.
Proof.
  unfold crypto_chacha20_h, zlen. cbv zeta. rewrite length_app, !length_store32_buf, !length_take, length_drop, length_rounds. done.
Qed.

Section Stream.
Context (key nonce : list Z).

Lemma length_block c : length (stream_block key nonce c) = 64%nat.
Proof using. unfold stream_block. rewrite length_store32_buf, length_zip_with, length_rounds. done. Qed.
Lemma length_stream n c : length (stream key nonce c n) = (64 * n)%nat.
Proof using. revert c. induction n as [|n IH]; intros c; [done|]. cbn [stream]. rewrite length_app, length_block, IH. lia. Qed.
Lemma stream_bytes n c : bytes (stream key nonce c n).
Proof using. revert c. induction n as [|n IH]; intros c; [constructor|]. cbn [stream]. apply Forall_app. split; [apply store32_buf_bytes|done]. Qed.

Lemma next_block_input c : is_u64 c -> next_block (djb_input key nonce c) = djb_input key nonce (u64 (c + 1)).
Proof using.
  intros Hc. unfold next_block.
  assert (E : (djb_input key nonce c).[12 <- u32 ((djb_input key nonce c).[12] + 1)] =
    load32_le_buf chacha20_constant 4 ++ load32_le_buf key 8 ++ [u32 (u32 c + 1); u32 (Z.shiftr c 32)] ++ load32_le_buf nonce 2) by reflexivity.
  rewrite E. set (l := load32_le_buf chacha20_constant 4 ++ _).
  change (l.[12]) with (u32 (u32 c + 1)). change (l.[13]) with (u32 (Z.shiftr c 32)). subst l.
  assert (H : forall (x x' y y' : Z) t, x = x' -> y = y' -> [x; y] ++ t = [x'; y'] ++ t) by congruence.
  unfold djb_input. rewrite !Z.shiftr_div_pow2 by lia. destruct (Z.eqb_spec (u32 (u32 c + 1)) 0) as [E0|E0].
  - match goal with |- ?l.[13 <- ?v] = _ => change (l.[13 <- v]) with (load32_le_buf chacha20_constant 4 ++ load32_le_buf key 8 ++ [u32 (u32 c + 1); v] ++ load32_le_buf nonce 2) end.
    do 2 f_equal. unfold u32, u64 in *. apply H; zdm.
  - do 2 f_equal. unfold u32, u64 in *. apply H; zdm.
Qed.

(** ** A block *)

Lemma xor_app l1 l2 m1 m2 : length l1 = length m1 -> xor (l1 ++ l2) (m1 ++ m2) = xor l1 m1 ++ xor l2 m2.
Proof using. apply zip_with_app. Qed.
Lemma le_bytes_xor n : forall x y, le_bytes n (Z.lxor x y) = xor (le_bytes n x) (le_bytes n y).
Proof using.
  induction n as [|n IH]; intros x y; [done|]. cbn [le_bytes xor zip_with]. rewrite Z.shiftr_lxor, IH. f_equal.
  unfold u8. apply Z.bits_inj'. intros i Hi. rewrite Z.lxor_spec. destruct (Z.ltb_spec i 8).
  - rewrite !Z.mod_pow2_bits_low by lia. by rewrite Z.lxor_spec.
  - by rewrite !Z.mod_pow2_bits_high by lia.
Qed.
Lemma store_xor p plain : bytes plain -> 4 <= zlen plain -> store32_le (Z.lxor p (load32_le plain)) = xor (take 4 plain) (store32_le p).
Proof using.
  intros Hp Hz. rewrite load32_value by done. rewrite !store32_bytes, Z.lxor_comm, le_bytes_xor. f_equal.
  rewrite <- (le_bytes_value (take 4 plain)) at 2 by by apply Forall_take. f_equal. unfold zlen in Hz. rewrite length_take. lia.
Qed.

Lemma sum_words (l i : list Z) : length l = 16%nat -> length i = 16%nat ->
  map (fun j => store32_le (u32 (l.[Z.of_nat j] + i.[Z.of_nat j]))) (seq 0 16) = map store32_le (zip_with (fun x y => u32 (x + y)) l i).
Proof using.
  intros Hl Hi. do 16 (destruct l as [|? l]; [cbn in Hl; lia|]). destruct l; [|cbn in Hl; lia].
  do 16 (destruct i as [|? i]; [cbn in Hi; lia|]). destruct i; [reflexivity|cbn in Hi; lia].
Qed.
Lemma block_words c : map (fun j => store32_le (u32 ((chacha20_rounds (djb_input key nonce c)).[Z.of_nat j] + (djb_input key nonce c).[Z.of_nat j]))) (seq 0 16) =
  map store32_le (zip_with (fun x y => u32 (x + y)) (chacha20_rounds (djb_input key nonce c)) (djb_input key nonce c)).
Proof using. apply sum_words; [by rewrite length_rounds|done]. Qed.

Lemma concat_xor (f : nat -> Z) (plain : list Z) n : forall k, bytes plain -> (4 * (k + n) <= length plain)%nat ->
  concat (map (fun j => store32_le (Z.lxor (f j) (load32_le (drop (4 * j) plain)))) (seq k n)) =
  xor (take (4 * n) (drop (4 * k) plain)) (concat (map (fun j => store32_le (f j)) (seq k n))).
Proof using.
  induction n as [|n IH]; intros k Hp Hz; [by rewrite take_0|]. cbn [seq map concat].
  rewrite store_xor by ((by apply Forall_drop) || (unfold zlen; rewrite length_drop; lia)). rewrite IH by (done || lia).
  replace (4 * Datatypes.S n)%nat with (4 + 4 * n)%nat by lia. replace (4 * Datatypes.S k)%nat with (4 * k + 4)%nat by lia.
  rewrite <- (take_take_drop (drop (4 * k) plain) 4 (4 * n)), drop_drop, xor_app; [done|]. rewrite length_take, length_drop. change (length (store32_le _)) with 4%nat. lia.
Qed.
Lemma whole_block_some c plain : bytes plain -> 64 <= zlen plain -> whole_block (djb_input key nonce c) (Some plain) = xor (take 64 plain) (stream_block key nonce c).
Proof using.
  intros Hp Hz. unfold whole_block. cbv zeta. unfold zlen in Hz. rewrite (concat_xor _ plain 16 0) by (exact Hp || lia). rewrite drop_0. apply f_equal.
  unfold stream_block, store32_le_buf. cbv zeta. rewrite <- block_words. reflexivity.
Qed.
Lemma whole_block_none c : whole_block (djb_input key nonce c) None = stream_block key nonce c.
Proof using. unfold whole_block, stream_block, store32_le_buf. cbv zeta. rewrite <- block_words. reflexivity. Qed.

Lemma map_xor (t plain : list Z) n : (n <= length t)%nat -> (n <= length plain)%nat ->
  map (fun i => Z.lxor t.[Z.of_nat i] plain.[Z.of_nat i]) (seq 0 n) = xor (take n plain) (take n t).
Proof using.
  revert t plain. induction n as [|n IH]; intros t plain Ht Hp; [by rewrite !take_0|]. destruct t as [|x t]; [cbn in Ht; lia|]. destruct plain as [|y plain]; [cbn in Hp; lia|].
  cbn [seq map]. rewrite <- seq_shift, map_map. rewrite !firstn_cons. cbn [xor zip_with]. unfold xor in IH. rewrite <- (IH t plain) by (cbn in *; lia). f_equal; [apply Z.lxor_comm|].
  apply map_ext. intros i. unfold arr_get. rewrite !Nat2Z.id. done.
Qed.
Lemma last_block_spec c plain n : 0 <= n <= 64 -> n <= zlen plain ->
  last_block (djb_input key nonce c) plain n = xor (take (Z.to_nat n) plain) (take (Z.to_nat n) (stream_block key nonce c)).
Proof using.
  intros Hn Hz. unfold last_block, stream_block, store32_le_buf. cbv zeta. rewrite block_words. unfold zlen in Hz. apply map_xor; [|lia].
  pose proof (length_block c) as Hb. unfold stream_block, store32_le_buf in Hb. cbv zeta in Hb. rewrite Hb. lia.
Qed.

(** ** The whole text *)

Lemma u64_step c n : u64 (u64 (c + 1) + Z.of_nat n) = u64 (c + Z.of_nat (Datatypes.S n)).
Proof using. unfold u64. rewrite Zplus_mod_idemp_l. f_equal. lia. Qed.

Lemma djb_blocks_some n : forall c plain, is_u64 c -> bytes plain -> (64 * n <= length plain)%nat ->
  djb_blocks n (djb_input key nonce c) (Some plain) =
  (xor (take (64 * n) plain) (stream key nonce c n), djb_input key nonce (u64 (c + Z.of_nat n)), Some (drop (64 * n) plain)).
Proof using.
  induction n as [|n IH]; intros c plain Hc Hp Hz.
  - cbn [djb_blocks stream]. rewrite take_0, drop_0. replace (c + Z.of_nat 0) with c by lia. by rewrite u64_small.
  - cbn [djb_blocks stream]. cbv zeta. rewrite next_block_input by done. cbn [fmap option_fmap option_map].
    rewrite IH by (try apply u64_range; try (by apply Forall_drop); rewrite ?length_drop; lia).
    rewrite whole_block_some by (done || (unfold zlen; lia)). replace (64 * Datatypes.S n)%nat with (64 + 64 * n)%nat by lia.
    rewrite <- (take_take_drop plain 64 (64 * n)), xor_app by (rewrite length_take, length_block; lia). rewrite drop_drop.
    by rewrite u64_step.
Qed.
Lemma djb_blocks_none n : forall c, is_u64 c -> djb_blocks n (djb_input key nonce c) None = (stream key nonce c n, djb_input key nonce (u64 (c + Z.of_nat n)), None).
Proof using.
  induction n as [|n IH]; intros c Hc.
  - cbn [djb_blocks stream]. replace (c + Z.of_nat 0) with c by lia. by rewrite u64_small.
  - cbn [djb_blocks stream]. cbv zeta. rewrite next_block_input by done. cbn [fmap option_fmap option_map]. rewrite IH by apply u64_range. rewrite whole_block_none.
    by rewrite u64_step.
Qed.
Lemma stream_snoc n : forall c, is_u64 c -> stream key nonce c (Datatypes.S n) = stream key nonce c n ++ stream_block key nonce (u64 (c + Z.of_nat n)).
Proof using.
  induction n as [|n IH]; intros c Hc.
  - cbn [stream app]. rewrite app_nil_r. replace (c + Z.of_nat 0) with c by lia. by rewrite u64_small.
  - change (stream key nonce c (Datatypes.S (Datatypes.S n))) with (stream_block key nonce c ++ stream key nonce (u64 (c + 1)) (Datatypes.S n)).
    rewrite IH by apply u64_range. cbn [stream]. rewrite <- app_assoc. by rewrite u64_step.
Qed.
Lemma counter_words c : is_u64 c -> (djb_input key nonce c).[12] = u32 c /\ (djb_input key nonce c).[13] = u32 (Z.shiftr c 32).
Proof using. done. Qed.
End Stream.

Definition blocks_of (n : Z) : nat := Z.to_nat ((n + 63) / 64).

Lemma blocks_split n : 0 <= n -> blocks_of n = (Z.to_nat (Z.shiftr n 6) + (if (0 <? Z.land n 63)%Z then 1 else 0))%nat /\
  Z.to_nat n = (64 * Z.to_nat (Z.shiftr n 6) + Z.to_nat (Z.land n 63))%nat /\ 0 <= Z.land n 63 < 64.
Proof.
  intros Hn. unfold blocks_of. assert (E : Z.land n 63 = n mod 64) by apply (land_mask n 6 ltac:(lia)). rewrite E, Z.shiftr_div_pow2 by lia. change (2 ^ 6) with 64.
  destruct (Z.ltb_spec 0 (n mod 64)); split_and!; zdm.
Qed.

Lemma join_counter c : is_u64 c -> u32 c + u64 (Z.shiftl (u32 (Z.shiftr c 32)) 32) = c.
Proof. intros Hc. rewrite Z.shiftl_mul_pow2, Z.shiftr_div_pow2 by lia. unfold u32, u64. zdm. Qed.

Lemma xor_take_r l m : xor l m = xor l (take (length l) m).
Proof. revert m. induction l as [|x l IH]; intros m; [done|]. destruct m as [|y m]; [done|]. cbn [length]. rewrite firstn_cons. cbn [xor zip_with]. f_equal. apply IH. Qed.
Lemma length_xor l m : (length l <= length m)%nat -> length (xor l m) = length l.
Proof. intros H. unfold xor. rewrite length_zip_with. lia. Qed.
Lemma xor_involutive l m : (length l <= length m)%nat -> xor (xor l m) m = l.
Proof.
  revert m. induction l as [|x l IH]; intros m H; [done|]. destruct m as [|y m]; cbn in H; [lia|]. cbn [xor zip_with]. f_equal; [|apply IH; lia].
  by rewrite Z.lxor_assoc, Z.lxor_nilpotent, Z.lxor_0_r.
Qed.
Lemma xor_bytes l m : bytes l -> bytes m -> bytes (xor l m).
Proof.
  intros Hl. revert m. induction Hl as [|x l Hx _ IH]; intros m Hm; [constructor|]. destruct Hm as [|y m Hy Hm]; [constructor|]. cbn [xor zip_with].
  constructor; [|by apply IH]. unfold is_byte in *. change 256 with (2 ^ 8). apply lxor_lt; lia.
Qed.
Lemma xor_zeros n m : (n <= length m)%nat -> Forall (fun x => True) m -> xor (replicate n 0) m = take n m.
Proof.
  revert m. induction n as [|n IH]; intros m H _; [by rewrite take_0|]. destruct m as [|y m]; cbn in H; [lia|]. rewrite firstn_cons. cbn [replicate xor zip_with].
  f_equal. apply IH; [lia|by apply Forall_true].
Qed.

Lemma djb_some key nonce c n plain : is_u64 c -> bytes plain -> 0 <= n <= zlen plain ->
  crypto_chacha20_djb (Some plain) n key nonce c = (xor (take (Z.to_nat n) plain) (stream key nonce c (blocks_of n)), u64 (c + Z.of_nat (blocks_of n))).
Proof.
  intros Hc Hp Hn. unfold zlen in Hn. destruct (blocks_split n) as (Eb&En&Hr); [lia|]. unfold crypto_chacha20_djb. cbv zeta.
  rewrite djb_blocks_some by (done || lia). set (nb := Z.to_nat (Z.shiftr n 6)) in *. set (r := Z.land n 63) in *. set (c' := u64 (c + Z.of_nat nb)).
  assert (Hc' : is_u64 c') by apply u64_range. destruct (counter_words key nonce c' Hc') as [-> ->]. rewrite join_counter by done. cbn [default from_option id].
  rewrite Eb, En. destruct (Z.ltb_spec 0 r) as [Hpos|Hz].
  - rewrite last_block_spec by (try (unfold zlen; rewrite length_drop); lia).
    replace (nb + 1)%nat with (Datatypes.S nb) by lia. rewrite stream_snoc by done. fold c'. rewrite <- take_take_drop, xor_app by (rewrite length_take, length_stream; lia).
    rewrite (xor_take_r (take (Z.to_nat r) _) (stream_block key nonce c')), length_take, length_drop.
    replace (Z.to_nat r `min` (length plain - 64 * nb))%nat with (Z.to_nat r) by lia. f_equal. unfold c', u64. rewrite Zplus_mod_idemp_l. f_equal. lia.
  - replace (Z.to_nat r) with 0%nat by lia. rewrite !Nat.add_0_r, Z.add_0_r. by rewrite u64_small.
Qed.
Lemma djb_none key nonce c n : is_u64 c -> 0 <= n ->
  crypto_chacha20_djb None n key nonce c = (take (Z.to_nat n) (stream key nonce c (blocks_of n)), u64 (c + Z.of_nat (blocks_of n))).
Proof.
  intros Hc Hn. destruct (blocks_split n) as (Eb&En&Hr); [lia|]. unfold crypto_chacha20_djb. cbv zeta.
  rewrite djb_blocks_none by done. set (nb := Z.to_nat (Z.shiftr n 6)) in *. set (r := Z.land n 63) in *. set (c' := u64 (c + Z.of_nat nb)).
  assert (Hc' : is_u64 c') by apply u64_range. destruct (counter_words key nonce c' Hc') as [-> ->]. rewrite join_counter by done. cbn [default from_option id].
  rewrite Eb, En. destruct (Z.ltb_spec 0 r) as [Hpos|Hz].
  - rewrite last_block_spec by (try (unfold zlen; rewrite length_replicate); lia). rewrite take_replicate. replace (Z.to_nat r `min` 128)%nat with (Z.to_nat r) by lia.
    rewrite xor_zeros; [|rewrite length_take, length_block; lia|by apply Forall_true]. rewrite take_take. replace (Z.to_nat r `min` Z.to_nat r)%nat with (Z.to_nat r) by lia.
    replace (nb + 1)%nat with (Datatypes.S nb) by lia. rewrite stream_snoc by done. fold c'. rewrite take_app_add' by (by rewrite length_stream).
    f_equal. unfold c', u64. rewrite Zplus_mod_idemp_l. f_equal. lia.
  - replace (Z.to_nat r) with 0%nat by lia. rewrite !Nat.add_0_r, Z.add_0_r. rewrite <- (length_stream key nonce nb c), firstn_all. by rewrite u64_small.
Qed.

(** (C14) The cipher, whole blocks by words and the rest by bytes, is the bytewise
    exclusive or of the text with the published key stream: the blocks of the counters
    from the one given on, across the wrap of either half of the counter; it reports
    the counter behind the last block used, a partial one included.  Without a text it
    gives the stream.  So any text enciphered is deciphered by the same call, and the
    extended nonce only changes the key.  The stream is made of the code's block function,
    which published vectors pin. *)
Theorem chacha20_is_stream_xor (key nonce plain : list Z) (ctr n : Z) (Hc : is_u64 ctr) (Hp : bytes plain) (Hn : 0 <= n <= zlen plain) :
  let cipher := fst (crypto_chacha20_djb (Some plain) n key nonce ctr) in
  crypto_chacha20_djb (Some plain) n key nonce ctr = (xor (take (Z.to_nat n) plain) (stream key nonce ctr (blocks_of n)), u64 (ctr + Z.of_nat (blocks_of n))) /\
  crypto_chacha20_djb None n key nonce ctr = (take (Z.to_nat n) (stream key nonce ctr (blocks_of n)), u64 (ctr + Z.of_nat (blocks_of n))) /\
  fst (crypto_chacha20_djb (Some cipher) n key nonce ctr) = take (Z.to_nat n) plain /\ zlen cipher = n /\ bytes cipher /\
  (forall key' nonce', crypto_chacha20_x (Some plain) n key' nonce' ctr = crypto_chacha20_djb (Some plain) n (crypto_chacha20_h key' nonce') (drop 16 nonce') ctr).
Proof.
  cbv zeta. rewrite djb_some by done. cbn [fst].
  assert (Hl : (Z.to_nat n <= length (stream key nonce ctr (blocks_of n)))%nat) by (rewrite length_stream; unfold blocks_of; zdm).
  assert (Hlt : length (take (Z.to_nat n) plain) = Z.to_nat n) by (unfold zlen in Hn; rewrite length_take; lia).
  assert (Hlx : length (xor (take (Z.to_nat n) plain) (stream key nonce ctr (blocks_of n))) = Z.to_nat n) by (rewrite length_xor; lia).
  assert (Hb : bytes (xor (take (Z.to_nat n) plain) (stream key nonce ctr (blocks_of n)))) by (apply xor_bytes; [by apply Forall_take|apply stream_bytes]).
  split; [done|]. split; [apply djb_none; [done|lia]|]. split; [|split; [unfold zlen; lia|split; [done|done]]].
  rewrite djb_some by (done || (unfold zlen; lia)). cbn [fst]. rewrite firstn_all2 by lia. apply xor_involutive. lia.
Qed.

Lemma chacha20_is_stream_xor_witness :
  snd (crypto_chacha20_djb (Some (replicate 70 7)) 70 vector_key [1; 2; 3; 4; 5; 6; 7; 8] (2 ^ 32 - 1)) = 2 ^ 32 + 1.
Proof.
  destruct (chacha20_is_stream_xor vector_key [1; 2; 3; 4; 5; 6; 7; 8] (replicate 70 7) (2 ^ 32 - 1) 70) as (->&_).
  - split; [discriminate|reflexivity].
  - apply Forall_replicate. unfold is_byte. lia.
  - split; [discriminate|vm_compute; discriminate].
  - reflexivity.
Defined.
