(* ===== verification/Poly1305.v ===== *)
(** * Poly1305: the one-time authenticator of [monocypher/monocypher.c]

    The multiplication by limbs modulo 2^130 - 5, the context that takes a message in
    pieces, and the last reduction.

    Proved: no intermediate result overflows its word, the limbs stay in the range the
    comments promise, and whatever pieces the message comes in the sixteen bytes are
    those of the published polynomial. *)

From S2P Require Import Prelude Wire Errors Keys Packet Words.

(** ** Definitions *)

Record poly1305_ctx := mk_poly { pc_c : list Z; pc_c_idx : Z; pc_r : list Z; pc_pad : list Z; pc_h : list Z }.
#[export] Instance poly1305_eta : Eta poly1305_ctx := fun x => mk_poly (pc_c x) (pc_c_idx x) (pc_r x) (pc_pad x) (pc_h x).

(** One turn of the loop: [(h + c) * r], partially reduced. *)
Definition poly_block (r h input : list Z) (end_ : Z) : list Z :=
  let r0 := r.[0] in let r1 := r.[1] in let r2 := r.[2] in let r3 := r.[3] in
  let rr0 := u32 (Z.shiftr r0 2 * 5) in
  let rr1 := u32 (Z.shiftr r1 2 + r1) in
  let rr2 := u32 (Z.shiftr r2 2 + r2) in
  let rr3 := u32 (Z.shiftr r3 2 + r3) in
  let rr4 := Z.land r0 3 in
  let s0 := u64 (h.[0] + load32_le input) in
  let s1 := u64 (h.[1] + load32_le (drop 4 input)) in
  let s2 := u64 (h.[2] + load32_le (drop 8 input)) in
  let s3 := u64 (h.[3] + load32_le (drop 12 input)) in
  let s4 := u32 (h.[4] + end_) in
  let x0 := u64 (s0 * r0 + s1 * rr3 + s2 * rr2 + s3 * rr1 + u32 (s4 * rr0)) in
  let x1 := u64 (s0 * r1 + s1 * r0 + s2 * rr3 + s3 * rr2 + u32 (s4 * rr1)) in
  let x2 := u64 (s0 * r2 + s1 * r1 + s2 * r0 + s3 * rr3 + u32 (s4 * rr2)) in
  let x3 := u64 (s0 * r3 + s1 * r2 + s2 * r1 + s3 * r0 + u32 (s4 * rr3)) in
  let x4 := u32 (s4 * rr4) in
  let u5 := u32 (u32 (Z.shiftr x3 32) + x4) in
  let u0 := u64 (u32 (Z.shiftr u5 2 * 5) + Z.land x0 0xffffffff) in
  let u1 := u64 (u32 (Z.shiftr u0 32) + Z.land x1 0xffffffff + Z.shiftr x0 32) in
  let u2 := u64 (u32 (Z.shiftr u1 32) + Z.land x2 0xffffffff + Z.shiftr x1 32) in
  let u3 := u64 (u32 (Z.shiftr u2 32) + Z.land x3 0xffffffff + Z.shiftr x2 32) in
  let u4 := u32 (u32 (Z.shiftr u3 32) + Z.land u5 3) in
  [Z.land u0 0xffffffff; Z.land u1 0xffffffff; Z.land u2 0xffffffff; Z.land u3 0xffffffff; u4].

Fixpoint poly_loop (nb_blocks : nat) (r h input : list Z) (end_ : Z) : list Z :=
  match nb_blocks with O => h | Datatypes.S n => poly_loop n r (poly_block r h input end_) (drop 16 input) end_ end.
Definition poly_blocks (ctx : poly1305_ctx) (input : list Z) (nb_blocks : Z) (end_ : Z) : poly1305_ctx :=
  ctx <| pc_h := poly_loop (Z.to_nat nb_blocks) (pc_r ctx) (pc_h ctx) input end_ |>.

(** The buffer [c] is not set: it holds whatever the memory did. *)
Definition crypto_poly1305_init (memory key : list Z) : poly1305_ctx :=
  let r := load32_le_buf key 4 in
  mk_poly memory 0 [Z.land r.[0] 0x0fffffff; Z.land r.[1] 0x0ffffffc; Z.land r.[2] 0x0ffffffc; Z.land r.[3] 0x0ffffffc]
    (load32_le_buf (drop 16 key) 4) [0; 0; 0; 0; 0].

(** The loops that put bytes into the buffer one by one. *)
Definition buffer_bytes (ctx : poly1305_ctx) (message : list Z) : poly1305_ctx :=
  foldl (fun ctx b => ctx <| pc_c := (pc_c ctx).[pc_c_idx ctx <- b] |> <| pc_c_idx := pc_c_idx ctx + 1 |>) ctx message.

Definition crypto_poly1305_update (ctx : poly1305_ctx) (message : list Z) (message_size : Z) : poly1305_ctx :=
  if message_size =? 0 then ctx
  else
    let aligned := Z.min (gap (pc_c_idx ctx) 16) message_size in
    let ctx := buffer_bytes ctx (take (Z.to_nat aligned) message) in
    let message := drop (Z.to_nat aligned) message in
    let message_size := message_size - aligned in
    let ctx := if pc_c_idx ctx =? 16 then (poly_blocks ctx (pc_c ctx) 1 1) <| pc_c_idx := 0 |> else ctx in
    let nb_blocks := Z.shiftr message_size 4 in
    let ctx := poly_blocks ctx message nb_blocks 1 in
    let message := drop (Z.to_nat (Z.shiftl nb_blocks 4)) message in
    let message_size := Z.land message_size 15 in
    buffer_bytes ctx (take (Z.to_nat message_size) message).

Definition crypto_poly1305_final (ctx : poly1305_ctx) : list Z :=
  let ctx := if pc_c_idx ctx =? 0 then ctx
    else
      let c := blit (pc_c ctx) (pc_c_idx ctx) (replicate (Z.to_nat (16 - pc_c_idx ctx)) 0) in
      let c := c.[pc_c_idx ctx <- 1] in
      poly_blocks (ctx <| pc_c := c |>) c 1 0 in
  let h := pc_h ctx in let pad := pc_pad ctx in
  let c := foldl (fun c i => Z.shiftr (u64 (c + h.[Z.of_nat i])) 32) 5 (seq 0 4) in
  let c := u64 (c + h.[4]) in
  let c := u64 (Z.shiftr c 2 * 5) in
  fst (foldl (fun '(mac, c) i => let c := u64 (c + u64 (h.[Z.of_nat i] + pad.[Z.of_nat i])) in (mac ++ store32_le (u32 c), Z.shiftr c 32)) ([], c) (seq 0 4)).

Definition crypto_poly1305 (memory message : list Z) (message_size : Z) (key : list Z) : list Z :=
  crypto_poly1305_final (crypto_poly1305_update (crypto_poly1305_init memory key) message message_size).

(** The published vector: section 2.5.2 of RFC 8439, "Cryptographic Forum Research Group". *)
Definition poly_vector_key : list Z :=
  [0x85; 0xd6; 0xbe; 0x78; 0x57; 0x55; 0x6d; 0x33; 0x7f; 0x44; 0x52; 0xfe; 0x42; 0xd5; 0x06; 0xa8;
   0x01; 0x03; 0x80; 0x8a; 0xfb; 0x0d; 0xb2; 0xfd; 0x4a; 0xbf; 0xf6; 0xaf; 0x41; 0x49; 0xf5; 0x1b].
Definition poly_vector_text : list Z :=
  [67; 114; 121; 112; 116; 111; 103; 114; 97; 112; 104; 105; 99; 32; 70; 111; 114; 117; 109; 32; 82; 101; 115; 101; 97; 114; 99; 104; 32; 71; 114; 111; 117; 112].
Example poly_vector : crypto_poly1305 (replicate 16 90) poly_vector_text 34 poly_vector_key =
  [0xa8; 0x06; 0x1d; 0xc1; 0x30; 0x51; 0x36; 0xc6; 0xc2; 0x2b; 0x8b; 0xaf; 0x0c; 0x01; 0x27; 0xa9].
Proof. vm_compute. reflexivity. Qed.

(** ** The published polynomial *)

Definition P1305 : Z := 2 ^ 130 - 5.
Definition clamp (key : list Z) : Z := Z.land (le_value (take 16 key)) 0x0ffffffc0ffffffc0ffffffc0fffffff.
(** The message in sixteens, each with a one behind it. *)
Fixpoint poly_acc (fuel : nat) (r acc : Z) (message : list Z) : Z :=
  match fuel, message with
  | O, _ | _, [] => acc
  | Datatypes.S n, _ => poly_acc n r (((acc + le_value (take 16 message ++ [1])) * r) mod P1305) (drop 16 message)
  end.
Definition poly1305_spec (key message : list Z) : list Z :=
  le_bytes 16 (poly_acc (length message) (clamp key) 0 message + le_value (take 16 (drop 16 key))).

Example poly_spec_vector : poly1305_spec poly_vector_key poly_vector_text = crypto_poly1305 (replicate 16 90) poly_vector_text 34 poly_vector_key.
Proof. vm_compute. reflexivity. Qed.

(** ** One block *)

Definition limbs (h : list Z) : Z := h.[0] + 2 ^ 32 * h.[1] + 2 ^ 64 * h.[2] + 2 ^ 96 * h.[3] + 2 ^ 128 * h.[4].
Definition h_ok (h : list Z) : Prop :=
  exists h0 h1 h2 h3 h4, h = [h0; h1; h2; h3; h4] /\ is_u32 h0 /\ is_u32 h1 /\ is_u32 h2 /\ is_u32 h3 /\ 0 <= h4 <= 4.
Definition r_ok (r : list Z) : Prop :=
  exists r0 q1 q2 q3, r = [r0; 4 * q1; 4 * q2; 4 * q3] /\ 0 <= r0 <= 0x0fffffff /\ 0 <= q1 <= 0x03ffffff /\ 0 <= q2 <= 0x03ffffff /\ 0 <= q3 <= 0x03ffffff.
Definition rval (r : list Z) : Z := r.[0] + 2 ^ 32 * r.[1] + 2 ^ 64 * r.[2] + 2 ^ 96 * r.[3].

Lemma limbs_eq a b c d e : limbs [a; b; c; d; e] = a + 2 ^ 32 * b + 2 ^ 64 * c + 2 ^ 96 * d + 2 ^ 128 * e.
Proof. reflexivity. Qed.

Lemma mul_bound a b A B : 0 <= a <= A -> 0 <= b <= B -> 0 <= a * b <= A * B.
Proof. intros. split; [nia|]. apply Z.mul_le_mono_nonneg; lia. Qed.

Lemma low32 x : Z.land x 0xffffffff = x mod 2 ^ 32.
Proof. exact (land_mask x 32 ltac:(lia)). Qed.

(** The carries of [u0] to [u4], over any [x0] to [x4] in range: what is dropped is a
    multiple of the modulus. *)
Lemma carry_ok x0 x1 x2 x3 x4 : 0 <= x0 < 2 ^ 64 -> 0 <= x1 < 2 ^ 64 -> 0 <= x2 < 2 ^ 64 - 2 ^ 62 -> 0 <= x3 < 2 ^ 63 + 2 ^ 40 -> 0 <= x4 <= 15 ->
  let u5 := u32 (u32 (Z.shiftr x3 32) + x4) in
  let u0 := u64 (u32 (Z.shiftr u5 2 * 5) + Z.land x0 0xffffffff) in
  let u1 := u64 (u32 (Z.shiftr u0 32) + Z.land x1 0xffffffff + Z.shiftr x0 32) in
  let u2 := u64 (u32 (Z.shiftr u1 32) + Z.land x2 0xffffffff + Z.shiftr x1 32) in
  let u3 := u64 (u32 (Z.shiftr u2 32) + Z.land x3 0xffffffff + Z.shiftr x2 32) in
  let u4 := u32 (u32 (Z.shiftr u3 32) + Z.land u5 3) in
  let h := [Z.land u0 0xffffffff; Z.land u1 0xffffffff; Z.land u2 0xffffffff; Z.land u3 0xffffffff; u4] in
  h_ok h /\ exists k, limbs h = x0 + 2 ^ 32 * x1 + 2 ^ 64 * x2 + 2 ^ 96 * x3 + 2 ^ 128 * x4 - k * P1305.
Proof.
  intros H0 H1 H2 H3 H4. cbv zeta. rewrite !low32. rewrite !Z.shiftr_div_pow2 by lia.
  assert (D3 : x3 / 2 ^ 32 < 2 ^ 31 + 2 ^ 8) by (apply Z.div_lt_upper_bound; lia). assert (0 <= x3 / 2 ^ 32) by (apply Z.div_pos; lia).
  rewrite (u32_small (x3 / 2 ^ 32)), (u32_small (x3 / 2 ^ 32 + x4)) by lia. set (u5 := x3 / 2 ^ 32 + x4).
  assert (E3 : x3 = 2 ^ 32 * (x3 / 2 ^ 32) + x3 mod 2 ^ 32) by (apply Z.div_mod; lia).
  assert (El : Z.land u5 3 = u5 mod 2 ^ 2) by exact (land_mask u5 2 ltac:(lia)). rewrite El.
  assert (E5 : u5 = 2 ^ 2 * (u5 / 2 ^ 2) + u5 mod 2 ^ 2) by (apply Z.div_mod; lia). pose proof (Z.mod_pos_bound u5 (2 ^ 2) ltac:(lia)) as B5.
  assert (0 <= u5 / 2 ^ 2) by (apply Z.div_pos; lia). assert (u5 / 2 ^ 2 <= u5) by (apply Z.div_le_upper_bound; lia).
  assert (Hu5 : 0 <= u5 / 2 ^ 2 < 2 ^ 29 + 2 ^ 8) by (unfold u5 in *; split; [done|apply Z.div_lt_upper_bound; lia]).
  rewrite (u32_small (u5 / 2 ^ 2 * 5)) by lia.
  assert (forall x, 0 <= x mod 2 ^ 32 < 2 ^ 32) as M by (intros; apply Z.mod_pos_bound; lia).
  assert (Q : forall x, 0 <= x < 2 ^ 64 -> 0 <= x / 2 ^ 32 < 2 ^ 32 /\ x = 2 ^ 32 * (x / 2 ^ 32) + x mod 2 ^ 32).
  { intros x Hx. split; [split; [apply Z.div_pos; lia|apply Z.div_lt_upper_bound; lia]|apply Z.div_mod; lia]. }
  destruct (Q x0 H0) as [? ?], (Q x1 H1) as [? ?], (Q x2 ltac:(lia)) as [? ?]. assert (x2 / 2 ^ 32 < 2 ^ 32 - 2 ^ 30) by (apply Z.div_lt_upper_bound; lia). pose proof (M x0). pose proof (M x1). pose proof (M x2). pose proof (M x3).
  set (u0 := u64 (u5 / 2 ^ 2 * 5 + x0 mod 2 ^ 32)). assert (E0 : u0 = u5 / 2 ^ 2 * 5 + x0 mod 2 ^ 32) by (apply u64_small; lia). clearbody u0.
  destruct (Q u0 ltac:(lia)) as [? ?]. pose proof (M u0). rewrite (u32_small (u0 / 2 ^ 32)) by lia.
  set (u1 := u64 (u0 / 2 ^ 32 + x1 mod 2 ^ 32 + x0 / 2 ^ 32)). assert (E1 : u1 = u0 / 2 ^ 32 + x1 mod 2 ^ 32 + x0 / 2 ^ 32) by (apply u64_small; lia). clearbody u1.
  destruct (Q u1 ltac:(lia)) as [? ?]. pose proof (M u1). rewrite (u32_small (u1 / 2 ^ 32)) by lia.
  set (u2 := u64 (u1 / 2 ^ 32 + x2 mod 2 ^ 32 + x1 / 2 ^ 32)). assert (E2 : u2 = u1 / 2 ^ 32 + x2 mod 2 ^ 32 + x1 / 2 ^ 32) by (apply u64_small; lia). clearbody u2.
  destruct (Q u2 ltac:(lia)) as [? ?]. pose proof (M u2). rewrite (u32_small (u2 / 2 ^ 32)) by lia.
  set (u3 := u64 (u2 / 2 ^ 32 + x3 mod 2 ^ 32 + x2 / 2 ^ 32)). assert (E6 : u3 = u2 / 2 ^ 32 + x3 mod 2 ^ 32 + x2 / 2 ^ 32) by (apply u64_small; lia). clearbody u3.
  destruct (Q u3 ltac:(lia)) as [? ?]. pose proof (M u3). rewrite (u32_small (u3 / 2 ^ 32)) by lia.
  rewrite (u32_small (u3 / 2 ^ 32 + u5 mod 2 ^ 2)) by lia. split.
  - eexists _, _, _, _, _. split; [reflexivity|]. split_and!; try apply M; lia.
  - exists (u5 / 2 ^ 2). rewrite limbs_eq. unfold P1305. lia.
Qed.

Lemma mod_quad q t : 0 <= t < 4 -> (4 * q + t) / 4 = q /\ (4 * q + t) mod 4 = t.
Proof. intros. split; zdm. Qed.

(** The product of the limbs: nothing overflows, and it is the product of the values
    up to a multiple of the modulus. *)
Lemma products_ok s0 s1 s2 s3 s4 q0 t q1 q2 q3 :
  0 <= s0 <= 2 ^ 33 -> 0 <= s1 <= 2 ^ 33 -> 0 <= s2 <= 2 ^ 33 -> 0 <= s3 <= 2 ^ 33 -> 0 <= s4 <= 5 ->
  0 <= q0 <= 0x03ffffff -> 0 <= t <= 3 -> 0 <= q1 <= 0x03ffffff -> 0 <= q2 <= 0x03ffffff -> 0 <= q3 <= 0x03ffffff ->
  let r0 := 4 * q0 + t in let r1 := 4 * q1 in let r2 := 4 * q2 in let r3 := 4 * q3 in
  let x0 := s0 * r0 + s1 * (5 * q3) + s2 * (5 * q2) + s3 * (5 * q1) + s4 * (5 * q0) in
  let x1 := s0 * r1 + s1 * r0 + s2 * (5 * q3) + s3 * (5 * q2) + s4 * (5 * q1) in
  let x2 := s0 * r2 + s1 * r1 + s2 * r0 + s3 * (5 * q3) + s4 * (5 * q2) in
  let x3 := s0 * r3 + s1 * r2 + s2 * r1 + s3 * r0 + s4 * (5 * q3) in
  let x4 := s4 * t in
  0 <= x0 < 2 ^ 64 /\ 0 <= x1 < 2 ^ 64 /\ 0 <= x2 < 2 ^ 64 - 2 ^ 62 /\ 0 <= x3 < 2 ^ 63 + 2 ^ 40 /\ 0 <= x4 <= 15 /\
  (exists k, x0 + 2 ^ 32 * x1 + 2 ^ 64 * x2 + 2 ^ 96 * x3 + 2 ^ 128 * x4 =
    (s0 + 2 ^ 32 * s1 + 2 ^ 64 * s2 + 2 ^ 96 * s3 + 2 ^ 128 * s4) * (r0 + 2 ^ 32 * r1 + 2 ^ 64 * r2 + 2 ^ 96 * r3) - k * P1305).
Proof.
  intros B0 B1 B2 B3 B4 Q0 T Q1 Q2 Q3. cbv zeta.
  assert (PS : forall s q c, 0 <= s <= 2 ^ 33 -> 0 <= q <= 0x03ffffff -> 0 <= c <= 5 -> 0 <= s * (c * q) <= 2 ^ 33 * (c * 0x03ffffff)).
  { intros s q c Hs Hq Hc. apply mul_bound; [lia|]. apply mul_bound; lia. }
  assert (PR : forall s, 0 <= s <= 2 ^ 33 -> 0 <= s * (4 * q0 + t) <= 2 ^ 33 * (4 * 0x03ffffff + 3)) by (intros; apply mul_bound; lia).
  assert (P4 : forall q, 0 <= q <= 0x03ffffff -> 0 <= s4 * (5 * q) <= 5 * (5 * 0x03ffffff)) by (intros; apply mul_bound; lia).
  assert (HT : 0 <= s4 * t <= 5 * 3) by (apply mul_bound; lia).
  pose proof (P4 q0 Q0). pose proof (P4 q1 Q1). pose proof (P4 q2 Q2). pose proof (P4 q3 Q3).
  pose proof (PR s0 B0). pose proof (PR s1 B1). pose proof (PR s2 B2). pose proof (PR s3 B3).
  pose proof (PS s1 q3 5 B1 Q3 ltac:(lia)). pose proof (PS s2 q2 5 B2 Q2 ltac:(lia)). pose proof (PS s3 q1 5 B3 Q1 ltac:(lia)).
  pose proof (PS s0 q1 4 B0 Q1 ltac:(lia)). pose proof (PS s2 q3 5 B2 Q3 ltac:(lia)). pose proof (PS s3 q2 5 B3 Q2 ltac:(lia)).
  pose proof (PS s0 q2 4 B0 Q2 ltac:(lia)). pose proof (PS s1 q1 4 B1 Q1 ltac:(lia)). pose proof (PS s3 q3 5 B3 Q3 ltac:(lia)).
  pose proof (PS s0 q3 4 B0 Q3 ltac:(lia)). pose proof (PS s1 q2 4 B1 Q2 ltac:(lia)). pose proof (PS s2 q1 4 B2 Q1 ltac:(lia)).
  assert (I : forall P Q : Prop, P -> Q -> P /\ Q) by (by split).
  do 5 (apply I; [repeat match goal with H : 0 <= ?s * ?q <= _ |- _ => let p := fresh "p" in set (p := s * q) in *; clearbody p end; clear - H H0 H1 H2 H3 H4 H5 H6 H7 H8 H9 H10 H11 H12 H13 H14 H15 H16 H17 H18 HT; lia|]).
  exists (s4 * q0 + s1 * q3 + s2 * q2 + s3 * q1 + 2 ^ 32 * (s2 * q3 + s3 * q2 + s4 * q1) + 2 ^ 64 * (s3 * q3 + s4 * q2) + 2 ^ 96 * (s4 * q3)).
  unfold P1305. ring.
Qed.

Lemma rval_eq a b c d : rval [a; b; c; d] = a + 2 ^ 32 * b + 2 ^ 64 * c + 2 ^ 96 * d.
Proof. reflexivity. Qed.

(** The four words of a block are its value. *)
Lemma poly_words input : bytes input -> 16 <= zlen input ->
  load32_le input + 2 ^ 32 * load32_le (drop 4 input) + 2 ^ 64 * load32_le (drop 8 input) + 2 ^ 96 * load32_le (drop 12 input) = le_value (take 16 input).
Proof.
  intros H Hz. unfold zlen in Hz. rewrite !load32_value by ((done || by apply Forall_drop) || (unfold zlen; rewrite ?length_drop; lia)).
  change 16%nat with (4 + (4 + (4 + 4)))%nat. rewrite <- !take_take_drop, !le_value_app, !drop_drop. unfold zlen. rewrite !length_take, !length_drop.
  repeat match goal with |- context [Z.of_nat (4 `min` ?n)] => replace (Z.of_nat (4 `min` n)) with 4 by lia end. cbn [Nat.add]. lia.
Qed.
Lemma block_range input : bytes input -> 16 <= zlen input ->
  is_u32 (load32_le input) /\ is_u32 (load32_le (drop 4 input)) /\ is_u32 (load32_le (drop 8 input)) /\ is_u32 (load32_le (drop 12 input)).
Proof. intros H Hz. split_and!; apply load32_range; try done; try (by apply Forall_drop); unfold zlen in *; rewrite ?length_drop; lia. Qed.

Lemma poly_block_ok r h input end_ : r_ok r -> h_ok h -> bytes input -> 16 <= zlen input -> 0 <= end_ <= 1 ->
  h_ok (poly_block r h input end_) /\
  exists k, limbs (poly_block r h input end_) = (limbs h + le_value (take 16 input) + 2 ^ 128 * end_) * rval r - k * P1305.
Proof.
  intros (r0&q1&q2&q3&->&R0&R1&R2&R3) (h0&h1&h2&h3&h4&->&H0&H1&H2&H3&H4) Hi Hz He.
  destruct (block_range input Hi Hz) as (L0&L1&L2&L3). rewrite <- (poly_words input Hi Hz).
  set (q0 := r0 / 4). set (t := r0 mod 4). assert (Er : r0 = 4 * q0 + t) by (unfold q0, t; zdm). assert (T : 0 <= t <= 3) by (unfold t; zdm). clearbody q0 t.
  assert (Esh : forall q, Z.shiftr (4 * q) 2 = q) by (intros; rewrite Z.shiftr_div_pow2 by lia; zdm).
  assert (E0 : Z.shiftr r0 2 = q0) by (rewrite Z.shiftr_div_pow2 by lia; subst r0; zdm).
  assert (E4 : Z.land r0 3 = t) by (etransitivity; [exact (land_mask r0 2 ltac:(lia))|]; subst r0; zdm).
  unfold poly_block. cbv zeta. change ([r0; 4 * q1; 4 * q2; 4 * q3].[0]) with r0. change ([r0; 4 * q1; 4 * q2; 4 * q3].[1]) with (4 * q1).
  change ([r0; 4 * q1; 4 * q2; 4 * q3].[2]) with (4 * q2). change ([r0; 4 * q1; 4 * q2; 4 * q3].[3]) with (4 * q3).
  change ([h0; h1; h2; h3; h4].[0]) with h0. change ([h0; h1; h2; h3; h4].[1]) with h1. change ([h0; h1; h2; h3; h4].[2]) with h2.
  change ([h0; h1; h2; h3; h4].[3]) with h3. change ([h0; h1; h2; h3; h4].[4]) with h4. rewrite E0, E4, !Esh, (limbs_eq h0 h1 h2 h3 h4), rval_eq.
  rewrite (u64_small (h0 + _)), (u64_small (h1 + _)), (u64_small (h2 + _)), (u64_small (h3 + _)), (u32_small (h4 + _)) by lia.
  replace (u32 (q0 * 5)) with (5 * q0) by (rewrite u32_small; lia). replace (u32 (q1 + 4 * q1)) with (5 * q1) by (rewrite u32_small; lia).
  replace (u32 (q2 + 4 * q2)) with (5 * q2) by (rewrite u32_small; lia). replace (u32 (q3 + 4 * q3)) with (5 * q3) by (rewrite u32_small; lia).
  set (s0 := h0 + load32_le input). set (s1 := h1 + _). set (s2 := h2 + _). set (s3 := h3 + _). set (s4 := h4 + end_).
  assert (P4 : forall q, 0 <= q <= 0x03ffffff -> u32 (s4 * (5 * q)) = s4 * (5 * q)).
  { intros q Hq. apply u32_small. pose proof (mul_bound s4 (5 * q) 5 (5 * 0x03ffffff) ltac:(unfold s4; lia) ltac:(lia)). lia. }
  rewrite !P4 by lia. destruct (products_ok s0 s1 s2 s3 s4 q0 t q1 q2 q3) as (X0&X1&X2&X3&X4&k1&K1); try (unfold s0, s1, s2, s3, s4; lia).
  cbv zeta in *. rewrite <- Er in *.
  rewrite (u64_small _ X0), (u64_small _ X1), (u64_small (s0 * (4 * q2) + _ + _ + _ + _)), (u64_small (s0 * (4 * q3) + _ + _ + _ + _)), (u32_small (s4 * t)) by lia.
  match goal with |- h_ok ?l /\ _ => destruct (carry_ok _ _ _ _ _ X0 X1 X2 X3 X4) as [C1 [k2 C2]] end. cbv zeta in C1, C2. split; [exact C1|].
  exists (k1 + k2). rewrite C2, K1. unfold s0, s1, s2, s3, s4. ring.
Qed.

(** ** Whole blocks *)

Fixpoint poly_full (blocks : nat) (r acc : Z) (message : list Z) : Z :=
  match blocks with O => acc | Datatypes.S n => poly_full n r (((acc + le_value (take 16 message ++ [1])) * r) mod P1305) (drop 16 message) end.

Lemma poly_acc_fuel : forall n n' r acc m, (length m <= n)%nat -> (length m <= n')%nat -> poly_acc n r acc m = poly_acc n' r acc m.
Proof.
  induction n as [|n IH]; intros [|n'] r acc m Hn Hn'; destruct m as [|x m]; try done; cbn [length] in *; try lia.
  cbn [poly_acc]. apply IH; rewrite length_drop; cbn [length]; lia.
Qed.
Lemma poly_acc_full k : forall n r acc m, (16 * k <= length m <= n)%nat -> poly_acc n r acc m = poly_acc n r (poly_full k r acc m) (drop (16 * k) m).
Proof.
  induction k as [|k IH]; intros n r acc m H; [by rewrite drop_0|]. destruct n as [|n]; [lia|]. destruct m as [|x m]; [cbn in H; lia|].
  transitivity (poly_acc n r (((acc + le_value (take 16 (x :: m) ++ [1])) * r) mod P1305) (drop 16 (x :: m))); [done|].
  rewrite IH by (rewrite length_drop; cbn [length] in *; lia). rewrite drop_drop. cbn [poly_full]. replace (16 + 16 * k)%nat with (16 * Datatypes.S k)%nat by lia.
  apply poly_acc_fuel; rewrite length_drop; cbn [length] in *; lia.
Qed.
Lemma poly_full_add k : forall j r acc m, poly_full (k + j) r acc m = poly_full j r (poly_full k r acc m) (drop (16 * k) m).
Proof.
  induction k as [|k IH]; intros j r acc m; [by rewrite drop_0|]. cbn [Nat.add poly_full]. rewrite IH, drop_drop. by replace (16 + 16 * k)%nat with (16 * Datatypes.S k)%nat by lia.
Qed.
Lemma poly_full_app k : forall r acc m m', (16 * k <= length m)%nat -> poly_full k r acc (m ++ m') = poly_full k r acc m.
Proof.
  induction k as [|k IH]; intros r acc m m' H; [done|]. cbn [poly_full]. rewrite take_app_le, drop_app_le by lia. apply IH. rewrite length_drop. lia.
Qed.

Lemma with_one l : le_value (l ++ [1]) = le_value l + 2 ^ (8 * zlen l).
Proof. rewrite le_value_app. cbn [le_value]. lia. Qed.

Lemma poly_loop_ok n : forall r h input, r_ok r -> h_ok h -> bytes input -> (16 * n <= length input)%nat ->
  h_ok (poly_loop n r h input 1) /\ limbs (poly_loop n r h input 1) mod P1305 = poly_full n (rval r) (limbs h mod P1305) input.
Proof.
  induction n as [|n IH]; intros r h input Hr Hh Hi Hl; [done|]. cbn [poly_loop poly_full].
  destruct (poly_block_ok r h input 1 Hr Hh Hi ltac:(unfold zlen; lia) ltac:(lia)) as [H1 [k Hk]].
  destruct (IH r _ (drop 16 input) Hr H1 ltac:(by apply Forall_drop) ltac:(rewrite length_drop; lia)) as [H2 H3]. split; [exact H2|]. rewrite H3. f_equal. rewrite Hk.
  rewrite with_one. unfold zlen. rewrite length_take. replace (8 * Z.of_nat (16 `min` length input)) with 128 by lia.
  rewrite <- Zminus_mod_idemp_r, Z.mod_mul, Z.sub_0_r by done. rewrite <- Zmult_mod_idemp_l, <- (Zmult_mod_idemp_l (limbs h mod P1305 + _)). f_equal. f_equal.
  rewrite Zplus_mod_idemp_l. f_equal. lia.
Qed.

(** ** A message in pieces *)

Section Streaming.
Context (key : list Z).

Record absorbed (ctx : poly1305_ctx) (m : list Z) : Prop := {
  ab_size : zlen (pc_c ctx) = 16;
  ab_bytes : bytes (pc_c ctx);
  ab_msg : bytes m;
  ab_r : r_ok (pc_r ctx) /\ rval (pc_r ctx) = clamp key;
  ab_pad : pc_pad ctx = load32_le_buf (drop 16 key) 4;
  ab_h : h_ok (pc_h ctx);
  ab_idx : 0 <= pc_c_idx ctx <= 16;
  ab_full : exists k, Z.of_nat (length m) = 16 * Z.of_nat k + pc_c_idx ctx /\ drop (16 * k) m = take (Z.to_nat (pc_c_idx ctx)) (pc_c ctx) /\
    limbs (pc_h ctx) mod P1305 = poly_full k (clamp key) 0 m }.

Lemma buffer_fields l : forall ctx, let ctx' := buffer_bytes ctx l in
  pc_r ctx' = pc_r ctx /\ pc_pad ctx' = pc_pad ctx /\ pc_h ctx' = pc_h ctx /\ pc_c_idx ctx' = pc_c_idx ctx + zlen l /\
  (0 <= pc_c_idx ctx -> pc_c_idx ctx + zlen l <= zlen (pc_c ctx) -> pc_c ctx' = blit (pc_c ctx) (pc_c_idx ctx) l).
Proof using.
  cbv zeta. induction l as [|b l IH]; intros ctx.
  - cbn. unfold zlen. cbn. split_and!; try done; [lia|]. intros _ _. by rewrite blit_nil.
  - unfold buffer_bytes in *. cbn [foldl]. destruct (IH (ctx <| pc_c := (pc_c ctx).[pc_c_idx ctx <- b] |> <| pc_c_idx := pc_c_idx ctx + 1 |>)) as (H1&H2&H3&H4&H5).
    rewrite H1, H2, H3, H4. destruct ctx as [c i r p h]. cbn in *. unfold zlen in *. cbn [length] in *. split_and!; try done; [lia|].
    intros Hi Hb. rewrite H5; [|lia|unfold arr_set; rewrite length_insert; lia].
    pose proof (set_blit c i [] b Hi) as Hs. rewrite blit_nil in Hs. unfold zlen in Hs. cbn [length app] in Hs. rewrite Z.add_0_r in Hs. rewrite Hs by lia.
    apply (blit_blit c [b] l i Hi). unfold zlen. cbn. lia.
Qed.

Lemma take_blit (c l : list Z) i : 0 <= i -> i + zlen l <= zlen c -> take (Z.to_nat (i + zlen l)) (blit c i l) = take (Z.to_nat i) c ++ l.
Proof using.
  intros Hi Hb. unfold blit, zlen in *. rewrite app_assoc, take_app_le by (rewrite length_app, length_take; lia).
  apply firstn_all2. rewrite length_app, length_take. lia.
Qed.

(** Bytes into the buffer. *)
Lemma absorb_buffer ctx m l : absorbed ctx m -> bytes l -> pc_c_idx ctx + zlen l <= 16 -> absorbed (buffer_bytes ctx l) (m ++ l).
Proof using key.
  intros [A1 A2 A3 A4 A5 A6 A7 (k&K1&K2&K3)] Hl Hb. destruct (buffer_fields l ctx) as (F1&F2&F3&F4&F5). specialize (F5 ltac:(lia) ltac:(lia)).
  pose proof (zlen_nonneg l). split; rewrite ?F1, ?F2, ?F3, ?F4, ?F5; try done.
  - rewrite zlen_blit; lia.
  - by apply blit_bytes.
  - by apply Forall_app.
  - lia.
  - exists k. split; [rewrite length_app; unfold zlen; lia|]. split.
    + rewrite drop_app_le by lia. rewrite K2. symmetry. apply take_blit; lia.
    + rewrite K3. symmetry. apply poly_full_app. lia.
Qed.

(** A full buffer is a block. *)
Lemma absorb_flush ctx m : absorbed ctx m -> pc_c_idx ctx = 16 -> absorbed ((poly_blocks ctx (pc_c ctx) 1 1) <| pc_c_idx := 0 |>) m.
Proof using key.
  intros [A1 A2 A3 [A4 A4'] A5 A6 A7 (k&K1&K2&K3)] Hi. unfold poly_blocks. destruct ctx as [c i r p h]. cbn -[Nat.mul Z.mul] in *. subst i. unfold zlen in A1.
  destruct (poly_loop_ok 1 r h c A4 A6 A2 ltac:(lia)) as [L1 L2]. cbn [poly_loop] in L1, L2. change (Z.to_nat 16) with 16%nat in K2. rewrite firstn_all2 in K2 by lia.
  split; cbn -[Nat.mul Z.mul]; try done; try (unfold zlen; lia). exists (k + 1)%nat. split; [lia|]. split; [rewrite take_0; apply drop_ge; lia|].
  etransitivity; [exact L2|]. by rewrite A4', K3, poly_full_add, K2.
Qed.

(** Blocks straight from the message. *)
Lemma absorb_blocks ctx m l n : absorbed ctx m -> bytes l -> 0 <= n -> 16 * n <= zlen l -> pc_c_idx ctx = 0 \/ n = 0 ->
  absorbed (poly_blocks ctx l n 1) (m ++ take (Z.to_nat (16 * n)) l).
Proof using key.
  intros [A1 A2 A3 [A4 A4'] A5 A6 A7 (k&K1&K2&K3)] Hl Hn Hz Hi. unfold poly_blocks. destruct ctx as [c i r p h]. cbn -[Nat.mul Z.mul] in *. unfold zlen in *.
  destruct (poly_loop_ok (Z.to_nat n) r h l A4 A6 Hl ltac:(lia)) as [L1 L2].
  assert (Hlt : length (take (Z.to_nat (16 * n)) l) = Z.to_nat (16 * n)) by (rewrite length_take; lia).
  split; cbn -[Nat.mul Z.mul]; try done; [by apply Forall_app_2, Forall_take|]. exists (k + Z.to_nat n)%nat. split; [rewrite length_app, Hlt; lia|].
  destruct Hi as [->| ->].
  - rewrite take_0 in *. split; [apply drop_ge; rewrite length_app, Hlt; lia|]. rewrite L2, A4', K3, poly_full_add.
    rewrite (poly_full_app k) by lia. rewrite drop_app_ge by lia. replace (16 * k - length m)%nat with 0%nat by lia. rewrite drop_0.
    replace (Z.to_nat (16 * n)) with (16 * Z.to_nat n)%nat by lia. rewrite <- (take_drop (16 * Z.to_nat n) l) at 1. apply poly_full_app. rewrite length_take. lia.
  - rewrite take_0, app_nil_r, Nat.add_0_r. done.
Qed.

Lemma gap16 i : 0 <= i < 16 -> gap i 16 = (- i) mod 16.
Proof using. intros H. apply (gap_spec i 4); lia. Qed.

Lemma poly_update_ok ctx m message : absorbed ctx m -> pc_c_idx ctx < 16 -> bytes message ->
  let ctx' := crypto_poly1305_update ctx message (zlen message) in absorbed ctx' (m ++ message) /\ pc_c_idx ctx' < 16.
Proof using key.
  intros A Hi Hm. cbv zeta. unfold crypto_poly1305_update. destruct (Z.eqb_spec (zlen message) 0) as [E0|E0].
  { unfold zlen in E0. destruct message as [|x l]; [|cbn in E0; lia]. by rewrite app_nil_r. }
  cbv zeta. pose proof (ab_idx _ _ A) as Hr. rewrite gap16 by lia. set (al := Z.min ((- pc_c_idx ctx) mod 16) (zlen message)).
  pose proof (zlen_nonneg message) as Hz. pose proof (Z.mod_pos_bound (- pc_c_idx ctx) 16 ltac:(lia)) as Hg.
  assert (Hal : 0 <= al <= zlen message) by (unfold al; lia).
  assert (Hsum : pc_c_idx ctx + al <= 16) by (unfold al; zdm).
  set (l1 := take (Z.to_nat al) message). set (rest := drop (Z.to_nat al) message).
  assert (Hl1 : zlen l1 = al) by (unfold l1, zlen in *; rewrite length_take; lia). assert (Hrest : zlen rest = zlen message - al) by (unfold rest, zlen in *; rewrite length_drop; lia).
  assert (Hb1 : bytes l1) by by apply Forall_take. assert (Hb2 : bytes rest) by by apply Forall_drop.
  pose proof (absorb_buffer ctx m l1 A Hb1 ltac:(lia)) as A1. destruct (buffer_fields l1 ctx) as (_&_&_&F4&_). set (ctx1 := buffer_bytes ctx l1) in *.
  set (ctx2 := if pc_c_idx ctx1 =? 16 then _ else ctx1).
  assert (A2 : absorbed ctx2 (m ++ l1) /\ (pc_c_idx ctx2 = 0 \/ zlen rest = 0) /\ pc_c_idx ctx2 < 16).
  { unfold ctx2. destruct (Z.eqb_spec (pc_c_idx ctx1) 16) as [E|E].
    - split; [by apply absorb_flush|]. split; [by left|done].
    - split; [done|]. split; [|lia]. rewrite F4, Hl1, Hrest. unfold al in *. zdm. }
  destruct A2 as (A2&H0&H16). clearbody ctx2. rewrite <- Hrest. set (nb := Z.shiftr (zlen rest) 4).
  assert (Enb : nb = zlen rest / 16) by (apply (Z.shiftr_div_pow2 _ 4); lia). assert (Hnb : 0 <= nb /\ 16 * nb <= zlen rest < 16 * nb + 16) by (pose proof (zlen_nonneg rest); clearbody nb; clear -Enb H; zdm).
  rewrite (Z.shiftl_mul_pow2 nb 4) by lia. change (2 ^ 4) with 16. rewrite (Z.mul_comm nb 16).
  assert (Elow : Z.land (zlen rest) 15 = zlen rest - 16 * nb) by (etransitivity; [exact (land_mask (zlen rest) 4 ltac:(lia))|]; change (2 ^ 4) with 16; clearbody nb; clear -Enb; zdm). rewrite Elow.
  pose proof (absorb_blocks ctx2 _ rest nb A2 Hb2 ltac:(lia) ltac:(lia) ltac:(destruct H0; [by left|right; lia])) as A3.
  set (l3 := drop (Z.to_nat (16 * nb)) rest). assert (Hl3 : zlen l3 = zlen rest - 16 * nb) by (unfold l3, zlen in *; rewrite length_drop; lia).
  replace (take (Z.to_nat (zlen rest - 16 * nb)) l3) with l3 by (symmetry; apply firstn_all2; rewrite <- Hl3; unfold zlen; lia).
  set (ctx3 := poly_blocks ctx2 rest nb 1) in *. assert (I3 : pc_c_idx ctx3 = pc_c_idx ctx2) by done.
  pose proof (absorb_buffer ctx3 _ l3 A3 ltac:(by apply Forall_drop) ltac:(lia)) as A4. destruct (buffer_fields l3 ctx3) as (_&_&_&F5&_). split; [|lia].
  replace (m ++ message) with (((m ++ l1) ++ take (Z.to_nat (16 * nb)) rest) ++ l3); [exact A4|]. unfold l3. rewrite <- !app_assoc, take_drop. unfold l1, rest. by rewrite take_drop.
Qed.
End Streaming.

(** ** The key *)

Lemma land_le a b : 0 <= a -> 0 <= b -> 0 <= Z.land a b <= b.
Proof.
  intros Ha Hb. split; [apply Z.land_nonneg; lia|]. rewrite <- (Z2N.id a), <- (Z2N.id b) by done. rewrite <- N2Z.inj_land. apply N2Z.inj_le, N.land_le_r.
Qed.

Lemma land_split k a b c d : 0 <= k -> 0 <= a < 2 ^ k -> 0 <= c < 2 ^ k ->
  Z.land (a + 2 ^ k * b) (c + 2 ^ k * d) = Z.land a c + 2 ^ k * Z.land b d.
Proof.
  intros Hk Ha Hc. assert (Hl : 0 <= Z.land a c < 2 ^ k).
  { pose proof (land_le a c ltac:(lia) ltac:(lia)). lia. }
  rewrite <- !lor_shift_add by done. apply Z.bits_inj'. intros i Hi. rewrite Z.land_spec, !Z.lor_spec, Z.land_spec. destruct (Z.ltb_spec i k).
  - rewrite !Z.shiftl_spec_low by lia. by rewrite !orb_false_r.
  - rewrite (testbit_high a k i), (testbit_high c k i) by lia. rewrite !Z.shiftl_spec by lia. cbn [orb andb]. by rewrite Z.land_spec.
Qed.

Lemma masked_quad w : 0 <= w -> exists q, Z.land w 0x0ffffffc = 4 * q /\ 0 <= q <= 0x03ffffff.
Proof.
  intros Hw. exists (Z.land (w / 4) 0x03ffffff). split.
  - rewrite (Z.div_mod w 4) at 1 by lia. rewrite Z.add_comm. pose proof (Z.mod_pos_bound w 4 ltac:(lia)).
    change 0x0ffffffc with (0 + 2 ^ 2 * 0x03ffffff). change 4 with (2 ^ 2). rewrite land_split by (change (2 ^ 2) with 4; lia). by rewrite Z.land_0_r.
  - apply land_le; [apply Z.div_pos; lia|lia].
Qed.

Lemma load32_buf_4 l : load32_le_buf l 4 = [load32_le l; load32_le (drop 4 l); load32_le (drop 8 l); load32_le (drop 12 l)].
Proof. done. Qed.

Lemma poly_init_ok memory key : zlen memory = 16 -> bytes memory -> bytes key -> 16 <= zlen key -> absorbed key (crypto_poly1305_init memory key) [].
Proof.
  intros Hm Hb Hk Hz. unfold crypto_poly1305_init. rewrite load32_buf_4. destruct (block_range key Hk Hz) as (B0&B1&B2&B3).
  pose proof (poly_words key Hk Hz) as Hw. set (w0 := load32_le key) in *. set (w1 := load32_le (drop 4 key)) in *. set (w2 := load32_le (drop 8 key)) in *. set (w3 := load32_le (drop 12 key)) in *.
  change ([w0; w1; w2; w3].[0]) with w0. change ([w0; w1; w2; w3].[1]) with w1. change ([w0; w1; w2; w3].[2]) with w2. change ([w0; w1; w2; w3].[3]) with w3.
  destruct (masked_quad w1 ltac:(lia)) as (q1&E1&Q1), (masked_quad w2 ltac:(lia)) as (q2&E2&Q2), (masked_quad w3 ltac:(lia)) as (q3&E3&Q3).
  assert (R0 : 0 <= Z.land w0 0x0fffffff <= 0x0fffffff) by (apply land_le; lia).
  split; cbn -[Nat.mul Z.mul Z.land]; try done; [|by exists 0, 0, 0, 0, 0|by exists 0%nat]. rewrite rval_eq. split.
  - rewrite E1, E2, E3. by exists (Z.land w0 0x0fffffff), q1, q2, q3.
  - unfold clamp. rewrite <- Hw. replace (w0 + 2 ^ 32 * w1 + 2 ^ 64 * w2 + 2 ^ 96 * w3) with (w0 + 2 ^ 32 * (w1 + 2 ^ 32 * (w2 + 2 ^ 32 * w3))) by lia.
    change 0x0ffffffc0ffffffc0ffffffc0fffffff with (0x0fffffff + 2 ^ 32 * (0x0ffffffc + 2 ^ 32 * (0x0ffffffc + 2 ^ 32 * 0x0ffffffc))).
    rewrite !land_split by lia. lia.
Qed.

(** ** The end *)

Lemma le_bytes_eq n x y : x mod 2 ^ (8 * Z.of_nat n) = y mod 2 ^ (8 * Z.of_nat n) -> le_bytes n x = le_bytes n y.
Proof. intros E. by rewrite <- (le_bytes_mod n x), E, le_bytes_mod. Qed.

(** Four additions with carry are one of the whole numbers. *)
Lemma add_with_carry a0 a1 a2 a3 c : 0 <= a0 <= 2 ^ 33 -> 0 <= a1 <= 2 ^ 33 -> 0 <= a2 <= 2 ^ 33 -> 0 <= a3 <= 2 ^ 33 -> 0 <= c <= 2 ^ 33 ->
  let t0 := u64 (c + a0) in let t1 := u64 (Z.shiftr t0 32 + a1) in let t2 := u64 (Z.shiftr t1 32 + a2) in let t3 := u64 (Z.shiftr t2 32 + a3) in
  store32_le (u32 t0) ++ store32_le (u32 t1) ++ store32_le (u32 t2) ++ store32_le (u32 t3) = le_bytes 16 (c + a0 + 2 ^ 32 * a1 + 2 ^ 64 * a2 + 2 ^ 96 * a3).
Proof.
  intros H0 H1 H2 H3 Hc. cbv zeta. rewrite !Z.shiftr_div_pow2 by lia. rewrite (u64_small (c + a0)) by lia.
  assert (D : forall x, 0 <= x <= 2 ^ 35 -> 0 <= x / 2 ^ 32 <= 8) by (intros; zdm). pose proof (D (c + a0) ltac:(lia)).
  rewrite (u64_small (_ / _ + a1)) by lia. pose proof (D ((c + a0) / 2 ^ 32 + a1) ltac:(lia)).
  rewrite (u64_small (_ / _ + a2)) by lia. pose proof (D (((c + a0) / 2 ^ 32 + a1) / 2 ^ 32 + a2) ltac:(lia)).
  rewrite (u64_small (_ / _ + a3)) by lia. rewrite !store32_u32, !store32_bytes.
  assert (S : forall n x y, le_bytes (4 + n) (x + 2 ^ 32 * y) = le_bytes 4 x ++ le_bytes n (x / 2 ^ 32 + y)).
  { intros n x y. rewrite le_bytes_app, Z.shiftr_div_pow2 by lia. change (8 * Z.of_nat 4) with 32. f_equal.
    - apply le_bytes_eq. change (8 * Z.of_nat 4) with 32. by rewrite Z.mul_comm, Z.mod_add.
    - by rewrite Z.mul_comm, Z.div_add. }
  replace (c + a0 + 2 ^ 32 * a1 + 2 ^ 64 * a2 + 2 ^ 96 * a3) with (c + a0 + 2 ^ 32 * (a1 + 2 ^ 32 * (a2 + 2 ^ 32 * a3))) by lia.
  change 16%nat with (4 + 12)%nat. rewrite S, Z.add_assoc. f_equal. change 12%nat with (4 + 8)%nat. rewrite S, Z.add_assoc. f_equal.
  change 8%nat with (4 + 4)%nat. by rewrite S.
Qed.

(** How often the modulus goes into the limbs. *)
Lemma quotient_ok h0 h1 h2 h3 h4 : is_u32 h0 -> is_u32 h1 -> is_u32 h2 -> is_u32 h3 -> 0 <= h4 <= 4 ->
  let c := Z.shiftr (u64 (Z.shiftr (u64 (Z.shiftr (u64 (Z.shiftr (u64 (5 + h0)) 32 + h1)) 32 + h2)) 32 + h3)) 32 in
  exists q, u64 (Z.shiftr (u64 (c + h4)) 2 * 5) = 5 * q /\ 0 <= q <= 1 /\ limbs [h0; h1; h2; h3; h4] mod P1305 = limbs [h0; h1; h2; h3; h4] - q * P1305.
Proof.
  intros H0 H1 H2 H3 H4. cbv zeta. rewrite !Z.shiftr_div_pow2 by lia. rewrite limbs_eq.
  assert (D : forall x, 0 <= x < 2 ^ 33 -> 0 <= x / 2 ^ 32 <= 1 /\ x = 2 ^ 32 * (x / 2 ^ 32) + x mod 2 ^ 32 /\ 0 <= x mod 2 ^ 32 < 2 ^ 32) by (intros; zdm).
  rewrite (u64_small (5 + h0)) by lia. destruct (D (5 + h0) ltac:(lia)) as (A1&A2&A3). set (c1 := (5 + h0) / 2 ^ 32) in *.
  rewrite (u64_small (c1 + h1)) by lia. destruct (D (c1 + h1) ltac:(lia)) as (B1&B2&B3). set (c2 := (c1 + h1) / 2 ^ 32) in *.
  rewrite (u64_small (c2 + h2)) by lia. destruct (D (c2 + h2) ltac:(lia)) as (C1&C2&C3). set (c3 := (c2 + h2) / 2 ^ 32) in *.
  rewrite (u64_small (c3 + h3)) by lia. destruct (D (c3 + h3) ltac:(lia)) as (E1&E2&E3). set (c4 := (c3 + h3) / 2 ^ 32) in *.
  rewrite (u64_small (c4 + h4)) by lia. exists ((c4 + h4) / 2 ^ 2). assert (Hq : 0 <= (c4 + h4) / 2 ^ 2 <= 1) by (clearbody c4; zdm).
  rewrite u64_small by lia. split; [lia|]. split; [done|]. set (q := (c4 + h4) / 2 ^ 2) in *.
  assert (Eq : c4 + h4 = 2 ^ 2 * q + (c4 + h4) mod 2 ^ 2 /\ 0 <= (c4 + h4) mod 2 ^ 2 < 4) by (unfold q; clearbody c4; zdm).
  clearbody q c4 c3 c2 c1. symmetry. apply (Z.mod_unique _ _ q); [left|]; unfold P1305; lia.
Qed.

Lemma finish_ok h pad : h_ok h -> bytes pad -> 16 <= zlen pad ->
  crypto_poly1305_final (mk_poly [] 0 [] (load32_le_buf pad 4) h) = le_bytes 16 (limbs h mod P1305 + le_value (take 16 pad)).
Proof.
  intros (h0&h1&h2&h3&h4&->&H0&H1&H2&H3&H4) Hp Hz. destruct (block_range pad Hp Hz) as (P0&P1&P2&P3). rewrite <- (poly_words pad Hp Hz), load32_buf_4.
  set (p0 := load32_le pad) in *. set (p1 := load32_le (drop 4 pad)) in *. set (p2 := load32_le (drop 8 pad)) in *. set (p3 := load32_le (drop 12 pad)) in *.
  destruct (quotient_ok h0 h1 h2 h3 h4 H0 H1 H2 H3 H4) as (q&Eq&Hq&->). cbv zeta in Eq.
  unfold crypto_poly1305_final. cbn [pc_c_idx pc_h pc_pad Z.eqb]. cbv zeta. cbn [seq foldl fst app].
  change ([h0; h1; h2; h3; h4].[Z.of_nat 0]) with h0. change ([h0; h1; h2; h3; h4].[Z.of_nat 1]) with h1. change ([h0; h1; h2; h3; h4].[Z.of_nat 2]) with h2.
  change ([h0; h1; h2; h3; h4].[Z.of_nat 3]) with h3. change ([h0; h1; h2; h3; h4].[4]) with h4.
  change ([p0; p1; p2; p3].[Z.of_nat 0]) with p0. change ([p0; p1; p2; p3].[Z.of_nat 1]) with p1. change ([p0; p1; p2; p3].[Z.of_nat 2]) with p2. change ([p0; p1; p2; p3].[Z.of_nat 3]) with p3.
  rewrite Eq. rewrite (u64_small (h0 + p0)), (u64_small (h1 + p1)), (u64_small (h2 + p2)), (u64_small (h3 + p3)) by lia. rewrite <- !app_assoc.
  rewrite (add_with_carry (h0 + p0) (h1 + p1) (h2 + p2) (h3 + p3) (5 * q)) by lia. rewrite limbs_eq. apply le_bytes_eq. change (8 * Z.of_nat 16) with 128.
  unfold P1305. replace (h0 + 2 ^ 32 * h1 + 2 ^ 64 * h2 + 2 ^ 96 * h3 + 2 ^ 128 * h4 - q * (2 ^ 130 - 5) + (p0 + 2 ^ 32 * p1 + 2 ^ 64 * p2 + 2 ^ 96 * p3)) with
    (5 * q + (h0 + p0) + 2 ^ 32 * (h1 + p1) + 2 ^ 64 * (h2 + p2) + 2 ^ 96 * (h3 + p3) + (h4 - 4 * q) * 2 ^ 128) by lia. by rewrite Z.mod_add.
Qed.

(** The padded last block. *)
Lemma padded_block (c : list Z) i : zlen c = 16 -> 0 < i < 16 ->
  (blit c i (replicate (Z.to_nat (16 - i)) 0)).[i <- 1] = (take (Z.to_nat i) c ++ [1]) ++ replicate (Z.to_nat (15 - i)) 0.
Proof.
  intros Hz Hi. unfold zlen in Hz. unfold blit, arr_set. rewrite length_replicate. rewrite (drop_ge c) by lia. rewrite app_nil_r.
  replace (Z.to_nat (16 - i)) with (Datatypes.S (Z.to_nat (15 - i))) by lia. cbn [replicate].
  rewrite insert_app_r_alt by (rewrite length_take; lia). rewrite length_take. replace (Z.to_nat i - Z.to_nat i `min` length c)%nat with 0%nat by lia. by rewrite <- app_assoc.
Qed.

Lemma poly_final_ok key ctx m : bytes key -> 32 <= zlen key -> absorbed key ctx m -> pc_c_idx ctx < 16 -> crypto_poly1305_final ctx = poly1305_spec key m.
Proof.
  intros Hk Hz [A1 A2 A3 [A4 A4'] A5 A6 A7 (k&K1&K2&K3)] Hi. destruct ctx as [c i r p h]. cbn [pc_c pc_c_idx pc_r pc_pad pc_h] in *. subst p.
  assert (Hp : bytes (drop 16 key)) by by apply Forall_drop. assert (Hpz : 16 <= zlen (drop 16 key)) by (unfold zlen in *; rewrite length_drop; lia).
  unfold poly1305_spec. rewrite (poly_acc_full k) by lia. rewrite <- K3. destruct (Z.eqb_spec i 0) as [->|Hne].
  - transitivity (crypto_poly1305_final (mk_poly [] 0 [] (load32_le_buf (drop 16 key) 4) h)); [reflexivity|]. rewrite finish_ok by done.
    rewrite (drop_ge m) by lia. by destruct (length m).
  - set (c' := (blit c i (replicate (Z.to_nat (16 - i)) 0)).[i <- 1]). assert (Ec : c' = (take (Z.to_nat i) c ++ [1]) ++ replicate (Z.to_nat (15 - i)) 0) by (apply padded_block; [done|lia]).
    assert (Hc : bytes c').
    { rewrite Ec. apply Forall_app_2; [apply Forall_app_2; [by apply Forall_take|repeat constructor; done]|]. apply Forall_replicate. done. }
    assert (Hcz : zlen c' = 16) by (rewrite Ec; unfold zlen in *; rewrite !length_app, length_take, length_replicate; cbn [length]; lia).
    destruct (poly_block_ok r h c' 0 A4 A6 Hc ltac:(lia) ltac:(lia)) as [L1 [q L2]].
    transitivity (crypto_poly1305_final (mk_poly [] 0 [] (load32_le_buf (drop 16 key) 4) (poly_block r h c' 0))).
    { unfold crypto_poly1305_final at 1. cbn [pc_c_idx pc_c]. destruct (Z.eqb_spec i 0); [done|]. reflexivity. }
    rewrite finish_ok by done. f_equal. f_equal. rewrite L2, Z.mul_0_r, Z.add_0_r, A4'. rewrite K2. unfold zlen in A1, Hcz.
    rewrite (firstn_all2 c') by lia. rewrite Ec, le_value_app, le_value_zeros, Z.mul_0_r, Z.add_0_r.
    destruct (length m) as [|n] eqn:En; [lia|]. destruct (take (Z.to_nat i) c) as [|x tl] eqn:Et.
    { apply (f_equal length) in Et. rewrite length_take in Et. cbn in Et. lia. }
    cbn [poly_acc]. rewrite <- Et. rewrite take_take, (drop_ge (take (Z.to_nat i) c)) by (rewrite length_take; lia). replace (16 `min` Z.to_nat i)%nat with (Z.to_nat i) by lia.
    transitivity (((limbs h mod P1305 + le_value (take (Z.to_nat i) c ++ [1])) * clamp key) mod P1305); [|by destruct n].
    rewrite <- Zminus_mod_idemp_r, Z.mod_mul, Z.sub_0_r by done. rewrite <- Zmult_mod_idemp_l. rewrite <- (Zmult_mod_idemp_l (limbs h mod P1305 + _)). by rewrite Zplus_mod_idemp_l.
Qed.

Lemma updates_ok key chunks : forall ctx m, absorbed key ctx m -> pc_c_idx ctx < 16 -> Forall (fun l => bytes l) chunks ->
  let ctx' := foldl (fun ctx l => crypto_poly1305_update ctx l (zlen l)) ctx chunks in absorbed key ctx' (m ++ concat chunks) /\ pc_c_idx ctx' < 16.
Proof.
  induction chunks as [|l chunks IH]; intros ctx m A Hi Hb; cbn [foldl concat]; [by rewrite app_nil_r|]. apply Forall_cons in Hb as [Hl Hb].
  destruct (poly_update_ok key ctx m l A Hi Hl) as [A' Hi']. destruct (IH _ _ A' Hi' Hb) as [A2 Hi2]. rewrite <- app_assoc in A2. done.
Qed.

(** (C10) The authenticator is the published one.  Whatever key and message, and in
    whatever pieces the message is handed over, the limbs never leave the range their
    comments state, and the sixteen bytes are those of the polynomial modulo 2^130 - 5
    under the clamped key. *)
Theorem poly1305_is_published (memory key : list Z) (chunks : list (list Z)) (Hm : zlen memory = 16) (Hb : bytes memory) (Hk : bytes key) (Hz : 32 <= zlen key)
  (Hc : Forall (fun l => bytes l) chunks) :
  let ctx := foldl (fun ctx l => crypto_poly1305_update ctx l (zlen l)) (crypto_poly1305_init memory key) chunks in
  h_ok (pc_h ctx) /\ 0 <= pc_c_idx ctx < 16 /\
  crypto_poly1305_final ctx = poly1305_spec key (concat chunks) /\
  crypto_poly1305 memory (concat chunks) (zlen (concat chunks)) key = poly1305_spec key (concat chunks).
Proof.
  cbv zeta. pose proof (poly_init_ok memory key Hm Hb Hk ltac:(lia)) as A0.
  destruct (updates_ok key chunks _ [] A0 ltac:(done) Hc) as [A Hi]. cbn [app] in A. split; [apply (ab_h _ _ _ A)|]. split; [pose proof (ab_idx _ _ _ A); lia|].
  split; [by apply poly_final_ok|]. unfold crypto_poly1305. destruct (poly_update_ok key _ [] (concat chunks) A0 ltac:(done) ltac:(by apply Forall_concat)) as [A' Hi']. by apply poly_final_ok.
Qed.

Lemma poly1305_is_published_witness :
  crypto_poly1305_final (foldl (fun ctx l => crypto_poly1305_update ctx l (zlen l)) (crypto_poly1305_init (replicate 16 90) poly_vector_key) [take 5 poly_vector_text; drop 5 poly_vector_text]) =
  [0xa8; 0x06; 0x1d; 0xc1; 0x30; 0x51; 0x36; 0xc6; 0xc2; 0x2b; 0x8b; 0xaf; 0x0c; 0x01; 0x27; 0xa9].
Proof.
  destruct (poly1305_is_published (replicate 16 90) poly_vector_key [take 5 poly_vector_text; drop 5 poly_vector_text]) as (_&_&->&_).
  - reflexivity.
  - apply Forall_replicate. unfold is_byte. lia.
  - unfold is_byte. repeat constructor; lia.
  - vm_compute. discriminate.
  - unfold is_byte. repeat constructor; lia.
  - vm_compute. reflexivity.
Defined.
