(* ===== verification/Blake2b.v ===== *)
(** * BLAKE2b: the hash of [monocypher/monocypher.c]

    The compression, the context that takes a message in pieces (by bytes up to a word,
    by words up to a block, block by block, and the rest), the key as a first block.

    Proved: whatever pieces the message comes in, the digest is the published one of the
    whole, and nothing is lost at the borders of words and blocks. *)

From S2P Require Import Prelude Wire Errors Keys Packet Words.

(** ** Definitions *)

Record blake2b_ctx := mk_blake { bc_hash : list Z; bc_offset : list Z; bc_input : list Z; bc_idx : Z; bc_hash_size : Z }.
#[export] Instance blake2b_eta : Eta blake2b_ctx := fun x => mk_blake (bc_hash x) (bc_offset x) (bc_input x) (bc_idx x) (bc_hash_size x).

Definition iv : list Z :=
  [0x6a09e667f3bcc908; 0xbb67ae8584caa73b; 0x3c6ef372fe94f82b; 0xa54ff53a5f1d36f1;
   0x510e527fade682d1; 0x9b05688c2b3e6c1f; 0x1f83d9abfb41bd6b; 0x5be0cd19137e2179].

Definition sigma : list (list Z) :=
  [[0; 1; 2; 3; 4; 5; 6; 7; 8; 9; 10; 11; 12; 13; 14; 15];
   [14; 10; 4; 8; 9; 15; 13; 6; 1; 12; 0; 2; 11; 7; 5; 3];
   [11; 8; 12; 0; 5; 2; 15; 13; 10; 14; 3; 6; 7; 1; 9; 4];
   [7; 9; 3; 1; 13; 12; 11; 14; 2; 6; 5; 10; 4; 0; 15; 8];
   [9; 0; 5; 7; 2; 4; 10; 15; 14; 1; 11; 12; 6; 8; 3; 13];
   [2; 12; 6; 10; 0; 11; 8; 3; 4; 13; 7; 5; 15; 14; 1; 9];
   [12; 5; 1; 15; 14; 13; 4; 10; 0; 7; 6; 3; 9; 2; 8; 11];
   [13; 11; 7; 14; 12; 1; 3; 9; 5; 0; 15; 4; 8; 6; 2; 10];
   [6; 15; 14; 9; 11; 3; 0; 8; 12; 2; 13; 7; 1; 4; 10; 5];
   [10; 2; 8; 4; 7; 6; 1; 5; 15; 11; 9; 14; 3; 12; 13; 0];
   [0; 1; 2; 3; 4; 5; 6; 7; 8; 9; 10; 11; 12; 13; 14; 15];
   [14; 10; 4; 8; 9; 15; 13; 6; 1; 12; 0; 2; 11; 7; 5; 3]].

Definition BLAKE2_G (a b c d x y : Z) (v : list Z) : list Z :=
  let v := v.[a <- u64 (v.[a] + v.[b] + x)] in let v := v.[d <- rotr64 (Z.lxor v.[d] v.[a]) 32] in
  let v := v.[c <- u64 (v.[c] + v.[d])] in let v := v.[b <- rotr64 (Z.lxor v.[b] v.[c]) 24] in
  let v := v.[a <- u64 (v.[a] + v.[b] + y)] in let v := v.[d <- rotr64 (Z.lxor v.[d] v.[a]) 16] in
  let v := v.[c <- u64 (v.[c] + v.[d])] in v.[b <- rotr64 (Z.lxor v.[b] v.[c]) 63].

Definition BLAKE2_ROUND (input : list Z) (v s : list Z) : list Z :=
  let v := BLAKE2_G 0 4 8 12 input.[s.[0]] input.[s.[1]] v in
  let v := BLAKE2_G 1 5 9 13 input.[s.[2]] input.[s.[3]] v in
  let v := BLAKE2_G 2 6 10 14 input.[s.[4]] input.[s.[5]] v in
  let v := BLAKE2_G 3 7 11 15 input.[s.[6]] input.[s.[7]] v in
  let v := BLAKE2_G 0 5 10 15 input.[s.[8]] input.[s.[9]] v in
  let v := BLAKE2_G 1 6 11 12 input.[s.[10]] input.[s.[11]] v in
  let v := BLAKE2_G 2 7 8 13 input.[s.[12]] input.[s.[13]] v in
  BLAKE2_G 3 4 9 14 input.[s.[14]] input.[s.[15]] v.

(** The hash after one block at the offset [t0], [t1] behind it. *)
Definition blake_mix (hash input : list Z) (t0 t1 is_last_block : Z) : list Z :=
  let v := hash ++ [iv.[0]; iv.[1]; iv.[2]; iv.[3]; Z.lxor iv.[4] t0; Z.lxor iv.[5] t1; Z.lxor iv.[6] (u64 (Z.lnot (is_last_block - 1))); iv.[7]] in
  let v := foldl (BLAKE2_ROUND input) v sigma in
  map (fun i => Z.lxor hash.[Z.of_nat i] (Z.lxor v.[Z.of_nat i] v.[Z.of_nat i + 8])) (seq 0 8).

Definition blake2b_compress (ctx : blake2b_ctx) (is_last_block : Z) : blake2b_ctx :=
  let x := bc_offset ctx in let y := bc_idx ctx in
  let x := x.[0 <- u64 (x.[0] + y)] in
  let x := if x.[0] <? y then x.[1 <- u64 (x.[1] + 1)] else x in
  ctx <| bc_offset := x |> <| bc_hash := blake_mix (bc_hash ctx) (bc_input ctx) x.[0] x.[1] is_last_block |>.

Definition crypto_blake2b_keyed_init (hash_size : Z) (key : list Z) (key_size : Z) : blake2b_ctx :=
  let hash := iv.[0 <- Z.lxor iv.[0] (Z.lxor (Z.lxor 0x01010000 (u64 (Z.shiftl key_size 8))) hash_size)] in
  let ctx := mk_blake hash [0; 0] (replicate 16 0) 0 hash_size in
  if 0 <? key_size then
    let key_block := blit (replicate 128 0) 0 (take (Z.to_nat key_size) key) in
    ctx <| bc_input := load64_le_buf key_block 16 |> <| bc_idx := 128 |>
  else ctx.
Definition crypto_blake2b_init (hash_size : Z) : blake2b_ctx := crypto_blake2b_keyed_init hash_size [] 0.

(** Bytes or-ed into the word they share. *)
Definition align_bytes (ctx : blake2b_ctx) (message : list Z) (nb_bytes : Z) : blake2b_ctx :=
  let word := Z.shiftr (bc_idx ctx) 3 in let byte := Z.land (bc_idx ctx) 7 in
  let input := foldl (fun input i => input.[word <- Z.lor input.[word] (u64 (Z.shiftl message.[Z.of_nat i] (Z.shiftl (byte + Z.of_nat i) 3)))]) (bc_input ctx) (seq 0 (Z.to_nat nb_bytes)) in
  ctx <| bc_input := input |> <| bc_idx := bc_idx ctx + nb_bytes |>.
(** Words at the next word of the input. *)
Definition take_words (ctx : blake2b_ctx) (message : list Z) (nb_words : Z) : blake2b_ctx :=
  ctx <| bc_input := blit (bc_input ctx) (Z.shiftr (bc_idx ctx) 3) (load64_le_buf message (Z.to_nat nb_words)) |> <| bc_idx := bc_idx ctx + Z.shiftl nb_words 3 |>.
Definition one_block (ctx : blake2b_ctx) (message : list Z) : blake2b_ctx :=
  let ctx := if bc_idx ctx =? 128 then blake2b_compress ctx 0 else ctx in
  ctx <| bc_input := load64_le_buf message 16 |> <| bc_idx := 128 |>.
Fixpoint block_loop (nb_blocks : nat) (ctx : blake2b_ctx) (message : list Z) : blake2b_ctx :=
  match nb_blocks with O => ctx | Datatypes.S n => block_loop n (one_block ctx message) (drop 128 message) end.
Definition fill_bytes (ctx : blake2b_ctx) (message : list Z) : blake2b_ctx :=
  foldl (fun ctx b =>
    let word := Z.shiftr (bc_idx ctx) 3 in let byte := Z.land (bc_idx ctx) 7 in
    ctx <| bc_input := (bc_input ctx).[word <- Z.lor (bc_input ctx).[word] (u64 (Z.shiftl b (Z.shiftl byte 3)))] |> <| bc_idx := bc_idx ctx + 1 |>) ctx message.

Definition crypto_blake2b_update (ctx : blake2b_ctx) (message : list Z) (message_size : Z) : blake2b_ctx :=
  if message_size =? 0 then ctx
  else
    let '(ctx, message, message_size) :=
      if Z.land (bc_idx ctx) 7 =? 0 then (ctx, message, message_size)
      else let nb_bytes := Z.min (gap (bc_idx ctx) 8) message_size in
           (align_bytes ctx message nb_bytes, drop (Z.to_nat nb_bytes) message, message_size - nb_bytes) in
    let '(ctx, message, message_size) :=
      if Z.land (bc_idx ctx) 127 =? 0 then (ctx, message, message_size)
      else let nb_words := Z.shiftr (Z.min (gap (bc_idx ctx) 128) message_size) 3 in
           (take_words ctx message nb_words, drop (Z.to_nat (Z.shiftl nb_words 3)) message, message_size - Z.shiftl nb_words 3) in
    let nb_blocks := Z.to_nat (Z.shiftr message_size 7) in
    let ctx := block_loop nb_blocks ctx message in
    let message := drop (128 * nb_blocks) message in
    let message_size := Z.land message_size 127 in
    if message_size =? 0 then ctx
    else
      let ctx := if bc_idx ctx =? 128 then (blake2b_compress ctx 0) <| bc_idx := 0 |> else ctx in
      let ctx := if bc_idx ctx =? 0 then ctx <| bc_input := replicate 16 0 |> else ctx in
      let nb_words := Z.shiftr message_size 3 in
      let ctx := take_words ctx message nb_words in
      let message := drop (Z.to_nat (Z.shiftl nb_words 3)) message in
      let message_size := message_size - Z.shiftl nb_words 3 in
      fill_bytes ctx (take (Z.to_nat message_size) message).

Definition crypto_blake2b_final (ctx : blake2b_ctx) : list Z :=
  let ctx := blake2b_compress ctx 1 in
  let hash_size := Z.min (bc_hash_size ctx) 64 in
  let nb_words := Z.shiftr hash_size 3 in
  store64_le_buf (take (Z.to_nat nb_words) (bc_hash ctx)) ++
  map (fun i => Z.land (Z.shiftr (bc_hash ctx).[Z.shiftr i 3] (8 * Z.land i 7)) 0xff) (map Z.of_nat (seq (Z.to_nat (Z.shiftl nb_words 3)) (Z.to_nat hash_size - Z.to_nat (Z.shiftl nb_words 3)))).

Definition crypto_blake2b_keyed (hash_size : Z) (key : list Z) (key_size : Z) (message : list Z) (message_size : Z) : list Z :=
  crypto_blake2b_final (crypto_blake2b_update (crypto_blake2b_keyed_init hash_size key key_size) message message_size).
Definition crypto_blake2b (hash_size : Z) (msg : list Z) (msg_size : Z) : list Z := crypto_blake2b_keyed hash_size [] 0 msg msg_size.

(** RFC 7693, appendix A: BLAKE2b-512 of "abc". *)
Example blake_vector : take 16 (crypto_blake2b 64 [97; 98; 99] 3) =
  [0xba; 0x80; 0xa5; 0x3f; 0x98; 0x1c; 0x4d; 0x0d; 0x6a; 0x27; 0x97; 0xb6; 0x9f; 0x12; 0xf6; 0xe9].
Proof. vm_compute. reflexivity. Qed.
(** The reference implementation's keyed vector of the empty message, key 0 to 63. *)
Example blake_keyed_vector : take 8 (crypto_blake2b_keyed 64 (map Z.of_nat (seq 0 64)) 64 [] 0) = [0x10; 0xeb; 0xb6; 0x77; 0x00; 0xb1; 0x86; 0x8e].
Proof. vm_compute. reflexivity. Qed.

(** ** The published hash *)

Definition zeros (n : nat) : list Z := replicate n 0.
(** The block's words, zeros behind the data. *)
Definition block_of (data : list Z) : list Z := load64_le_buf (data ++ zeros (128 - length data)) 16.
(** One block, [t] bytes into the data. *)
Definition blake_F (hash data : list Z) (t last : Z) : list Z := blake_mix hash (block_of data) (u64 t) (u64 (Z.shiftr t 64)) last.
Fixpoint blake_acc (fuel : nat) (hash data : list Z) (t : Z) : list Z :=
  match fuel with
  | O => hash
  | Datatypes.S n =>
      if bool_decide (length data <= 128)%nat then blake_F hash data (t + zlen data) 1
      else blake_acc n (blake_F hash (take 128 data) (t + 128) 0) (drop 128 data) (t + 128)
  end.
Definition blake_data (key msg : list Z) : list Z := (if bool_decide (key = []) then [] else key ++ zeros (128 - length key)) ++ msg.
Definition blake_start (hash_size key_size : Z) : list Z := iv.[0 <- Z.lxor iv.[0] (Z.lxor (Z.lxor 0x01010000 (u64 (Z.shiftl key_size 8))) hash_size)].
Definition blake2b_spec (hash_size : Z) (key msg : list Z) : list Z :=
  take (Z.to_nat hash_size) (store64_le_buf (blake_acc (Datatypes.S (length (blake_data key msg))) (blake_start hash_size (zlen key)) (blake_data key msg) 0)).

Example blake_spec_vector : blake2b_spec 64 [] [97; 98; 99] = crypto_blake2b 64 [97; 98; 99] 3.
Proof. vm_compute. reflexivity. Qed.

(** ** Words of bytes *)

Lemma words_app (A B : list Z) a b : bytes A -> length A = (8 * a)%nat -> load64_le_buf (A ++ B) (a + b) = load64_le_buf A a ++ load64_le_buf B b.
Proof.
  intros HA Hl. unfold load64_le_buf. rewrite seq_app, map_app. f_equal.
  - apply map_ext_in. intros i Hi%in_seq. rewrite drop_app_le by lia. assert (Hd : bytes (drop (i * 8) A)) by by apply Forall_drop.
    assert (8 <= length (drop (i * 8) A))%nat by (rewrite length_drop; lia). revert Hd H. generalize (drop (i * 8) A). clear. intros l Hb Hl.
    do 8 (destruct l as [|? l]; [cbn in Hl; lia|]). reflexivity.
  - replace (seq (0 + a) b) with (map (Nat.add a) (seq 0 b)) by (etransitivity; [exact (fmap_add_seq a 0 b)|f_equal; lia]). rewrite map_map. apply map_ext. intros i. f_equal. rewrite drop_app_ge by lia. f_equal. lia.
Qed.
Lemma words_front (T R : list Z) a : bytes T -> length T = (8 * a)%nat -> load64_le_buf (T ++ R) a = load64_le_buf T a.
Proof. intros HT Hl. pose proof (words_app T R a 0 HT Hl) as E. rewrite Nat.add_0_r in E. rewrite E. apply app_nil_r. Qed.
Lemma words_more (A B : list Z) a : bytes A -> (8 * a <= length A)%nat -> load64_le_buf (A ++ B) a = load64_le_buf A a.
Proof.
  intros HA Hl. assert (exists T R, A = T ++ R /\ length T = (8 * a)%nat /\ bytes T) as (T&R&->&HT&HbT).
  { exists (take (8 * a) A), (drop (8 * a) A). split; [by rewrite take_drop|]. split; [rewrite length_take; lia|by apply Forall_take]. }
  by rewrite <- app_assoc, !words_front.
Qed.
Lemma words_zero n : load64_le_buf (zeros (8 * n)) n = replicate n 0.
Proof.
  induction n as [|n IH]; [done|]. replace (8 * Datatypes.S n)%nat with (8 * 1 + 8 * n)%nat by lia. unfold zeros in *. rewrite replicate_add.
  change (Datatypes.S n) with (1 + n)%nat. rewrite (words_app _ _ 1 n) by (try apply Forall_replicate; done). by rewrite IH.
Qed.
Lemma length_block_of d : length (block_of d) = 16%nat.
Proof. apply length_load64_buf. Qed.

Lemma block_whole (T : list Z) w : bytes T -> length T = (8 * w)%nat -> (w <= 16)%nat -> block_of T = load64_le_buf T w ++ replicate (16 - w) 0.
Proof.
  intros HT Hl Hw. unfold block_of. rewrite Hl. replace 16%nat with (w + (16 - w))%nat at 2 by lia. rewrite words_app by done. f_equal.
  replace (128 - 8 * w)%nat with (8 * (16 - w))%nat by lia. apply words_zero.
Qed.
Lemma word_value R : bytes R -> (length R <= 8)%nat -> load64_le (R ++ zeros (8 - length R)) = le_value R.
Proof.
  intros HR Hl. assert (Hz : length (R ++ zeros (8 - length R)) = 8%nat) by (unfold zeros; rewrite length_app, length_replicate; lia).
  rewrite load64_value; [|apply Forall_app_2; [done|apply Forall_replicate; done]|unfold zlen; lia]. rewrite firstn_all2 by lia. rewrite le_value_app. unfold zeros. rewrite le_value_zeros. lia.
Qed.
Lemma block_cut (T R : list Z) j : bytes T -> bytes R -> length T = (8 * j)%nat -> (length R <= 8)%nat -> (j < 16)%nat ->
  block_of (T ++ R) = load64_le_buf T j ++ le_value R :: replicate (15 - j) 0.
Proof.
  intros HT HR Hl Hr Hj. unfold block_of. rewrite length_app, Hl.
  replace (zeros (128 - (8 * j + length R))) with (zeros (8 - length R) ++ zeros (8 * (15 - j))) by (unfold zeros; rewrite <- replicate_add; f_equal; lia).
  rewrite <- app_assoc. replace 16%nat with (j + (1 + (15 - j)))%nat at 1 by lia. rewrite words_app by done. f_equal. rewrite app_assoc.
  rewrite (words_app (R ++ zeros (8 - length R)) _ 1).
  - rewrite words_zero. change (load64_le_buf ?l 1) with [load64_le l]. by rewrite word_value.
  - apply Forall_app_2; [done|apply Forall_replicate; done].
  - unfold zeros. rewrite length_app, length_replicate. lia.
Qed.

(** One more byte. *)
Lemma put_byte tail b : bytes tail -> is_byte b -> zlen tail < 128 -> let i := zlen tail in
  (block_of tail).[Z.shiftr i 3 <- Z.lor (block_of tail).[Z.shiftr i 3] (u64 (Z.shiftl b (Z.shiftl (Z.land i 7) 3)))] = block_of (tail ++ [b]).
Proof.
  intros Ht Hb Hl. cbv zeta. set (j := (length tail / 8)%nat). set (T := take (8 * j) tail). set (R := drop (8 * j) tail).
  pose proof (Nat.div_mod_eq (length tail) 8) as Hd. pose proof (Nat.mod_upper_bound (length tail) 8 ltac:(lia)) as Hm. fold j in Hd.
  assert (HT : length T = (8 * j)%nat) by (unfold T; rewrite length_take; lia). assert (HR : length R = (length tail mod 8)%nat) by (unfold R; rewrite length_drop; lia).
  assert (BT : bytes T) by by apply Forall_take. assert (BR : bytes R) by by apply Forall_drop. unfold zlen in *.
  assert (Ej : Z.shiftr (Z.of_nat (length tail)) 3 = Z.of_nat j) by (rewrite Z.shiftr_div_pow2 by lia; clearbody j; change (2 ^ 3) with 8; zdm).
  assert (Er : Z.land (Z.of_nat (length tail)) 7 = Z.of_nat (length R)).
  { etransitivity; [exact (land_mask _ 3 ltac:(lia))|]. rewrite HR. clearbody j. change (2 ^ 3) with 8. rewrite Nat2Z.inj_mod. done. }
  rewrite Ej, Er. rewrite <- (take_drop (8 * j) tail). fold T R. rewrite <- app_assoc.
  rewrite (block_cut T R j), (block_cut T (R ++ [b]) j) by (try done; try (apply Forall_app_2; [done|by apply Forall_singleton]); rewrite ?length_app; cbn [length]; lia).
  set (W := load64_le_buf T j). assert (HW : length W = j) by apply length_load64_buf. unfold arr_get, arr_set. rewrite Nat2Z.id.
  rewrite lookup_total_app_r by lia. rewrite insert_app_r_alt by lia. rewrite HW, Nat.sub_diag. cbn [lookup_total list_lookup_total insert list_insert]. do 2 f_equal.
  rewrite (Z.shiftl_mul_pow2 (Z.of_nat (length R)) 3) by lia. change (2 ^ 3) with 8. rewrite (Z.mul_comm _ 8).
  pose proof (le_value_bound R BR) as Hv. unfold zlen in Hv.
  assert (Es : u64 (Z.shiftl b (8 * Z.of_nat (length R))) = Z.shiftl b (8 * Z.of_nat (length R))) by (apply (u_shift_small 64); [lia|lia|done]). rewrite Es.
  rewrite lor_shift_add by lia. rewrite le_value_app. unfold zlen. cbn [le_value]. lia.
Qed.

(** Whole words more. *)
Lemma put_words tail msg n : bytes tail -> bytes msg -> zlen tail mod 8 = 0 -> 0 <= n -> 8 * n <= zlen msg -> zlen tail + 8 * n <= 128 ->
  blit (block_of tail) (Z.shiftr (zlen tail) 3) (load64_le_buf msg (Z.to_nat n)) = block_of (tail ++ take (Z.to_nat (8 * n)) msg).
Proof.
  intros Ht Hm H8 Hn Hz Hb. rewrite Z.shiftr_div_pow2 by lia. change (2 ^ 3) with 8. set (w := Z.to_nat (zlen tail / 8)). set (k := Z.to_nat n).
  pose proof (Z.div_mod (zlen tail) 8 ltac:(lia)) as Hd. unfold zlen in *. assert (Hw : length tail = (8 * w)%nat) by (unfold w; lia).
  assert (Hk : length (take (8 * k) msg) = (8 * k)%nat) by (rewrite length_take; unfold k; lia). replace (Z.to_nat (8 * n)) with (8 * k)%nat by (unfold k; lia).
  rewrite (block_whole tail w) by (done || lia). rewrite (block_whole (tail ++ take (8 * k) msg) (w + k)); [|by apply Forall_app_2, Forall_take|rewrite length_app; lia|lia].
  rewrite words_app by done. rewrite <- (words_front (take (8 * k) msg) (drop (8 * k) msg)) by (done || by apply Forall_take). rewrite take_drop. fold k.
  unfold blit. fold w. rewrite length_load64_buf. set (W := load64_le_buf tail w). assert (HW : length W = w) by apply length_load64_buf.
  rewrite <- HW at 1. rewrite take_app_length. rewrite <- app_assoc. do 2 f_equal. rewrite drop_app_ge by lia. rewrite drop_replicate. f_equal. lia.
Qed.

(** ** A message in pieces *)

#[local] Opaque blake_mix.
#[local] Arguments block_of : simpl never.
#[local] Arguments load64_le_buf : simpl never.
#[local] Arguments blake2b_compress : simpl never.

(** Blocks that are not the last. *)
Fixpoint blake_full (blocks : nat) (hash data : list Z) (t : Z) : list Z :=
  match blocks with O => hash | Datatypes.S n => blake_full n (blake_F hash (take 128 data) (t + 128) 0) (drop 128 data) (t + 128) end.

Lemma blake_full_snoc k : forall h d t, blake_full (Datatypes.S k) h d t = blake_F (blake_full k h d t) (take 128 (drop (128 * k) d)) (t + 128 * Z.of_nat k + 128) 0.
Proof.
  induction k as [|k IH]; intros h d t; [cbn [blake_full]; rewrite Nat.mul_0_r, drop_0; by replace (t + 128 * Z.of_nat 0 + 128) with (t + 128) by lia|].
  transitivity (blake_full (Datatypes.S k) (blake_F h (take 128 d) (t + 128) 0) (drop 128 d) (t + 128)); [reflexivity|].
  rewrite IH. cbn [blake_full]. rewrite drop_drop. replace (128 + 128 * k)%nat with (128 * Datatypes.S k)%nat by lia.
  by replace (t + 128 + 128 * Z.of_nat k + 128) with (t + 128 * Z.of_nat (Datatypes.S k) + 128) by lia.
Qed.
Lemma blake_full_app k : forall h d d' t, (128 * k <= length d)%nat -> blake_full k h (d ++ d') t = blake_full k h d t.
Proof.
  induction k as [|k IH]; intros h d d' t H; [done|]. cbn [blake_full]. rewrite take_app_le, drop_app_le by lia. apply IH. rewrite length_drop. lia.
Qed.
Lemma blake_acc_full k : forall n h d t, (128 * k < length d)%nat -> (length d < n)%nat -> exists n', (length (drop (128 * k) d) < n')%nat /\
  blake_acc n h d t = blake_acc n' (blake_full k h d t) (drop (128 * k) d) (t + 128 * Z.of_nat k).
Proof.
  induction k as [|k IH]; intros n h d t H Hn.
  - exists n. rewrite Nat.mul_0_r, drop_0. split; [done|]. cbn [blake_full]. by replace (t + 128 * Z.of_nat 0) with t by lia.
  - destruct n as [|n]; [lia|]. cbn [blake_acc]. rewrite bool_decide_eq_false_2 by lia.
    destruct (IH n (blake_F h (take 128 d) (t + 128) 0) (drop 128 d) (t + 128)) as (n'&H1&H2); [rewrite length_drop; lia|rewrite length_drop; lia|].
    rewrite drop_drop in H1, H2. replace (128 + 128 * k)%nat with (128 * Datatypes.S k)%nat in H1, H2 by lia. exists n'. split; [done|]. rewrite H2. cbn [blake_full]. by replace (t + 128 + 128 * Z.of_nat k) with (t + 128 * Z.of_nat (Datatypes.S k)) by lia.
Qed.

Section Streaming.
Context (hs : Z) (h0 : list Z).

Record fed (ctx : blake2b_ctx) (m : list Z) (k : nat) : Prop := {
  fd_size : bc_hash_size ctx = hs;
  fd_bytes : bytes m;
  fd_range : (128 * k <= length m <= 128 * k + 128)%nat;
  fd_idx : bc_idx ctx = zlen m - 128 * Z.of_nat k;
  fd_hash : bc_hash ctx = blake_full k h0 m 0;
  fd_offset : bc_offset ctx = [u64 (128 * Z.of_nat k); u64 (Z.shiftr (128 * Z.of_nat k) 64)];
  fd_input : bc_input ctx = block_of (drop (128 * k) m) }.

Lemma add_offset t y : 0 <= t -> 0 <= y < 2 ^ 64 -> let x := u64 (u64 t + y) in
  x = u64 (t + y) /\ (if x <? y then u64 (u64 (Z.shiftr t 64) + 1) else u64 (Z.shiftr t 64)) = u64 (Z.shiftr (t + y) 64).
Proof using.
  intros Ht Hy. cbv zeta. assert (E : u64 (u64 t + y) = u64 (t + y)) by (unfold u64; by rewrite Zplus_mod_idemp_l). split; [done|]. rewrite E. rewrite !Z.shiftr_div_pow2 by lia. unfold u64.
  pose proof (Z.div_mod t (2 ^ 64) ltac:(lia)) as D1. pose proof (Z.mod_pos_bound t (2 ^ 64) ltac:(lia)) as B1.
  destruct (Z.ltb_spec (t mod 2 ^ 64 + y) (2 ^ 64)).
  - assert (Q : (t + y) / 2 ^ 64 = t / 2 ^ 64) by (symmetry; apply (Z.div_unique _ _ _ (t mod 2 ^ 64 + y)); [left|]; lia).
    assert (M : (t + y) mod 2 ^ 64 = t mod 2 ^ 64 + y) by (symmetry; apply (Z.mod_unique _ _ (t / 2 ^ 64)); [left|]; lia).
    rewrite M, Q. destruct (Z.ltb_spec (t mod 2 ^ 64 + y) y); [lia|done].
  - assert (Q : (t + y) / 2 ^ 64 = t / 2 ^ 64 + 1) by (symmetry; apply (Z.div_unique _ _ _ (t mod 2 ^ 64 + y - 2 ^ 64)); [left|]; lia).
    assert (M : (t + y) mod 2 ^ 64 = t mod 2 ^ 64 + y - 2 ^ 64) by (symmetry; apply (Z.mod_unique _ _ (t / 2 ^ 64 + 1)); [left|]; lia).
    rewrite M, Q. destruct (Z.ltb_spec (t mod 2 ^ 64 + y - 2 ^ 64) y); [|lia]. by rewrite Zplus_mod_idemp_l.
Qed.

Lemma compress_ok ctx m k last : fed ctx m k ->
  blake2b_compress ctx last = mk_blake (blake_F (blake_full k h0 m 0) (drop (128 * k) m) (zlen m) last) [u64 (zlen m); u64 (Z.shiftr (zlen m) 64)] (bc_input ctx) (bc_idx ctx) (bc_hash_size ctx).
Proof using.
  intros [F1 F2 F3 F4 F5 F6 F7]. unfold blake2b_compress. cbv zeta. rewrite F6, F5. destruct ctx as [h x i n s]. cbn [bc_idx bc_input bc_hash_size upd] in *. subst i.
  unfold zlen in *. destruct (add_offset (128 * Z.of_nat k) n ltac:(lia) ltac:(lia)) as [E1 E2]. replace (128 * Z.of_nat k + n) with (Z.of_nat (length m)) in * by lia.
  set (l := [u64 (128 * Z.of_nat k); _]). change (l.[0]) with (u64 (128 * Z.of_nat k)). rewrite E1 in *. change (l.[0 <- u64 (Z.of_nat (length m))]) with [u64 (Z.of_nat (length m)); u64 (Z.shiftr (128 * Z.of_nat k) 64)].
  change ([u64 (Z.of_nat (length m)); u64 (Z.shiftr (128 * Z.of_nat k) 64)].[0]) with (u64 (Z.of_nat (length m))).
  change ([u64 (Z.of_nat (length m)); u64 (Z.shiftr (128 * Z.of_nat k) 64)].[1]) with (u64 (Z.shiftr (128 * Z.of_nat k) 64)).
  rewrite <- E2. unfold blake_F. rewrite <- E2. by destruct (u64 (Z.of_nat (length m)) <? n).
Qed.

Lemma fed_idx ctx m k : fed ctx m k -> 0 <= bc_idx ctx <= 128 /\ zlen (drop (128 * k) m) = bc_idx ctx /\ bytes (drop (128 * k) m) /\ is_u64 (bc_idx ctx).
Proof using. intros [F1 F2 F3 F4 F5 F6 F7]. unfold zlen in *. rewrite length_drop. split_and!; try lia. by apply Forall_drop. Qed.

(** More bytes behind the ones in the input. *)
Lemma fed_more ctx m k l input : fed ctx m k -> bytes l -> bc_idx ctx + zlen l <= 128 -> input = block_of (drop (128 * k) m ++ l) ->
  fed (ctx <| bc_input := input |> <| bc_idx := bc_idx ctx + zlen l |>) (m ++ l) k.
Proof using.
  intros [F1 F2 F3 F4 F5 F6 F7] Hl Hb ->. destruct ctx as [h x i n s]. cbn -[Nat.mul Z.mul] in *. subst. unfold zlen in *.
  split; cbn -[Nat.mul Z.mul]; try done; rewrite ?length_app; try (unfold zlen; rewrite length_app); try lia.
  - by apply Forall_app.
  - symmetry. apply blake_full_app. lia.
  - rewrite drop_app_le by lia. done.
Qed.

Lemma fill_ok l : forall ctx m k, fed ctx m k -> bytes l -> bc_idx ctx + zlen l <= 128 -> fed (fill_bytes ctx l) (m ++ l) k /\ bc_idx (fill_bytes ctx l) = bc_idx ctx + zlen l.
Proof using.
  induction l as [|b l IH]; intros ctx m k F Hl Hb.
  - rewrite app_nil_r. change (fill_bytes ctx []) with ctx. split; [exact F|]. unfold zlen. cbn [length]. lia.
  - apply Forall_cons in Hl as [Hbb Hl]. unfold zlen in Hb. cbn [length] in Hb. destruct (fed_idx _ _ _ F) as (B1&B2&B3&_).
    unfold fill_bytes. cbn [foldl]. fold (fill_bytes). set (ctx' := ctx <| bc_input := _ |> <| bc_idx := _ |>).
    assert (F' : fed ctx' (m ++ [b]) k).
    { apply (fed_more ctx m k [b]); [done|by apply Forall_singleton|unfold zlen; cbn; lia|]. rewrite (fd_input _ _ _ F), <- B2. apply put_byte; try done. lia. }
    assert (Ei : bc_idx ctx' = bc_idx ctx + 1) by by destruct ctx.
    destruct (IH ctx' (m ++ [b]) k F' Hl ltac:(unfold zlen; lia)) as [G1 G2]. rewrite <- app_assoc in G1. split; [exact G1|]. etransitivity; [exact G2|]. rewrite Ei. unfold zlen. cbn [length]. lia.
Qed.

Lemma low_bits i : 0 <= i -> Z.land i 7 = i mod 8 /\ Z.shiftr i 3 = i / 8 /\ Z.land i 127 = i mod 128 /\ Z.shiftr i 7 = i / 128.
Proof using.
  intros Hi. split_and!; [exact (land_mask i 3 ltac:(lia))|by rewrite Z.shiftr_div_pow2 by lia|exact (land_mask i 7 ltac:(lia))|by rewrite Z.shiftr_div_pow2 by lia].
Qed.

(** The bytes up to the next word. *)
Lemma align_ok ctx m k message n : fed ctx m k -> bytes message -> 0 <= n <= zlen message -> bc_idx ctx mod 8 + n <= 8 -> 0 < bc_idx ctx mod 8 ->
  fed (align_bytes ctx message n) (m ++ take (Z.to_nat n) message) k /\ bc_idx (align_bytes ctx message n) = bc_idx ctx + n.
Proof using.
  intros F Hm Hn H8 H0. destruct (fed_idx _ _ _ F) as (B1&B2&B3&_). destruct (low_bits (bc_idx ctx) ltac:(lia)) as (L1&L2&_&_). unfold zlen in Hn.
  set (tail := drop (128 * k) m) in *.
  assert (Hlt : zlen (take (Z.to_nat n) message) = n) by (unfold zlen; rewrite length_take; lia).
  assert (Hi : foldl (fun input i => input.[Z.shiftr (bc_idx ctx) 3 <- Z.lor input.[Z.shiftr (bc_idx ctx) 3] (u64 (Z.shiftl message.[Z.of_nat i] (Z.shiftl (Z.land (bc_idx ctx) 7 + Z.of_nat i) 3)))])
    (bc_input ctx) (seq 0 (Z.to_nat n)) = block_of (tail ++ take (Z.to_nat n) message)).
  { assert (G : forall j, (j <= Z.to_nat n)%nat -> foldl (fun input i => input.[Z.shiftr (bc_idx ctx) 3 <- Z.lor input.[Z.shiftr (bc_idx ctx) 3] (u64 (Z.shiftl message.[Z.of_nat i] (Z.shiftl (Z.land (bc_idx ctx) 7 + Z.of_nat i) 3)))])
      (bc_input ctx) (seq 0 j) = block_of (tail ++ take j message)); [|by apply G].
    induction j as [|j IH]; intros Hj; [cbn [seq foldl]; rewrite take_0, app_nil_r; apply (fd_input _ _ _ F)|].
    rewrite seq_S, foldl_app, IH by lia. cbn [foldl Nat.add]. destruct (lookup_lt_is_Some_2 message j ltac:(lia)) as [b Hb].
    assert (Eb : message.[Z.of_nat j] = b) by (unfold arr_get; rewrite Nat2Z.id; by apply list_lookup_total_correct). rewrite Eb.
    rewrite (take_S_r message j b Hb), app_assoc.
    assert (Bt : bytes (tail ++ take j message)) by (apply Forall_app_2; [done|by apply Forall_take]).
    assert (Bb : is_byte b) by exact (Forall_lookup_1 _ _ _ _ Hm Hb).
    assert (Hz : zlen (tail ++ take j message) = bc_idx ctx + Z.of_nat j) by (rewrite zlen_app, B2; unfold zlen; rewrite length_take; lia).
    rewrite <- (put_byte (tail ++ take j message) b Bt Bb); [|zdm]. cbv zeta. rewrite Hz.
    destruct (low_bits (bc_idx ctx + Z.of_nat j) ltac:(lia)) as (M1&M2&_&_). rewrite M1, M2, L1, L2.
    replace ((bc_idx ctx + Z.of_nat j) / 8) with (bc_idx ctx / 8) by (clear -H8 Hj B1; zdm). replace ((bc_idx ctx + Z.of_nat j) mod 8) with (bc_idx ctx mod 8 + Z.of_nat j) by (clear -H8 Hj B1; zdm).
    done. }
  unfold align_bytes. cbv zeta. split; [|by destruct ctx].
  pose proof (fed_more ctx m k (take (Z.to_nat n) message) _ F ltac:(by apply Forall_take) ltac:(rewrite Hlt; clear -B1 H8 H0; zdm) Hi) as F'. by rewrite Hlt in F'.
Qed.

Lemma take_words_ok ctx m k message n : fed ctx m k -> bytes message -> 0 <= n -> 8 * n <= zlen message -> bc_idx ctx + 8 * n <= 128 -> bc_idx ctx mod 8 = 0 \/ n = 0 ->
  fed (take_words ctx message n) (m ++ take (Z.to_nat (8 * n)) message) k /\ bc_idx (take_words ctx message n) = bc_idx ctx + 8 * n.
Proof using.
  intros F Hm Hn Hz Hb H8. destruct (fed_idx _ _ _ F) as (B1&B2&B3&_). unfold take_words. rewrite (Z.shiftl_mul_pow2 n 3) by lia. change (2 ^ 3) with 8. rewrite (Z.mul_comm n 8).
  assert (Hlt : zlen (take (Z.to_nat (8 * n)) message) = 8 * n) by (unfold zlen in *; rewrite length_take; lia).
  split; [|by destruct ctx].
  assert (Hi : blit (bc_input ctx) (Z.shiftr (bc_idx ctx) 3) (load64_le_buf message (Z.to_nat n)) = block_of (drop (128 * k) m ++ take (Z.to_nat (8 * n)) message)).
  2: { pose proof (fed_more ctx m k (take (Z.to_nat (8 * n)) message) _ F ltac:(by apply Forall_take) ltac:(lia) Hi) as F'. by rewrite Hlt in F'. }
  rewrite (fd_input _ _ _ F), <- B2. destruct H8 as [H8| ->].
  - apply put_words; try done; rewrite B2; lia.
  - cbn. rewrite take_0, app_nil_r. change (load64_le_buf message 0) with (@nil Z). apply blit_nil.
Qed.

(** A full input is compressed, and what the input holds no longer counts. *)
Lemma compressed ctx m k input idx : fed ctx m k -> bc_idx ctx = 128 -> input = block_of [] -> idx = 0 ->
  fed ((blake2b_compress ctx 0) <| bc_input := input |> <| bc_idx := idx |>) m (Datatypes.S k).
Proof using.
  intros F Hi -> ->. destruct (fed_idx _ _ _ F) as (B1&B2&_). rewrite (compress_ok ctx m k 0 F). destruct F as [F1 F2 F3 F4 F5 F6 F7]. unfold zlen in *.
  assert (Hl : length m = (128 * Datatypes.S k)%nat) by lia. split; cbn -[Nat.mul Z.mul blake_full]; try done; try (unfold zlen; lia).
  - rewrite blake_full_snoc. rewrite firstn_all2 by (rewrite length_drop; lia). by replace (0 + 128 * Z.of_nat k + 128) with (zlen m) by (unfold zlen; lia).
  - by replace (128 * Z.of_nat (Datatypes.S k)) with (zlen m) by (unfold zlen; lia).
  - by rewrite (drop_ge m) by lia.
Qed.

Lemma one_block_ok ctx m k message : fed ctx m k -> bytes message -> 128 <= zlen message -> bc_idx ctx = 0 \/ bc_idx ctx = 128 ->
  exists k', fed (one_block ctx message) (m ++ take 128 message) k' /\ bc_idx (one_block ctx message) = 128.
Proof using.
  intros F Hm Hz Hi. assert (Hlt : zlen (take 128 message) = 128) by (unfold zlen in *; rewrite length_take; lia).
  assert (Hin : forall d, length d = 0%nat -> load64_le_buf message 16 = block_of (d ++ take 128 message)).
  { intros d Hd. destruct d; [|done]. cbn [app]. unfold block_of. rewrite <- (take_drop 128 message) at 1. unfold zlen in Hlt. replace (128 - length (take 128 message))%nat with 0%nat by lia.
    unfold zeros. cbn [replicate]. rewrite app_nil_r. apply words_more; [by apply Forall_take|lia]. }
  unfold one_block. destruct (Z.eqb_spec (bc_idx ctx) 128) as [E|E].
  - exists (Datatypes.S k). pose proof (compressed ctx m k _ _ F E eq_refl eq_refl) as F'. split; [|done].
    assert (F2 := fed_more _ m _ (take 128 message) (load64_le_buf message 16) F' ltac:(by apply Forall_take)). cbn [bc_idx upd] in F2.
    destruct (fed_idx _ _ _ F') as (_&B2&_). specialize (F2 ltac:(cbn; lia)). rewrite Hlt in F2. apply F2. apply Hin.
    change (zlen (drop (128 * Datatypes.S k) m) = 0) in B2. unfold zlen in B2. lia.
  - exists k. split; [|done]. destruct Hi as [Hi|]; [|done]. destruct (fed_idx _ _ _ F) as (_&B2&_).
    assert (F2 := fed_more ctx m k (take 128 message) (load64_le_buf message 16) F ltac:(by apply Forall_take) ltac:(lia)). rewrite Hlt, Hi in F2. apply F2. apply Hin. unfold zlen in B2. lia.
Qed.

Lemma block_loop_ok n : forall ctx m k message, fed ctx m k -> bytes message -> 128 * Z.of_nat n <= zlen message -> n = 0%nat \/ bc_idx ctx = 0 \/ bc_idx ctx = 128 ->
  exists k', fed (block_loop n ctx message) (m ++ take (128 * n) message) k' /\ bc_idx (block_loop n ctx message) = if decide (n = 0%nat) then bc_idx ctx else 128.
Proof using.
  induction n as [|n IH]; intros ctx m k message F Hm Hz Hi.
  - exists k. rewrite Nat.mul_0_r, take_0, app_nil_r. cbn [block_loop]. done.
  - cbn [block_loop]. destruct (one_block_ok ctx m k message F Hm ltac:(lia) ltac:(destruct Hi as [|]; [lia|done])) as (k1&F1&I1).
    destruct (IH _ _ _ (drop 128 message) F1 ltac:(by apply Forall_drop) ltac:(unfold zlen in *; rewrite length_drop; lia) ltac:(auto)) as (k2&F2&I2).
    exists k2. rewrite <- app_assoc in F2. replace (128 * Datatypes.S n)%nat with (128 + 128 * n)%nat by lia. rewrite <- take_take_drop. split; [exact F2|]. rewrite I2, I1. by case_decide.
Qed.

(** What is left of the message, behind what the context has taken. *)
Definition taking (ctx : blake2b_ctx) (m message : list Z) (size : Z) (total : list Z) : Prop :=
  (exists k, fed ctx m k) /\ bytes message /\ size = zlen message /\ m ++ message = total.

Lemma taking_idx ctx m message size total : taking ctx m message size total -> 0 <= bc_idx ctx <= 128 /\ 0 <= size.
Proof using. intros ((k&F)&_&->&_). destruct (fed_idx _ _ _ F) as (B&_). split; [done|apply zlen_nonneg]. Qed.

Lemma taking_step ctx ctx' m message n total k : taking ctx m message (zlen message) total -> 0 <= n <= zlen message -> fed ctx' (m ++ take (Z.to_nat n) message) k ->
  taking ctx' (m ++ take (Z.to_nat n) message) (drop (Z.to_nat n) message) (zlen message - n) total.
Proof using.
  intros (_&Hm&_&E) Hn F. split; [by exists k|]. split; [by apply Forall_drop|]. split; [unfold zlen in *; rewrite length_drop; lia|]. by rewrite <- app_assoc, take_drop.
Qed.

Lemma gap_of i j : 0 <= i <= 128 -> j = 3 \/ j = 7 -> gap i (2 ^ j) = (- i) mod 2 ^ j.
Proof using. intros Hi Hj. apply gap_spec; lia. Qed.

Lemma stage_bytes ctx m message total : taking ctx m message (zlen message) total ->
  exists ctx' m' message' size', (if Z.land (bc_idx ctx) 7 =? 0 then (ctx, message, zlen message)
      else let nb_bytes := Z.min (gap (bc_idx ctx) 8) (zlen message) in (align_bytes ctx message nb_bytes, drop (Z.to_nat nb_bytes) message, zlen message - nb_bytes)) = (ctx', message', size') /\
    taking ctx' m' message' size' total /\ (bc_idx ctx' mod 8 = 0 \/ size' = 0) /\ (0 < bc_idx ctx -> 0 < bc_idx ctx') /\
    (bc_idx ctx = 0 -> ctx' = ctx /\ size' = zlen message).
Proof using.
  intros T. destruct (taking_idx _ _ _ _ _ T) as [B Bs]. destruct (low_bits (bc_idx ctx) ltac:(lia)) as (L1&_). rewrite L1. destruct (Z.eqb_spec (bc_idx ctx mod 8) 0) as [E|E].
  - exists ctx, m, message, (zlen message). auto 8.
  - pose proof (gap_of (bc_idx ctx) 3 B ltac:(auto)) as G. change (2 ^ 3) with 8 in G. rewrite G. cbv zeta. set (n := Z.min _ _).
    assert (Hn : 0 <= n <= zlen message /\ bc_idx ctx mod 8 + n <= 8 /\ ((bc_idx ctx + n) mod 8 = 0 \/ n = zlen message)) by (unfold n; clear -B Bs E; zdm).
    destruct Hn as (N1&N2&N3). pose proof T as T'. destruct T as ((k&F)&Hm&Hs&Ht). destruct (align_ok ctx m k message n F Hm N1 N2 ltac:(clear -E; zdm)) as [F' I'].
    eexists _, _, _, _. split; [reflexivity|]. split; [eapply taking_step; [exact T'|lia|exact F']|]. rewrite I'. split; [destruct N3; [by left|right; lia]|]. split; [lia|]. intros E0. by rewrite E0 in E.
Qed.

Lemma stage_words ctx m message total : taking ctx m message (zlen message) total -> bc_idx ctx mod 8 = 0 \/ zlen message = 0 ->
  exists ctx' m' message' size', (if Z.land (bc_idx ctx) 127 =? 0 then (ctx, message, zlen message)
      else let nb_words := Z.shiftr (Z.min (gap (bc_idx ctx) 128) (zlen message)) 3 in
        (take_words ctx message nb_words, drop (Z.to_nat (Z.shiftl nb_words 3)) message, zlen message - Z.shiftl nb_words 3)) = (ctx', message', size') /\
    taking ctx' m' message' size' total /\ (bc_idx ctx' mod 8 = 0 \/ size' = 0) /\ (bc_idx ctx' mod 128 = 0 \/ bc_idx ctx' + size' < 128) /\ (0 < bc_idx ctx -> 0 < bc_idx ctx') /\
    (bc_idx ctx = 0 -> ctx' = ctx /\ size' = zlen message).
Proof using.
  intros T H8. destruct (taking_idx _ _ _ _ _ T) as [B Bs]. destruct (low_bits (bc_idx ctx) ltac:(lia)) as (_&_&L1&_). rewrite L1. destruct (Z.eqb_spec (bc_idx ctx mod 128) 0) as [E|E].
  - exists ctx, m, message, (zlen message). auto 10.
  - pose proof (gap_of (bc_idx ctx) 7 B ltac:(auto)) as G. change (2 ^ 7) with 128 in G. rewrite G. cbv zeta.
    set (g := (- bc_idx ctx) mod 128). assert (Hg : g = 128 - bc_idx ctx) by (unfold g; clear -B E; zdm). set (n := Z.shiftr _ 3).
    assert (Hn : n = Z.min g (zlen message) / 8) by (unfold n; by rewrite Z.shiftr_div_pow2 by lia). rewrite (Z.shiftl_mul_pow2 n 3) by lia. change (2 ^ 3) with 8.
    clearbody n g. assert (N : 0 <= n /\ 8 * n <= zlen message /\ bc_idx ctx + 8 * n <= 128 /\ (bc_idx ctx mod 8 = 0 \/ n = 0)).
    { split; [|split; [|split]]; try (clear -Hn Hg Bs B; zdm). destruct H8 as [|H8]; [by left|]. right. rewrite Hn, H8. clear -Hg B E. zdm. }
    destruct N as (N1&N2&N3&N4). pose proof T as T'. destruct T as ((k&F)&Hm&Hs&Ht). destruct (take_words_ok ctx m k message n F Hm N1 N2 N3 N4) as [F' I'].
    eexists _, _, _, _. split; [reflexivity|]. rewrite (Z.mul_comm n 8). split; [eapply taking_step; [exact T'|lia|exact F']|]. rewrite I'.
    split; [|split; [|split; [lia|intros E0; by rewrite E0 in E]]].
    + destruct H8 as [H8|H8]; [left; by rewrite Z.mul_comm, Z.mod_add|right; lia].
    + assert (bc_idx ctx <> 128) by (intros Eb; by rewrite Eb in E). destruct (Z.ltb_spec (zlen message) g) as [Hlt|Hge]; [right; lia|]. left.
      destruct H8 as [H8|H8]; [|lia]. replace (bc_idx ctx + 8 * n) with 128; [done|]. rewrite Hn, Z.min_l, Hg by lia. clear -H8. zdm.
Qed.

Lemma stage_blocks ctx m message total : taking ctx m message (zlen message) total -> bc_idx ctx mod 8 = 0 \/ zlen message = 0 -> bc_idx ctx mod 128 = 0 \/ bc_idx ctx + zlen message < 128 ->
  let nb := Z.to_nat (Z.shiftr (zlen message) 7) in let ctx' := block_loop nb ctx message in let size' := Z.land (zlen message) 127 in
  (exists m', taking ctx' m' (drop (128 * nb) message) size' total) /\ 0 <= size' < 128 /\ (size' = 0 \/ (bc_idx ctx' mod 8 = 0 /\ (bc_idx ctx' mod 128 = 0 \/ bc_idx ctx' + size' < 128))) /\
  (0 < bc_idx ctx -> 0 < bc_idx ctx') /\ (size' = 0 -> zlen message = 0 \/ 0 < bc_idx ctx').
Proof using.
  intros T H8 H128. cbv zeta. destruct (taking_idx _ _ _ _ _ T) as [B Bs]. destruct (low_bits (zlen message) Bs) as (_&_&L3&L4). rewrite L3, L4.
  set (n := Z.to_nat (zlen message / 128)). assert (Hn : Z.of_nat n = zlen message / 128) by (unfold n; rewrite Z2Nat.id; [done|by apply Z.div_pos]).
  pose proof (Z.div_mod (zlen message) 128 ltac:(lia)) as Hd. pose proof (Z.mod_pos_bound (zlen message) 128 ltac:(lia)) as Hm. rewrite <- Hn in Hd. clearbody n.
  pose proof T as ((k&F)&Hb&_&Ht).
  destruct (block_loop_ok n ctx m k message F Hb ltac:(lia)) as (k'&F'&I').
  { destruct (decide (n = 0%nat)) as [|Hne]; [by left|right]. destruct H128 as [H128|]; [|lia]. clear -B H128. assert (bc_idx ctx = 0 \/ bc_idx ctx = 128) as [|]; zdm || auto. }
  split; [|split; [lia|split; [|split]]].
  - exists (m ++ take (128 * n) message). replace (zlen message mod 128) with (zlen message - 128 * Z.of_nat n) by lia.
    replace (128 * n)%nat with (Z.to_nat (128 * Z.of_nat n)) in F' |- * by lia. eapply taking_step; [exact T|lia|exact F'].
  - rewrite I'. destruct (decide (zlen message mod 128 = 0)) as [|Hne]; [by left|right]. case_decide as En; [|split; [done|by left]].
    destruct H8 as [H8|H8]; [|rewrite H8 in Hne; done]. split; [done|]. destruct H128; [by left|right; lia].
  - rewrite I'. case_decide; [done|lia].
  - rewrite I'. case_decide; [left; lia|right; lia].
Qed.

Lemma zero_block : replicate 16 0 = block_of [].
Proof using. reflexivity. Qed.

Lemma stage_rest ctx m message total : taking ctx m message (zlen message) total -> zlen message <> 0 -> zlen message < 128 ->
  bc_idx ctx mod 8 = 0 -> bc_idx ctx mod 128 = 0 \/ bc_idx ctx + zlen message < 128 ->
  let ctx1 := if bc_idx ctx =? 128 then (blake2b_compress ctx 0) <| bc_idx := 0 |> else ctx in
  let ctx2 := if bc_idx ctx1 =? 0 then ctx1 <| bc_input := replicate 16 0 |> else ctx1 in
  let nb_words := Z.shiftr (zlen message) 3 in
  let ctx' := fill_bytes (take_words ctx2 message nb_words) (take (Z.to_nat (zlen message - Z.shiftl nb_words 3)) (drop (Z.to_nat (Z.shiftl nb_words 3)) message)) in
  (exists k, fed ctx' total k) /\ 0 < bc_idx ctx'.
Proof using.
  intros T Hne Hlt H8 H128. cbv zeta. destruct (taking_idx _ _ _ _ _ T) as [B Bs]. destruct T as ((k&F)&Hm&_&Ht).
  set (ctx1 := if bc_idx ctx =? 128 then _ else _). set (ctx2 := if bc_idx ctx1 =? 0 then _ else _).
  assert (F2 : exists k2, fed ctx2 m k2 /\ bc_idx ctx2 mod 8 = 0 /\ bc_idx ctx2 + zlen message < 128 /\ 0 <= bc_idx ctx2).
  { destruct (Z.eqb_spec (bc_idx ctx) 128) as [E|E].
    - exists (Datatypes.S k). split; [exact (compressed ctx m k _ _ F E zero_block eq_refl)|]. change (bc_idx ctx2) with 0. done.
    - exists k. unfold ctx2, ctx1. destruct (Z.eqb_spec (bc_idx ctx) 0) as [E0|E0].
      + destruct (fed_idx _ _ _ F) as (_&B2&_). split; [|cbn; lia].
        destruct F as [F1 F2 F3 F4 F5 F6 F7]. split; try done. change (replicate 16 0 = block_of (drop (128 * k) m)). unfold zlen in B2. assert (drop (128 * k) m = []) as -> by (apply length_zero_iff_nil; lia). done.
      + split; [done|]. split; [done|]. split; [|lia]. destruct H128 as [H128|]; [|done]. clear -B E E0 H128. zdm. }
  destruct F2 as (k2&F2&G8&G128&G0). clearbody ctx2. set (n := Z.shiftr _ 3). assert (Hn : n = zlen message / 8) by (unfold n; by rewrite Z.shiftr_div_pow2 by lia).
  rewrite (Z.shiftl_mul_pow2 n 3) by lia. change (2 ^ 3) with 8. rewrite (Z.mul_comm n 8). clearbody n.
  assert (N : 0 <= n /\ 8 * n <= zlen message) by (clear -Hn Bs; zdm).
  destruct (take_words_ok ctx2 m k2 message n F2 Hm ltac:(lia) ltac:(lia) ltac:(lia) ltac:(by left)) as [F3 I3].
  set (rest := drop (Z.to_nat (8 * n)) message). assert (Hr : zlen rest = zlen message - 8 * n) by (unfold rest, zlen in *; rewrite length_drop; lia).
  replace (take (Z.to_nat (zlen message - 8 * n)) rest) with rest by (symmetry; apply firstn_all2; rewrite <- Hr; unfold zlen; lia).
  destruct (fill_ok rest _ _ _ F3 ltac:(by apply Forall_drop) ltac:(lia)) as [F4 I4]. rewrite <- app_assoc in F4. unfold rest in F4 at 2. rewrite take_drop, Ht in F4.
  split; [by exists k2|lia].
Qed.

Lemma blake_update_ok ctx m message k : fed ctx m k -> bytes message -> 0 < bc_idx ctx \/ m = [] ->
  let ctx' := crypto_blake2b_update ctx message (zlen message) in (exists k', fed ctx' (m ++ message) k') /\ (0 < bc_idx ctx' \/ m ++ message = []).
Proof using.
  intros F Hm Hs. cbv zeta. unfold crypto_blake2b_update. destruct (Z.eqb_spec (zlen message) 0) as [E|E].
  { unfold zlen in E. destruct message; [|cbn in E; lia]. rewrite app_nil_r. split; [by exists k|done]. }
  assert (T : taking ctx m message (zlen message) (m ++ message)) by (split; [by exists k|done]).
  pose proof (stage_bytes _ _ _ _ T) as S1. cbv zeta in S1. destruct S1 as (ctx1&m1&msg1&size1&->&T1&H1&P1&R1). pose proof T1 as (_&_&->&_).
  pose proof (stage_words _ _ _ _ T1 H1) as S2. cbv zeta in S2. destruct S2 as (ctx2&m2&msg2&size2&->&T2&H2&H2'&P2&R2). pose proof T2 as (_&_&->&_).
  destruct (stage_blocks _ _ _ _ T2 H2 H2') as ((m3&T3)&B3&H3&P3&Q3). cbv zeta. set (ctx3 := block_loop _ ctx2 msg2) in *. set (size3 := Z.land (zlen msg2) 127) in *.
  destruct (Z.eqb_spec size3 0) as [E3|E3].
  - destruct T3 as ((k3&F3)&_&E3'&Et). rewrite E3 in E3'. assert (En : drop (128 * Z.to_nat (Z.shiftr (zlen msg2) 7)) msg2 = []) by (revert E3'; generalize (drop (128 * Z.to_nat (Z.shiftr (zlen msg2) 7)) msg2); intros [|? ?]; [done|unfold zlen; cbn [length]; lia]).
    rewrite En, app_nil_r in Et. subst m3. split; [by exists k3|]. left. destruct (Q3 E3) as [Hz|]; [|done]. destruct Hs as [|Hs]; [auto|].
    apply P3. destruct (taking_idx _ _ _ _ _ T) as [B0 _]. destruct (decide (bc_idx ctx = 0)) as [E0|E0]; [|apply P2, P1; lia].
    destruct (R1 E0) as [-> R1']. destruct (R2 E0) as [_ R2']. lia.
  - pose proof T3 as (_&_&E3'&_). rewrite E3' in *. destruct H3 as [|[H3 H3']]; [done|].
    destruct (stage_rest _ _ _ _ T3 E3 ltac:(lia) H3 H3') as [G1 G2]. cbv zeta in G1, G2. split; [exact G1|by left].
Qed.
End Streaming.

Lemma updates_fed hs h0 chunks : forall ctx m k, fed hs h0 ctx m k -> 0 < bc_idx ctx \/ m = [] -> Forall (fun l => bytes l) chunks ->
  let ctx' := foldl (fun ctx l => crypto_blake2b_update ctx l (zlen l)) ctx chunks in (exists k', fed hs h0 ctx' (m ++ concat chunks) k') /\ (0 < bc_idx ctx' \/ m ++ concat chunks = []).
Proof.
  induction chunks as [|l chunks IH]; intros ctx m k F Hs Hb; cbn [foldl concat]; [rewrite app_nil_r; split; [by exists k|done]|].
  apply Forall_cons in Hb as [Hl Hb]. destruct (blake_update_ok hs h0 ctx m l k F Hl Hs) as [(k'&F') Hs']. destruct (IH _ _ _ F' Hs' Hb) as [F2 Hs2].
  rewrite <- app_assoc in F2, Hs2. done.
Qed.

(** ** The first block and the digest *)

Lemma blit_front (l : list Z) n : (length l <= n)%nat -> blit (zeros n) 0 l = l ++ zeros (n - length l).
Proof. intros H. unfold blit, zeros. rewrite drop_replicate. done. Qed.

Lemma init_fed hs key : bytes key -> zlen key <= 128 ->
  exists k, fed hs (blake_start hs (zlen key)) (crypto_blake2b_keyed_init hs key (zlen key)) (blake_data key []) k /\
    (0 < bc_idx (crypto_blake2b_keyed_init hs key (zlen key)) \/ blake_data key [] = []).
Proof.
  intros Hk Hz. exists 0%nat. unfold crypto_blake2b_keyed_init, blake_data. cbv zeta. unfold zlen in *. case_bool_decide as En.
  - subst key. cbn [length]. split; [|by right]. split; try done; try apply Forall_nil_2; cbn [length app]; lia.
  - assert (0 < length key)%nat by (destruct key; [done|cbn; lia]). destruct (Z.ltb_spec 0 (Z.of_nat (length key))); [|lia]. split; [|left; cbn; lia].
    rewrite Nat2Z.id, firstn_all, app_nil_r. assert (Hl : length (key ++ zeros (128 - length key)) = 128%nat) by (unfold zeros; rewrite length_app, length_replicate; lia).
    split; try done.
    + apply Forall_app_2; [done|]. apply Forall_replicate. done.
    + rewrite Hl. lia.
    + cbn [bc_idx upd]. unfold zlen. rewrite Hl. done.
    + change (load64_le_buf (blit (zeros 128) 0 key) 16 = block_of (drop (128 * 0) (key ++ zeros (128 - length key)))). rewrite Nat.mul_0_r, drop_0, (blit_front key 128) by lia.
      unfold block_of. rewrite Hl. by rewrite app_nil_r.
Qed.

Lemma low_byte x : Z.land x 0xff = u8 x.
Proof. exact (land_mask x 8 ltac:(lia)). Qed.
Lemma bytes_seq x r : map (fun i => u8 (Z.shiftr x (8 * Z.of_nat i))) (seq 0 r) = le_bytes r x.
Proof.
  revert x. induction r as [|r IH]; intros x; [done|]. cbn [seq map le_bytes]. rewrite Z.shiftr_0_r. f_equal. rewrite <- IH, <- seq_shift, map_map.
  apply map_ext. intros i. rewrite Z.shiftr_shiftr by lia. do 2 f_equal. lia.
Qed.

(** Whole words of the digest and the bytes of the one that is cut. *)
Lemma digest_bytes (H : list Z) n : length H = 8%nat -> 0 <= n <= 64 ->
  store64_le_buf (take (Z.to_nat (Z.shiftr n 3)) H) ++
  map (fun i => Z.land (Z.shiftr H.[Z.shiftr i 3] (8 * Z.land i 7)) 0xff) (map Z.of_nat (seq (Z.to_nat (Z.shiftl (Z.shiftr n 3) 3)) (Z.to_nat n - Z.to_nat (Z.shiftl (Z.shiftr n 3) 3)))) =
  take (Z.to_nat n) (store64_le_buf H).
Proof.
  intros Hl Hn. rewrite (Z.shiftl_mul_pow2 _ 3), (Z.shiftr_div_pow2 n 3) by lia. change (2 ^ 3) with 8. set (q := Z.to_nat (n / 8)). set (r := Z.to_nat (n mod 8)).
  pose proof (Z.div_mod n 8 ltac:(lia)) as Hd. pose proof (Z.mod_pos_bound n 8 ltac:(lia)) as Hm. assert (0 <= n / 8 <= 8) by zdm.
  replace (Z.to_nat (n / 8 * 8)) with (8 * q)%nat by (unfold q; lia). replace (Z.to_nat n) with (8 * q + r)%nat by (unfold q, r; lia). replace (8 * q + r - 8 * q)%nat with r by lia.
  assert (Hq : (q <= 8)%nat) by (unfold q; lia). assert (Hr : (r < 8)%nat) by (unfold r; lia). assert (Hqr : (8 * q + r <= 64)%nat) by (unfold q, r; lia). clearbody q r. clear Hd Hm H0 Hn n.
  assert (Hs : length (store64_le_buf (take q H)) = (8 * q)%nat) by (rewrite length_store64_buf, length_take; lia).
  assert (E : store64_le_buf H = store64_le_buf (take q H) ++ store64_le_buf (drop q H)) by (unfold store64_le_buf; by rewrite <- concat_app, <- map_app, take_drop). rewrite E.
  rewrite take_app_add' by done. f_equal. destruct (drop q H) as [|x t] eqn:Ed.
  - apply (f_equal length) in Ed. rewrite length_drop in Ed. cbn in Ed. assert (r = 0)%nat as -> by lia. done.
  - assert (Hx : H !! q = Some x) by (rewrite <- (Nat.add_0_r q), <- lookup_drop, Ed; done). change (store64_le_buf (x :: t)) with (store64_le x ++ store64_le_buf t). rewrite take_app_le by (unfold store64_le; rewrite length_app; cbn; lia).
    assert (E8 : take r (le_bytes 8 x) = le_bytes r x).
    { replace 8%nat with (r + (8 - r))%nat by lia. rewrite le_bytes_app. apply take_app_length'. by rewrite length_le_bytes. }
    rewrite store64_bytes, E8, <- bytes_seq.
    replace (seq (8 * q) r) with (map (Nat.add (8 * q)) (seq 0 r)) by (etransitivity; [exact (fmap_add_seq (8 * q) 0 r)|f_equal; lia]). rewrite !map_map. apply map_ext_in. intros i Hi%in_seq.
    rewrite low_byte. f_equal. destruct (low_bits (Z.of_nat (8 * q + i)) ltac:(lia)) as (->&->&_).
    replace (Z.of_nat (8 * q + i) / 8) with (Z.of_nat q) by zdm. replace (Z.of_nat (8 * q + i) mod 8) with (Z.of_nat i) by zdm.
    unfold arr_get. rewrite Nat2Z.id. by rewrite (list_lookup_total_correct _ _ _ Hx).
Qed.

#[local] Transparent blake_mix.
Lemma length_mix h i t0 t1 last : length (blake_mix h i t0 t1 last) = 8%nat.
Proof. unfold blake_mix. cbv zeta. by rewrite length_map. Qed.

Lemma final_fed hs h0 ctx m k : 0 <= hs <= 64 -> fed hs h0 ctx m k -> 0 < bc_idx ctx \/ m = [] ->
  crypto_blake2b_final ctx = take (Z.to_nat hs) (store64_le_buf (blake_acc (Datatypes.S (length m)) h0 m 0)).
Proof.
  intros Hh F Hs. unfold crypto_blake2b_final. cbv zeta. rewrite (compress_ok hs h0 ctx m k 1 F). cbn [bc_hash bc_hash_size]. rewrite (fd_size _ _ _ _ _ F). rewrite Z.min_l by lia.
  set (h := blake_F _ _ _ _). assert (E : blake_acc (Datatypes.S (length m)) h0 m 0 = h).
  { unfold h. destruct (fed_idx hs h0 _ _ _ F) as (B1&B2&_). destruct F as [F1 F2 F3 F4 F5 F6 F7]. unfold zlen in *. destruct (decide (m = [])) as [->|Hne].
    - cbn [length] in F3. assert (k = 0)%nat as -> by lia. reflexivity.
    - assert (0 < length m)%nat by (destruct m; [done|cbn; lia]). destruct (blake_acc_full k (Datatypes.S (length m)) h0 m 0) as (n'&Hn&->); [destruct Hs as [|Hs]; [lia|done]|lia|].
      destruct n' as [|n']; [lia|]. cbn [blake_acc]. rewrite bool_decide_eq_true_2 by lia. unfold zlen. rewrite length_drop.
      by replace (0 + 128 * Z.of_nat k + Z.of_nat (length m - 128 * k)) with (Z.of_nat (length m)) by lia. }
  rewrite E. apply digest_bytes; [apply length_mix|lia].
Qed.

Lemma blake_data_app key msg : blake_data key msg = blake_data key [] ++ msg.
Proof. unfold blake_data. by rewrite app_nil_r. Qed.

Section Published.
Context (hash_size : Z) (key : list Z) (Hh : 0 < hash_size <= 64) (Hk : bytes key) (Hz : zlen key <= 64).

Lemma chunks_published chunks : Forall (fun l => bytes l) chunks ->
  crypto_blake2b_final (foldl (fun ctx l => crypto_blake2b_update ctx l (zlen l)) (crypto_blake2b_keyed_init hash_size key (zlen key)) chunks) = blake2b_spec hash_size key (concat chunks).
Proof using Hh Hk Hz.
  intros Hcs. destruct (init_fed hash_size key Hk ltac:(lia)) as (k&F&Hs).
  destruct (updates_fed hash_size _ chunks _ _ k F Hs Hcs) as [(k'&F') Hs']. rewrite <- blake_data_app in F', Hs'.
  unfold blake2b_spec. apply (final_fed _ _ _ _ k'); [lia|done|done].
Qed.
Lemma keyed_published msg : bytes msg -> crypto_blake2b_keyed hash_size key (zlen key) msg (zlen msg) = blake2b_spec hash_size key msg.
Proof using Hh Hk Hz.
  intros Hm. pose proof (chunks_published [msg] ltac:(by apply Forall_singleton)) as G. cbn [foldl concat] in G. rewrite app_nil_r in G. exact G.
Qed.
Lemma spec_size msg : zlen (blake2b_spec hash_size key msg) = hash_size /\ bytes (blake2b_spec hash_size key msg).
Proof using Hh.
  unfold blake2b_spec. split; [|apply Forall_take, store64_buf_bytes].
  assert (E : forall n h d t, length h = 8%nat -> length (blake_acc n h d t) = 8%nat).
  { induction n as [|n IH]; intros h d t H8; [done|]. cbn [blake_acc]. case_bool_decide; [apply length_mix|apply IH, length_mix]. }
  unfold zlen. rewrite length_take, length_store64_buf, E by done. lia.
Qed.
End Published.

(** (C13) The digest is the published one.  With any key of up to 64 bytes or none, any
    digest length up to 64, and in whatever pieces the message is handed over, pieces of
    no bytes, pieces that end inside a word, at a word or at a block among them, the
    result is the hash of the whole message; it has the length that was asked for.  The
    hash is written with the code's compression, which published vectors pin. *)
Theorem blake2b_is_published (hash_size : Z) (key : list Z) (chunks : list (list Z)) (Hh : 0 < hash_size <= 64) (Hk : bytes key) (Hz : zlen key <= 64)
  (Hc : Forall (fun l => bytes l) chunks) :
  crypto_blake2b_final (foldl (fun ctx l => crypto_blake2b_update ctx l (zlen l)) (crypto_blake2b_keyed_init hash_size key (zlen key)) chunks) = blake2b_spec hash_size key (concat chunks) /\
  crypto_blake2b_keyed hash_size key (zlen key) (concat chunks) (zlen (concat chunks)) = blake2b_spec hash_size key (concat chunks) /\
  zlen (blake2b_spec hash_size key (concat chunks)) = hash_size /\ bytes (blake2b_spec hash_size key (concat chunks)).
Proof.
  split; [by apply chunks_published|]. split; [|by apply spec_size]. apply keyed_published; try done. by apply Forall_concat.
Qed.

Lemma blake2b_is_published_witness :
  take 4 (crypto_blake2b_final (foldl (fun ctx l => crypto_blake2b_update ctx l (zlen l)) (crypto_blake2b_keyed_init 64 [] 0) [[97]; []; [98; 99]])) = [0xba; 0x80; 0xa5; 0x3f].
Proof.
  change 0 with (zlen (@nil Z)) at 1. destruct (blake2b_is_published 64 [] [[97]; []; [98; 99]]) as (->&_).
  - lia.
  - constructor.
  - unfold zlen. cbn. lia.
  - unfold is_byte. repeat constructor; lia.
  - vm_compute. reflexivity.
Defined.
