(* ===== verification/Crypto.v ===== *)
(** * Authenticated encryption, and the names the program uses: the last part of
    [monocypher/monocypher.c] and [common/crypto/crypto.h]

    The cipher and the authenticator put together, and the wrappers: encrypt and
    decrypt, subkeys, the keyed message authentication code, session keys and
    identities.  The 16 bytes of stack the authenticator does not set are an argument,
    [memory].  X25519 and the random number generator are not here.

    Proved: the tag is the published authenticator over the published layout, whatever
    was on the stack; decrypting undoes encrypting; and a cipher text is accepted
    exactly with the tag its key, nonce and associated data call for. *)

From S2P Require Import Prelude Wire Errors Keys Packet Words Chacha Poly1305 Blake2b.

(** ** Definitions *)

Definition KEY_SIZE : Z := 32.
Definition ID_SIZE : Z := 32.
Definition NONCE_SIZE : Z := 24.
Definition TAG_SIZE : Z := 16.
Definition SHARED_SIZE : Z := 32.
Definition MAC_SIZE : Z := 16.

Record crypto_aead_ctx := mk_aead { ac_counter : Z; ac_key : list Z; ac_nonce : list Z }.
#[export] Instance aead_eta : Eta crypto_aead_ctx := fun x => mk_aead (ac_counter x) (ac_key x) (ac_nonce x).

Definition zero_bytes : list Z := replicate 128 0.

Definition lock_auth (memory auth_key ad : list Z) (ad_size : Z) (cipher_text : list Z) (text_size : Z) : list Z :=
  let sizes := store64_le ad_size ++ store64_le text_size in
  let poly_ctx := crypto_poly1305_init memory auth_key in
  let poly_ctx := crypto_poly1305_update poly_ctx ad ad_size in
  let poly_ctx := crypto_poly1305_update poly_ctx zero_bytes (gap ad_size 16) in
  let poly_ctx := crypto_poly1305_update poly_ctx cipher_text text_size in
  let poly_ctx := crypto_poly1305_update poly_ctx zero_bytes (gap text_size 16) in
  let poly_ctx := crypto_poly1305_update poly_ctx sizes 16 in
  crypto_poly1305_final poly_ctx.

Definition crypto_aead_init_x (key nonce : list Z) : crypto_aead_ctx := mk_aead 0 (crypto_chacha20_h key nonce) (region nonce 16 8).
Definition crypto_aead_init_djb (key nonce : list Z) : crypto_aead_ctx := mk_aead 0 (take 32 key) (take 8 nonce).
Definition crypto_aead_init_ietf (key nonce : list Z) : crypto_aead_ctx := mk_aead (u64 (Z.shiftl (load32_le nonce) 32)) (take 32 key) (region nonce 4 8).

(** The key moves on with every message. *)
Definition crypto_aead_write (memory : list Z) (ctx : crypto_aead_ctx) (ad : list Z) (ad_size : Z) (plain_text : list Z) (text_size : Z) : crypto_aead_ctx * list Z * list Z :=
  let auth_key := fst (crypto_chacha20_djb None 64 (ac_key ctx) (ac_nonce ctx) (ac_counter ctx)) in
  let cipher_text := fst (crypto_chacha20_djb (Some plain_text) text_size (ac_key ctx) (ac_nonce ctx) (u64 (ac_counter ctx + 1))) in
  let mac := lock_auth memory auth_key ad ad_size cipher_text text_size in
  (ctx <| ac_key := drop 32 auth_key |>, cipher_text, mac).

(** Nothing is written to the plain text when the tag does not match. *)
Definition crypto_aead_read (memory : list Z) (ctx : crypto_aead_ctx) (mac ad : list Z) (ad_size : Z) (cipher_text : list Z) (text_size : Z) : crypto_aead_ctx * option (list Z) * Z :=
  let auth_key := fst (crypto_chacha20_djb None 64 (ac_key ctx) (ac_nonce ctx) (ac_counter ctx)) in
  let real_mac := lock_auth memory auth_key ad ad_size cipher_text text_size in
  let mismatch := crypto_verify16 mac real_mac in
  if mismatch =? 0 then
    (ctx <| ac_key := drop 32 auth_key |>, Some (fst (crypto_chacha20_djb (Some cipher_text) text_size (ac_key ctx) (ac_nonce ctx) (u64 (ac_counter ctx + 1)))), mismatch)
  else (ctx, None, mismatch).

Definition crypto_aead_lock (memory key nonce ad : list Z) (ad_size : Z) (plain_text : list Z) (text_size : Z) : list Z * list Z :=
  let '(_, cipher_text, mac) := crypto_aead_write memory (crypto_aead_init_x key nonce) ad ad_size plain_text text_size in (cipher_text, mac).
Definition crypto_aead_unlock (memory mac key nonce ad : list Z) (ad_size : Z) (cipher_text : list Z) (text_size : Z) : option (list Z) * Z :=
  let '(_, plain_text, mismatch) := crypto_aead_read memory (crypto_aead_init_x key nonce) mac ad ad_size cipher_text text_size in (plain_text, mismatch).

(** The wrappers of [crypto.h].  A buffer's length is its list's. *)
Definition Encrypt (memory key nonce plain ad : list Z) : list Z * list Z := crypto_aead_lock memory key nonce ad (zlen ad) plain (zlen plain).
Definition Decrypt (memory key nonce cipher tag ad : list Z) : option (list Z) :=
  let '(plain, rc) := crypto_aead_unlock memory tag key nonce ad (zlen ad) cipher (zlen cipher) in
  if rc =? 0 then plain else None.
Definition DeriveSubKey (key input : list Z) : list Z := crypto_chacha20_h key input.
Definition ComputeMac (key msg : list Z) : list Z := crypto_blake2b_keyed MAC_SIZE key KEY_SIZE msg (zlen msg).
Definition DeriveSessionKey (shared : list Z) (context : option (list Z)) : list Z :=
  match context with
  | Some context =>
      if zlen context =? 0 then crypto_blake2b KEY_SIZE shared SHARED_SIZE else crypto_blake2b_keyed KEY_SIZE shared SHARED_SIZE context (zlen context)
  | None => crypto_blake2b KEY_SIZE shared SHARED_SIZE
  end.
Definition DeriveId (pk : list Z) : list Z := crypto_blake2b ID_SIZE pk KEY_SIZE.
Definition VerifyId (claimed pk : list Z) : bool := Equal claimed (DeriveId pk) ID_SIZE.

(** draft-irtf-cfrg-xchacha, section A.3.1: the sunscreen, its tag. *)
Definition sunscreen : list Z :=
  [0x4c; 0x61; 0x64; 0x69; 0x65; 0x73; 0x20; 0x61; 0x6e; 0x64; 0x20; 0x47; 0x65; 0x6e; 0x74; 0x6c;
   0x65; 0x6d; 0x65; 0x6e; 0x20; 0x6f; 0x66; 0x20; 0x74; 0x68; 0x65; 0x20; 0x63; 0x6c; 0x61; 0x73;
   0x73; 0x20; 0x6f; 0x66; 0x20; 0x27; 0x39; 0x39; 0x3a; 0x20; 0x49; 0x66; 0x20; 0x49; 0x20; 0x63;
   0x6f; 0x75; 0x6c; 0x64; 0x20; 0x6f; 0x66; 0x66; 0x65; 0x72; 0x20; 0x79; 0x6f; 0x75; 0x20; 0x6f;
   0x6e; 0x6c; 0x79; 0x20; 0x6f; 0x6e; 0x65; 0x20; 0x74; 0x69; 0x70; 0x20; 0x66; 0x6f; 0x72; 0x20;
   0x74; 0x68; 0x65; 0x20; 0x66; 0x75; 0x74; 0x75; 0x72; 0x65; 0x2c; 0x20; 0x73; 0x75; 0x6e; 0x73;
   0x63; 0x72; 0x65; 0x65; 0x6e; 0x20; 0x77; 0x6f; 0x75; 0x6c; 0x64; 0x20; 0x62; 0x65; 0x20; 0x69;
   0x74; 0x2e].
Definition sunscreen_key : list Z := map (fun i => 128 + Z.of_nat i) (seq 0 32).
Definition sunscreen_nonce : list Z := map (fun i => 64 + Z.of_nat i) (seq 0 24).
Definition sunscreen_aad : list Z := [0x50; 0x51; 0x52; 0x53; 0xc0; 0xc1; 0xc2; 0xc3; 0xc4; 0xc5; 0xc6; 0xc7].
Example aead_vector : let '(cipher, tag) := Encrypt (replicate 16 90) sunscreen_key sunscreen_nonce sunscreen sunscreen_aad in
  take 4 cipher = [0xbd; 0x6d; 0x17; 0x9d] /\
  tag = [0xc0; 0x87; 0x59; 0x24; 0xc1; 0xc7; 0x98; 0x79; 0x47; 0xde; 0xaf; 0xd8; 0x78; 0x0a; 0xcf; 0x49].
Proof. vm_compute. done. Qed.

(** ** The authenticated bytes *)

(** Section 2.8 of RFC 8439: each part padded to sixteens, then the two lengths. *)
Definition pad16 (l : list Z) : list Z := l ++ replicate (Z.to_nat ((- zlen l) mod 16)) 0.
Definition mac_data (ad cipher : list Z) : list Z := pad16 ad ++ pad16 cipher ++ le_bytes 8 (zlen ad) ++ le_bytes 8 (zlen cipher).

Lemma bytes_zeros n : bytes (replicate n 0).
Proof. by apply Forall_replicate. Qed.
Lemma bytes_pad l : bytes l -> bytes (pad16 l).
Proof. intros H. apply Forall_app_2; [done|apply bytes_zeros]. Qed.

(** An update that the buffer can hold reads no more than its size. *)
Lemma update_short ctx message size : 0 <= size -> size <= gap (pc_c_idx ctx) 16 ->
  crypto_poly1305_update ctx message size = crypto_poly1305_update ctx (take (Z.to_nat size) message) size.
Proof.
  intros H0 Hg. unfold crypto_poly1305_update. destruct (size =? 0); [done|]. cbv zeta. rewrite Z.min_r by done. rewrite take_take, Nat.min_id. rewrite !Z.sub_diag. reflexivity.
Qed.

Lemma absorbed_idx key ctx m : absorbed key ctx m -> pc_c_idx ctx < 16 -> pc_c_idx ctx = zlen m mod 16.
Proof.
  intros A Hi. pose proof (ab_idx _ _ _ A). destruct (ab_full _ _ _ A) as (k&E&_). unfold zlen. rewrite E. apply (Z.mod_unique _ _ (Z.of_nat k)); [left|]; lia.
Qed.

(** A part and its padding. *)
Lemma absorb_padded key ctx m l : absorbed key ctx m -> pc_c_idx ctx = 0 -> bytes l -> zlen l < 2 ^ 63 ->
  let ctx' := crypto_poly1305_update (crypto_poly1305_update ctx l (zlen l)) zero_bytes (gap (zlen l) 16) in
  absorbed key ctx' (m ++ pad16 l) /\ pc_c_idx ctx' = 0.
Proof.
  intros A Hi Hl Hz. cbv zeta. pose proof (zlen_nonneg l) as Hn. destruct (poly_update_ok key ctx m l A ltac:(lia) Hl) as [A1 I1]. set (ctx1 := crypto_poly1305_update ctx l (zlen l)) in *.
  pose proof (absorbed_idx _ _ _ A1 I1) as E1. assert (E0 : zlen m mod 16 = 0) by (rewrite <- (absorbed_idx _ _ _ A ltac:(lia)); done).
  rewrite zlen_app in E1. rewrite <- Zplus_mod_idemp_l, E0, Z.add_0_l in E1.
  assert (G : gap (zlen l) 16 = (- zlen l) mod 16) by (apply (gap_spec (zlen l) 4); lia). rewrite G. set (g := (- zlen l) mod 16).
  assert (Hg : 0 <= g < 16 /\ (zlen l + g) mod 16 = 0) by (unfold g; clear -Hn; zdm).
  assert (Gi : gap (pc_c_idx ctx1) 16 = g) by (rewrite gap16 by (pose proof (ab_idx _ _ _ A1); lia); rewrite E1; unfold g; clear -Hn; zdm).
  rewrite update_short by lia. assert (Ez : take (Z.to_nat g) zero_bytes = replicate (Z.to_nat g) 0) by (unfold zero_bytes; rewrite take_replicate; f_equal; lia). rewrite Ez.
  assert (Hlen : g = zlen (replicate (Z.to_nat g) 0)) by (unfold zlen; rewrite length_replicate; lia).
  destruct (poly_update_ok key ctx1 _ (replicate (Z.to_nat g) 0) A1 I1 (bytes_zeros _)) as [A2 I2]. rewrite <- Hlen in A2, I2. rewrite <- app_assoc in A2. split; [exact A2|].
  rewrite (absorbed_idx _ _ _ A2 I2). rewrite !zlen_app, <- Hlen. rewrite <- Zplus_mod_idemp_l, E0, Z.add_0_l. apply Hg.
Qed.

Lemma lock_auth_spec memory auth_key ad cipher : zlen memory = 16 -> bytes memory -> bytes auth_key -> 32 <= zlen auth_key -> bytes ad -> bytes cipher ->
  zlen ad < 2 ^ 63 -> zlen cipher < 2 ^ 63 -> lock_auth memory auth_key ad (zlen ad) cipher (zlen cipher) = poly1305_spec auth_key (mac_data ad cipher).
Proof.
  intros Hm Hmb Hk Hkz Ha Hc Haz Hcz. unfold lock_auth. cbv zeta. pose proof (poly_init_ok memory auth_key Hm Hmb Hk ltac:(lia)) as A0.
  destruct (absorb_padded _ _ _ ad A0 eq_refl Ha Haz) as [A1 I1]. destruct (absorb_padded _ _ _ cipher A1 I1 Hc Hcz) as [A2 I2]. rewrite !store64_bytes.
  set (sizes := le_bytes 8 (zlen ad) ++ le_bytes 8 (zlen cipher)). assert (Hs : bytes sizes) by (apply Forall_app_2; apply le_bytes_byte).
  assert (Hsz : zlen sizes = 16) by (unfold sizes, zlen; rewrite length_app, !length_le_bytes; done). rewrite <- Hsz at 3.
  destruct (poly_update_ok _ _ _ sizes A2 ltac:(lia) Hs) as [A3 I3]. rewrite (poly_final_ok _ _ _ Hk Hkz A3 I3). unfold mac_data. by rewrite <- app_assoc.
Qed.

(** ** Sealing with a key *)

Definition one_time_key (key nonce : list Z) : list Z := stream_block (crypto_chacha20_h key nonce) (region nonce 16 8) 0.
Definition seal_stream (key nonce : list Z) (n : Z) : list Z := stream (crypto_chacha20_h key nonce) (region nonce 16 8) 1 (blocks_of n).
Definition seal_tag (key nonce ad cipher : list Z) : list Z := poly1305_spec (one_time_key key nonce) (mac_data ad cipher).

Lemma auth_key_block key nonce : fst (crypto_chacha20_djb None 64 key nonce 0) = stream_block key nonce 0.
Proof.
  rewrite djb_none by lia. cbn [fst]. change (blocks_of 64) with 1%nat. cbn [stream]. rewrite app_nil_r.
  change (Z.to_nat 64) with 64%nat. apply firstn_all2. by rewrite length_block.
Qed.
Lemma key_block_ok key nonce c : bytes (stream_block key nonce c) /\ zlen (stream_block key nonce c) = 64.
Proof. split; [apply store32_buf_bytes|unfold zlen; by rewrite length_block]. Qed.
Lemma spec_tag key message : bytes (poly1305_spec key message) /\ zlen (poly1305_spec key message) = 16.
Proof. unfold poly1305_spec. split; [apply le_bytes_byte|by apply zlen_le_bytes]. Qed.

#[local] Opaque poly1305_spec stream stream_block crypto_chacha20_h crypto_poly1305_update crypto_poly1305_final lock_auth.

Section Aead.
Context (memory : list Z) (Hm : zlen memory = 16) (Hmb : bytes memory).

Lemma Encrypt_spec key nonce plain ad : bytes plain -> bytes ad -> zlen plain < 2 ^ 63 -> zlen ad < 2 ^ 63 ->
  let cipher := xor plain (seal_stream key nonce (zlen plain)) in
  Encrypt memory key nonce plain ad = (cipher, seal_tag key nonce ad cipher) /\ bytes cipher /\ zlen cipher = zlen plain.
Proof using Hm Hmb.
  intros Hp Ha Hpz Haz. cbv zeta. unfold Encrypt, crypto_aead_lock, crypto_aead_write, crypto_aead_init_x, seal_stream. cbv zeta. cbn [ac_key ac_nonce ac_counter].
  rewrite auth_key_block. change (u64 (0 + 1)) with 1. rewrite djb_some by (lia || assumption || (split; [apply zlen_nonneg|lia])). cbn [fst].
  replace (take (Z.to_nat (zlen plain)) plain) with plain by (symmetry; apply firstn_all2; unfold zlen; lia). set (s := stream _ _ 1 _).
  assert (Hs : (length plain <= length s)%nat) by (unfold s; rewrite length_stream; unfold blocks_of, zlen; zdm).
  assert (Hb : bytes (xor plain s)) by (apply xor_bytes; [done|apply stream_bytes]). assert (Hl : zlen (xor plain s) = zlen plain) by (unfold zlen; by rewrite length_xor).
  split; [|done]. rewrite <- Hl at 1. destruct (key_block_ok (crypto_chacha20_h key nonce) (region nonce 16 8) 0) as [K1 K2].
  rewrite lock_auth_spec by (assumption || lia). reflexivity.
Qed.

Lemma Decrypt_spec key nonce cipher tag ad : bytes cipher -> bytes ad -> bytes tag -> zlen tag = 16 -> zlen cipher < 2 ^ 63 -> zlen ad < 2 ^ 63 ->
  Decrypt memory key nonce cipher tag ad = if bool_decide (tag = seal_tag key nonce ad cipher) then Some (xor cipher (seal_stream key nonce (zlen cipher))) else None.
Proof using Hm Hmb.
  intros Hc Ha Ht Htz Hcz Haz. unfold Decrypt, crypto_aead_unlock, crypto_aead_read, crypto_aead_init_x, seal_stream, seal_tag, one_time_key. cbv zeta. cbn [ac_key ac_nonce ac_counter].
  rewrite auth_key_block. change (u64 (0 + 1)) with 1. destruct (key_block_ok (crypto_chacha20_h key nonce) (region nonce 16 8) 0) as [K1 K2].
  rewrite lock_auth_spec by (assumption || lia). set (real := poly1305_spec _ _). destruct (spec_tag (stream_block (crypto_chacha20_h key nonce) (region nonce 16 8) 0) (mac_data ad cipher)) as [R1 R2]. fold real in R1, R2.
  pose proof (differ_verify 16 tag real _ (differ16 tag real Ht R1 ltac:(lia) ltac:(lia))) as V. unfold crypto_verify16. rewrite !firstn_all2 in V by (unfold zlen in *; lia).
  destruct (neq0 (x16 tag real) =? 0) eqn:E; rewrite <- V.
  - apply Z.eqb_eq in E. rewrite E. cbn [Z.eqb]. rewrite djb_some by (lia || assumption || (split; [apply zlen_nonneg|lia])). cbn [fst].
    by replace (take (Z.to_nat (zlen cipher)) cipher) with cipher by (symmetry; apply firstn_all2; unfold zlen; lia).
  - by rewrite E.
Qed.
End Aead.

Lemma ComputeMac_spec key msg : bytes key -> zlen key = KEY_SIZE -> bytes msg ->
  ComputeMac key msg = blake2b_spec MAC_SIZE key msg /\ bytes (ComputeMac key msg) /\ zlen (ComputeMac key msg) = MAC_SIZE.
Proof.
  intros Hk Hz Hm. assert (E : ComputeMac key msg = blake2b_spec MAC_SIZE key msg).
  { unfold ComputeMac. rewrite <- Hz. apply keyed_published; [unfold MAC_SIZE; lia|done|unfold KEY_SIZE in Hz; lia|done]. }
  rewrite E. destruct (spec_size MAC_SIZE key ltac:(unfold MAC_SIZE; lia) msg). done.
Qed.

Lemma encrypt_decrypt memory memory' key nonce plain ad : zlen memory = 16 /\ bytes memory -> zlen memory' = 16 /\ bytes memory' ->
  bytes plain -> bytes ad -> zlen plain < 2 ^ 63 -> zlen ad < 2 ^ 63 ->
  let e := Encrypt memory key nonce plain ad in
  zlen (fst e) = zlen plain /\ zlen (snd e) = TAG_SIZE /\ Decrypt memory' key nonce (fst e) (snd e) ad = Some plain.
Proof.
  intros [Hm Hmb] [Hm' Hmb'] Hp Ha Hpz Haz. cbv zeta. destruct (Encrypt_spec memory Hm Hmb key nonce plain ad Hp Ha Hpz Haz) as (->&Hb&Hl). cbn [fst snd].
  set (cipher := xor plain (seal_stream key nonce (zlen plain))) in *. destruct (spec_tag (one_time_key key nonce) (mac_data ad cipher)) as [T1 T2].
  split; [exact Hl|]. split; [exact T2|]. rewrite (Decrypt_spec memory' Hm' Hmb') by (assumption || lia). rewrite bool_decide_eq_true_2 by reflexivity. rewrite Hl. f_equal. apply xor_involutive.
  unfold seal_stream. rewrite length_stream. unfold blocks_of, zlen. zdm.
Qed.

(** (C11) Authenticated encryption is the published construction.  Whatever is on the
    stack of either side: the cipher text is the plain text under the stream from block
    one, of the plain text's length, the tag the one-time authenticator of block zero
    over associated data, cipher text, padding and lengths; what was encrypted decrypts;
    and a cipher text of any origin is accepted exactly with its tag, and then gives the
    same plain text. *)
Theorem aead_is_published (memory memory' key nonce plain ad : list Z) (Hm : zlen memory = 16 /\ bytes memory) (Hm' : zlen memory' = 16 /\ bytes memory')
  (Hp : bytes plain) (Ha : bytes ad) (Hpz : zlen plain < 2 ^ 63) (Haz : zlen ad < 2 ^ 63) :
  let '(cipher, tag) := Encrypt memory key nonce plain ad in
  cipher = xor plain (seal_stream key nonce (zlen plain)) /\ zlen cipher = zlen plain /\ bytes cipher /\
  tag = poly1305_spec (one_time_key key nonce) (mac_data ad cipher) /\ zlen tag = TAG_SIZE /\ bytes tag /\
  Decrypt memory' key nonce cipher tag ad = Some plain /\
  (forall cipher' tag' ad', bytes cipher' -> bytes ad' -> bytes tag' -> zlen tag' = TAG_SIZE -> zlen cipher' < 2 ^ 63 -> zlen ad' < 2 ^ 63 ->
     Decrypt memory' key nonce cipher' tag' ad' =
     if bool_decide (tag' = seal_tag key nonce ad' cipher') then Some (xor cipher' (seal_stream key nonce (zlen cipher'))) else None).
Proof.
  destruct Hm as [Hm Hmb], Hm' as [Hm' Hmb']. destruct (Encrypt_spec memory Hm Hmb key nonce plain ad Hp Ha Hpz Haz) as (E&Hb&Hl). rewrite E.
  set (cipher := xor plain (seal_stream key nonce (zlen plain))) in *. destruct (spec_tag (one_time_key key nonce) (mac_data ad cipher)) as [T1 T2].
  destruct (encrypt_decrypt memory memory' key nonce plain ad (conj Hm Hmb) (conj Hm' Hmb') Hp Ha Hpz Haz) as (_&_&D). rewrite E in D. cbn [fst snd] in D.
  repeat (split; [done|]). intros. by apply Decrypt_spec.
Qed.

Lemma aead_is_published_witness : Decrypt (replicate 16 7) sunscreen_key sunscreen_nonce (fst (Encrypt (replicate 16 90) sunscreen_key sunscreen_nonce sunscreen sunscreen_aad))
  (snd (Encrypt (replicate 16 90) sunscreen_key sunscreen_nonce sunscreen sunscreen_aad)) sunscreen_aad = Some sunscreen.
Proof.
  pose proof (aead_is_published (replicate 16 90) (replicate 16 7) sunscreen_key sunscreen_nonce sunscreen sunscreen_aad) as H.
  destruct (Encrypt (replicate 16 90) sunscreen_key sunscreen_nonce sunscreen sunscreen_aad) as [cipher tag]. apply H.
  - split; [reflexivity|apply Forall_replicate; unfold is_byte; lia].
  - split; [reflexivity|apply Forall_replicate; unfold is_byte; lia].
  - unfold is_byte, sunscreen. repeat constructor; lia.
  - unfold is_byte, sunscreen_aad. repeat constructor; lia.
  - vm_compute. reflexivity.
  - vm_compute. reflexivity.
Defined.
