(* ===== verification/PacketSeal.v ===== *)
(** * Sealing and opening a packet: [flux/crypto/packet_seal]

    What a seal writes and where: the counter in the head, masked by the tag; the peer's
    tag, on a tagged packet; the body; the authentication tag behind it.  [memory] is
    the stack of the authenticator, which may differ from call to call.

    Proved: what was sealed opens, to the counter and the body it was sealed with, and
    an open that fails leaves every byte as it arrived. *)

From S2P Require Import Prelude Wire Errors Keys Packet Words Chacha Poly1305 Blake2b Crypto.

(** ** Definitions *)

(** The session material of one send; keys are their bytes. *)
Record PeerSendMaterials := mk_materials { sm_key : list Z; sm_headerKey : list Z; sm_macKey : list Z; sm_counter : Z; sm_lane : Z; sm_tag : list Z }.

(** The counter's eight bytes, the lane, zeros. *)
Definition ExpandNonce (counter lane : Z) : list Z := le_bytes 8 counter ++ [lane] ++ replicate 15 0.

Definition StampNonceCounter (data : list Z) (counter : Z) : list Z := blit data WIRE_CONTROLLER_SIZE (le_bytes 8 counter).
Definition ReadNonceCounter (nonceField : list Z) : Z := le_value nonceField.

Definition BuildSecureAad (controller : Z) (tag : option (list Z)) : list Z := controller :: default [] tag.

Section Seal.
Context (memory : list Z).
Implicit Types (dst packet : PacketSlot) (m : PeerSendMaterials).

(** The mask is the key derived from the header key and the packet's tag. *)
Definition MaskNonceCounter (nonceField headerKey aeadTag : list Z) : list Z :=
  zip_with Z.lxor nonceField (take (Z.to_nat WIRE_NONCE_SIZE) (DeriveSubKey headerKey aeadTag)).
Definition mask_at (data headerKey aeadTag : list Z) : list Z :=
  blit data WIRE_CONTROLLER_SIZE (MaskNonceCounter (region data WIRE_CONTROLLER_SIZE WIRE_NONCE_SIZE) headerKey aeadTag).

(** [plaintext] is what the pointer reads, in the packet itself or in another one. *)
Definition SealSecurePacket dst (plaintext : list Z) (headerSize bodyLen : Z) m (tagged : bool) : PacketSlot :=
  let data := pk_data dst in
  let data := if tagged then blit data WIRE_SECURE_HEAD_SIZE (sm_tag m) else data in
  let aad := BuildSecureAad (pk_data dst).[0] (if tagged then Some (sm_tag m) else None) in
  let data := StampNonceCounter data (sm_counter m) in
  let nonce := ExpandNonce (sm_counter m) (sm_lane m) in
  let '(cipher, aeadTag) := Encrypt memory (sm_key m) nonce (take (Z.to_nat bodyLen) plaintext) aad in
  let data := blit data headerSize cipher in
  let data := blit data (headerSize + bodyLen) aeadTag in
  dst <| pk_data := mask_at data (sm_headerKey m) aeadTag |> <| dataSize := u16 (headerSize + bodyLen + WIRE_TAG_SIZE) |>.

Definition SealMacOnlyPacket dst (headerSize bodyLen : Z) m (tagged : bool) : PacketSlot :=
  let data := pk_data dst in
  let data := if tagged then blit data WIRE_SECURE_HEAD_SIZE (sm_tag m) else data in
  let data := StampNonceCounter data (sm_counter m) in
  let covered := headerSize + bodyLen in
  let mac := ComputeMac (sm_macKey m) (region data 0 covered) in
  let data := blit data covered mac in
  dst <| pk_data := mask_at data (sm_headerKey m) mac |> <| dataSize := u16 (covered + WIRE_TAG_SIZE) |>.

Definition head_size (tagged : bool) : Z := if tagged then WIRE_SECURE_HEAD_SIZE + WIRE_PEER_TAG_SIZE else WIRE_SECURE_HEAD_SIZE.

Lemma head_size_eq tagged : head_size tagged = 9 + if tagged then 4 else 0.
Proof. by destruct tagged. Qed.

(** What an open returns: the counter, when the tag verified, and the packet. *)
Definition OpenMacOnlyPacket packet (macKey headerKey : list Z) : option Z * PacketSlot :=
  let tagged := IsTagged packet in
  let headerSize := head_size tagged in
  if dataSize packet <? headerSize + WIRE_TAG_SIZE then (None, packet)
  else
    let covered := dataSize packet - WIRE_TAG_SIZE in
    let carried := region (pk_data packet) covered WIRE_TAG_SIZE in
    let nonceField := MaskNonceCounter (region (pk_data packet) WIRE_CONTROLLER_SIZE WIRE_NONCE_SIZE) headerKey carried in
    let counter := ReadNonceCounter nonceField in
    let masked := region (pk_data packet) WIRE_CONTROLLER_SIZE WIRE_NONCE_SIZE in
    let data := blit (pk_data packet) WIRE_CONTROLLER_SIZE nonceField in
    let expected := ComputeMac macKey (region data 0 covered) in
    if Equal expected carried MAC_SIZE then (Some counter, packet <| pk_data := data |>)
    else (None, packet <| pk_data := blit data WIRE_CONTROLLER_SIZE masked |>).

Definition OpenSecurePacket packet (key headerKey : list Z) (senderLane : Z) : option Z * PacketSlot :=
  let tagged := IsTagged packet in
  let headerSize := head_size tagged in
  if dataSize packet <? headerSize + WIRE_TAG_SIZE then (None, packet)
  else
    let data := pk_data packet in
    let tag := region data (dataSize packet - WIRE_TAG_SIZE) WIRE_TAG_SIZE in
    let nonceField := MaskNonceCounter (region data WIRE_CONTROLLER_SIZE WIRE_NONCE_SIZE) headerKey tag in
    let counter := ReadNonceCounter nonceField in
    let nonce := ExpandNonce counter senderLane in
    let aad := BuildSecureAad data.[0] (if tagged then Some (region data WIRE_SECURE_HEAD_SIZE WIRE_PEER_TAG_SIZE) else None) in
    let bodyLen := dataSize packet - headerSize - WIRE_TAG_SIZE in
    match Decrypt memory key nonce (region data headerSize bodyLen) tag aad with
    | None => (None, packet)
    | Some body => (Some counter, packet <| pk_data := blit data headerSize body |>)
    end.

(** ** Regions of a packet *)

Lemma blit_mid (l1 l2 l3 src : list Z) off : off = zlen l1 -> zlen src = zlen l2 -> blit (l1 ++ l2 ++ l3) off src = l1 ++ src ++ l3.
Proof.
  intros -> Hz. unfold blit, zlen in *. rewrite Nat2Z.id, take_app_length. do 2 f_equal.
  rewrite <- drop_drop, drop_app_length. replace (length src) with (length l2) by lia. apply drop_app_length.
Qed.

Lemma region_prefix {A} (b : list A) n k : 0 <= n -> 0 <= k -> region b 0 (n + k) = region b 0 n ++ region b n k.
Proof. intros. by rewrite region_app, Z.add_0_l by lia. Qed.

(** A buffer cut at a secure packet's fields. *)
Lemma cut_data (data : list Z) tagged bodyLen : 0 <= bodyLen -> head_size tagged + bodyLen + WIRE_TAG_SIZE <= zlen data ->
  exists c n g b t r, data = [c] ++ n ++ g ++ b ++ t ++ r /\ zlen n = 8 /\ zlen g = (if tagged then 4 else 0) /\ zlen b = bodyLen /\ zlen t = 16.
Proof.
  intros Hb Hz. set (gs := if tagged then 4 else 0).
  assert (Hh : head_size tagged = 9 + gs) by (unfold gs; by destruct tagged). rewrite Hh in Hz. change WIRE_TAG_SIZE with 16 in Hz.
  assert (0 <= gs) by (unfold gs; destruct tagged; lia).
  destruct data as [|c data]; [unfold zlen in Hz; cbn in Hz; lia|]. unfold zlen in Hz. cbn [length] in Hz.
  exists c, (take 8 data), (region data 8 gs), (region data (8 + gs) bodyLen), (region data (8 + gs + bodyLen) 16), (drop (Z.to_nat (8 + gs + bodyLen + 16)) data).
  split; [|split; [unfold zlen; rewrite length_take; lia|]].
  - cbn [app]. f_equal. change (take 8 data) with (region data 0 8). rewrite !app_assoc. rewrite <- !region_prefix by lia. unfold region. change (Z.to_nat 0) with 0%nat. by rewrite drop_0, take_drop.
  - split; [|split]; apply zlen_region; unfold zlen; lia.
Qed.

(** ** What a seal writes *)

End Seal.

#[local] Opaque crypto_chacha20_h Encrypt Decrypt ComputeMac.

Lemma zlen_subkey key input : zlen (DeriveSubKey key input) = 32.
Proof. apply zlen_chacha20_h. Qed.
Lemma zlen_mac key msg : bytes key -> zlen key = KEY_SIZE -> bytes msg -> bytes (ComputeMac key msg) /\ zlen (ComputeMac key msg) = WIRE_TAG_SIZE.
Proof.
  intros Hk Hz Hm. destruct (ComputeMac_spec key msg Hk Hz Hm) as (_&?&?). done.
Qed.
Definition stack_ok (memory : list Z) : Prop := zlen memory = 16 /\ bytes memory.

Lemma zlen_mask n hk t : zlen n = 8 -> zlen (MaskNonceCounter n hk t) = 8.
Proof.
  intros Hn. unfold MaskNonceCounter, zlen in *. rewrite length_zip_with, length_take. pose proof (zlen_subkey hk t) as Hm. unfold zlen in Hm.
  change (Z.to_nat WIRE_NONCE_SIZE) with 8%nat. lia.
Qed.

(** Masking is its own inverse. *)
Lemma mask_mask n hk t : zlen n = 8 -> MaskNonceCounter (MaskNonceCounter n hk t) hk t = n.
Proof.
  intros Hn. unfold MaskNonceCounter. assert (Hl : (length n <= length (take (Z.to_nat WIRE_NONCE_SIZE) (DeriveSubKey hk t)))%nat).
  { pose proof (zlen_subkey hk t) as Hm. unfold zlen in Hm, Hn. rewrite length_take. change (Z.to_nat WIRE_NONCE_SIZE) with 8%nat. lia. }
  revert Hl. generalize (take (Z.to_nat WIRE_NONCE_SIZE) (DeriveSubKey hk t)) as k. clear. induction n as [|x n IH]; intros [|y k] Hl; cbn in *; try done; try lia.
  rewrite Z.lxor_assoc, Z.lxor_nilpotent, Z.lxor_0_r. f_equal. apply IH. lia.
Qed.

(** The bytes between the counter and the body. *)
Definition tag_bytes m (tagged : bool) : list Z := if tagged then sm_tag m else [].
Definition materials_ok m : Prop :=
  is_u64 (sm_counter m) /\ zlen (sm_tag m) = WIRE_PEER_TAG_SIZE /\ bytes (sm_tag m) /\ zlen (sm_macKey m) = KEY_SIZE /\ bytes (sm_macKey m).

Lemma counter_read m : materials_ok m -> ReadNonceCounter (le_bytes 8 (sm_counter m)) = sm_counter m.
Proof. intros [H _]. unfold ReadNonceCounter. rewrite le_value_bytes. change (2 ^ (8 * Z.of_nat 8)) with (2 ^ 64). apply Z.mod_small. lia. Qed.

Lemma stamp_head (c : Z) (n g rest : list Z) m (tagged : bool) : zlen n = 8 -> zlen g = (if tagged then 4 else 0) -> materials_ok m ->
  StampNonceCounter (if tagged then blit ([c] ++ n ++ g ++ rest) WIRE_SECURE_HEAD_SIZE (sm_tag m) else [c] ++ n ++ g ++ rest) (sm_counter m)
  = [c] ++ le_bytes 8 (sm_counter m) ++ tag_bytes m tagged ++ rest.
Proof.
  intros Hn Hg (_&Ht&_). unfold StampNonceCounter, tag_bytes. assert (Hz : zlen ([c] ++ n) = 9) by (unfold zlen in *; rewrite length_app; cbn [length]; lia).
  destruct tagged.
  - rewrite (app_assoc [c] n). rewrite (blit_mid ([c] ++ n) g rest) by (rewrite ?Hz, ?Ht, ?Hg; done). rewrite <- app_assoc. by apply blit_mid; rewrite ?zlen_le_bytes, ?Hn.
  - assert (g = []) as -> by (destruct g; [done|unfold zlen in Hg; cbn in Hg; lia]). cbn [app]. by apply (blit_mid [c] n rest); rewrite ?zlen_le_bytes, ?Hn.
Qed.

(** The associated data is bytes, and short. *)
Lemma aad_ok c m (tagged : bool) : is_byte c -> materials_ok m -> let aad := BuildSecureAad c (if tagged then Some (sm_tag m) else None) in bytes aad /\ zlen aad < 2 ^ 63.
Proof.
  intros Hc (_&Ht&Hb&_). unfold BuildSecureAad. destruct tagged; cbn [default from_option id]; (split; [by constructor|]).
  - unfold zlen in *. cbn [length]. change WIRE_PEER_TAG_SIZE with 4 in Ht. lia.
  - done.
Qed.

Lemma SealSecure_bytes memory addr ds (c : Z) (n g b t r plaintext : list Z) m (tagged : bool) :
  zlen n = 8 -> zlen g = (if tagged then 4 else 0) -> zlen t = 16 -> zlen b <= zlen plaintext -> materials_ok m ->
  stack_ok memory -> is_byte c -> bytes plaintext -> head_size tagged + zlen b + WIRE_TAG_SIZE <= UINT16_MAX ->
  let aad := BuildSecureAad c (if tagged then Some (sm_tag m) else None) in
  let e := Encrypt memory (sm_key m) (ExpandNonce (sm_counter m) (sm_lane m)) (take (Z.to_nat (zlen b)) plaintext) aad in
  SealSecurePacket memory (mk_pkt addr ds ([c] ++ n ++ g ++ b ++ t ++ r)) plaintext (head_size tagged) (zlen b) m tagged =
  mk_pkt addr (head_size tagged + zlen b + WIRE_TAG_SIZE)
    ([c] ++ MaskNonceCounter (le_bytes 8 (sm_counter m)) (sm_headerKey m) e.2 ++ tag_bytes m tagged ++ e.1 ++ e.2 ++ r).
Proof.
  intros Hn Hg Ht Hp Hm [Hs1 Hs2] Hcb Hpb Hu. cbv zeta. unfold SealSecurePacket. cbn [pk_data upd]. change (([c] ++ n ++ g ++ b ++ t ++ r).[0]) with c.
  destruct (aad_ok c m tagged Hcb Hm) as [Ha1 Ha2]. cbv zeta in Ha1, Ha2. pose proof (head_size_eq tagged) as Hhe. unfold WIRE_TAG_SIZE, UINT16_MAX in Hu.
  destruct (Encrypt_spec memory Hs1 Hs2 (sm_key m) (ExpandNonce (sm_counter m) (sm_lane m)) (take (Z.to_nat (zlen b)) plaintext) _ ltac:(by apply Forall_take) Ha1
    ltac:(unfold zlen in *; rewrite length_take; destruct tagged; lia) Ha2) as (Ee&_&C1). cbv zeta in Ee, C1.
  rewrite Ee. cbn [fst snd]. set (cipher := xor _ _) in *. set (aeadTag := seal_tag _ _ _ _). assert (C2 : zlen aeadTag = 16) by apply spec_tag.
  rewrite stamp_head by done.
  assert (Hcz : zlen cipher = zlen b) by (rewrite C1; unfold zlen in *; rewrite length_take; lia).
  assert (Hgt : zlen (tag_bytes m tagged) = if tagged then 4 else 0) by (destruct Hm as (_&Hm&_); by destruct tagged).
  assert (Hh : head_size tagged = zlen ([c] ++ le_bytes 8 (sm_counter m) ++ tag_bytes m tagged)).
  { rewrite !zlen_app, Hgt, zlen_le_bytes. by destruct tagged. }
  set (h := [c] ++ le_bytes 8 (sm_counter m) ++ tag_bytes m tagged) in *.
  replace ([c] ++ le_bytes 8 (sm_counter m) ++ tag_bytes m tagged ++ b ++ t ++ r) with (h ++ b ++ t ++ r) by (unfold h; by rewrite <- !app_assoc).
  rewrite (blit_mid h b (t ++ r)) by done. rewrite (app_assoc h cipher). rewrite (blit_mid (h ++ cipher) t r) by (rewrite ?zlen_app, ?Hcz, ?Hh, ?C2, ?Ht; done).
  unfold mask_at. replace ((h ++ cipher) ++ aeadTag ++ r) with ([c] ++ le_bytes 8 (sm_counter m) ++ tag_bytes m tagged ++ cipher ++ aeadTag ++ r) by (unfold h; by rewrite <- !app_assoc).
  rewrite (region_mid [c] (le_bytes 8 (sm_counter m))) by (by rewrite ?zlen_le_bytes). rewrite (blit_mid [c] (le_bytes 8 (sm_counter m))) by (rewrite ?zlen_mask; by rewrite ?zlen_le_bytes).
  unfold upd. cbn. rewrite u16_small; [done|]. pose proof (zlen_nonneg b). unfold head_size, WIRE_SECURE_HEAD_SIZE, WIRE_CONTROLLER_SIZE, WIRE_NONCE_SIZE, WIRE_PEER_TAG_SIZE, WIRE_TAG_SIZE, UINT16_MAX in *. destruct tagged; lia.
Qed.
Lemma covered_bytes c b m (tagged : bool) : materials_ok m -> is_byte c -> bytes b ->
  bytes ([c] ++ le_bytes 8 (sm_counter m) ++ tag_bytes m tagged ++ b).
Proof.
  intros (_&_&Ht&_) Hc Hb. constructor; [done|]. apply Forall_app_2; [apply le_bytes_byte|]. apply Forall_app_2; [by destruct tagged|done].
Qed.
Lemma seal_mac m msg : materials_ok m -> bytes msg -> bytes (ComputeMac (sm_macKey m) msg) /\ zlen (ComputeMac (sm_macKey m) msg) = WIRE_TAG_SIZE.
Proof. intros (_&_&_&Hk&Hb) Hm. by apply zlen_mac. Qed.

Lemma SealMacOnly_bytes addr ds (c : Z) (n g b t r : list Z) m (tagged : bool) :
  zlen n = 8 -> zlen g = (if tagged then 4 else 0) -> zlen t = 16 -> materials_ok m -> is_byte c -> bytes b -> head_size tagged + zlen b + WIRE_TAG_SIZE <= UINT16_MAX ->
  let mac := ComputeMac (sm_macKey m) ([c] ++ le_bytes 8 (sm_counter m) ++ tag_bytes m tagged ++ b) in
  SealMacOnlyPacket (mk_pkt addr ds ([c] ++ n ++ g ++ b ++ t ++ r)) (head_size tagged) (zlen b) m tagged =
  mk_pkt addr (head_size tagged + zlen b + WIRE_TAG_SIZE) ([c] ++ MaskNonceCounter (le_bytes 8 (sm_counter m)) (sm_headerKey m) mac ++ tag_bytes m tagged ++ b ++ mac ++ r).
Proof.
  intros Hn Hg Ht Hm Hcb Hbb Hu. cbv zeta. unfold SealMacOnlyPacket. cbn [pk_data upd]. rewrite stamp_head by done.
  assert (Hgt : zlen (tag_bytes m tagged) = if tagged then 4 else 0) by (destruct Hm as (_&Hm&_); by destruct tagged).
  set (h := [c] ++ le_bytes 8 (sm_counter m) ++ tag_bytes m tagged ++ b).
  assert (Hh : head_size tagged + zlen b = zlen h) by (unfold h; rewrite !zlen_app, Hgt, zlen_le_bytes; change (zlen [c]) with 1; rewrite head_size_eq; lia).
  replace ([c] ++ le_bytes 8 (sm_counter m) ++ tag_bytes m tagged ++ b ++ t ++ r) with (h ++ t ++ r) by (unfold h; by rewrite <- !app_assoc).
  replace (region (h ++ t ++ r) 0 (head_size tagged + zlen b)) with h by (symmetry; by apply (region_mid [] h (t ++ r))).
  set (mac := ComputeMac (sm_macKey m) h). assert (Hmac : zlen mac = zlen t) by (rewrite Ht; apply (seal_mac m h Hm), covered_bytes; done). rewrite (blit_mid h t r) by done.
  unfold mask_at. replace (h ++ mac ++ r) with ([c] ++ le_bytes 8 (sm_counter m) ++ tag_bytes m tagged ++ b ++ mac ++ r) by (unfold h; by rewrite <- !app_assoc).
  rewrite (region_mid [c] (le_bytes 8 (sm_counter m))) by (by rewrite ?zlen_le_bytes). rewrite (blit_mid [c] (le_bytes 8 (sm_counter m))) by (rewrite ?zlen_mask; by rewrite ?zlen_le_bytes).
  unfold upd. cbn. rewrite u16_small; [done|]. pose proof (zlen_nonneg b). unfold head_size, WIRE_SECURE_HEAD_SIZE, WIRE_CONTROLLER_SIZE, WIRE_NONCE_SIZE, WIRE_PEER_TAG_SIZE, WIRE_TAG_SIZE, UINT16_MAX in *. destruct tagged; lia.
Qed.

(** ** What an open reads *)

(** The controller says a secure packet, tagged or not. *)
Definition says (c : Z) (tagged : bool) : Prop := Z.land c CTRL_UNSECURE = 0 /\ (Z.land c CTRL_TAGGED =? 0) = negb tagged.

Lemma says_tagged addr ds c rest tagged : says c tagged -> MIN_WIRE_SIZE <= ds -> IsTagged (mk_pkt addr ds (c :: rest)) = tagged.
Proof.
  intros [H1 H2] Hs. unfold IsTagged, IsSecure, Packet_IsValid, Controller. cbn [dataSize pk_data]. change ((c :: rest).[0]) with c.
  destruct (Z.ltb_spec ds MIN_WIRE_SIZE); [lia|]. cbn [negb]. rewrite H1. cbn. rewrite H2. by destruct tagged.
Qed.

(** The pieces of a packet of these fields. *)
Lemma pieces (c : Z) (n g b t r : list Z) (tagged : bool) : zlen n = 8 -> zlen g = (if tagged then 4 else 0) -> zlen t = 16 ->
  let data := [c] ++ n ++ g ++ b ++ t ++ r in
  region data WIRE_CONTROLLER_SIZE WIRE_NONCE_SIZE = n /\ (if tagged then region data WIRE_SECURE_HEAD_SIZE WIRE_PEER_TAG_SIZE = g else True) /\
  region data (head_size tagged) (zlen b) = b /\ region data (head_size tagged + zlen b) WIRE_TAG_SIZE = t /\
  (forall x, zlen x = 8 -> blit data WIRE_CONTROLLER_SIZE x = [c] ++ x ++ g ++ b ++ t ++ r) /\
  (forall x, zlen x = 8 -> region ([c] ++ x ++ g ++ b ++ t ++ r) 0 (head_size tagged + zlen b) = [c] ++ x ++ g ++ b) /\
  (forall x, zlen x = zlen b -> blit data (head_size tagged) x = [c] ++ n ++ g ++ x ++ t ++ r).
Proof.
  intros Hn Hg Ht. cbv zeta.
  assert (Hh : forall x, zlen x = 8 -> head_size tagged = zlen ([c] ++ x ++ g)) by (intros x Hx; rewrite !zlen_app, Hx, Hg; by destruct tagged).
  assert (Hb : forall x, zlen x = 8 -> head_size tagged + zlen b = zlen ([c] ++ x ++ g ++ b)) by (intros x Hx; rewrite (Hh x Hx), !zlen_app; lia).
  split; [by apply (region_mid [c] n)|]. split; [|split; [|split; [|split; [|split]]]].
  - destruct tagged; [|done]. rewrite (app_assoc [c] n). apply (region_mid ([c] ++ n) g); [|done]. by rewrite zlen_app, Hn.
  - replace ([c] ++ n ++ g ++ b ++ t ++ r) with (([c] ++ n ++ g) ++ b ++ (t ++ r)) by by rewrite <- !app_assoc. apply region_mid; [by apply Hh|done].
  - replace ([c] ++ n ++ g ++ b ++ t ++ r) with (([c] ++ n ++ g ++ b) ++ t ++ r) by by rewrite <- !app_assoc. apply region_mid; [by apply Hb|done].
  - intros x Hx. apply (blit_mid [c] n); [done|]. by rewrite Hx, Hn.
  - intros x Hx. replace ([c] ++ x ++ g ++ b ++ t ++ r) with ([] ++ ([c] ++ x ++ g ++ b) ++ (t ++ r)) by (cbn [app]; by rewrite <- !app_assoc). apply region_mid; [done|by apply Hb].
  - intros x Hx. replace ([c] ++ n ++ g ++ b ++ t ++ r) with (([c] ++ n ++ g) ++ b ++ (t ++ r)) by by rewrite <- !app_assoc.
    rewrite blit_mid by (done || by apply Hh). by rewrite <- !app_assoc.
Qed.
(** What a sealed packet carries, opened. *)
Record opened (q dst : PacketSlot) (body : list Z) m (tagged : bool) : Prop := {
  op_controller : Controller q = Controller dst;
  op_size : dataSize q = head_size tagged + zlen body + WIRE_TAG_SIZE;
  op_tag : if tagged then region (pk_data q) WIRE_SECURE_HEAD_SIZE WIRE_PEER_TAG_SIZE = sm_tag m else True;
  op_body : region (pk_data q) (head_size tagged) (zlen body) = body }.

Lemma opened_of addr addr' ds c n0 n b t r rest body m tagged : zlen n = 8 -> zlen t = 16 -> materials_ok m -> zlen b = zlen body -> b = body ->
  opened (mk_pkt addr (head_size tagged + zlen body + WIRE_TAG_SIZE) ([c] ++ n ++ tag_bytes m tagged ++ b ++ t ++ r)) (mk_pkt addr' ds (c :: n0 ++ rest)) body m tagged.
Proof.
  intros Hn Ht (_&Hm&_) Hb ->. assert (Hg : zlen (tag_bytes m tagged) = if tagged then 4 else 0) by by destruct tagged.
  destruct (pieces c n (tag_bytes m tagged) body t r tagged Hn Hg Ht) as (_&P2&P3&_). split; [done|done| |exact P3]. by destruct tagged.
Qed.

Lemma open_secure memory memory' addr ds c n g b t r plaintext m tagged : says c tagged ->
  zlen n = 8 -> zlen g = (if tagged then 4 else 0) -> zlen t = 16 -> zlen b <= zlen plaintext -> materials_ok m ->
  stack_ok memory -> stack_ok memory' -> is_byte c -> bytes plaintext -> head_size tagged + zlen b + WIRE_TAG_SIZE <= UINT16_MAX ->
  let dst := mk_pkt addr ds ([c] ++ n ++ g ++ b ++ t ++ r) in
  exists q, OpenSecurePacket memory' (SealSecurePacket memory dst plaintext (head_size tagged) (zlen b) m tagged) (sm_key m) (sm_headerKey m) (sm_lane m) = (Some (sm_counter m), q) /\
    opened q dst (take (Z.to_nat (zlen b)) plaintext) m tagged.
Proof.
  intros Hs Hn Hg Ht Hp Hm Hs1 Hs2 Hcb Hpb Hu. cbv zeta. rewrite SealSecure_bytes by done. pose proof (head_size_eq tagged) as Hhe. unfold WIRE_TAG_SIZE, UINT16_MAX in Hu.
  destruct (aad_ok c m tagged Hcb Hm) as [Ha1 Ha2]. cbv zeta in Ha1, Ha2.
  set (aad := BuildSecureAad c _) in *. set (nonce := ExpandNonce _ _). set (body := take (Z.to_nat (zlen b)) plaintext).
  assert (Hbody : zlen body = zlen b) by (unfold body, zlen in *; rewrite length_take; lia).
  assert (Hb63 : zlen body < 2 ^ 63) by (destruct tagged; lia).
  destruct (encrypt_decrypt memory memory' (sm_key m) nonce body aad Hs1 Hs2 ltac:(by apply Forall_take) Ha1 Hb63 Ha2) as (C1&C2&C3).
  destruct (Encrypt _ _ _ _ _) as [cipher tag]. cbn [fst snd] in *.
  set (msk := MaskNonceCounter (le_bytes 8 (sm_counter m)) (sm_headerKey m) tag).
  assert (Hmz : zlen msk = 8) by (apply zlen_mask; by rewrite zlen_le_bytes).
  assert (Hgt : zlen (tag_bytes m tagged) = if tagged then 4 else 0) by (destruct Hm as (_&Hm'&_); by destruct tagged).
  destruct (pieces c msk (tag_bytes m tagged) cipher tag r tagged Hmz Hgt C2) as (P1&P2&P3&P4&_&_&P7).
  assert (Hge : 0 <= zlen b /\ 25 <= head_size tagged + WIRE_TAG_SIZE) by (split; [apply zlen_nonneg|by destruct tagged]).
  unfold OpenSecurePacket. cbn [dataSize pk_data]. change ([c] ++ msk ++ tag_bytes m tagged ++ cipher ++ tag ++ r) with (c :: (msk ++ tag_bytes m tagged ++ cipher ++ tag ++ r)).
  rewrite (says_tagged _ _ c _ tagged) by (exact Hs || unfold MIN_WIRE_SIZE, WIRE_CONTROLLER_SIZE; lia).
  change (c :: (msk ++ tag_bytes m tagged ++ cipher ++ tag ++ r)) with ([c] ++ msk ++ tag_bytes m tagged ++ cipher ++ tag ++ r).
  destruct (Z.ltb_spec (head_size tagged + zlen b + WIRE_TAG_SIZE) (head_size tagged + WIRE_TAG_SIZE)); [lia|].
  replace (head_size tagged + zlen b + WIRE_TAG_SIZE - WIRE_TAG_SIZE) with (head_size tagged + zlen cipher) by lia.
  replace (head_size tagged + zlen b + WIRE_TAG_SIZE - head_size tagged - WIRE_TAG_SIZE) with (zlen cipher) by lia.
  rewrite P1, P3, P4. unfold msk at 1. rewrite mask_mask by by rewrite zlen_le_bytes. rewrite (counter_read m Hm). fold nonce.
  change (([c] ++ msk ++ tag_bytes m tagged ++ cipher ++ tag ++ r).[0]) with c.
  replace (BuildSecureAad c (if tagged then Some (region _ WIRE_SECURE_HEAD_SIZE WIRE_PEER_TAG_SIZE) else None)) with aad by (unfold aad; destruct tagged; [by rewrite P2|reflexivity]).
  replace (MaskNonceCounter msk (sm_headerKey m) tag) with (le_bytes 8 (sm_counter m)) by (symmetry; apply mask_mask; by rewrite zlen_le_bytes).
  rewrite (counter_read m Hm). fold nonce. rewrite C3. eexists. split; [reflexivity|]. rewrite P7 by (symmetry; exact C1).
  rewrite <- Hbody. change (c :: n ++ g ++ b ++ t ++ r) with (c :: n ++ (g ++ b ++ t ++ r)). by apply opened_of.
Qed.
Lemma open_maconly addr ds c n g b t r m tagged : says c tagged ->
  zlen n = 8 -> zlen g = (if tagged then 4 else 0) -> zlen t = 16 -> materials_ok m -> is_byte c -> bytes b -> head_size tagged + zlen b + WIRE_TAG_SIZE <= UINT16_MAX ->
  let dst := mk_pkt addr ds ([c] ++ n ++ g ++ b ++ t ++ r) in
  exists q, OpenMacOnlyPacket (SealMacOnlyPacket dst (head_size tagged) (zlen b) m tagged) (sm_macKey m) (sm_headerKey m) = (Some (sm_counter m), q) /\ opened q dst b m tagged.
Proof.
  intros Hs Hn Hg Ht Hm Hcb Hbb Hu. cbv zeta. rewrite SealMacOnly_bytes by assumption.
  assert (Hgt : zlen (tag_bytes m tagged) = if tagged then 4 else 0) by (destruct Hm as (_&Hm'&_); by destruct tagged).
  destruct (seal_mac m _ Hm (covered_bytes c b m tagged Hm Hcb Hbb)) as [Hmb Hmac]. change WIRE_TAG_SIZE with 16 in Hmac.
  remember (ComputeMac (sm_macKey m) ([c] ++ le_bytes 8 (sm_counter m) ++ tag_bytes m tagged ++ b)) as mac eqn:Em.
  set (msk := MaskNonceCounter (le_bytes 8 (sm_counter m)) (sm_headerKey m) mac).
  assert (Hmz : zlen msk = 8) by (apply zlen_mask; by rewrite zlen_le_bytes).
  destruct (pieces c msk (tag_bytes m tagged) b mac r tagged Hmz Hgt Hmac) as (P1&_&_&P4&P5&P6&_).
  assert (Hge : 0 <= zlen b /\ 25 <= head_size tagged + WIRE_TAG_SIZE) by (split; [apply zlen_nonneg|by destruct tagged]).
  unfold OpenMacOnlyPacket. cbn [dataSize pk_data]. change ([c] ++ msk ++ tag_bytes m tagged ++ b ++ mac ++ r) with (c :: (msk ++ tag_bytes m tagged ++ b ++ mac ++ r)).
  rewrite (says_tagged _ _ c _ tagged) by (exact Hs || unfold MIN_WIRE_SIZE, WIRE_CONTROLLER_SIZE; lia).
  change (c :: (msk ++ tag_bytes m tagged ++ b ++ mac ++ r)) with ([c] ++ msk ++ tag_bytes m tagged ++ b ++ mac ++ r).
  destruct (Z.ltb_spec (head_size tagged + zlen b + WIRE_TAG_SIZE) (head_size tagged + WIRE_TAG_SIZE)); [lia|].
  replace (head_size tagged + zlen b + WIRE_TAG_SIZE - WIRE_TAG_SIZE) with (head_size tagged + zlen b) by lia. rewrite P1, P4.
  replace (MaskNonceCounter msk (sm_headerKey m) mac) with (le_bytes 8 (sm_counter m)) by (symmetry; apply mask_mask; by rewrite zlen_le_bytes).
  rewrite P5, P6 by by rewrite zlen_le_bytes. rewrite <- Em. rewrite (Equal_iff mac mac MAC_SIZE), bool_decide_eq_true_2 by (assumption || reflexivity || (unfold MAC_SIZE; lia)). rewrite (counter_read m Hm).
  eexists. split; [reflexivity|]. change (c :: n ++ g ++ b ++ t ++ r) with (c :: n ++ (g ++ b ++ t ++ r)). by apply opened_of.
Qed.

(** A packet that does not open is as it arrived. *)
Lemma blit_back (d x : list Z) off n : 0 <= off -> off + n <= zlen d -> zlen x = n -> blit (blit d off x) off (region d off n) = d.
Proof.
  intros Ho Hz Hx. pose proof (zlen_nonneg x).
  assert (E : exists (a mid c : list Z), d = a ++ mid ++ c /\ off = zlen a /\ zlen mid = n /\ region d off n = mid).
  { exists (take (Z.to_nat off) d), (region d off n), (drop (Z.to_nat (off + n)) d).
    split; [|split; [unfold zlen in *; rewrite length_take; lia|split; [apply zlen_region; lia|done]]].
    unfold region. rewrite <- (take_drop (Z.to_nat off) d) at 1. f_equal. rewrite <- (take_drop (Z.to_nat n) (drop (Z.to_nat off) d)) at 1. f_equal. rewrite drop_drop. f_equal. lia. }
  destruct E as (a&mid&c&->&->&Hm&->). rewrite (blit_mid a mid c x) by congruence. apply blit_mid; congruence.
Qed.

Lemma failed_open memory packet key hk lane q : 25 <= zlen (pk_data packet) ->
  OpenSecurePacket memory packet key hk lane = (None, q) \/ OpenMacOnlyPacket packet key hk = (None, q) -> q = packet.
Proof.
  intros Hz [H|H].
  - unfold OpenSecurePacket in H. destruct (_ <? _); [by injection H|]. by destruct (Decrypt _ _ _ _ _ _); injection H.
  - unfold OpenMacOnlyPacket in H. destruct (_ <? _); [by injection H|]. destruct (Equal _ _ _); [discriminate H|]. injection H as <-.
    rewrite blit_back; [by destruct packet|unfold WIRE_CONTROLLER_SIZE; lia|unfold WIRE_CONTROLLER_SIZE, WIRE_NONCE_SIZE; lia|].
    apply zlen_mask. apply zlen_region; unfold WIRE_CONTROLLER_SIZE, WIRE_NONCE_SIZE; lia.
Qed.

(** One key serves both sides: nonces differ when the counters or the lanes do. *)
Lemma ExpandNonce_inj c c' lane lane' : is_u64 c -> is_u64 c' -> ExpandNonce c lane = ExpandNonce c' lane' -> c = c' /\ lane = lane'.
Proof.
  intros H1 H2 E. unfold ExpandNonce in E. apply app_inj_1 in E as [E1 E2]; [|by rewrite !length_le_bytes]. injection E2 as ->. split; [|done].
  apply (f_equal le_value) in E1. rewrite !le_value_bytes in E1. change (2 ^ (8 * Z.of_nat 8)) with (2 ^ 64) in E1. by rewrite !Z.mod_small in E1.
Qed.

(** (C9) What is sealed opens: a packet whose controller says secure, tagged or not,
    sealed with room for the tag, is opened by the holder of the same keys and lane to
    the counter and the body it was sealed with, under the controller and peer tag it
    was sealed with, encrypted or with a tag only.  Any packet that does not open, with
    whatever keys, is left byte for byte as it arrived.  And no two packets under one
    key are sealed with the same nonce, unless counter and lane are both the same. *)
Theorem seal_then_open (memory memory' : list Z) (dst : PacketSlot) (plaintext : list Z) (m : PeerSendMaterials) (tagged : bool) (bodyLen : Z)
  (Hs : says (Controller dst) tagged) (Hst : stack_ok memory /\ stack_ok memory') (Hm : materials_ok m) (Hd : bytes (pk_data dst)) (Hp : bytes plaintext) (Hb : 0 <= bodyLen <= zlen plaintext)
  (Hz : head_size tagged + bodyLen + WIRE_TAG_SIZE <= zlen (pk_data dst)) (Hu : head_size tagged + bodyLen + WIRE_TAG_SIZE <= UINT16_MAX) :
  (exists q, OpenSecurePacket memory' (SealSecurePacket memory dst plaintext (head_size tagged) bodyLen m tagged)
      (sm_key m) (sm_headerKey m) (sm_lane m) = (Some (sm_counter m), q) /\ opened q dst (take (Z.to_nat bodyLen) plaintext) m tagged) /\
  (exists q, OpenMacOnlyPacket (SealMacOnlyPacket dst (head_size tagged) bodyLen m tagged)
      (sm_macKey m) (sm_headerKey m) = (Some (sm_counter m), q) /\ opened q dst (region (pk_data dst) (head_size tagged) bodyLen) m tagged) /\
  (forall packet key hk lane q, 25 <= zlen (pk_data packet) ->
     OpenSecurePacket memory packet key hk lane = (None, q) \/ OpenMacOnlyPacket packet key hk = (None, q) -> q = packet) /\
  (forall c c' lane lane', is_u64 c -> is_u64 c' -> ExpandNonce c lane = ExpandNonce c' lane' -> c = c' /\ lane = lane').
Proof.
  destruct Hst as [Hs1 Hs2]. destruct dst as [addr ds data]. cbn [pk_data] in *. destruct (cut_data data tagged bodyLen ltac:(lia) Hz) as (c&n&g&b&t&r&->&Hn&Hg&<-&Ht).
  assert (Hc' : says c tagged) by exact Hs. assert (Hcb : is_byte c /\ bytes b).
  { apply Forall_cons in Hd as [Hc Hd]. cbn [app] in Hd. apply Forall_app in Hd as [_ Hd]. apply Forall_app in Hd as [_ Hd]. by apply Forall_app in Hd as [Hd _]. }
  destruct Hcb as [Hcb Hbb]. split; [|split; [|split]].
  - apply open_secure; try assumption. lia.
  - destruct (pieces c n g b t r tagged Hn Hg Ht) as (_&_&->&_). by apply open_maconly.
  - exact (failed_open memory).
  - exact ExpandNonce_inj.
Qed.

(** ** The theorem at work *)

Definition sample_materials : PeerSendMaterials := mk_materials (replicate 32 1) (replicate 32 2) (replicate 32 3) 513 0 [21; 22; 23; 24].
Definition sample_unsealed : PacketSlot := mk_pkt (mk_addr 2 7 [] 0) 15 ([CTRL_TAGGED] ++ replicate 12 0 ++ [7; 8] ++ replicate 40 0).
Definition sample_stack : list Z := replicate 16 90.

Lemma seal_then_open_witness : exists q,
  OpenSecurePacket sample_stack (SealSecurePacket sample_stack sample_unsealed [7; 8] 13 2 sample_materials true) (replicate 32 1) (replicate 32 2) 0 = (Some 513, q).
Proof.
  destruct (seal_then_open sample_stack sample_stack sample_unsealed [7; 8] sample_materials true 2) as ((q&E&_)&_).
  - split; reflexivity.
  - assert (H : stack_ok sample_stack) by (split; [reflexivity|apply Forall_replicate; unfold is_byte; lia]). split; exact H.
  - split; [split; [discriminate|reflexivity]|]. split; [reflexivity|]. split; [unfold is_byte; repeat constructor; lia|]. split; [reflexivity|apply Forall_replicate; unfold is_byte; lia].
  - unfold is_byte. repeat constructor; try lia; vm_compute; (reflexivity || discriminate).
  - unfold is_byte. repeat constructor; lia.
  - split; vm_compute; discriminate.
  - vm_compute. discriminate.
  - vm_compute. discriminate.
  - exists q. exact E.
Defined.
