(* ===== verification/PacketStamp.v ===== *)
(** * Stamping a packet: what [StampFlowPacket] writes

    The sequence and the generation go into a packet that was laid out before its
    sequence was known.  Stamping changes those two fields of the layout and no other
    byte. *)

From S2P Require Import Prelude Wire Keys FlowData Packet OutFlow.

(** The flow data byte with the generation written over. *)
Definition stamp_epoch (data ep : Z) : Z := u8 (Z.lor (Z.land data (Z.lnot (Z.shiftl FLOW_EPOCH_MASK 3))) (Z.shiftl ep 3)).

Definition stamped (l : Layout) (seq ep : Z) : Layout :=
  mk_layout (ly_internal l) (ly_batch l) (ly_prot l)
    (match ly_flow l with Some (id, _, data) => Some (id, seq, stamp_epoch data ep) | None => None end) (ly_payload l).

(** The byte keeps its mode and its part, whatever they are. *)
Lemma stamp_epoch_fields (data ep : Z) : 0 <= data < 256 -> 0 <= ep <= FLOW_EPOCH_MASK ->
  FlowDataEpoch (stamp_epoch data ep) = ep /\ FlowDataPart (stamp_epoch data ep) = FlowDataPart data /\
  Z.land (stamp_epoch data ep) 7 = Z.land data 7.
Proof.
  intros Hd He.
  assert (H : forallb (fun d => forallb (fun e => (FlowDataEpoch (stamp_epoch d e) =? e) && bool_decide (FlowDataPart (stamp_epoch d e) = FlowDataPart d)
    && (Z.land (stamp_epoch d e) 7 =? Z.land d 7)) (map Z.of_nat (seq 0 8))) (map Z.of_nat (seq 0 256)) = true) by (vm_compute; reflexivity).
  rewrite forallb_forall in H. specialize (H data). assert (Hin : In data (map Z.of_nat (seq 0 256))).
  { apply in_map_iff. exists (Z.to_nat data). split; [lia|]. apply in_seq. lia. }
  specialize (H Hin). rewrite forallb_forall in H. specialize (H ep). assert (Hin2 : In ep (map Z.of_nat (seq 0 8))).
  { apply in_map_iff. exists (Z.to_nat ep). unfold FLOW_EPOCH_MASK, FLOW_EPOCH_COUNT in He. split; [lia|]. apply in_seq. lia. }
  specialize (H Hin2). apply andb_true_iff in H as [[H1%Z.eqb_eq H2]%andb_true_iff H3%Z.eqb_eq]. by apply bool_decide_eq_true in H2.
Qed.

Lemma set_app_r {A} (l1 l2 : list A) i v : 0 <= i -> (l1 ++ l2).[zlen l1 + i <- v] = l1 ++ l2.[i <- v].
Proof.
  intros Hi. unfold arr_set, zlen. replace (Z.to_nat (Z.of_nat (length l1) + i)) with (length l1 + Z.to_nat i)%nat by lia.
  apply insert_app_r.
Qed.
Lemma get_app_r {A} `{Inhabited A} (l1 l2 : list A) i : 0 <= i -> (l1 ++ l2).[zlen l1 + i] = l2.[i].
Proof.
  intros Hi. unfold arr_get, zlen. replace (Z.to_nat (Z.of_nat (length l1) + i)) with (length l1 + Z.to_nat i)%nat by lia.
  rewrite lookup_total_app_r by lia. f_equal. lia.
Qed.

(** The storage after a stamp at the flow header behind [pre]. *)
Lemma stamp_bytes p seq ep pre id s0 data post :
  pk_data p = pre ++ (le_bytes 2 id ++ le_bytes 4 s0 ++ [data]) ++ post -> FlowHeaderOffset p = zlen pre ->
  pk_data (stamp_packet p seq ep) = pre ++ (le_bytes 2 id ++ le_bytes 4 seq ++ [stamp_epoch data ep]) ++ post.
Proof.
  intros Hd Ho. unfold stamp_packet. cbv zeta. rewrite Ho, Hd. unfold WIRE_FLOW_ID_SIZE, WIRE_FLOW_SEQ_SIZE. cbn [pk_data upd].
  rewrite <- !Z.add_assoc. repeat rewrite set_app_r by lia. rewrite get_app_r by lia. reflexivity.
Qed.

Lemma stamp_refines (p : PacketSlot) (l : Layout) (id s0 data seq ep : Z)
  (Hh : holds_layout p l) (Hok : layout_ok l) (Hf : ly_flow l = Some (id, s0, data)) (Hs : is_u32 seq) (He : 0 <= ep <= FLOW_EPOCH_MASK) :
  let p' := stamp_packet p seq ep in
  holds_layout p' (stamped l seq ep) /\ layout_ok (stamped l seq ep) /\
  (Forall is_byte (pk_data p) -> Forall is_byte (pk_data p') /\ FlowSeq p' = seq /\ FlowId p' = id /\ FlowDataEpoch (FlowDataByte p') = ep) /\
  FlowDataPart (stamp_epoch data ep) = FlowDataPart data /\ Z.land (stamp_epoch data ep) 7 = Z.land data 7.
Proof.
  pose proof Hok as (Hp&Hfo&Hpay). rewrite Hf in Hfo. destruct Hfo as (Hid&Hs0&Hd).
  destruct (stamp_epoch_fields data ep Hd He) as (F1&F2&F3). cbv zeta.
  assert (Hok' : layout_ok (stamped l seq ep)).
  { split; [done|]. cbn. rewrite Hf. split; [|done]. split; [done|]. split; [done|]. apply u8_range. }
  assert (Hheld : holds_layout (stamp_packet p seq ep) (stamped l seq ep)).
  { pose proof (held_flow_offset p l Hh Hok) as Ho. rewrite Hf in Ho. cbn [is_some] in Ho.
    destruct Hh as (rest&Hdat&Hsz). exists rest. split.
    - rewrite (stamp_bytes p seq ep (layout_controller l :: ly_head l) id s0 data (ly_payload l ++ ly_trailer l ++ rest)).
      + unfold layout_bytes, stamped, layout_controller, ly_sealed, ly_macOnly, ly_peerTag, ly_head, ly_trailer. cbn [ly_flow ly_prot ly_internal ly_batch ly_payload].
        rewrite Hf. cbn [is_some flow_bytes]. cbn [app]. by rewrite <- !app_assoc.
      + rewrite Hdat. unfold layout_bytes. rewrite Hf. cbn [app flow_bytes]. by rewrite <- !app_assoc.
      + rewrite Ho. unfold zlen. cbn [length]. lia.
    - change (dataSize (stamp_packet p seq ep)) with (dataSize p). rewrite Hsz, !layout_zlen. cbn [stamped ly_flow ly_payload]. rewrite Hf. done. }
  split; [done|]. split; [done|]. split; [|done]. intros Hb.
  assert (Hb' : Forall is_byte (pk_data (stamp_packet p seq ep))).
  { unfold stamp_packet. cbn. repeat apply Forall_arr_set; try done; apply u8_range. }
  split; [done|]. pose proof (held_flow _ _ Hheld Hok' Hb') as Hr. cbn in Hr. rewrite Hf in Hr. destruct Hr as (->&->&->). done.
Qed.

(** (C32) Stamping refines the layout.  A packet that holds a layout with a flow
    header holds, once stamped, the same layout with the sequence it was given, and
    with the association's generation in its flow byte, whose mode and part are kept:
    reading it back answers that sequence and that generation, and every other field
    and the content as before. *)
Theorem stamp_refines_layout (p : PacketSlot) (l : Layout) (id s0 data seq ep : Z)
  (Hh : holds_layout p l) (Hok : layout_ok l) (Hf : ly_flow l = Some (id, s0, data)) (Hs : is_u32 seq) (He : 0 <= ep <= FLOW_EPOCH_MASK) :
  let p' := stamp_packet p seq ep in
  holds_layout p' (stamped l seq ep) /\ layout_ok (stamped l seq ep) /\
  (Forall is_byte (pk_data p) -> Forall is_byte (pk_data p') /\ FlowSeq p' = seq /\ FlowId p' = id /\ FlowDataEpoch (FlowDataByte p') = ep) /\
  FlowDataPart (stamp_epoch data ep) = FlowDataPart data /\ Z.land (stamp_epoch data ep) 7 = Z.land data 7.
Proof. by apply (stamp_refines p l id s0 data seq ep). Qed.

Lemma sample_holds : holds_layout sample_packet sample_layout /\ layout_ok sample_layout.
Proof.
  split; [exists [0; 0]; split; reflexivity|]. unfold layout_ok, prot_ok, sample_layout. cbn.
  repeat split; try (vm_compute; discriminate); repeat constructor; vm_compute; discriminate.
Qed.

Lemma stamp_refines_layout_witness :
  let p' := stamp_packet sample_packet 65537 5 in
  holds_layout p' (stamped sample_layout 65537 5) /\ layout_ok (stamped sample_layout 65537 5) /\
  (Forall is_byte (pk_data sample_packet) -> Forall is_byte (pk_data p') /\ FlowSeq p' = 65537 /\ FlowId p' = 7 /\ FlowDataEpoch (FlowDataByte p') = 5) /\
  FlowDataPart (stamp_epoch 8 5) = FlowDataPart 8 /\ Z.land (stamp_epoch 8 5) 7 = Z.land 8 7.
Proof.
  exact (stamp_refines_layout sample_packet sample_layout 7 300 8 65537 5 (proj1 sample_holds) (proj2 sample_holds) eq_refl
    ltac:(vm_compute; split; [discriminate|reflexivity]) ltac:(vm_compute; split; discriminate)).
Defined.
