(* ===== verification/FlowProtocol.v ===== *)
(** * An ordered flow, end to end

    The two halves of a flow and the network between them.  The sender is one
    association with its peer and pools, the receiver one association with its lanes
    and pool.  The network may lose, repeat, delay and reorder packets and
    acknowledgements alike; what it delivers was sent.  Whatever happens, the receiver
    hands over exactly the packets the sender stamped, in the order it stamped them,
    and what has not been handed over yet still has its copy at the sender. *)

From stdpp Require Import gmap.
From S2P Require Import Prelude Wire Keys FlowData Fifo SlotPool ReadyLanes Rtt Delivery Curve Congestion Peer InFlow InDeliver InOrder InHistory Packet OutFlow OutRetransmit OutInvariant OutSteps OutSend OutEnd OutHistory OutTheorems PacketStamp.

(** ** Lanes are read one way *)

Section Queue.
Context {Q T : Type} `{!ReadyQueue Q} `{!Allocator T}.

(** What a lane holds is what popping it answers. *)
Lemma rq_holds_fun n n' lane : 0 <= lane -> forall l q c c', c lane = l -> rq_holds q n c -> rq_holds q n' c' -> c' lane = l.
Proof.
  intros Hl. induction l as [|x l IH]; intros q c c' E H1 H2; pose proof (rq_pop_ok q n c lane Hl H1) as P1; pose proof (rq_pop_ok q n' c' lane Hl H2) as P2;
    rewrite E in P1; destruct (c' lane) as [|y l'] eqn:E'.
  - done.
  - destruct P2 as (q'&E2&_). rewrite P1 in E2. done.
  - destruct P1 as (q'&E1&_). rewrite P2 in E1. done.
  - destruct P1 as (q1&E1&_&H1'), P2 as (q2&E2&_&H2'). rewrite E1 in E2. simplify_eq. f_equal.
    pose proof (IH q2 _ _ (fupd_eq c lane l) H1' H2') as R. by rewrite fupd_eq in R.
Qed.

Lemma lanes_gain_fun (k k' : RecvWorld Q T) n c peer l l' : rq_holds (readyLanes k) n c -> 0 <= peer ->
  lanes_gain k k' n c peer l -> lanes_gain k k' n c peer l' -> l = l'.
Proof.
  intros Hh Hp (c1&H1&_&E1&_) (c2&H2&_&E2&_). pose proof (rq_lane_ok _ _ _ peer Hp Hh) as Hl.
  pose proof (rq_holds_fun n n _ Hl _ _ _ _ E1 H1 H2) as E. rewrite E2 in E. apply app_inv_head in E.
  clear -E. revert l' E. induction l as [|x l IH]; intros [|y l']; cbn; try done. intros [= -> E]. f_equal. by apply IH.
Qed.
End Queue.

(** ** The link *)

Section Link.
Context {S Q T : Type} `{!Allocator S} `{!ReadyQueue Q} `{!Allocator T}.
(** The sender's ring, its pools, its peer's controller; the receiver's window and
    reorder ring, its lanes. *)
Context (w ns nd : Z) (c : CcConfig) (f : FlowConfig) (v e n : Z) (mode : FlowMode).
Abbreviation N := (2 ^ w).
Abbreviation cap := (2 ^ e).

(** [lk_sent] is what the sender stamped, in order; [lk_bodies] what was put into the
    receiver's slots; [lk_given] what reached the lane, in order; [lk_replies] every
    acknowledgement the receiver ever wrote. *)
Record Link := mk_link {
  lk_out : OutWorld S; lk_sent : list PacketSlot;
  lk_in : InAssociation; lk_bodies : Z -> PacketSlot; lk_given : list PacketSlot; lk_replies : list (Z * list AckRange) }.

(** A packet laid out for a flow. *)
Definition flow_packet (p : PacketSlot) : Prop :=
  exists l id s0 data, holds_layout p l /\ layout_ok l /\ Forall is_byte (pk_data p) /\ ly_flow l = Some (id, s0, data).

Definition put {A} (m : Z -> A) (i : Z) (x : A) : Z -> A := fun j => if j =? i then x else m j.

Inductive link_step : Link -> Link -> Prop :=
  (** The sender's application offers a packet. *)
  | ls_admit a p k Fs Fd B P log acks x flowId ws flying now packet r a' p' packet' k' sent inn bodies given replies :
      is_wire ws -> is_u32 (nextSeq a + 1) -> flow_packet packet -> 0 <= oa_flowEpoch a <= FLOW_EPOCH_MASK ->
      AdmitAssoc a p k packet flowId x ws flying now = Some (r, a', p', packet', k') ->
      link_step
        (mk_link (mk_outworld a p k (with_staging (oa_mode a) x Fs) (with_sending (oa_mode a) x Fd) B P log acks) sent inn bodies given replies)
        (mk_link (mk_outworld a' p' k' (if kept r (oa_mode a) then with_staging (oa_mode a) x Fs else Fs)
             (if kept r (oa_mode a) then with_sending (oa_mode a) x Fd else Fd) B P
             (match r with Sent => [(nextSeq a, copy_slot a x)] | _ => [] end ++ log) acks)
           (sent ++ match r with Sent => [packet'] | _ => [] end) inn bodies given replies)
  (** A waiting packet goes out. *)
  | ls_claim a p k Fs Fd B P log acks cand now packet b a' p' packet' sent inn bodies given replies :
      (oa_epoch a = wc_epoch cand -> wc_mode cand = oa_mode a) -> is_u32 (nextSeq a + 1) -> flow_packet packet -> 0 <= oa_flowEpoch a <= FLOW_EPOCH_MASK ->
      ClaimWaiting cand a p packet now = (b, a', p', packet') ->
      link_step
        (mk_link (mk_outworld a p k Fs Fd B P log acks) sent inn bodies given replies)
        (mk_link (mk_outworld a' p' k Fs (if b && unreliable a then wc_packet cand :: Fd else Fd) B P
             ((if b then [(nextSeq a, copy_slot a (wc_packet cand))] else []) ++ log) acks)
           (sent ++ if b then [packet'] else []) inn bodies given replies)
  (** An acknowledgement the receiver once wrote arrives. *)
  | ls_ack a p k Fs Fd B P log acks rn rad ranges now delay a' d k' sent inn bodies given replies :
      (rn, ranges) ∈ replies ->
      ApplyAck a (oa_flowId a) (oa_flowEpoch a) rn rad ranges now delay no_delta k = Some (a', d, k') ->
      link_step (mk_link (mk_outworld a p k Fs Fd B P log acks) sent inn bodies given replies)
        (mk_link (mk_outworld a' (report_ack c p d now) k' Fs Fd B P log ((rn, ranges) :: acks)) sent inn bodies given replies)
  (** The sender scans, refunds, or the rest of its program runs. *)
  | ls_quiet W W' sent inn bodies given replies :
      out_step w ns nd c f W W' -> ow_log W' = ow_log W -> ow_acks W' = ow_acks W -> nextSeq (ow_out W') = nextSeq (ow_out W) ->
      oa_mode (ow_out W') = oa_mode (ow_out W) ->
      link_step (mk_link W sent inn bodies given replies) (mk_link W' sent inn bodies given replies)
  (** A packet that was sent, once or again, arrives in a slot the receiver does not hold. *)
  | ls_arrive W sent inn bodies given replies (k k' : RecvWorld Q T) lanes packet slot now incoming a' l :
      packet ∈ sent -> lane_room k n lanes (ia_peerSlot inn) (heldCount inn + 1) ->
      slot <> INVALID -> slot ∉ map h_slot (occupied inn) -> FlowSeq packet + cap + 3 < 2 ^ 32 ->
      DeliverOrdered inn k slot (FlowSeq packet) now = Some (zlen l, incoming, a', k') -> lanes_gain k k' n lanes (ia_peerSlot inn) l ->
      link_step (mk_link W sent inn bodies given replies)
        (mk_link W sent a' (put bodies slot packet) (given ++ map (put bodies slot packet) l) replies)
  (** The receiver gives up what it holds. *)
  | ls_giveup W sent inn bodies given replies (k k' : RecvWorld Q T) m rest d a' :
      al_owns (recvPool k) m (map h_slot (occupied inn) ++ rest) -> DropInHoldback inn k = Some (d, a', k') ->
      link_step (mk_link W sent inn bodies given replies) (mk_link W sent a' bodies given replies)
  (** The receiver acknowledges. *)
  | ls_reply W sent inn bodies given replies maxRanges :
      link_step (mk_link W sent inn bodies given replies)
        (mk_link W sent inn bodies given ((ia_recvNext inn, BuildAckRanges inn maxRanges) :: replies)).

Record link_ok (L : Link) : Prop := {
  lo_world : world_ok w ns nd (lk_out L);
  lo_mode : oa_mode (ow_out (lk_out L)) = mode;
  lo_count : nextSeq (ow_out (lk_out L)) = zlen (lk_sent L) + 1;
  lo_logged : forall s, 1 <= s < nextSeq (ow_out (lk_out L)) -> exists x, (s, x) ∈ ow_log (lk_out L);
  lo_seqs : forall i P, lk_sent L !! i = Some P -> FlowSeq P = Z.of_nat i + 1;
  lo_heard : forall rn ranges, (rn, ranges) ∈ ow_acks (lk_out L) -> rn <= ia_recvNext (lk_in L);
  lo_wrote : forall rn ranges, (rn, ranges) ∈ lk_replies L -> rn <= ia_recvNext (lk_in L);
  lo_recv : exists held, in_rel v e (lk_in L) (ia_recvNext (lk_in L)) held /\ held !! ia_recvNext (lk_in L) = None /\
    ia_recvNext (lk_in L) + cap + 2 < 2 ^ 32 /\
    forall s x, held !! s = Some x -> 1 <= s /\ s + cap + 3 < 2 ^ 32 /\ lk_sent L !! Z.to_nat (s - 1) = Some (lk_bodies L x);
  lo_given : lk_given L = take (Z.to_nat (ia_recvNext (lk_in L) - 1)) (lk_sent L) /\ ia_recvNext (lk_in L) <= zlen (lk_sent L) + 1 }.

Context (Hw : 6 <= w <= 15) (Hv : 6 <= v <= 15) (He : 0 <= e <= v).

(** The sender stamps the next packet. *)
Lemma send_ok W W' sent inn bodies given replies P x :
  link_ok (mk_link W sent inn bodies given replies) -> world_ok w ns nd W' ->
  nextSeq (ow_out W') = nextSeq (ow_out W) + 1 -> ow_log W' = (nextSeq (ow_out W), x) :: ow_log W -> ow_acks W' = ow_acks W ->
  FlowSeq P = nextSeq (ow_out W) -> oa_mode (ow_out W') = oa_mode (ow_out W) ->
  link_ok (mk_link W' (sent ++ [P]) inn bodies given replies).
Proof using Hw Hv He.
  intros [L1 Lm L2 L3 L4 L5 L6 (held&R1&R2&R3&R4) [L8 L9]] HW En El Ea Hseq Em. cbn in *. split; cbn [lk_out lk_sent lk_in lk_bodies lk_given lk_replies].
  - done.
  - congruence.
  - rewrite En, L2, zlen_app. change (zlen [P]) with 1. lia.
  - intros s Hs. rewrite El. destruct (decide (s = nextSeq (ow_out W))) as [->|]; [exists x; by left|].
    destruct (L3 s ltac:(lia)) as [y Hy]. exists y. by right.
  - intros i Q' [HQ|[Hi HQ]]%lookup_app_Some; [by apply L4|]. destruct (i - length sent)%nat eqn:E; [|by destruct n0]. cbn in HQ. simplify_eq.
    rewrite Hseq, L2. unfold zlen. lia.
  - by rewrite Ea.
  - done.
  - exists held. split_and!; try done. intros s y Hy. destruct (R4 s y Hy) as (?&?&HQ). split; [done|]. split; [done|]. by apply lookup_app_l_Some.
  - split; [|rewrite zlen_app; change (zlen [P]) with 1; lia]. rewrite L8, take_app_le; [done|]. unfold zlen in L9. lia.
Qed.

(** The sender does something else. *)
Lemma still_ok W W' sent inn bodies given replies acks' :
  link_ok (mk_link W sent inn bodies given replies) -> world_ok w ns nd W' ->
  nextSeq (ow_out W') = nextSeq (ow_out W) -> ow_log W' = ow_log W -> ow_acks W' = acks' -> oa_mode (ow_out W') = oa_mode (ow_out W) ->
  (forall rn ranges, (rn, ranges) ∈ acks' -> (rn, ranges) ∈ ow_acks W \/ (rn, ranges) ∈ replies) ->
  link_ok (mk_link W' sent inn bodies given replies).
Proof using Hw Hv He.
  intros [L1 Lm L2 L3 L4 L5 L6 L7 L8] HW En El Ea Em Hac. cbn in *. split; cbn [lk_out lk_sent lk_in lk_bodies lk_given lk_replies]; try done.
  - congruence.
  - by rewrite En.
  - rewrite En, El. done.
  - rewrite Ea. intros rn ranges Hin. destruct (Hac _ _ Hin); eauto.
Qed.

(** A flow packet stamped carries its sequence. *)
Lemma stamped_seq packet s ep : flow_packet packet -> is_u32 s -> 0 <= ep <= FLOW_EPOCH_MASK -> FlowSeq (stamp_packet packet s ep) = s.
Proof using Hw Hv He.
  intros (l&id&s0&data&Hh&Hok&Hb&Hf) Hs Hep. destruct (stamp_refines packet l id s0 data s ep Hh Hok Hf Hs Hep) as (_&_&H&_). by apply H.
Qed.

Lemma take_extend {A} (g : Z -> A) sent m : forall l,
  (forall i x, l !! i = Some x -> sent !! (m + i)%nat = Some (g x)) -> take m sent ++ map g l = take (m + length l) sent.
Proof using.
  induction l as [|x l IH] using rev_ind; intros H; [by rewrite app_nil_r, Nat.add_0_r|].
  rewrite map_app, app_assoc, IH; [|intros i y Hi; apply H; by apply lookup_app_l_Some].
  rewrite length_app. cbn. replace (m + (length l + 1))%nat with (Datatypes.S (m + length l)) by lia. symmetry. apply take_S_r.
  apply H. by apply list_lookup_middle.
Qed.

(** A packet reaches the receiver. *)
Lemma arrive_ok W sent inn bodies given replies (k k' : RecvWorld Q T) lanes packet slot now incoming a' l :
  packet ∈ sent -> lane_room k n lanes (ia_peerSlot inn) (heldCount inn + 1) ->
  slot <> INVALID -> slot ∉ map h_slot (occupied inn) -> FlowSeq packet + cap + 3 < 2 ^ 32 ->
  DeliverOrdered inn k slot (FlowSeq packet) now = Some (zlen l, incoming, a', k') -> lanes_gain k k' n lanes (ia_peerSlot inn) l ->
  link_ok (mk_link W sent inn bodies given replies) ->
  link_ok (mk_link W sent a' (put bodies slot packet) (given ++ map (put bodies slot packet) l) replies).
Proof using Hw Hv He.
  intros Hp Hroom Hx Hfresh Hlim ED Hgain [L1 Lm L2 L3 L4 L5 L6 (held&R1&R2&R3&R4) [L8 L9]]. cbn in *.
  apply list_elem_of_lookup in Hp as [j Hj]. pose proof (L4 j packet Hj) as Hseq. set (sq := FlowSeq packet) in *.
  set (next := ia_recvNext inn) in *.
  assert (Hroom' : lane_room k n lanes (ia_peerSlot inn) (Z.of_nat (size held) + 1)) by (by rewrite <- (ir_count _ _ _ _ _ R1)).
  pose proof (DeliverOrdered_refines v e Hv He n inn k lanes slot sq next held now R1 R2 Hroom' R3 Hx) as HD.
  pose proof (spec_step_books cap (ia_peerSlot inn) (mk_ord next held) (EArrive k lanes sq slot now)) as HB. cbn [spec_step] in HB.
  destruct (spec_deliver _ _ _ _ _) as [[l0 o'] kp]. destruct HD as (a1&k1&E1&Hr'&Hn'&Hi'&Hgain'&_). rewrite ED in E1.
  injection E1 as _ _ <- <-. pose proof Hroom as (Hpeer&Hholds&_).
  pose proof (lanes_gain_fun _ _ _ _ _ _ _ Hholds Hpeer Hgain Hgain') as <-.
  destruct HB as [B1 B2 _ B4]. cbn [o_next o_held arrivals omap list_omap] in *.
  assert (Hnot : forall s x, held !! s = Some x -> x <> slot).
  { intros s x Hs ->. apply Hfresh. rewrite (occupied_slots_of v e Hv He _ _ _ R1). apply list_elem_of_fmap.
    exists (s, slot). split; [done|]. by apply elem_of_map_to_list. }
  (* the body of whatever was held or has just come *)
  assert (Hbody : forall s x, held !! s = Some x \/ (s, x) ∈ [(sq, slot)] -> 1 <= s /\ s + cap + 3 < 2 ^ 32 /\ sent !! Z.to_nat (s - 1) = Some (put bodies slot packet x)).
  { intros s x [Hs|Hs].
    - destruct (R4 s x Hs) as (?&?&HQ). split; [done|]. split; [done|]. unfold put. destruct (Z.eqb_spec x slot) as [->|]; [by destruct (Hnot _ _ Hs)|done].
    - apply list_elem_of_singleton in Hs. simplify_eq. unfold put. rewrite Z.eqb_refl. split; [lia|]. split; [done|]. rewrite Hseq.
      by replace (Z.to_nat (Z.of_nat j + 1 - 1)) with j by lia. }
  destruct o' as [next' held']. cbn [o_next o_held] in *.
  pose proof (ir_next _ _ _ _ _ Hr') as Hnext. rewrite B1 in Hnext.
  pose proof (zlen_nonneg l) as Hl0. pose proof (ir_pos _ _ _ _ _ R1) as Hpos.
  assert (Hgot : forall i, 0 <= i < zlen l -> sent !! Z.to_nat (next + i - 1) = Some (put bodies slot packet l.[i]) /\ next + i + cap + 3 < 2 ^ 32).
  { intros i Hi. destruct (Hbody (next + i) l.[i]) as (?&?&?); [by destruct (B2 i Hi); [left|right]|done]. }
  assert (Hlen : next + zlen l <= zlen sent + 1).
  { destruct (decide (zlen l = 0)) as [->|]; [lia|]. destruct (Hgot (zlen l - 1) ltac:(lia)) as [HQ _]. apply lookup_lt_Some in HQ. unfold zlen in *. lia. }
  split; cbn [lk_out lk_sent lk_in lk_bodies lk_given lk_replies]; try done.
  - intros rn rg Hin. rewrite Hnext. specialize (L5 rn rg Hin). lia.
  - intros rn rg Hin. rewrite Hnext. specialize (L6 rn rg Hin). lia.
  - exists held'. rewrite Hnext, <- B1. split; [done|]. split; [done|]. split; [|intros s x Hs; apply Hbody; by apply B4].
    rewrite B1. destruct (decide (zlen l = 0)) as [->|]; [lia|]. destruct (Hgot (zlen l - 1) ltac:(lia)) as [_ ?]. lia.
  - rewrite Hnext. split; [|lia]. rewrite L8.
    replace (Z.to_nat (next + zlen l - 1)) with (Z.to_nat (next - 1) + length l)%nat by (unfold zlen; lia).
    apply take_extend. intros i x Hix. pose proof (lookup_lt_Some _ _ _ Hix).
    destruct (Hgot (Z.of_nat i) ltac:(unfold zlen; lia)) as [HQ _]. unfold arr_get in HQ. rewrite Nat2Z.id, (list_lookup_total_correct _ _ _ Hix) in HQ.
    by replace (Z.to_nat (next - 1) + i)%nat with (Z.to_nat (next + Z.of_nat i - 1)) by lia.
Qed.

(** A packet is offered. *)
Lemma offer_ok a p k Fs Fd B P log acks x flowId ws flying now packet r a' p' packet' k' sent inn bodies given replies :
  is_wire ws -> is_u32 (nextSeq a + 1) -> flow_packet packet -> 0 <= oa_flowEpoch a <= FLOW_EPOCH_MASK ->
  AdmitAssoc a p k packet flowId x ws flying now = Some (r, a', p', packet', k') ->
  link_ok (mk_link (mk_outworld a p k (with_staging (oa_mode a) x Fs) (with_sending (oa_mode a) x Fd) B P log acks) sent inn bodies given replies) ->
  link_ok (mk_link (mk_outworld a' p' k' (if kept r (oa_mode a) then with_staging (oa_mode a) x Fs else Fs)
       (if kept r (oa_mode a) then with_sending (oa_mode a) x Fd else Fd) B P
       (match r with Sent => [(nextSeq a, copy_slot a x)] | _ => [] end ++ log) acks)
     (sent ++ match r with Sent => [packet'] | _ => [] end) inn bodies given replies).
Proof using Hw Hv He.
  intros Hws H32 Hfp Hep HA HL. pose proof (lo_world _ HL) as HW.
  pose proof (admit_step w ns nd Hw a p k Fs Fd B P log acks x flowId ws flying now packet r a' p' packet' k' Hws H32 HA HW) as HW'.
  pose proof HW as [W1 W2 _]. cbn in W1, W2.
  destruct (AdmitAssoc_ok w ns nd Hw a p k packet flowId x ws flying now Fs Fd B P W1 Hws H32 W2) as (r0&a0&p0&pk0&k0&E&_&_&Em&_&_&Had).
  rewrite HA in E. simplify_eq.
  assert (Hstill : r0 <> Sent -> nextSeq a0 = nextSeq a ->
    link_ok (mk_link (mk_outworld a0 p0 k0 (if kept r0 (oa_mode a) then with_staging (oa_mode a) x Fs else Fs)
      (if kept r0 (oa_mode a) then with_sending (oa_mode a) x Fd else Fd) B P (match r0 with Sent => [(nextSeq a, copy_slot a x)] | _ => [] end ++ log) acks)
      (sent ++ match r0 with Sent => [pk0] | _ => [] end) inn bodies given replies)).
  { intros Hr En. replace (match r0 with Sent => [(nextSeq a, copy_slot a x)] | _ => [] end) with (@nil (Z * Z)) in * by by destruct r0.
    replace (match r0 with Sent => [pk0] | _ => [] end) with (@nil PacketSlot) by by destruct r0. rewrite app_nil_r.
    eapply still_ok; [exact HL|exact HW'|exact En|done|reflexivity|exact Em|by left]. }
  destruct r0; cbn [admitted] in Had.
  - destruct Had as (_&_&En&_&Ep&_). eapply (send_ok _ _ _ _ _ _ _ _ (copy_slot a x)); [exact HL|exact HW'|exact En|done|done| |exact Em].
    rewrite Ep. by apply stamped_seq; [|pose proof (so_next _ _ (oo_shape _ _ _ _ _ _ _ W1)) as [_ ?]|].
  - destruct Had as ((_&(En&_)&_)&_). by apply Hstill.
  - destruct Had as (->&_). by apply Hstill.
  - destruct Had as (->&_). by apply Hstill.
  - destruct Had as (->&_). by apply Hstill.
Qed.

Lemma link_step_ok L L' : link_step L L' -> link_ok L -> link_ok L'.
Proof using Hw Hv He.
  intros Hstep HL. pose proof (lo_world _ HL) as HW. destruct Hstep.
  - by apply (offer_ok a p k Fs Fd B P log acks x flowId ws flying now packet r a' p' packet' k').
  - pose proof (claim_step w ns nd Hw a p k Fs Fd B P log acks cand now packet b a' p' packet' H H0 H3 HW) as HW'.
    pose proof HW as [W1 W2 _]. cbn in W1, W2.
    pose proof (ClaimWaiting_ok w ns nd Hw cand a p packet now k Fs Fd B P W1 H H0 W2) as HC. rewrite H3 in HC. destruct HC as (_&Em&_&_&Hb).
    destruct b.
    + destruct Hb as (_&_&_&_&_&En&Ep&_). eapply (send_ok _ _ _ _ _ _ _ _ (copy_slot a (wc_packet cand))); [exact HL|exact HW'|exact En|done|done| |exact Em].
      rewrite Ep. by apply stamped_seq; [|pose proof (so_next _ _ (oo_shape _ _ _ _ _ _ _ W1)) as [_ ?]|].
    + destruct Hb as [-> _]. rewrite app_nil_r. eapply still_ok; [exact HL|exact HW'|done|done|reflexivity|done|by left].
  - pose proof (ack_step w ns nd Hw c a p k Fs Fd B P log acks rn rad ranges now delay a' d k' H0 HW) as HW'.
    pose proof HW as [W1 _ _]. cbn in W1.
    destruct (ApplyAck_ok w ns nd Hw a (oa_flowId a) (oa_flowEpoch a) rn rad ranges now delay no_delta k Fs Fd _ _ W1 (acct_start w Hw a (oo_shape _ _ _ _ _ _ _ W1)))
      as (a0&d0&k0&E&_&_&_&[Em En]&_). rewrite H0 in E. simplify_eq.
    eapply still_ok; [exact HL|exact HW'|exact En|done|reflexivity|exact Em|]. intros rn' rg [Hin|Hin]%elem_of_cons; [simplify_eq; by right|by left].
  - pose proof (step_ok w ns nd Hw c f _ _ H HW) as HW'. eapply still_ok; [exact HL|exact HW'|done|done|reflexivity|done|]. rewrite H1. by left.
  - by eapply arrive_ok.
  - destruct HL as [L1 Lm L2 L3 L4 L5 L6 (held&R1&R2&R3&R4) L8]. cbn in *.
    assert (Hown : al_owns (recvPool k) m (slots_of held ++ rest)).
    { eapply al_perm; [|exact H]. by rewrite (occupied_slots_of v e Hv He _ _ _ R1). }
    destruct (DropInHoldback_ok v e Hv He inn k _ held m rest R1 R2 Hown) as (a1&k1&E&R1'&_). rewrite H0 in E. simplify_eq.
    pose proof (ir_next _ _ _ _ _ R1') as En. split; cbn [lk_out lk_sent lk_in lk_bodies lk_given lk_replies]; rewrite ?En; try done.
    exists ∅. split; [done|]. split; [apply lookup_empty|]. split; [done|]. intros s x Hs. by rewrite lookup_empty in Hs.
  - destruct HL as [L1 Lm L2 L3 L4 L5 L6 L7 L8]. cbn in *. split; cbn [lk_out lk_sent lk_in lk_bodies lk_given lk_replies]; try done.
    intros rn rg [Hin|Hin]%elem_of_cons; [simplify_eq; done|by eapply L6].
Qed.

Inductive link_steps : Link -> Link -> Prop :=
  | link_none L : link_steps L L
  | link_snoc L L1 L2 : link_steps L L1 -> link_step L1 L2 -> link_steps L L2.

Lemma link_steps_ok L L' : link_steps L L' -> link_ok L -> link_ok L'.
Proof using Hw Hv He. induction 1; eauto using link_step_ok. Qed.

(** Both halves fresh, nothing in between. *)
Definition fresh_link old peerSlot addr id flowId flowEpoch wait now p k Fs Fd old' peer' addr' id' now' bodies : Link :=
  mk_link (fresh_world w old peerSlot addr id flowId mode flowEpoch wait now p k Fs Fd) []
    (fresh_in v e old' peer' addr' id' flowId mode flowEpoch now') bodies [] [].

Lemma fresh_link_ok old peerSlot addr id flowId flowEpoch wait now p k Fs Fd old' peer' addr' id' now' bodies :
  fresh_hyps w ns nd k p wait Fs Fd -> link_ok (fresh_link old peerSlot addr id flowId flowEpoch wait now p k Fs Fd old' peer' addr' id' now' bodies).
Proof using Hw Hv He.
  intros Hf. destruct (ResetInAssoc_ok v e Hv He old' peer' addr' (Some id') flowId mode flowEpoch now') as (Hr&_).
  pose proof (caps v e Hv He) as [? ?]. change (2 ^ 15) with 32768 in *.
  split; cbn [fresh_link lk_out lk_sent lk_in lk_bodies lk_given lk_replies]; try done.
  - by apply fresh_world_ok.
  - intros s Hs. change (1 <= s < 1) in Hs. lia.
  - intros rn rg Hin. by apply not_elem_of_nil in Hin.
  - intros rn rg Hin. by apply not_elem_of_nil in Hin.
  - exists ∅. split; [exact Hr|]. split; [apply lookup_empty|]. split; [change (1 + cap + 2 < 2 ^ 32); lia|].
    intros s x Hx. by rewrite lookup_empty in Hx.
Qed.

(** What an end-to-end state promises. *)
Lemma link_promise L : link_ok L -> IsOrdered mode = true ->
  let a := ow_out (lk_out L) in
  lk_given L `prefix_of` lk_sent L /\ zlen (lk_given L) = ia_recvNext (lk_in L) - 1 /\
  (forall i P, lk_sent L !! i = Some P -> FlowSeq P = Z.of_nat i + 1) /\
  forall s, zlen (lk_given L) < s <= zlen (lk_sent L) -> e_seq (InFlight a).[s mod N] = s /\ e_slot (InFlight a).[s mod N] <> INVALID.
Proof using Hw Hv He.
  intros [[Hok _ [_ _ Hcopy]] Hm L2 L3 L4 L5 _ (held&R1&_) [L8 L9]] Hord. cbv zeta.
  pose proof (ir_pos _ _ _ _ _ R1) as Hpos.
  assert (Hlen : zlen (lk_given L) = ia_recvNext (lk_in L) - 1).
  { rewrite L8. unfold zlen in *. rewrite length_take. lia. }
  split; [rewrite L8; apply prefix_take|]. split; [done|]. split; [done|].
  intros s Hs. rewrite Hlen in Hs. destruct (L3 s ltac:(lia)) as [x Hx]. rewrite <- Hm in Hord.
  destruct (Hcopy Hord s x Hx) as [(rn&rg&Hin&Hlt)|[H1 H2]]; [specialize (L5 rn rg Hin); lia|]. split; [done|].
  pose proof (oo_shape _ _ _ _ _ _ _ Hok) as Hsh. destruct (so_entry _ _ Hsh _ (place_range w Hw s)) as [_ Hl].
  destruct (Hl ltac:(rewrite H1; lia)) as (_&_&_&_&Hsl&_). intros E. apply Hsl in E. by rewrite E in Hord.
Qed.
End Link.

Section Promise.
Context {S Q T : Type} `{!Allocator S} `{!ReadyQueue Q} `{!Allocator T}.
Context (w ns nd : Z) (c : CcConfig) (f : FlowConfig) (v e n : Z) (mode : FlowMode).

(** (C1) An ordered flow delivers what was sent, in order, and loses nothing.  Both
    halves start fresh; the network between them loses, repeats, delays and reorders
    packets and acknowledgements as it likes, the receiver gives up what it holds
    whenever it likes, and both programs' other parts run in between.  In every state
    the two reach, the packets the receiver handed over are a prefix of those the
    sender stamped, in stamping order, as many as its cursor says, the i-th carrying
    sequence i; and every stamped packet that has not been handed over still has its
    ring entry and its copy at the sender, so it can be sent again. *)
Theorem ordered_flow_end_to_end (Hw : 6 <= w <= 15) (Hv : 6 <= v <= 15) (He : 0 <= e <= v) (Hord : IsOrdered mode = true)
  (old : OutAssociation) (peerSlot : Z) (addr : Address) (id : option BcpId) (flowId flowEpoch wait now : Z) (p : Peer) (k : OutPools S) (Fs Fd : list Z)
  (old' : InAssociation) (peer' : Z) (addr' : Address) (id' : BcpId) (now' : Z) (bodies : Z -> PacketSlot) (L : Link)
  (Hf : fresh_hyps w ns nd k p wait Fs Fd)
  (Hrun : link_steps (Q:=Q) (T:=T) w ns nd c f e n
     (fresh_link w v e mode old peerSlot addr id flowId flowEpoch wait now p k Fs Fd old' peer' addr' id' now' bodies) L) :
  let a := ow_out (lk_out L) in
  lk_given L `prefix_of` lk_sent L /\ zlen (lk_given L) = ia_recvNext (lk_in L) - 1 /\
  (forall i P, lk_sent L !! i = Some P -> FlowSeq P = Z.of_nat i + 1) /\
  forall s, zlen (lk_given L) < s <= zlen (lk_sent L) ->
    e_seq (InFlight a).[s mod 2 ^ w] = s /\ e_slot (InFlight a).[s mod 2 ^ w] <> INVALID.
Proof.
  apply (link_promise w ns nd v e mode Hw Hv He); [|done].
  by apply (link_steps_ok w ns nd c f v e n mode Hw Hv He _ _ Hrun), fresh_link_ok.
Qed.
End Promise.

(** ** A concrete link *)

Definition sample_link : Link :=
  fresh_link 6 6 2 RELIABLE_ORDERED sample_old 3 (mk_addr 2 7 [] 0) None 7 1 4 1000 sample_out_peer sample_out_pools [17] []
    blank_in 0 (mk_addr 2 7 [] 0) (mk_id []) 500 (fun _ => sample_packet).
Definition sample_sent : PacketSlot := sample_admitted.1.2.

(** The packet goes out, arrives in slot 5, and the receiver acknowledges it. *)
Definition sample_arrived : Z * Z * InAssociation * RecvWorld ReadyLanes SlotPool :=
  default (0, 0, blank_in, sample_world pool3) (DeliverOrdered (lk_in sample_link) (sample_world pool3) 5 (FlowSeq sample_sent) 3000).
Definition sample_link1 : Link := mk_link sample_world1 [sample_sent] (lk_in sample_link) (fun _ => sample_packet) [] [].
Definition sample_link2 : Link := mk_link sample_world1 [sample_sent] sample_arrived.1.2 (put (fun _ => sample_packet) 5 sample_sent) [sample_sent] [].

(** The receiver's lane gains the packet of slot 5. *)
Lemma sample_gain : lanes_gain (sample_world pool3) sample_arrived.2 8 (fun _ => []) 0 [5].
Proof.
  destruct (ResetInAssoc_ok 6 2 ltac:(lia) ltac:(lia) blank_in 0 (mk_addr 2 7 [] 0) (Some (mk_id [])) 7 RELIABLE_ORDERED 1 500) as (Hr&_).
  pose proof (DeliverOrdered_refines 6 2 ltac:(lia) ltac:(lia) 8 (lk_in sample_link) (sample_world pool3) (fun _ => []) 5 1 1 ∅ 3000 Hr eq_refl
    (sample_room 1 ltac:(lia)) ltac:(vm_compute; done) ltac:(vm_compute; done)) as H.
  cbn [spec_deliver] in H. destruct H as (a'&k'&E&_&_&_&Hg&_).
  assert (E' : sample_arrived.2 = k').
  { unfold sample_arrived. change (FlowSeq sample_sent) with 1. by rewrite E. }
  rewrite E'. exact Hg.
Qed.

Lemma sample_flow_packet : flow_packet sample_packet.
Proof.
  destruct sample_holds as [Hh Hok]. exists sample_layout, 7, 300, 8. split; [done|]. split; [done|]. split; [|done].
  unfold sample_packet. vm_compute. repeat constructor; discriminate.
Qed.

Lemma sample_runs :
  DeliverOrdered (lk_in sample_link) (sample_world pool3) 5 (FlowSeq sample_sent) 3000 = Some (zlen [5], INVALID, sample_arrived.1.2, sample_arrived.2).
Proof. vm_compute. reflexivity. Qed.

Lemma sample_link_steps : link_steps (Q:=ReadyLanes) (T:=SlotPool) 6 32 32 sample_config sample_flow_config 2 8 sample_link sample_link2.
Proof.
  eapply link_snoc; [eapply link_snoc; [apply link_none|]|].
  - exact (ls_admit 6 32 32 sample_config sample_flow_config 2 8 (ow_out sample_start) sample_out_peer sample_out_pools [] [] 6000 5 [] [] 17 7 1200
      true 2000 sample_packet Sent sample_a1 sample_p1 sample_admitted.1.2 sample_k1 [] (lk_in sample_link) (fun _ => sample_packet) [] []
      ltac:(lia) ltac:(vm_compute; done) sample_flow_packet ltac:(vm_compute; split; discriminate) sample_admit_runs).
  - exact (ls_arrive 6 32 32 sample_config sample_flow_config 2 8 sample_world1 [sample_sent] (lk_in sample_link) (fun _ => sample_packet) [] []
      (sample_world pool3) sample_arrived.2 (fun _ => []) sample_sent 5 3000 INVALID sample_arrived.1.2 [5]
      ltac:(left) (sample_room 1 ltac:(lia)) ltac:(vm_compute; done) ltac:(vm_compute; inversion 1) ltac:(vm_compute; done) sample_runs sample_gain).
Qed.

Lemma ordered_flow_end_to_end_witness :
  let a := ow_out (lk_out sample_link2) in
  lk_given sample_link2 `prefix_of` lk_sent sample_link2 /\ zlen (lk_given sample_link2) = ia_recvNext (lk_in sample_link2) - 1 /\
  (forall i P, lk_sent sample_link2 !! i = Some P -> FlowSeq P = Z.of_nat i + 1) /\
  forall s, zlen (lk_given sample_link2) < s <= zlen (lk_sent sample_link2) ->
    e_seq (InFlight a).[s mod 2 ^ 6] = s /\ e_slot (InFlight a).[s mod 2 ^ 6] <> INVALID.
Proof.
  exact (ordered_flow_end_to_end (Q:=ReadyLanes) (T:=SlotPool) 6 32 32 sample_config sample_flow_config 6 2 8 RELIABLE_ORDERED ltac:(lia) ltac:(lia) ltac:(lia)
    ltac:(reflexivity) sample_old 3 (mk_addr 2 7 [] 0) None 7 1 4 1000 sample_out_peer sample_out_pools [17] []
    blank_in 0 (mk_addr 2 7 [] 0) (mk_id []) 500 (fun _ => sample_packet) sample_link2 sample_fresh sample_link_steps).
Defined.
