(* ===== verification/FlowDir.v ===== *)
(** * Directories and split pools: [flux/flow/assoc_directory.cpp], [SplitAssocPool]

    A peer's directory is a short row of entries that a lookup walks; what it
    implements is a finite map from flow ids to slots with room for [width] of them.
    An association's slot comes from one of two pools behind one index space. *)

From stdpp Require Import gmap.
From S2P Require Import Prelude CommonMath Wire SlotPool.

(** ** Directories *)

Record FlowDirEntry := mk_dir { d_flowId : Z; d_reserved : Z; d_slot : Z }.
Definition no_dir : FlowDirEntry := mk_dir INVALID_FLOW_ID 0 INVALID.
#[export] Instance FlowDirEntry_inhabited : Inhabited FlowDirEntry := populate no_dir.
Implicit Types (dir : list FlowDirEntry).

Fixpoint FindFlowSlot dir (flowId : Z) : Z :=
  match dir with
  | [] => INVALID
  | e :: dir' => if d_slot e =? INVALID then FindFlowSlot dir' flowId
                 else if d_flowId e =? flowId then d_slot e else FindFlowSlot dir' flowId
  end.

(** The scan of [InsertFlowSlot] from index [i]: [None] is its early return. *)
Fixpoint insert_scan dir (i freeAt width flowId : Z) : option Z :=
  match dir with
  | [] => Some freeAt
  | e :: dir' =>
      if d_slot e =? INVALID then insert_scan dir' (i + 1) (if freeAt =? width then i else freeAt) width flowId
      else if d_flowId e =? flowId then None
      else insert_scan dir' (i + 1) freeAt width flowId
  end.

Definition InsertFlowSlot dir (flowId flowSlot : Z) : Z * list FlowDirEntry :=
  let width := zlen dir in
  match insert_scan dir 0 width width flowId with
  | None => (INVALID, dir)
  | Some freeAt => if freeAt =? width then (width, dir) else (freeAt, dir.[freeAt <- mk_dir flowId 0 flowSlot])
  end.

Fixpoint EraseFlowSlot dir (flowSlot : Z) : list FlowDirEntry :=
  match dir with
  | [] => []
  | e :: dir' => if d_slot e =? flowSlot then no_dir :: dir' else e :: EraseFlowSlot dir' flowSlot
  end.

(** ** What a directory holds *)

Definition published dir : list (Z * Z) :=
  omap (fun e => if d_slot e =? INVALID then None else Some (d_flowId e, d_slot e)) dir.
Definition dir_map dir : gmap Z Z := list_to_map (published dir).

(** No id and no slot twice. *)
Record dir_ok dir : Prop := { do_ids : NoDup (published dir).*1; do_slots : NoDup (published dir).*2 }.

Lemma published_cons e dir : published (e :: dir) = (if d_slot e =? INVALID then [] else [(d_flowId e, d_slot e)]) ++ published dir.
Proof. unfold published. cbn. by destruct (d_slot e =? INVALID). Qed.

Lemma dir_map_lookup dir id slot : NoDup (published dir).*1 -> dir_map dir !! id = Some slot <-> (id, slot) ∈ published dir.
Proof. intros H. unfold dir_map. symmetry. by apply elem_of_list_to_map. Qed.
Lemma dir_map_None dir id : dir_map dir !! id = None <-> id ∉ (published dir).*1.
Proof. unfold dir_map. symmetry. apply not_elem_of_list_to_map. Qed.

Lemma published_slot dir id slot : (id, slot) ∈ published dir -> slot <> INVALID.
Proof.
  induction dir as [|e dir IH]; [by intros ?%not_elem_of_nil|]. rewrite published_cons.
  destruct (Z.eqb_spec (d_slot e) INVALID); [by apply IH|]. cbn. intros [[= -> ->]|?]%elem_of_cons; [done|by apply IH].
Qed.

Lemma FindFlowSlot_None dir id : id ∉ (published dir).*1 -> FindFlowSlot dir id = INVALID.
Proof.
  induction dir as [|e dir IH]; [done|]. rewrite published_cons. cbn [FindFlowSlot]. destruct (Z.eqb_spec (d_slot e) INVALID); [by apply IH|].
  cbn. intros [? ?]%not_elem_of_cons. destruct (Z.eqb_spec (d_flowId e) id); [done|by apply IH].
Qed.

Lemma FindFlowSlot_Some dir id slot : NoDup (published dir).*1 -> (id, slot) ∈ published dir -> FindFlowSlot dir id = slot.
Proof.
  induction dir as [|e dir IH]; [by intros _ ?%not_elem_of_nil|]. rewrite published_cons. cbn [FindFlowSlot].
  destruct (Z.eqb_spec (d_slot e) INVALID); [by apply IH|]. cbn. intros [Hn Hd]%NoDup_cons [[= -> ->]|H]%elem_of_cons; [by rewrite Z.eqb_refl|].
  destruct (Z.eqb_spec (d_flowId e) id) as [E|]; [|by apply IH]. destruct Hn. rewrite E. by apply (list_elem_of_fmap_2 fst _ (id, slot)).
Qed.

Lemma find_refines dir id : NoDup (published dir).*1 -> FindFlowSlot dir id = default INVALID (dir_map dir !! id).
Proof.
  intros H. destruct (dir_map dir !! id) as [slot|] eqn:E; cbn.
  - apply FindFlowSlot_Some; [done|]. by apply dir_map_lookup.
  - apply FindFlowSlot_None. by apply dir_map_None.
Qed.

(** The free entries. *)
Definition free_at dir (i : Z) : Prop := 0 <= i < zlen dir /\ d_slot (dir.[i]) = INVALID.

Lemma zlen_cons {A} (x : A) l : zlen (x :: l) = zlen l + 1.
Proof. unfold zlen. cbn. lia. Qed.
Lemma get_cons_S {A} `{Inhabited A} (x : A) l i : 0 <= i -> (x :: l).[i + 1] = l.[i].
Proof. intros. unfold arr_get. by replace (Z.to_nat (i + 1)) with (Datatypes.S (Z.to_nat i)) by lia. Qed.

Lemma insert_scan_dup dir : forall i fa w id, id ∈ (published dir).*1 -> insert_scan dir i fa w id = None.
Proof.
  induction dir as [|e dir IH]; intros i fa w id; [by intros ?%not_elem_of_nil|]. rewrite published_cons. cbn [insert_scan].
  destruct (Z.eqb_spec (d_slot e) INVALID); [by apply IH|]. cbn. destruct (Z.eqb_spec (d_flowId e) id); [done|]. intros [?|?]%elem_of_cons; [done|by apply IH].
Qed.

Lemma insert_scan_fresh dir : forall i fa w id, id ∉ (published dir).*1 -> i + zlen dir <= w ->
  (fa <> w -> insert_scan dir i fa w id = Some fa) /\
  (fa = w -> (insert_scan dir i fa w id = Some w /\ length (published dir) = length dir) \/
     exists r, insert_scan dir i fa w id = Some (i + r) /\ free_at dir r).
Proof.
  induction dir as [|e dir IH]; intros i fa w id; [intros _ _; split; [done|intros ->; by left]|].
  rewrite published_cons, zlen_cons. cbn [insert_scan]. pose proof (Zle_0_nat (length dir)) as Hl. fold (zlen dir) in Hl. intros Hn Hw.
  destruct (Z.eqb_spec (d_slot e) INVALID) as [Ef|Ef].
  - cbn in Hn. destruct (Z.eqb_spec fa w) as [->|Hfa].
    + destruct (IH (i + 1) i w id Hn ltac:(lia)) as [H1 _]. split; [done|]. intros _. right. exists 0.
      rewrite H1 by lia. split; [f_equal; lia|]. split; [rewrite zlen_cons; lia|done].
    + destruct (IH (i + 1) fa w id Hn ltac:(lia)) as [H1 _]. split; [|done]. intros _. by apply H1.
  - cbn in Hn. apply not_elem_of_cons in Hn as [Hne Hn]. destruct (Z.eqb_spec (d_flowId e) id) as [E|]; [by rewrite E in Hne|].
    destruct (IH (i + 1) fa w id Hn ltac:(lia)) as [H1 H2]. split; [done|]. intros ->. destruct (H2 eq_refl) as [[E1 E2]|(r&E1&Hr&Hf)].
    + left. split; [done|]. cbn. by rewrite E2.
    + right. exists (r + 1). split; [rewrite E1; f_equal; lia|]. split; [rewrite zlen_cons; lia|]. by rewrite get_cons_S by lia.
Qed.

(** Filling a free entry publishes it and nothing else. *)
Lemma published_set dir i id slot : free_at dir i -> slot <> INVALID ->
  published dir.[i <- mk_dir id 0 slot] ≡ₚ (id, slot) :: published dir.
Proof.
  intros [Hi Hf] Hs. revert i Hi Hf. induction dir as [|e dir IH]; intros i Hi Hf; [unfold zlen in Hi; cbn in Hi; lia|].
  destruct (decide (i = 0)) as [->|].
  - change ((e :: dir).[0 <- mk_dir id 0 slot]) with (mk_dir id 0 slot :: dir). rewrite !published_cons. change ((e :: dir).[0]) with e in Hf.
    rewrite Hf, Z.eqb_refl. cbn. by destruct (Z.eqb_spec slot INVALID).
  - replace i with (i - 1 + 1) in * by lia. rewrite get_cons_S in Hf by lia. rewrite zlen_cons in Hi.
    replace ((e :: dir).[i - 1 + 1 <- mk_dir id 0 slot]) with (e :: dir.[i - 1 <- mk_dir id 0 slot]).
    2: { unfold arr_set. by replace (Z.to_nat (i - 1 + 1)) with (Datatypes.S (Z.to_nat (i - 1))) by lia. }
    rewrite !published_cons, IH by (done || lia). apply Permutation_sym, Permutation_middle.
Qed.

(** Erasing a published slot takes its one entry away; erasing another slot does
    nothing. *)
Lemma erase_hit dir id slot : (id, slot) ∈ published dir -> NoDup (published dir).*2 ->
  published dir ≡ₚ (id, slot) :: published (EraseFlowSlot dir slot).
Proof.
  intros Hin. pose proof (published_slot _ _ _ Hin) as Hs. revert Hin. induction dir as [|e dir IH]; [by intros ?%not_elem_of_nil|].
  rewrite published_cons. cbn [EraseFlowSlot]. destruct (Z.eqb_spec (d_slot e) slot) as [E|E].
  - rewrite E. destruct (Z.eqb_spec slot INVALID); [done|]. rewrite published_cons. cbn. intros [[= ->]|H]%elem_of_cons [Hn _]%NoDup_cons; [done|].
    destruct Hn. by apply (list_elem_of_fmap_2 snd _ (id, slot)).
  - rewrite published_cons. destruct (Z.eqb_spec (d_slot e) INVALID); cbn; [exact IH|].
    intros [[= _ ?]|Hin]%elem_of_cons [_ H]%NoDup_cons; [done|]. rewrite (IH Hin H) at 1. apply Permutation_swap.
Qed.
Lemma erase_miss dir slot : slot <> INVALID -> slot ∉ (published dir).*2 -> EraseFlowSlot dir slot = dir.
Proof.
  intros Hs. induction dir as [|e dir IH]; [done|]. rewrite published_cons. cbn [EraseFlowSlot]. destruct (Z.eqb_spec (d_slot e) slot) as [E|E].
  - rewrite E. destruct (Z.eqb_spec slot INVALID); [done|]. cbn. intros [? _]%not_elem_of_cons. done.
  - intros H. rewrite IH; [done|]. destruct (d_slot e =? INVALID); cbn in H; [done|]. by apply not_elem_of_cons in H as [_ ?].
Qed.
Lemma zlen_erase dir slot : zlen (EraseFlowSlot dir slot) = zlen dir.
Proof. induction dir as [|e dir IH]; [done|]. cbn. destruct (d_slot e =? slot); rewrite !zlen_cons; lia. Qed.

(** ** The map a directory implements *)

Lemma insert_dup dir id slot : id ∈ dom (dir_map dir) -> InsertFlowSlot dir id slot = (INVALID, dir).
Proof.
  intros H. unfold InsertFlowSlot. rewrite insert_scan_dup; [done|]. apply dec_stable. intros Hn. apply dir_map_None in Hn. apply elem_of_dom in H as [x Hx]. congruence.
Qed.

Lemma dir_map_size dir : NoDup (published dir).*1 -> size (dir_map dir) = length (published dir).
Proof.
  intros H. unfold dir_map. rewrite <- (length_map_to_list (list_to_map _)). apply Permutation_length. by apply map_to_list_to_map.
Qed.

Lemma published_le dir : (length (published dir) <= length dir)%nat.
Proof. induction dir as [|e dir IH]; [done|]. rewrite published_cons. destruct (d_slot e =? INVALID); cbn; lia. Qed.

Lemma published_free dir i : free_at dir i -> (length (published dir) < length dir)%nat.
Proof.
  intros [Hi Hf]. revert i Hi Hf. induction dir as [|e dir IH]; intros i Hi Hf; [unfold zlen in Hi; cbn in Hi; lia|].
  rewrite published_cons. pose proof (published_le dir). destruct (decide (i = 0)) as [->|].
  - change ((e :: dir).[0]) with e in Hf. rewrite Hf, Z.eqb_refl. cbn. lia.
  - replace i with (i - 1 + 1) in * by lia. rewrite get_cons_S in Hf by lia. rewrite zlen_cons in Hi.
    specialize (IH (i - 1) ltac:(lia) Hf). destruct (d_slot e =? INVALID); cbn; lia.
Qed.

(** A fresh id is seated while there is room, and the map gains it. *)
Lemma insert_fresh dir id slot : dir_ok dir -> zlen dir < INVALID -> id ∉ (published dir).*1 -> slot <> INVALID ->
  (Z.of_nat (size (dir_map dir)) = zlen dir /\ InsertFlowSlot dir id slot = (zlen dir, dir)) \/
  (Z.of_nat (size (dir_map dir)) < zlen dir /\ exists i dir', InsertFlowSlot dir id slot = (i, dir') /\ 0 <= i < zlen dir /\ zlen dir' = zlen dir /\
     published dir' ≡ₚ (id, slot) :: published dir).
Proof.
  intros [Hids _] Hw Hn Hs. unfold InsertFlowSlot. cbv zeta. rewrite dir_map_size by done.
  destruct (insert_scan_fresh dir 0 (zlen dir) (zlen dir) id Hn ltac:(lia)) as [_ H].
  destruct (H eq_refl) as [[-> E]|(r&->&Hr)].
  - left. split; [unfold zlen; lia|]. by rewrite Z.eqb_refl.
  - right. pose proof (published_free _ _ Hr). split; [unfold zlen; lia|]. pose proof Hr as [Hr' _]. rewrite Z.add_0_l. destruct (Z.eqb_spec r (zlen dir)); [lia|].
    exists r, dir.[r <- mk_dir id 0 slot]. split; [reflexivity|]. split; [done|]. split; [apply zlen_set|]. by apply published_set.
Qed.

Lemma dir_ok_insert dir dir' id slot : dir_ok dir -> published dir' ≡ₚ (id, slot) :: published dir ->
  id ∉ (published dir).*1 -> slot ∉ (published dir).*2 -> dir_ok dir'.
Proof. intros [H1 H2] Hp Hi Hs. split; rewrite Hp; cbn; by apply NoDup_cons. Qed.

Lemma dir_ok_erase dir id slot : (id, slot) ∈ published dir -> dir_ok dir -> dir_ok (EraseFlowSlot dir slot).
Proof. intros Hin [H1 H2]. pose proof (erase_hit _ _ _ Hin H2) as Hp. rewrite Hp in H1, H2. cbn in *. apply NoDup_cons in H1 as [_ ?], H2 as [_ ?]. done. Qed.

(** Erasing, against the map: the entry that holds the slot, or nothing. *)
Lemma erase_delete dir id slot : dir_ok dir -> dir_map dir !! id = Some slot -> dir_map (EraseFlowSlot dir slot) = delete id (dir_map dir).
Proof.
  intros Hok Hl. pose proof Hok as [Hids Hslots]. apply dir_map_lookup in Hl; [|done]. pose proof (erase_hit _ _ _ Hl Hslots) as Hp.
  assert (E : dir_map dir = <[id := slot]> (dir_map (EraseFlowSlot dir slot))).
  { unfold dir_map. rewrite (list_to_map_proper _ _ Hids Hp). done. }
  rewrite E, delete_insert_id; [done|]. apply dir_map_None. rewrite Hp in Hids. cbn in Hids. by apply NoDup_cons in Hids as [? _].
Qed.
Lemma erase_absent dir slot : dir_ok dir -> slot <> INVALID -> (forall id, dir_map dir !! id <> Some slot) -> EraseFlowSlot dir slot = dir.
Proof.
  intros [Hids _] Hs Hn. apply erase_miss; [done|]. intros ([id x]&E&Hin)%list_elem_of_fmap. cbn in E. subst x. by apply (Hn id), dir_map_lookup.
Qed.

(** (C12) A directory is a finite map with room for its width.  Looking an id up
    answers what the map holds for it; seating one that is there answers INVALID and
    changes nothing, seating one when every entry is taken answers the width, and
    otherwise the map gains exactly that entry; erasing any slot takes exactly the entry
    that holds it away, wherever it stands, and changes nothing when there is none; and
    neither an id nor a slot is ever published twice. *)
Theorem directory_refines_map dir (id slot : Z) (Hok : dir_ok dir) (Hw : zlen dir < INVALID) (Hs : slot <> INVALID) :
  FindFlowSlot dir id = default INVALID (dir_map dir !! id) /\
  (slot ∉ (published dir).*2 ->
   let '(at_, dir') := InsertFlowSlot dir id slot in
   match dir_map dir !! id with
   | Some _ => at_ = INVALID /\ dir' = dir
   | None => if Z.of_nat (size (dir_map dir)) =? zlen dir then at_ = zlen dir /\ dir' = dir
             else 0 <= at_ < zlen dir /\ dir_map dir' = <[id := slot]> (dir_map dir) /\ dir_ok dir' /\ zlen dir' = zlen dir
   end) /\
  (dir_map dir !! id = Some slot ->
   dir_map (EraseFlowSlot dir slot) = delete id (dir_map dir) /\ dir_ok (EraseFlowSlot dir slot) /\ zlen (EraseFlowSlot dir slot) = zlen dir) /\
  ((forall id', dir_map dir !! id' <> Some slot) -> EraseFlowSlot dir slot = dir).
Proof.
  pose proof Hok as [Hids Hslots]. split; [by apply find_refines|]. split; [|split; [|by apply erase_absent]].
  - intros Hfresh. destruct (dir_map dir !! id) as [x|] eqn:E.
    { rewrite insert_dup; [done|]. apply elem_of_dom. by exists x. }
    apply dir_map_None in E as Hn. destruct (insert_fresh dir id slot Hok Hw Hn Hs) as [[-> ->]|(Hlt&i&dir'&->&Hi&Hl&Hp)]; [by rewrite Z.eqb_refl|].
    destruct (Z.eqb_spec (Z.of_nat (size (dir_map dir))) (zlen dir)); [lia|]. pose proof (dir_ok_insert _ _ _ _ Hok Hp Hn Hfresh) as Hok'.
    split; [done|]. split; [|done]. unfold dir_map. by rewrite (list_to_map_proper _ _ (do_ids _ Hok') Hp).
  - intros Hl. split; [by apply erase_delete|]. split; [|apply zlen_erase]. apply (dir_ok_erase _ id); [|done]. by apply dir_map_lookup.
Qed.

Definition sample_dir : list FlowDirEntry := [mk_dir 7 0 2; no_dir; mk_dir 9 0 0; no_dir].

(** The slot erased stands behind a free entry. *)
Lemma directory_refines_map_witness :
  FindFlowSlot sample_dir 8 = INVALID /\ InsertFlowSlot sample_dir 8 5 = (1, [mk_dir 7 0 2; mk_dir 8 0 5; mk_dir 9 0 0; no_dir]) /\
  dir_map (EraseFlowSlot sample_dir 0) = delete 9 (dir_map sample_dir).
Proof.
  split; [reflexivity|]. split; [reflexivity|].
  refine (proj1 (proj1 (proj2 (proj2 (directory_refines_map sample_dir 9 0 _ _ _))) _)).
  - split; apply (bool_decide_eq_true_1 _); vm_compute; reflexivity.
  - vm_compute. reflexivity.
  - vm_compute. discriminate.
  - vm_compute. reflexivity.
Defined.

(** ** Two pools behind one index space *)

Section Split.
Context {S : Type} `{!Allocator S}.

Record SplitAssocPool := mk_split { standard : S; bulk : S; standardCount : Z; bulkCount : Z }.
#[export] Instance SplitAssocPool_eta : Eta SplitAssocPool := fun t => mk_split (standard t) (bulk t) (standardCount t) (bulkCount t).
Implicit Types t : SplitAssocPool.

(** A pool that is asked for nothing is not initialised; allocations succeed. *)
Definition Split_Init (mkPool : Z -> Z -> S) t (standardCount_ standardStride bulkCount_ bulkStride : Z) : SplitAssocPool :=
  let t := t <| standardCount := standardCount_ |> <| bulkCount := bulkCount_ |> in
  let t := if 0 <? standardCount_ then t <| standard := mkPool standardCount_ standardStride |> else t in
  if 0 <? bulkCount_ then t <| bulk := mkPool bulkCount_ bulkStride |> else t.

Definition IsBulk t (slot : Z) : bool := standardCount t <=? slot.
Definition Holds t (slot : Z) : bool := slot <? u32 (standardCount t + bulkCount t).
Definition Split_GetCapacity t : Z := u32 (standardCount t + bulkCount t).

Definition Split_Acquire (hint : Z) t (wantsBulk : bool) : option (Z * SplitAssocPool) :=
  if wantsBulk then
    if bulkCount t =? 0 then Some (INVALID, t)
    else '(raw, s) ← al_acquire hint (bulk t);
         Some (if raw =? INVALID then raw else u32 (raw + standardCount t), t <| bulk := s |>)
  else if standardCount t =? 0 then Some (INVALID, t)
  else '(raw, s) ← al_acquire hint (standard t); Some (raw, t <| standard := s |>).

Definition Split_Release t (slot : Z) : option SplitAssocPool :=
  if negb (Holds t slot) then Some t
  else if IsBulk t slot then s ← al_release (bulk t) (slot - standardCount t); Some (t <| bulk := s |>)
  else s ← al_release (standard t) slot; Some (t <| standard := s |>).

(** [split_owns t held]: [held] is what is out.  The counts are the pools' capacities. *)
Definition split_owns t (held : list Z) : Prop :=
  exists hs hb, held ≡ₚ hs ++ map (Z.add (standardCount t)) hb /\ 0 <= standardCount t /\ 0 <= bulkCount t /\ standardCount t + bulkCount t < INVALID /\
    (standardCount t = 0 /\ hs = [] \/ 0 < standardCount t /\ al_owns (standard t) (standardCount t) hs) /\
    (bulkCount t = 0 /\ hb = [] \/ 0 < bulkCount t /\ al_owns (bulk t) (bulkCount t) hb).

Definition same_counts t t' : Prop := standardCount t' = standardCount t /\ bulkCount t' = bulkCount t.

Lemma sub_pool_range (s : S) n l : n = 0 /\ l = [] \/ 0 < n /\ al_owns s n l -> NoDup l /\ Forall (fun i => 0 <= i < n) l.
Proof. intros [[-> ->]|[_ H]]; [split; constructor|]. by destruct (al_held _ _ _ H) as (_&?&?&_). Qed.

Lemma elem_of_map {A B} (f : A -> B) l y : y ∈ map f l <-> exists x, y = f x /\ x ∈ l.
Proof. split; [intros H; by apply list_elem_of_fmap in H|intros (x&->&H); by apply list_elem_of_fmap_2]. Qed.

Lemma split_held t held : split_owns t held -> NoDup held /\ Forall (fun i => 0 <= i < Split_GetCapacity t) held /\ Split_GetCapacity t < INVALID.
Proof.
  intros (hs&hb&Hp&H0&H1&Hlt&Hs&Hb). unfold Split_GetCapacity, INVALID, UINT32_MAX in *. rewrite u32_small by lia.
  destruct (sub_pool_range _ _ _ Hs) as [Ns Rs], (sub_pool_range _ _ _ Hb) as [Nb Rb]. rewrite Forall_forall in Rs, Rb. split; [|split; [|lia]].
  - rewrite Hp. apply NoDup_app. split; [done|]. split.
    + intros x Hx (y&->&Hy)%elem_of_map. specialize (Rs _ Hx). specialize (Rb _ Hy). cbn in *. lia.
    + apply NoDup_fmap_2; [|done]. intros ???. lia.
  - rewrite Hp. apply Forall_forall. intros x [Hx|(y&->&Hy)%elem_of_map]%elem_of_app; [specialize (Rs _ Hx)|specialize (Rb _ Hy)]; cbn in *; lia.
Qed.

Lemma split_perm t held held' : held ≡ₚ held' -> split_owns t held -> split_owns t held'.
Proof. intros Hp (hs&hb&Hq&H). exists hs, hb. split; [by rewrite <- Hp|done]. Qed.

(** A slot is fresh, in range, and of the kind that was asked for. *)
Lemma Split_Acquire_ok hint t held b : split_owns t held ->
  exists slot t', Split_Acquire hint t b = Some (slot, t') /\ same_counts t t' /\
    (slot = INVALID /\ split_owns t' held \/
     (slot ∉ held) /\ 0 <= slot < Split_GetCapacity t /\ IsBulk t slot = b /\ split_owns t' (slot :: held)).
Proof.
  intros H. pose proof (split_held _ _ H) as (_&_&Hcap). destruct H as (hs&hb&Hp&H0&H1&Hlt&Hs&Hb). unfold Split_Acquire, Split_GetCapacity, IsBulk, INVALID, UINT32_MAX in *.
  rewrite u32_small in * by lia. destruct (sub_pool_range _ _ _ Hs) as [_ Rs], (sub_pool_range _ _ _ Hb) as [_ Rb]. rewrite Forall_forall in Rs, Rb. destruct b.
  - destruct Hb as [[Hz ->]|[Hpos Hb]].
    + rewrite Hz, Z.eqb_refl. eexists _, _. split; [done|]. split; [done|]. left. split; [done|]. exists hs, []. auto 10.
    + destruct (Z.eqb_spec (bulkCount t) 0); [lia|]. destruct (al_acquire_ok _ _ _ hint Hb) as [(_&idx&s'&->&Hn&Hr&Ho)|(_&s'&->&Ho)]; cbn [mbind option_bind].
      * unfold INVALID, UINT32_MAX. destruct (Z.eqb_spec idx (2 ^ 32 - 1)); [lia|]. rewrite u32_small by lia. eexists _, _. split; [done|]. split; [done|]. right.
        split; [|split; [lia|split; [apply Z.leb_le; lia|]]].
        -- rewrite Hp, elem_of_app, elem_of_map. intros [Hx|(y&E&Hy)]; [specialize (Rs _ Hx); cbn in Rs; lia|]. by replace idx with y in Hn by lia.
        -- exists hs, (idx :: hb). cbn. split; [rewrite Hp; replace (idx + standardCount t) with (standardCount t + idx) by lia; apply Permutation_middle|]. auto 10.
      * unfold INVALID. rewrite Z.eqb_refl. eexists _, _. split; [done|]. split; [done|]. left. split; [done|]. exists hs, hb. auto 10.
  - destruct Hs as [[Hz ->]|[Hpos Hs]].
    + rewrite Hz, Z.eqb_refl. eexists _, _. split; [done|]. split; [done|]. left. split; [done|]. exists [], hb. auto 10.
    + destruct (Z.eqb_spec (standardCount t) 0); [lia|]. destruct (al_acquire_ok _ _ _ hint Hs) as [(_&idx&s'&->&Hn&Hr&Ho)|(_&s'&->&Ho)]; cbn [mbind option_bind].
      * eexists _, _. split; [done|]. split; [done|]. right. split; [|split; [lia|split; [apply Z.leb_gt; lia|]]].
        -- rewrite Hp, elem_of_app, elem_of_map. intros [Hx|(y&E&Hy)]; [done|]. specialize (Rb _ Hy). cbn in Rb. lia.
        -- exists (idx :: hs), hb. split; [by rewrite Hp|]. auto 10.
      * eexists _, _. split; [done|]. split; [done|]. left. split; [done|]. exists hs, hb. auto 10.
Qed.

Lemma Split_Release_ok t slot held : split_owns t (slot :: held) -> exists t', Split_Release t slot = Some t' /\ same_counts t t' /\ split_owns t' held.
Proof.
  intros H. pose proof (split_held _ _ H) as (_&Hr%Forall_cons_1&Hcap). destruct Hr as [Hr _]. destruct H as (hs&hb&Hp&H0&H1&Hlt&Hs&Hb).
  unfold Split_Release, Holds, IsBulk, Split_GetCapacity in *. destruct (Z.ltb_spec slot (u32 (standardCount t + bulkCount t))); [|lia]. cbn [negb].
  destruct (sub_pool_range _ _ _ Hs) as [_ Rs], (sub_pool_range _ _ _ Hb) as [_ Rb]. rewrite Forall_forall in Rs, Rb.
  assert (Hin : slot ∈ hs ++ map (Z.add (standardCount t)) hb) by (rewrite <- Hp; by left). apply elem_of_app in Hin as [Hx|(y&->&Hy)%elem_of_map].
  - pose proof (Rs _ Hx) as Hx'. cbn in Hx'. destruct (Z.leb_spec (standardCount t) slot); [lia|].
    destruct Hs as [[_ ->]|[Hpos Hs]]; [by apply not_elem_of_nil in Hx|]. apply elem_of_Permutation in Hx as [l Hl].
    destruct (al_release_ok _ _ l slot (al_perm _ _ _ _ Hl Hs)) as (s'&->&Ho). cbn [mbind option_bind]. eexists. split; [done|]. split; [done|].
    exists l, hb. split; [|auto 10]. apply (Permutation_cons_inv (a:=slot)). by rewrite Hp, Hl.
  - pose proof (Rb _ Hy) as Hy'. cbn in Hy'. destruct (Z.leb_spec (standardCount t) (standardCount t + y)); [|lia].
    replace (standardCount t + y - standardCount t) with y by lia. destruct Hb as [[_ ->]|[Hpos Hb]]; [by apply not_elem_of_nil in Hy|].
    apply elem_of_Permutation in Hy as [l Hl].
    destruct (al_release_ok _ _ l y (al_perm _ _ _ _ Hl Hb)) as (s'&->&Ho). cbn [mbind option_bind]. eexists. split; [done|]. split; [done|].
    exists hs, l. split; [|auto 10]. apply (Permutation_cons_inv (a:=standardCount t + y)). rewrite Hp, Hl. cbn. symmetry. apply Permutation_middle.
Qed.
End Split.
Arguments SplitAssocPool : clear implicits.
