(* ===== verification/AckWire.v ===== *)
(** * Acknowledgement bodies: [FlowTable::BuildPeerAckBody], [Socket::Flow_Ack]

    One packet carries an entry for every association of a peer that owes one.  The
    receiver writes it from its directory, the sender reads it back entry by entry and
    hands each to [ApplyAckRanges].  What is written is what is read, and what owed
    and went into the body owes no more. *)

From S2P Require Import Prelude Wire Bytes FlowData SlotPool Keys Packet InFlow InDeliver FlowDir PacketHandle PacketBuild.

Definition FLOW_ACK_RANGE_COUNT : Z := 16.

(** ** One entry *)

Record AckEntry := mk_ack { ak_flowId : Z; ak_epoch : Z; ak_recvNext : Z; ak_delay : Z; ak_ranges : list AckRange }.

Definition range_bytes (r : AckRange) : list Z := le_bytes 4 (r_first r) ++ le_bytes 4 (r_last r).
Definition entry_head (e : AckEntry) : list Z :=
  le_bytes 2 (ak_flowId e) ++ [ak_epoch e; u8 (zlen (ak_ranges e))] ++ le_bytes 4 (ak_recvNext e) ++ le_bytes 2 (ak_delay e).
Definition entry_bytes (e : AckEntry) : list Z := entry_head e ++ concat (map range_bytes (ak_ranges e)).

(** The entry an association writes now. *)
Definition ack_entry (a : InAssociation) (now : Z) : AckEntry :=
  let held := if newestArrivalMicros a =? 0 then 0 else Elapsed now (newestArrivalMicros a) in
  mk_ack (ia_flowId a) (ia_flowEpoch a) (ia_recvNext a) (if UINT16_MAX <? held then UINT16_MAX else held) (BuildAckRanges a FLOW_ACK_RANGE_COUNT).

(** ** Writing the body *)

#[export] Instance InAssociation_inhabited : Inhabited InAssociation :=
  populate (mk_in 0 (mk_addr 0 0 [] 0) (mk_id []) 0 RELIABLE_ORDERED 0 CLOSED false false 0 0 0 0 0 0 0 0 0 0 [] []).

Definition owes (a : InAssociation) : bool := bool_decide (ia_life a = OPEN) && (0 <? newSinceFlush a).

(** One association of the walk: the body and the association after it. *)
Definition build_entry (cap now : Z) (body : list Z) (a : InAssociation) : list Z * InAssociation :=
  if owes a then
    let a := a <| ackImmediate := false |> in
    let e := ack_entry a now in
    let need := WIRE_ACK_ENTRY_HEAD_SIZE + zlen (ak_ranges e) * 8 in
    if zlen body + need <=? cap then (body ++ entry_bytes e, a <| newSinceFlush := 0 |> <| ackArmedMicros := 0 |>) else (body, a)
  else (body, a).

Fixpoint build_body (dir : list FlowDirEntry) (cap now : Z) (body : list Z) (ins : list InAssociation) : list Z * list InAssociation :=
  match dir with
  | [] => (body, ins)
  | e :: dir' =>
      if d_slot e =? INVALID then build_body dir' cap now body ins
      else
        let '(body, a) := build_entry cap now body ins.[d_slot e] in
        let ins := ins.[d_slot e <- a] in
        if cap <? zlen body + WIRE_ACK_ENTRY_HEAD_SIZE + 8 then (body, ins) else build_body dir' cap now body ins
  end.

Definition BuildPeerAckBody (dir : list FlowDirEntry) (ins : list InAssociation) (cap now : Z) : list Z * list InAssociation :=
  build_body dir cap now [] ins.

(** ** Reading it *)

Definition le_at (payload : list Z) (off n : Z) : Z := le_value (region payload off n).

(** [None] is a body that ends inside its ranges. *)
Fixpoint take_ranges (n : nat) (payload : list Z) (off : Z) : option (list AckRange * Z) :=
  match n with
  | O => Some ([], off)
  | Datatypes.S n' =>
      if zlen payload <? off + 8 then None
      else '(rs, off') ← take_ranges n' payload (off + 8); Some (mk_range (le_at payload off 4) (le_at payload (off + 4) 4) :: rs, off')
  end.

(** The entries of [payload] from [off]: each is what one call of [ApplyAckRanges]
    gets.  Every entry takes at least its head, which bounds the loop. *)
Fixpoint parse_acks (fuel : nat) (payload : list Z) (off : Z) : list AckEntry :=
  match fuel with
  | O => []
  | Datatypes.S fuel' =>
      if off + WIRE_ACK_ENTRY_HEAD_SIZE <=? zlen payload then
        let flowId := le_at payload off 2 in
        let flowEpoch := Z.land payload.[off + 2] FLOW_EPOCH_MASK in
        let rangeCount := payload.[off + 3] in
        let recvNext := le_at payload (off + 4) 4 in
        let delay := le_at payload (off + 8) 2 in
        if FLOW_ACK_RANGE_COUNT <? rangeCount then []
        else match take_ranges (Z.to_nat rangeCount) payload (off + WIRE_ACK_ENTRY_HEAD_SIZE) with
             | None => []
             | Some (ranges, off) => mk_ack flowId flowEpoch recvNext delay ranges :: parse_acks fuel' payload off
             end
      else []
  end.
Definition ack_entries (payload : list Z) : list AckEntry := parse_acks (length payload) payload 0.

(** ** What is written is read *)

Definition range_ok (r : AckRange) : Prop := is_u32 (r_first r) /\ is_u32 (r_last r).
Definition entry_ok (e : AckEntry) : Prop :=
  is_u16 (ak_flowId e) /\ 0 <= ak_epoch e <= FLOW_EPOCH_MASK /\ is_u32 (ak_recvNext e) /\ is_u16 (ak_delay e) /\
  zlen (ak_ranges e) <= FLOW_ACK_RANGE_COUNT /\ Forall range_ok (ak_ranges e).

Lemma region_within {A} (l : list A) off m k n : 0 <= off -> 0 <= k -> 0 <= n -> k + n <= m -> region l (off + k) n = region (region l off m) k n.
Proof.
  intros. unfold region. rewrite skipn_firstn_comm, take_take, drop_drop. f_equal; [lia|]. f_equal. lia.
Qed.
Lemma get_within {A} `{Inhabited A} (l : list A) off m k : 0 <= off -> 0 <= k < m -> off + m <= zlen l -> l.[off + k] = (region l off m).[k].
Proof. intros. by rewrite region_lookup. Qed.

Lemma entry_head_len e : zlen (entry_head e) = WIRE_ACK_ENTRY_HEAD_SIZE.
Proof. reflexivity. Qed.
Lemma ranges_len rs : zlen (concat (map range_bytes rs)) = zlen rs * 8.
Proof. induction rs as [|r rs IH]; [done|]. cbn [map concat]. rewrite zlen_app, IH, zlen_cons. change (zlen (range_bytes r)) with 8. lia. Qed.
Lemma entry_len e : zlen (entry_bytes e) = WIRE_ACK_ENTRY_HEAD_SIZE + zlen (ak_ranges e) * 8.
Proof. unfold entry_bytes. by rewrite zlen_app, entry_head_len, ranges_len. Qed.

Lemma u32_bytes x : is_u32 x -> le_value (le_bytes 4 x) = x.
Proof. intros. rewrite le_value_bytes. by apply Z.mod_small. Qed.
Lemma u16_bytes x : is_u16 x -> le_value (le_bytes 2 x) = x.
Proof. intros. rewrite le_value_bytes. by apply Z.mod_small. Qed.

Lemma take_ranges_ok rs : forall pre post, Forall range_ok rs ->
  take_ranges (length rs) (pre ++ concat (map range_bytes rs) ++ post) (zlen pre) = Some (rs, zlen pre + zlen rs * 8).
Proof.
  induction rs as [|r rs IH]; intros pre post Hrs; [cbn [length take_ranges]; do 2 f_equal; unfold zlen; cbn; lia|].
  apply Forall_cons in Hrs as [[H1 H2] Hrs]. cbn [length take_ranges map concat]. pose proof (zlen_nonneg pre).
  set (payload := pre ++ (range_bytes r ++ concat (map range_bytes rs)) ++ post).
  assert (Hreg : region payload (zlen pre) 8 = range_bytes r) by (unfold payload; rewrite <- app_assoc; by apply region_mid).
  assert (Hlen : zlen payload = zlen pre + 8 + zlen rs * 8 + zlen post) by (unfold payload; rewrite !zlen_app, ranges_len; change (zlen (range_bytes r)) with 8; lia).
  pose proof (zlen_nonneg rs). pose proof (zlen_nonneg post). destruct (Z.ltb_spec (zlen payload) (zlen pre + 8)); [lia|].
  assert (E : payload = (pre ++ range_bytes r) ++ concat (map range_bytes rs) ++ post) by (unfold payload; by rewrite <- !app_assoc).
  assert (F1 : le_at payload (zlen pre) 4 = r_first r).
  { unfold le_at. rewrite <- (Z.add_0_r (zlen pre)), (region_within payload _ 8 0 4), Hreg by lia. change (region (range_bytes r) 0 4) with (le_bytes 4 (r_first r)). by apply u32_bytes. }
  assert (F2 : le_at payload (zlen pre + 4) 4 = r_last r).
  { unfold le_at. rewrite (region_within payload _ 8 4 4), Hreg by lia. change (region (range_bytes r) 4 4) with (le_bytes 4 (r_last r)). by apply u32_bytes. }
  rewrite F1, F2. specialize (IH (pre ++ range_bytes r) post Hrs). rewrite zlen_app in IH. change (zlen (range_bytes r)) with 8 in IH. rewrite <- E in IH.
  rewrite IH. cbn [mbind option_bind]. rewrite zlen_cons. destruct r. do 2 f_equal. lia.
Qed.

Lemma parse_one e pre post fuel : entry_ok e ->
  parse_acks (Datatypes.S fuel) (pre ++ entry_bytes e ++ post) (zlen pre) = e :: parse_acks fuel (pre ++ entry_bytes e ++ post) (zlen pre + zlen (entry_bytes e)).
Proof.
  intros (H1&H2&H3&H4&H5&H6). set (payload := pre ++ entry_bytes e ++ post). cbn [parse_acks]. pose proof (zlen_nonneg pre).
  assert (Hlen : zlen payload = zlen pre + WIRE_ACK_ENTRY_HEAD_SIZE + zlen (ak_ranges e) * 8 + zlen post) by (unfold payload; rewrite !zlen_app, entry_len; lia).
  pose proof (zlen_nonneg (ak_ranges e)). pose proof (zlen_nonneg post). unfold WIRE_ACK_ENTRY_HEAD_SIZE in *. destruct (Z.leb_spec (zlen pre + 10) (zlen payload)); [|lia].
  assert (Hreg : region payload (zlen pre) 10 = entry_head e) by (unfold payload, entry_bytes; rewrite <- app_assoc; by apply region_mid).
  assert (F1 : le_at payload (zlen pre) 2 = ak_flowId e).
  { unfold le_at. rewrite <- (Z.add_0_r (zlen pre)), (region_within payload _ 10 0 2), Hreg by lia. change (region (entry_head e) 0 2) with (le_bytes 2 (ak_flowId e)). by apply u16_bytes. }
  assert (F2 : le_at payload (zlen pre + 4) 4 = ak_recvNext e).
  { unfold le_at. rewrite (region_within payload _ 10 4 4), Hreg by lia. change (region (entry_head e) 4 4) with (le_bytes 4 (ak_recvNext e)). by apply u32_bytes. }
  assert (F3 : le_at payload (zlen pre + 8) 2 = ak_delay e).
  { unfold le_at. rewrite (region_within payload _ 10 8 2), Hreg by lia. change (region (entry_head e) 8 2) with (le_bytes 2 (ak_delay e)). by apply u16_bytes. }
  assert (F4 : payload.[zlen pre + 2] = ak_epoch e) by (rewrite (get_within payload _ 10), Hreg by lia; done).
  assert (F5 : payload.[zlen pre + 3] = zlen (ak_ranges e)).
  { rewrite (get_within payload _ 10), Hreg by lia. change ((entry_head e).[3]) with (u8 (zlen (ak_ranges e))). apply u8_small. unfold FLOW_ACK_RANGE_COUNT in H5. lia. }
  assert (F6 : Z.land (ak_epoch e) FLOW_EPOCH_MASK = ak_epoch e).
  { change FLOW_EPOCH_MASK with (2 ^ 3 - 1) in *. rewrite land_mask by lia. apply Z.mod_small. lia. }
  rewrite F1, F2, F3, F4, F5, F6. destruct (Z.ltb_spec FLOW_ACK_RANGE_COUNT (zlen (ak_ranges e))); [lia|].
  assert (E : payload = (pre ++ entry_head e) ++ concat (map range_bytes (ak_ranges e)) ++ post) by (unfold payload, entry_bytes; by rewrite <- !app_assoc).
  pose proof (take_ranges_ok (ak_ranges e) (pre ++ entry_head e) post H6) as HT. rewrite <- E, zlen_app, entry_head_len in HT. unfold WIRE_ACK_ENTRY_HEAD_SIZE in HT.
  replace (Z.to_nat (zlen (ak_ranges e))) with (length (ak_ranges e)) by (unfold zlen; lia). rewrite HT, entry_len. unfold WIRE_ACK_ENTRY_HEAD_SIZE.
  destruct e. cbn. do 2 f_equal. lia.
Qed.

Lemma parse_all es : forall pre fuel, Forall entry_ok es -> (length es < fuel)%nat ->
  parse_acks fuel (pre ++ concat (map entry_bytes es)) (zlen pre) = es.
Proof.
  induction es as [|e es IH]; intros pre fuel Hes Hf; (destruct fuel as [|fuel]; [lia|]).
  - cbn. rewrite app_nil_r. unfold WIRE_ACK_ENTRY_HEAD_SIZE. destruct (Z.leb_spec (zlen pre + 10) (zlen pre)); [lia|done].
  - apply Forall_cons in Hes as [He Hes]. cbn [map concat]. rewrite parse_one by done. f_equal.
    rewrite app_assoc, <- zlen_app. apply IH; [done|]. cbn in Hf. lia.
Qed.

Lemma entries_length es : (length es <= length (concat (map entry_bytes es)))%nat.
Proof.
  induction es as [|e es IH]; [done|]. cbn [map concat length]. rewrite length_app. pose proof (entry_len e). pose proof (zlen_nonneg (ak_ranges e)).
  unfold zlen, WIRE_ACK_ENTRY_HEAD_SIZE in *. lia.
Qed.

Lemma ack_entries_of es : Forall entry_ok es -> ack_entries (concat (map entry_bytes es)) = es.
Proof.
  intros H. unfold ack_entries. destruct es as [|e es]; [done|]. apply (parse_all (e :: es) []); [done|]. pose proof (entries_length es).
  cbn [map concat length]. rewrite length_app. pose proof (entry_len e). pose proof (zlen_nonneg (ak_ranges e)). unfold zlen, WIRE_ACK_ENTRY_HEAD_SIZE in *. lia.
Qed.

(** ** What the walk writes *)

(** An association as its owner keeps it. *)
Record reports_ok (a : InAssociation) : Prop := {
  rp_seen : exists w got, 6 <= w <= 15 /\ seen_ok w a got;
  rp_id : is_u16 (ia_flowId a); rp_epoch : 0 <= ia_flowEpoch a <= FLOW_EPOCH_MASK; rp_next : is_u32 (ia_recvNext a);
  rp_high : recvHighest a < 2 ^ 32 }.

Lemma descending_in s rs r : descending s rs -> r ∈ rs -> r_first r <= r_last r <= s.
Proof.
  revert s. induction rs as [|x rs IH]; intros s Hd Hr; [by apply not_elem_of_nil in Hr|]. destruct Hd as [Hx Hd].
  apply elem_of_cons in Hr as [->|Hr]; [lia|]. specialize (IH _ Hd Hr). lia.
Qed.

Lemma ack_entry_ok a now : reports_ok a -> entry_ok (ack_entry a now).
Proof.
  intros [(w&got&Hw&Hs) Hid Hep Hnx Hhi]. destruct (BuildAckRanges_ok w Hw a got FLOW_ACK_RANGE_COUNT Hs ltac:(done)) as (Hl&Hd&Ht&_).
  unfold entry_ok, ack_entry. cbn. split; [done|]. split; [done|]. split; [done|]. split; [|split; [done|]].
  - unfold Elapsed, UINT16_MAX. repeat case_match; bprop; lia.
  - apply Forall_forall. intros r Hr. pose proof (descending_in _ _ _ Hd Hr) as [H1 H2].
    assert (Hg : got (r_first r) = true).
    { apply Ht. unfold SeqInRanges. apply existsb_exists. exists r. split; [by apply list_elem_of_In|]. apply andb_true_iff. split; apply Z.leb_le; lia. }
    assert (1 <= r_first r) by (destruct (Z.leb_spec 1 (r_first r)); [done|]; rewrite (so_low _ _ _ Hs) in Hg by lia; done).
    split; lia.
Qed.

Lemma ack_entry_immediate a now b : ack_entry (a <| ackImmediate := b |>) now = ack_entry a now.
Proof. done. Qed.

(** The same association, having answered. *)
Definition answered (a : InAssociation) : InAssociation := a <| ackImmediate := false |> <| newSinceFlush := 0 |> <| ackArmedMicros := 0 |>.

Lemma answered_owes a : owes (answered a) = false.
Proof. unfold owes. apply andb_false_r. Qed.

Definition entry_max : Z := WIRE_ACK_ENTRY_HEAD_SIZE + 8 * FLOW_ACK_RANGE_COUNT.

Record built (dir : list FlowDirEntry) (cap now : Z) (body : list Z) ins (body' : list Z) ins' (sent : list Z) : Prop := {
  bu_sub : sent `sublist_of` (published dir).*2;
  bu_body : body' = body ++ concat (map (fun s => entry_bytes (ack_entry ins.[s] now)) sent);
  bu_cap : zlen body' <= cap;
  bu_sent : forall s, s ∈ sent -> owes ins.[s] = true /\ ins'.[s] = answered ins.[s];
  bu_kept : forall s, 0 <= s -> s ∉ sent -> ins'.[s] = ins.[s] \/ owes ins.[s] = true /\ ins'.[s] = ins.[s] <| ackImmediate := false |>;
  bu_full : forall s, s ∈ (published dir).*2 -> owes ins.[s] = true -> s ∉ sent -> cap < zlen body' + entry_max;
  bu_len : zlen ins' = zlen ins }.

Lemma built_nothing dir cap now body ins : zlen body <= cap ->
  (published dir = [] \/ cap < zlen body + entry_max) -> built dir cap now body ins body ins [].
Proof.
  intros Hc Hd. split; try done.
  - apply sublist_nil_l.
  - cbn. by rewrite app_nil_r.
  - by intros s ?%not_elem_of_nil.
  - by left.
  - intros s Hs _ _. destruct Hd as [Hd|?]; [rewrite Hd in Hs; by apply not_elem_of_nil in Hs|done].
Qed.

(** The walk's next entry, then the rest. *)
Lemma built_step e dir cap now body ins body1 ins1 body' ins' sent1 sent :
  d_slot e <> INVALID -> d_slot e ∉ (published dir).*2 -> 0 <= d_slot e < zlen ins -> Forall (fun s => 0 <= s < zlen ins) (published dir).*2 ->
  (sent1 = [d_slot e] /\ owes ins.[d_slot e] = true /\ body1 = body ++ entry_bytes (ack_entry ins.[d_slot e] now) /\ ins1 = ins.[d_slot e <- answered ins.[d_slot e]] \/
   sent1 = [] /\ body1 = body /\ (owes ins.[d_slot e] = true -> cap < zlen body + entry_max) /\
     exists a, ins1 = ins.[d_slot e <- a] /\ (a = ins.[d_slot e] \/ owes ins.[d_slot e] = true /\ a = ins.[d_slot e] <| ackImmediate := false |>)) ->
  built dir cap now body1 ins1 body' ins' sent -> built (e :: dir) cap now body ins body' ins' (sent1 ++ sent).
Proof.
  intros He Hne Hr Hall Hone [B1 B2 B3 B4 B5 B6 B7]. set (x := d_slot e) in *.
  assert (Hpub : (published (e :: dir)).*2 = x :: (published dir).*2) by (rewrite published_cons; destruct (Z.eqb_spec (d_slot e) INVALID); done).
  rewrite Forall_forall in Hall.
  assert (Hin : forall s, s ∈ sent -> s <> x /\ 0 <= s < zlen ins).
  { intros s Hs. pose proof (elem_of_sublist _ _ _ Hs B1) as Hsp. split; [intros ->; done|by apply Hall]. }
  assert (Hx : x ∉ sent) by (intros Hx; by destruct (Hin _ Hx)).
  assert (Hsame : forall s, 0 <= s -> s <> x -> ins1.[s] = ins.[s]).
  { intros s Hs Hsx. destruct Hone as [(_&_&_&->)|(_&_&_&a&->&_)]; apply arr_get_set_ne; lia. }
  assert (Hgrow : zlen body <= zlen body').
  { rewrite B2, zlen_app. destruct Hone as [(_&_&->&_)|(_&->&_)]; rewrite ?zlen_app; pose proof (zlen_nonneg (concat (map (fun s => entry_bytes (ack_entry ins1.[s] now)) sent)));
      try pose proof (zlen_nonneg (entry_bytes (ack_entry ins.[x] now))); lia. }
  split.
  - rewrite Hpub. destruct Hone as [(->&_)|(->&_)]; cbn; [by apply sublist_skip|by apply sublist_cons].
  - rewrite B2. assert (Em : map (fun s => entry_bytes (ack_entry ins1.[s] now)) sent = map (fun s => entry_bytes (ack_entry ins.[s] now)) sent).
    { apply map_ext_in. intros s Hs%list_elem_of_In. destruct (Hin _ Hs). by rewrite Hsame by lia. }
    rewrite Em. destruct Hone as [(->&_&->&_)|(->&->&_)]; cbn; [by rewrite <- app_assoc|done].
  - done.
  - intros s [Hs|Hs]%elem_of_app.
    + destruct Hone as [(->&Ho&_&->)|(->&_)]; [|by apply not_elem_of_nil in Hs]. apply list_elem_of_singleton in Hs as ->. split; [done|].
      destruct (B5 x ltac:(lia) Hx) as [->|[Ho' _]]; rewrite arr_get_set_eq in * by lia; [done|]. by rewrite answered_owes in Ho'.
    + destruct (Hin _ Hs). rewrite <- Hsame by lia. by apply B4.
  - intros s Hs [Hn1 Hn]%not_elem_of_app. destruct (decide (s = x)) as [->|Hsx]; [|rewrite <- Hsame by done; by apply B5].
    destruct Hone as [(->&_)|(->&_&_&a&->&Ha)]; [by destruct Hn1; left|].
    destruct (B5 x ltac:(lia) Hn) as [->|[Ho' ->]]; rewrite arr_get_set_eq in * by lia; destruct Ha as [->|[Ho ->]]; auto.
  - rewrite Hpub. intros s [->|Hs]%elem_of_cons Ho [Hn1 Hn]%not_elem_of_app.
    + destruct Hone as [(->&_)|(_&_&Hfull&_)]; [by destruct Hn1; left|]. specialize (Hfull Ho). lia.
    + apply (B6 s); [done| |done]. rewrite Hsame; [done|specialize (Hall _ Hs); cbn in Hall; lia|by intros ->].
  - rewrite B7. destruct Hone as [(_&_&_&->)|(_&_&_&a&->&_)]; by rewrite zlen_set.
Qed.

Lemma build_body_ok dir : forall cap now body ins,
  NoDup (published dir).*2 -> Forall (fun s => 0 <= s < zlen ins) (published dir).*2 ->
  (forall s, s ∈ (published dir).*2 -> reports_ok ins.[s]) -> zlen body <= cap ->
  exists sent, built dir cap now body ins (build_body dir cap now body ins).1 (build_body dir cap now body ins).2 sent.
Proof.
  induction dir as [|e dir IH]; intros cap now body ins Hnd Hall Hok Hc; [exists []; apply built_nothing; [done|by left]|].
  cbn [build_body]. rewrite published_cons in *. destruct (Z.eqb_spec (d_slot e) INVALID) as [|He].
  { destruct (IH cap now body ins Hnd Hall Hok Hc) as [sent [B1 B2 B3 B4 B5 B6 B7]]. exists sent.
    assert (Hp : published (e :: dir) = published dir) by (rewrite published_cons; destruct (Z.eqb_spec (d_slot e) INVALID); done).
    split; rewrite ?Hp; done. }
  cbn in Hnd, Hall, Hok. apply NoDup_cons in Hnd as [Hne Hnd]. apply Forall_cons in Hall as [Hr Hall].
  set (x := d_slot e) in *. destruct (build_entry cap now body ins.[x]) as [body1 a1] eqn:Eb.
  assert (Hone : exists sent1, zlen body1 <= cap /\
    (sent1 = [x] /\ owes ins.[x] = true /\ body1 = body ++ entry_bytes (ack_entry ins.[x] now) /\ ins.[x <- a1] = ins.[x <- answered ins.[x]] \/
     sent1 = [] /\ body1 = body /\ (owes ins.[x] = true -> cap < zlen body + entry_max) /\
     exists a, ins.[x <- a1] = ins.[x <- a] /\ (a = ins.[x] \/ owes ins.[x] = true /\ a = ins.[x] <| ackImmediate := false |>))).
  { unfold build_entry in Eb. destruct (owes ins.[x]) eqn:Eo; [|simplify_eq; exists []; split; [done|]; right; split; [done|]; split; [done|]; split; [done|]; eauto].
    cbv zeta in Eb. rewrite ack_entry_immediate in Eb. pose proof (ack_entry_ok _ now (Hok x ltac:(left))) as (_&_&_&_&Hcnt&_).
    destruct (Z.leb_spec (zlen body + (WIRE_ACK_ENTRY_HEAD_SIZE + zlen (ak_ranges (ack_entry ins.[x] now)) * 8)) cap); simplify_eq.
    - exists [x]. split; [rewrite zlen_app, entry_len; lia|]. by left.
    - exists []. split; [done|]. right. split; [done|]. split; [done|]. split; [unfold entry_max; lia|]. eauto. }
  destruct Hone as (sent1&Hc1&Hone).
  assert (Hrest : forall body' ins' sent, built dir cap now body1 ins.[x <- a1] body' ins' sent -> built (e :: dir) cap now body ins body' ins' (sent1 ++ sent)).
  { intros body' ins' sent. by apply built_step. }
  destruct (Z.ltb_spec cap (zlen body1 + WIRE_ACK_ENTRY_HEAD_SIZE + 8)) as [Hfull|].
  - exists (sent1 ++ []). apply Hrest, built_nothing; [done|]. right. cbn [fst]. unfold entry_max, FLOW_ACK_RANGE_COUNT. lia.
  - destruct (IH cap now body1 (ins.[x <- a1]) Hnd) as [sent Hsent]; [by rewrite zlen_set| |done|exists (sent1 ++ sent); by apply Hrest].
    intros s Hs. assert (s <> x) by (by intros ->). rewrite Forall_forall in Hall. specialize (Hall _ Hs). cbn in Hall.
    rewrite arr_get_set_ne by lia. apply Hok. by right.
Qed.

(** (C3) Acknowledgements survive the wire.  Of the associations a peer's directory
    lists, those that owe an acknowledgement and fit are written into one body of at
    most [cap] bytes; reading that body back answers, in order, exactly one entry for
    each with its flow, its generation, its cursor, its hold time and its ranges.
    Those owe nothing more; the others keep what they owe, and one is left out only
    when the body had no room for an entry of the largest size. *)
Theorem ack_body_roundtrip (dir : list FlowDirEntry) (ins : list InAssociation) (cap now : Z)
  (Hdir : dir_ok dir) (Hslots : Forall (fun s => 0 <= s < zlen ins) (published dir).*2)
  (Hok : forall s, s ∈ (published dir).*2 -> reports_ok ins.[s]) (Hcap : 0 <= cap) :
  let '(body, ins') := BuildPeerAckBody dir ins cap now in
  zlen body <= cap /\
  exists sent, NoDup sent /\ (forall s, s ∈ sent -> s ∈ (published dir).*2 /\ owes ins.[s] = true) /\
    ack_entries body = map (fun s => ack_entry ins.[s] now) sent /\
    (forall s, s ∈ sent -> newSinceFlush ins'.[s] = 0 /\ owes ins'.[s] = false) /\
    (forall s, 0 <= s -> s ∉ sent -> newSinceFlush ins'.[s] = newSinceFlush ins.[s]) /\
    (forall s, s ∈ (published dir).*2 -> owes ins.[s] = true -> s ∉ sent -> cap < zlen body + entry_max).
Proof.
  unfold BuildPeerAckBody. destruct (build_body_ok dir cap now [] ins (do_slots _ Hdir) Hslots Hok Hcap) as [sent [B1 B2 B3 B4 B5 B6 B7]].
  destruct (build_body dir cap now [] ins) as [body ins']. cbn [fst snd] in *. split; [done|]. exists sent.
  split; [by apply (sublist_NoDup _ _ (do_slots _ Hdir))|]. split; [|split; [|split; [|split; [|done]]]].
  - intros s Hs. split; [by apply (elem_of_sublist _ _ _ Hs B1)|by apply B4].
  - rewrite B2. change ([] ++ ?x) with x. rewrite <- (map_map (fun s => ack_entry ins.[s] now) entry_bytes). apply ack_entries_of.
    apply Forall_forall. intros e He. apply elem_of_map in He as (s&->&Hs). apply ack_entry_ok, Hok. by apply (elem_of_sublist _ _ _ Hs B1).
  - intros s Hs. destruct (B4 s Hs) as [_ ->]. split; [done|apply answered_owes].
  - intros s Hs Hn. by destruct (B5 s Hs Hn) as [->|[_ ->]].
Qed.

(** ** Sending it *)

(** [SendSecureControl] up to the seal: [None] is its early return, and the answer of
    the two single byte puts is ignored. *)
Definition control_writer (w : PacketSlotWriter) (to : Address) (channel : Z) (payload : list Z) : option PacketSlotWriter :=
  let w := WriteAddress w to in
  let w := default w (Writer_PutU8 w CTRL_TAGGED) in
  w ← ReserveSecureHeader w true;
  let w := default w (Writer_PutU8 w channel) in
  Writer_PutBytes w payload.

Definition control_overhead : Z := WIRE_CONTROLLER_SIZE + WIRE_NONCE_SIZE + WIRE_PEER_TAG_SIZE + WIRE_SECURE_CHANNEL_SIZE + WIRE_TAG_SIZE.

Lemma wrote_address room w0 a : fresh_writer room w0 -> fresh_writer room (WriteAddress w0 a).
Proof. intros [? ? ? ? ? ? ?]. by split. Qed.

(** A control packet is written exactly when its payload fits beside what secures it. *)
Lemma control_writer_fits room w0 to channel payload : fresh_writer room w0 -> control_overhead <= room ->
  is_some (control_writer w0 to channel payload) = (zlen payload + control_overhead <=? room).
Proof.
  intros Hf Hroom. pose proof (wrote_address room w0 to Hf) as Hf1. unfold control_overhead, WIRE_CONTROLLER_SIZE, WIRE_NONCE_SIZE, WIRE_PEER_TAG_SIZE, WIRE_SECURE_CHANNEL_SIZE, WIRE_TAG_SIZE in *.
  unfold control_writer. set (w := WriteAddress w0 to) in *. pose proof (wrote_nil room w Hf1) as Hw.
  pose proof (wrote_put room w Hf1 w [] 0 (FU8 CTRL_TAGGED) Hw) as H1. change (zlen [] + zlen (field_wire (FU8 CTRL_TAGGED)) + 0) with 1 in H1.
  destruct (Z.leb_spec 1 room); [|lia]. destruct H1 as (w1&E1&Hw1). unfold Writer_PutU8. rewrite E1. change (default w (Some w1)) with w1.
  pose proof (wrote_reserve room w Hf1 w1 _ true Hw1) as H2. cbn [app] in H2. change (zlen (field_wire (FU8 CTRL_TAGGED)) + reserve_size true + WIRE_TAG_SIZE) with 29 in H2.
  destruct (Z.leb_spec 29 room); [|lia]. destruct H2 as (w2&E2&Hw2). rewrite E2. cbn [mbind option_bind].
  pose proof (wrote_put room w Hf1 w2 _ _ (FU8 channel) Hw2) as H3. rewrite zlen_app in H3.
  change (zlen (field_wire (FU8 CTRL_TAGGED)) + zlen (replicate (Z.to_nat (reserve_size true)) 0) + zlen (field_wire (FU8 channel)) + WIRE_TAG_SIZE) with 30 in H3.
  destruct (Z.leb_spec 30 room); [|lia]. destruct H3 as (w3&E3&Hw3). rewrite E3. change (default w2 (Some w3)) with w3. unfold Writer_PutBytes.
  pose proof (wrote_put room w Hf1 w3 _ _ (FBytes payload) Hw3) as H4. rewrite !zlen_app in H4. change (field_wire (FBytes payload)) with payload in H4.
  change (zlen (field_wire (FU8 CTRL_TAGGED)) + zlen (replicate (Z.to_nat (reserve_size true)) 0) + zlen (field_wire (FU8 channel)) + zlen payload + WIRE_TAG_SIZE) with (14 + zlen payload + 16) in H4.
  destruct (Z.leb_spec (14 + zlen payload + 16) room), (Z.leb_spec (zlen payload + (1 + 8 + 4 + 1 + 16)) room); try lia.
  - destruct H4 as (w4&->&_). done.
  - by rewrite H4.
Qed.

(** ** Twelve flows that each miss every other packet *)

Definition every_other : list Z := [fold_left Z.add (map (fun k => 2 ^ (2 * Z.of_nat k)) (seq 1 11)) 0; 0; 0; 0].
Definition gappy (id : Z) : InAssociation :=
  mk_in 0 (mk_addr 2 7 [] 0) (mk_id []) id RELIABLE_UNORDERED 1 OPEN false false 1 1 22 11 0 100 200 256 0 0 every_other [].
Definition gappy_ins : list InAssociation := map (fun i => gappy (Z.of_nat i)) (seq 0 12).
Definition gappy_dir : list FlowDirEntry := map (fun i => mk_dir (Z.of_nat i) 0 (Z.of_nat i)) (seq 0 12).

Definition got_even (s : Z) : bool := (0 <? s) && (s <=? 22) && Z.even s.
Lemma gappy_ok id : is_u16 id -> reports_ok (gappy id).
Proof.
  intros Hid. split; [|exact Hid|split; vm_compute; discriminate|split; vm_compute; [discriminate|reflexivity]|vm_compute; reflexivity].
  exists 8, got_even. split; [lia|]. split; try reflexivity; try (vm_compute; discriminate).
  - intros s Hs. assert (H : forallb (fun i => Bool.eqb (SeenTest every_other (Z.of_nat i - 233) 256) (got_even (Z.of_nat i - 233))) (seq 0 256) = true) by (vm_compute; reflexivity).
    rewrite forallb_forall in H. specialize (H (Z.to_nat (s + 233))). cbn [recvHighest gappy] in Hs. change (2 ^ 8) with 256 in *.
    apply eqb_prop. specialize (H ltac:(apply in_seq; lia)). replace (Z.of_nat (Z.to_nat (s + 233)) - 233) with s in H by lia. exact H.
  - intros s Hs. unfold got_even. destruct (Z.ltb_spec 0 s); [lia|done].
  - intros s Hs. unfold got_even. cbn [recvHighest gappy] in Hs. destruct (Z.leb_spec s 22); [lia|]. by rewrite andb_false_r.
Qed.

Lemma gappy_published : (published gappy_dir).*2 = map Z.of_nat (seq 0 12).
Proof. reflexivity. Qed.

Lemma gappy_all s : s ∈ (published gappy_dir).*2 -> reports_ok gappy_ins.[s].
Proof.
  rewrite gappy_published. intros (i&->&Hi)%elem_of_map. apply elem_of_seq in Hi.
  assert (E : gappy_ins.[Z.of_nat i] = gappy (Z.of_nat i)).
  { unfold arr_get, gappy_ins. rewrite Nat2Z.id, list_lookup_total_alt, list_lookup_fmap, lookup_seq_lt by lia. done. }
  rewrite E. apply gappy_ok. lia.
Qed.

Lemma ack_body_roundtrip_witness :
  let '(body, ins') := BuildPeerAckBody gappy_dir gappy_ins 300 1000 in
  zlen body = 294 /\ map ak_flowId (ack_entries body) = [0; 1; 2] /\ zlen body <= 300 /\
  exists sent, NoDup sent /\ (forall s, s ∈ sent -> s ∈ (published gappy_dir).*2 /\ owes gappy_ins.[s] = true) /\
    ack_entries body = map (fun s => ack_entry gappy_ins.[s] 1000) sent /\
    (forall s, s ∈ sent -> newSinceFlush ins'.[s] = 0 /\ owes ins'.[s] = false) /\
    (forall s, 0 <= s -> s ∉ sent -> newSinceFlush ins'.[s] = newSinceFlush gappy_ins.[s]) /\
    (forall s, s ∈ (published gappy_dir).*2 -> owes gappy_ins.[s] = true -> s ∉ sent -> 300 < zlen body + entry_max).
Proof.
  pose proof (ack_body_roundtrip gappy_dir gappy_ins 300 1000 ltac:(split; apply (bool_decide_eq_true_1 _); vm_compute; reflexivity)
    ltac:(vm_compute; repeat constructor; discriminate) gappy_all ltac:(lia)) as H.
  assert (V : bool_decide (zlen (BuildPeerAckBody gappy_dir gappy_ins 300 1000).1 = 294) &&
    bool_decide (map ak_flowId (ack_entries (BuildPeerAckBody gappy_dir gappy_ins 300 1000).1) = [0; 1; 2]) = true) by (vm_compute; reflexivity).
  destruct (BuildPeerAckBody gappy_dir gappy_ins 300 1000) as [body ins']. apply andb_true_iff in V as [V1 V2].
  split; [exact (bool_decide_eq_true_1 _ V1)|]. split; [exact (bool_decide_eq_true_1 _ V2)|]. exact H.
Defined.

(** The body is built for a whole packet and sent beside what secures one: twelve
    flows fill 1176 bytes, no control packet holds them, and what they owed is
    cleared. *)
Lemma long_ack_body_lost w0 to channel : fresh_writer MAX_WIRE_PACKET_SIZE w0 ->
  let '(body, ins') := BuildPeerAckBody gappy_dir gappy_ins MAX_WIRE_PACKET_SIZE 1000 in
  zlen body = 1176 /\ forallb (fun a => owes a) gappy_ins = true /\ existsb (fun a => owes a) ins' = false /\ control_writer w0 to channel body = None.
Proof.
  intros Hf. destruct (BuildPeerAckBody gappy_dir gappy_ins MAX_WIRE_PACKET_SIZE 1000) as [body ins'] eqn:E.
  assert (H : (zlen body =? 1176) && forallb owes gappy_ins && negb (existsb owes ins') = true).
  { replace body with (BuildPeerAckBody gappy_dir gappy_ins MAX_WIRE_PACKET_SIZE 1000).1 by (by rewrite E).
    replace ins' with (BuildPeerAckBody gappy_dir gappy_ins MAX_WIRE_PACKET_SIZE 1000).2 by (by rewrite E). vm_compute. reflexivity. }
  bprop. split; [done|]. split; [done|]. split; [done|].
  pose proof (control_writer_fits _ w0 to channel body Hf ltac:(done)) as Hw. unfold control_overhead in Hw.
  destruct (control_writer w0 to channel body); [|done]. cbn in Hw. symmetry in Hw. apply Z.leb_le in Hw.
  unfold WIRE_CONTROLLER_SIZE, WIRE_NONCE_SIZE, WIRE_PEER_TAG_SIZE, WIRE_SECURE_CHANNEL_SIZE, WIRE_TAG_SIZE, MAX_WIRE_PACKET_SIZE in Hw. lia.
Qed.
