(* ===== verification/FlowBatch.v ===== *)
(** * The open batch of a sending association: [flux/flow/flow_batching.cpp]

    A send appends its message to the batch its association is filling; a flush copies
    the batch out, and what came of the send decides whether it is spent.  The byte
    layout is [Batch]'s; here are the cursor fields of the association, the framing the
    batch takes from its first packet, and what a message meets on its way.

    Proved: whatever appends, takes and finishes happen to one association, and
    however its sends end, the messages it accepted are the messages of the packets
    that left followed by those still in the batch, in order, none twice; and what a
    packet carries reads back as its messages. *)

From S2P Require Import Prelude Wire Errors Bytes Batch SlotPool FlowData Keys Packet PacketHandle PacketBuild OutFlow.

Implicit Types (a : OutAssociation) (packet : PacketSlot).

(** ** Operations, at an association *)

Inductive BatchAdmit := BatchAppended | BatchSealed | BatchRejected.
#[export] Instance BatchAdmit_eq_dec : EqDecision BatchAdmit.
Proof. solve_decision. Defined.

(** The bytes of the batch, opened from a whole packet. *)
Definition open_batch a packet (header content limit : Z) : BatchAdmit * OutAssociation :=
  if limit <? header + content then (BatchRejected, a)
  else (BatchAppended, a <| OpenBatch := blit (OpenBatch a) 0 (region (pk_data packet) 0 (header + content)) |>
                    <| openBatchHeader := u16 header |> <| openBatchUsed := u16 (header + content) |>
                    <| openBatchCount := 1 |> <| openBatchFirstLen := u16 content |>).

Definition batch_cursor a (limit : Z) : BatchCursor :=
  {| bc_content := Some (from (OpenBatch a) (openBatchHeader a)); bc_used := u16 (openBatchUsed a - openBatchHeader a);
     bc_count := openBatchCount a; bc_firstLen := openBatchFirstLen a; bc_capacity := u16 (limit - openBatchHeader a) |}.

(** A message that joins the batch; [BatchSealed] leaves the batch as it is. *)
Definition join_batch a packet (header content limit : Z) : BatchAdmit * OutAssociation :=
  match BatchAppend (batch_cursor a limit) (Some (from (pk_data packet) header)) (u16 content) with
  | None => (BatchSealed, a)
  | Some cursor =>
      let buffer := take (Z.to_nat (openBatchHeader a)) (OpenBatch a) ++ default [] (bc_content cursor) in
      (BatchAppended, a <| OpenBatch := buffer.[0 <- u8 (Z.lor buffer.[0] WIRE_CTRL_BATCH)] |>
                   <| openBatchUsed := u16 (openBatchHeader a + bc_used cursor) |> <| openBatchCount := bc_count cursor |>)
  end.

Definition AppendToBatch a packet (limit : Z) : BatchAdmit * OutAssociation :=
  let header := ContentOffset packet in
  if dataSize packet <? header then (BatchRejected, a)
  else
    let content := dataSize packet - header in
    if (content =? 0) || (UINT16_MAX <? content) then (BatchRejected, a)
    else
      let limit := if MAX_WIRE_PACKET_SIZE <? limit then MAX_WIRE_PACKET_SIZE else limit in
      let trailer := if IsSecure packet then WIRE_TAG_SIZE else 0 in
      if limit <=? trailer then (BatchRejected, a)
      else
        let limit := u16 (limit - trailer) in
        if openBatchInFlight a then (BatchRejected, a)
        else if openBatchUsed a =? 0 then open_batch a packet header content limit
        else join_batch a packet header content limit.

(** The bytes copied out, none when there is nothing to take, and the mode. *)
Definition TakeBatch a (capacity : Z) : list Z * FlowMode * OutAssociation :=
  if negb (openBatchUsed a =? 0) && (openBatchUsed a <=? capacity) && negb (openBatchInFlight a)
  then (region (OpenBatch a) 0 (openBatchUsed a), oa_mode a, a <| openBatchInFlight := true |>)
  else ([], oa_mode a, a).

Definition FinishBatch a (expectedUsed : Z) (sent : bool) : OutAssociation :=
  let a := if sent && (openBatchUsed a =? expectedUsed)
           then a <| openBatchUsed := 0 |> <| openBatchHeader := 0 |> <| openBatchCount := 0 |> <| openBatchFirstLen := 0 |>
           else a in
  a <| openBatchInFlight := false |>.

Definition PeekBatch a : bool * FlowMode := (negb (openBatchUsed a =? 0), oa_mode a).

(** ** The staging pool's writer *)

Definition AcquireStagingWriter (header : Z) (mem : list PacketSlot) (staging_name hint : Z) (stagingPool : SlotPool)
  : option ((Error + PacketSlotWriter) * SlotPool) :=
  '(slot, sp) ← Acquire hint stagingPool;
  if slot =? INVALID then Some (inl PoolExhausted, sp)
  else '(w, sp) ← Writer_of header mem (Handle_of slot (Some staging_name)) sp; Some (inr w, sp).

Definition IsRetainedBody (staging_name : Z) (handle : PacketSlotHandle) : bool := bool_decide (GetPool handle = Some staging_name).

(** ** Specification *)

(** The packet a batch of messages is: the framing of its first packet, marked as a
    batch when it carries more than one, and the messages. *)
Definition batch_mark (hdr : list Z) : list Z := hdr.[0 <- u8 (Z.lor hdr.[0] WIRE_CTRL_BATCH)].
Definition batch_head (hdr : list Z) (ms : list (list Z)) : list Z := if 1 <? zlen ms then batch_mark hdr else hdr.
Definition batch_packet (hdr : list Z) (ms : list (list Z)) : list Z := batch_head hdr ms ++ batch_bytes ms.

(** The most a batch of secured packets may hold. *)
Definition batch_limit : Z := MAX_WIRE_PACKET_SIZE - WIRE_TAG_SIZE.

Record batch_ok a (hdr : list Z) (ms : list (list Z)) : Prop := {
  bo_room : zlen (OpenBatch a) = MAX_WIRE_PACKET_SIZE;
  bo_bytes : Forall is_byte (OpenBatch a);
  bo_msgs : Forall message_ok ms;
  bo_used : openBatchUsed a = if decide (ms = []) then 0 else zlen hdr + zlen (batch_bytes ms);
  bo_open : ms <> [] -> 0 < zlen hdr /\ Forall is_byte hdr /\ openBatchUsed a <= batch_limit /\ openBatchHeader a = zlen hdr /\
      openBatchCount a = zlen ms /\ (forall m ms', ms = m :: ms' -> openBatchFirstLen a = zlen m) /\
      region (OpenBatch a) 0 (openBatchUsed a) = batch_packet hdr ms }.

(** What the callers of [AppendToBatch] offer: a secured packet that is its slot's
    bytes and no batch yet. *)
Record offered packet : Prop := {
  of_secure : IsSecure packet = true;
  of_plain : IsBatch packet = false;
  of_bytes : Forall is_byte (pk_data packet);
  of_size : dataSize packet <= zlen (pk_data packet) }.

Definition message_of packet : list Z := region (pk_data packet) (ContentOffset packet) (dataSize packet - ContentOffset packet).
Definition framing_of packet : list Z := region (pk_data packet) 0 (ContentOffset packet).

(** The messages a receiver reads in a packet, as [PacketSlotReader] walks them. *)
Definition messages_in packet : option (list (list Z)) :=
  let content := message_of packet in
  if IsBatch packet then
    if BatchValidate (Some content) (zlen content) then Some (batch_walk (S (length content)) content (zlen content) 0).1 else None
  else Some [content].

(** One association's batch under its callers: appends, takes, and one finish for each
    take that copied something.  What was accepted, and the packets that left. *)
Inductive batch_op := OAppend packet | OTake (capacity : Z) | OFinish (sent : bool).
Record batch_run := mk_run { br_assoc : OutAssociation; br_out : option (list Z); br_left : list (list Z); br_accepted : list (list Z) }.

Definition batch_step (st : batch_run) (op : batch_op) : batch_run :=
  let '(mk_run a out gone accepted) := st in
  match op with
  | OAppend packet =>
      let '(r, a) := AppendToBatch a packet MAX_WIRE_PACKET_SIZE in
      mk_run a out gone (if decide (r = BatchAppended) then accepted ++ [message_of packet] else accepted)
  | OTake capacity =>
      let '(bytes, _, a) := TakeBatch a capacity in mk_run a (if decide (bytes = []) then out else Some bytes) gone accepted
  | OFinish sent =>
      match out with
      | None => st
      | Some bytes => mk_run (FinishBatch a (zlen bytes) sent) None (if sent then gone ++ [bytes] else gone) accepted
      end
  end.

Definition packet_of (to : Address) (bytes : list Z) : PacketSlot := mk_pkt to (zlen bytes) bytes.
Definition open_messages (to : Address) a : option (list (list Z)) :=
  if openBatchUsed a =? 0 then Some [] else messages_in (packet_of to (region (OpenBatch a) 0 (openBatchUsed a))).

(** ** Lengths and marks *)

Lemma ContentOffset_range packet : 1 <= ContentOffset packet <= 64.
Proof. unfold ContentOffset. repeat case_match; vm_compute; split; discriminate. Qed.

Lemma zlen_mark hdr : zlen (batch_mark hdr) = zlen hdr.
Proof. apply zlen_set. Qed.

Lemma zlen_head hdr ms : zlen (batch_head hdr ms) = zlen hdr.
Proof. unfold batch_head. destruct (1 <? zlen ms); [apply zlen_mark|done]. Qed.

Lemma zlen_batch_packet hdr ms : zlen (batch_packet hdr ms) = zlen hdr + zlen (batch_bytes ms).
Proof. unfold batch_packet. by rewrite zlen_app, zlen_head. Qed.

Lemma lor_byte x y : is_byte x -> is_byte y -> is_byte (Z.lor x y).
Proof. unfold is_byte. intros. apply (lor_lt x y 8); lia. Qed.

Lemma marked_byte hdr : Forall is_byte hdr -> 0 < zlen hdr -> is_byte (Z.lor hdr.[0] WIRE_CTRL_BATCH).
Proof. intros Hb H0. apply lor_byte; [apply bytes_at; [done|lia]|]. unfold is_byte. vm_compute. split; [discriminate|reflexivity]. Qed.

Lemma batch_mark_idem hdr : Forall is_byte hdr -> 0 < zlen hdr -> batch_mark (batch_mark hdr) = batch_mark hdr.
Proof.
  intros Hb H0. unfold batch_mark at 1. unfold batch_mark at 1 2.
  rewrite arr_get_set_eq by lia. rewrite !u8_small by (apply marked_byte; done || (rewrite u8_small; [|apply marked_byte])).
  rewrite <- Z.lor_assoc, Z.lor_diag. unfold batch_mark, arr_set. rewrite list_insert_insert_eq.
  by rewrite u8_small by by apply marked_byte.
Qed.

Lemma mark_head hdr ms m : Forall is_byte hdr -> 0 < zlen hdr -> ms <> [] -> batch_mark (batch_head hdr ms) = batch_head hdr (ms ++ [m]).
Proof.
  intros Hb H0 Hne. unfold batch_head. rewrite zlen_app. change (zlen [m]) with 1.
  assert (1 <= zlen ms) by (destruct ms; [done|unfold zlen; simpl; lia]).
  destruct (Z.ltb_spec 1 (zlen ms + 1)); [|lia]. destruct (1 <? zlen ms); [by apply batch_mark_idem|done].
Qed.

Lemma region_drop {A} (l : list A) h n : 0 <= h -> region (from l h) 0 n = region l h n.
Proof. intros. unfold region, from. by rewrite drop_drop, Nat.add_0_r. Qed.

Lemma region_pref {A} (l1 l2 : list A) n : zlen l1 <= n -> region (l1 ++ l2) 0 n = l1 ++ region l2 0 (n - zlen l1).
Proof.
  intros H. unfold region, zlen in *. change (Z.to_nat 0) with 0%nat. rewrite !drop_0, take_app.
  rewrite take_ge by lia. do 2 f_equal. lia.
Qed.

Lemma app_set0 {A} (l1 l2 : list A) v : 0 < zlen l1 -> (l1 ++ l2).[0 <- v] = l1.[0 <- v] ++ l2.
Proof. intros. unfold arr_set. apply insert_app_l. unfold zlen in *. lia. Qed.

Lemma app_get0 (l1 l2 : list Z) : 0 < zlen l1 -> (l1 ++ l2).[0] = l1.[0].
Proof. intros. unfold arr_get. apply lookup_total_app_l. unfold zlen in *. lia. Qed.

Lemma region_region {A} (l : list A) n : region (region l 0 n) 0 n = region l 0 n.
Proof. unfold region. change (Z.to_nat 0) with 0%nat. rewrite !drop_0, take_take. f_equal. lia. Qed.

(** Only the bytes of the message are read. *)
Lemma BatchAppend_region c l n : BatchAppend c (Some l) n = BatchAppend c (Some (region l 0 n)) n.
Proof. unfold BatchAppend. by rewrite region_region. Qed.

(** ** The cursor over an open batch *)

Lemma zlen_from {A} (l : list A) h : 0 <= h <= zlen l -> zlen (from l h) = zlen l - h.
Proof. intros. unfold from, zlen in *. rewrite length_drop. lia. Qed.

Lemma head_packet a hdr ms : batch_ok a hdr ms -> ms <> [] ->
  take (Z.to_nat (zlen hdr)) (OpenBatch a) = batch_head hdr ms /\
  region (OpenBatch a) (zlen hdr) (zlen (batch_bytes ms)) = batch_bytes ms.
Proof.
  intros H Hne. destruct (bo_open _ _ _ H Hne) as (H0&Hb&Hlim&Hh&_&_&Hreg). pose proof (bo_used _ _ _ H) as Hu.
  destruct (decide (ms = [])); [done|]. pose proof (zlen_nonneg (batch_bytes ms)). pose proof (bo_room _ _ _ H).
  assert (batch_limit = 1184) by done. assert (MAX_WIRE_PACKET_SIZE = 1200) by done.
  rewrite Hu, region_app, Z.add_0_l in Hreg by lia. unfold batch_packet in Hreg.
  apply app_inj_1 in Hreg; [|apply length_of_zlen; rewrite zlen_region by lia; by rewrite zlen_head].
  destruct Hreg as [E1 E2]. split; [|done]. rewrite <- E1. unfold region. by rewrite drop_0.
Qed.

Lemma cursor_holds a hdr ms : batch_ok a hdr ms -> ms <> [] ->
  batch_holds (batch_cursor a batch_limit) (from (OpenBatch a) (openBatchHeader a)) ms.
Proof.
  intros H Hne. destruct (bo_open _ _ _ H Hne) as (H0&Hb&Hlim&Hh&Hc&Hf&Hreg). pose proof (bo_used _ _ _ H) as Hu.
  destruct (head_packet a hdr ms H Hne) as [_ Hbody]. destruct (decide (ms = [])); [done|]. pose proof (zlen_nonneg (batch_bytes ms)).
  pose proof (bo_room _ _ _ H) as Hroom. assert (batch_limit = 1184) by done. assert (MAX_WIRE_PACKET_SIZE = 1200) by done.
  assert (Hused : u16 (openBatchUsed a - openBatchHeader a) = zlen (batch_bytes ms)) by (rewrite u16_small; lia).
  assert (Hcap : u16 (batch_limit - openBatchHeader a) = batch_limit - openBatchHeader a) by (rewrite u16_small; lia).
  split; cbn [batch_cursor bc_content bc_used bc_count bc_firstLen bc_capacity]; try done.
  - rewrite Hcap, zlen_from by lia. lia.
  - rewrite Hcap. lia.
  - apply Forall_drop, (bo_bytes _ _ _ H).
  - apply (bo_msgs _ _ _ H).
  - lia.
  - rewrite Hused, region_drop, Hh by lia. done.
Qed.

(** ** Appending *)

Lemma offered_parts packet : offered packet -> ContentOffset packet <= dataSize packet ->
  zlen (message_of packet) = dataSize packet - ContentOffset packet /\ zlen (framing_of packet) = ContentOffset packet /\
  Forall is_byte (message_of packet) /\ Forall is_byte (framing_of packet) /\
  region (pk_data packet) 0 (dataSize packet) = framing_of packet ++ message_of packet.
Proof.
  intros [_ Hb Hs] Hle. pose proof (ContentOffset_range packet). unfold message_of, framing_of.
  rewrite !zlen_region by lia. repeat split; try (by apply Forall_take, Forall_drop).
  replace (dataSize packet) with (ContentOffset packet + (dataSize packet - ContentOffset packet)) at 1 by lia.
  by rewrite region_app by lia.
Qed.

Lemma open_ok a hdr packet : batch_ok a hdr [] -> openBatchInFlight a = false -> offered packet ->
  ContentOffset packet < dataSize packet -> dataSize packet <= batch_limit ->
  exists a', open_batch a packet (ContentOffset packet) (dataSize packet - ContentOffset packet) batch_limit = (BatchAppended, a') /\
    openBatchInFlight a' = false /\ batch_ok a' (framing_of packet) [message_of packet].
Proof.
  intros H Hf Ho Hc Hl. destruct (offered_parts packet Ho ltac:(lia)) as (Hm&Hh&Bm&Bh&Hreg). pose proof (ContentOffset_range packet).
  assert (batch_limit = 1184) by done. assert (MAX_WIRE_PACKET_SIZE = 1200) by done. pose proof (bo_room _ _ _ H) as Hroom.
  unfold open_batch. replace (ContentOffset packet + (dataSize packet - ContentOffset packet)) with (dataSize packet) by lia.
  destruct (Z.ltb_spec batch_limit (dataSize packet)); [lia|]. eexists. split; [reflexivity|]. split; [done|].
  rewrite !u16_small by lia.
  assert (Hz : zlen (region (pk_data packet) 0 (dataSize packet)) = dataSize packet) by (apply zlen_region; [lia..|]; destruct Ho; lia).
  split; cbn -[MAX_WIRE_PACKET_SIZE batch_limit region zlen Z.le Z.lt framing_of message_of]; try done.
  - rewrite zlen_blit by lia. done.
  - apply blit_bytes; [apply (bo_bytes _ _ _ H)|]. apply Forall_take, Forall_drop, (of_bytes _ Ho).
  - apply Forall_singleton. split; [lia|done].
  - rewrite decide_False by done. lia.
  - intros _. repeat split; try lia; try done. { by intros ? ? [= <- <-]. }
    pose proof (region_blit_eq (OpenBatch a) 0 (region (pk_data packet) 0 (dataSize packet)) ltac:(lia) ltac:(lia)) as E.
    rewrite Hz in E. by rewrite E, Hreg.
Qed.

Lemma join_ok a hdr ms packet : batch_ok a hdr ms -> ms <> [] -> openBatchInFlight a = false -> offered packet ->
  ContentOffset packet < dataSize packet -> dataSize packet - ContentOffset packet < 2 ^ 16 ->
  match join_batch a packet (ContentOffset packet) (dataSize packet - ContentOffset packet) batch_limit with
  | (BatchAppended, a') => openBatchInFlight a' = false /\ batch_ok a' hdr (ms ++ [message_of packet])
  | (_, a') => a' = a
  end.
Proof.
  intros H Hne Hf Ho Hc Hl. destruct (offered_parts packet Ho ltac:(lia)) as (Hm&_&Bm&_&_). pose proof (ContentOffset_range packet).
  assert (batch_limit = 1184) by done. assert (MAX_WIRE_PACKET_SIZE = 1200) by done. pose proof (bo_room _ _ _ H) as Hroom.
  destruct (bo_open _ _ _ H Hne) as (Hp&Hb&Hlim&Hh&_&Hfirst&_). destruct (head_packet a hdr ms H Hne) as [Hhead _].
  pose proof (bo_used _ _ _ H) as Hu. rewrite decide_False in Hu by done. pose proof (zlen_nonneg (batch_bytes ms)).
  unfold join_batch. rewrite u16_small by lia. rewrite BatchAppend_region, region_drop by lia.
  fold (message_of packet). rewrite <- Hm.
  assert (Hok : message_ok (message_of packet)) by (split; [lia|done]).
  pose proof (BatchAppend_step _ _ _ _ (cursor_holds a hdr ms H Hne) Hok) as Hstep.
  destruct (BatchAppend _ _ _) as [c|]; [|done]. destruct Hstep as (Hfit&Hcap&content'&Hz&Hc').
  cbn [bc_capacity batch_cursor] in Hfit, Hcap. rewrite (bh_content _ _ _ Hc'). cbn [default]. rewrite Hh, Hhead.
  rewrite u16_small in Hfit, Hcap by lia. pose proof (zlen_nonneg (batch_bytes (ms ++ [message_of packet]))).
  pose proof (zlen_head hdr ms) as Hzh. rewrite (bh_used _ _ _ Hc'). rewrite u16_small by lia.
  rewrite Hh, zlen_from in Hz by lia.
  split; [done|]. rewrite app_set0, app_get0 by lia. change ((?x).[0 <- u8 (Z.lor (?x).[0] WIRE_CTRL_BATCH)]) with (batch_mark x).
  rewrite (mark_head hdr ms (message_of packet) Hb Hp Hne).
  assert (Forall is_byte (batch_head hdr (ms ++ [message_of packet]))).
  { unfold batch_head. destruct (1 <? _); [|done]. apply Forall_arr_set; [done|]. apply u8_range. }
  split; cbn -[MAX_WIRE_PACKET_SIZE batch_limit region zlen Z.le Z.lt batch_bytes batch_packet batch_head framing_of message_of].
  - rewrite zlen_app, zlen_head. lia.
  - apply Forall_app_2; [done|]. apply (bh_bytes _ _ _ Hc').
  - apply (bh_msgs _ _ _ Hc').
  - destruct (decide (ms ++ [message_of packet] = [])) as [E|]; [by destruct ms|lia].
  - intros _. repeat split; try done; try lia.
    + apply (bh_count _ _ _ Hc').
    + intros m1 ms' E. destruct ms as [|m2 ms2]; [done|]. injection E as <- _. by apply (Hfirst m2 ms2).
    + unfold batch_packet. rewrite region_pref by (rewrite zlen_head; lia). rewrite zlen_head. f_equal.
      replace (zlen hdr + zlen (batch_bytes (ms ++ [message_of packet])) - zlen hdr) with (bc_used c) by (rewrite (bh_used _ _ _ Hc'); lia).
      apply (bh_region _ _ _ Hc').
Qed.

(** ** Reading a batch back *)

Definition framing (hdr : list Z) : Prop := exists packet, offered packet /\ ContentOffset packet <= dataSize packet /\ hdr = framing_of packet.

Lemma land_mark c k : Z.land WIRE_CTRL_BATCH k = 0 -> Z.land (Z.lor c WIRE_CTRL_BATCH) k = Z.land c k.
Proof. intros E. by rewrite Z.land_lor_distr_l, E, Z.lor_0_r. Qed.

Lemma framed_controller to hdr ms packet : offered packet -> ContentOffset packet <= dataSize packet -> hdr = framing_of packet -> ms <> [] ->
  Controller (packet_of to (batch_packet hdr ms)) = if 1 <? zlen ms then Z.lor (Controller packet) WIRE_CTRL_BATCH else Controller packet.
Proof.
  intros Ho Hle -> Hne. destruct (offered_parts packet Ho Hle) as (_&Hh&_&Bh&_). pose proof (ContentOffset_range packet).
  unfold Controller, packet_of, batch_packet. cbn [pk_data]. rewrite app_get0 by (rewrite zlen_head; lia).
  assert (E : (framing_of packet).[0] = (pk_data packet).[0]).
  { unfold framing_of. rewrite region_lookup by (destruct Ho; lia). f_equal. }
  unfold batch_head. destruct (1 <? zlen ms); [|done]. unfold batch_mark. rewrite arr_get_set_eq, u8_small by (try apply marked_byte; done || lia).
  by rewrite E.
Qed.

Lemma secure_offset packet : IsSecure packet = true -> MIN_WIRE_SIZE <= dataSize packet /\ MIN_WIRE_SIZE <= ContentOffset packet.
Proof.
  intros H. split; [|unfold ContentOffset; rewrite H; repeat case_match; vm_compute; discriminate].
  unfold IsSecure, Packet_IsValid in H. destruct (Z.ltb_spec (dataSize packet) MIN_WIRE_SIZE); [done|lia].
Qed.

(** A packet that left is framed as the first packet of its batch was. *)
Lemma framed_fields to hdr ms packet : offered packet -> ContentOffset packet <= dataSize packet -> hdr = framing_of packet -> ms <> [] ->
  let p := packet_of to (batch_packet hdr ms) in ContentOffset p = zlen hdr /\ IsBatch p = (1 <? zlen ms).
Proof.
  intros Ho Hle Hh Hne p. destruct (secure_offset packet (of_secure _ Ho)) as [H1 H2].
  destruct (offered_parts packet Ho Hle) as (_&Hz&_&_&_). rewrite <- Hh in Hz. pose proof (zlen_nonneg (batch_bytes ms)).
  assert (Hv : Packet_IsValid p = true).
  { unfold Packet_IsValid, p, packet_of. cbn [dataSize]. rewrite zlen_batch_packet. destruct (Z.ltb_spec (zlen hdr + zlen (batch_bytes ms)) MIN_WIRE_SIZE); [lia|done]. }
  assert (Hv0 : Packet_IsValid packet = true) by (unfold Packet_IsValid; destruct (Z.ltb_spec (dataSize packet) MIN_WIRE_SIZE); [lia|done]).
  pose proof (framed_controller to hdr ms packet Ho Hle Hh Hne) as Hc. fold p in Hc.
  assert (Hsame : forall k, Z.land WIRE_CTRL_BATCH k = 0 -> Z.land (Controller p) k = Z.land (Controller packet) k).
  { intros k Hk. rewrite Hc. destruct (1 <? zlen ms); [by apply land_mark|done]. }
  split.
  - rewrite Hz. unfold ContentOffset, IsTagged, IsSecure, HasFlow. rewrite Hv, Hv0. cbn [negb]. rewrite !Hsame by reflexivity. done.
  - pose proof (of_plain _ Ho) as Hp. unfold IsBatch in Hp |- *. rewrite Hv0 in Hp. rewrite Hv. cbn [negb] in *. rewrite Hc.
    destruct (Z.eqb_spec (Z.land (Controller packet) CTRL_BATCH) 0) as [E|]; [|done].
    destruct (1 <? zlen ms); [|by rewrite E]. rewrite Z.land_lor_distr_l, E. reflexivity.
Qed.

Lemma batch_content_messages ms : ms <> [] -> Forall message_ok ms -> zlen (batch_bytes ms) < 2 ^ 16 ->
  let content := batch_bytes ms in
  if 1 <? zlen ms then BatchValidate (Some content) (zlen content) = true /\ (batch_walk (S (length content)) content (zlen content) 0).1 = ms
  else [content] = ms.
Proof.
  intros Hne Hms Hl. cbv zeta. destruct (Z.ltb_spec 1 (zlen ms)) as [H1|H1]; [|destruct ms as [|m [|]]; [done|done|unfold zlen in *; simpl in *; lia]].
  assert (batch_bytes ms = frames ms) as -> by (destruct ms as [|? [|]]; unfold zlen in *; simpl in *; [lia..|done]).
  assert (batch_bytes ms = frames ms) as Hf by (destruct ms as [|? [|]]; unfold zlen in *; simpl in *; [lia..|done]). rewrite Hf in Hl.
  pose proof (frames_count ms Hms) as Hn. pose proof (zlen_nonneg (frames ms)).
  assert (Hb : Forall is_byte (frames ms)).
  { clear -Hms. induction Hms as [|m ms [_ ?] _ IH]; [constructor|]. rewrite frames_cons. apply Forall_app_2; [by apply frame_bytes|done]. }
  split.
  - unfold BatchValidate. apply BatchValidate_loop_iff; [done|unfold zlen in *; lia..|]. exists ms. by rewrite Z.sub_0_r, region_full.
  - rewrite batch_walk_spec with (ms := ms); [done|done|lia|lia|lia|done|by rewrite Z.sub_0_r, region_full|unfold zlen in *; lia].
Qed.

Lemma framed_messages to hdr ms : framing hdr -> ms <> [] -> Forall message_ok ms -> zlen (batch_bytes ms) < 2 ^ 16 ->
  messages_in (packet_of to (batch_packet hdr ms)) = Some ms.
Proof.
  intros (packet&Ho&Hle&Hh) Hne Hms Hl. destruct (framed_fields to hdr ms packet Ho Hle Hh Hne) as [E1 E2].
  unfold messages_in. rewrite E2. assert (Hm : message_of (packet_of to (batch_packet hdr ms)) = batch_bytes ms).
  { unfold message_of. rewrite E1. unfold packet_of. cbn [pk_data dataSize]. rewrite zlen_batch_packet.
    replace (zlen hdr + zlen (batch_bytes ms) - zlen hdr) with (zlen (batch_bytes ms)) by lia. unfold batch_packet, region.
    rewrite drop_app_length'; [|pose proof (zlen_head hdr ms); unfold zlen in *; lia]. apply take_ge. unfold zlen. lia. }
  rewrite Hm. pose proof (batch_content_messages ms Hne Hms Hl) as Hc. cbv zeta in Hc. destruct (1 <? zlen ms); [|by rewrite Hc].
  destruct Hc as [-> ->]. done.
Qed.

(** ** Messages leave once, in order *)

Definition offers_ok (op : batch_op) : Prop := match op with OAppend packet => offered packet | _ => True end.

(** An association that has just been set up. *)
Definition no_batch a : Prop :=
  openBatchUsed a = 0 /\ openBatchInFlight a = false /\ zlen (OpenBatch a) = MAX_WIRE_PACKET_SIZE /\ Forall is_byte (OpenBatch a).

Section Run.
Context (to : Address).

Definition read_back (bytes : list Z) : option (list (list Z)) := messages_in (packet_of to bytes).

Record run_ok (st : batch_run) (groups : list (list (list Z))) (hdr : list Z) (ms : list (list Z)) : Prop := {
  ro_batch : batch_ok (br_assoc st) hdr ms;
  ro_framing : ms <> [] -> framing hdr;
  ro_gone : map read_back (br_left st) = map Some groups;
  ro_full : Forall (fun g => g <> []) groups;
  ro_fits : Forall (fun b => zlen b <= batch_limit) (br_left st);
  ro_accepted : br_accepted st = concat groups ++ ms;
  ro_flight : openBatchInFlight (br_assoc st) = is_some (br_out st);
  ro_out : forall bytes, br_out st = Some bytes -> ms <> [] /\ bytes = batch_packet hdr ms }.

Lemma open_size a hdr ms : batch_ok a hdr ms -> ms <> [] -> openBatchUsed a = zlen (batch_packet hdr ms) /\ 0 < openBatchUsed a <= batch_limit.
Proof.
  intros H Hne. destruct (bo_open _ _ _ H Hne) as (?&_&?&_). rewrite zlen_batch_packet. pose proof (bo_used _ _ _ H) as Hu.
  rewrite decide_False in Hu by done. pose proof (zlen_nonneg (batch_bytes ms)). lia.
Qed.

Lemma open_reads a hdr ms : batch_ok a hdr ms -> ms <> [] -> framing hdr -> read_back (batch_packet hdr ms) = Some ms.
Proof.
  intros H Hne Hf. destruct (open_size a hdr ms H Hne) as [E Hb]. rewrite zlen_batch_packet in E. pose proof (zlen_nonneg hdr). assert (batch_limit = 1184) by done.
  apply framed_messages; [done..|apply (bo_msgs _ _ _ H)|lia].
Qed.

Lemma open_messages_ok a hdr ms : batch_ok a hdr ms -> (ms <> [] -> framing hdr) -> open_messages to a = Some ms.
Proof.
  intros H Hf. unfold open_messages. destruct (decide (ms = [])) as [->|Hne].
  - pose proof (bo_used _ _ _ H) as ->. by rewrite decide_True.
  - destruct (open_size a hdr ms H Hne) as [_ Hb]. destruct (Z.eqb_spec (openBatchUsed a) 0); [lia|].
    destruct (bo_open _ _ _ H Hne) as (_&_&_&_&_&_&->). apply (open_reads a hdr ms H Hne (Hf Hne)).
Qed.

Lemma append_ok a hdr ms packet : batch_ok a hdr ms -> offered packet ->
  match AppendToBatch a packet MAX_WIRE_PACKET_SIZE with
  | (BatchAppended, a') => openBatchInFlight a = false /\ openBatchInFlight a' = false /\ ContentOffset packet <= dataSize packet /\
      batch_ok a' (if decide (ms = []) then framing_of packet else hdr) (ms ++ [message_of packet])
  | (_, a') => a' = a
  end.
Proof.
  intros H Ho. unfold AppendToBatch. rewrite (of_secure _ Ho). destruct (Z.ltb_spec (dataSize packet) (ContentOffset packet)); [done|].
  destruct (Z.eqb_spec (dataSize packet - ContentOffset packet) 0); [done|]. cbn [orb].
  destruct (Z.ltb_spec UINT16_MAX (dataSize packet - ContentOffset packet)); [done|].
  change (MAX_WIRE_PACKET_SIZE <? MAX_WIRE_PACKET_SIZE) with false. cbv iota. change (MAX_WIRE_PACKET_SIZE <=? WIRE_TAG_SIZE) with false. cbv iota.
  change (u16 (MAX_WIRE_PACKET_SIZE - WIRE_TAG_SIZE)) with batch_limit. destruct (openBatchInFlight a) eqn:Hf; [done|].
  assert (UINT16_MAX = 65535) by done. pose proof (bo_used _ _ _ H) as Hu. destruct (decide (ms = [])) as [->|Hne].
  - rewrite Hu. cbn [Z.eqb]. destruct (Z.ltb_spec batch_limit (dataSize packet)) as [Hbig|].
    + unfold open_batch. destruct (Z.ltb_spec batch_limit (ContentOffset packet + (dataSize packet - ContentOffset packet))); [done|lia].
    + destruct (open_ok a hdr packet H Hf Ho) as (a'&->&Hf'&Hok); [lia..|]. done.
  - destruct (open_size a hdr ms H Hne) as [_ Hb]. destruct (Z.eqb_spec (openBatchUsed a) 0); [lia|].
    pose proof (join_ok a hdr ms packet H Hne Hf Ho ltac:(lia) ltac:(lia)) as Hj.
    destruct (join_batch _ _ _ _ _) as [[] a']; [|done..]. destruct Hj. by split_and!.
Qed.

Lemma step_append st groups hdr ms packet : run_ok st groups hdr ms -> offered packet ->
  exists hdr' ms', run_ok (batch_step st (OAppend packet)) groups hdr' ms'.
Proof.
  intros [Hb Hfr Hg Hne Hfit Hacc Hfl Hout] Ho. destruct st as [a out gone accepted]. cbn in *.
  pose proof (append_ok a hdr ms packet Hb Ho) as Ha. destruct (AppendToBatch a packet MAX_WIRE_PACKET_SIZE) as [r a'].
  destruct r; [|subst a'; exists hdr, ms; by split..].
  destruct Ha as (Hf&Hf'&Hle&Hok). eexists _, _. split; cbn; [exact Hok| |done..| | |].
  - intros _. destruct (decide (ms = [])) as [->|Hn]; [|by apply Hfr]. by exists packet.
  - by rewrite Hacc, app_assoc.
  - rewrite Hf'. rewrite <- Hfl. done.
  - intros bytes ->. by rewrite Hf in Hfl.
Qed.

Lemma step_take st groups hdr ms capacity : run_ok st groups hdr ms -> exists hdr' ms', run_ok (batch_step st (OTake capacity)) groups hdr' ms'.
Proof.
  intros [Hb Hfr Hg Hne Hfit Hacc Hfl Hout]. destruct st as [a out gone accepted]. cbn in *. exists hdr, ms. unfold TakeBatch.
  destruct (Z.eqb_spec (openBatchUsed a) 0) as [|Hu]; [by split|]. cbn [negb andb].
  destruct (Z.leb_spec (openBatchUsed a) capacity); [|by split]. destruct (openBatchInFlight a) eqn:Hf; [split; cbn; try done; by rewrite Hf|]. cbn.
  assert (Hms : ms <> []) by (intros ->; by rewrite (bo_used _ _ _ Hb) in Hu).
  destruct (bo_open _ _ _ Hb Hms) as (_&_&_&_&_&_&->). destruct (open_size a hdr ms Hb Hms) as [Hs Hb'].
  rewrite decide_False by (intros E; rewrite E in Hs; unfold zlen in Hs; simpl in Hs; lia).
  split; try done; [by destruct Hb|by intros ? [= <-]].
Qed.

Lemma step_finish st groups hdr ms sent : run_ok st groups hdr ms -> exists groups' hdr' ms', run_ok (batch_step st (OFinish sent)) groups' hdr' ms'.
Proof.
  intros [Hb Hfr Hg Hne Hfit Hacc Hfl Hout]. destruct st as [a [bytes|] gone accepted]; cbn in *; [|by exists groups, hdr, ms].
  destruct (Hout bytes eq_refl) as [Hms ->]. destruct (open_size a hdr ms Hb Hms) as [Hs Hlim]. unfold FinishBatch.
  destruct sent; cbn.
  - rewrite Hs, Z.eqb_refl. exists (groups ++ [ms]), hdr, []. split; cbn; try done.
    + destruct Hb. split; try done.
    + rewrite !map_app, Hg. cbn. by rewrite (open_reads a hdr ms Hb Hms (Hfr Hms)).
    + apply Forall_app_2; [done|by apply Forall_singleton].
    + apply Forall_app_2; [done|]. apply Forall_singleton. lia.
    + rewrite Hacc, concat_app. cbn. by rewrite !app_nil_r.
  - exists groups, hdr, ms. split; cbn; try done. by destruct Hb.
Qed.

Lemma run_steps ops : forall st groups hdr ms, run_ok st groups hdr ms -> Forall offers_ok ops ->
  exists groups' hdr' ms', run_ok (fold_left batch_step ops st) groups' hdr' ms'.
Proof.
  induction ops as [|op ops IH]; intros st groups hdr ms H Ho; [by exists groups, hdr, ms|].
  apply Forall_cons in Ho as [H1 Ho]. cbn [fold_left]. destruct op as [packet|capacity|sent].
  - destruct (step_append st groups hdr ms packet H H1) as (h'&m'&H'). by apply (IH _ _ _ _ H').
  - destruct (step_take st groups hdr ms capacity H) as (h'&m'&H'). by apply (IH _ _ _ _ H').
  - destruct (step_finish st groups hdr ms sent H) as (g'&h'&m'&H'). by apply (IH _ _ _ _ H').
Qed.

Lemma run_start a : no_batch a -> run_ok (mk_run a None [] []) [] [] [].
Proof. intros (?&?&?&?). split; cbn; done || split; done. Qed.
End Run.

(** (C16) Batching loses, repeats and reorders nothing.  After any appends, takes and
    finishes on an association, in whatever order they come and however the sends
    ended, every packet that left reads back as at least one message and leaves room
    for the tag the seal appends, and the messages of those packets, followed by the
    messages of the open batch, are the messages that were accepted, in order. *)
Theorem batches_lose_nothing (to : Address) (a : OutAssociation) (ops : list batch_op)
  (Ha : no_batch a) (Hops : Forall offers_ok ops) :
  let st := fold_left batch_step ops (mk_run a None [] []) in
  exists groups ms,
    map (read_back to) (br_left st) = map Some groups /\ Forall (fun g => g <> []) groups /\
    open_messages to (br_assoc st) = Some ms /\ br_accepted st = concat groups ++ ms /\
    Forall (fun b => zlen b + WIRE_TAG_SIZE <= MAX_WIRE_PACKET_SIZE) (br_left st).
Proof.
  destruct (run_steps to ops _ _ _ _ (run_start to a Ha) Hops) as (groups&hdr&ms&H). exists groups, ms. split_and!.
  - apply (ro_gone _ _ _ _ _ H).
  - apply (ro_full _ _ _ _ _ H).
  - apply (open_messages_ok to _ hdr); apply H.
  - apply (ro_accepted _ _ _ _ _ H).
  - apply (Forall_impl _ _ _ (ro_fits _ _ _ _ _ H)). intros b Hb. unfold batch_limit in Hb. lia.
Qed.

(** ** Runs *)

(** A secured packet of a flow, with room for nothing but its message. *)
Definition flow_packet (controller : Z) (m : list Z) : PacketSlot :=
  let data := [Z.lor controller CTRL_HAS_FLOW] ++ replicate 8 0 ++ [SECURE_CHANNEL_APP] ++ [7; 0; 0; 0; 0; 0; 8] ++ m in
  mk_pkt (mk_addr 0 0 [] 0) (zlen data) data.
Definition idle_assoc : OutAssociation :=
  mk_out 0 (mk_addr 0 0 [] 0) (mk_id []) INVALID INVALID 7 RELIABLE_ORDERED 1 0 OPEN false 1 0 0 1 0 0 0 0 0 0 0 0 false [] []
    (replicate (Z.to_nat MAX_WIRE_PACKET_SIZE) 0).

Definition batch_story : list batch_op :=
  [OAppend (flow_packet 0 [1; 2]); OAppend (flow_packet 0 [3]); OTake 1200; OAppend (flow_packet 0 [9]); OFinish false;
   OAppend (flow_packet 0 [4; 5; 6]); OTake 1200; OFinish true; OAppend (flow_packet 0 [7])].

Lemma flow_packet_offered c m : Forall is_byte m -> c ∈ [0; CTRL_MACONLY] -> zlen m < 1000 -> offered (flow_packet c m).
Proof.
  intros Hm Hc Hl. assert (Hb : Forall is_byte ([Z.lor c CTRL_HAS_FLOW] ++ replicate 8 0 ++ [SECURE_CHANNEL_APP] ++ [7; 0; 0; 0; 0; 0; 8])).
  { apply elem_of_cons in Hc as [->|Hc%list_elem_of_singleton]; [|subst c]; repeat constructor; vm_compute; discriminate || reflexivity. }
  assert (Hs : MIN_WIRE_SIZE <= dataSize (flow_packet c m)).
  { unfold flow_packet. cbn [dataSize]. rewrite zlen_app. pose proof (zlen_nonneg (replicate 8 0 ++ [SECURE_CHANNEL_APP] ++ [7; 0; 0; 0; 0; 0; 8] ++ m)).
    change (zlen [Z.lor c CTRL_HAS_FLOW]) with 1. change MIN_WIRE_SIZE with 1. lia. }
  assert (Hv : Packet_IsValid (flow_packet c m) = true) by (unfold Packet_IsValid; destruct (Z.ltb_spec (dataSize (flow_packet c m)) MIN_WIRE_SIZE); [lia|done]).
  assert (Hctl : Controller (flow_packet c m) = Z.lor c CTRL_HAS_FLOW) by done.
  split.
  - unfold IsSecure. rewrite Hv, Hctl. by apply elem_of_cons in Hc as [->|Hc%list_elem_of_singleton]; [|subst c].
  - unfold IsBatch. rewrite Hv, Hctl. by apply elem_of_cons in Hc as [->|Hc%list_elem_of_singleton]; [|subst c].
  - unfold flow_packet. cbn [pk_data]. rewrite !app_assoc. apply Forall_app_2; [|done]. by rewrite <- !app_assoc.
  - done.
Qed.

Lemma batches_lose_nothing_witness :
  let st := fold_left batch_step batch_story (mk_run idle_assoc None [] []) in
  br_accepted st = [[1; 2]; [3]; [4; 5; 6]; [7]] /\ map (read_back inhabitant) (br_left st) = [Some [[1; 2]; [3]; [4; 5; 6]]] /\
  exists groups ms,
    map (read_back inhabitant) (br_left st) = map Some groups /\ Forall (fun g => g <> []) groups /\
    open_messages inhabitant (br_assoc st) = Some ms /\ br_accepted st = concat groups ++ ms /\
    Forall (fun b => zlen b + WIRE_TAG_SIZE <= MAX_WIRE_PACKET_SIZE) (br_left st).
Proof.
  split; [vm_compute; reflexivity|]. split; [vm_compute; reflexivity|].
  apply (batches_lose_nothing inhabitant idle_assoc batch_story).
  - split_and!; [done|done|by vm_compute|]. apply Forall_replicate. unfold is_byte. lia.
  - assert (Hb : forall m, forallb (fun x => (0 <=? x) && (x <? 256)) m = true -> zlen m < 1000 -> offered (flow_packet 0 m)).
    { intros m Hm Hl. pose proof (proj1 (forallb_forall _ _) Hm) as Hm'. apply flow_packet_offered; [|by apply elem_of_cons; left|done].
      apply Forall_forall. intros x Hx%list_elem_of_In. specialize (Hm' x Hx). cbv beta in Hm'. unfold is_byte. lia. }
    unfold batch_story. repeat (apply Forall_cons; split; [try done; by apply Hb|]). done.
Defined.

(** A message joins the batch whatever protection it asks for: an encrypted one that
    follows one sent with a tag only leaves in the packet that is not encrypted. *)
Lemma encrypted_message_joins_clear_batch :
  let clear := flow_packet CTRL_MACONLY [1] in let secret := flow_packet 0 [2] in
  IsMacOnly clear = true /\ IsMacOnly secret = false /\
  let '(r, a) := AppendToBatch (AppendToBatch idle_assoc clear MAX_WIRE_PACKET_SIZE).2 secret MAX_WIRE_PACKET_SIZE in
  r = BatchAppended /\ let p := packet_of inhabitant (TakeBatch a MAX_WIRE_PACKET_SIZE).1.1 in
  IsMacOnly p = true /\ messages_in p = Some [[1]; [2]].
Proof. vm_compute. repeat split. Qed.

(** A flush that ends after its association was freed and set up again takes the new
    tenant's batch for its own when the two have the same size, and clears it. *)
Lemma finish_clears_the_next_tenant to i :
  let a1 := (TakeBatch (AppendToBatch idle_assoc (flow_packet 0 [1]) MAX_WIRE_PACKET_SIZE).2 MAX_WIRE_PACKET_SIZE).2 in
  let a2 := ResetOutAssoc a1 0 to i 7 RELIABLE_ORDERED 1 256 0 0 in
  let '(r, a3) := AppendToBatch a2 (flow_packet 0 [2]) MAX_WIRE_PACKET_SIZE in
  r = BatchAppended /\ open_messages inhabitant a3 = Some [[2]] /\ open_messages inhabitant (FinishBatch a3 (openBatchUsed a1) true) = Some [].
Proof. vm_compute. repeat split. Qed.
