(* ===== verification/FlowTable.v ===== *)
(** * The flow table: flows, associations and their directories

    [flux/flow/flow_table] around the per-association operations of the other files:
    opening and closing flows, the list that links a flow to its targets, the
    association of the first send and of the first arrival, and the walks a tick
    makes over a peer's directories.  An association's pool has two halves behind one
    index space; what is behind the rows is a list of records, one per slot.  [None]
    is a pool operation that does not return, or a chain that does not end. *)

From S2P Require Import Prelude Wire Errors Keys FlowData SlotPool ReadyLanes Rtt Delivery Curve Congestion Peer InFlow InDeliver Packet PacketHandle PacketBuild OutFlow OutRetransmit FlowDir AckWire.

(** ** Data *)

Definition FLOW_RING_MAX : Z := 32768.
Definition FLOW_STALL_TIMEOUT_DEFAULT : Z := 5000000.
Definition EPOCH_MEMORY_SIZE : Z := 65536.

Inductive FlowAdmit := FRegistered | FExisting | FReopened | FRejected | FStale.
#[export] Instance FlowAdmit_eq_dec : EqDecision FlowAdmit.
Proof. solve_decision. Defined.

Record Flow := mk_flow { fl_epoch : Z; fl_firstAssoc : Z; fl_flowId : Z; fl_mode : FlowMode; fl_flowData : Z; fl_life : FlowLifecycle }.
#[export] Instance Flow_eta : Eta Flow := fun r => mk_flow (fl_epoch r) (fl_firstAssoc r) (fl_flowId r) (fl_mode r) (fl_flowData r) (fl_life r).
Definition blank_flow : Flow := mk_flow 0 0 0 RELIABLE_ORDERED 0 OPEN.
#[export] Instance Flow_inhabited : Inhabited Flow := populate blank_flow.
#[export] Instance OutAssociation_inhabited : Inhabited OutAssociation :=
  populate (mk_out 0 (mk_addr 0 0 [] 0) (mk_id []) 0 0 0 RELIABLE_ORDERED 0 0 CLOSED false 0 0 0 0 0 0 0 0 0 0 0 0 false [] [] []).

Record Params := mk_params {
  pr_flowCount : Z; pr_outCount : Z; pr_bulkOutCount : Z; pr_inCount : Z; pr_bulkInCount : Z; pr_maxOutPerPeer : Z; pr_maxInPerPeer : Z;
  pr_maxPeers : Z; pr_stagingCount : Z; pr_reliableWait : Z; pr_unreliableWait : Z; pr_ackDelayMicros : Z; pr_retryIntervalMicros : Z;
  pr_flowStallTimeoutMicros : Z }.

(** What the table keeps; [outAssocDir] is the strip of every peer, [None] the null
    pointer of a disabled direction. *)
Record FlowTable (Q S : Type) := mk_flow_table {
  flowPool : S; flows : list Flow; outAssocPool : SplitAssocPool S; outs : list OutAssociation;
  inAssocPool : SplitAssocPool S; ins : list InAssociation; ft_pools : OutPools S; ft_recv : RecvWorld Q S;
  outAssocDir : option (list (list FlowDirEntry)); inAssocDir : option (list (list FlowDirEntry)); lastEpochById : list Z;
  outInflightCap : Z; outReliableWaitCap : Z; outUnreliableWaitCap : Z; bulkEnabled : bool; ft_config : FlowConfig }.
Arguments mk_flow_table {Q S}.
Arguments flowPool {Q S}.
Arguments flows {Q S}.
Arguments outAssocPool {Q S}.
Arguments outs {Q S}.
Arguments inAssocPool {Q S}.
Arguments ins {Q S}.
Arguments ft_pools {Q S}.
Arguments ft_recv {Q S}.
Arguments outAssocDir {Q S}.
Arguments inAssocDir {Q S}.
Arguments lastEpochById {Q S}.
Arguments outInflightCap {Q S}.
Arguments outReliableWaitCap {Q S}.
Arguments outUnreliableWaitCap {Q S}.
Arguments bulkEnabled {Q S}.
Arguments ft_config {Q S}.

Section Table.
Context {Q S : Type} `{!ReadyQueue Q} `{!Allocator S}.
Abbreviation Table := (FlowTable Q S).
Implicit Types (t : Table) (p : Peer).

#[export] Instance FlowTable_eta : Eta Table := fun t =>
  mk_flow_table (flowPool t) (flows t) (outAssocPool t) (outs t) (inAssocPool t) (ins t) (ft_pools t) (ft_recv t)
    (outAssocDir t) (inAssocDir t) (lastEpochById t) (outInflightCap t) (outReliableWaitCap t) (outUnreliableWaitCap t) (bulkEnabled t) (ft_config t).

Definition OutDirFor t (peerSlot : Z) : list FlowDirEntry := (default [] (outAssocDir t)).[peerSlot].
Definition InDirFor t (peerSlot : Z) : list FlowDirEntry := (default [] (inAssocDir t)).[peerSlot].
Definition set_out_dir t (peerSlot : Z) (dir : list FlowDirEntry) : Table := t <| outAssocDir := (fun d => d.[peerSlot <- dir]) <$> outAssocDir t |>.
Definition set_in_dir t (peerSlot : Z) (dir : list FlowDirEntry) : Table := t <| inAssocDir := (fun d => d.[peerSlot <- dir]) <$> inAssocDir t |>.
Definition set_flow t (slot : Z) (f : Flow) : Table := t <| flows := (flows t).[slot <- f] |>.
Definition set_out t (slot : Z) (a : OutAssociation) : Table := t <| outs := (outs t).[slot <- a] |>.
Definition set_in t (slot : Z) (a : InAssociation) : Table := t <| ins := (ins t).[slot <- a] |>.

Definition SendEnabled t : bool := is_some (outAssocDir t).
Definition ReceiveEnabled t : bool := is_some (inAssocDir t).

(** ** Initialisation *)

Definition AlignUp16 (n : Z) : Z := Z.land (u32 (n + 15)) (u32 (Z.lnot 15)).

Fixpoint round_up_loop (steps : nat) (v requested ceil : Z) : Z :=
  match steps with
  | O => v
  | Datatypes.S steps' => if (v <? requested) && (v <? ceil) then round_up_loop steps' (u32 (Z.shiftl v 1)) requested ceil else v
  end.
Definition RoundUpPow2 (requested floor ceil : Z) : Z := round_up_loop 32 floor requested ceil.

(** [mkPool] is a pool's [Init], and allocations succeed; the sizes are the compiler's. *)
Section Init.
Context (mkPool : Z -> Z -> S) (size_out size_flight size_waiting size_in size_held size_packet size_flow : Z).

Definition Out_StrideFor (inflightCap_ waitingCap_ : Z) : Z := size_out + inflightCap_ * size_flight + waitingCap_ * size_waiting + MAX_WIRE_PACKET_SIZE.
Definition In_StrideFor (windowBits_ reorderCap_ : Z) : Z := size_in + windowBits_ / 8 + reorderCap_ * size_held.

Definition init_dir (maxPeers width : Z) : list (list FlowDirEntry) := replicate (Z.to_nat maxPeers) (replicate (Z.to_nat width) no_dir).

(** Every slot of the flow pool is marked free. *)
Definition free_flows (n : Z) (fs : list Flow) : list Flow :=
  for_up 0 (Z.to_nat n) (fun i fs => fs.[i <- fs.[i] <| fl_flowId := INVALID_FLOW_ID |> <| fl_life := CLOSED |>]) fs.

Definition wait_cap (n : Z) : Z := u16 (if 0 <? n then RoundUpPow2 n 1 FLOW_RING_MAX else 0).

Definition init_out t (params : Params) : Error * Table :=
  if 0 <? pr_outCount params then
    if pr_maxOutPerPeer params =? 0 then (InvalidParam, t)
    else
      let t := t <| outInflightCap := u16 FLOW_WINDOW |> in
      let t := t <| outReliableWaitCap := wait_cap (pr_reliableWait params) |> <| outUnreliableWaitCap := wait_cap (pr_unreliableWait params) |> in
      let waitStrideCap := if outUnreliableWaitCap t <? outReliableWaitCap t then outReliableWaitCap t else outUnreliableWaitCap t in
      let t := t <| outAssocPool := Split_Init mkPool (outAssocPool t) (pr_outCount params) (Out_StrideFor (outInflightCap t) waitStrideCap)
                                      (pr_bulkOutCount params) (Out_StrideFor FLOW_WINDOW_BULK waitStrideCap) |> in
      let t := t <| bulkEnabled := 0 <? pr_bulkOutCount params |> in
      let t := t <| outAssocDir := Some (init_dir (pr_maxPeers params) (pr_maxOutPerPeer params)) |> in
      let t := if 0 <? pr_stagingCount params
               then t <| ft_pools := (ft_pools t) <| staging := mkPool (pr_stagingCount params) (AlignUp16 (size_packet + MAX_WIRE_PACKET_SIZE)) |> |> else t in
      if pr_flowCount params =? 0 then (InvalidParam, t)
      else
        let t := t <| flowPool := mkPool (pr_flowCount params) size_flow |> in
        let t := t <| flows := free_flows (al_capacity (flowPool t)) (flows t) |> in
        (Ok, t <| lastEpochById := replicate (Z.to_nat EPOCH_MEMORY_SIZE) 0 |>)
  else (Ok, t).

Definition init_in t (params : Params) : Error * Table :=
  if 0 <? pr_inCount params then
    if pr_maxInPerPeer params =? 0 then (InvalidParam, t)
    else
      let t := t <| inAssocPool := Split_Init mkPool (inAssocPool t) (pr_inCount params) (In_StrideFor FLOW_WINDOW FLOW_WINDOW)
                                     (pr_bulkInCount params) (In_StrideFor FLOW_WINDOW_BULK FLOW_WINDOW_BULK) |> in
      (Ok, t <| inAssocDir := Some (init_dir (pr_maxPeers params) (pr_maxInPerPeer params)) |>)
  else (Ok, t).

Definition FlowTable_Init t (params : Params) (sendPool : S) (recv : RecvWorld Q S) : Error * Table :=
  if (pr_outCount params =? 0) && (pr_inCount params =? 0) then (Ok, t)
  else
    let t := t <| ft_recv := recv |> <| ft_pools := (ft_pools t) <| sending := sendPool |> |> in
    let '(e, t) := init_out t params in
    if negb (bool_decide (e = Ok)) then (e, t)
    else
      let '(e, t) := init_in t params in
      if negb (bool_decide (e = Ok)) then (e, t)
      else (Ok, t <| ft_config := mk_flow_config (pr_retryIntervalMicros params) (pr_ackDelayMicros params)
                       (if 0 <? pr_flowStallTimeoutMicros params then pr_flowStallTimeoutMicros params else FLOW_STALL_TIMEOUT_DEFAULT) |>).
End Init.

(** [Shutdown]: every pool and directory the table owns; [shut] is a pool's.  What the
    table borrows is an argument of its operations, so there is no pointer to forget. *)
Definition FlowTable_Shutdown (shut : S -> S) t : Table :=
  let split_shut (sp : SplitAssocPool S) := mk_split (shut (standard sp)) (shut (bulk sp)) 0 0 in
  t <| flowPool := shut (flowPool t) |> <| outAssocPool := split_shut (outAssocPool t) |> <| inAssocPool := split_shut (inAssocPool t) |>
    <| ft_pools := (ft_pools t) <| staging := shut (staging (ft_pools t)) |> |>
    <| outAssocDir := None |> <| inAssocDir := None |> <| lastEpochById := [] |>.

(** ** Flows *)

Definition FindFlowById t (flowId : Z) : Z :=
  if flowId =? INVALID_FLOW_ID then INVALID
  else default INVALID (find_up 0 (Z.to_nat (al_capacity (flowPool t))) (fun slot => fl_flowId (flows t).[slot] =? flowId)).

Definition Open (hint : Z) t (flowId modeByte : Z) : option (FlowHandle * Table) :=
  let failed e := mk_flow_handle UINT32_MAX 0 INVALID_FLOW_ID 0 e in
  if flowId =? INVALID_FLOW_ID then Some (failed InvalidParam, t)
  else if FLOW_MODE_COUNT <=? modeByte then Some (failed InvalidParam, t)
  else
    let mode := mode_of modeByte in
    if bool_decide (mode = RELIABLE_ORDERED_BULK) && negb (bulkEnabled t) then Some (failed InvalidParam, t)
    else if negb (FindFlowById t flowId =? INVALID) then Some (failed AlreadyInUse, t)
    else
      '(flowSlot, s) ← al_acquire hint (flowPool t);
      let t := t <| flowPool := s |> in
      if flowSlot =? INVALID then Some (failed LimitReached, t)
      else
        let flowEpoch := u8 (Z.land ((lastEpochById t).[flowId] + 1) FLOW_EPOCH_MASK) in
        match EncodeFlowData mode flowEpoch Whole with
        | None => s ← al_release (flowPool t) flowSlot; Some (failed InvalidParam, t <| flowPool := s |>)
        | Some flowData =>
            let t := t <| lastEpochById := (lastEpochById t).[flowId <- flowEpoch] |> in
            let epoch := u32 (fl_epoch (flows t).[flowSlot] + 1) in
            let t := set_flow t flowSlot (mk_flow epoch INVALID flowId mode flowData OPEN) in
            Some (mk_flow_handle flowSlot epoch flowId flowData Ok, t)
        end.

Definition stale t (flow : FlowHandle) : bool := FlowHandle_Failed flow || (al_capacity (flowPool t) <=? fh_slot flow).

Definition StateOf t (flow : FlowHandle) : FlowLifecycle :=
  if stale t flow then CLOSED
  else let state := (flows t).[fh_slot flow] in if fl_epoch state =? fh_epoch flow then fl_life state else CLOSED.

Definition BeginClose t (flow : FlowHandle) : bool * Table :=
  if stale t flow then (false, t)
  else
    let state := (flows t).[fh_slot flow] in
    let began := (fl_epoch state =? fh_epoch flow) && bool_decide (fl_life state = OPEN) in
    (began, if began then set_flow t (fh_slot flow) (state <| fl_life := CLOSING |>) else t).

(** The next target of a closing flow: its address, its identity, its slot. *)
Definition NextAssocToClose t (flowSlot : Z) : option (Address * BcpId * Z) :=
  let assocSlot := fl_firstAssoc (flows t).[flowSlot] in
  if assocSlot =? INVALID then None
  else let assoc := (outs t).[assocSlot] in Some (oa_peerAddr assoc, oa_peerId assoc, assocSlot).

Definition FinishClose t (flowSlot : Z) : option Table :=
  let t := set_flow t flowSlot ((flows t).[flowSlot] <| fl_life := CLOSED |> <| fl_flowId := INVALID_FLOW_ID |>) in
  s ← al_release (flowPool t) flowSlot; Some (t <| flowPool := s |>).

Definition ModeOf t (flow : FlowHandle) : option FlowMode :=
  if stale t flow then None
  else
    let state := (flows t).[fh_slot flow] in
    if (fl_epoch state =? fh_epoch flow) && bool_decide (fl_life state = OPEN) then Some (fl_mode state) else None.

(** ** Associations of a peer *)

Definition FindOutAssoc t (peerSlot flowId : Z) : Z := FindFlowSlot (OutDirFor t peerSlot) flowId.
Definition OutAssocAt t (peerSlot dirIndex : Z) : Z := d_slot (OutDirFor t peerSlot).[dirIndex].

(** [StateOf] for one peer. *)
Definition StateOfPeer t (flow : FlowHandle) (peerSlot : Z) : FlowLifecycle :=
  let assocSlot := FindOutAssoc t peerSlot (fh_id flow) in
  if assocSlot =? INVALID then CLOSED else oa_life (outs t).[assocSlot].

Definition LinkAssociation t (flowSlot assocSlot : Z) : Table :=
  let flow := (flows t).[flowSlot] in
  let assoc := (outs t).[assocSlot] in
  set_flow (set_out t assocSlot (assoc <| oa_flowSlot := flowSlot |> <| oa_nextInFlow := fl_firstAssoc flow |>))
    flowSlot (flow <| fl_firstAssoc := assocSlot |>).

(** The walk of [UnlinkAssociation]: the slot before and the slot it stops at. *)
Fixpoint scan_list (fuel : nat) (os : list OutAssociation) (prev scan target : Z) : option (Z * Z) :=
  match fuel with
  | O => None
  | Datatypes.S fuel' =>
      if negb (scan =? INVALID) && negb (scan =? target) then scan_list fuel' os scan (oa_nextInFlow os.[scan]) target else Some (prev, scan)
  end.

Definition UnlinkAssociation t (flowSlot assocSlot : Z) : option Table :=
  if al_capacity (flowPool t) <=? flowSlot then Some t
  else
    '(prev, scan) ← scan_list (Datatypes.S (length (outs t))) (outs t) INVALID (fl_firstAssoc (flows t).[flowSlot]) assocSlot;
    if scan =? assocSlot then
      let node := (outs t).[assocSlot] in
      let next := oa_nextInFlow node in
      let t := set_out t assocSlot (node <| oa_nextInFlow := INVALID |> <| oa_flowSlot := INVALID |>) in
      Some (if prev =? INVALID then set_flow t flowSlot ((flows t).[flowSlot] <| fl_firstAssoc := next |>)
            else set_out t prev ((outs t).[prev] <| oa_nextInFlow := next |>))
    else Some t.

(** The byte a flow stamps, with its generation moved on by one. *)
Definition next_generation (data : Z) : Z := u8 (Z.land (FlowDataEpoch data + 1) FLOW_EPOCH_MASK).
Definition with_generation (data ep : Z) : Z := u8 (Z.lor (Z.land data (Z.lnot (Z.shiftl FLOW_EPOCH_MASK 3))) (Z.shiftl ep 3)).

Definition CreateAssociation (hint now : Z) t p (peerSlot flowId : Z) : option (Z * Table) :=
  let flowSlot := FindFlowById t flowId in
  if flowSlot =? INVALID then Some (INVALID, t)
  else
    let flow := (flows t).[flowSlot] in
    if negb (bool_decide (fl_life flow = OPEN)) then Some (INVALID, t)
    else
      let mode := fl_mode flow in
      let flowEpoch := next_generation (fl_flowData flow) in
      let t := set_flow t flowSlot (flow <| fl_flowData := with_generation (fl_flowData flow) flowEpoch |>) in
      '(assocSlot, s) ← Split_Acquire hint (outAssocPool t) (bool_decide (mode = RELIABLE_ORDERED_BULK));
      let t := t <| outAssocPool := s |> in
      if assocSlot =? INVALID then Some (INVALID, t)
      else
        let assoc := ResetOutAssoc (outs t).[assocSlot] peerSlot (p_addr p) (Some (p_id p)) flowId mode flowEpoch (WindowFor mode)
                       (if bool_decide (mode = UNRELIABLE) then outUnreliableWaitCap t else outReliableWaitCap t) now in
        let t := set_out t assocSlot (assoc <| oa_flowSlot := INVALID |> <| oa_nextInFlow := INVALID |>) in
        let '(at_, dir) := InsertFlowSlot (OutDirFor t peerSlot) flowId assocSlot in
        let t := set_out_dir t peerSlot dir in
        if zlen (OutDirFor t peerSlot) <=? at_ then
          s ← Split_Release (outAssocPool t) assocSlot; Some (INVALID, t <| outAssocPool := s |>)
        else Some (assocSlot, LinkAssociation t flowSlot assocSlot).

(** ** The send gate *)

Definition AdmitOut (hint : Z) t p (peerSlot : Z) (packet : PacketSlot) (packetSlot wireSize : Z) (flying : bool) (now : Z)
  : option (SendAdmission * Table * Peer * PacketSlot) :=
  if negb (SendEnabled t) then Some (Dead, t, p, packet)
  else
    let flowId := FlowId packet in
    if flowId =? INVALID_FLOW_ID then Some (Dead, t, p, packet)
    else
      '(assocSlot, t) ← (let found := FindOutAssoc t peerSlot flowId in
                         if found =? INVALID then CreateAssociation hint now t p peerSlot flowId else Some (found, t));
      if assocSlot =? INVALID then Some (Dead, t, p, packet)
      else
        '(r, a, p, packet, k) ← AdmitAssoc (outs t).[assocSlot] p (ft_pools t) packet flowId packetSlot wireSize flying now;
        Some (r, (set_out t assocSlot a) <| ft_pools := k |>, p, packet).

(** ** The first arrival *)

Definition AdmitInFlow (hint : Z) t (peerSlot : Z) (from : Address) (peerId : BcpId) (flowId flowData now : Z) : option (FlowAdmit * Table) :=
  match DecodeFlowData flowData with
  | None => Some (FRejected, t)
  | Some (mode, flowEpoch, _) =>
      let existing := FindFlowSlot (InDirFor t peerSlot) flowId in
      if negb (existing =? INVALID) then
        let assoc := (ins t).[existing] in
        let order := CompareFlowEpoch (ia_flowEpoch assoc) flowEpoch in
        let order := match order with
                     | Stale => if flowStallTimeout (ft_config t) <? Elapsed now (lastProgressMicros assoc) then Newer else Stale
                     | o => o
                     end in
        match order with
        | Current => Some (FExisting, t)
        | Stale => Some (FStale, t)
        | Newer =>
            if negb (Bool.eqb (IsBulk (inAssocPool t) existing) (bool_decide (mode = RELIABLE_ORDERED_BULK))) then Some (FRejected, t)
            else
              '(assoc, k) ← DrainInHoldback assoc (ft_recv t);
              let assoc := ResetInAssoc assoc peerSlot from (Some peerId) flowId mode flowEpoch (WindowFor mode) (ReorderCapFor mode) now in
              Some (FReopened, (set_in t existing assoc) <| ft_recv := k |>)
        end
      else
        '(flowSlot, s) ← Split_Acquire hint (inAssocPool t) (bool_decide (mode = RELIABLE_ORDERED_BULK));
        let t := t <| inAssocPool := s |> in
        if flowSlot =? INVALID then Some (FRejected, t)
        else
          let t := set_in t flowSlot (ResetInAssoc (ins t).[flowSlot] peerSlot from (Some peerId) flowId mode flowEpoch (WindowFor mode) (ReorderCapFor mode) now) in
          let '(at_, dir) := InsertFlowSlot (InDirFor t peerSlot) flowId flowSlot in
          let t := set_in_dir t peerSlot dir in
          if at_ =? zlen (InDirFor t peerSlot) then s ← Split_Release (inAssocPool t) flowSlot; Some (FRejected, t <| inAssocPool := s |>)
          else Some (FRegistered, t)
  end.

(** The verdict, the association the packet belongs to, its generation. *)
Definition AdmitIn (hint : Z) t (peerSlot : Z) (from : Address) (peerId : BcpId) (flowId flowData now : Z) : option (FlowAdmit * Z * Z * Table) :=
  '(verdict, t) ← AdmitInFlow hint t peerSlot from peerId flowId flowData now;
  match verdict with
  | FRejected | FStale => Some (verdict, INVALID, 0, t)
  | FRegistered | FExisting | FReopened =>
      let outAssoc := FindFlowSlot (InDirFor t peerSlot) flowId in
      if outAssoc =? INVALID then Some (verdict, INVALID, 0, t) else Some (verdict, outAssoc, ia_epoch (ins t).[outAssoc], t)
  end.

(** [DeliverIn] at a slot. *)
Definition DeliverAt t (assocSlot flowId assocEpoch seq incoming now now' : Z) : option (Z * Z * Table) :=
  '(produced, incoming, a, k) ← DeliverIn (ins t).[assocSlot] (ft_recv t) flowId assocEpoch seq incoming now now';
  Some (produced, incoming, (set_in t assocSlot a) <| ft_recv := k |>).

(** ** Teardown *)

Definition UnpublishOut t (peerSlot assocSlot : Z) : Table := set_out_dir t peerSlot (EraseFlowSlot (OutDirFor t peerSlot) assocSlot).

Definition FreeAssoc t (flowSlot : Z) (refundTo : option Peer) : option (Table * option Peer) :=
  let owningFlow := oa_flowSlot (outs t).[flowSlot] in
  t ← (if negb (owningFlow =? INVALID) then UnlinkAssociation t owningFlow flowSlot else Some t);
  '(a, refundTo, ends, k) ← FreeAssocBody (outs t).[flowSlot] refundTo (ft_pools t);
  let t := (set_out t flowSlot a) <| ft_pools := k |> in
  if ends : bool then s ← Split_Release (outAssocPool t) flowSlot; Some (t <| outAssocPool := s |>, refundTo) else Some (t, refundTo).

Definition FailAssocAt t (flowSlot flowId : Z) (refundTo : option Peer) : option (bool * Table * option Peer) :=
  '(failed, a, refundTo, k) ← FailAssoc (outs t).[flowSlot] flowId refundTo (ft_pools t);
  Some (failed, (set_out t flowSlot a) <| ft_pools := k |>, refundTo).

(** One entry of the two loops of [SweepPeer]. *)
Definition sweep_out_entry (peerSlot i : Z) t : option Table :=
  let flowSlot := d_slot (OutDirFor t peerSlot).[i] in
  if flowSlot =? INVALID then Some t
  else '(t, _) ← FreeAssoc (set_out_dir t peerSlot (OutDirFor t peerSlot).[i <- no_dir]) flowSlot None; Some t.

Definition sweep_in_entry (peerSlot i : Z) t : option Table :=
  let flowSlot := d_slot (InDirFor t peerSlot).[i] in
  if flowSlot =? INVALID then Some t
  else
    let t := set_in_dir t peerSlot (InDirFor t peerSlot).[i <- no_dir] in
    '(assoc, k) ← DrainInHoldback (ins t).[flowSlot] (ft_recv t);
    let t := (set_in t flowSlot (assoc <| ia_life := CLOSED |>)) <| ft_recv := k |> in
    if negb (ia_emitting assoc) then s ← Split_Release (inAssocPool t) flowSlot; Some (t <| inAssocPool := s |>) else Some t.

Definition SweepOut t (peerSlot : Z) : option Table :=
  if SendEnabled t then for_upM 0 (length (OutDirFor t peerSlot)) (sweep_out_entry peerSlot) t else Some t.
Definition SweepIn t (peerSlot : Z) : option Table :=
  if ReceiveEnabled t then for_upM 0 (length (InDirFor t peerSlot)) (sweep_in_entry peerSlot) t else Some t.
Definition SweepFlows t (peerSlot : Z) : option Table := t ← SweepOut t peerSlot; SweepIn t peerSlot.

(** ** Closing a flow: [Socket::CloseFlow] *)

(** What the peer table answers: a slot by identity, or by address when the identity
    is unset; [peers] is its memory. *)
Section Close.
Context (by_addr : Address -> option Z) (by_id : BcpId -> option Z).

Definition owner_of (addr : Address) (id : BcpId) : option Z := if bool_decide (id_bytes id = replicate 32 0) then by_addr addr else by_id id.

(** One turn of the loop, for one target. *)
Definition close_one t (peers : list Peer) (addr : Address) (id : BcpId) (assocSlot : Z) : option (Table * list Peer) :=
  match owner_of addr id with
  | Some slot =>
      '(t, owner) ← FreeAssoc (UnpublishOut t slot assocSlot) assocSlot (Some peers.[slot]);
      Some (t, match owner with Some p => peers.[slot <- p] | None => peers end)
  | None => '(t, _) ← FreeAssoc t assocSlot None; Some (t, peers)
  end.

Fixpoint close_loop (fuel : nat) t (peers : list Peer) (flowSlot : Z) : option (Table * list Peer) :=
  match NextAssocToClose t flowSlot with
  | None => Some (t, peers)
  | Some (addr, id, assocSlot) =>
      match fuel with
      | O => None
      | Datatypes.S fuel' => '(t, peers) ← close_one t peers addr id assocSlot; close_loop fuel' t peers flowSlot
      end
  end.

(** The socket has been initialised and the open batches have left ([Flush]). *)
Definition CloseFlow t (peers : list Peer) (flow : FlowHandle) : option (Error * Table * list Peer) :=
  if negb (SendEnabled t) then Some (NotInitialized, t, peers)
  else
    let '(began, t) := BeginClose t flow in
    if negb began then Some (InvalidState, t, peers)
    else
      '(t, peers) ← close_loop (length (outs t)) t peers (fh_slot flow);
      t ← FinishClose t (fh_slot flow);
      Some (Ok, t, peers).
End Close.

(** ** Events out *)

Inductive EventScope := OUT_FLOW | IN_FLOW | PEER.

Definition MarkEmitting (scope : EventScope) t (assocSlot : Z) : Table :=
  match scope with
  | OUT_FLOW => if Split_GetCapacity (outAssocPool t) <=? assocSlot then t else set_out t assocSlot ((outs t).[assocSlot] <| oa_emitting := true |>)
  | _ => if Split_GetCapacity (inAssocPool t) <=? assocSlot then t else set_in t assocSlot ((ins t).[assocSlot] <| ia_emitting := true |>)
  end.

Definition ClearEmittingFlow (scope : EventScope) t (assocSlot : Z) : option Table :=
  match scope with
  | OUT_FLOW =>
      if Split_GetCapacity (outAssocPool t) <=? assocSlot then Some t
      else
        let assoc := (outs t).[assocSlot] <| oa_emitting := false |> in
        let t := set_out t assocSlot assoc in
        if bool_decide (oa_life assoc = CLOSED) then s ← Split_Release (outAssocPool t) assocSlot; Some (t <| outAssocPool := s |>) else Some t
  | _ =>
      if Split_GetCapacity (inAssocPool t) <=? assocSlot then Some t
      else
        let assoc := (ins t).[assocSlot] <| ia_emitting := false |> in
        let t := set_in t assocSlot assoc in
        if bool_decide (ia_life assoc = CLOSED) then s ← Split_Release (inAssocPool t) assocSlot; Some (t <| inAssocPool := s |>) else Some t
  end.

Definition OutAssocEpochIs t (assocSlot flowEpoch : Z) : bool :=
  if Split_GetCapacity (outAssocPool t) <=? assocSlot then false else oa_flowEpoch (outs t).[assocSlot] =? flowEpoch.

(** ** Walks over a peer's receiving associations *)

Definition ack_due t (now : Z) (a : InAssociation) : bool :=
  (0 <? newSinceFlush a) && (ackImmediate a || (ACK_EVERY_PACKETS <=? newSinceFlush a) || (flowAckDelayMicros (ft_config t) <=? Elapsed now (ackArmedMicros a))).

Definition any_in t (peerSlot : Z) (test : InAssociation -> bool) : bool :=
  existsb (fun e => negb (d_slot e =? INVALID) && test (ins t).[d_slot e]) (InDirFor t peerSlot).
Definition AnyAckDue t (peerSlot now : Z) : bool := any_in t peerSlot (ack_due t now).
Definition AnyJammed t (peerSlot now : Z) : bool := any_in t peerSlot (fun a => InAssocJammed (flowStallTimeout (ft_config t)) a now).

Definition reclaim_entry (peerSlot now i : Z) (st : Z * Table) : option (Z * Table) :=
  let '(reclaimed, t) := st in
  let flowSlot := d_slot (InDirFor t peerSlot).[i] in
  if flowSlot =? INVALID then Some (reclaimed, t)
  else
    '(n, a, k) ← ReclaimJammed (flowStallTimeout (ft_config t)) now peerSlot (ins t).[flowSlot] (ft_recv t);
    Some (reclaimed + n, (set_in t flowSlot a) <| ft_recv := k |>).
Definition ReclaimJammedInFlows t (peerSlot now : Z) : option (Z * Table) :=
  for_upM 0 (length (InDirFor t peerSlot)) (reclaim_entry peerSlot now) (0, t).

Definition InAssocCountForPeer t (peerSlot : Z) : Z := zlen (filter (fun e => d_slot e <> INVALID) (InDirFor t peerSlot)).

Definition PeerAckBody t (peerSlot cap now : Z) : list Z * Table :=
  let '(body, i) := BuildPeerAckBody (InDirFor t peerSlot) (ins t) cap now in (body, t <| ins := i |>).

(** ** The next deadline *)

(** When the oldest outstanding packet of a ring was sent; 0 is overdue. *)
Fixpoint oldest_sent (ring : list InFlightEntry) (oldest : option Z) : option Z :=
  match ring with
  | [] => oldest
  | e :: ring' =>
      if (e_seq e =? 0) || e_acked e then oldest_sent ring' oldest
      else if e_sentAt e =? 0 then Some 0
      else oldest_sent ring' (match oldest with None => Some (e_sentAt e) | Some o => if e_sentAt e <? o then Some (e_sentAt e) else Some o end)
  end.

Definition in_deadline t (a : InAssociation) : option Z :=
  if 0 <? newSinceFlush a then Some (u64 (ackArmedMicros a + flowAckDelayMicros (ft_config t))) else None.
Definition out_deadline t p (now : Z) (a : OutAssociation) : option Z :=
  if bool_decide (oa_life a = OPEN) && (0 <? unresolved a) then
    let rto := probe_interval (ft_config t) p now in
    (fun oldest => if oldest =? 0 then now else u64 (oldest + rto)) <$> oldest_sent (InFlight a) None
  else None.

Definition consider (soonest : Z) (deadline : option Z) : Z :=
  match deadline with Some d => if d <? soonest then d else soonest | None => soonest end.

Definition NextDeadline t (peerSlot : Z) p (now : Z) : Z :=
  let soonest := UINT64_MAX in
  let soonest := if ReceiveEnabled t
    then fold_left (fun s e => if d_slot e =? INVALID then s else consider s (in_deadline t (ins t).[d_slot e])) (InDirFor t peerSlot) soonest else soonest in
  if SendEnabled t
  then fold_left (fun s e => if d_slot e =? INVALID then s else consider s (out_deadline t p now (outs t).[d_slot e])) (OutDirFor t peerSlot) soonest else soonest.

(** ** The tick and the drain, at a slot *)

Definition RetransmitAt t (assocSlot : Z) p (now : Z) (d : CongestionDelta) : option (Z * bool * Table * Peer * CongestionDelta * list (Z * Z)) :=
  '(flowId, dead, s) ← RetransmitPass (ft_config t) (outs t).[assocSlot] p now d (ft_pools t);
  Some (flowId, dead, (set_out t assocSlot (rs_out s)) <| ft_pools := rs_pools s |>, rs_peer s, rs_delta s, resends s).

Definition RefundAt t (assocSlot : Z) (seqs : list Z) : Table := set_out t assocSlot (RefundResendAttempts (outs t).[assocSlot] seqs).

Definition PeekWaitingFor t (peerSlot : Z) p : bool * WaitingCandidate := PeekWaiting (outs t) (map d_slot (OutDirFor t peerSlot)) p.

Definition ClaimAt t (c : WaitingCandidate) p (packet : PacketSlot) (now : Z) : bool * Table * Peer * PacketSlot :=
  let '(b, a, p, packet) := ClaimWaiting c (outs t).[wc_assoc c] p packet now in (b, set_out t (wc_assoc c) a, p, packet).

(** ** Acknowledgements and refusals that arrive *)

Definition ApplyAckRanges t (peerSlot : Z) p (e : AckEntry) (now : Z) (d : CongestionDelta) : option (Table * CongestionDelta) :=
  let flowSlot := FindOutAssoc t peerSlot (ak_flowId e) in
  if flowSlot =? INVALID then Some (t, d)
  else
    '(a, d, k) ← ApplyAck (outs t).[flowSlot] (ak_flowId e) (ak_epoch e) (ak_recvNext e) (ak_delay e) (ak_ranges e) now
                   (LossDelayMicros (rtt (p_cc p)) (retryIntervalMicros (ft_config t))) d (ft_pools t);
    Some ((set_out t flowSlot a) <| ft_pools := k |>, d).

Fixpoint apply_entries (es : list AckEntry) t (peerSlot : Z) p (now : Z) (d : CongestionDelta) : option (Table * CongestionDelta) :=
  match es with
  | [] => Some (t, d)
  | e :: es' => '(t, d) ← ApplyAckRanges t peerSlot p e now d; apply_entries es' t peerSlot p now d
  end.

(** [Socket::Flow_Ack] for the peer in slot [peerSlot]; a peer that is no longer valid
    keeps its record. *)
Definition Flow_Ack (c : CcConfig) t (peerSlot : Z) p (payload : list Z) (now : Z) : option (Table * Peer) :=
  if negb (SendEnabled t) then Some (t, p)
  else
    '(t, d) ← apply_entries (ack_entries payload) t peerSlot p now no_delta;
    Some (t, if IsValid p then p <| p_cc := ApplyCongestion c ((p_cc p) <| rtt := MarkAcked (rtt (p_cc p)) now |>) d now |> else p).

(** [Socket::Flow_Reject] for that peer: whether an event is due. *)
Definition Flow_Reject t (peerSlot : Z) p (payload : list Z) : option (bool * Table * Peer) :=
  if negb (SendEnabled t) || (zlen payload <? 3) then Some (false, t, p)
  else
    let flowId := le_at payload 0 2 in
    let flowEpoch := Z.land payload.[2] FLOW_EPOCH_MASK in
    if negb (IsValid p) then Some (false, t, p)
    else
      let flowSlot := FindOutAssoc t peerSlot flowId in
      if flowSlot =? INVALID then Some (false, t, p)
      else if negb (OutAssocEpochIs t flowSlot flowEpoch) then Some (false, t, p)
      else '(failed, t, p') ← FailAssocAt t flowSlot flowId (Some p); Some (failed, t, default p p').
End Table.
