(* ===== verification/FlowTableOk.v ===== *)
(** * The flow table's invariant

    What ties the table together: a flow's list enumerates exactly its associations,
    every association is published once, in its own peer's directory under its flow's
    id, every leased slot is on a list or waits for its event to be read, and every
    packet slot an association keeps is its own.  One operation on one association
    keeps all that, whatever it does to its rings. *)

From stdpp Require Import gmap.
From S2P Require Import Prelude Wire Errors Keys FlowData SlotPool ReadyLanes Rtt Delivery Curve Congestion Peer InFlow InDeliver Packet PacketHandle PacketBuild OutFlow OutRetransmit OutInvariant OutSteps OutSend OutEnd OutHistory OutTheorems FlowDir AckWire FlowTable.

(** ** What an association is, apart from its rings *)

Definition out_ident (a : OutAssociation) :=
  (oa_peerSlot a, (oa_peerAddr a, oa_peerId a), (oa_flowSlot a, oa_nextInFlow a), (oa_flowId a, oa_flowEpoch a), oa_mode a, oa_epoch a, oa_life a, oa_emitting a).

Section Ident.
Context {S : Type} `{!Allocator S}.
Implicit Types (a : OutAssociation) (k : OutPools S) (p : Peer) (d : CongestionDelta).

Lemma bind_some {A B} (m : option A) (f : A -> option B) b : (m ≫= f) = Some b -> exists x, m = Some x /\ f x = Some b.
Proof. destruct m as [x|]; [|done]. intros H. by exists x. Qed.

Lemma Resolve_ident a i acked d k a' d' k' : ResolveOutEntry a i acked d k = Some (a', d', k') -> out_ident a' = out_ident a.
Proof.
  unfold ResolveOutEntry. destruct (_ || _); [by intros [= <- _ _]|]. destruct (0 <? unresolved a), (acked && _);
    try (intros [= <- _ _]; done); intros (k1&_&H)%bind_some; by injection H as <- _ _.
Qed.

Lemma scan_ident rn rs i s s' : scan_entry (S:=S) rn rs i s = Some s' -> out_ident (as_out s') = out_ident (as_out s).
Proof.
  unfold scan_entry. destruct (_ =? 0); [by intros [= <-]|]. destruct (_ || _); [|by intros [= <-]].
  intros ([[a d] k]&E&H)%bind_some. injection H as <-. apply Resolve_ident in E. cbn [as_out upd]. rewrite E. by repeat case_match.
Qed.

Lemma declare_ident la now ld i st : out_ident (declare_entry la now ld i st).1 = out_ident st.1.
Proof. destruct st as [a d]. unfold declare_entry. by repeat case_match. Qed.
Lemma Declare_ident a la now ld d : out_ident (DeclareLostBelow a la now ld d).1 = out_ident a.
Proof.
  unfold DeclareLostBelow. destruct (bool_decide _); [done|].
  apply (for_up_inv (fun _ st => out_ident st.1 = out_ident a)); [done|]. intros i st _ H. by rewrite declare_ident.
Qed.

Lemma release_run_ident n : forall a rn k a' k', release_run (S:=S) n a rn k = Some (a', k') -> out_ident a' = out_ident a.
Proof.
  induction n as [|n IH]; intros a rn k a' k'; cbn [release_run]; destruct (_ && _); try (by intros [= <- _]).
  destruct (_ && negb _); [by intros [= <- _]|]. intros ([a1 k1]&E&H)%bind_some. apply IH in H. rewrite H.
  destruct (e_seq _ =? _); [|by injection E as <- _]. apply bind_some in E as (k2&_&E). by injection E as <- _.
Qed.

Lemma ApplyAck_ident a f e rn rad rs now ld d k a' d' k' : ApplyAck a f e rn rad rs now ld d k = Some (a', d', k') -> out_ident a' = out_ident a.
Proof.
  unfold ApplyAck. destruct (_ || _); [by intros [= <- _ _]|]. intros (s&Es&H)%bind_some.
  apply (for_upM_keep (fun s => out_ident (as_out s) = out_ident a)) in Es; [|intros i s1 s2 E1 E2; apply scan_ident in E1; congruence|done].
  set (x := if anyAcked s then _ else _) in H. assert (Ex : out_ident x.1 = out_ident a).
  { subst x. destruct (anyAcked s); [|done]. rewrite Declare_ident. exact Es. }
  destruct x as [a1 d1]. apply bind_some in H as ([a2 k2]&E2&H). injection H as <- _ _. apply release_run_ident in E2. cbn in Ex. congruence.
Qed.

Lemma rescan_ident f now rto i s s' : rescan_entry (S:=S) f now rto i s = Some s' -> out_ident (rs_out s') = out_ident (rs_out s).
Proof.
  unfold rescan_entry. destruct (_ =? 0); [by intros [= <-]|]. destruct (e_acked _).
  - destruct (_ || _); [by intros [= <-]|]. destruct (may_resend _ _ _) as [[] p]; by intros [= <-].
  - destruct (_ <? _); [by intros [= <-]|]. destruct (bool_decide _).
    + intros ([[a d] k]&E&H)%bind_some. injection H as <-. by apply Resolve_ident in E.
    + destruct (may_resend _ _ _) as [[] p]; by intros [= <-].
Qed.

Lemma RetransmitPass_ident f a p now d k id dead s : RetransmitPass f a p now d k = Some (id, dead, s) -> out_ident (rs_out s) = out_ident a.
Proof.
  unfold RetransmitPass. destruct (oa_life a); try (by intros [= _ _ <-]). intros ([dead' s']&E&H)%bind_some. injection H as _ _ <-.
  unfold RetransmitInflight in E. destruct (_ && _); [by injection E as _ <-|]. apply bind_some in E as (s1&E&H). injection H as _ <-.
  apply (for_upM_keep (fun s => out_ident (rs_out s) = out_ident a)) in E; [done| |done]. intros i s1' s2 E1 E2. apply rescan_ident in E1. congruence.
Qed.

Lemma AdmitAssoc_ident a p k packet id x ws fl now r a' p' packet' k' : AdmitAssoc a p k packet id x ws fl now = Some (r, a', p', packet', k') -> out_ident a' = out_ident a.
Proof.
  unfold AdmitAssoc. destruct (_ || _); [by intros [= _ <- _ _ _]|]. destruct (if _ && _ then _ else _) as [[] p1]; [by intros [= _ <- _ _ _]|].
  destruct (_ <? _); [by intros [= _ <- _ _ _]|]. destruct (negb _); [by intros [= _ <- _ _ _]|]. destruct (0 <? _); [|by intros [= _ <- _ _ _]].
  intros (s&_&H)%bind_some. by injection H as _ <- _ _ _.
Qed.

Lemma ClaimWaiting_ident c a p packet now b a' p' packet' : ClaimWaiting c a p packet now = (b, a', p', packet') -> out_ident a' = out_ident a.
Proof.
  unfold ClaimWaiting. destruct (_ && _); [|by intros [= _ <- _ _]]. destruct (_ && _); [|by intros [= _ <- _ _]].
  destruct (PacingAllows _ _ _) as [[] p1]; by intros [= _ <- _ _].
Qed.

Lemma Refund_ident a seqs : out_ident (RefundResendAttempts a seqs) = out_ident a.
Proof.
  unfold RefundResendAttempts. revert a. induction seqs as [|x l IH]; intros a; [done|]. cbn [fold_left]. rewrite IH. unfold refund_attempt. by repeat case_match.
Qed.

Lemma drain_entry_ident i st st' : drain_entry (S:=S) i st = Some st' -> out_ident st'.1.1.1 = out_ident st.1.1.1.
Proof.
  destruct st as [[[a b] n] k]. unfold drain_entry. destruct (negb _ && negb _); intros (k1&_&H)%bind_some; by injection H as <-.
Qed.
Lemma drain_waiting_ident n : forall a k a' k', drain_waiting (S:=S) n a k = Some (a', k') -> out_ident a' = out_ident a.
Proof.
  induction n as [|n IH]; intros a k a' k'; cbn [drain_waiting]; [by intros [= <- _]|].
  destruct (0 <? _); [|by intros [= <- _]]. intros (k4&_&H)%bind_some. apply IH in H. by rewrite H.
Qed.
Lemma Drains_ident a k a1 b n k1 a2 k2 : DrainOutInflight a k = Some (a1, b, n, k1) -> DrainOutWaiting a1 k1 = Some (a2, k2) -> out_ident a2 = out_ident a.
Proof.
  unfold DrainOutInflight. intros ([[[a0 b0] n0] k0]&E&H)%bind_some H2. injection H as <- _ _ <-.
  apply (for_upM_keep (fun st => out_ident st.1.1.1 = out_ident a)) in E; [|intros i s1 s2 E1 E2; apply drain_entry_ident in E1; congruence|done].
  apply drain_waiting_ident in H2. by rewrite H2.
Qed.
End Ident.
