(* ===== verification/FlowLists.v ===== *)
(** * The list that links a flow to its targets

    [LinkAssociation] and [UnlinkAssociation] of [flux/flow/assoc_directory.cpp]: a
    singly linked list through the association slots, headed by the flow.  [flow_chain]
    says which slots a head enumerates; linking puts a slot in front, unlinking takes
    one out wherever it is, and both leave every other field as it was. *)

From stdpp Require Import gmap.
From S2P Require Import Prelude Wire Errors Keys FlowData SlotPool ReadyLanes OutFlow FlowDir FlowTable.

Implicit Types (a : OutAssociation) (os : list OutAssociation).

(** [h] heads the list [l]. *)
Fixpoint flow_chain os (h : Z) (l : list Z) : Prop :=
  match l with
  | [] => h = INVALID
  | s :: l' => h = s /\ 0 <= s < zlen os /\ s <> INVALID /\ flow_chain os (oa_nextInFlow os.[s]) l'
  end.

(** Everything but the link. *)
Definition unlinked a : OutAssociation := a <| oa_nextInFlow := INVALID |>.

Lemma chain_elem os : forall l h s, flow_chain os h l -> s ∈ l -> 0 <= s < zlen os /\ s <> INVALID.
Proof.
  induction l as [|x l IH]; intros h s H Hs; [by apply not_elem_of_nil in Hs|]. destruct H as (_&?&?&H).
  apply elem_of_cons in Hs as [->|Hs]; [done|]. by apply (IH (oa_nextInFlow os.[x])).
Qed.

Lemma chain_ext os os' : forall l h, zlen os' = zlen os -> (forall s, s ∈ l -> oa_nextInFlow os'.[s] = oa_nextInFlow os.[s]) ->
  flow_chain os h l -> flow_chain os' h l.
Proof.
  induction l as [|x l IH]; intros h Hz He H; [done|]. destruct H as (->&?&?&H). cbn [flow_chain]. split; [done|]. split; [lia|]. split; [done|].
  rewrite He by left. apply IH; [done| |done]. intros s Hs. apply He. by right.
Qed.

Lemma chain_set os l h s a : s ∉ l -> 0 <= s -> flow_chain os h l -> flow_chain os.[s <- a] h l.
Proof.
  intros Hs H0 H. apply (chain_ext os); [apply zlen_set| |done]. intros x Hx. destruct (chain_elem _ _ _ _ H Hx).
  rewrite arr_get_set_ne; [done|lia|lia|by intros ->].
Qed.

Lemma chain_set_next os l h s a : 0 <= s < zlen os -> oa_nextInFlow a = oa_nextInFlow os.[s] -> flow_chain os h l -> flow_chain os.[s <- a] h l.
Proof.
  intros Hs E H. apply (chain_ext os); [apply zlen_set| |done]. intros x Hx. destruct (chain_elem _ _ _ _ H Hx).
  rewrite arr_get_set by lia. destruct (Z.eqb_spec s x) as [<-|]; done.
Qed.

(** The last slot of a list, [prev] when it is empty. *)
Definition last_or (prev : Z) (l : list Z) : Z := default prev (last l).

Lemma last_or_cons prev x l : last_or prev (x :: l) = last_or x l.
Proof. unfold last_or. rewrite last_cons. by destruct (last l). Qed.

Lemma scan_list_ok os s : forall l1 l2 h prev fuel, flow_chain os h (l1 ++ s :: l2) -> s ∉ l1 -> (length l1 < fuel)%nat ->
  scan_list fuel os prev h s = Some (last_or prev l1, s).
Proof.
  induction l1 as [|x l1 IH]; intros l2 h prev fuel H Hn Hf; (destruct fuel as [|fuel]; [cbn in Hf; lia|]); cbn [scan_list].
  - destruct H as (->&_). by rewrite Z.eqb_refl, andb_false_r.
  - destruct H as (->&?&?&H). apply not_elem_of_cons in Hn as [Hx Hn]. destruct (Z.eqb_spec x INVALID); [done|]. destruct (Z.eqb_spec x s); [done|].
    cbn [negb andb]. rewrite (IH l2) by (done || cbn in Hf; lia). by rewrite last_or_cons.
Qed.

(** Taking [s] out: what precedes it now leads to what follows it. *)
Lemma chain_unlink os s : forall l1 l2 h, flow_chain os h (l1 ++ s :: l2) -> NoDup (l1 ++ s :: l2) ->
  let next := oa_nextInFlow os.[s] in let prev := last_or INVALID l1 in
  if prev =? INVALID then l1 = [] /\ flow_chain os next l2
  else prev ∈ l1 /\ flow_chain os.[prev <- os.[prev] <| oa_nextInFlow := next |>] h (l1 ++ l2).
Proof.
  cbv zeta. induction l1 as [|x l1 IH]; intros l2 h H Hn.
  - cbn. rewrite Z.eqb_refl. destruct H as (_&_&_&H). done.
  - destruct H as (->&Hx&Hv&H). cbn [app] in Hn. apply NoDup_cons in Hn as [Hnx Hn]. rewrite last_or_cons.
    specialize (IH l2 _ H Hn). destruct l1 as [|y l1].
    + cbn in H |- *. destruct (Z.eqb_spec x INVALID); [done|]. split; [by left|]. destruct H as (E&?&?&H). cbn [app flow_chain].
      split; [done|]. rewrite zlen_set. split; [done|]. split; [done|]. rewrite arr_get_set_eq by done. cbn.
      apply chain_set; [|lia|done]. intros Hl. apply Hnx. cbn. right. done.
    + rewrite last_or_cons in IH |- *. assert (Hin : last_or y l1 ∈ y :: l1).
      { clear. unfold last_or. destruct (last l1) as [z|] eqn:E; [|by left]. right. by apply last_Some_elem_of. }
      destruct (Z.eqb_spec (last_or y l1) INVALID) as [E|E]; [by destruct IH|]. destruct IH as [_ IH]. split; [by right|].
      cbn [app flow_chain] in IH |- *. assert (Hne : last_or y l1 <> x) by (intros <-; apply Hnx; by apply elem_of_app; left).
      destruct (chain_elem _ _ _ (last_or y l1) H) as [? _]; [by apply elem_of_app; left|].
      rewrite zlen_set in *. split; [done|]. split; [done|]. split; [done|]. rewrite arr_get_set_ne by lia. exact IH.
Qed.

Lemma arr_set_comm {A} (l : list A) i j x y : 0 <= i -> 0 <= j -> i <> j -> (l.[i <- x]).[j <- y] = (l.[j <- y]).[i <- x].
Proof. intros. unfold arr_set. apply list_insert_insert_ne. lia. Qed.

Section Lists.
Context {Q S : Type} `{!ReadyQueue Q} `{!Allocator S}.
Implicit Types (t : FlowTable Q S).

(** Only the lists move: the table but for its flows and associations. *)
Definition same_rest t t' : Prop := t' = t <| flows := flows t' |> <| outs := outs t' |>.

Lemma Unlink_ok t f s l1 l2 : 0 <= f < al_capacity (flowPool t) -> f < zlen (flows t) ->
  flow_chain (outs t) (fl_firstAssoc (flows t).[f]) (l1 ++ s :: l2) -> NoDup (l1 ++ s :: l2) ->
  exists t' h, UnlinkAssociation t f s = Some t' /\ same_rest t t' /\ zlen (outs t') = zlen (outs t) /\
    flows t' = (flows t).[f <- (flows t).[f] <| fl_firstAssoc := h |>] /\ flow_chain (outs t') h (l1 ++ l2) /\
    (outs t').[s] = (outs t).[s] <| oa_nextInFlow := INVALID |> <| oa_flowSlot := INVALID |> /\
    (forall x, 0 <= x -> x <> s -> unlinked (outs t').[x] = unlinked (outs t).[x]) /\
    (forall x, 0 <= x -> x ∉ l1 ++ s :: l2 -> (outs t').[x] = (outs t).[x]).
Proof.
  intros Hf Hz H Hn. unfold UnlinkAssociation. destruct (Z.leb_spec (al_capacity (flowPool t)) f); [lia|].
  assert (Hs : 0 <= s < zlen (outs t) /\ s <> INVALID) by (apply (chain_elem _ _ _ s H); apply elem_of_app; right; left).
  assert (Hn1 : s ∉ l1) by (apply NoDup_app in Hn as (_&Hd&_); intros Hin; apply (Hd s Hin); left).
  assert (Hfuel : (length l1 < Datatypes.S (length (outs t)))%nat).
  { assert (length (l1 ++ s :: l2) <= length (outs t))%nat; [|rewrite length_app in *; cbn in *; lia].
    rewrite <- (length_seq (length (outs t)) 0), <- (length_map Z.of_nat). apply submseteq_length, NoDup_submseteq; [done|].
    intros x Hx. destruct (chain_elem _ _ _ x H Hx) as [Hr _]. unfold zlen in Hr. apply elem_of_map. exists (Z.to_nat x). split; [lia|].
    apply elem_of_seq. lia. }
  rewrite (scan_list_ok (outs t) s l1 l2) by done. cbn [mbind option_bind]. rewrite Z.eqb_refl.
  pose proof (chain_unlink (outs t) s l1 l2 _ H Hn) as Hu. cbv zeta in Hu. set (prev := last_or INVALID l1) in *.
  set (a' := (outs t).[s] <| oa_nextInFlow := INVALID |> <| oa_flowSlot := INVALID |>).
  assert (Hn2 : s ∉ l1 ++ l2) by (apply NoDup_app in Hn as (_&_&Hn2); apply NoDup_cons in Hn2 as [Hn2 _]; by apply not_elem_of_app).
  destruct (Z.eqb_spec prev INVALID) as [Ep|Ep].
  - destruct Hu as [-> Hc]. eexists _, (oa_nextInFlow (outs t).[s]). split; [reflexivity|]. split; [done|]. cbn [outs flows set_flow set_out upd app] in *.
    split; [apply zlen_set|]. split; [done|]. split; [apply chain_set; [done|lia|done]|]. split; [by rewrite arr_get_set_eq by lia|].
    split; intros x Hx Hne; rewrite arr_get_set_ne; try done; try lia. intros <-. apply Hne. left.
  - destruct Hu as [Hp Hc]. assert (Hps : prev <> s) by (intros E; rewrite E in Hp; done).
    assert (Hpr : 0 <= prev < zlen (outs t)) by (apply (chain_elem _ _ _ prev H); apply elem_of_app; by left).
    eexists _, (fl_firstAssoc (flows t).[f]). split; [reflexivity|]. cbn [outs flows set_flow set_out upd].
    rewrite (arr_get_set_ne (outs t) s prev) by lia. split; [done|]. split; [by rewrite !zlen_set|].
    split; [rewrite <- (arr_set_get_id (flows t) f) at 1 by lia; f_equal; by destruct ((flows t).[f])|].
    split.
    { rewrite (arr_set_comm (outs t)) by lia. apply chain_set; [done|lia|exact Hc]. }
    split; [rewrite arr_get_set_ne, arr_get_set_eq by lia; done|]. split; intros x Hx Hne.
    + rewrite arr_get_set by (rewrite ?zlen_set; lia). destruct (Z.eqb_spec prev x) as [<-|]; [done|]. by rewrite arr_get_set_ne by lia.
    + apply not_elem_of_app in Hne as [Hn1' [Hxs Hn2']%not_elem_of_cons]. rewrite !arr_get_set_ne; [done|lia..|].
      intros <-. done.
Qed.

Lemma Link_ok t f s l : 0 <= f < zlen (flows t) -> 0 <= s < zlen (outs t) -> s <> INVALID -> s ∉ l -> flow_chain (outs t) (fl_firstAssoc (flows t).[f]) l ->
  let t' := LinkAssociation t f s in
  same_rest t t' /\ zlen (outs t') = zlen (outs t) /\ flows t' = (flows t).[f <- (flows t).[f] <| fl_firstAssoc := s |>] /\ flow_chain (outs t') s (s :: l) /\
  (outs t').[s] = (outs t).[s] <| oa_flowSlot := f |> <| oa_nextInFlow := fl_firstAssoc (flows t).[f] |> /\
  (forall x, 0 <= x -> x <> s -> (outs t').[x] = (outs t).[x]).
Proof.
  intros Hf Hs Hv Hn H. cbv zeta. unfold LinkAssociation. cbn [outs flows set_flow set_out upd]. split; [done|]. split; [apply zlen_set|]. split; [done|].
  assert (E : forall a, ((outs t).[s <- a]).[s] = a) by (intros a; apply arr_get_set_eq; lia). split; [|split; [apply E|]].
  - cbn [flow_chain]. rewrite zlen_set, E. cbn. split; [done|]. split; [done|]. split; [done|]. apply chain_set; [done|lia|done].
  - intros x Hx Hne. by rewrite arr_get_set_ne by lia.
Qed.
End Lists.
