(* ===== verification/Pending.v ===== *)
(** * Packets that wait for a handshake: [flux/socket/pending_packet]

    A peer's queue is a list threaded through the slots of a pool all peers share; the
    peer keeps its head and tail.  [None] is an assertion that fires, a pool operation
    that does not return, or a walk that does not end.

    Proved: whatever peers push, pop, clear and count in whatever order, each has the
    queue of the packets it pushed, oldest first; no assertion fires, every walk ends,
    and a slot is refused only when all of them are in use. *)

From S2P Require Import Prelude Wire Errors Keys SlotPool Peer Packet FlowDir FlowLists.

(** ** Definitions *)

Record PendingPacket := mk_pending {
  pp_next : Z; pp_active : Z; pp_requireAuth : Z; pp_keepsBody : Z; pp_address : Address; pp_dataSize : Z; pp_data : list Z }.
#[export] Instance PendingPacket_eta : Eta PendingPacket := fun r =>
  mk_pending (pp_next r) (pp_active r) (pp_requireAuth r) (pp_keepsBody r) (pp_address r) (pp_dataSize r) (pp_data r).
#[export] Instance PendingPacket_inhabited : Inhabited PendingPacket := populate (mk_pending 0 0 0 0 (mk_addr 0 0 [] 0) 0 []).

Section Pending.
Context {S : Type} `{!Allocator S}.
Implicit Types (pool : S) (mem : list PendingPacket) (peer : option Peer) (p : Peer).

(** [peer] is what the handle's [Write] or [Read] gives: nothing when it has failed. *)
Definition Push (hint : Z) pool mem peer (packet : PacketSlot) (requireAuth_ keepsBodyForResend_ : bool)
  : option (Error * S * list PendingPacket * option Peer) :=
  if MAX_WIRE_PACKET_SIZE <? dataSize packet then Some (TooLarge, pool, mem, peer)
  else
    match peer with
    | None => Some (InvalidState, pool, mem, peer)
    | Some p =>
        '(idx, pool) ← al_acquire hint pool;
        if idx =? INVALID then Some (PoolExhausted, pool, mem, peer)
        else if negb (pp_active mem.[idx] =? 0) then None
        else
          let slot := mem.[idx] <| pp_next := INVALID |> <| pp_requireAuth := if requireAuth_ then 1 else 0 |>
                        <| pp_keepsBody := if keepsBodyForResend_ then 1 else 0 |>
                        <| pp_address := pk_address packet |> <| pp_dataSize := dataSize packet |> in
          let slot := slot <| pp_data := blit (pp_data slot) 0 (take (Z.to_nat (dataSize packet)) (pk_data packet)) |> <| pp_active := 1 |> in
          let mem := mem.[idx <- slot] in
          let '(mem, p) :=
            if pendingTail p =? INVALID then (mem, p <| pendingHead := idx |>)
            else (mem.[pendingTail p <- mem.[pendingTail p] <| pp_next := idx |>], p) in
          Some (Ok, pool, mem, Some (p <| pendingTail := idx |>))
    end.

Definition PopFront mem peer : option (Z * list PendingPacket * option Peer) :=
  match peer with
  | None => Some (INVALID, mem, peer)
  | Some p =>
      let idx := pendingHead p in
      if idx =? INVALID then Some (INVALID, mem, peer)
      else
        let slot := mem.[idx] in
        if negb (pp_active slot =? 1) then None
        else
          let p := p <| pendingHead := pp_next slot |> in
          let p := if pendingHead p =? INVALID then p <| pendingTail := INVALID |> else p in
          Some (idx, mem.[idx <- slot <| pp_active := 0 |>], Some p)
  end.

Fixpoint clear_loop (fuel : nat) pool mem peer : option (S * list PendingPacket * option Peer) :=
  match fuel with
  | O => None
  | Datatypes.S fuel' =>
      '(idx, mem, peer) ← PopFront mem peer;
      if idx =? INVALID then Some (pool, mem, peer) else pool ← al_release pool idx; clear_loop fuel' pool mem peer
  end.
Definition Clear pool mem peer := clear_loop (Datatypes.S (length mem)) pool mem peer.

Fixpoint count_loop (fuel : nat) mem (idx n : Z) : option Z :=
  if idx =? INVALID then Some n
  else match fuel with O => None | Datatypes.S fuel' => count_loop fuel' mem (pp_next mem.[idx]) (u32 (n + 1)) end.
Definition Count mem peer : option Z :=
  match peer with None => Some 0 | Some p => count_loop (length mem) mem (pendingHead p) 0 end.

(** ** Queues *)

(** What a queue keeps of a packet: where it goes, its bytes, the two flags. *)
Definition Parcel : Type := Address * list Z * Z * Z.
Definition parcel (x : PendingPacket) : Parcel := (pp_address x, take (Z.to_nat (pp_dataSize x)) (pp_data x), pp_requireAuth x, pp_keepsBody x).
Definition parcel_of (packet : PacketSlot) (requireAuth_ keeps : bool) : Parcel :=
  (pk_address packet, take (Z.to_nat (dataSize packet)) (pk_data packet), if requireAuth_ then 1 else 0, if keeps then 1 else 0).

Fixpoint linked mem (h : Z) (l : list (Z * Parcel)) : Prop :=
  match l with
  | [] => h = INVALID
  | (s, x) :: l' => h = s /\ 0 <= s < zlen mem /\ s <> INVALID /\ parcel mem.[s] = x /\ pp_active mem.[s] = 1 /\ linked mem (pp_next mem.[s]) l'
  end.
Definition queued mem p (l : list (Z * Parcel)) : Prop := linked mem (pendingHead p) l /\ pendingTail p = last_or INVALID l.*1.

Lemma linked_ext mem mem' : forall l h, zlen mem' = zlen mem -> (forall s, s ∈ l.*1 -> mem'.[s] = mem.[s]) -> linked mem h l -> linked mem' h l.
Proof.
  induction l as [|[s x] l IH]; intros h Hz He H; [done|]. destruct H as (->&Hs&Hv&E1&E2&H). cbn [linked]. rewrite Hz, He by left. split_and!; try done; try lia.
  apply IH; [done| |done]. intros y Hy. apply He. by right.
Qed.
Lemma linked_range mem : forall l h s, linked mem h l -> s ∈ l.*1 -> 0 <= s < zlen mem /\ s <> INVALID /\ pp_active mem.[s] = 1.
Proof.
  induction l as [|[s x] l IH]; intros h y H Hy; [by apply not_elem_of_nil in Hy|]. destruct H as (->&Hs&Hv&_&E&H).
  apply elem_of_cons in Hy as [->|Hy]; [done|by eapply IH].
Qed.

Lemma tail_in (l : list (Z * Parcel)) : l <> [] -> last_or INVALID l.*1 ∈ l.*1.
Proof.
  destruct l as [|[s x] l]; [done|]. intros _. cbn [fmap list_fmap fst]. rewrite last_or_cons. unfold last_or. destruct (last l.*1) as [z|] eqn:E; cbn; [right; by apply last_Some_elem_of|left].
Qed.
Lemma tail_invalid mem h l : linked mem h l -> last_or INVALID l.*1 = INVALID -> l = [].
Proof.
  intros H E. destruct (decide (l = [])) as [|Hl]; [done|]. pose proof (tail_in l Hl) as Hin. rewrite E in Hin. by destruct (linked_range _ _ _ _ H Hin) as (_&[]&_).
Qed.

(** A packet at the back. *)
Lemma linked_snoc mem idx x : 0 <= idx < zlen mem -> idx <> INVALID -> pp_next mem.[idx] = INVALID -> pp_active mem.[idx] = 1 -> parcel mem.[idx] = x ->
  forall l h, linked mem h l -> l <> [] -> NoDup l.*1 -> idx ∉ l.*1 ->
  linked (mem.[last_or INVALID l.*1 <- mem.[last_or INVALID l.*1] <| pp_next := idx |>]) h (l ++ [(idx, x)]).
Proof.
  intros Hr Hv En Ea Ex. induction l as [|[s y] l IH]; intros h H Hl Hn Hi; [done|]. destruct H as (->&Hs&Hsv&E1&E2&H).
  cbn [fmap list_fmap fst] in Hn, Hi |- *. apply NoDup_cons in Hn as [Hns Hn]. apply not_elem_of_cons in Hi as [Hne Hi]. rewrite last_or_cons.
  destruct l as [|[s2 y2] l].
  - cbn in H |- *. rewrite arr_get_set_eq by done. rewrite zlen_set, arr_get_set_ne by lia. cbn. rewrite En. by split_and!; try done; try lia.
  - specialize (IH _ H ltac:(done) Hn Hi). cbn [fmap list_fmap fst] in IH |- *. rewrite last_or_cons in IH |- *. set (t := last_or s2 l.*1) in *.
    assert (Ht : t ∈ s2 :: l.*1) by (unfold t, last_or; destruct (last l.*1) as [z|] eqn:E; cbn; [right; by apply last_Some_elem_of|left]).
    destruct (linked_range _ _ _ t H Ht) as (Htr&_&_). assert (Hts : t <> s) by (intros <-; done).
    change ((((s, y) :: (s2, y2) :: l) ++ [(idx, x)])) with ((s, y) :: (((s2, y2) :: l) ++ [(idx, x)])). remember (((s2, y2) :: l) ++ [(idx, x)]) as r eqn:Er. clear Er.
    cbn [linked]. rewrite zlen_set, (arr_get_set_ne mem t s) by lia. split_and!; try done; try lia.
Qed.

(** ** One pool, many peers *)

(** [qs]: each peer's queue; [out]: slots that have been popped and not yet released. *)
Definition slots_of (qs : list (list (Z * Parcel))) : list Z := (concat qs).*1.

Lemma slots_set qs i l : 0 <= i < zlen qs -> slots_of (qs.[i <- l]) ≡ₚ l.*1 ++ slots_of (qs.[i <- []]).
Proof.
  intros Hi. unfold slots_of, arr_set. rewrite <- fmap_app. apply fmap_Permutation. unfold zlen in Hi.
  rewrite !insert_take_drop by lia. rewrite !concat_app. cbn [concat app]. apply Permutation_app_swap_app.
Qed.
Lemma slots_at qs i : 0 <= i < zlen qs -> slots_of qs ≡ₚ qs.[i].*1 ++ slots_of (qs.[i <- []]).
Proof. intros Hi. rewrite <- (slots_set qs i) by done. by rewrite arr_set_get_id by lia. Qed.
Lemma slots_in qs i s : 0 <= i < zlen qs -> s ∈ qs.[i].*1 -> s ∈ slots_of qs.
Proof. intros Hi Hs. rewrite (slots_at qs i Hi). apply elem_of_app. by left. Qed.

Section World.
Context (n : Z).

Record pend_ok pool mem (peers : list Peer) qs (out : list Z) : Prop := {
  po_len : zlen peers = zlen qs;
  po_mem : zlen mem = n;
  po_pool : al_owns pool n (slots_of qs ++ out);
  po_queue : forall i, 0 <= i < zlen qs -> queued mem peers.[i] qs.[i];
  po_idle : forall s, 0 <= s < n -> s ∉ slots_of qs -> pp_active mem.[s] = 0 }.

Lemma po_nodup pool mem peers qs out : pend_ok pool mem peers qs out -> NoDup (slots_of qs) /\ (forall s, s ∈ slots_of qs -> 0 <= s < n /\ s <> INVALID).
Proof.
  intros H. destruct (al_held _ _ _ (po_pool _ _ _ _ _ H)) as (_&Hn&Hr&H31). apply NoDup_app in Hn as (Hn&_). split; [done|].
  intros s Hs. rewrite Forall_forall in Hr. specialize (Hr s ltac:(apply elem_of_app; by left)). cbn in Hr. unfold INVALID, UINT32_MAX. lia.
Qed.
Lemma po_own pool mem peers qs out i : pend_ok pool mem peers qs out -> 0 <= i < zlen qs ->
  NoDup qs.[i].*1 /\ (forall s, s ∈ qs.[i].*1 -> s ∉ slots_of (qs.[i <- []])).
Proof.
  intros H Hi. destruct (po_nodup _ _ _ _ _ H) as [Hn _]. rewrite (slots_at qs i Hi) in Hn. apply NoDup_app in Hn as (?&?&_). done.
Qed.

(** Peer [i]'s queue and the memory change, and the others' do not see it. *)
Lemma po_update pool mem peers qs out i pool' mem' p' l' out' : pend_ok pool mem peers qs out -> 0 <= i < zlen qs -> zlen mem' = n ->
  al_owns pool' n (l'.*1 ++ slots_of (qs.[i <- []]) ++ out') -> queued mem' p' l' ->
  (forall s, s ∈ slots_of (qs.[i <- []]) -> mem'.[s] = mem.[s]) ->
  (forall s, 0 <= s < n -> s ∉ l'.*1 -> s ∉ slots_of (qs.[i <- []]) -> pp_active mem'.[s] = 0) ->
  pend_ok pool' mem' (peers.[i <- p']) (qs.[i <- l']) out'.
Proof.
  intros H Hi Hz Ho Hq Hs Hidle. pose proof (po_len _ _ _ _ _ H) as Hl. split.
  - by rewrite !zlen_set.
  - done.
  - eapply al_perm; [|exact Ho]. rewrite (slots_set qs i l' Hi). by rewrite app_assoc.
  - intros j Hj. rewrite zlen_set in Hj. rewrite !arr_get_set by lia. destruct (Z.eqb_spec i j) as [<-|Hne]; [done|].
    destruct (po_queue _ _ _ _ _ H j Hj) as [H1 H2]. split; [|done]. apply (linked_ext mem); [by rewrite Hz, (po_mem _ _ _ _ _ H)| |done].
    intros s Hin. apply Hs. apply (slots_in _ j); [by rewrite zlen_set|]. by rewrite arr_get_set_ne by lia.
  - intros s Hr Hin. rewrite (slots_set qs i l' Hi) in Hin. apply not_elem_of_app in Hin as [? ?]. by apply Hidle.
Qed.

(** ** The operations *)

Lemma PopFront_ok pool mem peers qs out i : pend_ok pool mem peers qs out -> 0 <= i < zlen qs ->
  match qs.[i] with
  | [] => PopFront mem (Some peers.[i]) = Some (INVALID, mem, Some peers.[i])
  | (s, x) :: l => exists mem' p', PopFront mem (Some peers.[i]) = Some (s, mem', Some p') /\ s <> INVALID /\ parcel mem'.[s] = x /\
      pend_ok pool mem' (peers.[i <- p']) (qs.[i <- l]) (s :: out)
  end.
Proof.
  intros H Hi. destruct (po_queue _ _ _ _ _ H i Hi) as [Hl Ht]. destruct (po_own _ _ _ _ _ i H Hi) as [Hn Hd]. unfold PopFront.
  pose proof (slots_at qs i Hi) as Hat. destruct (qs.[i]) as [|[s x] l].
  - cbn in Hl. by rewrite Hl, Z.eqb_refl.
  - destruct Hl as (->&Hs&Hv&Ex&Ea&Hl). cbn [fmap list_fmap fst] in Hn, Hd, Ht, Hat. apply NoDup_cons in Hn as [Hns Hn]. destruct (Z.eqb_spec s INVALID); [done|]. rewrite Ea. cbn [Z.eqb Pos.eqb negb].
    eexists _, _. split; [reflexivity|]. split; [done|]. split; [by rewrite arr_get_set_eq by done|].
    apply (po_update pool mem peers qs out i); try done.
    + rewrite zlen_set. apply (po_mem _ _ _ _ _ H).
    + eapply al_perm; [|apply (po_pool _ _ _ _ _ H)]. rewrite Hat. cbn. rewrite <- app_assoc. rewrite !Permutation_middle. done.
    + assert (Hl' : linked (mem.[s <- mem.[s] <| pp_active := 0 |>]) (pp_next mem.[s]) l).
      { apply (linked_ext mem); [apply zlen_set| |done]. intros y Hy. destruct (linked_range _ _ _ _ Hl Hy) as (?&_). rewrite arr_get_set_ne; [done|lia|lia|by intros <-]. }
      cbn [pendingHead upd]. destruct (Z.eqb_spec (pp_next mem.[s]) INVALID) as [E|E].
      * split; [exact Hl'|]. cbn. destruct l as [|[s2 x2] l]; [done|]. destruct Hl as (E2&_&?&_). congruence.
      * split; [exact Hl'|]. cbn [pendingTail upd]. rewrite Ht. destruct l as [|[s2 x2] l]; [cbn in Hl; congruence|]. cbn [fmap list_fmap fst]. by rewrite !last_or_cons.
    + intros y Hy. destruct (po_nodup _ _ _ _ _ H) as [_ Hr]. assert (Hy' : y ∈ slots_of qs) by (rewrite Hat; apply elem_of_app; by right).
      destruct (Hr y Hy') as [? _]. rewrite arr_get_set_ne; [done|lia|lia|]. intros <-. apply (Hd s); [left|done].
    + intros y Hy Hyl Hyo. rewrite arr_get_set by lia. destruct (Z.eqb_spec s y) as [<-|Hne]; [done|]. apply (po_idle _ _ _ _ _ H); [done|].
      rewrite Hat. apply not_elem_of_app. split; [|done]. by apply not_elem_of_cons.
Qed.

Lemma Count_ok mem : forall l h fuel k, linked mem h l -> (length l <= fuel)%nat -> 0 <= k -> k + zlen l <= UINT32_MAX -> count_loop fuel mem h k = Some (k + zlen l).
Proof.
  induction l as [|[s x] l IH]; intros h fuel k H Hf Hk Hb; unfold zlen in *; cbn [length] in *.
  - cbn in H. rewrite H. destruct fuel; cbn [count_loop]; rewrite Z.eqb_refl; f_equal; lia.
  - destruct H as (->&Hs&Hv&_&_&H). destruct fuel as [|fuel]; [lia|]. cbn [count_loop]. destruct (Z.eqb_spec s INVALID); [done|].
    rewrite u32_small by (unfold UINT32_MAX in *; lia). rewrite (IH _ fuel) by (done || lia). f_equal. lia.
Qed.

Lemma pending_push_ok hint pool mem peers qs out i packet ra kb : pend_ok pool mem peers qs out -> 0 <= i < zlen qs ->
  0 <= dataSize packet <= MAX_WIRE_PACKET_SIZE -> dataSize packet <= zlen (pk_data packet) ->
  exists pool', (zlen (slots_of qs ++ out) = n /\ Push hint pool mem (Some peers.[i]) packet ra kb = Some (PoolExhausted, pool', mem, Some peers.[i]) /\
      pend_ok pool' mem peers qs out) \/
    (zlen (slots_of qs ++ out) < n /\ exists idx mem' p', Push hint pool mem (Some peers.[i]) packet ra kb = Some (Ok, pool', mem', Some p') /\
      pend_ok pool' mem' (peers.[i <- p']) (qs.[i <- qs.[i] ++ [(idx, parcel_of packet ra kb)]]) out).
Proof.
  intros H Hi Hds Hpk. unfold Push. destruct (Z.ltb_spec MAX_WIRE_PACKET_SIZE (dataSize packet)); [lia|].
  destruct (al_acquire_ok _ _ _ hint (po_pool _ _ _ _ _ H)) as [(Hlt&idx&pool'&->&Hn&Hr&Ho)|(Hfull&pool'&->&Ho)]; cbn [mbind option_bind]; exists pool'.
  2: { left. split; [done|]. split; [done|]. by destruct H. }
  right. split; [done|]. destruct (al_held _ _ _ Ho) as (_&_&_&H31). destruct (Z.eqb_spec idx INVALID) as [|Hv]; [unfold INVALID, UINT32_MAX in *; lia|].
  apply not_elem_of_app in Hn as [Hns Hno]. rewrite (po_idle _ _ _ _ _ H idx Hr Hns). cbn [Z.eqb negb].
  pose proof (slots_at qs i Hi) as Hat. destruct (po_own _ _ _ _ _ i H Hi) as [Hnd Hd]. destruct (po_queue _ _ _ _ _ H i Hi) as [Hl Ht]. set (l := qs.[i]) in *.
  set (slot := _ <| pp_active := 1 |>). set (x := parcel_of packet ra kb).
  assert (Hx : parcel slot = x).
  { unfold slot, x, parcel, parcel_of. cbn [pp_address pp_dataSize pp_data pp_requireAuth pp_keepsBody upd]. f_equal. f_equal. f_equal. unfold blit.
    change (Z.to_nat 0) with 0%nat. rewrite take_0, app_nil_l, take_app_le by (rewrite length_take; unfold zlen in Hpk; lia). by rewrite take_take, Nat.min_id. }
  pose proof (po_mem _ _ _ _ _ H) as Hz. set (mem1 := mem.[idx <- slot]).
  assert (G : mem1.[idx] = slot) by (apply arr_get_set_eq; lia). assert (Hz1 : zlen mem1 = n) by (unfold mem1; by rewrite zlen_set).
  assert (Hil : idx ∉ l.*1) by (intros Hin; apply Hns; by apply (slots_in _ i)).
  assert (Hl1 : linked mem1 (pendingHead peers.[i]) l).
  { apply (linked_ext mem); [by rewrite Hz1| |done]. intros s Hs. destruct (linked_range _ _ _ _ Hl Hs) as (?&_). apply arr_get_set_ne; [lia|lia|by intros <-]. }
  set (st := if pendingTail peers.[i] =? INVALID then _ else _).
  assert (Hst : zlen st.1 = n /\ queued st.1 (st.2 <| pendingTail := idx |>) (l ++ [(idx, x)]) /\
    (forall s, 0 <= s -> s <> idx -> s ∉ l.*1 -> st.1.[s] = mem.[s])).
  { unfold st. destruct (Z.eqb_spec (pendingTail peers.[i]) INVALID) as [E|E]; rewrite Ht in E; cbn [fst snd].
    - apply (tail_invalid _ _ _ Hl) in E. rewrite E in *. split; [done|]. split; [split; [|done]|].
      + cbn [linked app pendingHead upd]. rewrite Hz1, G. by split_and!; try lia.
      + intros s Hs Hne _. by apply arr_get_set_ne; try lia.
    - assert (Hne : l <> []) by (intros El; by rewrite El in E). rewrite Ht. pose proof (tail_in l Hne) as Hin. destruct (linked_range _ _ _ _ Hl Hin) as (?&_).
      split; [by rewrite zlen_set|]. split; [split; [|]|].
      + cbn [pendingHead upd]. apply linked_snoc; try done; try lia; by rewrite G.
      + cbn [pendingTail upd]. rewrite fmap_app. unfold last_or. change ([(idx, x)].*1) with [idx]. by rewrite last_snoc.
      + intros s Hs Hsi Hsl. rewrite arr_get_set_ne by (lia || by intros <-). by apply arr_get_set_ne; try lia. }
  destruct st as [mem' p']. cbn [fst snd] in Hst. destruct Hst as (Hz'&Hq&Hk). exists idx, mem', (p' <| pendingTail := idx |>). split; [done|].
  apply (po_update pool mem peers qs out i); try done.
  - eapply al_perm; [|exact Ho]. rewrite Hat, fmap_app. cbn. rewrite <- !app_assoc. cbn. by rewrite <- Permutation_middle.
  - intros s Hs. destruct (po_nodup _ _ _ _ _ H) as [_ Hrr]. assert (Hs' : s ∈ slots_of qs) by (rewrite Hat; apply elem_of_app; by right).
    destruct (Hrr s Hs') as [? _]. apply Hk; [lia|by intros ->|]. intros Hin. by apply (Hd s).
  - intros s Hrs Hsl Hso. rewrite fmap_app in Hsl. apply not_elem_of_app in Hsl as [Hsl Hsi]. cbn in Hsi. apply not_elem_of_cons in Hsi as [Hsi _].
    rewrite Hk by (done || lia). apply (po_idle _ _ _ _ _ H); [done|]. rewrite Hat. by apply not_elem_of_app.
Qed.

Lemma Push_big hint pool mem peer packet ra kb : MAX_WIRE_PACKET_SIZE < dataSize packet -> Push hint pool mem peer packet ra kb = Some (TooLarge, pool, mem, peer).
Proof. intros H. unfold Push. by destruct (Z.ltb_spec MAX_WIRE_PACKET_SIZE (dataSize packet)); [|lia]. Qed.

Lemma pending_release_ok pool mem peers qs out s : pend_ok pool mem peers qs (s :: out) -> exists pool', al_release pool s = Some pool' /\ pend_ok pool' mem peers qs out.
Proof.
  intros H. destruct (al_release_ok pool n (slots_of qs ++ out) s) as (pool'&E&Ho).
  { eapply al_perm; [|apply (po_pool _ _ _ _ _ H)]. by rewrite Permutation_middle. }
  exists pool'. split; [done|]. by destruct H.
Qed.

Lemma clear_loop_ok i : forall l fuel pool mem peers qs out, pend_ok pool mem peers qs out -> 0 <= i < zlen qs -> qs.[i] = l -> (length l < fuel)%nat ->
  exists pool' mem' p', clear_loop fuel pool mem (Some peers.[i]) = Some (pool', mem', Some p') /\ pend_ok pool' mem' (peers.[i <- p']) (qs.[i <- []]) out.
Proof.
  induction l as [|[s x] l IH]; intros fuel pool mem peers qs out H Hi El Hf; (destruct fuel as [|fuel]; [cbn in Hf; lia|]); cbn [clear_loop];
    pose proof (PopFront_ok pool mem peers qs out i H Hi) as Hp; rewrite El in Hp.
  - rewrite Hp. cbn [mbind option_bind]. rewrite Z.eqb_refl. exists pool, mem, peers.[i]. split; [done|].
    rewrite arr_set_get_id by (rewrite (po_len _ _ _ _ _ H); lia). rewrite <- El at 1. by rewrite arr_set_get_id by lia.
  - destruct Hp as (mem'&p'&->&Hv&_&H'). cbn [mbind option_bind]. destruct (Z.eqb_spec s INVALID); [done|].
    destruct (pending_release_ok _ _ _ _ _ _ H') as (pool'&->&H2). cbn [mbind option_bind].
    destruct (IH fuel pool' mem' (peers.[i <- p']) (qs.[i <- l]) out H2) as (pool3&mem3&p3&E&H3).
    + by rewrite zlen_set.
    + by rewrite arr_get_set_eq by done.
    + cbn in Hf. lia.
    + rewrite arr_get_set_eq in E by (rewrite (po_len _ _ _ _ _ H); lia). exists pool3, mem3, p3. split; [exact E|].
      unfold arr_set in H3 |- *. by rewrite !list_insert_insert_eq in H3.
Qed.

(** ** Histories *)

Definition packet_ok (packet : PacketSlot) : Prop := 0 <= dataSize packet <= zlen (pk_data packet).

(** From zeroed slots and peers without a queue on; the queue a packet joins and leaves
    is followed beside. *)
Inductive pend_reach : S -> list PendingPacket -> list Peer -> list (list (Z * Parcel)) -> list Z -> Prop :=
  | pr_fresh pool mem peers :
      al_owns pool n [] -> zlen mem = n -> (forall s, 0 <= s < n -> pp_active mem.[s] = 0) ->
      (forall i, 0 <= i < zlen peers -> pendingHead peers.[i] = INVALID /\ pendingTail peers.[i] = INVALID) ->
      pend_reach pool mem peers (replicate (length peers) []) []
  | pr_push hint pool mem peers qs out i packet ra kb pool' mem' p' :
      pend_reach pool mem peers qs out -> 0 <= i < zlen qs -> packet_ok packet ->
      Push hint pool mem (Some peers.[i]) packet ra kb = Some (Ok, pool', mem', Some p') ->
      pend_reach pool' mem' (peers.[i <- p']) (qs.[i <- qs.[i] ++ [(pendingTail p', parcel_of packet ra kb)]]) out
  | pr_refused hint pool mem peers qs out i packet ra kb e pool' mem' p' :
      pend_reach pool mem peers qs out -> 0 <= i < zlen qs -> packet_ok packet ->
      Push hint pool mem (Some peers.[i]) packet ra kb = Some (e, pool', mem', Some p') -> e <> Ok ->
      pend_reach pool' mem' (peers.[i <- p']) qs out
  | pr_pop pool mem peers qs out i s mem' p' :
      pend_reach pool mem peers qs out -> 0 <= i < zlen qs -> PopFront mem (Some peers.[i]) = Some (s, mem', Some p') -> s <> INVALID ->
      pend_reach pool mem' (peers.[i <- p']) (qs.[i <- tail qs.[i]]) (s :: out)
  (** Whoever popped a slot releases it when the packet has been sent. *)
  | pr_release pool mem peers qs out out' s pool' :
      pend_reach pool mem peers qs out -> out ≡ₚ s :: out' -> al_release pool s = Some pool' -> pend_reach pool' mem peers qs out'
  | pr_clear pool mem peers qs out i pool' mem' p' :
      pend_reach pool mem peers qs out -> 0 <= i < zlen qs -> Clear pool mem (Some peers.[i]) = Some (pool', mem', Some p') ->
      pend_reach pool' mem' (peers.[i <- p']) (qs.[i <- []]) out
  (** Everything else that happens to a peer. *)
  | pr_peer pool mem peers qs out i p' :
      pend_reach pool mem peers qs out -> 0 <= i < zlen qs -> pendingHead p' = pendingHead peers.[i] -> pendingTail p' = pendingTail peers.[i] ->
      pend_reach pool mem (peers.[i <- p']) qs out.

Lemma queue_bound pool mem peers qs out i : pend_ok pool mem peers qs out -> 0 <= i < zlen qs -> (length qs.[i] <= length mem)%nat.
Proof.
  intros H Hi. destruct (po_own _ _ _ _ _ i H Hi) as [Hn _]. destruct (po_nodup _ _ _ _ _ H) as [_ Hr].
  rewrite <- (length_fmap fst), <- (length_seq (length mem) 0), <- (length_map Z.of_nat). apply submseteq_length, NoDup_submseteq; [done|].
  intros s Hs. destruct (Hr s (slots_in _ i s Hi Hs)) as [Hsr _]. pose proof (po_mem _ _ _ _ _ H) as Hz. unfold zlen in Hz. apply elem_of_map. exists (Z.to_nat s).
  split; [lia|]. apply elem_of_seq. lia.
Qed.

Lemma pending_clear_ok pool mem peers qs out i : pend_ok pool mem peers qs out -> 0 <= i < zlen qs ->
  exists pool' mem' p', Clear pool mem (Some peers.[i]) = Some (pool', mem', Some p') /\ pend_ok pool' mem' (peers.[i <- p']) (qs.[i <- []]) out.
Proof.
  intros H Hi. apply (clear_loop_ok i qs.[i]); try done. pose proof (queue_bound _ _ _ _ _ i H Hi). lia.
Qed.

Lemma po_tail pool mem peers qs out i l s x : pend_ok pool mem peers qs out -> 0 <= i < zlen qs -> qs.[i] = l ++ [(s, x)] -> pendingTail peers.[i] = s.
Proof.
  intros H Hi E. destruct (po_queue _ _ _ _ _ H i Hi) as [_ ->]. rewrite E, fmap_app. change ([(s, x)].*1) with [s]. unfold last_or. by rewrite last_snoc.
Qed.

Lemma pend_reach_ok pool mem peers qs out : pend_reach pool mem peers qs out -> pend_ok pool mem peers qs out.
Proof.
  induction 1 as [pool mem peers Ho Hz Ha Hp|hint pool mem peers qs out i packet ra kb pool' mem' p' _ H Hi [Hk1 Hk2] E|hint pool mem peers qs out i packet ra kb e pool' mem' p' _ H Hi [Hk1 Hk2] E He|
    pool mem peers qs out i s mem' p' _ H Hi E Hs|pool mem peers qs out out' s pool' _ H Hout E|pool mem peers qs out i pool' mem' p' _ H Hi E|pool mem peers qs out i p' _ H Hi E1 E2].
  - assert (Hnil : slots_of (replicate (length peers) []) = []) by (unfold slots_of; induction (length peers); [done|by cbn]). split; rewrite ?Hnil; try done.
    + unfold zlen. by rewrite length_replicate.
    + intros i Hi. unfold zlen in Hi. rewrite length_replicate in Hi. rewrite <- (Nat2Z.id (length peers)), arr_get_replicate by lia.
      destruct (Hp i Hi) as [E1 E2]. by split.
    + intros s Hs _. by apply Ha.
  - destruct (Z_lt_le_dec MAX_WIRE_PACKET_SIZE (dataSize packet)) as [Hm|Hm]; [by rewrite Push_big in E|].
    destruct (pending_push_ok hint pool mem peers qs out i packet ra kb H Hi ltac:(lia) Hk2) as (pool1&[(_&E1&_)|(_&idx&mem1&p1&E1&H1)]); rewrite E in E1; [discriminate E1|].
    injection E1 as -> -> ->. pose proof (po_tail _ _ _ _ _ i qs.[i] idx (parcel_of packet ra kb) H1 ltac:(by rewrite zlen_set) (arr_get_set_eq _ _ _ Hi)) as Et.
    rewrite arr_get_set_eq in Et by (rewrite (po_len _ _ _ _ _ H); lia). by rewrite Et.
  - assert (Hsame : peers.[i <- peers.[i]] = peers) by (apply arr_set_get_id; rewrite (po_len _ _ _ _ _ H); lia).
    destruct (Z_lt_le_dec MAX_WIRE_PACKET_SIZE (dataSize packet)) as [Hm|Hm].
    { rewrite Push_big in E by done. injection E as _ <- <- <-. by rewrite Hsame. }
    destruct (pending_push_ok hint pool mem peers qs out i packet ra kb H Hi ltac:(lia) Hk2) as (pool1&[(_&E1&H1)|(_&idx&mem1&p1&E1&H1)]); rewrite E in E1; injection E1 as -> -> -> ->; [by rewrite Hsame|done].
  - pose proof (PopFront_ok pool mem peers qs out i H Hi) as Hp. destruct (qs.[i]) as [|[s1 x1] l] eqn:El; [rewrite Hp in E; congruence|].
    destruct Hp as (mem1&p1&E1&_&_&H1). rewrite E in E1. by injection E1 as <- <- <-.
  - destruct (pending_release_ok pool mem peers qs out' s) as (pool1&E1&H1); [|congruence]. destruct H. split; try done. eapply al_perm; [|done]. by rewrite Hout.
  - destruct (pending_clear_ok _ _ _ _ _ i H Hi) as (pool1&mem1&p1&E1&H1). rewrite E in E1. by injection E1 as <- <- <-.
  - destruct H as [P1 P2 P3 P4 P5]. split; try done; [by rewrite zlen_set|]. intros j Hj. rewrite arr_get_set by lia. destruct (Z.eqb_spec i j) as [<-|]; [|by apply P4].
    destruct (P4 i Hi) as [Q1 Q2]. split; congruence.
Qed.

(** (C15) In every history every peer has the queue of the packets pushed on it and
    not yet popped, oldest first: [Count] is its length; [PopFront] gives the slot of the
    oldest one, with the address, bytes and flags it was pushed with, or nothing when
    there is none; a packet that fits is refused only when every slot of the pool is
    queued or held by whoever popped it; [Clear] ends and gives every slot of the queue
    back.  No assertion fires and no walk fails to end. *)
Theorem pending_is_a_queue pool mem (peers : list Peer) qs out i (Hr : pend_reach pool mem peers qs out) (Hi : 0 <= i < zlen qs) :
  Count mem (Some peers.[i]) = Some (zlen qs.[i]) /\
  match qs.[i] with
  | [] => PopFront mem (Some peers.[i]) = Some (INVALID, mem, Some peers.[i])
  | (s, x) :: _ => exists mem' p', PopFront mem (Some peers.[i]) = Some (s, mem', Some p') /\ s <> INVALID /\ parcel mem'.[s] = x
  end /\
  (forall hint packet ra kb, packet_ok packet -> exists e pool' mem' p', Push hint pool mem (Some peers.[i]) packet ra kb = Some (e, pool', mem', Some p') /\
     if MAX_WIRE_PACKET_SIZE <? dataSize packet then e = TooLarge
     else if zlen (slots_of qs ++ out) <? n then e = Ok else e = PoolExhausted) /\
  (exists pool' mem' p', Clear pool mem (Some peers.[i]) = Some (pool', mem', Some p') /\ pendingHead p' = INVALID /\ pendingTail p' = INVALID /\
     al_owns pool' n (slots_of (qs.[i <- []]) ++ out)).
Proof.
  pose proof (pend_reach_ok _ _ _ _ _ Hr) as H. split; [|split; [|split]].
  - destruct (po_queue _ _ _ _ _ H i Hi) as [Hl _]. pose proof (queue_bound _ _ _ _ _ i H Hi) as Hb. pose proof (po_mem _ _ _ _ _ H) as Hz.
    destruct (al_held _ _ _ (po_pool _ _ _ _ _ H)) as (_&_&_&H31). unfold Count. rewrite (Count_ok mem _ _ _ 0 Hl Hb ltac:(lia)); [f_equal; lia|].
    unfold zlen, UINT32_MAX in *. lia.
  - pose proof (PopFront_ok _ _ _ _ _ i H Hi) as Hp. destruct (qs.[i]) as [|[s x] l]; [done|]. destruct Hp as (mem'&p'&E&?&?&_). by exists mem', p'.
  - intros hint packet ra kb [H1 H2]. destruct (Z.ltb_spec MAX_WIRE_PACKET_SIZE (dataSize packet)).
    { rewrite Push_big by done. by eexists _, _, _, _. }
    destruct (pending_push_ok hint _ _ _ _ _ i packet ra kb H Hi ltac:(lia) H2) as (pool'&[(Hf&E&_)|(Hf&idx&mem'&p'&E&_)]); rewrite E; eexists _, _, _, _; (split; [reflexivity|]);
      by destruct (Z.ltb_spec (zlen (slots_of qs ++ out)) n); try lia.
  - destruct (pending_clear_ok _ _ _ _ _ i H Hi) as (pool'&mem'&p'&E&H'). exists pool', mem', p'. split; [done|].
    destruct (po_queue _ _ _ _ _ H' i ltac:(by rewrite zlen_set)) as [Q1 Q2]. rewrite !arr_get_set_eq in Q1, Q2 by (rewrite ?(po_len _ _ _ _ _ H); lia).
    split; [exact Q1|]. split; [exact Q2|]. apply (po_pool _ _ _ _ _ H').
Qed.
End World.
End Pending.

(** ** The theorem at work *)

Definition sample_parked : PacketSlot := mk_pkt (mk_addr 2 7 [] 0) 3 [10; 11; 12; 13].
Definition sample_pending_mem : list PendingPacket := replicate 4 (mk_pending 0 0 0 0 (mk_addr 0 0 [] 0) 0 (replicate 1200 0)).
Definition sample_pushed := Push 0 (Pool_Init 4 64) sample_pending_mem (Some (blank_peer <| pendingHead := INVALID |> <| pendingTail := INVALID |>)) sample_parked true false.
Definition sample_pending : option (SlotPool * list PendingPacket * Peer) :=
  match sample_pushed with Some (Ok, pool, mem, Some p) => Some (pool, mem, p) | _ => None end.

Lemma sample_pending_runs : exists pool mem p, sample_pushed = Some (Ok, pool, mem, Some p).
Proof.
  assert (E : is_some sample_pending = true) by (vm_compute; reflexivity). unfold sample_pending in E. destruct sample_pushed as [[[[[] pool] mem] [p|]]|]; try discriminate E. by eexists _, _, _.
Qed.

Lemma pending_is_a_queue_witness : exists mem p, Count mem (Some p) = Some 1.
Proof.
  destruct sample_pending_runs as (pool&mem&p&E). exists mem, p.
  set (p0 := blank_peer <| pendingHead := INVALID |> <| pendingTail := INVALID |>) in *.
  assert (Hf : pend_reach 4 (Pool_Init 4 64) sample_pending_mem [p0] [[]] []).
  { apply (pr_fresh 4 (Pool_Init 4 64) sample_pending_mem [p0]); [apply (reach_owns 4 64 2); [reflexivity|lia|constructor]|reflexivity| |].
    - intros s Hs. assert (Hc : s ∈ [0; 1; 2; 3]) by (rewrite !elem_of_cons; lia). rewrite !elem_of_cons, elem_of_nil in Hc. by destruct_or! Hc; subst s.
    - intros i Hi. assert (i = 0) as -> by (unfold zlen in Hi; cbn in Hi; lia). by split. }
  pose proof (pr_push 4 0 _ _ [p0] [[]] [] 0 sample_parked true false pool mem p Hf ltac:(split; [lia|reflexivity]) ltac:(split; vm_compute; discriminate) E) as Hr.
  destruct (pending_is_a_queue 4 _ _ _ _ _ 0 Hr ltac:(split; [lia|reflexivity])) as (Hc&_). exact Hc.
Defined.
