(* ===== verification/FlowTableInv.v ===== *)
(** * The flow table: the invariant of the sending half

    A view names what the table's memory means: the flows that are in use, the list of
    each, the associations that are linked, those that are closed and wait for their
    event to be read, and the packet slots that belong to the rest of the program.
    [ft_inv] ties the memory to it: a flow's list is exactly its associations, a peer's
    directory exactly its own, every leased slot is on one list or waits to be read,
    and the packet slots of the associations are disjoint shares of the pools.  Every
    operation keeps it and ends. *)

From stdpp Require Import gmap.
From S2P Require Import Prelude Wire Errors Keys FlowData SlotPool ReadyLanes Rtt Delivery Curve Congestion Peer InFlow InDeliver Packet PacketHandle PacketBuild OutFlow OutRetransmit OutInvariant OutSteps OutSend OutEnd OutHistory OutTheorems FlowDir AckWire FlowTable FlowTableOk FlowLists.

Implicit Types (a : OutAssociation).

(** ** Shares *)

(** The window's logarithm. *)
Definition w_of (mode : FlowMode) : Z := if bool_decide (mode = RELIABLE_ORDERED_BULK) then 10 else 8.
Lemma w_range mode : 6 <= w_of mode <= 15.
Proof. unfold w_of. destruct (bool_decide _); lia. Qed.
Lemma WindowFor_pow mode : WindowFor mode = 2 ^ w_of mode.
Proof. unfold WindowFor, w_of. by destruct (bool_decide _). Qed.

Definition st_share a : list Z := ring_slots a ++ (if unreliable a then [] else wait_slots a).
Definition sd_share a : list Z := if unreliable a then wait_slots a else [].
Definition shares (f : OutAssociation -> list Z) (os : list OutAssociation) (live : list Z) : list Z := concat (map (fun s => f os.[s]) live).

Lemma shares_ext f os os' live : (forall s, s ∈ live -> f os'.[s] = f os.[s]) -> shares f os' live = shares f os live.
Proof.
  unfold shares. induction live as [|s l IH]; intros H; [done|]. cbn. rewrite (H s) by left. f_equal. apply IH. intros x Hx. apply H. by right.
Qed.
Lemma shares_perm f os live live' : live ≡ₚ live' -> shares f os live ≡ₚ shares f os live'.
Proof.
  unfold shares. induction 1 as [|x l l' _ IH|x y l|l1 l2 l3 _ IH1 _ IH2]; cbn; [done|by rewrite IH| |by rewrite IH1].
  rewrite !app_assoc. apply Permutation_app_tail, Permutation_app_comm.
Qed.
Lemma share_unlinked a a' : unlinked a' = unlinked a -> st_share a' = st_share a /\ sd_share a' = sd_share a.
Proof. intros E. change (st_share (unlinked a') = st_share (unlinked a) /\ sd_share (unlinked a') = sd_share (unlinked a)). by rewrite E. Qed.

(** ** What an association in a directory can be *)

(** Refused: nothing in either ring. *)
Definition spent a : Prop :=
  zlen (InFlight a) = inflightCap a /\ waitingCount a = 0 /\ forall i, 0 <= i < inflightCap a -> e_seq (InFlight a).[i] = 0 /\ e_slot (InFlight a).[i] = INVALID.

(** Open, with its rings in order, or refused. *)
Definition standing a : Prop := oa_life a = OPEN /\ shape_ok (w_of (oa_mode a)) a \/ oa_life a = FAILED /\ spent a.

Lemma spent_shares a : spent a -> st_share a = [] /\ sd_share a = [].
Proof.
  intros (Hz&Hw&He). assert (Hr : ring_slots a = []).
  { unfold ring_slots. rewrite <- Hz in He. assert (Hall : forall e, e ∈ InFlight a -> slot_of (e_slot e) = []).
    { intros e (j&Hj&<-)%list_elem_of_arr. destruct (He j Hj) as [_ ->]. done. }
    clear -Hall. induction (InFlight a) as [|e l IH]; [done|]. cbn. rewrite Hall by left. apply IH. intros x Hx. apply Hall. by right. }
  assert (Hq : wait_slots a = []) by (unfold wait_slots, waiting_list; by rewrite Hw). unfold st_share, sd_share. rewrite Hr, Hq. by destruct (unreliable a).
Qed.

Section Drains.
Context {S : Type} `{!Allocator S} (ns nd : Z).
Implicit Types (k : OutPools S).

(** An association and what the pools hold for it, among what they hold for others. *)
Record held_ok a k (Fs Fd : list Z) : Prop := {
  ho_standing : standing a; ho_staging : al_owns (staging k) ns (st_share a ++ Fs); ho_sending : al_owns (sending k) nd (sd_share a ++ Fd) }.

Lemma out_held a k Fs Fd : oa_life a = OPEN -> out_ok (w_of (oa_mode a)) ns nd a k Fs Fd -> held_ok a k Fs Fd.
Proof. intros El [H1 H2 H3]. split; [left; done| |exact H3]. unfold st_share. by rewrite <- app_assoc. Qed.
Lemma held_out a k Fs Fd : oa_life a = OPEN -> held_ok a k Fs Fd -> out_ok (w_of (oa_mode a)) ns nd a k Fs Fd.
Proof. intros El [[[_ H1]|[? _]] H2 H3]; [|congruence]. split; [done| |exact H3]. unfold st_share in H2. by rewrite <- app_assoc in H2. Qed.

Lemma spent_drains a k : spent a -> exists a1 a2, DrainOutInflight a k = Some (a1, 0, 0, k) /\ DrainOutWaiting a1 k = Some (a2, k).
Proof.
  intros (Hz&Hw&He). assert (0 <= inflightCap a) by (rewrite <- Hz; unfold zlen; lia). unfold DrainOutInflight.
  destruct (for_upM_inv (fun i st => exists b, st = (b, 0, 0, k) /\ zlen (InFlight b) = inflightCap a /\ waitingCount b = 0 /\
      forall j, i <= j < inflightCap a -> e_seq (InFlight b).[j] = 0 /\ e_slot (InFlight b).[j] = INVALID) 0 (Z.to_nat (inflightCap a)) drain_entry (a, 0, 0, k))
    as (st&->&b&->&_&Hb&_).
  - by exists a.
  - intros i st Hi (b&->&Z1&W1&E1). destruct (E1 i ltac:(lia)) as [E2 E3]. unfold drain_entry. rewrite E2, E3. cbn [mbind option_bind]. eexists. split; [reflexivity|].
    eexists. split; [reflexivity|]. cbn. rewrite zlen_set. split; [done|]. split; [done|]. intros j Hj. rewrite arr_get_set_ne by lia. apply E1. lia.
  - cbn [mbind option_bind]. eexists _, _. split; [reflexivity|]. unfold DrainOutWaiting. cbn [waitingCount upd]. rewrite Hb. reflexivity.
Qed.

(** What the drains leave of the rings' sizes. *)
Lemma drain_waiting_sizes m : forall a k a' k', drain_waiting m a k = Some (a', k') -> zlen (InFlight a') = zlen (InFlight a) /\ inflightCap a' = inflightCap a.
Proof.
  induction m as [|m IH]; intros a k a' k'; cbn [drain_waiting]; [by intros [= <- _]|].
  destruct (0 <? _); [|by intros [= <- _]]. intros (k4&_&H)%bind_some. by apply IH in H.
Qed.
Lemma drains_sizes a k a1 b n k1 a2 k2 : DrainOutInflight a k = Some (a1, b, n, k1) -> DrainOutWaiting a1 k1 = Some (a2, k2) ->
  zlen (InFlight a2) = zlen (InFlight a) /\ inflightCap a2 = inflightCap a.
Proof.
  unfold DrainOutInflight. intros ([[[a0 b0] n0] k0]&E&H)%bind_some H2. injection H as <- _ _ <-.
  apply (for_upM_keep (fun st => zlen (InFlight st.1.1.1) = zlen (InFlight a) /\ inflightCap st.1.1.1 = inflightCap a)) in E; [|clear|done].
  2: { intros i [[[x y] z] k0] s' H H1. unfold drain_entry in H. destruct (negb _ && negb _); apply bind_some in H as (k3&_&H); injection H as <-; cbn in *; by rewrite zlen_set. }
  apply drain_waiting_sizes in H2 as [-> ->]. exact E.
Qed.

Lemma held_drains a k Fs Fd : held_ok a k Fs Fd ->
  exists a1 b n k1 a2 k2, DrainOutInflight a k = Some (a1, b, n, k1) /\ DrainOutWaiting a1 k1 = Some (a2, k2) /\
    al_owns (staging k2) ns Fs /\ al_owns (sending k2) nd Fd /\ (oa_life a = OPEN -> spent a2).
Proof.
  intros H. destruct (ho_standing _ _ _ _ H) as [[El Hs]|[El Hs]].
  - destruct (drains_ok _ ns nd (w_range (oa_mode a)) a k _ _ (held_out _ _ _ _ El H)) as (a1&k1&a2&k2&D1&D2&(_&Hw&He)&?&?).
    exists a1, (pend_bytes a), (pend_count a), k1, a2, k2. split; [done|]. split; [done|]. split; [done|]. split; [done|]. intros _.
    destruct (drains_sizes _ _ _ _ _ _ _ _ D1 D2) as [Hz Hc]. unfold spent. rewrite Hz, Hc, (so_cap _ _ Hs). split_and!; [apply Hs|done|done].
  - destruct (spent_drains a k Hs) as (a1&a2&E1&E2). destruct (spent_shares a Hs) as [S1 S2]. exists a1, 0, 0, k, a2, k.
    split; [done|]. split; [done|]. destruct H as [_ H1 H2]. rewrite S1 in H1. rewrite S2 in H2. split; [done|]. split; [done|]. intros E. congruence.
Qed.
End Drains.

(** ** A list without one of its elements *)

Definition without (s : Z) (l : list Z) : list Z := filter (fun x => x <> s) l.

Lemma without_elem s l x : x ∈ without s l <-> x ∈ l /\ x <> s.
Proof. unfold without. rewrite list_elem_of_filter. tauto. Qed.
Lemma without_nodup s l : NoDup l -> NoDup (without s l).
Proof. intros. by apply NoDup_filter. Qed.
Lemma without_notin s l : s ∉ l -> without s l = l.
Proof.
  unfold without. induction l as [|x l IH]; [done|]. intros [Hx H]%not_elem_of_cons. rewrite filter_cons_True by congruence. by rewrite IH.
Qed.
Lemma without_mid s l1 l2 : NoDup (l1 ++ s :: l2) -> without s (l1 ++ s :: l2) = l1 ++ l2.
Proof.
  intros (_&Hd&[Hn _]%NoDup_cons)%NoDup_app. unfold without. rewrite filter_app, filter_cons_False by naive_solver.
  change (filter _ l1) with (without s l1). change (filter _ l2) with (without s l2). rewrite !without_notin; [done|done|]. intros H. apply (Hd s H). left.
Qed.
Lemma without_perm s l : NoDup l -> s ∈ l -> l ≡ₚ s :: without s l.
Proof. intros Hn (l1&l2&->)%list_elem_of_split. rewrite without_mid by done. symmetry. apply Permutation_middle. Qed.

(** ** Views *)

Record TableView := mk_view { vw_flows : list Z; vw_list : Z -> list Z; vw_live : list Z; vw_unread : list Z; vw_staged : list Z; vw_sending : list Z }.
#[export] Instance View_eta : Eta TableView := fun v => mk_view (vw_flows v) (vw_list v) (vw_live v) (vw_unread v) (vw_staged v) (vw_sending v).

Section Inv.
Context {Q S : Type} `{!ReadyQueue Q} `{!Allocator S} (nf ns nd mp : Z).
Implicit Types (t : FlowTable Q S) (v : TableView).

Record assoc_ok (flow : Flow) (f : Z) a : Prop := {
  ao_flow : oa_flowSlot a = f; ao_id : oa_flowId a = fl_flowId flow; ao_peer : 0 <= oa_peerSlot a < mp;
  ao_standing : standing a }.

(** [hidden] is an association that has left its directory and not yet its list. *)
Record ft_inv (hidden : option Z) t v : Prop := {
  fi_flowPool : al_owns (flowPool t) nf (vw_flows v);
  fi_nf : zlen (flows t) = nf;
  fi_used : forall f, 0 <= f < nf -> (f ∈ vw_flows v <-> fl_flowId (flows t).[f] <> INVALID_FLOW_ID) /\ (f ∈ vw_flows v <-> fl_life (flows t).[f] <> CLOSED);
  fi_distinct : forall f g, f ∈ vw_flows v -> g ∈ vw_flows v -> fl_flowId (flows t).[f] = fl_flowId (flows t).[g] -> f = g;
  fi_outPool : split_owns (outAssocPool t) (vw_live v ++ vw_unread v);
  fi_len : zlen (outs t) = Split_GetCapacity (outAssocPool t);
  fi_chain : forall f, f ∈ vw_flows v -> flow_chain (outs t) (fl_firstAssoc (flows t).[f]) (vw_list v f) /\ NoDup (vw_list v f);
  fi_live : forall s, s ∈ vw_live v <-> exists f, f ∈ vw_flows v /\ s ∈ vw_list v f;
  fi_assoc : forall f s, f ∈ vw_flows v -> s ∈ vw_list v f -> assoc_ok (flows t).[f] f (outs t).[s];
  fi_dirs : exists dirs, outAssocDir t = Some dirs /\ zlen dirs = mp;
  fi_dir : forall p, 0 <= p < mp -> dir_ok (OutDirFor t p) /\ zlen (OutDirFor t p) < INVALID /\
    forall id s, (id, s) ∈ published (OutDirFor t p) <->
      s ∈ vw_live v /\ hidden <> Some s /\ oa_peerSlot (outs t).[s] = p /\ oa_flowId (outs t).[s] = id;
  fi_unread : forall s, s ∈ vw_unread v -> oa_life (outs t).[s] = CLOSED /\ oa_emitting (outs t).[s] = true;
  fi_caps : wait_cap_ok (outReliableWaitCap t) /\ wait_cap_ok (outUnreliableWaitCap t);
  fi_staging : al_owns (staging (ft_pools t)) ns (shares st_share (outs t) (vw_live v) ++ vw_staged v);
  fi_sending : al_owns (sending (ft_pools t)) nd (shares sd_share (outs t) (vw_live v) ++ vw_sending v) }.

(** ** What the invariant says of a slot *)

Lemma live_range h t v s : ft_inv h t v -> s ∈ vw_live v \/ s ∈ vw_unread v -> 0 <= s < zlen (outs t) /\ s <> INVALID.
Proof.
  intros H Hs. destruct (split_held _ _ (fi_outPool _ _ _ H)) as (_&Hr&Hc). rewrite Forall_forall in Hr.
  specialize (Hr s ltac:(by apply elem_of_app)). cbn in Hr. rewrite (fi_len _ _ _ H). split; [lia|lia].
Qed.

Lemma live_nodup h t v : ft_inv h t v -> NoDup (vw_live v) /\ (forall s, s ∈ vw_live v -> s ∉ vw_unread v).
Proof. intros H. destruct (split_held _ _ (fi_outPool _ _ _ H)) as (Hn&_). apply NoDup_app in Hn as (?&?&_). done. Qed.

Lemma flow_range h t v f : ft_inv h t v -> f ∈ vw_flows v -> 0 <= f < nf /\ f < al_capacity (flowPool t) /\ nf <= 2 ^ 31.
Proof.
  intros H Hf. destruct (al_held _ _ _ (fi_flowPool _ _ _ H)) as (->&_&Hr&Hc). rewrite Forall_forall in Hr. specialize (Hr f Hf). cbn in Hr. lia.
Qed.

Lemma live_list h t v s : ft_inv h t v -> s ∈ vw_live v ->
  let f := oa_flowSlot (outs t).[s] in f ∈ vw_flows v /\ s ∈ vw_list v f /\ assoc_ok (flows t).[f] f (outs t).[s].
Proof.
  intros H Hs. apply (fi_live _ _ _ H) in Hs as (f&Hf&Hs). pose proof (fi_assoc _ _ _ H f s Hf Hs) as Ha. rewrite (ao_flow _ _ _ Ha). done.
Qed.

Lemma list_unique h t v s f : ft_inv h t v -> f ∈ vw_flows v -> s ∈ vw_list v f -> oa_flowSlot (outs t).[s] = f /\ s ∈ vw_live v.
Proof. intros H Hf Hs. split; [apply (fi_assoc _ _ _ H f s Hf Hs)|]. apply (fi_live _ _ _ H). by exists f. Qed.

(** ** Pools *)

(** One association's share and everybody else's. *)
Lemma assoc_out_ok h t v s live' : ft_inv h t v -> vw_live v ≡ₚ s :: live' ->
  held_ok ns nd (outs t).[s] (ft_pools t)
    (shares st_share (outs t) live' ++ vw_staged v) (shares sd_share (outs t) live' ++ vw_sending v).
Proof.
  intros H Hp. assert (Hs : s ∈ vw_live v) by (rewrite Hp; left). destruct (live_list _ _ _ _ H Hs) as (_&_&Ha). split.
  - apply Ha.
  - eapply al_perm; [|apply (fi_staging _ _ _ H)]. rewrite (shares_perm _ _ _ _ Hp). cbn. by rewrite <- !app_assoc.
  - eapply al_perm; [|apply (fi_sending _ _ _ H)]. rewrite (shares_perm _ _ _ _ Hp). cbn. by rewrite <- !app_assoc.
Qed.

(** ** Operations on one association *)

(** What such an operation may not touch. *)
Definition same_place a a' : Prop :=
  oa_peerSlot a' = oa_peerSlot a /\ oa_flowId a' = oa_flowId a /\ oa_flowSlot a' = oa_flowSlot a /\ oa_nextInFlow a' = oa_nextInFlow a.

Lemma ident_place a a' : out_ident a' = out_ident a -> same_place a a'.
Proof. intros E. unfold out_ident in E. by simplify_eq. Qed.

Lemma inv_local t v s a' k' live' Fs Fd : ft_inv None t v -> vw_live v ≡ₚ s :: live' -> same_place (outs t).[s] a' ->
  held_ok ns nd a' k' (shares st_share (outs t) live' ++ Fs) (shares sd_share (outs t) live' ++ Fd) ->
  ft_inv None ((set_out t s a') <| ft_pools := k' |>) (v <| vw_staged := Fs |> <| vw_sending := Fd |>).
Proof.
  intros H Hp (P1&P2&P3&P4) Hok. assert (Hs : s ∈ vw_live v) by (rewrite Hp; left).
  destruct (live_range _ _ _ s H (or_introl Hs)) as [Hr Hv]. destruct (live_nodup _ _ _ H) as [Hnd Hun].
  assert (Hn' : s ∉ live') by (rewrite Hp in Hnd; by apply NoDup_cons in Hnd as [? _]).
  set (t' := (set_out t s a') <| ft_pools := k' |>).
  assert (Ho : outs t' = (outs t).[s <- a']) by done.
  assert (Hget : forall x, 0 <= x -> (outs t').[x] = if s =? x then a' else (outs t).[x]) by (intros x Hx; rewrite Ho; apply arr_get_set; lia).
  assert (Hfield : forall {B} (g : OutAssociation -> B), g a' = g (outs t).[s] -> forall x, 0 <= x -> g (outs t').[x] = g (outs t).[x]).
  { intros B g E x Hx. rewrite Hget by done. by destruct (Z.eqb_spec s x) as [<-|]. }
  assert (Hsh : forall g, shares g (outs t') (vw_live v) ≡ₚ g a' ++ shares g (outs t) live').
  { intros g. rewrite (shares_perm _ _ _ _ Hp). cbn. rewrite Hget, Z.eqb_refl by lia. f_equiv. change (concat _) with (shares g (outs t') live').
    rewrite (shares_ext g (outs t) (outs t')); [done|]. intros x Hx. rewrite Hget.
    - destruct (Z.eqb_spec s x) as [->|]; done.
    - assert (Hx' : x ∈ vw_live v) by (rewrite Hp; by right). apply (live_range _ _ _ x H (or_introl Hx')). }
  destruct Hok as [Hshape Hst Hsd].
  split; cbn [vw_flows vw_list vw_live vw_unread vw_staged vw_sending upd]; try (by destruct H).
  - rewrite Ho, zlen_set. apply (fi_len _ _ _ H).
  - intros f Hf. destruct (fi_chain _ _ _ H f Hf) as [Hc Hn]. split; [|done]. rewrite Ho. by apply chain_set_next.
  - intros f x Hf Hx. pose proof (fi_assoc _ _ _ H f x Hf Hx) as Ha. destruct (list_unique _ _ _ _ _ H Hf Hx) as [_ Hxl].
    destruct (live_range _ _ _ x H (or_introl Hxl)) as [Hxr _]. rewrite Hget by lia. destruct (Z.eqb_spec s x) as [<-|]; [|done].
    change (flows t') with (flows t). split; rewrite ?P1, ?P2, ?P3; try apply Ha; done.
  - intros p Hp'. change (OutDirFor t' p) with (OutDirFor t p). destruct (fi_dir _ _ _ H p Hp') as (?&?&Hd). split; [done|]. split; [done|].
    intros id x. rewrite Hd. split; intros (Hx&?&E1&E2); (split; [done|]; split; [done|]);
      destruct (live_range _ _ _ x H (or_introl Hx)) as [Hxr _];
      rewrite (Hfield _ oa_peerSlot P1), (Hfield _ oa_flowId P2) in * by lia; done.
  - intros x Hx. destruct (live_range _ _ _ x H (or_intror Hx)) as [Hxr _]. rewrite Hget by lia.
    destruct (Z.eqb_spec s x) as [->|]; [by destruct (Hun x)|]. by apply (fi_unread _ _ _ H).
  - eapply al_perm; [|exact Hst]. rewrite Hsh. by rewrite !app_assoc.
  - eapply al_perm; [|exact Hsd]. rewrite Hsh. by rewrite !app_assoc.
Qed.

(** ** Directories *)

Lemma OutDirFor_set t p q dir : (exists dirs, outAssocDir t = Some dirs /\ zlen dirs = mp) -> 0 <= p < mp -> 0 <= q ->
  OutDirFor (set_out_dir t p dir) q = if p =? q then dir else OutDirFor t q.
Proof.
  intros (dirs&E&Hz) Hp Hq. unfold OutDirFor, set_out_dir. cbn [outAssocDir upd]. rewrite E. cbn. apply arr_get_set; lia.
Qed.

Lemma unpublish_ok t v s : ft_inv None t v -> s ∈ vw_live v -> ft_inv (Some s) (UnpublishOut t (oa_peerSlot (outs t).[s]) s) v.
Proof.
  intros H Hs. destruct (live_list _ _ _ _ H Hs) as (_&_&Ha). pose proof (ao_peer _ _ _ Ha) as Hp. set (p := oa_peerSlot (outs t).[s]) in *.
  unfold UnpublishOut. set (dir := EraseFlowSlot (OutDirFor t p) s). destruct (fi_dir _ _ _ H p Hp) as (Hok&Hw&Hd).
  assert (Hin : (oa_flowId (outs t).[s], s) ∈ published (OutDirFor t p)) by (apply Hd; done).
  pose proof (erase_hit _ _ _ Hin (do_slots _ Hok)) as Hper. fold dir in Hper.
  split; try (by destruct H).
  - destruct (fi_dirs _ _ _ H) as (dirs&E&Hz). exists (dirs.[p <- dir]). unfold set_out_dir. cbn [outAssocDir upd]. rewrite E. split; [done|]. by rewrite zlen_set.
  - intros q Hq. rewrite (OutDirFor_set t p q dir) by (exact (fi_dirs _ _ _ H) || lia). destruct (Z.eqb_spec p q) as [<-|Hne].
    + split; [by apply (dir_ok_erase _ _ _ Hin)|]. split; [unfold dir; by rewrite zlen_erase|]. intros id x. cbn [outs upd set_out_dir].
      assert (Hsn : s ∉ (published dir).*2) by (pose proof (do_slots _ Hok) as Hn; rewrite Hper in Hn; cbn in Hn; by apply NoDup_cons in Hn as [? _]).
      split.
      * intros Hx. assert (Hx' : (id, x) ∈ published (OutDirFor t p)) by (rewrite Hper; by right). apply Hd in Hx' as (?&_&?&?).
        split; [done|]. split; [|done]. intros [= ->]. apply Hsn. by apply (list_elem_of_fmap_2 snd _ (id, x)).
      * intros (Hl&Hns&Ep&Eid). assert (Hx' : (id, x) ∈ published (OutDirFor t p)) by (apply Hd; done). rewrite Hper in Hx'.
        apply elem_of_cons in Hx' as [[= _ ->]|?]; done.
    + destruct (fi_dir _ _ _ H q Hq) as (?&?&Hdq). split; [done|]. split; [done|]. intros id x. rewrite Hdq. cbn [outs upd set_out_dir].
      split; intros (?&?&Ep&?); split; try done; split; try done. intros [= ->]. by rewrite <- Ep in Hne.
Qed.

(** ** Freeing an association *)

Definition drop_assoc v (f s : Z) (unread : bool) : TableView :=
  mk_view (vw_flows v) (fupd (vw_list v) f (without s (vw_list v f))) (without s (vw_live v))
    (if unread then s :: vw_unread v else vw_unread v) (vw_staged v) (vw_sending v).

Lemma standing_same a a' : unlinked a' = unlinked a -> standing a -> standing a'.
Proof.
  intros E H. assert (H' : standing (unlinked a')) by (rewrite E; destruct H as [[? []]|[? H]]; [left; by split|by right]).
  destruct H' as [[? []]|[? H']]; [left; by split|by right].
Qed.

(** What the unlinking leaves, while the association is still there: its list and the
    fields of the others. *)
Record freed (f s : Z) t t' : Prop := {
  fr_flows : exists h, flows t' = (flows t).[f <- (flows t).[f] <| fl_firstAssoc := h |>];
  fr_others : forall x, 0 <= x -> x <> s -> unlinked (outs t').[x] = unlinked (outs t).[x];
  fr_rest : flowPool t' = flowPool t /\ outAssocDir t' = outAssocDir t /\ lastEpochById t' = lastEpochById t }.

Lemma free_pieces t v s refund : ft_inv (Some s) t v -> s ∈ vw_live v ->
  let f := oa_flowSlot (outs t).[s] in
  exists t1 h a2 k2 r2, UnlinkAssociation t f s = Some t1 /\ flows t1 = (flows t).[f <- (flows t).[f] <| fl_firstAssoc := h |>] /\
    same_rest t t1 /\ zlen (outs t1) = zlen (outs t) /\ flow_chain (outs t1) h (without s (vw_list v f)) /\
    (forall x, 0 <= x -> x <> s -> unlinked (outs t1).[x] = unlinked (outs t).[x]) /\
    (forall x, 0 <= x -> x ∉ vw_list v f -> (outs t1).[x] = (outs t).[x]) /\
    FreeAssocBody (outs t1).[s] refund (ft_pools t1) = Some (a2, r2, negb (oa_emitting (outs t).[s]), k2) /\
    oa_life a2 = CLOSED /\ oa_emitting a2 = oa_emitting (outs t).[s] /\
    al_owns (staging k2) ns (shares st_share (outs t) (without s (vw_live v)) ++ vw_staged v) /\
    al_owns (sending k2) nd (shares sd_share (outs t) (without s (vw_live v)) ++ vw_sending v).
Proof.
  intros H Hs f. destruct (live_list _ _ _ _ H Hs) as (Hf&Hl&Ha). fold f in Hf, Hl, Ha. destruct (live_nodup _ _ _ H) as [Hnd _].
  destruct (flow_range _ _ _ f H Hf) as (Hfr&Hfc&_). destruct (fi_chain _ _ _ H f Hf) as [Hc Hn].
  destruct (list_elem_of_split _ _ Hl) as (l1&l2&El). rewrite El in Hc, Hn.
  assert (Hf1 : 0 <= f < al_capacity (flowPool t)) by lia. assert (Hf2 : f < zlen (flows t)) by (rewrite (fi_nf _ _ _ H); lia).
  destruct (Unlink_ok t f s l1 l2 Hf1 Hf2 Hc Hn) as (t1&h&E1&Hr&Hz&Hfl&Hc1&Es&Ho&Ho2).
  pose proof (assoc_out_ok _ _ _ _ _ H (without_perm _ _ Hnd Hs)) as Hok. set (a := (outs t).[s]) in *.
  set (a1 := a <| oa_nextInFlow := INVALID |> <| oa_flowSlot := INVALID |>) in *.
  assert (Hok1 : held_ok ns nd a1 (ft_pools t1) (shares st_share (outs t) (without s (vw_live v)) ++ vw_staged v)
                   (shares sd_share (outs t) (without s (vw_live v)) ++ vw_sending v)).
  { rewrite Hr. destruct Hok as [H1 H2 H3]. split; [destruct H1 as [[? []]|[? H1]]; [left; by split|by right]|exact H2|exact H3]. }
  destruct (held_drains ns nd a1 (ft_pools t1) _ _ Hok1) as (a3&b3&n3&k3&a2&k2&D1&D2&Hst&Hsd&_).
  pose proof (Drains_ident _ _ _ _ _ _ _ _ D1 D2) as Hid. exists t1, h. unfold FreeAssocBody. rewrite Es, D1. cbn [mbind option_bind]. rewrite D2. cbn [mbind option_bind].
  assert (Hem : oa_emitting a2 = oa_emitting a) by (unfold out_ident in Hid; by simplify_eq).
  eexists _, k2, _. split; [done|]. split; [done|]. split; [done|]. split; [done|]. rewrite El, without_mid by done.
  split; [done|]. split; [done|]. split; [intros x Hx Hn'; by apply Ho2|]. split; [cbn; by rewrite Hem|]. done.
Qed.

Lemma unlinked_field {B} (g : OutAssociation -> B) a a' : (forall x, g (unlinked x) = g x) -> unlinked a' = unlinked a -> g a' = g a.
Proof. intros Hg E. by rewrite <- (Hg a'), E, Hg. Qed.

Lemma assoc_unlinked flow flow' f a a' : fl_flowId flow' = fl_flowId flow -> unlinked a' = unlinked a -> assoc_ok flow f a -> assoc_ok flow' f a'.
Proof. intros Hid E [H1 H2 H3 H4]. split; [rewrite <- H1; by apply (unlinked_field oa_flowSlot)| | |by apply (standing_same a)]; [rewrite Hid, <- H2; by apply (unlinked_field oa_flowId)|rewrite (unlinked_field oa_peerSlot a a'); done]. Qed.

(** The invariant without [s], whatever became of its slot. *)
Lemma dropped_ok t v s t1 h a2 k2 sp u : ft_inv (Some s) t v -> s ∈ vw_live v ->
  let f := oa_flowSlot (outs t).[s] in
  flows t1 = (flows t).[f <- (flows t).[f] <| fl_firstAssoc := h |>] -> same_rest t t1 -> zlen (outs t1) = zlen (outs t) ->
  flow_chain (outs t1) h (without s (vw_list v f)) ->
  (forall x, 0 <= x -> x <> s -> unlinked (outs t1).[x] = unlinked (outs t).[x]) ->
  (forall x, 0 <= x -> x ∉ vw_list v f -> (outs t1).[x] = (outs t).[x]) ->
  al_owns (staging k2) ns (shares st_share (outs t) (without s (vw_live v)) ++ vw_staged v) ->
  al_owns (sending k2) nd (shares sd_share (outs t) (without s (vw_live v)) ++ vw_sending v) ->
  split_owns sp (without s (vw_live v) ++ u) -> Split_GetCapacity sp = Split_GetCapacity (outAssocPool t) ->
  (forall x, x ∈ u -> x = s /\ oa_life a2 = CLOSED /\ oa_emitting a2 = true \/ x ∈ vw_unread v) ->
  ft_inv None ((set_out t1 s a2) <| ft_pools := k2 |> <| outAssocPool := sp |>)
    (mk_view (vw_flows v) (fupd (vw_list v) f (without s (vw_list v f))) (without s (vw_live v)) u (vw_staged v) (vw_sending v)).
Proof.
  intros H Hs f Hfl Hr Hz Hc Ho Ho2 Hst Hsd Hsp Hcap Hu. destruct (live_list _ _ _ _ H Hs) as (Hf&Hl&Ha). fold f in Hf, Hl, Ha.
  destruct (live_nodup _ _ _ H) as [Hnd Hun]. destruct (flow_range _ _ _ f H Hf) as (Hfr&_&_).
  destruct (live_range _ _ _ s H (or_introl Hs)) as [Hsr _].
  set (t' := (set_out t1 s a2) <| ft_pools := k2 |> <| outAssocPool := sp |>).
  assert (Ef : flows t' = flows t1) by done. assert (Eo : outs t' = (outs t1).[s <- a2]) by done.
  assert (Hflow : forall g, 0 <= g -> (flows t').[g] = if f =? g then (flows t).[f] <| fl_firstAssoc := h |> else (flows t).[g]).
  { intros g Hg. rewrite Ef, Hfl. apply arr_get_set; [rewrite (fi_nf _ _ _ H)|]; lia. }
  assert (Hid : forall g, 0 <= g -> fl_flowId (flows t').[g] = fl_flowId (flows t).[g] /\ fl_life (flows t').[g] = fl_life (flows t).[g]).
  { intros g Hg. rewrite Hflow by done. by destruct (Z.eqb_spec f g) as [<-|]. }
  assert (Hx : forall x, 0 <= x -> x <> s -> unlinked (outs t').[x] = unlinked (outs t).[x]).
  { intros x Hx Hne. rewrite Eo, arr_get_set_ne by lia. by apply Ho. }
  assert (Hkeep : forall x, 0 <= x -> x <> s -> oa_peerSlot (outs t').[x] = oa_peerSlot (outs t).[x] /\ oa_flowId (outs t').[x] = oa_flowId (outs t).[x] /\
    oa_life (outs t').[x] = oa_life (outs t).[x] /\ oa_emitting (outs t').[x] = oa_emitting (outs t).[x]).
  { intros x H0 Hne. specialize (Hx x H0 Hne). split_and!; [apply (unlinked_field oa_peerSlot)|apply (unlinked_field oa_flowId)|apply (unlinked_field oa_life)|apply (unlinked_field oa_emitting)]; done. }
  assert (Hrange : forall x, x ∈ vw_live v -> 0 <= x) by (intros x Hxl; destruct (live_range _ _ _ x H (or_introl Hxl)) as [? _]; lia).
  assert (Hlist : forall g x, g ∈ vw_flows v -> x ∈ fupd (vw_list v) f (without s (vw_list v f)) g -> x ∈ vw_list v g /\ x <> s).
  { intros g x Hg Hin. destruct (decide (g = f)) as [->|Hne]; [rewrite fupd_eq in Hin; by apply without_elem|]. rewrite fupd_ne in Hin by done.
    split; [done|]. intros ->. by destruct (list_unique _ _ _ _ _ H Hg Hin). }
  assert (Hnl : forall x, x ∈ without s (vw_live v) <-> x ∈ vw_live v /\ x <> s) by (intros; apply without_elem).
  assert (Hsh : forall g, (forall x, g (unlinked x) = g x) -> shares g (outs t') (without s (vw_live v)) = shares g (outs t) (without s (vw_live v))).
  { intros g Hg. apply shares_ext. intros x [Hxl Hne]%Hnl. apply (unlinked_field g); [done|]. apply Hx; [by apply Hrange|done]. }
  assert (Hpool : flowPool t' = flowPool t) by (unfold t'; rewrite Hr; done).
  assert (Hdir : outAssocDir t' = outAssocDir t) by (unfold t'; rewrite Hr; done).
  split; cbn [vw_flows vw_list vw_live vw_unread vw_staged vw_sending].
  - rewrite Hpool. apply (fi_flowPool _ _ _ H).
  - rewrite Ef, Hfl, zlen_set. apply (fi_nf _ _ _ H).
  - intros g Hg. destruct (Hid g ltac:(lia)) as [-> ->]. by apply (fi_used _ _ _ H).
  - intros g1 g2 H1 H2. destruct (flow_range _ _ _ g1 H H1) as [? _], (flow_range _ _ _ g2 H H2) as [? _].
    rewrite (proj1 (Hid g1 ltac:(lia))), (proj1 (Hid g2 ltac:(lia))). by apply (fi_distinct _ _ _ H).
  - exact Hsp.
  - rewrite Eo, zlen_set, Hz. change (outAssocPool t') with sp. rewrite Hcap. apply (fi_len _ _ _ H).
  - intros g Hg. destruct (flow_range _ _ _ g H Hg) as [? _]. destruct (fi_chain _ _ _ H g Hg) as [Hcg Hng]. rewrite Eo, Hflow by lia.
    destruct (Z.eqb_spec f g) as [<-|Hne].
    + rewrite fupd_eq. split; [|by apply without_nodup]. apply chain_set; [by intros [_ ?]%without_elem|lia|exact Hc].
    + rewrite fupd_ne by congruence. split; [|done]. apply chain_set; [|lia|].
      * intros Hin. by destruct (list_unique _ _ _ _ _ H Hg Hin).
      * apply (chain_ext (outs t)); [done| |done]. intros x Hxg. destruct (list_unique _ _ _ _ _ H Hg Hxg) as [Efx Hxl].
        rewrite Ho2; [done|by apply Hrange|]. intros Hxf. destruct (list_unique _ _ _ _ _ H Hf Hxf). congruence.
  - intros x. rewrite Hnl, (fi_live _ _ _ H). split.
    + intros [(g&Hg&Hxg) Hne]. exists g. split; [done|]. destruct (decide (g = f)) as [->|]; [rewrite fupd_eq; by apply without_elem|by rewrite fupd_ne].
    + intros (g&Hg&Hxg). destruct (Hlist g x Hg Hxg). split; [by exists g|done].
  - intros g x Hg Hxg. destruct (Hlist g x Hg Hxg) as [Hin Hne]. destruct (list_unique _ _ _ _ _ H Hg Hin) as [_ Hxl].
    destruct (flow_range _ _ _ g H Hg) as [? _].
    apply (assoc_unlinked (flows t).[g] _ g (outs t).[x]); [apply Hid; lia|apply Hx; [by apply Hrange|done]|by apply (fi_assoc _ _ _ H)].
  - rewrite Hdir. apply (fi_dirs _ _ _ H).
  - intros p Hp. unfold OutDirFor. rewrite Hdir. destruct (fi_dir _ _ _ H p Hp) as (?&?&Hd). split; [done|]. split; [done|].
    intros id x. rewrite Hd, Hnl. split.
    + intros (Hxl&Hne&E1&E2). assert (Hne' : x <> s) by congruence. destruct (Hkeep x (Hrange x Hxl) Hne') as (->&->&_). done.
    + intros ([Hxl Hne]&_&E1&E2). destruct (Hkeep x (Hrange x Hxl) Hne) as (Ep&Ei&_). rewrite Ep in E1. rewrite Ei in E2. split; [done|]. split; [congruence|done].
  - intros x Hxu. destruct (Hu x Hxu) as [(->&?&?)|Hxv]; [by rewrite Eo, arr_get_set_eq by lia|].
    destruct (live_range _ _ _ x H (or_intror Hxv)) as [? _]. assert (x <> s) by (intros ->; by destruct (Hun s Hs)).
    destruct (Hkeep x ltac:(lia) ltac:(done)) as (_&_&->&->). by apply (fi_unread _ _ _ H).
  - replace (outReliableWaitCap t') with (outReliableWaitCap t) by (unfold t'; by rewrite Hr).
    replace (outUnreliableWaitCap t') with (outUnreliableWaitCap t) by (unfold t'; by rewrite Hr). apply (fi_caps _ _ _ H).
  - rewrite (Hsh st_share) by done. exact Hst.
  - rewrite (Hsh sd_share) by done. exact Hsd.
Qed.

Lemma free_ok t v s refund : ft_inv (Some s) t v -> s ∈ vw_live v ->
  let f := oa_flowSlot (outs t).[s] in
  exists t' r', FreeAssoc t s refund = Some (t', r') /\ ft_inv None t' (drop_assoc v f s (oa_emitting (outs t).[s])) /\ freed f s t t'.
Proof.
  intros H Hs f. destruct (free_pieces t v s refund H Hs) as (t1&h&a2&k2&r2&E1&Hfl&Hr&Hz&Hc&Ho&Ho2&Eb&Hlife&Hem&Hst&Hsd). fold f in E1, Hfl, Hc, Ho2.
  destruct (live_list _ _ _ _ H Hs) as (Hf&Hl&Ha). fold f in Hf. destruct (flow_range _ _ _ f H Hf) as (Hfr&_&H31).
  destruct (live_nodup _ _ _ H) as [Hnd Hun]. destruct (live_range _ _ _ s H (or_introl Hs)) as [Hsr _].
  pose proof (fi_outPool _ _ _ H) as Hsp.
  assert (Hfreed : forall sp, freed f s t ((set_out t1 s a2) <| ft_pools := k2 |> <| outAssocPool := sp |>)).
  { intros sp. split.
    - exists h. done.
    - intros x Hx Hne. cbn [outs set_out upd]. rewrite arr_get_set_ne by lia. by apply Ho.
    - by rewrite Hr. }
  assert (Hop : outAssocPool t1 = outAssocPool t) by by rewrite Hr.
  unfold FreeAssoc. fold f. destruct (Z.eqb_spec f INVALID); [unfold INVALID, UINT32_MAX in *; lia|]. cbn [negb]. rewrite E1. cbn [mbind option_bind].
  rewrite Eb. cbn [mbind option_bind]. unfold drop_assoc. destruct (oa_emitting (outs t).[s]) eqn:He; cbn [negb].
  - eexists _, _. split; [reflexivity|].
    replace ((set_out t1 s a2) <| ft_pools := k2 |>) with ((set_out t1 s a2) <| ft_pools := k2 |> <| outAssocPool := outAssocPool t1 |>) by by destruct t1.
    split; [|apply Hfreed]. rewrite Hop. apply (dropped_ok t v s t1 h); try done.
    + eapply split_perm; [|exact Hsp]. rewrite (without_perm _ _ Hnd Hs) at 1. cbn. apply Permutation_middle.
    + intros x [->|Hx]%elem_of_cons; [left|by right]. done.
  - assert (Hsp' : split_owns (outAssocPool t) (s :: (without s (vw_live v) ++ vw_unread v))).
    { eapply split_perm; [|exact Hsp]. by rewrite (without_perm _ _ Hnd Hs) at 1. }
    destruct (Split_Release_ok _ _ _ Hsp') as (sp&Er&[Hc1 Hc2]&Hown).
    change (outAssocPool ((set_out t1 s a2) <| ft_pools := k2 |>)) with (outAssocPool t1). rewrite Hop, Er. cbn [mbind option_bind].
    eexists _, _. split; [reflexivity|]. split; [|apply Hfreed]. apply (dropped_ok t v s t1 h); try done.
    + unfold Split_GetCapacity. by rewrite Hc1, Hc2.
    + intros x Hx. by right.
Qed.

(** ** Opening and closing *)

Lemma find_flow h t v id : ft_inv h t v -> id <> INVALID_FLOW_ID ->
  (exists f, FindFlowById t id = f /\ f <> INVALID /\ f ∈ vw_flows v /\ fl_flowId (flows t).[f] = id) \/
  (FindFlowById t id = INVALID /\ forall f, f ∈ vw_flows v -> fl_flowId (flows t).[f] <> id).
Proof.
  intros H Hid. destruct (al_held _ _ _ (fi_flowPool _ _ _ H)) as (Hcap&_&Hr&H31). unfold FindFlowById. destruct (Z.eqb_spec id INVALID_FLOW_ID); [done|].
  destruct (find_up _ _ _) as [f|] eqn:E.
  - left. apply find_up_Some in E as (Hf&Hm&_). rewrite Hcap in Hf. bprop. exists f. split; [done|]. split; [unfold INVALID, UINT32_MAX; cbn; lia|].
    split; [|done]. apply (proj1 (fi_used _ _ _ H f ltac:(lia))). congruence.
  - right. split; [done|]. intros f Hf Hm. destruct (flow_range _ _ _ f H Hf) as (Hfr&Hfc&_).
    pose proof (find_up_None _ _ _ E f ltac:(lia)) as Hn. cbv beta in Hn. rewrite Hm, Z.eqb_refl in Hn. done.
Qed.

(** The table but for one flow record that is still the same flow. *)
Lemma inv_flow h t v f x : ft_inv h t v -> f ∈ vw_flows v -> fl_flowId x = fl_flowId (flows t).[f] -> fl_firstAssoc x = fl_firstAssoc (flows t).[f] ->
  fl_life x <> CLOSED -> ft_inv h (set_flow t f x) v.
Proof.
  intros H Hf Ei Ea El. destruct (flow_range _ _ _ f H Hf) as (Hfr&_&_).
  assert (Hget : forall g, 0 <= g -> (flows (set_flow t f x)).[g] = if f =? g then x else (flows t).[g]).
  { intros g Hg. cbn. apply arr_get_set; [rewrite (fi_nf _ _ _ H)|]; lia. }
  assert (Hid : forall g, 0 <= g -> fl_flowId (flows (set_flow t f x)).[g] = fl_flowId (flows t).[g] /\ fl_firstAssoc (flows (set_flow t f x)).[g] = fl_firstAssoc (flows t).[g]).
  { intros g Hg. rewrite Hget by done. destruct (Z.eqb_spec f g) as [<-|]; done. }
  assert (Hr : forall g, g ∈ vw_flows v -> 0 <= g) by (intros g Hg; destruct (flow_range _ _ _ g H Hg) as [? _]; lia).
  split; try (by destruct H).
  - cbn. rewrite zlen_set. apply (fi_nf _ _ _ H).
  - intros g Hg. destruct (fi_used _ _ _ H g Hg) as [U1 U2]. rewrite (proj1 (Hid g ltac:(lia))). split; [done|]. rewrite Hget by lia.
    destruct (Z.eqb_spec f g) as [<-|]; done.
  - intros g1 g2 H1 H2. rewrite (proj1 (Hid g1 (Hr _ H1))), (proj1 (Hid g2 (Hr _ H2))). by apply (fi_distinct _ _ _ H).
  - intros g Hg. rewrite (proj2 (Hid g (Hr _ Hg))). by apply (fi_chain _ _ _ H).
  - intros g s Hg Hs. destruct (fi_assoc _ _ _ H g s Hg Hs) as [? E ? ?]. split; try done. rewrite (proj1 (Hid g (Hr _ Hg))). done.
Qed.

Definition live_flow t (flow : FlowHandle) (f : Z) : Prop :=
  fh_slot flow = f /\ fh_fail flow = Ok /\ 0 <= f < nf /\ fl_epoch (flows t).[f] = fh_epoch flow /\ fl_life (flows t).[f] = OPEN.

Lemma stale_live h t v flow : ft_inv h t v -> 0 <= fh_slot flow -> stale t flow = false -> fh_fail flow = Ok /\ 0 <= fh_slot flow < nf.
Proof.
  intros H H0 Hs. destruct (al_held _ _ _ (fi_flowPool _ _ _ H)) as (Hcap&_). unfold stale, FlowHandle_Failed in Hs.
  apply orb_false_iff in Hs as [H1 H2]. apply negb_false_iff, bool_decide_eq_true in H1. apply Z.leb_gt in H2. split; [done|lia].
Qed.

(** What [BeginClose] answers, and what it keeps. *)
Lemma BeginClose_ok h t v flow : ft_inv h t v -> 0 <= fh_slot flow ->
  (BeginClose t flow = (false, t) /\ ~ live_flow t flow (fh_slot flow)) \/
  (live_flow t flow (fh_slot flow) /\ fh_slot flow ∈ vw_flows v /\
   BeginClose t flow = (true, set_flow t (fh_slot flow) ((flows t).[fh_slot flow] <| fl_life := CLOSING |>)) /\
   ft_inv h (set_flow t (fh_slot flow) ((flows t).[fh_slot flow] <| fl_life := CLOSING |>)) v).
Proof.
  intros H H0. unfold BeginClose. destruct (al_held _ _ _ (fi_flowPool _ _ _ H)) as (Hcap&_).
  destruct (stale t flow) eqn:Es.
  { left. split; [done|]. intros (_&E1&E2&_). unfold stale, FlowHandle_Failed in Es. rewrite E1 in Es. cbn in Es. apply Z.leb_le in Es. lia. }
  destruct (stale_live h t v flow H H0 Es) as [Hok Hr]. destruct ((_ =? _) && _) eqn:E.
  - right. apply andb_true_iff in E as [E1%Z.eqb_eq E2%bool_decide_eq_true]. assert (Hin : fh_slot flow ∈ vw_flows v) by (apply (fi_used _ _ _ H _ Hr); congruence).
    split; [done|]. split; [done|]. split; [done|]. by apply inv_flow.
  - left. split; [done|]. intros (_&_&_&E1&E2). rewrite E1, Z.eqb_refl, E2 in E. done.
Qed.

Lemma FinishClose_ok t v f : ft_inv None t v -> f ∈ vw_flows v -> vw_list v f = [] ->
  exists t', FinishClose t f = Some t' /\ ft_inv None t' (v <| vw_flows := without f (vw_flows v) |>) /\
    outs t' = outs t /\ flows t' = (flows t).[f <- (flows t).[f] <| fl_life := CLOSED |> <| fl_flowId := INVALID_FLOW_ID |>].
Proof.
  intros H Hf Hl. destruct (flow_range _ _ _ f H Hf) as (Hfr&_&_). destruct (al_held _ _ _ (fi_flowPool _ _ _ H)) as (_&Hn&_).
  unfold FinishClose. set (x := (flows t).[f] <| fl_life := CLOSED |> <| fl_flowId := INVALID_FLOW_ID |>).
  destruct (al_release_ok (flowPool t) nf (without f (vw_flows v)) f) as (s'&Er&Ho).
  { eapply al_perm; [by apply without_perm|]. apply (fi_flowPool _ _ _ H). }
  change (flowPool (set_flow t f x)) with (flowPool t). rewrite Er. cbn [mbind option_bind]. eexists. split; [reflexivity|].
  assert (Hget : forall g, 0 <= g -> ((flows t).[f <- x]).[g] = if f =? g then x else (flows t).[g]).
  { intros g Hg. apply arr_get_set; [rewrite (fi_nf _ _ _ H)|]; lia. }
  assert (Hne : forall g, g ∈ without f (vw_flows v) -> g ∈ vw_flows v /\ ((flows t).[f <- x]).[g] = (flows t).[g]).
  { intros g [Hg Hn']%without_elem. split; [done|]. destruct (flow_range _ _ _ g H Hg) as [? _]. rewrite Hget by lia. by destruct (Z.eqb_spec f g). }
  split; [|done]. split; cbn [vw_flows vw_list vw_live vw_unread vw_staged vw_sending upd flowPool flows set_flow]; try (by destruct H); try done.
  - rewrite zlen_set. apply (fi_nf _ _ _ H).
  - intros g Hg. rewrite Hget, without_elem by lia. destruct (Z.eqb_spec f g) as [<-|Hng]; [subst x; cbn; tauto|].
    destruct (fi_used _ _ _ H g Hg) as [U1 U2]. assert (g <> f) by congruence. tauto.
  - intros g1 g2 Hg1 Hg2. destruct (Hne g1 Hg1) as [H1 ->], (Hne g2 Hg2) as [H2 ->]. by apply (fi_distinct _ _ _ H).
  - intros g Hg. destruct (Hne g Hg) as [H1 ->]. by apply (fi_chain _ _ _ H).
  - intros s. rewrite (fi_live _ _ _ H). split; intros (g&Hg&Hs); exists g; (split; [|done]); [apply without_elem|by apply without_elem in Hg as [? _]].
    split; [done|]. intros ->. rewrite Hl in Hs. by apply not_elem_of_nil in Hs.
  - intros g s Hg Hs. destruct (Hne g Hg) as [H1 ->]. by apply (fi_assoc _ _ _ H).
Qed.

(** Everything the invariant reads but the flows. *)
Definition same_out t t' : Prop :=
  outs t' = outs t /\ outAssocPool t' = outAssocPool t /\ outAssocDir t' = outAssocDir t /\ ft_pools t' = ft_pools t /\
  outReliableWaitCap t' = outReliableWaitCap t /\ outUnreliableWaitCap t' = outUnreliableWaitCap t.

Lemma opened_ok t v t' f x id : ft_inv None t v -> same_out t t' -> f ∉ vw_flows v -> 0 <= f < nf -> al_owns (flowPool t') nf (f :: vw_flows v) ->
  flows t' = (flows t).[f <- x] -> fl_flowId x = id -> id <> INVALID_FLOW_ID -> fl_firstAssoc x = INVALID -> fl_life x = OPEN ->
  (forall g, g ∈ vw_flows v -> fl_flowId (flows t).[g] <> id) ->
  ft_inv None t' (v <| vw_flows := f :: vw_flows v |> <| vw_list := fupd (vw_list v) f [] |>).
Proof.
  intros H (S1&S2&S3&S4&S5&S6) Hn Hr Ho Hfl Hxi Hid Hxa Hxl Hfresh.
  assert (Hget : forall g, 0 <= g -> (flows t').[g] = if f =? g then x else (flows t).[g]).
  { intros g Hg. rewrite Hfl. apply arr_get_set; [rewrite (fi_nf _ _ _ H)|]; lia. }
  assert (Hfx : (flows t').[f] = x) by (rewrite Hget, Z.eqb_refl by lia; done).
  assert (Hold : forall g, g ∈ vw_flows v -> g <> f /\ (flows t').[g] = (flows t).[g]).
  { intros g Hg. destruct (flow_range _ _ _ g H Hg) as [? _]. assert (g <> f) by congruence. split; [done|].
    rewrite Hget by lia. destruct (Z.eqb_spec f g); [congruence|done]. }
  assert (Hdir : forall p, OutDirFor t' p = OutDirFor t p) by (intros p; unfold OutDirFor; by rewrite S3).
  split; cbn [vw_flows vw_list vw_live vw_unread vw_staged vw_sending upd]; rewrite ?S1, ?S2, ?S3, ?S4, ?S5, ?S6; try (by destruct H); try done.
  - rewrite Hfl, zlen_set. apply (fi_nf _ _ _ H).
  - intros g Hg. rewrite Hget, elem_of_cons by lia. destruct (Z.eqb_spec f g) as [<-|Hng]; [rewrite Hxl, Hxi; by split; split; auto|].
    destruct (fi_used _ _ _ H g Hg) as [U1 U2]. assert (g <> f) by congruence. tauto.
  - intros g1 g2 [->|Hg1]%elem_of_cons [->|Hg2]%elem_of_cons; [done| | |].
    + rewrite Hfx. destruct (Hold g2 Hg2) as [_ ->]. intros E. destruct (Hfresh g2 Hg2). congruence.
    + rewrite Hfx. destruct (Hold g1 Hg1) as [_ ->]. intros E. destruct (Hfresh g1 Hg1). congruence.
    + destruct (Hold g1 Hg1) as [_ ->], (Hold g2 Hg2) as [_ ->]. by apply (fi_distinct _ _ _ H).
  - intros g [->|Hg]%elem_of_cons.
    + rewrite fupd_eq, Hfx. split; [done|constructor].
    + destruct (Hold g Hg) as [Hne ->]. rewrite fupd_ne by done. by apply (fi_chain _ _ _ H).
  - intros s. rewrite (fi_live _ _ _ H). split.
    + intros (g&Hg&Hs). exists g. destruct (Hold g Hg) as [Hne _]. rewrite fupd_ne by done. split; [by right|done].
    + intros (g&[->|Hg]%elem_of_cons&Hs); [rewrite fupd_eq in Hs; by apply not_elem_of_nil in Hs|]. destruct (Hold g Hg) as [Hne _].
      rewrite fupd_ne in Hs by done. by exists g.
  - intros g s [->|Hg]%elem_of_cons Hs; [rewrite fupd_eq in Hs; by apply not_elem_of_nil in Hs|]. destruct (Hold g Hg) as [Hne ->].
    rewrite fupd_ne in Hs by done. by apply (fi_assoc _ _ _ H).
  - intros p Hp. rewrite Hdir. by apply (fi_dir _ _ _ H).
Qed.

Lemma Open_ok hint t v id modeByte : ft_inv None t v ->
  exists h t', Open hint t id modeByte = Some (h, t') /\
    ((fh_fail h <> Ok /\ ft_inv None t' v /\ outs t' = outs t /\ flows t' = flows t) \/
     (exists f x, h = mk_flow_handle f (fl_epoch x) id (fl_flowData x) Ok /\ (f ∉ vw_flows v) /\ 0 <= f < nf /\ id <> INVALID_FLOW_ID /\
        ft_inv None t' (v <| vw_flows := f :: vw_flows v |> <| vw_list := fupd (vw_list v) f [] |>) /\
        outs t' = outs t /\ flows t' = (flows t).[f <- x] /\ fl_life x = OPEN /\ fl_flowId x = id /\ fl_epoch x = u32 (fl_epoch (flows t).[f] + 1))).
Proof.
  intros H. unfold Open. destruct (Z.eqb_spec id INVALID_FLOW_ID) as [|Hid]; [eexists _, _; split; [reflexivity|]; by left|].
  destruct (_ <=? _); [eexists _, _; split; [reflexivity|]; by left|]. destruct (_ && _); [eexists _, _; split; [reflexivity|]; by left|].
  destruct (find_flow _ _ _ id H Hid) as [(f&->&Hf&_)|[-> Hfresh]].
  { destruct (Z.eqb_spec f INVALID); [done|]. eexists _, _. split; [reflexivity|]. by left. }
  rewrite Z.eqb_refl. cbn [negb].
  assert (Hpool : forall s' l, al_owns s' nf l -> l ≡ₚ vw_flows v -> ft_inv None (t <| flowPool := s' |>) v).
  { intros s' l Ho Hp. split; try (by destruct H). by apply (al_perm _ _ _ _ Hp). }
  destruct (al_acquire_ok _ _ _ hint (fi_flowPool _ _ _ H)) as [(_&f&s'&->&Hn&Hr&Ho)|(_&s'&->&Ho)]; cbn [mbind option_bind].
  2: { rewrite Z.eqb_refl. eexists _, _. split; [reflexivity|]. left. split; [done|]. split; [by apply (Hpool _ _ Ho)|done]. }
  destruct (al_held _ _ _ Ho) as (_&_&_&H31). destruct (Z.eqb_spec f INVALID); [unfold INVALID, UINT32_MAX in *; lia|].
  destruct (EncodeFlowData _ _ _) as [data|].
  2: { destruct (al_release_ok _ _ _ _ Ho) as (s2&Er&Ho2). change (flowPool (t <| flowPool := s' |>)) with s'. rewrite Er. cbn [mbind option_bind].
       eexists _, _. split; [reflexivity|]. left. split; [done|]. split; [by apply (Hpool _ _ Ho2)|done]. }
  eexists _, _. split; [reflexivity|]. right. eexists f, (mk_flow _ INVALID id _ data OPEN).
  split; [reflexivity|]. split; [done|]. split; [done|]. split; [done|]. split; [|done]. by eapply opened_ok.
Qed.

(** ** The first send *)

(** The table but for the pool's state and a slot nobody holds. *)
Lemma inv_spare t v s a sp : ft_inv None t v -> 0 <= s -> s ∉ vw_live v -> s ∉ vw_unread v ->
  split_owns sp (vw_live v ++ vw_unread v) -> Split_GetCapacity sp = Split_GetCapacity (outAssocPool t) ->
  ft_inv None ((set_out t s a) <| outAssocPool := sp |>) v.
Proof.
  intros H H0 Hl Hu Ho Hc. set (t' := (set_out t s a) <| outAssocPool := sp |>).
  assert (Hget : forall x, x ∈ vw_live v \/ x ∈ vw_unread v -> (outs t').[x] = (outs t).[x]).
  { intros x Hx. destruct (live_range _ _ _ x H Hx) as [? _]. cbn. rewrite arr_get_set_ne; [done|lia|lia|]. intros <-. by destruct Hx. }
  assert (Hlist : forall f x, f ∈ vw_flows v -> x ∈ vw_list v f -> x ∈ vw_live v) by (intros f x Hf Hx; by apply (list_unique _ _ _ _ f H)).
  split; try (by destruct H).
  - cbn. rewrite zlen_set, Hc. apply (fi_len _ _ _ H).
  - intros f Hf. destruct (fi_chain _ _ _ H f Hf). split; [|done]. apply chain_set; [|done|done]. intros Hs. by destruct (Hl (Hlist f s Hf Hs)).
  - intros f x Hf Hx. rewrite (Hget x) by (left; by apply (Hlist f)). by apply (fi_assoc _ _ _ H).
  - intros p Hp. destruct (fi_dir _ _ _ H p Hp) as (?&?&Hd). split; [done|]. split; [done|]. intros id x. change (OutDirFor t' p) with (OutDirFor t p). rewrite Hd.
    split; intros (Hx&?&?&?); rewrite (Hget x) in * by (by left); done.
  - intros x Hx. rewrite (Hget x) by (by right). by apply (fi_unread _ _ _ H).
  - rewrite (shares_ext st_share (outs t) (outs t')) by (intros x Hx; by rewrite (Hget x) by (by left)). apply (fi_staging _ _ _ H).
  - rewrite (shares_ext sd_share (outs t) (outs t')) by (intros x Hx; by rewrite (Hget x) by (by left)). apply (fi_sending _ _ _ H).
Qed.

Definition add_assoc v (f s : Z) : TableView := v <| vw_list := fupd (vw_list v) f (s :: vw_list v f) |> <| vw_live := s :: vw_live v |>.

(** Published and linked. *)
Lemma created_ok t v f s a sp p dir : ft_inv None t v -> f ∈ vw_flows v -> 0 <= s < zlen (outs t) -> s <> INVALID -> s ∉ vw_live v -> s ∉ vw_unread v ->
  split_owns sp (s :: vw_live v ++ vw_unread v) -> Split_GetCapacity sp = Split_GetCapacity (outAssocPool t) ->
  0 <= p < mp -> zlen dir = zlen (OutDirFor t p) -> published dir ≡ₚ (fl_flowId (flows t).[f], s) :: published (OutDirFor t p) ->
  fl_flowId (flows t).[f] ∉ (published (OutDirFor t p)).*1 ->
  oa_peerSlot a = p -> oa_flowId a = fl_flowId (flows t).[f] -> oa_life a = OPEN -> shape_ok (w_of (oa_mode a)) a -> st_share a = [] -> sd_share a = [] ->
  ft_inv None (LinkAssociation (set_out_dir ((set_out t s a) <| outAssocPool := sp |>) p dir) f s) (add_assoc v f s).
Proof.
  intros H Hf Hs Hv Hl Hu Hsp Hcap Hp Hz Hper Hid Ep Ei El Hsh E1 E2. destruct (flow_range _ _ _ f H Hf) as (Hfr&_&_).
  destruct (fi_chain _ _ _ H f Hf) as [Hc Hn]. set (t1 := set_out_dir ((set_out t s a) <| outAssocPool := sp |>) p dir).
  assert (Hsl : forall g, g ∈ vw_flows v -> s ∉ vw_list v g) by (intros g Hg Hin; destruct (list_unique _ _ _ _ _ H Hg Hin); done).
  assert (Hc1 : flow_chain (outs t1) (fl_firstAssoc (flows t1).[f]) (vw_list v f)) by (apply chain_set; [by apply Hsl|lia|exact Hc]).
  assert (L1 : 0 <= f < zlen (flows t1)) by (change (flows t1) with (flows t); rewrite (fi_nf _ _ _ H); lia).
  assert (L2 : 0 <= s < zlen (outs t1)) by (cbn; rewrite zlen_set; lia).
  destruct (Link_ok t1 f s (vw_list v f) L1 L2 Hv (Hsl f Hf) Hc1) as (Hr&Hzo&Hfl&Hc2&Es&Ho). cbv zeta in *. set (t' := LinkAssociation t1 f s) in *.
  assert (Eo1 : outs t1 = (outs t).[s <- a]) by done. change (flows t1) with (flows t) in *.
  assert (Hnew : exists n, (outs t').[s] = a <| oa_flowSlot := f |> <| oa_nextInFlow := n |>).
  { rewrite Es, Eo1, arr_get_set_eq by lia. by eexists. }
  destruct Hnew as [n Hnew].
  assert (Hold : forall x, x ∈ vw_live v \/ x ∈ vw_unread v -> x <> s /\ (outs t').[x] = (outs t).[x]).
  { intros x Hx. destruct (live_range _ _ _ x H Hx) as [? _]. assert (x <> s) by (intros ->; by destruct Hx). split; [done|]. rewrite Ho by lia.
    rewrite Eo1. by rewrite arr_get_set_ne by lia. }
  assert (Hflow : forall g, 0 <= g -> fl_flowId (flows t').[g] = fl_flowId (flows t).[g] /\ fl_life (flows t').[g] = fl_life (flows t).[g] /\
    fl_firstAssoc (flows t').[g] = if f =? g then s else fl_firstAssoc (flows t).[g]).
  { intros g Hg. rewrite Hfl, arr_get_set by (rewrite ?(fi_nf _ _ _ H); lia). by destruct (Z.eqb_spec f g) as [<-|]. }
  assert (Hr0 : forall g, g ∈ vw_flows v -> 0 <= g) by (intros g Hg; destruct (flow_range _ _ _ g H Hg) as [? _]; lia).
  assert (Hlist : forall g x, g ∈ vw_flows v -> x ∈ fupd (vw_list v) f (s :: vw_list v f) g -> g = f /\ x = s \/ x ∈ vw_list v g).
  { intros g x Hg Hx. destruct (decide (g = f)) as [->|Hne]; [|rewrite fupd_ne in Hx by done; by right]. rewrite fupd_eq in Hx. apply elem_of_cons in Hx as [->|]; [by left|by right]. }
  assert (Hshare : forall g : OutAssociation -> list Z, g (outs t').[s] = [] -> shares g (outs t') (s :: vw_live v) = shares g (outs t) (vw_live v)).
  { intros g Hg. change (shares g (outs t') (s :: vw_live v)) with (g (outs t').[s] ++ shares g (outs t') (vw_live v)). rewrite Hg. apply (shares_ext g (outs t)). intros x Hx. by destruct (Hold x (or_introl Hx)) as [_ ->]. }
  assert (Hpool : flowPool t' = flowPool t /\ outAssocPool t' = sp /\ ft_pools t' = ft_pools t /\ outAssocDir t' = outAssocDir t1) by (by rewrite Hr).
  destruct Hpool as (Q1&Q2&Q3&Q4). clearbody t'.
  split; cbn [add_assoc vw_flows vw_list vw_live vw_unread vw_staged vw_sending upd].
  - rewrite Q1. apply (fi_flowPool _ _ _ H).
  - rewrite Hfl, zlen_set. apply (fi_nf _ _ _ H).
  - intros g Hg. destruct (Hflow g ltac:(lia)) as (->&->&_). by apply (fi_used _ _ _ H).
  - intros g1 g2 H1 H2. destruct (Hflow g1 (Hr0 _ H1)) as (->&_), (Hflow g2 (Hr0 _ H2)) as (->&_). by apply (fi_distinct _ _ _ H).
  - by rewrite Q2.
  - rewrite Hzo, Q2, Hcap. cbn. rewrite zlen_set. apply (fi_len _ _ _ H).
  - intros g Hg. destruct (Hflow g (Hr0 _ Hg)) as (_&_&->). destruct (Z.eqb_spec f g) as [<-|Hne].
    + rewrite fupd_eq. split; [exact Hc2|]. apply NoDup_cons. split; [by apply Hsl|done].
    + rewrite fupd_ne by congruence. destruct (fi_chain _ _ _ H g Hg) as [Hcg Hng]. split; [|done]. apply (chain_ext (outs t)); [rewrite Hzo; cbn; apply zlen_set| |done].
      intros x Hx. destruct (list_unique _ _ _ _ _ H Hg Hx) as [_ Hxl]. by destruct (Hold x (or_introl Hxl)) as [_ ->].
  - intros x. rewrite elem_of_cons, (fi_live _ _ _ H). split.
    + intros [->|(g&Hg&Hx)]; [exists f; rewrite fupd_eq; split; [done|left]|]. exists g. split; [done|].
      destruct (decide (g = f)) as [->|]; [rewrite fupd_eq; by right|by rewrite fupd_ne].
    + intros (g&Hg&Hx). destruct (Hlist g x Hg Hx) as [[_ ->]|?]; [by left|right; by exists g].
  - intros g x Hg Hx. destruct (Hlist g x Hg Hx) as [[-> ->]|Hin].
    + rewrite Hnew. split; cbn; [done|rewrite Ei; symmetry; apply Hflow; lia|by rewrite Ep|left; split; [done|by destruct Hsh]].
    + destruct (list_unique _ _ _ _ _ H Hg Hin) as [_ Hxl]. destruct (Hold x (or_introl Hxl)) as [_ ->].
      destruct (fi_assoc _ _ _ H g x Hg Hin) as [? E ? ?]. split; try done. rewrite (proj1 (Hflow g (Hr0 _ Hg))). done.
  - rewrite Q4. destruct (fi_dirs _ _ _ H) as (dirs&Ed&Hdz). exists (dirs.[p <- dir]). cbn. rewrite Ed. split; [done|]. by rewrite zlen_set.
  - intros q Hq. assert (Edir : OutDirFor t' q = if p =? q then dir else OutDirFor t q).
    { unfold OutDirFor at 1. rewrite Q4. change (OutDirFor t1 q = if p =? q then dir else OutDirFor t q). unfold t1.
      rewrite OutDirFor_set; [done|exact (fi_dirs _ _ _ H)|lia|lia]. }
    destruct (fi_dir _ _ _ H q Hq) as (Hok&Hw&Hd). rewrite Edir. destruct (Z.eqb_spec p q) as [<-|Hne].
    + split; [apply (dir_ok_insert (OutDirFor t p) _ (fl_flowId (flows t).[f]) s); try done|].
      { intros (y&->&Hy)%list_elem_of_fmap. destruct y as [i x]. apply Hd in Hy as [? _]. done. }
      split; [by rewrite Hz|]. intros id x. rewrite Hper, !elem_of_cons. split.
      * intros [[= -> ->]|Hx]; [rewrite Hnew; cbn; rewrite Ep, Ei; by split_and!; [left| | |]|]. apply Hd in Hx as (Hx&?&?&?).
        destruct (Hold x (or_introl Hx)) as [_ ->]. by split_and!; [right| | |].
      * intros ([->|Hx]&_&E3&E4).
        -- left. rewrite Hnew in E4. cbn in E4. congruence.
        -- right. apply Hd. destruct (Hold x (or_introl Hx)) as [_ E]. by rewrite E in E3, E4.
    + split; [done|]. split; [done|]. intros id x. rewrite Hd, elem_of_cons. split.
      * intros (Hx&?&?&?). destruct (Hold x (or_introl Hx)) as [_ ->]. by split_and!; [right| | |].
      * intros ([->|Hx]&_&E3&E4); [rewrite Hnew in E3; cbn in E3; congruence|]. destruct (Hold x (or_introl Hx)) as [_ E]. by rewrite E in E3, E4.
  - intros x Hx. destruct (Hold x (or_intror Hx)) as [_ ->]. by apply (fi_unread _ _ _ H).
  - rewrite Hr. apply (fi_caps _ _ _ H).
  - rewrite Q3, Hshare; [apply (fi_staging _ _ _ H)|]. rewrite Hnew. exact E1.
  - rewrite Q3, Hshare; [apply (fi_sending _ _ _ H)|]. rewrite Hnew. exact E2.
Qed.

Lemma inv_out_pool h t v sp : ft_inv h t v -> split_owns sp (vw_live v ++ vw_unread v) -> Split_GetCapacity sp = Split_GetCapacity (outAssocPool t) ->
  ft_inv h (t <| outAssocPool := sp |>) v.
Proof.
  intros H Ho Hc. assert (E : zlen (outs t) = Split_GetCapacity sp) by (rewrite Hc; apply (fi_len _ _ _ H)). split; try (by destruct H); done.
Qed.

Lemma fresh_assoc_ok old peerSlot addr id flowId mode flowEpoch wait now : wait_cap_ok wait ->
  let a := ResetOutAssoc old peerSlot addr id flowId mode flowEpoch (WindowFor mode) wait now in
  shape_ok (w_of mode) a /\ st_share a = [] /\ sd_share a = [].
Proof.
  intros Hc. cbv zeta. rewrite WindowFor_pow. destruct (fresh_sums (w_of mode) old peerSlot addr id flowId mode flowEpoch wait now) as (_&_&Hr).
  split; [by apply (fresh_shape _ (w_range mode))|]. unfold st_share, sd_share, fresh_out in *. rewrite Hr. by destruct (unreliable _).
Qed.

Lemma Create_ok hint now t v p peerSlot id : ft_inv None t v -> 0 <= peerSlot < mp ->
  exists s t', CreateAssociation hint now t p peerSlot id = Some (s, t') /\
    ((s = INVALID /\ ft_inv None t' v) \/
     (exists f, f ∈ vw_flows v /\ fl_flowId (flows t).[f] = id /\ fl_life (flows t).[f] = OPEN /\ (s ∉ vw_live v) /\ (s ∉ vw_unread v) /\ s <> INVALID /\
        ft_inv None t' (add_assoc v f s) /\ fl_flowData (flows t').[f] = with_generation (fl_flowData (flows t).[f]) (next_generation (fl_flowData (flows t).[f])) /\
        oa_peerSlot (outs t').[s] = peerSlot /\ oa_flowEpoch (outs t').[s] = next_generation (fl_flowData (flows t).[f]) /\
        oa_peerAddr (outs t').[s] = p_addr p /\ oa_peerId (outs t').[s] = p_id p /\ oa_flowId (outs t').[s] = id)).
Proof.
  intros H Hp. unfold CreateAssociation.
  destruct (decide (id = INVALID_FLOW_ID)) as [->|Hid]; [by eexists _, _; split; [reflexivity|left]|].
  destruct (find_flow _ _ _ id H Hid) as [(f&->&Hfv&Hf&Hfid)|[-> _]]; [|rewrite Z.eqb_refl; by eexists _, _; split; [reflexivity|left]].
  destruct (Z.eqb_spec f INVALID); [done|]. destruct (decide (fl_life (flows t).[f] = OPEN)) as [Hopen|Hopen].
  2: { rewrite bool_decide_eq_false_2 by done. by eexists _, _; split; [reflexivity|left]. }
  rewrite bool_decide_eq_true_2 by done. cbn [negb]. destruct (flow_range _ _ _ f H Hf) as (Hfr&_&_).
  set (gen := next_generation (fl_flowData (flows t).[f])). set (x := (flows t).[f] <| fl_flowData := with_generation (fl_flowData (flows t).[f]) gen |>).
  assert (H1 : ft_inv None (set_flow t f x) v) by (apply inv_flow; try done; change (fl_life x) with (fl_life (flows t).[f]); rewrite Hopen; done).
  set (t1 := set_flow t f x) in *. assert (Hx1 : (flows t1).[f] = x) by (cbn; apply arr_get_set_eq; rewrite (fi_nf _ _ _ H); lia).
  assert (Hxid : fl_flowId (flows t1).[f] = id) by (rewrite Hx1; exact Hfid).
  set (mode := fl_mode (flows t).[f]).
  destruct (Split_Acquire_ok hint (outAssocPool t1) _ (bool_decide (mode = RELIABLE_ORDERED_BULK)) (fi_outPool _ _ _ H1)) as (s&sp&->&[C1 C2]&Hs).
  cbn [mbind option_bind]. assert (Hcap : Split_GetCapacity sp = Split_GetCapacity (outAssocPool t1)) by (unfold Split_GetCapacity; by rewrite C1, C2).
  destruct Hs as [[-> Ho]|(Hns&Hr&Hb&Ho)].
  { rewrite Z.eqb_refl. eexists _, _. split; [reflexivity|]. left. split; [done|]. by apply inv_out_pool. }
  destruct (split_held _ _ (fi_outPool _ _ _ H1)) as (_&_&HI). destruct (Z.eqb_spec s INVALID) as [|Hsv]; [lia|].
  apply not_elem_of_app in Hns as [Hnl Hnu].
  set (wait := if bool_decide (mode = UNRELIABLE) then _ else _).
  assert (Hwait : wait_cap_ok wait) by (unfold wait; destruct (fi_caps _ _ _ H1) as [W1 W2]; destruct (bool_decide (mode = UNRELIABLE)); [exact W2|exact W1]).
  set (a := (ResetOutAssoc _ _ _ _ _ _ _ _ _ _) <| oa_flowSlot := INVALID |> <| oa_nextInFlow := INVALID |>).
  assert (Hfresh : shape_ok (w_of mode) a /\ st_share a = [] /\ sd_share a = []).
  { destruct (fresh_assoc_ok (outs (t1 <| outAssocPool := sp |>)).[s] peerSlot (p_addr p) (Some (p_id p)) id mode gen wait now Hwait) as (F1&F2&F3).
    split; [by destruct F1|]. split; [exact F2|exact F3]. }
  destruct Hfresh as (F1&F2&F3).
  change (OutDirFor (set_out (t1 <| outAssocPool := sp |>) s a) peerSlot) with (OutDirFor t1 peerSlot).
  destruct (fi_dir _ _ _ H1 peerSlot Hp) as (Hok&Hw&Hd).
  assert (Hdirs : exists dirs, outAssocDir (set_out (t1 <| outAssocPool := sp |>) s a) = Some dirs /\ zlen dirs = mp) by exact (fi_dirs _ _ _ H1).
  assert (Hown : split_owns sp (s :: vw_live v ++ vw_unread v)) by exact Ho.
  destruct (Split_Release_ok _ _ _ Hown) as (sp2&Er&[D1 D2]&Hown2).
  assert (Hcap2 : Split_GetCapacity sp2 = Split_GetCapacity (outAssocPool t1)) by (rewrite <- Hcap; unfold Split_GetCapacity; by rewrite D1, D2).
  assert (Hrelease : ft_inv None ((set_out t1 s a) <| outAssocPool := sp2 |>) v).
  { apply (inv_spare t1 v s a sp2 H1 ltac:(lia) Hnl Hnu); [exact Hown2|exact Hcap2]. }
  assert (Hrefused : forall dir, dir = OutDirFor t1 peerSlot ->
    exists t', (s0 ← Split_Release (outAssocPool (set_out_dir (set_out (t1 <| outAssocPool := sp |>) s a) peerSlot dir)) s;
      Some (INVALID, (set_out_dir (set_out (t1 <| outAssocPool := sp |>) s a) peerSlot dir) <| outAssocPool := s0 |>)) = Some (INVALID, t') /\ ft_inv None t' v).
  { intros dir ->. change (outAssocPool (set_out_dir _ _ _)) with sp. rewrite Er. cbn [mbind option_bind]. eexists. split; [reflexivity|].
    replace ((set_out_dir (set_out (t1 <| outAssocPool := sp |>) s a) peerSlot (OutDirFor t1 peerSlot)) <| outAssocPool := sp2 |>)
      with ((set_out t1 s a) <| outAssocPool := sp2 |>); [done|].
    unfold set_out_dir. destruct (fi_dirs _ _ _ H1) as (dirs&Ed&Hz). change (outAssocDir (set_out (t1 <| outAssocPool := sp |>) s a)) with (outAssocDir t1).
    unfold OutDirFor. rewrite Ed. cbn. rewrite arr_set_get_id by lia. cbn in Ed. by rewrite Ed. }
  destruct (decide (id ∈ dom (dir_map (OutDirFor t1 peerSlot)))) as [Hdup|Hnew].
  { rewrite insert_dup by done. change (zlen (OutDirFor (set_out_dir ?u ?q ?d) ?q)) with (zlen (OutDirFor (set_out_dir u q d) q)).
    rewrite OutDirFor_set, Z.eqb_refl by (done || lia). destruct (Z.leb_spec (zlen (OutDirFor t1 peerSlot)) INVALID); [|lia].
    destruct (Hrefused _ eq_refl) as (t'&E&Hi). rewrite E. eexists _, _. split; [reflexivity|]. by left. }
  assert (Hnew' : id ∉ (published (OutDirFor t1 peerSlot)).*1).
  { intros Hin. apply Hnew. destruct (dir_map (OutDirFor t1 peerSlot) !! id) eqn:E; [by apply elem_of_dom_2 in E|]. by apply dir_map_None in E. }
  destruct (insert_fresh (OutDirFor t1 peerSlot) id s Hok Hw Hnew' Hsv) as [[_ ->]|(_&i&dir&->&Hi&Hz&Hper)].
  { rewrite OutDirFor_set, Z.eqb_refl by (done || lia). destruct (Z.leb_spec (zlen (OutDirFor t1 peerSlot)) (zlen (OutDirFor t1 peerSlot))); [|lia].
    destruct (Hrefused _ eq_refl) as (t'&E&Hi). rewrite E. eexists _, _. split; [reflexivity|]. by left. }
  rewrite OutDirFor_set, Z.eqb_refl by (done || lia). destruct (Z.leb_spec (zlen dir) i); [lia|].
  eexists _, _. split; [reflexivity|]. right. exists f.
  assert (Hsr : 0 <= s < zlen (outs t1)) by (rewrite (fi_len _ _ _ H1); lia).
  pose proof (created_ok t1 v f s a sp peerSlot dir H1 Hf Hsr Hsv Hnl Hnu Hown Hcap Hp Hz) as Hinv. rewrite Hxid in Hinv.
  specialize (Hinv Hper Hnew' eq_refl eq_refl eq_refl F1 F2 F3).
  change (set_out (t1 <| outAssocPool := sp |>) s a) with ((set_out t1 s a) <| outAssocPool := sp |>).
  set (t2 := set_out_dir ((set_out t1 s a) <| outAssocPool := sp |>) peerSlot dir) in *.
  assert (Hos : (outs (LinkAssociation t2 f s)).[s] = a <| oa_flowSlot := f |> <| oa_nextInFlow := fl_firstAssoc (flows t2).[f] |>).
  { unfold LinkAssociation. cbn [outs set_flow set_out upd]. change (outs t2) with ((outs t1).[s <- a]). rewrite !arr_get_set_eq by (rewrite ?zlen_set; lia). done. }
  assert (Hfd : fl_flowData (flows (LinkAssociation t2 f s)).[f] = fl_flowData x).
  { unfold LinkAssociation. cbn [flows set_flow set_out upd]. change (flows t2) with (flows t1).
    rewrite arr_get_set_eq, Hx1; [done|]. rewrite (fi_nf _ _ _ H1). lia. }
  split; [done|]. split; [done|]. split; [done|]. split; [done|]. split; [done|]. split; [done|]. split; [exact Hinv|]. rewrite Hos, Hfd. done.
Qed.
End Inv.
