(* ===== verification/FlowTableSteps.v ===== *)
(** * The flow table: every operation keeps the invariant

    The marks an unread event leaves, a refusal, the sweep of a peer that goes away. *)

From stdpp Require Import gmap.
From S2P Require Import Prelude Wire Errors Keys FlowData SlotPool ReadyLanes Rtt Delivery Curve Congestion Peer InFlow InDeliver Packet PacketHandle PacketBuild OutFlow OutRetransmit OutInvariant OutSteps OutSend OutEnd OutHistory OutTheorems FlowDir AckWire FlowTable FlowTableOk FlowLists FlowTableInv.

Implicit Types (a : OutAssociation).

(** A directory names a slot once, so erasing it is clearing its entry. *)
Lemma erase_at dir i slot : 0 <= i < zlen dir -> d_slot dir.[i] = slot -> slot <> INVALID -> NoDup (published dir).*2 ->
  EraseFlowSlot dir slot = dir.[i <- no_dir].
Proof.
  revert i. induction dir as [|e dir IH]; intros i Hi Es Hs Hn; [unfold zlen in Hi; cbn in Hi; lia|]. rewrite published_cons in Hn. cbn [EraseFlowSlot].
  rewrite zlen_cons in Hi. destruct (decide (i = 0)) as [->|Hne].
  - change ((e :: dir).[0]) with e in Es. rewrite Es, Z.eqb_refl. reflexivity.
  - replace i with (i - 1 + 1) in Es by lia. rewrite get_cons_S in Es by lia.
    assert (Hin : slot ∈ (published dir).*2).
    { assert (Hd : dir.[i - 1] ∈ dir) by (apply arr_get_elem; lia). revert Hd Es. generalize (dir.[i - 1]) as y. clear -Hs. intros y Hd Es.
      induction dir as [|x dir IH]; [by apply not_elem_of_nil in Hd|].
      rewrite published_cons. apply elem_of_cons in Hd as [Hd|Hd]; [|rewrite fmap_app; apply elem_of_app; right; by apply IH].
      rewrite <- Hd, Es. destruct (Z.eqb_spec slot INVALID); [done|]. rewrite fmap_app. apply elem_of_app. left. cbn. by left. }
    destruct (Z.eqb_spec (d_slot e) slot) as [E|E].
    + exfalso. rewrite E in Hn. destruct (Z.eqb_spec slot INVALID); [done|]. cbn in Hn. apply NoDup_cons in Hn as [? _]. done.
    + rewrite (IH (i - 1)); [|lia|done|done|destruct (d_slot e =? INVALID); [done|]; cbn in Hn; by apply NoDup_cons in Hn as [_ ?]].
      unfold arr_set. by replace (Z.to_nat i) with (Datatypes.S (Z.to_nat (i - 1))) by lia.
Qed.

Lemma published_entry dir i : 0 <= i < zlen dir -> d_slot dir.[i] <> INVALID -> (d_flowId dir.[i], d_slot dir.[i]) ∈ published dir.
Proof.
  intros Hi Hs. assert (Hd : dir.[i] ∈ dir) by (apply arr_get_elem; lia). revert Hd Hs. generalize (dir.[i]) as x. clear Hi. intros x Hd Hs.
  induction dir as [|e dir IH]; [by apply not_elem_of_nil in Hd|]. rewrite published_cons. apply elem_of_app. apply elem_of_cons in Hd as [->|Hd]; [left|right; by apply IH].
  destruct (Z.eqb_spec (d_slot e) INVALID); [done|]. by left.
Qed.

Section Steps.
Context {Q S : Type} `{!ReadyQueue Q} `{!Allocator S} (nf ns nd mp : Z).
Implicit Types (t : FlowTable Q S) (v : TableView).
Abbreviation inv := (ft_inv nf ns nd mp).

(** ** Events *)

(** Another record in an association's place, with the same packet slots. *)
Lemma inv_alone t v s a' : inv None t v -> s ∈ vw_live v -> same_place (outs t).[s] a' -> standing a' ->
  st_share a' = st_share (outs t).[s] -> sd_share a' = sd_share (outs t).[s] -> inv None (set_out t s a') v.
Proof.
  intros H Hs Hp Ha E1 E2. destruct (live_nodup _ _ _ _ _ _ _ H) as [Hnd _]. pose proof (without_perm _ _ Hnd Hs) as Hq.
  replace (set_out t s a') with ((set_out t s a') <| ft_pools := ft_pools t |>) by by destruct t.
  replace v with (v <| vw_staged := vw_staged v |> <| vw_sending := vw_sending v |>) by by destruct v.
  apply (inv_local _ _ _ _ _ _ _ _ _ _ _ _ H Hq Hp). destruct (assoc_out_ok _ _ _ _ _ _ _ _ _ H Hq) as [_ O2 O3]. split; [done|by rewrite E1|by rewrite E2].
Qed.

(** The mark of an unread event is nothing else. *)
Lemma standing_mark a b : standing a -> standing (a <| oa_emitting := b |>).
Proof. intros [[? []]|[? H]]; [left; by split|by right]. Qed.

Lemma Mark_ok t v s : inv None t v -> s ∈ vw_live v -> inv None (MarkEmitting OUT_FLOW t s) v.
Proof.
  intros H Hs. destruct (live_range _ _ _ _ _ _ _ s H (or_introl Hs)) as [Hr _]. rewrite (fi_len _ _ _ _ _ _ _ H) in Hr. cbn [MarkEmitting].
  destruct (Z.leb_spec (Split_GetCapacity (outAssocPool t)) s); [lia|]. destruct (live_list _ _ _ _ _ _ _ _ H Hs) as (_&_&Ha).
  apply inv_alone; try done. by apply standing_mark, (ao_standing _ _ _ _ Ha).
Qed.

Lemma inv_forget t v sp u : inv None t v -> split_owns sp (vw_live v ++ u) -> Split_GetCapacity sp = Split_GetCapacity (outAssocPool t) ->
  (forall s, s ∈ u -> s ∈ vw_unread v) -> inv None (t <| outAssocPool := sp |>) (v <| vw_unread := u |>).
Proof.
  intros H Ho Hc Hu. assert (E : zlen (outs t) = Split_GetCapacity sp) by (rewrite Hc; apply (fi_len _ _ _ _ _ _ _ H)).
  assert (Hun : forall s, s ∈ u -> oa_life (outs t).[s] = CLOSED /\ oa_emitting (outs t).[s] = true) by (intros s Hs; by apply (fi_unread _ _ _ _ _ _ _ H), Hu).
  split; try (by destruct H); done.
Qed.

(** An event about an association that is still linked has been read: nothing is
    released; one about an association that is gone gives its slot back. *)
Lemma Clear_ok t v s : inv None t v -> s ∈ vw_live v \/ s ∈ vw_unread v ->
  exists t', ClearEmittingFlow OUT_FLOW t s = Some t' /\ inv None t' (v <| vw_unread := without s (vw_unread v) |>).
Proof.
  intros H Hs. destruct (live_range _ _ _ _ _ _ _ s H Hs) as [Hr _]. destruct (live_nodup _ _ _ _ _ _ _ H) as [Hnd Hun]. cbn [ClearEmittingFlow].
  pose proof Hr as Hr'. rewrite (fi_len _ _ _ _ _ _ _ H) in Hr'. destruct (Z.leb_spec (Split_GetCapacity (outAssocPool t)) s); [lia|].
  change (oa_life ((outs t).[s] <| oa_emitting := false |>)) with (oa_life (outs t).[s]).
  destruct Hs as [Hs|Hs].
  - destruct (live_list _ _ _ _ _ _ _ _ H Hs) as (_&_&Ha).
    rewrite bool_decide_eq_false_2 by (by destruct (ao_standing _ _ _ _ Ha) as [[-> _]|[-> _]]). eexists. split; [reflexivity|].
    rewrite without_notin by by apply Hun. replace (v <| vw_unread := vw_unread v |>) with v by by destruct v.
    apply inv_alone; try done. by apply standing_mark, (ao_standing _ _ _ _ Ha).
  - destruct (fi_unread _ _ _ _ _ _ _ H s Hs) as [-> _]. rewrite bool_decide_eq_true_2 by done.
    assert (Hnu : NoDup (vw_unread v)) by (destruct (split_held _ _ (fi_outPool _ _ _ _ _ _ _ H)) as (Hn&_); by apply NoDup_app in Hn as (_&_&?)).
    destruct (Split_Release_ok (outAssocPool t) s (vw_live v ++ without s (vw_unread v))) as (sp&Er&[C1 C2]&Ho).
    { eapply split_perm; [|apply (fi_outPool _ _ _ _ _ _ _ H)]. rewrite (without_perm _ _ Hnu Hs) at 1. symmetry. apply Permutation_middle. }
    change (outAssocPool (set_out t s _)) with (outAssocPool t). rewrite Er. cbn [mbind option_bind]. eexists. split; [reflexivity|].
    assert (Hc : Split_GetCapacity sp = Split_GetCapacity (outAssocPool t)) by (unfold Split_GetCapacity; by rewrite C1, C2).
    pose proof (inv_forget t v sp _ H Ho Hc (fun x Hx => proj1 (proj1 (without_elem _ _ x) Hx))) as Hi.
    apply (inv_spare _ _ _ _ _ _ s ((outs t).[s] <| oa_emitting := false |>) sp Hi); [lia| | |exact Ho|done].
    + cbn. intros Hl. by destruct (Hun s Hl).
    + cbn. by intros [_ ?]%without_elem.
Qed.

(** ** A refusal *)

Lemma Fail_ok t v s id refund : inv None t v -> s ∈ vw_live v ->
  exists b t' r', FailAssocAt t s id refund = Some (b, t', r') /\ inv None t' v /\ (b = true -> oa_life (outs t').[s] = FAILED /\ spent (outs t').[s]).
Proof.
  intros H Hs. destruct (live_list _ _ _ _ _ _ _ _ H Hs) as (_&_&Ha). destruct (live_nodup _ _ _ _ _ _ _ H) as [Hnd _]. pose proof (without_perm _ _ Hnd Hs) as Hq.
  destruct (live_range _ _ _ _ _ _ _ s H (or_introl Hs)) as [Hr _]. pose proof (assoc_out_ok _ _ _ _ _ _ _ _ _ H Hq) as Hok.
  unfold FailAssocAt, FailAssoc. set (a := (outs t).[s]) in *. destruct (_ && _ && _) eqn:E.
  - assert (El : oa_life a = OPEN) by (destruct (ao_standing _ _ _ _ Ha) as [[? _]|[El _]]; [done|rewrite El in E; by rewrite andb_false_r in E]).
    destruct (held_drains _ _ _ _ _ _ Hok) as (a1&b&n&k1&a2&k2&D1&D2&Hst&Hsd&Hsp). rewrite D1. cbn [mbind option_bind]. rewrite D2. cbn [mbind option_bind].
    eexists _, _, _. split; [reflexivity|]. set (a3 := a2 <| oa_life := FAILED |>). specialize (Hsp El).
    assert (H3 : spent a3) by exact Hsp. destruct (spent_shares a3 H3) as [S1 S2]. pose proof (Drains_ident _ _ _ _ _ _ _ _ D1 D2) as Hid.
    split; [|intros _; cbn; by rewrite arr_get_set_eq by lia].
    replace v with (v <| vw_staged := vw_staged v |> <| vw_sending := vw_sending v |>) by by destruct v.
    apply (inv_local _ _ _ _ _ _ _ _ _ _ _ _ H Hq).
    + unfold out_ident in Hid. by simplify_eq.
    + split; [right; done|by rewrite S1|by rewrite S2].
  - eexists _, _, _. split; [reflexivity|]. split; [|done].
    replace ((set_out t s a) <| ft_pools := ft_pools t |>) with (set_out t s a) by by destruct t. by apply inv_alone; try apply Ha.
Qed.

(** ** Taking an association out of its directory and freeing it *)

Lemma end_assoc_ok t v s refund : inv None t v -> s ∈ vw_live v ->
  let f := oa_flowSlot (outs t).[s] in let t0 := UnpublishOut t (oa_peerSlot (outs t).[s]) s in
  exists t' r', FreeAssoc t0 s refund = Some (t', r') /\ inv None t' (drop_assoc v f s (oa_emitting (outs t).[s])) /\ freed f s t0 t'.
Proof. intros H Hs f t0. exact (free_ok _ _ _ _ t0 v s refund (unpublish_ok _ _ _ _ _ _ _ H Hs) Hs). Qed.

(** ** The sweep of a peer *)

(** Part way: what is gone was the peer's, what the others have is as it was. *)
Record sweeping (p : Z) t v t' v' : Prop := {
  sw_inv : inv None t' v';
  sw_flows : vw_flows v' = vw_flows v /\ vw_staged v' = vw_staged v /\ vw_sending v' = vw_sending v;
  sw_live : forall s, s ∈ vw_live v' -> s ∈ vw_live v;
  sw_others : forall s, s ∈ vw_live v -> oa_peerSlot (outs t).[s] <> p -> s ∈ vw_live v';
  sw_kept : forall s, s ∈ vw_live v' -> unlinked (outs t').[s] = unlinked (outs t).[s];
  sw_unread : forall s, s ∈ vw_unread v' <-> s ∈ vw_unread v \/ (s ∈ vw_live v /\ s ∉ vw_live v') /\ oa_emitting (outs t).[s] = true;
  sw_width : zlen (OutDirFor t' p) = zlen (OutDirFor t p) }.

Lemma sweep_entry_ok p t0 v0 t v i : sweeping p t0 v0 t v -> 0 <= p < mp -> 0 <= i < zlen (OutDirFor t p) ->
  (forall j, 0 <= j < i -> d_slot (OutDirFor t p).[j] = INVALID) ->
  exists t' v', sweep_out_entry p i t = Some t' /\ sweeping p t0 v0 t' v' /\ (forall j, 0 <= j < i + 1 -> d_slot (OutDirFor t' p).[j] = INVALID).
Proof.
  intros [H (F1&F2&F3) Hl Ho Hk Hu Hw] Hp Hi Hd. unfold sweep_out_entry. set (s := d_slot (OutDirFor t p).[i]).
  destruct (Z.eqb_spec s INVALID) as [Es|Es].
  { exists t, v. split; [done|]. split; [by split|]. intros j Hj. destruct (decide (j = i)) as [->|]; [done|]. apply Hd. lia. }
  destruct (fi_dir _ _ _ _ _ _ _ H p Hp) as (Hok&_&Hpub). pose proof (published_entry _ i Hi Es) as Hin. fold s in Hin.
  apply Hpub in Hin as (Hs&_&Eps&_).
  rewrite <- (erase_at (OutDirFor t p) i s Hi eq_refl Es (do_slots _ Hok)).
  destruct (end_assoc_ok t v s None H Hs) as (t'&r'&E&H'&[_ Hfo (R1&R2&_)]). rewrite Eps in E, R2. unfold UnpublishOut in E. rewrite E. cbn [mbind option_bind].
  destruct (live_nodup _ _ _ _ _ _ _ H) as [Hnd _].
  assert (Edir : OutDirFor t' p = (OutDirFor t p).[i <- no_dir]).
  { unfold OutDirFor at 1. rewrite R2. change (OutDirFor (UnpublishOut t p s) p = (OutDirFor t p).[i <- no_dir]). unfold UnpublishOut.
    rewrite (OutDirFor_set mp), Z.eqb_refl by (exact (fi_dirs _ _ _ _ _ _ _ H) || lia). by apply erase_at; try apply Hok. }
  eexists t', _. split; [reflexivity|]. split.
  - split; [exact H'|by split_and!|..]; cbn [drop_assoc vw_live].
    + intros x [Hx _]%without_elem. by apply Hl.
    + intros x Hx Hne. apply without_elem. split; [by apply Ho|]. intros ->. apply Hne. rewrite <- Eps.
      apply (unlinked_field oa_peerSlot); [done|]. symmetry. by apply Hk.
    + intros x [Hx Hne]%without_elem. rewrite <- (Hk x Hx). destruct (live_range _ _ _ _ _ _ _ x H (or_introl Hx)) as [? _]. by apply Hfo; [lia|].
    + intros x. assert (Ee : oa_emitting (outs t).[s] = oa_emitting (outs t0).[s]) by (apply (unlinked_field oa_emitting); [done|by apply Hk]).
      assert (Hx : x ∈ vw_unread (drop_assoc v (oa_flowSlot (outs t).[s]) s (oa_emitting (outs t).[s])) <-> x ∈ vw_unread v \/ x = s /\ oa_emitting (outs t0).[s] = true).
      { cbn. rewrite Ee. destruct (oa_emitting (outs t0).[s]); rewrite ?elem_of_cons; clear; intuition congruence. }
      rewrite Hx, Hu. cbn [drop_assoc vw_live]. rewrite without_elem. pose proof (Hl s Hs) as Hs0.
      destruct (decide (x = s)) as [->|Hne]; [|tauto]. split; [intros [?|[_ ?]]; [tauto|right; split; [split; [done|by intros [_ ?]]|done]]|tauto].
    + by rewrite Edir, zlen_set.
  - intros j Hj. rewrite Edir, arr_get_set by lia. destruct (Z.eqb_spec i j); [done|]. apply Hd. lia.
Qed.

Lemma SweepOut_ok p t v : inv None t v -> 0 <= p < mp ->
  exists t' v', SweepOut t p = Some t' /\ sweeping p t v t' v' /\ forall s, s ∈ vw_live v' <-> s ∈ vw_live v /\ oa_peerSlot (outs t).[s] <> p.
Proof.
  intros H Hp. destruct (fi_dirs _ _ _ _ _ _ _ H) as (dirs&Ed&Hz). unfold SweepOut, SendEnabled. rewrite Ed. cbn [is_some].
  destruct (for_upM_inv (fun i t' => i <= zlen (OutDirFor t p) /\ exists v', sweeping p t v t' v' /\ forall j, 0 <= j < i -> d_slot (OutDirFor t' p).[j] = INVALID)
    0 (length (OutDirFor t p)) (sweep_out_entry p) t) as (t'&E&_&v'&Hsw&Hd).
  - split; [unfold zlen; lia|]. exists v. split; [|intros; lia].
    split; try done. intros s. split; [by left|]. by intros [?|[[? []] _]].
  - intros i t1 Hi (_&v1&Hs1&Hd1). pose proof (sw_width _ _ _ _ _ Hs1) as Hw1.
    destruct (sweep_entry_ok p t v t1 v1 i Hs1 Hp ltac:(unfold zlen in *; lia) Hd1) as (t2&v2&E2&Hs2&Hd2). exists t2. split; [done|].
    split; [unfold zlen; lia|]. by exists v2.
  - exists t', v'. split; [done|]. split; [done|]. intros s. destruct Hsw as [H' _ Hl Ho Hk _ Hw]. split.
    + intros Hs. split; [by apply Hl|]. intros Eps. destruct (fi_dir _ _ _ _ _ _ _ H' p Hp) as (_&_&Hpub).
      assert (Hin : (oa_flowId (outs t').[s], s) ∈ published (OutDirFor t' p)).
      { apply Hpub. split; [done|]. split; [done|]. split; [|done]. rewrite <- Eps. apply (unlinked_field oa_peerSlot); [done|by apply Hk]. }
      assert (Hnil : published (OutDirFor t' p) = []).
      { assert (Hall : forall e, e ∈ OutDirFor t' p -> d_slot e = INVALID).
        { intros e He. apply list_elem_of_arr in He as (j&Hj&<-). apply Hd. unfold zlen in *. lia. }
        clear -Hall. induction (OutDirFor t' p) as [|e l IH]; [done|]. rewrite published_cons, (Hall e ltac:(left)), Z.eqb_refl. apply IH. intros x Hx. apply Hall. by right. }
      rewrite Hnil in Hin. by apply not_elem_of_nil in Hin.
    + intros [Hs Hne]. by apply Ho.
Qed.
End Steps.
