(* ===== verification/FlowTableClose.v ===== *)
(** * The flow table: closing a flow

    [CloseFlow] marks the flow, takes every association off its list one by one,
    each out of its peer's directory first, and gives the flow's slot back.  The loop
    ends: each turn frees the head of the list. *)

From stdpp Require Import gmap.
From S2P Require Import Prelude Wire Errors Keys FlowData SlotPool ReadyLanes Rtt Delivery Curve Congestion Peer InFlow InDeliver Packet PacketHandle PacketBuild OutFlow OutRetransmit OutInvariant OutSteps OutSend OutEnd OutHistory OutTheorems FlowDir AckWire FlowTable FlowTableOk FlowLists FlowTableInv FlowTableSteps.

Implicit Types (a : OutAssociation).

Lemma chain_unique os : forall l1 l2 h, flow_chain os h l1 -> flow_chain os h l2 -> l1 = l2.
Proof.
  induction l1 as [|x l1 IH]; intros [|y l2] h H1 H2; [done|by destruct H2 as (->&_&?&_)|by destruct H1 as (->&_&?&_)|].
  destruct H1 as (->&_&_&H1), H2 as (<-&_&_&H2). f_equal. by apply (IH _ _ H1).
Qed.

Section Thm.
Context {Q S : Type} `{!ReadyQueue Q} `{!Allocator S} (nf ns nd mp : Z).
Implicit Types (t : FlowTable Q S) (v : TableView).
Abbreviation inv := (ft_inv nf ns nd mp).

(** ** Closing a flow *)

Section Close.
Context (by_addr : Address -> option Z) (by_id : BcpId -> option Z).

(** The peer table still answers for the peer an association belongs to. *)
Definition owner_known t s : Prop :=
  owner_of by_addr by_id (oa_peerAddr (outs t).[s]) (oa_peerId (outs t).[s]) = Some (oa_peerSlot (outs t).[s]).

(** What closing leaves of the flows: that one, without its list, and the others. *)
Record closed_list (f : Z) t v t' v' : Prop := {
  cl_inv : inv None t' v';
  cl_flows : vw_flows v' = vw_flows v; cl_staged : vw_staged v' = vw_staged v; cl_sending : vw_sending v' = vw_sending v;
  cl_empty : vw_list v' f = []; cl_lists : forall g, g <> f -> vw_list v' g = vw_list v g;
  cl_live : forall s, s ∈ vw_live v' <-> s ∈ vw_live v /\ s ∉ vw_list v f;
  cl_unread : forall s, s ∈ vw_unread v' <-> s ∈ vw_unread v \/ s ∈ vw_list v f /\ oa_emitting (outs t).[s] = true;
  cl_kept : forall s, 0 <= s -> s ∉ vw_list v f -> unlinked (outs t').[s] = unlinked (outs t).[s];
  cl_flow : exists h, flows t' = (flows t).[f <- (flows t).[f] <| fl_firstAssoc := h |>] }.

Lemma close_loop_ok f : forall l fuel t v peers, inv None t v -> f ∈ vw_flows v -> vw_list v f = l -> (forall s, s ∈ l -> owner_known t s) ->
  (length l <= fuel)%nat ->
  exists t' v' peers', close_loop by_addr by_id fuel t peers f = Some (t', peers') /\ closed_list f t v t' v'.
Proof.
  induction l as [|s l IH]; intros fuel t v peers H Hf El Hown Hfuel; destruct (fi_chain _ _ _ _ _ _ _ H f Hf) as [Hc Hn]; rewrite El in Hc, Hn.
  - assert (E : NextAssocToClose t f = None) by (unfold NextAssocToClose; cbn in Hc; rewrite Hc; by rewrite Z.eqb_refl).
    exists t, v, peers. split; [destruct fuel; cbn [close_loop]; by rewrite E|].
    destruct (flow_range _ _ _ _ _ _ _ f H Hf) as (Hfr&_&_).
    split; try done; rewrite ?El.
    + intros s. split; [by intros ?; split; [|by intros ?%not_elem_of_nil]|by intros [? _]].
    + intros s. split; [by left|]. by intros [?|[?%not_elem_of_nil _]].
    + exists (fl_firstAssoc (flows t).[f]). rewrite <- (arr_set_get_id (flows t) f) at 1 by (rewrite (fi_nf _ _ _ _ _ _ _ H); lia).
      f_equal. by destruct ((flows t).[f]).
  - destruct Hc as (Eh&Hs&Hv&Hc). destruct fuel as [|fuel]; [cbn in Hfuel; lia|].
    assert (Hsl : s ∈ vw_list v f) by (rewrite El; left). destruct (list_unique _ _ _ _ _ _ _ _ _ H Hf Hsl) as [Efs Hlive].
    cbn [close_loop]. unfold NextAssocToClose. rewrite Eh. destruct (Z.eqb_spec s INVALID); [done|].
    unfold close_one. pose proof (Hown s ltac:(left)) as Hk. unfold owner_known in Hk. rewrite Hk.
    destruct (end_assoc_ok _ _ _ _ t v s (Some peers.[oa_peerSlot (outs t).[s]]) H Hlive) as (t1&r1&E1&H1&[(h1&Hfl1) Ho1 _]). rewrite Efs in H1, Hfl1.
    rewrite E1. cbn [mbind option_bind].
    set (peers1 := match r1 with Some p => _ | None => _ end). set (v1 := drop_assoc v f s _) in *.
    assert (El1 : vw_list v1 f = l).
    { cbn. rewrite fupd_eq, El. apply (without_mid s [] l). done. }
    assert (Hsn : s ∉ l) by by apply NoDup_cons in Hn as [? _].
    assert (Hold : forall x, x ∈ l -> unlinked (outs t1).[x] = unlinked (outs t).[x]).
    { intros x Hx. destruct (chain_elem _ _ _ x Hc Hx) as [? _]. apply Ho1; [lia|]. by intros ->. }
    destruct (IH fuel t1 v1 peers1 H1 Hf El1) as (t2&v2&peers2&E2&[C1 C2 C3 C4 C5 C6 C7 C8 C9 C10]).
    { intros x Hx. unfold owner_known. pose proof (Hold x Hx) as E. rewrite (unlinked_field oa_peerAddr _ _ ltac:(done) E), (unlinked_field oa_peerId _ _ ltac:(done) E),
        (unlinked_field oa_peerSlot _ _ ltac:(done) E). apply Hown. by right. }
    { cbn in Hfuel. lia. }
    exists t2, v2, peers2. split; [exact E2|]. rewrite El1 in *. split; try done; rewrite ?El.
    + intros g Hg. rewrite C6 by done. cbn. by rewrite fupd_ne.
    + intros x. rewrite C7. cbn [v1 drop_assoc vw_live]. rewrite without_elem, not_elem_of_cons. tauto.
    + intros x. rewrite C8, elem_of_cons. cbn [v1 drop_assoc vw_unread].
      assert (Hem : x ∈ l -> oa_emitting (outs t1).[x] = oa_emitting (outs t).[x]) by (intros Hx; apply (unlinked_field oa_emitting); [done|by apply Hold]).
      destruct (oa_emitting (outs t).[s]) eqn:Ees.
      * rewrite elem_of_cons. split.
        -- intros [[->|?]|[Hx E]]; [right; split; [by left|done]|by left|right; split; [by right|by rewrite <- Hem]].
        -- intros [?|[[->|Hx] E]]; [left; by right|left; by left|right; split; [done|by rewrite Hem]].
      * split.
        -- intros [?|[Hx E]]; [by left|right; split; [by right|by rewrite <- Hem]].
        -- intros [?|[[->|Hx] E]]; [by left|congruence|right; split; [done|by rewrite Hem]].
    + intros x H0 [Hne Hx]%not_elem_of_cons. rewrite C9 by done. by apply Ho1.
    + destruct C10 as (h2&->). exists h2. destruct (flow_range _ _ _ _ _ _ _ f H Hf) as (Hfr&_&_). rewrite Hfl1. pose proof (fi_nf _ _ _ _ _ _ _ H) as Hz.
      change (flows (UnpublishOut _ _ _)) with (flows t). rewrite arr_get_set_eq by lia. unfold arr_set. by rewrite list_insert_insert_eq.
Qed.

Lemma CloseFlow_ok t v peers flow : inv None t v -> 0 <= fh_slot flow -> live_flow nf t flow (fh_slot flow) ->
  (forall s, s ∈ vw_list v (fh_slot flow) -> owner_known t s) ->
  exists t' v' peers', CloseFlow by_addr by_id t peers flow = Some (Ok, t', peers') /\ inv None t' v' /\
    vw_flows v' = without (fh_slot flow) (vw_flows v) /\ vw_staged v' = vw_staged v /\ vw_sending v' = vw_sending v /\
    (forall g, g <> fh_slot flow -> vw_list v' g = vw_list v g) /\
    (forall s, s ∈ vw_live v' <-> s ∈ vw_live v /\ s ∉ vw_list v (fh_slot flow)) /\
    (forall s, s ∈ vw_unread v' <-> s ∈ vw_unread v \/ s ∈ vw_list v (fh_slot flow) /\ oa_emitting (outs t).[s] = true) /\
    (forall s, 0 <= s -> s ∉ vw_list v (fh_slot flow) -> unlinked (outs t').[s] = unlinked (outs t).[s]) /\
    (forall g, 0 <= g -> g <> fh_slot flow -> (flows t').[g] = (flows t).[g]) /\
    fl_life (flows t').[fh_slot flow] = CLOSED.
Proof.
  set (f := fh_slot flow). intros H H0 Hlf Hown. unfold CloseFlow. destruct (fi_dirs _ _ _ _ _ _ _ H) as (dirs&Ed&_). unfold SendEnabled. rewrite Ed. cbn [is_some negb].
  destruct (BeginClose_ok _ _ _ _ None t v flow H H0) as [[_ Hno]|(_&Hf&E&Hb)]; [by destruct Hno|]. rewrite E. cbn [negb]. fold f in Hf, Hb |- *.
  set (tb := set_flow t f _) in *.
  assert (Hlen : (length (vw_list v f) <= length (outs tb))%nat).
  { destruct (fi_chain _ _ _ _ _ _ _ H f Hf) as [Hc Hn]. change (outs tb) with (outs t).
    rewrite <- (length_seq (length (outs t)) 0), <- (length_map Z.of_nat). apply submseteq_length, NoDup_submseteq; [done|].
    intros x Hx. destruct (chain_elem _ _ _ x Hc Hx) as [Hr _]. unfold zlen in Hr. apply elem_of_map. exists (Z.to_nat x). split; [lia|]. apply elem_of_seq. lia. }
  destruct (close_loop_ok f (vw_list v f) (length (outs tb)) tb v peers Hb Hf eq_refl Hown Hlen) as (t1&v1&peers1&E1&[C1 C2 C3 C4 C5 C6 C7 C8 C9 (h&C10)]).
  rewrite E1. cbn [mbind option_bind].
  destruct (FinishClose_ok _ _ _ _ t1 v1 f C1 ltac:(by rewrite C2) C5) as (t2&E2&H2&Ho2&Hfl2). rewrite E2. cbn [mbind option_bind].
  exists t2, (v1 <| vw_flows := without f (vw_flows v1) |>), peers1. destruct (flow_range _ _ _ _ _ _ _ f H Hf) as (Hfr&_&_). pose proof (fi_nf _ _ _ _ _ _ _ H) as Hz.
  assert (Hzb : zlen (flows tb) = nf) by (cbn; by rewrite zlen_set).
  split; [done|]. split; [done|]. cbn [vw_flows vw_staged vw_sending vw_list vw_live vw_unread upd]. rewrite C2. split; [done|]. split; [done|]. split; [done|].
  split; [done|]. split; [done|]. split; [done|]. split; [intros s Hs Hn; rewrite Ho2; by apply C9|]. rewrite Hfl2, C10. split.
  - intros g Hg Hne. rewrite arr_get_set_ne, arr_get_set_ne by (congruence || lia). change (flows tb) with ((flows t).[f <- (flows t).[f] <| fl_life := CLOSING |>]).
    by rewrite arr_get_set_ne by (congruence || lia).
  - by rewrite arr_get_set_eq by (rewrite zlen_set, Hzb; lia).
Qed.

(** A handle that is not live: nothing happens. *)
Lemma CloseFlow_refused t peers flow e t' peers' : CloseFlow by_addr by_id t peers flow = Some (e, t', peers') -> e <> Ok -> t' = t.
Proof.
  unfold CloseFlow. destruct (negb (SendEnabled t)); [by intros [= _ <- _]|]. unfold BeginClose. destruct (stale t flow); [by intros [= _ <- _]|].
  destruct (_ && _); cbn [negb]; [|by intros [= _ <- _]]. intros ([t1 p1]&_&(t2&_&H)%bind_some)%bind_some Hne. by injection H as <- _ _.
Qed.
End Close.
End Thm.
