(* ===== verification/FlowTableHistory.v ===== *)
(** * The flow table: every history

    The sending half of a table from its initialisation on: flows open and close, first
    sends create associations, packets and acknowledgements move their rings, flows are
    refused, peers are swept, events are marked and read.  In every history the
    invariant of FlowTableInv holds of the memory. *)

From stdpp Require Import gmap.
From S2P Require Import Prelude Wire Errors Keys FlowData SlotPool ReadyLanes Rtt Delivery Curve Congestion Peer InFlow InDeliver Packet PacketHandle PacketBuild OutFlow OutRetransmit OutInvariant OutSteps OutSend OutEnd OutHistory OutTheorems FlowDir AckWire FlowTable FlowTableOk FlowLists FlowTableInv FlowTableSteps FlowTableClose.

Implicit Types (a : OutAssociation).

(** ** What the memory says, without a view *)

Section Memory.
Context {Q S : Type} `{!ReadyQueue Q} `{!Allocator S}.
Implicit Types (t : FlowTable Q S).

(** Flow [f] is in use and its list is [l]. *)
Definition flow_list t (f : Z) (l : list Z) : Prop :=
  0 <= f < zlen (flows t) /\ fl_life (flows t).[f] <> CLOSED /\ flow_chain (outs t) (fl_firstAssoc (flows t).[f]) l /\ NoDup l.
Definition listed t (s : Z) : Prop := exists f l, flow_list t f l /\ s ∈ l.
Definition enumerates t (live : list Z) : Prop := NoDup live /\ forall s, s ∈ live <-> listed t s.

Section Views.
Context (nf ns nd mp : Z).
Abbreviation inv := (ft_inv nf ns nd mp).

Lemma view_list t v f l : inv None t v -> flow_list t f l <-> f ∈ vw_flows v /\ l = vw_list v f.
Proof.
  intros H. split.
  - intros (Hf&Hl&Hc&_). rewrite (fi_nf _ _ _ _ _ _ _ H) in Hf. apply (fi_used _ _ _ _ _ _ _ H f Hf) in Hl. split; [done|].
    destruct (fi_chain _ _ _ _ _ _ _ H f Hl) as [Hc' _]. by apply (chain_unique _ _ _ _ Hc Hc').
  - intros [Hf ->]. destruct (flow_range _ _ _ _ _ _ _ f H Hf) as (Hr&_&_), (fi_chain _ _ _ _ _ _ _ H f Hf). unfold flow_list.
    rewrite (fi_nf _ _ _ _ _ _ _ H). split; [done|]. split; [|done]. by apply (fi_used _ _ _ _ _ _ _ H f Hr).
Qed.
Lemma view_listed t v s : inv None t v -> listed t s <-> s ∈ vw_live v.
Proof.
  intros H. rewrite (fi_live _ _ _ _ _ _ _ H). split.
  - intros (f&l&Hl&Hs). apply (view_list _ _ _ _ H) in Hl as [Hf ->]. by exists f.
  - intros (f&Hf&Hs). exists f, (vw_list v f). split; [by apply (view_list _ _ _ _ H)|done].
Qed.
Lemma view_enum t v live : inv None t v -> enumerates t live <-> live ≡ₚ vw_live v.
Proof.
  intros H. destruct (live_nodup _ _ _ _ _ _ _ H) as [Hn _]. split.
  - intros [Hd Hl]. apply NoDup_Permutation; [done|done|]. intros s. by rewrite Hl, (view_listed _ _ _ H).
  - intros Hp. split; [by rewrite Hp|]. intros s. by rewrite Hp, (view_listed _ _ _ H).
Qed.
End Views.
End Memory.

(** ** Steps *)

Section Steps.
Context {Q S : Type} `{!ReadyQueue Q} `{!Allocator S} (nf ns nd mp : Z).
Implicit Types (t : FlowTable Q S).
Abbreviation inv := (ft_inv nf ns nd mp).

(** The table, the slots whose last event waits to be read, and the packet slots the
    rest of the program has out of the two pools. *)
Record TableState := mk_table_state { ts_table : FlowTable Q S; ts_unread : gset Z; ts_staged : list Z; ts_out : list Z }.
Implicit Types T : TableState.

(** What is unread after the associations of which [gone] holds were freed. *)
Definition unread_after t (U U' : gset Z) (gone : Z -> Prop) : Prop :=
  forall s, s ∈ U' <-> s ∈ U \/ gone s /\ oa_emitting (outs t).[s] = true.

Inductive table_step : TableState -> TableState -> Prop :=
  | ts_open hint t U Fs Fd id mode h t' :
      Open hint t id mode = Some (h, t') -> table_step (mk_table_state t U Fs Fd) (mk_table_state t' U Fs Fd)
  | ts_create hint now t U Fs Fd p peerSlot id s t' :
      0 <= peerSlot < mp -> CreateAssociation hint now t p peerSlot id = Some (s, t') ->
      table_step (mk_table_state t U Fs Fd) (mk_table_state t' U Fs Fd)
  (** The peer table still answers for the peers of the flow's associations. *)
  | ts_close t U U' Fs Fd by_addr by_id peers flow e t' peers' :
      0 <= fh_slot flow -> (forall l s, flow_list t (fh_slot flow) l -> s ∈ l -> owner_known by_addr by_id t s) ->
      CloseFlow by_addr by_id t peers flow = Some (e, t', peers') ->
      unread_after t U U' (fun s => e = Ok /\ exists l, flow_list t (fh_slot flow) l /\ s ∈ l) ->
      table_step (mk_table_state t U Fs Fd) (mk_table_state t' U' Fs Fd)
  | ts_sweep t U U' Fs Fd p t' :
      0 <= p < mp -> SweepOut t p = Some t' -> unread_after t U U' (fun s => listed t s /\ oa_peerSlot (outs t).[s] = p) ->
      table_step (mk_table_state t U Fs Fd) (mk_table_state t' U' Fs Fd)
  | ts_fail t U Fs Fd s id refund b t' refund' :
      listed t s -> FailAssocAt t s id refund = Some (b, t', refund') ->
      table_step (mk_table_state t U Fs Fd) (mk_table_state t' U Fs Fd)
  | ts_mark t U Fs Fd s : listed t s -> table_step (mk_table_state t U Fs Fd) (mk_table_state (MarkEmitting OUT_FLOW t s) U Fs Fd)
  | ts_clear t U Fs Fd s t' :
      listed t s \/ s ∈ U -> ClearEmittingFlow OUT_FLOW t s = Some t' ->
      table_step (mk_table_state t U Fs Fd) (mk_table_state t' (U ∖ {[s]}) Fs Fd)
  (** Any operation of OutHistory on an open association, beside what the others hold. *)
  | ts_data t U Fs Fd Fs' Fd' s others c f (W W' : OutWorld S) :
      enumerates t (s :: others) -> oa_life (outs t).[s] = OPEN -> ow_out W = (outs t).[s] -> ow_pools W = ft_pools t ->
      ow_staged W ≡ₚ shares st_share (outs t) others ++ Fs -> ow_sending W ≡ₚ shares sd_share (outs t) others ++ Fd ->
      charged (w_of (oa_mode (outs t).[s])) (ow_out W) (ow_peer W) (ow_bytes W) (ow_packets W) -> ow_log W = [] -> ow_acks W = [] ->
      out_step (w_of (oa_mode (outs t).[s])) ns nd c f W W' ->
      ow_staged W' ≡ₚ shares st_share (outs t) others ++ Fs' -> ow_sending W' ≡ₚ shares sd_share (outs t) others ++ Fd' ->
      table_step (mk_table_state t U Fs Fd) (mk_table_state ((set_out t s (ow_out W')) <| ft_pools := ow_pools W' |>) U Fs' Fd')
  (** A refused association's rings stay empty, whatever still arrives. *)
  | ts_idle t U Fs Fd s a' :
      listed t s -> oa_life (outs t).[s] = FAILED -> out_ident a' = out_ident (outs t).[s] -> spent a' ->
      table_step (mk_table_state t U Fs Fd) (mk_table_state (set_out t s a') U Fs Fd)
  (** The rest of the program takes and returns packet slots. *)
  | ts_others t U Fs Fd Fs' Fd' live k' :
      enumerates t live -> al_owns (staging k') ns (shares st_share (outs t) live ++ Fs') -> al_owns (sending k') nd (shares sd_share (outs t) live ++ Fd') ->
      table_step (mk_table_state t U Fs Fd) (mk_table_state (t <| ft_pools := k' |>) U Fs' Fd').

Inductive table_steps : TableState -> TableState -> Prop :=
  | tsteps_none T : table_steps T T
  | tsteps_snoc T T1 T2 : table_steps T T1 -> table_step T1 T2 -> table_steps T T2.

(** ** The invariant of a state *)

Definition state_ok T : Prop :=
  exists v, inv None (ts_table T) v /\ (forall s, s ∈ vw_unread v <-> s ∈ ts_unread T) /\ vw_staged v = ts_staged T /\ vw_sending v = ts_out T.

(** A data operation leaves the association what it was. *)
Lemma scan_ident_out f a p now d (k : OutPools S) dead s : RetransmitInflight f a p now d k = Some (dead, s) -> out_ident (rs_out s) = out_ident a.
Proof.
  unfold RetransmitInflight. intros E. destruct (_ && _); [by injection E as _ <-|]. apply bind_some in E as (s1&E&H). injection H as _ <-.
  apply (for_upM_keep (fun s => out_ident (rs_out s) = out_ident a)) in E; [done| |done]. intros i s1' s2 E1 E2. apply rescan_ident in E1. congruence.
Qed.
Lemma out_step_ident w c f (W W' : OutWorld S) : out_step w ns nd c f W W' -> out_ident (ow_out W') = out_ident (ow_out W).
Proof.
  destruct 1; cbn [ow_out].
  - by eapply AdmitAssoc_ident.
  - by eapply ClaimWaiting_ident.
  - by eapply ApplyAck_ident.
  - by eapply scan_ident_out.
  - apply Refund_ident.
  - done.
Qed.

Lemma data_ok t v s others (W W' : OutWorld S) c f Fs' Fd' : inv None t v -> enumerates t (s :: others) -> oa_life (outs t).[s] = OPEN ->
  ow_out W = (outs t).[s] -> ow_pools W = ft_pools t ->
  ow_staged W ≡ₚ shares st_share (outs t) others ++ vw_staged v -> ow_sending W ≡ₚ shares sd_share (outs t) others ++ vw_sending v ->
  charged (w_of (oa_mode (outs t).[s])) (ow_out W) (ow_peer W) (ow_bytes W) (ow_packets W) -> ow_log W = [] -> ow_acks W = [] ->
  out_step (w_of (oa_mode (outs t).[s])) ns nd c f W W' ->
  ow_staged W' ≡ₚ shares st_share (outs t) others ++ Fs' -> ow_sending W' ≡ₚ shares sd_share (outs t) others ++ Fd' ->
  inv None ((set_out t s (ow_out W')) <| ft_pools := ow_pools W' |>) (v <| vw_staged := Fs' |> <| vw_sending := Fd' |>).
Proof.
  intros H He El Ea Ek Est Esd Hch Elog Eacks Hstep Est' Esd'. apply (view_enum _ _ _ _ _ _ _ H) in He. symmetry in He.
  pose proof (assoc_out_ok _ _ _ _ _ _ _ _ _ H He) as Hh. apply held_out in Hh as [O1 O2 O3]; [|done].
  assert (HW : world_ok (w_of (oa_mode (outs t).[s])) ns nd W).
  { split; [|done|].
    - rewrite Ea, Ek. split; [done| |]; (eapply al_perm; [|eassumption]); by rewrite ?Est, ?Esd.
    - rewrite Elog, Eacks. split; intros; by match goal with H : _ ∈ [] |- _ => apply not_elem_of_nil in H end. }
  apply (step_ok _ _ _ (w_range _) _ _ _ _ Hstep) in HW. destruct HW as [[P1 P2 P3] _ _].
  pose proof (out_step_ident _ _ _ _ _ Hstep) as Hid. rewrite Ea in Hid.
  assert (Em : oa_mode (ow_out W') = oa_mode (outs t).[s] /\ oa_life (ow_out W') = OPEN) by (unfold out_ident in Hid; simplify_eq; by rewrite <- El). destruct Em as [Em El'].
  apply (inv_local _ _ _ _ _ _ _ _ _ others _ _ H He); [by apply ident_place|]. apply out_held; [done|]. rewrite Em. split; [done| |]; (eapply al_perm; [|eassumption]); by rewrite ?Est', ?Esd'.
Qed.

(** Packet slots that change hands outside the associations. *)
Lemma others_ok t v live Fs' Fd' k' : inv None t v -> enumerates t live ->
  al_owns (staging k') ns (shares st_share (outs t) live ++ Fs') -> al_owns (sending k') nd (shares sd_share (outs t) live ++ Fd') ->
  inv None (t <| ft_pools := k' |>) (v <| vw_staged := Fs' |> <| vw_sending := Fd' |>).
Proof.
  intros H He H1 H2. apply (view_enum _ _ _ _ _ _ _ H) in He. split; try (by destruct H).
  - eapply al_perm; [|exact H1]. by rewrite (shares_perm _ _ _ _ He).
  - eapply al_perm; [|exact H2]. by rewrite (shares_perm _ _ _ _ He).
Qed.

Lemma table_step_ok T T' : table_step T T' -> state_ok T -> state_ok T'.
Proof.
  intros Hstep (v&H&Hu&Est&Esd). destruct Hstep; cbn [ts_table ts_unread ts_staged ts_out] in *; unfold state_ok; cbn [ts_table ts_unread ts_staged ts_out].
  - destruct (Open_ok _ _ _ _ hint t v id mode H) as (h1&t1&E&Hc). assert (t' = t1) as -> by congruence.
    destruct Hc as [(_&Hi&_)|(f&x&_&_&_&_&Hi&_)]; [by exists v|]. eexists. by split; [exact Hi|].
  - destruct (Create_ok _ _ _ _ hint now t v p peerSlot id H ltac:(done)) as (s1&t1&E&Hc). assert (t' = t1) as -> by congruence.
    destruct Hc as [(_&Hi)|(f&_&_&_&_&_&_&Hi&_)]; [by exists v|]. eexists. by split; [exact Hi|].
  - match goal with Hun : unread_after _ _ _ _ |- _ => rename Hun into Hafter end.
    destruct (decide (e = Ok)) as [->|Hne].
    + destruct (BeginClose_ok _ _ _ _ None t v flow H ltac:(done)) as [[E _]|(Hlive&Hf&_)].
      { match goal with Hc : CloseFlow _ _ _ _ _ = _ |- _ => unfold CloseFlow in Hc; rewrite E in Hc; destruct (negb (SendEnabled t)); discriminate Hc end. }
      destruct (CloseFlow_ok nf ns nd mp by_addr by_id t v peers flow H) as (t1&v1&p1&E&Hi&_&S1&S2&_&_&Hun&_); [done|done| |].
      { intros s Hs. match goal with Ho : forall l s, _ |- _ => apply (Ho (vw_list v (fh_slot flow))); [|done] end. by apply (view_list _ _ _ _ _ _ _ _ H). }
      assert (t' = t1) as -> by congruence. exists v1. split; [done|]. split; [|by rewrite S1, S2].
      intros s. rewrite Hun, (Hafter s), Hu. f_equiv. f_equiv. split; [intros Hs; split; [done|]; exists (vw_list v (fh_slot flow)); split; [by apply (view_list _ _ _ _ _ _ _ _ H)|done]|].
      intros (_&l&Hl&Hs). by apply (view_list _ _ _ _ _ _ _ _ H) in Hl as [_ ->].
    + assert (t' = t) as -> by (match goal with Hc : CloseFlow _ _ _ _ _ = _ |- _ => by eapply CloseFlow_refused end).
      exists v. split; [done|]. split; [|done]. intros s. rewrite Hu, (Hafter s). tauto.
  - match goal with Hun : unread_after _ _ _ _ |- _ => rename Hun into Hafter end.
    destruct (SweepOut_ok _ _ _ _ p t v H ltac:(done)) as (t1&v1&E&[Hi (_&S1&S2) _ _ _ Hun _]&Hl). assert (t' = t1) as -> by congruence.
    exists v1. split; [done|]. split; [|by rewrite S1, S2]. intros s. rewrite Hun, (Hafter s), Hu, (view_listed _ _ _ _ _ _ _ H), Hl.
    destruct (decide (oa_peerSlot (outs t).[s] = p)); tauto.
  - apply (view_listed _ _ _ _ _ _ _ H) in H0. destruct (Fail_ok _ _ _ _ t v s id refund H H0) as (b1&t1&r1&E&Hi&_). assert (t' = t1) as -> by congruence. by exists v.
  - exists v. split; [|done]. apply Mark_ok; [done|]. by apply (view_listed _ _ _ _ _ _ _ H).
  - destruct (Clear_ok _ _ _ _ t v s H) as (t1&E&Hi); [by rewrite <- (view_listed _ _ _ _ _ _ _ H), Hu|]. assert (t' = t1) as -> by congruence.
    eexists. split; [exact Hi|]. split; [|done]. intros x. cbn [vw_unread upd]. rewrite without_elem, elem_of_difference, elem_of_singleton, Hu. done.
  - eexists. split; [subst; by eapply data_ok|done].
  - exists v. split; [|done]. apply (view_listed _ _ _ _ _ _ _ H) in H0. destruct (live_list _ _ _ _ _ _ _ _ H H0) as (_&_&Ha).
    destruct (ao_standing _ _ _ _ Ha) as [[El _]|[_ Hsp]]; [congruence|]. destruct (spent_shares _ Hsp) as [A1 A2], (spent_shares _ H3) as [B1 B2].
    assert (oa_life a' = FAILED) by (unfold out_ident in H2; simplify_eq; congruence).
    apply inv_alone; [done|done|by apply ident_place|by right|congruence|congruence].
  - eexists. split; [by eapply others_ok|done].
Qed.

Lemma table_steps_ok T T' : table_steps T T' -> state_ok T -> state_ok T'.
Proof. induction 1; eauto using table_step_ok. Qed.
End Steps.
Arguments TableState : clear implicits.
