(* ===== verification/FlowTableTheorems.v ===== *)
(** * The flow table: theorems

    From an initialised table, whatever happens: the directories and the lists name the
    same associations, every list ends, no slot has two owners, closing a flow ends and
    leaves no trace of it, and sweeping a peer takes away its associations and no
    others'. *)

From stdpp Require Import gmap.
From S2P Require Import Prelude Wire Errors Keys FlowData SlotPool ReadyLanes Rtt Delivery Curve Congestion Peer InFlow InDeliver Packet PacketHandle PacketBuild OutFlow OutRetransmit OutInvariant OutSteps OutSend OutEnd OutHistory OutTheorems FlowDir AckWire FlowTable FlowTableOk FlowLists FlowTableInv FlowTableSteps FlowTableClose FlowTableHistory.

(** ** After initialisation *)

Definition pow2 (n : Z) : Prop := exists v, 0 <= v <= 31 /\ n = 2 ^ v.

Lemma round_up_pow2 requested : forall steps v, 0 <= v <= 15 ->
  exists v', 0 <= v' <= 15 /\ round_up_loop steps (2 ^ v) requested FLOW_RING_MAX = 2 ^ v'.
Proof.
  induction steps as [|steps IH]; intros v Hv; cbn [round_up_loop]; [by exists v|]. destruct (_ && _) eqn:E; [|by exists v].
  apply andb_true_iff in E as [_ E%Z.ltb_lt]. change FLOW_RING_MAX with (2 ^ 15) in E. apply Z.pow_lt_mono_r_iff in E; [|lia|lia].
  rewrite Z.shiftl_mul_pow2 by lia. replace (2 ^ v * 2 ^ 1) with (2 ^ (v + 1)) by (rewrite Z.pow_add_r by lia; done).
  pose proof (Z.pow_le_mono_r 2 (v + 1) 15 ltac:(lia) ltac:(lia)). pose proof (Z.pow_pos_nonneg 2 (v + 1) ltac:(lia) ltac:(lia)).
  rewrite u32_small by (unfold UINT32_MAX; lia). apply IH. lia.
Qed.
Lemma wait_cap_fine n : wait_cap_ok (wait_cap n).
Proof.
  unfold wait_cap, wait_cap_ok. destruct (0 <? n); [right|by left]. unfold RoundUpPow2. destruct (round_up_pow2 n 32 0 ltac:(lia)) as (v&Hv&E). change (2 ^ 0) with 1 in E. rewrite E.
  exists v. split; [done|]. pose proof (Z.pow_le_mono_r 2 v 15 ltac:(lia) ltac:(lia)). pose proof (Z.pow_pos_nonneg 2 v ltac:(lia) ltac:(lia)). apply u16_small. unfold UINT16_MAX. lia.
Qed.

Section Fresh.
Context {Q S : Type} `{!ReadyQueue Q} `{!Allocator S} (mkPool : Z -> Z -> S) (z1 z2 z3 z4 z5 z6 z7 : Z).
Implicit Types (t : FlowTable Q S).

(** What the sending half is configured with: the counts are powers of two, as the
    pools make them, the memory is as long as the pools, and the pool of outgoing
    packets is in use elsewhere. *)
Record table_hyps t0 (params : Params) (sendPool : S) (nd : Z) (Fd : list Z) : Prop := {
  th_pool : forall n stride, pow2 n -> al_owns (mkPool n stride) n [];
  th_counts : pow2 (pr_outCount params) /\ (pr_bulkOutCount params = 0 \/ pow2 (pr_bulkOutCount params)) /\ pow2 (pr_flowCount params) /\ pow2 (pr_stagingCount params);
  th_total : pr_outCount params + pr_bulkOutCount params < INVALID;
  th_width : 0 < pr_maxOutPerPeer params < INVALID; th_peers : 0 <= pr_maxPeers params;
  th_flows : zlen (flows t0) = pr_flowCount params; th_outs : zlen (outs t0) = pr_outCount params + pr_bulkOutCount params;
  th_sending : al_owns sendPool nd Fd }.

Lemma pow2_pos n : pow2 n -> 0 < n.
Proof. intros (v&Hv&->). apply Z.pow_pos_nonneg; lia. Qed.

Lemma free_flows_get n fs : 0 <= n -> zlen fs = n ->
  zlen (free_flows n fs) = n /\ forall i, 0 <= i < n -> fl_flowId (free_flows n fs).[i] = INVALID_FLOW_ID /\ fl_life (free_flows n fs).[i] = CLOSED.
Proof.
  intros Hn Hz. unfold free_flows.
  pose proof (for_up_inv (fun i fs' => zlen fs' = n /\ forall j, 0 <= j < i -> fl_flowId fs'.[j] = INVALID_FLOW_ID /\ fl_life fs'.[j] = CLOSED) 0 (Z.to_nat n)
    (fun i fs => fs.[i <- fs.[i] <| fl_flowId := INVALID_FLOW_ID |> <| fl_life := CLOSED |>]) fs) as H.
  rewrite Z.add_0_l, Z2Nat.id in H by done. apply H.
  - split; [done|]. intros; lia.
  - intros i fs' Hi [Hz' Hj]. split; [by rewrite zlen_set|]. intros j Hj'. rewrite arr_get_set by lia. destruct (Z.eqb_spec i j) as [<-|]; [done|]. apply Hj. lia.
Qed.

Lemma published_blank n : published (replicate n no_dir) = [].
Proof. induction n as [|n IH]; [done|]. cbn [replicate]. by rewrite published_cons. Qed.

(** The sending half after [FlowTable_Init]; the receiving half does not touch it. *)
Lemma init_out_ok t0 params sendPool nd Fd t1 : table_hyps t0 params sendPool nd Fd -> sending (ft_pools t0) = sendPool ->
  init_out mkPool z1 z2 z3 z6 z7 t0 params = (Ok, t1) ->
  ft_inv (pr_flowCount params) (pr_stagingCount params) nd (pr_maxPeers params) None t1 (mk_view [] (fun _ => []) [] [] [] Fd).
Proof.
  intros [Hp (C1&C2&C3&C4) Ht Hw Hm Hf Ho Hs] Es. unfold init_out. pose proof (pow2_pos _ C1). pose proof (pow2_pos _ C3). pose proof (pow2_pos _ C4).
  assert (0 <= pr_bulkOutCount params) by (destruct C2 as [->|C2]; [lia|by apply pow2_pos in C2; lia]).
  destruct (Z.ltb_spec 0 (pr_outCount params)); [|lia]. destruct (Z.eqb_spec (pr_maxOutPerPeer params) 0); [lia|].
  destruct (Z.ltb_spec 0 (pr_stagingCount params)); [|lia]. destruct (Z.eqb_spec (pr_flowCount params) 0); [lia|].
  destruct t0 as [u1 fs0 sp0 os0 u5 u6 k0 u8 u9 u10 u11 u12 u13 u14 u15 u16]. cbn in Hf, Ho, Es.
  cbv beta iota zeta delta [upd flowPool flows outAssocPool outs inAssocPool ins ft_pools ft_recv outAssocDir inAssocDir lastEpochById
    outInflightCap outReliableWaitCap outUnreliableWaitCap bulkEnabled ft_config]. intros E. apply (f_equal snd) in E. cbn [snd] in E. subst t1.
  pose proof (Hp _ z7 C3) as Hfp. destruct (al_held _ _ _ Hfp) as (Hcap&_). set (fp := mkPool (pr_flowCount params) z7) in *.
  destruct (free_flows_get (pr_flowCount params) fs0 ltac:(lia) Hf) as [Hz Hfree].
  assert (Hsplit : forall o s1 s2, split_owns (Split_Init mkPool o (pr_outCount params) s1 (pr_bulkOutCount params) s2) [] /\
    Split_GetCapacity (Split_Init mkPool o (pr_outCount params) s1 (pr_bulkOutCount params) s2) = pr_outCount params + pr_bulkOutCount params).
  { intros o s1 s2. unfold Split_Init. destruct (Z.ltb_spec 0 (pr_outCount params)); [|lia].
    assert (Hu : u32 (pr_outCount params + pr_bulkOutCount params) = pr_outCount params + pr_bulkOutCount params) by (apply u32_small; unfold INVALID, UINT32_MAX in *; lia).
    destruct (Z.ltb_spec 0 (pr_bulkOutCount params)).
    - split; [|exact Hu]. exists [], []. cbn. split_and!; try done; try lia; right; (split; [lia|]); apply Hp; [done|by destruct C2; [lia|]].
    - split; [|exact Hu]. exists [], []. cbn. split_and!; try done; try lia; [right; split; [lia|by apply Hp]|left; split; [lia|done]]. }
  split; cbn [vw_flows vw_list vw_live vw_unread vw_staged vw_sending flowPool flows outAssocPool outs outAssocDir ft_pools staging sending outReliableWaitCap outUnreliableWaitCap];
    try (by intros ? ?%not_elem_of_nil); try (by intros ? ? ?%not_elem_of_nil).
  - done.
  - by rewrite Hcap.
  - intros f Hr. rewrite Hcap. destruct (Hfree f Hr) as [-> ->]. split; (split; [by intros ?%not_elem_of_nil|done]).
  - apply Hsplit.
  - rewrite Ho. symmetry. apply Hsplit.
  - intros s. split; [by intros ?%not_elem_of_nil|]. by intros (f&?%not_elem_of_nil&_).
  - eexists. split; [reflexivity|]. unfold init_dir. apply zlen_replicate. lia.
  - intros p Hr. assert (Ed : forall u : FlowTable Q S, outAssocDir u = Some (init_dir (pr_maxPeers params) (pr_maxOutPerPeer params)) ->
      OutDirFor u p = replicate (Z.to_nat (pr_maxOutPerPeer params)) no_dir).
    { intros u Eu. unfold OutDirFor. rewrite Eu. cbn. unfold init_dir. apply arr_get_replicate. lia. }
    rewrite Ed by done. split; [split; rewrite published_blank; constructor|]. split; [rewrite zlen_replicate; lia|].
    intros id s. rewrite published_blank. split; [by intros ?%not_elem_of_nil|]. by intros (?%not_elem_of_nil&_).
  - split; apply wait_cap_fine.
  - by apply Hp.
  - by rewrite Es.
Qed.

Lemma inv_receiving nf ns nd mp t v u w : ft_inv nf ns nd mp None t v ->
  ft_inv nf ns nd mp None (t <| inAssocPool := u |> <| inAssocDir := w |>) v.
Proof. intros H. by destruct H. Qed.
Lemma inv_config nf ns nd mp t v c : ft_inv nf ns nd mp None t v -> ft_inv nf ns nd mp None (t <| ft_config := c |>) v.
Proof. intros H. by destruct H. Qed.

Lemma FlowTable_Init_ok t0 params sendPool recv nd Fd t : table_hyps t0 params sendPool nd Fd ->
  FlowTable_Init mkPool z1 z2 z3 z4 z5 z6 z7 t0 params sendPool recv = (Ok, t) ->
  ft_inv (pr_flowCount params) (pr_stagingCount params) nd (pr_maxPeers params) None t (mk_view [] (fun _ => []) [] [] [] Fd).
Proof.
  intros H. pose proof (pow2_pos _ (proj1 (th_counts _ _ _ _ _ H))). unfold FlowTable_Init. destruct (Z.eqb_spec (pr_outCount params) 0); [lia|]. cbn [andb].
  set (t1 := t0 <| ft_recv := recv |> <| ft_pools := _ |>).
  assert (H1 : table_hyps t1 params sendPool nd Fd) by by destruct H.
  destruct (init_out _ _ _ _ _ _ t1 params) as [e t2] eqn:E2. destruct (bool_decide (e = Ok)) eqn:Ee; cbn [negb]; [|by intros [= -> _]].
  apply bool_decide_eq_true in Ee as ->. pose proof (init_out_ok t1 params sendPool nd Fd t2 H1 eq_refl E2) as H2. unfold init_in.
  destruct (0 <? pr_inCount params); [destruct (_ =? _); [by intros [= [=] _]|]|]; cbn [bool_decide negb]; intros E; apply (f_equal snd) in E; cbn [snd] in E; subst t;
    apply inv_config; [|done]. by apply inv_receiving.
Qed.
End Fresh.

(** ** Generations *)

Lemma epoch_bits x : u8 (Z.land x FLOW_EPOCH_MASK) = x mod 8 /\ 0 <= x mod 8 < 8.
Proof.
  pose proof (Z.mod_pos_bound x 8 ltac:(lia)). change FLOW_EPOCH_MASK with (Z.ones 3). rewrite Z.land_ones by lia. change (2 ^ 3) with 8.
  split; [|done]. apply u8_small. lia.
Qed.

Lemma next_generation_newer data : CompareFlowEpoch (FlowDataEpoch data) (next_generation data) = Newer.
Proof.
  unfold next_generation. rewrite (proj1 (epoch_bits _)). unfold FlowDataEpoch. rewrite (proj1 (epoch_bits _)). pose proof (Z.mod_pos_bound (Z.shiftr data 3) 8 ltac:(lia)) as H.
  revert H. generalize (Z.shiftr data 3 mod 8) as g. intros g H. assert (Hg : g ∈ [0; 1; 2; 3; 4; 5; 6; 7]) by (rewrite !elem_of_cons; lia).
  rewrite !elem_of_cons, elem_of_nil in Hg. by destruct_or! Hg; subst g.
Qed.

Lemma with_generation_epoch data g : 0 <= g < 8 -> FlowDataEpoch (with_generation data g) = g.
Proof.
  intros Hg. unfold FlowDataEpoch, with_generation. rewrite (proj1 (epoch_bits _)). change 8 with (2 ^ 3). rewrite <- Z.land_ones by lia. apply Z.bits_inj'. intros i Hi.
  rewrite Z.land_spec, Z.shiftr_spec by done. destruct (Z.ltb_spec i 3).
  - rewrite Z.ones_spec_low, andb_true_r by lia. unfold u8. rewrite Z.mod_pow2_bits_low by lia. rewrite Z.lor_spec, Z.land_spec, Z.lnot_spec, !Z.shiftl_spec by lia.
    replace (i + 3 - 3) with i by lia. change FLOW_EPOCH_MASK with (Z.ones 3). rewrite Z.ones_spec_low by lia. by rewrite andb_false_r.
  - rewrite Z.ones_spec_high, andb_false_r by lia. symmetry. destruct (decide (g = 0)) as [->|]; [apply Z.testbit_0_l|].
    apply Z.bits_above_log2; [lia|]. apply Z.log2_lt_pow2; [lia|]. pose proof (Z.pow_le_mono_r 2 3 i ltac:(lia) ltac:(lia)). lia.
Qed.

(** ** What holds in every history *)

Section Reach.
Context {Q S : Type} `{!ReadyQueue Q} `{!Allocator S} (params : Params) (nd : Z).
Implicit Types (t : FlowTable Q S) (T : TableState Q S).
Abbreviation nf := (pr_flowCount params).
Abbreviation ns := (pr_stagingCount params).
Abbreviation mp := (pr_maxPeers params).

(** A table some history leads to. *)
Definition table_reach T : Prop :=
  exists mkPool z1 z2 z3 z4 z5 z6 z7 t0 sendPool recv Fd t,
    table_hyps mkPool t0 params sendPool nd Fd /\ FlowTable_Init mkPool z1 z2 z3 z4 z5 z6 z7 t0 params sendPool recv = (Ok, t) /\
    table_steps ns nd mp (mk_table_state t ∅ [] Fd) T.

Lemma reach_ok T : table_reach T -> state_ok nf ns nd mp T.
Proof.
  intros (mkPool&z1&z2&z3&z4&z5&z6&z7&t0&sendPool&recv&Fd&t&Hh&Hi&Hs). apply (table_steps_ok _ _ _ _ _ _ Hs).
  eexists. split; [by eapply FlowTable_Init_ok|]. split; [|done]. cbn. set_solver.
Qed.

Lemma find_published dir id s : dir_ok dir -> s <> INVALID -> FindFlowSlot dir id = s <-> (id, s) ∈ published dir.
Proof.
  intros H Hs. rewrite (find_refines _ _ (do_ids _ H)). rewrite <- (dir_map_lookup _ _ _ (do_ids _ H)).
  destruct (dir_map dir !! id) as [x|]; cbn; split; [by intros ->|by intros [= ->]|by intros <-|done].
Qed.

(** What a directory answers, by the lists. *)
Lemma find_listed t v p id s : ft_inv nf ns nd mp None t v -> 0 <= p < mp -> s <> INVALID ->
  FindOutAssoc t p id = s <-> exists f l, flow_list t f l /\ s ∈ l /\ fl_flowId (flows t).[f] = id /\ oa_peerSlot (outs t).[s] = p.
Proof.
  intros H Hp Hs. destruct (fi_dir _ _ _ _ _ _ _ H p Hp) as (Hok&_&Hd). unfold FindOutAssoc. rewrite (find_published _ _ _ Hok Hs), Hd. split.
  - intros (Hl&_&Ep&Ei). destruct (live_list _ _ _ _ _ _ _ _ H Hl) as (Hf&Hin&Ha). set (f := oa_flowSlot (outs t).[s]) in *.
    exists f, (vw_list v f). split; [by apply (view_list _ _ _ _ _ _ _ _ H)|]. split; [done|]. split; [|done]. by rewrite <- (ao_id _ _ _ _ Ha).
  - intros (f&l&Hl&Hin&Ei&Ep). apply (view_list _ _ _ _ _ _ _ _ H) in Hl as [Hf ->]. destruct (list_unique _ _ _ _ _ _ _ _ _ H Hf Hin) as [_ Hlive].
    split; [done|]. split; [done|]. split; [done|]. by rewrite (ao_id _ _ _ _ (fi_assoc _ _ _ _ _ _ _ H f s Hf Hin)).
Qed.

(** (C4) In every history of the sending half, from its initialisation: the list of
    an open flow ends; two flows have different ids and share no association; a peer's
    directory finds an association under an id exactly when it is on the list of the
    flow with that id and belongs to that peer; a slot the pool hands out next is on
    no list, and no event about it is still unread; and no packet slot is kept by two
    associations, or by one and the rest of the program. *)
Theorem table_tied T (Hr : table_reach T) :
  let t := ts_table T in
  (forall f, 0 <= f < nf -> fl_life (flows t).[f] <> CLOSED -> exists l, flow_list t f l) /\
  (forall f g l l', flow_list t f l -> flow_list t g l' -> f <> g -> fl_flowId (flows t).[f] <> fl_flowId (flows t).[g] /\ forall s, s ∈ l -> s ∉ l') /\
  (forall p id s, 0 <= p < mp -> s <> INVALID -> FindOutAssoc t p id = s <->
     exists f l, flow_list t f l /\ s ∈ l /\ fl_flowId (flows t).[f] = id /\ oa_peerSlot (outs t).[s] = p) /\
  (forall hint b s sp, Split_Acquire hint (outAssocPool t) b = Some (s, sp) -> s <> INVALID -> ~ listed t s /\ (s ∉ ts_unread T) /\ 0 <= s < zlen (outs t)) /\
  (forall live, enumerates t live -> NoDup (shares st_share (outs t) live ++ ts_staged T) /\ NoDup (shares sd_share (outs t) live ++ ts_out T)).
Proof.
  destruct (reach_ok T Hr) as (v&H&Hu&Est&Esd). cbv zeta. set (t := ts_table T) in *. split_and!.
  - intros f Hf Hl. exists (vw_list v f). apply (view_list _ _ _ _ _ _ _ _ H). split; [|done]. by apply (fi_used _ _ _ _ _ _ _ H f Hf).
  - intros f g l l' [Hf ->]%(view_list _ _ _ _ _ _ _ _ H) [Hg ->]%(view_list _ _ _ _ _ _ _ _ H) Hne. split; [intros E; by apply Hne, (fi_distinct _ _ _ _ _ _ _ H)|].
    intros s Hs Hs'. apply Hne. destruct (list_unique _ _ _ _ _ _ _ _ _ H Hf Hs) as [<- _], (list_unique _ _ _ _ _ _ _ _ _ H Hg Hs') as [<- _]. done.
  - intros p id s Hp Hs. by apply (find_listed t v).
  - intros hint b s sp E Hs. destruct (Split_Acquire_ok hint (outAssocPool t) _ b (fi_outPool _ _ _ _ _ _ _ H)) as (s1&sp1&E1&_&[[? _]|(Hn&Hrg&_)]); [congruence|].
    assert (s1 = s) as -> by congruence. rewrite (view_listed _ _ _ _ _ _ _ H), <- Hu, (fi_len _ _ _ _ _ _ _ H). apply not_elem_of_app in Hn as [? ?]. done.
  - intros live He. apply (view_enum _ _ _ _ _ _ _ H) in He. rewrite !(shares_perm _ _ _ _ He), <- Est, <- Esd.
    destruct (al_held _ _ _ (fi_staging _ _ _ _ _ _ _ H)) as (_&N1&_), (al_held _ _ _ (fi_sending _ _ _ _ _ _ _ H)) as (_&N2&_). done.
Qed.

(** (C5) Closing a flow ends, whatever its list: with a live handle, and a peer
    table that still answers for its targets, [CloseFlow] returns [Ok], the handle
    reads as closed, no peer's directory finds the flow's id any more, every other id
    is found where it was, the other flows keep their lists and associations, and the
    pools have back every packet slot the flow's associations kept. *)
Theorem close_flow_ends T (by_addr : Address -> option Z) (by_id : BcpId -> option Z) (peers : list Peer) (flow : FlowHandle)
  (Hr : table_reach T) (H0 : 0 <= fh_slot flow) (Hlive : live_flow nf (ts_table T) flow (fh_slot flow))
  (Hown : forall l s, flow_list (ts_table T) (fh_slot flow) l -> s ∈ l -> owner_known by_addr by_id (ts_table T) s) :
  let t := ts_table T in let f := fh_slot flow in
  exists t' peers', CloseFlow by_addr by_id t peers flow = Some (Ok, t', peers') /\
    StateOf t' flow = CLOSED /\
    (forall p, 0 <= p < mp -> FindOutAssoc t' p (fl_flowId (flows t).[f]) = INVALID) /\
    (forall p id, 0 <= p < mp -> id <> fl_flowId (flows t).[f] -> FindOutAssoc t' p id = FindOutAssoc t p id) /\
    (forall g l, g <> f -> flow_list t' g l <-> flow_list t g l) /\
    (forall s, listed t' s -> unlinked (outs t').[s] = unlinked (outs t).[s]) /\
    (forall live, enumerates t' live -> al_owns (staging (ft_pools t')) ns (shares st_share (outs t) live ++ ts_staged T) /\
       al_owns (sending (ft_pools t')) nd (shares sd_share (outs t) live ++ ts_out T)).
Proof.
  destruct (reach_ok T Hr) as (v&H&Hu&Est&Esd). cbv zeta. set (t := ts_table T) in *. set (f := fh_slot flow) in *.
  assert (Hf : f ∈ vw_flows v) by (destruct Hlive as (_&_&Hfr&_&El); apply (fi_used _ _ _ _ _ _ _ H f Hfr); by rewrite El).
  destruct (CloseFlow_ok _ _ _ _ by_addr by_id t v peers flow H H0 Hlive) as (t'&v'&peers'&E&H'&Ef&S1&S2&El&Hl&_&Hk&Hfl&Hcl).
  { intros s Hs. apply (Hown (vw_list v f)); [|done]. by apply (view_list _ _ _ _ _ _ _ _ H). }
  fold f in Ef, El, Hl, Hk, Hfl, Hcl. exists t', peers'. split; [done|].
  assert (Hlists : forall g l, g <> f -> flow_list t' g l <-> flow_list t g l).
  { intros g l Hne. rewrite (view_list _ _ _ _ _ _ _ _ H), (view_list _ _ _ _ _ _ _ _ H'), Ef, without_elem, El by done. tauto. }
  assert (Hno : forall l, ~ flow_list t' f l) by (intros l [Hin _]%(view_list _ _ _ _ _ _ _ _ H'); rewrite Ef in Hin; by apply without_elem in Hin as [_ ?]).
  assert (Hkeep : forall s, listed t' s -> unlinked (outs t').[s] = unlinked (outs t).[s]).
  { intros s Hs%(view_listed _ _ _ _ _ _ _ H'). destruct (live_range _ _ _ _ _ _ _ s H' (or_introl Hs)) as [? _]. apply Hl in Hs as [_ Hn]. by apply Hk; [lia|]. }
  assert (Hid : forall g, 0 <= g -> g <> f -> fl_flowId (flows t').[g] = fl_flowId (flows t).[g]) by (intros g Hg Hne; by rewrite Hfl).
  assert (Hpos : forall g l, flow_list t g l -> 0 <= g) by (intros g l (?&_); lia).
  assert (Hfind : forall p id s, 0 <= p < mp -> s <> INVALID -> FindOutAssoc t' p id = s <-> FindOutAssoc t p id = s /\ id <> fl_flowId (flows t).[f]).
  { intros p id s Hp Hs. rewrite (find_listed _ _ p id s H Hp Hs), (find_listed _ _ p id s H' Hp Hs). split.
    - intros (g&l&Hg&Hin&Ei&Ep). assert (Hne : g <> f) by (intros ->; by apply (Hno l)). pose proof Hg as Hg'. apply Hlists in Hg; [|done].
      rewrite (unlinked_field oa_peerSlot (outs t).[s]) in Ep; [|done|apply Hkeep; by exists g, l]. rewrite Hid in Ei by eauto. split; [by exists g, l|].
      intros ->. apply Hne. apply (view_list _ _ _ _ _ _ _ _ H) in Hg as [Hg _]. by apply (fi_distinct _ _ _ _ _ _ _ H).
    - intros [(g&l&Hg&Hin&Ei&Ep) Hne]. assert (Hgf : g <> f) by congruence. exists g, l. apply Hlists in Hg; [|done]. split; [done|]. split; [done|].
      rewrite Hid by (destruct Hg; lia || done). split; [done|]. rewrite (unlinked_field oa_peerSlot (outs t).[s]); [done|done|apply Hkeep; by exists g, l]. }
  split_and!; try done.
  - unfold StateOf. destruct (stale t' flow); [done|]. fold f. rewrite Hcl. by destruct (_ =? _).
  - intros p Hp. destruct (decide (FindOutAssoc t' p (fl_flowId (flows t).[f]) = INVALID)) as [|Hne]; [done|].
    by destruct (proj1 (Hfind p _ _ Hp Hne) eq_refl) as [_ []].
  - intros p id Hp Hne. destruct (decide (FindOutAssoc t p id = INVALID)) as [E1|E1].
    + destruct (decide (FindOutAssoc t' p id = INVALID)) as [E2|E2]; [congruence|]. by destruct (proj1 (Hfind p _ _ Hp E2) eq_refl) as [-> _].
    + by apply Hfind.
  - intros live He. assert (Hsh : forall g, (forall a, g (unlinked a) = g a) -> shares g (outs t') live = shares g (outs t) live).
    { intros g Hg. apply shares_ext. intros s Hs. apply (unlinked_field g); [done|]. apply Hkeep. by apply He. }
    rewrite <- !Hsh by done. apply (view_enum _ _ _ _ _ _ _ H') in He. rewrite <- Est, <- Esd, <- S1, <- S2.
    split; (eapply al_perm; [|apply H']); by rewrite (shares_perm _ _ _ _ He).
Qed.

(** (C8) Sweeping a peer ends and takes away its associations and no others: its
    directory is empty, other directories answer as before, the associations that stay
    are those of other peers, every open flow still has a list that ends, and the
    packet slots the peer's associations kept are back in their pools. *)
Theorem sweep_peer_exact T (p : Z) (Hr : table_reach T) (Hp : 0 <= p < mp) :
  let t := ts_table T in
  exists t', SweepOut t p = Some t' /\
    (forall id, FindOutAssoc t' p id = INVALID) /\
    (forall q id, 0 <= q < mp -> q <> p -> FindOutAssoc t' q id = FindOutAssoc t q id) /\
    (forall s, listed t' s <-> listed t s /\ oa_peerSlot (outs t).[s] <> p) /\
    (forall f, 0 <= f < nf -> fl_life (flows t).[f] <> CLOSED -> exists l, flow_list t' f l) /\
    (forall live, enumerates t' live -> al_owns (staging (ft_pools t')) ns (shares st_share (outs t) live ++ ts_staged T) /\
       al_owns (sending (ft_pools t')) nd (shares sd_share (outs t) live ++ ts_out T)).
Proof.
  destruct (reach_ok T Hr) as (v&H&Hu&Est&Esd). cbv zeta. set (t := ts_table T) in *.
  destruct (SweepOut_ok _ _ _ _ p t v H Hp) as (t'&v'&E&[H' (S0&S1&S2) _ _ Hk _ _]&Hl). exists t'. split; [done|].
  assert (Hlist : forall s, listed t' s <-> listed t s /\ oa_peerSlot (outs t).[s] <> p) by (intros s; by rewrite (view_listed _ _ _ _ _ _ _ H), (view_listed _ _ _ _ _ _ _ H')).
  assert (Hdir : forall q id s, 0 <= q < mp -> s <> INVALID -> FindOutAssoc t' q id = s <-> FindOutAssoc t q id = s /\ q <> p).
  { intros q id s Hq Hs. destruct (fi_dir _ _ _ _ _ _ _ H q Hq) as (Ho1&_&D1), (fi_dir _ _ _ _ _ _ _ H' q Hq) as (Ho2&_&D2).
    unfold FindOutAssoc. rewrite (find_published _ _ _ Ho1 Hs), (find_published _ _ _ Ho2 Hs), D1, D2, Hl. split.
    - intros ([Hin Hne]&_&E1&E2). rewrite (unlinked_field oa_peerSlot _ _ ltac:(done) (Hk s ltac:(by apply Hl))) in E1.
      rewrite (unlinked_field oa_flowId _ _ ltac:(done) (Hk s ltac:(by apply Hl))) in E2. by split_and!; [| | | |congruence].
    - intros [(Hin&_&E1&E2) Hne]. assert (Hs' : s ∈ vw_live v') by (apply Hl; split; [done|congruence]).
      rewrite (unlinked_field oa_peerSlot _ _ ltac:(done) (Hk s Hs')), (unlinked_field oa_flowId _ _ ltac:(done) (Hk s Hs')). by split_and!; [|congruence| | |]. }
  split_and!.
  - intros id. destruct (decide (FindOutAssoc t' p id = INVALID)) as [|Hne]; [done|]. by destruct (proj1 (Hdir p id _ Hp Hne) eq_refl) as [_ []].
  - intros q id Hq Hne. destruct (decide (FindOutAssoc t q id = INVALID)) as [E1|E1].
    + destruct (decide (FindOutAssoc t' q id = INVALID)) as [E2|E2]; [congruence|]. destruct (proj1 (Hdir q id _ Hq E2) eq_refl). congruence.
    + by apply Hdir.
  - done.
  - intros f Hf Hlf. exists (vw_list v' f). apply (view_list _ _ _ _ _ _ _ _ H'). split; [|done]. rewrite S0. by apply (fi_used _ _ _ _ _ _ _ H f Hf).
  - intros live He. assert (Hsh : forall g, (forall a, g (unlinked a) = g a) -> shares g (outs t') live = shares g (outs t) live).
    { intros g Hg. apply shares_ext. intros s Hs. apply (unlinked_field g); [done|]. apply Hk. apply (view_listed _ _ _ _ _ _ _ H'). by apply He. }
    rewrite <- !Hsh by done. apply (view_enum _ _ _ _ _ _ _ H') in He. rewrite <- Est, <- Esd, <- S1, <- S2.
    split; (eapply al_perm; [|apply H']); by rewrite (shares_perm _ _ _ _ He).
Qed.

(** (C6) In every history an association on a list is well formed: it carries the
    id of its open flow and the slot of a peer of the table, it is open or refused, its
    ring is as long as it says; open, its window is its mode's, its counters are in
    order, its count of pending packets is what the ring holds and its queue fits;
    refused, it keeps no packet slot. *)
Theorem associations_well_formed T (s : Z) (Hr : table_reach T) (Hs : listed (ts_table T) s) :
  let t := ts_table T in let a := (outs t).[s] in let f := (flows t).[oa_flowSlot a] in
  fl_life f <> CLOSED /\ oa_flowId a = fl_flowId f /\ oa_flowId a <> INVALID_FLOW_ID /\ 0 <= oa_peerSlot a < mp /\ 0 <= s < zlen (outs t) /\
  (oa_life a = OPEN \/ oa_life a = FAILED) /\ zlen (InFlight a) = inflightCap a /\
  (oa_life a = OPEN -> inflightCap a = WindowFor (oa_mode a) /\ 1 <= ackBase a <= nextSeq a /\ is_u32 (nextSeq a) /\
     unresolved a = pend_count a /\ zlen (Waiting a) = waitingCap a /\ 0 <= waitingCount a <= waitingCap a) /\
  (oa_life a = FAILED -> st_share a = [] /\ sd_share a = []).
Proof.
  destruct (reach_ok T Hr) as (v&H&_). cbv zeta. set (t := ts_table T) in *. apply (view_listed _ _ _ _ _ _ _ H) in Hs.
  destruct (live_list _ _ _ _ _ _ _ _ H Hs) as (Hf&_&[_ Hid Hp Hst]), (live_range _ _ _ _ _ _ _ s H (or_introl Hs)) as [Hsr _].
  destruct (flow_range _ _ _ _ _ _ _ _ H Hf) as (Hfr&_&_). destruct (fi_used _ _ _ _ _ _ _ H _ Hfr) as [U1 U2].
  split; [by apply U2|]. split; [done|]. split; [rewrite Hid; by apply U1|]. split; [done|]. split; [done|].
  destruct Hst as [[El Hsh]|[El Hsp]].
  - split; [by left|]. rewrite (so_ring _ _ Hsh), (so_cap _ _ Hsh). split; [done|]. split; [|by rewrite El]. intros _. rewrite WindowFor_pow.
    by destruct Hsh as [? ? [? ?] ? ? ? ? ? [? ?] ?].
  - split; [by right|]. split; [apply Hsp|]. split; [by rewrite El|]. intros _. by apply spent_shares.
Qed.

(** (C7) The first send to a peer, in any history: [CreateAssociation] returns, and
    either refuses and leaves every list as it was, or takes a slot that was on no list
    and in no unread event, puts it at the head of the list of the open flow with that
    id, publishes it in the peer's directory, and gives it the flow's next generation,
    which a receiver at the previous one reads as newer. *)
Theorem first_send_creates T (hint now peerSlot id : Z) (p : Peer) (Hr : table_reach T) (Hp : 0 <= peerSlot < mp) :
  let t := ts_table T in
  exists s t', CreateAssociation hint now t p peerSlot id = Some (s, t') /\
    (s = INVALID -> forall f l, flow_list t' f l <-> flow_list t f l) /\
    (s <> INVALID -> exists f l, flow_list t f l /\ fl_flowId (flows t).[f] = id /\ fl_life (flows t).[f] = OPEN /\ ~ listed t s /\ (s ∉ ts_unread T) /\
       flow_list t' f (s :: l) /\ (forall g l', g <> f -> flow_list t' g l' <-> flow_list t g l') /\
       FindOutAssoc t' peerSlot id = s /\ oa_peerAddr (outs t').[s] = p_addr p /\ oa_peerId (outs t').[s] = p_id p /\
       CompareFlowEpoch (FlowDataEpoch (fl_flowData (flows t).[f])) (oa_flowEpoch (outs t').[s]) = Newer /\
       FlowDataEpoch (fl_flowData (flows t').[f]) = oa_flowEpoch (outs t').[s]).
Proof.
  destruct (reach_ok T Hr) as (v&H&Hu&_). cbv zeta. set (t := ts_table T) in *.
  destruct (Create_ok _ _ _ _ hint now t v p peerSlot id H Hp) as (s&t'&E&[[-> H']|(f&Hf&Hid&Ho&Hn&Hnu&Hs&H'&Hd&Hpe&Hg&Ha&Hi&Hai)]); eexists _, t'; (split; [exact E|]).
  - split; [|done]. intros _ f l. by rewrite (view_list _ _ _ _ _ _ _ _ H), (view_list _ _ _ _ _ _ _ _ H').
  - split; [done|]. intros _. exists f, (vw_list v f).
    assert (Hnew : flow_list t' f (s :: vw_list v f)) by (apply (view_list _ _ _ _ _ _ _ _ H'); split; [done|cbn; by rewrite fupd_eq]).
    split; [by apply (view_list _ _ _ _ _ _ _ _ H)|]. split; [done|]. split; [done|]. split; [by rewrite (view_listed _ _ _ _ _ _ _ H)|]. split; [by rewrite <- Hu|].
    split; [done|]. split; [intros g l' Hne; rewrite (view_list _ _ _ _ _ _ _ _ H), (view_list _ _ _ _ _ _ _ _ H'); cbn; by rewrite fupd_ne|].
    assert (Hin : s ∈ vw_list (add_assoc v f s) f) by (cbn; rewrite fupd_eq; left).
    assert (Hid' : fl_flowId (flows t').[f] = id) by (rewrite <- (ao_id _ _ _ _ (fi_assoc _ _ _ _ _ _ _ H' f s Hf Hin)); exact Hai).
    split; [apply (find_listed t' _ peerSlot id s H' Hp Hs); exists f, (s :: vw_list v f); split_and!; try done; left|].
    split; [done|]. split; [done|]. rewrite Hg, Hd. split; [apply next_generation_newer|]. apply with_generation_epoch.
    unfold next_generation. rewrite (proj1 (epoch_bits _)). apply epoch_bits.
Qed.
End Reach.

(** ** The theorems at work *)

Lemma Pool_Init_pow2 n stride : pow2 n -> al_owns (Pool_Init n stride) n [].
Proof.
  intros (v&Hv&->). apply (reach_owns (2 ^ v) stride); [|done|constructor].
  assert (H : v ∈ map Z.of_nat (seq 0 32)) by (apply list_elem_of_fmap; exists (Z.to_nat v); split; [lia|apply elem_of_seq; lia]).
  cbn in H. rewrite !elem_of_cons, elem_of_nil in H. by destruct_or! H; subst v.
Qed.

(** One peer, two flows, two associations. *)
Definition sample_table_params : Params := mk_params 2 2 0 0 0 2 0 1 32 4 4 20000 50000 0.
Definition blank_pool : SlotPool := Pool_Init 32 64.
Definition blank_world : RecvWorld ReadyLanes SlotPool :=
  InDeliver.mk_world ReadyLanes.sample_lanes blank_pool [mk_recv 0 0 0 0] 0 100.
Definition blank_table : FlowTable ReadyLanes SlotPool :=
  mk_flow_table blank_pool (replicate 2 blank_flow) (mk_split blank_pool blank_pool 0 0) (replicate 2 inhabitant) (mk_split blank_pool blank_pool 0 0) []
    (mk_pools blank_pool blank_pool) blank_world None None [] 0 0 0 false (mk_flow_config 0 0 0).
Definition sample_init := FlowTable_Init Pool_Init 64 32 16 64 32 64 32 blank_table sample_table_params blank_pool blank_world.
Definition sample_opened := Open 0 sample_init.2 5 0.
Definition sample_t1 : FlowTable ReadyLanes SlotPool := match sample_opened with Some (_, t) => t | None => sample_init.2 end.
Definition sample_handle : FlowHandle := match sample_opened with Some (h, _) => h | None => mk_flow_handle 0 0 0 0 InvalidState end.
Definition sample_created := CreateAssociation 0 1000 sample_t1 sample_out_peer 0 5.
Definition sample_slot : Z := match sample_created with Some (s, _) => s | None => INVALID end.
Definition sample_t2 : FlowTable ReadyLanes SlotPool := match sample_created with Some (_, t) => t | None => sample_t1 end.

Lemma sample_hyps : table_hyps Pool_Init blank_table sample_table_params blank_pool 32 [].
Proof.
  split; try done.
  - apply Pool_Init_pow2.
  - split; [by exists 1|]. split; [by left|]. split; [by exists 1|by exists 5].
  - apply (Pool_Init_pow2 32). by exists 5.
Qed.
Lemma sample_init_runs : sample_init = (Ok, sample_init.2).
Proof. apply injective_projections; [vm_compute; reflexivity|reflexivity]. Qed.


(** Two runs, kept as they are. *)
Lemma pair_runs {A B} (o : option (A * B)) (x : A) (y : B) : is_some o = true ->
  o = Some (match o with Some (a, _) => a | None => x end, match o with Some (_, b) => b | None => y end).
Proof. by destruct o as [[]|]. Qed.
Lemma sample_open_runs : sample_opened = Some (sample_handle, sample_t1).
Proof. apply pair_runs. vm_compute. reflexivity. Qed.
Lemma sample_create_runs : sample_created = Some (sample_slot, sample_t2).
Proof. apply pair_runs. vm_compute. reflexivity. Qed.

#[local] Strategy opaque [Open CreateAssociation FlowTable_Init sample_init sample_t1 sample_slot sample_t2].

Definition sample_T1 : TableState ReadyLanes SlotPool := mk_table_state sample_t1 ∅ [] [].
Definition sample_T2 : TableState ReadyLanes SlotPool := mk_table_state sample_t2 ∅ [] [].

Lemma sample_step1 : table_step 32 32 1 (mk_table_state sample_init.2 ∅ [] []) sample_T1.
Proof. exact (ts_open 32 32 1 0 sample_init.2 ∅ [] [] 5 0 sample_handle sample_t1 sample_open_runs). Qed.
Lemma sample_step2 : table_step 32 32 1 sample_T1 sample_T2.
Proof. exact (ts_create 32 32 1 0 1000 sample_t1 ∅ [] [] sample_out_peer 0 5 sample_slot sample_t2 ltac:(lia) sample_create_runs). Qed.

Lemma sample_table_reach T : table_steps 32 32 1 (mk_table_state sample_init.2 ∅ [] []) T -> table_reach sample_table_params 32 T.
Proof.
  intros Hs. exists Pool_Init, 64, 32, 16, 64, 32, 64, 32, blank_table, blank_pool, blank_world, [], sample_init.2.
  split; [exact sample_hyps|]. split; [exact sample_init_runs|exact Hs].
Qed.
Lemma sample_reach1 : table_reach sample_table_params 32 sample_T1.
Proof. exact (sample_table_reach _ (tsteps_snoc _ _ _ _ _ _ (tsteps_none _ _ _ _) sample_step1)). Qed.
Lemma sample_reach2 : table_reach sample_table_params 32 sample_T2.
Proof. exact (sample_table_reach _ (tsteps_snoc _ _ _ _ _ _ (tsteps_snoc _ _ _ _ _ _ (tsteps_none _ _ _ _) sample_step1) sample_step2)). Qed.

Lemma sample_list : flow_list sample_t2 (fh_slot sample_handle) [0].
Proof.
  split; [split; vm_compute; (reflexivity || discriminate)|]. split; [vm_compute; discriminate|]. split; [|by apply NoDup_singleton].
  cbn [flow_chain]. repeat split; vm_compute; (reflexivity || discriminate).
Qed.
Lemma sample_live : live_flow 2 sample_t2 sample_handle (fh_slot sample_handle).
Proof. repeat split; vm_compute; (reflexivity || discriminate). Qed.

Lemma sample_owned l s : flow_list sample_t2 (fh_slot sample_handle) l -> s ∈ l -> owner_known (fun _ => Some 0) (fun _ => Some 0) sample_t2 s.
Proof.
  intros Hl Hs. destruct (reach_ok _ _ _ sample_reach2) as (v&H&_).
  assert (Hlive : s ∈ vw_live v) by (apply (view_listed _ _ _ _ _ _ _ H); by exists (fh_slot sample_handle), l).
  destruct (live_list _ _ _ _ _ _ _ _ H Hlive) as (_&_&[_ _ Hp _]). unfold owner_known, owner_of. change (pr_maxPeers sample_table_params) with 1 in Hp.
  change (ts_table sample_T2) with sample_t2 in Hp. replace (oa_peerSlot (outs sample_t2).[s]) with 0 by lia. by destruct (bool_decide _).
Qed.

Lemma table_tied_witness : FindOutAssoc sample_t2 0 5 = 0.
Proof.
  refine (proj2 (proj1 (proj2 (proj2 (table_tied _ _ sample_T2 sample_reach2))) 0 5 0 ltac:(split; [reflexivity|reflexivity]) ltac:(discriminate)) _).
  exists (fh_slot sample_handle), [0]. split; [exact sample_list|]. split; [left|]. split; vm_compute; reflexivity.
Defined.

Lemma close_flow_ends_witness : exists t' peers',
  CloseFlow (fun _ => Some 0) (fun _ => Some 0) sample_t2 [sample_out_peer] sample_handle = Some (Ok, t', peers') /\ StateOf t' sample_handle = CLOSED.
Proof.
  destruct (close_flow_ends _ _ sample_T2 (fun _ => Some 0) (fun _ => Some 0) [sample_out_peer] sample_handle sample_reach2 ltac:(vm_compute; discriminate) sample_live sample_owned)
    as (t'&peers'&E&Hs&_). exists t', peers'. split; [exact E|exact Hs].
Defined.

Lemma sweep_peer_exact_witness : exists t', SweepOut sample_t2 0 = Some t' /\ forall id, FindOutAssoc t' 0 id = INVALID.
Proof.
  destruct (sweep_peer_exact _ _ sample_T2 0 sample_reach2 ltac:(split; [reflexivity|reflexivity])) as (t'&E&Hf&_). exists t'. split; [exact E|exact Hf].
Defined.

Lemma associations_well_formed_witness : zlen (InFlight (outs sample_t2).[0]) = inflightCap (outs sample_t2).[0].
Proof.
  refine (proj1 (proj2 (proj2 (proj2 (proj2 (proj2 (proj2 (associations_well_formed _ _ sample_T2 0 sample_reach2 _)))))))).
  exists (fh_slot sample_handle), [0]. split; [exact sample_list|left].
Defined.

Lemma first_send_creates_witness : exists s t', CreateAssociation 0 1000 sample_t1 sample_out_peer 0 5 = Some (s, t') /\
  (s <> INVALID -> FindOutAssoc t' 0 5 = s).
Proof.
  destruct (first_send_creates _ _ sample_T1 0 1000 0 5 sample_out_peer sample_reach1 ltac:(split; [reflexivity|reflexivity])) as (s&t'&E&_&H). exists s, t'.
  split; [exact E|]. intros Hs. destruct (H Hs) as (f&l&_&_&_&_&_&_&_&Hf&_). exact Hf.
Defined.

(** ** What the generations do not cover *)

(** Eight peers, room for [n] associations. *)
Definition wide_params (n : Z) : Params := mk_params 2 n 0 0 0 2 0 8 32 4 4 20000 50000 0.
Definition wide_table (n : Z) : FlowTable ReadyLanes SlotPool :=
  (FlowTable_Init Pool_Init 64 32 16 64 32 64 32 (blank_table <| outs := replicate (Z.to_nat n) inhabitant |>) (wide_params n) blank_pool blank_world).2.

(** Creates flow 5's association at a peer: its generation, or [INVALID]. *)
Definition create_at (peerSlot : Z) (t : FlowTable ReadyLanes SlotPool) : option (Z * FlowTable ReadyLanes SlotPool) :=
  '(s, t) ← CreateAssociation 0 1000 t sample_out_peer peerSlot 5; Some (if s =? INVALID then INVALID else oa_flowEpoch (outs t).[s], t).
Fixpoint create_each (peerSlots : list Z) (t : FlowTable ReadyLanes SlotPool) : option (list Z * FlowTable ReadyLanes SlotPool) :=
  match peerSlots with
  | [] => Some ([], t)
  | p :: ps => '(g, t) ← create_at p t; '(gs, t) ← create_each ps t; Some (g :: gs, t)
  end.

(** Eight first sends to as many peers, then the first peer is lost and comes back. *)
Definition walked : option (list Z) :=
  '(_, t) ← Open 0 (wide_table 16) 5 0;
  '(gs, t) ← create_each [0; 1; 2; 3; 4; 5; 6; 7] t;
  t ← SweepOut t 0;
  '(again, t) ← create_at 0 t;
  Some (gs ++ [again]).

(** Two associations in all, and a third peer that is refused six times. *)
Definition refused : option (list Z) :=
  '(_, t) ← Open 0 (wide_table 2) 5 0;
  '(gs, t) ← create_each [0; 1; 2; 2; 2; 2; 2; 2] t;
  t ← SweepOut t 0;
  '(again, t) ← create_at 0 t;
  Some (gs ++ [again]).

(** The flow's only peer is lost and comes back, the flow closes and opens again. *)
Definition reopened : option (list Z) :=
  '(_, t) ← Open 0 (wide_table 16) 5 0;
  '(_, t) ← create_at 0 t;
  t ← SweepOut t 0;
  '(before, t) ← create_at 0 t;
  '(_, t, _) ← CloseFlow (fun _ => Some 0) (fun _ => Some 0) t [sample_out_peer] (mk_flow_handle 0 1 5 0 Ok);
  '(_, t) ← Open 0 t 5 0;
  '(after, t) ← create_at 0 t;
  Some [before; after].

(** Opening again repeats the generation the receiver still holds: what it is sent
    then it takes for the run it already has. *)
Lemma reopen_repeats_generation : reopened = Some [3; 3] /\ CompareFlowEpoch 3 3 = Current.
Proof. split; vm_compute; reflexivity. Qed.

(** The generations are the flow's: the first peer's second association carries the
    one it had, and after four other first sends it would already read as stale. *)
Lemma generations_come_round : walked = Some [2; 3; 4; 5; 6; 7; 0; 1; 2] /\ CompareFlowEpoch 2 2 = Current /\ CompareFlowEpoch 2 6 = Stale.
Proof. split_and!; vm_compute; reflexivity. Qed.

(** A refused first send spends one too. *)
Lemma refusals_spend_generations : refused = Some [2; 3; INVALID; INVALID; INVALID; INVALID; INVALID; INVALID; 2].
Proof. vm_compute. reflexivity. Qed.

(** ** Counts that are no powers of two *)

(** Six ordinary slots before four of the other kind; the pool of the six holds eight. *)
Definition odd_split : SplitAssocPool SlotPool := Split_Init Pool_Init (mk_split blank_pool blank_pool 0 0) 6 64 4 64.
Fixpoint acquire_each (kinds : list bool) (sp : SplitAssocPool SlotPool) : option (list Z) :=
  match kinds with
  | [] => Some []
  | b :: kinds' => '(s, sp) ← Split_Acquire 0 sp b; ss ← acquire_each kinds' sp; Some (s :: ss)
  end.

(** One slot is handed out twice. *)
Lemma odd_counts_collide : ((fun l => bool_decide (NoDup l)) <$> acquire_each [false; false; false; false; false; false; false; false; true] odd_split) = Some false.
Proof. vm_compute. reflexivity. Qed.
