(* ===== verification/Challenge.v ===== *)
(** * Challenges: [util/siphash.h] and [util/challenge.cpp]

    SipHash-2-4 as the header writes it, and the generator of stateless challenges over
    it.  The clock is an argument, the time since its epoch in nanoseconds; the random
    bytes come from the platform and are an argument too.

    Proved: the loop over blocks and the packed tail are the published function over
    the padded words; a challenge is accepted in its bucket and the next, hence for at
    least one window, and two windows later only by a collision of the hash; the hashed
    bytes tell the address, the port and the bucket apart. *)

From S2P Require Import Prelude Errors Words.

(** ** Definitions *)

Record sip_state := mk_sip { sv0 : Z; sv1 : Z; sv2 : Z; sv3 : Z }.

Definition sip_rotl (x b : Z) : Z := Z.lor (u64 (Z.shiftl x b)) (Z.shiftr x (64 - b)).

Definition sip_load64 (p : list Z) : Z :=
  foldl (fun v i => Z.lor v (u64 (Z.shiftl p.[Z.of_nat i] (Z.of_nat i * 8)))) 0 (seq 0 8).

Definition sip_round (s : sip_state) : sip_state :=
  let '(mk_sip v0 v1 v2 v3) := s in
  let v0 := u64 (v0 + v1) in let v1 := sip_rotl v1 13 in let v1 := Z.lxor v1 v0 in let v0 := sip_rotl v0 32 in
  let v2 := u64 (v2 + v3) in let v3 := sip_rotl v3 16 in let v3 := Z.lxor v3 v2 in
  let v0 := u64 (v0 + v3) in let v3 := sip_rotl v3 21 in let v3 := Z.lxor v3 v0 in
  let v2 := u64 (v2 + v1) in let v1 := sip_rotl v1 17 in let v1 := Z.lxor v1 v2 in let v2 := sip_rotl v2 32 in
  mk_sip v0 v1 v2 v3.

(** The body of the loop, and what follows it for the last block. *)
Definition sip_absorb (s : sip_state) (m : Z) : sip_state :=
  let s := mk_sip (sv0 s) (sv1 s) (sv2 s) (Z.lxor (sv3 s) m) in
  let s := sip_round (sip_round s) in
  mk_sip (Z.lxor (sv0 s) m) (sv1 s) (sv2 s) (sv3 s).

Fixpoint sip_blocks (n : nat) (s : sip_state) (data : list Z) : sip_state * list Z :=
  match n with
  | O => (s, data)
  | Datatypes.S n => sip_blocks n (sip_absorb s (sip_load64 data)) (drop 8 data)
  end.

Definition sip_tail (data : list Z) (len : Z) : Z :=
  foldl (fun b i => Z.lor b (u64 (Z.shiftl data.[Z.of_nat i] (Z.of_nat i * 8))))
    (u64 (Z.shiftl len 56)) (seq 0 (Z.to_nat (Z.land len 7))).

Definition sip_init (key : list Z) : sip_state :=
  let k0 := sip_load64 key in
  let k1 := sip_load64 (drop 8 key) in
  mk_sip (Z.lxor 0x736f6d6570736575 k0) (Z.lxor 0x646f72616e646f6d k1) (Z.lxor 0x6c7967656e657261 k0) (Z.lxor 0x7465646279746573 k1).

Definition sip_finish (s : sip_state) : Z :=
  let s := mk_sip (sv0 s) (sv1 s) (Z.lxor (sv2 s) 0xff) (sv3 s) in
  let s := sip_round (sip_round (sip_round (sip_round s))) in
  Z.lxor (Z.lxor (Z.lxor (sv0 s) (sv1 s)) (sv2 s)) (sv3 s).

Definition SipHash24 (key data : list Z) (len : Z) : Z :=
  let '(s, data) := sip_blocks (Z.to_nat (Z.land len (u64 (Z.lnot 7)) / 8)) (sip_init key) data in
  sip_finish (sip_absorb s (sip_tail data len)).

(** *** The generator *)

Definition WINDOW_SECONDS : Z := 60.

Record ChallengeGenerator := mk_chal { secret_ : list Z; initialized_ : bool }.

(** What of [sockaddr_in6] is hashed. *)
Record sockaddr_in6 := mk_sin6 { sin6_family : Z; sin6_port : Z; sin6_addr : list Z }.

(** [random] is what the platform's generator answers and leaves in the buffer. *)
Definition ChallengeGenerator_Init (g : ChallengeGenerator) (random : bool * list Z) : Error * ChallengeGenerator :=
  let '(ok, bytes) := random in
  if negb ok then (RandomFailed, mk_chal bytes (initialized_ g)) else (Ok, mk_chal bytes true).

Definition CurrentBucket (now : Z) : Z := u64 (Z.quot now (10 ^ 9)) / WINDOW_SECONDS.

Definition challenge_input (addr : sockaddr_in6) (bucket : Z) : list Z :=
  let input := replicate 28 0 in
  let input := blit input 0 (le_bytes 2 (sin6_family addr)) in
  let input := blit input 2 (le_bytes 2 (sin6_port addr)) in
  let input := blit input 4 (take 16 (sin6_addr addr)) in
  blit input 20 (le_bytes 8 bucket).

Definition ComputeFor (g : ChallengeGenerator) (addr : sockaddr_in6) (bucket : Z) : Z :=
  SipHash24 (secret_ g) (challenge_input addr bucket) 28.

Definition Generate (g : ChallengeGenerator) (now : Z) (senderAddr : sockaddr_in6) : Z :=
  ComputeFor g senderAddr (CurrentBucket now).

Definition Verify (g : ChallengeGenerator) (now : Z) (senderAddr : sockaddr_in6) (challenge : Z) : bool :=
  let bucket := CurrentBucket now in
  if challenge =? ComputeFor g senderAddr bucket then true
  else if (0 <? bucket) && (challenge =? ComputeFor g senderAddr (bucket - 1)) then true
  else false.

(** ** The published function *)

(** The message is padded with zeros and the low byte of its length to whole words. *)
Definition sip_pad (msg : list Z) : list Z :=
  msg ++ replicate (Z.to_nat (7 - zlen msg mod 8)) 0 ++ [zlen msg mod 256].
Fixpoint le_words (n : nat) (l : list Z) : list Z :=
  match n with O => [] | Datatypes.S n => le_value (take 8 l) :: le_words n (drop 8 l) end.
Definition sip_spec (key msg : list Z) : Z :=
  let k0 := le_value (take 8 key) in
  let k1 := le_value (drop 8 key) in
  let init := mk_sip (Z.lxor 0x736f6d6570736575 k0) (Z.lxor 0x646f72616e646f6d k1) (Z.lxor 0x6c7967656e657261 k0) (Z.lxor 0x7465646279746573 k1) in
  sip_finish (foldl sip_absorb init (le_words (length (sip_pad msg) / 8) (sip_pad msg))).

(** The test vectors of the paper's reference code, for the empty message, for eight
    bytes and for the fifteen of the appendix. *)
Example siphash_vectors :
  let key := map Z.of_nat (seq 0 16) in
  SipHash24 key [] 0 = 0x726fdb47dd0e0e31 /\
  SipHash24 key (map Z.of_nat (seq 0 8)) 8 = 0x93f5f5799a932462 /\
  SipHash24 key (map Z.of_nat (seq 0 15)) 15 = 0xa129ca6149be45e5.
Proof. by vm_compute. Qed.

(** ** Words *)

Definition sip_word (p : list Z) (n : nat) : Z :=
  foldl (fun v i => Z.lor v (u64 (Z.shiftl p.[Z.of_nat i] (Z.of_nat i * 8)))) 0 (seq 0 n).

Lemma foldl_lor_init (f : nat -> Z) l b :
  foldl (fun v i => Z.lor v (f i)) b l = Z.lor b (foldl (fun v i => Z.lor v (f i)) 0 l).
Proof.
  revert b. induction l as [|i l IH]; intros b; cbn [foldl]; [by rewrite Z.lor_0_r|].
  by rewrite IH, (IH (Z.lor 0 (f i))), Z.lor_0_l, Z.lor_assoc.
Qed.

Lemma sip_word_value p n : bytes p -> (n <= 8)%nat -> (n <= length p)%nat -> sip_word p n = le_value (take n p).
Proof.
  intros Hp. induction n as [|n IH]; intros Hn Hl; [done|]. unfold sip_word in *. rewrite seq_S, foldl_app. cbn [foldl Nat.add].
  rewrite IH by lia. destruct (lookup_lt_is_Some_2 p n ltac:(lia)) as [x Hx].
  replace (p.[Z.of_nat n]) with x by (unfold arr_get; rewrite Nat2Z.id; by rewrite (list_lookup_total_correct _ _ _ Hx)).
  assert (Hb : is_byte x) by (by eapply Forall_lookup_1 in Hx).
  pose proof (le_value_bound (take n p) ltac:(by apply Forall_take)) as B. unfold zlen in B. rewrite length_take, Nat.min_l in B by lia.
  assert (Hs : u64 (Z.shiftl x (Z.of_nat n * 8)) = Z.shiftl x (Z.of_nat n * 8)) by (apply (u_shift_small 64); [lia|lia|done]).
  rewrite Hs, lor_shift_add by (replace (Z.of_nat n * 8) with (8 * Z.of_nat n) by lia; lia).
  rewrite (take_S_r _ _ _ Hx), le_value_app. unfold zlen. rewrite length_take, Nat.min_l by lia. cbn [le_value].
  replace (Z.of_nat n * 8) with (8 * Z.of_nat n) by lia. ring.
Qed.

Lemma sip_load64_value p : bytes p -> (8 <= length p)%nat -> sip_load64 p = le_value (take 8 p).
Proof. intros. by apply (sip_word_value p 8). Qed.

Lemma le_words_app n m l1 l2 : length l1 = (8 * n)%nat -> le_words (n + m) (l1 ++ l2) = le_words n l1 ++ le_words m l2.
Proof.
  revert l1. induction n as [|n IH]; intros l1 Hl; [by destruct l1|]. cbn [Nat.add le_words app].
  rewrite take_app_le, drop_app_le by lia. by rewrite IH by (rewrite length_drop; lia).
Qed.

Lemma sip_blocks_words n s data : bytes data -> (8 * n <= length data)%nat ->
  sip_blocks n s data = (foldl sip_absorb s (le_words n (take (8 * n) data)), drop (8 * n) data).
Proof.
  revert s data. induction n as [|n IH]; intros s data Hb Hl; [done|]. cbn [sip_blocks].
  rewrite IH by (by apply Forall_drop || (rewrite length_drop; lia)). rewrite sip_load64_value by (done || lia).
  rewrite drop_drop. replace (8 * Datatypes.S n)%nat with (8 + 8 * n)%nat by lia. cbn [le_words foldl].
  by rewrite take_take, skipn_firstn_comm, Nat.min_l, (Nat.add_comm 8 (8 * n)), Nat.add_sub by lia.
Qed.

Lemma whole_blocks len : is_u64 len -> Z.land len (u64 (Z.lnot 7)) / 8 = len / 8.
Proof.
  intros H. change 8 with (2 ^ 3). rewrite <- !Z.shiftr_div_pow2, Z.shiftr_land by lia. change (Z.shiftr (u64 (Z.lnot 7)) 3) with (Z.ones 61).
  rewrite Z.land_ones, Z.shiftr_div_pow2 by lia. apply Z.mod_small. zdm.
Qed.

(** The last block is the rest, zeros, and the low byte of the length. *)
Lemma sip_tail_value data len : bytes data -> is_u64 len -> zlen data = len mod 8 ->
  sip_tail data len = le_value (data ++ replicate (Z.to_nat (7 - len mod 8)) 0 ++ [len mod 256]).
Proof.
  intros Hb Hl Hz. unfold sip_tail. rewrite (foldl_lor_init (fun i => u64 (Z.shiftl data.[Z.of_nat i] (Z.of_nat i * 8)))).
  assert (H7 : Z.land len 7 = len mod 8) by by apply (land_mask len 3). rewrite H7. unfold zlen in Hz. fold (sip_word data (Z.to_nat (len mod 8))).
  pose proof (Z.mod_pos_bound len 8 ltac:(lia)). rewrite sip_word_value by (done || lia). rewrite take_ge by lia.
  assert (Hs : u64 (Z.shiftl len 56) = Z.shiftl (len mod 256) 56).
  { unfold u64. rewrite !Z.shiftl_mul_pow2 by lia. change (2 ^ 64) with (256 * 2 ^ 56). by rewrite Z.mul_mod_distr_r. }
  pose proof (le_value_bound data Hb) as B. unfold zlen in B.
  assert (2 ^ (8 * Z.of_nat (length data)) <= 2 ^ 56) by (apply Z.pow_le_mono_r; lia).
  rewrite Hs, Z.lor_comm, lor_shift_add by lia. rewrite !le_value_app, le_value_zeros. cbn [le_value]. unfold zlen. rewrite length_replicate.
  rewrite Z.mul_0_r, Z.add_0_r, Z.add_0_l, Z.mul_assoc, <- Z.pow_add_r by lia. do 3 f_equal. lia.
Qed.

(** The function computes the published one, whatever the message. *)
Theorem SipHash24_published key msg :
  bytes key -> zlen key = 16 -> bytes msg -> is_u64 (zlen msg) -> SipHash24 key msg (zlen msg) = sip_spec key msg.
Proof.
  intros Hk Hz Hm Hu. unfold SipHash24. rewrite whole_blocks by done. set (n := Z.to_nat (zlen msg / 8)).
  assert (Hn : (8 * n <= length msg)%nat) by (unfold n, zlen; zdm). rewrite sip_blocks_words by done.
  assert (Hr : zlen (drop (8 * n) msg) = zlen msg mod 8) by (unfold n, zlen; rewrite length_drop; zdm).
  rewrite sip_tail_value by (done || by apply Forall_drop). unfold sip_spec, sip_pad.
  set (pad := replicate _ 0 ++ _). assert (Hp : length (drop (8 * n) msg ++ pad) = 8%nat).
  { unfold pad. rewrite !length_app, length_replicate. unfold zlen in *. cbn [length]. pose proof (Z.mod_pos_bound (Z.of_nat (length msg)) 8). lia. }
  assert (Hs : msg ++ pad = take (8 * n) msg ++ drop (8 * n) msg ++ pad) by by rewrite app_assoc, take_drop.
  assert (Ht : length (take (8 * n) msg) = (8 * n)%nat) by (rewrite length_take; lia).
  assert (Hw : (length (msg ++ pad) / 8 = n + 1)%nat).
  { rewrite Hs, length_app, Hp, Ht. replace (8 * n + 8)%nat with ((n + 1) * 8)%nat by lia. by apply Nat.div_mul. }
  rewrite Hw, Hs, le_words_app, foldl_app by done. cbn [le_words foldl]. rewrite (take_ge (drop (8 * n) msg ++ pad)) by lia. do 3 f_equal.
  assert (Hk16 : length key = 16%nat) by (unfold zlen in Hz; lia). unfold sip_init. rewrite (sip_load64_value key) by (done || lia).
  rewrite (sip_load64_value (drop 8 key)) by (by apply Forall_drop || (rewrite length_drop; lia)).
  by rewrite (take_ge (drop 8 key)) by (rewrite length_drop; lia).
Qed.

(** ** Challenges *)

(** A time of the steady clock. *)
Definition clock_ok (now : Z) : Prop := 0 <= now < 2 ^ 63.
Definition SECOND : Z := 10 ^ 9.

Lemma CurrentBucket_value now : clock_ok now -> CurrentBucket now = now / (60 * SECOND).
Proof.
  unfold clock_ok, CurrentBucket, WINDOW_SECONDS, SECOND. intros H. rewrite Z.quot_div_nonneg, u64_small by zdm.
  rewrite Z.div_div by lia. f_equal.
Qed.

Definition addr_ok (a : sockaddr_in6) : Prop := is_u16 (sin6_family a) /\ is_u16 (sin6_port a) /\ zlen (sin6_addr a) = 16.

Lemma challenge_input_value a b : addr_ok a ->
  challenge_input a b = le_bytes 2 (sin6_family a) ++ le_bytes 2 (sin6_port a) ++ sin6_addr a ++ le_bytes 8 b.
Proof.
  intros (_ & _ & Hz). unfold zlen in Hz. unfold challenge_input. rewrite take_ge by lia. destruct a as [f p l]. cbn [sin6_addr sin6_family sin6_port] in *.
  do 16 (destruct l as [|? l]; [by cbn in Hz; lia|]). destruct l; [done|by cbn in Hz; lia].
Qed.

(** Different addresses, ports or buckets are different inputs of the hash. *)
Theorem challenge_input_injective a a' b b' : addr_ok a -> addr_ok a' -> is_u64 b -> is_u64 b' ->
  challenge_input a b = challenge_input a' b' -> a = a' /\ b = b'.
Proof.
  intros Ha Ha' Hb Hb'. rewrite !challenge_input_value by done. destruct a as [f p l], a' as [f' p' l'], Ha as (Hf & Hp & Hl), Ha' as (Hf' & Hp' & Hl').
  unfold zlen in *. cbn [sin6_family sin6_port sin6_addr] in *. intros E.
  apply app_inj_1 in E as [E1 E]; [|by rewrite !length_le_bytes]. apply app_inj_1 in E as [E2 E]; [|by rewrite !length_le_bytes].
  apply app_inj_1 in E as [-> E4]; [|lia].
  apply (f_equal le_value) in E1, E2, E4. rewrite !le_value_bytes in E1, E2, E4. rewrite !Z.mod_small in E1, E2, E4 by lia. by subst.
Qed.

#[local] Opaque ComputeFor.

(** A challenge is accepted when it is what would be issued now or one window ago, and
    only then. *)
Theorem Verify_iff g now a c :
  Verify g now a c = true <->
  c = ComputeFor g a (CurrentBucket now) \/ (0 < CurrentBucket now /\ c = ComputeFor g a (CurrentBucket now - 1)).
Proof.
  unfold Verify. generalize (ComputeFor g a (CurrentBucket now)) as x. generalize (ComputeFor g a (CurrentBucket now - 1)) as y.
  generalize (CurrentBucket now) as b. intros b y x.
  rewrite <- (Z.ltb_lt 0 b), <- (Z.eqb_eq c x), <- (Z.eqb_eq c y), <- andb_true_iff, <- orb_true_iff.
  by destruct (c =? x), ((0 <? b) && (c =? y)).
Qed.

(** It lives for one window at least: within sixty seconds of its issue it is accepted
    from its own address. *)
Theorem challenge_accepted g a issued now : clock_ok issued -> clock_ok now ->
  issued <= now <= issued + 60 * SECOND -> Verify g now a (Generate g issued a) = true.
Proof.
  intros Hi Hn Hw. apply Verify_iff. unfold Generate. rewrite !CurrentBucket_value by done.
  change (60 * SECOND) with 60000000000 in *. unfold clock_ok in *.
  assert (issued / 60000000000 = now / 60000000000 \/ issued / 60000000000 = now / 60000000000 - 1) as [E|E] by zdm; rewrite E; [by left|].
  right. split; [zdm|done].
Qed.

(** And for two at most: from then on only a bucket of the same hash lets it pass. *)
Theorem challenge_expires g a issued now : clock_ok issued -> clock_ok now ->
  issued + 120 * SECOND <= now -> Verify g now a (Generate g issued a) = true ->
  exists b, CurrentBucket issued < b <= CurrentBucket now /\ ComputeFor g a b = ComputeFor g a (CurrentBucket issued).
Proof.
  intros Hi Hn Hw H. assert (Hb : CurrentBucket issued + 1 < CurrentBucket now).
  { rewrite !CurrentBucket_value by done. change (60 * SECOND) with 60000000000. change (120 * SECOND) with 120000000000 in Hw. unfold clock_ok in *. zdm. }
  apply Verify_iff in H as [E|[_ E]]; unfold Generate in E; [exists (CurrentBucket now)|exists (CurrentBucket now - 1)];
    (split; [lia|symmetry; exact E]).
Qed.

(** Two windows on, a challenge of a node whose secret is the paper's key is refused. *)
Example challenge_life :
  let g := mk_chal (map Z.of_nat (seq 0 16)) true in
  let a := mk_sin6 10 0x3930 (replicate 16 7) in
  Verify g (119 * SECOND) a (Generate g (59 * SECOND) a) = true /\ Verify g (120 * SECOND) a (Generate g (59 * SECOND) a) = false /\
  Verify g (59 * SECOND) (mk_sin6 10 0x3931 (replicate 16 7)) (Generate g (59 * SECOND) a) = false.
Proof. by vm_compute. Qed.
