(* ===== verification/Certificate.v ===== *)
(** * Certificates: [crypto/certificate.cpp] and [crypto/identity.cpp]

    The pinned certificate, its bytes, and what of an identity involves no key
    agreement: its file and the certificate it is published as.

    Proved: a certificate is written in sixty-five bytes and read back from them,
    whatever follows; a buffer too short, or another version, is refused and a failed
    write changes nothing; an identity's file is its secret and its tag. *)

From S2P Require Import Prelude Errors Bytes Crypto.

(** ** Definitions *)

Definition IDENTITY_TAG_SIZE : Z := 32.
Definition VERSION_PINNED : Z := 1.
Definition PINNED_SIZE : Z := 1 + KEY_SIZE + IDENTITY_TAG_SIZE.
Definition FILE_SIZE : Z := KEY_SIZE + IDENTITY_TAG_SIZE.

Record Certificate := mk_cert { cert_version : Z; subjectKey : list Z; identityTag : list Z }.
#[export] Instance Certificate_inhabited : Inhabited Certificate := populate (mk_cert VERSION_PINNED (replicate 32 0) (replicate 32 0)).
#[export] Instance Certificate_eq_dec : EqDecision Certificate.
Proof. solve_decision. Defined.

Definition cert_ok (c : Certificate) : Prop :=
  is_byte (cert_version c) /\ zlen (subjectKey c) = KEY_SIZE /\ zlen (identityTag c) = IDENTITY_TAG_SIZE /\
  Forall is_byte (subjectKey c) /\ Forall is_byte (identityTag c).

(** [a && b && c] over one writer: a step that fails leaves what the ones before wrote. *)
Fixpoint write_fields (w : BytesWriter) (fs : list field) : bool * list Z :=
  match fs with
  | [] => (true, wr_buf w)
  | f :: fs => match put_field w f with None => (false, wr_buf w) | Some w => write_fields w fs end
  end.

Definition Certificate_Serialize (c : Certificate) (out : list Z) (cap : Z) : bool * list Z :=
  if cap <? PINNED_SIZE then (false, out)
  else write_fields {| wr_buf := out; wr_p := 0; wr_r := cap; wr_written := 0 |}
         [FU8 (cert_version c); FBytes (subjectKey c); FBytes (identityTag c)].

Definition Certificate_Parse (input : list Z) (len : Z) : Error + Certificate :=
  match TakeU8 {| rd_buf := input; rd_p := 0; rd_r := len |} with
  | None => inl Malformed
  | Some (ver, r) =>
      if negb (ver =? VERSION_PINNED) then inl Malformed
      else match TakeBytes r KEY_SIZE with
           | None => inl Malformed
           | Some (key, r) =>
               match TakeBytes r IDENTITY_TAG_SIZE with
               | None => inl Malformed
               | Some (tag, r) => inr (mk_cert ver key tag)
               end
           end
  end.

(** *** Identities *)

Record Identity := mk_identity { secretKey : list Z; publicKey : list Z; id_tag : list Z }.

Definition ToCertificate (i : Identity) : Certificate := mk_cert VERSION_PINNED (publicKey i) (id_tag i).

Definition Identity_Wipe (i : Identity) : Identity := mk_identity (replicate (length (secretKey i)) 0) (publicKey i) (id_tag i).

Definition Identity_Serialize (i : Identity) (out : list Z) (cap : Z) : bool * list Z :=
  if cap <? FILE_SIZE then (false, out)
  else write_fields {| wr_buf := out; wr_p := 0; wr_r := cap; wr_written := 0 |} [FBytes (secretKey i); FBytes (id_tag i)].

(** ** Writing *)

Lemma write_fields_all w fs w' : put_all w fs = Some w' -> write_fields w fs = (true, wr_buf w').
Proof.
  revert w. induction fs as [|f fs IH]; intros w; cbn [put_all write_fields]; [by intros [= ->]|].
  destruct (put_field w f) as [w1|]; [apply IH|done].
Qed.

Lemma put_all_fits w fs : wr_wf w -> zlen (fields_wire fs) <= wr_r w -> exists w', put_all w fs = Some w'.
Proof.
  revert w. induction fs as [|f fs IH]; intros w Hw Hz; cbn [put_all]; [by eexists|].
  rewrite fields_wire_cons, zlen_app in Hz. rewrite put_field_spec by done. pose proof (zlen_nonneg (fields_wire fs)).
  destruct (Z.ltb_spec (wr_r w) (zlen (field_wire f))); [lia|]. apply IH; [by apply put_result_wf|]. cbn. lia.
Qed.

(** Fields that fit are written whole, at the start, and nothing past them changes. *)
Lemma write_fields_fits out cap fs : zlen (fields_wire fs) <= cap <= zlen out ->
  write_fields {| wr_buf := out; wr_p := 0; wr_r := cap; wr_written := 0 |} fs = (true, fields_wire fs ++ drop (length (fields_wire fs)) out).
Proof.
  intros H. set (w := {| wr_buf := out |}). assert (Hw : wr_wf w) by (unfold wr_wf; cbn; pose proof (zlen_nonneg (fields_wire fs)); lia).
  destruct (put_all_fits w fs Hw ltac:(cbn; lia)) as [w' E]. rewrite (write_fields_all _ _ _ E). f_equal.
  by destruct (put_all_spec w fs w' Hw E) as (_&->&_).
Qed.

Definition cert_wire (c : Certificate) : list Z := cert_version c :: subjectKey c ++ identityTag c.

(** Serialising answers whether the buffer has sixty-five bytes, writes exactly those,
    and changes nothing when it fails. *)
Theorem Certificate_Serialize_exact c out cap : cert_ok c -> cap <= zlen out ->
  Certificate_Serialize c out cap = if cap <? PINNED_SIZE then (false, out) else (true, cert_wire c ++ drop 65 out).
Proof.
  intros (_ & Hk & Ht & _) Hc. unfold Certificate_Serialize. destruct (Z.ltb_spec cap PINNED_SIZE); [done|].
  unfold PINNED_SIZE, KEY_SIZE, IDENTITY_TAG_SIZE, zlen in *.
  assert (E : fields_wire [FU8 (cert_version c); FBytes (subjectKey c); FBytes (identityTag c)] = cert_wire c).
  { unfold fields_wire, cert_wire. cbn. by rewrite app_nil_r. }
  assert (El : length (cert_wire c) = 65%nat) by (unfold cert_wire; cbn; rewrite length_app; lia).
  rewrite write_fields_fits by (rewrite E; unfold zlen; lia). by rewrite E, El.
Qed.

Lemma region_between (a b : list Z) p n : p = zlen a -> n = zlen b -> forall rest, region (a ++ b ++ rest) p n = b.
Proof. intros -> -> rest. unfold region, zlen. rewrite !Nat2Z.id, drop_app_length. apply take_app_length. Qed.

(** What was written is read back, whatever follows it; less than sixty-five bytes, or
    another version, is refused. *)
Theorem certificate_roundtrip c rest : cert_ok c -> cert_version c = VERSION_PINNED ->
  Certificate_Parse (cert_wire c ++ rest) (zlen (cert_wire c ++ rest)) = inr c /\
  (forall input len, len < PINNED_SIZE -> Certificate_Parse input len = inl Malformed) /\
  (forall v tail len, v <> VERSION_PINNED -> Certificate_Parse (v :: tail) len = inl Malformed).
Proof.
  intros (_ & Hk & Ht & _) Hv. destruct c as [v key tag]. cbn [cert_version subjectKey identityTag] in *. subst v. split_and!.
  - unfold Certificate_Parse, TakeU8, TakeBytes, rd_adv, rd_at, cert_wire. cbn [rd_r rd_buf rd_p cert_version subjectKey identityTag].
    assert (Hz : zlen ((VERSION_PINNED :: key ++ tag) ++ rest) = 65 + zlen rest).
    { unfold KEY_SIZE, IDENTITY_TAG_SIZE in *. rewrite zlen_app. unfold zlen in *. cbn. rewrite length_app. lia. }
    rewrite Hz. pose proof (zlen_nonneg rest). unfold KEY_SIZE, IDENTITY_TAG_SIZE in *.
    destruct (Z.ltb_spec (65 + zlen rest) 1); [lia|]. change (((VERSION_PINNED :: key ++ tag) ++ rest).[0 + 0]) with VERSION_PINNED.
    cbn [negb Z.eqb rd_r rd_buf rd_p]. rewrite Z.eqb_refl. cbn [negb rd_r rd_buf rd_p]. destruct (Z.ltb_spec (65 + zlen rest - 1) 32); [lia|]. cbn [rd_r rd_buf rd_p]. destruct (Z.ltb_spec (65 + zlen rest - 1 - 32) 32); [lia|].
    rewrite <- app_comm_cons, <- app_assoc. change (VERSION_PINNED :: key ++ tag ++ rest) with ([VERSION_PINNED] ++ key ++ tag ++ rest).
    rewrite (region_between [VERSION_PINNED] key) by (done || lia). do 3 f_equal. rewrite (app_assoc [VERSION_PINNED] key).
    apply region_between; [rewrite zlen_app; change (zlen [VERSION_PINNED]) with 1; lia|lia].
  - intros input len Hl. unfold Certificate_Parse, TakeU8, TakeBytes, PINNED_SIZE, KEY_SIZE, IDENTITY_TAG_SIZE in *. cbn [rd_r rd_adv].
    repeat (case_match; simplify_eq; try done); cbn in *; lia.
  - intros v tail len Hne. unfold Certificate_Parse, TakeU8. cbn [rd_r]. destruct (_ <? 1); [done|].
    change (rd_at _ 0) with v. by destruct (Z.eqb_spec v VERSION_PINNED).
Qed.

(** The file of an identity is its secret key and its tag, and the certificate it is
    published as names its public key under the pinned version. *)
Theorem Identity_Serialize_exact i out cap : zlen (secretKey i) = KEY_SIZE -> zlen (id_tag i) = IDENTITY_TAG_SIZE -> cap <= zlen out ->
  Identity_Serialize i out cap = if cap <? FILE_SIZE then (false, out) else (true, secretKey i ++ id_tag i ++ drop 64 out).
Proof.
  intros Hk Ht Hc. unfold Identity_Serialize. destruct (Z.ltb_spec cap FILE_SIZE); [done|].
  unfold FILE_SIZE, KEY_SIZE, IDENTITY_TAG_SIZE, zlen in *.
  assert (E : fields_wire [FBytes (secretKey i); FBytes (id_tag i)] = secretKey i ++ id_tag i).
  { unfold fields_wire. cbn. by rewrite app_nil_r. }
  rewrite write_fields_fits by (rewrite E; unfold zlen; rewrite length_app; lia). rewrite E, length_app, <- app_assoc.
  by replace (length (secretKey i) + length (id_tag i))%nat with 64%nat by lia.
Qed.

Example certificate_bytes :
  let c := mk_cert 1 (replicate 32 3) (replicate 32 5) in
  let '(ok, out) := Certificate_Serialize c (replicate 70 0) 70 in
  ok = true /\ Certificate_Parse out 70 = inr c /\ Certificate_Parse out 64 = inl Malformed /\ Certificate_Serialize c (replicate 64 0) 64 = (false, replicate 64 0).
Proof. by vm_compute. Qed.
