(* ===== verification/CertStore.v ===== *)
(** * The certificate store: [crypto/cert_store.cpp]

    Trusted certificates in pool slots, found by identity tag through one Robin Hood
    index; written against the allocator's interface like the peer table.  The source repeats
    the peer table's index helpers in the bodies of its operations; here they are those
    of [RobinHood] and [PeerTable].  A call runs with no other in progress: an [Add] has the
    writer's lock throughout, and a [Check] sees the version stand still.

    Proved: any run of additions terminates and leaves the store a map from tags to
    the last certificate added for each; an addition fails only for a new tag in a full
    store, and then changes nothing; a check answers from that map alone. *)

From stdpp Require Import gmap.
From S2P Require Import Prelude CommonMath Errors RobinHood Keys SlotPool Words Crypto Certificate Peer PeerTable PeerIndex PeerSpec.

(** ** Definitions *)

Inductive Match_ := Match_NotFound | Match_Trusted | Match_Mismatch.

Definition CertStore_HashTag (tag : list Z) : Z := let h := le_value (take 8 tag) in if h =? 0 then 1 else h.

Section Definitions.
Context {S : Type} `{!Allocator S}.

(** [certs] are the bytes of the pool's slots. *)
Record CertStore := mk_store {
  st_init : bool; st_index : list (entry (list Z)); st_idxCapacity : Z; st_idxMask : Z;
  certPool : S; certs : list Certificate; st_capacity : Z; st_version : Z; st_count : Z }.
#[global] Instance CertStore_eta : Eta CertStore := fun s =>
  mk_store (st_init s) (st_index s) (st_idxCapacity s) (st_idxMask s) (certPool s) (certs s) (st_capacity s) (st_version s) (st_count s).

(** [Init], with allocations that succeed and a pool made by [mkPool]. *)
Definition CertStore_Init (mkPool : Z -> S) (poolCapacity : Z -> Z) (s : CertStore) (capacity : Z) : Error * CertStore :=
  if capacity =? 0 then (InvalidParam, s)
  else
    let need := need_for capacity in
    if 2 ^ 30 <? need then (InvalidParam, s)
    else
      let cap := NextPowerOfTwo (u32 need) in
      (Ok, mk_store true (replicate (Z.to_nat cap) empty_entry) cap (u32 (cap - 1)) (mkPool capacity)
             (replicate (Z.to_nat (poolCapacity capacity)) inhabitant) capacity 0 0).

Definition CertStore_Shutdown (shut : S -> S) (s : CertStore) : CertStore :=
  mk_store false [] 0 0 (shut (certPool s)) [] 0 0 0.

(** [Add], the writer's probe, and for a new tag the slot and the insertion between an
    odd version and an even one.  [None] is a walk or a wait that does not end. *)
Definition CertStore_Add (hint : Z) (s : CertStore) (cert : Certificate) : option (Error * CertStore) :=
  if negb (st_init s) then Some (NotInitialized, s)
  else
    let h := CertStore_HashTag (identityTag cert) in
    p ← FindPos (st_index s) (st_idxMask s) h (fun e => bool_decide (e_key e = identityTag cert));
    match p with
    | Some pos =>
        let slot := e_idx (st_index s).[pos] in
        Some (Ok, s <| certs := (certs s).[slot <- cert] |>)
    | None =>
        if st_capacity s <=? st_count s then Some (LimitReached, s)
        else
          '(slot, pool) ← al_acquire hint (certPool s);
          let s := s <| certPool := pool |> in
          if slot =? INVALID then Some (LimitReached, s)
          else
            let s := s <| certs := (certs s).[slot <- cert] |> in
            let v := st_version s in
            let s := s <| st_version := u32 (v + 1) |> in
            index ← InsertEntry (st_index s) (st_idxMask s) h slot (identityTag cert);
            let s := s <| st_index := index |> in
            let s := s <| st_version := u32 (v + 2) |> in
            Some (Ok, s <| st_count := u32 (st_count s + 1) |>)
    end.

(** [None] is the answer [false]: another tag of the same hash. *)
Definition ResolveSlot (s : CertStore) (slot : Z) (tag presentedKey : list Z) : option Match_ :=
  let c := (certs s).[slot] in
  if bool_decide (identityTag c = tag)
  then Some (if Equal (subjectKey c) presentedKey (zlen presentedKey) then Match_Trusted else Match_Mismatch)
  else None.

Definition check_probe (s : CertStore) (tag presentedKey : list Z) : Match_ :=
  match Lookup_probe (st_index s) (st_idxMask s) (st_idxCapacity s) (CertStore_HashTag tag)
          (fun slot => match ResolveSlot s slot tag presentedKey with Some _ => true | None => false end) with
  | Some slot => default Match_NotFound (ResolveSlot s slot tag presentedKey)
  | None => Match_NotFound
  end.

(** The optimistic attempts, then the probe under the lock. *)
Fixpoint check_attempts (n : nat) (s : CertStore) (tag presentedKey : list Z) : Match_ :=
  match n with
  | O => check_probe s tag presentedKey
  | Datatypes.S n =>
      let v1 := st_version s in
      if Z.odd v1 then check_attempts n s tag presentedKey
      else
        let m := check_probe s tag presentedKey in
        if st_version s =? v1 then m else check_attempts n s tag presentedKey
  end.

Definition CertStore_Check (s : CertStore) (tag presentedKey : list Z) : Match_ :=
  if negb (st_init s) then Match_NotFound else check_attempts MAX_OPTIMISTIC_ATTEMPTS s tag presentedKey.
End Definitions.
Arguments CertStore : clear implicits.

(** ** The tag as a key *)

Lemma CertStore_HashTag_nonzero tag : CertStore_HashTag tag <> 0.
Proof. unfold CertStore_HashTag. cbv zeta. by destruct (Z.eqb_spec (le_value (take 8 tag)) 0). Qed.

#[export] Program Instance tag_key : TableKey (list Z) := {|
  key_eqb a b := bool_decide (a = b); key_hash := CertStore_HashTag; key_ok _ := True; key_hash_nonzero := CertStore_HashTag_nonzero |}.
Next Obligation. intros a _. by apply bool_decide_eq_true. Qed.
Next Obligation. intros a b. apply bool_decide_ext. naive_solver. Qed.
Next Obligation. intros a b c ->%bool_decide_eq_true. done. Qed.
Next Obligation. by intros a b ->%bool_decide_eq_true. Qed.

(** ** What the store means *)

Section Store.
Context {S : Type} `{!Allocator S} (k n : Z) (Hk : 0 <= k <= 30).
Implicit Types (s : CertStore S) (slots : list Z) (m : gmap (list Z) Certificate).

Definition tag_of s (slot : Z) : list Z := identityTag (certs s).[slot].

Record store_ok s slots m : Prop := {
  so_init : st_init s = true;
  so_mask : st_idxMask s = NB k - 1; so_cap : st_idxCapacity s = NB k;
  so_load : st_capacity s < NB k; so_room : st_capacity s <= n; so_certs : zlen (certs s) = n;
  so_index : represents k (st_index s) (tag_of s) slots;
  so_owns : al_owns (certPool s) n slots;
  so_count : st_count s = zlen slots; so_size : zlen slots = Z.of_nat (size m);
  so_full : zlen slots <= st_capacity s;
  so_even : Z.odd (st_version s) = false;
  so_ok : forall slot, slot ∈ slots -> cert_ok (certs s).[slot];
  so_map : forall tag c, m !! tag = Some c <-> exists slot, slot ∈ slots /\ (certs s).[slot] = c /\ identityTag c = tag }.

Definition trusted s m : Prop := exists slots, store_ok s slots m.
Lemma so_find s slots m tag : store_ok s slots m ->
  exists r, FindPos (st_index s) (st_idxMask s) (CertStore_HashTag tag) (fun e => bool_decide (e_key e = tag)) = Some r /\
    match r with
    | Some p => exists slot, slot ∈ slots /\ e_idx (st_index s).[p] = slot /\ m !! tag = Some (certs s).[slot] /\ tag_of s slot = tag
    | None => m !! tag = None
    end.
Proof using Hk.
  intros HS. destruct (represents_find k Hk _ _ _ tag (so_index _ _ _ HS)) as (r&E&Hr). rewrite (so_mask _ _ _ HS). exists r. split; [exact E|].
  destruct r as [p|].
  - destruct Hr as (slot&Hs&[_ Hb]&Et%bool_decide_eq_true). exists slot. rewrite Hb. split_and!; try done. apply (so_map _ _ _ HS). by exists slot.
  - apply eq_None_not_Some. intros [c Hc]. apply (so_map _ _ _ HS) in Hc as (slot&Hs&Ec&Et).
    pose proof (Hr slot Hs) as Hn. cbn in Hn. apply bool_decide_eq_false in Hn. apply Hn. unfold tag_of. by rewrite Ec.
Qed.

Lemma so_range s slots m slot : store_ok s slots m -> slot ∈ slots -> 0 <= slot < n.
Proof. intros HS Hin. destruct (al_held _ _ _ (so_owns _ _ _ HS)) as (_&_&HF&_). rewrite Forall_forall in HF. by apply HF. Qed.

(** The tag is there: the certificate is replaced where it is. *)
Lemma store_ok_replace s slots m slot cert : store_ok s slots m -> slot ∈ slots -> tag_of s slot = identityTag cert -> cert_ok cert ->
  store_ok (s <| certs := (certs s).[slot <- cert] |>) slots (<[identityTag cert := cert]> m).
Proof.
  intros HS Hin Ht Hok. pose proof (so_range _ _ _ _ HS Hin) as Hr. pose proof (so_certs _ _ _ HS) as Hz.
  assert (Hget : forall x, x ∈ slots -> (certs s).[slot <- cert].[x] = if decide (x = slot) then cert else (certs s).[x]).
  { intros x Hx. pose proof (so_range _ _ _ _ HS Hx). case_decide as E; [subst x; apply arr_get_set_eq; lia|apply arr_get_set_ne; lia || done]. }
  assert (Htag : forall x, x ∈ slots -> tag_of s x = identityTag ((certs s).[slot <- cert].[x])).
  { intros x Hx. rewrite Hget by done. case_decide as E; [by subst x|done]. }
  destruct HS. split; try done; cbn.
  - by rewrite zlen_set.
  - by apply (represents_ext k _ (tag_of s)).
  - rewrite map_size_insert. rewrite (proj2 (so_map0 (identityTag cert) ((certs s).[slot]))); [done|]. by exists slot.
  - intros x Hx. rewrite Hget by done. case_decide; [done|by apply so_ok0].
  - intros tag c. rewrite lookup_insert_Some, so_map0. split.
    + intros [[<- <-]|[Hne (x&Hx&<-&Et)]]; [exists slot; rewrite Hget by done; by rewrite decide_True|].
      exists x. rewrite Hget by done. case_decide as E; [|done]. subst x. unfold tag_of in Ht. congruence.
    + intros (x&Hx&Ec&Et). rewrite Hget in Ec by done. case_decide as E; [left; by subst|]. right. split; [|by exists x].
      intros E'. apply E. apply (re_inj _ _ _ _ so_index0); [done..|]. apply bool_decide_eq_true. unfold tag_of in *. congruence.
Qed.

(** The tag is new: a slot nobody holds gets it. *)
Lemma store_ok_insert s slots m slot cert pool index v :
  store_ok s slots m -> slot ∉ slots -> 0 <= slot < n -> al_owns pool n (slot :: slots) -> m !! identityTag cert = None -> cert_ok cert ->
  zlen slots < st_capacity s -> Z.odd v = false -> st_count s + 1 < 2 ^ 32 ->
  represents k index (tag_of (s <| certs := (certs s).[slot <- cert] |>)) (slot :: slots) ->
  store_ok (s <| certPool := pool |> <| certs := (certs s).[slot <- cert] |> <| st_version := v |> <| st_index := index |>
              <| st_count := u32 (st_count s + 1) |>) (slot :: slots) (<[identityTag cert := cert]> m).
Proof.
  intros HS Hnew Hr Hown Hm Hok Hlt Hv Hc Hrep. pose proof (so_certs _ _ _ HS) as Hz.
  assert (Hget : forall x, x ∈ slots -> (certs s).[slot <- cert].[x] = (certs s).[x]).
  { intros x Hx. pose proof (so_range _ _ _ _ HS Hx). apply arr_get_set_ne; [lia|lia|]. by intros ->. }
  assert (Heq : (certs s).[slot <- cert].[slot] = cert) by (apply arr_get_set_eq; lia).
  destruct HS. split; try done; cbn.
  - by rewrite zlen_set.
  - pose proof (zlen_nonneg slots). rewrite u32_small by lia. unfold zlen in *. cbn [length]. lia.
  - rewrite map_size_insert, Hm. unfold zlen in *. cbn [length]. lia.
  - unfold zlen in *. cbn [length]. lia.
  - intros x [->|Hx]%elem_of_cons; [by rewrite Heq|]. rewrite Hget by done. by apply so_ok0.
  - intros tag c. rewrite lookup_insert_Some, so_map0. split.
    + intros [[<- <-]|[Hne (x&Hx&<-&Et)]]; [exists slot; rewrite Heq; split; [by left|done]|]. exists x. rewrite Hget by done. split; [by right|done].
    + intros (x&[->|Hx]%elem_of_cons&Ec&Et); [left; rewrite Heq in Ec; by subst|]. rewrite Hget in Ec by done. right.
      split; [|by exists x]. intros E'. rewrite (proj2 (so_map0 _ c)) in Hm; [done|]. exists x. split_and!; [done|done|congruence].
Qed.
(** Adding, on every outcome.  It returns; a tag that is there gets the new certificate, a new
    tag gets a slot while there is room, and only a new tag in a full store is refused,
    which changes nothing. *)
Theorem Add_correct s m hint cert : trusted s m -> cert_ok cert ->
  exists e s', CertStore_Add hint s cert = Some (e, s') /\
    match m !! identityTag cert with
    | Some _ => e = Ok /\ trusted s' (<[identityTag cert := cert]> m)
    | None => if st_capacity s <=? Z.of_nat (size m) then e = LimitReached /\ s' = s
              else e = Ok /\ trusted s' (<[identityTag cert := cert]> m)
    end /\ st_capacity s' = st_capacity s.
Proof using Hk.
  intros [slots HS] Hok. unfold CertStore_Add. rewrite (so_init _ _ _ HS). cbn [negb].
  destruct (so_find s slots m (identityTag cert) HS) as (r&->&Hr). cbn [mbind option_bind].
  destruct r as [p|].
  { destruct Hr as (slot&Hs&Ei&->&Et). rewrite Ei. eexists _, _. split; [done|]. split; [|done]. split; [done|]. exists slots. by apply store_ok_replace. }
  rewrite Hr, (so_count _ _ _ HS), (so_size _ _ _ HS). destruct (Z.leb_spec (st_capacity s) (Z.of_nat (size m))); [by eexists _, _|].
  rewrite <- (so_size _ _ _ HS) in *. destruct (N_pos k Hk) as [_ HNB]. pose proof (so_load _ _ _ HS) as Hl.
  destruct (al_acquire_ok _ _ _ hint (so_owns _ _ _ HS)) as [(_&slot&pool&->&Hnew&Hrange&Hown)|(Hfull&_)]; [|pose proof (so_room _ _ _ HS); lia].
  cbn [mbind option_bind]. destruct (al_held _ _ _ Hown) as (_&_&_&Hn). destruct (Z.eqb_spec slot INVALID) as [->|_]; [unfold INVALID, UINT32_MAX in *; lia|].
  cbn -[InsertEntry u32]. pose proof (so_certs _ _ _ HS) as Hz. set (u := s <| certs := (certs s).[slot <- cert] |>).
  assert (Hu : tag_of u slot = identityTag cert) by (unfold tag_of, u; cbn; by rewrite arr_get_set_eq by lia).
  assert (Hsame : forall x, x ∈ slots -> tag_of u x = tag_of s x).
  { intros x Hx. pose proof (so_range _ _ _ _ HS Hx). unfold tag_of, u. cbn. rewrite arr_get_set_ne; [done|lia|lia|by intros ->]. }
  destruct (represents_insert k Hk (st_index s) (tag_of u) slots slot (identityTag cert)) as (index&E&Hrep).
  { apply (represents_ext k _ (tag_of s)); [by intros; rewrite Hsame|apply (so_index _ _ _ HS)]. }
  { lia. }
  { done. }
  { intros x Hx. rewrite Hsame by done. apply bool_decide_eq_false. intros Ex. rewrite (proj2 (so_map _ _ _ HS _ ((certs s).[x]))) in Hr; [done|]. by exists x. }
  change (key_hash (identityTag cert)) with (CertStore_HashTag (identityTag cert)) in E. rewrite <- (so_mask _ _ _ HS) in E. rewrite E. cbn [mbind option_bind]. eexists _, _. split; [done|]. split; [|done]. split; [done|]. exists (slot :: slots).
  pose proof (so_even _ _ _ HS) as He. pose proof (so_count _ _ _ HS).
  assert (Hv : Z.odd (u32 (st_version s + 2)) = false).
  { rewrite <- Z.bit0_odd. unfold u32. by rewrite Z.mod_pow2_bits_low, Z.bit0_odd, Z.odd_add, He by lia. }
  refine (store_ok_insert s slots m slot cert pool index _ HS Hnew Hrange Hown Hr Hok _ Hv _ Hrep); lia.
Qed.

(** Checking a tag and a key: the tag must be there, and its key the one presented. *)
Theorem Check_correct s m tag key : trusted s m -> Forall is_byte key -> zlen key = Crypto.KEY_SIZE ->
  CertStore_Check s tag key =
    match m !! tag with None => Match_NotFound | Some c => if decide (subjectKey c = key) then Match_Trusted else Match_Mismatch end.
Proof using Hk.
  intros [slots HS] Hkb Hkz. unfold CertStore_Check. rewrite (so_init _ _ _ HS). cbn [negb check_attempts MAX_OPTIMISTIC_ATTEMPTS].
  rewrite (so_even _ _ _ HS), Z.eqb_refl. unfold check_probe. rewrite (so_mask _ _ _ HS), (so_cap _ _ _ HS).
  pose proof (represents_lookup k Hk (st_index s) (tag_of s) slots tag
    (fun slot => match ResolveSlot s slot tag key with Some _ => true | None => false end) (so_index _ _ _ HS)) as HL.
  change (key_hash tag) with (CertStore_HashTag tag) in HL. destruct (Lookup_probe _ _ _ _ _) as [slot|].
  - destruct HL as [Hs Ht%bool_decide_eq_true]; [by intros x _; unfold ResolveSlot, tag_of; cbn; case_bool_decide|].
    assert (Hm : m !! tag = Some (certs s).[slot]) by (apply (so_map _ _ _ HS); by exists slot). rewrite Hm.
    unfold ResolveSlot. rewrite bool_decide_eq_true_2 by done. cbn [default]. destruct (so_ok _ _ _ HS slot Hs) as (_&Hl&_&Hb&_).
    assert (He : Equal (subjectKey (certs s).[slot]) key (zlen key) = bool_decide (subjectKey (certs s).[slot] = key)) 
      by (unfold Crypto.KEY_SIZE, zlen in *; rewrite Equal_iff by (done || (unfold zlen; lia)); by rewrite !take_ge by lia).
    rewrite He. by case_bool_decide; case_decide.
  - rewrite (proj2 (eq_None_not_Some _)); [done|]. intros [c Hc]. apply (so_map _ _ _ HS) in Hc as (slot&Hs&Ec&Et).
    assert (HF : key_eqb (tag_of s slot) tag = false) by (apply HL; [by intros x _; unfold ResolveSlot, tag_of; cbn; case_bool_decide|done]).
    cbn in HF. apply bool_decide_eq_false in HF. apply HF. unfold tag_of. by rewrite Ec.
Qed.
End Store.

(** ** Histories *)

Section Histories.
Context {S : Type} `{!Allocator S} (mkPool : Z -> S) (poolCapacity : Z -> Z).
Implicit Types (s : CertStore S).

Fixpoint add_all (s : CertStore S) (l : list (Z * Certificate)) : option (list Error * CertStore S) :=
  match l with
  | [] => Some ([], s)
  | (hint, cert) :: l => '(e, s) ← CertStore_Add hint s cert; '(es, s) ← add_all s l; Some (e :: es, s)
  end.

(** What a map of at most [cap] tags becomes, and what each addition answers. *)
Fixpoint map_adds (cap : Z) (m : gmap (list Z) Certificate) (l : list Certificate) : list Error * gmap (list Z) Certificate :=
  match l with
  | [] => ([], m)
  | cert :: l =>
      let refused := bool_decide (m !! identityTag cert = None) && (cap <=? Z.of_nat (size m)) in
      let '(es, m) := map_adds cap (if refused then m else <[identityTag cert := cert]> m) l in
      ((if refused then LimitReached else Ok) :: es, m)
  end.

Lemma add_all_map k n (Hk : 0 <= k <= 30) l : Forall (fun hc => cert_ok hc.2) l -> forall s m, trusted k n s m ->
  exists s', add_all s l = Some ((map_adds (st_capacity s) m (map snd l)).1, s') /\
    trusted k n s' (map_adds (st_capacity s) m (map snd l)).2.
Proof using.
  induction 1 as [|[hint cert] l Hok _ IH]; intros s m Ht; [by exists s|]. cbn [add_all map snd map_adds].
  destruct (Add_correct k n Hk s m hint cert Ht Hok) as (e&s'&->&He&Hcap). cbn [mbind option_bind]. rewrite <- Hcap.
  destruct (m !! identityTag cert) eqn:Em; [rewrite bool_decide_eq_false_2 by done|rewrite bool_decide_eq_true_2 by done]; cbn [andb].
  - destruct He as [-> Ht']. destruct (IH s' _ Ht') as (s''&->&Hs). cbn [mbind option_bind]. destruct (map_adds _ _ _) as [es m']. by exists s''.
  - rewrite Hcap in *. destruct (st_capacity s <=? _); destruct He as [-> Ht'];
      [subst s'; destruct (IH s m Ht) as (s''&->&Hs)|destruct (IH s' _ Ht') as (s''&->&Hs)]; cbn [mbind option_bind]; rewrite <- ?Hcap in *;
      destruct (map_adds _ _ _) as [es m']; rewrite ?Hcap in *; by exists s''.
Qed.

(** From [Init] on, whatever is added and in whatever order: the additions return, they
    answer as additions to a map of at most [capacity] tags, and a check then answers
    from that map. *)
Theorem store_is_a_map (s0 : CertStore S) capacity (l : list (Z * Certificate)) tag key :
  is_u32 capacity -> al_owns (mkPool capacity) (poolCapacity capacity) [] -> capacity <= poolCapacity capacity ->
  (CertStore_Init mkPool poolCapacity s0 capacity).1 = Ok -> Forall (fun hc => cert_ok hc.2) l -> Forall is_byte key -> zlen key = Crypto.KEY_SIZE ->
  let '(answers, m) := map_adds capacity ∅ (map snd l) in
  exists s, add_all (CertStore_Init mkPool poolCapacity s0 capacity).2 l = Some (answers, s) /\
    CertStore_Check s tag key =
      match m !! tag with None => Match_NotFound | Some c => if decide (subjectKey c = key) then Match_Trusted else Match_Mismatch end.
Proof using.
  intros Hc Hpool Hcap HOk Hl Hkb Hkz. revert HOk. unfold CertStore_Init. destruct (Z.eqb_spec capacity 0); [done|].
  destruct (Z.ltb_spec (2 ^ 30) (need_for capacity)) as [|Hn]; [done|]. intros _. cbn [snd]. set (s1 := mk_store _ _ _ _ _ _ _ _ _).
  pose proof (need_for_exceeds capacity ltac:(lia)). destruct (bucket_bits (need_for capacity) ltac:(lia)) as (k&Hk&Ek&Hke).
  destruct (N_pos k Hk). assert (Ht : trusted k (poolCapacity capacity) s1 ∅).
  { exists []. unfold s1. rewrite (u32_small (need_for capacity)), Ek, u32_small by lia. split; try done; cbn; try lia.
    - by rewrite zlen_replicate by lia.
    - apply (represents_empty k Hk); [by rewrite zlen_replicate by lia|]. intros p Hp. by rewrite arr_get_replicate.
    - change (0 <= capacity). lia.
    - intros slot Hs. by apply not_elem_of_nil in Hs.
    - intros tg c. rewrite lookup_empty. split; [done|]. intros (slot&Hs&_). by apply not_elem_of_nil in Hs. }
  destruct (add_all_map k _ Hk l Hl s1 ∅ Ht) as (s&E&Hs). change (st_capacity s1) with capacity in *.
  destruct (map_adds capacity ∅ (map snd l)) as [answers m]. exists s. split; [done|]. by apply (Check_correct k (poolCapacity capacity) Hk).
Qed.
End Histories.

(** A store of one: the second tag is refused, the first one's key can be changed. *)
Definition sample_store : CertStore SlotPool :=
  (CertStore_Init (fun c => Pool_Init c 128) NextPowerOfTwo (CertStore_Shutdown Pool_Shutdown (mk_store false [] 0 0 pool0 [] 0 0 0)) 1).2.
Definition sample_cert (k t : Z) : Certificate := mk_cert VERSION_PINNED (replicate 32 k) (replicate 32 t).
Example sample_adds :
  match add_all sample_store [(0, sample_cert 1 5); (0, sample_cert 2 6); (0, sample_cert 3 5)] with
  | None => False
  | Some (answers, s) =>
      answers = [Ok; LimitReached; Ok] /\ CertStore_Check s (replicate 32 5) (replicate 32 3) = Match_Trusted /\
      CertStore_Check s (replicate 32 5) (replicate 32 1) = Match_Mismatch /\ CertStore_Check s (replicate 32 6) (replicate 32 2) = Match_NotFound
  end.
Proof. by vm_compute. Qed.
