(* ===== verification/PeerHandle.v ===== *)
(** * Handles on peers: [peer/peer_handle.cpp]

    A handle shares a peer's slot: it owns a lock on it and never the slot.  It comes
    from the table read-locked, is upgraded and downgraded, moved, and unlocks when it
    dies.  The operations thread the pool that holds the lock words; [None] is a lock
    that is waited for.  An upgrade gives the read lock up before it takes the write
    lock; it is one operation here, taken when nobody else is in.

    Proved of any number of handles, whatever is done with them: a valid handle has its
    lock and its pointer; each lock word counts the handles on its slot, many readers or one
    writer; so the table gets a slot's write lock, and may free the peer, exactly when
    no handle is on it. *)

From S2P Require Import Prelude CommonMath Fifo SlotPool Errors PacketHandle.

(** ** Definitions *)

Record PeerHandle := mk_peer_handle { peerR_ : option Z; peerW_ : option Z; ph_idx : Z; ph_lm : LockMode; ph_failReason : Error; ph_valid : bool }.
#[export] Instance PeerHandle_eta : Eta PeerHandle := fun h => mk_peer_handle (peerR_ h) (peerW_ h) (ph_idx h) (ph_lm h) (ph_failReason h) (ph_valid h).
Implicit Types (h o : PeerHandle) (sp : SlotPool) (hs : list PeerHandle).

Definition PeerHandle_Invalid : PeerHandle := mk_peer_handle None None INVALID NONE InvalidState false.
(** Made by the table, which holds the read lock already. *)
Definition PeerHandle_of (index : Z) : PeerHandle := mk_peer_handle (Some index) None index READ Ok true.
Definition PeerHandle_failed (failReason : Error) : PeerHandle := mk_peer_handle None None INVALID NONE failReason false.

Definition PeerHandle_Read h sp : option (option Z * PeerHandle * SlotPool) :=
  if negb (ph_valid h) then Some (None, h, sp)
  else
    match ph_lm h with
    | READ => Some (peerR_ h, h, sp)
    | WRITE =>
        let h := h <| peerR_ := peerW_ h |> in
        let h := h <| peerW_ := None |> in
        let h := h <| ph_lm := READ |> in
        Some (peerR_ h, h, DowngradeLock sp (ph_idx h))
    | NONE =>
        sp ← ReadLock sp (ph_idx h);
        let h := h <| peerR_ := Some (ph_idx h) |> in
        let h := h <| ph_lm := READ |> in
        Some (peerR_ h, h, sp)
    end.

Definition PeerHandle_Write h sp : option (option Z * PeerHandle * SlotPool) :=
  if negb (ph_valid h) then Some (None, h, sp)
  else
    match ph_lm h with
    | WRITE => Some (peerW_ h, h, sp)
    | _ =>
        let '(h, sp) := if bool_decide (ph_lm h = READ) then (h <| peerR_ := None |>, UnlockRead sp (ph_idx h)) else (h, sp) in
        sp ← WriteLock sp (ph_idx h);
        let h := h <| peerW_ := Some (ph_idx h) |> in
        let h := h <| ph_lm := WRITE |> in
        Some (peerW_ h, h, sp)
    end.

Definition PeerHandle_Failed h : bool := negb (bool_decide (ph_failReason h = Ok)).
Definition PeerHandle_FailReason h : Error := ph_failReason h.
Definition PeerHandle_GetSlotIndex h : Z := ph_idx h.

Definition PeerHandle_Invalidate h : PeerHandle := h <| ph_valid := false |> <| ph_lm := NONE |> <| peerR_ := None |> <| peerW_ := None |>.

Definition PeerHandle_Unlock h sp : PeerHandle * SlotPool :=
  (PeerHandle_Invalidate h, if ph_valid h && negb (ph_idx h =? INVALID) then unlock (ph_lm h) (ph_idx h) sp else sp).

(** The new [*this] and the new [o]. *)
Definition PeerHandle_Steal (self : bool) h o sp : PeerHandle * PeerHandle * SlotPool :=
  if self then (h, o, sp)
  else
    let '(h, sp) := PeerHandle_Unlock h sp in
    (mk_peer_handle (peerR_ o) (peerW_ o) (ph_idx o) (ph_lm o) (ph_failReason o) (ph_valid o), PeerHandle_Invalidate o, sp).

(** ** Programs of handles *)

(** The handle variables of the program and the pool. *)
Inductive pstep : list PeerHandle * SlotPool -> list PeerHandle * SlotPool -> Prop :=
| ps_declare hs sp h : ph_valid h = false -> ph_lm h = NONE -> pstep (hs, sp) (h :: hs, sp)
| ps_get hs sp idx sp' : 0 <= idx < zlen (sp_locks sp) -> idx <> INVALID -> ReadLock sp idx = Some sp' -> pstep (hs, sp) (PeerHandle_of idx :: hs, sp')
| ps_read hs sp i h r h' sp' : hs !! i = Some h -> PeerHandle_Read h sp = Some (r, h', sp') -> pstep (hs, sp) (<[i := h']> hs, sp')
| ps_write hs sp i h r h' sp' : hs !! i = Some h -> PeerHandle_Write h sp = Some (r, h', sp') -> pstep (hs, sp) (<[i := h']> hs, sp')
| ps_move hs sp i j h o h' o' sp' : hs !! i = Some h -> hs !! j = Some o -> PeerHandle_Steal (bool_decide (i = j)) h o sp = (h', o', sp') ->
    pstep (hs, sp) (<[j := o']> (<[i := h']> hs), sp')
| ps_die hs sp i h : hs !! i = Some h -> pstep (hs, sp) (<[i := PeerHandle_Invalid]> hs, (PeerHandle_Unlock h sp).2).

Inductive preach (sp0 : SlotPool) : list PeerHandle * SlotPool -> Prop :=
| pr_init : preach sp0 ([], sp0)
| pr_step w w' : preach sp0 w -> pstep w w' -> preach sp0 w'.

(** ** What the words count *)

Definition reads (x : Z) h : Z := Z.b2z (ph_valid h && bool_decide (ph_lm h = READ) && (ph_idx h =? x)).
Definition writes (x : Z) h : Z := Z.b2z (ph_valid h && bool_decide (ph_lm h = WRITE) && (ph_idx h =? x)).
Definition readers hs (x : Z) : Z := zsum (reads x) hs.
Definition writers hs (x : Z) : Z := zsum (writes x) hs.

(** Nobody or readers, and the word is their number; or one writer. *)
Definition word_ok (r w word : Z) : Prop := (w = 0 /\ word = r /\ 0 <= r <= MAX_READERS) \/ (w = 1 /\ r = 0 /\ word = WRITE_LOCKED).

(** A valid handle has a lock, and the pointer that goes with it. *)
Definition locked_ok (len : Z) h : Prop :=
  if ph_valid h then
    0 <= ph_idx h < len /\ ph_idx h <> INVALID /\ ph_failReason h = Ok /\
    ((ph_lm h = READ /\ peerR_ h = Some (ph_idx h)) \/ (ph_lm h = WRITE /\ peerW_ h = Some (ph_idx h)))
  else True.

Record pinv (w : list PeerHandle * SlotPool) : Prop := {
  pi_ok : Forall (locked_ok (zlen (sp_locks w.2))) w.1;
  pi_words : forall x, 0 <= x < zlen (sp_locks w.2) -> word_ok (readers w.1 x) (writers w.1 x) (lock_word w.2 x) }.

Lemma reads_nonneg x h : 0 <= reads x h.
Proof. unfold reads. by destruct (_ && _). Qed.
Lemma writes_nonneg x h : 0 <= writes x h.
Proof. unfold writes. by destruct (_ && _). Qed.

(** One handle changes: the counts change by it, and the others count at least nothing. *)
Lemma counts_insert hs i h h' x : hs !! i = Some h ->
  readers (<[i := h']> hs) x = readers hs x - reads x h + reads x h' /\ writers (<[i := h']> hs) x = writers hs x - writes x h + writes x h' /\
  reads x h <= readers hs x /\ writes x h <= writers hs x.
Proof.
  intros Hi. unfold readers, writers. split_and!; [by apply zsum_insert|by apply zsum_insert| |].
  - pose proof (zsum_insert (reads x) hs i h PeerHandle_Invalid Hi) as E. change (reads x PeerHandle_Invalid) with 0 in E.
    pose proof (zsum_nonneg (reads x) (<[i := PeerHandle_Invalid]> hs) (fun h _ => reads_nonneg x h)). lia.
  - pose proof (zsum_insert (writes x) hs i h PeerHandle_Invalid Hi) as E. change (writes x PeerHandle_Invalid) with 0 in E.
    pose proof (zsum_nonneg (writes x) (<[i := PeerHandle_Invalid]> hs) (fun h _ => writes_nonneg x h)). lia.
Qed.

Lemma idle_counts x h : ph_valid h = false -> reads x h = 0 /\ writes x h = 0.
Proof. intros E. unfold reads, writes. by rewrite E. Qed.

(** Handle [i] becomes [h'] and the words change as the counts do. *)
Lemma pinv_touch hs sp i h h' sp' : pinv (hs, sp) -> hs !! i = Some h -> zlen (sp_locks sp') = zlen (sp_locks sp) ->
  locked_ok (zlen (sp_locks sp)) h' ->
  (forall x, 0 <= x < zlen (sp_locks sp) -> forall r w, reads x h <= r -> writes x h <= w -> word_ok r w (lock_word sp x) ->
     word_ok (r - reads x h + reads x h') (w - writes x h + writes x h') (lock_word sp' x)) ->
  pinv (<[i := h']> hs, sp').
Proof.
  intros [Hok Hw] Hi Hlen Hok' Hx. cbn [fst snd] in *. split; cbn [fst snd]; rewrite Hlen; [by apply Forall_insert|].
  intros x Hr. destruct (counts_insert hs i h h' x Hi) as (->&->&H1&H2). by apply Hx; [done|done|done|apply Hw].
Qed.

(** The counts of a valid handle, by its mode. *)
Lemma valid_counts x h : ph_valid h = true ->
  reads x h = (if ph_idx h =? x then Z.b2z (bool_decide (ph_lm h = READ)) else 0) /\ writes x h = (if ph_idx h =? x then Z.b2z (bool_decide (ph_lm h = WRITE)) else 0).
Proof. intros E. unfold reads, writes. rewrite E. cbn [andb]. by destruct (bool_decide (ph_lm h = READ)), (bool_decide (ph_lm h = WRITE)), (ph_idx h =? x). Qed.

(** A valid handle goes from mode [ph_lm h] to mode [ph_lm h'] on its slot, whose word goes
    along. *)
Lemma pinv_mode hs sp i h h' word : pinv (hs, sp) -> hs !! i = Some h -> ph_valid h = true -> ph_valid h' = true -> ph_idx h' = ph_idx h ->
  locked_ok (zlen (sp_locks sp)) h' ->
  (forall r w, Z.b2z (bool_decide (ph_lm h = READ)) <= r -> Z.b2z (bool_decide (ph_lm h = WRITE)) <= w -> word_ok r w (lock_word sp (ph_idx h)) ->
     word_ok (r - Z.b2z (bool_decide (ph_lm h = READ)) + Z.b2z (bool_decide (ph_lm h' = READ)))
       (w - Z.b2z (bool_decide (ph_lm h = WRITE)) + Z.b2z (bool_decide (ph_lm h' = WRITE))) word) ->
  pinv (<[i := h']> hs, set_lock sp (ph_idx h) word).
Proof.
  intros HI Hi Hv Hv' Hidx Hok' Hw. assert (Hr : 0 <= ph_idx h < zlen (sp_locks sp)).
  { destruct HI as [Hok _]. eapply Forall_lookup_1 in Hok; [|exact Hi]. unfold locked_ok in Hok. rewrite Hv in Hok. apply Hok. }
  apply (pinv_touch hs sp i h h'); [done|done|unfold set_lock; cbn; apply zlen_set|done|]. intros x Hx r w.
  destruct (valid_counts x h Hv) as [-> ->], (valid_counts x h' Hv') as [-> ->]. rewrite Hidx.
  destruct (Z.eqb_spec (ph_idx h) x) as [<-|Hne]; [rewrite lock_word_set by done; by apply Hw|]. rewrite lock_word_set_ne by lia. intros. by rewrite !Z.sub_0_r, !Z.add_0_r.
Qed.

Ltac modes :=
  unfold word_ok, MAX_READERS, WRITE_LOCKED in *;
  repeat match goal with
  | |- context [bool_decide (?a = ?b)] => let v := eval vm_compute in (bool_decide (a = b)) in change (bool_decide (a = b)) with v in *
  end; cbn in *.

Lemma PeerHandle_Read_ok hs sp i h r h' sp' : pinv (hs, sp) -> hs !! i = Some h -> PeerHandle_Read h sp = Some (r, h', sp') ->
  pinv (<[i := h']> hs, sp') /\ (ph_valid h = true -> r = Some (ph_idx h)).
Proof.
  intros HI Hi E. unfold PeerHandle_Read in E. destruct (ph_valid h) eqn:Hv; cbn [negb] in E; [|simplify_eq; by rewrite list_insert_id].
  pose proof (Forall_lookup_1 _ _ _ _ (pi_ok _ HI) Hi) as Hok. cbn [snd] in Hok. unfold locked_ok in Hok. rewrite Hv in Hok.
  destruct Hok as (Hr&Hne&Hf&[[Hm Hp]|[Hm Hp]]); rewrite Hm in E; [injection E as <- <- <-; by rewrite list_insert_id|]. injection E as <- <- <-.
  split; [|done]. pose proof (pi_words _ HI (ph_idx h) Hr) as Hw. pose proof (counts_insert hs i h h (ph_idx h) Hi) as (_&_&_&Hc). cbn [fst snd] in *.
  destruct (valid_counts (ph_idx h) h Hv) as [_ E2]. rewrite Z.eqb_refl, Hm in E2. rewrite E2 in Hc. change (1 <= writers hs (ph_idx h)) in Hc.
  unfold DowngradeLock. cbn [ph_idx]. destruct Hw as [(?&?&?)|(_&_&Hw)]; [lia|]. change (lock_word sp (ph_idx _)) with (lock_word sp (ph_idx h)). rewrite Hw, Z.eqb_refl.
  apply (pinv_mode hs sp i h); try done; [unfold locked_ok; cbn; rewrite Hv; destruct Hr; split_and!; auto|]. intros rd w. rewrite Hm. intros ???. modes. lia.
Qed.

Lemma PeerHandle_Write_ok hs sp i h r h' sp' : pinv (hs, sp) -> hs !! i = Some h -> PeerHandle_Write h sp = Some (r, h', sp') ->
  pinv (<[i := h']> hs, sp') /\ (ph_valid h = true -> r = Some (ph_idx h)).
Proof.
  intros HI Hi E. unfold PeerHandle_Write in E. destruct (ph_valid h) eqn:Hv; cbn [negb] in E; [|simplify_eq; by rewrite list_insert_id].
  pose proof (Forall_lookup_1 _ _ _ _ (pi_ok _ HI) Hi) as Hok. cbn [snd] in Hok. unfold locked_ok in Hok. rewrite Hv in Hok.
  destruct Hok as (Hr&Hne&Hf&[[Hm Hp]|[Hm Hp]]); rewrite Hm in E; [|injection E as <- <- <-; by rewrite list_insert_id].
  rewrite bool_decide_eq_true_2 in E by done. cbn -[lock_word set_lock] in E. unfold UnlockRead, WriteLock in E. rewrite lock_word_set in E by done. destruct (Z.eqb_spec (u32 (lock_word sp (ph_idx h) - 1)) 0) as [E1|]; [|done].
  injection E as <- <- <-. split; [|done]. pose proof (pi_words _ HI (ph_idx h) Hr) as Hw. cbn [fst snd] in Hw.
  pose proof (counts_insert hs i h h (ph_idx h) Hi) as (_&_&Hc&_). destruct (valid_counts (ph_idx h) h Hv) as [E2 _]. rewrite Z.eqb_refl, Hm in E2. rewrite E2 in Hc. change (1 <= readers hs (ph_idx h)) in Hc.
  assert (Hone : lock_word sp (ph_idx h) = 1) by (modes; rewrite u32_small in E1 by lia; lia).
  assert (Hset : forall v, set_lock (set_lock sp (ph_idx h) v) (ph_idx h) WRITE_LOCKED = set_lock sp (ph_idx h) WRITE_LOCKED).
  { intros v. unfold set_lock. destruct sp. cbn. f_equal. unfold arr_set. by rewrite list_insert_insert_eq. }
  rewrite Hset. apply (pinv_mode hs sp i h); try done; [unfold locked_ok; cbn; rewrite Hv; destruct Hr; split_and!; auto|]. intros rd w. rewrite Hm, Hone. intros ???. modes. lia.
Qed.

Lemma PeerHandle_Unlock_ok hs sp i h h' : pinv (hs, sp) -> hs !! i = Some h -> ph_valid h' = false -> pinv (<[i := h']> hs, (PeerHandle_Unlock h sp).2).
Proof.
  intros HI Hi Hv'. pose proof (Forall_lookup_1 _ _ _ _ (pi_ok _ HI) Hi) as Hok. cbn [snd] in Hok. unfold locked_ok in Hok.
  unfold PeerHandle_Unlock. cbn [snd]. destruct (ph_valid h) eqn:Hv; cbn [andb].
  - destruct Hok as (Hr&Hne&_&Hm). destruct (Z.eqb_spec (ph_idx h) INVALID); [done|]. cbn [negb].
    apply (pinv_touch hs sp i h h'); [done|done|apply locks_unlock|unfold locked_ok; by rewrite Hv'|].
    intros x Hx r w. destruct (idle_counts x h' Hv') as [-> ->], (valid_counts x h Hv) as [-> ->].
    destruct (Z.eqb_spec (ph_idx h) x) as [<-|Hx'].
    + destruct Hm as [[-> _]|[-> _]]; cbn [unlock]; unfold UnlockRead, UnlockWrite; rewrite lock_word_set by done; modes; intros; [rewrite u32_small by lia|]; lia.
    + assert (Hun : lock_word (unlock (ph_lm h) (ph_idx h) sp) x = lock_word sp x) by (destruct Hm as [[-> _]|[-> _]]; cbn [unlock]; apply lock_word_set_ne; lia).
      rewrite Hun. intros. by rewrite !Z.sub_0_r, !Z.add_0_r.
  - apply (pinv_touch hs sp i h h'); [done|done|done|unfold locked_ok; by rewrite Hv'|].
    intros x Hx r w. destruct (idle_counts x h' Hv') as [-> ->], (idle_counts x h Hv) as [-> ->]. intros. by rewrite !Z.sub_0_r, !Z.add_0_r.
Qed.

(** A new handle in front: idle, or over a word that counts it. *)
Lemma pinv_cons hs sp h sp' : pinv (hs, sp) -> zlen (sp_locks sp') = zlen (sp_locks sp) -> locked_ok (zlen (sp_locks sp)) h ->
  (forall x, 0 <= x < zlen (sp_locks sp) -> forall r w, word_ok r w (lock_word sp x) -> word_ok (reads x h + r) (writes x h + w) (lock_word sp' x)) ->
  pinv (h :: hs, sp').
Proof.
  intros [Hok Hw] Hlen Hh Hx. cbn [fst snd] in *. split; cbn [fst snd]; rewrite Hlen; [by constructor|]. intros x Hr. by apply Hx, Hw.
Qed.

Lemma pinv_get hs sp idx sp' : pinv (hs, sp) -> 0 <= idx < zlen (sp_locks sp) -> idx <> INVALID -> ReadLock sp idx = Some sp' -> pinv (PeerHandle_of idx :: hs, sp').
Proof.
  intros HI Hr Hne E. unfold ReadLock in E. case_match eqn:Et; [done|]. injection E as <-. apply orb_false_iff in Et as [E1%Z.eqb_neq E2%Z.leb_gt].
  apply (pinv_cons hs sp); [done|unfold set_lock; cbn; apply zlen_set|unfold locked_ok; cbn; destruct Hr; split_and!; auto|]. intros x Hx r w.
  destruct (valid_counts x (PeerHandle_of idx) eq_refl) as [-> ->]. cbn [ph_idx ph_lm PeerHandle_of].
  destruct (Z.eqb_spec idx x) as [<-|Hx']; [rewrite lock_word_set by done; modes; intros; rewrite u32_small by lia; lia|]. rewrite lock_word_set_ne by lia. by rewrite !Z.add_0_l.
Qed.

(** A lock that changes hands: the handle [i] becomes what [j] was. *)
Lemma pinv_swap hs sp i j h o h' o' : pinv (hs, sp) -> i <> j -> hs !! i = Some h -> hs !! j = Some o -> ph_valid h = false -> ph_valid o' = false ->
  (forall x, reads x h' = reads x o /\ writes x h' = writes x o) -> locked_ok (zlen (sp_locks sp)) h' ->
  pinv (<[j := o']> (<[i := h']> hs), sp).
Proof.
  intros [Hok Hw] Hij Hi Hj Hv Hv' Heq Hok'. cbn [fst snd] in *. assert (Hj' : <[i := h']> hs !! j = Some o) by by rewrite list_lookup_insert_ne.
  split; cbn [fst snd]; [apply Forall_insert; [by apply Forall_insert|unfold locked_ok; by rewrite Hv']|]. intros x Hx. specialize (Hw x Hx).
  destruct (counts_insert (<[i := h']> hs) j o o' x Hj') as (->&->&_&_), (counts_insert hs i h h' x Hi) as (->&->&_&_).
  destruct (idle_counts x h Hv) as [-> ->], (idle_counts x o' Hv') as [-> ->], (Heq x) as [-> ->].
  replace (readers hs x - 0 + reads x o - reads x o + 0) with (readers hs x) by lia. by replace (writers hs x - 0 + writes x o - writes x o + 0) with (writers hs x) by lia.
Qed.

Lemma pstep_inv w w' : pinv w -> pstep w w' -> pinv w'.
Proof.
  intros HI HS. destruct HS as [hs sp h Hv Hm|hs sp idx sp' Hr Hne E|hs sp i h r h' sp' Hi E|hs sp i h r h' sp' Hi E|hs sp i j h o h' o' sp' Hi Hj E|hs sp i h Hi].
  - apply (pinv_cons hs sp); [done|done|unfold locked_ok; by rewrite Hv|]. intros x _ r w. destruct (idle_counts x h Hv) as [-> ->]. by rewrite !Z.add_0_l.
  - by apply (pinv_get hs sp).
  - by apply (PeerHandle_Read_ok hs sp i h r h').
  - by apply (PeerHandle_Write_ok hs sp i h r h').
  - unfold PeerHandle_Steal in E. case_bool_decide as D; [simplify_eq; by rewrite !list_insert_id by (rewrite ?list_insert_id by done; done)|]. injection E as <- <- <-.
    pose proof (PeerHandle_Unlock_ok hs sp i h (PeerHandle_Invalidate h) HI Hi eq_refl) as HU. set (sp1 := (PeerHandle_Unlock h sp).2) in *. change (if _ && _ then _ else _) with sp1.
    rewrite <- (list_insert_insert_eq hs i _ (PeerHandle_Invalidate h)). apply (pinv_swap _ sp1 i j (PeerHandle_Invalidate h) o); try done.
    + apply list_lookup_insert_eq. by eapply lookup_lt_Some.
    + by rewrite list_lookup_insert_ne.
    + destruct HU as [HU _]. cbn [fst snd] in HU. apply (Forall_lookup_1 _ _ j o) in HU; [|by rewrite list_lookup_insert_ne]. exact HU.
  - by apply (PeerHandle_Unlock_ok hs sp i h).
Qed.

Lemma preach_inv sp0 w : (forall x, 0 <= x < zlen (sp_locks sp0) -> lock_word sp0 x = 0) -> preach sp0 w -> pinv w.
Proof.
  intros H0. induction 1 as [|w w' _ IH HS]; [|by eapply pstep_inv]. split; [constructor|]. intros x Hx. rewrite H0 by done. left. modes. lia.
Qed.

Lemma in_no_use (f : PeerHandle -> Z) hs : (forall h, 0 <= f h) -> zsum f hs = 0 -> forall h, h ∈ hs -> f h = 0.
Proof.
  intros Hf. induction hs as [|h hs IH]; intros E x Hx; [by apply not_elem_of_nil in Hx|]. change (f h + zsum f hs = 0) in E.
  pose proof (Hf h). pose proof (zsum_nonneg f hs (fun y _ => Hf y)). apply elem_of_cons in Hx as [->|Hx]; [lia|]. apply IH; [lia|done].
Qed.

(** Any number of handles, in any order, from a pool whose slots are unlocked.  Reading
    through a valid handle never waits and gives its peer; a handle that writes is alone on
    its slot; and the write lock of a slot is to be had exactly when no valid handle is
    on it, so that the table frees no peer under a live handle and waits for none when
    they have died. *)
Theorem peer_handles_sound sp0 hs sp : (forall x, 0 <= x < zlen (sp_locks sp0) -> lock_word sp0 x = 0) -> preach sp0 (hs, sp) ->
  (forall h, h ∈ hs -> ph_valid h = true -> exists h' sp', PeerHandle_Read h sp = Some (Some (ph_idx h), h', sp') /\ ph_failReason h = Ok) /\
  (forall i j h o, hs !! i = Some h -> hs !! j = Some o -> ph_valid h = true -> ph_valid o = true -> ph_idx h = ph_idx o -> ph_lm h = WRITE -> i = j) /\
  (forall x, 0 <= x < zlen (sp_locks sp) -> is_Some (WriteLock sp x) <-> forall h, h ∈ hs -> ph_valid h = true -> ph_idx h <> x).
Proof.
  intros H0 HR. pose proof (preach_inv sp0 _ H0 HR) as HI. destruct HI as [Hok Hw] eqn:E. clear E. cbn [fst snd] in *. rewrite Forall_forall in Hok.
  assert (Hlm : forall h, h ∈ hs -> ph_valid h = true -> 0 <= ph_idx h < zlen (sp_locks sp) /\ 1 <= reads (ph_idx h) h + writes (ph_idx h) h).
  { intros h Hin Hv. pose proof (Hok h Hin) as HL. unfold locked_ok in HL. rewrite Hv in HL. destruct HL as (Hr&_&_&Hm). split; [done|].
    destruct (valid_counts (ph_idx h) h Hv) as [-> ->]. rewrite Z.eqb_refl. destruct Hm as [[-> _]|[-> _]]; modes; lia. }
  split_and!.
  - intros h Hin Hv. pose proof (Hok h Hin) as HL. unfold locked_ok in HL. rewrite Hv in HL. destruct HL as (_&_&Hf&[[Hm Hp]|[Hm Hp]]);
      unfold PeerHandle_Read; rewrite Hv, Hm; cbn; rewrite Hp; by eexists _, _.
  - intros i j h o Hi Hj Hv Hv' Hidx Hm. destruct (decide (i = j)) as [|Hij]; [done|]. exfalso.
    destruct (Hlm o ltac:(by eapply list_elem_of_lookup_2) Hv') as [Hr Ho]. rewrite <- Hidx in *.
    pose proof (counts_insert hs i h PeerHandle_Invalid (ph_idx h) Hi) as (E1&E2&_&_). destruct (idle_counts (ph_idx h) PeerHandle_Invalid eq_refl) as [Z1 Z2]. rewrite Z1 in E1. rewrite Z2 in E2.
    assert (Hj' : <[i := PeerHandle_Invalid]> hs !! j = Some o) by by rewrite list_lookup_insert_ne.
    pose proof (counts_insert _ j o PeerHandle_Invalid (ph_idx h) Hj') as (_&_&R1&R2).
    destruct (valid_counts (ph_idx h) h Hv) as [V1 V2]. rewrite Z.eqb_refl, Hm in V1, V2. change (reads (ph_idx h) h = 0) in V1. change (writes (ph_idx h) h = 1) in V2.
    pose proof (reads_nonneg (ph_idx h) o). pose proof (writes_nonneg (ph_idx h) o). destruct (Hw (ph_idx h) Hr) as [(?&_&_)|(?&?&_)]; lia.
  - intros x Hx. specialize (Hw x Hx). unfold WriteLock. split.
    + intros [? Hl] h Hin Hv <-. destruct (Z.eqb_spec (lock_word sp (ph_idx h)) 0) as [E|]; [|done]. destruct (Hlm h Hin Hv) as [_ Hc].
      destruct Hw as [(Ew&Er&_)|(_&_&Ew)]; [|rewrite E in Ew; done]. rewrite E in Er.
      rewrite (in_no_use (reads (ph_idx h)) hs (reads_nonneg _) (eq_sym Er) h Hin) in Hc. rewrite (in_no_use (writes (ph_idx h)) hs (writes_nonneg _) Ew h Hin) in Hc. lia.
    + intros Hno. assert (HZ : readers hs x = 0 /\ writers hs x = 0).
      { assert (HF : forall h, h ∈ hs -> reads x h = 0 /\ writes x h = 0).
        { intros h Hin. destruct (ph_valid h) eqn:Hv; [|by apply idle_counts]. destruct (valid_counts x h Hv) as [-> ->]. destruct (Z.eqb_spec (ph_idx h) x); [by destruct (Hno h Hin Hv)|done]. }
        unfold readers, writers. clear -HF. induction hs as [|h hs IH]; [done|]. destruct (HF h ltac:(left)) as [E1 E2].
        destruct IH as [I1 I2]; [intros y Hy; apply HF; by right|]. unfold zsum in *. cbn. lia. }
      destruct HZ as [HR0 HW0], Hw as [(_&E&_)|(E&_&_)]; [|lia]. rewrite E, HR0. by eexists.
Qed.

(** Two readers, one of them gone, the other upgraded: the table waits until it dies. *)
Example peer_handle_life :
  match ReadLock pool0 3 with
  | Some sp =>
      match ReadLock sp 3 with
      | Some sp =>
          PeerHandle_Write (PeerHandle_of 3) sp = None /\
          (let sp := (PeerHandle_Unlock (PeerHandle_of 3) sp).2 in
           match PeerHandle_Write (PeerHandle_of 3) sp with
           | Some (p, h, sp) => p = Some 3 /\ WriteLock sp 3 = None /\ is_Some (WriteLock (PeerHandle_Unlock h sp).2 3)
           | None => False
           end)
      | None => False
      end
  | None => False
  end.
Proof. vm_compute. split_and!; try done. by eexists. Qed.
