(* ===== verification/Events.v ===== *)
(** * Socket events: [socket/socket_events.h], [socket/socket_events.cpp]

    Where events wait until someone polls: one entry per slot, in a row for the sending
    associations, one for the receiving ones and one for the peers.  A handler may call
    back into the socket and make it record more; what each call of the hook records
    is an argument.  The scopes are declared with the flow table's half of the bargain
    ([FlowTable]).  [Record] runs without interference, so its exchange succeeds.

    Proved: the count of a lane is always the number of its entries, so the walk that
    stops on the count misses none; an event recorded stays in its entry, with the peer
    and the flow it was recorded for, until a dispatch hands it over; a dispatch whose
    handlers record nothing hands over exactly what its lane has, once each. *)

From S2P Require Import Prelude Wire Errors Keys FlowTable.

(** ** Definitions *)

Inductive SocketEvent :=
  | INCOMING_FLOW_OPENED | OUTGOING_FLOW_REFUSED | OUTGOING_FLOW_LOST | INCOMING_FLOW_REOPENED | PEER_ESTABLISHED | PEER_LOST
  | PEER_MIGRATED | PEER_GRANT_CHANGED | PEER_GRANT_CUT | PEER_FLOW_JAMMED | TRANSFER_INCOMING.
Definition ToBits (e : SocketEvent) : Z :=
  match e with
  | INCOMING_FLOW_OPENED => Z.shiftl 1 0 | OUTGOING_FLOW_REFUSED => Z.shiftl 1 1 | OUTGOING_FLOW_LOST => Z.shiftl 1 2
  | INCOMING_FLOW_REOPENED => Z.shiftl 1 3 | PEER_ESTABLISHED => Z.shiftl 1 4 | PEER_LOST => Z.shiftl 1 5
  | PEER_MIGRATED => Z.shiftl 1 6 | PEER_GRANT_CHANGED => Z.shiftl 1 7 | PEER_GRANT_CUT => Z.shiftl 1 8
  | PEER_FLOW_JAMMED => Z.shiftl 1 9 | TRANSFER_INCOMING => Z.shiftl 1 10
  end.

#[export] Instance EventScope_eq_dec : EqDecision EventScope.
Proof. solve_decision. Defined.

Record EventInfo := mk_info { ei_events : Z; ei_peer : Address; ei_flow : Z }.
Definition Has (i : EventInfo) (e : SocketEvent) : bool := negb (Z.land (ei_events i) (ToBits e) =? 0).

Record EventEntry := mk_evt { ev_bits : Z; ev_peer : Address; ev_lane : Z; ev_flowId : Z }.
#[export] Instance EventEntry_eta : Eta EventEntry := fun e => mk_evt (ev_bits e) (ev_peer e) (ev_lane e) (ev_flowId e).
Definition blank_evt : EventEntry := mk_evt 0 inhabitant 0 INVALID_FLOW_ID.
#[export] Instance EventEntry_inhabited : Inhabited EventEntry := populate blank_evt.

(** [hooked]: a hook is registered.  The three rows are one function of the scope. *)
Record EventTable := mk_events {
  rows : EventScope -> list EventEntry; row_count : EventScope -> Z;
  ev_pending : list Z; laneCount : Z; hooked : bool; subscribed : Z }.
#[export] Instance EventTable_eta : Eta EventTable := fun t =>
  mk_events (rows t) (row_count t) (ev_pending t) (laneCount t) (hooked t) (subscribed t).

Definition set_row (t : EventTable) (sc : EventScope) (row : list EventEntry) : EventTable :=
  t <| rows := fun x => if decide (x = sc) then row else rows t x |>.

Definition EventTable_Shutdown (t : EventTable) : EventTable := mk_events (fun _ => []) (fun _ => 0) [] 0 false 0.

(** [Init], with allocations that succeed. *)
Definition EventTable_Init (t : EventTable) (hook : bool) (subscribed_ outSlots inSlots peerSlots lanes : Z) : Error * EventTable :=
  let t := EventTable_Shutdown t in
  if negb hook || (subscribed_ =? 0) then (Ok, t)
  else if lanes =? 0 then (InvalidParam, t)
  else
    let slots sc := match sc with OUT_FLOW => outSlots | IN_FLOW => inSlots | PEER => peerSlots end in
    (Ok, mk_events (fun sc => replicate (Z.to_nat (slots sc)) blank_evt) slots (replicate (Z.to_nat lanes) 0) lanes true subscribed_).

Definition RowFor (t : EventTable) (scope : EventScope) (slot : Z) : bool := slot <? row_count t scope.

(** What one call of [Record] is given. *)
Record note := mk_note { nt_scope : EventScope; nt_slot : Z; nt_lane : Z; nt_event : SocketEvent; nt_peer : Address; nt_flow : Z }.

Definition EventTable_Record (t : EventTable) (nt : note) : bool * EventTable :=
  if negb (hooked t) then (false, t)
  else
    let bit := ToBits (nt_event nt) in
    if Z.land (subscribed t) bit =? 0 then (false, t)
    else if laneCount t <=? nt_lane nt then (false, t)
    else if negb (RowFor t (nt_scope nt) (nt_slot nt)) then (false, t)
    else
      let row := rows t (nt_scope nt) in
      let entry := row.[nt_slot nt] in
      if negb (ev_bits entry =? 0)
      then (true, set_row t (nt_scope nt) (row.[nt_slot nt <- entry <| ev_bits := Z.lor (ev_bits entry) bit |>]))
      else
        let t := set_row t (nt_scope nt) (row.[nt_slot nt <- mk_evt bit (nt_peer nt) (nt_lane nt) (nt_flow nt)]) in
        (true, t <| ev_pending := (ev_pending t).[nt_lane nt <- u32 ((ev_pending t).[nt_lane nt] + 1)] |>).
Definition record_all (t : EventTable) (l : list note) : EventTable := foldl (fun t nt => (EventTable_Record t nt).2) t l.

(** A call of the hook, and the slot named to [done] after it. *)
Definition delivery : Type := EventInfo * EventScope * Z.

Section Dispatch.
(** What the handler makes the socket record, given what it has been handed so far. *)
Context (handler : list delivery -> list note).

(** [n] entries are left to look at, from [i]. *)
Fixpoint DispatchRow (n : nat) (i : Z) (t : EventTable) (scope : EventScope) (lane wanted taken : Z) (log : list delivery) : Z * EventTable * list delivery :=
  match n with
  | O => (taken, t, log)
  | Datatypes.S n =>
      if negb (taken <? wanted) then (taken, t, log)
      else
        let entry := (rows t scope).[i] in
        if ev_bits entry =? 0 then DispatchRow n (i + 1) t scope lane wanted taken log
        else if negb (ev_lane entry =? lane) then DispatchRow n (i + 1) t scope lane wanted taken log
        else
          let held := ev_bits entry in
          let t := set_row t scope ((rows t scope).[i <- entry <| ev_bits := 0 |>]) in
          let t := t <| ev_pending := (ev_pending t).[lane <- u32 ((ev_pending t).[lane] - 1)] |> in
          let log := log ++ [(mk_info held (ev_peer entry) (ev_flowId entry), scope, i)] in
          let t := record_all t (handler log) in
          DispatchRow n (i + 1) t scope lane wanted (u32 (taken + 1)) log
  end.

Definition Dispatch (t : EventTable) (lane : Z) : EventTable * list delivery :=
  if negb (hooked t) || (laneCount t <=? lane) then (t, [])
  else
    let wanted := (ev_pending t).[lane] in
    if wanted =? 0 then (t, [])
    else
      let '(taken, t, log) := DispatchRow (Z.to_nat (row_count t OUT_FLOW)) 0 t OUT_FLOW lane wanted 0 [] in
      let '(more, t, log) :=
        if taken <? wanted then DispatchRow (Z.to_nat (row_count t IN_FLOW)) 0 t IN_FLOW lane (wanted - taken) 0 log else (0, t, log) in
      let taken := u32 (taken + more) in
      let '(_, t, log) :=
        if taken <? wanted then DispatchRow (Z.to_nat (row_count t PEER)) 0 t PEER lane (wanted - taken) 0 log else (0, t, log) in
      (t, log).
End Dispatch.

(** ** The count of a lane *)

Definition in_lane (lane : Z) (e : EventEntry) : bool := negb (ev_bits e =? 0) && (ev_lane e =? lane).
Definition row_waiting (lane : Z) (row : list EventEntry) : Z := zsum (fun e => Z.b2z (in_lane lane e)) row.
Definition waiting (t : EventTable) (lane : Z) : Z :=
  row_waiting lane (rows t OUT_FLOW) + row_waiting lane (rows t IN_FLOW) + row_waiting lane (rows t PEER).

Record events_ok (t : EventTable) : Prop := {
  eo_rows : forall sc, zlen (rows t sc) = row_count t sc;
  eo_total : row_count t OUT_FLOW + row_count t IN_FLOW + row_count t PEER < 2 ^ 32;
  eo_pending : zlen (ev_pending t) = laneCount t;
  eo_count : forall lane, 0 <= lane < laneCount t -> (ev_pending t).[lane] = waiting t lane }.

Lemma ToBits_positive e : 0 < ToBits e.
Proof. by destruct e. Qed.
Lemma lor_nonzero x e : Z.lor x (ToBits e) <> 0.
Proof. intros [_ H]%Z.lor_eq_0_iff. pose proof (ToBits_positive e). lia. Qed.

Lemma set_row_same t sc row : rows (set_row t sc row) sc = row.
Proof. cbn. by rewrite decide_True. Qed.
Lemma set_row_other t sc row sc' : sc' <> sc -> rows (set_row t sc row) sc' = rows t sc'.
Proof. intros. cbn. by rewrite decide_False. Qed.

Lemma row_waiting_nonneg lane row : 0 <= row_waiting lane row <= zlen row.
Proof.
  split; [apply zsum_nonneg; intros e _; by destruct (in_lane lane e)|]. rewrite <- (Z.mul_1_l (zlen row)). apply zsum_bound. intros e _. by destruct (in_lane lane e).
Qed.

(** One entry changes: the count of a lane changes by it. *)
Lemma waiting_set t sc i e lane : 0 <= i < zlen (rows t sc) ->
  waiting (set_row t sc ((rows t sc).[i <- e])) lane = waiting t lane - Z.b2z (in_lane lane (rows t sc).[i]) + Z.b2z (in_lane lane e).
Proof.
  intros Hi. assert (Hs : row_waiting lane ((rows t sc).[i <- e]) = row_waiting lane (rows t sc) - Z.b2z (in_lane lane (rows t sc).[i]) + Z.b2z (in_lane lane e))
    by (unfold row_waiting; by rewrite zsum_set).
  unfold waiting. destruct sc; rewrite ?set_row_same, ?set_row_other by done; lia.
Qed.

Lemma waiting_bound t lane : events_ok t -> 0 <= waiting t lane < 2 ^ 32.
Proof.
  intros [Hr Ht _ _]. unfold waiting. pose proof (row_waiting_nonneg lane (rows t OUT_FLOW)). pose proof (row_waiting_nonneg lane (rows t IN_FLOW)).
  pose proof (row_waiting_nonneg lane (rows t PEER)). rewrite !Hr in *. lia.
Qed.

Lemma waiting_ext t t' lane : rows t' = rows t -> waiting t' lane = waiting t lane.
Proof. unfold waiting. by intros ->. Qed.

(** An entry is rewritten and the count of its lane adjusted by what that changes. *)
Lemma events_ok_set t sc i e lane' d :
  events_ok t -> 0 <= i < zlen (rows t sc) -> 0 <= lane' < laneCount t ->
  (forall lane, 0 <= lane < laneCount t ->
     Z.b2z (in_lane lane e) = Z.b2z (in_lane lane (rows t sc).[i]) + (if lane =? lane' then d else 0)) ->
  events_ok ((set_row t sc ((rows t sc).[i <- e])) <| ev_pending := (ev_pending t).[lane' <- u32 ((ev_pending t).[lane'] + d)] |>).
Proof.
  intros Hok Hi Hl Hd. pose proof Hok as [Hr Ht Hp Hc].
  set (u := set_row t sc ((rows t sc).[i <- e])).
  assert (Hu : events_ok (u <| ev_pending := (ev_pending t).[lane' <- waiting u lane'] |>)).
  { split; try done.
    - intros sc'. cbn. case_decide as E; [subst sc'; by rewrite zlen_set|done].
    - cbn. by rewrite zlen_set.
    - intros lane Hlane. change (((ev_pending t).[lane' <- waiting u lane']).[lane] = waiting u lane).
      destruct (decide (lane = lane')) as [->|Hne]; [by rewrite arr_get_set_eq by (rewrite Hp; done)|].
      change (0 <= lane < laneCount t) in Hlane. rewrite arr_get_set_ne by (lia || done). rewrite Hc by done. unfold u.
      rewrite waiting_set, Hd by done. destruct (Z.eqb_spec lane lane'); [done|lia]. }
  replace (u32 ((ev_pending t).[lane'] + d)) with (waiting u lane'); [done|].
  unfold u. rewrite Hc, waiting_set, (Hd lane' Hl), Z.eqb_refl by done.
  replace (waiting t lane' - Z.b2z (in_lane lane' (rows t sc).[i]) + (Z.b2z (in_lane lane' (rows t sc).[i]) + d)) with (waiting t lane' + d) by lia.
  rewrite u32_small; [done|]. pose proof (waiting_bound _ lane' Hu) as HB. rewrite (waiting_ext u _ lane') in HB by done. unfold u in HB.
  rewrite waiting_set, (Hd lane' Hl), Z.eqb_refl in HB by done. lia.
Qed.

(** ** Recording *)

Definition note_ok (nt : note) : Prop := 0 <= nt_slot nt /\ 0 <= nt_lane nt.
Definition accepts (t : EventTable) (nt : note) : bool :=
  hooked t && negb (Z.land (subscribed t) (ToBits (nt_event nt)) =? 0) && (nt_lane nt <? laneCount t) && RowFor t (nt_scope nt) (nt_slot nt).

(** The entry a recorded event leaves: what it held and the event, or a fresh one. *)
Definition merged (e : EventEntry) (nt : note) : EventEntry :=
  if ev_bits e =? 0 then mk_evt (ToBits (nt_event nt)) (nt_peer nt) (nt_lane nt) (nt_flow nt) else e <| ev_bits := Z.lor (ev_bits e) (ToBits (nt_event nt)) |>.

Lemma merged_lane e nt lane :
  Z.b2z (in_lane lane (merged e nt)) = Z.b2z (in_lane lane e) + (if lane =? nt_lane nt then if ev_bits e =? 0 then 1 else 0 else 0).
Proof.
  pose proof (ToBits_positive (nt_event nt)). pose proof (lor_nonzero (ev_bits e) (nt_event nt)). unfold merged, in_lane.
  destruct (Z.eqb_spec (ev_bits e) 0) as [E|E]; cbn; [rewrite (Z.eqb_sym lane); destruct (Z.eqb_spec (ToBits (nt_event nt)) 0), (nt_lane nt =? lane); cbn; lia|].
  destruct (Z.eqb_spec (Z.lor (ev_bits e) (ToBits (nt_event nt))) 0); [done|]. cbn. destruct (lane =? nt_lane nt); lia.
Qed.

(** Recording answers whether it is subscribed and in range, and then changes that one
    entry. *)
Theorem Record_exact t nt : events_ok t -> note_ok nt ->
  let '(recorded, t') := EventTable_Record t nt in
  recorded = accepts t nt /\ events_ok t' /\
  (forall sc i, 0 <= i -> (rows t' sc).[i] = if recorded && bool_decide (sc = nt_scope nt /\ i = nt_slot nt) then merged (rows t sc).[i] nt else (rows t sc).[i]) /\
  (forall sc, row_count t' sc = row_count t sc) /\ laneCount t' = laneCount t /\ hooked t' = hooked t /\ subscribed t' = subscribed t.
Proof.
  intros Hok [Hs Hl]. unfold EventTable_Record, accepts. destruct (hooked t) eqn:Eh; cbn [negb andb]; [|done].
  destruct (Z.land _ _ =? 0); cbn [negb andb]; [done|]. rewrite Z.ltb_antisym. destruct (Z.leb_spec (laneCount t) (nt_lane nt)) as [|Hlane]; cbn [negb andb]; [done|].
  unfold RowFor. destruct (Z.ltb_spec (nt_slot nt) (row_count t (nt_scope nt))) as [Hslot|]; cbn [negb]; [|done].
  set (sc := nt_scope nt). set (e := (rows t sc).[nt_slot nt]). assert (Hi : 0 <= nt_slot nt < zlen (rows t sc)) by (rewrite (eo_rows _ Hok); done).
  pose proof (events_ok_set t sc (nt_slot nt) (merged e nt) (nt_lane nt) (if ev_bits e =? 0 then 1 else 0) Hok Hi ltac:(lia) (fun lane _ => merged_lane e nt lane)) as HO.
  assert (Hrow : forall sc' i, 0 <= i -> (rows (set_row t sc ((rows t sc).[nt_slot nt <- merged e nt])) sc').[i] =
    if true && bool_decide (sc' = sc /\ i = nt_slot nt) then merged (rows t sc').[i] nt else (rows t sc').[i]).
  { intros sc' i Hi'. destruct (decide (sc' = sc)) as [->|Hne]; [|rewrite set_row_other by done; by rewrite bool_decide_eq_false_2 by tauto].
    rewrite set_row_same. destruct (decide (i = nt_slot nt)) as [->|Hne]; [rewrite bool_decide_eq_true_2 by done; by apply arr_get_set_eq|].
    rewrite bool_decide_eq_false_2 by tauto. apply arr_get_set_ne; lia. }
  unfold merged in HO, Hrow at 1. destruct (Z.eqb_spec (ev_bits e) 0) as [E|E]; cbn [negb]; (split; [done|]); (split; [|done]); [exact HO|].
  rewrite Z.add_0_r in HO. pose proof (waiting_bound t (nt_lane nt) Hok). rewrite (eo_count _ Hok) in HO by lia. rewrite u32_small in HO by lia.
  rewrite <- (eo_count _ Hok), arr_set_get_id in HO by (rewrite ?(eo_pending _ Hok); lia). by destruct t.
Qed.

(** ** Nothing is lost *)

(** Bit [b] waits in an entry, for the peer and the flow it was recorded for. *)
Definition waits (t : EventTable) (sc : EventScope) (i b : Z) (peer : Address) (flow : Z) : Prop :=
  let e := (rows t sc).[i] in Z.testbit (ev_bits e) b = true /\ ev_peer e = peer /\ ev_flowId e = flow.
Definition delivered (log : list delivery) (sc : EventScope) (i b : Z) (peer : Address) (flow : Z) : Prop :=
  exists info, (info, sc, i) ∈ log /\ Z.testbit (ei_events info) b = true /\ ei_peer info = peer /\ ei_flow info = flow.

Lemma Record_waits t nt sc i b peer flow : events_ok t -> note_ok nt -> 0 <= i -> waits t sc i b peer flow -> waits (EventTable_Record t nt).2 sc i b peer flow.
Proof.
  intros Hok Hn Hi (Hb&Hp&Hf). pose proof (Record_exact t nt Hok Hn) as H. destruct (EventTable_Record t nt) as [r t']. cbn [snd].
  destruct H as (_&_&Hrow&_). unfold waits. rewrite Hrow by done. destruct (r && _); [|done]. unfold merged.
  destruct (Z.eqb_spec (ev_bits (rows t sc).[i]) 0) as [E|]; [rewrite E, Z.testbit_0_l in Hb; done|]. cbn. split_and!; [|done..].
  by rewrite Z.lor_spec, Hb.
Qed.

(** The parts of a table that recording and dispatching never change. *)
Definition same_shape (t t' : EventTable) : Prop :=
  (forall sc, row_count t' sc = row_count t sc) /\ laneCount t' = laneCount t /\ hooked t' = hooked t /\ subscribed t' = subscribed t.
Lemma same_shape_trans t u v : same_shape t u -> same_shape u v -> same_shape t v.
Proof. intros (A&B&C&D) (A'&B'&C'&D'). split_and!; [intros sc; by rewrite A'|congruence..]. Qed.

Lemma record_all_keeps l : Forall note_ok l -> forall t, events_ok t ->
  events_ok (record_all t l) /\ same_shape t (record_all t l) /\
  (forall sc i b peer flow, 0 <= i -> waits t sc i b peer flow -> waits (record_all t l) sc i b peer flow).
Proof.
  induction 1 as [|nt l Hn _ IH]; intros t Hok; [by split_and!|]. cbn [record_all foldl].
  pose proof (Record_exact t nt Hok Hn) as H. pose proof (fun sc i b p f => Record_waits t nt sc i b p f Hok Hn) as HW.
  destruct (EventTable_Record t nt) as [r u]. cbn [snd] in *. destruct H as (_&Hu&_&Hsh). destruct (IH u Hu) as (Hv&Hsh'&HW').
  split_and!; [done|exact (same_shape_trans _ _ _ Hsh Hsh')|]. intros sc i b p f Hi Hw. apply HW'; [done|]. by apply HW.
Qed.

Section Handled.
Context (handler : list delivery -> list note) (Hhandler : forall log, Forall note_ok (handler log)).

(** An event that waits is still there after the walk of a row, or was handed over. *)
Definition walk_keeps (t t' : EventTable) (log log' : list delivery) : Prop :=
  events_ok t' /\ same_shape t t' /\
  forall sc i b peer flow, 0 <= i -> waits t sc i b peer flow \/ delivered log sc i b peer flow -> waits t' sc i b peer flow \/ delivered log' sc i b peer flow.

Lemma walk_keeps_refl t log : events_ok t -> walk_keeps t t log log.
Proof. by intros Hok; split_and!. Qed.
Lemma walk_keeps_trans t u v l1 l2 l3 : walk_keeps t u l1 l2 -> walk_keeps u v l2 l3 -> walk_keeps t v l1 l3.
Proof. intros (_&A&B) (C&D&E). split_and!; [done|exact (same_shape_trans _ _ _ A D)|]. intros. apply E; [done|]. by apply B. Qed.

Lemma take_entry t sc i lane log :
  events_ok t -> 0 <= i < row_count t sc -> 0 <= lane < laneCount t -> in_lane lane (rows t sc).[i] = true ->
  let e := (rows t sc).[i] in
  walk_keeps t ((set_row t sc ((rows t sc).[i <- e <| ev_bits := 0 |>])) <| ev_pending := (ev_pending t).[lane <- u32 ((ev_pending t).[lane] - 1)] |>)
    log (log ++ [(mk_info (ev_bits e) (ev_peer e) (ev_flowId e), sc, i)]).
Proof.
  intros Hok Hi Hl He e. rewrite <- (eo_rows _ Hok) in Hi. split; [|split; [done|]].
  - apply events_ok_set; [done..|]. intros lane' _. unfold in_lane in *. apply andb_true_iff in He as [He1 He2%Z.eqb_eq]. cbn. rewrite He1, He2. cbn.
    rewrite (Z.eqb_sym lane'). by destruct (lane =? lane').
  - intros sc' i' b peer flow Hi' [(Hb&Hp&Hf)|(info&Hin&Hd)]; [|right; exists info; split; [apply elem_of_app; by left|done]].
    destruct (decide (sc' = sc /\ i' = i)) as [[-> ->]|Hne].
    + right. exists (mk_info (ev_bits e) (ev_peer e) (ev_flowId e)). split; [apply elem_of_app; right; by left|done].
    + left. unfold waits. cbn [rows]. change (rows _ sc') with (rows (set_row t sc ((rows t sc).[i <- e <| ev_bits := 0 |>])) sc').
      destruct (decide (sc' = sc)) as [->|]; [|by rewrite set_row_other]. rewrite set_row_same, arr_get_set_ne by (lia || (intros ->; by apply Hne)). done.
Qed.

Lemma DispatchRow_keeps n : forall i t sc lane wanted taken log, events_ok t -> 0 <= i -> i + Z.of_nat n <= row_count t sc -> 0 <= lane < laneCount t ->
  let '(_, t', log') := DispatchRow handler n i t sc lane wanted taken log in walk_keeps t t' log log'.
Proof using Hhandler.
  induction n as [|n IH]; intros i t sc lane wanted taken log Hok Hi Hn Hl; cbn [DispatchRow]; [by apply walk_keeps_refl|].
  destruct (taken <? wanted); cbn [negb]; [|by apply walk_keeps_refl].
  destruct (Z.eqb_spec (ev_bits (rows t sc).[i]) 0) as [|E]; [apply IH; done || lia|].
  destruct (Z.eqb_spec (ev_lane (rows t sc).[i]) lane) as [El|]; cbn [negb]; [|apply IH; done || lia].
  pose proof (take_entry t sc i lane log Hok ltac:(lia) Hl) as HT. cbv zeta in HT.
  set (u := (set_row t sc _) <| ev_pending := _ |>) in *. set (log1 := log ++ _) in *.
  specialize (HT ltac:(unfold in_lane; rewrite (proj2 (Z.eqb_neq _ _) E), (proj2 (Z.eqb_eq _ _) El); done)).
  destruct (record_all_keeps (handler log1) (Hhandler log1) u (proj1 HT)) as (Hv&Hsh&HW). set (v := record_all u (handler log1)) in *.
  assert (HU : walk_keeps u v log1 log1) by (split_and!; [done|done|]; intros ????? Hi' [?|?]; [left; by apply HW|by right]).
  pose proof (walk_keeps_trans _ _ _ _ _ _ HT HU) as HV. pose proof (proj1 (proj2 HV)) as (Hc&Hlc&_).
  pose proof (IH (i + 1) v sc lane wanted (u32 (taken + 1)) log1 Hv ltac:(lia) ltac:(rewrite Hc; lia) ltac:(rewrite Hlc; lia)) as HI.
  destruct (DispatchRow handler n (i + 1) v sc lane wanted (u32 (taken + 1)) log1) as [[k t'] log']. exact (walk_keeps_trans _ _ _ _ _ _ HT (walk_keeps_trans _ _ _ _ _ _ HU HI)).
Qed.

Lemma row_count_nonneg t sc : events_ok t -> 0 <= row_count t sc.
Proof. intros Hok. rewrite <- (eo_rows _ Hok). apply zlen_nonneg. Qed.

Lemma Dispatch_keeps t lane : events_ok t -> 0 <= lane ->
  let '(t', log) := Dispatch handler t lane in walk_keeps t t' [] log.
Proof using Hhandler.
  intros Hok Hl. unfold Dispatch. destruct (hooked t); cbn [negb orb]; [|by apply walk_keeps_refl].
  destruct (Z.leb_spec (laneCount t) lane); [by apply walk_keeps_refl|]. destruct (_ =? 0); [by apply walk_keeps_refl|].
  assert (Hrow : forall u sc wanted log, events_ok u -> same_shape t u ->
    let '(_, u', log') := DispatchRow handler (Z.to_nat (row_count u sc)) 0 u sc lane wanted 0 log in walk_keeps u u' log log').
  { intros u sc wanted log Hu (_&Hlc&_). pose proof (row_count_nonneg u sc Hu). apply DispatchRow_keeps; [done|lia|lia|lia]. }
  pose proof (Hrow t OUT_FLOW (ev_pending t).[lane] [] Hok ltac:(done)) as H1.
  destruct (DispatchRow _ _ _ _ OUT_FLOW _ _ _ _) as [[taken u] l1]. assert (Hu : events_ok u /\ same_shape t u) by (by destruct H1 as (?&?&_)). destruct Hu as [Hu Hsu].
  set (mid := if taken <? _ then _ else _). assert (H2 : let '(_, v, l2) := mid in walk_keeps u v l1 l2).
  { unfold mid. destruct (_ <? _); [by apply Hrow|by apply walk_keeps_refl]. }
  destruct mid as [[more v] l2]. pose proof (walk_keeps_trans _ _ _ _ _ _ H1 H2) as H12. assert (Hv : events_ok v /\ same_shape t v) by (by destruct H12 as (?&?&_)). destruct Hv as [Hv Hsv].
  set (last := if _ <? _ then _ else _). assert (H3 : let '(_, w, l3) := last in walk_keeps v w l2 l3).
  { unfold last. destruct (_ <? _); [by apply Hrow|by apply walk_keeps_refl]. }
  destruct last as [[? w] l3]. exact (walk_keeps_trans _ _ _ _ _ _ H12 H3).
Qed.
End Handled.

(** *** Histories *)

Inductive event_op := OpRecord (nt : note) | OpDispatch (lane : Z) (handler : list delivery -> list note).
Definition op_ok (o : event_op) : Prop :=
  match o with OpRecord nt => note_ok nt | OpDispatch lane handler => 0 <= lane /\ forall log, Forall note_ok (handler log) end.
Definition event_step (t : EventTable) (o : event_op) : EventTable * list delivery :=
  match o with OpRecord nt => ((EventTable_Record t nt).2, []) | OpDispatch lane handler => Dispatch handler t lane end.
Fixpoint event_run (t : EventTable) (l : list event_op) : EventTable * list delivery :=
  match l with [] => (t, []) | o :: l => let '(t, log) := event_step t o in let '(t, log') := event_run t l in (t, log ++ log') end.

Lemma event_step_keeps t o : events_ok t -> op_ok o -> let '(t', log) := event_step t o in walk_keeps t t' [] log.
Proof.
  intros Hok Ho. destruct o as [nt|lane handler]; [|destruct Ho; by apply Dispatch_keeps]. cbn [event_step].
  destruct (record_all_keeps [nt] ltac:(by apply Forall_singleton) t Hok) as (A&B&C). cbn in A, B, C.
  split_and!; [done|done|]. intros sc i b p f Hi [?|?]; [left; by apply C|by right].
Qed.

Lemma event_run_keeps l : Forall op_ok l -> forall t, events_ok t -> let '(t', log) := event_run t l in walk_keeps t t' [] log.
Proof.
  induction 1 as [|o l Ho _ IH]; intros t Hok; [by apply walk_keeps_refl|]. cbn [event_run].
  pose proof (event_step_keeps t o Hok Ho) as H1. destruct (event_step t o) as [u l1]. pose proof (IH u (proj1 H1)) as H2.
  destruct (event_run u l) as [v l2]. refine (walk_keeps_trans _ _ _ _ _ _ H1 _). destruct H2 as (A&B&C). split_and!; [done|done|].
  intros sc i b p f Hi [Hw|(info&Hin&Hd)]; [|right; exists info; split; [apply elem_of_app; by left|done]].
  destruct (C sc i b p f Hi (or_introl Hw)) as [?|(info&Hin&Hd)]; [by left|]. right. exists info. split; [apply elem_of_app; by right|done].
Qed.

Lemma event_init_ok t hook sub outs ins peers lanes :
  0 <= outs -> 0 <= ins -> 0 <= peers -> 0 <= lanes -> outs + ins + peers < 2 ^ 32 -> events_ok (EventTable_Init t hook sub outs ins peers lanes).2.
Proof.
  intros Ho Hi Hp Hl Hs. assert (HB : forall n lane, row_waiting lane (replicate n blank_evt) = 0) by (intros n lane; unfold row_waiting, zsum; induction n as [|n IH]; [done|exact IH]).
  unfold EventTable_Init. destruct (negb hook || _); [split; try done; cbn; intros; lia|]. destruct (lanes =? 0); [split; try done; cbn; intros; lia|].
  split; cbn; [intros []; by rewrite zlen_replicate|lia|by rewrite zlen_replicate|].
  intros lane Hlane. rewrite arr_get_replicate by done. unfold waiting. cbn [rows]. by rewrite !HB.
Qed.

(** From [Init] on, whatever is recorded, dispatched and recorded by handlers: the counts
    match the entries; and an event accepted at any point is, at any later point, still
    in its entry or handed over since, under the peer and the flow it was recorded for
    (those of the entry, when an event was waiting there already). *)
Theorem events_never_lost t0 sub outs ins peers lanes l1 nt l2 :
  0 <= outs -> 0 <= ins -> 0 <= peers -> 0 <= lanes -> outs + ins + peers < 2 ^ 32 -> Forall op_ok (l1 ++ OpRecord nt :: l2) ->
  let t := (event_run (EventTable_Init t0 true sub outs ins peers lanes).2 l1).1 in
  let entry := merged (rows t (nt_scope nt)).[nt_slot nt] nt in
  let '(recorded, t1) := EventTable_Record t nt in
  let '(t2, log) := event_run t1 l2 in
  events_ok t2 /\ recorded = accepts t nt /\
  (recorded = true -> forall b, Z.testbit (ToBits (nt_event nt)) b = true ->
     waits t2 (nt_scope nt) (nt_slot nt) b (ev_peer entry) (ev_flowId entry) \/ delivered log (nt_scope nt) (nt_slot nt) b (ev_peer entry) (ev_flowId entry)).
Proof.
  intros Ho Hi Hp Hl Hs [H1 [Hn H2]%Forall_cons]%Forall_app t. pose proof (event_run_keeps l1 H1 _ (event_init_ok t0 true sub outs ins peers lanes Ho Hi Hp Hl Hs)) as HK.
  assert (Hok : events_ok t) by (unfold t; destruct (event_run _ l1); apply HK). clearbody t. clear HK.
  pose proof (Record_exact t nt Hok Hn) as HR. cbv zeta. destruct (EventTable_Record t nt) as [r t1]. destruct HR as (Hr&Hok1&Hrow&_).
  pose proof (event_run_keeps l2 H2 t1 Hok1) as HK. destruct (event_run t1 l2) as [t2 log]. destruct HK as (Hok2&_&HW). split_and!; [done|done|].
  intros -> b Hb. apply HW; [apply Hn|]. left. destruct Hn as [Hn _]. unfold waits. rewrite Hrow by done. rewrite bool_decide_eq_true_2 by done. cbn [andb].
  split_and!; [|done..]. unfold merged. destruct (_ =? 0); cbn; [done|]. by rewrite Z.lor_spec, Hb, orb_true_r.
Qed.

(** ** A dispatch whose handlers record nothing *)

Definition ready (lane : Z) (row : list EventEntry) (i : Z) (n : nat) : list Z := filter (fun j => in_lane lane row.[j] = true) (seqZ i (Z.of_nat n)).
Definition delivery_of (sc : EventScope) (row : list EventEntry) (j : Z) : delivery :=
  (mk_info (ev_bits row.[j]) (ev_peer row.[j]) (ev_flowId row.[j]), sc, j).
(** The row after the walk of the entries from [i] on. *)
Definition emptied (lane i j : Z) (e : EventEntry) : EventEntry := if (i <=? j) && in_lane lane e then e <| ev_bits := 0 |> else e.

Lemma ready_cons lane row i n :
  ready lane row i (Datatypes.S n) = (if in_lane lane row.[i] then [i] else []) ++ ready lane row (i + 1) n.
Proof.
  unfold ready. replace (Z.of_nat (Datatypes.S n)) with (Z.succ (Z.of_nat n)) by lia. rewrite seqZ_cons, Z.pred_succ by lia.
  rewrite filter_cons. replace (Z.succ i) with (i + 1) by lia. destruct (in_lane lane row.[i]); [by rewrite decide_True|by rewrite decide_False].
Qed.

Lemma ready_ext lane row row' n : forall i, (forall j, i <= j < i + Z.of_nat n -> row'.[j] = row.[j]) -> ready lane row' i n = ready lane row i n.
Proof.
  induction n as [|n IH]; intros i H; [done|]. rewrite !ready_cons, (H i) by lia. f_equal. apply IH. intros j Hj. apply H. lia.
Qed.

Lemma row_waiting_ready lane row : row_waiting lane row = zlen (ready lane row 0 (length row)).
Proof.
  assert (H : forall pre, row_waiting lane row = zlen (ready lane (pre ++ row) (zlen pre) (length row))); [|by rewrite (H [])].
  induction row as [|e row IH]; intros pre; [done|]. cbn [length]. rewrite ready_cons.
  assert (He : (pre ++ e :: row).[zlen pre] = e) by (unfold arr_get, zlen; rewrite Nat2Z.id; apply list_lookup_total_correct; by rewrite list_lookup_middle).
  rewrite He, zlen_app. change (row_waiting lane (e :: row)) with (Z.b2z (in_lane lane e) + row_waiting lane row). f_equal; [by destruct (in_lane lane e)|].
  rewrite (IH (pre ++ [e])), <- app_assoc, zlen_app. done.
Qed.

(** Nothing ready: nothing to empty. *)
Lemma emptied_none lane row i n j : ready lane row i n = [] -> j < i + Z.of_nat n -> emptied lane i j row.[j] = row.[j].
Proof.
  intros E Hj. unfold emptied. destruct (Z.leb_spec i j); [|done]. destruct (in_lane lane row.[j]) eqn:El; [|done].
  assert (Hin : j ∈ ready lane row i n) by (unfold ready; apply list_elem_of_filter; split; [done|apply elem_of_seqZ; lia]).
  rewrite E in Hin. by apply not_elem_of_nil in Hin.
Qed.
Lemma emptied_skip lane row i j : in_lane lane row.[i] = false -> emptied lane (i + 1) j row.[j] = emptied lane i j row.[j].
Proof.
  intros Hlane. unfold emptied. destruct (Z.leb_spec (i + 1) j), (Z.leb_spec i j); try done; [lia|]. replace j with i by lia. by rewrite Hlane.
Qed.
Lemma emptied_take lane row i j : 0 <= i < zlen row -> 0 <= j -> in_lane lane row.[i] = true ->
  emptied lane (i + 1) j (row.[i <- row.[i] <| ev_bits := 0 |>]).[j] = emptied lane i j row.[j].
Proof.
  intros Hi Hj El. unfold emptied. destruct (decide (i = j)) as [<-|Hne].
  - rewrite arr_get_set_eq by done. destruct (Z.leb_spec (i + 1) i); [lia|]. rewrite Z.leb_refl. cbn [andb]. by rewrite El.
  - rewrite arr_get_set_ne by lia. by destruct (Z.leb_spec (i + 1) j), (Z.leb_spec i j); try lia.
Qed.

Section Silent.
Let silent : list delivery -> list note := fun _ => [].

Lemma silent_row n : forall i t sc lane wanted taken log,
  events_ok t -> 0 <= i -> i + Z.of_nat n = row_count t sc -> 0 <= lane < laneCount t -> 0 <= taken -> wanted < 2 ^ 32 ->
  taken + zlen (ready lane (rows t sc) i n) <= wanted ->
  exists t', DispatchRow silent n i t sc lane wanted taken log =
      (taken + zlen (ready lane (rows t sc) i n), t', log ++ map (delivery_of sc (rows t sc)) (ready lane (rows t sc) i n)) /\
    (forall sc', sc' <> sc -> rows t' sc' = rows t sc') /\
    (forall j, 0 <= j < row_count t sc -> (rows t' sc).[j] = emptied lane i j (rows t sc).[j]).
Proof.
  induction n as [|n IH]; intros i t sc lane wanted taken log Hok Hi Hn Hl Ht Hw Hr.
  { exists t. cbn [DispatchRow]. change (ready lane (rows t sc) i 0) with (@nil Z). rewrite app_nil_r. change (zlen []) with 0. rewrite Z.add_0_r.
    split_and!; [done|done|]. intros j Hj. symmetry. apply (emptied_none _ _ _ 0); [done|lia]. }
  cbn [DispatchRow]. rewrite ready_cons in *. set (rest := ready lane (rows t sc) (i + 1) n) in *.
  destruct (Z.ltb_spec taken wanted) as [Hlt|Hge]; cbn [negb].
  - destruct (in_lane lane (rows t sc).[i]) eqn:El.
    + pose proof El as El'. unfold in_lane in El'. apply andb_true_iff in El' as [E1 E2]. apply negb_true_iff in E1. rewrite E1, E2. cbn [negb record_all silent foldl].
      pose proof (take_entry t sc i lane log Hok ltac:(lia) Hl El) as (Hu&_&_).
      set (u := (set_row t sc _) <| ev_pending := _ |>) in *. set (e := (rows t sc).[i]) in *.
      assert (Hut : rows u sc = (rows t sc).[i <- e <| ev_bits := 0 |>]) by (change (rows u sc) with (rows (set_row t sc ((rows t sc).[i <- e <| ev_bits := 0 |>])) sc); by rewrite set_row_same).
      assert (Hext : forall j, 0 <= j -> i <> j -> (rows u sc).[j] = (rows t sc).[j]) by (intros j Hj Hne; rewrite Hut; apply arr_get_set_ne; lia).
      assert (Hready : ready lane (rows u sc) (i + 1) n = rest) by (apply ready_ext; intros j Hj; apply Hext; lia).
      rewrite zlen_app in Hr. change (zlen [i]) with 1 in Hr. pose proof (zlen_nonneg rest). rewrite (u32_small (taken + 1)) by lia.
      destruct (IH (i + 1) u sc lane wanted (taken + 1) (log ++ [(mk_info (ev_bits e) (ev_peer e) (ev_flowId e), sc, i)]) Hu ltac:(lia) ltac:(change (row_count u sc) with (row_count t sc); lia) Hl ltac:(lia) Hw ltac:(rewrite Hready; lia)) as (t'&E&Ho&Hs).
      rewrite Hready in E. exists t'. split_and!.
      * rewrite E. f_equal; [f_equal; rewrite zlen_app; change (zlen [i]) with 1; lia|]. rewrite <- app_assoc. f_equal. cbn [map app]. f_equal.
        apply map_ext_in. intros j Hj%list_elem_of_In. unfold rest, ready in Hj. apply list_elem_of_filter in Hj as [_ Hj%elem_of_seqZ].
        unfold delivery_of. by rewrite Hext by lia.
      * intros sc' Hne. rewrite Ho by done. change (rows u sc') with (rows (set_row t sc ((rows t sc).[i <- e <| ev_bits := 0 |>])) sc'). by apply set_row_other.
      * intros j Hj. rewrite Hs, Hut by done. apply emptied_take; [rewrite (eo_rows _ Hok); lia|lia|done].
    + assert (Hnext : forall {X} (a b : X), (if ev_bits (rows t sc).[i] =? 0 then a else if negb (ev_lane (rows t sc).[i] =? lane) then a else b) = a).
      { intros X a b. unfold in_lane in El. destruct (ev_bits _ =? 0); [done|]. cbn in El. by rewrite El. }
      rewrite Hnext. cbn [app] in *. destruct (IH (i + 1) t sc lane wanted taken log Hok ltac:(lia) ltac:(lia) Hl Ht Hw Hr) as (t'&E&Ho&Hs).
      exists t'. split_and!; [exact E|done|]. intros j Hj. rewrite Hs by done. by apply emptied_skip.
  - pose proof (zlen_nonneg ((if in_lane lane (rows t sc).[i] then [i] else []) ++ rest)) as Hz. assert (E : (if in_lane lane (rows t sc).[i] then [i] else []) ++ rest = []).
    { destruct (_ ++ rest) as [|x l]; [done|]. unfold zlen in *. cbn [length] in *. lia. }
    rewrite E. exists t. cbn [map]. rewrite app_nil_r. change (zlen []) with 0. rewrite Z.add_0_r. split_and!; [done|done|].
    intros j Hj. symmetry. apply (emptied_none _ _ _ (Datatypes.S n)); [by rewrite ready_cons|lia].
Qed.
Definition all_ready (t : EventTable) (sc : EventScope) (lane : Z) : list delivery :=
  map (delivery_of sc (rows t sc)) (ready lane (rows t sc) 0 (Z.to_nat (row_count t sc))).

Lemma all_ready_length t sc lane : events_ok t -> zlen (all_ready t sc lane) = row_waiting lane (rows t sc).
Proof.
  intros Hok. rewrite row_waiting_ready. unfold all_ready, zlen. rewrite length_map. rewrite <- (eo_rows _ Hok). unfold zlen. by rewrite Nat2Z.id.
Qed.

(** One row of a dispatch that may take everything of its lane there. *)
Lemma silent_whole t sc lane wanted log : events_ok t -> 0 <= lane < laneCount t -> row_waiting lane (rows t sc) <= wanted < 2 ^ 32 ->
  exists t', DispatchRow silent (Z.to_nat (row_count t sc)) 0 t sc lane wanted 0 log = (row_waiting lane (rows t sc), t', log ++ all_ready t sc lane) /\
    events_ok t' /\ same_shape t t' /\
    (forall sc' j, 0 <= j < row_count t sc' -> (rows t' sc').[j] = if decide (sc' = sc) then emptied lane 0 j (rows t sc').[j] else (rows t sc').[j]) /\
    (forall sc', sc' <> sc -> rows t' sc' = rows t sc').
Proof using.
  intros Hok Hl Hw. pose proof (row_count_nonneg t sc Hok). pose proof (all_ready_length t sc lane Hok) as HL.
  assert (HR : zlen (ready lane (rows t sc) 0 (Z.to_nat (row_count t sc))) = row_waiting lane (rows t sc)) by (rewrite <- HL; unfold all_ready, zlen; by rewrite length_map).
  destruct (silent_row (Z.to_nat (row_count t sc)) 0 t sc lane wanted 0 log Hok ltac:(lia) ltac:(lia) Hl ltac:(lia) ltac:(lia) ltac:(lia)) as (t'&E&Ho&Hs).
  pose proof (DispatchRow_keeps silent (fun _ => Forall_nil_2 _) (Z.to_nat (row_count t sc)) 0 t sc lane wanted 0 log Hok ltac:(lia) ltac:(lia) Hl) as HK.
  rewrite E in HK. destruct HK as (Hok'&Hsh&_). rewrite HR in E. exists t'. split_and!; [exact E|done|done| |done].
  intros sc' j Hj. case_decide as D; [subst sc'; by apply Hs|by rewrite Ho].
Qed.

Definition walked (t t' : EventTable) (sc : EventScope) (lane : Z) : Prop :=
  events_ok t' /\ same_shape t t' /\
  (forall sc' j, 0 <= j < row_count t sc' -> (rows t' sc').[j] = if decide (sc' = sc) then emptied lane 0 j (rows t sc').[j] else (rows t sc').[j]) /\
  (forall sc', sc' <> sc -> rows t' sc' = rows t sc').

Lemma walked_none t sc lane : events_ok t -> row_waiting lane (rows t sc) = 0 -> all_ready t sc lane = [] /\ walked t t sc lane.
Proof using.
  intros Hok E. pose proof (all_ready_length t sc lane Hok) as HL. rewrite E in HL. assert (EA : all_ready t sc lane = []) by (destruct (all_ready t sc lane); [done|unfold zlen in HL; cbn in HL; lia]).
  split; [done|]. split_and!; [done|done| |done]. intros sc' j Hj. case_decide as D; [|done]. subst sc'. symmetry.
  apply (emptied_none _ _ _ (Z.to_nat (row_count t sc))); [by apply map_eq_nil in EA|lia].
Qed.

(** A later row, walked only while something is still wanted. *)
Lemma silent_stage t sc lane wanted taken log : events_ok t -> 0 <= lane < laneCount t -> 0 <= taken -> taken + row_waiting lane (rows t sc) <= wanted < 2 ^ 32 ->
  exists t', (if taken <? wanted then DispatchRow silent (Z.to_nat (row_count t sc)) 0 t sc lane (wanted - taken) 0 log else (0, t, log)) =
      (row_waiting lane (rows t sc), t', log ++ all_ready t sc lane) /\ walked t t' sc lane.
Proof using.
  intros Hok Hl Ht Hw. pose proof (row_waiting_nonneg lane (rows t sc)) as [Hn _]. destruct (Z.ltb_spec taken wanted).
  - destruct (silent_whole t sc lane (wanted - taken) log Hok Hl ltac:(lia)) as (t'&E&H'). by exists t'.
  - assert (E : row_waiting lane (rows t sc) = 0) by lia. destruct (walked_none t sc lane Hok E) as [EA HW]. exists t. rewrite E, EA, app_nil_r. done.
Qed.

(** It hands over every entry of its lane, once each and in the order of the rows, and
    empties those and no other. *)
Theorem Dispatch_exact t lane : events_ok t -> hooked t = true -> 0 <= lane < laneCount t ->
  let '(t', log) := Dispatch silent t lane in
  log = all_ready t OUT_FLOW lane ++ all_ready t IN_FLOW lane ++ all_ready t PEER lane /\ events_ok t' /\
  (forall sc j, 0 <= j < row_count t sc -> (rows t' sc).[j] = emptied lane 0 j (rows t sc).[j]).
Proof using.
  intros Hok Hh Hl. unfold Dispatch. rewrite Hh. cbn [negb orb]. destruct (Z.leb_spec (laneCount t) lane); [lia|]. rewrite (eo_count _ Hok) by done.
  pose proof (waiting_bound t lane Hok) as HB. unfold waiting in *.
  pose proof (row_waiting_nonneg lane (rows t OUT_FLOW)) as [HO _]. pose proof (row_waiting_nonneg lane (rows t IN_FLOW)) as [HI _]. pose proof (row_waiting_nonneg lane (rows t PEER)) as [HP _].
  destruct (Z.eqb_spec (row_waiting lane (rows t OUT_FLOW) + row_waiting lane (rows t IN_FLOW) + row_waiting lane (rows t PEER)) 0) as [E|E].
  { assert (HN : forall sc, row_waiting lane (rows t sc) = 0) by (intros []; lia). split_and!; [|done|].
    - by rewrite !(proj1 (walked_none t _ lane Hok (HN _))).
    - intros sc j Hj. destruct (proj2 (walked_none t sc lane Hok (HN sc))) as (_&_&H1&_). rewrite H1 at 1 by done. by rewrite decide_True. }
  set (wanted := _ + _ + _) in *. destruct (silent_whole t OUT_FLOW lane wanted [] Hok Hl ltac:(lia)) as (u&->&Hu&Hsu&Hru&Hou). cbn [app].
  assert (Elu : laneCount u = laneCount t) by apply Hsu. assert (EI : rows u IN_FLOW = rows t IN_FLOW) by by apply Hou. assert (EP : rows u PEER = rows t PEER) by by apply Hou.
  destruct (silent_stage u IN_FLOW lane wanted (row_waiting lane (rows t OUT_FLOW)) (all_ready t OUT_FLOW lane) Hu ltac:(lia) HO ltac:(rewrite EI; lia)) as (v&->&Hv&Hsv&Hrv&Hov).
  assert (Elv : laneCount v = laneCount u) by apply Hsv. assert (EP' : rows v PEER = rows t PEER) by (rewrite <- EP; by apply Hov).
  rewrite EI, u32_small by lia.
  destruct (silent_stage v PEER lane wanted (row_waiting lane (rows t OUT_FLOW) + row_waiting lane (rows t IN_FLOW)) (all_ready t OUT_FLOW lane ++ all_ready u IN_FLOW lane) Hv ltac:(lia) ltac:(lia) ltac:(rewrite EP'; lia)) as (w&->&Hw&Hsw&Hrw&How).
  assert (Ec : forall sc, row_count u sc = row_count t sc /\ row_count v sc = row_count t sc) by (intros sc; destruct Hsu as [A _], Hsv as [B _]; by rewrite B, A).
  split_and!; [|done|].
  - unfold all_ready. rewrite (proj1 (Ec IN_FLOW)), (proj2 (Ec PEER)), EI, EP'. by rewrite <- app_assoc.
  - intros sc j Hj. rewrite Hrw by (rewrite (proj2 (Ec sc)); done). rewrite Hrv by (rewrite (proj1 (Ec sc)); done). rewrite Hru by done. by destruct sc.
Qed.
End Silent.

(** Two lanes: a dispatch takes its own, events of one peer arrive together, and what a
    handler records behind the walk waits for the next poll. *)
Example event_rows :
  let p := mk_addr 2 7000 [10; 0; 0; 1] 0 in
  let t := (EventTable_Init (mk_events (fun _ => []) (fun _ => 0) [] 0 false 0) true 2047 3 3 2 2).2 in
  let t := record_all t [mk_note OUT_FLOW 0 0 OUTGOING_FLOW_LOST p 5; mk_note OUT_FLOW 2 1 OUTGOING_FLOW_LOST p 6;
                         mk_note PEER 1 0 PEER_ESTABLISHED p INVALID_FLOW_ID; mk_note PEER 1 0 PEER_LOST p INVALID_FLOW_ID] in
  let handler (log : list delivery) := if zlen log =? 1 then [mk_note OUT_FLOW 0 0 OUTGOING_FLOW_REFUSED p 5] else [] in
  let '(t, first) := Dispatch handler t 0 in
  first = [(mk_info 4 p 5, OUT_FLOW, 0); (mk_info 48 p INVALID_FLOW_ID, PEER, 1)] /\
  (Dispatch (fun _ => []) t 0).2 = [(mk_info 2 p 5, OUT_FLOW, 0)] /\ (Dispatch (fun _ => []) t 1).2 = [(mk_info 4 p 6, OUT_FLOW, 2)].
Proof. by vm_compute. Qed.
